(* ===== verification/_CoqProject ===== *)
-Q . S2P
Prelude.v
Str.v
Digits.v
IpAddr.v
IpBlock.v
IpText.v
NetPolicy.v
AppPath.v
Glob.v
AppIdentity.v
AutoRule.v
HostMatch.v
Canonical.v
Normalize.v
Matching.v
TokenStore.v
TimedWindow.v
FakePool.v
FakeIp.v
RuleLine.v
RuleClass.v
RulesFile.v
RuleValue.v
RuleAccept.v
Validation.v
Convert.v
WindowFile.v
DnsWire.v
Coalescer.v
LinkLiveness.v
NetClaims.v
HostCache.v
PublicZone.v
AddressOwner.v
AddressContest.v
AddressEngine.v
ScopedPlan.v
AppGate.v
BlockSplit.v
Carving.v
RouteTable.v
Reconcile.v
RouteReading.v
NetworkPlan.v
RouteGen.v
RoutePlan.v
Netlink.v
LinuxTable.v
PolicyRules.v
RouteApply.v
