(* ===== verification/Prelude.v ===== *)
(** * NetRuleRouter: a verification development

    NetRuleRouter sends each connection of a machine over one of two network
    links, the primary or the secondary one, by rules the user writes: host
    names, zones, addresses, networks, address ranges and programs.  A rule
    travels through the program as follows.

    - The user writes a rules file; the clients edit it with one parser, the
      service reads and writes it with another one.
    - The service turns the file into a rule set, validates it and stores it in
      canonical form; a two-phase protocol with confirmation tokens applies it.
    - An observed connection is normalized and matched against the canonical
      rules; the winner gives the link, or the connection is blocked.
    - Names that must be routed get fake addresses from a reserved pool, so that
      the address of a packet leads back to the name.
    - Kernel routes and filters know addresses only.  From the rules and the names
      the cache holds for each address, an arbiter decides which link an address
      belongs to, so that what is enforced is what the decision says.
    - The service writes the routes of the rules into the system table beside those
      of other programs: a generator computes the rows that are wanted, a
      reconciler brings the table to them in transactions and remembers which rows
      are its own, and a signature tells them apart after a crash.
    - On Linux every present user has a table of their own: the plan of each user
      goes to it, routing rules written over netlink send the packets of a user to
      it, and the owner's plan serves the service accounts too.

    The development follows that path.  Every operation is an executable
    function with the name it has in the code, written for the data the code
    has: text is a list of Unicode scalar values, machine integers are [Z] with
    their wrap-around or saturation written out, a call that may fail returns
    [option] or [result], warnings are a list beside the result, and mutable
    objects are passed as explicit state.

    ** The files

    - [Prelude]: Rust's [Ordering], insertion in sorted lists, generic lemmas on
      lists, and the automation ([nrr] hints, [crush_match], [reflect_bools]).
    - [Str], [Digits]: [str] and [char] methods, [u8]/[u32] number texts.  The
      Unicode tables are the class [Unicode]; [ascii_unicode] is an instance.
    - [IpAddr]: addresses of [std::net], their texts and parsers.
    - [IpBlock], [IpText]: shared/contracts/src/ip_block.rs.  Networks, ranges, the
      split of a range into networks, texts.
    - [NetPolicy]: core/domain/src/address_class.rs, ip_network_policy.rs.  Classes
      of addresses; which networks a rule may name; local segments.
    - [AppPath], [Glob], [AppIdentity]: the files of those names in
      shared/contracts/src.  Paths of program rules, wildcards, program names.
    - [AutoRule]: shared/contracts/src/auto_rule.rs, the provenance of rules the
      program wrote itself.
    - [HostMatch]: host names against zones, suffixes and any-zone names
      (decision_matching.rs).
    - [Canonical]: core/domain/src/canonical.rs.  Rules, their order, rule sets and
      books, and the derived rules for subdomains, zones and checked sites.
    - [Normalize]: core/domain/src/decision_normalization.rs.
    - [Matching]: core/domain/src/decision_matching.rs, decision_pipeline.rs and
      decision_rules_matching.rs.  Candidates, vetoes, tiers, the winner.
    - [TokenStore]: service-runtime/src/ipc_handlers/mutation_token_store.rs.
    - [TimedWindow]: service-runtime/src/timed_window.rs, switches that close
      themselves, with their timer threads.
    - [FakePool], [FakeIp]: core/platform/api/src/fake_ip/allocator.rs.
    - [RuleLine], [RulesFile]: one line of a rules file, and the service's file
      (core/domain/src/rules_file, shared/contracts/src/preset_parser).
    - [WindowFile]: the clients' parser and the sections carried between texts.
    - [RuleClass]: shared/contracts/src/rule_value_class.rs, what a spelling names.
    - [RuleValue], [RuleAccept], [Validation]: core/domain/src/validation.rs.  One
      rule; what is accepted; the whole configuration.
    - [Convert]: core/domain/src/rules_file/convert.rs.
    - [DnsWire]: service-runtime/src/dns_wire.rs, shared/contracts/src/dns_name.rs.
      The DNS messages of the resolver and of upstream servers.
    - [Coalescer]: service-runtime/src/recompute_coalescer.rs, callers that share
      enforcement passes, as interleaved threads.
    - [LinkLiveness]: service-runtime/src/secondary_liveness.rs, the verdict on the
      secondary link.
    - [NetClaims]: core/domain/src/rule_shape.rs, and the networks of the two links
      in service-runtime/src/address_ownership.rs.
    - [HostCache]: core/storage/src/suffix_window.rs and service-runtime/src/
      fqdn_cache_lookup.rs.  The snapshot of the names of addresses and its index.
    - [PublicZone]: core/domain/src/public_zone.rs.
    - [AddressOwner]: the operations of service-runtime/src/address_ownership.rs:
      the claims, the arbiter and its questions, the gate of program destinations.
      [AddressContest] holds the contest of the links for one address and the
      blocks; [AddressEngine] compares the arbiter with the engine of [Matching];
      [ScopedPlan] compares a plan about some addresses with the whole plan;
      [AppGate] is about programs.
    - [BlockSplit]: halves of a network, a network cut around holes, a network split
      against competing routes (enforcement_planner/networks.rs and
      route_codegen/network_routes.rs of the service runtime).
    - [Carving]: the rest of enforcement_planner/networks.rs, the pieces the filters
      of a network rule get.
    - [RouteTable]: rows, errors and their classes, the route table port, the
      signature of our rows, the sweep and transactions (types.rs, error.rs,
      route_table.rs, route_signature.rs, routing.rs in core/platform/api/src).
    - [Reconcile]: the reconciler of service-runtime/src/route_reconciler.rs, with the
      steps other programs make in between.
    - [RouteReading]: what is read from a route table: owners of rows, segments,
      tunnels and servers (route_reconciler.rs, route_codegen.rs, network_routes.rs).
    - [NetworkPlan]: the routes of network rules (network_routes.rs).
    - [RouteGen]: service-runtime/src/route_codegen.rs, all routes of a rule book.
    - [RoutePlan]: enforcement_planner/routes.rs of the service runtime and
      core/platform/api/src/route_lowering.rs, the neutral plan of routes and its
      lowering to rows.
    - [Netlink]: core/platform/linux/src/route_table.rs, routes and routing rules as
      netlink messages.
    - [LinuxTable]: a route table as the Linux kernel keeps it, to show that the laws
      of tables hold there; it stands for the kernel, not for code of the program.
    - [PolicyRules]: core/platform/linux/src/policy_routing.rs and
      service_account_uids.rs, the tables of users, the rules that select them and
      the pass over the rules of the kernel; [kernel_walk] and [fib_walk] specify what
      the kernel does with a whole list of rules and with ours.
    - [RouteApply]: service-runtime/src/route_apply.rs, the planned routes of all
      users put into the tables; the section on Linux joins it with [PolicyRules].

    Components meet in interfaces.  [Str.Unicode] and [Normalize.Idna] stand for
    the Unicode tables and the crate idna; [RuleAccept.IdnaLaws] states the two
    facts of UTS 46 the code relies on (the result is ASCII, and in lower case),
    with [sample_idna] as an instance.  [HostCache.FqdnCacheLookup] is what the
    arbiter asks of the name cache, discharged by the snapshot and by the cache
    with denied addresses; [AddressOwner.AppObservationLookup] is what the gate
    asks of the observed destinations.  [RouteTable.RouteTablePort] is the kernel's
    table as transactions and the reconciler use it, and [RouteTable.Libc] the error
    numbers of the system.  Two classes state what a table that may refuse any call
    promises.  [RouteTable.KernelLaws] is a table that knows its rows by key, as the
    Windows one does; the table [BookTable] with locked rows is an instance.
    [RouteTable.TableLaws] says less and holds for both systems: rows may differ in
    the metric only, a table may show a row with another next hop or table than it
    was written with, and a delete names the rows it would take; [BookTable] and
    [LinuxTable.KernelTable] are instances.
    [PolicyRules.RuleKernel] is a kernel that answers netlink requests about rules
    and [PolicyRules.RuleLaws] its laws: a delete takes the first rule of the list it
    matches, which may be another one than was meant, and an old kernel may drop the
    uid range of a rule it takes; a kernel that reads the requests off the wire is an
    instance.  [RouteApply.PrincipalRoutingPort] is routing by user as a pass uses it,
    with the laws [RouteApply.PortLaws]; the Linux port is an instance.
    [Prelude.CmpOrder] is what Rust's sorts ask of a comparison; the orders of
    rules, candidates and addresses are instances.

    ** What the theorems show

    - Decision: the route of a connection is that of a best matching rule, a
      block cannot be outvoted by a weaker tier, the winner is a maximum of the
      documented order, and the order of the rules does not matter.
    - Networks: a range becomes exactly the networks that cover it, in order and as
      few as can be; the policy tables agree with the classes of addresses; a
      local segment is exempt exactly where it is private.
    - Enforcement: the link the arbiter gives an address is the link the decision
      engine picks for a connection to it; it is said exactly when the kill switch
      may block an address, never one of the main link; a block yields exactly to a
      narrower route; a plan about a few
      addresses agrees with the whole plan; a program gets exactly the observed
      addresses that are free for it.
    - Routes: a rolled back batch leaves the table as it was, except for the rows it
      names, rows of other programs are never touched and our claims are true through
      every interleaving with them, on tables that know their rows by key; a pass
      brings the table of either system to the plan; a contested row is given up; what the generator emits is recognised after a
      crash.  The rows are the ones the rules want: host routes are the
      destinations the arbiter leaves to the link, the longest route over an
      address of a network rule is of the link that claims it, and what no rule
      names rides the main link past a tunnel that redirects everything.  The
      neutral plan gives the rows of the generator.
    - Users: of the rules in our band a packet meets those of its sender only: it is
      decided by the table of its sender and the main one, unless a rule of others in
      front of the band answers it, and by the rules behind the band where these do
      not; the table of a user holds the rows of their own plan and no other; a first
      pass takes over whatever a previous run left, a clear restores the machine's
      own routing, and a kernel that cannot select by user is left without rules
      of ours.  These need the rows and rules of ours that a previous run left to be
      told apart by what a delete names, which a pass over the rules keeps true.  Rules of others move only by one shift behind ours.  It is said
      exactly when the rules keep the longest prefix; what is written to the
      kernel reads back.
    - Filters of networks cover what the arbiter gives to their link, and no address
      of the other link but those a program took over or the policy keeps shared.
    - Lookups: longest prefix by masks, suffixes by reversed names and the window of
      a crowded suffix are the plain definitions they optimise.
    - Text: addresses, networks and ranges, rules files and the sections a client
      carries read back as written; what a client shows is what the service reads.
    - Validation: what is accepted is canonical, no rule disappears without a
      warning, errors name rules of the file, and one rule per match is kept
      whatever the order of lines.  A canonical set exported, read and validated
      again is the same set.
    - Fake addresses: a name and its address determine each other through every
      sequence of calls, a binding in use is kept, an allocation fails only on a
      full pool, observers and restored tables follow.
    - Tokens and switches: a token works once, for the operation previewed and
      its principal; a timer ends its own window only, and does end it.
    - DNS: only records on the alias chain of the name asked add addresses; what the
      resolver answers or refuses is read back as such; the readers end on every
      packet and stay inside it; TCP frames read back.
    - Threads: in every interleaving one pass runs at a time, a call returns only
      after a pass that started after it, and all callers come back.
    - The verdict on the secondary link is a function of the recorded results.
    - Matchers: the wildcard loop is the usual relation of patterns and texts, a
      path rule matches only images below its path.

    A part of a function of the code that is a definition of its own here stands
    next to the one that carries the function's name.
    Theorems that carry a number C1, C2, ... are the main ones.  Examples next to
    them show behaviour the code does not intend; they are kept as evidence.

    ** Fuel and bounds

    - [IpBlock.decompose_loop] runs with fuel 258: it makes at most twice the bits
      of an address and one more turns, so the fuel is never used up
      ([decompose_loop_tiles]).
    - [Glob.glob_loop] runs with [glob_fuel], linear in the product of the two
      lengths, and [glob_loop_accepts] shows that it answers within it.
    - [AutoRule.read_tokens] has the length of the text as fuel, and every turn
      takes a character; the other readers recurse on the text or its lines.
    - [TimedWindow.expire_at] takes the clock readings of its looks as a list; the
      theorem on closing says how many are enough.
    - [DnsWire] reads a name with 200 turns: a name has at most 127 labels and 32
      jumps ([dns_names_total]); [skip_encoded_name] has the packet's length.
    - [Coalescer.bound] bounds the steps of calls under way; the number of threads
      is any [nat].
    - [HostCache.window_loop] and the passes of [AddressOwner] recurse on their lists.
    - [BlockSplit.carve_loop] and [BlockSplit.without_loop] halve a network at every
      turn and have the bits left below its prefix as fuel.
    - The walks of [Netlink] over messages and attributes have the octets left as
      fuel and take some at every turn; the byte order is an argument.
      [PolicyRules.displaced_loop] has the priority it starts from as fuel.
    - The write counter of the reconciler is a [u64] that wraps; instants are
      nanoseconds as [Z]; clock readings and the answers of the teardown latch are
      arguments of a pass.
    - Caps ([FREE_MAX_RULES], routes and pieces per rule, the fan-out of a suffix, addresses per host, tokens per principal and in total, the width of
      rules, pool sizes) are those of the code.

    ** Not modelled

    - The operating system side: packet filters, netlink sockets, adapters, process
      and service control (the rest of core/platform/linux, windows, nftlink, the
      two service binaries).  These files are calls of kernel interfaces.
    - Storage (SQL), the user interfaces (apps, client-logic, ui-support), log
      texts, locale keys, derived serialization, hashes.
    - In the domain: review and merge of revisions, presets, risk levels, notices,
      traffic accounting and the JSON codec.  In the service: the plan of
      filters other than those of networks, the kill switch, the passes over the
      filters of users, DNS sockets, the reads of the database behind the name cache and the observed
      destinations, and request handlers.  Of the readings of the route table, the
      segments of virtual machines, which are found by the names of adapters.
    - Threads appear as interleaved steps where the code is about them
      ([TimedWindow], [Coalescer]); elsewhere a lock makes a call one step. *)

From Stdlib Require Import ZArith Lia.
From stdpp Require Import base sorting numbers list list_numbers.

(** ** Notations and tactics of the development *)

Declare Scope nrr_scope.
Delimit Scope nrr_scope with nrr.

Create HintDb nrr discriminated.

(** Splits every [match]/[if] of the goal and the context, keeping the
    equations, and closes what becomes trivial. *)
Ltac crush_match :=
  repeat (case_match; simplify_eq/=; try done).

(** Turns boolean facts of the context into propositions. *)
Ltac reflect_bools :=
  repeat match goal with
  | H : _ && _ = true |- _ => apply andb_true_iff in H as [? ?]
  | H : _ || _ = false |- _ => apply orb_false_iff in H as [? ?]
  | H : negb _ = true |- _ => apply negb_true_iff in H
  | H : negb _ = false |- _ => apply negb_false_iff in H
  | H : bool_decide _ = true |- _ => apply bool_decide_eq_true in H
  | H : bool_decide _ = false |- _ => apply bool_decide_eq_false in H
  end.

(** ** Rust's [Ordering]

    [std::cmp::Ordering] is [comparison]; a [sort_by] closure is a function
    into it, built with [then_with], [cmp] on a key and [reverse]. *)

Definition then_with (a b : comparison) : comparison :=
  match a with Eq => b | _ => a end.

Section Orderings.
Context {A B : Type}.

(** [x.cmp(y).then_with(..)] as a combinator on comparison functions. *)
Definition cmp_then (c1 c2 : A -> A -> comparison) : A -> A -> comparison :=
  fun x y => then_with (c1 x y) (c2 x y).

(** Comparing by a key. *)
Definition cmp_on (f : A -> B) (c : B -> B -> comparison) : A -> A -> comparison :=
  fun x y => c (f x) (f y).

(** [b.cmp(a)]: the descending order. *)
Definition cmp_rev (c : A -> A -> comparison) : A -> A -> comparison :=
  fun x y => c y x.

End Orderings.
#[global] Typeclasses Opaque cmp_then cmp_on cmp_rev.

(** A comparison function that is a total preorder, the contract Rust's sorts
    ask of their closure. *)
Class CmpOrder {A} (c : A -> A -> comparison) : Prop := {
  cmp_opp : forall x y, c y x = CompOpp (c x y);
  cmp_le_trans : forall x y z, c x y <> Gt -> c y z <> Gt -> c x z <> Gt;
}.

(** A preorder whose ties are equal elements: Rust's [Ord]. *)
Class CmpTotal {A} (c : A -> A -> comparison) : Prop := {
  cmp_total_order : CmpOrder c;
  cmp_eq : forall x y, c x y = Eq -> x = y;
}.
#[export] Existing Instance cmp_total_order.

Arguments cmp_opp {A} c {_} x y.
Arguments cmp_le_trans {A} c {_} x y z _ _.
Arguments cmp_eq {A} c {_} x y _.

Section CmpFacts.
Context {A : Type} (c : A -> A -> comparison) `{!CmpOrder c}.

Lemma cmp_refl x : c x x = Eq.
Proof. pose proof (cmp_opp c x x) as H. destruct (c x x); done. Qed.

Lemma cmp_gt_lt x y : c x y = Gt <-> c y x = Lt.
Proof. rewrite (cmp_opp c y x). destruct (c y x); naive_solver. Qed.

Lemma cmp_eq_sym x y : c x y = Eq -> c y x = Eq.
Proof. rewrite (cmp_opp c x y). by intros ->. Qed.

Lemma cmp_total_le x y : c x y <> Gt \/ c y x <> Gt.
Proof. rewrite (cmp_opp c x y). destruct (c x y); naive_solver. Qed.

Lemma cmp_eq_l x y z : c x y = Eq -> c x z = c y z.
Proof.
  intros E. pose proof (cmp_eq_sym x y E) as E'.
  pose proof (cmp_le_trans c x y z) as T1. pose proof (cmp_le_trans c y x z) as T2.
  pose proof (cmp_le_trans c z x y) as T3. pose proof (cmp_le_trans c z y x) as T4.
  rewrite E, E' in *. rewrite (cmp_opp c x z), (cmp_opp c y z) in *.
  destruct (c x z), (c y z); simpl in *; naive_solver.
Qed.

Lemma cmp_eq_r x y z : c x y = Eq -> c z x = c z y.
Proof. intros E. rewrite (cmp_opp c x z), (cmp_opp c y z). by rewrite (cmp_eq_l x y z). Qed.

Lemma cmp_lt_trans x y z : c x y = Lt -> c y z = Lt -> c x z = Lt.
Proof.
  intros H1 H2. pose proof (cmp_le_trans c x y z) as T. rewrite H1, H2 in T.
  destruct (c x z) eqn:E; [|done|naive_solver].
  rewrite (cmp_eq_l x z y E), (cmp_opp c y z), H2 in H1. done.
Qed.

Lemma cmp_lt_le_trans x y z : c x y = Lt -> c y z <> Gt -> c x z = Lt.
Proof.
  intros H1 H2. destruct (c y z) eqn:E; [|by eapply cmp_lt_trans|done].
  by rewrite <- (cmp_eq_r y z x E).
Qed.

Lemma cmp_le_lt_trans x y z : c x y <> Gt -> c y z = Lt -> c x z = Lt.
Proof.
  intros H1 H2. destruct (c x y) eqn:E; [|by eapply cmp_lt_trans|done].
  by rewrite (cmp_eq_l x y z E).
Qed.

End CmpFacts.

#[export] Instance cmp_then_order {A} (c1 c2 : A -> A -> comparison) :
  CmpOrder c1 -> CmpOrder c2 -> CmpOrder (cmp_then c1 c2).
Proof.
  intros H1 H2. split; unfold cmp_then.
  - intros x y. rewrite (cmp_opp c1 x y), (cmp_opp c2 x y). by destruct (c1 x y).
  - intros x y z. destruct (c1 x y) eqn:E1; simpl.
    + rewrite (cmp_eq_l c1 x y z E1). destruct (c1 y z); simpl; [|done|done].
      exact (cmp_le_trans c2 x y z).
    + intros _ Hyz. rewrite (cmp_lt_le_trans c1 x y z E1); [done|].
      destruct (c1 y z); done.
    + done.
Qed.

#[export] Instance cmp_on_order {A B} (f : A -> B) c : CmpOrder c -> CmpOrder (cmp_on f c).
Proof.
  intros H. split; unfold cmp_on.
  - intros x y. exact (cmp_opp c _ _).
  - intros x y z. exact (cmp_le_trans c _ _ _).
Qed.

#[export] Instance cmp_rev_order {A} (c : A -> A -> comparison) :
  CmpOrder c -> CmpOrder (cmp_rev c).
Proof.
  intros H. split; unfold cmp_rev.
  - intros x y. exact (cmp_opp c _ _).
  - intros x y z Hxy Hyz. exact (cmp_le_trans c z y x Hyz Hxy).
Qed.

#[export] Instance N_compare_total : CmpTotal N.compare.
Proof.
  split; [split|].
  - intros x y. apply N.compare_antisym.
  - intros x y z. rewrite !N.compare_le_iff. lia.
  - intros x y. apply N.compare_eq.
Qed.

#[export] Instance Z_compare_total : CmpTotal Z.compare.
Proof.
  split; [split|].
  - intros x y. apply Z.compare_antisym.
  - intros x y z. rewrite !Z.compare_le_iff. lia.
  - intros x y. apply Z.compare_eq.
Qed.

#[export] Instance Nat_compare_total : CmpTotal Nat.compare.
Proof.
  split; [split|].
  - intros x y. apply Nat.compare_antisym.
  - intros x y z. rewrite !Nat.compare_le_iff. lia.
  - intros x y. apply Nat.compare_eq.
Qed.

(** [false < true]. *)
Definition bool_cmp (a b : bool) : comparison :=
  match a, b with
  | false, true => Lt
  | true, false => Gt
  | _, _ => Eq
  end.

#[export] Instance bool_cmp_total : CmpTotal bool_cmp.
Proof.
  split; [split|].
  - by intros [] [].
  - by intros [] [] []; simpl.
  - by intros [] [].
Qed.

(** [None < Some(_)]. *)
Definition option_cmp {A} (c : A -> A -> comparison) (x y : option A) : comparison :=
  match x, y with
  | None, None => Eq
  | None, Some _ => Lt
  | Some _, None => Gt
  | Some a, Some b => c a b
  end.

#[export] Instance option_cmp_order {A} (c : A -> A -> comparison) :
  CmpOrder c -> CmpOrder (option_cmp c).
Proof.
  intros H. split.
  - intros [x|] [y|]; simpl; try done. exact (cmp_opp c _ _).
  - intros [x|] [y|] [z|]; simpl; try done. exact (cmp_le_trans c x y z).
Qed.

#[export] Instance option_cmp_total {A} (c : A -> A -> comparison) :
  CmpTotal c -> CmpTotal (option_cmp c).
Proof.
  intros H. split; [apply _|].
  intros [x|] [y|]; simpl; try done. intros ?%(cmp_eq _). by subst.
Qed.

(** Tuples compare componentwise, the first difference deciding. *)
Definition pair_cmp {A B} (c1 : A -> A -> comparison) (c2 : B -> B -> comparison)
  : A * B -> A * B -> comparison :=
  cmp_then (cmp_on fst c1) (cmp_on snd c2).

#[export] Instance pair_cmp_order {A B} (c1 : A -> A -> comparison) (c2 : B -> B -> comparison) :
  CmpOrder c1 -> CmpOrder c2 -> CmpOrder (pair_cmp c1 c2).
Proof. unfold pair_cmp. apply _. Qed.

#[export] Instance pair_cmp_total {A B} (c1 : A -> A -> comparison) (c2 : B -> B -> comparison) :
  CmpTotal c1 -> CmpTotal c2 -> CmpTotal (pair_cmp c1 c2).
Proof.
  intros H1 H2. split; [apply _|].
  intros [x1 x2] [y1 y2]. unfold pair_cmp, cmp_then, cmp_on; simpl.
  destruct (c1 x1 y1) eqn:E; simpl; try done.
  apply (cmp_eq _) in E. intros ?%(cmp_eq _). by subst.
Qed.

(** Slices and strings compare lexicographically. *)
Fixpoint list_cmp {A} (c : A -> A -> comparison) (l k : list A) : comparison :=
  match l, k with
  | [], [] => Eq
  | [], _ :: _ => Lt
  | _ :: _, [] => Gt
  | x :: l, y :: k => then_with (c x y) (list_cmp c l k)
  end.

#[export] Instance list_cmp_order {A} (c : A -> A -> comparison) :
  CmpOrder c -> CmpOrder (list_cmp c).
Proof.
  intros H. split.
  - intros l. induction l as [|x l IH]; intros [|y k]; simpl; try done.
    rewrite (cmp_opp c x y), IH. by destruct (c x y).
  - intros l. induction l as [|x l IH]; intros [|y k] [|z m]; simpl; try done.
    destruct (c x y) eqn:E1; simpl.
    + rewrite (cmp_eq_l c x y z E1). destruct (c y z); simpl; [apply IH|done|done].
    + intros _ Hyz. rewrite (cmp_lt_le_trans c x y z E1); [done|].
      destruct (c y z); done.
    + done.
Qed.

#[export] Instance list_cmp_total {A} (c : A -> A -> comparison) :
  CmpTotal c -> CmpTotal (list_cmp c).
Proof.
  intros H. split; [apply _|].
  intros l. induction l as [|x l IH]; intros [|y k]; simpl; try done.
  destruct (c x y) eqn:E; simpl; try done.
  apply (cmp_eq _) in E. intros ?%IH. by subst.
Qed.

(** ** Sorting

    [slice::sort_by] is stable; [sort_unstable_by] agrees with it up to the
    order of tied elements, and every use in the program ties only elements the
    comparison cannot tell apart. Both are modelled by stable insertion. *)

Section SortBy.
Context {A : Type} (c : A -> A -> comparison).

Fixpoint insert_by (x : A) (l : list A) : list A :=
  match l with
  | [] => [x]
  | y :: l' =>
      match c x y with
      | Gt => y :: insert_by x l'
      | _ => x :: y :: l'
      end
  end.

Fixpoint sort_by (l : list A) : list A :=
  match l with
  | [] => []
  | x :: l' => insert_by x (sort_by l')
  end.

Definition cmp_le (x y : A) : Prop := c x y <> Gt.

Lemma insert_by_perm x l : insert_by x l ≡ₚ x :: l.
Proof.
  induction l as [|y l IH]; simpl; [done|].
  destruct (c x y); [done|done|]. rewrite IH. apply Permutation_swap.
Qed.

Lemma sort_by_perm l : sort_by l ≡ₚ l.
Proof. induction l as [|x l IH]; simpl; [done|]. by rewrite insert_by_perm, IH. Qed.

Lemma sort_by_elem_of l x : x ∈ sort_by l <-> x ∈ l.
Proof. by rewrite sort_by_perm. Qed.

Lemma sort_by_length l : length (sort_by l) = length l.
Proof. apply Permutation_length, sort_by_perm. Qed.

Context `{!CmpOrder c}.

Lemma insert_by_sorted x l :
  StronglySorted cmp_le l -> StronglySorted cmp_le (insert_by x l).
Proof.
  induction 1 as [|y l Hl IH Hy]; simpl; [repeat constructor|].
  destruct (c x y) eqn:E.
  3: { constructor; [done|]. rewrite insert_by_perm. constructor; [|done].
       unfold cmp_le. apply cmp_gt_lt in E; [|done]. by rewrite E. }
  all: constructor; [by constructor|]; constructor; [unfold cmp_le; by rewrite E|].
  all: eapply Forall_impl; [exact Hy|]; intros z Hz; unfold cmp_le in *.
  all: by apply (cmp_le_trans c x y z); [rewrite E|].
Qed.

Lemma sort_by_sorted l : StronglySorted cmp_le (sort_by l).
Proof. induction l; simpl; [constructor|by apply insert_by_sorted]. Qed.

Lemma sort_by_id l : StronglySorted cmp_le l -> sort_by l = l.
Proof.
  induction 1 as [|x l Hl IH Hx]; simpl; [done|]. rewrite IH.
  destruct l as [|y l]; [done|]. simpl. apply Forall_inv in Hx as Hy.
  unfold cmp_le in Hy. by destruct (c x y).
Qed.

Lemma sort_by_idemp l : sort_by (sort_by l) = sort_by l.
Proof. apply sort_by_id, sort_by_sorted. Qed.

Lemma sort_by_head l x k y : sort_by l = x :: k -> y ∈ l -> c x y <> Gt.
Proof.
  intros E Hy. pose proof (sort_by_sorted l) as S. rewrite E in S.
  apply (sort_by_elem_of l) in Hy. rewrite E in Hy.
  apply StronglySorted_inv in S as [_ S]. rewrite Forall_forall in S.
  apply elem_of_cons in Hy as [->|Hy]; [by rewrite cmp_refl|]. by apply S.
Qed.

End SortBy.

Section SortOn.
Context {A : Type} (c : A -> A -> comparison) `{!CmpOrder c}.

(** Sorted lists with the same elements are equal when ties are equal. *)
Lemma sorted_perm_unique_on l k :
  (forall x y, x ∈ l -> y ∈ l -> c x y = Eq -> x = y) ->
  StronglySorted (cmp_le c) l -> StronglySorted (cmp_le c) k -> l ≡ₚ k -> l = k.
Proof.
  intros Hties Hl. revert k. induction Hl as [|x l Hl IH Hx]; intros k Hk P.
  { by apply Permutation_nil in P. }
  destruct Hk as [|y k Hk Hy]; [by apply Permutation_nil_r in P|].
  assert (x = y) as ->.
  { assert (Hxk : x ∈ y :: k) by (rewrite <- P; left).
    assert (Hyl : y ∈ x :: l) by (rewrite P; left).
    rewrite Forall_forall in Hx, Hy.
    apply elem_of_cons in Hxk as [->|Hxk]; [done|].
    apply elem_of_cons in Hyl as [->|Hyl]; [done|].
    specialize (Hx y Hyl). specialize (Hy x Hxk). unfold cmp_le in *.
    apply Hties; [left|by right|]. rewrite (cmp_opp c x y) in Hy. by destruct (c x y). }
  f_equal. apply IH; [intros; apply Hties; by try right|done|]. by apply Permutation_cons_inv in P.
Qed.

Lemma sort_by_canonical_on l k :
  (forall x y, x ∈ l -> y ∈ l -> c x y = Eq -> x = y) -> l ≡ₚ k -> sort_by c l = sort_by c k.
Proof.
  intros Hties P. apply sorted_perm_unique_on; [|apply sort_by_sorted, _..|by rewrite !sort_by_perm].
  intros x y. rewrite !sort_by_elem_of. apply Hties.
Qed.

End SortOn.

Section SortTotal.
Context {A : Type} (c : A -> A -> comparison) `{!CmpTotal c}.

(** A total order sorts every rearrangement of a list to the same list. *)
Lemma sort_by_canonical l k : l ≡ₚ k -> sort_by c l = sort_by c k.
Proof.
  intros P. apply sort_by_canonical_on; [apply _| |done]. intros x y _ _. apply (cmp_eq c).
Qed.

(** Sorting by a key sorts the keys. *)
Lemma sort_by_on {B} (f : B -> A) (l : list B) :
  f <$> sort_by (cmp_on f c) l = sort_by c (f <$> l).
Proof.
  induction l as [|x l IH]; csimpl; [done|]. rewrite <- IH.
  generalize (sort_by (cmp_on f c) l) as k. intros k.
  induction k as [|y k IHk]; csimpl; [done|].
  unfold cmp_on at 1. destruct (c (f x) (f y)); csimpl; try done. by rewrite <- IHk.
Qed.

End SortTotal.

(** ** Machine integers *)

Abbreviation u8_max := 255%Z.
Abbreviation u32_max := 4294967295%Z.
Abbreviation u64_max := 18446744073709551615%Z.
Abbreviation u128_max := 340282366920938463463374607431768211455%Z.
Abbreviation i64_max := 9223372036854775807%Z.
Abbreviation i64_min := (-9223372036854775808)%Z.

Definition in_u64 (x : Z) : Prop := (0 <= x <= u64_max)%Z.

(** [u64::saturating_sub]. *)
Definition u_sat_sub (a b : Z) : Z := Z.max 0 (a - b).

(** [i64::saturating_add]. *)
Definition i64_sat_add (a b : Z) : Z := Z.max i64_min (Z.min i64_max (a + b)).

(** [i64::saturating_sub]. *)
Definition i64_sat_sub (a b : Z) : Z := Z.max i64_min (Z.min i64_max (a - b)).

(** [u32::saturating_mul]. *)
Definition u32_sat_mul (a b : Z) : Z := Z.min u32_max (a * b).

(** [u64::wrapping_add]. *)
Definition u64_wrapping_add (a b : Z) : Z := (a + b) mod 2 ^ 64.

(** A counter that did not go down did not wrap. *)
Lemma wrapping_grows (g : Z) :
  (0 <= g < 2 ^ 64 -> g <= u64_wrapping_add g 1 -> u64_wrapping_add g 1 = g + 1)%Z.
Proof.
  unfold u64_wrapping_add. intros Hg Hle. destruct (Z.eq_dec (g + 1) (2 ^ 64))%Z as [E|E].
  - rewrite E, Z.mod_same in Hle; lia.
  - apply Z.mod_small. lia.
Qed.

Lemma wrapping_range (g : Z) : (0 <= u64_wrapping_add g 1 < 2 ^ 64)%Z.
Proof. apply Z.mod_pos_bound. lia. Qed.

(** ** Results *)

Inductive result (T E : Type) : Type :=
| Ok (t : T)
| Err (e : E).
Arguments Ok {T E} _.
Arguments Err {T E} _.

(** ** Lists and options the components share *)

(** [Iterator::find]. *)
Fixpoint find_first {A} (p : A -> bool) (l : list A) : option A :=
  match l with
  | [] => None
  | x :: l' => if p x then Some x else find_first p l'
  end.

Lemma find_first_Some {A} (p : A -> bool) l x :
  find_first p l = Some x -> x ∈ l /\ p x = true.
Proof.
  induction l as [|y l IH]; simpl; [done|].
  destruct (p y) eqn:E; [intros [= ->]; split; [left|done]|].
  intros [? ?]%IH. split; [by right|done].
Qed.

Lemma find_first_None {A} (p : A -> bool) l :
  find_first p l = None <-> forall x, x ∈ l -> p x = false.
Proof.
  induction l as [|y l IH]; simpl.
  - split; [intros _ x Hx; by apply not_elem_of_nil in Hx|done].
  - destruct (p y) eqn:E.
    + split; [done|]. intros H. specialize (H y (list_elem_of_here y l)). congruence.
    + rewrite IH. split; intros H x Hx; [|by apply H; right].
      apply elem_of_cons in Hx as [->|Hx]; auto.
Qed.

Lemma existsb_elem {A} (p : A -> bool) l :
  existsb p l = true <-> exists x, x ∈ l /\ p x = true.
Proof. rewrite existsb_exists. by setoid_rewrite list_elem_of_In. Qed.

Lemma existsb_false {A} (p : A -> bool) l :
  existsb p l = false <-> forall x, x ∈ l -> p x = false.
Proof.
  rewrite <- not_true_iff_false, existsb_elem. split.
  - intros H x Hx. apply not_true_iff_false. intros ?. apply H. eauto.
  - intros H [x [Hx Hp]]. rewrite (H x Hx) in Hp. done.
Qed.

(** ** Filtering with a Boolean test *)

Lemma filter_elem {A} (p : A -> bool) l x : x ∈ List.filter p l <-> x ∈ l /\ p x = true.
Proof. rewrite !list_elem_of_In. apply List.filter_In. Qed.

Lemma filter_all {A} (p : A -> bool) l : (forall x, x ∈ l -> p x = true) -> List.filter p l = l.
Proof.
  intros H. apply List.forallb_filter_id, List.forallb_forall. intros x Hx.
  apply H. by apply list_elem_of_In.
Qed.

Lemma filter_none {A} (p : A -> bool) l : (forall x, x ∈ l -> p x = false) -> List.filter p l = [].
Proof.
  intros H. induction l as [|x l IH]; simpl; [done|]. rewrite H by left.
  apply IH. intros y Hy. apply H. by right.
Qed.

Lemma filter_perm {A} (p : A -> bool) l k : l ≡ₚ k -> List.filter p l ≡ₚ List.filter p k.
Proof.
  induction 1 as [|x l k P IH|x y l|l k m P1 IH1 P2 IH2]; simpl; [done|..].
  - destruct (p x); [by f_equiv|done].
  - destruct (p y), (p x); try done. apply Permutation_swap.
  - by rewrite IH1.
Qed.

Lemma existsb_perm {A} (p : A -> bool) l k : l ≡ₚ k -> existsb p l = existsb p k.
Proof. intros P. apply eq_true_iff_eq. rewrite !existsb_elem. by setoid_rewrite P. Qed.

Lemma exists_elem_cons {A} (P : A -> Prop) x l : (exists y, y ∈ x :: l /\ P y) <-> P x \/ exists y, y ∈ l /\ P y.
Proof. setoid_rewrite elem_of_cons. naive_solver. Qed.

Lemma exists_elem_app {A} (P : A -> Prop) l k :
  (exists y, y ∈ l ++ k /\ P y) <-> (exists y, y ∈ l /\ P y) \/ exists y, y ∈ k /\ P y.
Proof. setoid_rewrite elem_of_app. naive_solver. Qed.

(** Of the elements a test accepts one has the greatest measure. *)
Lemma max_elem {A} (p : A -> bool) (f : A -> Z) (l : list A) :
  (exists x, x ∈ l /\ p x = true) -> exists x, x ∈ l /\ p x = true /\ forall y, y ∈ l -> p y = true -> (f y <= f x)%Z.
Proof.
  induction l as [|x l IH]; intros H; [by destruct H as (x & ?%not_elem_of_nil & _)|].
  destruct (existsb p l) eqn:E.
  - apply existsb_elem in E as (y & Hy & Hp). destruct IH as (m & Hm & Hpm & Hmax); [eauto|].
    destruct (p x && (f m <=? f x)%Z) eqn:Ex.
    + apply andb_true_iff in Ex as [Hx Hle%Z.leb_le]. exists x. split; [left|]. split; [done|].
      intros z [->|Hz]%elem_of_cons Hpz; [lia|]. specialize (Hmax z Hz Hpz). lia.
    + exists m. split; [by right|]. split; [done|]. intros z [->|Hz]%elem_of_cons Hpz; [|auto].
      rewrite Hpz in Ex. apply Z.leb_gt in Ex. lia.
  - assert (Hno : forall y, y ∈ l -> p y = false).
    { intros y Hy. apply not_true_iff_false. intros Hp. apply not_true_iff_false in E. apply E, existsb_elem. eauto. }
    destruct H as (y & [->|Hy]%elem_of_cons & Hp); [|by rewrite Hno in Hp]. exists x. split; [left|]. split; [done|].
    intros z [->|Hz]%elem_of_cons Hpz; [lia|]. by rewrite Hno in Hpz.
Qed.

(** ** Prefixes and suffixes a test cuts off *)

(** [Iterator::take_while]. *)
Fixpoint take_while {A} (p : A -> bool) (l : list A) : list A :=
  match l with x :: l' => if p x then x :: take_while p l' else [] | [] => [] end.

(** The rest of a slice from its [partition_point] on. *)
Fixpoint from_partition_point {A} (p : A -> bool) (l : list A) : list A :=
  match l with x :: l' => if p x then from_partition_point p l' else l | [] => [] end.

Lemma from_partition_point_keeps {A} (p : A -> bool) l x :
  p x = false -> x ∈ l -> x ∈ from_partition_point p l.
Proof.
  intros Hp. induction l as [|y l IH]; [done|]. cbn. destruct (p y) eqn:E; [|done].
  intros [->|Hx]%elem_of_cons; [congruence|by apply IH].
Qed.

Lemma from_partition_point_suffix {A} (p : A -> bool) l : exists k, l = k ++ from_partition_point p l.
Proof.
  induction l as [|y l [k IH]]; [by exists []|]. cbn. destruct (p y); [|by exists []].
  exists (y :: k). cbn. by rewrite <- IH.
Qed.

Lemma take_while_elem {A} (p : A -> bool) l x : x ∈ take_while p l -> x ∈ l.
Proof.
  induction l as [|y l IH]; [done|]. cbn. destruct (p y); [|by intros ?%not_elem_of_nil].
  rewrite !elem_of_cons. naive_solver.
Qed.

(** Along an order the predicate is closed under, nothing that satisfies it is cut. *)
Lemma take_while_keeps {A} (R : A -> A -> Prop) (p : A -> bool) l x :
  StronglySorted R l -> (forall y, R y x -> p x = true -> p y = true) -> p x = true -> x ∈ l -> x ∈ take_while p l.
Proof.
  intros Hs Hp Hx. induction Hs as [|y l Hs IH Hf]; [done|]. cbn. intros [->|Hin]%elem_of_cons.
  - rewrite Hx. left.
  - rewrite Forall_forall in Hf. rewrite (Hp y) by auto. right. by apply IH.
Qed.

(** A range read off a sorted list is the filter by its test. *)
Lemma range_is_filter {A} (R : A -> A -> Prop) (below inside : A -> bool) l :
  StronglySorted R l ->
  (forall x, below x = true -> inside x = false) ->
  (forall x y, R x y -> below x = false -> inside y = true -> inside x = true) ->
  (forall x y, R x y -> below x = false -> below y = false) ->
  take_while inside (from_partition_point below l) = List.filter inside l.
Proof.
  intros Hs Hb Hi Hup. induction Hs as [|x l Hs IH Hf]; [done|]. cbn. rewrite Forall_forall in Hf.
  destruct (below x) eqn:Eb; [by rewrite (Hb x Eb)|]. cbn.
  assert (E : from_partition_point below l = l).
  { destruct l as [|y l]; [done|]. cbn. by rewrite (Hup x y) by (try done; apply Hf; left). }
  rewrite E in IH. destruct (inside x) eqn:Ei; [by rewrite IH|]. symmetry. apply filter_none.
  intros y Hy. apply not_true_iff_false. intros Ey. by rewrite (Hi x y (Hf y Hy) Eb Ey) in Ei.
Qed.

Lemma strongly_sorted_impl {A} (R S : A -> A -> Prop) l :
  (forall x y, R x y -> S x y) -> StronglySorted R l -> StronglySorted S l.
Proof. intros H. induction 1 as [|x l Hs IH Hf]; constructor; [done|]. eapply Forall_impl; [exact Hf|]. auto. Qed.

(** ** Consecutive repeats *)

(** [Vec::dedup]. *)
Fixpoint dedup {A} `{EqDecision A} (l : list A) : list A :=
  match l with
  | x :: ((y :: _) as l') => if bool_decide (x = y) then dedup l' else x :: dedup l'
  | _ => l
  end.

Section Dedup.
Context {A : Type} `{EqDecision A}.

Lemma dedup_cons (y z : A) l : dedup (y :: z :: l) = if bool_decide (y = z) then dedup (z :: l) else y :: dedup (z :: l).
Proof. reflexivity. Qed.

Lemma dedup_elem (l : list A) x : x ∈ dedup l <-> x ∈ l.
Proof.
  induction l as [|y [|z l] IH]; [done..|]. rewrite dedup_cons. case_bool_decide as E.
  - rewrite IH, E. rewrite !elem_of_cons. naive_solver.
  - rewrite elem_of_cons, IH. by rewrite (elem_of_cons _ _ y).
Qed.

(** A sorted list loses every repeat. *)
Lemma dedup_strict (R : A -> A -> Prop) l :
  Transitive R -> AntiSymm eq R -> StronglySorted R l -> StronglySorted (fun a b => R a b /\ a <> b) (dedup l).
Proof.
  intros HT HA. induction l as [|y [|z l] IH]; intros Hs; [constructor|repeat constructor|].
  apply StronglySorted_inv in Hs as [Hs Hf]. rewrite dedup_cons. case_bool_decide as Hne; [by apply IH|].
  constructor; [by apply IH|]. apply Forall_forall. intros x Hx. apply (proj1 (dedup_elem _ _)) in Hx.
  rewrite Forall_forall in Hf. split; [by apply Hf|]. intros <-.
  apply StronglySorted_inv in Hs as [_ Hz]. rewrite Forall_forall in Hz.
  apply elem_of_cons in Hx as [E|Hx]; [done|]. apply Hne, HA; [apply Hf; left|by apply Hz].
Qed.

End Dedup.
