(* ===== verification/Str.v ===== *)
(** * Rust strings

    A Rust [str] is a sequence of Unicode scalar values stored as UTF-8. It is
    modelled as the list of its scalar values: [str::cmp] on the bytes is the
    lexicographic order of the scalar values, a byte offset that lands on a
    character boundary is a position of the list, and [str::len] is the sum of
    the characters' UTF-8 widths. Every operation of the standard library the
    modelled code calls is defined here.

    Unicode lowercasing is a table of the standard library; it is the field of
    the class [Unicode], of which the development relies on one documented fact
    only: ASCII text is lowercased as ASCII. *)

From Stdlib Require Import String Ascii.
From S2P Require Import Prelude.
From stdpp Require Import base numbers list.
Export String.StringSyntax.

Abbreviation char := N (only parsing).
Abbreviation str := (list N) (only parsing).

(** An ASCII literal as a [str]. *)
Fixpoint u (s : string) : str :=
  match s with
  | EmptyString => []
  | String a s' => N_of_ascii a :: u s'
  end.
Arguments u s%_string : simpl never.

Open Scope N_scope.

(** ** Characters *)

Definition DOT : char := 46.
Definition DASH : char := 45.
Definition UNDERSCORE : char := 95.
Definition SLASH : char := 47.
Definition BACKSLASH : char := 92.
Definition STAR : char := 42.
Definition COLON : char := 58.
Definition SPACE : char := 32.

Definition char_is_ascii (c : char) : bool := c <? 128.
Definition is_ascii_uppercase (c : char) : bool := (65 <=? c) && (c <=? 90).
Definition is_ascii_lowercase (c : char) : bool := (97 <=? c) && (c <=? 122).
Definition is_ascii_alphabetic (c : char) : bool :=
  is_ascii_uppercase c || is_ascii_lowercase c.
Definition is_ascii_digit (c : char) : bool := (48 <=? c) && (c <=? 57).
Definition is_ascii_alphanumeric (c : char) : bool :=
  is_ascii_alphabetic c || is_ascii_digit c.

(** [char::is_control]: the general category Cc. *)
Definition is_control (c : char) : bool := (c <=? 31) || ((127 <=? c) && (c <=? 159)).

(** [char::is_whitespace]: the property White_Space. *)
Definition is_whitespace (c : char) : bool :=
  ((9 <=? c) && (c <=? 13)) || (c =? 32) || (c =? 133) || (c =? 160) || (c =? 5760)
  || ((8192 <=? c) && (c <=? 8202)) || (c =? 8232) || (c =? 8233) || (c =? 8239)
  || (c =? 8287) || (c =? 12288).

(** [char::to_ascii_lowercase]. *)
Definition char_lower (c : char) : char := if is_ascii_uppercase c then c + 32 else c.

(** [char::len_utf8]. *)
Definition len_utf8 (c : char) : nat :=
  if c <? 128 then 1%nat else if c <? 2048 then 2%nat
  else if c <? 65536 then 3%nat else 4%nat.

(** ** Whole strings *)

(** [str::len]: the length in bytes. *)
Definition byte_len (s : str) : nat := sum_list_with len_utf8 s.

Definition is_ascii (s : str) : bool := forallb char_is_ascii s.
Definition to_ascii_lowercase (s : str) : str := char_lower <$> s.
Definition eq_ignore_ascii_case (s t : str) : bool :=
  bool_decide (to_ascii_lowercase s = to_ascii_lowercase t).
Definition str_eqb (s t : str) : bool := bool_decide (s = t).
Definition str_cmp : str -> str -> comparison := list_cmp N.compare.
Definition is_empty (s : str) : bool := match s with [] => true | _ => false end.
Definition contains_char (p : char -> bool) (s : str) : bool := existsb p s.
Definition is_char (c : char) : char -> bool := N.eqb c.

Fixpoint strip_prefix (pre s : str) : option str :=
  match pre, s with
  | [], _ => Some s
  | c :: pre', d :: s' => if c =? d then strip_prefix pre' s' else None
  | _ :: _, [] => None
  end.

Definition strip_suffix (suf s : str) : option str :=
  match strip_prefix (reverse suf) (reverse s) with
  | Some r => Some (reverse r)
  | None => None
  end.

Definition starts_with (pre s : str) : bool :=
  match strip_prefix pre s with Some _ => true | None => false end.

Definition ends_with (suf s : str) : bool :=
  match strip_suffix suf s with Some _ => true | None => false end.

Fixpoint trim_start_matches (p : char -> bool) (s : str) : str :=
  match s with
  | c :: s' => if p c then trim_start_matches p s' else s
  | [] => []
  end.

Definition trim_end_matches (p : char -> bool) (s : str) : str :=
  reverse (trim_start_matches p (reverse s)).

(** [str::trim]. *)
Definition trim (s : str) : str :=
  trim_end_matches is_whitespace (trim_start_matches is_whitespace s).

(** [s.chars().next_back().is_some_and(p)]. *)
Definition last_is (p : char -> bool) (s : str) : bool :=
  match last s with Some c => p c | None => false end.

(** [str::split] on a set of characters: always at least one piece. *)
Fixpoint split (p : char -> bool) (s : str) : list str :=
  match s with
  | [] => [[]]
  | c :: s' =>
      if p c then [] :: split p s'
      else match split p s' with
           | piece :: rest => (c :: piece) :: rest
           | [] => [[c]]
           end
  end.

(** [str::split_once] at the first [c]. *)
Fixpoint split_once (c : char) (s : str) : option (str * str) :=
  match s with
  | [] => None
  | d :: s' =>
      if c =? d then Some ([], s')
      else match split_once c s' with
           | Some (a, b) => Some (d :: a, b)
           | None => None
           end
  end.

(** [str::rsplit_once] at the last [c]. *)
Fixpoint rsplit_once (c : char) (s : str) : option (str * str) :=
  match s with
  | [] => None
  | d :: s' =>
      match rsplit_once c s' with
      | Some (a, b) => Some (d :: a, b)
      | None => if c =? d then Some ([], s') else None
      end
  end.

Definition replace_char (c d : char) (s : str) : str :=
  (fun x => if c =? x then d else x) <$> s.

Fixpoint str_join (sep : str) (parts : list str) : str :=
  match parts with
  | [] => []
  | [p] => p
  | p :: rest => p ++ sep ++ str_join sep rest
  end.

(** ** Unicode lowercasing *)

Class Unicode := {
  (** [str::to_lowercase]. *)
  to_lowercase : str -> str;
  (** [char::to_lowercase], the characters the iterator yields. *)
  char_to_lowercase : char -> str;
  to_lowercase_ascii : forall s, is_ascii s = true -> to_lowercase s = to_ascii_lowercase s;
  char_to_lowercase_ascii : forall c, char_is_ascii c = true -> char_to_lowercase c = [char_lower c];
}.

(** The ASCII part of the table, enough to run the model on ASCII inputs. *)
Definition ascii_unicode : Unicode :=
  {| to_lowercase := to_ascii_lowercase; char_to_lowercase := fun c => [char_lower c];
     to_lowercase_ascii := fun s _ => eq_refl; char_to_lowercase_ascii := fun c _ => eq_refl |}.

(** ** Lemmas *)

#[export] Instance str_cmp_total : CmpTotal str_cmp.
Proof. unfold str_cmp. apply _. Qed.
#[global] Typeclasses Opaque str_cmp.

Lemma str_eqb_eq s t : str_eqb s t = true <-> s = t.
Proof. apply bool_decide_eq_true. Qed.

Lemma str_eqb_refl s : str_eqb s s = true.
Proof. by apply str_eqb_eq. Qed.

Lemma is_empty_true s : is_empty s = true <-> s = [].
Proof. by destruct s. Qed.

Lemma is_empty_false s : is_empty s = false <-> s <> [].
Proof. by destruct s. Qed.

Lemma len_utf8_pos c : (1 <= len_utf8 c <= 4)%nat.
Proof. unfold len_utf8. repeat case_match; lia. Qed.

Lemma byte_len_app s t : byte_len (s ++ t) = (byte_len s + byte_len t)%nat.
Proof. apply sum_list_with_app. Qed.

Lemma byte_len_cons c s : byte_len (c :: s) = (len_utf8 c + byte_len s)%nat.
Proof. done. Qed.

Lemma byte_len_ascii s : is_ascii s = true -> byte_len s = length s.
Proof.
  induction s as [|c s IH]; simpl; [done|]. intros [Hc Hs]%andb_true_iff.
  unfold byte_len in *. simpl. rewrite IH by done.
  unfold char_is_ascii in Hc. unfold len_utf8. by rewrite Hc.
Qed.

Lemma is_ascii_app s t : is_ascii (s ++ t) = is_ascii s && is_ascii t.
Proof. apply forallb_app. Qed.

Lemma char_lower_idemp c : char_lower (char_lower c) = char_lower c.
Proof.
  unfold char_lower, is_ascii_uppercase.
  destruct (65 <=? c) eqn:E1, (c <=? 90) eqn:E2; simpl; rewrite ?E1, ?E2; try done.
  destruct (65 <=? c + 32) eqn:E3, (c + 32 <=? 90) eqn:E4; simpl; try done.
  apply N.leb_le in E1, E4. lia.
Qed.

Lemma to_ascii_lowercase_idemp s :
  to_ascii_lowercase (to_ascii_lowercase s) = to_ascii_lowercase s.
Proof.
  unfold to_ascii_lowercase. rewrite <- list_fmap_compose.
  apply list_fmap_ext. intros i c _. apply char_lower_idemp.
Qed.

Lemma to_ascii_lowercase_ascii s : is_ascii s = true -> is_ascii (to_ascii_lowercase s) = true.
Proof.
  induction s as [|c s IH]; csimpl; [done|]. intros [Hc Hs]%andb_true_iff.
  apply andb_true_iff. split; [|by apply IH].
  unfold char_is_ascii, char_lower, is_ascii_uppercase in *.
  destruct (65 <=? c) eqn:E1, (c <=? 90) eqn:E2; simpl; try done.
  apply N.leb_le in E2. apply N.ltb_lt. lia.
Qed.

Lemma strip_prefix_Some pre s r : strip_prefix pre s = Some r <-> s = pre ++ r.
Proof.
  revert s. induction pre as [|c pre IH]; intros s; simpl.
  { split; [by intros [= ->]|by intros ->]. }
  destruct s as [|d s]; [by split|].
  destruct (N.eqb_spec c d) as [->|Hne].
  - rewrite IH. split; [by intros ->|by intros [= ->]].
  - split; [done|]. intros [= ? ?]. congruence.
Qed.

Lemma strip_suffix_Some suf s r : strip_suffix suf s = Some r <-> s = r ++ suf.
Proof.
  unfold strip_suffix. destruct (strip_prefix _ _) as [k|] eqn:E.
  - apply strip_prefix_Some in E. apply (f_equal reverse) in E.
    rewrite reverse_involutive, reverse_app, reverse_involutive in E. subst s.
    split; [by intros [= ->]|]. intros ?%app_inv_tail. by subst.
  - split; [done|]. intros ->. rewrite reverse_app in E.
    assert (strip_prefix (reverse suf) (reverse suf ++ reverse r) = Some (reverse r)) as E'
      by by apply strip_prefix_Some.
    congruence.
Qed.

Lemma ends_with_true suf s : ends_with suf s = true <-> exists r, s = r ++ suf.
Proof.
  unfold ends_with. destruct (strip_suffix suf s) as [r|] eqn:E.
  - apply strip_suffix_Some in E. naive_solver.
  - split; [done|]. intros [r Hr]. apply strip_suffix_Some in Hr. congruence.
Qed.

Lemma starts_with_true pre s : starts_with pre s = true <-> exists r, s = pre ++ r.
Proof.
  unfold starts_with. destruct (strip_prefix pre s) as [r|] eqn:E.
  - apply strip_prefix_Some in E. naive_solver.
  - split; [done|]. intros [r Hr]. apply strip_prefix_Some in Hr. congruence.
Qed.

Lemma split_cons p s : exists piece rest, split p s = piece :: rest.
Proof. destruct s as [|c s]; simpl; [eauto|]. repeat case_match; eauto. Qed.

Lemma split_not_nil p s : split p s <> [].
Proof. destruct (split_cons p s) as (piece & rest & ->). done. Qed.

Lemma split_app p a d b : p d = true -> split p (a ++ d :: b) = split p a ++ split p b.
Proof.
  intros Hd. induction a as [|c a IH]; simpl; [by rewrite Hd|].
  rewrite IH. destruct (p c); [done|]. by destruct (split_cons p a) as (x & l & ->).
Qed.

Lemma split_none p s : contains_char p s = false -> split p s = [s].
Proof.
  induction s as [|c s IH]; simpl; [done|]. intros [Hc Hs]%orb_false_iff.
  rewrite Hc. by rewrite IH.
Qed.

Lemma split_pieces p s piece : piece ∈ split p s -> contains_char p piece = false.
Proof.
  revert piece. induction s as [|c s IH]; intros piece; simpl.
  { intros ->%list_elem_of_singleton. done. }
  destruct (p c) eqn:E.
  { intros [->|H]%elem_of_cons; [done|auto]. }
  destruct (split_cons p s) as (x & l & Es). rewrite Es in *.
  intros [->|H]%elem_of_cons.
  - simpl. rewrite E. simpl. apply IH. left.
  - apply IH. by right.
Qed.

Lemma split_length_pos p s : (1 <= length (split p s))%nat.
Proof. destruct (split_cons p s) as (x & l & ->). simpl. lia. Qed.

Lemma str_join_cons sep p rest : rest <> [] -> str_join sep (p :: rest) = p ++ sep ++ str_join sep rest.
Proof. by destruct rest. Qed.

Lemma str_join_split c s : str_join [c] (split (is_char c) s) = s.
Proof.
  induction s as [|d s IH]; simpl; [done|].
  unfold is_char at 1. destruct (N.eqb_spec c d) as [->|Hne].
  - rewrite str_join_cons by apply split_not_nil. simpl. by rewrite IH.
  - destruct (split_cons (is_char c) s) as (x & l & Es). rewrite Es in *.
    destruct l; simpl in *; by rewrite <- IH.
Qed.

Lemma split_str_join c parts :
  parts <> [] -> (forall q, q ∈ parts -> contains_char (is_char c) q = false) ->
  split (is_char c) (str_join [c] parts) = parts.
Proof.
  induction parts as [|q parts IH]; [done|]. intros _ H.
  assert (Hq : contains_char (is_char c) q = false) by (apply H; left).
  destruct parts as [|r parts]; [by apply split_none|].
  rewrite str_join_cons by done. simpl ([c] ++ _).
  rewrite split_app by (unfold is_char; apply N.eqb_refl).
  rewrite split_none by done. simpl. f_equal. apply IH; [done|].
  intros x Hx. apply H. by right.
Qed.

Lemma split_once_Some c s a b :
  split_once c s = Some (a, b) <-> s = a ++ c :: b /\ contains_char (is_char c) a = false.
Proof.
  revert a b. induction s as [|d s IH]; intros a b; simpl.
  { split; [done|]. intros [H _]. by destruct a. }
  destruct (N.eqb_spec c d) as [->|Hne].
  - split.
    + intros [= <- <-]. done.
    + intros [Hs Ha]. destruct a as [|e a]; [by simplify_eq/=|].
      simplify_eq/=. unfold is_char in Ha. rewrite N.eqb_refl in Ha. done.
  - destruct (split_once c s) as [[a' b']|].
    + split.
      * intros [= <- <-]. destruct (proj1 (IH a' b') eq_refl) as [-> H]. split; [done|].
        simpl. unfold is_char at 1. rewrite (proj2 (N.eqb_neq c d) Hne). done.
      * intros [Hs Ha]. destruct a as [|e a]; simplify_eq/=.
        apply orb_false_iff in Ha as [_ Ha].
        assert (E' := proj2 (IH a b) (conj eq_refl Ha)). by simplify_eq.
    + split; [done|]. intros [Hs Ha]. destruct a as [|e a]; simplify_eq/=.
      apply orb_false_iff in Ha as [_ Ha]. by assert (E' := proj2 (IH a b) (conj eq_refl Ha)).
Qed.

Lemma split_once_None c s : split_once c s = None <-> contains_char (is_char c) s = false.
Proof.
  induction s as [|d s IH]; simpl; [done|]. change (is_char c d) with (c =? d)%N.
  destruct (N.eqb_spec c d); [done|]. rewrite <- IH. by destruct (split_once c s) as [[]|].
Qed.

Lemma contains_char_app p s t : contains_char p (s ++ t) = contains_char p s || contains_char p t.
Proof. apply existsb_app. Qed.

Lemma rsplit_once_None c s : rsplit_once c s = None <-> contains_char (is_char c) s = false.
Proof.
  induction s as [|d s IH]; simpl; [done|]. unfold is_char at 1.
  destruct (rsplit_once c s) as [[a b]|].
  - split; [done|]. intros [_ H]%orb_false_iff. by apply IH in H.
  - destruct (N.eqb_spec c d); simpl; [done|]. split; [|done]. intros _. by apply IH.
Qed.

Lemma rsplit_once_Some c s a b :
  rsplit_once c s = Some (a, b) <-> s = a ++ c :: b /\ contains_char (is_char c) b = false.
Proof.
  revert a b. induction s as [|d s IH]; intros a b; simpl.
  { split; [done|]. intros [H _]. by destruct a. }
  destruct (rsplit_once c s) as [[a' b']|] eqn:E.
  - split.
    + intros [= <- <-]. destruct (proj1 (IH a' b') eq_refl) as [-> H]. done.
    + intros [Hs Hb]. destruct a as [|e a]; simplify_eq/=.
      * apply rsplit_once_None in Hb. congruence.
      * assert (E' := proj2 (IH a b) (conj eq_refl Hb)). by simplify_eq.
  - apply rsplit_once_None in E. destruct (N.eqb_spec c d) as [->|Hne].
    + split; [by intros [= <- <-]|]. intros [Hs Hb].
      destruct a as [|e a]; simplify_eq/=; [done|].
      rewrite contains_char_app in E. simpl in E. unfold is_char at 2 in E.
      rewrite N.eqb_refl, orb_true_r in E. done.
    + split; [done|]. intros [Hs Hb]. destruct a as [|e a]; simplify_eq/=.
      rewrite contains_char_app in E. simpl in E. unfold is_char at 2 in E.
      rewrite N.eqb_refl, orb_true_r in E. done.
Qed.

Lemma trim_start_matches_id p s :
  match s with [] => True | c :: _ => p c = false end -> trim_start_matches p s = s.
Proof. destruct s as [|c s]; simpl; [done|]. by intros ->. Qed.

Lemma trim_start_matches_clean p s :
  match trim_start_matches p s with [] => True | c :: _ => p c = false end.
Proof. induction s as [|c s IH]; simpl; [done|]. destruct (p c) eqn:E; done. Qed.

(** Text with no white space is its own trim. *)
Lemma trim_id s : contains_char is_whitespace s = false -> trim s = s.
Proof.
  intros H. unfold trim.
  rewrite (trim_start_matches_id _ s).
  2: { destruct s; [done|]. simpl in H. by apply orb_false_iff in H as [? _]. }
  unfold trim_end_matches. rewrite trim_start_matches_id; [apply reverse_involutive|].
  destruct (reverse s) as [|c r] eqn:E; [done|].
  apply (f_equal reverse) in E. rewrite reverse_involutive, reverse_cons in E. subst s.
  rewrite contains_char_app in H. simpl in H. apply orb_false_iff in H as [_ H].
  by apply orb_false_iff in H as [? _].
Qed.

Lemma contains_char_false p (s : str) : contains_char p s = false <-> forall c, c ∈ s -> p c = false.
Proof. apply existsb_false. Qed.

Lemma last_is_reverse p (s : str) :
  last_is p s = match reverse s with [] => false | c :: _ => p c end.
Proof. unfold last_is. rewrite <- head_reverse. by destruct (reverse s). Qed.

Lemma trim_start_matches_suffix p (s : str) : exists t, s = t ++ trim_start_matches p s.
Proof.
  induction s as [|c s [t IH]]; simpl; [by exists []|].
  destruct (p c); [|by exists []]. exists (c :: t). simpl. by rewrite <- IH.
Qed.

Lemma trim_end_matches_prefix p (s : str) : exists t, s = trim_end_matches p s ++ t.
Proof.
  unfold trim_end_matches. destruct (trim_start_matches_suffix p (reverse s)) as [t Ht].
  exists (reverse t). rewrite <- reverse_app, <- Ht. by rewrite reverse_involutive.
Qed.

Lemma trim_start_matches_blank p (s : str) :
  exists t, s = t ++ trim_start_matches p s /\ forallb p t = true.
Proof.
  induction s as [|c s IH]; [by exists []|]. cbn [trim_start_matches]. destruct (p c) eqn:E; [|by exists []].
  destruct IH as (t & Hs & Ht). exists (c :: t). cbn [app forallb]. rewrite E, Ht. split; [by f_equal|done].
Qed.

Lemma trim_end_matches_blank p (s : str) : exists t, s = trim_end_matches p s ++ t /\ forallb p t = true.
Proof.
  unfold trim_end_matches. destruct (trim_start_matches_blank p (reverse s)) as (t & Hs & Ht).
  exists (reverse t). split.
  - apply (f_equal reverse) in Hs. rewrite reverse_involutive, reverse_app in Hs. done.
  - apply forallb_forall. intros c Hc. rewrite forallb_forall in Ht. apply Ht.
    by rewrite <- list_elem_of_In, elem_of_reverse, list_elem_of_In in Hc.
Qed.

Lemma trim_end_matches_last p (s : str) : last_is p (trim_end_matches p s) = false.
Proof.
  rewrite last_is_reverse. unfold trim_end_matches. rewrite reverse_involutive.
  pose proof (trim_start_matches_clean p (reverse s)) as H.
  by destruct (trim_start_matches p (reverse s)).
Qed.

Lemma trim_end_matches_id p (s : str) : last_is p s = false -> trim_end_matches p s = s.
Proof.
  rewrite last_is_reverse. intros Hs. unfold trim_end_matches.
  rewrite trim_start_matches_id; [apply reverse_involutive|]. by destruct (reverse s).
Qed.

Lemma trim_id_ends (s : str) :
  (forall c t, s = c :: t -> is_whitespace c = false) -> last_is is_whitespace s = false ->
  trim s = s.
Proof.
  intros H1 H2. unfold trim, trim_end_matches. rewrite (trim_start_matches_id _ s).
  - rewrite last_is_reverse in H2. rewrite trim_start_matches_id; [apply reverse_involutive|].
    by destruct (reverse s).
  - destruct s; [done|]. by eapply H1.
Qed.

Lemma trim_elem c (s : str) : c ∈ trim s -> c ∈ s.
Proof.
  unfold trim. intros Hc.
  destruct (trim_start_matches_suffix is_whitespace s) as [t1 E1].
  destruct (trim_end_matches_prefix is_whitespace (trim_start_matches is_whitespace s)) as [t2 E2].
  rewrite E1, E2, !elem_of_app. auto.
Qed.

Lemma split_piece_elem q (s piece : str) c : piece ∈ split q s -> c ∈ piece -> c ∈ s.
Proof.
  revert piece. induction s as [|d s IH]; intros piece; simpl.
  { intros ->%list_elem_of_singleton. done. }
  destruct (q d).
  - intros [->|Hp]%elem_of_cons Hc; [by apply elem_of_nil in Hc|]. right. eauto.
  - destruct (split_cons q s) as (p0 & rest & E). rewrite E.
    intros [->|Hp]%elem_of_cons Hc.
    + apply elem_of_cons in Hc as [->|Hc]; [left|]. right. eapply IH; [|exact Hc]. rewrite E. left.
    + right. eapply IH; [|exact Hc]. rewrite E. by right.
Qed.

(** What a trimmed string is. *)
Definition trimmed_str (s : str) : Prop :=
  (forall c t, s = c :: t -> is_whitespace c = false) /\ last_is is_whitespace s = false.

Lemma trim_trimmed s : trimmed_str s -> trim s = s.
Proof. intros [H1 H2]. by apply trim_id_ends. Qed.

(** Lower-casing keeps what holds of a letter on both sides. *)
Lemma char_lower_class (p : char -> bool) c :
  (forall d, is_ascii_uppercase d = true -> p d = false /\ p (char_lower d) = false) ->
  p (char_lower c) = p c.
Proof.
  intros Hp. destruct (is_ascii_uppercase c) eqn:E.
  - by destruct (Hp c E) as [-> ->].
  - unfold char_lower. by rewrite E.
Qed.

Lemma upper_not p :
  forallb (fun d => negb (p d) && negb (p (char_lower d))) (N.of_nat <$> seq 65 26) = true ->
  forall d, is_ascii_uppercase d = true -> p d = false /\ p (char_lower d) = false.
Proof.
  intros Hf d. unfold is_ascii_uppercase. rewrite andb_true_iff, !N.leb_le. intros [H1 H2].
  rewrite forallb_forall in Hf. specialize (Hf d). rewrite andb_true_iff, !negb_true_iff in Hf.
  apply Hf. apply list_elem_of_In, list_elem_of_fmap. exists (N.to_nat d). split; [lia|].
  apply elem_of_seq. lia.
Qed.

Lemma lower_whitespace c : is_whitespace (char_lower c) = is_whitespace c.
Proof. apply char_lower_class, upper_not. by vm_compute. Qed.

Lemma existsb_lower p s :
  (forall c, p (char_lower c) = p c) -> existsb p (to_ascii_lowercase s) = existsb p s.
Proof.
  intros Hp. induction s as [|c s IH]; csimpl; [done|]. by rewrite Hp, IH.
Qed.

Lemma last_is_lower p s :
  (forall c, p (char_lower c) = p c) -> last_is p (to_ascii_lowercase s) = last_is p s.
Proof.
  intros Hp. unfold last_is, to_ascii_lowercase. rewrite fmap_last.
  destruct (last s); simpl; [apply Hp|done].
Qed.
