(* ===== verification/Digits.v ===== *)
(** * Numbers as text

    [Display] and [LowerHex] of unsigned integers, the zero-padded forms
    ([{:010}], [{:032x}]) the canonical sort keys use, and the standard
    library's integer parsers. *)

From S2P Require Import Prelude Str.
From stdpp Require Import base numbers list.

Open Scope N_scope.

(** A digit value as the formatter writes it: ['0'..'9'] then ['a'..'f']. *)
Definition digit_char (d : N) : char := if d <? 10 then 48 + d else 87 + d.

(** [char::to_digit(radix)]; both letter cases. *)
Definition to_digit (radix : N) (c : char) : option N :=
  let v :=
    if is_ascii_digit c then Some (c - 48)
    else if is_ascii_lowercase c then Some (c - 87)
    else if is_ascii_uppercase c then Some (c - 55)
    else None in
  match v with
  | Some d => if d <? radix then Some d else None
  | None => None
  end.

(** Digits of [n], most significant first, no leading zero; a number of [k]
    bits has at most [k] digits, so [N.size_nat] steps are enough. *)
Fixpoint digits_fuel (fuel : nat) (b n : N) : list N :=
  match fuel with
  | O => [n]
  | S fuel' => if n <? b then [n] else digits_fuel fuel' b (n / b) ++ [n mod b]
  end.

Definition digits (b n : N) : list N := digits_fuel (N.size_nat n) b n.

(** Exactly [w] digits, most significant first. *)
Fixpoint fixed_digits (w : nat) (b n : N) : list N :=
  match w with
  | O => []
  | S w' => fixed_digits w' b (n / b) ++ [n mod b]
  end.

(** [{}] and [{:x}]. *)
Definition fmt_dec (n : N) : str := digit_char <$> digits 10 n.
Definition fmt_hex (n : N) : str := digit_char <$> digits 16 n.

(** [{:0w}]: zeros on the left up to width [w]. *)
Definition pad_zero (w : nat) (s : str) : str := replicate (w - length s) 48 ++ s.

(** [str::parse] of an unsigned integer no larger than [max] in base [b], as
    the standard library reads one: an optional [+], at least one digit. *)
Fixpoint parse_digits (b max acc : N) (s : str) : option N :=
  match s with
  | [] => Some acc
  | c :: s' =>
      match to_digit b c with
      | Some d =>
          let acc' := acc * b + d in
          if acc' <=? max then parse_digits b max acc' s' else None
      | None => None
      end
  end.

Definition PLUS : char := 43.

Definition parse_uint (max : N) (s : str) : option N :=
  match s with
  | [] => None
  | c :: s' =>
      if c =? PLUS then match s' with [] => None | _ => parse_digits 10 max 0 s' end
      else parse_digits 10 max 0 s
  end.

(** [str::parse::<i64>] and [Display] of [i64]. *)
Definition parse_i64 (s : str) : option Z :=
  match s with
  | c :: (_ :: _) as s' =>
      if c =? DASH then
        match parse_digits 10 9223372036854775808 0 s' with
        | Some n => Some (- Z.of_N n)%Z
        | None => None
        end
      else match parse_uint 9223372036854775807 s with
           | Some n => Some (Z.of_N n)
           | None => None
           end
  | _ => match parse_uint 9223372036854775807 s with
         | Some n => Some (Z.of_N n)
         | None => None
         end
  end.

Definition fmt_i64 (z : Z) : str :=
  if (z <? 0)%Z then DASH :: fmt_dec (Z.to_N (- z)) else fmt_dec (Z.to_N z).

(** ** Lemmas *)

Section Base.
Context (b : N) (Hb : 2 <= b).

Lemma digits_fuel_length_pos fuel n : (1 <= length (digits_fuel fuel b n))%nat.
Proof using Type. clear Hb. destruct fuel; simpl; [lia|]. case_match; [simpl; lia|]. rewrite length_app. simpl. lia. Qed.

Lemma digits_fuel_bound fuel n : n < 2 ^ N.of_nat fuel -> Forall (fun d => d < b) (digits_fuel fuel b n).
Proof using Hb.
  revert n. induction fuel as [|fuel IH]; intros n Hn; simpl.
  { simpl in Hn. constructor; [|constructor]. lia. }
  destruct (N.ltb_spec n b); [by repeat constructor|].
  apply Forall_app. split.
  - apply IH. apply N.Div0.div_lt_upper_bound.
    rewrite Nat2N.inj_succ, N.pow_succ_r' in Hn.
    assert (2 * 2 ^ N.of_nat fuel <= b * 2 ^ N.of_nat fuel) by (apply N.mul_le_mono_r; lia). lia.
  - repeat constructor. apply N.mod_lt. lia.
Qed.

Lemma size_nat_bound n : n < 2 ^ N.of_nat (N.size_nat n).
Proof using Type. clear Hb.
  destruct n as [|p]; [done|]. simpl.
  induction p as [p IH|p IH|]; simpl; [| |done];
    rewrite Nat2N.inj_succ, N.pow_succ_r'; lia.
Qed.

Lemma digits_bound n : Forall (fun d => d < b) (digits b n).
Proof using Hb. apply digits_fuel_bound, size_nat_bound. Qed.

Lemma fixed_digits_length w n : length (fixed_digits w b n) = w.
Proof using Type. clear Hb.
  revert n. induction w as [|w IH]; intros n; simpl; [done|].
  rewrite length_app, IH. simpl. lia.
Qed.

Lemma fixed_digits_zero w : fixed_digits w b 0 = replicate w 0.
Proof using Hb.
  induction w as [|w IH]; [done|]. simpl fixed_digits.
  rewrite N.Div0.div_0_l, N.Div0.mod_0_l, IH.
  change [0] with (replicate 1 0). by rewrite <- replicate_add, Nat.add_comm.
Qed.

(** Zero padding of the plain digits gives the fixed-width ones. *)
Lemma digits_fuel_fixed fuel w n :
  n < 2 ^ N.of_nat fuel -> n < b ^ N.of_nat w -> (1 <= w)%nat ->
  (length (digits_fuel fuel b n) <= w)%nat /\
  replicate (w - length (digits_fuel fuel b n)) 0 ++ digits_fuel fuel b n = fixed_digits w b n.
Proof using Hb.
  revert w n. induction fuel as [|fuel IH]; intros w n Hf Hn Hw.
  { simpl in Hf. assert (n = 0) as -> by lia. simpl. split; [lia|].
    rewrite fixed_digits_zero. change [0] with (replicate 1 0).
    rewrite <- replicate_add. f_equal. lia. }
  destruct w as [|w]; [lia|]. simpl. destruct (N.ltb_spec n b) as [Hlt|Hge].
  - simpl. split; [lia|]. rewrite N.div_small, N.mod_small by done.
    rewrite fixed_digits_zero. by rewrite Nat.sub_0_r.
  - rewrite length_app. simpl. rewrite Nat2N.inj_succ, N.pow_succ_r' in Hf, Hn.
    destruct w as [|w]; [simpl in Hn; lia|].
    destruct (IH (S w) (n / b)) as [Hl Heq].
    + apply N.Div0.div_lt_upper_bound.
      assert (2 * 2 ^ N.of_nat fuel <= b * 2 ^ N.of_nat fuel) by (apply N.mul_le_mono_r; lia). lia.
    + by apply N.Div0.div_lt_upper_bound.
    + lia.
    + split; [lia|]. rewrite app_assoc. f_equal. rewrite <- Heq.
      f_equal. f_equal. lia.
Qed.

Lemma digits_fixed w n :
  n < b ^ N.of_nat w -> (1 <= w)%nat ->
  replicate (w - length (digits b n)) 0 ++ digits b n = fixed_digits w b n.
Proof using Hb. intros. apply digits_fuel_fixed; [apply size_nat_bound|done..]. Qed.

End Base.

Lemma list_cmp_snoc {A} (c : A -> A -> comparison) l k x y :
  length l = length k ->
  list_cmp c (l ++ [x]) (k ++ [y]) = then_with (list_cmp c l k) (c x y).
Proof.
  revert k. induction l as [|a l IH]; intros [|d k] Hl; simpl in *; try done.
  - by destruct (c x y).
  - rewrite IH by lia. by destruct (c a d).
Qed.

(** Fixed-width digits compare as the numbers do. *)
Lemma fixed_digits_cmp b w n m :
  2 <= b -> n < b ^ N.of_nat w -> m < b ^ N.of_nat w ->
  list_cmp N.compare (fixed_digits w b n) (fixed_digits w b m) = N.compare n m.
Proof.
  intros Hb. revert n m. induction w as [|w IH]; intros n m Hn Hm; simpl.
  { simpl in *. assert (n = 0) as -> by lia. by assert (m = 0) as -> by lia. }
  rewrite list_cmp_snoc by by rewrite !fixed_digits_length.
  rewrite Nat2N.inj_succ, N.pow_succ_r' in Hn, Hm.
  rewrite IH by by apply N.Div0.div_lt_upper_bound.
  assert (Hn' := N.div_mod' n b). assert (Hm' := N.div_mod' m b).
  assert (Hrn : n mod b < b) by (apply N.mod_lt; lia).
  assert (Hrm : m mod b < b) by (apply N.mod_lt; lia).
  revert Hn' Hm' Hrn Hrm.
  generalize (n / b) (n mod b) (m / b) (m mod b). intros qn rn qm rm Hn' Hm' Hrn Hrm.
  destruct (N.compare_spec qn qm) as [E|E|E]; simpl; symmetry.
  - subst qm. destruct (N.compare_spec rn rm).
    + apply N.compare_eq_iff. lia.
    + apply N.compare_lt_iff. lia.
    + apply N.compare_gt_iff. lia.
  - apply N.compare_lt_iff. assert (b * (qn + 1) <= b * qm) by (apply N.mul_le_mono_l; lia). lia.
  - apply N.compare_gt_iff. assert (b * (qm + 1) <= b * qn) by (apply N.mul_le_mono_l; lia). lia.
Qed.

(** Digit characters order as their values. *)
Lemma digit_char_cmp d e : d < 16 -> e < 16 -> N.compare (digit_char d) (digit_char e) = N.compare d e.
Proof.
  intros Hd He. unfold digit_char.
  destruct (N.ltb_spec d 10), (N.ltb_spec e 10), (N.compare_spec d e);
    (apply N.compare_eq_iff || apply N.compare_lt_iff || apply N.compare_gt_iff); lia.
Qed.

Lemma list_cmp_fmap_digits l k :
  Forall (fun d => d < 16) l -> Forall (fun d => d < 16) k ->
  str_cmp (digit_char <$> l) (digit_char <$> k) = list_cmp N.compare l k.
Proof.
  unfold str_cmp. intros Hl. revert k. induction Hl as [|x l Hx Hl IH];
    intros k Hk; destruct Hk as [|y k Hy Hk]; csimpl; try done.
  rewrite digit_char_cmp by done. by rewrite IH.
Qed.

Lemma fixed_digits_bound w b n : 0 < b -> Forall (fun d => d < b) (fixed_digits w b n).
Proof.
  intros Hb. revert n. induction w as [|w IH]; intros n; simpl; [constructor|].
  apply Forall_app. split; [apply IH|]. repeat constructor. apply N.mod_lt. lia.
Qed.

Lemma pad_zero_fixed b w n :
  2 <= b -> n < b ^ N.of_nat w -> (1 <= w)%nat ->
  pad_zero w (digit_char <$> digits b n) = digit_char <$> fixed_digits w b n.
Proof.
  intros Hb Hn Hw. rewrite <- (digits_fixed b Hb w n) by done.
  unfold pad_zero. rewrite fmap_app, length_fmap. f_equal.
  by rewrite fmap_replicate.
Qed.

(** The zero-padded decimal form of two numbers that fit its width compares as
    the numbers do. *)
Lemma pad_dec_cmp w n m :
  (1 <= w)%nat -> n < 10 ^ N.of_nat w -> m < 10 ^ N.of_nat w ->
  str_cmp (pad_zero w (fmt_dec n)) (pad_zero w (fmt_dec m)) = N.compare n m.
Proof.
  intros Hw Hn Hm. unfold fmt_dec. rewrite !pad_zero_fixed by done.
  rewrite list_cmp_fmap_digits.
  - by apply fixed_digits_cmp.
  - eapply Forall_impl; [by apply fixed_digits_bound|]. simpl. lia.
  - eapply Forall_impl; [by apply fixed_digits_bound|]. simpl. lia.
Qed.

Lemma pad_hex_cmp w n m :
  (1 <= w)%nat -> n < 16 ^ N.of_nat w -> m < 16 ^ N.of_nat w ->
  str_cmp (pad_zero w (fmt_hex n)) (pad_zero w (fmt_hex m)) = N.compare n m.
Proof.
  intros Hw Hn Hm. unfold fmt_hex. rewrite !pad_zero_fixed by done.
  rewrite list_cmp_fmap_digits by by apply fixed_digits_bound.
  by apply fixed_digits_cmp.
Qed.

Lemma pad_zero_length w b n :
  2 <= b -> n < b ^ N.of_nat w -> (1 <= w)%nat ->
  length (pad_zero w (digit_char <$> digits b n)) = w.
Proof. intros. by rewrite pad_zero_fixed, length_fmap, fixed_digits_length. Qed.

(** ** Parsing back *)

Lemma to_digit_char b d : d < b -> b <= 16 -> to_digit b (digit_char d) = Some d.
Proof.
  intros Hd Hb. unfold to_digit, digit_char, is_ascii_digit, is_ascii_lowercase.
  destruct (N.ltb_spec d 10).
  - replace (48 <=? 48 + d) with true by (symmetry; apply N.leb_le; lia).
    replace (48 + d <=? 57) with true by (symmetry; apply N.leb_le; lia). simpl.
    replace (48 + d - 48) with d by lia. by rewrite (proj2 (N.ltb_lt d b)).
  - replace (87 + d <=? 57) with false by (symmetry; apply N.leb_gt; lia).
    replace (97 <=? 87 + d) with true by (symmetry; apply N.leb_le; lia).
    replace (87 + d <=? 122) with true by (symmetry; apply N.leb_le; lia).
    rewrite andb_false_r. simpl.
    replace (87 + d - 87) with d by lia. by rewrite (proj2 (N.ltb_lt d b)).
Qed.

Definition value_of (b acc : N) (l : list N) : N := fold_left (fun a d => a * b + d) l acc.

Lemma value_of_ge b acc l : 1 <= b -> acc <= value_of b acc l.
Proof.
  intros Hb. revert acc. induction l as [|d l IH]; intros acc; simpl; [lia|].
  etrans; [|apply IH]. nia.
Qed.

Lemma value_of_snoc b acc l d : value_of b acc (l ++ [d]) = value_of b acc l * b + d.
Proof. unfold value_of. by rewrite fold_left_app. Qed.

Lemma value_of_digits_fuel b fuel n : value_of b 0 (digits_fuel fuel b n) = n.
Proof.
  revert n. induction fuel as [|fuel IH]; intros n; [done|]. simpl.
  case_match; [done|]. rewrite value_of_snoc, IH, N.mul_comm.
  symmetry. apply N.div_mod'.
Qed.

Lemma value_of_digits b n : value_of b 0 (digits b n) = n.
Proof. apply value_of_digits_fuel. Qed.

Lemma parse_digits_fmap b max acc l :
  1 <= b -> b <= 16 -> Forall (fun d => d < b) l -> value_of b acc l <= max ->
  parse_digits b max acc (digit_char <$> l) = Some (value_of b acc l).
Proof.
  intros Hb Hb' Hl. revert acc. induction Hl as [|d l Hd Hl IH]; intros acc Hv; csimpl; [done|].
  rewrite to_digit_char by done.
  assert (acc * b + d <= max).
  { etrans; [|exact Hv]. simpl. by apply (value_of_ge b (acc * b + d) l). }
  rewrite (proj2 (N.leb_le _ _)) by done. by apply IH.
Qed.

Lemma digits_cons b n : exists d l, digits b n = d :: l.
Proof.
  assert (H := digits_fuel_length_pos b (N.size_nat n) n).
  unfold digits. destruct (digits_fuel _ _ _); simpl in *; [lia|eauto].
Qed.

Lemma digit_char_range d : d < 10 -> 48 <= digit_char d <= 57.
Proof. intros H. unfold digit_char. rewrite (proj2 (N.ltb_lt d 10)) by done. lia. Qed.

Lemma fmt_dec_digits n : Forall (fun c => is_ascii_digit c = true) (fmt_dec n).
Proof.
  unfold fmt_dec. apply Forall_fmap. eapply Forall_impl; [apply (digits_bound 10); lia|].
  intros d Hd. simpl. apply digit_char_range in Hd. unfold is_ascii_digit.
  apply andb_true_iff. split; apply N.leb_le; lia.
Qed.

Lemma fmt_dec_cons n : exists c s, fmt_dec n = c :: s /\ is_ascii_digit c = true.
Proof.
  assert (H := fmt_dec_digits n). unfold fmt_dec in *.
  destruct (digits_cons 10 n) as (d & l & E). rewrite E in *. csimpl in *.
  apply Forall_inv in H. eauto.
Qed.

Lemma is_ascii_digit_range c : is_ascii_digit c = true <-> 48 <= c <= 57.
Proof. unfold is_ascii_digit. rewrite andb_true_iff, !N.leb_le. done. Qed.

(** Every number that fits is read back from its decimal form. *)
Lemma parse_uint_fmt max n : n <= max -> parse_uint max (fmt_dec n) = Some n.
Proof.
  intros Hn. unfold parse_uint. destruct (fmt_dec_cons n) as (c & s & E & Hc). rewrite E.
  apply is_ascii_digit_range in Hc. unfold PLUS.
  destruct (N.eqb_spec c 43); [lia|]. rewrite <- E. unfold fmt_dec.
  rewrite <- (value_of_digits 10 n) at 2.
  apply parse_digits_fmap; [lia|lia|apply digits_bound; lia|by rewrite value_of_digits].
Qed.
