(* ===== verification/IpAddr.v ===== *)
(** * IP addresses

    [std::net::IpAddr] with the parser and the [Display] of the standard
    library, which the rule syntax is built on, and the address
    canonicalisation of shared/contracts/src/ip_block.rs. *)

From S2P Require Import Prelude Str Digits.
From stdpp Require Import base numbers list countable.

Open Scope Z_scope.

(** An address with the integer its octets spell, most significant first. *)
Inductive IpAddr : Set :=
| V4 (bits : Z)
| V6 (bits : Z).

#[export] Instance IpAddr_eq_dec : EqDecision IpAddr.
Proof. solve_decision. Defined.

#[export] Instance IpAddr_countable : Countable IpAddr.
Proof.
  apply (inj_countable' (fun a => match a with V4 v => inl v | V6 v => inr v end)
           (fun s : Z + Z => match s with inl v => V4 v | inr v => V6 v end)).
  by intros [].
Defined.

Definition is_ipv4 (a : IpAddr) : bool := match a with V4 _ => true | V6 _ => false end.

(** The value fits the address family. *)
Definition ip_wf (a : IpAddr) : Prop :=
  match a with
  | V4 v => 0 <= v < 2 ^ 32
  | V6 v => 0 <= v < 2 ^ 128
  end.

#[export] Instance ip_wf_dec a : Decision (ip_wf a).
Proof. destruct a; apply _. Defined.

(** The derived order: every IPv4 address before every IPv6 one. *)
Definition ip_cmp (a b : IpAddr) : comparison :=
  match a, b with
  | V4 x, V4 y => Z.compare x y
  | V4 _, V6 _ => Lt
  | V6 _, V4 _ => Gt
  | V6 x, V6 y => Z.compare x y
  end.

(** [Ipv4Addr::from([a, b, c, d])]. *)
Definition ipv4 (a b c d : Z) : IpAddr := V4 (((a * 256 + b) * 256 + c) * 256 + d).

(** [Ipv6Addr::to_ipv4_mapped]: the last 32 bits of [::ffff:0:0/96]. *)
Definition to_ipv4_mapped (v6 : Z) : option Z :=
  if Z.shiftr v6 32 =? 65535 then Some (Z.land v6 u32_max) else None.

Arguments to_ipv4_mapped : simpl never.
Arguments ip_wf : simpl never.

(** One address written two ways is one address. *)
Definition canonical_ip (ip : IpAddr) : IpAddr :=
  match ip with
  | V6 v6 => match to_ipv4_mapped v6 with Some v4 => V4 v4 | None => ip end
  | V4 _ => ip
  end.

(** ** Text: the standard library's parser

    A parser consumes a prefix of its input, or fails and consumes nothing. *)

Definition parser (A : Type) : Type := str -> option (A * str).

Definition read_given_char (c : char) : parser unit := fun s =>
  match s with
  | d :: s' => if (c =? d)%N then Some (tt, s') else None
  | [] => None
  end.

(** [read_number(radix, Some(max_digits), allow_zero_prefix)] bounded by
    [max], the largest value of the target type: as many digits as there are,
    failing past [max_digits], on a leading zero where it is not allowed, and
    with no digit at all. *)
Fixpoint read_digits (radix max : N) (room : nat) (acc : N) (s : str) : option (N * nat * str) :=
  match s with
  | c :: s' =>
      match to_digit radix c with
      | Some d =>
          match room with
          | O => None
          | S room' =>
              let acc' := (acc * radix + d)%N in
              if (acc' <=? max)%N then
                match read_digits radix max room' acc' s' with
                | Some (v, n, r) => Some (v, S n, r)
                | None => None
                end
              else None
          end
      | None => Some (acc, O, s)
      end
  | [] => Some (acc, O, [])
  end.

Definition read_number (radix max : N) (max_digits : nat) (zero_prefix : bool) : parser N :=
  fun s =>
    let leading_zero := match s with c :: _ => (c =? 48)%N | [] => false end in
    match read_digits radix max max_digits 0 s with
    | Some (v, n, r) =>
        if (n =? 0)%nat then None
        else if negb zero_prefix && leading_zero && (1 <? n)%nat then None
        else Some (v, r)
    | None => None
    end.

(** [read_separator(sep, index, inner)]: the separator before every part but
    the first. *)
Definition read_separator {A} (sep : char) (index : nat) (inner : parser A) : parser A :=
  fun s =>
    match index with
    | O => inner s
    | _ => match read_given_char sep s with
           | Some (_, s') => inner s'
           | None => None
           end
    end.

Fixpoint read_ipv4_octets (todo index : nat) (acc : Z) : parser Z := fun s =>
  match todo with
  | O => Some (acc, s)
  | S todo' =>
      match read_separator DOT index (read_number 10 255 3 false) s with
      | Some (v, s') => read_ipv4_octets todo' (S index) (acc * 256 + Z.of_N v) s'
      | None => None
      end
  end.

Definition read_ipv4_addr : parser Z := read_ipv4_octets 4 0 0.

(** [read_groups]: the groups read, and whether they ended in an embedded IPv4
    address. It never fails: it stops where no further group can be read. *)
Fixpoint read_groups (limit todo index : nat) (s : str) : list Z * bool * str :=
  match todo with
  | O => ([], false, s)
  | S todo' =>
      let embedded :=
        if (index <? limit - 1)%nat then read_separator COLON index read_ipv4_addr s else None in
      match embedded with
      | Some (v, s') => ([Z.shiftr v 16; Z.land v 65535], true, s')
      | None =>
          match read_separator COLON index (read_number 16 65535 4 true) s with
          | Some (g, s') =>
              let '(gs, v4, r) := read_groups limit todo' (S index) s' in
              (Z.of_N g :: gs, v4, r)
          | None => ([], false, s)
          end
      end
  end.

Definition of_groups (gs : list Z) : Z := fold_left (fun a g => a * 65536 + g) gs 0.

Definition read_ipv6_addr : parser Z := fun s =>
  let '(head, head_ipv4, s1) := read_groups 8 8 0 s in
  if (length head =? 8)%nat then Some (of_groups head, s1)
  else if head_ipv4 then None
  else
    match read_given_char COLON s1 with
    | Some (_, s2) =>
        match read_given_char COLON s2 with
        | Some (_, s3) =>
            let limit := (8 - (length head + 1))%nat in
            let '(tail, _, s4) := read_groups limit limit 0 s3 in
            let zeros := replicate (8 - length head - length tail) 0 in
            Some (of_groups (head ++ zeros ++ tail), s4)
        | None => None
        end
    | None => None
    end.

(** [str::parse::<Ipv4Addr>] and [str::parse::<IpAddr>]: the whole input is
    consumed; an IPv4 address is at most 15 bytes. *)
Definition parse_ipv4_addr (s : str) : option Z :=
  if (15 <? byte_len s)%nat then None
  else match read_ipv4_addr s with
       | Some (v, []) => Some v
       | _ => None
       end.

Definition parse_ip_addr (s : str) : option IpAddr :=
  match read_ipv4_addr s with
  | Some (v, rest) => match rest with [] => Some (V4 v) | _ => None end
  | None =>
      match read_ipv6_addr s with
      | Some (v, []) => Some (V6 v)
      | _ => None
      end
  end.

(** ** Text: [Display] *)

Definition octet (v : Z) (i : Z) : N := Z.to_N (Z.land (Z.shiftr v (8 * i)) 255).

Definition fmt_ipv4 (v : Z) : str :=
  fmt_dec (octet v 3) ++ DOT :: fmt_dec (octet v 2) ++ DOT :: fmt_dec (octet v 1)
    ++ DOT :: fmt_dec (octet v 0).

Definition segments (v : Z) : list Z :=
  (fun i => Z.land (Z.shiftr v (16 * i)) 65535) <$> [7; 6; 5; 4; 3; 2; 1; 0].

(** The first longest run of zero segments, as start and length. *)
Fixpoint longest_zeros (i : nat) (cur best : nat * nat) (segs : list Z) : nat * nat :=
  match segs with
  | [] => best
  | g :: rest =>
      if g =? 0 then
        let start := if (snd cur =? 0)%nat then i else fst cur in
        let cur' := (start, S (snd cur)) in
        longest_zeros (S i) cur' (if (snd best <? snd cur')%nat then cur' else best) rest
      else longest_zeros (S i) (O, O) best rest
  end.

Definition fmt_groups (gs : list Z) : str := str_join [COLON] ((fun g => fmt_hex (Z.to_N g)) <$> gs).

Definition fmt_ipv6 (v : Z) : str :=
  match to_ipv4_mapped v with
  | Some v4 => u "::ffff:" ++ fmt_ipv4 v4
  | None =>
      let segs := segments v in
      let '(start, len) := longest_zeros 0 (O, O) (O, O) segs in
      if (1 <? len)%nat then
        fmt_groups (take start segs) ++ u "::" ++ fmt_groups (drop (start + len) segs)
      else fmt_groups segs
  end.

Definition fmt_ip (a : IpAddr) : str := match a with V4 v => fmt_ipv4 v | V6 v => fmt_ipv6 v end.

(** ** Lemmas *)

#[export] Instance ip_cmp_total : CmpTotal ip_cmp.
Proof.
  split; [split|].
  - intros [x|x] [y|y]; simpl; try done; apply Z.compare_antisym.
  - intros [x|x] [y|y] [z|z]; simpl; try done; rewrite ?Z.compare_le_iff; try lia.
  - intros [x|x] [y|y]; simpl; try done; intros ->%Z.compare_eq; done.
Qed.

Lemma to_ipv4_mapped_Some v4 v6 :
  0 <= v6 < 2 ^ 128 -> to_ipv4_mapped v6 = Some v4 <-> 0 <= v4 < 2 ^ 32 /\ v6 = 65535 * 2 ^ 32 + v4.
Proof.
  intros Hv. unfold to_ipv4_mapped.
  rewrite Z.shiftr_div_pow2 by lia. change u32_max with (Z.ones 32).
  rewrite Z.land_ones by lia.
  assert (Hm := Z.mod_pos_bound v6 (2 ^ 32) ltac:(lia)).
  assert (Hd := Z.div_mod v6 (2 ^ 32) ltac:(lia)).
  destruct (Z.eqb_spec (v6 / 2 ^ 32) 65535) as [E|E].
  - split.
    + intros [= <-]. lia.
    + intros [Hr ->]. f_equal. lia.
  - split; [done|]. intros [Hr ->]. exfalso. apply E.
    symmetry. apply (Z.div_unique _ _ _ v4); lia.
Qed.

Lemma canonical_ip_wf a : ip_wf a -> ip_wf (canonical_ip a).
Proof.
  destruct a as [v|v]; cbn [canonical_ip]; [auto|]. intros Hv.
  destruct (to_ipv4_mapped v) as [w|] eqn:E; [|assumption].
  apply to_ipv4_mapped_Some in E; [|assumption]. apply E.
Qed.

Lemma canonical_ip_idemp a : canonical_ip (canonical_ip a) = canonical_ip a.
Proof.
  destruct a as [v|v]; [reflexivity|]. unfold canonical_ip.
  destruct (to_ipv4_mapped v) eqn:E; [reflexivity|by rewrite E].
Qed.
