(* ===== verification/IpBlock.v ===== *)
(** * Networks and address ranges

    shared/contracts/src/ip_block.rs: a network in canonical form, and an
    inclusive range carried together with its decomposition into aligned
    blocks. The rule matcher reads ranges through their blocks only, so what
    a range rule matches is decided by [decompose]. *)

From S2P Require Import Prelude Str Digits IpAddr.
From stdpp Require Import base sorting numbers list.

Open Scope Z_scope.

(** ** [u128] arithmetic of the source *)

Definition u128_BITS : Z := 128.

(** [!x] on [u128]. *)
Definition u128_not (x : Z) : Z := u128_max - x.

(** [u128::leading_zeros]. *)
Definition leading_zeros (x : Z) : Z := if x =? 0 then 128 else 127 - Z.log2 x.

Fixpoint pos_trailing_zeros (p : positive) : Z :=
  match p with
  | xO q => 1 + pos_trailing_zeros q
  | _ => 0
  end.

(** [u128::trailing_zeros]. *)
Definition trailing_zeros (x : Z) : Z :=
  match x with Zpos p => pos_trailing_zeros p | _ => 128 end.

(** [u128::checked_add]. *)
Definition u128_checked_add (a b : Z) : option Z :=
  if a + b <=? u128_max then Some (a + b) else None.

Definition family_bits (address : IpAddr) : Z := if is_ipv4 address then 32 else 128.

Definition full (bits : Z) : Z :=
  if u128_BITS <=? bits then u128_max else Z.shiftl 1 bits - 1.

Definition mask (prefix_len bits : Z) : Z :=
  let host_bits := bits - prefix_len in
  if u128_BITS <=? host_bits then 0
  else Z.land (full bits) (u128_not (Z.shiftl 1 host_bits - 1)).

Definition to_bits (address : IpAddr) : Z :=
  match address with V4 v4 => v4 | V6 v6 => v6 end.

(** [value as u32] keeps the low 32 bits. *)
Definition from_bits (like : IpAddr) (value : Z) : IpAddr :=
  match like with
  | V4 _ => V4 (Z.land value u32_max)
  | V6 _ => V6 value
  end.

(** ** [IpBlock] *)

Record IpBlock : Set := mkIpBlock {
  network : IpAddr;
  prefix_len : Z;
}.

#[export] Instance IpBlock_eq_dec : EqDecision IpBlock.
Proof. solve_decision. Defined.

Definition IpBlock_new (address : IpAddr) (prefix_len : Z) : option IpBlock :=
  let bits := family_bits address in
  if bits <? prefix_len then None
  else Some {| network := from_bits address (Z.land (to_bits address) (mask prefix_len bits));
               prefix_len := prefix_len |}.

(** [address/len]; a bare address is refused. *)
Definition IpBlock_parse (text : str) : option IpBlock :=
  match split_once SLASH (trim text) with
  | Some (address, prefix) =>
      let prefix := trim prefix in
      if is_empty prefix || negb (forallb is_ascii_digit prefix) then None
      else match parse_ip_addr (trim address), parse_uint 255 prefix with
           | Some a, Some p => IpBlock_new a (Z.of_N p)
           | _, _ => None
           end
  | None => None
  end.

Definition IpBlock_is_ipv4 (b : IpBlock) : bool := is_ipv4 (network b).

Definition max_prefix_len (b : IpBlock) : Z := if IpBlock_is_ipv4 b then 32 else 128.

Definition is_single_address (b : IpBlock) : bool := prefix_len b =? max_prefix_len b.

Definition IpBlock_last (b : IpBlock) : IpAddr :=
  let bits := family_bits (network b) in
  from_bits (network b)
    (Z.lor (to_bits (network b)) (Z.land (u128_not (mask (prefix_len b) bits)) (full bits))).

Definition IpBlock_contains (b : IpBlock) (address : IpAddr) : bool :=
  Bool.eqb (is_ipv4 address) (IpBlock_is_ipv4 b)
  && match IpBlock_new address (prefix_len b) with
     | Some b' => bool_decide (b' = b)
     | None => false
     end.

Definition IpBlock_covers (b other : IpBlock) : bool :=
  (prefix_len b <=? prefix_len other) && IpBlock_contains b (network other).

Definition IpBlock_overlaps (b other : IpBlock) : bool :=
  IpBlock_covers b other || IpBlock_covers other b.

Definition IpBlock_fmt (b : IpBlock) : str :=
  fmt_ip (network b) ++ SLASH :: fmt_dec (Z.to_N (prefix_len b)).

(** The derived order. *)
Definition IpBlock_cmp : IpBlock -> IpBlock -> comparison :=
  cmp_then (cmp_on network ip_cmp) (cmp_on prefix_len Z.compare).

(** ** [decompose]

    The loop of the source. It makes at most [2 * bits + 1] turns
    ([decompose_loop_tiles]), so [decompose_fuel] turns are enough for either
    family: the loop never answers [None]. *)

Definition decompose_fuel : nat := 258.

Definition decompose_size (bits cur end_ : Z) : Z :=
  let align := if cur =? 0 then bits else Z.min (trailing_zeros cur) bits in
  let fit := match u128_checked_add (end_ - cur) 1 with
             | Some count => u128_BITS - 1 - leading_zeros count
             | None => u128_BITS
             end in
  Z.min align fit.

Fixpoint decompose_loop (fuel : nat) (first : IpAddr) (bits cur end_ : Z) : option (list IpBlock) :=
  match fuel with
  | O => None
  | S fuel' =>
      let size_bits := decompose_size bits cur end_ in
      let block := {| network := from_bits first cur; prefix_len := bits - size_bits |} in
      let block_last := if u128_BITS <=? size_bits then u128_max
                        else cur + (Z.shiftl 1 size_bits - 1) in
      if end_ <=? block_last then Some [block]
      else match decompose_loop fuel' first bits (block_last + 1) end_ with
           | Some out => Some (block :: out)
           | None => None
           end
  end.

Definition decompose (first last : IpAddr) : list IpBlock :=
  default [] (decompose_loop decompose_fuel first (family_bits first) (to_bits first) (to_bits last)).

(** ** [IpRange] *)

Record IpRange : Set := mkIpRange {
  range_first : IpAddr;
  range_last : IpAddr;
  range_blocks : list IpBlock;
}.

#[export] Instance IpRange_eq_dec : EqDecision IpRange.
Proof. solve_decision. Defined.

Definition IpRange_new (first last : IpAddr) : option IpRange :=
  if negb (Bool.eqb (is_ipv4 first) (is_ipv4 last)) || (to_bits last <? to_bits first) then None
  else Some {| range_first := first; range_last := last; range_blocks := decompose first last |}.

Definition IpRange_parse (text : str) : option IpRange :=
  match split_once DASH (trim text) with
  | Some (first, last) =>
      match parse_ip_addr (trim first), parse_ip_addr (trim last) with
      | Some f, Some l => IpRange_new f l
      | _, _ => None
      end
  | None => None
  end.

Definition IpRange_is_ipv4 (r : IpRange) : bool := is_ipv4 (range_first r).

Definition IpRange_contains (r : IpRange) (address : IpAddr) : bool :=
  Bool.eqb (is_ipv4 address) (IpRange_is_ipv4 r)
  && ((to_bits (range_first r) <=? to_bits address) && (to_bits address <=? to_bits (range_last r))).

Definition width_bits (r : IpRange) : Z :=
  let span := to_bits (range_last r) - to_bits (range_first r) in
  if span =? 0 then 0 else u128_BITS - leading_zeros span.

Definition IpRange_fmt (r : IpRange) : str :=
  fmt_ip (range_first r) ++ DASH :: fmt_ip (range_last r).

(** An IPv4-mapped IPv6 network is its IPv4 network. *)
Definition canonical_block (block : IpBlock) : IpBlock :=
  match network block with
  | V6 _ =>
      if 96 <=? prefix_len block then
        let mapped := canonical_ip (network block) in
        if is_ipv4 mapped then default block (IpBlock_new mapped (prefix_len block - 96))
        else block
      else block
  | V4 _ => block
  end.

(** ** The addresses of a block *)

(** Two widths occur, that of IPv4 and that of IPv6. *)
Definition is_width (bits : Z) : Prop := bits = 32 \/ bits = 128.

(** A network in canonical form. *)
Definition block_wf (b : IpBlock) : Prop :=
  ip_wf (network b) /\ 0 <= prefix_len b <= family_bits (network b)
  /\ to_bits (network b) mod 2 ^ (family_bits (network b) - prefix_len b) = 0.

Definition block_size (b : IpBlock) : Z := 2 ^ (family_bits (network b) - prefix_len b).

(** The addresses the block names. *)
Definition in_block (b : IpBlock) (a : IpAddr) : Prop :=
  is_ipv4 a = is_ipv4 (network b)
  /\ to_bits (network b) <= to_bits a < to_bits (network b) + block_size b.

Lemma family_bits_width a : is_width (family_bits a).
Proof. unfold is_width, family_bits. destruct (is_ipv4 a); auto. Qed.

Lemma ip_wf_bits a : ip_wf a <-> 0 <= to_bits a < 2 ^ family_bits a.
Proof. destruct a; reflexivity. Qed.

Lemma width_pow_le bits : is_width bits -> 2 ^ bits <= 2 ^ 128.
Proof. intros [->| ->]; apply Z.pow_le_mono_r; lia. Qed.

Lemma full_ones bits : is_width bits -> full bits = Z.ones bits.
Proof. intros [->| ->]; reflexivity. Qed.

Lemma pow2_divide_mod_0 c h k : 0 <= h <= k -> c mod 2 ^ k = 0 -> c mod 2 ^ h = 0.
Proof.
  intros H Hc. apply Z.mod_divide; [lia|].
  apply Z.divide_trans with (2 ^ k); [|apply Z.mod_divide; [lia|exact Hc]].
  exists (2 ^ (k - h)). rewrite <- Z.pow_add_r by lia. f_equal. lia.
Qed.

Lemma u128_not_ones h : 0 <= h <= 128 -> u128_not (Z.shiftl 1 h - 1) = Z.shiftl (Z.ones (128 - h)) h.
Proof.
  intros H. unfold u128_not. rewrite !Z.shiftl_mul_pow2, Z.ones_equiv by lia.
  change u128_max with (2 ^ 128 - 1).
  assert (2 ^ 128 = 2 ^ (128 - h) * 2 ^ h) by (rewrite <- Z.pow_add_r by lia; f_equal; lia).
  rewrite Z.mul_pred_l. lia.
Qed.

(** Masking clears the host bits. *)
Lemma land_mask p bits v :
  is_width bits -> 0 <= p <= bits -> 0 <= v < 2 ^ bits ->
  Z.land v (mask p bits) = v - v mod 2 ^ (bits - p).
Proof.
  intros Hw Hp Hv. unfold mask, u128_BITS. set (h := bits - p).
  assert (Hb : bits <= 128) by (destruct Hw; lia).
  assert (Hv' := width_pow_le bits Hw).
  destruct (Z.leb_spec 128 h).
  { assert (h = bits) as -> by lia. rewrite Z.land_0_r, Z.mod_small by lia. lia. }
  rewrite full_ones by exact Hw. rewrite Z.land_assoc, Z.land_ones, Z.mod_small by lia.
  rewrite u128_not_ones by lia.
  transitivity (Z.shiftl (Z.land (Z.shiftr v h) (Z.ones (128 - h))) h).
  { apply Z.bits_inj'. intros i Hi. rewrite Z.land_spec.
    destruct (Z.lt_ge_cases i h).
    - rewrite !Z.shiftl_spec_low by lia. apply andb_false_r.
    - rewrite !Z.shiftl_spec_high, Z.land_spec, Z.shiftr_spec by lia. do 2 f_equal. lia. }
  rewrite Z.land_ones, Z.shiftr_div_pow2, Z.shiftl_mul_pow2 by lia.
  assert (0 < 2 ^ h) by lia.
  assert (Hsplit : 2 ^ 128 = 2 ^ h * 2 ^ (128 - h)) by (rewrite <- Z.pow_add_r by lia; f_equal; lia).
  rewrite (Z.mod_small (v / 2 ^ h)).
  2: { split; [apply Z.div_pos; lia|]. apply Z.div_lt_upper_bound; lia. }
  assert (Hd := Z.div_mod v (2 ^ h) ltac:(lia)). lia.
Qed.

Lemma from_bits_like a v : 0 <= v < 2 ^ family_bits a ->
  to_bits (from_bits a v) = v /\ is_ipv4 (from_bits a v) = is_ipv4 a.
Proof.
  destruct a; unfold from_bits; [|auto]. change u32_max with (Z.ones 32).
  intros H. rewrite Z.land_ones by lia. change (family_bits (V4 bits)) with 32 in H.
  split; [apply Z.mod_small, H|reflexivity].
Qed.

Lemma from_bits_wf a v : 0 <= v < 2 ^ family_bits a -> ip_wf (from_bits a v).
Proof.
  intros H. apply ip_wf_bits. destruct (from_bits_like a v H) as [-> E].
  unfold family_bits. rewrite E. exact H.
Qed.

Lemma family_bits_eq a b : is_ipv4 a = is_ipv4 b -> family_bits a = family_bits b.
Proof. unfold family_bits. by intros ->. Qed.

Lemma ip_ext a b : is_ipv4 a = is_ipv4 b -> to_bits a = to_bits b -> a = b.
Proof. destruct a, b; simpl; congruence. Qed.

Lemma sub_mod_mod v m : 0 < m -> (v - v mod m) mod m = 0.
Proof.
  intros H. assert (E := Z.div_mod v m ltac:(lia)).
  replace (v - v mod m) with ((v / m) * m) by lia. apply Z.mod_mul. lia.
Qed.

Lemma IpBlock_new_Some a p b :
  ip_wf a -> 0 <= p -> IpBlock_new a p = Some b ->
  p <= family_bits a /\ prefix_len b = p /\ is_ipv4 (network b) = is_ipv4 a
  /\ to_bits (network b) = to_bits a - to_bits a mod 2 ^ (family_bits a - p) /\ block_wf b.
Proof.
  intros Ha%ip_wf_bits Hp. unfold IpBlock_new.
  destruct (Z.ltb_spec (family_bits a) p) as [|Hle]; [discriminate|]. intros [= <-].
  assert (Hw := family_bits_width a).
  rewrite (land_mask p _ _ Hw) by lia. cbn [network prefix_len].
  set (h := family_bits a - p). assert (0 < 2 ^ h) by lia.
  assert (Hm := Z.mod_pos_bound (to_bits a) (2 ^ h) ltac:(lia)).
  assert (Hd := Z.mod_le (to_bits a) (2 ^ h) ltac:(lia) ltac:(lia)).
  assert (Hr : 0 <= to_bits a - to_bits a mod 2 ^ h < 2 ^ family_bits a) by lia.
  destruct (from_bits_like a _ Hr) as [E1 E2].
  repeat split; try assumption; try lia; cbn [network prefix_len].
  - apply from_bits_wf, Hr.
  - rewrite (family_bits_eq _ _ E2). lia.
  - rewrite (family_bits_eq _ _ E2), E1. apply sub_mod_mod. lia.
Qed.

Lemma floor_unique v n m : 0 < m -> n mod m = 0 -> v - v mod m = n <-> n <= v < n + m.
Proof.
  intros Hm Hn. assert (Hv := Z.div_mod v m ltac:(lia)).
  assert (Hr := Z.mod_pos_bound v m Hm). split; [lia|]. intros H.
  assert (Hn' := Z.div_mod n m ltac:(lia)).
  assert (v / m = n / m); [|lia].
  symmetry. apply (Z.div_unique v m (n / m) (v - n)); lia.
Qed.

(** [contains] decides membership. *)
Lemma IpBlock_contains_spec b a :
  block_wf b -> ip_wf a -> IpBlock_contains b a = true <-> in_block b a.
Proof.
  intros (Hn & Hp & Hal) Ha. unfold IpBlock_contains, in_block, IpBlock_is_ipv4, block_size.
  rewrite andb_true_iff, eqb_true_iff.
  split; intros [Hf H]; (split; [exact Hf|]);
    pose proof (family_bits_eq _ _ Hf) as Hfb.
  - destruct (IpBlock_new a (prefix_len b)) as [b'|] eqn:E; [|discriminate].
    apply bool_decide_eq_true in H. subst b'.
    apply IpBlock_new_Some in E as (_ & _ & _ & E & _); [|assumption|lia].
    rewrite Hfb in E. symmetry in E. apply floor_unique in E; [exact E|lia|exact Hal].
  - destruct (IpBlock_new a (prefix_len b)) as [b'|] eqn:E.
    + apply IpBlock_new_Some in E as (_ & E1 & E2 & E3 & _); [|assumption|lia].
      apply bool_decide_eq_true. rewrite Hfb in E3.
      apply floor_unique in H; [|lia|exact Hal].
      destruct b', b; simpl in *. f_equal; [|exact E1]. apply ip_ext; congruence.
    + unfold IpBlock_new in E. rewrite Hfb in E.
      destruct (Z.ltb_spec (family_bits (network b)) (prefix_len b)); [lia|discriminate].
Qed.

Lemma block_bounds b :
  block_wf b -> 0 <= to_bits (network b)
  /\ to_bits (network b) + block_size b <= 2 ^ family_bits (network b) /\ 0 < block_size b.
Proof.
  intros (Hn%ip_wf_bits & Hp & Hal). unfold block_size.
  set (n := to_bits (network b)) in *. set (bits := family_bits (network b)) in *.
  assert (0 < 2 ^ (bits - prefix_len b)) by lia.
  apply Z.mod_divide in Hal as [q Hq]; [|lia].
  assert (E : 2 ^ bits = 2 ^ (bits - prefix_len b) * 2 ^ prefix_len b)
    by (rewrite <- Z.pow_add_r by lia; f_equal; lia).
  assert (q < 2 ^ prefix_len b) by nia. nia.
Qed.

(** Aligned blocks nest: a smaller one that meets a larger one is inside it. *)
Lemma aligned_nest m n sm sn x :
  0 <= sm <= sn -> m mod 2 ^ sm = 0 -> n mod 2 ^ sn = 0 ->
  m <= x < m + 2 ^ sm -> n <= x < n + 2 ^ sn -> n <= m /\ m + 2 ^ sm <= n + 2 ^ sn.
Proof.
  intros Hs Hm Hn Hx1 Hx2.
  assert (E : 2 ^ sn = 2 ^ (sn - sm) * 2 ^ sm) by (rewrite <- Z.pow_add_r by lia; f_equal; lia).
  assert (0 < 2 ^ sm) by lia. assert (0 < 2 ^ (sn - sm)) by lia.
  apply Z.mod_divide in Hm as [a Ha]; [|lia]. apply Z.mod_divide in Hn as [c Hc]; [|lia].
  subst m n. rewrite E in *. set (k := 2 ^ (sn - sm)) in *. set (w := 2 ^ sm) in *.
  assert (c * k <= a) by nia. assert (a < (c + 1) * k) by nia. nia.
Qed.

(** [covers] decides inclusion of the two address sets. *)
Lemma IpBlock_covers_spec b o :
  block_wf b -> block_wf o ->
  IpBlock_covers b o = true <-> (forall a, ip_wf a -> in_block o a -> in_block b a).
Proof.
  intros Hb Ho. destruct (block_bounds b Hb) as (B1 & B2 & B3).
  destruct (block_bounds o Ho) as (O1 & O2 & O3).
  pose proof Hb as (Hbn & Hbp & Hba). pose proof Ho as (Hon & Hop & Hoa).
  unfold IpBlock_covers. rewrite andb_true_iff, Z.leb_le, IpBlock_contains_spec by assumption.
  split.
  - intros [Hp [Hf Hin]] a Ha [Hfa Hia]. assert (Hfb := family_bits_eq _ _ Hf).
    unfold in_block, block_size in *. rewrite Hfb in *.
    split; [congruence|].
    destruct (aligned_nest (to_bits (network o)) (to_bits (network b))
      (family_bits (network b) - prefix_len o) (family_bits (network b) - prefix_len b)
      (to_bits (network o))); try assumption; lia.
  - intros H. assert (Hin : in_block b (network o)).
    { apply H; [assumption|]. split; [reflexivity|lia]. }
    split; [|exact Hin]. destruct Hin as [Hf Hin]. assert (Hfb := family_bits_eq _ _ Hf).
    set (x := to_bits (network o) + block_size o - 1).
    assert (Hx : 0 <= x < 2 ^ family_bits (network o)) by lia.
    destruct (from_bits_like (network o) x Hx) as [E1 E2].
    destruct (H (from_bits (network o) x)) as [_ Hlast].
    { by apply from_bits_wf. }
    { split; [assumption|]. lia. }
    rewrite E1 in Hlast. apply Z.nlt_ge. intros Hlt.
    assert (2 * block_size b <= block_size o).
    { unfold block_size. rewrite Hfb, <- (Z.pow_succ_r 2) by lia. apply Z.pow_le_mono_r; lia. }
    lia.
Qed.

(** [overlaps] decides that some address is in both. *)
Lemma IpBlock_overlaps_spec b o :
  block_wf b -> block_wf o ->
  IpBlock_overlaps b o = true <-> exists a, ip_wf a /\ in_block b a /\ in_block o a.
Proof.
  intros Hb Ho. destruct (block_bounds b Hb) as (B1 & B2 & B3).
  destruct (block_bounds o Ho) as (O1 & O2 & O3).
  unfold IpBlock_overlaps. rewrite orb_true_iff, !IpBlock_covers_spec by assumption.
  pose proof Hb as (Hbn & Hbp & Hba). pose proof Ho as (Hon & Hop & Hoa).
  split.
  - intros [H|H].
    + exists (network o). assert (in_block o (network o)) by (split; [reflexivity|lia]). auto.
    + exists (network b). assert (in_block b (network b)) by (split; [reflexivity|lia]). auto.
  - intros (a & Ha & [Hf1 H1] & [Hf2 H2]).
    assert (Hfb : family_bits (network o) = family_bits (network b))
      by (apply family_bits_eq; congruence).
    unfold in_block, block_size in *. rewrite Hfb in *.
    set (bits := family_bits (network b)) in *.
    destruct (Z.le_ge_cases (prefix_len b) (prefix_len o)); [left|right];
      intros x Hx [Hfx Hix]; (split; [congruence|]).
    + destruct (aligned_nest (to_bits (network o)) (to_bits (network b))
        (bits - prefix_len o) (bits - prefix_len b) (to_bits a)); try assumption; lia.
    + destruct (aligned_nest (to_bits (network b)) (to_bits (network o))
        (bits - prefix_len b) (bits - prefix_len o) (to_bits a)); try assumption; lia.
Qed.

(** ** The decomposition *)

Lemma pos_trailing_zeros_nonneg p : 0 <= pos_trailing_zeros p.
Proof. induction p; simpl; lia. Qed.

Lemma pos_trailing_zeros_spec p :
  exists q, Zpos p = (2 * q + 1) * 2 ^ pos_trailing_zeros p.
Proof.
  induction p as [p _|p [q IH]|]; cbn [pos_trailing_zeros].
  - exists (Zpos p). lia.
  - exists q. assert (H := pos_trailing_zeros_nonneg p).
    rewrite Z.pow_add_r, (Pos2Z.inj_xO p), IH by lia. lia.
  - exists 0. lia.
Qed.

Lemma trailing_zeros_mod x s :
  0 < x -> 0 <= s -> x mod 2 ^ s = 0 <-> s <= trailing_zeros x.
Proof.
  intros Hx Hs. destruct x as [|p|p]; [lia| |lia]. cbn [trailing_zeros].
  destruct (pos_trailing_zeros_spec p) as [q Hq]. assert (Ht := pos_trailing_zeros_nonneg p).
  set (t := pos_trailing_zeros p) in *. split.
  - intros H. apply Z.nlt_ge. intros Hlt.
    apply (pow2_divide_mod_0 _ (t + 1)) in H; [|lia].
    apply Z.mod_divide in H as [k Hk]; [|lia].
    rewrite Z.pow_add_r in Hk by lia. assert (0 < 2 ^ t) by lia.
    assert (2 * q + 1 = k * 2) by nia. lia.
  - intros H. rewrite Hq. replace t with ((t - s) + s) by lia.
    rewrite Z.pow_add_r, Z.mul_assoc by lia. apply Z.mod_mul. lia.
Qed.

(** Adding the lowest set bit clears it. *)
Lemma carry_aligned c a :
  0 <= a -> c mod 2 ^ a = 0 -> c mod 2 ^ (a + 1) <> 0 -> (c + 2 ^ a) mod 2 ^ (a + 1) = 0.
Proof.
  intros Ha Hc Hodd. apply Z.mod_divide in Hc as [q ->]; [|lia].
  rewrite Z.pow_add_r in * by lia. change (2 ^ 1) with 2 in *.
  assert (E := Z.div_mod q 2 ltac:(lia)). assert (B := Z.mod_pos_bound q 2 ltac:(lia)).
  assert (0 < 2 ^ a) by lia.
  destruct (Z.eq_dec (q mod 2) 0) as [E0|E0].
  - exfalso. apply Hodd. apply Z.mod_divide; [lia|]. exists (q / 2). nia.
  - apply Z.mod_divide; [lia|]. exists (q / 2 + 1). nia.
Qed.

Section Decompose.
Context (bits : Z) (Hbits : is_width bits).

Definition align_of (cur : Z) : Z := if cur =? 0 then bits else Z.min (trailing_zeros cur) bits.
Definition fit_of (cur end_ : Z) : Z := Z.log2 (end_ - cur + 1).

Lemma decompose_size_eq cur end_ :
  0 <= cur <= end_ -> end_ < 2 ^ bits ->
  decompose_size bits cur end_ = Z.min (align_of cur) (fit_of cur end_).
Proof using Hbits.
  intros Hc He. unfold decompose_size, align_of, fit_of, u128_checked_add, leading_zeros, u128_BITS.
  assert (Hw := width_pow_le bits Hbits). change u128_max with (2 ^ 128 - 1).
  destruct (Z.leb_spec (end_ - cur + 1) (2 ^ 128 - 1)).
  - destruct (Z.eqb_spec (end_ - cur + 1) 0); [lia|]. f_equal. lia.
  - assert (end_ - cur + 1 = 2 ^ 128) as -> by lia. rewrite Z.log2_pow2 by lia. reflexivity.
Qed.

Lemma align_of_bounds cur : 0 <= cur -> 0 <= align_of cur <= bits.
Proof using Hbits.
  intros Hc. unfold align_of. assert (0 < bits) by (destruct Hbits; lia).
  destruct (Z.eqb_spec cur 0); [lia|]. destruct cur as [|p|p]; [lia| |lia].
  cbn [trailing_zeros]. assert (Hn := pos_trailing_zeros_nonneg p). lia.
Qed.

Lemma align_of_mod cur s :
  0 <= cur -> 0 <= s <= bits -> cur mod 2 ^ s = 0 <-> s <= align_of cur.
Proof using Hbits.
  intros Hc Hs. unfold align_of. destruct (Z.eqb_spec cur 0) as [->|].
  - rewrite Z.mod_0_l by lia. lia.
  - rewrite trailing_zeros_mod by lia. lia.
Qed.

Lemma fit_of_spec cur end_ :
  cur <= end_ -> 0 <= fit_of cur end_
  /\ 2 ^ fit_of cur end_ <= end_ - cur + 1 < 2 ^ (fit_of cur end_ + 1).
Proof using Type.
  intros H. unfold fit_of. split; [apply Z.log2_nonneg|].
  rewrite Z.add_1_r. apply Z.log2_spec. lia.
Qed.

Lemma fit_of_le_bits cur end_ : 0 <= cur <= end_ -> end_ < 2 ^ bits -> fit_of cur end_ <= bits.
Proof using Hbits.
  intros Hc He. destruct (fit_of_spec cur end_) as (H0 & H1 & _); [lia|].
  apply Z.nlt_ge. intros Hlt.
  assert (2 ^ (bits + 1) <= 2 ^ fit_of cur end_) by (apply Z.pow_le_mono_r; lia).
  rewrite Z.pow_add_r in * by (destruct Hbits; lia). lia.
Qed.

(** The turns left: while the size is bounded by the alignment, the alignment
    grows; once it is bounded by what is left of the range, that shrinks. *)
Definition turns_left (cur end_ : Z) : Z :=
  (if align_of cur <=? fit_of cur end_ then bits - align_of cur else 0) + fit_of cur end_ + 1.

Lemma next_turn cur end_ :
  0 <= cur -> end_ < 2 ^ bits ->
  let s := Z.min (align_of cur) (fit_of cur end_) in
  cur + 2 ^ s <= end_ ->
  turns_left (cur + 2 ^ s) end_ < turns_left cur end_
  /\ (align_of cur <= fit_of cur end_ -> align_of cur < align_of (cur + 2 ^ s))
  /\ (fit_of cur end_ < align_of cur ->
      fit_of (cur + 2 ^ s) end_ < fit_of cur end_ /\ fit_of cur end_ <= align_of (cur + 2 ^ s)).
Proof using Hbits.
  intros Hc He s Hn.
  destruct (fit_of_spec cur end_) as (F0 & F1 & F2); [lia|].
  destruct (fit_of_spec (cur + 2 ^ s) end_) as (G0 & G1 & G2); [lia|].
  assert (A := align_of_bounds cur Hc).
  assert (A' := align_of_bounds (cur + 2 ^ s) ltac:(lia)).
  assert (Hal : cur mod 2 ^ align_of cur = 0) by (apply align_of_mod; lia).
  assert (Hf' : fit_of (cur + 2 ^ s) end_ <= fit_of cur end_) by (apply Z.log2_le_mono; lia).
  assert (P1 : align_of cur <= fit_of cur end_ -> align_of cur < align_of (cur + 2 ^ s)).
  { intros Hle. unfold s. rewrite Z.min_l in * by lia.
    assert (align_of cur < bits).
    { apply Z.nle_gt. intros Hb. assert (2 ^ bits <= 2 ^ align_of cur) by (apply Z.pow_le_mono_r; lia).
      unfold s in Hn. rewrite Z.min_l in Hn by lia. lia. }
    assert (Hodd : cur mod 2 ^ (align_of cur + 1) <> 0).
    { intros Hz. apply align_of_mod in Hz; lia. }
    apply Z.lt_le_trans with (align_of cur + 1); [lia|].
    apply align_of_mod; [lia|lia|].
    by apply carry_aligned; [lia|..]. }
  assert (P2 : fit_of cur end_ < align_of cur ->
    fit_of (cur + 2 ^ s) end_ < fit_of cur end_ /\ fit_of cur end_ <= align_of (cur + 2 ^ s)).
  { intros Hlt. unfold s in *. rewrite Z.min_r in * by lia. split.
    - rewrite Z.pow_add_r in F2 by lia. apply (Z.pow_lt_mono_r_iff 2); lia.
    - apply align_of_mod; [lia|lia|].
      apply (pow2_divide_mod_0 _ (fit_of cur end_)) in Hal; [|lia].
      rewrite <- Z.add_mod_idemp_l, Hal by lia. rewrite Z.add_0_l. apply Z.mod_same. lia. }
  split; [|auto]. unfold turns_left.
  destruct (Z.leb_spec (align_of cur) (fit_of cur end_)) as [Hle|Hlt].
  - specialize (P1 Hle). destruct (Z.leb_spec (align_of (cur + 2 ^ s)) (fit_of (cur + 2 ^ s) end_)); lia.
  - destruct (P2 Hlt). destruct (Z.leb_spec (align_of (cur + 2 ^ s)) (fit_of (cur + 2 ^ s) end_)); lia.
Qed.

Lemma turns_left_bounds cur end_ :
  0 <= cur <= end_ -> end_ < 2 ^ bits -> 1 <= turns_left cur end_ <= 2 * bits + 1.
Proof using Hbits.
  intros Hc He. unfold turns_left. assert (A := align_of_bounds cur ltac:(lia)).
  assert (F := fit_of_le_bits cur end_ Hc He).
  destruct (fit_of_spec cur end_) as (F0 & _); [lia|].
  destruct (Z.leb_spec (align_of cur) (fit_of cur end_)); lia.
Qed.

End Decompose.

(** [tiling lo bits first cur end_ out]: the blocks of [out] lie end to end from
    [cur] to [end_], each aligned to its size, and none of them can be replaced
    by the aligned block twice its size without leaving [lo .. end_]. *)
Definition maximal_in (lo bits end_ cur s : Z) : Prop :=
  s = bits \/ cur - cur mod 2 ^ (s + 1) < lo \/ end_ < cur - cur mod 2 ^ (s + 1) + 2 ^ (s + 1) - 1.

Inductive tiling (lo bits : Z) (first : IpAddr) (end_ : Z) : Z -> list IpBlock -> Prop :=
| tiling_last cur s :
    0 <= cur -> 0 <= s <= bits -> cur mod 2 ^ s = 0 -> maximal_in lo bits end_ cur s ->
    cur + 2 ^ s = end_ + 1 ->
    tiling lo bits first end_ cur [{| network := from_bits first cur; prefix_len := bits - s |}]
| tiling_cons cur s rest :
    0 <= cur -> 0 <= s <= bits -> cur mod 2 ^ s = 0 -> maximal_in lo bits end_ cur s ->
    cur + 2 ^ s <= end_ -> tiling lo bits first end_ (cur + 2 ^ s) rest ->
    tiling lo bits first end_ cur
      ({| network := from_bits first cur; prefix_len := bits - s |} :: rest).

Lemma maximal_size lo bits cur end_ :
  is_width bits -> 0 <= lo <= cur -> cur <= end_ -> end_ < 2 ^ bits ->
  (align_of bits cur <= fit_of cur end_ -> cur - lo < 2 ^ align_of bits cur) ->
  maximal_in lo bits end_ cur (Z.min (align_of bits cur) (fit_of cur end_)).
Proof.
  intros Hb Hlo Hc He Hinv. set (s := Z.min (align_of bits cur) (fit_of cur end_)). unfold maximal_in. assert (A := align_of_bounds bits Hb cur ltac:(lia)).
  destruct (fit_of_spec cur end_) as (F0 & F1 & F2); [lia|].
  destruct (Z.eq_dec s bits) as [|Hs]; [by left|right].
  destruct (Z.le_gt_cases (align_of bits cur) (fit_of cur end_)) as [Hle|Hgt].
  - left. specialize (Hinv Hle). unfold s in *. rewrite Z.min_l in * by lia.
    assert (Hal : cur mod 2 ^ align_of bits cur = 0) by (apply (align_of_mod bits Hb); lia).
    assert (Hodd : cur mod 2 ^ (align_of bits cur + 1) <> 0).
    { intros Hz. apply (align_of_mod bits Hb) in Hz; lia. }
    set (a := align_of bits cur) in *.
    assert (Hk := carry_aligned cur a ltac:(lia) Hal Hodd).
    apply Z.mod_divide in Hk as [k Hk]; [|lia]. rewrite Z.pow_add_r in * by lia.
    rewrite <- (Z.mod_unique_pos cur (2 ^ a * 2 ^ 1) (k - 1) (2 ^ a)); lia.
  - right. unfold s in *. rewrite Z.min_r in * by lia.
    assert (Hal : cur mod 2 ^ (fit_of cur end_ + 1) = 0) by (apply (align_of_mod bits Hb); lia).
    rewrite Hal. lia.
Qed.

Lemma decompose_loop_tiles lo first end_ fuel cur :
  0 <= lo <= cur -> cur <= end_ -> end_ < 2 ^ family_bits first ->
  turns_left (family_bits first) cur end_ <= Z.of_nat fuel ->
  (align_of (family_bits first) cur <= fit_of cur end_ ->
   cur - lo < 2 ^ align_of (family_bits first) cur) ->
  exists out, decompose_loop fuel first (family_bits first) cur end_ = Some out
    /\ tiling lo (family_bits first) first end_ cur out
    /\ Z.of_nat (length out) <= turns_left (family_bits first) cur end_.
Proof.
  assert (Hb := family_bits_width first). set (bits := family_bits first) in *.
  revert cur. induction fuel as [|fuel IH]; intros cur Hlo Hc He Hf Hinv.
  { assert (T := turns_left_bounds bits Hb cur end_). lia. }
  assert (T := turns_left_bounds bits Hb cur end_ ltac:(lia) He).
  assert (A := align_of_bounds bits Hb cur ltac:(lia)).
  destruct (fit_of_spec cur end_) as (F0 & F1 & F2); [lia|].
  cbn [decompose_loop]. rewrite (decompose_size_eq bits Hb) by lia.
  assert (Hmax := maximal_size lo bits cur end_ Hb Hlo Hc He Hinv).
  assert (N := next_turn bits Hb cur end_ ltac:(lia) He). cbv zeta in N, Hmax.
  set (s := Z.min (align_of bits cur) (fit_of cur end_)) in *.
  assert (Hs : 0 <= s <= bits) by lia.
  assert (Hal : cur mod 2 ^ s = 0) by (apply (align_of_mod bits Hb); lia).
  assert (Hfit : 2 ^ s <= end_ - cur + 1).
  { etransitivity; [|exact F1]. apply Z.pow_le_mono_r; lia. }
  assert (Hbl : (if u128_BITS <=? s then u128_max else cur + (Z.shiftl 1 s - 1)) = cur + 2 ^ s - 1).
  { unfold u128_BITS. destruct (Z.leb_spec 128 s).
    - assert (s = 128) as E by (destruct Hb; lia). assert (bits = 128) as Eb by (destruct Hb; lia).
      rewrite Eb in He. rewrite E in Hfit |- *. change u128_max with (2 ^ 128 - 1). lia.
    - rewrite Z.shiftl_1_l. lia. }
  rewrite Hbl. destruct (Z.leb_spec end_ (cur + 2 ^ s - 1)) as [Hd|Hd].
  - eexists. split; [reflexivity|]. split; [|simpl; lia].
    apply tiling_last; [lia|lia|assumption|assumption|lia].
  - replace (cur + 2 ^ s - 1 + 1) with (cur + 2 ^ s) by lia.
    destruct N as (N1 & N2 & N3); [lia|].
    destruct (IH (cur + 2 ^ s)) as (out & -> & Ht & Hl); [lia|lia|lia|lia| |].
    { intros Hle'. destruct (Z.le_gt_cases (align_of bits cur) (fit_of cur end_)) as [Hle|Hgt].
      - specialize (N2 Hle). specialize (Hinv Hle).
        assert (2 ^ (align_of bits cur + 1) <= 2 ^ align_of bits (cur + 2 ^ s))
          by (apply Z.pow_le_mono_r; lia).
        assert (s = align_of bits cur) as Es by lia. rewrite Z.pow_add_r in * by lia.
        rewrite Es at 1. lia.
      - destruct (N3 Hgt). lia. }
    eexists. split; [reflexivity|]. split; [|cbn [length]; lia].
    apply tiling_cons; [lia|lia|assumption|assumption|lia|exact Ht].
Qed.

(** The loop returns, within [decompose_fuel] turns, for every range of either
    family. *)
Lemma decompose_total first last :
  ip_wf first -> ip_wf last -> is_ipv4 first = is_ipv4 last -> to_bits first <= to_bits last ->
  exists out, decompose_loop decompose_fuel first (family_bits first) (to_bits first) (to_bits last)
              = Some out
    /\ tiling (to_bits first) (family_bits first) first (to_bits last) (to_bits first) out
    /\ Z.of_nat (length out) <= 2 * family_bits first + 1.
Proof.
  intros Hf%ip_wf_bits Hl%ip_wf_bits Hfam Hle. rewrite <- (family_bits_eq _ _ Hfam) in Hl.
  assert (Hb := family_bits_width first).
  assert (T := turns_left_bounds _ Hb (to_bits first) (to_bits last) ltac:(lia) ltac:(lia)).
  destruct (decompose_loop_tiles (to_bits first) first (to_bits last) decompose_fuel (to_bits first))
    as (out & E & Ht & Hlen); try lia.
  { change (Z.of_nat decompose_fuel) with 258. destruct Hb; lia. }
  { intros _. assert (A := align_of_bounds _ Hb (to_bits first) ltac:(lia)). lia. }
  exists out. split; [exact E|]. split; [exact Ht|]. lia.
Qed.

(** What the blocks of a tiling are. *)
Lemma tiling_blocks lo first end_ cur out :
  tiling lo (family_bits first) first end_ cur out -> end_ < 2 ^ family_bits first ->
  Forall (fun b => block_wf b /\ is_ipv4 (network b) = is_ipv4 first
    /\ cur <= to_bits (network b) /\ to_bits (network b) + block_size b <= end_ + 1
    /\ maximal_in lo (family_bits first) end_ (to_bits (network b)) (family_bits first - prefix_len b))
    out.
Proof.
  intros H He. assert (Hw := family_bits_width first). set (bits := family_bits first) in *.
  assert (Hblock : forall c s, 0 <= c -> 0 <= s <= bits -> c mod 2 ^ s = 0 -> c + 2 ^ s <= end_ + 1 ->
    maximal_in lo bits end_ c s ->
    let b := {| network := from_bits first c; prefix_len := bits - s |} in
    block_wf b /\ is_ipv4 (network b) = is_ipv4 first /\ c = to_bits (network b)
    /\ to_bits (network b) + block_size b = c + 2 ^ s
    /\ maximal_in lo bits end_ (to_bits (network b)) (bits - prefix_len b)).
  { intros c s Hc Hs Hal Hle Hmax b.
    assert (Hr : 0 <= c < 2 ^ bits) by lia.
    destruct (from_bits_like first c Hr) as [E1 E2]. assert (Eb := family_bits_eq _ _ E2).
    unfold block_wf, block_size, b. cbn [network prefix_len]. rewrite Eb, E1. fold bits.
    replace (bits - (bits - s)) with s by lia. repeat split; try assumption; try lia.
    by apply from_bits_wf. }
  induction H as [cur s Hc Hs Hal Hmax Hend|cur s rest Hc Hs Hal Hmax Hle Ht IH];
    (constructor; [destruct (Hblock cur s) as (H1 & H2 & H3 & H4 & H5); try assumption; try lia;
                   (split; [exact H1|split; [exact H2|split; [lia|split; [lia|exact H5]]]])|]).
  - constructor.
  - eapply Forall_impl; [exact IH|]. cbv beta. intros b (H1 & H2 & H3 & H4 & H5).
    assert (0 < 2 ^ s) by lia.
    split; [exact H1|split; [exact H2|split; [lia|split; [lia|exact H5]]]].
Qed.

(** Every value from the start to the end lies in one block. *)
Lemma tiling_covers lo first end_ cur out v :
  tiling lo (family_bits first) first end_ cur out -> end_ < 2 ^ family_bits first ->
  cur <= v <= end_ ->
  Exists (fun b => to_bits (network b) <= v < to_bits (network b) + block_size b) out.
Proof.
  intros H He Hv. assert (Hw := family_bits_width first).
  assert (Hspan : forall c s, 0 <= c <= end_ -> let b := {| network := from_bits first c;
      prefix_len := family_bits first - s |} in
    to_bits (network b) = c /\ block_size b = 2 ^ s).
  { intros c s Hc b. destruct (from_bits_like first c) as [E1 E2]; [lia|].
    unfold b, block_size. cbn [network prefix_len]. rewrite (family_bits_eq _ _ E2).
    split; [exact E1|]. f_equal. lia. }
  induction H as [cur s Hc Hs Hal Hmax Hend|cur s rest Hc Hs Hal Hmax Hle Ht IH];
    destruct (Hspan cur s) as [E1 E2]; try lia.
  - apply Exists_cons_hd. rewrite E1, E2. lia.
  - destruct (Z.lt_ge_cases v (cur + 2 ^ s)).
    + apply Exists_cons_hd. rewrite E1, E2. lia.
    + apply Exists_cons_tl, IH. lia.
Qed.

Lemma tiling_sorted lo first end_ cur out :
  tiling lo (family_bits first) first end_ cur out -> end_ < 2 ^ family_bits first ->
  StronglySorted (fun b o => to_bits (network b) + block_size b <= to_bits (network o)) out.
Proof.
  intros H He. induction H as [|cur s rest Hc Hs Hal Hmax Hle Ht IH].
  - constructor; constructor.
  - constructor; [exact IH|]. assert (Hb := tiling_blocks _ _ _ _ _ Ht He).
    eapply Forall_impl; [exact Hb|]. cbv beta. intros b (_ & _ & Hcur & _).
    destruct (from_bits_like first cur) as [E1 E2]; [lia|].
    unfold block_size. cbn [network prefix_len]. rewrite E1, (family_bits_eq _ _ E2).
    replace (family_bits first - (family_bits first - s)) with s by lia. lia.
Qed.

(** The ranges the constructor accepts and what it makes of them. *)
Lemma IpRange_new_Some f l r :
  ip_wf f -> ip_wf l -> IpRange_new f l = Some r ->
  range_first r = f /\ range_last r = l /\ is_ipv4 f = is_ipv4 l
  /\ 0 <= to_bits f <= to_bits l /\ to_bits l < 2 ^ family_bits f
  /\ tiling (to_bits f) (family_bits f) f (to_bits l) (to_bits f) (range_blocks r)
  /\ Z.of_nat (length (range_blocks r)) <= 2 * family_bits f + 1.
Proof.
  intros Hf Hl. unfold IpRange_new.
  destruct (Bool.eqb (is_ipv4 f) (is_ipv4 l)) eqn:Efam; cbn [negb orb]; [|discriminate].
  apply eqb_prop in Efam.
  destruct (Z.ltb_spec (to_bits l) (to_bits f)); [discriminate|]. intros [= <-].
  cbn [range_first range_last range_blocks]. unfold decompose.
  destruct (decompose_total f l Hf Hl Efam) as (out & -> & Ht & Hlen); [lia|].
  apply ip_wf_bits in Hf, Hl. rewrite <- (family_bits_eq _ _ Efam) in Hl.
  cbn [default]. repeat split; try assumption; lia.
Qed.

(** The blocks of a range: each in canonical form and inside the range. *)
Lemma range_blocks_inside f l r :
  ip_wf f -> ip_wf l -> IpRange_new f l = Some r ->
  Forall (fun b => block_wf b /\ forall a, in_block b a -> IpRange_contains r a = true) (range_blocks r).
Proof.
  intros Hf Hl (E1 & E2 & Efam & Hfl & Hl' & Ht & _)%IpRange_new_Some; [|assumption..].
  eapply Forall_impl; [exact (tiling_blocks _ _ _ _ _ Ht Hl')|]. cbv beta.
  intros b (Hwf & Hfb & H1 & H2 & _). split; [exact Hwf|]. intros a [H3 H4].
  unfold IpRange_contains, IpRange_is_ipv4. rewrite E1, E2, !andb_true_iff, eqb_true_iff, !Z.leb_le.
  split; [congruence|lia].
Qed.

(** Every address of a range is in one of its blocks. *)
Lemma range_blocks_reach f l r a :
  ip_wf f -> ip_wf l -> IpRange_new f l = Some r -> IpRange_contains r a = true ->
  exists b, b ∈ range_blocks r /\ in_block b a.
Proof.
  intros Hf Hl (E1 & E2 & Efam & Hfl & Hl' & Ht & _)%IpRange_new_Some; [|assumption..].
  assert (Hb := tiling_blocks _ _ _ _ _ Ht Hl').
  unfold IpRange_contains, IpRange_is_ipv4. rewrite E1, E2, !andb_true_iff, eqb_true_iff, !Z.leb_le.
  intros [Ha1 Ha2]. assert (He := tiling_covers _ _ _ _ _ (to_bits a) Ht Hl' Ha2).
  apply Exists_exists in He as (b & Hin & Hv). exists b. split; [exact Hin|].
  rewrite Forall_forall in Hb. destruct (Hb b Hin) as (_ & Hfb & _). split; [congruence|exact Hv].
Qed.

(** C29. A range rule matches exactly its range: for every range the constructor
    accepts and every address, some block of the decomposition contains the
    address iff the range does. *)
Theorem range_blocks_exact f l r a :
  ip_wf f -> ip_wf l -> IpRange_new f l = Some r -> ip_wf a ->
  existsb (fun b => IpBlock_contains b a) (range_blocks r) = IpRange_contains r a.
Proof.
  intros Hf Hl E Ha. assert (Hb := range_blocks_inside f l r Hf Hl E). rewrite Forall_forall in Hb.
  apply eq_true_iff_eq. rewrite existsb_elem. split.
  - intros (b & Hin & Hc). destruct (Hb b Hin) as [Hwf H]. apply H. by apply IpBlock_contains_spec in Hc.
  - intros Hc. destruct (range_blocks_reach f l r a Hf Hl E Hc) as (b & Hin & H). exists b.
    split; [exact Hin|]. by apply IpBlock_contains_spec; [apply Hb| |].
Qed.

Lemma range_blocks_exact_witness :
  existsb (fun b => IpBlock_contains b (ipv4 10 0 0 9))
    (range_blocks (default (mkIpRange (V4 0) (V4 0) []) (IpRange_new (ipv4 10 0 0 3) (ipv4 10 0 1 7))))
  = IpRange_contains (default (mkIpRange (V4 0) (V4 0) []) (IpRange_new (ipv4 10 0 0 3) (ipv4 10 0 1 7)))
      (ipv4 10 0 0 9).
Proof.
  apply (range_blocks_exact (ipv4 10 0 0 3) (ipv4 10 0 1 7));
    [by vm_compute|by vm_compute|by vm_compute|by vm_compute].
Defined.

(** The decomposition loop ends for every range of either family, with at
    most [2 * bits + 1] blocks, and gives canonical networks in ascending order
    that do not overlap. *)
Theorem decompose_bounded_sorted f l :
  ip_wf f -> ip_wf l -> is_ipv4 f = is_ipv4 l -> to_bits f <= to_bits l ->
  decompose_loop decompose_fuel f (family_bits f) (to_bits f) (to_bits l) = Some (decompose f l)
  /\ Z.of_nat (length (decompose f l)) <= 2 * family_bits f + 1
  /\ Forall block_wf (decompose f l)
  /\ StronglySorted (fun b o => to_bits (network b) + block_size b <= to_bits (network o))
       (decompose f l).
Proof.
  intros Hf Hl Hfam Hle.
  destruct (decompose_total f l Hf Hl Hfam Hle) as (out & E & Ht & Hlen).
  unfold decompose. rewrite E. cbn [default].
  assert (He : to_bits l < 2 ^ family_bits f).
  { apply ip_wf_bits in Hl. rewrite (family_bits_eq _ _ Hfam). lia. }
  split; [reflexivity|]. split; [exact Hlen|]. split; [|exact (tiling_sorted _ _ _ _ _ Ht He)].
  eapply Forall_impl; [exact (tiling_blocks _ _ _ _ _ Ht He)|]. cbv beta. tauto.
Qed.

Lemma decompose_bounded_sorted_witness :
  Z.of_nat (length (decompose (V4 1) (V4 (2 ^ 32 - 2)))) <= 2 * family_bits (V4 1) + 1
  /\ length (decompose (V4 1) (V4 (2 ^ 32 - 2))) = 62%nat.
Proof.
  split; [|by vm_compute].
  apply (decompose_bounded_sorted (V4 1) (V4 (2 ^ 32 - 2)));
    [by vm_compute|by vm_compute|by vm_compute|by vm_compute].
Defined.

(** The decomposition is the coarsest one: every network inside the range
    is covered by a single block of it. *)
Theorem decompose_coarsest f l r o :
  ip_wf f -> ip_wf l -> IpRange_new f l = Some r -> block_wf o ->
  IpRange_contains r (network o) = true -> to_bits (network o) + block_size o - 1 <= to_bits l ->
  exists b, b ∈ range_blocks r /\ IpBlock_covers b o = true.
Proof.
  intros Hf Hl (E1 & E2 & Efam & Hfl & Hl' & Ht & _)%IpRange_new_Some Ho Hc Hlast; [|assumption..].
  unfold IpRange_contains, IpRange_is_ipv4 in Hc. rewrite E1, E2 in Hc.
  apply andb_true_iff in Hc as [Hfo%eqb_prop Hc].
  apply andb_true_iff in Hc as [Hc1%Z.leb_le Hc2%Z.leb_le].
  assert (He := tiling_covers _ _ _ _ _ (to_bits (network o)) Ht Hl' (conj Hc1 Hc2)).
  apply Exists_exists in He as (b & Hin & Hv). exists b. split; [exact Hin|].
  assert (Hb := tiling_blocks _ _ _ _ _ Ht Hl'). rewrite Forall_forall in Hb.
  destruct (Hb b Hin) as (Hwf & Hfb & H1 & H2 & Hmax).
  unfold IpBlock_covers. rewrite andb_true_iff, Z.leb_le, IpBlock_contains_spec;
    [|assumption|apply Ho]. split; [|split; [congruence|exact Hv]].
  apply Z.nlt_ge. intros Hlt. destruct Hwf as (_ & Hpb & Halb), Ho as (_ & Hpo & Halo).
  assert (Fo := family_bits_eq _ _ Hfo). assert (Fb := family_bits_eq _ _ Hfb).
  unfold block_size in *. rewrite Fo, Fb in *. set (bits := family_bits f) in *.
  set (n := to_bits (network b)) in *. set (s := bits - prefix_len b) in *.
  assert (Hm := Z.mod_pos_bound n (2 ^ (s + 1)) ltac:(lia)).
  assert (Hal := sub_mod_mod n (2 ^ (s + 1)) ltac:(lia)).
  assert (E : 2 ^ (s + 1) = 2 * 2 ^ s) by (rewrite Z.pow_add_r by lia; lia).
  assert (n mod 2 ^ (s + 1) <= 2 ^ s).
  { apply Z.mod_divide in Halb as [q Hq]; [|lia]. rewrite E in *.
    assert (Hd := Z.div_mod n (2 * 2 ^ s) ltac:(lia)). assert (0 < 2 ^ s) by lia.
    set (w := 2 ^ s) in *. set (d := n / (2 * w)) in *. set (m := n mod (2 * w)) in *.
    assert (m = (q - 2 * d) * w) by lia. assert (q - 2 * d < 2) by nia. nia. }
  destruct (aligned_nest (n - n mod 2 ^ (s + 1)) (to_bits (network o)) (s + 1) (bits - prefix_len o)
    (to_bits (network o))); try assumption; [lia|lia|lia|].
  destruct Hmax as [Hs|[Hs|Hs]]; lia.
Qed.

Lemma decompose_coarsest_witness :
  exists b, b ∈ range_blocks (default (mkIpRange (V4 0) (V4 0) [])
                                (IpRange_new (ipv4 10 0 0 3) (ipv4 10 0 1 7)))
    /\ IpBlock_covers b (mkIpBlock (ipv4 10 0 0 16) 28) = true.
Proof.
  apply (decompose_coarsest (ipv4 10 0 0 3) (ipv4 10 0 1 7));
    [by vm_compute|by vm_compute|by vm_compute| |by vm_compute|by vm_compute].
  split; [by vm_compute|split; [split; by vm_compute|by vm_compute]].
Defined.

(** The mask as a number. *)
Lemma mask_value p bits :
  is_width bits -> 0 <= p <= bits -> mask p bits = 2 ^ bits - 2 ^ (bits - p).
Proof.
  intros Hw Hp. assert (0 < 2 ^ bits) by (destruct Hw; lia).
  assert (Hfull := land_mask p bits (2 ^ bits - 1) Hw ltac:(lia) ltac:(lia)).
  assert (Hin : Z.land (2 ^ bits - 1) (mask p bits) = mask p bits).
  { unfold mask. destruct (_ <=? _); [apply Z.land_0_r|].
    rewrite full_ones, Z.ones_equiv, Z.sub_1_r by exact Hw. by rewrite Z.land_assoc, Z.land_diag. }
  rewrite Hin in Hfull. set (h := bits - p) in *.
  rewrite <- (Z.mod_unique_pos (2 ^ bits - 1) (2 ^ h) (2 ^ (bits - h) - 1) (2 ^ h - 1)) in Hfull;
    [lia|lia|].
  rewrite Z.mul_sub_distr_l, <- Z.pow_add_r by lia.
  replace (h + (bits - h)) with bits by lia. lia.
Qed.

Lemma host_bits_value p bits :
  is_width bits -> 0 <= p <= bits ->
  Z.land (u128_not (mask p bits)) (full bits) = 2 ^ (bits - p) - 1.
Proof.
  intros Hw Hp. rewrite full_ones, mask_value by assumption. unfold u128_not.
  assert (bits <= 128) by (destruct Hw; lia).
  assert (2 ^ (bits - p) <= 2 ^ bits) by (apply Z.pow_le_mono_r; lia).
  change u128_max with (2 ^ 128 - 1). rewrite Z.land_ones by lia.
  symmetry. apply (Z.mod_unique_pos _ _ (2 ^ (128 - bits) - 1)); [lia|].
  rewrite Z.mul_sub_distr_l, <- Z.pow_add_r by lia.
  replace (bits + (128 - bits)) with 128 by lia. lia.
Qed.

(** [last] is the block's highest address. *)
Lemma IpBlock_last_bits b :
  block_wf b -> is_ipv4 (IpBlock_last b) = is_ipv4 (network b)
  /\ to_bits (IpBlock_last b) = to_bits (network b) + block_size b - 1.
Proof.
  intros Hb. destruct (block_bounds b Hb) as (B1 & B2 & B3). destruct Hb as (Hn & Hp & Hal).
  unfold IpBlock_last, block_size in *. assert (Hw := family_bits_width (network b)).
  rewrite host_bits_value by assumption.
  set (n := to_bits (network b)) in *. set (h := family_bits (network b) - prefix_len b) in *.
  assert (Hor := Z.add_lor_land n (2 ^ h - 1)).
  rewrite (Z.sub_1_r (2 ^ h)), <- Z.ones_equiv, Z.land_ones, Hal in Hor by lia.
  rewrite (Z.sub_1_r (2 ^ h)), <- Z.ones_equiv. rewrite Z.ones_equiv in *.
  replace (Z.lor n (Z.pred (2 ^ h))) with (n + 2 ^ h - 1) by lia.
  destruct (from_bits_like (network b) (n + 2 ^ h - 1)) as [E1 E2]; [lia|].
  split; [exact E2|exact E1].
Qed.
