(* ===== verification/IpText.v ===== *)
(** * Addresses, networks and ranges as text

    What [Display] writes, the parsers of the standard library and of
    shared/contracts/src/ip_block.rs read back. *)

From stdpp Require Import base numbers list.
From S2P Require Import Prelude Str Digits IpAddr IpBlock.

Open Scope Z_scope.

(** ** Numbers inside an address *)

(** Nothing, or a character that is no digit. *)
Definition no_digit (radix : N) (s : str) : Prop :=
  match s with c :: _ => to_digit radix c = None | [] => True end.

Lemma read_digits_app radix max room acc s v n rest :
  read_digits radix max room acc s = Some (v, n, []) -> no_digit radix rest ->
  read_digits radix max room acc (s ++ rest) = Some (v, n, rest).
Proof.
  intros H Hr. revert room acc v n H. induction s as [|c s IH]; intros room acc v n.
  - destruct room; cbn; intros E; simplify_eq; destruct rest as [|c rest]; cbn; by rewrite ?Hr.
  - destruct room as [|room]; cbn; destruct (to_digit radix c); try done; cbn.
    destruct (_ <=? max)%N; [|done]. destruct (read_digits radix max room _ s) as [[[v' n'] r]|] eqn:E; [|done].
    intros ?. simplify_eq. by rewrite (IH _ _ _ _ E).
Qed.

Definition number_reads (radix max : N) (room : nat) (zero_prefix : bool) (text : N -> str) (n : N) : bool :=
  match read_digits radix max room 0 (text n) with
  | Some (v, k, []) =>
      (v =? n)%N && negb (k =? 0)%nat
      && negb (negb zero_prefix && match text n with c :: _ => (c =? 48)%N | [] => false end && (1 <? k)%nat)
      && negb (is_empty (text n))
  | _ => false
  end.

(** The numbers below [k], checked one by one. *)
Fixpoint all_below (k : nat) (p : N -> bool) : bool :=
  match k with O => true | S k' => p (N.of_nat k') && all_below k' p end.

Lemma all_below_spec k p n : all_below k p = true -> (n < N.of_nat k)%N -> p n = true.
Proof.
  induction k as [|k IH]; [lia|]. cbn [all_below]. intros [Hp Ha]%andb_true_iff Hn.
  destruct (N.eq_dec n (N.of_nat k)) as [->|]; [done|]. apply IH; [done|lia].
Qed.

Lemma octets_read : all_below 256 (number_reads 10 255 3 false fmt_dec) = true.
Proof. vm_compute. reflexivity. Qed.

Lemma read_number_written radix max room zp text n rest :
  number_reads radix max room zp text n = true -> no_digit radix rest ->
  read_number radix max room zp (text n ++ rest) = Some (n, rest).
Proof.
  unfold number_reads. destruct (read_digits radix max room 0 (text n)) as [[[v k] [|]]|] eqn:E; [|done..].
  rewrite !andb_true_iff. intros [[[Hv%N.eqb_eq Hk] Hz] He] Hr. subst v. unfold read_number.
  rewrite (read_digits_app _ _ _ _ _ _ _ _ E Hr).
  apply negb_true_iff in Hk as ->. destruct (text n) as [|c t]; [done|]. cbn [app].
  by apply negb_true_iff in Hz as ->.
Qed.

Lemma read_octet n rest :
  (n < 256)%N -> no_digit 10 rest -> read_number 10 255 3 false (fmt_dec n ++ rest) = Some (n, rest).
Proof.
  intros Hn Hr. apply read_number_written; [|done]. by apply (all_below_spec 256); [apply octets_read|].
Qed.

Lemma read_digits_fmap radix max room acc l rest :
  (1 <= radix <= 16)%N -> Forall (fun d => d < radix)%N l -> (value_of radix acc l <= max)%N ->
  (length l <= room)%nat -> no_digit radix rest ->
  read_digits radix max room acc ((digit_char <$> l) ++ rest) = Some (value_of radix acc l, length l, rest).
Proof.
  intros Hb Hl. revert room acc. induction Hl as [|d l Hd Hl IH]; intros room acc Hv Hn Hr.
  - destruct room, rest as [|c rest]; cbn; by rewrite ?Hr.
  - destruct room as [|room]; [cbn in Hn; lia|]. cbn. rewrite to_digit_char by lia.
    change (value_of radix acc (d :: l)) with (value_of radix (acc * radix + d)%N l) in *.
    pose proof (value_of_ge radix (acc * radix + d) l ltac:(lia)). rewrite (proj2 (N.leb_le _ _)) by lia.
    rewrite IH by (done || (cbn in Hn; lia)). done.
Qed.

Lemma read_hextet n rest :
  (n < 65536)%N -> no_digit 16 rest -> read_number 16 65535 4 true (fmt_hex n ++ rest) = Some (n, rest).
Proof.
  intros Hn Hr. unfold read_number, fmt_hex.
  assert (Hl : (length (digits 16 n) <= 4)%nat).
  { apply (digits_fuel_fixed 16 ltac:(lia)); [apply size_nat_bound|done|lia]. }
  pose proof (digits_bound 16 ltac:(lia) n). pose proof (value_of_digits 16 n) as Ev.
  rewrite read_digits_fmap by (done || lia). rewrite Ev. destruct (digits_cons 16 n) as (d & l & ->). done.
Qed.

(** ** IPv4 *)

Lemma octet_value v i : 0 <= v -> 0 <= i -> Z.of_N (octet v i) = (v / 2 ^ (8 * i)) mod 256.
Proof.
  intros Hv Hi. unfold octet. rewrite Z.shiftr_div_pow2 by lia. change 255 with (Z.ones 8).
  rewrite Z.land_ones by lia. rewrite Z2N.id; [done|]. apply Z.mod_pos_bound. lia.
Qed.

Lemma octet_bound v i : 0 <= v -> 0 <= i -> (octet v i < 256)%N.
Proof.
  intros Hv Hi. pose proof (octet_value v i Hv Hi). pose proof (Z.mod_pos_bound (v / 2 ^ (8 * i)) 256). lia.
Qed.

Lemma octets_join v :
  0 <= v < 2 ^ 32 ->
  ((Z.of_N (octet v 3) * 256 + Z.of_N (octet v 2)) * 256 + Z.of_N (octet v 1)) * 256 + Z.of_N (octet v 0) = v.
Proof.
  intros Hv. rewrite !octet_value by lia.
  change (2 ^ (8 * 0)) with 1. change (2 ^ (8 * 1)) with 256. change (2 ^ (8 * 2)) with (256 * 256).
  change (2 ^ (8 * 3)) with (256 * (256 * 256)). rewrite Z.div_1_r.
  rewrite (Z.mul_comm 256 (256 * 256)), <- !Z.div_div by lia.
  pose proof (Z.div_mod v 256). pose proof (Z.div_mod (v / 256) 256). pose proof (Z.div_mod (v / 256 / 256) 256).
  assert (v / 256 / 256 / 256 < 256) by (rewrite !Z.div_div by lia; apply Z.div_lt_upper_bound; [done|exact (proj2 Hv)]).
  rewrite (Z.mod_small (v / 256 / 256 / 256)); [lia|]. split; [|done]. repeat (apply Z.div_pos; [|lia]). lia.
Qed.

Lemma read_ipv4_written v rest :
  0 <= v < 2 ^ 32 -> no_digit 10 rest -> read_ipv4_addr (fmt_ipv4 v ++ rest) = Some (v, rest).
Proof.
  intros Hv Hr. unfold read_ipv4_addr, fmt_ipv4. cbn [read_ipv4_octets read_separator].
  rewrite <- !app_assoc. cbn [app]. rewrite read_octet by (reflexivity || (apply octet_bound; lia)).
  unfold read_given_char at 1. change (DOT =? DOT)%N with true. cbn iota.
  rewrite <- !app_assoc. cbn [app]. rewrite read_octet by (reflexivity || (apply octet_bound; lia)).
  unfold read_given_char at 1. change (DOT =? DOT)%N with true. cbn iota.
  rewrite <- !app_assoc. cbn [app]. rewrite read_octet by (reflexivity || (apply octet_bound; lia)).
  unfold read_given_char at 1. change (DOT =? DOT)%N with true. cbn iota.
  rewrite read_octet by (done || (apply octet_bound; lia)). do 2 f_equal.
  rewrite <- (octets_join v Hv) at 5. lia.
Qed.

(** ** IPv6 *)

Lemma read_digits_suffix radix max room acc s v n r :
  read_digits radix max room acc s = Some (v, n, r) -> exists p, s = p ++ r.
Proof.
  revert room acc v n. induction s as [|c s IH]; intros room acc v n.
  - destruct room; cbn; intros E; simplify_eq; by exists [].
  - destruct room as [|room]; cbn; destruct (to_digit radix c); try done; cbn.
    1,3: by intros E; simplify_eq; exists [].
    destruct (_ <=? max)%N; [|done]. destruct (read_digits radix max room _ s) as [[[v' n'] r']|] eqn:E; [|done].
    intros ?. simplify_eq. destruct (IH _ _ _ _ E) as [p ->]. by exists (c :: p).
Qed.

Lemma read_number_suffix radix max room zp s v r :
  read_number radix max room zp s = Some (v, r) -> exists p, s = p ++ r.
Proof.
  unfold read_number. destruct (read_digits radix max room 0 s) as [[[v' n] r']|] eqn:E; [|done].
  destruct (n =? 0)%nat; [done|]. destruct (_ && _ && _); [done|]. intros ?. simplify_eq.
  by eapply read_digits_suffix.
Qed.

(** A text without a dot holds no IPv4 address. *)
Lemma read_ipv4_no_dot s : contains_char (is_char DOT) s = false -> read_ipv4_addr s = None.
Proof.
  intros Hd. unfold read_ipv4_addr. cbn [read_ipv4_octets read_separator].
  destruct (read_number 10 255 3 false s) as [[v r]|] eqn:E; [|done].
  apply read_number_suffix in E as [p ->]. rewrite contains_char_app in Hd. apply orb_false_iff in Hd as [_ Hd].
  destruct r as [|c r]; [done|]. cbn [contains_char existsb] in Hd. apply orb_false_iff in Hd as [Hc _].
  cbn [read_given_char]. unfold is_char in Hc. rewrite N.eqb_sym in Hc. rewrite N.eqb_sym, Hc. done.
Qed.

(** Groups with their separators, as read from the [index]-th one on. *)
Fixpoint groups_text (index : nat) (gs : list Z) : str :=
  match gs with
  | [] => []
  | g :: gs' => (if (index =? 0)%nat then [] else [COLON]) ++ fmt_hex (Z.to_N g) ++ groups_text (S index) gs'
  end.

Definition hextet (g : Z) : Prop := 0 <= g < 65536.

Lemma groups_text_digit index gs rest :
  gs <> [] \/ no_digit 16 rest -> (1 <= index)%nat -> no_digit 16 (groups_text index gs ++ rest).
Proof.
  intros H Hi. destruct gs as [|g gs]; [by destruct H|]. cbn [groups_text].
  destruct (Nat.eqb_spec index 0); [lia|]. done.
Qed.

Lemma read_groups_written limit gs todo index rest :
  Forall hextet gs -> (length gs <= todo)%nat ->
  contains_char (is_char DOT) (groups_text index gs ++ rest) = false -> no_digit 16 rest ->
  (length gs < todo -> read_separator COLON (index + length gs) (read_number 16 65535 4 true) rest = None)%nat ->
  read_groups limit todo index (groups_text index gs ++ rest) = (gs, false, rest).
Proof.
  intros H. revert todo index. induction H as [|g gs Hg _ IH]; intros todo index Hl Hd Hr Hs.
  - cbn [groups_text app] in *. destruct todo as [|todo]; [done|]. cbn [read_groups].
    assert (read_separator COLON index read_ipv4_addr rest = None) as En.
    { unfold read_separator. destruct index; [by apply read_ipv4_no_dot|].
      destruct rest as [|c rest]; [done|]. cbn [read_given_char]. destruct (COLON =? c)%N; [|done].
      apply read_ipv4_no_dot. cbn [contains_char existsb] in Hd. by apply orb_false_iff in Hd as [_ ?]. }
    rewrite En. cbn [length] in Hs. rewrite Nat.add_0_r in Hs. rewrite Hs by lia. by destruct (index <? limit - 1)%nat.
  - destruct todo as [|todo]; [cbn in Hl; lia|]. cbn [groups_text] in *. rewrite <- !app_assoc in *. cbn [read_groups].
    assert (Hn : no_digit 16 (groups_text (S index) gs ++ rest)) by (apply groups_text_digit; [by right|lia]).
    assert (Hg' : (Z.to_N g < 65536)%N) by (unfold hextet in Hg; lia).
    assert (Hd' : contains_char (is_char DOT) (fmt_hex (Z.to_N g) ++ groups_text (S index) gs ++ rest) = false
                  /\ contains_char (is_char DOT) (groups_text (S index) gs ++ rest) = false).
    { rewrite !contains_char_app in *. repeat apply orb_false_iff in Hd as [? Hd]. repeat (apply orb_false_iff; split); try done.
      all: try (apply orb_false_iff; done). split; repeat (apply orb_false_iff; split); done. }
    destruct Hd' as [Hd1 Hd2].
    assert (read_separator COLON index read_ipv4_addr
              ((if (index =? 0)%nat then [] else [COLON]) ++ fmt_hex (Z.to_N g) ++ groups_text (S index) gs ++ rest) = None) as ->.
    { unfold read_separator. destruct index; cbn [app Nat.eqb]; [by apply read_ipv4_no_dot|].
      cbn [app read_given_char]. change (COLON =? COLON)%N with true. cbn iota. by apply read_ipv4_no_dot. }
    assert (read_separator COLON index (read_number 16 65535 4 true)
              ((if (index =? 0)%nat then [] else [COLON]) ++ fmt_hex (Z.to_N g) ++ groups_text (S index) gs ++ rest)
            = Some (Z.to_N g, groups_text (S index) gs ++ rest)) as ->.
    { unfold read_separator. destruct index; cbn [app Nat.eqb]; [by apply read_hextet|].
      cbn [app read_given_char]. change (COLON =? COLON)%N with true. cbn iota. by apply read_hextet. }
    rewrite IH; [|cbn in Hl; lia|done|done|].
    + rewrite Z2N.id by (unfold hextet in Hg; lia). by destruct (index <? limit - 1)%nat.
    + intros Hlt. cbn [length] in Hs. rewrite <- Nat.add_succ_comm in Hs. apply Hs. lia.
Qed.

(** [l] zeros of [L] from [s] on. *)
Definition zeros_at (L : list Z) (s l : nat) : Prop := forall k, (s <= k < s + l)%nat -> L !! k = Some 0.

Lemma longest_zeros_at L segs pre cur best :
  L = pre ++ segs ->
  (snd cur = 0%nat \/ (fst cur + snd cur = length pre)%nat /\ zeros_at L (fst cur) (snd cur)) ->
  zeros_at L (fst best) (snd best) ->
  let r := longest_zeros (length pre) cur best segs in zeros_at L (fst r) (snd r).
Proof.
  revert pre cur best. induction segs as [|g segs IH]; intros pre cur best E Hc Hb; [done|]. cbn [longest_zeros].
  assert (Hlen : S (length pre) = length (pre ++ [g])) by (rewrite length_app; cbn; lia).
  assert (E' : L = (pre ++ [g]) ++ segs) by by rewrite <- app_assoc.
  destruct (Z.eqb_spec g 0) as [->|Hg]; rewrite Hlen.
  - set (start := if (snd cur =? 0)%nat then length pre else fst cur).
    assert (Hn : (start + S (snd cur) = length (pre ++ [0%Z]))%nat /\ zeros_at L start (S (snd cur))).
    { unfold start. assert (Hz : L !! length pre = Some 0) by (rewrite E; by rewrite list_lookup_middle).
      destruct (Nat.eqb_spec (snd cur) 0) as [E0|E0].
      - rewrite E0. split; [lia|]. intros k Hk. by replace k with (length pre) by lia.
      - destruct Hc as [|[Hl Hz']]; [lia|]. split; [lia|]. intros k Hk.
        destruct (decide (k = length pre)) as [->|]; [done|]. apply Hz'. lia. }
    apply IH; [done|by right|]. destruct (_ <? _)%nat; [|done]. cbn [fst snd]. apply Hn.
  - apply IH; [done|by left|done].
Qed.

Lemma zeros_at_split L s l :
  zeros_at L s l -> (s + l <= length L)%nat -> take s L ++ replicate l 0 ++ drop (s + l) L = L.
Proof.
  intros H Hl. rewrite <- (take_drop s L) at 3. f_equal. rewrite <- (take_drop l (drop s L)) at 1. f_equal.
  - apply list_eq_same_length with l; [rewrite length_take, length_drop; lia|by rewrite length_replicate|].
    intros k x y Hk Hx Hy. rewrite lookup_replicate in Hx. rewrite lookup_take in Hy.
    case_decide; [|done]. rewrite lookup_drop in Hy. rewrite (H (s + k)%nat) in Hy by lia. naive_solver.
  - by rewrite drop_drop.
Qed.

Lemma zeros_at_length L s l : zeros_at L s l -> (1 <= l)%nat -> (s + l <= length L)%nat.
Proof.
  intros H Hl. specialize (H (s + l - 1)%nat ltac:(lia)). apply lookup_lt_Some in H. lia.
Qed.

Lemma segment_value v i : 0 <= v -> 0 <= i -> Z.land (Z.shiftr v (16 * i)) 65535 = (v / 2 ^ (16 * i)) mod 65536.
Proof.
  intros Hv Hi. rewrite Z.shiftr_div_pow2 by lia. change 65535 with (Z.ones 16). by rewrite Z.land_ones.
Qed.

Lemma segments_hextets v : 0 <= v -> Forall hextet (segments v).
Proof.
  intros Hv. unfold segments. apply Forall_fmap, Forall_forall. intros i Hi. unfold hextet, compose.
  assert (0 <= i) by (repeat apply elem_of_cons in Hi as [->|Hi]; try lia; by apply not_elem_of_nil in Hi).
  rewrite segment_value by lia. apply Z.mod_pos_bound. lia.
Qed.

(** Dividing on and on by 2^16. *)
Lemma of_groups_segments v : 0 <= v < 2 ^ 128 -> of_groups (segments v) = v.
Proof.
  intros Hv. assert (H : forall i j, 0 <= i -> j = i + 1 -> v / 2 ^ (16 * j) * 65536 + (v / 2 ^ (16 * i)) mod 65536 = v / 2 ^ (16 * i)).
  { intros i j Hi ->. replace (16 * (i + 1)) with (16 * i + 16) by lia. rewrite Z.pow_add_r, <- Z.div_div by lia.
    change (2 ^ 16) with 65536. pose proof (Z.div_mod (v / 2 ^ (16 * i)) 65536). lia. }
  unfold of_groups, segments. cbn [fmap list_fmap fold_left]. rewrite !segment_value by lia.
  assert (H7 : (v / 2 ^ (16 * 7)) mod 65536 = v / 2 ^ (16 * 7)).
  { apply Z.mod_small. split; [apply Z.div_pos; lia|]. apply Z.div_lt_upper_bound; [lia|]. exact (proj2 Hv). }
  rewrite H7, Z.mul_0_l, Z.add_0_l.
  rewrite (H 6 7), (H 5 6), (H 4 5), (H 3 4), (H 2 3), (H 1 2), (H 0 1) by lia.
  change (2 ^ (16 * 0)) with 1. by rewrite Z.div_1_r.
Qed.

Lemma groups_text_join gs : groups_text 0 gs = fmt_groups gs.
Proof.
  assert (H : forall gs i, (1 <= i)%nat -> gs <> [] -> groups_text i gs = COLON :: fmt_groups gs).
  { clear gs. induction gs as [|g gs IH]; intros i Hi Hne; [done|]. cbn [groups_text].
    destruct (Nat.eqb_spec i 0); [lia|]. cbn [app]. f_equal. unfold fmt_groups. destruct gs as [|g' gs].
    - cbn. by rewrite app_nil_r.
    - rewrite IH by (done || lia). symmetry.
      unfold fmt_groups. rewrite (fmap_cons _ g). by apply (str_join_cons [COLON]). }
  destruct gs as [|g gs]; [done|]. cbn [groups_text Nat.eqb app]. destruct gs as [|g' gs].
  - cbn. by rewrite app_nil_r.
  - rewrite H by (done || lia). symmetry.
    unfold fmt_groups. rewrite (fmap_cons _ g). by apply (str_join_cons [COLON]).
Qed.

Lemma fmt_hex_no_char c n : (c < 48)%N -> contains_char (is_char c) (fmt_hex n) = false.
Proof.
  intros Hc. apply contains_char_false. intros d Hd. unfold fmt_hex in Hd.
  apply list_elem_of_fmap in Hd as (x & -> & _). apply N.eqb_neq. unfold digit_char. destruct (x <? 10)%N; lia.
Qed.

Lemma groups_text_no_dot index gs : contains_char (is_char DOT) (groups_text index gs) = false.
Proof.
  revert index. induction gs as [|g gs IH]; intros index; [done|]. cbn [groups_text].
  rewrite !contains_char_app, fmt_hex_no_char, IH by done. by destruct (index =? 0)%nat.
Qed.

Definition group_stop (index : nat) (rest : str) : Prop :=
  read_separator COLON index (read_number 16 65535 4 true) rest = None.

(** A run of zeros written as two colons. *)
Lemma read_compressed head tail len :
  Forall hextet head -> Forall hextet tail -> (length head + len + length tail = 8)%nat -> (2 <= len)%nat ->
  read_ipv6_addr (fmt_groups head ++ u "::" ++ fmt_groups tail) = Some (of_groups (head ++ replicate len 0 ++ tail), []).
Proof.
  intros Hh Ht Hl Hlen. unfold read_ipv6_addr. rewrite <- !groups_text_join.
  assert (Hd : contains_char (is_char DOT) (u "::" ++ groups_text 0 tail) = false)
    by (rewrite contains_char_app, groups_text_no_dot; done).
  rewrite (read_groups_written 8 head 8 0); [|done|lia| |done|].
  2:{ rewrite contains_char_app. by rewrite groups_text_no_dot. }
  2:{ intros _. cbn [Nat.add]. unfold read_separator. by destruct (length head). }
  destruct (Nat.eqb_spec (length head) 8); [lia|]. cbn [app read_given_char].
  change (u "::" ++ groups_text 0 tail) with (COLON :: COLON :: groups_text 0 tail). cbn [read_given_char].
  change (COLON =? COLON)%N with true. cbn iota zeta. cbn [read_given_char].
  change (COLON =? COLON)%N with true. cbn iota.
  pose proof (read_groups_written (8 - (length head + 1)) tail (8 - (length head + 1)) 0 []) as E.
  rewrite app_nil_r in E. rewrite E; [|done|lia|apply groups_text_no_dot|done|].
  2:{ intros _. unfold read_separator. by destruct (0 + length tail)%nat. }
  by replace (8 - length head - length tail)%nat with len by lia.
Qed.

Lemma read_full gs :
  Forall hextet gs -> length gs = 8%nat -> read_ipv6_addr (fmt_groups gs) = Some (of_groups gs, []).
Proof.
  intros Hg Hl. unfold read_ipv6_addr. rewrite <- groups_text_join.
  pose proof (read_groups_written 8 gs 8 0 []) as E. rewrite app_nil_r in E.
  rewrite E; [|done|lia|apply groups_text_no_dot|done|lia]. by rewrite Hl.
Qed.

Lemma of_groups_app a b : of_groups (a ++ b) = fold_left (fun a g => a * 65536 + g) b (of_groups a).
Proof. unfold of_groups. by rewrite fold_left_app. Qed.

Lemma read_mapped v4 :
  0 <= v4 < 2 ^ 32 -> read_ipv6_addr (u "::ffff:" ++ fmt_ipv4 v4) = Some (65535 * 2 ^ 32 + v4, []).
Proof.
  intros Hv. unfold read_ipv6_addr.
  assert (E : read_groups 7 7 0 (u "ffff:" ++ fmt_ipv4 v4) = ([65535; Z.shiftr v4 16; Z.land v4 65535], true, [])).
  { change (u "ffff:" ++ fmt_ipv4 v4) with (fmt_hex 65535 ++ COLON :: fmt_ipv4 v4).
    cbn [read_groups Nat.ltb Nat.leb Nat.sub read_separator].
    assert (read_ipv4_addr (fmt_hex 65535 ++ COLON :: fmt_ipv4 v4) = None) as -> by reflexivity.
    rewrite read_hextet by done. cbn [read_given_char]. change (COLON =? COLON)%N with true. cbn iota.
    pose proof (read_ipv4_written v4 [] Hv I) as Ev. rewrite app_nil_r in Ev. by rewrite Ev. }
  change (read_groups 8 8 0 (u "::ffff:" ++ fmt_ipv4 v4)) with (@nil Z, false, u "::ffff:" ++ fmt_ipv4 v4).
  cbn [length Nat.eqb]. change (u "::ffff:" ++ fmt_ipv4 v4) with (COLON :: COLON :: u "ffff:" ++ fmt_ipv4 v4).
  do 2 (cbn [read_given_char]; change (COLON =? COLON)%N with true; cbn iota). cbn [length Nat.add Nat.sub].
  rewrite E. cbn [length Nat.sub replicate app]. do 2 f_equal. unfold of_groups. cbn [fold_left].
  rewrite Z.shiftr_div_pow2 by lia. change 65535 with (Z.ones 16) at 2. rewrite Z.land_ones by lia.
  change (2 ^ 16) with 65536. pose proof (Z.div_mod v4 65536). lia.
Qed.

(** ** The text of an address *)

Definition ip_char (c : char) : bool :=
  is_ascii_digit c || ((97 <=? c) && (c <=? 102))%N || (c =? DOT)%N || (c =? COLON)%N.

Lemma digit_char_ip d : (d < 16)%N -> ip_char (digit_char d) = true.
Proof.
  intros Hd. unfold ip_char, digit_char, is_ascii_digit. destruct (N.ltb_spec d 10).
  - rewrite (proj2 (N.leb_le 48 (48 + d))), (proj2 (N.leb_le (48 + d) 57)) by lia. done.
  - rewrite (proj2 (N.leb_le 97 (87 + d))), (proj2 (N.leb_le (87 + d) 102)) by lia. by rewrite orb_true_r.
Qed.

Lemma digits_ip b n : (2 <= b <= 16)%N -> forallb ip_char (digit_char <$> digits b n) = true.
Proof.
  intros Hb. apply forallb_forall. intros c Hc%list_elem_of_In. apply list_elem_of_fmap in Hc as (d & -> & Hd).
  pose proof (digits_bound b ltac:(lia) n) as H. rewrite Forall_forall in H. apply digit_char_ip. apply H in Hd. lia.
Qed.

Lemma fmt_ipv4_chars v : forallb ip_char (fmt_ipv4 v) = true.
Proof.
  unfold fmt_ipv4. assert (H : forall n s, forallb ip_char s = true -> forallb ip_char (fmt_dec n ++ DOT :: s) = true).
  { intros n s Hs. rewrite forallb_app. cbn [forallb]. rewrite Hs. unfold fmt_dec. by rewrite digits_ip. }
  repeat apply H. by apply digits_ip.
Qed.

Lemma groups_text_chars index gs : forallb ip_char (groups_text index gs) = true.
Proof.
  revert index. induction gs as [|g gs IH]; intros index; [done|]. cbn [groups_text].
  rewrite !forallb_app, IH. unfold fmt_hex. rewrite digits_ip by lia. by destruct (index =? 0)%nat.
Qed.

Lemma fmt_ip_chars a : forallb ip_char (fmt_ip a) = true.
Proof.
  destruct a as [v|v]; [apply fmt_ipv4_chars|]. cbn [fmt_ip]. unfold fmt_ipv6.
  destruct (to_ipv4_mapped v); [rewrite forallb_app, fmt_ipv4_chars; done|].
  destruct (longest_zeros _ _ _ _) as [s l]. rewrite <- !groups_text_join.
  destruct (1 <? l)%nat; rewrite ?forallb_app, !groups_text_chars; done.
Qed.

Lemma ip_char_not c d : ip_char c = true -> ip_char d = false -> (d =? c)%N = false.
Proof. intros Hc Hd. apply N.eqb_neq. congruence. Qed.

Lemma fmt_ip_no_char d a : ip_char d = false -> contains_char (is_char d) (fmt_ip a) = false.
Proof.
  intros Hd. apply contains_char_false. intros c Hc. pose proof (fmt_ip_chars a) as H. rewrite forallb_forall in H.
  apply (ip_char_not c d); [|done]. apply H. by apply list_elem_of_In.
Qed.

Lemma ip_char_no_whitespace c : ip_char c = true -> is_whitespace c = false.
Proof.
  unfold ip_char. rewrite !orb_true_iff, andb_true_iff, is_ascii_digit_range, !N.leb_le, !N.eqb_eq.
  intros H. unfold is_whitespace. apply not_true_iff_false. intros Hw.
  repeat first [apply orb_true_iff in Hw as [Hw|Hw] | apply andb_true_iff in Hw as [Hw ?]].
  all: rewrite ?N.leb_le, ?N.eqb_eq in *; unfold DOT, COLON in *; lia.
Qed.

Lemma fmt_ip_trim a : trim (fmt_ip a) = fmt_ip a.
Proof.
  apply trim_id, contains_char_false. intros c Hc. apply ip_char_no_whitespace.
  pose proof (fmt_ip_chars a) as H. rewrite forallb_forall in H. apply H. by apply list_elem_of_In.
Qed.

Lemma fmt_ipv6_no_ipv4 v : read_ipv4_addr (fmt_ipv6 v) = None.
Proof.
  unfold fmt_ipv6. destruct (to_ipv4_mapped v); [reflexivity|].
  destruct (longest_zeros _ _ _ _) as [s l]. apply read_ipv4_no_dot. rewrite <- !groups_text_join.
  destruct (1 <? l)%nat; rewrite ?contains_char_app, !groups_text_no_dot; done.
Qed.

Lemma read_ipv6_written v : 0 <= v < 2 ^ 128 -> read_ipv6_addr (fmt_ipv6 v) = Some (v, []).
Proof.
  intros Hv. unfold fmt_ipv6. destruct (to_ipv4_mapped v) as [v4|] eqn:Em.
  { apply to_ipv4_mapped_Some in Em as [H4 ->]; [|done]. by apply read_mapped. }
  pose proof (segments_hextets v ltac:(lia)) as Hs. pose proof (of_groups_segments v Hv) as Eg.
  assert (Hlen : length (segments v) = 8%nat) by done.
  pose proof (longest_zeros_at (segments v) (segments v) [] (O, O) (O, O) eq_refl (or_introl eq_refl)) as Hz.
  specialize (Hz ltac:(intros k Hk; cbn in Hk; lia)). cbn zeta in Hz. change (length []) with O in Hz.
  destruct (longest_zeros 0 (O, O) (O, O) (segments v)) as [s l]. cbn [fst snd] in Hz.
  destruct (Nat.ltb_spec 1 l) as [Hl|Hl].
  - pose proof (zeros_at_length _ _ _ Hz ltac:(lia)) as Hb. rewrite (read_compressed _ _ l).
    + by rewrite zeros_at_split, Eg by (done || lia).
    + by apply Forall_take.
    + by apply Forall_drop.
    + rewrite length_take, length_drop. lia.
    + lia.
  - rewrite read_full by done. by rewrite Eg.
Qed.

(** Writing an address and reading it back. *)
Lemma parse_fmt_ip a : ip_wf a -> parse_ip_addr (fmt_ip a) = Some a.
Proof.
  destruct a as [v|v]; intros Hv; unfold parse_ip_addr; cbn [fmt_ip].
  - pose proof (read_ipv4_written v [] Hv I) as E. rewrite app_nil_r in E. by rewrite E.
  - rewrite fmt_ipv6_no_ipv4, read_ipv6_written by done. done.
Qed.

(** ** Networks and ranges *)

Lemma fmt_dec_trim n : trim (fmt_dec n) = fmt_dec n.
Proof.
  apply trim_id, contains_char_false. intros c Hc. apply ip_char_no_whitespace.
  pose proof (fmt_dec_digits n) as H. rewrite Forall_forall in H. unfold ip_char. by rewrite (H c Hc).
Qed.

Lemma fmt_dec_all_digits n : forallb is_ascii_digit (fmt_dec n) = true.
Proof.
  apply forallb_forall. intros c Hc%list_elem_of_In. pose proof (fmt_dec_digits n) as H.
  rewrite Forall_forall in H. by apply H.
Qed.

Lemma trim_joined a c b : is_whitespace c = false -> trim (fmt_ip a ++ c :: fmt_ip b) = fmt_ip a ++ c :: fmt_ip b.
Proof.
  intros Hc. apply trim_id, contains_char_false. intros d. rewrite elem_of_app, elem_of_cons.
  assert (Hip : forall a, d ∈ fmt_ip a -> is_whitespace d = false).
  { intros x Hx. apply ip_char_no_whitespace. pose proof (fmt_ip_chars x) as H. rewrite forallb_forall in H.
    apply H. by apply list_elem_of_In. }
  intros [H|[->|H]]; [by eapply Hip|done|by eapply Hip].
Qed.

Lemma IpBlock_new_self b : block_wf b -> IpBlock_new (network b) (prefix_len b) = Some b.
Proof.
  intros (Hw & Hp & Hm). destruct (IpBlock_new (network b) (prefix_len b)) as [b'|] eqn:E.
  - apply IpBlock_new_Some in E as (_ & E2 & E3 & E4 & _); [|done|lia]. f_equal.
    destruct b as [n p], b' as [n' p']. cbn [network prefix_len] in *. subst p'. f_equal.
    apply ip_ext; [done|]. rewrite E4, Hm. lia.
  - unfold IpBlock_new in E. destruct (Z.ltb_spec (family_bits (network b)) (prefix_len b)); [lia|done].
Qed.

Lemma family_bits_le a : 32 <= family_bits a <= 128.
Proof. unfold family_bits. destruct (is_ipv4 a); lia. Qed.

Lemma trim_block_text a n : trim (fmt_ip a ++ SLASH :: fmt_dec n) = fmt_ip a ++ SLASH :: fmt_dec n.
Proof.
  apply trim_id, contains_char_false. intros d. rewrite elem_of_app, elem_of_cons. intros H.
  destruct H as [H|[->|H]]; [|done|]; apply ip_char_no_whitespace.
  - pose proof (fmt_ip_chars a) as Hc. rewrite forallb_forall in Hc. apply Hc. by apply list_elem_of_In.
  - unfold ip_char. pose proof (fmt_dec_digits n) as Hc. rewrite Forall_forall in Hc. by rewrite (Hc d H).
Qed.

Lemma parse_fmt_block b : block_wf b -> IpBlock_parse (IpBlock_fmt b) = Some b.
Proof.
  intros Hb. pose proof Hb as (Hw & Hp & _). pose proof (family_bits_le (network b)) as Hf.
  unfold IpBlock_parse, IpBlock_fmt.
  rewrite trim_block_text, (proj2 (split_once_Some SLASH _ (fmt_ip (network b)) (fmt_dec (Z.to_N (prefix_len b))))).
  2:{ split; [done|]. by apply fmt_ip_no_char. }
  rewrite fmt_dec_trim, fmt_dec_all_digits, fmt_ip_trim, parse_fmt_ip, parse_uint_fmt by (done || lia).
  destruct (fmt_dec_cons (Z.to_N (prefix_len b))) as (c & s & -> & _). cbn [is_empty negb orb].
  rewrite Z2N.id by lia. by apply IpBlock_new_self.
Qed.

(** A range the constructor made. *)
Definition range_wf (r : IpRange) : Prop :=
  ip_wf (range_first r) /\ ip_wf (range_last r) /\ IpRange_new (range_first r) (range_last r) = Some r.

Lemma parse_fmt_range r : range_wf r -> IpRange_parse (IpRange_fmt r) = Some r.
Proof.
  intros (Hf & Hl & Hn). unfold IpRange_parse, IpRange_fmt. rewrite trim_joined by done.
  rewrite (proj2 (split_once_Some DASH _ (fmt_ip (range_first r)) (fmt_ip (range_last r)))).
  2:{ split; [done|]. by apply fmt_ip_no_char. }
  by rewrite !fmt_ip_trim, !parse_fmt_ip.
Qed.

(** ** What the parser returns *)

Lemma read_digits_max radix max room acc s v n r :
  read_digits radix max room acc s = Some (v, n, r) -> (acc <= max)%N -> (v <= max)%N.
Proof.
  revert room acc v n. induction s as [|c s IH]; intros room acc v n.
  - destruct room; cbn; intros E; by simplify_eq.
  - destruct room as [|room]; cbn; destruct (to_digit radix c); try done; cbn.
    1,3: by intros E; simplify_eq.
    destruct (N.leb_spec (acc * radix + n0) max); [|done].
    destruct (read_digits radix max room _ s) as [[[v' n'] r']|] eqn:E; [|done].
    intros ? _. simplify_eq. by eapply IH.
Qed.

Lemma read_number_max radix max room zp s v r : read_number radix max room zp s = Some (v, r) -> (v <= max)%N.
Proof.
  unfold read_number. destruct (read_digits radix max room 0 s) as [[[v' n] r']|] eqn:E; [|done].
  destruct (n =? 0)%nat; [done|]. destruct (_ && _ && _); [done|]. intros ?. simplify_eq.
  eapply read_digits_max; [exact E|lia].
Qed.

Lemma read_separator_max radix max room zp index s v r :
  read_separator COLON index (read_number radix max room zp) s = Some (v, r) -> (v <= max)%N.
Proof.
  unfold read_separator. destruct index; [apply read_number_max|].
  destruct (read_given_char COLON s) as [[? s']|]; [apply read_number_max|done].
Qed.

Lemma read_ipv4_bound s v r : read_ipv4_addr s = Some (v, r) -> 0 <= v < 2 ^ 32.
Proof.
  unfold read_ipv4_addr. assert (H : forall todo index acc s v r,
    read_ipv4_octets todo index acc s = Some (v, r) -> 0 <= acc ->
    acc * 256 ^ Z.of_nat todo <= v < (acc + 1) * 256 ^ Z.of_nat todo).
  { clear. induction todo as [|todo IH]; intros index acc s v r; cbn [read_ipv4_octets].
    - intros E Ha. simplify_eq. change (256 ^ Z.of_nat 0) with 1. lia.
    - destruct (read_separator DOT index (read_number 10 255 3 false) s) as [[o s']|] eqn:Eo; [|done].
      assert (Ho : (o <= 255)%N).
      { unfold read_separator in Eo. destruct index; [by eapply read_number_max|].
        destruct (read_given_char DOT s) as [[? ?]|]; [by eapply read_number_max|done]. }
      intros E Ha. apply IH in E; [|lia]. rewrite Nat2Z.inj_succ, Z.pow_succ_r by lia.
      set (p := 256 ^ Z.of_nat todo) in *. assert (0 < p) by (unfold p; lia). nia. }
  intros E. apply H in E; [|lia]. change (256 ^ Z.of_nat 4) with (2 ^ 32) in E. lia.
Qed.

Lemma read_groups_hextets limit todo index s gs b r :
  read_groups limit todo index s = (gs, b, r) -> (limit = index + todo)%nat ->
  Forall hextet gs /\ (length gs <= todo)%nat.
Proof.
  revert index s gs b r. induction todo as [|todo IH]; intros index s gs b r; cbn [read_groups].
  { intros E _. simplify_eq. by split. }
  intros E Hl.
  destruct (if (index <? limit - 1)%nat then read_separator COLON index read_ipv4_addr s else None) as [[v s']|] eqn:Ev.
  - simplify_eq. destruct (Nat.ltb_spec index (index + S todo - 1)); [|done].
    assert (Hv : 0 <= v < 2 ^ 32).
    { unfold read_separator in Ev. destruct index; [by eapply read_ipv4_bound|].
      destruct (read_given_char COLON s) as [[? ?]|]; [by eapply read_ipv4_bound|done]. }
    assert (hextet (Z.shiftr v 16) /\ hextet (Z.land v 65535)) as [H1 H2].
    { unfold hextet. rewrite Z.shiftr_div_pow2 by lia. change 65535 with (Z.ones 16). rewrite Z.land_ones by lia.
      split; [|apply Z.mod_pos_bound; lia]. split; [apply Z.div_pos; lia|]. apply Z.div_lt_upper_bound; [lia|exact (proj2 Hv)]. }
    split; [constructor; [done|by apply Forall_singleton]|]. cbn [length]. lia.
  - destruct (read_separator COLON index (read_number 16 65535 4 true) s) as [[g s']|] eqn:Eg.
    + destruct (read_groups limit todo (S index) s') as [[gs' b'] r'] eqn:Er. simplify_eq.
      destruct (IH _ _ _ _ _ Er ltac:(lia)) as [H1 H2]. apply read_separator_max in Eg.
      split; [constructor; [unfold hextet; lia|done]|]. cbn [length]. lia.
    + simplify_eq. split; [constructor|cbn; lia].
Qed.

Lemma of_groups_bound gs : Forall hextet gs -> 0 <= of_groups gs < 65536 ^ Z.of_nat (length gs).
Proof.
  intros H. induction gs as [|g gs IH] using rev_ind; [cbn; lia|]. apply Forall_app in H as [Hgs Hg].
  rewrite Forall_singleton in Hg. rewrite of_groups_app, length_app. cbn [fold_left length].
  specialize (IH Hgs). rewrite Nat2Z.inj_add, Z.pow_add_r by lia. change (65536 ^ Z.of_nat 1) with 65536.
  unfold hextet in Hg. lia.
Qed.

Lemma read_ipv6_bound s v r : read_ipv6_addr s = Some (v, r) -> 0 <= v < 2 ^ 128.
Proof.
  unfold read_ipv6_addr. destruct (read_groups 8 8 0 s) as [[head hv4] s1] eqn:Eh.
  destruct (read_groups_hextets _ _ _ _ _ _ _ Eh eq_refl) as [H1 H2].
  assert (H8 : forall gs, Forall hextet gs -> length gs = 8%nat -> 0 <= of_groups gs < 2 ^ 128).
  { intros gs Hg Hl. pose proof (of_groups_bound gs Hg) as Hb. rewrite Hl in Hb. exact Hb. }
  destruct (Nat.eqb_spec (length head) 8); [intros E; simplify_eq; by apply H8|].
  destruct hv4; [done|]. destruct (read_given_char COLON s1) as [[? s2]|]; [|done].
  destruct (read_given_char COLON s2) as [[? s3]|]; [|done].
  destruct (read_groups (8 - (length head + 1)) (8 - (length head + 1)) 0 s3) as [[tail tv4] s4] eqn:Et.
  destruct (read_groups_hextets _ _ _ _ _ _ _ Et ltac:(lia)) as [H3 H4]. intros E. simplify_eq.
  apply H8.
  - apply Forall_app. split; [done|]. apply Forall_app. split; [|done]. apply Forall_replicate. unfold hextet. lia.
  - rewrite !length_app, length_replicate. lia.
Qed.

(** A parsed address fits its family. *)
Lemma parse_ip_wf s a : parse_ip_addr s = Some a -> ip_wf a.
Proof.
  unfold parse_ip_addr. destruct (read_ipv4_addr s) as [[v [|]]|] eqn:E4.
  - intros [= <-]. by eapply read_ipv4_bound.
  - done.
  - destruct (read_ipv6_addr s) as [[v [|]]|] eqn:E6; [|done..]. intros [= <-]. by eapply read_ipv6_bound.
Qed.

Lemma IpBlock_parse_wf s b : IpBlock_parse s = Some b -> block_wf b.
Proof.
  unfold IpBlock_parse. destruct (split_once SLASH (trim s)) as [[x y]|]; [|done].
  destruct (is_empty (trim y) || _); [done|]. destruct (parse_ip_addr (trim x)) as [a|] eqn:Ea; [|done].
  destruct (parse_uint 255 (trim y)) as [p|]; [|done]. intros E.
  apply IpBlock_new_Some in E as (_ & _ & _ & _ & H); [done|by eapply parse_ip_wf|lia].
Qed.

Lemma IpRange_new_wf f l r : ip_wf f -> ip_wf l -> IpRange_new f l = Some r -> range_wf r.
Proof.
  intros Hf Hl E. pose proof E as E'. unfold IpRange_new in E'. destruct (_ || _); [done|].
  injection E' as <-. by split_and!.
Qed.

(** An address, a network and a range survive being written as text: what
    [Display] spells, the parser of its kind reads back as the same value, IPv6
    compression and IPv4-mapped spelling included, and whatever text a parser
    accepts is a well-formed value. *)
Theorem ip_text_roundtrip :
  (forall a, ip_wf a -> parse_ip_addr (fmt_ip a) = Some a)
  /\ (forall b, block_wf b -> IpBlock_parse (IpBlock_fmt b) = Some b)
  /\ (forall r, range_wf r -> IpRange_parse (IpRange_fmt r) = Some r)
  /\ (forall s a, parse_ip_addr s = Some a -> ip_wf a)
  /\ (forall s b, IpBlock_parse s = Some b -> block_wf b).
Proof.
  split_and!; [apply parse_fmt_ip|apply parse_fmt_block|apply parse_fmt_range|apply parse_ip_wf|apply IpBlock_parse_wf].
Qed.

Lemma ip_text_roundtrip_witness :
  parse_ip_addr (u "2001:db8::7") = Some (V6 42540766411282592856903984951653826567)
  /\ parse_ip_addr (fmt_ip (V6 42540766411282592856903984951653826567)) = Some (V6 42540766411282592856903984951653826567)
  /\ IpBlock_parse (IpBlock_fmt (mkIpBlock (V4 167772160) 8)) = Some (mkIpBlock (V4 167772160) 8).
Proof.
  split; [reflexivity|]. destruct ip_text_roundtrip as (H1 & H2 & _). split.
  - apply H1. split; vm_compute; congruence.
  - apply H2. split; [split; vm_compute; congruence|]. split; [split; vm_compute; congruence|reflexivity].
Defined.
