(* ===== verification/NetPolicy.v ===== *)
(** * Which networks a rule may name

    core/domain/src/address_class.rs classifies one address;
    core/domain/src/ip_network_policy.rs holds the tables of networks and the
    widths that validation, Fail-Closed and the exemption of local segments
    read. The two are written apart, one as octet tests and one as a table of
    networks; the lemmas below tie them together. *)

From stdpp Require Import base numbers list.
From S2P Require Import Prelude Str Digits IpAddr IpBlock IpText.

Open Scope Z_scope.

(** ** Classes of addresses *)

Inductive AddressFamily : Set := Ipv4 | Ipv6.

#[export] Instance AddressFamily_eq_dec : EqDecision AddressFamily.
Proof. solve_decision. Defined.

Definition family_of (ip : IpAddr) : AddressFamily := match ip with V4 _ => Ipv4 | V6 _ => Ipv6 end.

Definition family_as_str (f : AddressFamily) : str := match f with Ipv4 => u "ipv4" | Ipv6 => u "ipv6" end.

Definition family_holds (f : AddressFamily) (ip : IpAddr) : bool := bool_decide (family_of ip = f).

Definition family_from_str (s : str) : option AddressFamily :=
  if str_eqb s (u "ipv4") then Some Ipv4 else if str_eqb s (u "ipv6") then Some Ipv6 else None.

Inductive AddressClass : Set :=
| Routable | Loopback | LinkLocal | Multicast | Broadcast | Unspecified | ThisNetwork.

#[export] Instance AddressClass_eq_dec : EqDecision AddressClass.
Proof. solve_decision. Defined.

Definition is_local_housekeeping (c : AddressClass) : bool :=
  match c with Routable => false | _ => true end.

(** [Ipv4Addr]'s tests, on the octets. *)
Definition v4_octets (v : Z) : N * N * N * N := (octet v 3, octet v 2, octet v 1, octet v 0).
Definition v4_is_loopback (v : Z) : bool := (octet v 3 =? 127)%N.
Definition v4_is_multicast (v : Z) : bool := (224 <=? octet v 3)%N && (octet v 3 <=? 239)%N.
Definition v4_is_link_local (v : Z) : bool := (octet v 3 =? 169)%N && (octet v 2 =? 254)%N.
Definition v4_is_private (v : Z) : bool :=
  (octet v 3 =? 10)%N
  || (octet v 3 =? 172)%N && (16 <=? octet v 2)%N && (octet v 2 <=? 31)%N
  || (octet v 3 =? 192)%N && (octet v 2 =? 168)%N.

(** [Ipv6Addr::segments()[i]], and its tests. *)
Definition v6_segment (v i : Z) : Z := Z.land (Z.shiftr v (16 * (7 - i))) 65535.
Definition v6_is_multicast (v : Z) : bool := Z.land (v6_segment v 0) 65280 =? 65280.

Definition is_v6_link_local (v : Z) : bool := Z.land (v6_segment v 0) 65472 =? 65152.

Definition is_v6_link_local_multicast (v : Z) : bool := v6_segment v 0 =? 65282.

Definition classify_v4 (v : Z) : AddressClass :=
  if v =? 0 then Unspecified
  else if (octet v 3 =? 0)%N then ThisNetwork
  else if v4_is_loopback v then Loopback
  else if v =? u32_max then Broadcast
  else if v4_is_multicast v then Multicast
  else if v4_is_link_local v then LinkLocal
  else Routable.

Definition classify_v6 (v : Z) : AddressClass :=
  if v =? 0 then Unspecified
  else if v =? 1 then Loopback
  else if v6_is_multicast v then Multicast
  else if is_v6_link_local v then LinkLocal
  else Routable.

Definition classify (ip : IpAddr) : AddressClass :=
  match ip with V4 v => classify_v4 v | V6 v => classify_v6 v end.

(** [address_class::is_private]: RFC 1918 and [fc00::/7], without the shared
    address space the policy table has. *)
Definition class_is_private (ip : IpAddr) : bool :=
  match ip with
  | V4 v => v4_is_private v
  | V6 v => Z.land (v6_segment v 0) 65024 =? 64512
  end.

Definition is_housekeeping_port (port : Z) : bool :=
  existsb (Z.eqb port) [137; 138; 546; 547; 1900; 3702; 5353; 5355].

Definition is_local_housekeeping_endpoint (ip : IpAddr) (port : Z) : bool :=
  is_local_housekeeping (classify ip) || (class_is_private ip && is_housekeeping_port port).

Definition fixed_group_v4 (v : Z) : option str :=
  match v4_octets v with
  | (224, 0, 0, 1) => Some (u "all-nodes")
  | (224, 0, 0, 2) => Some (u "all-routers")
  | (224, 0, 0, 22) => Some (u "igmp")
  | (224, 0, 0, 251) => Some (u "mdns")
  | (224, 0, 0, 252) => Some (u "llmnr")
  | (239, 255, 255, 250) => Some (u "ssdp")
  | _ => None
  end%N.

(** A table of groups in place of the slice patterns of the source. *)
Definition V6_GROUPS : list (list Z * str) :=
  [([65282; 0; 0; 0; 0; 0; 0; 1], u "all-nodes");
   ([65282; 0; 0; 0; 0; 0; 0; 2], u "all-routers");
   ([65282; 0; 0; 0; 0; 0; 0; 12], u "ssdp");
   ([65282; 0; 0; 0; 0; 0; 0; 22], u "mld");
   ([65282; 0; 0; 0; 0; 0; 0; 251], u "mdns");
   ([65285; 0; 0; 0; 0; 0; 0; 251], u "mdns");
   ([65282; 0; 0; 0; 0; 0; 1; 2], u "dhcpv6");
   ([65285; 0; 0; 0; 0; 0; 1; 3], u "dhcpv6");
   ([65282; 0; 0; 0; 0; 0; 1; 3], u "llmnr")].

Definition fixed_group_v6 (v : Z) : option str :=
  let seg := segments v in
  if bool_decide (take 6 seg = [65282; 0; 0; 0; 0; 1]) && (Z.land (v6_segment v 6) 65280 =? 65280)
  then Some (u "ndp")
  else snd <$> find_first (fun g => bool_decide (g.1 = seg)) V6_GROUPS.

Definition port_purpose (port : Z) : option str :=
  if existsb (Z.eqb port) [137; 138] then Some (u "netbios")
  else if existsb (Z.eqb port) [546; 547] then Some (u "dhcpv6")
  else if port =? 1900 then Some (u "ssdp")
  else if port =? 3702 then Some (u "ws-discovery")
  else if port =? 5353 then Some (u "mdns")
  else if port =? 5355 then Some (u "llmnr")
  else if port =? 6771 then Some (u "bittorrent-lpd")
  else None.

Definition well_known_purpose (ip : IpAddr) (port : Z) : option str :=
  let class := classify ip in
  let fixed := match ip with V4 v => fixed_group_v4 v | V6 v => fixed_group_v6 v end in
  let named_by_port :=
    match class with Multicast | Broadcast => true | _ => false end || class_is_private ip in
  match fixed with
  | Some slug => Some slug
  | None =>
      match (if named_by_port then port_purpose port else None) with
      | Some slug => Some slug
      | None =>
          match class with
          | Multicast => Some (u "multicast")
          | Broadcast => Some (u "broadcast")
          | LinkLocal => Some (u "link-local")
          | _ => None
          end
      end
  end.

(** ** The policy *)

Definition widest_rule_prefix (v4 : bool) : Z := if v4 then 8 else 16.
Definition fail_closed_widest_prefix (v4 : bool) : Z := if v4 then 16 else 48.

Definition wider_than_rule_allows (b : IpBlock) : bool :=
  prefix_len b <? widest_rule_prefix (is_ipv4 (network b)).

Definition wider_than_fail_closed (b : IpBlock) : bool :=
  prefix_len b <? fail_closed_widest_prefix (is_ipv4 (network b)).

Inductive IpValueKind : Set := KAddress | KSubnet | KRange.

Definition IpValueKind_of (text : str) : option IpValueKind :=
  let text := trim text in
  match parse_ip_addr text, IpBlock_parse text, IpRange_parse text with
  | Some _, _, _ => Some KAddress
  | None, Some _, _ => Some KSubnet
  | None, None, Some _ => Some KRange
  | None, None, None => None
  end.

Definition rule_type_slug (k : IpValueKind) : str :=
  match k with KAddress => u "exact-ip" | KSubnet => u "subnet" | KRange => u "ip-range" end.

Definition prefix_of_width (v4 : bool) (width_bits : Z) : Z :=
  let bits := if v4 then 32 else 128 in bits - Z.min width_bits bits.

Definition RESERVED : list (str * AddressClass) :=
  [(u "0.0.0.0/8", ThisNetwork); (u "127.0.0.0/8", Loopback); (u "224.0.0.0/4", Multicast);
   (u "255.255.255.255/32", Broadcast); (u "::/128", Unspecified); (u "::1/128", Loopback);
   (u "ff00::/8", Multicast)].

Definition LINK_LOCAL : list str := [u "169.254.0.0/16"; u "fe80::/10"].

Definition PRIVATE : list str :=
  [u "10.0.0.0/8"; u "172.16.0.0/12"; u "192.168.0.0/16"; u "100.64.0.0/10"; u "fc00::/7"].

Definition networks (texts : list str) : list IpBlock := omap IpBlock_parse texts.

Definition reserved_overlap (b : IpBlock) : option AddressClass :=
  snd <$> find_first (fun e => match IpBlock_parse e.1 with
                               | Some net => IpBlock_overlaps net b
                               | None => false
                               end) RESERVED.

Definition touches_link_local (b : IpBlock) : bool :=
  existsb (fun net => IpBlock_overlaps net b) (networks LINK_LOCAL).

Definition is_private (b : IpBlock) : bool := existsb (fun net => IpBlock_covers net b) (networks PRIVATE).

Definition is_private_address (ip : IpAddr) : bool :=
  existsb (fun net => IpBlock_contains net ip) (networks PRIVATE).

Inductive LocalSegmentExemption : Set :=
| Exempt (blocks : list IpBlock)
| TooWide
| NotPrivate.

Definition exempt_part (segment net : IpBlock) : option IpBlock :=
  if Bool.eqb (IpBlock_is_ipv4 net) (IpBlock_is_ipv4 segment) then
    if IpBlock_covers net segment then Some segment
    else if IpBlock_covers segment net then Some net
    else None
  else None.

Definition local_segment_exemption (segment : IpBlock) : LocalSegmentExemption :=
  if wider_than_rule_allows segment then TooWide
  else match omap (exempt_part segment) (networks PRIVATE ++ networks LINK_LOCAL) with
       | [] => NotPrivate
       | exempt => Exempt exempt
       end.

(** ** The tables as networks *)

Lemma private_networks_eq :
  networks PRIVATE =
    [mkIpBlock (ipv4 10 0 0 0) 8; mkIpBlock (ipv4 172 16 0 0) 12; mkIpBlock (ipv4 192 168 0 0) 16;
     mkIpBlock (ipv4 100 64 0 0) 10; mkIpBlock (V6 (Z.shiftl 64512 112)) 7].
Proof. vm_compute. reflexivity. Qed.

Lemma link_local_networks_eq :
  networks LINK_LOCAL = [mkIpBlock (ipv4 169 254 0 0) 16; mkIpBlock (V6 (Z.shiftl 65152 112)) 10].
Proof. vm_compute. reflexivity. Qed.

Lemma reserved_networks_eq :
  networks (fst <$> RESERVED) =
    [mkIpBlock (ipv4 0 0 0 0) 8; mkIpBlock (ipv4 127 0 0 0) 8; mkIpBlock (ipv4 224 0 0 0) 4;
     mkIpBlock (ipv4 255 255 255 255) 32; mkIpBlock (V6 0) 128; mkIpBlock (V6 1) 128;
     mkIpBlock (V6 (Z.shiftl 65280 112)) 8].
Proof. vm_compute. reflexivity. Qed.

Lemma networks_wf texts : Forall block_wf (networks texts).
Proof. apply Forall_forall. intros b (t & _ & Ht)%list_elem_of_omap. by eapply IpBlock_parse_wf. Qed.

Lemma network_wf texts b : b ∈ networks texts -> block_wf b.
Proof. apply Forall_forall, networks_wf. Qed.

(** ** Octets and segments as intervals *)

Lemma octet_is v i n : 0 <= v -> 0 <= i -> (octet v i =? n)%N = ((v / 2 ^ (8 * i)) mod 256 =? Z.of_N n).
Proof.
  intros Hv Hi. rewrite <- octet_value by lia. apply eq_true_iff_eq. rewrite N.eqb_eq, Z.eqb_eq. lia.
Qed.

Lemma octet3 v : 0 <= v < 2 ^ 32 -> Z.of_N (octet v 3) = v / 2 ^ 24.
Proof.
  intros Hv. rewrite octet_value by lia. change (2 ^ (8 * 3)) with 16777216. change (2 ^ 24) with 16777216.
  change (2 ^ 32) with 4294967296 in Hv. apply Z.mod_small. split; [apply Z.div_pos; lia|].
  apply Z.div_lt_upper_bound; lia.
Qed.

Lemma octet2 v : 0 <= v -> Z.of_N (octet v 2) = (v / 2 ^ 16) mod 256.
Proof. intros Hv. rewrite octet_value by lia. reflexivity. Qed.

(** The first segment of an IPv6 address, tested under a mask that keeps its
    top [16 - k] bits. *)
Lemma segment0 v : 0 <= v < 2 ^ 128 -> v6_segment v 0 = v / 2 ^ 112.
Proof.
  intros Hv. unfold v6_segment. rewrite segment_value by lia. apply Z.mod_small.
  split; [apply Z.div_pos; lia|]. apply Z.div_lt_upper_bound; [lia|]. exact (proj2 Hv).
Qed.

Lemma segment_mask v k n :
  0 <= v < 2 ^ 128 -> 0 <= k <= 16 ->
  (Z.land (v6_segment v 0) (65536 - 2 ^ k) =? n * 2 ^ k) = (v / 2 ^ (112 + k) =? n).
Proof.
  intros Hv Hk. rewrite segment0 by done.
  replace (65536 - 2 ^ k) with (Z.shiftl (Z.ones (16 - k)) k).
  2:{ rewrite Z.shiftl_mul_pow2, Z.ones_equiv by lia. replace 65536 with (2 ^ (16 - k) * 2 ^ k); [lia|].
      rewrite <- Z.pow_add_r by lia. by replace (16 - k + k) with 16 by lia. }
  set (s := v / 2 ^ 112).
  assert (Hs : 0 <= s < 2 ^ 16).
  { split; [apply Z.div_pos; lia|]. apply Z.div_lt_upper_bound; [lia|]. exact (proj2 Hv). }
  assert (E : Z.land s (Z.shiftl (Z.ones (16 - k)) k) = s / 2 ^ k * 2 ^ k).
  { rewrite <- Z.shiftl_mul_pow2, <- Z.shiftr_div_pow2 by lia. apply Z.bits_inj'. intros i Hi.
    rewrite Z.land_spec, !Z.shiftl_spec by lia. destruct (Z.ltb_spec i k).
    - rewrite !(Z.testbit_neg_r _ (i - k)) by lia. by rewrite andb_false_r.
    - rewrite Z.shiftr_spec by lia. replace (i - k + k) with i by lia.
      destruct (Z.ltb_spec i 16).
      + rewrite Z.ones_spec_low by lia. by rewrite andb_true_r.
      + rewrite (Z.bits_above_log2 s i); [done|lia|].
        destruct (Z.eq_dec s 0) as [->|]; [simpl; lia|]. apply Z.log2_lt_pow2; [lia|].
        apply Z.lt_le_trans with (2 ^ 16); [lia|]. apply Z.pow_le_mono_r; lia. }
  rewrite E. subst s. rewrite Z.div_div, <- Z.pow_add_r by lia.
  apply eq_true_iff_eq. rewrite !Z.eqb_eq. assert (0 < 2 ^ k) by lia. nia.
Qed.

Lemma in_block_div b a :
  block_wf b ->
  in_block b a <-> is_ipv4 a = is_ipv4 (network b)
                   /\ to_bits a / block_size b = to_bits (network b) / block_size b.
Proof.
  intros Hb. destruct (block_bounds b Hb) as (_ & _ & Hs). destruct Hb as (_ & _ & Hal).
  unfold in_block. fold (block_size b) in Hal. set (s := block_size b) in *. set (n := to_bits (network b)) in *.
  apply Z.mod_divide in Hal as [q Hq]; [|lia]. rewrite Hq, Z.div_mul by lia.
  apply and_iff_compat_l. split.
  - intros H. symmetry. apply (Z.div_unique _ _ _ (to_bits a - q * s)); lia.
  - intros <-. pose proof (Z.div_mod (to_bits a) s). pose proof (Z.mod_pos_bound (to_bits a) s). lia.
Qed.

(** ** The tables agree with the tests on octets *)

(** A class no rule network may touch. *)
Definition reserved_class (c : AddressClass) : bool :=
  match c with Routable | LinkLocal => false | _ => true end.

Definition in_networks (texts : list str) (a : IpAddr) : Prop :=
  exists net, net ∈ networks texts /\ in_block net a.

Lemma in_networks_cons texts bs a :
  networks texts = bs -> in_networks texts a <-> Exists (fun net => in_block net a) bs.
Proof. intros <-. rewrite Exists_exists. done. Qed.

(** Membership of a table entry, as a test of the address's top bits. *)
Lemma in_block_top b a k q :
  block_wf b -> block_size b = 2 ^ k -> to_bits (network b) = q * 2 ^ k -> 0 <= k ->
  in_block b a <-> is_ipv4 a = is_ipv4 (network b) /\ to_bits a / 2 ^ k = q.
Proof. intros Hb Hs Hq Hk. rewrite in_block_div, Hs, Hq, Z.div_mul by (done || lia). done. Qed.

Ltac block_wf_concrete :=
  split; [split; vm_compute; congruence|split; [split; vm_compute; congruence|reflexivity]].

Ltac top_bits k q :=
  rewrite (in_block_top _ _ k q); [|block_wf_concrete|vm_compute; reflexivity..|lia].

Lemma in_reserved a :
  in_networks (fst <$> RESERVED) a <->
  match a with
  | V4 v => v / 2 ^ 24 = 0 \/ v / 2 ^ 24 = 127 \/ v / 2 ^ 28 = 14 \/ v / 2 ^ 0 = 4294967295
  | V6 v => v / 2 ^ 0 = 0 \/ v / 2 ^ 0 = 1 \/ v / 2 ^ 120 = 255
  end.
Proof.
  rewrite (in_networks_cons _ _ _ reserved_networks_eq), !Exists_cons, Exists_nil.
  top_bits 24 0. top_bits 24 127. top_bits 28 14. top_bits 0 4294967295.
  top_bits 0 0. top_bits 0 1. top_bits 120 255. destruct a; cbn [network is_ipv4 to_bits ipv4]; naive_solver.
Qed.

Lemma in_link_local a :
  in_networks LINK_LOCAL a <-> match a with V4 v => v / 2 ^ 16 = 43518 | V6 v => v / 2 ^ 118 = 1018 end.
Proof.
  rewrite (in_networks_cons _ _ _ link_local_networks_eq), !Exists_cons, Exists_nil.
  top_bits 16 43518. top_bits 118 1018. destruct a; cbn [network is_ipv4 to_bits ipv4]; naive_solver.
Qed.

Lemma in_private a :
  in_networks PRIVATE a <->
  match a with
  | V4 v => v / 2 ^ 24 = 10 \/ v / 2 ^ 20 = 2753 \/ v / 2 ^ 16 = 49320 \/ v / 2 ^ 22 = 401
  | V6 v => v / 2 ^ 121 = 126
  end.
Proof.
  rewrite (in_networks_cons _ _ _ private_networks_eq), !Exists_cons, Exists_nil.
  top_bits 24 10. top_bits 20 2753. top_bits 16 49320. top_bits 22 401. top_bits 121 126.
  destruct a; cbn [network is_ipv4 to_bits ipv4]; naive_solver.
Qed.

(** The classes a test on octets tells, as the same quotients. *)
Lemma classify_v4_quot v :
  0 <= v < 2 ^ 32 ->
  classify_v4 v =
    if v =? 0 then Unspecified else if v / 2 ^ 24 =? 0 then ThisNetwork
    else if v / 2 ^ 24 =? 127 then Loopback else if v =? 4294967295 then Broadcast
    else if v / 2 ^ 28 =? 14 then Multicast else if v / 2 ^ 16 =? 43518 then LinkLocal else Routable.
Proof.
  intros Hv. unfold classify_v4, v4_is_loopback, v4_is_multicast, v4_is_link_local.
  assert (E3 : forall n, (octet v 3 =? n)%N = (v / 2 ^ 24 =? Z.of_N n)).
  { intros n. rewrite <- (octet3 v Hv). apply eq_true_iff_eq. rewrite N.eqb_eq, Z.eqb_eq. lia. }
  assert (E2 : forall n, (octet v 2 =? n)%N = ((v / 2 ^ 16) mod 256 =? Z.of_N n)).
  { intros n. rewrite <- octet2 by lia. apply eq_true_iff_eq. rewrite N.eqb_eq, Z.eqb_eq. lia. }
  assert (Em : (224 <=? octet v 3)%N && (octet v 3 <=? 239)%N = (v / 2 ^ 28 =? 14)).
  { pose proof (octet3 v Hv) as H3. apply eq_true_iff_eq. rewrite andb_true_iff, !N.leb_le, Z.eqb_eq.
    change (2 ^ 28) with 268435456. change (2 ^ 24) with 16777216 in H3.
    Z.to_euclidean_division_equations. lia. }
  assert (El : (v / 2 ^ 24 =? 169) && ((v / 2 ^ 16) mod 256 =? 254) = (v / 2 ^ 16 =? 43518)).
  { apply eq_true_iff_eq. rewrite andb_true_iff, !Z.eqb_eq. change (2 ^ 24) with 16777216. change (2 ^ 16) with 65536.
    Z.to_euclidean_division_equations. lia. }
  rewrite Em, !E3, E2. cbn [Z.of_N]. by rewrite El.
Qed.

Lemma classify_v6_quot v :
  0 <= v < 2 ^ 128 ->
  classify_v6 v =
    if v =? 0 then Unspecified else if v =? 1 then Loopback
    else if v / 2 ^ 120 =? 255 then Multicast else if v / 2 ^ 118 =? 1018 then LinkLocal else Routable.
Proof.
  intros Hv. unfold classify_v6, v6_is_multicast, is_v6_link_local.
  assert (E1 := segment_mask v 8 255 Hv ltac:(lia)). assert (E2 := segment_mask v 6 1018 Hv ltac:(lia)).
  change (65536 - 2 ^ 8) with 65280 in E1. change (255 * 2 ^ 8) with 65280 in E1. change (112 + 8) with 120 in E1.
  change (65536 - 2 ^ 6) with 65472 in E2. change (1018 * 2 ^ 6) with 65152 in E2. change (112 + 6) with 118 in E2.
  by rewrite E1, E2.
Qed.

(** The octet tests and the table name the same reserved addresses. *)
Lemma classify_reserved a :
  ip_wf a -> reserved_class (classify a) = true <-> in_networks (fst <$> RESERVED) a.
Proof.
  intros Ha. rewrite in_reserved. destruct a as [v|v]; cbn [classify].
  - rewrite classify_v4_quot, Z.div_1_r by exact Ha.
    assert (E0 : v = 0 -> v / 2 ^ 24 = 0) by (by intros ->). revert E0.
    generalize (v / 2 ^ 24) (v / 2 ^ 28) (v / 2 ^ 16). intros x y z E0. repeat case_match;
      cbn [reserved_class]; rewrite ?Z.eqb_eq, ?Z.eqb_neq in *; split; try tauto; try discriminate.
  - rewrite classify_v6_quot, Z.div_1_r by exact Ha. generalize (v / 2 ^ 120) (v / 2 ^ 118). intros x y.
    repeat case_match; cbn [reserved_class]; rewrite ?Z.eqb_eq, ?Z.eqb_neq in *; split; try tauto; try discriminate.
Qed.

Lemma classify_link_local a : ip_wf a -> classify a = LinkLocal <-> in_networks LINK_LOCAL a.
Proof.
  intros Ha. rewrite in_link_local. destruct a as [v|v]; cbn [classify].
  - rewrite classify_v4_quot by exact Ha. change (2 ^ 24) with 16777216. change (2 ^ 16) with 65536.
    change (2 ^ 28) with 268435456. repeat case_match; rewrite ?Z.eqb_eq, ?Z.eqb_neq in *; split; try done;
      Z.to_euclidean_division_equations; lia.
  - rewrite classify_v6_quot by exact Ha.
    assert (E : v / 2 ^ 120 = v / 2 ^ 118 / 4) by (rewrite (Z.div_div _ _ 4) by lia; reflexivity).
    assert (E0 : v <= 1 -> v / 2 ^ 118 = 0) by (intros ?; apply Z.div_small; split; [apply Ha|]; lia).
    rewrite E. revert E0. generalize (v / 2 ^ 118). intros x E0.
    repeat case_match; rewrite ?Z.eqb_eq, ?Z.eqb_neq in *; split; try done;
      Z.to_euclidean_division_equations; lia.
Qed.

Lemma overlaps_networks texts b :
  block_wf b ->
  existsb (fun net => IpBlock_overlaps net b) (networks texts) = true <->
  exists a, ip_wf a /\ in_block b a /\ in_networks texts a.
Proof.
  intros Hb. rewrite existsb_elem. split.
  - intros (net & Hn & (a & Ha & H1 & H2)%IpBlock_overlaps_spec); [|by eapply network_wf|done].
    exists a. split; [done|]. split; [done|]. by exists net.
  - intros (a & Ha & H2 & net & Hn & H1). exists net. split; [done|].
    apply IpBlock_overlaps_spec; [by eapply network_wf|done|eauto].
Qed.

Lemma reserved_overlap_tables b :
  is_Some (reserved_overlap b) <-> existsb (fun net => IpBlock_overlaps net b) (networks (fst <$> RESERVED)) = true.
Proof.
  unfold reserved_overlap, networks. generalize RESERVED. intros l. induction l as [|[t c] l IH]; csimpl.
  - split; [by intros []|done].
  - destruct (IpBlock_parse t) as [net|]; cbn [existsb]; [|done].
    destruct (IpBlock_overlaps net b); csimpl; [|done]. split; [done|by eexists].
Qed.

(** The table of networks no rule may name and the classification of
    addresses are the same policy: a network is refused as reserved exactly when
    one of its addresses is classified as "this host", loopback, multicast or
    broadcast, and it is warned about as link-local exactly when one of its
    addresses is classified so. *)
Theorem network_policy_classes b :
  block_wf b ->
  (is_Some (reserved_overlap b) <-> exists a, ip_wf a /\ in_block b a /\ reserved_class (classify a) = true)
  /\ (touches_link_local b = true <-> exists a, ip_wf a /\ in_block b a /\ classify a = LinkLocal).
Proof.
  intros Hb. rewrite reserved_overlap_tables. unfold touches_link_local. rewrite !overlaps_networks by done.
  split; (split; intros (a & Ha & Hin & H); exists a; (split; [done|split; [done|]])).
  1,2: by apply classify_reserved. 1,2: by apply classify_link_local.
Qed.

Lemma network_policy_classes_witness :
  let b := mkIpBlock (ipv4 126 0 0 0) 7 in
  is_Some (reserved_overlap b)
  /\ exists a, ip_wf a /\ in_block b a /\ reserved_class (classify a) = true.
Proof.
  intros b. assert (Hb : block_wf b) by block_wf_concrete.
  destruct (network_policy_classes b Hb) as [[H _] _].
  assert (Hs : is_Some (reserved_overlap b)) by (eexists; vm_compute; reflexivity).
  split; [exact Hs|exact (H Hs)].
Defined.

(** ** Local segments *)

Lemma exempt_part_in segment net x :
  block_wf segment -> block_wf net -> exempt_part segment net = Some x ->
  forall a, ip_wf a -> in_block x a <-> in_block segment a /\ in_block net a.
Proof.
  intros Hs Hn. unfold exempt_part. destruct (Bool.eqb _ _); [|done].
  destruct (IpBlock_covers net segment) eqn:E1; [|destruct (IpBlock_covers segment net) eqn:E2; [|done]];
    intros [= <-] a Ha.
  - assert (C := proj1 (IpBlock_covers_spec net segment Hn Hs) E1). split; [intros Hx; auto|tauto].
  - assert (C := proj1 (IpBlock_covers_spec segment net Hs Hn) E2). split; [intros Hx; auto|tauto].
Qed.

Lemma exempt_part_some segment net a :
  block_wf segment -> block_wf net -> ip_wf a -> in_block segment a -> in_block net a ->
  is_Some (exempt_part segment net).
Proof.
  intros Hs Hn Ha H1 H2. unfold exempt_part, IpBlock_is_ipv4.
  rewrite <- (proj1 H1), <- (proj1 H2), eqb_reflx.
  assert (O : IpBlock_overlaps net segment = true)
    by (apply IpBlock_overlaps_spec; [done..|]; exists a; done).
  unfold IpBlock_overlaps in O. destruct (IpBlock_covers net segment); [by eexists|].
  simpl in O. rewrite O. by eexists.
Qed.

(** No private address is of a reserved class. *)
Lemma private_not_reserved a : ip_wf a -> in_networks PRIVATE a -> reserved_class (classify a) = false.
Proof.
  intros Ha Hp. apply not_true_iff_false. rewrite classify_reserved by done. revert Hp.
  rewrite in_private, in_reserved. destruct a as [v|v]; rewrite Z.div_1_r.
  - assert (0 <= v < 4294967296) by exact Ha. change (2 ^ 24) with 16777216. change (2 ^ 20) with 1048576.
    change (2 ^ 16) with 65536. change (2 ^ 22) with 4194304. change (2 ^ 28) with 268435456.
    Z.to_euclidean_division_equations. lia.
  - assert (E : v / 2 ^ 121 = v / 2 ^ 120 / 2) by (rewrite (Z.div_div _ _ 2) by lia; reflexivity).
    assert (E0 : v <= 1 -> v / 2 ^ 120 = 0) by (intros ?; apply Z.div_small; split; [apply Ha|]; lia).
    rewrite E. revert E0. generalize (v / 2 ^ 120). intros x E0. Z.to_euclidean_division_equations. lia.
Qed.

Lemma is_private_address_in a : ip_wf a -> is_private_address a = true <-> in_networks PRIVATE a.
Proof.
  intros Ha. unfold is_private_address. rewrite existsb_elem. apply exist_proper. intros net.
  split; intros [Hn H]; (split; [done|]); eapply IpBlock_contains_spec; eauto using network_wf.
Qed.

Definition exempt_blocks (e : LocalSegmentExemption) : list IpBlock :=
  match e with Exempt blocks => blocks | _ => [] end.

Lemma exempt_blocks_omap segment :
  wider_than_rule_allows segment = false ->
  exempt_blocks (local_segment_exemption segment)
  = omap (exempt_part segment) (networks PRIVATE ++ networks LINK_LOCAL).
Proof. intros H. unfold local_segment_exemption. rewrite H. by destruct (omap _ _). Qed.

(** An address is exempt precisely when it is in the segment and in a private
    or link-local network. *)
Lemma exempt_spec segment a :
  block_wf segment -> ip_wf a -> wider_than_rule_allows segment = false ->
  Exists (fun x => in_block x a) (exempt_blocks (local_segment_exemption segment)) <->
  in_block segment a /\ (in_networks PRIVATE a \/ in_networks LINK_LOCAL a).
Proof.
  intros Hs Ha W. rewrite exempt_blocks_omap, Exists_exists by done. split.
  - intros (x & (net & Hn & Hx)%list_elem_of_omap & Hin).
    assert (Hw : block_wf net) by (apply elem_of_app in Hn as [?|?]; by eapply network_wf).
    apply (exempt_part_in segment net x Hs Hw Hx a Ha) in Hin as [H1 H2]. split; [done|].
    apply elem_of_app in Hn as [?|?]; [left|right]; by exists net.
  - intros (H1 & H2).
    assert (exists net, net ∈ networks PRIVATE ++ networks LINK_LOCAL /\ block_wf net /\ in_block net a)
      as (net & Hn & Hw & H).
    { destruct H2 as [(net & Hn & H)|(net & Hn & H)]; exists net; rewrite elem_of_app; eauto using network_wf. }
    destruct (exempt_part_some segment net a) as [x Hx]; [done..|]. exists x. split.
    + apply list_elem_of_omap. eauto.
    + by apply (exempt_part_in segment net x Hs Hw Hx a Ha).
Qed.

(** A blanket block lets exactly the private part of an attached segment
    through: for a segment no wider than a rule may be, an address is exempt
    precisely when it is in the segment and in private, shared or link-local
    space; of a wider segment (an access point that hands out a [/1]) nothing is
    exempt; and no exempt address is of a reserved class. *)
Theorem segment_exemption_exact segment a :
  block_wf segment -> ip_wf a ->
  let exempt := Exists (fun x => in_block x a) (exempt_blocks (local_segment_exemption segment)) in
  (exempt <-> wider_than_rule_allows segment = false /\ in_block segment a
              /\ (is_private_address a = true \/ classify a = LinkLocal))
  /\ (exempt -> reserved_class (classify a) = false).
Proof.
  intros Hs Ha exempt. subst exempt. rewrite is_private_address_in, classify_link_local by done.
  destruct (wider_than_rule_allows segment) eqn:W.
  { unfold local_segment_exemption. rewrite W. simpl. rewrite Exists_nil. naive_solver. }
  rewrite exempt_spec by done. split; [tauto|].
  intros [_ [?|Hl]]; [by apply private_not_reserved|]. apply classify_link_local in Hl as ->; done.
Qed.

Lemma segment_exemption_exact_witness :
  let segment := mkIpBlock (ipv4 192 0 0 0) 8 in
  local_segment_exemption segment = Exempt [mkIpBlock (ipv4 192 168 0 0) 16]
  /\ local_segment_exemption (mkIpBlock (ipv4 128 0 0 0) 1) = TooWide
  /\ (Exists (fun x => in_block x (ipv4 192 168 1 7)) (exempt_blocks (local_segment_exemption segment))
      <-> wider_than_rule_allows segment = false /\ in_block segment (ipv4 192 168 1 7)
          /\ (is_private_address (ipv4 192 168 1 7) = true \/ classify (ipv4 192 168 1 7) = LinkLocal)).
Proof.
  intros segment. split; [reflexivity|]. split; [reflexivity|].
  apply (segment_exemption_exact segment (ipv4 192 168 1 7)); [block_wf_concrete|split; vm_compute; congruence].
Defined.
