(* ===== verification/AppPath.v ===== *)
(** * Paths of application rules

    shared/contracts/src/app_path.rs: the one reading of a path an application
    rule names, and of the image path the system reports. A path is read into
    the segments the platform compares; a rule and an image are compared
    segment by segment, so what a folder rule covers is decided here. *)

From stdpp Require Import base numbers list.
From S2P Require Import Prelude Str.

Open Scope nat_scope.

(** ** Spelling of the platforms *)

Inductive PathStyle : Set := Windows | Linux | MacOS.

#[export] Instance PathStyle_eq_dec : EqDecision PathStyle.
Proof. solve_decision. Defined.

Definition case_insensitive (style : PathStyle) : bool :=
  match style with Windows | MacOS => true | Linux => false end.

Definition separator (style : PathStyle) : char :=
  match style with Windows => BACKSLASH | Linux | MacOS => SLASH end.

Definition root_len (style : PathStyle) : nat :=
  match style with Windows => 1 | Linux | MacOS => 0 end.

Definition is_separator (style : PathStyle) (c : char) : bool :=
  match style with
  | Windows => (c =? BACKSLASH)%N || (c =? SLASH)%N
  | Linux | MacOS => (c =? SLASH)%N
  end.

Definition MAX_PATH_BYTES : nat := N.to_nat (32 * 1024).
Definition MAX_PATH_SEGMENTS : nat := 256.
Definition MAX_PATH_VALUE_BYTES : nat := 1024.
Arguments MAX_PATH_BYTES : simpl never.
Arguments MAX_PATH_SEGMENTS : simpl never.

(** rule_value_class.rs: the bound of a rule value that is not a path. *)
Definition MAX_RULE_VALUE_BYTES : nat := 260.

Definition is_path_value (raw : str) (style : PathStyle) : bool :=
  existsb (is_separator style) raw.

Definition app_value_byte_limit (value : str) (style : PathStyle) : nat :=
  if is_path_value value style then MAX_PATH_VALUE_BYTES else MAX_RULE_VALUE_BYTES.

(** ** [path_segments] *)

(** The root of a Windows path as its first segment, and what follows it: the
    verbatim prefixes are dropped, then a share or a drive is read. *)
Definition windows_root (path : str) : option (list str * str) :=
  let unified := replace_char SLASH BACKSLASH path in
  let unified :=
    match strip_prefix (u "\\?\unc\") unified with
    | Some unc => u "\\" ++ unc
    | None =>
        match strip_prefix (u "\\?\") unified with
        | Some local => local
        | None => match strip_prefix (u "\\.\") unified with
                  | Some local => local
                  | None => unified
                  end
        end
    end in
  match strip_prefix (u "\\") unified with
  | Some share =>
      match List.filter (fun p => negb (is_empty p)) (split (is_char BACKSLASH) share) with
      | server :: name :: parts =>
          if existsb (fun part => str_eqb part (u ".") || str_eqb part (u "..")) [server; name]
          then None
          else Some ([u "\\" ++ server ++ u "\" ++ name], str_join (u "\") parts)
      | _ => None
      end
  | None =>
      match unified with
      | drive :: c :: rest =>
          if is_ascii_alphabetic drive && (c =? COLON)%N
             && match rest with [] => true | d :: _ => (d =? BACKSLASH)%N end
          then Some ([[drive; COLON]], rest)
          else None
      | _ => None
      end
  end.

Definition path_root (path : str) (style : PathStyle) : option (list str * str) :=
  match style with
  | Windows => windows_root path
  | Linux | MacOS => match strip_prefix [SLASH] path with Some rest => Some ([], rest) | None => None end
  end.

(** A raw piece as the segment the platform compares. *)
Definition read_segment (style : PathStyle) (raw : str) : option str :=
  match style with
  | Windows =>
      if contains_char (is_char COLON) raw then None
      else let trimmed := trim_end_matches (fun c => (c =? DOT)%N || (c =? SPACE)%N) raw in
           if is_empty trimmed then None else Some trimmed
  | Linux | MacOS => Some raw
  end.

(** The loop over the pieces, [segments] being what was pushed so far. *)
Fixpoint push_segments (style : PathStyle) (pattern : bool) (segments raws : list str)
  : option (list str) :=
  match raws with
  | [] => Some segments
  | raw :: raws' =>
      if is_empty raw || str_eqb raw (u ".") then push_segments style pattern segments raws'
      else if str_eqb raw (u "..") then None
      else match read_segment style raw with
           | None => None
           | Some segment =>
               if negb pattern && contains_char (is_char STAR) segment then None
               else let segments := segments ++ [segment] in
                    if MAX_PATH_SEGMENTS <? length segments then None
                    else push_segments style pattern segments raws'
           end
  end.

Definition path_segments `{Unicode} (path : str) (style : PathStyle) (pattern : bool)
  : option (list str) :=
  if (MAX_PATH_BYTES <? byte_len path) || existsb is_control path then None
  else
    let path := trim path in
    let path := if case_insensitive style then to_lowercase path else path in
    match path_root path style with
    | None => None
    | Some (segments, rest) =>
        push_segments style pattern segments (split (is_char (separator style)) rest)
    end.

(** ** The owner's profile folders *)

Inductive ProfileFolder : Set := LocalAppData | AppData | UserProfile | Home.

#[export] Instance ProfileFolder_eq_dec : EqDecision ProfileFolder.
Proof. solve_decision. Defined.

Definition ProfileFolder_ALL : list ProfileFolder := [LocalAppData; AppData; UserProfile; Home].

Definition token (f : ProfileFolder) : str :=
  match f with
  | LocalAppData => u "%localappdata%"
  | AppData => u "%appdata%"
  | UserProfile => u "%userprofile%"
  | Home => u "~"
  end.

Definition folder_on (f : ProfileFolder) (style : PathStyle) : bool :=
  match f with
  | Home => match style with Windows => false | _ => true end
  | LocalAppData | AppData | UserProfile => match style with Windows => true | _ => false end
  end.

Definition below_profile (f : ProfileFolder) : list str :=
  match f with
  | LocalAppData => [u "appdata"; u "local"]
  | AppData => [u "appdata"; u "roaming"]
  | UserProfile | Home => []
  end.

Inductive AppPathError : Set := StarNotLast | NotAbsolute | Malformed | UnknownVariable.

Definition PERCENT : char := 37%N.
Definition TILDE : char := 126%N.
Definition DOLLAR : char := 36%N.

Definition profile_prefix (body : str) (style : PathStyle)
  : result (option (ProfileFolder * str)) AppPathError :=
  let found (head rest : str) :=
    match find_first (fun f => folder_on f style && eq_ignore_ascii_case (token f) head)
            ProfileFolder_ALL with
    | None => Err UnknownVariable
    | Some folder =>
        if match rest with c :: _ => negb (is_separator style c) | [] => false end
        then Err UnknownVariable
        else Ok (Some (folder, rest))
    end in
  match body with
  | c :: tail =>
      if (c =? PERCENT)%N then
        match split_once PERCENT tail with
        | None => Err UnknownVariable
        | Some (name, rest) => found (PERCENT :: name ++ [PERCENT]) rest
        end
      else if (c =? TILDE)%N then found [TILDE] tail
      else if (c =? DOLLAR)%N then Err UnknownVariable
      else Ok None
  | [] => Ok None
  end.

Definition probe_root (style : PathStyle) : list str :=
  match style with
  | Windows => [u "c:"; u "users"; u "<profile>"]
  | Linux => [u "home"; u "<profile>"]
  | MacOS => [u "users"; u "<profile>"]
  end.

(** ** [AppPath] *)

Inductive AppPathKind : Set := File | Folder | FolderTree | FileOrFolder.

#[export] Instance AppPathKind_eq_dec : EqDecision AppPathKind.
Proof. solve_decision. Defined.

Record AppPath : Set := mkAppPath {
  path_style : PathStyle;
  path_kind : AppPathKind;
  segments : list str;
  text : str;
  profile : option ProfileFolder;
  probe : option str;
}.

#[export] Instance AppPath_eq_dec : EqDecision AppPath.
Proof. solve_decision. Defined.

Definition starts_absolute (body : str) (style : PathStyle) : bool :=
  match style with
  | Windows =>
      let drive := match body with
                   | d :: c :: rest =>
                       is_ascii_alphabetic d && (c =? COLON)%N
                       && match rest with [] => true | e :: _ => is_separator Windows e end
                   | _ => false
                   end in
      let share := match body with
                   | a :: b :: _ => is_separator Windows a && is_separator Windows b
                   | _ => false
                   end in
      drive || share
  | Linux | MacOS => starts_with [SLASH] body
  end.

(** What the form of the rule adds to the spelling of its segments. *)
Definition render (style : PathStyle) (kind : AppPathKind) (segs : list str) : str :=
  let sep := separator style in
  let txt := (if root_len style =? 0 then [sep] else []) ++ str_join [sep] segs in
  let close := if ends_with [sep] txt then txt else txt ++ [sep] in
  match kind with
  | File | FileOrFolder => txt
  | Folder => close
  | FolderTree => close ++ [STAR]
  end.

(** The form a path without its star has. *)
Definition read_kind (style : PathStyle) (tree trailing at_root : bool) (last_segment : option str)
  : AppPathKind :=
  if tree then FolderTree
  else if trailing || at_root then Folder
  else match style with
       | Windows =>
           if match last_segment with Some l => ends_with (u ".exe") l | None => false end
           then File else Folder
       | Linux | MacOS => FileOrFolder
       end.

Definition under_profile `{Unicode} (folder : ProfileFolder) (rest : str) (tree : bool)
  (style : PathStyle) : result AppPath AppPathError :=
  let rooted := match style with
                | Windows => u "c:" ++ rest
                | Linux | MacOS => if is_empty rest then [SLASH] else rest
                end in
  match path_segments rooted style false with
  | None => Err Malformed
  | Some below =>
      let below := drop (root_len style) below in
      let trailing := last_is (is_separator style) rest in
      let kind := read_kind style tree trailing
                    (match below with [] => true | _ => false end) (last below) in
      let segs := probe_root style ++ below_profile folder ++ below in
      if MAX_PATH_SEGMENTS <? length segs then Err Malformed
      else
        let sep := separator style in
        let txt := token folder ++ concat ((fun s => sep :: s) <$> below) in
        let txt := match kind with
                   | File | FileOrFolder => txt
                   | Folder => txt ++ [sep]
                   | FolderTree => txt ++ [sep; STAR]
                   end in
        Ok {| path_style := style; path_kind := kind; segments := segs; text := txt;
              profile := Some folder; probe := Some (render style kind segs) |}
  end.

(** What stands before the star of a folder with its subfolders. *)
Definition read_tree_body (style : PathStyle) (trimmed : str) : option str :=
  match strip_suffix [STAR] trimmed with
  | Some body => if last_is (is_separator style) body then Some body else None
  | None => None
  end.

Definition AppPath_parse `{Unicode} (raw : str) (style : PathStyle) : result AppPath AppPathError :=
  if (MAX_PATH_BYTES <? byte_len raw) || existsb is_control raw then Err Malformed
  else
    let trimmed := trim raw in
    let tree_body := read_tree_body style trimmed in
    let body := default trimmed tree_body in
    let tree := match tree_body with Some _ => true | None => false end in
    if contains_char (is_char STAR) body then Err StarNotLast
    else match profile_prefix body style with
         | Err e => Err e
         | Ok (Some (folder, rest)) => under_profile folder rest tree style
         | Ok None =>
             if negb (starts_absolute body style) then Err NotAbsolute
             else match path_segments body style false with
                  | None => Err Malformed
                  | Some segs =>
                      let trailing := last_is (is_separator style) body in
                      let kind := read_kind style tree trailing
                                    (length segs <=? root_len style) (last segs) in
                      Ok {| path_style := style; path_kind := kind; segments := segs;
                            text := render style kind segs; profile := None; probe := None |}
                  end
         end.

Definition for_profile `{Unicode} (p : AppPath) (owner : str) : result AppPath AppPathError :=
  match profile p with
  | None => Ok p
  | Some _ =>
      if negb (starts_absolute (trim owner) (path_style p)) then Err Malformed
      else match path_segments owner (path_style p) false with
           | None => Err Malformed
           | Some segs =>
               if length segs <=? root_len (path_style p) then Err Malformed
               else
                 let below := drop (length (probe_root (path_style p))) (segments p) in
                 let segs := segs ++ below in
                 if MAX_PATH_SEGMENTS <? length segs then Err Malformed
                 else let txt := render (path_style p) (path_kind p) segs in
                      if MAX_PATH_BYTES <? byte_len txt then Err Malformed
                      else Ok {| path_style := path_style p; path_kind := path_kind p;
                                 segments := segs; text := txt; profile := None; probe := None |}
           end
  end.

Definition AppPath_as_str (p : AppPath) : str := text p.

Definition depth (p : AppPath) : nat := length (segments p) - root_len (path_style p).

Definition place (p : AppPath) : str :=
  let txt := default (text p) (probe p) in
  default txt (strip_suffix [STAR] txt).

Definition on_disk `{Unicode} (p : AppPath) (where_ : str) (is_folder : bool)
  : result AppPath AppPathError :=
  match path_segments where_ (path_style p) false with
  | None => Err Malformed
  | Some segs =>
      if negb (starts_absolute (trim where_) (path_style p)) then Err Malformed
      else let kind := match path_kind p with
                       | FileOrFolder => if is_folder then Folder else File
                       | kind => kind
                       end in
           Ok {| path_style := path_style p; path_kind := kind; segments := segs;
                 text := render (path_style p) kind segs; profile := None; probe := None |}
  end.

(** [<[String]>::starts_with]. *)
Fixpoint segs_start_with (pre l : list str) : bool :=
  match pre, l with
  | [], _ => true
  | p :: pre', x :: l' => str_eqb p x && segs_start_with pre' l'
  | _ :: _, [] => false
  end.

Definition match_image `{Unicode} (p : AppPath) (image : str) : option AppPathKind :=
  match profile p with
  | Some _ => None
  | None =>
      match path_segments image (path_style p) false with
      | None | Some [] => None
      | Some (o :: os) =>
          let observed := o :: os in
          let folder := take (length os) observed in
          if length folder <? root_len (path_style p) then None
          else
            let file := bool_decide (observed = segments p) in
            let in_folder := bool_decide (folder = segments p) in
            match path_kind p with
            | File => if file then Some File else None
            | Folder => if in_folder then Some Folder else None
            | FolderTree => if segs_start_with (segments p) folder then Some FolderTree else None
            | FileOrFolder => if file then Some File else if in_folder then Some Folder else None
            end
      end
  end.

Definition holds_files_in `{Unicode} (p : AppPath) (folder : str) : bool :=
  match profile p with
  | Some _ => false
  | None =>
      match path_segments folder (path_style p) false with
      | None => false
      | Some observed =>
          if length observed <? root_len (path_style p) then false
          else match path_kind p with
               | File => false
               | Folder | FileOrFolder => bool_decide (observed = segments p)
               | FolderTree => segs_start_with (segments p) observed
               end
      end
  end.

(** ** What a segment is *)

(** What every segment below the root satisfies: it names one entry of a
    folder, cannot climb, and cannot be a mask. *)
Definition segment_ok (style : PathStyle) (s : str) : Prop :=
  s <> [] /\ s <> u "." /\ s <> u ".."
  /\ contains_char (is_char (separator style)) s = false
  /\ contains_char (is_char STAR) s = false
  /\ (style = Windows -> contains_char (is_char COLON) s = false
                         /\ last_is (fun c => (c =? DOT)%N || (c =? SPACE)%N) s = false).

Lemma read_segment_ok style raw s :
  read_segment style raw = Some s -> raw <> [] -> raw <> u "." -> raw <> u ".." ->
  contains_char (is_char (separator style)) raw = false ->
  contains_char (is_char STAR) s = false -> segment_ok style s.
Proof.
  intros Hs H0 H1 H2 Hsep Hstar. unfold segment_ok.
  destruct style; simpl in Hs; [|injection Hs as ->; repeat split; done..].
  destruct (contains_char (is_char COLON) raw) eqn:Hc; [done|].
  set (p := fun c => _) in Hs. pose proof (trim_end_matches_last p raw) as Hl.
  destruct (trim_end_matches_prefix p raw) as [t Ht].
  destruct (is_empty (trim_end_matches p raw)) eqn:He; [done|]. injection Hs as Hs.
  rewrite Hs in *. apply is_empty_false in He. rewrite Ht, contains_char_app in Hc, Hsep.
  apply orb_false_iff in Hc as [Hc _], Hsep as [Hsep _].
  repeat split; try done; by intros ->.
Qed.

(** What the loop pushes. *)
Lemma push_segments_Some style acc raws out :
  push_segments style false acc raws = Some out ->
  (forall raw, raw ∈ raws -> contains_char (is_char (separator style)) raw = false) ->
  length acc <= MAX_PATH_SEGMENTS ->
  exists segs, out = acc ++ segs /\ Forall (segment_ok style) segs
    /\ length out <= MAX_PATH_SEGMENTS.
Proof.
  revert acc. induction raws as [|raw raws IH]; intros acc H Hsep Hlen; simpl in H.
  { injection H as <-. exists []. rewrite app_nil_r. auto. }
  assert (Hsep' : forall r, r ∈ raws -> contains_char (is_char (separator style)) r = false)
    by (intros; apply Hsep; by right).
  destruct (is_empty raw) eqn:E0; simpl in H; [exact (IH acc H Hsep' Hlen)|].
  destruct (str_eqb raw (u ".")) eqn:E1; simpl in H; [exact (IH acc H Hsep' Hlen)|].
  destruct (str_eqb raw (u "..")) eqn:E2; [done|].
  destruct (read_segment style raw) as [s|] eqn:Es; [|done].
  destruct (contains_char (is_char STAR) s) eqn:Ec; [done|].
  destruct (Nat.ltb_spec MAX_PATH_SEGMENTS (length (acc ++ [s]))); [done|].
  apply IH in H as (segs & -> & Hok & Hl); [|assumption..].
  exists (s :: segs). rewrite <- app_assoc in *. split; [done|]. split; [|done].
  constructor; [|done]. apply (read_segment_ok style raw); try done.
  - by apply is_empty_false.
  - intros ->. by rewrite str_eqb_refl in E1.
  - intros ->. by rewrite str_eqb_refl in E2.
  - apply Hsep. left.
Qed.

Lemma path_root_length path style segs rest :
  path_root path style = Some (segs, rest) -> length segs = root_len style.
Proof.
  destruct style; simpl; [|by case_match; naive_solver..].
  unfold windows_root. intros H. repeat case_match; naive_solver.
Qed.

Lemma segs_start_with_true pre l : segs_start_with pre l = true <-> exists k, l = pre ++ k.
Proof.
  revert l. induction pre as [|p pre IH]; intros l; simpl; [split; eauto|].
  destruct l as [|x l]; [split; [done|by intros [k ?]]|].
  rewrite andb_true_iff, str_eqb_eq, IH. split.
  - intros [-> [k ->]]. by exists k.
  - intros [k [= -> ->]]. eauto.
Qed.

Lemma take_observed (o : str) os : exists f, o :: os = take (length os) (o :: os) ++ [f].
Proof.
  destruct (exists_last (l := o :: os)) as (l & f & E); [done|]. exists f. rewrite E.
  assert (length os = length l) as ->.
  { apply (f_equal length) in E. rewrite length_app in E. simpl in E. lia. }
  by rewrite take_app_length.
Qed.

Section Paths.
Context `{Unicode}.

Lemma path_segments_shape path style segs :
  path_segments path style false = Some segs ->
  exists root below, segs = root ++ below /\ length root = root_len style
    /\ Forall (segment_ok style) below /\ length segs <= MAX_PATH_SEGMENTS.
Proof.
  unfold path_segments. case_match; [done|].
  destruct (path_root _ style) as [[root rest]|] eqn:Hroot; [|done]. intros Hp. pose proof (path_root_length _ _ _ _ Hroot) as Hl.
  apply push_segments_Some in Hp as (below & -> & Hok & Hlen).
  - exists root, below. auto.
  - intros raw. apply split_pieces.
  - rewrite Hl. unfold MAX_PATH_SEGMENTS. destruct style; simpl; lia.
Qed.

(** An application rule written as a path matches only what it names: an
    image it matches has the rule's own segments as its leading segments, none
    after them for a file, one for a folder, at least one for a folder with its
    subfolders, and none of those climbs, is a mask or hides a separator. *)
Theorem match_image_sound p image k :
  root_len (path_style p) <= length (segments p) -> match_image p image = Some k ->
  exists below, path_segments image (path_style p) false = Some (segments p ++ below)
    /\ Forall (segment_ok (path_style p)) below /\ profile p = None
    /\ match k with
       | File => below = [] /\ (path_kind p = File \/ path_kind p = FileOrFolder)
       | Folder => length below = 1 /\ (path_kind p = Folder \/ path_kind p = FileOrFolder)
       | FolderTree => below <> [] /\ path_kind p = FolderTree
       | FileOrFolder => False
       end.
Proof.
  intros Hroot. unfold match_image. destruct (profile p); [done|].
  destruct (path_segments image _ _) as [[|o os]|] eqn:E; [done| |done].
  destruct (take_observed o os) as [f Hf]. set (folder := take (length os) (o :: os)) in *.
  destruct (_ <? _); [done|]. intros Hk.
  assert (Hbelow : exists below, o :: os = segments p ++ below /\
    match k with
    | File => below = [] /\ (path_kind p = File \/ path_kind p = FileOrFolder)
    | Folder => length below = 1 /\ (path_kind p = Folder \/ path_kind p = FileOrFolder)
    | FolderTree => below <> [] /\ path_kind p = FolderTree
    | FileOrFolder => False
    end).
  { destruct (path_kind p); repeat case_bool_decide; try case_match; simplify_eq; try done.
    all: try (exists []; rewrite app_nil_r; auto; done).
    all: try (exists [f]; simpl; split; [congruence|auto]; done).
    match goal with H : segs_start_with _ _ = true |- _ => apply segs_start_with_true in H as [b Hb] end.
    exists (b ++ [f]). rewrite app_assoc, <- Hb. split; [done|].
    split; [by destruct b|done]. }
  destruct Hbelow as (below & Eb & Hm). exists below. rewrite <- Eb. split; [done|].
  split; [|auto]. apply path_segments_shape in E as (root & b' & E' & Hr & Hok & _).
  rewrite Eb in E'. assert (Hs : b' = drop (root_len (path_style p)) (segments p ++ below)).
  { rewrite E', <- Hr. by rewrite drop_app_length. }
  rewrite drop_app_le in Hs by lia. rewrite Hs in Hok. by apply Forall_app in Hok as [_ Hok].
Qed.

(** ** Reading a canonical spelling back (Linux) *)

Lemma push_segments_elem acc raws out s :
  push_segments Linux false acc raws = Some out -> s ∈ out -> s ∈ acc \/ s ∈ raws.
Proof using Type.
  revert acc. induction raws as [|raw raws IH]; intros acc Hp Hs; simpl in Hp.
  { injection Hp as <-. auto. }
  repeat case_match; try done.
  - destruct (IH acc Hp Hs); [auto|right; by right].
  - destruct (IH _ Hp Hs) as [[Hin| ->%list_elem_of_singleton]%elem_of_app|Hin];
      [auto|right; left|right; by right].
Qed.

Lemma push_segments_ok acc segs tail :
  Forall (segment_ok Linux) segs -> length (acc ++ segs) <= MAX_PATH_SEGMENTS ->
  push_segments Linux false acc (segs ++ tail) = push_segments Linux false (acc ++ segs) tail.
Proof using Type.
  revert acc. induction segs as [|s segs IH]; intros acc Hok Hlen; simpl.
  { by rewrite app_nil_r. }
  apply Forall_cons_1 in Hok as [(H0 & H1 & H2 & _ & Hstar & _) Hok].
  replace (acc ++ s :: segs) with ((acc ++ [s]) ++ segs) in * by (by rewrite <- app_assoc).
  destruct (is_empty s) eqn:E; [by apply is_empty_true in E|]. simpl.
  destruct (str_eqb s (u ".")) eqn:E1; [by apply str_eqb_eq in E1|].
  destruct (str_eqb s (u "..")) eqn:E2; [by apply str_eqb_eq in E2|].
  rewrite Hstar. destruct (Nat.ltb_spec MAX_PATH_SEGMENTS (length (acc ++ [s]))) as [Hlt|_].
  - rewrite length_app in Hlen. lia.
  - by apply IH.
Qed.

(** The spelling of a folder, and of a path without its form. *)
Definition linux_spelling (segs : list str) (folder : bool) : str :=
  SLASH :: str_join [SLASH] segs ++ (if folder && negb (bool_decide (segs = [])) then [SLASH] else []).

Lemma path_segments_spelling segs folder :
  Forall (segment_ok Linux) segs -> length segs <= MAX_PATH_SEGMENTS ->
  byte_len (linux_spelling segs folder) <= MAX_PATH_BYTES ->
  existsb is_control (linux_spelling segs folder) = false ->
  last_is is_whitespace (linux_spelling segs folder) = false ->
  path_segments (linux_spelling segs folder) Linux false = Some segs.
Proof using Type.
  intros Hok Hlen Hb Hc Hw. unfold path_segments. rewrite Hc.
  destruct (Nat.ltb_spec MAX_PATH_BYTES (byte_len (linux_spelling segs folder))) as [?|_]; [lia|].
  simpl orb. cbv iota. rewrite (trim_id_ends (linux_spelling segs folder)).
  2: { by intros c t [= <- _]. }
  2: { exact Hw. }
  simpl case_insensitive. cbv iota. simpl path_root. unfold separator.
  destruct (decide (segs = [])) as [->|Hne].
  { by destruct folder. }
  assert (Hsplit : split (is_char SLASH) (str_join [SLASH] segs) = segs).
  { apply split_str_join; [done|]. intros q Hq. rewrite Forall_forall in Hok. by apply Hok. }
  assert (Hpush : forall tail, push_segments Linux false [] (segs ++ tail)
                               = push_segments Linux false segs tail).
  { intros tail. by rewrite push_segments_ok. }
  rewrite bool_decide_eq_false_2 by done. destruct folder; simpl.
  - rewrite split_app, Hsplit by done. by rewrite Hpush.
  - rewrite app_nil_r, Hsplit. rewrite <- (app_nil_r segs) at 1. by rewrite Hpush.
Qed.

Lemma str_join_last segs :
  Forall (segment_ok Linux) segs -> segs <> [] ->
  exists c, last (str_join [SLASH] segs) = Some c /\ c <> SLASH.
Proof using Type.
  induction 1 as [|s segs (H0 & _ & _ & Hsep & _) Hok IH]; [done|]. intros _.
  destruct (decide (segs = [])) as [->|Hne].
  - simpl. destruct (exists_last H0) as (t & c & ->). exists c. rewrite last_snoc. split; [done|].
    rewrite contains_char_false in Hsep. intros ->. specialize (Hsep SLASH).
    rewrite elem_of_app, list_elem_of_singleton in Hsep. by discriminate Hsep; auto.
  - destruct (IH Hne) as (c & Hc & Hd). exists c. rewrite str_join_cons by done.
    rewrite app_assoc, last_app, Hc. done.
Qed.

Lemma render_linux kind segs :
  Forall (segment_ok Linux) segs ->
  render Linux kind segs = match kind with
                           | File | FileOrFolder => linux_spelling segs false
                           | Folder => linux_spelling segs true
                           | FolderTree => linux_spelling segs true ++ [STAR]
                           end.
Proof using Type.
  intros Hok. unfold render, linux_spelling. simpl.
  destruct (decide (segs = [])) as [->|Hne]; [by destruct kind|].
  rewrite (bool_decide_eq_false_2 (segs = [])) by done. simpl. rewrite app_nil_r.
  destruct (ends_with [SLASH] (SLASH :: str_join [SLASH] segs)) eqn:E; [|by destruct kind].
  apply ends_with_true in E as [r E]. destruct (str_join_last segs Hok Hne) as (c & Hc & Hd).
  apply (f_equal last) in E. rewrite last_snoc, last_cons, Hc in E. congruence.
Qed.

Lemma path_segments_elem path segs s c :
  path_segments path Linux false = Some segs -> s ∈ segs -> c ∈ s -> c ∈ path.
Proof using Type.
  unfold path_segments. case_match; [done|]. cbn [case_insensitive path_root].
  destruct (trim path) as [|d rest] eqn:Et; [done|]. cbn [strip_prefix].
  destruct (SLASH =? d)%N; [|done]. intros Hp Hs Hc.
  apply (push_segments_elem _ _ _ _ Hp) in Hs as [Hs|Hs]; [by apply elem_of_nil in Hs|].
  apply trim_elem. rewrite Et. right. by eapply split_piece_elem.
Qed.

(** What a full path read on Linux is. *)
Lemma AppPath_parse_linux raw p :
  AppPath_parse raw Linux = Ok p -> profile p = None ->
  exists kind segs,
    p = {| path_style := Linux; path_kind := kind; segments := segs;
           text := render Linux kind segs; profile := None; probe := None |}
    /\ Forall (segment_ok Linux) segs /\ length segs <= MAX_PATH_SEGMENTS
    /\ (forall s c, s ∈ segs -> c ∈ s -> is_control c = false)
    /\ kind <> File /\ (kind = FileOrFolder -> segs <> []).
Proof using Type.
  unfold AppPath_parse. destruct (_ || existsb is_control raw) eqn:Eraw; [done|].
  apply orb_false_iff in Eraw as [_ Hctl]. rewrite existsb_false in Hctl. cbv zeta.
  set (body := default (trim raw) (read_tree_body Linux (trim raw))).
  assert (Hbody : forall c, c ∈ body -> c ∈ raw).
  { intros c Hc. apply trim_elem. unfold body, read_tree_body in Hc.
    destruct (strip_suffix [STAR] (trim raw)) as [b|] eqn:Eb; [|done].
    apply strip_suffix_Some in Eb. case_match; [|done]. rewrite Eb. apply elem_of_app. auto. }
  destruct (contains_char _ body); [done|].
  destruct (profile_prefix body Linux) as [[[folder rest]|]|]; [| |done].
  { unfold under_profile. intros Hp Hn. repeat case_match; simplify_eq. }
  destruct (starts_absolute body Linux); [|done]. simpl negb. cbv iota.
  destruct (path_segments body Linux false) as [segs|] eqn:Es; [|done].
  intros [= <-] _. eexists _, segs. split; [reflexivity|].
  destruct (path_segments_shape _ _ _ Es) as ([|] & below & E & Hr & Hok & Hlen); [|done].
  simpl in E. subst below. split; [done|]. split; [done|]. split.
  - intros s c Hs Hc. apply Hctl, Hbody. by eapply path_segments_elem.
  - unfold read_kind. destruct (match read_tree_body _ _ with Some _ => true | None => false end);
      [done|]. by destruct (last_is (is_separator Linux) body), segs.
Qed.

Lemma join_control segs :
  (forall s c, s ∈ segs -> c ∈ s -> is_control c = false) ->
  forall c, c ∈ str_join [SLASH] segs -> is_control c = false.
Proof using Type.
  induction segs as [|s segs IH]; intros Hs c; [by intros ?%elem_of_nil|].
  destruct (decide (segs = [])) as [->|Hne]; [apply Hs; left|].
  rewrite str_join_cons by done. rewrite !elem_of_app, list_elem_of_singleton.
  intros [Hc|[->|Hc]]; [by eapply Hs; [left|]|done|].
  apply IH; [|done]. intros t d Ht. apply Hs. by right.
Qed.

Lemma spelling_control segs folder :
  (forall s c, s ∈ segs -> c ∈ s -> is_control c = false) ->
  existsb is_control (linux_spelling segs folder) = false.
Proof using Type.
  intros Hs. apply existsb_false. intros c. unfold linux_spelling.
  rewrite elem_of_cons, elem_of_app. intros [->|[Hc|Hc]]; [done|by eapply join_control|].
  case_match; [by apply list_elem_of_singleton in Hc as ->|by apply elem_of_nil in Hc].
Qed.

Lemma spelling_star segs folder :
  Forall (segment_ok Linux) segs ->
  contains_char (is_char STAR) (linux_spelling segs folder) = false.
Proof using Type.
  intros Hok. unfold linux_spelling. change (SLASH :: ?l) with ([SLASH] ++ l).
  rewrite !contains_char_app. apply orb_false_iff. split; [done|]. apply orb_false_iff. split.
  - induction Hok as [|s segs (_ & _ & _ & _ & Hs & _) Hok IH]; [done|].
    destruct (decide (segs = [])) as [->|Hne]; [done|].
    rewrite str_join_cons, !contains_char_app, Hs, IH by done. done.
  - by case_match.
Qed.

Lemma spelling_last_sep segs folder :
  Forall (segment_ok Linux) segs ->
  last_is (is_separator Linux) (linux_spelling segs folder) = folder || bool_decide (segs = []).
Proof using Type.
  intros Hok. unfold linux_spelling, last_is.
  destruct (decide (segs = [])) as [->|Hne]; [by destruct folder|].
  destruct (str_join_last segs Hok Hne) as (c & Hc & Hcs).
  rewrite !(bool_decide_eq_false_2 (segs = [])) by done. destruct folder; cbn [andb negb orb].
  - by rewrite app_comm_cons, last_snoc.
  - rewrite app_nil_r, last_cons, Hc. by apply N.eqb_neq.
Qed.

(** Reading a spelling, with or without the star of a folder with its
    subfolders. *)
Lemma AppPath_parse_spelling segs folder tree :
  (tree = true -> folder = true) ->
  let body := linux_spelling segs folder in
  let raw := body ++ (if tree then [STAR] else []) in
  Forall (segment_ok Linux) segs -> length segs <= MAX_PATH_SEGMENTS ->
  (forall s c, s ∈ segs -> c ∈ s -> is_control c = false) ->
  byte_len raw <= MAX_PATH_BYTES -> last_is is_whitespace body = false ->
  let kind := if tree then FolderTree else if folder || bool_decide (segs = []) then Folder
              else FileOrFolder in
  AppPath_parse raw Linux
  = Ok {| path_style := Linux; path_kind := kind; segments := segs;
          text := render Linux kind segs; profile := None; probe := None |}.
Proof using Type.
  intros Htf body raw Hok Hlen Hctl Hb Hw kind. unfold AppPath_parse.
  assert (Hstar : contains_char (is_char STAR) body = false) by (by apply spelling_star).
  assert (Hcb : existsb is_control body = false) by (by apply spelling_control).
  assert (Hsep := spelling_last_sep segs folder Hok). fold body in Hsep.
  assert (Hcr : existsb is_control raw = false).
  { unfold raw. rewrite existsb_app, Hcb. by destruct tree. }
  destruct (Nat.ltb_spec MAX_PATH_BYTES (byte_len raw)) as [?|_]; [lia|]. rewrite Hcr.
  cbn [orb]. cbv zeta. rewrite (trim_id_ends raw).
  2: { intros c t [= <- _]. done. }
  2: { unfold raw. destruct tree; [|by rewrite app_nil_r]. unfold last_is. by rewrite last_snoc. }
  assert (Etree : read_tree_body Linux raw = if tree then Some body else None).
  { unfold read_tree_body, raw. destruct tree.
    - assert (E : strip_suffix [STAR] (body ++ [STAR]) = Some body) by (by apply strip_suffix_Some).
      by rewrite E, Hsep, (Htf eq_refl).
    - destruct (strip_suffix [STAR] (body ++ [])) as [b'|] eqn:E; [|done].
      apply strip_suffix_Some in E. rewrite app_nil_r in E.
      rewrite E, contains_char_app in Hstar. by apply orb_false_iff in Hstar as [_ ?]. }
  rewrite Etree. assert (Ebody : default raw (if tree then Some body else None) = body).
  { unfold raw. destruct tree; [done|apply app_nil_r]. }
  rewrite Ebody, Hstar. change (profile_prefix body Linux) with (@Ok (option (ProfileFolder * str)) AppPathError None).
  change (starts_absolute body Linux) with true. cbn [negb].
  unfold body at 1. rewrite path_segments_spelling; try done.
  - rewrite Hsep. unfold kind, read_kind. destruct tree; [done|].
    destruct segs; [by destruct folder|]. rewrite bool_decide_eq_false_2 by done. by destruct folder.
  - unfold raw in Hb. rewrite byte_len_app in Hb. fold body. lia.
Qed.

(** The canonical spelling of a full Linux path reads back as the same path
    (form, segments and spelling), unless it ends in white space, which reading
    trims; see [parse_space_not_stable]. *)
Theorem linux_path_roundtrip raw p :
  AppPath_parse raw Linux = Ok p -> profile p = None ->
  byte_len (text p) <= MAX_PATH_BYTES -> last_is is_whitespace (text p) = false ->
  AppPath_parse (AppPath_as_str p) Linux = Ok p.
Proof using Type.
  intros Hp Hn. destruct (AppPath_parse_linux raw p Hp Hn)
    as (kind & segs & -> & Hok & Hlen & Hctl & Hfile & Hff).
  unfold AppPath_as_str. cbn [text]. rewrite render_linux by done. intros Hb Hw.
  destruct kind; [done| | |].
  - pose proof (AppPath_parse_spelling segs true false) as P. cbv zeta in P.
    rewrite app_nil_r in P. rewrite P; [by rewrite render_linux|assumption || done..].
  - rewrite (AppPath_parse_spelling segs true true); [by rewrite render_linux|assumption || done..|].
    pose proof (spelling_last_sep segs true Hok) as Hs. unfold last_is in *.
    destruct (last (linux_spelling segs true)) as [c|]; [|done]. simpl in Hs. apply N.eqb_eq in Hs as ->. done.
  - pose proof (AppPath_parse_spelling segs false false) as P. cbv zeta in P.
    rewrite app_nil_r in P. rewrite P; [|assumption || done..].
    rewrite (bool_decide_eq_false_2 (segs = [])) by auto. by rewrite render_linux.
Qed.

End Paths.

Lemma linux_path_roundtrip_witness :
  match @AppPath_parse ascii_unicode (u "/opt//My.App/./*") Linux with
  | Ok p => @AppPath_parse ascii_unicode (AppPath_as_str p) Linux = Ok p
            /\ text p = u "/opt/My.App/*"
  | Err _ => False
  end.
Proof.
  destruct (@AppPath_parse ascii_unicode (u "/opt//My.App/./*") Linux) as [p|] eqn:E;
    [|by vm_compute in E].
  assert (Ep : @Ok AppPath AppPathError p = @AppPath_parse ascii_unicode (u "/opt//My.App/./*") Linux)
    by (by rewrite E).
  vm_compute in Ep. injection Ep as Ep.
  split; [|by rewrite Ep; vm_compute].
  apply (@linux_path_roundtrip ascii_unicode (u "/opt//My.App/./*") p E);
    rewrite Ep; [done|apply Nat.leb_le; by vm_compute|by vm_compute].
Defined.

(** A path whose last kept segment ends in white space does not read back: what
    follows the space in the raw value is dropped, and reading trims. *)
Example parse_space_not_stable :
  match @AppPath_parse ascii_unicode (u "/opt/app /.") Linux with
  | Ok p => text p = u "/opt/app "
            /\ (match @AppPath_parse ascii_unicode (AppPath_as_str p) Linux with
                | Ok q => text q | Err _ => [] end) = u "/opt/app"
  | Err _ => False
  end.
Proof. vm_compute. done. Qed.

Lemma match_image_sound_witness :
  match @AppPath_parse ascii_unicode (u "C:/Apps/Tool/*") Windows with
  | Ok p => exists below, @path_segments ascii_unicode (u "c:\apps\TOOL\bin\x.exe") Windows false
                          = Some (segments p ++ below) /\ length below = 2
  | Err _ => False
  end.
Proof.
  destruct (@AppPath_parse ascii_unicode (u "C:/Apps/Tool/*") Windows) as [p|] eqn:E;
    [|by vm_compute in E].
  assert (Ep : p = match @AppPath_parse ascii_unicode (u "C:/Apps/Tool/*") Windows with
                   | Ok p => p | Err _ => p end) by (by rewrite E).
  vm_compute in Ep. subst p.
  match goal with |- context [@segments ?p] =>
    destruct (@match_image_sound ascii_unicode p (u "c:\apps\TOOL\bin\x.exe") FolderTree)
      as (below & H & _); [simpl; lia|by vm_compute|] end.
  exists below. split; [exact H|]. vm_compute in H. injection H as <-. done.
Defined.
