(* ===== verification/Glob.v ===== *)
(** * Wildcard patterns

    shared/contracts/src/glob.rs: the one matcher of application patterns, a
    loop with one backtracking point that takes time linear in the product of
    the two lengths. The source steps over the bytes and always lands on
    character boundaries; a position is modelled by the characters left. *)

From stdpp Require Import base numbers list.
From S2P Require Import Prelude Str.

Open Scope nat_scope.

Section Glob.
Context `{Unicode}.

Definition sigma (c : char) : char := if (c =? 962)%N then 963%N else c.

Definition fold_eq (a b : char) : bool :=
  (a =? b)%N || str_eqb (sigma <$> char_to_lowercase a) (sigma <$> char_to_lowercase b).

Definition fold_str (text : str) : str := sigma <$> (text ≫= char_to_lowercase).

(** One literal character of the pattern against one of the text. *)
Definition char_matches (pch tch : char) : bool :=
  if char_is_ascii pch && char_is_ascii tch then (char_lower pch =? char_lower tch)%N
  else fold_eq pch tch.

(** The inner [while]. *)
Fixpoint skip_stars (p : str) : str :=
  match p with
  | c :: p' => if (c =? STAR)%N then skip_stars p' else p
  | [] => []
  end.

(** The backtracking point: the pattern past the last [*], and the text that
    [*] had reached. *)
Definition Star : Type := option (str * str).

(** The end of a turn that advanced nothing: done, one more character for the
    last [*], or no match. *)
Inductive turn : Type := Return (b : bool) | Continue (p t : str) (star : Star).

Definition fall_back (p t : str) (star : Star) : turn :=
  if is_empty p && is_empty t then Return true
  else match star with
       | Some (resume_p, _ :: resume_t) => Continue resume_p resume_t (Some (resume_p, resume_t))
       | _ => Return false
       end.

(** One turn of the loop. *)
Definition glob_turn (p t : str) (star : Star) : turn :=
  match p with
  | pch :: p' =>
      if (pch =? STAR)%N then
        let p := skip_stars p in
        if is_empty p then Return true else Continue p t (Some (p, t))
      else match t with
           | tch :: t' => if char_matches pch tch then Continue p' t' star else fall_back p t star
           | [] => fall_back p t star
           end
  | [] => fall_back p t star
  end.

Fixpoint glob_loop (fuel : nat) (p t : str) (star : Star) : option bool :=
  match fuel with
  | O => None
  | S fuel' =>
      match glob_turn p t star with
      | Return b => Some b
      | Continue p t star => glob_loop fuel' p t star
      end
  end.

(** The number of turns the loop may take, linear in the product of the
    lengths. *)
Definition glob_fuel (pattern text : str) : nat :=
  S (S (length text) * (2 + length pattern) + length pattern).

Definition glob_match (pattern text : str) : bool :=
  default false (glob_loop (glob_fuel pattern text) pattern text None).

(** ** The reference: what a pattern matches, by recursion on it *)

Fixpoint some_suffix (f : str -> bool) (t : str) : bool :=
  f t || match t with [] => false | _ :: t' => some_suffix f t' end.

Fixpoint glob_spec (pattern text : str) : bool :=
  match pattern with
  | [] => is_empty text
  | c :: pattern' =>
      if (c =? STAR)%N then some_suffix (glob_spec pattern') text
      else match text with
           | d :: text' => char_matches c d && glob_spec pattern' text'
           | [] => false
           end
  end.

Lemma some_suffix_true f t : some_suffix f t = true <-> exists a b, t = a ++ b /\ f b = true.
Proof using Type.
  induction t as [|c t IH]; simpl.
  - rewrite orb_false_r. split; [by exists [], []|].
    intros (a & b & E & Hf). symmetry in E. by apply app_nil in E as [-> ->].
  - rewrite orb_true_iff, IH. split.
    + intros [Hf|(a & b & -> & Hf)]; [by exists [], (c :: t)|by exists (c :: a), b].
    + intros ([|x a] & b & E & Hf); simpl in E; [left; by subst|].
      injection E as -> ->. right. by exists a, b.
Qed.

Lemma some_suffix_step f t :
  some_suffix f t = f t || match t with [] => false | _ :: t' => some_suffix f t' end.
Proof using Type. by destruct t. Qed.

Lemma glob_spec_star p t : glob_spec (STAR :: p) t = some_suffix (glob_spec p) t.
Proof using Type. done. Qed.

Lemma some_suffix_idemp f t : some_suffix (some_suffix f) t = some_suffix f t.
Proof using Type.
  apply eq_true_iff_eq. rewrite !some_suffix_true. split.
  - intros (a & b & -> & (a' & b' & -> & Hf)%some_suffix_true). exists (a ++ a'), b'.
    by rewrite app_assoc.
  - intros (a & b & -> & Hf). exists a, b. split; [done|]. apply some_suffix_true. by exists [], b.
Qed.

Lemma skip_stars_spec p t :
  glob_spec (STAR :: p) t = glob_spec (STAR :: skip_stars p) t.
Proof using Type.
  induction p as [|c p IH]; [done|]. simpl skip_stars.
  destruct (N.eqb_spec c STAR) as [->|]; [|done].
  rewrite <- IH. cbn [glob_spec]. change (STAR =? STAR)%N with true. cbv iota.
  apply some_suffix_idemp.
Qed.

Lemma skip_stars_length p : length (skip_stars p) <= length p.
Proof using Type. induction p as [|c p IH]; simpl; [lia|]. destruct (c =? STAR)%N; simpl; lia. Qed.

(** ** The loop's invariant *)

(** Characters without a star. *)
Definition literal (l : str) : Prop := Forall (fun c => c <> STAR) l.

(** Since the last [*] the loop consumed a literal part of the pattern and as
    many characters of the text. *)
Definition star_inv (p t : str) (star : Star) : Prop :=
  match star with
  | None => True
  | Some (rp, rt) => exists lit txt, rp = lit ++ p /\ rt = txt ++ t /\ literal lit
                                     /\ length lit = length txt
  end.

(** What the state still accepts. *)
Definition accepts (p t : str) (star : Star) : bool :=
  glob_spec p t || match star with
                   | Some (rp, _ :: rt') => some_suffix (glob_spec rp) rt'
                   | _ => false
                   end.

Lemma glob_spec_literal lit p t :
  literal lit -> glob_spec (lit ++ p) t = true ->
  exists a b, t = a ++ b /\ length a = length lit /\ glob_spec p b = true.
Proof using Type.
  intros Hl. revert t. induction Hl as [|c lit Hc Hl IH]; intros t; simpl.
  - intros Hg. by exists [], t.
  - destruct (N.eqb_spec c STAR); [done|]. destruct t as [|d t]; [done|].
    intros [_ (a & b & -> & Hlen & Hg)%IH]%andb_true_iff. exists (d :: a), b. simpl. auto.
Qed.

(** A later start for an earlier [*] gains nothing once the next [*] is
    reached. *)
Lemma earlier_star_idle p t lit txt a b :
  literal lit -> length lit = length txt -> txt ++ t = a ++ b -> 
  glob_spec (lit ++ STAR :: p) b = true -> glob_spec (STAR :: p) t = true.
Proof using Type.
  intros Hlit Hlen E Hb. apply glob_spec_literal in Hb as (b1 & b2 & -> & Hb1 & Hg); [|done].
  rewrite glob_spec_star in *. apply some_suffix_true in Hg as (c1 & c2 & -> & Hc).
  apply some_suffix_true.
  apply (f_equal (drop (length txt))) in E. rewrite drop_app_length in E.
  exists (drop (length txt) (a ++ b1 ++ c1)), c2. split; [|done].
  rewrite E. replace (a ++ b1 ++ c1 ++ c2) with ((a ++ b1 ++ c1) ++ c2) by (by rewrite <- !app_assoc).
  apply drop_app_le. rewrite !length_app. lia.
Qed.

Lemma fall_back_accepts p t star :
  (glob_spec p t = true -> p = [] /\ t = []) ->
  match fall_back p t star with
  | Return b => accepts p t star = b
  | Continue p' t' star' => accepts p' t' star' = accepts p t star /\ star_inv p' t' star'
  end.
Proof using Type.
  intros Hno. unfold fall_back, accepts.
  destruct (is_empty p && is_empty t) eqn:E.
  { apply andb_true_iff in E as [->%is_empty_true ->%is_empty_true]. done. }
  assert (glob_spec p t = false) as ->.
  { destruct (glob_spec p t) eqn:G; [|done]. by destruct Hno as [-> ->]. }
  destruct star as [[rp [|c rt]]|]; simpl; [done| |done]. split.
  - by rewrite (some_suffix_step _ rt).
  - exists [], []. repeat split; by constructor.
Qed.

Lemma glob_turn_accepts p t star :
  star_inv p t star ->
  match glob_turn p t star with
  | Return b => accepts p t star = b
  | Continue p' t' star' => accepts p' t' star' = accepts p t star /\ star_inv p' t' star'
  end.
Proof using Type.
  intros Hinv. destruct p as [|pch p]; simpl.
  { apply fall_back_accepts. simpl. by rewrite is_empty_true. }
  destruct (N.eqb_spec pch STAR) as [->|Hstar].
  - assert (Hold : accepts (STAR :: p) t star = glob_spec (STAR :: p) t).
    { unfold accepts. destruct star as [[rp [|d rt]]|]; rewrite ?orb_false_r; try done.
      destruct Hinv as (lit & txt & -> & Ert & Hlit & Hlen).
      destruct (some_suffix _ rt) eqn:Es; [|by rewrite orb_false_r].
      apply some_suffix_true in Es as (a & b & -> & Hb).
      by rewrite (earlier_star_idle p t lit txt (d :: a) b) by (rewrite <- ?Ert; done). }
    rewrite Hold, skip_stars_spec. destruct (is_empty (skip_stars p)) eqn:Ee.
    + apply is_empty_true in Ee as ->. rewrite glob_spec_star. apply some_suffix_true.
      exists t, []. by rewrite app_nil_r.
    + split; [|by exists [], []; repeat split; constructor].
      unfold accepts. by rewrite glob_spec_star, (some_suffix_step _ t).
  - destruct t as [|tch t].
    { apply fall_back_accepts. simpl. destruct (N.eqb_spec pch STAR); done. }
    destruct (char_matches pch tch) eqn:Em.
    + unfold accepts. cbn [glob_spec]. destruct (N.eqb_spec pch STAR) as [|_]; [done|].
      rewrite Em. split; [done|]. destruct star as [[rp rt]|]; [|done].
      destruct Hinv as (lit & txt & -> & -> & Hlit & Hlen).
      exists (lit ++ [pch]), (txt ++ [tch]). rewrite <- !app_assoc, !length_app. simpl.
      split; [done|]. split; [done|]. split; [|lia]. apply Forall_app. by repeat constructor.
    + apply fall_back_accepts. cbn [glob_spec]. destruct (N.eqb_spec pch STAR) as [|_]; [done|].
      by rewrite Em.
Qed.

(** ** Turns left *)

Definition turns (m : nat) (text p : str) (star : Star) : nat :=
  match star with Some (_, rt) => length rt | None => S (length text) end * (2 + m) + length p.

Definition bounded (m : nat) (text p t : str) (star : Star) : Prop :=
  length p <= m /\ match star with
                   | Some (rp, rt) => length rp <= m /\ length t <= length rt
                   | None => length t <= length text
                   end.

Lemma fall_back_turns m text p t star :
  bounded m text p t star ->
  match fall_back p t star with
  | Return _ => True
  | Continue p' t' star' => turns m text p' star' < turns m text p star /\ bounded m text p' t' star'
  end.
Proof using Type.
  intros [Hp Hs]. unfold fall_back. destruct (_ && _); [done|].
  destruct star as [[rp [|c rt]]|]; [done| |done]. unfold turns, bounded. simpl in *. lia.
Qed.

Lemma glob_turn_turns m text p t star :
  bounded m text p t star ->
  match glob_turn p t star with
  | Return _ => True
  | Continue p' t' star' => turns m text p' star' < turns m text p star /\ bounded m text p' t' star'
  end.
Proof using Type.
  intros Hb. pose proof Hb as [Hp Hs]. destruct p as [|pch p]; simpl; [by apply fall_back_turns|].
  destruct (pch =? STAR)%N.
  - destruct (is_empty _); [done|]. pose proof (skip_stars_length p) as Hl. simpl in Hp.
    unfold turns, bounded. destruct star as [[rp rt]|]; simpl length; (split; [nia|lia]).
  - destruct t as [|tch t]; [by apply fall_back_turns|].
    destruct (char_matches pch tch); [|by apply fall_back_turns].
    unfold turns, bounded in *. destruct star as [[rp rt]|]; simpl in *; lia.
Qed.

Lemma glob_loop_accepts m text fuel p t star :
  star_inv p t star -> bounded m text p t star -> turns m text p star < fuel ->
  glob_loop fuel p t star = Some (accepts p t star).
Proof using Type.
  revert p t star. induction fuel as [|fuel IH]; intros p t star Hi Hb Hf; [lia|].
  simpl. pose proof (glob_turn_accepts p t star Hi) as Ha.
  pose proof (glob_turn_turns m text p t star Hb) as Ht.
  destruct (glob_turn p t star) as [b|p' t' star']; [by rewrite Ha|].
  destruct Ha as [<- Hi'], Ht as [Hlt Hb']. apply IH; [done|done|lia].
Qed.

(** The matcher decides what the pattern means. For every pattern and text
    the loop ends within a number of turns linear in the product of the two
    lengths, with the answer of the recursive reading ([*] matches every run of
    characters, any other character itself up to case): one backtracking point
    is enough. *)
Theorem glob_match_spec pattern text :
  glob_loop (glob_fuel pattern text) pattern text None = Some (glob_spec pattern text)
  /\ glob_match pattern text = glob_spec pattern text.
Proof using Type.
  assert (E : glob_loop (glob_fuel pattern text) pattern text None = Some (glob_spec pattern text)).
  { rewrite (glob_loop_accepts (length pattern) text); [|done|done|].
    - unfold accepts. by rewrite orb_false_r.
    - unfold turns, glob_fuel. lia. }
  split; [exact E|]. unfold glob_match. by rewrite E.
Qed.

End Glob.
