(* ===== verification/AppIdentity.v ===== *)
(** * Names of applications

    shared/contracts/src/app_identity.rs: the one reduction of a program's name,
    for the rules that are stored and for both sides of a match. *)

From stdpp Require Import base numbers list.
From S2P Require Import Prelude Str AppPath.

Open Scope nat_scope.

Inductive ExecutableNaming : Set := WindowsExe | AsNamed.

Record ExactNameChanges : Set := mkExactNameChanges {
  stripped_path_from : option str;
  appended_exe_to : option str;
}.

(** [/] and [\], the separators of either platform. *)
Definition is_slash (c : char) : bool := (c =? SLASH)%N || (c =? BACKSLASH)%N.

(** [split(['/', '\\']).rfind(|s| !s.is_empty()).unwrap_or(raw)]. *)
Definition last_component (raw : str) : str :=
  default raw (last (List.filter (fun s => negb (is_empty s)) (split is_slash raw))).

Section Identity.
Context `{Unicode}.

Definition canonical_exact_process_name (raw : str) (naming : ExecutableNaming)
  : str * ExactNameChanges :=
  let raw := trim raw in
  let path := contains_char (is_char SLASH) raw || contains_char (is_char BACKSLASH) raw in
  let stripped_path_from := if path then Some raw else None in
  let filename := if path then last_component raw else raw in
  let lowercased := to_lowercase filename in
  if match naming with AsNamed => true | WindowsExe => ends_with (u ".exe") lowercased end
  then (lowercased, {| stripped_path_from := stripped_path_from; appended_exe_to := None |})
  else (lowercased ++ u ".exe",
        {| stripped_path_from := stripped_path_from; appended_exe_to := Some filename |}).

Definition canonical_glob_process_pattern (raw : str) : str := to_lowercase (trim raw).

Definition app_match_key (raw : str) : str :=
  let trimmed := trim raw in
  let name := default trimmed (last (split is_slash trimmed)) in
  let lowered := to_lowercase name in
  match strip_suffix (u ".exe") lowered with
  | Some stem => if is_empty stem then lowered else stem
  | None => lowered
  end.

(** ** ASCII names *)

Lemma lower_slash c : is_slash (char_lower c) = is_slash c.
Proof using Type. apply char_lower_class, upper_not. by vm_compute. Qed.

Lemma trimmed_lower s : trimmed_str s -> trimmed_str (to_ascii_lowercase s).
Proof using Type.
  intros [H1 H2]. split.
  - destruct s as [|c s]; [done|]. csimpl. intros d t [= <- _]. rewrite lower_whitespace. by eapply H1.
  - rewrite last_is_lower by apply lower_whitespace. done.
Qed.

Lemma trimmed_app_exe s : trimmed_str s -> s <> [] -> trimmed_str (s ++ u ".exe").
Proof using Type.
  intros [H1 _] Hne. split.
  - destruct s as [|c s]; [done|]. intros d t [= <- _]. by eapply H1.
  - unfold last_is. rewrite last_app. done.
Qed.

(** The key of a plain name. *)
Lemma app_match_key_plain l :
  is_ascii l = true -> trimmed_str l -> existsb is_slash l = false -> to_ascii_lowercase l = l ->
  app_match_key l = match strip_suffix (u ".exe") l with
                    | Some stem => if is_empty stem then l else stem
                    | None => l
                    end.
Proof using Type.
  intros Ha Ht Hs Hl. unfold app_match_key. rewrite trim_trimmed, split_none by done. simpl.
  by rewrite to_lowercase_ascii, Hl.
Qed.

Lemma has_slash raw :
  contains_char (is_char SLASH) raw || contains_char (is_char BACKSLASH) raw = existsb is_slash raw.
Proof using Type.
  unfold contains_char. induction raw as [|c raw IH]; [done|]. cbn [existsb]. rewrite <- IH.
  unfold is_slash, is_char. rewrite (N.eqb_sym SLASH), (N.eqb_sym BACKSLASH).
  destruct (c =? SLASH)%N, (c =? BACKSLASH)%N; simpl; try done; by rewrite ?orb_true_r.
Qed.

(** The file name the reduction keeps is the last piece of the path, when there
    is one. *)
Lemma filename_last_piece raw f :
  last (split is_slash raw) = Some f -> f <> [] ->
  (if existsb is_slash raw then last_component raw else raw) = f.
Proof using Type.
  intros Hf Hne. destruct (existsb is_slash raw) eqn:E.
  - unfold last_component. apply last_Some in Hf as [l ->].
    rewrite List.filter_app. simpl. destruct (is_empty f) eqn:Ef; [by apply is_empty_true in Ef|].
    simpl. by rewrite last_snoc.
  - rewrite split_none in Hf by done. by injection Hf.
Qed.

Lemma last_piece_facts raw f :
  is_ascii raw = true -> last (split is_slash (trim raw)) = Some f ->
  is_ascii f = true /\ existsb is_slash f = false.
Proof using Type.
  intros Ha Hf. apply last_Some in Hf as [l Hf].
  assert (Hin : f ∈ split is_slash (trim raw)) by (rewrite Hf; apply elem_of_app; right; left).
  split; [|by apply split_pieces in Hin].
  apply forallb_forall. intros c Hc%list_elem_of_In. unfold is_ascii in Ha.
  rewrite forallb_forall in Ha. apply Ha, list_elem_of_In, trim_elem. by eapply split_piece_elem.
Qed.

(** A plain name in lower case: ASCII, trimmed, without a separator. *)
Definition plain_name (l : str) : Prop :=
  is_ascii l = true /\ trimmed_str l /\ existsb is_slash l = false /\ to_ascii_lowercase l = l.

Lemma plain_lower raw f :
  is_ascii raw = true -> last (split is_slash (trim raw)) = Some f -> trimmed_str f ->
  plain_name (to_ascii_lowercase f).
Proof using Type.
  intros Ha Hf Ht. destruct (last_piece_facts raw f Ha Hf) as [Hfa Hfs].
  split; [by apply to_ascii_lowercase_ascii|]. split; [by apply trimmed_lower|].
  split; [rewrite existsb_lower; [done|apply lower_slash]|apply to_ascii_lowercase_idemp].
Qed.

Lemma plain_app_exe l : plain_name l -> l <> [] -> plain_name (l ++ u ".exe").
Proof using Type.
  intros (La & Lt & Ls & Ll) Hne. split; [by rewrite is_ascii_app, La|].
  split; [by apply trimmed_app_exe|]. split; [by rewrite existsb_app, Ls|].
  unfold to_ascii_lowercase in *. by rewrite fmap_app, Ll.
Qed.

(** What is stored for a name whose file name is [f]. *)
Lemma exact_name_value raw naming f :
  is_ascii raw = true -> last (split is_slash (trim raw)) = Some f -> f <> [] ->
  fst (canonical_exact_process_name raw naming)
  = let l := to_ascii_lowercase f in
    if match naming with AsNamed => true | WindowsExe => ends_with (u ".exe") l end
    then l else l ++ u ".exe".
Proof using Type.
  intros Ha Hf Hne. destruct (last_piece_facts raw f Ha Hf) as [Hfa Hfs].
  unfold canonical_exact_process_name. cbv zeta.
  rewrite has_slash, (filename_last_piece (trim raw) f), to_lowercase_ascii by done.
  by case_match.
Qed.

(** The stored form keeps the key the name is matched by. *)
Lemma exact_name_key raw naming f :
  is_ascii raw = true -> last (split is_slash (trim raw)) = Some f -> f <> [] -> trimmed_str f ->
  app_match_key (fst (canonical_exact_process_name raw naming)) = app_match_key raw.
Proof using Type.
  intros Ha Hf Hne Ht. destruct (last_piece_facts raw f Ha Hf) as [Hfa _].
  pose proof (plain_lower raw f Ha Hf Ht) as Hp.
  rewrite (exact_name_value raw naming f) by done. cbv zeta. set (l := to_ascii_lowercase f) in *.
  assert (Hkey : app_match_key raw = app_match_key l).
  { destruct Hp as (La & Lt & Ls & Ll). rewrite (app_match_key_plain l) by done.
    unfold app_match_key. rewrite Hf. simpl. by rewrite to_lowercase_ascii. }
  assert (Lne : l <> []) by (by destruct f).
  rewrite Hkey. destruct (match naming with AsNamed => true | WindowsExe => _ end) eqn:En; [done|].
  destruct (plain_app_exe l Hp Lne) as (? & ? & ? & ?). destruct Hp as (La & Lt & Ls & Ll).
  rewrite !app_match_key_plain by done.
  assert (strip_suffix (u ".exe") (l ++ u ".exe") = Some l) as -> by (by apply strip_suffix_Some).
  destruct (is_empty l) eqn:E0; [by apply is_empty_true in E0|].
  destruct naming; [|done]. unfold ends_with in En. by destruct (strip_suffix _ l).
Qed.

(** Both sides of an application match agree on a stored name: reducing an
    ASCII name (or path) to the form that is stored keeps the key it is matched
    by, and reducing a stored name again changes nothing and reports nothing. *)
Theorem exact_name_stable raw naming f :
  is_ascii raw = true -> last (split is_slash (trim raw)) = Some f -> f <> [] -> trimmed_str f ->
  let stored := fst (canonical_exact_process_name raw naming) in
  app_match_key stored = app_match_key raw
  /\ canonical_exact_process_name stored naming
     = (stored, {| stripped_path_from := None; appended_exe_to := None |}).
Proof using Type.
  intros Ha Hf Hne Ht stored. split; [by apply (exact_name_key raw naming f)|].
  assert (Hexact : forall s, plain_name s ->
    (match naming with AsNamed => true | WindowsExe => ends_with (u ".exe") s end) = true ->
    canonical_exact_process_name s naming
    = (s, {| stripped_path_from := None; appended_exe_to := None |})).
  { intros s (Sa & St & Ss & Sl) Sn. unfold canonical_exact_process_name.
    rewrite trim_trimmed, has_slash, Ss by done. rewrite to_lowercase_ascii, Sl by done.
    by rewrite Sn. }
  pose proof (plain_lower raw f Ha Hf Ht) as Hp. unfold stored.
  rewrite (exact_name_value raw naming f) by done. cbv zeta.
  destruct (match naming with AsNamed => true | WindowsExe => _ end) eqn:En; [by apply Hexact|].
  apply Hexact; [apply plain_app_exe; [done|by destruct f]|].
  destruct naming; [|done]. apply ends_with_true. eauto.
Qed.

End Identity.

Lemma exact_name_stable_witness :
  let stored := fst (@canonical_exact_process_name ascii_unicode (u " C:\Apps\Viewer ") WindowsExe) in
  stored = u "viewer.exe"
  /\ @app_match_key ascii_unicode stored = @app_match_key ascii_unicode (u " C:\Apps\Viewer ").
Proof.
  split; [by vm_compute|].
  apply (@exact_name_stable ascii_unicode (u " C:\Apps\Viewer ") WindowsExe (u "Viewer"));
    [by vm_compute|by vm_compute|by vm_compute|].
  split; [|by vm_compute]. intros c t E. vm_compute in E. injection E as <- _. by vm_compute.
Defined.

(** A file name that starts with a space does not survive a second reduction. *)
Example exact_name_space_not_stable :
  let stored := fst (@canonical_exact_process_name ascii_unicode (u "C:\apps\ tool.exe") WindowsExe) in
  stored = u " tool.exe"
  /\ fst (@canonical_exact_process_name ascii_unicode stored WindowsExe) = u "tool.exe".
Proof. by vm_compute. Qed.
