(* ===== verification/AutoRule.v ===== *)
(** * Provenance of app-authored rules

    shared/contracts/src/auto_rule.rs: who wrote a rule, and the inline comment
    of the rules file that carries it. Writing the comment and reading it back
    must agree, or a rule the application wrote would turn into the user's. *)

From stdpp Require Import base numbers list.
From S2P Require Import Prelude Str AppPath.

Open Scope nat_scope.

Definition AUTO_REASON_TOKEN : str := u "auto:".
Definition AUTO_ANCHOR_TOKEN : str := u "anchor:".
Definition AUTO_ADDED_TOKEN : str := u "added:".

Definition REASON_SLUG_SITE_COMPANION : str := u "site-companion".
Definition REASON_SLUG_VPN_CLIENT_BOOTSTRAP : str := u "vpn-client-bootstrap".
Definition REASON_SLUG_USER_CONFIRMED : str := u "user-confirmed".
Definition REASON_SLUG_BLOCK_NOTICE_ROUTED : str := u "block-notice-routed".

Definition has_whitespace (s : str) : bool := contains_char is_whitespace s.

(** [str::split_whitespace]. *)
Definition split_whitespace (s : str) : list str :=
  List.filter (fun p => negb (is_empty p)) (split is_whitespace s).

Definition sanitize_token (value : str) : str :=
  let trimmed := trim value in
  if negb (has_whitespace trimmed) then trimmed
  else str_join [DASH] (split_whitespace trimmed).

Inductive AutoRuleReason : Set :=
| SiteCompanion
| VpnClientBootstrap
| UserConfirmed
| BlockNoticeRouted
| Other (slug : str).

#[export] Instance AutoRuleReason_eq_dec : EqDecision AutoRuleReason.
Proof. solve_decision. Defined.

Definition as_slug (r : AutoRuleReason) : str :=
  match r with
  | SiteCompanion => REASON_SLUG_SITE_COMPANION
  | VpnClientBootstrap => REASON_SLUG_VPN_CLIENT_BOOTSTRAP
  | UserConfirmed => REASON_SLUG_USER_CONFIRMED
  | BlockNoticeRouted => REASON_SLUG_BLOCK_NOTICE_ROUTED
  | Other slug => slug
  end.

Definition from_slug (slug : str) : AutoRuleReason :=
  if str_eqb slug REASON_SLUG_SITE_COMPANION then SiteCompanion
  else if str_eqb slug REASON_SLUG_VPN_CLIENT_BOOTSTRAP then VpnClientBootstrap
  else if str_eqb slug REASON_SLUG_USER_CONFIRMED then UserConfirmed
  else if str_eqb slug REASON_SLUG_BLOCK_NOTICE_ROUTED then BlockNoticeRouted
  else Other (sanitize_token slug).

(** The only kind of origin is [Auto]. *)
Record RuleOrigin : Set := Auto {
  reason : AutoRuleReason;
  anchor : str;
  added : str;
}.

#[export] Instance RuleOrigin_eq_dec : EqDecision RuleOrigin.
Proof. solve_decision. Defined.

Definition to_provenance_comment (o : RuleOrigin) : str :=
  AUTO_REASON_TOKEN ++ sanitize_token (as_slug (reason o))
  ++ (if negb (is_empty (trim (anchor o)))
      then SPACE :: AUTO_ANCHOR_TOKEN ++ sanitize_token (anchor o) else [])
  ++ (if negb (is_empty (trim (added o)))
      then SPACE :: AUTO_ADDED_TOKEN ++ sanitize_token (added o) else []).

Record ProvenanceComment : Set := mkProvenanceComment {
  origin : RuleOrigin;
  note : option str;
  complete : bool;
}.

(** The variables of the reading loop. *)
Record Tokens : Set := mkTokens {
  tok_reason : option str;
  tok_anchor : option str;
  tok_added : option str;
}.

(** The first token of [rest] and what follows it. *)
Fixpoint next_token (rest : str) : str * str :=
  match rest with
  | [] => ([], [])
  | c :: rest' =>
      if is_whitespace c then ([], rest)
      else let '(token, after) := next_token rest' in (c :: token, after)
  end.

(** Records a token; [None] for one that is not of the structured part. *)
Definition read_token (token : str) (ts : Tokens) : option Tokens :=
  match strip_prefix AUTO_REASON_TOKEN token with
  | Some value => Some {| tok_reason := Some value; tok_anchor := tok_anchor ts; tok_added := tok_added ts |}
  | None =>
  match strip_prefix AUTO_ANCHOR_TOKEN token with
  | Some value => Some {| tok_reason := tok_reason ts; tok_anchor := Some value; tok_added := tok_added ts |}
  | None =>
  match strip_prefix AUTO_ADDED_TOKEN token with
  | Some value => Some {| tok_reason := tok_reason ts; tok_anchor := tok_anchor ts; tok_added := Some value |}
  | None => None
  end end end.

(** The [while] loop; a turn that goes on drops at least one character, so the
    length of the text is enough fuel. *)
Fixpoint read_tokens (fuel : nat) (rest : str) (ts : Tokens) : Tokens * str :=
  match fuel with
  | O => (ts, rest)
  | S fuel' =>
      if is_empty rest then (ts, rest)
      else let '(token, after) := next_token rest in
           match read_token token ts with
           | Some ts => read_tokens fuel' (trim_start_matches is_whitespace after) ts
           | None => (ts, rest)
           end
  end.

Definition parse_provenance_comment (comment : str) : option ProvenanceComment :=
  let rest := trim comment in
  let '(ts, rest) := read_tokens (length rest) rest (mkTokens None None None) in
  match tok_reason ts with
  | None | Some [] => None
  | Some slug =>
      Some {| origin := {| reason := from_slug slug;
                           anchor := default [] (tok_anchor ts);
                           added := default [] (tok_added ts) |};
              note := if is_empty rest then None else Some rest;
              complete := match tok_anchor ts, tok_added ts with
                          | Some _, Some _ => true | _, _ => false end |}
  end.

(** ** Lemmas *)

(** A value that is one token of the file. *)
Definition one_token (s : str) : Prop := s <> [] /\ has_whitespace s = false.

(** A reason that its slug names: every reason read from a slug. *)
Definition reason_wf (r : AutoRuleReason) : Prop :=
  one_token (as_slug r) /\ from_slug (as_slug r) = r.

(** Free text as [parse_provenance_comment] leaves it: trimmed, and not led by
    a token of the structured part. *)
Definition note_wf (n : str) : Prop :=
  n <> [] /\ trimmed_str n /\ forall ts, read_token (fst (next_token n)) ts = None.

Lemma trim_token s : has_whitespace s = false -> trim s = s.
Proof. apply trim_id. Qed.

Lemma sanitize_one_token s : one_token s -> sanitize_token s = s.
Proof. intros [_ Hs]. unfold sanitize_token. by rewrite trim_token, Hs. Qed.

Lemma trim_start_cons_ws c s :
  is_whitespace c = true -> trim_start_matches is_whitespace (c :: s) = trim_start_matches is_whitespace s.
Proof. simpl. by intros ->. Qed.

Lemma next_token_app t after :
  has_whitespace t = false ->
  match after with [] => True | c :: _ => is_whitespace c = true end ->
  next_token (t ++ after) = (t, after).
Proof.
  intros Ht Ha. induction t as [|c t IH]; simpl.
  - destruct after as [|c after]; [done|]. simpl. by rewrite Ha.
  - apply orb_false_iff in Ht as [Hc Ht]. rewrite Hc. by rewrite IH.
Qed.

(** One turn of the loop over a token of the structured part. *)
Lemma read_tokens_step fuel t after ts ts' :
  t <> [] -> has_whitespace t = false -> read_token t ts = Some ts' ->
  match after with [] => True | c :: _ => is_whitespace c = true end ->
  read_tokens (S fuel) (t ++ after) ts
  = read_tokens fuel (trim_start_matches is_whitespace after) ts'.
Proof.
  intros Hne Ht Hr Ha. cbn [read_tokens].
  destruct (is_empty (t ++ after)) eqn:E.
  { apply is_empty_true, app_nil in E as [-> _]. done. }
  by rewrite next_token_app, Hr.
Qed.

Lemma read_tokens_stop fuel rest ts :
  rest = [] \/ (forall ts, read_token (fst (next_token rest)) ts = None) ->
  read_tokens fuel rest ts = (ts, rest).
Proof.
  intros H. destruct fuel as [|fuel]; [done|]. simpl. destruct (is_empty rest) eqn:E; [done|].
  destruct H as [->|H]; [done|]. specialize (H ts).
  destruct (next_token rest) as [t a]. simpl in H. by rewrite H.
Qed.

(** A field of the comment: empty, or one token. *)
Definition field_wf (s : str) : Prop := s = [] \/ one_token s.

(** The parts the comment is made of, in the order they are written. *)
Definition field_part (prefix s : str) : str := if is_empty s then [] else SPACE :: prefix ++ s.
Definition note_part (n : option str) : str := match n with Some n => SPACE :: n | None => [] end.

Lemma provenance_parts o :
  reason_wf (reason o) -> field_wf (anchor o) -> field_wf (added o) ->
  to_provenance_comment o
  = (AUTO_REASON_TOKEN ++ as_slug (reason o)) ++ field_part AUTO_ANCHOR_TOKEN (anchor o)
    ++ field_part AUTO_ADDED_TOKEN (added o).
Proof.
  intros [Hr _] Ha Hd. unfold to_provenance_comment. rewrite sanitize_one_token by done.
  rewrite <- app_assoc. assert (Hf : forall p s, field_wf s ->
    (if negb (is_empty (trim s)) then SPACE :: p ++ sanitize_token s else []) = field_part p s).
  { intros p s [->|Hs]; [done|]. unfold field_part. rewrite sanitize_one_token by done.
    destruct Hs as [Hne Hws]. rewrite trim_token by done.
    by destruct (is_empty s) eqn:E; [apply is_empty_true in E|]. }
  by rewrite !Hf.
Qed.

Lemma has_whitespace_app s t : has_whitespace (s ++ t) = has_whitespace s || has_whitespace t.
Proof. apply contains_char_app. Qed.

(** The turn over a field, which is no turn at all for an empty one. *)
Lemma read_tokens_field fuel prefix s after ts ts' :
  has_whitespace prefix = false -> field_wf s ->
  (if is_empty s then ts' = ts else read_token (prefix ++ s) ts = Some ts') ->
  match after with [] => True | c :: _ => is_whitespace c = true end ->
  length (field_part prefix s ++ after) <= fuel ->
  exists fuel', length after <= fuel' /\
  read_tokens fuel (trim_start_matches is_whitespace (field_part prefix s ++ after)) ts
  = read_tokens fuel' (trim_start_matches is_whitespace after) ts'.
Proof.
  intros Hp Hs Hr Ha Hf. unfold field_part in *. destruct (is_empty s) eqn:E.
  { subst ts'. exists fuel. split; [done|]. done. }
  destruct Hs as [->|[Hne Hws]]; [done|]. destruct fuel as [|fuel]; [simpl in Hf; lia|].
  exists fuel. rewrite <- app_comm_cons, trim_start_cons_ws by done.
  rewrite <- app_comm_cons in Hf. rewrite length_cons, !length_app in Hf. split; [lia|].
  rewrite trim_start_matches_id.
  - apply read_tokens_step; [by destruct prefix, s|by rewrite has_whitespace_app, Hp|done|done].
  - destruct ((prefix ++ s) ++ after) as [|c l] eqn:Ec; [done|].
    destruct (prefix ++ s) as [|d ps] eqn:Ep; [by destruct prefix, s|].
    injection Ec as -> _. assert (Hw : has_whitespace (prefix ++ s) = false)
      by (by rewrite has_whitespace_app, Hp, Hws).
    rewrite Ep in Hw. by apply orb_false_iff in Hw as [? _].
Qed.

Lemma last_is_app p s t : t <> [] -> last_is p (s ++ t) = last_is p t.
Proof.
  intros Ht. unfold last_is. rewrite last_app. destruct (last t) eqn:E; [done|].
  by apply last_None in E.
Qed.

Lemma last_is_no_whitespace s : has_whitespace s = false -> last_is is_whitespace s = false.
Proof.
  intros Hs. unfold last_is. destruct (last s) as [c|] eqn:E; [|done].
  apply last_Some in E as [l ->]. unfold has_whitespace in Hs. rewrite contains_char_app in Hs.
  apply orb_false_iff in Hs as [_ Hs]. simpl in Hs. by rewrite orb_false_r in Hs.
Qed.

Lemma last_is_field_part prefix s t :
  has_whitespace prefix = false -> field_wf s -> last_is is_whitespace t = false ->
  last_is is_whitespace (t ++ field_part prefix s) = false.
Proof.
  intros Hp Hs Ht. unfold field_part. destruct (is_empty s) eqn:E; [by rewrite app_nil_r|].
  destruct Hs as [->|[Hne Hws]]; [done|]. rewrite last_is_app by done.
  change (SPACE :: prefix ++ s) with ((SPACE :: prefix) ++ s).
  rewrite last_is_app by done. by apply last_is_no_whitespace.
Qed.

(** The comment written for an origin, with its free text, is trimmed. *)
Lemma provenance_trimmed o n :
  reason_wf (reason o) -> field_wf (anchor o) -> field_wf (added o) ->
  (forall t, n = Some t -> t <> [] /\ trimmed_str t) ->
  trimmed_str (to_provenance_comment o ++ note_part n).
Proof.
  intros Hr Ha Hd Hn. rewrite provenance_parts by done. pose proof Hr as [[Hrne Hrw] Hslug].
  set (head := AUTO_REASON_TOKEN ++ as_slug (reason o)).
  assert (Hhw : has_whitespace head = false) by (unfold head; by rewrite has_whitespace_app).
  split; [by intros c t [= <- _]|]. destruct n as [t|]; cbn [note_part].
  - destruct (Hn t eq_refl) as (Hne & [_ Hl]). rewrite last_is_app by done.
    exact (eq_trans (last_is_app _ [SPACE] t Hne) Hl).
  - rewrite app_nil_r, app_assoc. apply last_is_field_part; [done|done|].
    apply last_is_field_part; [done|done|]. by apply last_is_no_whitespace.
Qed.

(** Writing and reading back. *)
Lemma provenance_reads o n :
  reason_wf (reason o) -> field_wf (anchor o) -> field_wf (added o) ->
  (forall t, n = Some t -> note_wf t) ->
  parse_provenance_comment (to_provenance_comment o ++ note_part n)
  = Some {| origin := o; note := n;
            complete := negb (is_empty (anchor o)) && negb (is_empty (added o)) |}.
Proof.
  intros Hr Ha Hd Hn. rewrite provenance_parts by done. pose proof Hr as [[Hrne Hrw] Hslug].
  pose proof (provenance_trimmed o n Hr Ha Hd ltac:(intros t E; destruct (Hn t E); naive_solver)) as Htrim.
  rewrite provenance_parts in Htrim by done.
  set (head := AUTO_REASON_TOKEN ++ as_slug (reason o)) in *.
  assert (Hhw : has_whitespace head = false) by (unfold head; by rewrite has_whitespace_app).
  unfold parse_provenance_comment. rewrite (trim_trimmed _ Htrim). clear Htrim.
  rewrite <- !app_assoc.
  set (rest := field_part AUTO_ANCHOR_TOKEN _ ++ _).
  assert (Hws : forall p s l, match l with [] => True | c :: _ => is_whitespace c = true end ->
    match field_part p s ++ l with [] => True | c :: _ => is_whitespace c = true end).
  { intros p s l Hl. unfold field_part. by destruct (is_empty s). }
  assert (Hnp : match note_part n with [] => True | c :: _ => is_whitespace c = true end)
    by (by destruct n).
  assert (El : length (head ++ rest) = S (length (as_slug (reason o)) + 4 + length rest)).
  { unfold head. rewrite !length_app. change (length AUTO_REASON_TOKEN) with 5. lia. }
  rewrite El, (read_tokens_step _ head rest _ (mkTokens (Some (as_slug (reason o))) None None));
    [|done|done|done|unfold rest; apply Hws, Hws, Hnp].
  unfold rest at 2.
  destruct (read_tokens_field (length (as_slug (reason o)) + 4 + length rest)
    AUTO_ANCHOR_TOKEN (anchor o) (field_part AUTO_ADDED_TOKEN (added o) ++ note_part n)
    (mkTokens (Some (as_slug (reason o))) None None)
    (mkTokens (Some (as_slug (reason o))) (if is_empty (anchor o) then None else Some (anchor o)) None))
    as (f1 & Hf1 & E1); [done|done|by destruct (is_empty (anchor o))|apply Hws, Hnp|unfold rest; lia|].
  rewrite E1. clear E1.
  destruct (read_tokens_field f1 AUTO_ADDED_TOKEN (added o) (note_part n)
    (mkTokens (Some (as_slug (reason o))) (if is_empty (anchor o) then None else Some (anchor o)) None)
    (mkTokens (Some (as_slug (reason o))) (if is_empty (anchor o) then None else Some (anchor o))
       (if is_empty (added o) then None else Some (added o))))
    as (f2 & Hf2 & E2); [done|done|by destruct (is_empty (added o))|done|done|].
  rewrite E2. clear E2.
  assert (En : trim_start_matches is_whitespace (note_part n) = default [] n).
  { destruct n as [t|]; [|done]. simpl. destruct (Hn t eq_refl) as (_ & [Hc _] & _).
    apply trim_start_matches_id. destruct t; [done|]. by eapply Hc. }
  rewrite En, read_tokens_stop.
  2: { destruct n as [t|]; [right|by left]. by destruct (Hn t eq_refl) as (_ & _ & ?). }
  cbn [tok_reason tok_anchor tok_added]. destruct (as_slug (reason o)) as [|c sl]; [done|].
  rewrite Hslug. f_equal.
  destruct o as [r a d]. cbn [reason anchor added] in *.
  destruct a, d, n as [t|]; simpl; try done; by destruct (Hn t eq_refl) as (? & _); destruct t.
Qed.

(** The provenance of a rule survives the rules file: the comment written
    for an origin, followed by any free text, reads back as the same origin and
    the same text, complete exactly when both fields were there. *)
Theorem provenance_roundtrip o n :
  reason_wf (reason o) -> field_wf (anchor o) -> field_wf (added o) ->
  (forall t, n = Some t -> note_wf t) ->
  parse_provenance_comment (to_provenance_comment o ++ note_part n)
  = Some {| origin := o; note := n;
            complete := negb (is_empty (anchor o)) && negb (is_empty (added o)) |}.
Proof. apply provenance_reads. Qed.

Lemma provenance_roundtrip_witness :
  let o := Auto SiteCompanion (u "video.example") [] in
  parse_provenance_comment (to_provenance_comment o ++ note_part (Some (u "seen twice")))
  = Some {| origin := o; note := Some (u "seen twice"); complete := false |}.
Proof.
  apply (provenance_roundtrip (Auto SiteCompanion (u "video.example") []) (Some (u "seen twice"))).
  - split; [split; by vm_compute|by vm_compute].
  - right. split; by vm_compute.
  - by left.
  - intros t [= <-]. split; [by vm_compute|]. split; [|done].
    split; [|by vm_compute]. intros c t E. vm_compute in E. injection E as <- _. by vm_compute.
Defined.
