(* ===== verification/HostMatch.v ===== *)
(** * Host names against rule labels

    core/domain/src/decision_matching.rs: the readings of a host name every
    address rule goes through. The source compares byte suffixes and always
    cuts at a dot, so a cut is a position between characters. *)

From stdpp Require Import base numbers list.
From S2P Require Import Prelude Str.

Open Scope nat_scope.

(** [hostname] ends with [.zone_name], with something before the dot. *)
Definition match_zone (hostname zone_name : str) : bool :=
  if is_empty zone_name || is_empty hostname then false
  else match strip_suffix (DOT :: zone_name) hostname with
       | Some rest => negb (is_empty rest)
       | None => false
       end.

Definition zone_ranks_as_suffix (zone_name : str) : bool := contains_char (is_char DOT) zone_name.

Definition match_suffix_domain (hostname label : str) : bool :=
  if is_empty label || is_empty hostname then false
  else str_eqb hostname label || match_zone hostname label.

Definition COUNTRY_SECOND_LEVELS : list str :=
  [u "ac"; u "co"; u "com"; u "edu"; u "go"; u "gob"; u "gov"; u "ltd"; u "mil"; u "ne"; u "net";
   u "nom"; u "or"; u "org"; u "plc"; u "sch"].

Definition OTHER_TWO_LABEL_ZONES : list str := [u "msk.ru"; u "spb.ru"].

(** Whether the last two labels are a zone together. *)
Definition two_label_zone (sld tld : str) : bool :=
  ((byte_len tld =? 2) && forallb is_ascii_alphabetic tld
   && existsb (fun s => eq_ignore_ascii_case s sld) COUNTRY_SECOND_LEVELS)
  || existsb (fun z => eq_ignore_ascii_case z (sld ++ DOT :: tld)) OTHER_TWO_LABEL_ZONES.

(** The label after the last dot. *)
Definition last_label (s : str) : str :=
  match rsplit_once DOT s with Some (_, label) => label | None => s end.

Definition site_zone (hostname : str) : option str :=
  match rsplit_once DOT hostname with
  | None => None
  | Some (rest, tld) =>
      if is_empty tld then None
      else
        let sld := last_label rest in
        let two_labels := sld ++ DOT :: tld in
        if negb (two_label_zone sld tld) then Some tld
        else if byte_len two_labels <? byte_len hostname then Some two_labels else None
  end.

Definition match_any_zone_domain (hostname base : str) : option str :=
  if is_empty base then None
  else match site_zone hostname with
       | None => None
       | Some zone =>
           match strip_suffix (DOT :: zone) hostname with
           | None => None
           | Some site =>
               if negb (match_suffix_domain site base) then None
               else Some (base ++ DOT :: zone)
           end
       end.

(** ** What they decide *)

Lemma match_zone_true hostname zone :
  match_zone hostname zone = true <->
  zone <> [] /\ exists pre, pre <> [] /\ hostname = pre ++ DOT :: zone.
Proof.
  unfold match_zone. destruct (is_empty zone) eqn:Ez; simpl.
  { apply is_empty_true in Ez. naive_solver. }
  apply is_empty_false in Ez. destruct (is_empty hostname) eqn:Eh.
  { apply is_empty_true in Eh as ->. split; [done|].
    intros (_ & pre & Hp & E). by destruct pre. }
  destruct (strip_suffix (DOT :: zone) hostname) as [r|] eqn:E.
  - apply strip_suffix_Some in E as ->. rewrite negb_true_iff, is_empty_false. split; [eauto|].
    intros (_ & pre & Hp & E). by apply app_inj_2 in E as [-> _].
  - split; [done|]. intros (_ & pre & Hp & E'). apply strip_suffix_Some in E'. congruence.
Qed.

Lemma match_suffix_domain_true hostname label :
  match_suffix_domain hostname label = true <->
  label <> [] /\ (hostname = label \/ exists pre, pre <> [] /\ hostname = pre ++ DOT :: label).
Proof.
  unfold match_suffix_domain. destruct (is_empty label) eqn:El; simpl.
  { apply is_empty_true in El. naive_solver. }
  apply is_empty_false in El. destruct (is_empty hostname) eqn:Eh.
  { apply is_empty_true in Eh as ->. split; [done|].
    intros (_ & [?|(pre & Hp & E)]); [by subst|by destruct pre]. }
  rewrite orb_true_iff, str_eqb_eq, match_zone_true. naive_solver.
Qed.

Lemma last_label_app s t : last_label (s ++ DOT :: t) = last_label t.
Proof.
  unfold last_label. destruct (rsplit_once DOT t) as [[a b]|] eqn:E.
  - apply rsplit_once_Some in E as [-> Hb].
    assert (rsplit_once DOT (s ++ DOT :: a ++ DOT :: b) = Some (s ++ DOT :: a, b)) as ->; [|done].
    apply rsplit_once_Some. by rewrite <- app_assoc.
  - apply rsplit_once_None in E.
    assert (rsplit_once DOT (s ++ DOT :: t) = Some (s, t)) as ->; [|done].
    by apply rsplit_once_Some.
Qed.

Lemma last_label_suffix s : s = last_label s \/ exists r, s = r ++ DOT :: last_label s.
Proof.
  unfold last_label. destruct (rsplit_once DOT s) as [[a b]|] eqn:E; [|by left].
  apply rsplit_once_Some in E as [-> _]. eauto.
Qed.

Lemma last_label_dotless s : contains_char (is_char DOT) (last_label s) = false.
Proof.
  unfold last_label. destruct (rsplit_once DOT s) as [[a b]|] eqn:E.
  - by apply rsplit_once_Some in E as [_ ?].
  - by apply rsplit_once_None in E.
Qed.

(** The two ways a host has a zone. *)
Lemma site_zone_Some hostname z :
  site_zone hostname = Some z <->
  exists site, hostname = site ++ DOT :: z /\
    ((z <> [] /\ contains_char (is_char DOT) z = false /\ two_label_zone (last_label site) z = false)
     \/ exists sld tld, z = sld ++ DOT :: tld /\ tld <> [] /\ two_label_zone sld tld = true
        /\ contains_char (is_char DOT) sld = false /\ contains_char (is_char DOT) tld = false).
Proof.
  unfold site_zone. split.
  - destruct (rsplit_once DOT hostname) as [[rest tld]|] eqn:E; [|done].
    apply rsplit_once_Some in E as [-> Ht]. destruct (is_empty tld) eqn:Et; [done|].
    apply is_empty_false in Et. destruct (two_label_zone (last_label rest) tld) eqn:E2; simpl.
    + destruct (Nat.ltb_spec (byte_len (last_label rest ++ DOT :: tld)) (byte_len (rest ++ DOT :: tld)))
        as [Hlt|]; [|done].
      intros [= <-]. destruct (last_label_suffix rest) as [Er|[site Er]].
      { rewrite <- Er in Hlt. lia. }
      exists site. split; [rewrite Er at 1; by rewrite <- app_assoc|].
      right. exists (last_label rest), tld. repeat split; try done. apply last_label_dotless.
    + intros [= <-]. exists rest. auto.
  - intros (site & -> & [(Hz & Hd & H2)|(sld & tld & -> & Ht & H2 & Hd1 & Hd2)]).
    + assert (rsplit_once DOT (site ++ DOT :: z) = Some (site, z)) as -> by (by apply rsplit_once_Some).
      destruct (is_empty z) eqn:E; [by apply is_empty_true in E|]. by rewrite H2.
    + assert (rsplit_once DOT (site ++ DOT :: sld ++ DOT :: tld) = Some (site ++ DOT :: sld, tld)) as ->.
      { apply rsplit_once_Some. by rewrite <- app_assoc. }
      destruct (is_empty tld) eqn:E; [by apply is_empty_true in E|].
      rewrite last_label_app. assert (last_label sld = sld) as ->.
      { unfold last_label. apply rsplit_once_None in Hd1. by rewrite Hd1. }
      rewrite H2. simpl. destruct (Nat.ltb_spec (byte_len (sld ++ DOT :: tld))
        (byte_len (site ++ DOT :: sld ++ DOT :: tld))) as [|Hge]; [done|].
      rewrite (byte_len_app site), byte_len_cons in Hge. pose proof (len_utf8_pos DOT). lia.
Qed.

Lemma match_any_zone_domain_Some hostname base name :
  match_any_zone_domain hostname base = Some name <->
  base <> [] /\ exists site zone, hostname = site ++ DOT :: zone /\ site_zone hostname = Some zone
    /\ match_suffix_domain site base = true /\ name = base ++ DOT :: zone.
Proof.
  unfold match_any_zone_domain. destruct (is_empty base) eqn:Eb.
  { apply is_empty_true in Eb. naive_solver. }
  apply is_empty_false in Eb. destruct (site_zone hostname) as [zone|] eqn:Ez; [|naive_solver].
  destruct (strip_suffix (DOT :: zone) hostname) as [site|] eqn:Es.
  - apply strip_suffix_Some in Es. destruct (match_suffix_domain site base) eqn:Em; simpl.
    + split; [intros [= <-]; naive_solver|].
      intros (_ & site' & zone' & _ & [= <-] & _ & ->). done.
    + split; [done|]. intros (_ & site' & zone' & E & [= <-] & Hm & _).
      rewrite Es in E. apply app_inj_2 in E as [-> _]; [congruence|done].
  - split; [done|]. intros (_ & site & zone' & E & [= <-] & _).
    apply strip_suffix_Some in E. congruence.
Qed.

(** At a host it covers, a [base.*] rule is the rule [*.base.<zone>]: the
    name it stands for is [base.<zone>] with the host's own zone, the host is
    that name or below it, and every other host of that subtree gets the same
    name. In particular [base] is the site right before the zone, never a label
    further down ([example.com.attacker.net] is not of [example]). *)
Theorem any_zone_is_suffix_rule hostname base name :
  match_any_zone_domain hostname base = Some name ->
  (exists zone, site_zone hostname = Some zone /\ name = base ++ DOT :: zone)
  /\ match_suffix_domain hostname name = true
  /\ forall h, match_suffix_domain h name = true -> match_any_zone_domain h base = Some name.
Proof.
  intros (Hb & site & zone & Eh & Ez & Hm & ->)%match_any_zone_domain_Some.
  split; [eauto|]. apply match_suffix_domain_true in Hm as [_ Hsite].
  assert (Hlast : last_label site = last_label base).
  { destruct Hsite as [->|(pre & _ & ->)]; [done|apply last_label_app]. }
  split.
  - apply match_suffix_domain_true. split; [by destruct base|]. rewrite Eh.
    destruct Hsite as [->|(pre & Hp & ->)]; [by left|right].
    exists pre. split; [done|]. by rewrite <- app_assoc.
  - intros h [_ Hh]%match_suffix_domain_true. apply match_any_zone_domain_Some. split; [done|].
    assert (Hs : exists s, h = s ++ DOT :: zone /\ match_suffix_domain s base = true
                           /\ last_label s = last_label base).
    { destruct Hh as [->|(pre & Hp & ->)].
      - exists base. split; [done|]. split; [|done]. apply match_suffix_domain_true. auto.
      - exists (pre ++ DOT :: base). split; [by rewrite <- app_assoc|].
        split; [|apply last_label_app]. apply match_suffix_domain_true. eauto. }
    destruct Hs as (s & -> & Hs & Hl). exists s, zone. split; [done|]. split; [|done].
    apply site_zone_Some. apply site_zone_Some in Ez as (site' & E' & Hz).
    assert (site' = site) as -> by (rewrite Eh in E'; by apply app_inj_2 in E' as [-> _]).
    exists s. split; [done|]. by rewrite Hl, <- Hlast.
Qed.

Lemma any_zone_is_suffix_rule_witness :
  match_any_zone_domain (u "shop.example.co.uk") (u "example") = Some (u "example.co.uk")
  /\ match_any_zone_domain (u "example.com.attacker.net") (u "example") = None.
Proof.
  split; [|by vm_compute].
  apply (any_zone_is_suffix_rule (u "www.example.co.uk") (u "example") (u "example.co.uk"));
    by vm_compute.
Defined.
