(* ===== verification/Canonical.v ===== *)
(** * The canonical rule book

    core/domain/src/canonical.rs: rules in their normalized form, the total
    order they are stored and hashed in, and the enforcement-only rewritings of
    a book (subdomain twins, [base.*] twins, [?] rules). *)

From stdpp Require Import base sorting numbers list.
From S2P Require Import Prelude Str Digits IpAddr IpBlock AppPath AutoRule HostMatch.

Open Scope nat_scope.

(** ** Rules *)

(** shared/contracts/src/routing.rs. *)
Inductive RouteRole : Set := Primary | Secondary.

#[export] Instance RouteRole_eq_dec : EqDecision RouteRole.
Proof. solve_decision. Defined.

Inductive CanonicalAppPattern : Set :=
| Exact (s : str)
| Glob (s : str)
| Path (p : AppPath).

#[export] Instance CanonicalAppPattern_eq_dec : EqDecision CanonicalAppPattern.
Proof. solve_decision. Defined.

Definition pattern_as_str (p : CanonicalAppPattern) : str :=
  match p with
  | Exact s | Glob s => s
  | Path path => AppPath_as_str path
  end.

Inductive RuleAction : Set := Route | Block | Verify.

#[export] Instance RuleAction_eq_dec : EqDecision RuleAction.
Proof. solve_decision. Defined.

Record CanonicalAppMatch : Set := mkCanonicalAppMatch {
  pattern : CanonicalAppPattern;
  include_child_processes : bool;
  override_requested : bool;
}.

#[export] Instance CanonicalAppMatch_eq_dec : EqDecision CanonicalAppMatch.
Proof. solve_decision. Defined.

Inductive CanonicalAddressMatch : Set :=
| ExactFqdn (label : str)
| SuffixDomain (label : str)
| AnyZoneDomain (base : str)
| Zone (name : str)
| ExactIp (addr : IpAddr)
| Subnet (block : IpBlock)
| Range (range : IpRange).

#[export] Instance CanonicalAddressMatch_eq_dec : EqDecision CanonicalAddressMatch.
Proof. solve_decision. Defined.

Definition to_display_string (m : CanonicalAddressMatch) : str :=
  match m with
  | ExactFqdn label => label
  | SuffixDomain label => u "*." ++ label
  | AnyZoneDomain base => base ++ u ".*"
  | Zone name => name
  | ExactIp addr => fmt_ip addr
  | Subnet block => IpBlock_fmt block
  | Range range => IpRange_fmt range
  end.

Definition ip_blocks (m : CanonicalAddressMatch) : option (list IpBlock) :=
  match m with
  | Subnet block => Some [block]
  | Range range => Some (range_blocks range)
  | _ => None
  end.

Definition ip_sort_key (addr : IpAddr) : str :=
  match addr with
  | V4 v4 => pad_zero 10 (fmt_dec (Z.to_N v4))
  | V6 v6 => u "v6:" ++ pad_zero 32 (fmt_hex (Z.to_N v6))
  end.

Definition sort_key_str (m : CanonicalAddressMatch) : str :=
  match m with
  | ExactFqdn label => label
  | SuffixDomain label | AnyZoneDomain label => label
  | Zone name => name
  | ExactIp (V4 addr) => pad_zero 10 (fmt_dec (Z.to_N addr))
  | ExactIp (V6 addr) => u "v6:" ++ pad_zero 32 (fmt_hex (Z.to_N addr))
  | Subnet block =>
      ip_sort_key (network block) ++ SLASH :: pad_zero 3 (fmt_dec (Z.to_N (prefix_len block)))
  | Range range => ip_sort_key (range_first range) ++ DASH :: ip_sort_key (range_last range)
  end.

Record CanonicalRule : Set := mkCanonicalRule {
  r_id : str;
  r_enabled : bool;
  r_address_match : option CanonicalAddressMatch;
  r_app_match : option CanonicalAppMatch;
  r_comment : str;
  r_action : RuleAction;
  r_origin : option RuleOrigin;
}.

#[export] Instance CanonicalRule_eq_dec : EqDecision CanonicalRule.
Proof. solve_decision. Defined.

(** ** The canonical order *)

Definition address_group (m : CanonicalAddressMatch) : N :=
  match m with
  | ExactFqdn _ => 0
  | SuffixDomain _ => 1
  | Zone _ => 2
  | ExactIp _ => 3
  | Subnet _ => 5
  | Range _ => 6
  | AnyZoneDomain _ => 7
  end.

Definition sort_key (r : CanonicalRule) : N * str :=
  match r_address_match r with
  | Some m => (address_group m, sort_key_str m)
  | None => (4%N, match r_app_match r with Some a => pattern_as_str (pattern a) | None => [] end)
  end.

(** The keys [tie_break] compares, in its order. *)
Definition tie_app (r : CanonicalRule) : option (N * (str * (bool * bool))) :=
  match r_app_match r with
  | None => None
  | Some m =>
      let kind := match pattern m with Exact _ => 0%N | Glob _ => 1%N | Path _ => 2%N end in
      Some (kind, (pattern_as_str (pattern m), (include_child_processes m, override_requested m)))
  end.

Definition tie_action (r : CanonicalRule) : N :=
  match r_action r with Route => 0 | Block => 1 | Verify => 2 end.

Definition tie_origin (r : CanonicalRule) : option (str * (str * str)) :=
  match r_origin r with
  | None => None
  | Some o => Some (as_slug (reason o), (anchor o, added o))
  end.

Definition app_key_cmp := option_cmp (pair_cmp N.compare (pair_cmp str_cmp (pair_cmp bool_cmp bool_cmp))).
Definition origin_key_cmp := option_cmp (pair_cmp str_cmp (pair_cmp str_cmp str_cmp)).

Definition tie_break : CanonicalRule -> CanonicalRule -> comparison :=
  cmp_then (cmp_on tie_app app_key_cmp)
    (cmp_then (cmp_on tie_action N.compare)
       (cmp_then (cmp_on r_enabled bool_cmp)
          (cmp_then (cmp_on r_id str_cmp)
             (cmp_then (cmp_on r_comment str_cmp) (cmp_on tie_origin origin_key_cmp))))).

Definition rule_cmp : CanonicalRule -> CanonicalRule -> comparison :=
  cmp_then (cmp_on sort_key (pair_cmp N.compare str_cmp)) tie_break.

(** [CanonicalRuleSet]: rules in canonical order. *)
Abbreviation CanonicalRuleSet := (list CanonicalRule) (only parsing).

Definition from_rules (rules : list CanonicalRule) : CanonicalRuleSet := sort_by rule_cmp rules.

(** ** The order is total over what a rule serializes to

    Rules that compare equal have equal views: the match by its group and its
    value, and every other field, a path by its text and an origin by its
    slugs. That is what the canonical bytes carry. *)

Abbreviation RuleView :=
  ((N * str) * (option (N * (str * (bool * bool))) * (N * (bool * (str * (str * option (str * (str * str))))))))%type.

Definition rule_view (r : CanonicalRule) : RuleView :=
  (sort_key r, (tie_app r, (tie_action r, (r_enabled r, (r_id r, (r_comment r, tie_origin r)))))).

Definition view_cmp : RuleView -> RuleView -> comparison :=
  pair_cmp (pair_cmp N.compare str_cmp)
    (pair_cmp app_key_cmp (pair_cmp N.compare (pair_cmp bool_cmp
       (pair_cmp str_cmp (pair_cmp str_cmp origin_key_cmp))))).

#[export] Instance view_cmp_total : CmpTotal view_cmp.
Proof. unfold view_cmp, app_key_cmp, origin_key_cmp. apply _. Qed.

Lemma rule_cmp_view r s : rule_cmp r s = cmp_on rule_view view_cmp r s.
Proof. reflexivity. Qed.

#[export] Instance rule_cmp_order : CmpOrder rule_cmp.
Proof.
  assert (H : CmpOrder (cmp_on rule_view view_cmp)) by apply _.
  exact H.
Qed.
#[global] Typeclasses Opaque rule_cmp view_cmp.

Lemma from_rules_perm rules : from_rules rules ≡ₚ rules.
Proof. apply sort_by_perm. Qed.

Lemma from_rules_view rules : rule_view <$> from_rules rules = sort_by view_cmp (rule_view <$> rules).
Proof. apply (sort_by_on view_cmp rule_view). Qed.

(** The stored order does not depend on the order the rules arrived in:
    two arrangements of the same rules become the same sequence of serialized
    rules (hence the same content hash), and ordering an ordered set again
    changes nothing. *)
Lemma from_rules_canonical l k :
  l ≡ₚ k ->
  rule_view <$> from_rules l = rule_view <$> from_rules k
  /\ from_rules (from_rules l) = from_rules l /\ from_rules l ≡ₚ l.
Proof.
  intros P. split; [|split; [apply sort_by_idemp, _|apply from_rules_perm]].
  rewrite !from_rules_view. apply sort_by_canonical; [apply _|]. by rewrite P.
Qed.

(** ** Keys of addresses *)

Lemma digit_char_ge d : (48 <= digit_char d)%N.
Proof. unfold digit_char. case_match; lia. Qed.

Lemma digits_text_ge b n : Forall (fun c => 48 <= c)%N (digit_char <$> digits b n).
Proof. apply Forall_fmap, Forall_true. intros d. apply digit_char_ge. Qed.

Lemma pad_zero_ge w s : Forall (fun c => 48 <= c)%N s -> Forall (fun c => 48 <= c)%N (pad_zero w s).
Proof. intros Hs. apply Forall_app. split; [|done]. apply Forall_replicate. lia. Qed.

Lemma ip_sort_key_ge a : Forall (fun c => 48 <= c)%N (ip_sort_key a).
Proof.
  destruct a as [v|v]; [apply pad_zero_ge, digits_text_ge|].
  apply Forall_app. split; [by repeat constructor|]. apply pad_zero_ge, digits_text_ge.
Qed.

Lemma ge_no_char c s : (c < 48)%N -> Forall (fun d => 48 <= d)%N s -> contains_char (is_char c) s = false.
Proof.
  intros Hc Hs. apply contains_char_false. intros d Hd. rewrite Forall_forall in Hs.
  specialize (Hs d Hd). apply N.eqb_neq. lia.
Qed.

(** Cutting a key at its separator. *)
Lemma key_cut c a b x y :
  contains_char (is_char c) a = false -> contains_char (is_char c) b = false ->
  a ++ c :: x = b ++ c :: y -> a = b /\ x = y.
Proof.
  intros Ha Hb E. assert (split_once c (a ++ c :: x) = Some (a, x)) as E1 by (by apply split_once_Some).
  assert (split_once c (b ++ c :: y) = Some (b, y)) as E2 by (by apply split_once_Some).
  rewrite E, E2 in E1. by injection E1 as -> ->.
Qed.

Lemma Z_to_N_compare x y : (0 <= x)%Z -> (0 <= y)%Z -> N.compare (Z.to_N x) (Z.to_N y) = Z.compare x y.
Proof. intros. by rewrite <- N2Z.inj_compare, !Z2N.id. Qed.

Lemma list_cmp_app_same p s t : str_cmp (p ++ s) (p ++ t) = str_cmp s t.
Proof.
  unfold str_cmp. induction p as [|c p IH]; simpl; [done|].
  by rewrite (cmp_refl N.compare c).
Qed.

(** The text keys order addresses as numbers, IPv4 before IPv6. *)
Lemma ip_sort_key_cmp a b :
  ip_wf a -> ip_wf b -> str_cmp (ip_sort_key a) (ip_sort_key b) = ip_cmp a b.
Proof.
  intros Ha Hb. unfold ip_wf in *.
  assert (Hv4 : forall v w, (0 <= v < 2 ^ 32)%Z -> str_cmp (pad_zero 10 (fmt_dec (Z.to_N v)))
                (u "v6:" ++ pad_zero 32 (fmt_hex w)) = Lt).
  { intros v w Hv. pose proof (pad_zero_length 10 10 (Z.to_N v)) as Hl. fold (fmt_dec (Z.to_N v)) in Hl.
    pose proof (pad_zero_fixed 10 10 (Z.to_N v)) as Hf. fold (fmt_dec (Z.to_N v)) in Hf.
    pose proof (fixed_digits_bound 10 10 (Z.to_N v)) as Hb10.
    rewrite Hf in * by lia. destruct (fixed_digits 10 10 (Z.to_N v)) as [|d l] eqn:E.
    { apply (f_equal length) in E. by rewrite fixed_digits_length in E. }
    specialize (Hb10 ltac:(lia)). apply Forall_inv in Hb10. pose proof (digit_char_range d Hb10).
    unfold str_cmp. change (u "v6:") with [118%N; 54%N; 58%N].
    cbn [fmap list_fmap app list_cmp].
    assert (N.compare (digit_char d) 118 = Lt) as -> by (apply N.compare_lt_iff; lia). done. }
  destruct a as [v|v], b as [w|w]; cbn [ip_sort_key ip_cmp].
  - rewrite pad_dec_cmp by lia. apply Z_to_N_compare; lia.
  - by apply Hv4.
  - rewrite (cmp_opp str_cmp (pad_zero 10 (fmt_dec (Z.to_N w)))). by rewrite Hv4.
  - rewrite list_cmp_app_same, pad_hex_cmp by lia. apply Z_to_N_compare; lia.
Qed.

Lemma ip_sort_key_inj a b : ip_wf a -> ip_wf b -> ip_sort_key a = ip_sort_key b -> a = b.
Proof.
  intros Ha Hb E. apply (cmp_eq ip_cmp). rewrite <- ip_sort_key_cmp, E by done. apply cmp_refl, _.
Qed.

(** What the validation pipeline guarantees of an address. *)
Definition address_wf (m : CanonicalAddressMatch) : Prop :=
  match m with
  | ExactIp addr => ip_wf addr
  | Subnet block => block_wf block
  | Range range => ip_wf (range_first range) /\ ip_wf (range_last range)
                   /\ IpRange_new (range_first range) (range_last range) = Some range
  | _ => True
  end.

Lemma sort_key_str_inj m n :
  address_wf m -> address_wf n -> address_group m = address_group n ->
  sort_key_str m = sort_key_str n -> m = n.
Proof.
  assert (Hip : forall a, sort_key_str (ExactIp a) = ip_sort_key a) by (by intros []).
  destruct m as [l|l|l|l|a|[na pa]|r], n as [k|k|k|k|b|[nb pb]|t]; try discriminate;
    intros Hm Hn _; rewrite ?Hip; cbn [sort_key_str network prefix_len].
  1-4: by intros ->.
  - intros E%ip_sort_key_inj; [by subst|done..].
  - intros [E1 E2]%key_cut; [|by apply ge_no_char, ip_sort_key_ge..].
    destruct Hm as (Hna & Hpa & _), Hn as (Hnb & Hpb & _). cbn [network prefix_len] in *.
    apply ip_sort_key_inj in E1 as ->; [|done..]. do 2 f_equal.
    assert (pa <= 128 /\ pb <= 128)%Z as [? ?].
    { destruct (family_bits_width nb) as [H|H]; rewrite H in *; lia. }
    apply Z.compare_eq. rewrite <- Z_to_N_compare by lia.
    rewrite <- (pad_dec_cmp 3), E2 by lia. apply cmp_refl, _.
  - intros [E1 E2]%key_cut; [|by apply ge_no_char, ip_sort_key_ge..].
    destruct Hm as (H1 & H2 & H3), Hn as (K1 & K2 & K3).
    apply ip_sort_key_inj in E1; [|done..]. apply ip_sort_key_inj in E2; [|done..].
    rewrite E1, E2 in H3. congruence.
Qed.

Section Total.
(** The paths of one platform's rules, told apart by their spelling. *)
Context (path_ok : AppPath -> Prop)
  (path_ok_inj : forall p q, path_ok p -> path_ok q -> text p = text q -> p = q).

Definition rule_wf (r : CanonicalRule) : Prop :=
  (forall m, r_address_match r = Some m -> address_wf m)
  /\ (forall m p, r_app_match r = Some m -> pattern m = Path p -> path_ok p)
  /\ (forall o, r_origin r = Some o -> reason_wf (reason o)).

Lemma rule_view_inj r s : rule_wf r -> rule_wf s -> rule_view r = rule_view s -> r = s.
Proof using path_ok_inj.
  intros (Ra & Rp & Ro) (Sa & Sp & So). unfold rule_view, sort_key, tie_app, tie_action, tie_origin.
  destruct r as [i e a m c x o], s as [i' e' a' m' c' x' o']. cbn in *.
  intros [= Ekey Eapp Eact -> -> -> Eorg].
  assert (x = x') as -> by (by destruct x, x').
  assert (o = o') as ->.
  { destruct o as [[r1 a1 d1]|], o' as [[r2 a2 d2]|]; try done. cbn in Eorg.
    injection Eorg as Er -> ->. do 2 f_equal.
    destruct (Ro _ eq_refl) as [_ H1], (So _ eq_refl) as [_ H2]. cbn in H1, H2. congruence. }
  assert (m = m') as ->.
  { destruct m as [[p1 i1 v1]|], m' as [[p2 i2 v2]|]; try done. cbn in Eapp.
    injection Eapp as Ek Es -> ->. do 2 f_equal.
    destruct p1, p2; cbn in Ek, Es; try done; [by subst..|].
    f_equal. apply path_ok_inj; [by eapply Rp|by eapply Sp|exact Es]. }
  f_equal. destruct a as [m1|], a' as [m2|]; [|by destruct m1|by destruct m2|done].
  injection Ekey as Eg Es. f_equal. apply sort_key_str_inj; auto.
Qed.

(** The canonical order is total on validated rules: two rules the order
    ties are the same rule, addresses are told apart by their numeric keys, and
    so two arrangements of the same rules are stored as the same list. *)
Theorem canonical_order_total l k :
  Forall rule_wf l -> l ≡ₚ k ->
  (forall r s, r ∈ l -> s ∈ l -> rule_cmp r s = Eq -> r = s) /\ from_rules l = from_rules k.
Proof using path_ok_inj.
  intros Hl P. split.
  - intros r s Hr Hs E. rewrite Forall_forall in Hl. apply rule_view_inj; [by apply Hl..|].
    by apply (cmp_eq view_cmp).
  - assert (Hk : Forall rule_wf (from_rules k)) by (by rewrite from_rules_perm, <- P).
    rewrite <- (from_rules_perm l) in Hl.
    assert (E : rule_view <$> from_rules l = rule_view <$> from_rules k).
    { rewrite !from_rules_view. apply sort_by_canonical; [apply _|]. by rewrite P. }
    revert E Hk. generalize (from_rules k). induction Hl as [|r l' Hr Hl IH]; intros [|s k'] E Hk;
      try done. apply Forall_cons_1 in Hk as [Hs Hk]. rewrite !fmap_cons in E.
    assert (rule_view r = rule_view s) by congruence.
    assert (rule_view <$> l' = rule_view <$> k') by congruence.
    f_equal; [by apply rule_view_inj|by apply IH].
Qed.

End Total.

Lemma canonical_order_total_witness :
  let r n := mkCanonicalRule (u "7") true (Some (ExactIp (ipv4 10 0 0 n))) None [] Route None in
  from_rules [r 9%Z; r 10%Z] = from_rules [r 10%Z; r 9%Z]
  /\ from_rules [r 9%Z; r 10%Z] = [r 9%Z; r 10%Z].
Proof.
  intros r. split; [|by vm_compute].
  refine (proj2 (canonical_order_total (fun _ => False) _ [r 9%Z; r 10%Z] [r 10%Z; r 9%Z] _ _)).
  - done.
  - repeat constructor; cbn; try done; intros m [= <-]; by vm_compute.
  - by rewrite Permutation_swap.
Defined.

(** ** [CanonicalRuleSet]: subdomain twins *)

Definition suffix_entry (r : CanonicalRule) : option (str * option CanonicalAppMatch) :=
  match r_address_match r with
  | Some (SuffixDomain d) => Some (d, r_app_match r)
  | _ => None
  end.

Definition holds_suffix (set : CanonicalRuleSet) (name : str) (app : option CanonicalAppMatch) : bool :=
  existsb (fun r => r_enabled r && bool_decide (r_app_match r = app)
                    && match r_address_match r with
                       | Some (SuffixDomain s) => str_eqb s name
                       | _ => false
                       end) set.

(** The domain a rule's twin covers, when the rule gets one. *)
Definition twin_domain (existing_suffix : list (str * option CanonicalAppMatch))
  (set : CanonicalRuleSet) (r : CanonicalRule) : option str :=
  match r_address_match r with
  | Some (ExactFqdn d) => if bool_decide ((d, r_app_match r) ∈ existing_suffix) then None else Some d
  | Some (Zone d) =>
      if zone_ranks_as_suffix d && negb (holds_suffix set d (r_app_match r)) then Some d else None
  | _ => None
  end.

Definition sub_twin (r : CanonicalRule) (d : str) : CanonicalRule :=
  {| r_id := r_id r ++ u "+sub"; r_enabled := r_enabled r; r_address_match := Some (SuffixDomain d);
     r_app_match := r_app_match r; r_comment := r_comment r; r_action := r_action r;
     r_origin := None |}.

Definition set_twins (self other : CanonicalRuleSet) : list CanonicalRule :=
  let existing_suffix := omap suffix_entry (self ++ other) in
  omap (fun r => sub_twin r <$> twin_domain existing_suffix self r) self.

Definition set_with_subdomain_coverage (self other : CanonicalRuleSet) : CanonicalRuleSet :=
  from_rules (self ++ set_twins self other).

Definition is_twin (set : CanonicalRuleSet) (r : CanonicalRule) : bool :=
  match strip_suffix (u "+sub") (r_id r), r_address_match r with
  | Some apex_id, Some (SuffixDomain d) =>
      existsb (fun apex =>
        str_eqb (r_id apex) apex_id
        && match r_address_match apex with
           | Some (ExactFqdn a) | Some (Zone a) => str_eqb a d
           | _ => false
           end
        && bool_decide (r_app_match apex = r_app_match r)
        && Bool.eqb (r_enabled apex) (r_enabled r)
        && bool_decide (r_action apex = r_action r)
        && str_eqb (r_comment apex) (r_comment r)
        && match r_origin r with None => true | Some _ => false end) set
  | _, _ => false
  end.

Definition set_without_subdomain_twins (set : CanonicalRuleSet) : option CanonicalRuleSet :=
  if negb (existsb (is_twin set) set) then None
  else Some (from_rules (List.filter (fun r => negb (is_twin set r)) set)).

Definition enabled_count (set : CanonicalRuleSet) : nat := length (List.filter r_enabled set).

(** ** [CanonicalRuleBook] *)

Record CanonicalRuleBook : Set := mkCanonicalRuleBook {
  primary : CanonicalRuleSet;
  secondary : CanonicalRuleSet;
}.

Definition set_for (b : CanonicalRuleBook) (role : RouteRole) : CanonicalRuleSet :=
  match role with Primary => primary b | Secondary => secondary b end.

Definition total_rule_count (b : CanonicalRuleBook) : nat :=
  length (primary b) + length (secondary b).

Definition total_enabled_count (b : CanonicalRuleBook) : nat :=
  enabled_count (primary b) + enabled_count (secondary b).

Definition with_subdomain_coverage (b : CanonicalRuleBook) : CanonicalRuleBook :=
  {| primary := set_with_subdomain_coverage (primary b) (secondary b);
     secondary := set_with_subdomain_coverage (secondary b) (primary b) |}.

Definition without_subdomain_twins (b : CanonicalRuleBook) : option CanonicalRuleBook :=
  match set_without_subdomain_twins (primary b), set_without_subdomain_twins (secondary b) with
  | None, None => None
  | p, s => Some {| primary := default (primary b) p; secondary := default (secondary b) s |}
  end.

Definition names_suffix_outright (b : CanonicalRuleBook) (name : str) : bool :=
  existsb (fun r => r_enabled r && match r_address_match r with
                                   | Some (SuffixDomain s) => str_eqb s name
                                   | _ => false
                                   end) (primary b ++ secondary b).

Definition has_any_zone_rules (b : CanonicalRuleBook) : bool :=
  existsb (fun r => match r_address_match r with Some (AnyZoneDomain _) => true | _ => false end)
    (primary b ++ secondary b).

Definition any_zone_twin (rule : CanonicalRule) (name : str) : CanonicalRule :=
  {| r_id := r_id rule ++ u "+" ++ name; r_enabled := r_enabled rule;
     r_address_match := Some (SuffixDomain name); r_app_match := r_app_match rule;
     r_comment := r_comment rule; r_action := r_action rule; r_origin := None |}.

(** The twins of one set; [sites] reports the [base.<zone>] names seen. *)
Definition any_zone_twins (b : CanonicalRuleBook) (sites : str -> list str) (set : CanonicalRuleSet)
  : list CanonicalRule :=
  r ← List.filter r_enabled set;
  match r_address_match r with
  | Some (AnyZoneDomain base) =>
      any_zone_twin r <$> List.filter (fun name => negb (names_suffix_outright b name))
                            (dedup (sort_by str_cmp (sites base)))
  | _ => []
  end.

Definition with_any_zone_sites (b : CanonicalRuleBook) (sites : str -> list str) : CanonicalRuleBook :=
  if negb (has_any_zone_rules b) then b
  else {| primary := from_rules (primary b ++ any_zone_twins b sites (primary b));
          secondary := from_rules (secondary b ++ any_zone_twins b sites (secondary b)) |}.

(** ** [?] rules and their verdicts *)

Record VerifyKey : Set := mkVerifyKey {
  written : RouteRole;
  vk_address : CanonicalAddressMatch;
}.

Definition VerifyKey_of (w : RouteRole) (rule : CanonicalRule) : option VerifyKey :=
  match r_address_match rule with
  | Some address => Some {| written := w; vk_address := address |}
  | None => None
  end.

Definition key_names (k : VerifyKey) (w : RouteRole) (rule : CanonicalRule) : bool :=
  bool_decide (written k = w) && bool_decide (r_address_match rule = Some (vk_address k)).

Record VerifyMove : Set := mkVerifyMove {
  mv_key : VerifyKey;
  mv_host : str;
}.

Definition role_slug (r : RouteRole) : str :=
  match r with Primary => u "primary" | Secondary => u "secondary" end.

Definition VerifyKey_fmt (k : VerifyKey) : str :=
  role_slug (written k) ++ u ":" ++ to_display_string (vk_address k).

Definition is_verify (r : CanonicalRule) : bool := bool_decide (r_action r = Verify).

Definition one_destination (r : CanonicalRule) : bool :=
  match r_address_match r with Some (ExactFqdn _) | Some (ExactIp _) => true | _ => false end.

(** The verdicts are a [HashSet]: a list whose order is the iteration order. *)
Section Moved.
Context (moved : list VerifyMove).

Definition moves (w : RouteRole) (r : CanonicalRule) : list VerifyMove :=
  if negb (is_verify r) then [] else List.filter (fun m => key_names (mv_key m) w r) moved.

Definition is_moved (w : RouteRole) (r : CanonicalRule) : bool :=
  one_destination r && match moves w r with [] => false | _ => true end.

Definition proven_host (r : CanonicalRule) (m : VerifyMove) : CanonicalRule :=
  let host := to_ascii_lowercase (trim_end_matches (is_char DOT) (trim (mv_host m))) in
  let address := match parse_ip_addr host with Some ip => ExactIp ip | None => ExactFqdn host end in
  {| r_id := r_id r ++ u "~" ++ host; r_enabled := true; r_address_match := Some address;
     r_app_match := None; r_comment := []; r_action := Route; r_origin := None |}.

Definition proven_hosts (w : RouteRole) (r : CanonicalRule) : list CanonicalRule :=
  if one_destination r then [] else proven_host r <$> moves w r.

End Moved.

Definition as_route (r : CanonicalRule) : CanonicalRule :=
  if is_verify r
  then {| r_id := r_id r; r_enabled := r_enabled r; r_address_match := r_address_match r;
          r_app_match := r_app_match r; r_comment := r_comment r; r_action := Route;
          r_origin := r_origin r |}
  else r.

Definition settled (b : CanonicalRuleBook) (moved : list VerifyMove) (own other : RouteRole)
  : list CanonicalRule :=
  (as_route <$> (List.filter (fun r => negb (is_moved moved own r)) (set_for b own)
                 ++ List.filter (is_moved moved other) (set_for b other)))
  ++ (set_for b other ≫= proven_hosts moved other).

Definition with_verify_effective (b : CanonicalRuleBook) (moved : list VerifyMove) : CanonicalRuleBook :=
  if negb (existsb is_verify (primary b ++ secondary b)) then b
  else {| primary := from_rules (settled b moved Primary Secondary);
          secondary := from_rules (settled b moved Secondary Primary) |}.

(** ** Theorems on the rewritings *)

Lemma set_twins_elem self other t :
  t ∈ set_twins self other <->
  exists r d, r ∈ self /\ twin_domain (omap suffix_entry (self ++ other)) self r = Some d
              /\ t = sub_twin r d.
Proof.
  unfold set_twins. rewrite list_elem_of_omap. split.
  - intros (r & Hr & E). destruct (twin_domain _ self r) as [d|] eqn:Ed; [|done].
    injection E as <-. eauto.
  - intros (r & d & Hr & E & ->). exists r. by rewrite E.
Qed.

Lemma covered_elem self other r :
  r ∈ set_with_subdomain_coverage self other <-> r ∈ self \/ r ∈ set_twins self other.
Proof. unfold set_with_subdomain_coverage. by rewrite from_rules_perm, elem_of_app. Qed.

Lemma suffix_entry_elem (l : list CanonicalRule) d a :
  (d, a) ∈ omap suffix_entry l <->
  exists r, r ∈ l /\ r_address_match r = Some (SuffixDomain d) /\ r_app_match r = a.
Proof.
  rewrite list_elem_of_omap. unfold suffix_entry. split.
  - intros (r & Hr & E). destruct (r_address_match r) as [[]|] eqn:Ea; try done.
    injection E as -> <-. eauto.
  - intros (r & Hr & Ea & <-). exists r. by rewrite Ea.
Qed.

Lemma holds_suffix_true set name app :
  holds_suffix set name app = true <->
  exists r, r ∈ set /\ r_enabled r = true /\ r_app_match r = app
            /\ r_address_match r = Some (SuffixDomain name).
Proof.
  unfold holds_suffix. rewrite existsb_elem. split.
  - intros (r & Hr & H). reflect_bools. destruct (r_address_match r) as [[]|] eqn:Ea; try done.
    exists r. rewrite str_eqb_eq in *. by subst.
  - intros (r & Hr & He & Ha & Hd). exists r. split; [done|].
    by rewrite He, Ha, Hd, bool_decide_eq_true_2, str_eqb_refl.
Qed.

(** Every zone of several labels is in force. *)
Definition zones_enabled (set : CanonicalRuleSet) : Prop :=
  forall r d, r ∈ set -> r_address_match r = Some (Zone d) -> zone_ranks_as_suffix d = true ->
  r_enabled r = true.

Lemma covered_twice self other other' :
  zones_enabled self -> (forall r, r ∈ other -> r ∈ other') ->
  set_twins (set_with_subdomain_coverage self other) other' = [].
Proof.
  intros Hz Hsub. set (self' := set_with_subdomain_coverage self other).
  destruct (set_twins self' other') as [|t l] eqn:E; [done|].
  assert (Ht : t ∈ set_twins self' other') by (rewrite E; left).
  apply set_twins_elem in Ht as (r & d & Hr & Hd & _).
  assert (Hself : forall x, x ∈ self -> x ∈ self') by (intros; apply covered_elem; auto).
  apply covered_elem in Hr as [Hr|Hr].
  2: { apply set_twins_elem in Hr as (r0 & d0 & _ & _ & ->). done. }
  unfold twin_domain in Hd. destruct (r_address_match r) as [[]|] eqn:Ea; try done.
  - case_bool_decide as Hn; [done|]. injection Hd as ->. exfalso. apply Hn.
    destruct (decide ((d, r_app_match r) ∈ omap suffix_entry (self ++ other))) as [Hin|Hnin].
    + apply suffix_entry_elem in Hin as (x & Hx & Hxd). apply suffix_entry_elem.
      exists x. rewrite elem_of_app in *. naive_solver.
    + apply suffix_entry_elem. exists (sub_twin r d). split; [|done]. apply elem_of_app. left.
      apply covered_elem. right. apply set_twins_elem. exists r, d. split; [done|]. split; [|done].
      unfold twin_domain. by rewrite Ea, bool_decide_eq_false_2.
  - destruct (zone_ranks_as_suffix name) eqn:Ez; [|done]. simpl in Hd.
    destruct (holds_suffix self' name (r_app_match r)) eqn:Eh; [done|]. injection Hd as ->.
    apply not_true_iff_false in Eh. exfalso. apply Eh. apply holds_suffix_true.
    destruct (holds_suffix self d (r_app_match r)) eqn:Eh'.
    + apply holds_suffix_true in Eh' as (x & Hx & ?). exists x. auto.
    + exists (sub_twin r d). split; [|split; [exact (Hz r d Hr Ea Ez)|done]]. apply covered_elem. right.
      apply set_twins_elem. exists r, d. split; [done|]. split; [|done].
      unfold twin_domain. by rewrite Ea, Ez, Eh'.
Qed.

Lemma covered_idemp self other other' :
  zones_enabled self -> (forall r, r ∈ other -> r ∈ other') ->
  set_with_subdomain_coverage (set_with_subdomain_coverage self other) other'
  = set_with_subdomain_coverage self other.
Proof.
  intros Hz Hsub. set (self' := set_with_subdomain_coverage self other).
  unfold set_with_subdomain_coverage. unfold self' at 2. rewrite covered_twice by done.
  rewrite app_nil_r. apply sort_by_idemp, _.
Qed.

(** Widening bare names to their subdomains is idempotent: applied to a
    book it already widened it adds nothing, when every zone of several labels
    is enabled. It never removes or changes a rule of the book. *)
Theorem subdomain_coverage_idempotent b :
  zones_enabled (primary b) -> zones_enabled (secondary b) ->
  with_subdomain_coverage (with_subdomain_coverage b) = with_subdomain_coverage b
  /\ forall role r, r ∈ set_for b role -> r ∈ set_for (with_subdomain_coverage b) role.
Proof.
  intros Hp Hs. split.
  - unfold with_subdomain_coverage. cbn [primary secondary].
    f_equal; apply covered_idemp; try done; intros; apply covered_elem; auto.
  - intros [] r Hr; apply covered_elem; by left.
Qed.

(** A disabled zone of several labels gets one more twin each time: the twin is
    looked up among the enabled rules only. *)
Theorem disabled_zone_twin_repeats :
  let zone := mkCanonicalRule (u "1") false (Some (Zone (u "corp.example"))) None [] Route None in
  let b := mkCanonicalRuleBook [zone] [] in
  length (primary (with_subdomain_coverage b)) = 2
  /\ length (primary (with_subdomain_coverage (with_subdomain_coverage b))) = 3.
Proof. by vm_compute. Qed.

Lemma subdomain_coverage_idempotent_witness :
  let b := mkCanonicalRuleBook
    [mkCanonicalRule (u "1") true (Some (ExactFqdn (u "example.org"))) None [] Route None]
    [mkCanonicalRule (u "1") true (Some (Zone (u "corp.example"))) None [] Block None] in
  with_subdomain_coverage (with_subdomain_coverage b) = with_subdomain_coverage b
  /\ total_rule_count (with_subdomain_coverage b) = 4.
Proof.
  intros b. split; [|by vm_compute].
  refine (proj1 (subdomain_coverage_idempotent b _ _));
    intros r d ->%list_elem_of_singleton; by cbn.
Defined.

(** ** Taking the twins away again *)

Section SortFilter.
Context {A : Type} (c : A -> A -> comparison) `{!CmpOrder c} (p : A -> bool).

Lemma insert_by_filter x l :
  StronglySorted (cmp_le c) l ->
  List.filter p (insert_by c x l)
  = if p x then insert_by c x (List.filter p l) else List.filter p l.
Proof using CmpOrder0.
  induction 1 as [|y l Hl IH Hy]; simpl; [by destruct (p x)|].
  destruct (c x y) eqn:E; simpl.
  3: { rewrite IH. destruct (p x), (p y); simpl; try done. by rewrite E. }
  all: destruct (p x); [|done]; destruct (p y); simpl; [by rewrite E|].
  all: assert (Hx : Forall (cmp_le c x) l) by
    (eapply Forall_impl; [exact Hy|]; intros z Hz; apply (cmp_le_trans c x y z); [by rewrite E|done]).
  all: clear -Hx; induction Hx as [|z l Hz Hx IH]; simpl; [done|];
    destruct (p z); simpl; [by unfold cmp_le in Hz; destruct (c x z)|done].
Qed.

(** A stable sort and a filter commute. *)
Lemma sort_by_filter l : List.filter p (sort_by c l) = sort_by c (List.filter p l).
Proof using CmpOrder0.
  induction l as [|x l IH]; simpl; [done|].
  rewrite insert_by_filter, IH by (apply sort_by_sorted, _). by destruct (p x).
Qed.

End SortFilter.

Lemma is_twin_ext set set' r :
  (forall a, (exists d, r_address_match a = Some (ExactFqdn d) \/ r_address_match a = Some (Zone d)) ->
             a ∈ set <-> a ∈ set') ->
  is_twin set r = is_twin set' r.
Proof.
  intros Hset. unfold is_twin. destruct (strip_suffix _ _) as [i|]; [|done].
  destruct (r_address_match r) as [[]|]; try done.
  apply eq_true_iff_eq. rewrite !existsb_elem.
  split; intros (a & Ha & H); exists a; (split; [|done]); apply Hset; try done;
    reflect_bools; destruct (r_address_match a) as [[]|]; try done; eauto.
Qed.

Lemma sub_twin_is_twin set r d :
  r ∈ set -> r_address_match r = Some (ExactFqdn d) \/ r_address_match r = Some (Zone d) ->
  is_twin set (sub_twin r d) = true.
Proof.
  intros Hr Hd. unfold is_twin. cbn [sub_twin r_id r_address_match].
  assert (strip_suffix (u "+sub") (r_id r ++ u "+sub") = Some (r_id r)) as ->
    by (by apply strip_suffix_Some).
  apply existsb_elem. exists r. split; [done|]. cbn [sub_twin r_app_match r_enabled r_action r_comment r_origin].
  rewrite !str_eqb_refl, !bool_decide_eq_true_2, eqb_reflx by done.
  by destruct Hd as [->| ->]; rewrite str_eqb_refl.
Qed.

(** Taking the twins away is the inverse of adding them: from a set in
    canonical order that holds no twin of its own, the widened set gives back
    exactly that set, and [None] when nothing had been added. *)
Theorem subdomain_twins_inverse self other :
  from_rules self = self -> (forall r, r ∈ self -> is_twin self r = false) ->
  set_without_subdomain_twins (set_with_subdomain_coverage self other)
  = match set_twins self other with [] => None | _ => Some self end.
Proof.
  intros Hsort Hno. set (wide := set_with_subdomain_coverage self other).
  assert (Hext : forall r, is_twin wide r = is_twin self r).
  { intros r. apply is_twin_ext. intros a [d Ha]. unfold wide. rewrite covered_elem.
    split; [|auto]. intros [|Ht]; [done|]. apply set_twins_elem in Ht as (r0 & d0 & _ & _ & ->).
    by destruct Ha. }
  assert (Htw : forall r, r ∈ set_twins self other -> is_twin self r = true).
  { intros t (r & d & Hr & Hd & ->)%set_twins_elem. apply sub_twin_is_twin; [done|].
    unfold twin_domain in Hd. destruct (r_address_match r) as [[]|]; try done; case_match; naive_solver. }
  unfold set_without_subdomain_twins.
  assert (Hkept : List.filter (fun r => negb (is_twin wide r)) wide = self).
  { rewrite (List.filter_ext _ (fun r => negb (is_twin self r))) by (intros; by rewrite Hext).
    unfold wide, set_with_subdomain_coverage, from_rules. rewrite sort_by_filter by apply _.
    rewrite List.filter_app, filter_all, filter_none, app_nil_r; [done|..].
    - intros r Hr. by rewrite Htw.
    - intros r Hr. by rewrite Hno. }
  rewrite Hkept, Hsort. destruct (existsb (is_twin wide) wide) eqn:Eany; simpl.
  - apply existsb_elem in Eany as (r & Hr & Ht). rewrite Hext in Ht.
    apply covered_elem in Hr as [Hr|Hr]; [by rewrite Hno in Ht|].
    destruct (set_twins self other); [by apply elem_of_nil in Hr|done].
  - destruct (set_twins self other) as [|t l] eqn:Et; [done|].
    assert (Ht : t ∈ set_twins self other) by (rewrite Et; left).
    rewrite existsb_false in Eany. specialize (Eany t). rewrite Hext, Htw in Eany by (by rewrite <- Et).
    discriminate Eany. apply covered_elem. auto.
Qed.

Lemma subdomain_twins_inverse_witness :
  let rules := from_rules
    [mkCanonicalRule (u "2") true (Some (ExactFqdn (u "example.org"))) None (u "shop") Route None;
     mkCanonicalRule (u "1") true (Some (SuffixDomain (u "example.net"))) None [] Block None] in
  set_without_subdomain_twins (set_with_subdomain_coverage rules []) = Some rules
  /\ length (set_with_subdomain_coverage rules []) = 3.
Proof.
  intros rules. split; [|by vm_compute].
  rewrite (subdomain_twins_inverse rules []); [by vm_compute|by vm_compute|].
  intros r Hr. assert (E : forallb (fun r => negb (is_twin rules r)) rules = true) by (by vm_compute).
  rewrite List.forallb_forall in E. apply negb_true_iff, E, list_elem_of_In, Hr.
Defined.

(** ** [?] rules: what a verdict may move *)

Definition other_role (role : RouteRole) : RouteRole :=
  match role with Primary => Secondary | Secondary => Primary end.

Lemma as_route_action r : r_action (as_route r) <> Verify.
Proof.
  unfold as_route, is_verify. case_bool_decide as H; [by cbn|done].
Qed.

Lemma set_for_no_verify b role r :
  existsb is_verify (primary b ++ secondary b) = false -> r ∈ set_for b role -> as_route r = r.
Proof.
  intros H Hr. rewrite existsb_false in H. unfold as_route. rewrite H; [done|].
  apply elem_of_app. destruct role; auto.
Qed.

Lemma moves_elem moved w r m :
  m ∈ moves moved w r -> m ∈ moved /\ is_verify r = true /\ key_names (mv_key m) w r = true.
Proof.
  unfold moves. destruct (is_verify r); [|by intros ?%elem_of_nil]. by intros [? ?]%filter_elem.
Qed.

Lemma is_moved_verdict moved w r :
  is_moved moved w r = true ->
  one_destination r = true /\ exists m, m ∈ moved /\ written (mv_key m) = w.
Proof.
  unfold is_moved. intros [Ho Hm]%andb_true_iff. split; [done|].
  destruct (moves moved w r) as [|m l] eqn:E; [done|].
  destruct (moves_elem moved w r m) as (Hin & _ & Hk); [rewrite E; left|].
  exists m. split; [done|]. unfold key_names in Hk. by reflect_bools.
Qed.

Lemma settled_elem b moved role r :
  r ∈ settled b moved role (other_role role) <->
  (exists r0, r0 ∈ set_for b role /\ is_moved moved role r0 = false /\ r = as_route r0)
  \/ (exists r0, r0 ∈ set_for b (other_role role) /\ is_moved moved (other_role role) r0 = true
                 /\ r = as_route r0)
  \/ (exists r0 m, r0 ∈ set_for b (other_role role) /\ one_destination r0 = false
                   /\ m ∈ moves moved (other_role role) r0 /\ r = proven_host r0 m).
Proof.
  unfold settled. rewrite elem_of_app, list_elem_of_fmap, list_elem_of_bind.
  setoid_rewrite elem_of_app. setoid_rewrite filter_elem. setoid_rewrite negb_true_iff.
  unfold proven_hosts. split.
  - intros [(r0 & -> & [[? ?]|[? ?]])|(r0 & Hr & Hr0)]; [by eauto 10|by eauto 10|].
    destruct (one_destination r0) eqn:Eo; [by apply elem_of_nil in Hr|].
    apply list_elem_of_fmap in Hr as (m & -> & Hm). eauto 10.
  - intros [(r0 & ? & ? & ->)|[(r0 & ? & ? & ->)|(r0 & m & ? & Eo & ? & ->)]]; [eauto 10|eauto 10|].
    right. exists r0. rewrite Eo. split; [|done]. apply list_elem_of_fmap. eauto.
Qed.

Lemma effective_set b moved role :
  existsb is_verify (primary b ++ secondary b) = true ->
  set_for (with_verify_effective b moved) role = from_rules (settled b moved role (other_role role)).
Proof. intros H. unfold with_verify_effective. rewrite H. by destruct role. Qed.

Lemma proven_host_one_destination r m : one_destination (proven_host r m) = true.
Proof. unfold one_destination, proven_host. cbn. by destruct (parse_ip_addr _). Qed.

(** What enforcement makes of [?] rules: no [?] rule is left; a rule wider
    than one destination stays in the set it is written in, whatever the
    verdicts; and a rule that appears in a set without being written there
    names one destination and is there because of a verdict about a rule of the
    other set. *)
Theorem verify_effective_confined b moved role :
  (forall r, r ∈ set_for (with_verify_effective b moved) role -> r_action r <> Verify)
  /\ (forall r, r ∈ set_for b role -> one_destination r = false ->
      as_route r ∈ set_for (with_verify_effective b moved) role)
  /\ (forall r, r ∈ set_for (with_verify_effective b moved) role ->
      (exists r0, r0 ∈ set_for b role /\ r = as_route r0)
      \/ (one_destination r = true
          /\ exists m, m ∈ moved /\ written (mv_key m) = other_role role)).
Proof.
  destruct (existsb is_verify (primary b ++ secondary b)) eqn:E.
  - rewrite effective_set by done. setoid_rewrite from_rules_perm. setoid_rewrite settled_elem.
    split; [|split].
    + intros r [(r0 & _ & _ & ->)|[(r0 & _ & _ & ->)|(r0 & m & _ & _ & _ & ->)]];
        [apply as_route_action..|done].
    + intros r Hr Ho. left. exists r. split; [done|]. split; [|done]. unfold is_moved. by rewrite Ho.
    + intros r [(r0 & ? & _ & ->)|[(r0 & _ & Hm & ->)|(r0 & m & _ & _ & Hm & ->)]]; [eauto|right..].
      * apply is_moved_verdict in Hm as [Ho Hm]. split; [|done]. unfold as_route, one_destination in *.
        by destruct (is_verify r0).
      * split; [apply proven_host_one_destination|]. apply moves_elem in Hm as (Hin & _ & Hk).
        exists m. split; [done|]. unfold key_names in Hk. by reflect_bools.
  - unfold with_verify_effective. rewrite E. cbn [negb]. split; [|split].
    + intros r Hr. rewrite <- (set_for_no_verify b role r) by done. apply as_route_action.
    + intros r Hr _. by rewrite (set_for_no_verify b role r).
    + intros r Hr. left. exists r. by rewrite (set_for_no_verify b role r).
Qed.

Lemma moves_perm moved moved' w r : moved ≡ₚ moved' -> moves moved w r ≡ₚ moves moved' w r.
Proof.
  intros P. unfold moves. destruct (is_verify r); simpl; [|done].
  induction P as [|x l k P IH|x y l|l k m P1 IH1 P2 IH2]; simpl; [done|..].
  - destruct (key_names _ _ _); [by f_equiv|done].
  - destruct (key_names (mv_key y) w r), (key_names (mv_key x) w r); try done. apply Permutation_swap.
  - by rewrite IH1.
Qed.

Lemma is_moved_perm moved moved' w r : moved ≡ₚ moved' -> is_moved moved w r = is_moved moved' w r.
Proof.
  intros P. unfold is_moved. f_equal. pose proof (moves_perm moved moved' w r P) as M.
  destruct (moves moved w r), (moves moved' w r); try done; by apply Permutation_length in M.
Qed.

(** The verdicts are an unordered set: the order they are visited in does
    not show in the effective book. *)
Theorem verify_effective_order_free b moved moved' role :
  moved ≡ₚ moved' ->
  rule_view <$> set_for (with_verify_effective b moved) role
  = rule_view <$> set_for (with_verify_effective b moved') role.
Proof.
  intros P. destruct (existsb is_verify (primary b ++ secondary b)) eqn:E.
  2: { unfold with_verify_effective. by rewrite E. }
  rewrite !effective_set, !from_rules_view by done. apply sort_by_canonical; [apply _|].
  apply Permutation_map. unfold settled.
  rewrite (List.filter_ext _ (fun r => negb (is_moved moved' role r)))
    by (intros; by rewrite (is_moved_perm moved moved')).
  rewrite (List.filter_ext (is_moved moved (other_role role)) (is_moved moved' (other_role role)))
    by (intros; by apply is_moved_perm).
  apply Permutation_app_head. induction (set_for b (other_role role)) as [|r l IH]; [done|].
  cbn. apply Permutation_app; [|exact IH]. unfold proven_hosts. destruct (one_destination r); [done|].
  apply Permutation_map. by apply moves_perm.
Qed.

Lemma verify_effective_order_free_witness :
  let wide := mkCanonicalRule (u "1") true (Some (SuffixDomain (u "example.io"))) None [] Verify None in
  let b := mkCanonicalRuleBook [wide] [] in
  let m h := mkVerifyMove (mkVerifyKey Primary (SuffixDomain (u "example.io"))) h in
  rule_view <$> set_for (with_verify_effective b [m (u "b.example.io"); m (u "a.example.io")]) Secondary
  = rule_view <$> set_for (with_verify_effective b [m (u "a.example.io"); m (u "b.example.io")]) Secondary.
Proof.
  intros wide b m. apply (verify_effective_order_free b). apply Permutation_swap.
Defined.

(** ** [base.*] twins *)

Lemma any_zone_twins_elem b sites set t :
  t ∈ any_zone_twins b sites set <->
  exists r base name, r ∈ set /\ r_enabled r = true /\ r_address_match r = Some (AnyZoneDomain base)
    /\ name ∈ sites base /\ names_suffix_outright b name = false /\ t = any_zone_twin r name.
Proof.
  unfold any_zone_twins. rewrite list_elem_of_bind. split.
  - intros (r & Ht & [Hr He]%filter_elem). destruct (r_address_match r) as [[]|] eqn:Ea;
      try by apply elem_of_nil in Ht.
    apply list_elem_of_fmap in Ht as (name & -> & [Hn Ho]%filter_elem).
    rewrite dedup_elem, sort_by_elem_of in Hn. apply negb_true_iff in Ho. eauto 10.
  - intros (r & base & name & Hr & He & Ea & Hn & Ho & ->). exists r.
    split; [|by apply filter_elem]. rewrite Ea. apply list_elem_of_fmap. exists name. split; [done|].
    apply filter_elem. rewrite dedup_elem, sort_by_elem_of, Ho. done.
Qed.

(** A [base.*] rule is enforced through its twins: when a host it covers
    belongs to a site that was seen, the book enforcement sees either spells
    that site out in a rule of the user's, or has a suffix rule for it in the
    same set, with the same application and action, that covers the host.
    Nothing of the book is lost, and only suffix rules are added. *)
Theorem any_zone_sites_enforced b sites role r base host name :
  r ∈ set_for b role -> r_enabled r = true -> r_address_match r = Some (AnyZoneDomain base) ->
  match_any_zone_domain host base = Some name -> name ∈ sites base ->
  (names_suffix_outright b name = true
   \/ exists t, t ∈ set_for (with_any_zone_sites b sites) role
      /\ r_address_match t = Some (SuffixDomain name) /\ match_suffix_domain host name = true
      /\ r_app_match t = r_app_match r /\ r_action t = r_action r /\ r_enabled t = true)
  /\ (forall x, x ∈ set_for b role -> x ∈ set_for (with_any_zone_sites b sites) role)
  /\ (forall x, x ∈ set_for (with_any_zone_sites b sites) role -> x ∈ set_for b role
      \/ exists d, r_address_match x = Some (SuffixDomain d) /\ r_origin x = None).
Proof.
  intros Hr He Ha Hm Hn.
  assert (Hset : forall x, x ∈ set_for (with_any_zone_sites b sites) role <->
                           x ∈ set_for b role \/ x ∈ any_zone_twins b sites (set_for b role)).
  { assert (has_any_zone_rules b = true) as Hany.
    { apply existsb_elem. exists r. rewrite Ha. split; [|done]. apply elem_of_app.
      destruct role; auto. }
    intros x. unfold with_any_zone_sites. rewrite Hany.
    destruct role; cbn; by rewrite from_rules_perm, elem_of_app. }
  split; [|split].
  - destruct (names_suffix_outright b name) eqn:Eo; [by left|right]. exists (any_zone_twin r name).
    split; [|split; [done|split; [|done]]].
    + apply Hset. right. apply any_zone_twins_elem. eauto 10.
    + apply match_any_zone_domain_Some in Hm as (Hb & site & zone & -> & _ & Hs & ->).
      apply match_suffix_domain_true in Hs as [_ Hs]. apply match_suffix_domain_true.
      split; [by destruct base|]. destruct Hs as [->|(pre & Hp & ->)]; [by left|right].
      exists pre. split; [done|]. by rewrite <- app_assoc.
  - intros x Hx. apply Hset. auto.
  - intros x [Hx|Hx]%Hset; [by left|right].
    apply any_zone_twins_elem in Hx as (r0 & base0 & n0 & _ & _ & _ & _ & _ & ->). by exists n0.
Qed.

Lemma any_zone_sites_enforced_witness :
  let r := mkCanonicalRule (u "1") true (Some (AnyZoneDomain (u "example"))) None [] Block None in
  let b := mkCanonicalRuleBook [] [r] in
  let sites base := if str_eqb base (u "example") then [u "example.co.uk"] else [] in
  names_suffix_outright b (u "example.co.uk") = false
  /\ exists t, t ∈ set_for (with_any_zone_sites b sites) Secondary /\ r_action t = Block
               /\ r_address_match t = Some (SuffixDomain (u "example.co.uk")).
Proof.
  intros r b sites. split; [by vm_compute|].
  destruct (any_zone_sites_enforced b sites Secondary r (u "example") (u "www.example.co.uk")
    (u "example.co.uk")) as ([H|(t & Ht & Hd & _ & _ & Hact & _)] & _);
    [by left|done|done|by vm_compute|by left|by vm_compute in H|].
  exists t. by rewrite Hact.
Defined.
