(* ===== verification/Normalize.v ===== *)
(** * Normalizing an observed connection

    core/domain/src/decision_engine_input.rs, with the data of
    decision_normalization.rs, decision_pipeline.rs and decision_lookup.rs: the
    first stage of a routing decision. The conversion of a Unicode name to its
    ASCII form is the crate [idna], a field of the class [Idna]. *)

From stdpp Require Import base numbers list.
From S2P Require Import Prelude Str IpAddr AppPath AppIdentity.

Open Scope nat_scope.

(** ** Data *)

Inductive NormalizationWarning : Set :=
| Ipv4MappedIpv6NormalizedToIpv4 (original normalized : Z)
| ApplicationBareProcessNameWeakIdentity (process_name : str)
| ApplicationPathStripped (original_path normalized_name : str)
| ApplicationExeSuffixAdded (original : str)
| DomainTrailingDotRemoved
| DomainPunycodeEncoded (original punycode : str)
| ZoneLeadingDotRemoved (original : str).

Inductive NormalizationError : Set :=
| DomainEmpty
| DomainInvalidCharacters (raw : str)
| DomainIdnaFailed (raw : str)
| DomainMalformedLabels (raw : str)
| ZoneNameEmpty
| ZoneNameContainsWhitespace (raw : str)
| ZoneNameInvalidCharacters (raw : str)
| ApplicationNameEmpty.

Inductive NormalizedHostname : Set :=
| HostValid (host : str)
| HostUnavailable
| HostInvalid (raw : str) (error : NormalizationError).

Inductive NormalizedIp : Set :=
| ValidIpv4 (v4 : Z)
| IpUnavailable
| ValidIpv6 (v6 : Z).

Record NormalizedAppIdentity : Set := mkNormalizedAppIdentity {
  process_name : str;
  original_path : option str;
  identity_warnings : list NormalizationWarning;
}.

Inductive InputAvailabilitySignal : Set :=
| HostnameUnavailable
| IpUnavailableSignal
| AppContextUnavailable.

(** The error that blocks a class, [None] when it is available. *)
Record MatchClassAvailability : Set := mkMatchClassAvailability {
  exact_fqdn : option NormalizationError;
  suffix_domain : option NormalizationError;
  zone : option NormalizationError;
  exact_ip : option NormalizationError;
  application : option NormalizationError;
}.

Definition is_none {A} (o : option A) : bool := match o with None => true | Some _ => false end.

Definition all_available (a : MatchClassAvailability) : bool :=
  is_none (exact_fqdn a) && is_none (suffix_domain a) && is_none (zone a)
  && is_none (exact_ip a) && is_none (application a).

Definition all_address_classes_blocked (a : MatchClassAvailability) : bool :=
  negb (is_none (exact_fqdn a)) && negb (is_none (suffix_domain a)) && negb (is_none (zone a))
  && negb (is_none (exact_ip a)).

Definition nothing_available (a : MatchClassAvailability) : bool :=
  all_address_classes_blocked a && negb (is_none (application a)).

Record NormalizedDecisionInput : Set := mkNormalizedDecisionInput {
  hostname : NormalizedHostname;
  ip : NormalizedIp;
  app_identity : option NormalizedAppIdentity;
  match_class_availability : MatchClassAvailability;
  availability_signals : list InputAvailabilitySignal;
  warnings : list NormalizationWarning;
}.

(** The fields of [ProcessContext] and [RuntimeInput] the stage reads. *)
Record ProcessContext : Set := mkProcessContext {
  ctx_process_name : option str;
  ctx_process_path : option str;
}.

Record RuntimeInput : Set := mkRuntimeInput {
  process_context : ProcessContext;
  destination_hostname : option str;
  destination_ip : option IpAddr;
}.

Inductive CacheEntryState : Set :=
  Fresh | StaleUsable | StaleNotUsable | Missing | Conflicting | NegativeCached.

Definition is_usable_for_matching (s : CacheEntryState) : bool :=
  match s with Fresh | StaleUsable => true | _ => false end.

(** The part of a [ResolvedAddressEntry] matching reads. *)
Record ResolvedAddressEntry : Set := mkResolvedAddressEntry {
  resolved_addr : IpAddr;
  cache_state : CacheEntryState;
}.

Record LookupResult : Set := mkLookupResult { selected_ip : option ResolvedAddressEntry }.

(** ** The stage *)

(** [idna::domain_to_ascii]; [None] is its error. *)
Class Idna := { domain_to_ascii : str -> option str }.

Definition MAX_HOSTNAME_OCTETS : nat := 253.
Definition MAX_LABEL_OCTETS : nat := 63.

Definition dns_labels_are_well_formed (host : str) : bool :=
  if is_empty host || (MAX_HOSTNAME_OCTETS <? byte_len host) then false
  else forallb (fun label => negb (is_empty label) && (byte_len label <=? MAX_LABEL_OCTETS))
         (split (is_char DOT) host).

Definition hostname_char (c : char) : bool :=
  is_ascii_alphanumeric c || (c =? DOT)%N || (c =? DASH)%N || (c =? UNDERSCORE)%N.

(** [str::trim_end_matches] with a string: the suffix, as often as it stands
    there. *)
Fixpoint strip_suffixes (fuel : nat) (suf s : str) : str :=
  match fuel with
  | O => s
  | S fuel' => match strip_suffix suf s with Some r => strip_suffixes fuel' suf r | None => s end
  end.

Definition trim_end_matches_str (suf s : str) : str := strip_suffixes (length s) suf s.

Section Normalize.
Context `{Unicode} `{Idna}.

Definition normalize_hostname_value (raw : option str)
  : NormalizedHostname * list NormalizationWarning :=
  match raw with
  | None => (HostUnavailable, [])
  | Some h =>
      let trimmed := trim h in
      if is_empty trimmed then (HostInvalid h DomainEmpty, [])
      else
        let '(without_dot, warnings) :=
          match strip_suffix [DOT] trimmed with
          | Some stripped => (stripped, [DomainTrailingDotRemoved])
          | None => (trimmed, [])
          end in
        if is_ascii without_dot then
          let lowercased := to_ascii_lowercase without_dot in
          if forallb hostname_char lowercased then
            if negb (dns_labels_are_well_formed lowercased)
            then (HostInvalid h (DomainMalformedLabels h), warnings)
            else (HostValid lowercased, warnings)
          else (HostInvalid h (DomainInvalidCharacters h), warnings)
        else
          match domain_to_ascii without_dot with
          | Some ascii =>
              let warnings := if negb (str_eqb ascii without_dot)
                              then warnings ++ [DomainPunycodeEncoded without_dot ascii]
                              else warnings in
              if negb (dns_labels_are_well_formed ascii)
              then (HostInvalid h (DomainMalformedLabels h), warnings)
              else (HostValid ascii, warnings)
          | None => (HostInvalid h (DomainIdnaFailed h), warnings)
          end
  end.

Definition hostname_ace (raw : str) : option str :=
  match fst (normalize_hostname_value (Some raw)) with
  | HostValid host => Some host
  | _ => None
  end.

Definition normalize_ip_value (raw : option IpAddr) : NormalizedIp * list NormalizationWarning :=
  match raw with
  | None => (IpUnavailable, [])
  | Some raw =>
      match raw, canonical_ip raw with
      | V6 original, V4 normalized =>
          (ValidIpv4 normalized, [Ipv4MappedIpv6NormalizedToIpv4 original normalized])
      | _, V4 v4 => (ValidIpv4 v4, [])
      | _, V6 v6 => (ValidIpv6 v6, [])
      end
  end.

Definition normalize_app_identity_value (ctx : ProcessContext)
  : option NormalizedAppIdentity * list InputAvailabilitySignal :=
  match ctx_process_name ctx with
  | None => (None, [AppContextUnavailable])
  | Some raw_name =>
      let trimmed := trim raw_name in
      if is_empty trimmed then (None, [AppContextUnavailable])
      else
        let contains_sep := contains_char (is_char SLASH) trimmed
                            || contains_char (is_char BACKSLASH) trimmed in
        let original_path := match ctx_process_path ctx with
                             | Some p => Some p
                             | None => if contains_sep then Some trimmed else None
                             end in
        let filename := if contains_sep then last_component trimmed else trimmed in
        let w1 := if contains_sep then [ApplicationPathStripped trimmed filename] else [] in
        let lowercased := to_lowercase filename in
        let exe := ends_with (u ".exe") lowercased in
        let process_name := if exe then lowercased else lowercased ++ u ".exe" in
        let w2 := if exe then [] else [ApplicationExeSuffixAdded lowercased] in
        if is_empty (trim_end_matches_str (u ".exe") process_name)
        then (None, [AppContextUnavailable])
        else
          let w3 := if is_none original_path && negb contains_sep
                    then [ApplicationBareProcessNameWeakIdentity process_name] else [] in
          (Some {| process_name := process_name; original_path := original_path;
                   identity_warnings := w1 ++ w2 ++ w3 |}, [])
  end.

Definition derive_match_class_availability (host : NormalizedHostname)
  (app : option NormalizedAppIdentity) : MatchClassAvailability :=
  let hostname_block := match host with
                        | HostValid _ => None
                        | HostUnavailable => Some DomainEmpty
                        | HostInvalid _ error => Some error
                        end in
  {| exact_fqdn := hostname_block; suffix_domain := hostname_block; zone := hostname_block;
     exact_ip := None;
     application := match app with None => Some ApplicationNameEmpty | Some _ => None end |}.

Definition normalize_runtime_input (input : RuntimeInput) : NormalizedDecisionInput :=
  let '(host, hn_warnings) := normalize_hostname_value (destination_hostname input) in
  let s1 := match host with HostUnavailable => [HostnameUnavailable] | _ => [] end in
  let '(addr, ip_warnings) := normalize_ip_value (destination_ip input) in
  let s2 := match addr with IpUnavailable => [IpUnavailableSignal] | _ => [] end in
  let '(app, app_signals) := normalize_app_identity_value (process_context input) in
  {| hostname := host; ip := addr; app_identity := app;
     match_class_availability := derive_match_class_availability host app;
     availability_signals := s1 ++ s2 ++ app_signals;
     warnings := hn_warnings ++ ip_warnings |}.

(** ** Normal forms *)

Lemma labels_no_trailing_dot host :
  dns_labels_are_well_formed host = true -> strip_suffix [DOT] host = None /\ host <> [].
Proof using Type.
  unfold dns_labels_are_well_formed. destruct (is_empty host) eqn:E; [done|].
  apply is_empty_false in E. destruct (_ <? _); [done|]. simpl. intros Hl. split; [|done].
  destruct (strip_suffix [DOT] host) as [r|] eqn:Es; [|done].
  apply strip_suffix_Some in Es as ->. rewrite split_app in Hl by done.
  rewrite forallb_app in Hl. by apply andb_true_iff in Hl as [_ Hl].
Qed.

Lemma hostname_char_not_whitespace c : hostname_char c = true -> is_whitespace c = false.
Proof using Type.
  unfold hostname_char, is_ascii_alphanumeric, is_ascii_alphabetic, is_ascii_uppercase,
    is_ascii_lowercase, is_ascii_digit, is_whitespace, DOT, DASH, UNDERSCORE.
  intros Hc. rewrite !orb_true_iff, !andb_true_iff, !N.leb_le, !N.eqb_eq in Hc.
  apply not_true_iff_false. rewrite !orb_true_iff, !andb_true_iff, !N.leb_le, !N.eqb_eq. lia.
Qed.

Lemma hostname_chars_no_whitespace h :
  forallb hostname_char h = true -> contains_char is_whitespace h = false.
Proof using Type.
  intros Hh. apply contains_char_false. intros c Hc. apply hostname_char_not_whitespace.
  rewrite forallb_forall in Hh. by apply Hh, list_elem_of_In.
Qed.

Lemma hostname_char_ascii h : forallb hostname_char h = true -> is_ascii h = true.
Proof using Type.
  intros Hh. unfold is_ascii. rewrite forallb_forall in *. intros c Hc. specialize (Hh c Hc).
  unfold hostname_char, is_ascii_alphanumeric, is_ascii_alphabetic, is_ascii_uppercase,
    is_ascii_lowercase, is_ascii_digit, DOT, DASH, UNDERSCORE in Hh.
  rewrite !orb_true_iff, !andb_true_iff, !N.leb_le, !N.eqb_eq in Hh. apply N.ltb_lt. lia.
Qed.

(** An ASCII name in normal form is its own normal form. *)
Lemma normal_hostname_fixed h :
  forallb hostname_char h = true -> to_ascii_lowercase h = h ->
  dns_labels_are_well_formed h = true -> normalize_hostname_value (Some h) = (HostValid h, []).
Proof using Type.
  intros Hc Hl Hw. destruct (labels_no_trailing_dot h Hw) as [Hd Hne].
  unfold normalize_hostname_value. rewrite trim_id by (by apply hostname_chars_no_whitespace).
  destruct (is_empty h) eqn:E; [by apply is_empty_true in E|].
  rewrite Hd, (hostname_char_ascii h Hc), Hl, Hc, Hw. done.
Qed.

Lemma is_ascii_elem s t : (forall c, c ∈ s -> c ∈ t) -> is_ascii t = true -> is_ascii s = true.
Proof using Type.
  unfold is_ascii. rewrite !forallb_forall. intros Hsub Ht c Hc.
  apply Ht, list_elem_of_In, Hsub, list_elem_of_In, Hc.
Qed.

(** The host name decisions key on is in normal form: whenever a name is
    accepted it has at most 253 octets in labels of 1 to 63, and for an ASCII
    name it is lowercase, made of letters, digits, dots, dashes and underscores
    only, and is its own normal form, with nothing to warn about. *)
Theorem hostname_normal_form raw h w :
  normalize_hostname_value (Some raw) = (HostValid h, w) ->
  dns_labels_are_well_formed h = true
  /\ (is_ascii raw = true ->
      forallb hostname_char h = true /\ to_ascii_lowercase h = h
      /\ normalize_hostname_value (Some h) = (HostValid h, [])).
Proof using Type.
  unfold normalize_hostname_value at 1. destruct (is_empty (trim raw)); [done|].
  destruct (match strip_suffix [DOT] (trim raw) with Some _ => _ | None => _ end)
    as [without_dot w0] eqn:E.
  assert (Hsub : forall c, c ∈ without_dot -> c ∈ raw).
  { intros c Hc. apply trim_elem. destruct (strip_suffix [DOT] (trim raw)) as [r|] eqn:Es;
      injection E as <- _; [|done].
    apply strip_suffix_Some in Es. rewrite Es. apply elem_of_app. by left. }
  destruct (is_ascii without_dot) eqn:Ea.
  - destruct (forallb hostname_char _) eqn:Ec; [|done].
    destruct (dns_labels_are_well_formed _) eqn:Ew; [|done]. simpl. intros [= <- <-].
    split; [done|]. intros _. split; [done|]. split; [apply to_ascii_lowercase_idemp|].
    apply normal_hostname_fixed; [done|apply to_ascii_lowercase_idemp|done].
  - destruct (domain_to_ascii without_dot) as [ascii|]; [|done].
    destruct (dns_labels_are_well_formed ascii) eqn:Ew; [|done]. simpl. intros [= <- <-].
    split; [done|]. intros Hr. by rewrite (is_ascii_elem without_dot raw) in Ea.
Qed.

(** The name of a process is reduced as the rules are. *)
Lemma process_name_canonical ctx raw identity signals :
  ctx_process_name ctx = Some raw ->
  normalize_app_identity_value ctx = (Some identity, signals) ->
  process_name identity = fst (canonical_exact_process_name raw WindowsExe) /\ trim raw <> [].
Proof using Type.
  intros Hraw. unfold normalize_app_identity_value, canonical_exact_process_name. rewrite Hraw.
  destruct (is_empty (trim raw)) eqn:E; [done|]. apply is_empty_false in E.
  case_match; [done|]. intros [= <- _]. cbn [process_name]. split; [|done]. by case_match.
Qed.

Lemma exact_ip_always_available input :
  exact_ip (match_class_availability (normalize_runtime_input input)) = None.
Proof using Type.
  unfold normalize_runtime_input.
  destruct (normalize_hostname_value _), (normalize_ip_value _), (normalize_app_identity_value _). done.
Qed.

End Normalize.

Definition no_idna : Idna := {| domain_to_ascii := fun _ => None |}.

Lemma hostname_normal_form_witness :
  @normalize_hostname_value no_idna (Some (u " WWW.Example_1.COM. "))
  = (HostValid (u "www.example_1.com"), [DomainTrailingDotRemoved])
  /\ @normalize_hostname_value no_idna (Some (u "www.example_1.com"))
     = (HostValid (u "www.example_1.com"), []).
Proof.
  assert (E : @normalize_hostname_value no_idna (Some (u " WWW.Example_1.COM. "))
    = (HostValid (u "www.example_1.com"), [DomainTrailingDotRemoved])) by (by vm_compute).
  split; [exact E|].
  refine (proj2 (proj2 (proj2 (@hostname_normal_form no_idna _ _ _ E) _))). by vm_compute.
Defined.
