(* ===== verification/Matching.v ===== *)
(** * The rule matching stage

    core/domain/src/decision_rules_matching.rs over the data of
    decision_matching.rs: which rule of the book decides a connection. The
    stage collects the candidates of one tier after another and selects a
    winner in the first tier that has an eligible one; two vetoes come before
    the tiers. *)

From stdpp Require Import base sorting numbers list.
From S2P Require Import Prelude Str IpAddr IpBlock AppPath AppIdentity Glob HostMatch Canonical Normalize.

Open Scope nat_scope.

(** ** Data *)

(** shared/contracts/src/routing.rs. *)
Inductive RouteBehaviorMode : Set := PreferPrimary | PreferSecondaryWhenAvailable.

Inductive MatchClass : Set :=
| CExactFqdn | CSuffixDomain | CExactIp | CSubnet | CZone | CApplication | CDefault.

#[export] Instance MatchClass_eq_dec : EqDecision MatchClass.
Proof. solve_decision. Defined.

(** [SpecificityScore], a [u32]. *)
Abbreviation SpecificityScore := N (only parsing).

Definition label_count (label : str) : SpecificityScore :=
  if is_empty label then 0%N else N.of_nat (length (split (is_char DOT) label)).

Definition SINGLE : SpecificityScore := 1%N.
Definition APP_FILE : SpecificityScore := 1001%N.
Definition APP_EXACT : SpecificityScore := 1000%N.
Definition APP_GLOB : SpecificityScore := 1%N.

Definition app_folder (depth : nat) (with_subfolders : bool) : SpecificityScore :=
  let depth := N.of_nat (Nat.min depth MAX_PATH_SEGMENTS) in
  (2 + 2 * depth + (if with_subfolders then 0 else 1))%N.

Inductive AppFilterResult : Set := NoFilter | Matched | NotMatched.

Definition is_eligible (r : AppFilterResult) : bool :=
  match r with NotMatched => false | _ => true end.

Inductive ConflictMarker : Set := NoConflict | Detected.

Record RuleMatchCandidate : Set := mkCandidate {
  c_rule_id : str;
  c_route_role : RouteRole;
  c_match_class : MatchClass;
  c_specificity : SpecificityScore;
  c_app_filter_result : AppFilterResult;
  c_conflict : ConflictMarker;
  c_action : RuleAction;
}.

Record ZonePriorityPolicy : Set := mkZonePriorityPolicy { prefer_ip : bool }.

Definition tier3_order (p : ZonePriorityPolicy) : list MatchClass :=
  if prefer_ip p then [CExactIp; CSubnet; CZone] else [CZone; CExactIp; CSubnet].

Inductive NoMatchReason : Set := AllClassesBlocked | EmptyRuleBook | NoMatchFound.

Inductive RequestedRouteDecision : Set :=
| MatchedRoute (candidate : RuleMatchCandidate)
| DefaultRoute (reason : NoMatchReason) (behavior_mode : RouteBehaviorMode).

(** ** Winner selection *)

Definition role_rank (role : RouteRole) : N := match role with Primary => 0 | Secondary => 1 end.

Definition apex_rank (class : MatchClass) : N := match class with CZone => 0 | _ => 1 end.

Definition action_rank (action : RuleAction) : N :=
  match action with Block => 0 | Route | Verify => 1 end.

Definition candidate_cmp : RuleMatchCandidate -> RuleMatchCandidate -> comparison :=
  cmp_then (cmp_rev (cmp_on c_specificity N.compare))
    (cmp_then (cmp_on (fun c => apex_rank (c_match_class c)) N.compare)
       (cmp_then (cmp_on (fun c => action_rank (c_action c)) N.compare)
          (cmp_then (cmp_on (fun c => role_rank (c_route_role c)) N.compare)
             (cmp_on c_rule_id str_cmp)))).

Definition set_conflict (c : RuleMatchCandidate) (m : ConflictMarker) : RuleMatchCandidate :=
  {| c_rule_id := c_rule_id c; c_route_role := c_route_role c; c_match_class := c_match_class c;
     c_specificity := c_specificity c; c_app_filter_result := c_app_filter_result c;
     c_conflict := m; c_action := c_action c |}.

(** A candidate of the winner's rank on the other route. *)
Definition conflicts_with (top c : RuleMatchCandidate) : bool :=
  (c_specificity c =? c_specificity top)%N
  && (apex_rank (c_match_class c) =? apex_rank (c_match_class top))%N
  && negb (bool_decide (c_route_role c = c_route_role top)).

Definition eligible (c : RuleMatchCandidate) : bool := is_eligible (c_app_filter_result c).

Definition select_winner (candidates : list RuleMatchCandidate) : option RuleMatchCandidate :=
  match sort_by candidate_cmp (List.filter eligible candidates) with
  | [] => None
  | winner :: rest =>
      Some (set_conflict winner (if existsb (conflicts_with winner) rest then Detected else NoConflict))
  end.

Definition make_candidate (rule_id : str) (route_role : RouteRole) (match_class : MatchClass)
  (specificity : SpecificityScore) (app_filter_result : AppFilterResult) (action : RuleAction)
  : RuleMatchCandidate :=
  {| c_rule_id := rule_id; c_route_role := route_role; c_match_class := match_class;
     c_specificity := specificity; c_app_filter_result := app_filter_result;
     c_conflict := NoConflict; c_action := action |}.

(** ** The stage *)

Section Matching.
Context `{Unicode}.

Definition app_match_specificity (pattern : CanonicalAppPattern) (proc : NormalizedAppIdentity)
  : option SpecificityScore :=
  match pattern with
  | Exact p =>
      if str_eqb (app_match_key p) (app_match_key (process_name proc))
      then Some APP_EXACT else None
  | Canonical.Glob p =>
      let observed := app_match_key (process_name proc) in
      if glob_match (app_match_key p) observed then Some APP_GLOB else None
  | Path path =>
      match original_path proc with
      | None => None
      | Some image =>
          match match_image path image with
          | Some File => Some APP_FILE
          | Some Folder => Some (app_folder (depth path) false)
          | Some FolderTree => Some (app_folder (depth path) true)
          | Some FileOrFolder | None => None
          end
      end
  end.

Definition eval_app_filter (rule : CanonicalRule) (proc : option NormalizedAppIdentity)
  : AppFilterResult :=
  match r_app_match rule with
  | None => NoFilter
  | Some app_match =>
      match proc with
      | None => NotMatched
      | Some proc =>
          match app_match_specificity (pattern app_match) proc with
          | Some _ => Matched
          | None => NotMatched
          end
      end
  end.

(** The two nested loops every collector runs: the enabled rules of the primary
    set, then those of the secondary one. *)
Definition for_each_enabled (book : CanonicalRuleBook)
  (f : RouteRole -> CanonicalRule -> list RuleMatchCandidate) : list RuleMatchCandidate :=
  role ← [Primary; Secondary]; List.filter r_enabled (set_for book role) ≫= f role.

Section Collect.
Context (rule_book : CanonicalRuleBook) (proc : option NormalizedAppIdentity).

Definition exact_fqdn_candidates (host : str) (role : RouteRole) (rule : CanonicalRule)
  : list RuleMatchCandidate :=
  match r_address_match rule with
  | Some (ExactFqdn label) =>
      if str_eqb label host
      then [make_candidate (r_id rule) role CExactFqdn (label_count label)
              (eval_app_filter rule proc) (r_action rule)]
      else []
  | _ => []
  end.

Definition suffix_domain_candidates (host : str) (role : RouteRole) (rule : CanonicalRule)
  : list RuleMatchCandidate :=
  match r_address_match rule with
  | Some (SuffixDomain label) =>
      if match_suffix_domain host label
      then [make_candidate (r_id rule) role CSuffixDomain (label_count label)
              (eval_app_filter rule proc) (r_action rule)]
      else []
  | Some (Zone zone_name) =>
      if zone_ranks_as_suffix zone_name && match_zone host zone_name
         && negb (holds_suffix (set_for rule_book role) zone_name (r_app_match rule))
      then [make_candidate (r_id rule) role CZone (label_count zone_name)
              (eval_app_filter rule proc) (r_action rule)]
      else []
  | Some (AnyZoneDomain base) =>
      match match_any_zone_domain host base with
      | Some named =>
          if negb (names_suffix_outright rule_book named)
          then [make_candidate (r_id rule) role CSuffixDomain (label_count named)
                  (eval_app_filter rule proc) (r_action rule)]
          else []
      | None => []
      end
  | _ => []
  end.

Definition zone_candidates (host : str) (role : RouteRole) (rule : CanonicalRule)
  : list RuleMatchCandidate :=
  match r_address_match rule with
  | Some (Zone zone_name) =>
      if negb (zone_ranks_as_suffix zone_name) && match_zone host zone_name
      then [make_candidate (r_id rule) role CZone (label_count zone_name)
              (eval_app_filter rule proc) (r_action rule)]
      else []
  | _ => []
  end.

Definition exact_ip_candidates (addr : IpAddr) (role : RouteRole) (rule : CanonicalRule)
  : list RuleMatchCandidate :=
  match r_address_match rule with
  | Some (ExactIp rule_ip) =>
      if bool_decide (rule_ip = addr)
      then [make_candidate (r_id rule) role CExactIp SINGLE
              (eval_app_filter rule proc) (r_action rule)]
      else []
  | _ => []
  end.

Definition subnet_candidates (addr : IpAddr) (role : RouteRole) (rule : CanonicalRule)
  : list RuleMatchCandidate :=
  match r_address_match rule ≫= ip_blocks with
  | Some blocks =>
      match find_first (fun b => IpBlock_contains b addr) blocks with
      | Some block =>
          [make_candidate (r_id rule) role CSubnet (Z.to_N (prefix_len block))
             (eval_app_filter rule proc) (r_action rule)]
      | None => []
      end
  | None => []
  end.

Definition collect_exact_fqdn (host : str) := for_each_enabled rule_book (exact_fqdn_candidates host).
Definition collect_suffix_domain (host : str) := for_each_enabled rule_book (suffix_domain_candidates host).
Definition collect_zone (host : str) := for_each_enabled rule_book (zone_candidates host).
Definition collect_exact_ip (addr : IpAddr) := for_each_enabled rule_book (exact_ip_candidates addr).
Definition collect_subnet (addr : IpAddr) := for_each_enabled rule_book (subnet_candidates addr).

End Collect.

Definition application_candidates (proc : NormalizedAppIdentity) (role : RouteRole)
  (rule : CanonicalRule) : list RuleMatchCandidate :=
  match r_address_match rule, r_app_match rule with
  | None, Some app_match =>
      match app_match_specificity (pattern app_match) proc with
      | Some specificity =>
          [make_candidate (r_id rule) role CApplication specificity Matched (r_action rule)]
      | None => []
      end
  | _, _ => []
  end.

Definition collect_application (rule_book : CanonicalRuleBook) (proc : NormalizedAppIdentity) :=
  for_each_enabled rule_book (application_candidates proc).

Definition observed_ip (input : NormalizedDecisionInput) : option IpAddr :=
  match ip input with
  | ValidIpv4 v4 => Some (V4 v4)
  | ValidIpv6 v6 => Some (V6 v6)
  | IpUnavailable => None
  end.

Definition effective_ips_for_matching (input : NormalizedDecisionInput) (lookup : LookupResult)
  : list IpAddr :=
  let out := match selected_ip lookup with
             | Some selected =>
                 if is_usable_for_matching (cache_state selected) then [resolved_addr selected] else []
             | None => []
             end in
  match observed_ip input with
  | Some addr => if bool_decide (addr ∈ out) then out else out ++ [addr]
  | None => out
  end.

(** One tier: its candidates, when its class is available. *)
Definition host_tier (blocked : option NormalizationError) (input : NormalizedDecisionInput)
  (collect : str -> list RuleMatchCandidate) : list RuleMatchCandidate :=
  if is_none blocked then match hostname input with HostValid host => collect host | _ => [] end
  else [].

Definition ip_tier (blocked : option NormalizationError) (ips : list IpAddr)
  (collect : IpAddr -> list RuleMatchCandidate) : list RuleMatchCandidate :=
  if is_none blocked then ips ≫= collect else [].

Definition app_tier (blocked : option NormalizationError) (input : NormalizedDecisionInput)
  (rule_book : CanonicalRuleBook) : list RuleMatchCandidate :=
  if is_none blocked then match app_identity input with
                          | Some proc => collect_application rule_book proc
                          | None => []
                          end
  else [].

Definition is_block (c : RuleMatchCandidate) : bool := bool_decide (c_action c = Block).

(** Tries the tiers in order. *)
Fixpoint first_winner (tiers : list (list RuleMatchCandidate)) : option RuleMatchCandidate :=
  match tiers with
  | [] => None
  | t :: tiers' => match select_winner t with Some w => Some w | None => first_winner tiers' end
  end.

Definition tier3 (input : NormalizedDecisionInput) (ips : list IpAddr) (rule_book : CanonicalRuleBook)
  (class : MatchClass) : list RuleMatchCandidate :=
  let avail := match_class_availability input in
  let proc := app_identity input in
  match class with
  | CZone => host_tier (zone avail) input (collect_zone rule_book proc)
  | CExactIp => ip_tier (exact_ip avail) ips (collect_exact_ip rule_book proc)
  | CSubnet => ip_tier (exact_ip avail) ips (collect_subnet rule_book proc)
  | _ => []
  end.

Definition tiers (input : NormalizedDecisionInput) (lookup : LookupResult)
  (rule_book : CanonicalRuleBook) (zone_policy : ZonePriorityPolicy)
  : list (list RuleMatchCandidate) :=
  let avail := match_class_availability input in
  let proc := app_identity input in
  let ips := effective_ips_for_matching input lookup in
  [ (* a literal-IP block, then a denied application *)
    List.filter is_block (ip_tier (exact_ip avail) ips (collect_exact_ip rule_book proc));
    List.filter is_block (app_tier (application avail) input rule_book);
    host_tier (exact_fqdn avail) input (collect_exact_fqdn rule_book proc);
    host_tier (suffix_domain avail) input (collect_suffix_domain rule_book proc) ]
  ++ (tier3 input ips rule_book <$> tier3_order zone_policy)
  ++ [ app_tier (application avail) input rule_book ].

Definition match_rules (input : NormalizedDecisionInput) (lookup : LookupResult)
  (rule_book : CanonicalRuleBook) (zone_policy : ZonePriorityPolicy)
  (behavior_mode : RouteBehaviorMode) : RequestedRouteDecision :=
  match first_winner (tiers input lookup rule_book zone_policy) with
  | Some winner => MatchedRoute winner
  | None =>
      let reason := if nothing_available (match_class_availability input) then AllClassesBlocked
                    else if total_enabled_count rule_book =? 0 then EmptyRuleBook
                    else NoMatchFound in
      DefaultRoute reason behavior_mode
  end.

End Matching.

(** [match_sample]: the same engine over a synthetic sample. *)
Definition match_sample `{Unicode} `{Idna} (rule_book : CanonicalRuleBook) (host : option str)
  (observed : option IpAddr) (process : option str) (zone_policy : ZonePriorityPolicy)
  (behavior_mode : RouteBehaviorMode) : RequestedRouteDecision :=
  let input := normalize_runtime_input
    {| process_context := {| ctx_process_name := process; ctx_process_path := None |};
       destination_hostname := host; destination_ip := observed |} in
  match_rules input {| selected_ip := None |} rule_book zone_policy behavior_mode.

(** ** Selection *)

#[export] Instance candidate_cmp_order : CmpOrder candidate_cmp.
Proof. unfold candidate_cmp. apply _. Qed.
#[global] Typeclasses Opaque candidate_cmp.

(** Everything of a candidate but the marker. *)
Definition same_candidate (c w : RuleMatchCandidate) : Prop := exists m, w = set_conflict c m.

Lemma select_winner_None l : select_winner l = None <-> forall c, c ∈ l -> eligible c = false.
Proof.
  unfold select_winner. split.
  - destruct (sort_by candidate_cmp (List.filter eligible l)) as [|w rest] eqn:E; [|done].
    intros _ c Hc. destruct (eligible c) eqn:Ee; [|done].
    assert (Hin : c ∈ sort_by candidate_cmp (List.filter eligible l))
      by (apply sort_by_elem_of, filter_elem; auto).
    rewrite E in Hin. by apply elem_of_nil in Hin.
  - intros Hno. by rewrite filter_none.
Qed.

Lemma select_winner_Some l w :
  select_winner l = Some w ->
  exists c, c ∈ l /\ eligible c = true /\ same_candidate c w
    /\ (forall d, d ∈ l -> eligible d = true -> candidate_cmp c d <> Gt)
    /\ (c_conflict w = Detected <->
        exists d, d ∈ l /\ eligible d = true /\ conflicts_with c d = true).
Proof.
  unfold select_winner. destruct (sort_by candidate_cmp (List.filter eligible l)) as [|c rest] eqn:E; [done|].
  intros [= <-]. exists c.
  assert (Hall : forall d, d ∈ c :: rest <-> d ∈ l /\ eligible d = true).
  { intros d. by rewrite <- E, sort_by_elem_of, filter_elem. }
  destruct (proj1 (Hall c)) as [Hc He]; [left|]. split; [done|]. split; [done|].
  split; [by eexists|]. split.
  - intros d Hd Hde. eapply (sort_by_head candidate_cmp); [exact E|]. by apply filter_elem.
  - cbn [set_conflict c_conflict]. assert (Hself : conflicts_with c c = false).
    { unfold conflicts_with. rewrite bool_decide_eq_true_2 by done. apply andb_false_r. }
    destruct (existsb (conflicts_with c) rest) eqn:Ex.
    + split; [|done]. intros _. apply existsb_elem in Ex as (d & Hd & Hcd).
      exists d. destruct (proj1 (Hall d)); [by right|]. auto.
    + split; [done|]. intros (d & Hd & Hde & Hcd). rewrite existsb_false in Ex.
      assert (Hin : d ∈ c :: rest) by (apply Hall; auto).
      apply elem_of_cons in Hin as [->|Hin]; [congruence|]. by rewrite Ex in Hcd.
Qed.

(** What the order puts first. *)
Lemma candidate_cmp_le c d :
  candidate_cmp c d <> Gt ->
  (c_specificity d < c_specificity c)%N
  \/ c_specificity d = c_specificity c
     /\ ((apex_rank (c_match_class c) < apex_rank (c_match_class d))%N
         \/ apex_rank (c_match_class c) = apex_rank (c_match_class d)
            /\ ((action_rank (c_action c) < action_rank (c_action d))%N
                \/ action_rank (c_action c) = action_rank (c_action d)
                   /\ (role_rank (c_route_role c) <= role_rank (c_route_role d))%N)).
Proof.
  unfold candidate_cmp, cmp_then, cmp_rev, cmp_on, then_with.
  destruct (N.compare_spec (c_specificity d) (c_specificity c)); [|auto|done].
  destruct (N.compare_spec (apex_rank (c_match_class c)) (apex_rank (c_match_class d))); [|auto|done].
  destruct (N.compare_spec (action_rank (c_action c)) (action_rank (c_action d))); [|auto 6|done].
  destruct (N.compare_spec (role_rank (c_route_role c)) (role_rank (c_route_role d))); [| |done].
  all: intros _; right; split; [done|]; right; split; [done|]; right; split; [done|lia].
Qed.

(** Winner selection: nothing is selected only when no candidate is
    eligible; the winner is an eligible candidate of the highest specificity;
    at that specificity a zone comes before a suffix, then a block before a
    route, then the main route before the other; and the conflict marker says
    exactly whether an eligible candidate of the same rank is on the other
    route. *)
Theorem select_winner_spec l :
  (select_winner l = None <-> forall c, c ∈ l -> eligible c = false)
  /\ forall w, select_winner l = Some w ->
     (exists c, c ∈ l /\ eligible c = true /\ same_candidate c w)
     /\ (forall d, d ∈ l -> eligible d = true ->
         (c_specificity d < c_specificity w)%N
         \/ c_specificity d = c_specificity w
            /\ ((c_match_class w = CZone /\ c_match_class d <> CZone)
                \/ (c_match_class w = CZone <-> c_match_class d = CZone)
                   /\ ((c_action w = Block /\ c_action d <> Block)
                       \/ (c_action w = Block <-> c_action d = Block)
                          /\ (c_route_role w = Primary \/ c_route_role d = Secondary))))
     /\ (c_conflict w = Detected <->
         exists d, d ∈ l /\ eligible d = true /\ c_specificity d = c_specificity w
           /\ (c_match_class d = CZone <-> c_match_class w = CZone)
           /\ c_route_role d <> c_route_role w).
Proof.
  split; [apply select_winner_None|].
  intros w (c & Hc & He & [m ->] & Hmax & Hconf)%select_winner_Some.
  split; [exists c; split; [done|split; [done|by exists m]]|].
  cbn [set_conflict c_specificity c_match_class c_action c_route_role c_conflict] in *.
  assert (Hapex : forall x y, apex_rank x = apex_rank y <-> (x = CZone <-> y = CZone)).
  { intros [] []; cbn; naive_solver. }
  split.
  - intros d Hd Hde. destruct (candidate_cmp_le c d (Hmax d Hd Hde)) as [|[Hs Hr]]; [auto|right].
    split; [done|]. destruct Hr as [Hr|[Hr Ht]].
    + left. destruct (c_match_class c), (c_match_class d); cbn in Hr; try lia; done.
    + right. split; [by apply Hapex|]. destruct Ht as [Ht|[Ht Hl]].
      * left. destruct (c_action c), (c_action d); cbn in Ht; try lia; done.
      * right. split; [destruct (c_action c), (c_action d); cbn in Ht; naive_solver lia|].
        destruct (c_route_role c), (c_route_role d); cbn in Hl; auto; lia.
  - rewrite Hconf. unfold conflicts_with. split; intros (d & Hd & Hde & Hcd); exists d.
    + apply andb_true_iff in Hcd as [[Hs%N.eqb_eq Hz%N.eqb_eq]%andb_true_iff Hrole].
      reflect_bools. split; [done|]. split; [done|]. split; [done|]. split; [by apply Hapex|done].
    + destruct Hcd as (Hs & Hz & Hrole). split; [done|]. split; [done|].
      apply Hapex in Hz. rewrite Hs, Hz, !N.eqb_refl, bool_decide_eq_false_2 by done. done.
Qed.

(** ** Which rules apply *)

Lemma for_each_enabled_elem book f c :
  c ∈ for_each_enabled book f <->
  exists role r, r ∈ set_for book role /\ r_enabled r = true /\ c ∈ f role r.
Proof.
  unfold for_each_enabled. rewrite list_elem_of_bind. setoid_rewrite list_elem_of_bind.
  setoid_rewrite filter_elem. split.
  - intros (role & (r & Hc & Hr & He) & _). eauto.
  - intros (role & r & Hr & He & Hc). exists role. split; [eauto|].
    rewrite !elem_of_cons. destruct role; auto.
Qed.

Lemma is_none_true {A} (o : option A) : is_none o = true <-> o = None.
Proof. by destruct o. Qed.

Lemma host_tier_elem blocked input f c :
  c ∈ host_tier blocked input f <->
  blocked = None /\ exists h, hostname input = HostValid h /\ c ∈ f h.
Proof.
  unfold host_tier. destruct blocked; simpl; [split; [by intros ?%elem_of_nil|naive_solver]|].
  destruct (hostname input); split; try (by intros ?%elem_of_nil); naive_solver.
Qed.

Lemma ip_tier_elem blocked ips f c :
  c ∈ ip_tier blocked ips f <-> blocked = None /\ exists a, a ∈ ips /\ c ∈ f a.
Proof.
  unfold ip_tier. destruct blocked; simpl; [split; [by intros ?%elem_of_nil|naive_solver]|].
  rewrite list_elem_of_bind. naive_solver.
Qed.

Lemma first_winner_Some ts w :
  first_winner ts = Some w ->
  exists k t, ts !! k = Some t /\ select_winner t = Some w
    /\ forall j t', j < k -> ts !! j = Some t' -> select_winner t' = None.
Proof.
  induction ts as [|t ts IH]; simpl; [done|]. destruct (select_winner t) as [v|] eqn:E.
  - intros [= ->]. exists 0, t. split; [done|]. split; [done|]. intros j t' Hj. lia.
  - intros (k & t0 & Hk & Hw & Hpre)%IH. exists (S k), t0. split; [done|]. split; [done|].
    intros [|j] t' Hj Ht; [by injection Ht as <-|]. apply (Hpre j); [lia|done].
Qed.

Lemma first_winner_None ts t : first_winner ts = None -> t ∈ ts -> select_winner t = None.
Proof.
  induction ts as [|t0 ts IH]; simpl; [by intros _ ?%elem_of_nil|].
  destruct (select_winner t0) eqn:E; [done|]. intros Hn [->|Hin]%elem_of_cons; auto.
Qed.

(** A tier with an eligible candidate is not passed over. *)
Lemma first_winner_not_later ts k t c w :
  ts !! k = Some t -> c ∈ t -> eligible c = true -> first_winner ts = Some w ->
  exists j t', j <= k /\ ts !! j = Some t' /\ select_winner t' = Some w.
Proof.
  intros Hk Hc He (j & t' & Hj & Hw & Hpre)%first_winner_Some.
  exists j, t'. split; [|done]. apply Nat.nlt_ge. intros Hlt.
  specialize (Hpre k t Hlt Hk). rewrite select_winner_None in Hpre. by rewrite Hpre in He.
Qed.

Section Applies.
Context `{Unicode} (input : NormalizedDecisionInput) (lookup : LookupResult)
  (rule_book : CanonicalRuleBook) (zone_policy : ZonePriorityPolicy).

Let avail := match_class_availability input.
Let ips := effective_ips_for_matching input lookup.

(** The address condition of a rule of the set [role] holds and its class is
    available. A zone of several labels stands back for [*.] of its name in its
    own set, and [base.*] for a rule that spells the zone out. *)
Definition address_applies (role : RouteRole) (r : CanonicalRule) : Prop :=
  match r_address_match r with
  | Some (ExactFqdn label) => exact_fqdn avail = None /\ hostname input = HostValid label
  | Some (SuffixDomain label) =>
      suffix_domain avail = None
      /\ exists h, hostname input = HostValid h /\ match_suffix_domain h label = true
  | Some (Zone name) =>
      (if zone_ranks_as_suffix name
       then suffix_domain avail = None /\ holds_suffix (set_for rule_book role) name (r_app_match r) = false
       else zone avail = None)
      /\ exists h, hostname input = HostValid h /\ match_zone h name = true
  | Some (AnyZoneDomain base) =>
      suffix_domain avail = None
      /\ exists h named, hostname input = HostValid h /\ match_any_zone_domain h base = Some named
                         /\ names_suffix_outright rule_book named = false
  | Some (ExactIp addr) => exact_ip avail = None /\ addr ∈ ips
  | Some (Subnet block) => exact_ip avail = None /\ exists a, a ∈ ips /\ IpBlock_contains block a = true
  | Some (Range range) =>
      exact_ip avail = None
      /\ exists a b, a ∈ ips /\ b ∈ range_blocks range /\ IpBlock_contains b a = true
  | None => application avail = None /\ r_app_match r <> None
  end.

(** The rule decides the connection unless another one is preferred. *)
Definition rule_applies (role : RouteRole) (r : CanonicalRule) : Prop :=
  r ∈ set_for rule_book role /\ r_enabled r = true
  /\ is_eligible (eval_app_filter r (app_identity input)) = true /\ address_applies role r.

(** The tier a rule competes in. *)
Definition tier_of (r : CanonicalRule) : nat :=
  match r_address_match r with
  | Some (ExactFqdn _) => 0
  | Some (SuffixDomain _) | Some (AnyZoneDomain _) => 1
  | Some (Zone name) => if zone_ranks_as_suffix name then 1 else if prefer_ip zone_policy then 4 else 2
  | Some (ExactIp _) => if prefer_ip zone_policy then 2 else 3
  | Some (Subnet _) | Some (Range _) => if prefer_ip zone_policy then 3 else 4
  | None => 5
  end.

(** The class an explanation names. *)
Definition class_of (r : CanonicalRule) : MatchClass :=
  match r_address_match r with
  | Some (ExactFqdn _) => CExactFqdn
  | Some (SuffixDomain _) | Some (AnyZoneDomain _) => CSuffixDomain
  | Some (Zone _) => CZone
  | Some (ExactIp _) => CExactIp
  | Some (Subnet _) | Some (Range _) => CSubnet
  | None => CApplication
  end.

(** The candidate stands for the rule. *)
Definition stands_for (role : RouteRole) (r : CanonicalRule) (c : RuleMatchCandidate) : Prop :=
  c_rule_id c = r_id r /\ c_route_role c = role /\ c_action c = r_action r
  /\ c_match_class c = class_of r
  /\ c_app_filter_result c = eval_app_filter r (app_identity input).

Lemma stands_for_eligible role r c :
  stands_for role r c -> eligible c = is_eligible (eval_app_filter r (app_identity input)).
Proof using Type. intros (_ & _ & _ & _ & Hf). unfold eligible. by rewrite Hf. Qed.

Definition tier_list : list (list RuleMatchCandidate) := tiers input lookup rule_book zone_policy.

(** A candidate of a tier stands for a rule of that tier whose address
    condition holds. *)
Definition tier_sound (k : nat) (t : list RuleMatchCandidate) : Prop :=
  forall c, c ∈ t -> exists role r, r ∈ set_for rule_book role /\ r_enabled r = true
    /\ address_applies role r /\ tier_of r = k /\ stands_for role r c /\ c_conflict c = NoConflict.

Lemma host_collect_sound k blocked f :
  (forall h role r c, blocked = None -> hostname input = HostValid h -> c ∈ f h role r ->
    address_applies role r /\ tier_of r = k /\ stands_for role r c /\ c_conflict c = NoConflict) ->
  tier_sound k (host_tier blocked input (fun h => for_each_enabled rule_book (f h))).
Proof using Type.
  intros Hf c (Hb & h & Hh & (role & r & Hr & He & Hc)%for_each_enabled_elem)%host_tier_elem.
  destruct (Hf h role r c Hb Hh Hc) as (? & ? & ? & ?). exists role, r. auto 6.
Qed.

Lemma ip_collect_sound k blocked f :
  (forall a role r c, blocked = None -> a ∈ ips -> c ∈ f a role r ->
    address_applies role r /\ tier_of r = k /\ stands_for role r c /\ c_conflict c = NoConflict) ->
  tier_sound k (ip_tier blocked ips (fun a => for_each_enabled rule_book (f a))).
Proof using Type.
  intros Hf c (Hb & a & Ha & (role & r & Hr & He & Hc)%for_each_enabled_elem)%ip_tier_elem.
  destruct (Hf a role r c Hb Ha Hc) as (? & ? & ? & ?). exists role, r. auto 6.
Qed.

(** Opens the one candidate a collector may give for a rule. *)
Ltac open_candidate Hc :=
  repeat case_match; try (by apply elem_of_nil in Hc); apply list_elem_of_singleton in Hc as ->.

Lemma exact_fqdn_sound : tier_sound 0 (host_tier (exact_fqdn avail) input
  (collect_exact_fqdn rule_book (app_identity input))).
Proof using Type.
  apply host_collect_sound. intros h role r c Hb Hh Hc.
  unfold exact_fqdn_candidates, address_applies, tier_of, stands_for, class_of in *. open_candidate Hc.
  match goal with E : str_eqb _ _ = true |- _ => apply str_eqb_eq in E as -> end. done.
Qed.

Lemma suffix_domain_sound : tier_sound 1 (host_tier (suffix_domain avail) input
  (collect_suffix_domain rule_book (app_identity input))).
Proof using Type.
  apply host_collect_sound. intros h role r c Hb Hh Hc.
  unfold suffix_domain_candidates, address_applies, tier_of, stands_for, class_of in *.
  destruct (r_address_match r) as [[]|]; try (by apply elem_of_nil in Hc).
  - open_candidate Hc. split; [eauto|done].
  - open_candidate Hc. reflect_bools. split; [eauto 6|done].
  - destruct (zone_ranks_as_suffix name); [|by apply elem_of_nil in Hc]. cbn [andb] in Hc.
    destruct (match_zone h name) eqn:Em; [|by apply elem_of_nil in Hc]. cbn [andb] in Hc.
    destruct (holds_suffix _ name _) eqn:Es; [by apply elem_of_nil in Hc|].
    apply list_elem_of_singleton in Hc as ->. split; [eauto|done].
Qed.

Lemma zone_sound : tier_sound (if prefer_ip zone_policy then 4 else 2)
  (host_tier (zone avail) input (collect_zone rule_book (app_identity input))).
Proof using Type.
  apply host_collect_sound. intros h role r c Hb Hh Hc.
  unfold zone_candidates, address_applies, tier_of, stands_for, class_of in *. 
  destruct (r_address_match r) as [[]|]; try (by apply elem_of_nil in Hc).
  destruct (zone_ranks_as_suffix name); [by apply elem_of_nil in Hc|].
  destruct (match_zone h name) eqn:Ez; [|by apply elem_of_nil in Hc].
  apply list_elem_of_singleton in Hc as ->. split; [eauto|done].
Qed.

Lemma exact_ip_sound : tier_sound (if prefer_ip zone_policy then 2 else 3)
  (ip_tier (exact_ip avail) ips (collect_exact_ip rule_book (app_identity input))).
Proof using Type.
  apply ip_collect_sound. intros a role r c Hb Ha Hc.
  unfold exact_ip_candidates, address_applies, tier_of, stands_for, class_of in *.
  destruct (r_address_match r) as [[]|]; try (by apply elem_of_nil in Hc).
  case_bool_decide; [|by apply elem_of_nil in Hc]. subst.
  by apply list_elem_of_singleton in Hc as ->.
Qed.

Lemma subnet_sound : tier_sound (if prefer_ip zone_policy then 3 else 4)
  (ip_tier (exact_ip avail) ips (collect_subnet rule_book (app_identity input))).
Proof using Type.
  apply ip_collect_sound. intros a role r c Hb Ha Hc.
  unfold subnet_candidates, address_applies, tier_of, stands_for, class_of in *.
  destruct (r_address_match r) as [[]|]; try (by apply elem_of_nil in Hc); cbn [mbind option_bind ip_blocks] in Hc;
    destruct (find_first _ _) as [b|] eqn:Ef; try (by apply elem_of_nil in Hc);
    apply list_elem_of_singleton in Hc as ->; apply find_first_Some in Ef as [Hin Hcon].
  - apply list_elem_of_singleton in Hin as ->. split; [eauto|done].
  - split; [eauto 6|done].
Qed.

Lemma application_sound :
  tier_sound 5 (app_tier (application avail) input rule_book).
Proof using Type.
  intros c Hc. unfold app_tier in Hc. destruct (application avail) eqn:Ea; [by apply elem_of_nil in Hc|].
  cbn [is_none] in Hc. destruct (app_identity input) as [who|] eqn:Ew; [|by apply elem_of_nil in Hc].
  apply for_each_enabled_elem in Hc as (role & r & Hr & He & Hc). exists role, r.
  unfold application_candidates, address_applies, tier_of, stands_for, class_of, eval_app_filter in *.
  rewrite Ew. destruct (r_address_match r); [by apply elem_of_nil in Hc|].
  destruct (r_app_match r) as [m|]; [|by apply elem_of_nil in Hc].
  destruct (app_match_specificity _ _); [|by apply elem_of_nil in Hc].
  apply list_elem_of_singleton in Hc as ->. done.
Qed.

(** The tiers after the two vetoes, by number. *)
Lemma tiers_sound k t : tier_list !! (2 + k) = Some t -> tier_sound k t.
Proof using Type.
  unfold tier_list, tiers, tier3_order, tier3. fold avail ips.
  pose proof exact_fqdn_sound as H0. pose proof suffix_domain_sound as H1.
  pose proof zone_sound as Hz. pose proof exact_ip_sound as Hi. pose proof subnet_sound as Hs.
  pose proof application_sound as Ha.
  destruct (prefer_ip zone_policy), k as [|[|[|[|[|[|k]]]]]]; cbn; intros [= <-]; assumption.
Qed.

(** A rule that applies has its candidate in its tier. *)
Lemma tiers_complete role r :
  rule_applies role r ->
  exists t c, tier_list !! (2 + tier_of r) = Some t /\ c ∈ t /\ stands_for role r c.
Proof using Type.
  intros (Hr & He & Hf & Ha).
  assert (Hhost : forall blocked h f c, blocked = None -> hostname input = HostValid h ->
    c ∈ f h role r -> c ∈ host_tier blocked input (fun h => for_each_enabled rule_book (f h))).
  { intros blocked h f c -> Hh Hc. apply host_tier_elem. split; [done|]. exists h. split; [done|].
    apply for_each_enabled_elem. eauto. }
  assert (Hip : forall blocked a f c, blocked = None -> a ∈ ips ->
    c ∈ f a role r -> c ∈ ip_tier blocked ips (fun a => for_each_enabled rule_book (f a))).
  { intros blocked a f c -> Hh Hc. apply ip_tier_elem. split; [done|]. exists a. split; [done|].
    apply for_each_enabled_elem. eauto. }
  unfold address_applies, tier_of, stands_for, class_of in *.
  unfold tier_list, tiers, tier3_order, tier3. fold avail ips.
  destruct (r_address_match r) as [[l|l|l|z|addr|block|range]|] eqn:Ea.
  - destruct Ha as [Hb Hh]. eexists _, _. split; [reflexivity|]. split.
    + eapply Hhost; [done|exact Hh|]. unfold exact_fqdn_candidates.
      rewrite Ea, str_eqb_refl. by left.
    + done.
  - destruct Ha as (Hb & h & Hh & Hm). eexists _, _. split; [reflexivity|]. split.
    + eapply Hhost; [done|exact Hh|]. unfold suffix_domain_candidates. rewrite Ea, Hm. by left.
    + done.
  - destruct Ha as (Hb & h & named & Hh & Hm & Ho). eexists _, _. split; [reflexivity|]. split.
    + eapply Hhost; [done|exact Hh|]. unfold suffix_domain_candidates. rewrite Ea, Hm, Ho. by left.
    + done.
  - destruct Ha as (Hb & h & Hh & Hm). destruct (zone_ranks_as_suffix z) eqn:Ez.
    + destruct Hb as [Hb Hs]. eexists _, _. split; [reflexivity|]. split.
      * eapply Hhost; [done|exact Hh|]. unfold suffix_domain_candidates.
        rewrite Ea, Ez, Hm, Hs. by left.
      * done.
    + eexists _, _. split; [by destruct (prefer_ip zone_policy)|]. split.
      * eapply Hhost; [done|exact Hh|]. unfold zone_candidates. rewrite Ea, Ez, Hm. by left.
      * done.
  - destruct Ha as [Hb Hin]. eexists _, _. split; [by destruct (prefer_ip zone_policy)|]. split.
    + eapply Hip; [done|exact Hin|]. unfold exact_ip_candidates.
      rewrite Ea, bool_decide_eq_true_2 by done. by left.
    + done.
  - destruct Ha as (Hb & a & Hin & Hcon). eexists _, _.
    split; [by destruct (prefer_ip zone_policy)|]. split.
    + eapply Hip; [done|exact Hin|]. unfold subnet_candidates. rewrite Ea. cbn. rewrite Hcon. by left.
    + done.
  - destruct Ha as (Hb & a & b & Hin & Hbin & Hcon).
    destruct (find_first (fun b => IpBlock_contains b a) (range_blocks range)) as [b0|] eqn:Ef.
    2: { rewrite find_first_None in Ef. by rewrite Ef in Hcon. }
    eexists _, _. split; [by destruct (prefer_ip zone_policy)|]. split.
    + eapply Hip; [done|exact Hin|]. unfold subnet_candidates. rewrite Ea. cbn. rewrite Ef. by left.
    + done.
  - destruct Ha as [Hb Hm]. unfold eval_app_filter in Hf.
    destruct (r_app_match r) as [m|] eqn:Em; [|done].
    destruct (app_identity input) as [who|] eqn:Ew; [|done].
    destruct (app_match_specificity (pattern m) who) as [sp|] eqn:Es; [|done].
    eexists _, _. split; [by destruct (prefer_ip zone_policy)|]. split.
    + unfold app_tier. rewrite Hb, Ew. cbn [is_none]. apply for_each_enabled_elem.
      exists role, r. split; [done|]. split; [done|]. unfold application_candidates.
      rewrite Ea, Em, Es. by left.
    + unfold eval_app_filter. by rewrite Em, Es.
Qed.

Lemma stands_for_winner role r c w : stands_for role r c -> same_candidate c w -> stands_for role r w.
Proof using Type. intros (H1 & H2 & H3 & H4 & H5) [m ->]. done. Qed.

(** A block by literal address or of an application without an address. *)
Definition is_veto (r : CanonicalRule) : Prop :=
  r_action r = Block /\ (r_address_match r = None \/ exists a, r_address_match r = Some (ExactIp a)).

Lemma veto_tiers_sound j t c :
  j < 2 -> tier_list !! j = Some t -> c ∈ t ->
  exists role r, r ∈ set_for rule_book role /\ r_enabled r = true
    /\ address_applies role r /\ stands_for role r c /\ is_veto r.
Proof using Type.
  intros Hj Ht Hc. unfold is_veto.
  assert (Hv : c_action c = Block /\
    (c ∈ ip_tier (exact_ip avail) ips (collect_exact_ip rule_book (app_identity input))
     \/ c ∈ app_tier (application avail) input rule_book)).
  { destruct j as [|[|j]]; [| |lia]; injection Ht as <-; apply filter_elem in Hc as [Hc Hb];
      apply bool_decide_eq_true in Hb; auto. }
  destruct Hv as [Hb [Hc'|Hc']].
  - destruct (exact_ip_sound c Hc') as (role & r & Hr & He & Ha & Ht' & Hs & _). exists role, r.
    repeat (split; [done|]). destruct Hs as (_ & _ & Hact & _). rewrite <- Hact. split; [done|].
    right. unfold tier_of in Ht'. destruct (r_address_match r) as [[]|]; eauto;
      destruct (prefer_ip zone_policy); repeat case_match; done.
  - destruct (application_sound c Hc') as (role & r & Hr & He & Ha & Ht' & Hs & _). exists role, r.
    repeat (split; [done|]). destruct Hs as (_ & _ & Hact & _). rewrite <- Hact. split; [done|].
    left. unfold tier_of in Ht'. destruct (r_address_match r) as [[]|]; try done;
      destruct (prefer_ip zone_policy); repeat case_match; done.
Qed.

Lemma veto_tiers_complete role r :
  rule_applies role r -> is_veto r ->
  exists j t c, j < 2 /\ tier_list !! j = Some t /\ c ∈ t /\ stands_for role r c.
Proof using Type.
  intros Happ [Hb Hv]. destruct (tiers_complete role r Happ) as (t & c & Ht & Hc & Hs).
  assert (Hblock : is_block c = true).
  { apply bool_decide_eq_true. destruct Hs as (_ & _ & -> & _). done. }
  unfold tier_list, tiers, tier3_order, tier3, tier_of in Ht |- *. fold avail ips in Ht |- *.
  destruct Hv as [Hv|[a Hv]]; rewrite Hv in Ht.
  - exists 1. eexists _, c. split; [lia|]. split; [reflexivity|]. split; [|done]. apply filter_elem.
    split; [|done]. destruct (prefer_ip zone_policy); by injection Ht as <-.
  - exists 0. eexists _, c. split; [lia|]. split; [reflexivity|]. split; [|done]. apply filter_elem.
    split; [|done]. destruct (prefer_ip zone_policy); by injection Ht as <-.
Qed.

(** C1. The decision follows the rules, and the narrowest kind of rule wins.
    A matched decision stands for an enabled rule of the set it names whose
    address and application conditions hold, and unless that rule is a veto
    (a block of a literal address or of an application) no rule that applies
    is in an earlier tier: exact names, then suffixes, then addresses, networks
    and zones in the order of the policy, then applications. The default is
    taken only when no rule of the book applies. *)
Theorem decision_follows_rules mode :
  match match_rules input lookup rule_book zone_policy mode with
  | MatchedRoute c =>
      exists role r, rule_applies role r /\ stands_for role r c
        /\ (is_veto r \/ forall role' r', rule_applies role' r' -> tier_of r <= tier_of r')
  | DefaultRoute _ m => m = mode /\ forall role r, ~ rule_applies role r
  end.
Proof using Type.
  unfold match_rules. fold tier_list. destruct (first_winner tier_list) as [w|] eqn:E.
  - destruct (first_winner_Some _ _ E) as (k & t & Hk & Hw & Hpre).
    destruct (select_winner_Some _ _ Hw) as (c & Hc & He & Hsame & _).
    destruct (decide (k < 2)) as [Hlt|Hge].
    + destruct (veto_tiers_sound k t c Hlt Hk Hc) as (role & r & Hr & Hen & Ha & Hs & Hv).
      exists role, r. split; [|split; [by apply (stands_for_winner _ _ c)|by left]].
      unfold rule_applies. by rewrite <- (stands_for_eligible _ _ _ Hs).
    + destruct (tiers_sound (k - 2) t) with (c := c) as (role & r & Hr & Hen & Ha & Ht & Hs & _);
        [by replace (2 + (k - 2)) with k by lia|done|].
      exists role, r. split; [unfold rule_applies; by rewrite <- (stands_for_eligible _ _ _ Hs)|].
      split; [by apply (stands_for_winner _ _ c)|]. right. intros role' r' Happ.
      destruct (tiers_complete role' r' Happ) as (t' & c' & Ht' & Hc' & Hel'%stands_for_eligible).
      destruct Happ as (_ & _ & Hf & _). rewrite Hf in Hel'.
      apply Nat.nlt_ge. intros Hlt. specialize (Hpre (2 + tier_of r') t' ltac:(lia) Ht').
      rewrite select_winner_None in Hpre. by rewrite Hpre in Hel'.
  - split; [done|]. intros role r Happ.
    destruct (tiers_complete role r Happ) as (t & c & Ht & Hc & Hel%stands_for_eligible).
    destruct Happ as (_ & _ & Hf & _). rewrite Hf in Hel.
    pose proof (first_winner_None _ t E) as Hn. rewrite select_winner_None in Hn.
    rewrite Hn in Hel; [done| |done]. by eapply list_elem_of_lookup_2.
Qed.

(** C2. A denial is absolute: when an enabled rule blocks the literal address
    the connection goes to, or the application that makes it, the decision is a
    block, whatever other rules match. *)
Theorem block_is_veto role r mode :
  rule_applies role r -> is_veto r ->
  exists c, match_rules input lookup rule_book zone_policy mode = MatchedRoute c /\ c_action c = Block.
Proof using Type.
  intros Happ Hv. destruct (veto_tiers_complete role r Happ Hv) as (j & t & c & Hj & Ht & Hc & Hs).
  apply stands_for_eligible in Hs as Hel. destruct Happ as (_ & _ & Hf & _). rewrite Hf in Hel.
  unfold match_rules. fold tier_list. destruct (first_winner tier_list) as [w|] eqn:E.
  - destruct (first_winner_not_later _ _ _ _ _ Ht Hc Hel E) as (i & t' & Hi & Ht' & Hw).
    exists w. split; [done|].
    destruct (select_winner_Some _ _ Hw) as (d & Hd & _ & [m ->] & _). cbn.
    destruct (veto_tiers_sound i t' d) as (role' & r' & _ & _ & _ & Hs' & [Hb _]); [lia|done|done|].
    destruct Hs' as (_ & _ & -> & _). done.
  - pose proof (first_winner_None _ t E) as Hn. rewrite select_winner_None in Hn.
    rewrite Hn in Hel; [done| |done]. by eapply list_elem_of_lookup_2.
Qed.

End Applies.

Lemma block_is_veto_witness :
  let allow := mkCanonicalRule (u "1") true (Some (ExactFqdn (u "a.example"))) None [] Route None in
  let deny := mkCanonicalRule (u "2") true (Some (ExactIp (ipv4 192 0 2 7))) None [] Block None in
  let book := mkCanonicalRuleBook [allow] [deny] in
  let input := @normalize_runtime_input ascii_unicode no_idna
    (mkRuntimeInput (mkProcessContext None None) (Some (u "a.example")) (Some (ipv4 192 0 2 7))) in
  exists c, @match_rules ascii_unicode input (mkLookupResult None) book (mkZonePriorityPolicy true)
              PreferPrimary = MatchedRoute c /\ c_action c = Block.
Proof.
  intros allow deny book input.
  apply (@block_is_veto ascii_unicode input (mkLookupResult None) book (mkZonePriorityPolicy true)
    Secondary deny PreferPrimary).
  - split; [by left|]. split; [done|]. split; [done|]. split; [by vm_compute|].
    vm_compute. by left.
  - split; [done|]. right. by eexists.
Defined.

(** ** The order of the rules does not matter *)

Lemma select_winner_perm l k :
  (forall c d, c ∈ l -> d ∈ l -> candidate_cmp c d = Eq -> c = d) -> l ≡ₚ k ->
  select_winner l = select_winner k.
Proof.
  intros Hties P. unfold select_winner.
  rewrite (sort_by_canonical_on candidate_cmp (List.filter eligible l) (List.filter eligible k)); [done| |].
  - intros c d [Hc _]%filter_elem [Hd _]%filter_elem. by apply Hties.
  - by apply filter_perm.
Qed.

Lemma candidate_cmp_Eq c d :
  candidate_cmp c d = Eq ->
  c_specificity c = c_specificity d /\ c_route_role c = c_route_role d /\ c_rule_id c = c_rule_id d.
Proof.
  unfold candidate_cmp, cmp_then, cmp_rev, cmp_on, then_with.
  destruct (N.compare_spec (c_specificity d) (c_specificity c)); [|done|done].
  destruct (N.compare_spec (apex_rank (c_match_class c)) (apex_rank (c_match_class d))); [|done|done].
  destruct (N.compare_spec (action_rank (c_action c)) (action_rank (c_action d))); [|done|done].
  destruct (N.compare_spec (role_rank (c_route_role c)) (role_rank (c_route_role d))) as [Hr| |]; [|done|done].
  intros E%(cmp_eq str_cmp). split; [done|]. split; [|done].
  by destruct (c_route_role c), (c_route_role d).
Qed.

(** Two books with the same rules in another order. *)
Definition same_rules (b b' : CanonicalRuleBook) : Prop :=
  primary b ≡ₚ primary b' /\ secondary b ≡ₚ secondary b'.

Lemma same_rules_for b b' role : same_rules b b' -> set_for b role ≡ₚ set_for b' role.
Proof. intros [? ?]. by destruct role. Qed.

(** Rule ids name one rule of their set. *)
Definition ids_unique (b : CanonicalRuleBook) : Prop :=
  forall role r s, r ∈ set_for b role -> s ∈ set_for b role -> r_id r = r_id s -> r = s.

Lemma bind_perm {A B} (f g : A -> list B) l k :
  (forall x, x ∈ l -> f x = g x) -> l ≡ₚ k -> (l ≫= f) ≡ₚ (k ≫= g).
Proof.
  intros Hfg P. assert (E : (l ≫= f) = (l ≫= g)).
  { clear P. induction l as [|x l IH]; cbn; [done|]. rewrite Hfg by left. f_equal.
    apply IH. intros y Hy. apply Hfg. by right. }
  rewrite E. clear E Hfg. induction P as [|x l k P IH|x y l|l k m P1 IH1 P2 IH2]; cbn; [done|..].
  - by apply Permutation_app_head.
  - rewrite !app_assoc. apply Permutation_app_tail, Permutation_app_comm.
  - by etrans.
Qed.

Lemma for_each_enabled_perm b b' f g :
  same_rules b b' -> (forall role r, f role r = g role r) ->
  for_each_enabled b f ≡ₚ for_each_enabled b' g.
Proof.
  intros Hb Hfg. unfold for_each_enabled. cbn. rewrite !app_nil_r.
  apply Permutation_app; apply bind_perm; auto; apply filter_perm, Hb.
Qed.

(** Candidates that the order ties are equal. *)
Definition ties_equal (t : list RuleMatchCandidate) : Prop :=
  forall c d, c ∈ t -> d ∈ t -> candidate_cmp c d = Eq -> c = d.

Lemma filter_ties p t : ties_equal t -> ties_equal (List.filter p t).
Proof. intros Ht c d [Hc _]%filter_elem [Hd _]%filter_elem. by apply Ht. Qed.

Lemma first_winner_perm ts ts' :
  Forall ties_equal ts -> Forall2 (≡ₚ) ts ts' -> first_winner ts = first_winner ts'.
Proof.
  intros Ht P. induction P as [|t t' ts ts' Pt P IH]; [done|]. simpl.
  apply Forall_cons_1 in Ht as [Ht Hts]. by rewrite (select_winner_perm t t'), IH.
Qed.

Section OrderFree.
Context `{Unicode} (input : NormalizedDecisionInput) (lookup : LookupResult)
  (b b' : CanonicalRuleBook) (policy : ZonePriorityPolicy).

Lemma tier_sound_ties k t :
  ids_unique b -> tier_sound input lookup b policy k t -> ties_equal t.
Proof using Type.
  intros Hu Ht c d Hc Hd (Hs & Hrole & Hid)%candidate_cmp_Eq.
  destruct (Ht c Hc) as (role & r & Hr & _ & _ & _ & (C1 & C2 & C3 & C4 & C5) & C6).
  destruct (Ht d Hd) as (role' & r' & Hr' & _ & _ & _ & (D1 & D2 & D3 & D4 & D5) & D6).
  assert (role' = role) as -> by congruence.
  assert (r' = r) as -> by (apply (Hu role); congruence).
  destruct c, d. cbn in *. congruence.
Qed.

Lemma tiers_ties : ids_unique b -> Forall ties_equal (tiers input lookup b policy).
Proof using Type.
  intros Hu. apply Forall_lookup. intros i t Ht.
  destruct i as [|[|i]].
  - injection Ht as <-. apply filter_ties. eapply tier_sound_ties; [done|apply exact_ip_sound].
  - injection Ht as <-. apply filter_ties.
    eapply tier_sound_ties; [done|apply (application_sound input lookup b policy)].
  - eapply tier_sound_ties; [done|]. by apply tiers_sound.
Qed.

Lemma suffix_candidates_same proc h role r :
  same_rules b b' -> suffix_domain_candidates b proc h role r = suffix_domain_candidates b' proc h role r.
Proof using Type.
  intros Hb. unfold suffix_domain_candidates, holds_suffix, names_suffix_outright.
  destruct (r_address_match r) as [[]|]; try done.
  - destruct (match_any_zone_domain h base) as [named|]; [|done].
    erewrite existsb_perm; [done|]. by apply Permutation_app; apply Hb.
  - erewrite (existsb_perm _ (set_for b role)); [done|]. by apply same_rules_for.
Qed.

Lemma tiers_perm : same_rules b b' -> Forall2 (≡ₚ) (tiers input lookup b policy) (tiers input lookup b' policy).
Proof using Type.
  intros Hb.
  assert (Hhost : forall blocked f g, (forall h role r, f h role r = g h role r) ->
    host_tier blocked input (fun h => for_each_enabled b (f h))
    ≡ₚ host_tier blocked input (fun h => for_each_enabled b' (g h))).
  { intros blocked f g Hfg. unfold host_tier. destruct (is_none blocked); [|done].
    destruct (hostname input); try done. by apply for_each_enabled_perm. }
  assert (Hip : forall blocked ips f,
    ip_tier blocked ips (fun a => for_each_enabled b (f a))
    ≡ₚ ip_tier blocked ips (fun a => for_each_enabled b' (f a))).
  { intros blocked ips f. unfold ip_tier. destruct (is_none blocked); [|done].
    induction ips as [|a ips IH]; cbn; [done|]. apply Permutation_app; [|exact IH].
    by apply for_each_enabled_perm. }
  assert (Happ : forall blocked, app_tier blocked input b ≡ₚ app_tier blocked input b').
  { intros blocked. unfold app_tier. destruct (is_none blocked); [|done].
    destruct (app_identity input); [|done]. by apply for_each_enabled_perm. }
  assert (Hsuf : forall proc h role r,
    suffix_domain_candidates b proc h role r = suffix_domain_candidates b' proc h role r)
    by (intros; by apply suffix_candidates_same).
  unfold tiers, tier3, tier3_order. destruct (prefer_ip policy); cbn;
    repeat (apply Forall2_cons_2; [try apply filter_perm; first [apply Hip | apply Happ | by apply Hhost]|]);
    constructor.
Qed.

End OrderFree.

(** C3. The decision does not depend on the order rules are stored in: for
    two books holding the same rules in any order, with ids unique in each set,
    every connection is decided the same way, by the same rule and with the
    same conflict marker. *)
Theorem decision_order_free `{Unicode} input lookup b b' policy mode :
  ids_unique b -> same_rules b b' ->
  match_rules input lookup b policy mode = match_rules input lookup b' policy mode.
Proof.
  intros Hu Hb. unfold match_rules.
  rewrite (first_winner_perm (tiers input lookup b policy) (tiers input lookup b' policy));
    [|by apply tiers_ties|by apply tiers_perm].
  assert (Hcount : total_enabled_count b = total_enabled_count b').
  { unfold total_enabled_count, enabled_count. destruct Hb as [Hp Hs].
    by rewrite (Permutation_length (filter_perm r_enabled _ _ Hp)),
      (Permutation_length (filter_perm r_enabled _ _ Hs)). }
  by rewrite Hcount.
Qed.

Lemma decision_order_free_witness :
  let r i a := mkCanonicalRule i true (Some (SuffixDomain (u "example.org"))) None [] a None in
  let b := mkCanonicalRuleBook [r (u "1") Route; r (u "2") Block] [] in
  let b' := mkCanonicalRuleBook [r (u "2") Block; r (u "1") Route] [] in
  let decide bk := @match_sample ascii_unicode no_idna bk (Some (u "www.example.org")) None None
                     (mkZonePriorityPolicy true) PreferPrimary in
  decide b = decide b'.
Proof.
  intros r b b' decide. unfold decide, match_sample.
  apply (@decision_order_free ascii_unicode _ _ b b').
  - intros [] x y Hx Hy; cbn in Hx, Hy; [|by apply elem_of_nil in Hx].
    apply elem_of_cons in Hx as [->|Hx%list_elem_of_singleton];
      apply elem_of_cons in Hy as [->|Hy%list_elem_of_singleton]; subst; done.
  - split; [apply Permutation_swap|done].
Defined.

(** ** From an observed connection *)

(** No input closes every class: an observed connection can always be
    matched by its address, so a decision on a normalized input never reports
    that all classes are blocked. *)
Theorem normalized_never_blocked `{Unicode} `{Idna} input lookup book policy mode reason m :
  match_rules (normalize_runtime_input input) lookup book policy mode = DefaultRoute reason m ->
  reason <> AllClassesBlocked.
Proof.
  unfold match_rules. destruct (first_winner _); [done|]. intros [= <- _].
  unfold nothing_available, all_address_classes_blocked. rewrite exact_ip_always_available. cbn.
  rewrite andb_false_r. cbn. by case_match.
Qed.

Lemma normalized_never_blocked_witness :
  match @match_sample ascii_unicode no_idna (mkCanonicalRuleBook [] []) None None None
          (mkZonePriorityPolicy true) PreferPrimary with
  | DefaultRoute reason _ => reason <> AllClassesBlocked
  | MatchedRoute _ => False
  end.
Proof.
  unfold match_sample.
  destruct (@match_rules ascii_unicode _ _ _ _ _) as [c|reason m] eqn:E; [by vm_compute in E|].
  exact (@normalized_never_blocked ascii_unicode no_idna _ _ _ _ _ reason m E).
Defined.

(** A rule written with a program's own name matches it: for an ASCII
    process name (or image path) whose file name is [f], the rule the name is
    reduced to, on either platform's spelling, is an exact match of the
    normalized process. *)
Theorem own_name_rule_matches `{Unicode} ctx raw proc signals naming f :
  ctx_process_name ctx = Some raw -> normalize_app_identity_value ctx = (Some proc, signals) ->
  is_ascii raw = true -> last (split is_slash (trim raw)) = Some f -> f <> [] -> trimmed_str f ->
  app_match_specificity (Exact (fst (canonical_exact_process_name raw naming))) proc = Some APP_EXACT.
Proof.
  intros Hraw Hn Ha Hf Hne Ht. destruct (process_name_canonical ctx raw proc signals Hraw Hn) as [E _].
  cbn [app_match_specificity]. rewrite E, !(exact_name_key raw _ f) by done. by rewrite str_eqb_refl.
Qed.

Lemma own_name_rule_matches_witness :
  match @normalize_app_identity_value ascii_unicode (mkProcessContext (Some (u "/usr/bin/Viewer")) None) with
  | (Some proc, _) =>
      @app_match_specificity ascii_unicode
        (Exact (fst (@canonical_exact_process_name ascii_unicode (u "/usr/bin/Viewer") AsNamed))) proc
      = Some APP_EXACT
  | (None, _) => False
  end.
Proof.
  destruct (@normalize_app_identity_value ascii_unicode (mkProcessContext (Some (u "/usr/bin/Viewer")) None))
    as [[proc|] sig] eqn:E; [|by vm_compute in E].
  apply (@own_name_rule_matches ascii_unicode
    (mkProcessContext (Some (u "/usr/bin/Viewer")) None) (u "/usr/bin/Viewer") proc sig AsNamed (u "Viewer"));
    [done|exact E|by vm_compute|by vm_compute|by vm_compute|].
  split; [|by vm_compute]. intros c t Ec. vm_compute in Ec. injection Ec as <- _. by vm_compute.
Defined.

(** At equal specificity a block of the secondary set is selected over a route
    of the primary one. *)
Theorem secondary_block_beats_primary_route :
  let r a := mkCanonicalRule (u "1") true (Some (SuffixDomain (u "example.org"))) None [] a None in
  match @match_sample ascii_unicode no_idna (mkCanonicalRuleBook [r Route] [r Block])
          (Some (u "www.example.org")) None None (mkZonePriorityPolicy true) PreferPrimary with
  | MatchedRoute c => c_route_role c = Secondary /\ c_action c = Block /\ c_conflict c = Detected
  | DefaultRoute _ _ => False
  end.
Proof. by vm_compute. Qed.
