(* ===== verification/TokenStore.v ===== *)
(** * Confirmation tokens of two-phase operations

    core/services/service-runtime/src/ipc_handlers/mutation_token_store.rs: a
    dry run parks what the confirm needs under a token, a confirm takes it out.
    The store is modelled with its lock held for each call, as the code holds
    it; the random half of a token is an argument of [issue]. *)

From stdpp Require Import base sorting numbers list gmap relations.
From S2P Require Import Prelude Str Digits.

Open Scope nat_scope.

Definition MAX_TOKENS_PER_PRINCIPAL : nat := 8.
Definition MAX_TOKENS_TOTAL : nat := 64.

(** Operation names, mutation kinds and JSON payloads are only stored and
    compared. *)
Section TokenStore.
Context {Op Kind Value : Type} `{EqDecision Op}.

Record StoredMutation : Type := mkStoredMutation {
  sm_kind : Kind;
  sm_payload : Value;
  correlation_id : option str;
  issuer_sid : str;
  caller_is_elevated : bool;
}.

Definition confirmation_of (placeholder : Kind) (payload : Value) (sid : str) (elevated : bool)
  : StoredMutation :=
  {| sm_kind := placeholder; sm_payload := payload; correlation_id := None;
     issuer_sid := sid; caller_is_elevated := elevated |}.

Inductive ConsumeError : Type := NotFound | Expired.

Record Entry : Type := mkEntry {
  e_operation : Op;
  e_payload : StoredMutation;
  expires_at : Z;
  seq : Z;
}.

(** The store and the process-wide token counter. *)
Record Store : Type := mkStore {
  inner : gmap str Entry;
  eviction_logged : bool;
  counter : Z;
}.

Definition new_store (start : Z) : Store :=
  {| inner := ∅; eviction_logged := false; counter := start |}.

Definition token_name (n : Z) (suffix : str) : str :=
  u "mut-tok-" ++ pad_zero 16 (fmt_hex (Z.to_N n)) ++ suffix.

Definition next_token (n : Z) (suffix : str) : Z * (Z * str) :=
  (u64_wrapping_add n 1, (n, token_name n suffix)).

Definition entry_cmp : str * Entry -> str * Entry -> comparison :=
  cmp_on (fun kv => seq (snd kv)) Z.compare.

(** The token of the oldest entry [pick] accepts. *)
Definition oldest (pick : Entry -> bool) (m : gmap str Entry) : option str :=
  match sort_by entry_cmp (List.filter (fun kv => pick (snd kv)) (map_to_list m)) with
  | [] => None
  | (token, _) :: _ => Some token
  end.

Definition evict_oldest (m : gmap str Entry) (pick : Entry -> bool) : gmap str Entry * bool :=
  match oldest pick m with
  | None => (m, false)
  | Some token => (delete token m, match m !! token with Some _ => true | None => false end)
  end.

Definition issued_to (sid : str) (e : Entry) : bool := str_eqb (issuer_sid (e_payload e)) sid.

Definition held (sid : str) (m : gmap str Entry) : nat :=
  length (List.filter (fun kv => issued_to sid (snd kv)) (map_to_list m)).

Definition issue (st : Store) (operation : Op) (payload : StoredMutation) (expiry : Z) (suffix : str)
  : Store * str :=
  let '(counter', (n, token)) := next_token (counter st) suffix in
  let issuer := issuer_sid payload in
  let '(g, evicted1) := if MAX_TOKENS_PER_PRINCIPAL <=? held issuer (inner st)
                        then evict_oldest (inner st) (issued_to issuer)
                        else (inner st, false) in
  let '(g, evicted2) := if MAX_TOKENS_TOTAL <=? size g then evict_oldest g (fun _ => true)
                        else (g, false) in
  let entry := {| e_operation := operation; e_payload := payload; expires_at := expiry; seq := n |} in
  ({| inner := <[token := entry]> g;
      eviction_logged := eviction_logged st || evicted1 || evicted2;
      counter := counter' |}, token).

Definition take (st : Store) (token : str) (operation : Op) (caller : option str) (now : Z)
  : Store * result StoredMutation ConsumeError :=
  match inner st !! token with
  | None => (st, Err NotFound)
  | Some entry =>
      let st := {| inner := delete token (inner st); eviction_logged := eviction_logged st;
                   counter := counter st |} in
      if negb (bool_decide (e_operation entry = operation))
         || match caller with
            | Some sid => negb (str_eqb sid (issuer_sid (e_payload entry)))
            | None => false
            end
      then (st, Err NotFound)
      else if (expires_at entry <=? now)%Z then (st, Err Expired)
      else (st, Ok (e_payload entry))
  end.

Definition consume (st : Store) (token : str) (operation : Op) (now : Z) :=
  take st token operation None now.

Definition consume_for (st : Store) (token : str) (operation : Op) (caller : str) (now : Z) :=
  take st token operation (Some caller) now.

Definition consume_for_confirmer (st : Store) (token : str) (operation : Op) (caller : str)
  (elevated : bool) (now : Z) :=
  take st token operation (if elevated then None else Some caller) now.

Definition gc_expired (st : Store) (now : Z) : Store * nat :=
  let g := filter (fun kv => (now < expires_at (snd kv))%Z) (inner st) in
  ({| inner := g;
      eviction_logged := if size g =? 0 then false else eviction_logged st;
      counter := counter st |}, size (inner st) - size g).

Definition store_len (st : Store) : nat := size (inner st).

Definition store_is_empty (st : Store) : bool := store_len st =? 0.

(** ** The store as a state machine *)

Inductive step : Store -> Store -> Prop :=
| step_issue st operation payload expiry suffix :
    step st (fst (issue st operation payload expiry suffix))
| step_take st token operation caller now : step st (fst (take st token operation caller now))
| step_gc st now : step st (fst (gc_expired st now)).

(** ** Counting *)

Lemma held_delete sid m token e :
  m !! token = Some e ->
  held sid m = (if issued_to sid e then 1 else 0) + held sid (delete token m).
Proof using Type.
  intros Hm. unfold held. pose proof (map_to_list_delete m token e Hm) as P.
  rewrite (Permutation_length (filter_perm _ _ _ (symmetry P))). simpl. by destruct (issued_to sid e).
Qed.

Lemma held_delete_le sid m token : held sid (delete token m) <= held sid m.
Proof using Type.
  destruct (m !! token) as [e|] eqn:E; [|by rewrite delete_id].
  rewrite (held_delete sid m token e E). lia.
Qed.

Lemma held_insert_le sid m token e :
  held sid (<[token := e]> m) <= (if issued_to sid e then 1 else 0) + held sid m.
Proof using Type.
  rewrite (held_delete sid (<[token := e]> m) token e) by apply lookup_insert_eq.
  rewrite delete_insert_eq. pose proof (held_delete_le sid m token). lia.
Qed.

Lemma held_subseteq sid m1 m2 : m1 ⊆ m2 -> held sid m1 <= held sid m2.
Proof using Type.
  intros Hsub. apply map_to_list_submseteq, submseteq_Permutation in Hsub as [k P].
  unfold held. rewrite (Permutation_length (filter_perm _ _ _ P)), List.filter_app, length_app. lia.
Qed.

Lemma size_insert_le (m : gmap str Entry) token e : size (<[token := e]> m) <= S (size m).
Proof using Type. rewrite map_size_insert. case_match; simpl; lia. Qed.

Lemma oldest_Some pick m token :
  oldest pick m = Some token ->
  exists e, m !! token = Some e /\ pick e = true
    /\ forall t d, m !! t = Some d -> pick d = true -> (seq e <= seq d)%Z.
Proof using Type.
  unfold oldest. destruct (sort_by entry_cmp _) as [|[t e] rest] eqn:E; [done|]. intros [= ->].
  assert (Hin : (token, e) ∈ List.filter (fun kv => pick (snd kv)) (map_to_list m)).
  { apply (sort_by_elem_of entry_cmp). rewrite E. left. }
  apply filter_elem in Hin as [Hm Hp]. apply elem_of_map_to_list in Hm.
  exists e. split; [done|]. split; [done|]. intros t d Ht Hd.
  assert (Ho : CmpOrder entry_cmp) by (unfold entry_cmp; apply _).
  pose proof (sort_by_head entry_cmp _ _ _ (t, d) E) as Hh.
  unfold entry_cmp, cmp_on in Hh. simpl in Hh. apply Z.compare_le_iff, Hh.
  apply filter_elem. split; [by apply elem_of_map_to_list|done].
Qed.

Lemma oldest_None pick m t d : oldest pick m = None -> m !! t = Some d -> pick d = false.
Proof using Type.
  unfold oldest. destruct (sort_by entry_cmp _) as [|[k e] rest] eqn:E; [|done]. intros _ Ht.
  destruct (pick d) eqn:Ed; [|done].
  assert (Hin : (t, d) ∈ sort_by entry_cmp (List.filter (fun kv => pick (snd kv)) (map_to_list m))).
  { apply sort_by_elem_of, filter_elem. split; [by apply elem_of_map_to_list|done]. }
  rewrite E in Hin. by apply elem_of_nil in Hin.
Qed.

(** Eviction makes room. *)
Lemma evict_held sid m :
  0 < held sid m -> S (held sid (fst (evict_oldest m (issued_to sid)))) = held sid m.
Proof using Type.
  intros Hpos. unfold evict_oldest. destruct (oldest (issued_to sid) m) as [token|] eqn:E; simpl.
  - apply oldest_Some in E as (e & Hm & Hp & _). rewrite (held_delete sid m token e Hm), Hp. lia.
  - unfold held in Hpos. rewrite filter_none in Hpos; [simpl in Hpos; lia|].
    intros [t d] Hin%elem_of_map_to_list. by apply (oldest_None _ m t d).
Qed.

Lemma evict_size m : 0 < size m -> S (size (fst (evict_oldest m (fun _ => true)))) = size m.
Proof using Type.
  intros Hpos. unfold evict_oldest. destruct (oldest (fun _ => true) m) as [token|] eqn:E; simpl.
  - apply oldest_Some in E as (e & Hm & _). rewrite map_size_delete, Hm.
    assert (size m <> 0); [lia|]. lia.
  - destruct (map_choose m) as (t & d & Hd); [intros ->; rewrite map_size_empty in Hpos; lia|].
    by apply (oldest_None _ m t d) in E.
Qed.

Lemma evict_sub m pick t e :
  fst (evict_oldest m pick) !! t = Some e -> m !! t = Some e.
Proof using Type.
  unfold evict_oldest. destruct (oldest pick m) as [token|]; simpl; [|done].
  rewrite lookup_delete_Some. tauto.
Qed.

Lemma evict_held_le sid m pick : held sid (fst (evict_oldest m pick)) <= held sid m.
Proof using Type.
  unfold evict_oldest. destruct (oldest pick m); simpl; [apply held_delete_le|done].
Qed.

Lemma evict_size_le m pick : size (fst (evict_oldest m pick)) <= size m.
Proof using Type.
  unfold evict_oldest. destruct (oldest pick m); simpl; [|done]. rewrite map_size_delete.
  case_match; simpl; lia.
Qed.

(** ** Bounds *)

Definition capped (st : Store) : Prop :=
  size (inner st) <= MAX_TOKENS_TOTAL /\ forall sid, held sid (inner st) <= MAX_TOKENS_PER_PRINCIPAL.

(** What the two evictions of [issue] leave. *)
Lemma issue_room st issuer :
  capped st ->
  let g1 := if MAX_TOKENS_PER_PRINCIPAL <=? held issuer (inner st)
            then fst (evict_oldest (inner st) (issued_to issuer)) else inner st in
  let g2 := if MAX_TOKENS_TOTAL <=? size g1 then fst (evict_oldest g1 (fun _ => true)) else g1 in
  size g2 < MAX_TOKENS_TOTAL /\ held issuer g2 < MAX_TOKENS_PER_PRINCIPAL
  /\ (forall sid, held sid g2 <= held sid (inner st))
  /\ forall t e, g2 !! t = Some e -> inner st !! t = Some e.
Proof using Type.
  intros [Hs Hh] g1 g2. specialize (Hh issuer). unfold MAX_TOKENS_PER_PRINCIPAL, MAX_TOKENS_TOTAL in *.
  assert (G1 : size g1 <= 64 /\ held issuer g1 < 8 /\ (forall sid, held sid g1 <= held sid (inner st))
               /\ forall t e, g1 !! t = Some e -> inner st !! t = Some e).
  { unfold g1. destruct (Nat.leb_spec 8 (held issuer (inner st))).
    - pose proof (evict_held issuer (inner st)). pose proof (evict_size_le (inner st) (issued_to issuer)).
      split; [lia|]. split; [lia|]. split; [intros; apply evict_held_le|intros t e; apply evict_sub].
    - auto. }
  destruct G1 as (H1 & H2 & H3 & H4). unfold g2. destruct (Nat.leb_spec 64 (size g1)).
  - pose proof (evict_size g1). pose proof (evict_held_le issuer g1 (fun _ => true)).
    split; [lia|]. split; [lia|]. split.
    + intros sid. etrans; [apply evict_held_le|done].
    + intros t e Ht. apply H4. by apply evict_sub in Ht.
  - auto.
Qed.

Lemma issue_inner st operation payload expiry suffix :
  let issuer := issuer_sid payload in
  let g1 := if MAX_TOKENS_PER_PRINCIPAL <=? held issuer (inner st)
            then fst (evict_oldest (inner st) (issued_to issuer)) else inner st in
  let g2 := if MAX_TOKENS_TOTAL <=? size g1 then fst (evict_oldest g1 (fun _ => true)) else g1 in
  inner (fst (issue st operation payload expiry suffix))
  = <[token_name (counter st) suffix := mkEntry operation payload expiry (counter st)]> g2
  /\ snd (issue st operation payload expiry suffix) = token_name (counter st) suffix
  /\ counter (fst (issue st operation payload expiry suffix)) = u64_wrapping_add (counter st) 1.
Proof using Type.
  cbv zeta. unfold issue, next_token.
  destruct (MAX_TOKENS_PER_PRINCIPAL <=? held (issuer_sid payload) (inner st)).
  - destruct (evict_oldest (inner st) _) as [g1 b1]. cbn [fst].
    destruct (MAX_TOKENS_TOTAL <=? size g1); [destruct (evict_oldest g1 _)|]; done.
  - destruct (MAX_TOKENS_TOTAL <=? size (inner st)); [destruct (evict_oldest (inner st) _)|]; done.
Qed.

Lemma step_capped st st' : step st st' -> capped st -> capped st'.
Proof using Type.
  intros Hstep Hc. destruct Hstep as [st operation payload expiry suffix|st token operation caller now|st now].
  - destruct (issue_inner st operation payload expiry suffix) as (Ei & _ & _).
    destruct (issue_room st (issuer_sid payload) Hc) as (R1 & R2 & R3 & _).
    unfold capped. rewrite Ei. set (g2 := if MAX_TOKENS_TOTAL <=? _ then _ else _) in *.
    destruct Hc as [_ Hh]. split; [pose proof (size_insert_le g2 (token_name (counter st) suffix)
      (mkEntry operation payload expiry (counter st))); lia|].
    intros sid. etrans; [apply held_insert_le|]. unfold issued_to. cbn [e_payload].
    destruct (str_eqb (issuer_sid payload) sid) eqn:E.
    + apply str_eqb_eq in E as <-. lia.
    + etrans; [apply R3|apply Hh].
  - unfold take. destruct (inner st !! token) as [e|] eqn:E; [|done]. destruct Hc as [Hs Hh].
    assert (capped {| inner := delete token (inner st); eviction_logged := eviction_logged st;
                      counter := counter st |}).
    { split; cbn [inner]; [rewrite map_size_delete, E; lia|].
      intros sid. etrans; [apply held_delete_le|apply Hh]. }
    by repeat case_match.
  - destruct Hc as [Hs Hh]. split; cbn [fst gc_expired inner].
    + etrans; [|exact Hs]. apply map_subseteq_size, map_filter_subseteq.
    + intros sid. etrans; [|apply Hh]. apply held_subseteq, map_filter_subseteq.
Qed.

(** The store stays small: after any sequence of previews, confirms and
    sweeps no principal has more than eight live tokens and the store no more
    than sixty-four. *)
Theorem tokens_capped start st : rtc step (new_store start) st -> capped st.
Proof using Type.
  intros Hr. assert (H0 : capped (new_store start)).
  { split; cbn [new_store inner]; [rewrite map_size_empty; lia|].
    intros sid. unfold held. rewrite map_to_list_empty. simpl. lia. }
  revert H0. induction Hr as [st|x y z Hxy Hyz IH]; [done|]. intros Hx. apply IH. by eapply step_capped.
Qed.

(** ** Tokens are unique and die once *)

Lemma token_name_inj n n' suf suf' :
  (0 <= n < 2 ^ 64)%Z -> (0 <= n' < 2 ^ 64)%Z -> token_name n suf = token_name n' suf' -> n = n'.
Proof using Type.
  intros Hn Hn' E. unfold token_name in E. apply app_inv_head in E.
  assert (Hpow : (16 ^ N.of_nat 16 = 18446744073709551616)%N) by reflexivity.
  assert (Hlen : forall m, (0 <= m < 2 ^ 64)%Z -> length (pad_zero 16 (fmt_hex (Z.to_N m))) = 16).
  { intros m Hm. apply pad_zero_length; [lia|rewrite Hpow; lia|lia]. }
  apply app_inj_1 in E as [E _]; [|by rewrite !Hlen].
  apply Z2N.inj; [lia|lia|]. apply N.compare_eq. rewrite <- (pad_hex_cmp 16); [|lia|rewrite Hpow; lia..].
  rewrite E. apply cmp_refl, _.
Qed.

(** What is in the store after a preview: the new entry, or an old one. *)
Lemma issue_lookup st operation payload expiry suffix token e :
  inner (fst (issue st operation payload expiry suffix)) !! token = Some e ->
  (token = token_name (counter st) suffix
   /\ e = {| e_operation := operation; e_payload := payload; expires_at := expiry; seq := counter st |})
  \/ inner st !! token = Some e.
Proof using Type.
  destruct (issue_inner st operation payload expiry suffix) as (-> & _ & _).
  set (g1 := if MAX_TOKENS_PER_PRINCIPAL <=? _ then _ else _).
  assert (G1 : g1 !! token = Some e -> inner st !! token = Some e).
  { unfold g1. destruct (_ <=? held _ _); [apply evict_sub|done]. }
  intros [[<- <-]|[_ H]]%lookup_insert_Some; [by left|right]. apply G1. revert H.
  destruct (_ <=? size g1); [apply evict_sub|done].
Qed.

(** A step in which the 64-bit counter did not wrap. *)
Definition mint_step (st st' : Store) : Prop := step st st' /\ (counter st <= counter st')%Z.

(** A token that was minted and is not in the store. *)
Definition spent (token : str) (st : Store) : Prop :=
  inner st !! token = None
  /\ exists n suf, token = token_name n suf /\ (0 <= n < counter st)%Z /\ (counter st < 2 ^ 64)%Z.

Lemma issue_spent token st operation payload expiry suffix :
  spent token st -> (counter st <= counter (fst (issue st operation payload expiry suffix)))%Z ->
  spent token (fst (issue st operation payload expiry suffix)).
Proof using Type.
  pose proof (issue_lookup st operation payload expiry suffix token) as Hl.
  destruct (issue_inner st operation payload expiry suffix) as (_ & _ & Ec).
  intros (Hn & n & suf & Et & Hlt & Hc) Hmono. rewrite Ec in Hmono.
  assert (Hnw := Hmono). apply wrapping_grows in Hnw; [|lia].
  split.
  - destruct (inner (fst (issue _ _ _ _ _)) !! token) as [e|] eqn:Eg; [|done].
    destruct (Hl e eq_refl) as [[E _]|E]; [|congruence].
    rewrite Et in E. apply token_name_inj in E; lia.
  - rewrite Ec, Hnw. exists n, suf. split; [done|]. split; [lia|].
    rewrite <- Hnw. apply wrapping_range.
Qed.

Lemma mint_step_spent token st st' : mint_step st st' -> spent token st -> spent token st'.
Proof using Type.
  intros [Hstep Hmono] Hs. destruct Hstep as [st operation payload expiry suffix|st t operation caller now|st now].
  - by apply issue_spent.
  - destruct Hs as (Hn & Hname). unfold take. destruct (inner st !! t) as [e|] eqn:E; [|done].
    assert (spent token {| inner := delete t (inner st); eviction_logged := eviction_logged st;
                           counter := counter st |}).
    { split; [|exact Hname]. cbn [inner]. apply lookup_delete_None. by right. }
    by repeat case_match.
  - destruct Hs as (Hn & Hname). split; [|exact Hname]. cbn [fst gc_expired inner].
    apply map_lookup_filter_None. by left.
Qed.

(** A token works once: whatever a confirm answered, once it has looked at
    a live token that token is gone for good. Every later confirm with it, for
    any operation and caller, answers that it is unknown, as long as the
    process has not minted 2^64 tokens. *)
Theorem token_one_shot st token n suf operation caller now st' operation' caller' now' :
  token = token_name n suf -> (0 <= n < counter st)%Z -> (counter st < 2 ^ 64)%Z ->
  rtc mint_step (fst (take st token operation caller now)) st' ->
  snd (take st' token operation' caller' now') = Err NotFound.
Proof using Type.
  intros Hname Hn Hc Hr.
  assert (Hs : spent token (fst (take st token operation caller now))).
  { assert (Hc' : counter (fst (take st token operation caller now)) = counter st).
    { unfold take. by repeat case_match. }
    split; [|rewrite Hc'; eauto]. unfold take. destruct (inner st !! token) as [e|] eqn:E; [|done].
    assert (delete token (inner st) !! token = None) by apply lookup_delete_eq.
    by repeat case_match. }
  assert (Hs' : spent token st').
  { revert Hs. induction Hr as [x|x y z Hxy Hyz IH]; [done|]. intros Hx. apply IH.
    by eapply mint_step_spent. }
  unfold take. destruct Hs' as [-> _]. done.
Qed.

(** Every live entry was put there by a preview. *)
Lemma entry_was_issued s0 st token e :
  inner s0 = ∅ -> rtc step s0 st -> inner st !! token = Some e ->
  exists st0 suffix, rtc step s0 st0
    /\ snd (issue st0 (e_operation e) (e_payload e) (expires_at e) suffix) = token
    /\ rtc step (fst (issue st0 (e_operation e) (e_payload e) (expires_at e) suffix)) st.
Proof using Type.
  intros H0 Hr. revert st Hr. refine (rtc_ind_r _ _ _ _); [by rewrite H0, lookup_empty|].
  intros st st' Hr Hstep IH He.
  assert (Hold : inner st !! token = Some e -> exists st0 suffix, rtc step s0 st0
    /\ snd (issue st0 (e_operation e) (e_payload e) (expires_at e) suffix) = token
    /\ rtc step (fst (issue st0 (e_operation e) (e_payload e) (expires_at e) suffix)) st').
  { intros Ho. destruct (IH Ho) as (st0 & suffix & R1 & E & R2). exists st0, suffix.
    split_and!; [done..|]. by eapply rtc_r. }
  destruct Hstep as [st operation payload expiry suffix|st t operation caller now|st now].
  - apply issue_lookup in He as [[-> ->]|He]; [|by apply Hold]. exists st, suffix.
    cbn [e_operation e_payload expires_at]. split_and!; [done| |constructor].
    by destruct (issue_inner st operation payload expiry suffix) as (_ & -> & _).
  - apply Hold. revert He. unfold take. destruct (inner st !! t) as [d|] eqn:E; [|done].
    assert (delete t (inner st) !! token = Some e -> inner st !! token = Some e)
      by (intros [_ ?]%lookup_delete_Some; done).
    by repeat case_match.
  - apply Hold. cbn [fst gc_expired inner] in He. by apply map_lookup_filter_Some in He as [? _].
Qed.

(** Only what was previewed can be confirmed: a confirm that succeeds
    returns the payload some earlier preview of the same operation stored under
    that very token, before its deadline, and to the caller it was issued to
    whenever the confirm names one. *)
Theorem confirm_was_previewed start st token operation caller now payload :
  rtc step (new_store start) st ->
  snd (take st token operation caller now) = Ok payload ->
  exists st0 expiry suffix, rtc step (new_store start) st0
    /\ snd (issue st0 operation payload expiry suffix) = token
    /\ rtc step (fst (issue st0 operation payload expiry suffix)) st
    /\ (now < expiry)%Z
    /\ match caller with Some sid => sid = issuer_sid payload | None => True end.
Proof using Type.
  intros Hr. unfold take. destruct (inner st !! token) as [e|] eqn:E; [|done].
  destruct (negb _ || _) eqn:Eg; [done|]. apply orb_false_iff in Eg as [Hop Hcl].
  apply negb_false_iff, bool_decide_eq_true in Hop.
  destruct (expires_at e <=? now)%Z eqn:Et; [done|]. intros [= <-]. apply Z.leb_gt in Et.
  destruct (entry_was_issued (new_store start) st token e) as (st0 & suffix & R1 & En & R2); [done..|].
  rewrite Hop in *. exists st0, (expires_at e), suffix. split_and!; [done..|].
  destruct caller as [sid|]; [|done]. by apply negb_false_iff, str_eqb_eq in Hcl.
Qed.

End TokenStore.

Section Example.

Let preview : StoredMutation := @confirmation_of unit nat tt 7 (u "S-1-5-21") false.

Let one : Store := fst (issue (Op := nat) (new_store 1) 3 preview 120 (u "00")).

Let token : str := token_name 1 (u "00").

Lemma tokens_capped_witness : rtc step (new_store 1) one /\ capped one.
Proof.
  assert (H : rtc step (new_store 1) one) by (apply rtc_once, step_issue).
  split; [exact H|]. exact (tokens_capped 1 one H).
Defined.

Lemma token_one_shot_witness :
  snd (take one token 3 None 50) = Ok preview
  /\ snd (take (fst (take one token 3 None 50)) token 3 None 60) = Err NotFound.
Proof.
  split; [vm_compute; reflexivity|].
  apply (token_one_shot one token 1 (u "00") 3 None 50); [reflexivity|vm_compute; split; congruence
    |vm_compute; reflexivity|apply rtc_refl].
Defined.

Lemma confirm_was_previewed_witness :
  exists st0 expiry suffix, rtc step (new_store 1) st0
    /\ snd (issue st0 3 preview expiry suffix) = token
    /\ rtc step (fst (issue st0 3 preview expiry suffix)) one
    /\ (50 < expiry)%Z /\ u "S-1-5-21" = issuer_sid preview.
Proof.
  apply (confirm_was_previewed 1 one token 3 (Some (u "S-1-5-21")) 50 preview).
  - apply rtc_once, step_issue.
  - vm_compute; reflexivity.
Defined.

End Example.
