(* ===== verification/TimedWindow.v ===== *)
(** * Switches that close by themselves

    core/services/service-runtime/src/timed_window.rs: a switch is open until a
    deadline, or until the service restarts. The deadline is kept by a timer
    thread per window. The model is a state machine: the slot under its lock,
    what the sink was last told, the timers still to be spawned and the ones
    that run. A timer's turn is one look at the slot with the lock held, so any
    interleaving of callers and timers is a sequence of steps. The wall clock
    is an argument of every step and may go backwards. *)

From stdpp Require Import base numbers list relations.
From S2P Require Import Prelude.

Open Scope Z_scope.

Inductive LogWindowMode : Type := ModeOff | Timed | ModeUntilRestart.

Inductive LogWindowChange : Type := ChangeOff | OneHour | FourHours | ChangeUntilRestart.

Definition HOUR_MS : Z := 3600000.

Definition window_ms (c : LogWindowChange) : option Z :=
  match c with
  | OneHour => Some HOUR_MS
  | FourHours => Some (4 * HOUR_MS)
  | ChangeOff | ChangeUntilRestart => None
  end.

Inductive TimedWindow : Type :=
| WindowOff
| Until (deadline_ms : Z)
| UntilRestart.

#[export] Instance TimedWindow_eq_dec : EqDecision TimedWindow.
Proof. solve_decision. Defined.

Definition resumed (persisted_until_ms : option Z) (now_ms : Z) : TimedWindow :=
  match persisted_until_ms with
  | Some deadline_ms => if now_ms <? deadline_ms then Until deadline_ms else WindowOff
  | None => WindowOff
  end.

Definition requested (change : LogWindowChange) (now_ms : Z) : TimedWindow :=
  match change, window_ms change with
  | _, Some len => Until (i64_sat_add now_ms len)
  | ChangeUntilRestart, None => UntilRestart
  | _, None => WindowOff
  end.

Definition is_open (w : TimedWindow) (now_ms : Z) : bool :=
  match w with
  | WindowOff => false
  | Until deadline_ms => now_ms <? deadline_ms
  | UntilRestart => true
  end.

Definition persisted_until_ms (w : TimedWindow) : option Z :=
  match w with
  | Until deadline_ms => Some deadline_ms
  | WindowOff | UntilRestart => None
  end.

Definition reported (w : TimedWindow) (now_ms : Z) : LogWindowMode * Z :=
  match w with
  | Until deadline_ms => if now_ms <? deadline_ms then (Timed, deadline_ms) else (ModeOff, 0)
  | UntilRestart => (ModeUntilRestart, 0)
  | WindowOff => (ModeOff, 0)
  end.

(** ** The switch *)

Record Slot : Type := mkSlot { window : TimedWindow; generation : Z }.

(** [sink] is what an attached sink was last told, [None] without one.
    [arming] are the timers a call has still to spawn, [timers] the running
    ones; both are the generation and the deadline a timer was given. *)
Record TimedSwitch : Type := mkSwitch {
  slot : Slot;
  sink : option bool;
  arming : list (Z * Z);
  timers : list (Z * Z);
}.

Definition tell (s : option bool) (on : bool) : option bool :=
  match s with Some _ => Some on | None => None end.

(** What [arm_expiry] does when the thread could be started. *)
Definition armed (s : option bool) (generation deadline_ms : Z) : list (Z * Z) :=
  match s with None => [] | Some _ => [(generation, deadline_ms)] end.

Definition resume (persisted : option Z) (now_ms : Z) (s : option bool) : TimedSwitch :=
  let w := resumed persisted now_ms in
  let sl := {| window := w; generation := 0 |} in
  match w, persisted with
  | Until deadline_ms, _ =>
      {| slot := sl; sink := s; arming := armed s 0 deadline_ms; timers := [] |}
  | _, Some _ => {| slot := sl; sink := tell s false; arming := []; timers := [] |}
  | _, None => {| slot := sl; sink := s; arming := []; timers := [] |}
  end.

Definition is_live (sw : TimedSwitch) : bool :=
  match sink sw with Some _ => true | None => false end.

Definition effective (sw : TimedSwitch) (persisted : option Z) (now_ms : Z) : TimedWindow :=
  match window (slot sw) with
  | UntilRestart => UntilRestart
  | _ => resumed persisted now_ms
  end.

Definition set (sw : TimedSwitch) (w : TimedWindow) (now_ms : Z) : TimedSwitch :=
  let g := u64_wrapping_add (generation (slot sw)) 1 in
  let s := tell (sink sw) (is_open w now_ms) in
  {| slot := {| window := w; generation := g |};
     sink := s;
     arming := match w with
               | Until deadline_ms => armed s g deadline_ms ++ arming sw
               | _ => arming sw
               end;
     timers := timers sw |}.

(** One look of the timer with the given generation and deadline at the slot:
    whether the timer ends, and the slot and sink it leaves. *)
Definition expire_turn (sl : Slot) (s : option bool) (gen deadline_ms now : Z)
  : bool * (Slot * option bool) :=
  if negb (generation sl =? gen) then (true, (sl, s))
  else if deadline_ms <=? now
  then (true, ({| window := WindowOff; generation := u64_wrapping_add (generation sl) 1 |}, tell s false))
  else (false, (sl, s)).

Definition EXPIRY_RECHECK : Z := 15000.

(** In milliseconds. *)
Definition expiry_wait (deadline_ms now_ms : Z) : Z :=
  let left := i64_sat_sub deadline_ms now_ms in
  Z.min (if left <? 0 then 0 else left) EXPIRY_RECHECK.

(** The thread of a timer: its looks at the slot at the given clock readings,
    one wait between two of them, while no call touches the slot. [None] while
    it still waits; else what it leaves and when it ended. *)
Fixpoint expire_at (looks : list Z) (sl : Slot) (s : option bool) (gen deadline_ms : Z)
  : option (Slot * option bool * Z) :=
  match looks with
  | [] => None
  | now :: looks' =>
      match expire_turn sl s gen deadline_ms now with
      | (true, final) => Some (final, now)
      | (false, (sl', s')) => expire_at looks' sl' s' gen deadline_ms
      end
  end.

(** ** Interleavings of callers and timers *)

Inductive switch_step : TimedSwitch -> TimedSwitch -> Prop :=
| step_set sw w now : switch_step sw (set sw w now)
| step_spawned sl s pre t post ts :
    switch_step {| slot := sl; sink := s; arming := pre ++ t :: post; timers := ts |}
                {| slot := sl; sink := s; arming := pre ++ post; timers := t :: ts |}
| step_spawn_failed sl s pre t post ts :
    switch_step {| slot := sl; sink := s; arming := pre ++ t :: post; timers := ts |}
                {| slot := sl; sink := s; arming := pre ++ post; timers := ts |}
| step_timer sl s ar pre g d post now ended sl' s' :
    expire_turn sl s g d now = (ended, (sl', s')) ->
    switch_step {| slot := sl; sink := s; arming := ar; timers := pre ++ (g, d) :: post |}
                {| slot := sl'; sink := s'; arming := ar;
                   timers := if ended : bool then pre ++ post else pre ++ (g, d) :: post |}.

(** A step in which the 64-bit generation did not wrap. *)
Definition live_step (sw sw' : TimedSwitch) : Prop :=
  switch_step sw sw' /\ generation (slot sw) <= generation (slot sw').

(** A timer of the current generation has the deadline of the current window,
    any other is of an older one; a sink that is on has a window, and one that
    is off no window without a deadline. *)
Record switch_ok (sw : TimedSwitch) : Prop := {
  ok_timers : forall g d, (g, d) ∈ arming sw ++ timers sw ->
    g < generation (slot sw) \/ (g = generation (slot sw) /\ window (slot sw) = Until d);
  ok_sink : window (slot sw) = WindowOff -> sink sw <> Some true;
  ok_sink_on : window (slot sw) = UntilRestart -> sink sw <> Some false;
  ok_range : 0 <= generation (slot sw) < 2 ^ 64;
}.

Lemma armed_elem s g d g' d' : (g', d') ∈ armed s g d -> g' = g /\ d' = d.
Proof. destruct s; simpl; [|by intros ?%not_elem_of_nil]. by intros [= -> ->]%list_elem_of_singleton. Qed.

Lemma tell_false s : tell s false <> Some true.
Proof. by destruct s. Qed.

Lemma live_step_ok sw sw' : live_step sw sw' -> switch_ok sw -> switch_ok sw'.
Proof.
  intros [Hs Hg] [Ht Hk Ho Hr].
  destruct Hs as [sw w now|sl s pre t post ts|sl s pre t post ts|sl s ar pre g d post now ended sl' s' E];
    cbn [slot sink arming timers set generation window] in *.
  - apply wrapping_grows in Hg; [|done]. constructor; cbn [set slot sink arming timers generation window].
    + intros g d Hin. rewrite Hg. rewrite elem_of_app in Hin.
      assert (Hold : (g, d) ∈ arming sw \/ (g, d) ∈ timers sw -> g < generation (slot sw) + 1).
      { intros H. destruct (Ht g d) as [?|[? _]]; [by apply elem_of_app|lia|lia]. }
      destruct w as [|dl|]; [left; tauto| |left; tauto]. rewrite elem_of_app in Hin.
      destruct Hin as [[[-> ->]%armed_elem|?]|?]; [by right|left; tauto..].
    + intros ->. apply tell_false.
    + intros ->. by destruct (sink sw).
    + apply wrapping_range.
  - constructor; cbn [slot sink arming timers generation window]; [|done..].
    intros g d Hin. apply Ht. set_solver.
  - constructor; cbn [slot sink arming timers generation window]; [|done..].
    intros g d Hin. apply Ht. set_solver.
  - unfold expire_turn in E. destruct (Z.eqb_spec (generation sl) g) as [Eg|Eg]; cbn [negb] in E.
    2: { injection E as <- <- <-. constructor; cbn [slot sink arming timers generation window]; [|done..].
         intros g' d' Hin. apply Ht. set_solver. }
    destruct (d <=? now); injection E as <- <- <-.
    + cbn [generation] in Hg. apply wrapping_grows in Hg; [|done].
      constructor; cbn [slot sink arming timers generation window].
      * intros g' d' Hin. left. rewrite Hg.
        destruct (Ht g' d') as [?|[? _]]; [set_solver|lia|lia].
      * intros _. apply tell_false.
      * done.
      * apply wrapping_range.
    + constructor; cbn [slot sink arming timers generation window]; done.
Qed.

Lemma live_steps_ok sw sw' : rtc live_step sw sw' -> switch_ok sw -> switch_ok sw'.
Proof. induction 1 as [|x y z Hxy Hyz IH]; [done|]. intros Hx. apply IH. by eapply live_step_ok. Qed.

(** A switch starts well when the sink was not left on without a stored
    deadline; with one, the caller started it to match. *)
Lemma resume_ok persisted now s : (persisted = None -> s <> Some true) -> switch_ok (resume persisted now s).
Proof.
  intros Hs. unfold resume, resumed. destruct persisted as [d|].
  - destruct (now <? d); (constructor; cbn [slot sink arming timers window generation]; [|try done..]).
    + rewrite app_nil_r. intros g d' [-> ->]%armed_elem. by right.
    + by intros g d' ?%not_elem_of_nil.
    + intros _. apply tell_false.
  - constructor; cbn [slot sink arming timers window generation]; [|by intros; auto|done..].
    by intros g d' ?%not_elem_of_nil.
Qed.

(** A timer ends its own window and no other, and never early: in every
    state any interleaving of callers, thread starts and timers can reach, a
    timer's turn either leaves slot and sink alone or finds the very window it
    was started for, past its deadline, and leaves the switch closed. *)
Theorem timer_ends_only_its_window persisted now0 s sw g d now ended sl' s' :
  (persisted = None -> s <> Some true) ->
  rtc live_step (resume persisted now0 s) sw ->
  (g, d) ∈ timers sw ->
  expire_turn (slot sw) (sink sw) g d now = (ended, (sl', s')) ->
  (sl' = slot sw /\ s' = sink sw
     /\ (ended = true -> g < generation (slot sw))
     /\ (ended = false -> now < d /\ window (slot sw) = Until d))
  \/ (ended = true /\ window (slot sw) = Until d /\ d <= now
     /\ window sl' = WindowOff /\ s' <> Some true).
Proof.
  intros Hs Hr Hin E. apply live_steps_ok in Hr; [|by apply resume_ok].
  destruct (ok_timers sw Hr g d) as [Hg|[Hg Hw]]; [apply elem_of_app; by right|left|];
    unfold expire_turn in E.
  - destruct (Z.eqb_spec (generation (slot sw)) g) as [|_]; [lia|]. cbn [negb] in E.
    by injection E as <- <- <-.
  - subst g. rewrite Z.eqb_refl in E. cbn [negb] in E.
    destruct (Z.leb_spec d now); injection E as <- <- <-; [right|by left].
    split_and!; try done. apply tell_false.
Qed.

(** The sink and the window agree: in every reachable state a closed
    window's sink is off and a window that waits for a restart has its sink on.
    The timer of a window with a deadline turns the sink off whenever it looks
    past that deadline; before it, the timer looks again at the latest after
    fifteen seconds, never later than the deadline, and does not spin. *)
Theorem sink_follows_window persisted now0 s sw :
  (persisted = None -> s <> Some true) ->
  rtc live_step (resume persisted now0 s) sw ->
  (window (slot sw) = WindowOff -> sink sw <> Some true)
  /\ (window (slot sw) = UntilRestart -> sink sw <> Some false)
  /\ forall d now, window (slot sw) = Until d -> 0 <= now -> 0 <= d <= i64_max ->
     (d <= now -> exists sl', expire_turn (slot sw) (sink sw) (generation (slot sw)) d now
                              = (true, (sl', tell (sink sw) false)))
     /\ (now < d -> expire_turn (slot sw) (sink sw) (generation (slot sw)) d now
                     = (false, (slot sw, sink sw))
                     /\ 0 < expiry_wait d now <= 15000 /\ now + expiry_wait d now <= d).
Proof.
  intros Hs Hr. apply live_steps_ok in Hr; [|by apply resume_ok]. destruct Hr as [_ Hk Ho _].
  split_and!; [done..|]. intros d now Hw Hn Hd. unfold expire_turn. rewrite Z.eqb_refl. cbn [negb]. split.
  - intros H. rewrite (proj2 (Z.leb_le d now) H). by eexists.
  - intros H. rewrite (proj2 (Z.leb_gt d now) H). split; [done|].
    unfold expiry_wait, i64_sat_sub, EXPIRY_RECHECK.
    destruct (Z.ltb_spec (Z.max i64_min (Z.min i64_max (d - now))) 0); lia.
Qed.

(** The term of a window: one a client asked for is open at most four hours
    after the request, or until the service restarts; a restart resumes it only
    inside its term and with the same deadline, and never one that waits for
    the restart; and what is reported is open exactly when the window is. *)
Theorem windows_end change now restart t :
  i64_min <= now -> now + 4 * HOUR_MS <= i64_max ->
  let w := requested change now in
  (is_open w t = true -> w = UntilRestart \/ t < now + 4 * HOUR_MS)
  /\ is_open (resumed (persisted_until_ms w) restart) t
     = match w with Until d => (restart <? d) && (t <? d) | _ => false end
  /\ (w = UntilRestart <-> change = ChangeUntilRestart)
  /\ (is_open w t = true <-> fst (reported w t) <> ModeOff).
Proof.
  intros Hlo Hhi w.
  assert (Hterm : forall d, w = Until d -> d <= now + 4 * HOUR_MS).
  { unfold w, HOUR_MS in *. intros d. destruct change; cbn [requested window_ms]; try done;
      unfold i64_sat_add, HOUR_MS; intros [= <-]; lia. }
  assert (Hrestart : w = UntilRestart <-> change = ChangeUntilRestart) by by destruct change.
  split; [|split; [|split; [exact Hrestart|]]]; destruct w as [|d|]; cbn [is_open persisted_until_ms resumed reported];
    try done; try tauto.
  - intros H%Z.ltb_lt. right. specialize (Hterm d eq_refl). lia.
  - by destruct (restart <? d).
  - by destruct (t <? d).
Qed.

Lemma timer_ends_only_its_window_witness :
  exists sw sl', rtc live_step (resume (Some 100) 50 (Some true)) sw /\ (0, 100) ∈ timers sw
    /\ expire_turn (slot sw) (sink sw) 0 100 120 = (true, (sl', Some false))
    /\ window sl' = WindowOff.
Proof.
  set (sw := {| slot := {| window := Until 100; generation := 0 |}; sink := Some true;
                arming := []; timers := [(0, 100)] |}).
  assert (Hr : rtc live_step (resume (Some 100) 50 (Some true)) sw).
  { apply rtc_once. split; [|done]. exact (step_spawned _ _ [] (0, 100) [] []). }
  assert (Hin : (0, 100) ∈ timers sw) by by left.
  exists sw, {| window := WindowOff; generation := 1 |}.
  destruct (timer_ends_only_its_window (Some 100) 50 (Some true) sw 0 100 120 true
              {| window := WindowOff; generation := 1 |} (Some false))
    as [(E & _)|(_ & _ & _ & E & _)]; [done|exact Hr|exact Hin|reflexivity|discriminate E|].
  split_and!; [exact Hr|exact Hin|reflexivity|exact E].
Defined.

Lemma sink_follows_window_witness :
  exists sw, rtc live_step (resume None 0 (Some false)) sw /\ window (slot sw) = UntilRestart
    /\ sink sw <> Some false.
Proof.
  assert (Hr : rtc live_step (resume None 0 (Some false)) (set (resume None 0 (Some false)) UntilRestart 5)).
  { apply rtc_once. split; [apply step_set|done]. }
  exists (set (resume None 0 (Some false)) UntilRestart 5).
  destruct (sink_follows_window None 0 (Some false) _ ltac:(done) Hr) as (_ & Ho & _).
  split_and!; [exact Hr|reflexivity|apply Ho; reflexivity].
Defined.

Lemma windows_end_witness :
  is_open (requested OneHour 1000) 2000 = true /\ is_open (requested OneHour 1000) 3601000 = false
  /\ is_open (resumed (persisted_until_ms (requested OneHour 1000)) 1500) 2000 = true.
Proof.
  destruct (windows_end OneHour 1000 1500 2000) as (_ & E & _); [done|done|].
  split_and!; [reflexivity|reflexivity|]. rewrite E. reflexivity.
Defined.

(** ** Every timed window closes *)

(** A wait ends at the deadline or a recheck later. *)
Lemma expiry_wait_value d now :
  0 <= now -> d <= i64_max -> expiry_wait d now = Z.min (Z.max 0 (d - now)) EXPIRY_RECHECK.
Proof.
  intros Hn Hd. unfold expiry_wait, i64_sat_sub, EXPIRY_RECHECK in *.
  case_match; reflect_bools; rewrite ?Z.ltb_lt, ?Z.ltb_ge in *; lia.
Qed.

(** Every timed window closes: from the moment its timer first looks, with
    each wait lasting at least what was asked and at most [slack] more (a
    suspend makes the clock jump, never the wait shorter), the timer needs no
    more than one look per started recheck interval and one more; it then leaves
    the window off and the sink told so, not before the deadline and at most
    [slack] after it, or at once when the deadline had passed. *)
Theorem timed_window_closes sl s d (clock : nat -> Z) slack n :
  0 <= clock 0%nat -> d <= i64_max -> 0 <= slack ->
  (forall k, clock k + expiry_wait d (clock k) <= clock (S k) <= clock k + expiry_wait d (clock k) + slack) ->
  d - clock 0%nat <= EXPIRY_RECHECK * Z.of_nat n ->
  exists t, expire_at (clock <$> seq 0 (S n)) sl s (generation sl) d
            = Some ({| window := WindowOff; generation := u64_wrapping_add (generation sl) 1 |}, tell s false, t)
    /\ d <= t <= Z.max (clock 0%nat) (d + slack).
Proof.
  intros H0 Hd Hs. revert clock H0. induction n as [|n IH]; intros clock H0 Hc Hn; cbn [seq fmap list_fmap expire_at];
    unfold expire_turn; rewrite Z.eqb_refl; cbn [negb].
  - rewrite (proj2 (Z.leb_le d (clock 0%nat))) by lia. eexists. split; [done|lia].
  - destruct (Z.leb_spec d (clock 0%nat)); [eexists; split; [done|lia]|].
    pose proof (Hc 0%nat) as H1. rewrite expiry_wait_value in H1 by done. unfold EXPIRY_RECHECK in *.
    destruct (IH (fun k => clock (S k))) as (t & E & Ht); [lia|intros k; apply Hc|lia|].
    assert (El : (fun k => clock (S k)) <$> seq 0 (S n) = clock <$> seq 1 (S n))
      by (rewrite <- (fmap_S_seq 0 (S n)), <- list_fmap_compose; done).
    rewrite El in E. exists t. split; [exact E|lia].
Qed.

Lemma timed_window_closes_witness :
  let clock k := 1000 + 15000 * Z.of_nat k in
  let sl := {| window := Until 40000; generation := 3 |} in
  (forall k, (k < 2)%nat -> clock k + expiry_wait 40000 (clock k) = clock (S k)) /\
  exists t, expire_at [1000; 16000; 31000; 46000] sl (Some true) 3 40000
            = Some ({| window := WindowOff; generation := 4 |}, Some false, t).
Proof.
  intros clock sl. split; [intros [|[|k]] Hk; [reflexivity|reflexivity|lia]|].
  destruct (timed_window_closes sl (Some true) 40000 clock 60000 3) as (t & E & _).
  - subst clock. simpl. lia.
  - lia.
  - lia.
  - intros k. subst clock. cbv beta. rewrite expiry_wait_value; unfold EXPIRY_RECHECK; lia.
  - subst clock. unfold EXPIRY_RECHECK. simpl. lia.
  - exists t. exact E.
Defined.

(** C40. A running timer ends its own window, on time, and no other. Take any
    state that callers, thread starts and timers can reach from a restart by any
    interleaving in which the 64-bit generation does not wrap, the sink not
    being on without a stored deadline at the start, and a timer running in it.
    Let that timer look at the slot while no call touches it, each wait lasting
    at least what it asked and at most [slack] longer (a suspend makes the clock
    jump). Then its thread ends, after at most one look per started fifteen
    seconds up to the deadline and one more. A timer of a window that was
    replaced leaves the slot and the sink alone. The timer of the present window
    has that window's deadline; it turns the window and the sink off, never
    before the deadline and at most [slack] after it, or at its first look when
    the deadline had passed by then; and, the generation again not wrapping, it
    leaves every timer of the switch, started or still to start, an old one. *)
Theorem timers_close_their_windows persisted now0 s sw g d (clock : nat -> Z) slack n :
  (persisted = None -> s <> Some true) ->
  rtc live_step (resume persisted now0 s) sw ->
  (g, d) ∈ timers sw ->
  0 <= clock 0%nat -> d <= i64_max -> 0 <= slack ->
  (forall k, clock k + expiry_wait d (clock k) <= clock (S k) <= clock k + expiry_wait d (clock k) + slack) ->
  d - clock 0%nat <= EXPIRY_RECHECK * Z.of_nat n ->
  exists sl' s' t, expire_at (clock <$> seq 0 (S n)) (slot sw) (sink sw) g d = Some (sl', s', t)
    /\ ((g < generation (slot sw) /\ sl' = slot sw /\ s' = sink sw)
        \/ (g = generation (slot sw) /\ window (slot sw) = Until d
            /\ window sl' = WindowOff /\ s' = tell (sink sw) false
            /\ d <= t <= Z.max (clock 0%nat) (d + slack)
            /\ (generation (slot sw) <= generation sl' ->
                forall g' d', (g', d') ∈ arming sw ++ timers sw -> g' < generation sl'))).
Proof.
  intros Hs Hr Hin H0 Hd Hsl Hc Hn. apply live_steps_ok in Hr; [|by apply resume_ok].
  destruct (ok_timers sw Hr g d) as [Hg|[-> Hw]]; [apply elem_of_app; by right| |].
  - exists (slot sw), (sink sw), (clock 0%nat). cbn [seq fmap list_fmap expire_at]. unfold expire_turn.
    rewrite (proj2 (Z.eqb_neq (generation (slot sw)) g)) by lia. cbn [negb]. split; [done|by left].
  - destruct (timed_window_closes (slot sw) (sink sw) d clock slack n) as (t & E & Ht); [done..|].
    eexists _, _, t. split; [exact E|right]. cbn [window generation]. split_and!; [done..|lia|lia|].
    intros Hw'%wrapping_grows g' d' Hin'; [|apply Hr]. rewrite Hw'.
    destruct (ok_timers sw Hr g' d' Hin') as [?|[? _]]; lia.
Qed.

Lemma timers_close_their_windows_witness :
  exists sw sl' t, rtc live_step (resume None 0 (Some false)) sw /\ timers sw = [(1, 40000)]
    /\ expire_at [1000; 16000; 31000; 46000] (slot sw) (sink sw) 1 40000
       = Some (sl', Some false, t)
    /\ window sl' = WindowOff /\ 40000 <= t <= 100000.
Proof.
  set (sw := {| slot := {| window := Until 40000; generation := 1 |}; sink := Some true;
                arming := []; timers := [(1, 40000)] |}).
  assert (Hr : rtc live_step (resume None 0 (Some false)) sw).
  { apply (rtc_l _ _ (set (resume None 0 (Some false)) (Until 40000) 500)); [split; [apply step_set|done]|].
    apply rtc_once. split; [|done]. exact (step_spawned _ _ [] (1, 40000) [] []). }
  destruct (timers_close_their_windows None 0 (Some false) sw 1 40000
              (fun k => 1000 + 15000 * Z.of_nat k) 60000 3)
    as (sl' & s' & t & E & [(H & _)|(_ & _ & Hw & -> & Ht & _)]);
    [done|exact Hr|by left|simpl; lia|done|lia| |simpl; unfold EXPIRY_RECHECK; lia|discriminate H|].
  - intros k. cbv beta. rewrite expiry_wait_value; unfold EXPIRY_RECHECK; lia.
  - exists sw, sl', t. split_and!; [exact Hr|reflexivity|exact E|exact Hw|lia|simpl in Ht; lia].
Defined.
