(* ===== verification/FakePool.v ===== *)
(** * Geometry of the fake-address pool

    [FakeIpPoolConfig] of core/platform/api/src/fake_ip/allocator.rs: the two
    ranges fake addresses are taken from, the addresses of an index and back,
    and the test against the subnets of the host. *)

From stdpp Require Import base numbers list.
From S2P Require Import Prelude Str Digits IpAddr IpBlock.

Open Scope Z_scope.

Definition FAKE_IP_V4_BASE : Z := 3323068416. (* 198.18.0.0 *)
Definition FAKE_IP_V4_PREFIX_LEN : Z := 15.
Definition FAKE_IP_V6_BASE : Z := Z.shiftl 64512 112. (* fc00:: *)
Definition FAKE_IP_V6_PREFIX_LEN : Z := 18.
Definition FAKE_IP_GATEWAY_INDEX : Z := 1.
Definition FAKE_IP_FIRST_HOST_INDEX : Z := 2.

Record LocalSubnet : Set := mkLocalSubnet { ls_network : IpAddr; ls_prefix_len : Z }.

Record PoolCollision : Set := mkPoolCollision { pc_family : str; pc_local : LocalSubnet }.

Record FakeIpPoolConfig : Set := mkPool {
  v4_base : Z;
  v4_prefix_len : Z;
  v6_base : option Z;
  v6_prefix_len : Z;
}.

Definition default_pool : FakeIpPoolConfig :=
  {| v4_base := FAKE_IP_V4_BASE; v4_prefix_len := FAKE_IP_V4_PREFIX_LEN;
     v6_base := Some FAKE_IP_V6_BASE; v6_prefix_len := FAKE_IP_V6_PREFIX_LEN |}.

Definition v4_only : FakeIpPoolConfig :=
  {| v4_base := v4_base default_pool; v4_prefix_len := v4_prefix_len default_pool;
     v6_base := None; v6_prefix_len := v6_prefix_len default_pool |}.

(** [u32] and [u128] wrapping addition and subtraction. *)
Definition u32_wrapping_add (a b : Z) : Z := (a + b) mod 2 ^ 32.
Definition u32_wrapping_sub (a b : Z) : Z := (a - b) mod 2 ^ 32.
Definition u128_wrapping_add (a b : Z) : Z := (a + b) mod 2 ^ 128.
Definition u128_wrapping_sub (a b : Z) : Z := (a - b) mod 2 ^ 128.

Definition prefix_mask_v4 (prefix_len : Z) : Z :=
  if prefix_len =? 0 then 0
  else Z.shiftl u32_max (Z.min (u_sat_sub 32 prefix_len) 31) mod 2 ^ 32.

Definition prefix_mask_v6 (prefix_len : Z) : Z :=
  if prefix_len =? 0 then 0
  else Z.shiftl u128_max (Z.min (u_sat_sub 128 prefix_len) 127) mod 2 ^ 128.

Definition v4_address_count (c : FakeIpPoolConfig) : Z :=
  let host_bits := u_sat_sub 32 (v4_prefix_len c) in
  if 32 <=? host_bits then u32_max else Z.shiftl 1 host_bits.

Definition capacity (c : FakeIpPoolConfig) : Z :=
  u_sat_sub (u_sat_sub (v4_address_count c) FAKE_IP_FIRST_HOST_INDEX) 1.

Definition v4_at (c : FakeIpPoolConfig) (index : Z) : Z := u32_wrapping_add (v4_base c) index.

Definition v6_at (c : FakeIpPoolConfig) (index : Z) : option Z :=
  (fun base => u128_wrapping_add base index) <$> v6_base c.

Definition gateway_v4 (c : FakeIpPoolConfig) : Z := v4_at c FAKE_IP_GATEWAY_INDEX.

Definition gateway_v6 (c : FakeIpPoolConfig) : option Z := v6_at c FAKE_IP_GATEWAY_INDEX.

Definition v4_range (c : FakeIpPoolConfig) : Z * Z :=
  (v4_base c, u32_wrapping_add (v4_base c) (u_sat_sub (v4_address_count c) 1)).

Definition stamp (c : FakeIpPoolConfig) : str :=
  let v4 := u "v4=" ++ fmt_ipv4 (v4_base c) ++ u "/" ++ fmt_dec (Z.to_N (v4_prefix_len c)) in
  match v6_base c with
  | Some v6 => v4 ++ u ";v6=" ++ fmt_ipv6 v6 ++ u "/" ++ fmt_dec (Z.to_N (v6_prefix_len c))
  | None => v4
  end.

Definition contains (c : FakeIpPoolConfig) (addr : IpAddr) : bool :=
  match addr with
  | V4 v4 =>
      let m := prefix_mask_v4 (v4_prefix_len c) in
      Z.land v4 m =? Z.land (v4_base c) m
  | V6 v6 =>
      match v6_base c with
      | Some base =>
          let m := prefix_mask_v6 (v6_prefix_len c) in
          Z.land v6 m =? Z.land base m
      | None => false
      end
  end.

Definition holds_host (c : FakeIpPoolConfig) (addr : IpAddr) : bool :=
  if negb (contains c addr) then false
  else match addr with
       | V4 v4 =>
           let m := prefix_mask_v4 (v4_prefix_len c) in
           let host_bits := Z.land v4 (u32_max - m) in
           negb (host_bits =? 0) && negb (host_bits =? u32_max - m)
       | V6 v6 =>
           let m := prefix_mask_v6 (v6_prefix_len c) in
           negb (Z.land v6 (u128_max - m) =? 0)
       end.

Definition is_default_pool_addr (addr : IpAddr) : bool := contains default_pool addr.

Definition overlaps_block (c : FakeIpPoolConfig) (net : IpBlock) : bool :=
  let pool := match network net with
              | V4 _ => IpBlock_new (V4 (v4_base c)) (v4_prefix_len c)
              | V6 _ => base ← v6_base c; IpBlock_new (V6 base) (v6_prefix_len c)
              end in
  match pool with Some pool => IpBlock_overlaps pool net | None => false end.

Definition collision_with (c : FakeIpPoolConfig) (subnet : LocalSubnet) : option PoolCollision :=
  let overlaps :=
    match ls_network subnet with
    | V4 local_base =>
        let m := prefix_mask_v4 (Z.min (v4_prefix_len c) (ls_prefix_len subnet)) in
        Z.land local_base m =? Z.land (v4_base c) m
    | V6 local_base =>
        match v6_base c with
        | Some pool_base =>
            let m := prefix_mask_v6 (Z.min (v6_prefix_len c) (ls_prefix_len subnet)) in
            Z.land local_base m =? Z.land pool_base m
        | None => false
        end
    end in
  if overlaps
  then Some {| pc_family := if is_ipv4 (ls_network subnet) then u "ipv4" else u "ipv6";
               pc_local := subnet |}
  else None.

Definition collisions (c : FakeIpPoolConfig) (locals : list LocalSubnet) : list PoolCollision :=
  omap (collision_with c) locals.

Definition overlaps_any (c : FakeIpPoolConfig) (locals : list LocalSubnet) : bool :=
  existsb (fun s => match collision_with c s with Some _ => true | None => false end) locals.

Definition index_of (c : FakeIpPoolConfig) (addr : IpAddr) : option Z :=
  if negb (contains c addr) then None
  else match addr with
       | V4 v4 => Some (u32_wrapping_sub v4 (v4_base c))
       | V6 v6 =>
           base ← v6_base c;
           let offset := u128_wrapping_sub v6 base in
           if offset <=? u32_max then Some offset else None
       end.

(** The highest index a hostname may hold. *)
Definition last_host_index (c : FakeIpPoolConfig) : Z :=
  Z.max (u_sat_sub (v4_address_count c) 2) FAKE_IP_FIRST_HOST_INDEX.

(** ** Masks as division *)

Lemma shl_ones bits h :
  0 <= h <= bits -> Z.shiftl (2 ^ bits - 1) h mod 2 ^ bits = 2 ^ bits - 2 ^ h.
Proof.
  intros H. rewrite Z.shiftl_mul_pow2 by lia.
  assert (2 ^ h <= 2 ^ bits) by (apply Z.pow_le_mono_r; lia). assert (0 < 2 ^ h) by lia.
  symmetry. apply (Z.mod_unique_pos _ _ (2 ^ h - 1)); lia.
Qed.

Lemma prefix_mask_v4_mask p : 0 <= p <= 32 -> prefix_mask_v4 p = mask p 32.
Proof.
  intros Hp. unfold prefix_mask_v4, u_sat_sub. rewrite mask_value by (auto; by left).
  destruct (Z.eqb_spec p 0) as [->|]; [reflexivity|].
  change u32_max with (2 ^ 32 - 1). rewrite shl_ones by lia. do 2 f_equal. lia.
Qed.

Lemma prefix_mask_v6_mask p : 0 <= p <= 128 -> prefix_mask_v6 p = mask p 128.
Proof.
  intros Hp. unfold prefix_mask_v6, u_sat_sub. rewrite mask_value by (auto; by right).
  destruct (Z.eqb_spec p 0) as [->|]; [reflexivity|].
  change u128_max with (2 ^ 128 - 1). rewrite shl_ones by lia. do 2 f_equal. lia.
Qed.

(** Two values agree under a mask when they are in the same aligned block. *)
Lemma mask_agree p bits v w :
  is_width bits -> 0 <= p <= bits -> 0 <= v < 2 ^ bits -> 0 <= w < 2 ^ bits ->
  Z.land v (mask p bits) = Z.land w (mask p bits) <-> v / 2 ^ (bits - p) = w / 2 ^ (bits - p).
Proof.
  intros Hw Hp Hv Hww. rewrite !land_mask by assumption.
  assert (0 < 2 ^ (bits - p)) by lia.
  pose proof (Z.div_mod v (2 ^ (bits - p))). pose proof (Z.div_mod w (2 ^ (bits - p))).
  split; [|intros E; rewrite E in *; lia]. intros E.
  apply (Z.mul_reg_l _ _ (2 ^ (bits - p))); lia.
Qed.

Lemma floor_div v w m : 0 < m -> v - v mod m = w - w mod m <-> v / m = w / m.
Proof.
  intros Hm. pose proof (Z.div_mod v m). pose proof (Z.div_mod w m).
  split; [|intros E; rewrite E in *; lia]. intros E. apply (Z.mul_reg_l _ _ m); lia.
Qed.

Lemma div_coarser v w h k : 0 <= h <= k -> v / 2 ^ h = w / 2 ^ h -> v / 2 ^ k = w / 2 ^ k.
Proof.
  intros H E. replace (2 ^ k) with (2 ^ h * 2 ^ (k - h)) by (rewrite <- Z.pow_add_r by lia; f_equal; lia).
  rewrite <- !Z.div_div by lia. by rewrite E.
Qed.

(** The ranges of a pool fit their families. *)
Definition pool_ranges (c : FakeIpPoolConfig) : Prop :=
  0 <= v4_base c < 2 ^ 32 /\ 0 <= v4_prefix_len c <= 32
  /\ match v6_base c with Some base => 0 <= base < 2 ^ 128 | None => True end
  /\ 0 <= v6_prefix_len c <= 128.

(** The base and prefix length of the pool's range of an address family. *)
Definition pool_side (c : FakeIpPoolConfig) (v4 : bool) : option (IpAddr * Z) :=
  if v4 then Some (V4 (v4_base c), v4_prefix_len c)
  else (fun base => (V6 base, v6_prefix_len c)) <$> v6_base c.

Lemma pool_side_wf c v4 base p :
  pool_ranges c -> pool_side c v4 = Some (base, p) ->
  is_ipv4 base = v4 /\ ip_wf base /\ 0 <= p <= family_bits base.
Proof.
  intros (H1 & H2 & H3 & H4). unfold pool_side. destruct v4; [by intros [= <- <-]|].
  destruct (v6_base c); [|done]. by intros [= <- <-].
Qed.

Lemma contains_side c a :
  pool_ranges c -> ip_wf a ->
  contains c a = true <-> exists base p, pool_side c (is_ipv4 a) = Some (base, p)
    /\ to_bits a / 2 ^ (family_bits a - p) = to_bits base / 2 ^ (family_bits a - p).
Proof.
  intros (H1 & H2 & H3 & H4) Ha. destruct a as [v|v]; unfold contains, pool_side; cbn [is_ipv4].
  - rewrite Z.eqb_eq, prefix_mask_v4_mask, mask_agree by (auto; by left). naive_solver.
  - destruct (v6_base c) as [base|]; [|naive_solver]. cbn [fmap option_fmap option_map].
    rewrite Z.eqb_eq, prefix_mask_v6_mask, mask_agree by (auto; by right). naive_solver.
Qed.

Lemma collision_side c s :
  pool_ranges c -> ip_wf (ls_network s) -> 0 <= ls_prefix_len s ->
  collision_with c s <> None <-> exists base p, pool_side c (is_ipv4 (ls_network s)) = Some (base, p)
    /\ let h := family_bits (ls_network s) - Z.min p (ls_prefix_len s) in
       to_bits (ls_network s) / 2 ^ h = to_bits base / 2 ^ h.
Proof.
  intros (H1 & H2 & H3 & H4) Ha Hp. destruct s as [a q]. unfold collision_with, pool_side. cbn [ls_network ls_prefix_len] in *.
  transitivity (match a with
    | V4 local_base => Z.land local_base (prefix_mask_v4 (Z.min (v4_prefix_len c) q))
                       = Z.land (v4_base c) (prefix_mask_v4 (Z.min (v4_prefix_len c) q))
    | V6 local_base => exists pool_base, v6_base c = Some pool_base
        /\ Z.land local_base (prefix_mask_v6 (Z.min (v6_prefix_len c) q))
           = Z.land pool_base (prefix_mask_v6 (Z.min (v6_prefix_len c) q))
    end).
  { destruct a; [destruct (Z.eqb_spec (Z.land bits (prefix_mask_v4 (Z.min (v4_prefix_len c) q)))
        (Z.land (v4_base c) (prefix_mask_v4 (Z.min (v4_prefix_len c) q)))); naive_solver|].
    destruct (v6_base c) as [b|]; [|naive_solver]. case_match eqn:E; rewrite ?Z.eqb_eq, ?Z.eqb_neq in E; naive_solver. }
  destruct a as [v|v]; cbn [is_ipv4].
  - rewrite prefix_mask_v4_mask, mask_agree by (lia || auto; by left). naive_solver.
  - destruct (v6_base c) as [b|]; [|naive_solver]. cbn [fmap option_fmap option_map].
    split.
    + intros (b' & [= <-] & E). exists (V6 b), (v6_prefix_len c). split; [done|].
      rewrite prefix_mask_v6_mask, mask_agree in E by (lia || auto; by right). exact E.
    + intros (base & p & [= <- <-] & E). exists b. split; [done|].
      rewrite prefix_mask_v6_mask, mask_agree by (lia || auto; by right). exact E.
Qed.

Lemma new_contains n p b a :
  ip_wf n -> 0 <= p -> ip_wf a -> IpBlock_new n p = Some b ->
  IpBlock_contains b a = true <-> is_ipv4 a = is_ipv4 n
    /\ to_bits a / 2 ^ (family_bits n - p) = to_bits n / 2 ^ (family_bits n - p).
Proof.
  intros Hn Hp Ha E. apply IpBlock_new_Some in E as (H1 & H2 & H3 & H4 & Hwf); [|done..].
  rewrite IpBlock_contains_spec by done. unfold in_block, block_size. rewrite H2, H3, H4.
  rewrite (family_bits_eq _ _ H3). rewrite <- floor_div by lia.
  rewrite <- floor_unique by (try apply sub_mod_mod; lia). done.
Qed.

Lemma collision_shared c s :
  pool_ranges c -> ip_wf (ls_network s) -> 0 <= ls_prefix_len s <= family_bits (ls_network s) ->
  collision_with c s <> None <-> exists a, ip_wf a /\ contains c a = true
    /\ is_ipv4 a = is_ipv4 (ls_network s)
    /\ to_bits a / 2 ^ (family_bits (ls_network s) - ls_prefix_len s)
       = to_bits (ls_network s) / 2 ^ (family_bits (ls_network s) - ls_prefix_len s).
Proof.
  intros Hc Hn Hp. rewrite collision_side by (done || lia). destruct s as [n q]. cbn [ls_network ls_prefix_len] in *.
  split.
  - intros (base & p & Hs & E). destruct (pool_side_wf c _ base p Hc Hs) as (Hf & Hwf & Hb).
    pose proof (family_bits_eq _ _ Hf) as Hfb. cbn zeta in E. rewrite Hfb in Hb.
    destruct (Z.le_ge_cases p q).
    + rewrite Z.min_l in E by lia. exists n. split_and!; try done.
      apply contains_side; [done..|]. eauto.
    + rewrite Z.min_r in E by lia. exists base. split_and!; try done.
      apply contains_side; [done..|]. rewrite Hf. eauto.
  - intros (a & Ha & Hin & Hf & E). apply contains_side in Hin as (base & p & Hs & E'); [|done..].
    rewrite Hf in Hs. exists base, p. split; [done|]. cbn zeta.
    destruct (pool_side_wf c _ base p Hc Hs) as (Hf' & Hwf & Hb).
    rewrite (family_bits_eq _ _ Hf') in Hb. rewrite (family_bits_eq _ _ Hf) in E'.
    transitivity (to_bits a / 2 ^ (family_bits n - Z.min p q)).
    + symmetry. eapply div_coarser, E. lia.
    + eapply div_coarser, E'. lia.
Qed.

Lemma overlaps_block_shared c n q b :
  pool_ranges c -> ip_wf n -> 0 <= q -> IpBlock_new n q = Some b ->
  overlaps_block c b = true <-> exists a, ip_wf a /\ contains c a = true /\ IpBlock_contains b a = true.
Proof.
  intros Hc Hn Hq E. pose proof E as Enew.
  apply IpBlock_new_Some in E as (_ & _ & Hf & _ & Hb); [|done..].
  transitivity (exists pool base p, pool_side c (is_ipv4 n) = Some (base, p)
                 /\ IpBlock_new base p = Some pool /\ IpBlock_overlaps pool b = true).
  { unfold overlaps_block, pool_side. rewrite <- Hf.
    destruct (network b); cbn [is_ipv4]; [|destruct (v6_base c); cbn [mbind option_bind fmap option_fmap option_map]].
    3: naive_solver.
    all: case_match; naive_solver. }
  split.
  - intros (pool & base & p & Hs & Ep & Ho). destruct (pool_side_wf c _ base p Hc Hs) as (Hf' & Hwf & Hp).
    pose proof Ep as Ep'. apply IpBlock_new_Some in Ep' as (_ & _ & Hf2 & _ & Hwp); [|done|lia].
    apply IpBlock_overlaps_spec in Ho as (a & Ha & Hi1 & Hi2); [|done..].
    exists a. rewrite <- IpBlock_contains_spec in Hi1, Hi2 by done. split_and!; try done.
    rewrite (new_contains base p) in Hi1 by (done || lia). destruct Hi1 as [Hi1 Hd].
    apply contains_side; [done..|]. exists base, p. rewrite Hi1, Hf', (family_bits_eq _ _ Hi1). done.
  - intros (a & Ha & Hin & Hi2). pose proof Hi2 as Hfa. rewrite IpBlock_contains_spec in Hfa by done.
    destruct Hfa as [Hfa _]. rewrite Hf in Hfa.
    apply contains_side in Hin as (base & p & Hs & E'); [|done..]. rewrite Hfa in Hs.
    destruct (pool_side_wf c _ base p Hc Hs) as (Hf' & Hwf & Hp).
    destruct (IpBlock_new base p) as [pool|] eqn:Ep.
    2: { unfold IpBlock_new in Ep. destruct (Z.ltb_spec (family_bits base) p); [lia|done]. }
    exists pool, base, p. split_and!; try done.
    pose proof Ep as Ep'. apply IpBlock_new_Some in Ep' as (_ & _ & Hf2 & _ & Hwp); [|done|lia].
    apply IpBlock_overlaps_spec; [done..|]. exists a. rewrite <- !IpBlock_contains_spec by done.
    split_and!; try done. apply (new_contains base p); [done|lia|done..|].
    rewrite Hf', Hfa. split; [done|]. assert (is_ipv4 a = is_ipv4 base) as Hfab by congruence.
    rewrite <- (family_bits_eq _ _ Hfab). done.
Qed.

(** ** Indices and addresses *)

(** A pool as its documentation asks for it: networks in canonical form, four
    addresses or more, and an IPv6 range at least as large as the IPv4 one. *)
Definition pool_wf (c : FakeIpPoolConfig) : Prop :=
  pool_ranges c /\ v4_prefix_len c <= 30
  /\ v4_base c mod 2 ^ (32 - v4_prefix_len c) = 0
  /\ match v6_base c with
     | Some base => base mod 2 ^ (128 - v6_prefix_len c) = 0
                    /\ v6_prefix_len c <= 96 + v4_prefix_len c
     | None => True
     end.

Lemma default_pool_wf : pool_wf default_pool.
Proof. vm_compute. repeat split; congruence. Qed.

Lemma address_count_value c :
  0 <= v4_prefix_len c <= 30 ->
  4 <= v4_address_count c <= 2 ^ (32 - v4_prefix_len c) /\ v4_address_count c <= u32_max.
Proof.
  intros H. unfold v4_address_count, u_sat_sub. rewrite Z.max_r by lia.
  assert (2 ^ 2 <= 2 ^ (32 - v4_prefix_len c)) by (apply Z.pow_le_mono_r; lia).
  destruct (Z.leb_spec 32 (32 - v4_prefix_len c)).
  - replace (v4_prefix_len c) with 0 by lia. change (2 ^ (32 - 0)) with 4294967296. lia.
  - rewrite Z.shiftl_1_l. assert (2 ^ (32 - v4_prefix_len c) <= 2 ^ 31) by (apply Z.pow_le_mono_r; lia). lia.
Qed.

Lemma last_host_index_value c :
  0 <= v4_prefix_len c <= 30 -> last_host_index c = v4_address_count c - 2 /\ 0 < capacity c.
Proof.
  intros H. destruct (address_count_value c H). unfold last_host_index, capacity, u_sat_sub,
    FAKE_IP_FIRST_HOST_INDEX. lia.
Qed.

Lemma aligned_div base i m : 0 < m -> base mod m = 0 -> 0 <= i < m -> (base + i) / m = base / m.
Proof.
  intros Hm Hb Hi. pose proof (Z.div_mod base m). symmetry.
  apply (Z.div_unique _ m (base / m) i); lia.
Qed.

Lemma aligned_room a p i :
  ip_wf a -> 0 <= p <= family_bits a -> to_bits a mod 2 ^ (family_bits a - p) = 0 ->
  0 <= i < 2 ^ (family_bits a - p) -> 0 <= to_bits a + i < 2 ^ family_bits a.
Proof.
  intros Ha Hp Hal Hi. destruct (block_bounds {| network := a; prefix_len := p |}) as (B1 & B2 & B3); [done|].
  unfold block_size in *. cbn [network prefix_len] in *. apply ip_wf_bits in Ha. lia.
Qed.

Lemma v4_at_facts c i :
  pool_wf c -> 0 <= i < v4_address_count c ->
  v4_at c i = v4_base c + i /\ ip_wf (V4 (v4_at c i)) /\ contains c (V4 (v4_at c i)) = true.
Proof.
  intros (Hc & H30 & Hal & _) Hi. pose proof Hc as (H1 & H2 & _).
  destruct (address_count_value c) as [Hcount _]; [lia|].
  pose proof (aligned_room (V4 (v4_base c)) (v4_prefix_len c) i) as Hr.
  change (family_bits (V4 (v4_base c))) with 32 in Hr. cbn [to_bits] in Hr.
  specialize (Hr H1 ltac:(lia) Hal ltac:(lia)).
  assert (E : v4_at c i = v4_base c + i) by (apply Z.mod_small; lia).
  assert (Hwf : ip_wf (V4 (v4_at c i))) by (rewrite E; exact Hr).
  split_and!; try done. apply contains_side; [done..|]. exists (V4 (v4_base c)), (v4_prefix_len c).
  split; [done|]. cbn [to_bits]. rewrite E. change (family_bits (V4 (v4_base c + i))) with 32.
  apply aligned_div; [lia|exact Hal|lia].
Qed.

Lemma v6_at_facts c i a :
  pool_wf c -> 0 <= i < v4_address_count c -> v6_at c i = Some a ->
  exists base, v6_base c = Some base /\ a = base + i /\ ip_wf (V6 a) /\ contains c (V6 a) = true.
Proof.
  intros (Hc & H30 & _ & H6) Hi Ha. pose proof Hc as (_ & H2 & H3 & H4).
  destruct (address_count_value c) as [Hcount _]; [lia|]. unfold v6_at in Ha.
  destruct (v6_base c) as [base|] eqn:Eb; [|done]. injection Ha as <-. destruct H6 as [Hal Hlen].
  assert (2 ^ (32 - v4_prefix_len c) <= 2 ^ (128 - v6_prefix_len c)) by (apply Z.pow_le_mono_r; lia).
  pose proof (aligned_room (V6 base) (v6_prefix_len c) i) as Hr.
  change (family_bits (V6 base)) with 128 in Hr. cbn [to_bits] in Hr.
  specialize (Hr H3 ltac:(lia) Hal ltac:(lia)).
  exists base. assert (E : u128_wrapping_add base i = base + i) by (apply Z.mod_small; lia). rewrite E.
  assert (Hwf : ip_wf (V6 (base + i))) by exact Hr.
  split_and!; try done. apply contains_side; [done..|]. exists (V6 base), (v6_prefix_len c).
  unfold pool_side. cbn [is_ipv4]. rewrite Eb. split; [done|]. cbn [to_bits].
  change (family_bits (V6 (base + i))) with 128. apply aligned_div; [lia|exact Hal|lia].
Qed.

(** Both addresses of an index lead back to it. *)
Lemma index_of_v4_at c i : pool_wf c -> 0 <= i < v4_address_count c -> index_of c (V4 (v4_at c i)) = Some i.
Proof.
  intros Hc Hi. destruct (v4_at_facts c i Hc Hi) as (E & _ & Hin). unfold index_of. rewrite Hin. cbn [negb].
  rewrite E. unfold u32_wrapping_sub. f_equal. replace (v4_base c + i - v4_base c) with i by lia.
  destruct Hc as ((_ & H2 & _) & H30 & _). destruct (address_count_value c); [lia|].
  apply Z.mod_small. lia.
Qed.

Lemma index_of_v6_at c i a :
  pool_wf c -> 0 <= i < v4_address_count c -> v6_at c i = Some a -> index_of c (V6 a) = Some i.
Proof.
  intros Hc Hi Ha. destruct (v6_at_facts c i a Hc Hi Ha) as (base & Eb & E & _ & Hin).
  unfold index_of. rewrite Hin, Eb. cbn [negb mbind option_bind].
  rewrite E. unfold u128_wrapping_sub. replace (base + i - base) with i by lia.
  destruct Hc as ((_ & H2 & _) & H30 & _). destruct (address_count_value c); [lia|].
  rewrite Z.mod_small by lia. by rewrite (proj2 (Z.leb_le i u32_max)) by lia.
Qed.

(** The addresses of a host index are hosts of the pool. *)
Lemma v4_at_host c i :
  pool_wf c -> FAKE_IP_FIRST_HOST_INDEX <= i <= last_host_index c -> holds_host c (V4 (v4_at c i)) = true.
Proof.
  unfold FAKE_IP_FIRST_HOST_INDEX. intros Hc Hi. pose proof Hc as ((H1 & H2 & _) & H30 & Hal & _).
  destruct (last_host_index_value c) as [El _]; [lia|]. destruct (address_count_value c) as [Hcount _]; [lia|].
  destruct (v4_at_facts c i Hc ltac:(lia)) as (E & _ & Hin). unfold holds_host. rewrite Hin. cbn [negb].
  rewrite prefix_mask_v4_mask, mask_value, E by (lia || by left). set (h := 32 - v4_prefix_len c) in *.
  replace (u32_max - (2 ^ 32 - 2 ^ h)) with (Z.ones h) by (rewrite Z.ones_equiv; lia).
  rewrite Z.land_ones, <- Z.add_mod_idemp_l, Hal, Z.add_0_l, Z.mod_small by lia.
  rewrite Z.ones_equiv. rewrite (proj2 (Z.eqb_neq i 0)), (proj2 (Z.eqb_neq i (Z.pred (2 ^ h)))) by lia. done.
Qed.

Lemma v6_at_host c i a :
  pool_wf c -> FAKE_IP_FIRST_HOST_INDEX <= i <= last_host_index c -> v6_at c i = Some a ->
  holds_host c (V6 a) = true.
Proof.
  unfold FAKE_IP_FIRST_HOST_INDEX. intros Hc Hi Ha. pose proof Hc as ((H1 & H2 & _ & H4) & H30 & _ & H6).
  destruct (last_host_index_value c) as [El _]; [lia|]. destruct (address_count_value c) as [Hcount _]; [lia|].
  destruct (v6_at_facts c i a Hc ltac:(lia) Ha) as (base & Eb & E & _ & Hin). unfold holds_host. rewrite Hin.
  cbn [negb]. rewrite Eb in H6. destruct H6 as [Hal Hlen].
  rewrite prefix_mask_v6_mask, mask_value, E by (lia || by right). set (h := 128 - v6_prefix_len c) in *.
  assert (2 ^ (32 - v4_prefix_len c) <= 2 ^ h) by (apply Z.pow_le_mono_r; lia).
  replace (u128_max - (2 ^ 128 - 2 ^ h)) with (Z.ones h) by (rewrite Z.ones_equiv; lia).
  rewrite Z.land_ones, <- Z.add_mod_idemp_l, Hal, Z.add_0_l, Z.mod_small by lia.
  by rewrite (proj2 (Z.eqb_neq i 0)) by lia.
Qed.

(** ** Claims *)

(** The collision test of the pool is exact: a subnet of the host is
    reported exactly when some address is in both the subnet and the pool, which
    is also when the test for rule networks says that the two overlap. *)
Theorem collision_is_shared_address c s b :
  pool_ranges c -> ip_wf (ls_network s) -> 0 <= ls_prefix_len s ->
  IpBlock_new (ls_network s) (ls_prefix_len s) = Some b ->
  (collision_with c s <> None <->
     exists a, ip_wf a /\ contains c a = true /\ IpBlock_contains b a = true)
  /\ (collision_with c s <> None <-> overlaps_block c b = true).
Proof.
  intros Hc Hn Hp E. pose proof E as E'. apply IpBlock_new_Some in E' as (Hle & _); [|done..].
  assert (H : collision_with c s <> None <->
     exists a, ip_wf a /\ contains c a = true /\ IpBlock_contains b a = true).
  { rewrite collision_shared by (done || lia). split; intros (a & Ha & Hin & Hr); exists a.
    - split_and!; try done. by apply (new_contains (ls_network s) (ls_prefix_len s)).
    - split_and!; try done; by apply (new_contains (ls_network s) (ls_prefix_len s) b). }
  split; [exact H|]. rewrite H. symmetry. by eapply overlaps_block_shared.
Qed.

Lemma collision_is_shared_address_witness :
  collision_with default_pool {| ls_network := V4 3323068672; ls_prefix_len := 24 |} <> None
  /\ exists a, ip_wf a /\ contains default_pool a = true.
Proof.
  assert (H : collision_with default_pool {| ls_network := V4 3323068672; ls_prefix_len := 24 |} <> None)
    by (vm_compute; discriminate).
  split; [exact H|].
  destruct (collision_is_shared_address default_pool {| ls_network := V4 3323068672; ls_prefix_len := 24 |}
              {| network := V4 3323068672; prefix_len := 24 |}) as [E _].
  - vm_compute. repeat split; congruence.
  - vm_compute. split; congruence.
  - vm_compute. congruence.
  - vm_compute. reflexivity.
  - destruct (proj1 E H) as (a & Ha & Hin & _). exists a. split; [exact Ha|exact Hin].
Defined.
