(* ===== verification/FakeIp.v ===== *)
(** * Fake addresses of host names

    [FakeIpAllocator] of core/platform/api/src/fake_ip/allocator.rs: the map
    between host names and indices of the pool, kept in both directions and in
    the order of use. Every operation is a definition; the clock is an argument
    (one reading per call), and the observer of changes is the list of what it
    was told. *)

From stdpp Require Import base sorting numbers list gmap sets.
From S2P Require Import Prelude Str Digits IpAddr IpBlock FakePool.

Open Scope Z_scope.

Definition DOT_CHAR : char := 46%N.

(** core/platform/api/src/hosts_file.rs *)
Definition normalize_hostname (hostname : str) : str :=
  to_ascii_lowercase (trim_end_matches (is_char DOT_CHAR) (trim hostname)).

Record FakeIpBinding : Set := mkBinding { index : Z; v4 : Z; v6 : option Z }.

Record IdleBinding : Set := mkIdle { order : Z; idle_domain : str; binding : FakeIpBinding }.

Inductive FakeIpError : Set := EmptyDomain | PoolExhausted.

Record Slot : Set := mkSlot { domain : str; last_used : Z; touched : Z }.

(** Ten minutes, in nanoseconds. *)
Definition RECYCLE_MIN_IDLE : Z := 600 * 1000000000.

Inductive BindingChange : Set :=
| Bound (bound_domain : str) (bound_index : Z)
| Released (released_index : Z).

(** [freed] is the vector with its last element first. [sink] is what a
    registered observer was told so far. *)
Record FakeIpAllocator : Type := mkAllocator {
  config : FakeIpPoolConfig;
  by_domain : gmap str Z;
  by_index : gmap Z Slot;
  cursor : Z;
  freed : list Z;
  by_age : gset (Z * Z);
  min_recycle_idle : Z;
  tick : Z;
  sink : option (list BindingChange);
}.

Definition new (c : FakeIpPoolConfig) : FakeIpAllocator :=
  {| config := c; by_domain := ∅; by_index := ∅; cursor := FAKE_IP_FIRST_HOST_INDEX; freed := [];
     by_age := ∅; min_recycle_idle := RECYCLE_MIN_IDLE; tick := 0; sink := None |}.

Definition with_min_recycle_idle (a : FakeIpAllocator) (idle : Z) : FakeIpAllocator :=
  {| config := config a; by_domain := by_domain a; by_index := by_index a; cursor := cursor a;
     freed := freed a; by_age := by_age a; min_recycle_idle := idle; tick := tick a; sink := sink a |}.

(** The allocator with other maps, use order and tick. *)
Definition with_maps (a : FakeIpAllocator) (bd : gmap str Z) (bi : gmap Z Slot) (age : gset (Z * Z))
  (tk : Z) : FakeIpAllocator :=
  {| config := config a; by_domain := bd; by_index := bi; cursor := cursor a; freed := freed a;
     by_age := age; min_recycle_idle := min_recycle_idle a; tick := tk; sink := sink a |}.

(** ... with other free indices. *)
Definition with_space (a : FakeIpAllocator) (cur : Z) (fr : list Z) : FakeIpAllocator :=
  {| config := config a; by_domain := by_domain a; by_index := by_index a; cursor := cur; freed := fr;
     by_age := by_age a; min_recycle_idle := min_recycle_idle a; tick := tick a; sink := sink a |}.

Definition emit (a : FakeIpAllocator) (change : BindingChange) : FakeIpAllocator :=
  {| config := config a; by_domain := by_domain a; by_index := by_index a; cursor := cursor a;
     freed := freed a; by_age := by_age a; min_recycle_idle := min_recycle_idle a; tick := tick a;
     sink := (fun told => told ++ [change]) <$> sink a |}.

Definition next_tick (tk : Z) : Z := Z.min u64_max (tk + 1).

Definition touch (a : FakeIpAllocator) (i now : Z) : FakeIpAllocator :=
  let tk := next_tick (tick a) in
  match by_index a !! i with
  | Some slot =>
      with_maps a (by_domain a)
        (<[i := {| domain := domain slot; last_used := tk; touched := now |}]> (by_index a))
        ({[(tk, i)]} ∪ by_age a ∖ {[(last_used slot, i)]}) tk
  | None => with_maps a (by_domain a) (by_index a) (by_age a) tk
  end.

Definition insert_slot (a : FakeIpAllocator) (i : Z) (d : str) (now : Z) : FakeIpAllocator :=
  let tk := next_tick (tick a) in
  with_maps a (by_domain a)
    (<[i := {| domain := d; last_used := tk; touched := now |}]> (by_index a))
    ({[(tk, i)]} ∪ by_age a) tk.

Definition set_change_sink (a : FakeIpAllocator) : FakeIpAllocator :=
  {| config := config a; by_domain := by_domain a; by_index := by_index a; cursor := cursor a;
     freed := freed a; by_age := by_age a; min_recycle_idle := min_recycle_idle a; tick := tick a;
     sink := Some [] |}.

(** [insert_slot] followed by the entry of the name. *)
Definition bind (a : FakeIpAllocator) (i : Z) (key : str) (now : Z) : FakeIpAllocator :=
  let a := insert_slot a i key now in
  with_maps a (<[key := i]> (by_domain a)) (by_index a) (by_age a) (tick a).

Definition restore_one (now : Z) (a : FakeIpAllocator) (row : str * Z) : FakeIpAllocator :=
  let '(d, i) := row in
  let key := normalize_hostname d in
  if is_empty key || (i <? FAKE_IP_FIRST_HOST_INDEX) || (last_host_index (config a) <? i)
     || bool_decide (is_Some (by_index a !! i)) || bool_decide (is_Some (by_domain a !! key))
  then a
  else bind a i key now.

(** The highest bound index. *)
Definition max_index (a : FakeIpAllocator) : option Z :=
  match (map_to_list (by_index a)).*1 with
  | [] => None
  | i :: rest => Some (foldr Z.max i rest)
  end.

Definition restore (a : FakeIpAllocator) (rows : list (str * Z)) (now : Z) : FakeIpAllocator :=
  let a := fold_left (restore_one now) rows a in
  match max_index a with
  | Some m =>
      let cur := Z.max (Z.min u32_max (m + 1)) (cursor a) in
      with_space a cur
        (reverse (List.filter (fun i => negb (bool_decide (is_Some (by_index a !! i))))
                    (seqZ FAKE_IP_FIRST_HOST_INDEX (cur - FAKE_IP_FIRST_HOST_INDEX))))
  | None => a
  end.

Definition len (a : FakeIpAllocator) : nat := size (by_domain a).

Definition binding_at (a : FakeIpAllocator) (i : Z) : FakeIpBinding :=
  {| index := i; v4 := v4_at (config a) i; v6 := v6_at (config a) i |}.

Definition age_cmp : Z * Z -> Z * Z -> comparison := pair_cmp Z.compare Z.compare.

(** The use order, oldest first. *)
Definition by_age_list (a : FakeIpAllocator) : list (Z * Z) := sort_by age_cmp (elements (by_age a)).

(** The three maps without the binding of [i], whose slot is [slot]. *)
Definition unbind (a : FakeIpAllocator) (i : Z) (slot : Slot) : FakeIpAllocator :=
  with_maps a (delete (domain slot) (by_domain a)) (delete i (by_index a))
    (by_age a ∖ {[(last_used slot, i)]}) (tick a).

Definition take_index (a : FakeIpAllocator) (now : Z) : FakeIpAllocator * result Z FakeIpError :=
  match freed a with
  | i :: rest => (with_space a (cursor a) rest, Ok i)
  | [] =>
      if (cursor a <=? last_host_index (config a)) && (0 <? capacity (config a))
      then (with_space a (Z.min u32_max (cursor a + 1)) [], Ok (cursor a))
      else
        match by_age_list a with
        | [] => (a, Err PoolExhausted)
        | (used, i) :: _ =>
            match by_index a !! i with
            | None => (with_maps a (by_domain a) (by_index a) (by_age a ∖ {[(used, i)]}) (tick a),
                       Err PoolExhausted)
            | Some slot =>
                if u_sat_sub now (touched slot) <? min_recycle_idle a then (a, Err PoolExhausted)
                else (with_maps a (delete (domain slot) (by_domain a)) (delete i (by_index a))
                        (by_age a ∖ {[(used, i)]}) (tick a), Ok i)
            end
        end
  end.

Definition allocate (a : FakeIpAllocator) (d : str) (now : Z)
  : FakeIpAllocator * result FakeIpBinding FakeIpError :=
  let key := normalize_hostname d in
  if is_empty key then (a, Err EmptyDomain)
  else match by_domain a !! key with
       | Some i => let a := touch a i now in (a, Ok (binding_at a i))
       | None =>
           match take_index a now with
           | (a, Err e) => (a, Err e)
           | (a, Ok i) =>
               let a := emit (bind a i key now) (Bound key i) in
               (a, Ok (binding_at a i))
           end
       end.

Definition binding_for_domain (a : FakeIpAllocator) (d : str) : option FakeIpBinding :=
  binding_at a <$> by_domain a !! normalize_hostname d.

Definition domain_for_ip (a : FakeIpAllocator) (addr : IpAddr) (now : Z) : FakeIpAllocator * option str :=
  match index_of (config a) addr with
  | None => (a, None)
  | Some i => let a := touch a i now in (a, domain <$> by_index a !! i)
  end.

Definition peek_domain_for_ip (a : FakeIpAllocator) (addr : IpAddr) : option str :=
  i ← index_of (config a) addr; domain <$> by_index a !! i.

Definition is_fake_address (a : FakeIpAllocator) (addr : IpAddr) : bool := contains (config a) addr.

Definition release (a : FakeIpAllocator) (d : str) : FakeIpAllocator * bool :=
  let key := normalize_hostname d in
  match by_domain a !! key with
  | Some i =>
      let age := match by_index a !! i with
                 | Some slot => by_age a ∖ {[(last_used slot, i)]}
                 | None => by_age a
                 end in
      let a := with_maps a (delete key (by_domain a)) (delete i (by_index a)) age (tick a) in
      (emit (with_space a (cursor a) (i :: freed a)) (Released i), true)
  | None => (a, false)
  end.

Fixpoint idle_walk (a : FakeIpAllocator) (idle now : Z) (room : nat) (l : list (Z * Z))
  : list IdleBinding :=
  match l, room with
  | [], _ | _, O => []
  | (o, i) :: l', S room' =>
      match by_index a !! i with
      | None => idle_walk a idle now room l'
      | Some slot =>
          if u_sat_sub now (touched slot) <? idle then []
          else {| order := o; idle_domain := domain slot; binding := binding_at a i |}
               :: idle_walk a idle now room' l'
      end
  end.

Definition idle_bindings (a : FakeIpAllocator) (after idle : Z) (limit : nat) (now : Z)
  : list IdleBinding :=
  idle_walk a idle now limit
    (List.filter (fun oi => match age_cmp (after, u32_max) oi with Lt => true | _ => false end)
       (by_age_list a)).

Definition release_if_untouched (a : FakeIpAllocator) (d : str) (o : Z) : FakeIpAllocator * bool :=
  let key := normalize_hostname d in
  let untouched := match by_domain a !! key ≫= (fun i => by_index a !! i) with
                   | Some slot => last_used slot =? o
                   | None => false
                   end in
  if untouched then release a key else (a, false).

Definition touch_address (a : FakeIpAllocator) (addr : IpAddr) (now : Z) : FakeIpAllocator * bool :=
  match index_of (config a) addr with
  | None => (a, false)
  | Some i =>
      if negb (bool_decide (is_Some (by_index a !! i))) then (a, false) else (touch a i now, true)
  end.

Definition clear (a : FakeIpAllocator) : FakeIpAllocator :=
  with_space (with_maps a ∅ ∅ ∅ (tick a)) FAKE_IP_FIRST_HOST_INDEX [].

(** ** The calls as a state machine *)

Inductive Call : Set :=
| Allocate (d : str)
| DomainForIp (addr : IpAddr)
| Release (d : str)
| ReleaseIfUntouched (d : str) (o : Z)
| TouchAddress (addr : IpAddr)
| Restore (rows : list (str * Z))
| Clear.

Definition run (c : Call) (a : FakeIpAllocator) (now : Z) : FakeIpAllocator :=
  match c with
  | Allocate d => fst (allocate a d now)
  | DomainForIp addr => fst (domain_for_ip a addr now)
  | Release d => fst (release a d)
  | ReleaseIfUntouched d o => fst (release_if_untouched a d o)
  | TouchAddress addr => fst (touch_address a addr now)
  | Restore rows => restore a rows now
  | Clear => clear a
  end.

(** Calls made one after another, each at a time not before the one before. *)
Inductive runs : FakeIpAllocator -> Z -> list (Call * Z) -> FakeIpAllocator -> Z -> Prop :=
| runs_nil a t : runs a t [] a t
| runs_cons a t c now trace a' t' :
    t <= now -> runs (run c a now) now trace a' t' -> runs a t ((c, now) :: trace) a' t'.

(** ** The invariant *)

(** The three maps say the same, and the order of use is that of the clock. *)
Record maps_ok (bd : gmap str Z) (bi : gmap Z Slot) (age : gset (Z * Z)) (tk t : Z) : Prop := {
  ok_domain : forall k i, bd !! k = Some i <-> exists s, bi !! i = Some s /\ domain s = k;
  ok_age : forall o i, (o, i) ∈ age <-> exists s, bi !! i = Some s /\ last_used s = o;
  ok_tick : 0 <= tk <= u64_max;
  ok_used : forall i s, bi !! i = Some s -> last_used s <= tk /\ touched s <= t;
  ok_order : forall i s j r, bi !! i = Some s -> bi !! j = Some r ->
    last_used s < last_used r -> touched s <= touched r;
  ok_inj : forall i s j r, bi !! i = Some s -> bi !! j = Some r ->
    last_used s = last_used r -> i = j \/ last_used s = u64_max;
}.

(** Every index below the cursor is bound, free, or the one just taken. *)
Record space_ok (last : Z) (bi : gmap Z Slot) (cur : Z) (fr : list Z) (taken : option Z) : Prop := {
  ok_cursor : FAKE_IP_FIRST_HOST_INDEX <= cur <= last + 1;
  ok_freed : forall i, i ∈ fr -> FAKE_IP_FIRST_HOST_INDEX <= i < cur /\ bi !! i = None;
  ok_nodup : NoDup fr;
  ok_bound : forall i s, bi !! i = Some s -> FAKE_IP_FIRST_HOST_INDEX <= i < cur;
  ok_taken : forall i, taken = Some i ->
    FAKE_IP_FIRST_HOST_INDEX <= i < cur /\ bi !! i = None /\ i ∉ fr;
  ok_complete : forall i, FAKE_IP_FIRST_HOST_INDEX <= i < cur ->
    i ∈ fr \/ is_Some (bi !! i) \/ taken = Some i;
}.

Definition alloc_ok (a : FakeIpAllocator) (t : Z) : Prop :=
  maps_ok (by_domain a) (by_index a) (by_age a) (tick a) t
  /\ space_ok (last_host_index (config a)) (by_index a) (cursor a) (freed a) None.

Lemma maps_ok_later bd bi age tk t now : t <= now -> maps_ok bd bi age tk t -> maps_ok bd bi age tk now.
Proof.
  intros Ht []. constructor; try done. intros i s Hs. destruct (ok_used0 i s Hs). lia.
Qed.

Lemma maps_ok_tick bd bi age tk t : maps_ok bd bi age tk t -> maps_ok bd bi age (next_tick tk) t.
Proof.
  intros []. unfold next_tick. constructor; try done; [lia|].
  intros i s Hs. destruct (ok_used0 i s Hs). lia.
Qed.

(** A slot written at the current tick and time keeps the maps in order. *)
Lemma maps_ok_write bd bi age tk t now i k :
  t <= now -> maps_ok bd bi age tk t ->
  (bi !! i = None /\ bd !! k = None) \/ (exists s, bi !! i = Some s /\ domain s = k) ->
  let slot := {| domain := k; last_used := next_tick tk; touched := now |} in
  maps_ok (<[k := i]> bd) (<[i := slot]> bi)
    ({[(next_tick tk, i)]} ∪ match bi !! i with Some s => age ∖ {[(last_used s, i)]} | None => age end)
    (next_tick tk) now.
Proof.
  intros Ht [Hd Ha Hk Hu Ho Hi] Hcase slot. unfold next_tick in *. constructor.
  - intros k' i'. rewrite lookup_insert_Some. setoid_rewrite lookup_insert_Some. split.
    + intros [[<- <-]|[Hne Hb]]; [eauto|]. apply Hd in Hb as (s & Hs & <-).
      exists s. split; [|done]. right. split; [|done]. intros <-.
      destruct Hcase as [[? _]|(s' & ? & ?)]; congruence.
    + intros (s & [[<- <-]|[Hne Hs]] & <-); [by left|]. right.
      assert (Hb : bd !! domain s = Some i') by (apply Hd; eauto). split; [|done].
      intros Ek. subst k. destruct Hcase as [[_ ?]|(s' & Hs' & Ed)]; [congruence|].
      assert (bd !! domain s = Some i) by (apply Hd; eauto). congruence.
  - intros o i'. rewrite elem_of_union, elem_of_singleton. setoid_rewrite lookup_insert_Some.
    assert (Hrest : (o, i') ∈ match bi !! i with Some s => age ∖ {[(last_used s, i)]} | None => age end
                    <-> i <> i' /\ (o, i') ∈ age).
    { destruct (bi !! i) as [s|] eqn:Es.
      - rewrite elem_of_difference, elem_of_singleton. split; [|intros [? ?]; split; [done|congruence]].
        intros [Hin Hne]. split; [|done]. intros <-. apply Ha in Hin as (s' & ? & <-).
        apply Hne. congruence.
      - split; [|tauto]. intros Hin. split; [|done]. intros <-. apply Ha in Hin as (s' & ? & _). congruence. }
    rewrite Hrest, Ha. split.
    + intros [[= -> ->]|[Hne (s & Hs & <-)]]; eauto 6.
    + intros (s & [[<- <-]|[Hne Hs]] & <-); [by left|right; eauto].
  - lia.
  - intros i' s [[<- <-]|[Hne Hs]]%lookup_insert_Some; [simpl; lia|]. destruct (Hu i' s Hs). lia.
  - intros i1 s1 i2 s2 [[<- <-]|[Hne1 Hs1]]%lookup_insert_Some [[<- <-]|[Hne2 Hs2]]%lookup_insert_Some Hlt.
    + simpl in Hlt; lia.
    + destruct (Hu i2 s2 Hs2). simpl in Hlt; lia.
    + destruct (Hu i1 s1 Hs1). simpl; lia.
    + by eapply Ho.
  - intros i1 s1 i2 s2 [[<- <-]|[Hne1 Hs1]]%lookup_insert_Some [[<- <-]|[Hne2 Hs2]]%lookup_insert_Some Heq.
    + by left.
    + destruct (Hu i2 s2 Hs2). right. simpl in Heq |- *; lia.
    + destruct (Hu i1 s1 Hs1). right. simpl in Heq; lia.
    + by eapply Hi.
Qed.

Lemma maps_ok_remove bd bi age tk t i s :
  maps_ok bd bi age tk t -> bi !! i = Some s ->
  maps_ok (delete (domain s) bd) (delete i bi) (age ∖ {[(last_used s, i)]}) tk t.
Proof.
  intros [Hd Ha Hk Hu Ho Hi] Hs. constructor; try done.
  - intros k j. rewrite lookup_delete_Some. setoid_rewrite lookup_delete_Some. rewrite Hd. split.
    + intros (Hne & r & Hr & <-). exists r. split; [|done]. split; [|done]. intros <-. congruence.
    + intros (r & [Hne Hr] & <-). split; [|eauto]. intros E.
      assert (bd !! domain r = Some i) by (apply Hd; eauto).
      assert (bd !! domain r = Some j) by (apply Hd; eauto). congruence.
  - intros o j. rewrite elem_of_difference, elem_of_singleton. setoid_rewrite lookup_delete_Some.
    rewrite Ha. split.
    + intros ((r & Hr & <-) & Hne). exists r. split; [|done]. split; [|done]. intros <-. congruence.
    + intros (r & [Hne Hr] & <-). split; [eauto|]. congruence.
  - intros j r [_ Hr]%lookup_delete_Some. by apply (Hu j).
  - intros j r j' r' [_ Hr]%lookup_delete_Some [_ Hr']%lookup_delete_Some. by apply (Ho j r j').
  - intros j r j' r' [_ Hr]%lookup_delete_Some [_ Hr']%lookup_delete_Some. by apply (Hi j r j').
Qed.

Lemma space_ok_dom last bi bi' cur fr taken :
  (forall i, is_Some (bi !! i) <-> is_Some (bi' !! i)) ->
  space_ok last bi cur fr taken -> space_ok last bi' cur fr taken.
Proof.
  intros Hdom [Hc Hf Hn Hb Ht Hk].
  assert (HNone : forall i, bi !! i = None -> bi' !! i = None).
  { intros i Hi. apply eq_None_not_Some. rewrite <- Hdom, Hi. by intros [? ?]. }
  constructor; try done.
  - intros i Hi. destruct (Hf i Hi). auto.
  - intros i s Hs. destruct (proj2 (Hdom i)) as [r Hr]; [by eexists|]. by eapply Hb.
  - intros i Hi. destruct (Ht i Hi) as (? & ? & ?). auto.
  - intros i Hi. rewrite <- Hdom. auto.
Qed.

Lemma touch_ok a t now i : t <= now -> alloc_ok a t -> alloc_ok (touch a i now) now.
Proof.
  intros Ht [Hm Hs]. unfold touch. destruct (by_index a !! i) as [s|] eqn:Es; split;
    cbn [with_maps by_domain by_index by_age tick config cursor freed]; try done.
  - pose proof (maps_ok_write _ _ _ _ t now i (domain s) Ht Hm (or_intror (ex_intro _ s (conj Es eq_refl)))) as H.
    rewrite Es, insert_id in H; [exact H|]. apply (ok_domain _ _ _ _ _ Hm). eauto.
  - eapply space_ok_dom, Hs. intros j. destruct (decide (i = j)) as [->|].
    + rewrite Es, lookup_insert_eq. split; eauto.
    + by rewrite lookup_insert_ne.
  - eapply maps_ok_later, maps_ok_tick, Hm. done.
Qed.

Lemma bind_ok a t now i key :
  t <= now -> maps_ok (by_domain a) (by_index a) (by_age a) (tick a) t ->
  space_ok (last_host_index (config a)) (by_index a) (cursor a) (freed a) (Some i) ->
  by_domain a !! key = None -> alloc_ok (bind a i key now) now.
Proof.
  intros Ht Hm Hs Hk. destruct (ok_taken _ _ _ _ _ Hs i eq_refl) as (Hr & Hi & Hf).
  split; cbn [bind insert_slot with_maps by_domain by_index by_age tick config cursor freed].
  - pose proof (maps_ok_write _ _ _ _ t now i key Ht Hm (or_introl (conj Hi Hk))) as H. by rewrite Hi in H.
  - destruct Hs as [S1 S2 S3 S4 S5 S6]. constructor; try done.
    + intros j Hj. destruct (S2 j Hj). split; [done|]. by rewrite lookup_insert_ne by congruence.
    + intros j s [[<- _]|[_ Hj]]%lookup_insert_Some; [done|by eapply S4].
    + intros j Hj. destruct (decide (i = j)) as [->|]; [right; left; by rewrite lookup_insert_eq; eexists|].
      rewrite lookup_insert_ne by done. destruct (S6 j Hj) as [?|[?|[= ?]]]; [auto..|done].
Qed.

(** Why a free index could not be found: the pool is full and its least
    recently used binding was used within the idle time. *)
Definition pool_busy (a : FakeIpAllocator) (now : Z) : Prop :=
  cursor a = last_host_index (config a) + 1 /\ freed a = []
  /\ exists used i s rest, by_age_list a = (used, i) :: rest /\ by_index a !! i = Some s
     /\ u_sat_sub now (touched s) < min_recycle_idle a.

(** The binding that gave way, if one did. *)
Definition recycled (a a' : FakeIpAllocator) (now i : Z) : Prop :=
  exists s, by_index a !! i = Some s /\ min_recycle_idle a <= u_sat_sub now (touched s)
    /\ by_index a' = delete i (by_index a) /\ by_domain a' = delete (domain s) (by_domain a).

Lemma by_age_list_elem a oi : oi ∈ by_age_list a <-> oi ∈ by_age a.
Proof. unfold by_age_list. rewrite sort_by_elem_of. apply elem_of_elements. Qed.

Lemma take_index_spec a t now :
  alloc_ok a t -> pool_wf (config a) ->
  match take_index a now with
  | (a', Ok i) =>
      config a' = config a /\ sink a' = sink a /\ min_recycle_idle a' = min_recycle_idle a
      /\ tick a' = tick a
      /\ maps_ok (by_domain a') (by_index a') (by_age a') (tick a') t
      /\ space_ok (last_host_index (config a')) (by_index a') (cursor a') (freed a') (Some i)
      /\ ((by_domain a' = by_domain a /\ by_index a' = by_index a) \/ recycled a a' now i)
  | (a', Err e) => a' = a /\ e = PoolExhausted /\ pool_busy a now
  end.
Proof.
  intros [Hm Hs] Hc. destruct (last_host_index_value (config a)) as [Hl Hcap].
  { destruct Hc as ((_ & H & _) & ? & _). lia. }
  destruct (address_count_value (config a)) as [Hcount Hmax].
  { destruct Hc as ((_ & H & _) & ? & _). lia. }
  unfold take_index. destruct Hs as [S1 S2 S3 S4 S5 S6]. unfold FAKE_IP_FIRST_HOST_INDEX in *.
  destruct (freed a) as [|f rest] eqn:Ef.
  - rewrite (proj2 (Z.ltb_lt 0 _) Hcap), andb_true_r.
    destruct (Z.leb_spec (cursor a) (last_host_index (config a))) as [Hle|Hgt].
    + cbn [with_space config sink min_recycle_idle tick by_domain by_index by_age cursor freed].
      split_and!; try done; [|by left]. rewrite Z.min_r by lia.
      constructor; unfold FAKE_IP_FIRST_HOST_INDEX; [lia|by intros ? ?%not_elem_of_nil|constructor|..].
      * intros i s Hi%S4. lia.
      * intros i [= <-]. split_and!; [lia|lia| |apply not_elem_of_nil].
        destruct (by_index a !! cursor a) eqn:E; [|done]. apply S4 in E. lia.
      * intros i Hi. destruct (decide (i = cursor a)) as [->|]; [by right; right|].
        destruct (S6 i ltac:(lia)) as [?|[?|?]]; [auto..|done].
    + destruct (by_age_list a) as [|[used i] rest] eqn:Ea.
      { exfalso. destruct (S6 2 ltac:(lia)) as [?%not_elem_of_nil|[[s Hs]|?]]; try done.
        assert (Hin : (last_used s, 2) ∈ by_age_list a).
        { apply by_age_list_elem, (ok_age _ _ _ _ _ Hm). eauto. }
        rewrite Ea in Hin. by apply not_elem_of_nil in Hin. }
      assert (Hin : (used, i) ∈ by_age a) by (apply by_age_list_elem; rewrite Ea; left).
      apply (ok_age _ _ _ _ _ Hm) in Hin as (s & Hs & <-). rewrite Hs.
      destruct (Z.ltb_spec (u_sat_sub now (touched s)) (min_recycle_idle a)) as [Hlt|Hge].
      { split_and!; try done. unfold pool_busy. split_and!; [lia|done|].
        exists (last_used s), i, s, rest. done. }
      cbn [with_maps config sink min_recycle_idle tick by_domain by_index by_age cursor freed].
      split_and!; try done; [by apply maps_ok_remove| |right; exists s; done]. rewrite Ef.
      constructor; unfold FAKE_IP_FIRST_HOST_INDEX; [lia|by intros ? ?%not_elem_of_nil|constructor|..].
      * intros j r [_ Hj]%lookup_delete_Some. by eapply S4.
      * intros j [= <-]. split_and!; [apply (S4 i s Hs)..|apply lookup_delete_eq|apply not_elem_of_nil].
      * intros j Hj. destruct (decide (i = j)) as [->|]; [auto|]. rewrite lookup_delete_ne by done.
        destruct (S6 j Hj) as [?|[?|?]]; [auto..|done].
  - cbn [with_space config sink min_recycle_idle tick by_domain by_index by_age cursor freed].
    apply NoDup_cons in S3 as [Hnf Hnd]. split_and!; try done; [|by left].
    constructor; unfold FAKE_IP_FIRST_HOST_INDEX; try done.
    + intros i Hi. apply S2. by right.
    + intros i [= <-]. destruct (S2 f) as [? ?]; [left|]. done.
    + intros i Hi. destruct (S6 i Hi) as [[->|?]%elem_of_cons|[?|?]]; [auto..|done].
Qed.

(** ** Every call keeps the invariant *)

Lemma allocate_ok a t now d :
  t <= now -> pool_wf (config a) -> alloc_ok a t -> alloc_ok (fst (allocate a d now)) now.
Proof.
  intros Ht Hc Ha. pose proof Ha as [Hm Hs]. unfold allocate. set (key := normalize_hostname d).
  assert (Hlater : alloc_ok a now) by (split; [by eapply maps_ok_later|done]).
  destruct (is_empty key); [done|]. destruct (by_domain a !! key) as [i|] eqn:Ek; [by eapply touch_ok|].
  pose proof (take_index_spec a t now Ha Hc) as H.
  destruct (take_index a now) as [a' [i|e]]; cbn [fst]; [|by destruct H as (-> & _)].
  destruct H as (_ & _ & _ & _ & Hm' & Hs' & Hcase). apply (bind_ok a' t now i key); [done..|].
  destruct Hcase as [[-> _]|(s & _ & _ & _ & ->)]; [done|]. apply lookup_delete_None. by right.
Qed.

Lemma release_ok a t d : alloc_ok a t -> alloc_ok (fst (release a d)) t.
Proof.
  intros [Hm Hs]. unfold release. destruct (by_domain a !! normalize_hostname d) as [i|] eqn:Ek; [|done].
  apply (ok_domain _ _ _ _ _ Hm) in Ek as (s & Hi & Ed). rewrite Hi, <- Ed.
  split; cbn [fst emit with_space with_maps by_domain by_index by_age tick config cursor freed].
  - by apply maps_ok_remove.
  - destruct Hs as [S1 S2 S3 S4 S5 S6]. constructor; try done.
    + intros j [->|Hj]%elem_of_cons; [split; [by eapply S4|apply lookup_delete_eq]|].
      destruct (S2 j Hj). split; [done|]. apply lookup_delete_None. by right.
    + constructor; [|done]. intros Hin. destruct (S2 i Hin). congruence.
    + intros j r [_ Hj]%lookup_delete_Some. by eapply S4.
    + intros j Hj. destruct (decide (i = j)) as [->|]; [left; left|]. rewrite lookup_delete_ne by done.
      destruct (S6 j Hj) as [?|[?|?]]; [left; by right|auto|done].
Qed.

Lemma restore_one_cases now a row :
  restore_one now a row = a
  \/ exists i key, restore_one now a row = bind a i key now
     /\ key = normalize_hostname row.1 /\ i = row.2 /\ key <> []
     /\ FAKE_IP_FIRST_HOST_INDEX <= i <= last_host_index (config a)
     /\ by_index a !! i = None /\ by_domain a !! key = None.
Proof.
  destruct row as [d i]. unfold restore_one. destruct (_ || _) eqn:E; [by left|right].
  rewrite !orb_false_iff, !Z.ltb_ge, !bool_decide_eq_false, <- !eq_None_not_Some in E.
  destruct E as [[[[E1 E2] E3] E4] E5]. exists i, (normalize_hostname d).
  split_and!; try done. by apply is_empty_false.
Qed.

(** What restoring rows keeps: the maps, that indices are host indices, and
    every binding there was. *)
Lemma restore_rows_ok now rows a t :
  t <= now -> maps_ok (by_domain a) (by_index a) (by_age a) (tick a) t ->
  (forall i s, by_index a !! i = Some s -> FAKE_IP_FIRST_HOST_INDEX <= i <= last_host_index (config a)) ->
  let a' := fold_left (restore_one now) rows a in
  maps_ok (by_domain a') (by_index a') (by_age a') (tick a') now
  /\ (forall i s, by_index a' !! i = Some s -> FAKE_IP_FIRST_HOST_INDEX <= i <= last_host_index (config a))
  /\ config a' = config a /\ cursor a' = cursor a /\ freed a' = freed a
  /\ min_recycle_idle a' = min_recycle_idle a /\ sink a' = sink a
  /\ (forall i s, by_index a !! i = Some s -> by_index a' !! i = Some s)
  /\ (a' = a \/ exists i, is_Some (by_index a' !! i)).
Proof.
  revert a t. induction rows as [|row rows IH]; intros a t Ht Hm Hr; cbn [fold_left].
  { split_and!; auto. by eapply maps_ok_later. }
  destruct (restore_one_cases now a row) as [->|(i & key & -> & _ & _ & _ & Hi & Hn & Hk)]; [by apply (IH a t)|].
  destruct (IH (bind a i key now) now) as (H1 & H2 & H3 & H4 & H5 & H6 & H7 & H8 & H9); [lia|..].
  - pose proof (maps_ok_write _ _ _ _ t now i key Ht Hm (or_introl (conj Hn Hk))) as H. by rewrite Hn in H.
  - intros j s. cbn [bind insert_slot with_maps by_index config].
    intros [[<- _]|[_ Hj]]%lookup_insert_Some; [done|by eapply Hr].
  - cbn [bind insert_slot with_maps by_index config cursor freed min_recycle_idle sink] in *.
    split_and!; try done.
    + intros j s Hj. apply H8. rewrite lookup_insert_ne; [done|congruence].
    + right. exists i. eexists. apply H8, lookup_insert_eq.
Qed.

Lemma foldr_max_ge (l : list Z) d : d <= foldr Z.max d l /\ forall x, x ∈ l -> x <= foldr Z.max d l.
Proof.
  induction l as [|y l [IH1 IH2]]; cbn [foldr]; [split; [lia|by intros ? ?%not_elem_of_nil]|].
  split; [lia|]. intros x [->|Hx]%elem_of_cons; [lia|]. specialize (IH2 x Hx). lia.
Qed.

Lemma foldr_max_in (l : list Z) d : foldr Z.max d l ∈ d :: l.
Proof.
  induction l as [|y l IH]; cbn [foldr]; [left|].
  destruct (Z.max_spec y (foldr Z.max d l)) as [[_ ->]|[_ ->]]; set_solver.
Qed.

Lemma max_index_spec a :
  match max_index a with
  | Some m => is_Some (by_index a !! m) /\ forall i, is_Some (by_index a !! i) -> i <= m
  | None => forall i, by_index a !! i = None
  end.
Proof.
  assert (Hkey : forall i, i ∈ (map_to_list (by_index a)).*1 <-> is_Some (by_index a !! i)).
  { intros i. rewrite list_elem_of_fmap. split.
    - intros ([j s] & -> & Hin). apply elem_of_map_to_list in Hin. by eexists.
    - intros [s Hs]. exists (i, s). split; [done|]. by apply elem_of_map_to_list. }
  unfold max_index. destruct (_.*1) as [|i rest] eqn:E.
  - intros i. apply eq_None_not_Some. rewrite <- Hkey. apply not_elem_of_nil.
  - split; [apply Hkey, foldr_max_in|]. intros j Hj%Hkey. destruct (foldr_max_ge rest i) as [H1 H2].
    apply elem_of_cons in Hj as [->|Hj]; auto.
Qed.

Lemma restore_ok a t now rows :
  t <= now -> pool_wf (config a) -> alloc_ok a t -> alloc_ok (restore a rows now) now.
Proof.
  intros Ht Hc [Hm Hs]. destruct (last_host_index_value (config a)) as [Hl _].
  { destruct Hc as ((_ & H & _) & ? & _). lia. }
  destruct (address_count_value (config a)) as [_ Hmax].
  { destruct Hc as ((_ & H & _) & ? & _). lia. }
  destruct (restore_rows_ok now rows a t Ht Hm) as (H1 & H2 & H3 & H4 & H5 & _ & _ & _ & H9).
  { intros i s Hi. pose proof (ok_cursor _ _ _ _ _ Hs). apply (ok_bound _ _ _ _ _ Hs) in Hi. lia. }
  unfold restore. set (a' := fold_left (restore_one now) rows a) in *.
  pose proof (max_index_spec a') as Hx. destruct (max_index a') as [m|].
  - destruct Hx as [[sm Hm'] Hle]. pose proof (H2 m sm Hm') as Hmr. pose proof (ok_cursor _ _ _ _ _ Hs) as Hcur.
    split; cbn [with_space by_domain by_index by_age tick config cursor freed]; [done|]. rewrite H3, H4.
    rewrite Z.min_r by lia. unfold FAKE_IP_FIRST_HOST_INDEX in *.
    assert (Hin : forall i cur, i ∈ reverse (List.filter (fun i => negb (bool_decide (is_Some (by_index a' !! i))))
                (seqZ 2 (cur - 2))) <-> 2 <= i < cur /\ by_index a' !! i = None).
    { intros i cur. rewrite elem_of_reverse, filter_elem, elem_of_seqZ, negb_true_iff, bool_decide_eq_false,
        <- eq_None_not_Some. intuition lia. }
    constructor; unfold FAKE_IP_FIRST_HOST_INDEX.
    + lia.
    + intros i. apply Hin.
    + rewrite reverse_Permutation. apply NoDup_ListNoDup, List.NoDup_filter, NoDup_ListNoDup, NoDup_seqZ.
    + intros i s Hi. specialize (Hle i ltac:(by eexists)). specialize (H2 i s Hi). lia.
    + done.
    + intros i Hi. rewrite Hin. destruct (by_index a' !! i) eqn:E; [right; left; by eexists|by left].
  - destruct H9 as [->|[i [s Hi]]]; [|by rewrite Hx in Hi]. split; [by eapply maps_ok_later|done].
Qed.

Lemma empty_ok last tk t :
  0 <= tk <= u64_max -> FAKE_IP_FIRST_HOST_INDEX <= last + 1 ->
  maps_ok ∅ ∅ ∅ tk t /\ space_ok last ∅ FAKE_IP_FIRST_HOST_INDEX [] None.
Proof.
  intros Ht Hl. split.
  - constructor; try done.
    + intros k i. rewrite lookup_empty. setoid_rewrite lookup_empty. naive_solver.
    + intros o i. setoid_rewrite lookup_empty. rewrite elem_of_empty. naive_solver.
  - constructor; try done; [by intros ? ?%not_elem_of_nil|constructor|lia].
Qed.

Lemma clear_ok a t : alloc_ok a t -> alloc_ok (clear a) t.
Proof.
  intros [Hm Hs]. apply empty_ok; [apply (ok_tick _ _ _ _ _ Hm)|].
  cbn [clear with_space with_maps config]. pose proof (ok_cursor _ _ _ _ _ Hs). lia.
Qed.

Lemma new_ok c t : pool_wf c -> alloc_ok (new c) t.
Proof.
  intros Hc. apply empty_ok; [done|]. cbn [new config].
  destruct (last_host_index_value c) as [Hl _]; [destruct Hc as ((_ & H & _) & ? & _); lia|].
  destruct (address_count_value c) as [Hcount _]; [destruct Hc as ((_ & H & _) & ? & _); lia|].
  unfold FAKE_IP_FIRST_HOST_INDEX. lia.
Qed.

(** What no call changes. *)
Lemma run_config c a now : config (run c a now) = config a /\ min_recycle_idle (run c a now) = min_recycle_idle a.
Proof.
  assert (Htouch : forall a i, config (touch a i now) = config a
                     /\ min_recycle_idle (touch a i now) = min_recycle_idle a).
  { intros a0 i. unfold touch. by case_match. }
  assert (Hrel : forall a d, config (fst (release a d)) = config a
                     /\ min_recycle_idle (fst (release a d)) = min_recycle_idle a).
  { intros a0 d. unfold release. by case_match. }
  destruct c as [d|addr|d|d o|addr|rows|]; cbn [run]; auto.
  - unfold allocate. destruct (is_empty _); [done|]. case_match; [apply Htouch|].
    unfold take_index. by repeat case_match; simplify_eq.
  - unfold domain_for_ip. case_match; [apply Htouch|done].
  - unfold release_if_untouched. destruct (match _ with Some _ => _ | None => _ end); [apply Hrel|done].
  - unfold touch_address. case_match; [|done]. destruct (negb _); [done|apply Htouch].
  - assert (Hf : forall rows a, config (fold_left (restore_one now) rows a) = config a
                  /\ min_recycle_idle (fold_left (restore_one now) rows a) = min_recycle_idle a).
    { induction rows0 as [|row rows0 IH]; intros a0; [done|]. cbn [fold_left].
      destruct (restore_one_cases now a0 row) as [->|(i & key & -> & _)]; [apply IH|].
      destruct (IH (bind a0 i key now)) as [-> ->]. done. }
    unfold restore. case_match; cbn [with_space config min_recycle_idle]; apply Hf.
Qed.

Lemma run_ok c a t now :
  t <= now -> pool_wf (config a) -> alloc_ok a t -> alloc_ok (run c a now) now.
Proof.
  intros Ht Hc Ha. assert (Hlater : alloc_ok a now) by (destruct Ha; split; [by eapply maps_ok_later|done]).
  destruct c as [d|addr|d|d o|addr|rows|]; cbn [run].
  - by eapply allocate_ok.
  - unfold domain_for_ip. case_match; [by eapply touch_ok|done].
  - by apply release_ok.
  - unfold release_if_untouched. destruct (match _ with Some _ => _ | None => _ end); [by apply release_ok|done].
  - unfold touch_address. case_match; [|done]. destruct (negb _); [done|by eapply touch_ok].
  - by eapply restore_ok.
  - by apply clear_ok.
Qed.

Lemma runs_ok a t trace a' t' :
  runs a t trace a' t' -> pool_wf (config a) -> alloc_ok a t ->
  alloc_ok a' t' /\ config a' = config a /\ min_recycle_idle a' = min_recycle_idle a /\ t <= t'.
Proof.
  induction 1 as [a t|a t c now trace a' t' Ht Hr IH]; intros Hc Ha; [auto with lia|].
  destruct (run_config c a now) as [Ec Em]. rewrite Ec in IH. rewrite Em in IH.
  destruct IH as (? & ? & ? & ?); [done|by eapply run_ok|]. auto with lia.
Qed.

(** ** What clients rely on *)

(** [key] is bound to [i] and was used at [since] or later. *)
Definition holds (a : FakeIpAllocator) (key : str) (i since : Z) : Prop :=
  by_domain a !! key = Some i /\ exists s, by_index a !! i = Some s /\ domain s = key /\ since <= touched s.

Lemma touch_holds a now j key i since :
  holds a key i since -> since <= now -> holds (touch a j now) key i since.
Proof.
  intros (Hd & s & Hs & Hk & Hle) Hnow. unfold touch. destruct (by_index a !! j) as [r|] eqn:Er; [|by split; eauto].
  split; [done|]. cbn [with_maps by_index]. destruct (decide (j = i)) as [->|].
  - rewrite lookup_insert_eq. eexists. split_and!; [done|cbn [domain]; congruence|done].
  - rewrite lookup_insert_ne by done. eauto.
Qed.

Lemma bind_holds a now j key' key i since :
  holds a key i since -> by_index a !! j = None -> by_domain a !! key' = None ->
  holds (bind a j key' now) key i since.
Proof.
  intros (Hd & s & Hs & Hk & Hle) Hj Hk'. split; cbn [bind insert_slot with_maps by_domain by_index].
  - rewrite lookup_insert_ne; [done|congruence].
  - exists s. rewrite lookup_insert_ne by congruence. done.
Qed.

Lemma bind_holds_new a now j key : holds (bind a j key now) key j now.
Proof.
  split; cbn [bind insert_slot with_maps by_domain by_index]; [apply lookup_insert_eq|].
  eexists. rewrite lookup_insert_eq. done.
Qed.

Lemma release_holds a t d key i since :
  alloc_ok a t -> holds a key i since -> normalize_hostname d <> key -> holds (fst (release a d)) key i since.
Proof.
  intros [Hm _] (Hd & s & Hs & Hk & Hle) Hne. unfold release.
  destruct (by_domain a !! normalize_hostname d) as [j|] eqn:Ej; [|by split; eauto].
  cbn [fst]. split; cbn [emit with_space with_maps by_domain by_index].
  - by rewrite lookup_delete_ne.
  - exists s. rewrite lookup_delete_ne; [done|]. intros ->.
    apply (ok_domain _ _ _ _ _ Hm) in Ej as (r & Hr & Er). congruence.
Qed.

Lemma restore_holds a t now rows key i since :
  t <= now -> alloc_ok a t -> holds a key i since -> holds (restore a rows now) key i since.
Proof.
  intros Ht [Hm Hs] (Hd & s & Hsl & Hk & Hle).
  destruct (restore_rows_ok now rows a t Ht Hm) as (H1 & _ & _ & _ & _ & _ & _ & H8 & _).
  { intros j r Hj. pose proof (ok_cursor _ _ _ _ _ Hs). apply (ok_bound _ _ _ _ _ Hs) in Hj. lia. }
  assert (Hh : holds (fold_left (restore_one now) rows a) key i since).
  { split; [apply (ok_domain _ _ _ _ _ H1)|]; eauto. }
  unfold restore. by case_match.
Qed.

(** The calls that end a binding on purpose. *)
Definition ends (c : Call) (key : str) : Prop :=
  match c with
  | Release d => normalize_hostname d = key
  | ReleaseIfUntouched d _ => normalize_hostname (normalize_hostname d) = key
  | Clear => True
  | _ => False
  end.

Lemma run_holds c a t now key i since :
  t <= now -> pool_wf (config a) -> alloc_ok a t -> holds a key i since -> since <= now ->
  now - since < min_recycle_idle a -> ~ ends c key ->
  holds (run c a now) key i since.
Proof.
  intros Ht Hc Ha Hh Hs Hidle He. destruct c as [d|addr|d|d o|addr|rows|]; cbn [run].
  - unfold allocate. destruct (is_empty _); [done|].
    destruct (by_domain a !! normalize_hostname d) as [j|] eqn:Ej; [by apply touch_holds|].
    pose proof (take_index_spec a t now Ha Hc) as H.
    destruct (take_index a now) as [a' [j|e]]; cbn [fst]; [|by destruct H as (-> & _)].
    destruct H as (_ & _ & _ & _ & _ & Hs' & Hcase).
    destruct (ok_taken _ _ _ _ _ Hs' j eq_refl) as (_ & Hj & _).
    assert (Hh' : holds a' key i since /\ by_domain a' !! normalize_hostname d = None).
    { destruct Hcase as [[E1 E2]|(r & Hr & Hold & E1 & E2)].
      - unfold holds. by rewrite E1, E2.
      - destruct Hh as (Hd & s & Hsl & Hk & Hle). unfold u_sat_sub in Hold.
        assert (j <> i) by (intros ->; assert (r = s) as -> by congruence; lia).
        split; [split|].
        + rewrite E2, lookup_delete_ne; [done|]. intros Er. destruct Ha as [Hm _].
          assert (by_domain a !! domain r = Some j) by (apply (ok_domain _ _ _ _ _ Hm); eauto). congruence.
        + exists s. by rewrite E1, lookup_delete_ne.
        + rewrite E2. apply lookup_delete_None. by right. }
    destruct Hh' as [Hh' Hn]. by apply (bind_holds a').
  - unfold domain_for_ip. case_match; [by apply touch_holds|done].
  - by eapply release_holds.
  - unfold release_if_untouched. destruct (match _ with Some _ => _ | None => _ end); [|done].
    by eapply release_holds.
  - unfold touch_address. case_match; [|done]. destruct (negb _); [done|by apply touch_holds].
  - exact (restore_holds a t now rows key i since Ht Ha Hh).
  - by destruct He.
Qed.

Lemma runs_holds a t trace a' t' key i since :
  runs a t trace a' t' -> pool_wf (config a) -> alloc_ok a t -> holds a key i since -> since <= t ->
  Forall (fun cn => ~ ends (fst cn) key) trace -> t' - since < min_recycle_idle a ->
  holds a' key i since.
Proof.
  induction 1 as [a t|a t c now trace a' t' Ht Hr IH]; intros Hc Ha Hh Hs Hf Hidle; [done|].
  apply Forall_cons in Hf as [He Hf]. cbn [fst] in He.
  destruct (run_config c a now) as [Ec Em].
  assert (Hok : alloc_ok (run c a now) now) by by eapply run_ok.
  destruct (runs_ok _ _ _ _ _ Hr) as (_ & _ & _ & Hle); [by rewrite Ec|done|].
  apply IH; rewrite ?Ec, ?Em; try done; [|lia]. eapply run_holds; try done; lia.
Qed.

Lemma domain_for_ip_peek a addr now : snd (domain_for_ip a addr now) = peek_domain_for_ip a addr.
Proof.
  unfold domain_for_ip, peek_domain_for_ip. destruct (index_of (config a) addr) as [i|]; [|done].
  cbn [snd mbind option_bind]. unfold touch. destruct (by_index a !! i) as [s|] eqn:E; cbn [with_maps by_index].
  - by rewrite lookup_insert_eq.
  - by rewrite E.
Qed.

Lemma bound_index_range a t key i :
  alloc_ok a t -> by_domain a !! key = Some i ->
  FAKE_IP_FIRST_HOST_INDEX <= i <= last_host_index (config a) /\ exists s, by_index a !! i = Some s /\ domain s = key.
Proof.
  intros [Hm Hs] Hk. apply (ok_domain _ _ _ _ _ Hm) in Hk as (s & Hi & Ed). split; [|eauto].
  pose proof (ok_cursor _ _ _ _ _ Hs). apply (ok_bound _ _ _ _ _ Hs) in Hi. lia.
Qed.

(** C30. A fake address leads back to its host name: in every state any
    sequence of calls can reach, both addresses of a bound name are looked up
    as that name, so no two names share an address; they are hosts of the pool,
    and never the address of the adapter itself. *)
Theorem fake_address_roundtrip c t0 trace a t d b now :
  pool_wf c -> runs (new c) t0 trace a t -> binding_for_domain a d = Some b ->
  snd (domain_for_ip a (V4 (v4 b)) now) = Some (normalize_hostname d)
  /\ holds_host c (V4 (v4 b)) = true /\ v4 b <> gateway_v4 c
  /\ forall x, v6 b = Some x ->
     snd (domain_for_ip a (V6 x) now) = Some (normalize_hostname d)
     /\ holds_host c (V6 x) = true /\ gateway_v6 c <> Some x.
Proof.
  intros Hc Hr Hb. destruct (runs_ok _ _ _ _ _ Hr) as (Ha & Ec & _ & _); [done|by apply new_ok|].
  cbn [new config] in Ec. unfold binding_for_domain in Hb.
  destruct (by_domain a !! normalize_hostname d) as [i|] eqn:Ek; [|done]. injection Hb as <-.
  destruct (bound_index_range a t _ i Ha Ek) as (Hi & s & Hs & Ed). rewrite Ec in Hi.
  assert (Hcount : 0 <= i < v4_address_count c /\ 0 <= 1 < v4_address_count c).
  { destruct (last_host_index_value c) as [Hl _]; [destruct Hc as ((_ & H & _) & ? & _); lia|].
    destruct (address_count_value c) as [Hcount _]; [destruct Hc as ((_ & H & _) & ? & _); lia|].
    unfold FAKE_IP_FIRST_HOST_INDEX in Hi. lia. }
  destruct Hcount as [Hcount H1]. cbn [binding_at v4 v6]. rewrite !domain_for_ip_peek, Ec.
  unfold peek_domain_for_ip. rewrite Ec, index_of_v4_at by done. cbn [mbind option_bind]. rewrite Hs.
  unfold FAKE_IP_FIRST_HOST_INDEX in Hi.
  split_and!; [cbn; by rewrite Ed|by apply v4_at_host| |].
  - intros E. assert (Some i = Some 1); [|simplify_eq; lia].
    rewrite <- (index_of_v4_at c i), <- (index_of_v4_at c 1) by done. by rewrite E.
  - intros x Hx. rewrite domain_for_ip_peek. unfold peek_domain_for_ip. rewrite Ec, (index_of_v6_at c i x) by done.
    cbn [mbind option_bind]. rewrite Hs. split_and!; [cbn; by rewrite Ed|by eapply v6_at_host|].
    intros E. assert (Some i = Some 1); [|simplify_eq; lia].
    rewrite <- (index_of_v6_at c i x), <- (index_of_v6_at c 1 x) by done. done.
Qed.

(** A name keeps its address: once a name was given an address, no flood
    of other calls hands it to another name before the idle time has passed. Only releasing the name or clearing the pool ends the
    binding earlier, and asking again gives the same address. *)
Theorem binding_kept c t0 trace0 a t d b now trace a' t' :
  pool_wf c -> runs (new c) t0 trace0 a t -> t <= now ->
  snd (allocate a d now) = Ok b ->
  runs (fst (allocate a d now)) now trace a' t' ->
  Forall (fun call => ~ ends (fst call) (normalize_hostname d)) trace ->
  t' - now < min_recycle_idle a ->
  binding_for_domain a' d = Some b
  /\ forall now', snd (allocate a' d now') = Ok b.
Proof.
  intros Hc Hr Ht Hb Hr' Hf Hidle. destruct (runs_ok _ _ _ _ _ Hr) as (Ha & Ec & _ & _); [done|by apply new_ok|].
  cbn [new config] in Ec. rewrite <- Ec in Hc.
  destruct (run_config (Allocate d) a now) as [Ec' Em']. cbn [run] in Ec', Em'.
  assert (Hh : is_empty (normalize_hostname d) = false
    /\ exists i, b = binding_at a i /\ holds (fst (allocate a d now)) (normalize_hostname d) i now).
  { unfold allocate in *. set (key := normalize_hostname d) in *. destruct (is_empty key); [done|]. split; [done|].
    destruct (by_domain a !! key) as [i|] eqn:Ek.
    - cbn [snd] in Hb. injection Hb as <-. exists i. destruct (bound_index_range a t key i Ha Ek) as (_ & s & Hs & Ed).
      cbn [fst]. unfold touch. rewrite Hs. split; [done|]. split; [done|]. cbn [with_maps by_index].
      rewrite lookup_insert_eq. by eexists.
    - pose proof (take_index_spec a t now Ha Hc) as H. destruct (take_index a now) as [a1 [i|e]]; [|done].
      cbn [fst snd] in *. injection Hb as <-. destruct H as (E1 & _). exists i.
      split; [unfold binding_at; cbn; by rewrite E1|]. apply bind_holds_new. }
  destruct Hh as (Hne & i & -> & Hh).
  assert (Hok : alloc_ok (fst (allocate a d now)) now) by by eapply allocate_ok.
  destruct (runs_ok _ _ _ _ _ Hr') as (_ & Ec2 & _ & _); [by rewrite Ec'|done|].
  assert (Hh' : holds a' (normalize_hostname d) i now).
  { eapply (runs_holds _ _ _ _ _ _ _ _ Hr'); rewrite ?Ec', ?Em'; try done. }
  assert (Eb : forall x, config x = config a' -> binding_at x i = binding_at a i).
  { intros x Hx. unfold binding_at. by rewrite Hx, Ec2, Ec'. }
  destruct Hh' as (Hd & s & Hs & _). split.
  - unfold binding_for_domain. rewrite Hd. cbn. by rewrite Eb.
  - intros now'. unfold allocate. rewrite Hne, Hd. cbn [snd]. rewrite Eb; [done|].
    unfold touch. by case_match.
Qed.

Lemma busy_all_recent a t now :
  alloc_ok a t -> pool_busy a now -> tick a < u64_max ->
  forall i, FAKE_IP_FIRST_HOST_INDEX <= i <= last_host_index (config a) ->
  exists s, by_index a !! i = Some s /\ u_sat_sub now (touched s) < min_recycle_idle a.
Proof.
  intros [Hm Hs] (Hcur & Hf & used & j & r & rest & Hl & Hj & Hrec) Htick i Hi.
  destruct (ok_complete _ _ _ _ _ Hs i) as [Hin|[[s Hsi]|[=]]]; [lia|by rewrite Hf, elem_of_nil in Hin|].
  exists s. split; [done|].
  assert (Hjr : last_used r = used).
  { assert (Hin : (used, j) ∈ by_age a) by (apply by_age_list_elem; rewrite Hl; left).
    apply (ok_age _ _ _ _ _ Hm) in Hin as (r' & Hr' & <-). congruence. }
  assert (Hle : used <= last_used s).
  { assert (Hin : (last_used s, i) ∈ elements (by_age a)).
    { apply elem_of_elements, (ok_age _ _ _ _ _ Hm). eauto. }
    pose proof (sort_by_head age_cmp _ _ _ _ Hl Hin) as Hc.
    unfold age_cmp, pair_cmp, cmp_then, cmp_on in Hc. cbn [fst] in Hc.
    destruct (Z.compare_spec used (last_used s)); [lia..|]. done. }
  assert (touched r <= touched s); [|unfold u_sat_sub in *; lia].
  destruct (Z.eq_dec used (last_used s)) as [E|E]; [|eapply (ok_order _ _ _ _ _ Hm j r i s); [done..|lia]].
  destruct (ok_inj _ _ _ _ _ Hm j r i s) as [->|Hmax]; [done|done|congruence|simplify_eq; lia|].
  destruct (ok_used _ _ _ _ _ Hm j r Hj). lia.
Qed.

(** A query is refused an address only when it must be: the name is empty,
    or every host index of the pool is bound to a name that was used within the
    idle time. In every other state the name gets an address. *)
Theorem allocate_refused_only_when_full c t0 trace a t d now e :
  pool_wf c -> runs (new c) t0 trace a t -> t <= now -> tick a < u64_max ->
  snd (allocate a d now) = Err e ->
  (e = EmptyDomain /\ normalize_hostname d = [])
  \/ (e = PoolExhausted /\ fst (allocate a d now) = a
      /\ by_domain a !! normalize_hostname d = None
      /\ forall i, FAKE_IP_FIRST_HOST_INDEX <= i <= last_host_index c ->
         exists s, by_index a !! i = Some s /\ u_sat_sub now (touched s) < min_recycle_idle a).
Proof.
  intros Hc Hr Ht Htick. destruct (runs_ok _ _ _ _ _ Hr) as (Ha & Ec & _ & _); [done|by apply new_ok|].
  cbn [new config] in Ec. rewrite <- Ec in Hc |- *. unfold allocate.
  destruct (is_empty _) eqn:Ee; [intros [= <-]; left; by apply is_empty_true in Ee|].
  destruct (by_domain a !! normalize_hostname d) as [i|] eqn:Ek; [done|].
  pose proof (take_index_spec a t now Ha Hc) as H. destruct (take_index a now) as [a1 [i|e1]]; [done|].
  destruct H as (-> & -> & Hbusy). intros [= <-]. right. split_and!; try done.
  by eapply busy_all_recent.
Qed.

(** ** The mirror of the bindings *)

(** What a store keyed by index makes of the reported changes. *)
Definition mirror_one (m : gmap Z str) (c : BindingChange) : gmap Z str :=
  match c with
  | Bound d i => <[i := d]> m
  | Released i => delete i m
  end.

Definition bindings_of (a : FakeIpAllocator) : gmap Z str := domain <$> by_index a.

Definition silent (c : Call) : Prop :=
  match c with Restore _ | Clear => True | _ => False end.

Lemma touch_mirror a i now : bindings_of (touch a i now) = bindings_of a /\ sink (touch a i now) = sink a.
Proof.
  unfold touch, bindings_of. destruct (by_index a !! i) as [s|] eqn:E; [|done]. split; [|done].
  cbn [with_maps by_index]. rewrite fmap_insert. cbn [domain]. apply insert_id. by rewrite lookup_fmap, E.
Qed.

Lemma release_mirror a t d told :
  alloc_ok a t -> sink a = Some told ->
  exists new, sink (fst (release a d)) = Some (told ++ new)
    /\ fold_left mirror_one new (bindings_of a) = bindings_of (fst (release a d)).
Proof.
  intros Ha Hs. unfold release. destruct (by_domain a !! normalize_hostname d) as [i|]; cbn [fst].
  - exists [Released i]. cbn [emit with_space with_maps sink]. rewrite Hs. split; [done|].
    unfold bindings_of. cbn [emit with_space with_maps by_index fold_left mirror_one]. by rewrite fmap_delete.
  - exists []. by rewrite app_nil_r.
Qed.

Lemma run_mirror c a t now told :
  alloc_ok a t -> pool_wf (config a) -> ~ silent c -> sink a = Some told ->
  exists new, sink (run c a now) = Some (told ++ new)
    /\ fold_left mirror_one new (bindings_of a) = bindings_of (run c a now).
Proof.
  intros Ha Hc Hns Hs.
  assert (Hsame : forall a', sink a' = sink a -> bindings_of a' = bindings_of a ->
    exists new, sink a' = Some (told ++ new) /\ fold_left mirror_one new (bindings_of a) = bindings_of a').
  { intros a' E1 E2. exists []. by rewrite app_nil_r, E1, E2. }
  assert (Htouch : forall i, exists new, sink (touch a i now) = Some (told ++ new)
    /\ fold_left mirror_one new (bindings_of a) = bindings_of (touch a i now)).
  { intros i. destruct (touch_mirror a i now). by apply Hsame. }
  destruct c as [d|addr|d|d o|addr|rows|]; cbn [run]; [..|by destruct Hns|by destruct Hns].
  - unfold allocate. destruct (is_empty _); [by apply Hsame|].
    destruct (by_domain a !! normalize_hostname d) as [i|]; [apply Htouch|].
    pose proof (take_index_spec a t now Ha Hc) as H.
    destruct (take_index a now) as [a' [i|e]]; cbn [fst]; [|destruct H as (-> & _); by apply Hsame].
    destruct H as (_ & E1 & _ & _ & _ & _ & Hcase). exists [Bound (normalize_hostname d) i].
    cbn [emit bind insert_slot with_maps sink]. rewrite E1, Hs. split; [done|].
    unfold bindings_of. cbn [emit bind insert_slot with_maps by_index fold_left mirror_one].
    rewrite fmap_insert. cbn [domain].
    destruct Hcase as [[_ ->]|(s & _ & _ & -> & _)]; [done|]. by rewrite fmap_delete, insert_delete_eq.
  - unfold domain_for_ip. case_match; [apply Htouch|by apply Hsame].
  - by eapply release_mirror.
  - unfold release_if_untouched. destruct (match _ with Some _ => _ | None => _ end); [|by apply Hsame].
    by eapply release_mirror.
  - unfold touch_address. case_match; [|by apply Hsame]. destruct (negb _); [by apply Hsame|apply Htouch].
Qed.

(** The reported changes are the whole story: a store that starts with the
    bindings there are when it registers and applies every change it is told
    holds exactly the bindings of the allocator after any sequence of calls
    other than restoring or clearing, which report nothing. *)
Theorem mirror_follows c t0 trace0 a0 t trace a t' :
  pool_wf c -> runs (new c) t0 trace0 a0 t ->
  runs (set_change_sink a0) t trace a t' ->
  Forall (fun call => ~ silent (fst call)) trace ->
  exists told, sink a = Some told
    /\ fold_left mirror_one told (bindings_of a0) = bindings_of a.
Proof.
  intros Hc Hr0 Hr Hns. destruct (runs_ok _ _ _ _ _ Hr0) as (Ha & Ec & _ & _); [done|by apply new_ok|].
  cbn [new config] in Ec. rewrite <- Ec in Hc.
  assert (Hgen : forall told, sink (set_change_sink a0) = Some told ->
    fold_left mirror_one told (bindings_of a0) = bindings_of (set_change_sink a0) ->
    exists told, sink a = Some told /\ fold_left mirror_one told (bindings_of a0) = bindings_of a).
  2: { by apply (Hgen []). }
  assert (Hok : alloc_ok (set_change_sink a0) t) by exact Ha.
  assert (Hc' : pool_wf (config (set_change_sink a0))) by exact Hc.
  clear Hr0 Ha Hc. generalize dependent (set_change_sink a0). intros s Hr Hok Hc'.
  induction Hr as [s t|s t cl now trace a t' Ht Hr IH]; intros told Hs Hm; [eauto|].
  apply Forall_cons in Hns as [Hn Hns]. cbn [fst] in Hn.
  destruct (run_mirror cl s t now told Hok Hc' Hn Hs) as (new' & Hs' & Hm').
  destruct (run_config cl s now) as [Ec' _].
  apply (IH Hns) with (told ++ new'); [by eapply run_ok|by rewrite Ec'|done|].
  by rewrite fold_left_app, Hm.
Qed.

(** ** Restoring what was stored *)

(** The rows a store hands back: the bindings, oldest use first. *)
Definition stored (a : FakeIpAllocator) : list (str * Z) :=
  omap (fun oi => (fun s => (domain s, oi.2)) <$> by_index a !! oi.2) (by_age_list a).

Lemma by_age_snoc (age : gset (Z * Z)) x :
  x ∉ age -> (forall y, y ∈ age -> age_cmp y x = Lt) ->
  sort_by age_cmp (elements ({[x]} ∪ age)) = sort_by age_cmp (elements age) ++ [x].
Proof.
  intros Hx Hlt. rewrite <- (sort_by_id age_cmp (sort_by age_cmp (elements age) ++ [x])).
  - apply sort_by_canonical; [apply _|]. rewrite elements_union_singleton by done.
    rewrite sort_by_perm. by rewrite Permutation_app_comm.
  - apply StronglySorted_app_2; [|apply sort_by_sorted; apply _|repeat constructor].
    intros y z Hy ->%list_elem_of_singleton.
    apply sort_by_elem_of, elem_of_elements, Hlt in Hy. unfold cmp_le. by rewrite Hy.
Qed.

Lemma age_cmp_lt o i o' i' : o < o' -> age_cmp (o, i) (o', i') = Lt.
Proof.
  intros H. unfold age_cmp, pair_cmp, cmp_then, cmp_on. cbn [fst].
  by rewrite (proj2 (Z.compare_lt_iff o o') H).
Qed.

(** A row a store may hand back. *)
Definition row_ok (c : FakeIpPoolConfig) (row : str * Z) : Prop :=
  row.1 <> [] /\ normalize_hostname row.1 = row.1
  /\ FAKE_IP_FIRST_HOST_INDEX <= row.2 <= last_host_index c.

Lemma restore_rows_exact now rows a t :
  t <= now -> maps_ok (by_domain a) (by_index a) (by_age a) (tick a) t ->
  Forall (row_ok (config a)) rows -> NoDup rows.*1 -> NoDup rows.*2 ->
  (forall row, row ∈ rows -> by_domain a !! row.1 = None /\ by_index a !! row.2 = None) ->
  tick a + Z.of_nat (length rows) <= u64_max ->
  let a' := fold_left (restore_one now) rows a in
  by_domain a' = list_to_map rows ∪ by_domain a
  /\ (by_age_list a').*2 = (by_age_list a).*2 ++ rows.*2.
Proof.
  revert a t. induction rows as [|[k i] rows IH]; intros a t Ht Hm Hrow Hnd1 Hnd2 Hfresh Htick.
  { cbn. by rewrite (left_id_L ∅ (∪)), app_nil_r. }
  cbn [fold_left fmap list_fmap fst snd length] in *.
  apply Forall_cons in Hrow as [(Hk & Hn & Hi) Hrow]. cbn [fst snd] in *.
  apply NoDup_cons in Hnd1 as [Hk1 Hnd1]. apply NoDup_cons in Hnd2 as [Hi1 Hnd2].
  destruct (Hfresh (k, i)) as [Hfd Hfi]; [left|]. cbn [fst snd] in *.
  assert (E : restore_one now a (k, i) = bind a i k now).
  { unfold restore_one. rewrite Hn, Hfd, Hfi. rewrite (proj2 (is_empty_false k) Hk).
    rewrite (proj2 (Z.ltb_ge i _)), (proj2 (Z.ltb_ge _ i)) by lia. done. }
  rewrite E. pose proof (maps_ok_write _ _ _ _ t now i k Ht Hm (or_introl (conj Hfi Hfd))) as Hm'.
  rewrite Hfi in Hm'. assert (Etk : next_tick (tick a) = tick a + 1) by (unfold next_tick; lia).
  assert (Hage : forall y, y ∈ by_age a -> age_cmp y (next_tick (tick a), i) = Lt).
  { intros [o j] Hy. apply (ok_age _ _ _ _ _ Hm) in Hy as (s & Hs & <-).
    destruct (ok_used _ _ _ _ _ Hm j s Hs). apply age_cmp_lt. lia. }
  destruct (IH (bind a i k now) now) as [H1 H2]; try done.
  - intros row Hin. cbn [bind insert_slot with_maps by_domain by_index].
    destruct (Hfresh row) as [F1 F2]; [by right|].
    rewrite !lookup_insert_None. split_and!; try done.
    + intros ->. apply Hk1. apply list_elem_of_fmap. eauto.
    + intros ->. apply Hi1. apply list_elem_of_fmap. eauto.
  - cbn [bind insert_slot with_maps tick]. lia.
  - split.
    + rewrite H1. cbn [bind insert_slot with_maps by_domain list_to_map foldr uncurry fst snd].
      rewrite <- insert_union_r by (by apply not_elem_of_list_to_map_1). by rewrite insert_union_l.
    + rewrite H2. unfold by_age_list. cbn [bind insert_slot with_maps by_age].
      rewrite by_age_snoc; [|intros Hin; specialize (Hage _ Hin)|exact Hage].
      * rewrite fmap_app. cbn. by rewrite <- app_assoc.
      * rewrite (cmp_refl age_cmp) in Hage. done.
Qed.

(** A name without white space is normalized once and for all. *)
Lemma normalize_stable d :
  contains_char is_whitespace d = false ->
  normalize_hostname (normalize_hostname d) = normalize_hostname d.
Proof.
  intros Hd. unfold normalize_hostname. rewrite (trim_id d Hd). set (w := trim_end_matches (is_char DOT_CHAR) d).
  assert (Hw : last_is (is_char DOT_CHAR) w = false) by apply trim_end_matches_last.
  assert (Hsp : contains_char is_whitespace (to_ascii_lowercase w) = false).
  { apply contains_char_false. intros c Hc. unfold to_ascii_lowercase in Hc.
    apply list_elem_of_fmap in Hc as (x & -> & Hx).
    rewrite lower_whitespace. rewrite contains_char_false in Hd. apply Hd. unfold w in Hx.
    destruct (trim_end_matches_prefix (is_char DOT_CHAR) d) as [r E]. rewrite E, elem_of_app. by left. }
  rewrite (trim_id _ Hsp). unfold trim_end_matches at 1. rewrite trim_start_matches_id.
  - rewrite reverse_involutive. apply to_ascii_lowercase_idemp.
  - assert (Hl : last_is (is_char DOT_CHAR) (to_ascii_lowercase w) = false).
    { rewrite last_is_lower; [done|]. intros c. apply char_lower_class, upper_not. by vm_compute. }
    rewrite last_is_reverse in Hl. by destruct (reverse (to_ascii_lowercase w)).
Qed.

(** The names a call brings in hold no white space. *)
Definition names_plain (c : Call) : Prop :=
  match c with
  | Allocate d => contains_char is_whitespace d = false
  | Restore rows => forall row, row ∈ rows -> contains_char is_whitespace row.1 = false
  | _ => True
  end.

(** The names of the map are normalized and not empty. *)
Definition keys_plain (a : FakeIpAllocator) : Prop :=
  forall k i, by_domain a !! k = Some i -> k <> [] /\ normalize_hostname k = k.

Lemma bind_keys a i d now :
  keys_plain a -> contains_char is_whitespace d = false -> normalize_hostname d <> [] ->
  keys_plain (bind a i (normalize_hostname d) now).
Proof.
  intros Ha Hd Hne k j. cbn [bind insert_slot with_maps by_domain].
  intros [[<- _]|[_ Hk]]%lookup_insert_Some; [split; [done|by apply normalize_stable]|by eapply Ha].
Qed.

Lemma sub_keys a a' :
  (forall k i, by_domain a' !! k = Some i -> by_domain a !! k = Some i) -> keys_plain a -> keys_plain a'.
Proof. intros H Ha k i Hk. by eapply Ha, H. Qed.

Lemma touch_sub a i now k j : by_domain (touch a i now) !! k = Some j -> by_domain a !! k = Some j.
Proof. unfold touch. by case_match. Qed.

Lemma release_sub a d k j : by_domain (fst (release a d)) !! k = Some j -> by_domain a !! k = Some j.
Proof.
  unfold release. case_match; [|done]. cbn [fst emit with_space with_maps by_domain].
  by intros [_ ?]%lookup_delete_Some.
Qed.

Lemma run_keys c a t now :
  alloc_ok a t -> pool_wf (config a) -> names_plain c -> keys_plain a -> keys_plain (run c a now).
Proof.
  intros Ha Hc Hn Hk. destruct c as [d|addr|d|d o|addr|rows|]; cbn [run names_plain] in *.
  - unfold allocate. destruct (is_empty (normalize_hostname d)) eqn:Ee; [done|]. apply is_empty_false in Ee.
    case_match; [eapply sub_keys, Hk; apply touch_sub|].
    pose proof (take_index_spec a t now Ha Hc) as H'.
    destruct (take_index a now) as [a' [i|e]]; cbn [fst]; [|by destruct H' as (-> & _)].
    destruct H' as (_ & _ & _ & _ & _ & _ & Hcase). apply (bind_keys a'); [|done..].
    eapply sub_keys, Hk. intros k j. destruct Hcase as [[-> _]|(s & _ & _ & _ & ->)]; [done|].
    by intros [_ ?]%lookup_delete_Some.
  - unfold domain_for_ip. case_match; [eapply sub_keys, Hk; apply touch_sub|done].
  - eapply sub_keys, Hk; apply release_sub.
  - unfold release_if_untouched. destruct (match _ with Some _ => _ | None => _ end); [|done].
    eapply sub_keys, Hk; apply release_sub.
  - unfold touch_address. case_match; [|done]. destruct (negb _); [done|eapply sub_keys, Hk; apply touch_sub].
  - assert (Hf : keys_plain (fold_left (restore_one now) rows a)).
    { clear Ha Hc. revert a Hk. induction rows as [|row rows IH]; intros a Hk; [done|]. cbn [fold_left].
      apply IH; [intros r Hr; apply Hn; by right|].
      destruct (restore_one_cases now a row) as [->|(i & key & -> & -> & _ & Hne & _)]; [done|].
      apply bind_keys; [done| |done]. apply Hn. left. }
    unfold restore. by case_match.
  - intros k i. cbn [clear with_space with_maps by_domain]. by rewrite lookup_empty.
Qed.

Lemma runs_keys a t trace a' t' :
  runs a t trace a' t' -> pool_wf (config a) -> alloc_ok a t -> keys_plain a ->
  Forall (fun call => names_plain (fst call)) trace -> keys_plain a'.
Proof.
  induction 1 as [a t|a t c now trace a' t' Ht Hr IH]; intros Hc Ha Hk Hf; [done|].
  apply Forall_cons in Hf as [Hn Hf]. cbn [fst] in Hn. destruct (run_config c a now) as [Ec _].
  apply IH; [by rewrite Ec|by eapply run_ok|by eapply run_keys|done].
Qed.

(** ** The rows of a store *)

Lemma stored_elem a t k i :
  alloc_ok a t -> (k, i) ∈ stored a <-> by_domain a !! k = Some i.
Proof.
  intros [Hm _]. unfold stored. rewrite list_elem_of_omap, (ok_domain _ _ _ _ _ Hm). split.
  - intros ([o j] & _ & E). cbn [snd] in E. destruct (by_index a !! j) as [s|] eqn:Ej; [|done].
    injection E as <- <-. eauto.
  - intros (s & Hs & <-). exists (last_used s, i). cbn [snd]. rewrite Hs. split; [|done].
    apply by_age_list_elem, (ok_age _ _ _ _ _ Hm). eauto.
Qed.

Lemma stored_indices a t : alloc_ok a t -> (stored a).*2 = (by_age_list a).*2.
Proof.
  intros [Hm _]. unfold stored.
  assert (Hl : forall oi, oi ∈ by_age_list a -> is_Some (by_index a !! oi.2)).
  { intros [o i] Hin. apply by_age_list_elem, (ok_age _ _ _ _ _ Hm) in Hin as (s & Hs & _). by eexists. }
  induction (by_age_list a) as [|[o i] l IH]; [done|]. cbn [omap list_omap snd].
  destruct (Hl (o, i)) as [s Hs]; [left|]. cbn [snd] in Hs. rewrite Hs. cbn.
  f_equal. apply IH. intros oi Hoi. apply Hl. by right.
Qed.

Lemma stored_nodup a t : alloc_ok a t -> NoDup (stored a).*1 /\ NoDup (stored a).*2.
Proof.
  intros Ha. pose proof Ha as [Hm _].
  assert (H2 : NoDup (stored a).*2).
  { rewrite (stored_indices a t Ha). apply NoDup_fmap_2_strong.
    - intros [o i] [o' i'] H1%by_age_list_elem H2%by_age_list_elem E. cbn [snd] in E. subst i'.
      apply (ok_age _ _ _ _ _ Hm) in H1 as (s & Hs & <-), H2 as (s' & Hs' & <-). congruence.
    - unfold by_age_list. rewrite sort_by_perm. apply NoDup_elements. }
  split; [|done]. apply NoDup_fmap_2_strong; [|by eapply NoDup_fmap_1].
  intros [k i] [k' i'] H1 H3 E. cbn [fst] in E. subst k'.
  apply (stored_elem a t k i Ha) in H1. apply (stored_elem a t k i' Ha) in H3. congruence.
Qed.

Lemma stored_length a t :
  alloc_ok a t -> last_host_index (config a) <= u32_max -> Z.of_nat (length (stored a)) <= 2 ^ 32.
Proof.
  intros Ha Hl. destruct (stored_nodup a t Ha) as [_ Hnd].
  assert (Hsub : (stored a).*2 ⊆+ seqZ 0 (2 ^ 32)).
  { apply NoDup_submseteq; [done|]. intros i Hi. apply list_elem_of_fmap in Hi as ([k j] & -> & Hin).
    apply (stored_elem a t k j Ha), (bound_index_range a t k j Ha) in Hin as [Hr _].
    apply elem_of_seqZ. unfold FAKE_IP_FIRST_HOST_INDEX in Hr. cbn [snd]. lia. }
  apply submseteq_length in Hsub. rewrite length_fmap, length_seqZ in Hsub. lia.
Qed.

(** Bindings survive a restart: the rows stored for a pool, restored oldest
    first into a fresh allocator, give every name its index again and the same
    recycling order, as long as the names held no white space. *)
Theorem restore_roundtrip c t0 trace a t now :
  pool_wf c -> runs (new c) t0 trace a t -> Forall (fun call => names_plain (fst call)) trace ->
  by_domain (restore (new c) (stored a) now) = by_domain a
  /\ (by_age_list (restore (new c) (stored a) now)).*2 = (by_age_list a).*2.
Proof.
  intros Hc Hr Hn. destruct (runs_ok _ _ _ _ _ Hr) as (Ha & Ec & _ & _); [done|by apply new_ok|].
  cbn [new config] in Ec.
  assert (Hkeys : keys_plain a) by (eapply runs_keys; [done..|by apply (new_ok c t0)|done|done]).
  destruct (stored_nodup a t Ha) as [Hnd1 Hnd2].
  destruct (last_host_index_value c) as [Hl _]; [destruct Hc as ((_ & H & _) & ? & _); lia|].
  destruct (address_count_value c) as [_ Hmax]; [destruct Hc as ((_ & H & _) & ? & _); lia|].
  pose proof (stored_length a t Ha) as Hlen. rewrite Ec in Hlen.
  destruct (new_ok c now Hc) as [Hm0 _].
  destruct (restore_rows_exact now (stored a) (new c) now) as [H1 H2]; try done.
  - apply Forall_forall. intros [k i] Hin. apply (stored_elem a t k i Ha) in Hin.
    destruct (Hkeys k i Hin). destruct (bound_index_range a t k i Ha Hin) as [Hi _]. rewrite Ec in Hi.
    split_and!; try done; apply Hi.
  - cbn [new tick]. lia.
  - assert (E : by_domain (restore (new c) (stored a) now) = by_domain (fold_left (restore_one now) (stored a) (new c))
               /\ by_age (restore (new c) (stored a) now) = by_age (fold_left (restore_one now) (stored a) (new c)))
      by (unfold restore; by case_match).
    destruct E as [E1 E2]. unfold by_age_list at 1. rewrite E1, E2. split.
    + rewrite H1. cbn [new by_domain]. rewrite (right_id_L ∅ (∪)). apply map_eq. intros k.
      apply option_eq. intros i. rewrite <- elem_of_list_to_map by done. by apply (stored_elem a t).
    + unfold by_age_list in H2 at 1. rewrite H2, (stored_indices a t Ha). done.
Qed.

(** ** Examples *)

Section Example.

Let host : str := u "Example.com.".

Let one : FakeIpAllocator := run (Allocate host) (new default_pool) 5.

Let bound : FakeIpBinding := binding_at one 2.

Lemma one_reached : runs (new default_pool) 0 [(Allocate host, 5)] one 5.
Proof using Type. apply runs_cons; [lia|]. apply runs_nil. Qed.

Lemma fake_address_roundtrip_witness :
  snd (domain_for_ip one (V4 (v4 bound)) 9) = Some (u "example.com")
  /\ holds_host default_pool (V4 (v4 bound)) = true.
Proof.
  destruct (fake_address_roundtrip default_pool 0 [(Allocate host, 5)] one 5 host bound 9)
    as (H1 & H2 & _); [exact default_pool_wf|exact one_reached|vm_compute; reflexivity|].
  split; [exact H1|exact H2].
Defined.

Lemma binding_kept_witness :
  binding_for_domain (run (Allocate (u "other.org")) one 6) host = Some bound.
Proof.
  apply (binding_kept default_pool 0 [] (new default_pool) 0 host bound 5 [(Allocate (u "other.org"), 6)]
           (run (Allocate (u "other.org")) one 6) 6).
  - exact default_pool_wf.
  - apply runs_nil.
  - lia.
  - vm_compute. reflexivity.
  - apply runs_cons; [lia|]. apply runs_nil.
  - repeat constructor. intros [].
  - vm_compute. reflexivity.
Defined.

(** A pool of one host. *)
Let tiny : FakeIpPoolConfig :=
  {| v4_base := FAKE_IP_V4_BASE; v4_prefix_len := 30; v6_base := None; v6_prefix_len := 18 |}.

Let full : FakeIpAllocator := run (Allocate host) (new tiny) 5.

Lemma allocate_refused_only_when_full_witness :
  snd (allocate full (u "other.org") 6) = Err PoolExhausted
  /\ exists s, by_index full !! 2 = Some s /\ u_sat_sub 6 (touched s) < min_recycle_idle full.
Proof.
  assert (E : snd (allocate full (u "other.org") 6) = Err PoolExhausted) by (vm_compute; reflexivity).
  split; [exact E|].
  destruct (allocate_refused_only_when_full tiny 0 [(Allocate host, 5)] full 5 (u "other.org") 6 PoolExhausted)
    as [[H _]|(_ & _ & _ & H)].
  - vm_compute. repeat split; congruence.
  - apply runs_cons; [lia|]. apply runs_nil.
  - lia.
  - vm_compute. reflexivity.
  - exact E.
  - discriminate H.
  - apply H. vm_compute. split; congruence.
Defined.

Lemma mirror_follows_witness :
  exists told, sink (run (Release host) (run (Allocate host) (set_change_sink (new default_pool)) 5) 6) = Some told
    /\ fold_left mirror_one told ∅
       = bindings_of (run (Release host) (run (Allocate host) (set_change_sink (new default_pool)) 5) 6).
Proof.
  apply (mirror_follows default_pool 0 [] (new default_pool) 0 [(Allocate host, 5); (Release host, 6)] _ 6).
  - exact default_pool_wf.
  - apply runs_nil.
  - apply runs_cons; [lia|]. apply runs_cons; [lia|]. apply runs_nil.
  - repeat constructor; intros [].
Defined.

Lemma restore_roundtrip_witness :
  by_domain (restore (new default_pool) (stored one) 9) = {[u "example.com" := 2]}.
Proof.
  destruct (restore_roundtrip default_pool 0 [(Allocate host, 5)] one 5 9) as [H _].
  - exact default_pool_wf.
  - exact one_reached.
  - repeat constructor.
  - rewrite H. vm_compute. reflexivity.
Defined.

(** Releasing by name when idle normalizes the name twice, which is not the
    same as once for a name with white space before its last dot: the binding of
    another name is dropped, and the idle one stays. *)
Example release_if_untouched_other_name :
  let a := run (Allocate (u "a")) (run (Allocate (u "a .")) (new default_pool) 5) 6 in
  let a' := fst (release_if_untouched a (u "a .") 1) in
  by_domain a !! u "a" = Some 3 /\ by_domain a' !! u "a" = None /\ by_domain a' !! u "a " = Some 2.
Proof using Type. vm_compute. repeat split. Qed.

End Example.
