(* ===== verification/RuleLine.v ===== *)
(** * One line of a rules file

    shared/contracts/src/preset_parser/rule_line.rs: what a line of the rules
    file means. The value, its marks and flags, the inline comment, and which
    commented-out lines are rules. Both readers of the format, the window's and
    the service's, are built from these. *)

From stdpp Require Import base numbers list.
From S2P Require Import Prelude Str Digits IpAddr IpBlock AutoRule.

Open Scope N_scope.

Definition HASH : char := 35.
Definition QUOTE : char := 34.
Definition TAB : char := 9.
Definition CR : char := 13.
Definition LF : char := 10.

(** shared/contracts/src/preset_parser/types.rs *)
Inductive ParsedRuleType : Set := PZone | PDomain | PExactIp | PSubnet | PIpRange | PApplication.

#[export] Instance ParsedRuleType_eq_dec : EqDecision ParsedRuleType.
Proof. solve_decision. Defined.

Definition CHILDREN_FLAG : str := u "+children".
Definition OVERRIDE_FLAG : str := u "+override".
Definition RETIRED_BLOCK_FLAG : str := u "+block".
Definition SYNTAX_HINT_PREFIX : str := u "#:".
Definition DENY_PREFIX : char := 33.
Definition VERIFY_PRIMARY_PREFIX : char := 63.
Definition PROGRAM_VALUE_QUOTE : char := QUOTE.

(** ** Shapes of values *)

Definition looks_like_a_host_value (value : str) : bool :=
  negb (is_empty value)
  && forallb (fun c => negb (is_whitespace c)
                       && (negb (char_is_ascii c) || is_ascii_alphanumeric c
                           || ((c =? DOT) || (c =? DASH) || (c =? UNDERSCORE) || (c =? STAR)))) value.

Definition looks_like_a_rule_value (value : str) : bool :=
  let value := trim value in
  negb (is_empty value) && negb (has_whitespace value).

Definition PROGRAM_IMAGE_EXTENSIONS : list str := [u "exe"; u "com"; u "app"; u "appimage"].

Definition names_a_program_image (value : str) : bool :=
  match rsplit_once DOT value with
  | Some (stem, ext) =>
      negb (is_empty (trim stem))
      && existsb (fun known => eq_ignore_ascii_case ext known) PROGRAM_IMAGE_EXTENSIONS
  | None => false
  end.

Definition names_a_place (value : str) : bool :=
  let drive := match value with
               | letter :: c :: d :: _ =>
                   is_ascii_alphabetic letter && (c =? COLON) && ((d =? BACKSLASH) || (d =? SLASH))
               | _ => false
               end in
  let share := starts_with [BACKSLASH; BACKSLASH] value in
  let unix_folder := starts_with [SLASH] value
                     && (ends_with [SLASH] value || ends_with [SLASH; STAR] value) in
  drive || share || unix_folder.

Definition carries_retired_block_flag (value : str) : bool :=
  existsb (fun token => str_eqb token RETIRED_BLOCK_FLAG) (drop 1 (split_whitespace value)).

Definition without_retired_block_flag (value : str) : str :=
  str_join [SPACE]
    (match split_whitespace value with
     | [] => []
     | first :: rest => first :: List.filter (fun token => negb (str_eqb token RETIRED_BLOCK_FLAG)) rest
     end).

Definition is_mark (c : char) : bool := (c =? DENY_PREFIX) || (c =? VERIFY_PRIMARY_PREFIX).

Definition is_disabled_rule_value (rule_type : ParsedRuleType) (value : str) : bool :=
  let value := if carries_retired_block_flag value then without_retired_block_flag value else value in
  let value := trim value in
  let bare := trim_start_matches is_mark value in
  match rule_type with
  | PApplication =>
      looks_like_a_rule_value value || names_a_program_image value || names_a_place value
  | PSubnet => match IpBlock_parse bare with Some _ => true | None => false end
  | PIpRange =>
      match split_once DASH bare with
      | Some (first, last) =>
          match parse_ip_addr (trim first), parse_ip_addr (trim last) with
          | Some _, Some _ => true
          | _, _ => false
          end
      | None => false
      end
  | PExactIp => match parse_ip_addr bare with Some _ => true | None => false end
  | PZone | PDomain => looks_like_a_host_value bare
  end.

(** ** The inline comment *)

(** The text up to and with the quote that closes a value, and the rest: the
    first quote followed by white space or the end. *)
Fixpoint closing_quote (s : str) : option (str * str) :=
  match s with
  | [] => None
  | c :: s' =>
      if (c =? PROGRAM_VALUE_QUOTE) && match s' with [] => true | d :: _ => is_whitespace d end
      then Some ([c], s')
      else match closing_quote s' with
           | Some (a, b) => Some (c :: a, b)
           | None => None
           end
  end.

(** The scan for a [#] after white space. *)
Fixpoint find_comment (prev_space : bool) (s : str) : str * option str :=
  match s with
  | [] => ([], None)
  | c :: s' =>
      if (c =? HASH) && prev_space then ([], Some s')
      else let '(value, comment) := find_comment (is_whitespace c) s' in (c :: value, comment)
  end.

(** The marks of a body and what follows them. *)
Fixpoint leading_marks (s : str) : str * str :=
  match s with
  | c :: s' => if is_mark c then let '(m, r) := leading_marks s' in (c :: m, r) else ([], s)
  | [] => ([], [])
  end.

(** The marks and the quoted value that open a body, and the rest. *)
Definition quoted_head (body : str) : option (str * str) :=
  let '(marks, rest) := leading_marks body in
  match rest with
  | c :: rest' =>
      if c =? PROGRAM_VALUE_QUOTE
      then match closing_quote rest' with
           | Some (a, b) => Some (marks ++ c :: a, b)
           | None => None
           end
      else None
  | [] => None
  end.

Definition split_inline_comment (body : str) : str * option str :=
  match quoted_head body with
  | Some (skipped, rest) =>
      let '(value, comment) := find_comment false rest in (skipped ++ value, comment)
  | None => find_comment true body
  end.

(** ** Flags after the value *)

Record RuleFlags : Set := mkRuleFlags { children : bool; override_requested : bool }.

Definition no_flags : RuleFlags := {| children := false; override_requested := false |}.

(** The words of a text, each with the white space before it. *)
Fixpoint words_with_gaps (s : str) : list (str * str) :=
  match s with
  | [] => []
  | c :: s' =>
      if is_whitespace c
      then match words_with_gaps s' with
           | (gap, word) :: rest => (c :: gap, word) :: rest
           | [] => []
           end
      else match words_with_gaps s' with
           | ([], word) :: rest => ([], c :: word) :: rest
           | rest => ([], [c]) :: rest
           end
  end.

Definition is_flag (token : str) : bool := str_eqb token CHILDREN_FLAG || str_eqb token OVERRIDE_FLAG.

(** The loop over the words: [first] for the first word, [kept] when the word
    before stayed. *)
Fixpoint flags_loop (first kept : bool) (out : str) (flags : RuleFlags) (ws : list (str * str))
  : str * RuleFlags :=
  match ws with
  | [] => (out, flags)
  | (gap, token) :: ws' =>
      if negb first && is_flag token
      then flags_loop false false out
             {| children := children flags || str_eqb token CHILDREN_FLAG;
                override_requested := override_requested flags || str_eqb token OVERRIDE_FLAG |} ws'
      else let out := if kept then out ++ gap
                      else if is_empty out then out else out ++ [SPACE] in
           flags_loop false true (out ++ token) flags ws'
  end.

Definition split_rule_flags (value : str) : str * RuleFlags :=
  flags_loop true false [] no_flags (words_with_gaps value).

Definition stored_rule_value (rule_type : ParsedRuleType) (value : str) (flags : RuleFlags) : str :=
  if negb (bool_decide (rule_type = PApplication)) then value
  else value ++ (if children flags then SPACE :: CHILDREN_FLAG else [])
             ++ (if override_requested flags then SPACE :: OVERRIDE_FLAG else []).

Definition without_rule_flags (value : str) : str :=
  let '(bare, flags) := split_rule_flags value in
  if children flags || override_requested flags then bare else value.

Definition extract_rule_flags (value : str) : str := fst (split_rule_flags value).

(** ** Marks before the value *)

Record RuleMarkers : Set := mkMarkers { deny : bool; verify : bool; contradictory : bool }.

Definition split_mark (mark : char) (value : str) : str * bool :=
  match value with
  | c :: ((d :: _) as rest) => if (c =? mark) && negb (is_whitespace d) then (rest, true) else (value, false)
  | _ => (value, false)
  end.

Definition split_deny (value : str) : str * bool := split_mark DENY_PREFIX value.

Definition split_verify_primary (value : str) : str * bool := split_mark VERIFY_PRIMARY_PREFIX value.

Definition split_rule_markers (value : str) (reads_verify : bool) : str * RuleMarkers :=
  let '(rest, d) := split_deny value in
  let '(rest, v) := if reads_verify then split_verify_primary rest else (rest, false) in
  if v && (d || starts_with [DENY_PREFIX] rest)
  then (value, {| deny := false; verify := false; contradictory := true |})
  else (rest, {| deny := d; verify := v; contradictory := false |}).

(** ** Program values in quotes *)

Definition unquote_program_value (value : str) : option str :=
  match strip_prefix [PROGRAM_VALUE_QUOTE] value with
  | None => None
  | Some rest =>
      match strip_suffix [PROGRAM_VALUE_QUOTE] rest with
      | None => None
      | Some inner => let inner := trim inner in if is_empty inner then None else Some inner
      end
  end.

Definition program_value_on_line (value : str) (enabled : bool) : str :=
  let '(bare, flags) := split_rule_flags value in
  let misread := match unquote_program_value bare with Some _ => true | None => false end
                 || match snd (split_inline_comment bare) with Some _ => true | None => false end
                 || (negb enabled && negb (is_disabled_rule_value PApplication bare)) in
  if is_empty bare || negb misread then value
  else stored_rule_value PApplication (PROGRAM_VALUE_QUOTE :: bare ++ [PROGRAM_VALUE_QUOTE]) flags.

(** ** Characters a field cannot carry *)

Definition is_forbidden_field_char (c : char) : bool := is_control c && negb (c =? TAB).

Definition first_forbidden_field_char (field : str) : option char :=
  find_first is_forbidden_field_char field.

Definition neutralize_field (field : str) : str :=
  match first_forbidden_field_char field with
  | None => field
  | Some _ => (fun c => if is_forbidden_field_char c then SPACE else c) <$> field
  end.

Definition is_syntax_hint_line (line : str) : bool :=
  starts_with SYNTAX_HINT_PREFIX (trim_start_matches is_whitespace line).

(** ** The window's reading of a rule line *)

Record ParsedRule : Set := mkParsedRule {
  id_hint : N;
  p_enabled : bool;
  rule_type : ParsedRuleType;
  section_name : str;
  p_match_value : str;
  p_comment : str;
  p_blocked : bool;
  p_verify_primary : bool;
  p_children : bool;
  p_override_requested : bool;
  p_origin : option RuleOrigin;
  line_number : N;
}.

Definition stored_value (r : ParsedRule) : str :=
  stored_rule_value (rule_type r) (p_match_value r)
    {| children := p_children r; override_requested := p_override_requested r |}.

Definition AUTO_SECTION_NAME : str := u "Auto".

Definition is_auto_section (name : str) : bool := eq_ignore_ascii_case name AUTO_SECTION_NAME.

(** The text of the line without the [#] of a disabled rule. *)
Definition rule_of_body (kind : ParsedRuleType) (section : str) (hint number : N)
  (body : str) (started_with_hash : bool) : option ParsedRule :=
  let '(match_value, comment) := split_inline_comment body in
  let comment := default [] comment in
  let '(match_value, flags) := split_rule_flags match_value in
  let comment := trim comment in
  let reads_verify := match kind with PDomain | PExactIp => true | _ => false end in
  let '(match_value, markers) := split_rule_markers match_value reads_verify in
  let quoted := match kind with
                | PApplication => unquote_program_value match_value
                | _ => None
                end in
  let match_value := default match_value quoted in
  if is_empty match_value then None
  else if started_with_hash && match quoted with Some _ => false | None => true end
          && negb (is_disabled_rule_value kind match_value)
  then None
  else
    let '(comment, origin) :=
      if is_auto_section section || bool_decide (kind = PApplication)
      then match parse_provenance_comment comment with
           | Some provenance => (default [] (note provenance), Some (origin provenance))
           | None => (comment, None)
           end
      else (comment, None) in
    Some {| id_hint := hint; p_enabled := negb started_with_hash; rule_type := kind;
            section_name := section; p_match_value := match_value; p_comment := comment;
            p_blocked := deny markers; p_verify_primary := verify markers;
            p_children := children flags; p_override_requested := override_requested flags;
            p_origin := origin; line_number := number |}.

Definition parse_rule_line (raw : str) (kind : ParsedRuleType) (section : str) (hint number : N)
  : option ParsedRule :=
  let raw := trim raw in
  if is_empty raw then None
  else if starts_with [HASH; HASH] raw then None
  else match strip_prefix [HASH; SPACE] raw with
       | Some rest => rule_of_body kind section hint number rest true
       | None =>
           match strip_prefix [HASH] raw with
           | Some rest => if is_empty rest then None else rule_of_body kind section hint number rest true
           | None => rule_of_body kind section hint number raw false
           end
       end.

(** ** Text of a section that is only carried *)

Definition PASSTHROUGH_PREVIEW_LINES : nat := 5.

Fixpoint summarize_lines (lines : list str) (content_lines : nat) (preview : list str)
  : nat * list str :=
  match lines with
  | [] => (content_lines, preview)
  | raw :: lines' =>
      let line := trim raw in
      if is_empty line then summarize_lines lines' content_lines preview
      else summarize_lines lines' (S content_lines)
             (if negb (starts_with [HASH] line) && (length preview <? PASSTHROUGH_PREVIEW_LINES)%nat
              then preview ++ [line] else preview)
  end.

Definition summarize_passthrough (body : str) : nat * list str :=
  summarize_lines (split (is_char LF) body) 0 [].

Definition normalise_trailing_newline (s : str) : str :=
  let s := trim_end_matches (is_char LF) s in
  if is_empty s then s else s ++ [LF].

(** ** Words and flags *)

Definition ends_in_word (s : str) : Prop := s <> [] /\ last_is is_whitespace s = false.

Definition starts_in_word (s : str) : Prop :=
  match s with [] => False | c :: _ => is_whitespace c = false end.

(** What the words of a text spell, gaps included. *)
Definition ungap (ws : list (str * str)) : str := mjoin ((fun gw => gw.1 ++ gw.2) <$> ws).

Lemma ungap_cons g w ws : ungap ((g, w) :: ws) = g ++ w ++ ungap ws.
Proof. unfold ungap. cbn. by rewrite <- app_assoc. Qed.

Lemma ends_in_word_cons c s : ends_in_word (c :: s) -> s <> [] -> ends_in_word s.
Proof. intros [_ H] Hs. split; [done|]. unfold last_is in *. by destruct s. Qed.

Lemma ends_in_word_single c : ends_in_word [c] -> is_whitespace c = false.
Proof. by intros [_ H]. Qed.

Lemma words_nonempty s : ends_in_word s -> words_with_gaps s <> [].
Proof.
  induction s as [|c s IH]; [by intros []|]. intros H. cbn [words_with_gaps].
  destruct (is_whitespace c) eqn:Ec.
  - destruct s as [|d s]; [apply ends_in_word_single in H; congruence|].
    specialize (IH (ends_in_word_cons _ _ H ltac:(done))).
    by destruct (words_with_gaps (d :: s)) as [|[g w] rest].
  - by destruct (words_with_gaps s) as [|[[|] w] rest].
Qed.

Lemma words_start s : starts_in_word s -> exists w rest, words_with_gaps s = ([], w) :: rest.
Proof.
  destruct s as [|c s]; [done|]. cbn [starts_in_word words_with_gaps]. intros ->.
  destruct (words_with_gaps s) as [|[[|d g] w] rest]; eauto.
Qed.

Lemma words_gap c s : is_whitespace c = true ->
  match words_with_gaps (c :: s) with [] => True | (g, _) :: _ => g <> [] end.
Proof. intros Hc. cbn [words_with_gaps]. rewrite Hc. by destruct (words_with_gaps s) as [|[g w] rest]. Qed.

(** White space ends a word. *)
Lemma words_app s c t :
  ends_in_word s -> is_whitespace c = true ->
  words_with_gaps (s ++ c :: t) = words_with_gaps s ++ words_with_gaps (c :: t).
Proof.
  intros Hs Hc. induction s as [|d s IH]; [by destruct Hs|]. destruct s as [|e s].
  - apply ends_in_word_single in Hs. pose proof (words_gap c t Hc) as Hg.
    cbn [app].
    transitivity (([], [d]) :: words_with_gaps (c :: t)); [|cbn [words_with_gaps]; by rewrite Hs].
    remember (c :: t) as ct. cbn [words_with_gaps]. rewrite Hs.
    by destruct (words_with_gaps ct) as [|[[|x g] w] rest].
  - pose proof (ends_in_word_cons _ _ Hs ltac:(done)) as Hs'. specialize (IH Hs').
    pose proof (words_nonempty _ Hs') as Hne. remember (e :: s) as es.
    change ((d :: es) ++ c :: t) with (d :: (es ++ c :: t)).
    remember (es ++ c :: t) as all. cbn [words_with_gaps].
    destruct (words_with_gaps es) as [|[g w] rest]; [done|]. rewrite IH.
    destruct (is_whitespace d); [done|]. by destruct g.
Qed.

Lemma ungap_words s : ends_in_word s -> ungap (words_with_gaps s) = s.
Proof.
  induction s as [|c s IH]; [by intros []|]. intros Hs. destruct s as [|d s].
  - apply ends_in_word_single in Hs. cbn [words_with_gaps]. by rewrite Hs.
  - pose proof (ends_in_word_cons _ _ Hs ltac:(done)) as Hs'. specialize (IH Hs').
    pose proof (words_nonempty _ Hs') as Hne. remember (d :: s) as ds. cbn [words_with_gaps].
    destruct (words_with_gaps ds) as [|[g w] rest]; [done|]. rewrite ungap_cons in IH.
    destruct (is_whitespace c); [|destruct g]; rewrite !ungap_cons; by rewrite <- IH.
Qed.

(** No later word of [s] is a flag. *)
Definition flagless (s : str) : Prop := Forall (fun gw => is_flag gw.2 = false) (tail (words_with_gaps s)).

Lemma flags_loop_keep out fl ws ws' :
  Forall (fun gw => is_flag gw.2 = false) ws ->
  flags_loop false true out fl (ws ++ ws') = flags_loop false true (out ++ ungap ws) fl ws'.
Proof.
  intros H. revert out. induction H as [|[g w] ws Hw _ IH]; intros out; cbn [app].
  - by rewrite app_nil_r.
  - cbn [flags_loop negb andb snd] in *. rewrite Hw, IH, ungap_cons. by rewrite <- !app_assoc.
Qed.

Lemma split_flags_app s ws' :
  starts_in_word s -> ends_in_word s -> flagless s ->
  flags_loop true false [] no_flags (words_with_gaps s ++ ws') = flags_loop false true s no_flags ws'.
Proof.
  intros Hst He Hf. pose proof (ungap_words s He) as Hu. unfold flagless in Hf.
  destruct (words_start s Hst) as (w & rest & E). rewrite E in *. cbn [tail] in Hf.
  cbn [app flags_loop negb andb is_empty]. rewrite flags_loop_keep by done. f_equal.
  by rewrite <- Hu, ungap_cons.
Qed.

Definition flag_text (fl : RuleFlags) : str :=
  (if children fl then SPACE :: CHILDREN_FLAG else [])
  ++ (if override_requested fl then SPACE :: OVERRIDE_FLAG else []).

(** A value without flags of its own gives back the flags written after it. *)
Lemma split_rule_flags_written s fl :
  starts_in_word s -> ends_in_word s -> flagless s -> split_rule_flags (s ++ flag_text fl) = (s, fl).
Proof.
  intros Hst He Hf. unfold split_rule_flags, flag_text. destruct fl as [ch ov]. cbn [children override_requested].
  destruct ch, ov; cbn [app].
  - rewrite words_app by done. by rewrite split_flags_app.
  - rewrite app_nil_r, words_app by done. by rewrite split_flags_app.
  - rewrite words_app by done. by rewrite split_flags_app.
  - rewrite app_nil_r. rewrite <- (app_nil_r (words_with_gaps s)). by rewrite split_flags_app.
Qed.

Lemma words_snoc s c :
  ends_in_word s -> is_whitespace c = false ->
  exists ws g w, words_with_gaps s = ws ++ [(g, w)] /\ words_with_gaps (s ++ [c]) = ws ++ [(g, w ++ [c])].
Proof.
  intros Hs Hc. induction s as [|d s IH]; [by destruct Hs|]. destruct s as [|e s].
  - apply ends_in_word_single in Hs. exists [], [], [d]. cbn [words_with_gaps app]. by rewrite Hs, Hc.
  - destruct (IH (ends_in_word_cons _ _ Hs ltac:(done))) as (ws & g & w & E1 & E2).
    remember (e :: s) as es. change ((d :: es) ++ [c]) with (d :: (es ++ [c])).
    remember (es ++ [c]) as all. cbn [words_with_gaps]. rewrite E1, E2.
    destruct (is_whitespace d).
    + destruct ws as [|[g0 w0] ws]; cbn [app]; [by exists [], (d :: g), w|].
      by exists ((d :: g0, w0) :: ws), g, w.
    + destruct ws as [|[[|x g0] w0] ws]; cbn [app].
      * destruct g; [by exists [], [], (d :: w)|]. by exists [([], [d])], (n :: g), w.
      * by exists (([], d :: w0) :: ws), g, w.
      * by exists (([], [d]) :: (x :: g0, w0) :: ws), g, w.
Qed.

Lemma flag_no_quote w : is_flag (w ++ [PROGRAM_VALUE_QUOTE]) = false.
Proof.
  unfold is_flag. apply orb_false_iff. split; apply not_true_iff_false; rewrite str_eqb_eq; intros E;
    apply (f_equal reverse) in E; rewrite reverse_app in E; vm_compute in E; discriminate.
Qed.

(** Quotes around a value leave it without flags. *)
Lemma flagless_quoted v :
  starts_in_word v -> ends_in_word v -> flagless v ->
  flagless (PROGRAM_VALUE_QUOTE :: v ++ [PROGRAM_VALUE_QUOTE]).
Proof.
  intros Hst He Hf. destruct (words_snoc v PROGRAM_VALUE_QUOTE He) as (ws & g & w & E1 & E2); [done|].
  assert (Hst' : starts_in_word (v ++ [PROGRAM_VALUE_QUOTE])) by by destruct v.
  destruct (words_start _ Hst') as (w1 & rest & E3).
  unfold flagless. cbn [words_with_gaps]. change (is_whitespace PROGRAM_VALUE_QUOTE) with false. cbn iota.
  rewrite E3. cbn [tail]. unfold flagless in Hf. rewrite E1 in Hf. rewrite E2 in E3.
  destruct ws as [|[g0 w0] ws]; cbn [app tail] in *.
  - injection E3 as _ _ <-. constructor.
  - injection E3 as _ _ <-. apply Forall_app in Hf as [Hf _]. apply Forall_app. split; [done|].
    constructor; [apply flag_no_quote|constructor].
Qed.

Lemma words_blank t : forallb is_whitespace t = true -> words_with_gaps t = [].
Proof.
  induction t as [|c t IH]; [done|]. cbn [forallb words_with_gaps]. intros [-> Ht]%andb_true_iff. by rewrite IH.
Qed.

Lemma words_trailing s t : forallb is_whitespace t = true -> words_with_gaps (s ++ t) = words_with_gaps s.
Proof.
  intros Ht. induction s as [|c s IH]; [by apply words_blank|]. cbn [app words_with_gaps]. by rewrite IH.
Qed.

Lemma split_rule_flags_leading c s : is_whitespace c = true -> split_rule_flags (c :: s) = split_rule_flags s.
Proof.
  intros Hc. unfold split_rule_flags. cbn [words_with_gaps]. rewrite Hc.
  by destruct (words_with_gaps s) as [|[g w] rest].
Qed.

(** The flags are read off the words, not off the blanks around them. *)
Lemma split_rule_flags_trim s : split_rule_flags (trim s) = split_rule_flags s.
Proof.
  assert (Hs : forall t, split_rule_flags (trim_start_matches is_whitespace t) = split_rule_flags t).
  { intros t. induction t as [|c t IH]; [done|]. cbn [trim_start_matches].
    destruct (is_whitespace c) eqn:E; [|done]. by rewrite split_rule_flags_leading. }
  unfold trim. rewrite <- (Hs s). set (t := trim_start_matches is_whitespace s).
  destruct (trim_end_matches_blank is_whitespace t) as (b & E & Hb). rewrite E at 2.
  unfold split_rule_flags. by rewrite words_trailing.
Qed.

(** ** Comments *)

Definition hashless (t : str) : Prop := contains_char (is_char HASH) t = false.

(** Nothing, or text that starts with white space. *)
Definition gap_head (t : str) : Prop := match t with [] => True | d :: _ => is_whitespace d = true end.

Lemma find_comment_app b v t :
  find_comment b v = (v, None) -> hashless t -> find_comment b (v ++ t) = (v ++ t, None).
Proof.
  intros Hv Ht. revert b Hv. induction v as [|c v IH]; intros b Hv; cbn [app].
  - clear Hv. revert b. induction t as [|d t IHt]; intros b; [done|].
    unfold hashless in Ht. cbn [contains_char existsb] in Ht. apply orb_false_iff in Ht as [Hd Ht].
    cbn [find_comment]. unfold is_char in Hd. rewrite N.eqb_sym in Hd. rewrite Hd. cbn [andb].
    by rewrite (IHt Ht).
  - cbn [find_comment] in *. destruct ((c =? HASH) && b); [done|].
    destruct (find_comment (is_whitespace c) v) as [x y] eqn:E. injection Hv as -> ->. by rewrite IH.
Qed.

Definition COMMENT_MARK : str := [SPACE; SPACE; HASH].

Lemma find_comment_tail b v c :
  find_comment b v = (v, None) -> find_comment b (v ++ COMMENT_MARK ++ c) = (v ++ [SPACE; SPACE], Some c).
Proof.
  revert b. induction v as [|d v IH]; intros b Hv; [done|]. cbn [app find_comment] in *.
  destruct ((d =? HASH) && b); [done|].
  destruct (find_comment (is_whitespace d) v) as [x y] eqn:E. injection Hv as -> ->. by rewrite IH.
Qed.

Lemma find_comment_head b b' v :
  find_comment true v = (v, None) -> find_comment b v = find_comment b' v.
Proof.
  destruct v as [|c v]; [done|]. cbn [find_comment]. rewrite andb_true_r.
  destruct (c =? HASH); [done|]. by rewrite !andb_false_l.
Qed.

Lemma leading_marks_eq v : v = (leading_marks v).1 ++ (leading_marks v).2.
Proof.
  induction v as [|c v IH]; [done|]. cbn [leading_marks]. destruct (is_mark c); [|done].
  destruct (leading_marks v) as [m r]. cbn in *. congruence.
Qed.

Lemma whitespace_no_mark d : is_whitespace d = true -> is_mark d = false.
Proof.
  intros Hd. apply not_true_iff_false. intros Hm. unfold is_mark in Hm.
  apply orb_true_iff in Hm as [E|E]; apply N.eqb_eq in E; subst d; vm_compute in Hd; discriminate.
Qed.

Lemma leading_marks_app v t :
  gap_head t -> leading_marks (v ++ t) = ((leading_marks v).1, (leading_marks v).2 ++ t).
Proof.
  intros Ht. induction v as [|c v IH]; cbn [app leading_marks].
  - destruct t as [|d t]; [done|]. cbn [leading_marks]. by rewrite (whitespace_no_mark d Ht).
  - destruct (is_mark c); [|done]. rewrite IH. by destruct (leading_marks v).
Qed.

Lemma closing_quote_eq s a b : closing_quote s = Some (a, b) -> s = a ++ b.
Proof.
  revert a b. induction s as [|c s IH]; intros a b; [done|]. cbn [closing_quote].
  destruct (_ && _); [by intros [= <- <-]|].
  destruct (closing_quote s) as [[x y]|]; [|done]. intros [= <- <-]. cbn. f_equal. by apply IH.
Qed.

Lemma closing_quote_app s t a b :
  gap_head t -> closing_quote s = Some (a, b) -> closing_quote (s ++ t) = Some (a, b ++ t).
Proof.
  intros Ht. revert a b. induction s as [|c s IH]; intros a b; [done|]. cbn [app closing_quote].
  destruct (c =? PROGRAM_VALUE_QUOTE); cbn [andb].
  - destruct s as [|d s].
    + intros [= <- <-]. cbn [app]. destruct t as [|e t]; [done|]. by rewrite Ht.
    + cbn [app] in *. destruct (is_whitespace d); [by intros [= <- <-]|].
      destruct (closing_quote (d :: s)) as [[x y]|]; [|done]. intros [= <- <-]. by rewrite (IH x y).
  - destruct (closing_quote s) as [[x y]|]; [|done]. intros [= <- <-]. by rewrite (IH x y).
Qed.

Lemma closing_quote_app_None s t :
  closing_quote s = None -> closing_quote t = None -> closing_quote (s ++ t) = None.
Proof.
  intros Hs Ht. induction s as [|c s IH]; [done|]. cbn [app closing_quote] in *.
  destruct (c =? PROGRAM_VALUE_QUOTE); cbn [andb] in *.
  - destruct s as [|d s]; [done|]. cbn [app] in *. destruct (is_whitespace d); [done|].
    destruct (closing_quote (d :: s)) as [[x y]|]; [done|]. by rewrite IH.
  - destruct (closing_quote s) as [[x y]|]; [done|]. by rewrite IH.
Qed.

(** A quote that opens [v] closes in it, or nothing in [t] closes it. *)
Definition quote_settled (v t : str) : Prop :=
  match (leading_marks v).2 with
  | c :: r => (c =? PROGRAM_VALUE_QUOTE) = true -> is_Some (closing_quote r) \/ closing_quote t = None
  | [] => True
  end.

Lemma quoted_head_app v t :
  gap_head t -> quote_settled v t ->
  quoted_head (v ++ t) = (fun sr => (sr.1, sr.2 ++ t)) <$> quoted_head v.
Proof.
  intros Ht Hq. unfold quoted_head, quote_settled in *. rewrite (leading_marks_app v t Ht).
  destruct (leading_marks v) as [m r]. cbn [fst snd] in *. destruct r as [|c r]; cbn [app].
  - destruct t as [|d t]; [done|]. destruct (d =? PROGRAM_VALUE_QUOTE) eqn:E; [|done].
    apply N.eqb_eq in E. subst d. vm_compute in Ht. discriminate.
  - destruct (c =? PROGRAM_VALUE_QUOTE); [|done].
    destruct (closing_quote r) as [[a b]|] eqn:E.
    + by rewrite (closing_quote_app _ _ _ _ Ht E).
    + rewrite closing_quote_app_None; [done..|]. destruct (Hq eq_refl) as [[x Hx]|Hx]; [congruence|done].
Qed.

(** No part of [v] is a comment. *)
Definition commentless (v : str) : Prop := split_inline_comment v = (v, None).

Lemma quoted_head_eq v sk r : quoted_head v = Some (sk, r) -> v = sk ++ r.
Proof.
  unfold quoted_head. pose proof (leading_marks_eq v) as E. destruct (leading_marks v) as [m w]. cbn [fst snd] in E.
  destruct w as [|c w]; [done|]. destruct (c =? PROGRAM_VALUE_QUOTE); [|done].
  destruct (closing_quote w) as [[a b]|] eqn:Eq; [|done]. intros [= <- <-].
  apply closing_quote_eq in Eq. by rewrite E, Eq, <- app_assoc.
Qed.

Lemma commentless_cases v :
  commentless v <-> match quoted_head v with
                    | Some (_, r) => find_comment false r = (r, None)
                    | None => find_comment true v = (v, None)
                    end.
Proof.
  unfold commentless, split_inline_comment. destruct (quoted_head v) as [[sk r]|] eqn:E; [|done].
  apply quoted_head_eq in E. destruct (find_comment false r) as [x y]. split.
  - intros [= H ->]. rewrite E in H. apply app_inv_head in H. by subst.
  - intros [= -> ->]. by rewrite E.
Qed.

Lemma commentless_app v t :
  commentless v -> gap_head t -> hashless t -> quote_settled v t -> commentless (v ++ t).
Proof.
  rewrite !commentless_cases. intros Hv Ht Hh Hq. rewrite quoted_head_app by done.
  destruct (quoted_head v) as [[sk r]|]; cbn; by apply find_comment_app.
Qed.

(** The comment written after a value is read off it. *)
Lemma split_inline_comment_written v c :
  commentless v -> quote_settled v (COMMENT_MARK ++ c) ->
  split_inline_comment (v ++ COMMENT_MARK ++ c) = (v ++ [SPACE; SPACE], Some c).
Proof.
  rewrite commentless_cases. intros Hv Hq. unfold split_inline_comment. rewrite quoted_head_app by done.
  destruct (quoted_head v) as [[sk r]|] eqn:E; cbn [fmap option_fmap option_map fst snd].
  - apply quoted_head_eq in E. rewrite find_comment_tail by done. rewrite E. by rewrite <- app_assoc.
  - by apply find_comment_tail.
Qed.

Lemma quoted_head_mark m v :
  is_mark m = true -> quoted_head (m :: v) = (fun sr => (m :: sr.1, sr.2)) <$> quoted_head v.
Proof.
  intros Hm. unfold quoted_head. cbn [leading_marks]. rewrite Hm. destruct (leading_marks v) as [ms r].
  destruct r as [|c r]; [done|]. destruct (c =? PROGRAM_VALUE_QUOTE); [|done].
  by destruct (closing_quote r) as [[a b]|].
Qed.

Lemma commentless_mark m v : is_mark m = true -> commentless v -> commentless (m :: v).
Proof.
  intros Hm. rewrite !commentless_cases, quoted_head_mark by done.
  destruct (quoted_head v) as [[sk r]|]; [done|]. cbn. intros Hv.
  assert ((m =? HASH) = false) as ->.
  { apply not_true_iff_false. intros E%N.eqb_eq. subst m. vm_compute in Hm. discriminate. }
  cbn [andb]. rewrite (find_comment_head _ true v Hv), Hv. done.
Qed.

Lemma quote_settled_mark m v t : is_mark m = true -> quote_settled v t -> quote_settled (m :: v) t.
Proof. intros Hm. unfold quote_settled. cbn [leading_marks]. rewrite Hm. by destruct (leading_marks v). Qed.

(** ** Quotes *)

(** No quote inside [v] closes it early. *)
Definition quotable (v : str) : Prop :=
  closing_quote (v ++ [PROGRAM_VALUE_QUOTE]) = Some (v ++ [PROGRAM_VALUE_QUOTE], []).

Definition in_quotes (v : str) : str := PROGRAM_VALUE_QUOTE :: v ++ [PROGRAM_VALUE_QUOTE].

Lemma unquote_in_quotes v : trimmed_str v -> v <> [] -> unquote_program_value (in_quotes v) = Some v.
Proof.
  intros Ht Hv. unfold unquote_program_value, in_quotes. cbn [strip_prefix]. rewrite N.eqb_refl.
  assert (E : strip_suffix [PROGRAM_VALUE_QUOTE] (v ++ [PROGRAM_VALUE_QUOTE]) = Some v)
    by by apply strip_suffix_Some.
  rewrite E, (trim_trimmed v Ht). by destruct v.
Qed.

Lemma quoted_head_in_quotes v : quotable v -> quoted_head (in_quotes v) = Some (in_quotes v, []).
Proof. intros Hq. unfold quoted_head, in_quotes. cbn [leading_marks]. cbn. by rewrite Hq. Qed.

Lemma commentless_in_quotes v : quotable v -> commentless (in_quotes v).
Proof. intros Hq. apply commentless_cases. by rewrite quoted_head_in_quotes. Qed.

Lemma quote_settled_in_quotes v t : quotable v -> quote_settled (in_quotes v) t.
Proof. intros Hq. unfold quote_settled, in_quotes. cbn. intros _. left. rewrite Hq. by eexists. Qed.

(** ** Marks *)

Definition marked (m : char) (v : str) : bool := snd (split_mark m v).

Lemma split_mark_written m v : starts_in_word v -> split_mark m (m :: v) = (v, true).
Proof. destruct v as [|c v]; [done|]. cbn. intros ->. by rewrite N.eqb_refl. Qed.

Lemma split_mark_none m v : marked m v = false -> split_mark m v = (v, false).
Proof.
  unfold marked, split_mark. destruct v as [|c [|d v]]; [done..|]. by destruct (_ && _).
Qed.

Lemma markers_deny v rv :
  starts_in_word v -> (rv = true -> marked VERIFY_PRIMARY_PREFIX v = false) ->
  split_rule_markers (DENY_PREFIX :: v) rv = (v, {| deny := true; verify := false; contradictory := false |}).
Proof.
  intros Hv Hm. unfold split_rule_markers, split_deny. rewrite split_mark_written by done.
  destruct rv; [|done]. unfold split_verify_primary. by rewrite split_mark_none by auto.
Qed.

Lemma markers_verify v :
  starts_in_word v -> starts_with [DENY_PREFIX] v = false ->
  split_rule_markers (VERIFY_PRIMARY_PREFIX :: v) true
  = (v, {| deny := false; verify := true; contradictory := false |}).
Proof.
  intros Hv Hd. unfold split_rule_markers, split_deny.
  rewrite (split_mark_none DENY_PREFIX (VERIFY_PRIMARY_PREFIX :: v)) by by destruct v.
  unfold split_verify_primary. rewrite split_mark_written by done. by rewrite Hd.
Qed.

Lemma markers_none v rv :
  marked DENY_PREFIX v = false -> (rv = true -> marked VERIFY_PRIMARY_PREFIX v = false) ->
  split_rule_markers v rv = (v, {| deny := false; verify := false; contradictory := false |}).
Proof.
  intros Hd Hm. unfold split_rule_markers, split_deny. rewrite split_mark_none by done.
  destruct rv; [|done]. unfold split_verify_primary. by rewrite split_mark_none by auto.
Qed.

Lemma unmarked_in_quotes m v : (m =? PROGRAM_VALUE_QUOTE) = false -> marked m (in_quotes v) = false.
Proof.
  intros Hm. unfold marked, split_mark, in_quotes. destruct (v ++ [PROGRAM_VALUE_QUOTE]); [done|].
  by rewrite N.eqb_sym, Hm.
Qed.

(** ** Fields *)

Definition field_ok (s : str) : Prop := forall c, c ∈ s -> is_forbidden_field_char c = false.

Lemma neutralize_field_ok s : field_ok s -> neutralize_field s = s.
Proof.
  intros H. unfold neutralize_field, first_forbidden_field_char.
  by rewrite (proj2 (find_first_None _ _) H).
Qed.

(** ** Trimming *)

Lemma trim_word s : starts_in_word s -> ends_in_word s -> trim s = s.
Proof.
  intros Hs [_ He]. apply trim_id_ends; [|done]. intros c t ->. exact Hs.
Qed.

Lemma trim_start_word s : starts_in_word s -> trim_start_matches is_whitespace s = s.
Proof. destruct s as [|c s]; [done|]. cbn. by intros ->. Qed.

Lemma trim_word_gap s : starts_in_word s -> ends_in_word s -> trim (s ++ [SPACE; SPACE]) = s.
Proof.
  intros Hs He. rewrite <- (trim_word s Hs He) at 2. unfold trim.
  rewrite (trim_start_word s Hs), (trim_start_word (s ++ _)) by by destruct s.
  unfold trim_end_matches. rewrite reverse_app. done.
Qed.

Lemma trim_gap_word s : starts_in_word s -> ends_in_word s -> trim (SPACE :: s) = s.
Proof.
  intros Hs He. rewrite <- (trim_word s Hs He) at 2. reflexivity.
Qed.

Lemma trimmed_words s : trimmed_str s -> s <> [] -> starts_in_word s /\ ends_in_word s.
Proof. intros [H1 H2] Hs. split; [|done]. destruct s; [done|]. by eapply H1. Qed.

Lemma starts_in_word_app s t : starts_in_word s -> starts_in_word (s ++ t).
Proof. by destruct s. Qed.

Lemma ends_in_word_app s t : ends_in_word t -> ends_in_word (s ++ t).
Proof.
  intros [Hne Hl]. split; [by destruct s|]. unfold last_is in *. rewrite last_app.
  destruct (last t) as [x|] eqn:E; [done|]. by apply last_None in E.
Qed.

Lemma commentless_no_hash c v : commentless (c :: v) -> (c =? HASH) = false.
Proof.
  rewrite commentless_cases. intros H. apply not_true_iff_false. intros E%N.eqb_eq. subst c.
  cbn in H. done.
Qed.

Lemma flagless_mark m v :
  is_whitespace m = false -> starts_in_word v -> flagless v -> flagless (m :: v).
Proof.
  intros Hm Hv. unfold flagless. destruct (words_start v Hv) as (w & rest & E).
  cbn [words_with_gaps]. by rewrite Hm, E.
Qed.
