(* ===== verification/RuleClass.v ===== *)
(** * What kind of rule a value is

    shared/contracts/src/rule_value_class.rs: the class a rule value's spelling
    names, and whether a section of the rules file can hold a value of that
    class. A value out of its section is refused, so the lemmas below show that
    what the program itself writes is never refused. *)

From stdpp Require Import base numbers list.
From S2P Require Import Prelude Str Digits IpAddr IpBlock IpText AppPath AppIdentity RuleLine.

Open Scope N_scope.

Inductive RuleValueClass : Set :=
| CAddress | CSubnet | CRange | CZone | CHost | CHostWithSubdomains | CSiteInEveryZone
| CApplication | CAmbiguous | CUnrecognized.

#[export] Instance RuleValueClass_eq_dec : EqDecision RuleValueClass.
Proof. solve_decision. Defined.

Definition class_as_str (c : RuleValueClass) : str :=
  match c with
  | CAddress => u "address" | CSubnet => u "subnet" | CRange => u "range" | CZone => u "zone"
  | CHost => u "host" | CHostWithSubdomains => u "host-with-subdomains"
  | CSiteInEveryZone => u "site-in-every-zone" | CApplication => u "application"
  | CAmbiguous => u "ambiguous" | CUnrecognized => u "unrecognized"
  end.

Definition class_rule_type (c : RuleValueClass) : option ParsedRuleType :=
  match c with
  | CAddress => Some PExactIp
  | CSubnet => Some PSubnet
  | CRange => Some PIpRange
  | CZone => Some PZone
  | CHost | CHostWithSubdomains | CSiteInEveryZone => Some PDomain
  | CApplication => Some PApplication
  | CAmbiguous | CUnrecognized => None
  end.

(** ** Shapes *)

Definition is_ascii_hexdigit (c : char) : bool :=
  is_ascii_digit c || ((65 <=? c) && (c <=? 70)) || ((97 <=? c) && (c <=? 102)).

Definition is_address_shaped (s : str) : bool :=
  if is_empty s then false
  else if contains_char (is_char DOT) s && existsb is_ascii_digit s
          && forallb (fun b => is_ascii_digit b || (b =? DOT)) s then true
  else
    let head := default s (head (split (is_char PERCENT) s)) in
    negb (is_empty head)
    && (2 <=? length (List.filter (is_char COLON) head))%nat
    && forallb (fun b => is_ascii_hexdigit b || (b =? COLON) || (b =? DOT)) head.

(** The last four characters: ASCII bytes never occur inside another
    character's encoding, so the bytes of the source are these. *)
Definition last_four (v : str) : str := drop (length v - 4) v.

Definition exe_tail (v : str) : bool := eq_ignore_ascii_case (last_four v) (u ".exe").

Definition names_a_program (v : str) : bool :=
  let drive := match v with
               | letter :: c :: d :: _ =>
                   is_ascii_alphabetic letter && (c =? COLON) && ((d =? SLASH) || (d =? BACKSLASH))
               | _ => false
               end in
  exe_tail v || drive
  || contains_char (is_char BACKSLASH) v
  || starts_with (u "/") v
  || starts_with (u "./") v
  || starts_with (u "../") v
  || starts_with (u "~/") v.

Definition is_name_char (c : char) : bool :=
  if char_is_ascii c then is_ascii_alphanumeric c || (c =? DASH) || (c =? UNDERSCORE)
  else negb (((128 <=? c) && (c <=? 160)) || (c =? 5760) || ((8192 <=? c) && (c <=? 8207))
             || ((8232 <=? c) && (c <=? 8239)) || ((8287 <=? c) && (c <=? 8303)) || (c =? 12288)
             || (c =? 65279)).

Definition label_ok (label : str) : bool :=
  negb (is_empty label || starts_with [DASH] label || ends_with [DASH] label
        || negb (forallb is_name_char label)).

Fixpoint labels_loop (labels : list str) (count : nat) (last : str) : option (nat * str) :=
  match labels with
  | [] => Some (count, last)
  | label :: labels' => if label_ok label then labels_loop labels' (S count) label else None
  end.

Definition host_labels (v : str) : option (nat * str) :=
  let v := default v (strip_suffix [DOT] v) in
  if is_empty v then None else labels_loop (split (is_char DOT) v) 0 [].

Definition tld_shaped (label : str) : bool :=
  eq_ignore_ascii_case (take 4 label) (u "xn--")
  || forallb (fun c => is_ascii_alphabetic c || negb (char_is_ascii c)) label.

Definition site_class (base : str) : RuleValueClass :=
  match host_labels base with Some _ => CSiteInEveryZone | None => CUnrecognized end.

Definition pattern_class (v : str) : RuleValueClass :=
  if forallb (is_char STAR) v then CUnrecognized
  else match strip_prefix (u "*.") v with
       | Some rest =>
           match strip_suffix (u ".*") rest with
           | Some base => site_class base
           | None =>
               match host_labels rest with
               | Some (count, last) =>
                   if tld_shaped last then
                     if (count =? 1)%nat then CZone else CHostWithSubdomains
                   else CUnrecognized
               | None => CUnrecognized
               end
           end
       | None =>
           match strip_suffix (u ".*") v with
           | Some base => site_class base
           | None => if contains_char (is_char DOT) v then CUnrecognized else CApplication
           end
       end.

Definition name_class (v : str) : RuleValueClass :=
  match strip_prefix [DOT] v with
  | Some rest =>
      match host_labels rest with
      | Some (count, last) =>
          if (count =? 1)%nat && tld_shaped last && negb (ends_with [DOT] rest) then CZone
          else CUnrecognized
      | None => CUnrecognized
      end
  | None =>
      match host_labels v with
      | None => CUnrecognized
      | Some (count, last) =>
          if (count =? 1)%nat then CAmbiguous
          else if (count =? 4)%nat
                  && forallb (forallb is_ascii_digit) (take 3 (split (is_char DOT) v)) then CAddress
          else if tld_shaped last then CHost
          else CUnrecognized
      end
  end.

Definition subnet_shaped (v : str) : bool :=
  match split_once SLASH v with
  | Some (head, tail) =>
      let tail := trim tail in
      is_address_shaped (trim head) && negb (is_empty tail) && forallb is_ascii_digit tail
  | None => false
  end.

Definition range_shaped (v : str) : bool :=
  match split_once DASH v with
  | Some (first, last) => is_address_shaped (trim first) && is_address_shaped (trim last)
  | None => false
  end.

Definition classify_rule_value (value : str) : RuleValueClass :=
  let v := trim value in
  if is_empty v then CUnrecognized
  else if is_address_shaped v then CAddress
  else if subnet_shaped v then CSubnet
  else if range_shaped v then CRange
  else if names_a_program v then CApplication
  else if contains_char (is_char STAR) v then pattern_class v
  else name_class v.

(** ** Sections *)

Definition section_holds (section : ParsedRuleType) (class : RuleValueClass) (naming : ExecutableNaming)
  : bool :=
  match section with
  | PExactIp | PSubnet | PIpRange =>
      match class_rule_type class with Some kind => bool_decide (kind = section) | None => true end
  | PZone => match class with
             | CAddress | CSubnet | CRange | CSiteInEveryZone | CApplication => false
             | _ => true
             end
  | PDomain => match class with CAddress | CSubnet | CRange | CApplication => false | _ => true end
  | PApplication =>
      match naming with
      | WindowsExe => match class with
                      | CAddress | CSubnet | CRange | CZone | CHost | CHostWithSubdomains
                      | CSiteInEveryZone => false
                      | _ => true
                      end
      | AsNamed => match class with CAddress | CSubnet | CRange | CHostWithSubdomains => false | _ => true end
      end
  end.

Definition misplaced_rule_value (section : ParsedRuleType) (value : str) (naming : ExecutableNaming)
  : option ParsedRuleType :=
  let class := classify_rule_value value in
  if section_holds section class naming then None else class_rule_type class.

(** A refused value always names another section. *)
Lemma misplaced_names_a_section section value naming :
  section_holds section (classify_rule_value value) naming = false ->
  exists kind, misplaced_rule_value section value naming = Some kind /\ kind <> section.
Proof.
  unfold misplaced_rule_value. intros H. rewrite H. revert H.
  destruct section, naming, (classify_rule_value value); simpl; try discriminate;
    intros _; eexists; (split; [reflexivity|discriminate]).
Qed.

(** ** What the program writes stands in its section *)

Lemma ip_char_shape c :
  ip_char c = true -> is_ascii_hexdigit c || (c =? COLON) || (c =? DOT) = true.
Proof.
  unfold ip_char, is_ascii_hexdigit. destruct (is_ascii_digit c), ((97 <=? c) && (c <=? 102)), (c =? DOT), (c =? COLON);
    rewrite ?orb_true_r; done.
Qed.

Definition colons (s : str) : nat := length (List.filter (is_char COLON) s).

Lemma colons_app s t : colons (s ++ t) = (colons s + colons t)%nat.
Proof. unfold colons. by rewrite List.filter_app, length_app. Qed.

Lemma groups_text_colons gs index :
  (length gs <= colons (groups_text index gs) + (if (index =? 0)%nat then 1 else 0))%nat.
Proof.
  revert index. induction gs as [|g gs IH]; intros index; [simpl; lia|]. cbn [groups_text length].
  rewrite !colons_app. specialize (IH (S index)). destruct (index =? 0)%nat eqn:E; simpl in *; lia.
Qed.

Lemma fmt_ipv6_colons v : (2 <= colons (fmt_ipv6 v))%nat.
Proof.
  unfold fmt_ipv6. destruct (to_ipv4_mapped v); [rewrite colons_app; change (colons (u "::ffff:")) with 3%nat; lia|].
  destruct (longest_zeros _ _ _ _) as [start len]. destruct (1 <? len)%nat.
  - rewrite !colons_app. change (colons (u "::")) with 2%nat. lia.
  - rewrite <- groups_text_join. pose proof (groups_text_colons (IpAddr.segments v) 0) as H.
    change (length (IpAddr.segments v)) with 8%nat in H. cbn [Nat.eqb] in H. lia.
Qed.

Lemma fmt_ipv4_shape v :
  contains_char (is_char DOT) (fmt_ipv4 v) = true /\ existsb is_ascii_digit (fmt_ipv4 v) = true
  /\ forallb (fun b => is_ascii_digit b || (b =? DOT)) (fmt_ipv4 v) = true.
Proof.
  assert (D : forall n, forallb (fun b => is_ascii_digit b || (b =? DOT)) (fmt_dec n) = true).
  { intros n. apply forallb_forall. intros c Hc. pose proof (fmt_dec_all_digits n) as H.
    rewrite forallb_forall in H. by rewrite (H c Hc). }
  unfold fmt_ipv4, contains_char. split_and!.
  - rewrite existsb_app. cbn [existsb]. change (is_char DOT DOT) with true. by rewrite orb_true_r.
  - destruct (fmt_dec_cons (octet v 3)) as (c & s & -> & Hc). cbn [app existsb]. by rewrite Hc.
  - repeat (rewrite forallb_app; cbn [forallb]). by rewrite !D.
Qed.

Lemma fmt_ip_address_shaped a : is_address_shaped (fmt_ip a) = true.
Proof.
  unfold is_address_shaped. destruct (is_empty (fmt_ip a)) eqn:E.
  { apply is_empty_true in E. destruct a as [v|v]; cbn [fmt_ip] in E.
    - destruct (fmt_ipv4_shape v) as [H _]. by rewrite E in H.
    - pose proof (fmt_ipv6_colons v) as H. rewrite E in H. unfold colons in H. simpl in H. lia. }
  destruct a as [v|v]; cbn [fmt_ip] in *.
  - destruct (fmt_ipv4_shape v) as (-> & -> & ->). done.
  - match goal with |- (if ?b then _ else _) = _ => destruct b; [done|] end.
    rewrite split_none by (apply (fmt_ip_no_char _ (V6 v)); done). cbn [head default id].
    fold (colons (fmt_ipv6 v)). rewrite E, (proj2 (Nat.leb_le _ _) (fmt_ipv6_colons v)). cbn [negb andb]. apply forallb_forall.
    intros c Hc. apply ip_char_shape. pose proof (fmt_ip_chars (V6 v)) as H. rewrite forallb_forall in H. by apply H.
Qed.

(** A text with a character no address has. *)
Lemma not_address_shaped c s t :
  c <> PERCENT -> contains_char (is_char PERCENT) s = false ->
  is_ascii_hexdigit c || (c =? COLON) || (c =? DOT) = false -> is_address_shaped (s ++ c :: t) = false.
Proof.
  intros Hc Hs Hn. unfold is_address_shaped.
  replace (is_empty (s ++ c :: t)) with false by (by destruct s).
  assert (forallb (fun b => is_ascii_digit b || (b =? DOT)) (s ++ c :: t) = false) as ->.
  { rewrite forallb_app. simpl. unfold is_ascii_hexdigit in Hn.
    destruct (is_ascii_digit c), (c =? DOT); rewrite ?orb_true_r in Hn; simpl in *; try done. by rewrite andb_false_r. }
  rewrite andb_false_r. destruct (split_cons (is_char PERCENT) t) as (p & ps & Ep).
  assert (split (is_char PERCENT) (s ++ c :: t) = (s ++ c :: p) :: ps) as ->.
  { clear Hn. induction s as [|d s IH]; cbn [app split].
    - rewrite Ep. change (is_char PERCENT c) with (PERCENT =? c). by rewrite (proj2 (N.eqb_neq _ _) (not_eq_sym Hc)).
    - apply orb_false_iff in Hs as [-> Hs]. by rewrite IH. }
  cbn [head default id]. rewrite forallb_app. cbn [forallb]. rewrite Hn. cbn [andb].
  by rewrite !andb_false_r.
Qed.

Lemma fmt_ip_no_percent a : contains_char (is_char PERCENT) (fmt_ip a) = false.
Proof. by apply fmt_ip_no_char. Qed.

Lemma classify_fmt_ip a : classify_rule_value (fmt_ip a) = CAddress.
Proof.
  unfold classify_rule_value. rewrite fmt_ip_trim, fmt_ip_address_shaped.
  pose proof (fmt_ip_address_shaped a) as H. unfold is_address_shaped in H. by destruct (is_empty (fmt_ip a)).
Qed.

Lemma classify_fmt_block b : classify_rule_value (IpBlock_fmt b) = CSubnet.
Proof.
  unfold classify_rule_value, IpBlock_fmt. rewrite trim_block_text.
  replace (is_empty (fmt_ip (network b) ++ SLASH :: fmt_dec (Z.to_N (prefix_len b)))) with false
    by (by destruct (fmt_ip (network b))).
  rewrite not_address_shaped by (done || apply fmt_ip_no_percent). unfold subnet_shaped.
  rewrite (proj2 (split_once_Some SLASH _ (fmt_ip (network b)) (fmt_dec (Z.to_N (prefix_len b)))))
    by (split; [done|by apply fmt_ip_no_char]).
  rewrite fmt_ip_trim, fmt_ip_address_shaped, fmt_dec_trim, fmt_dec_all_digits.
  by destruct (fmt_dec_cons (Z.to_N (prefix_len b))) as (c & s & -> & _).
Qed.

Lemma classify_fmt_range r : classify_rule_value (IpRange_fmt r) = CRange.
Proof.
  unfold classify_rule_value, IpRange_fmt. rewrite trim_joined by done.
  replace (is_empty (fmt_ip (range_first r) ++ DASH :: fmt_ip (range_last r))) with false
    by (by destruct (fmt_ip (range_first r))).
  rewrite not_address_shaped by (done || apply fmt_ip_no_percent). unfold subnet_shaped, range_shaped.
  assert (split_once SLASH (fmt_ip (range_first r) ++ DASH :: fmt_ip (range_last r)) = None) as ->.
  { apply split_once_None. rewrite contains_char_app. cbn [contains_char existsb].
    rewrite (fmt_ip_no_char SLASH (range_first r)) by done. apply (fmt_ip_no_char SLASH (range_last r)). done. }
  rewrite (proj2 (split_once_Some DASH _ (fmt_ip (range_first r)) (fmt_ip (range_last r))))
    by (split; [done|by apply fmt_ip_no_char]).
  by rewrite !fmt_ip_trim, !fmt_ip_address_shaped.
Qed.
