(* ===== verification/RulesFile.v ===== *)
(** * The rules file

    core/domain/src/rules_file/: sections and entries ([model.rs]), what a parse
    reports ([version.rs]), the service's reader ([parse.rs]) and the writer
    ([write.rs]). *)

From stdpp Require Import base numbers list.
From S2P Require Import Prelude Str Digits IpAddr IpBlock AppPath AppIdentity AutoRule RuleLine.

Open Scope nat_scope.

(** ** Sections *)

Inductive RulesFileSection : Set :=
| SZones | SDomains | SIp | SCidr | SRanges | SWindows | SLinux | SMacOS | SAuto.

#[export] Instance RulesFileSection_eq_dec : EqDecision RulesFileSection.
Proof. solve_decision. Defined.

Inductive HostPlatform : Set := HWindows | HLinux | HMacOS.

#[export] Instance HostPlatform_eq_dec : EqDecision HostPlatform.
Proof. solve_decision. Defined.

Definition executable_naming (p : HostPlatform) : ExecutableNaming :=
  match p with HWindows => WindowsExe | HLinux | HMacOS => AsNamed end.

Definition path_style (p : HostPlatform) : PathStyle :=
  match p with HWindows => Windows | HLinux => Linux | HMacOS => MacOS end.

Definition app_section (p : HostPlatform) : RulesFileSection :=
  match p with HWindows => SWindows | HLinux => SLinux | HMacOS => SMacOS end.

Definition ALL_SECTIONS : list RulesFileSection :=
  [SZones; SDomains; SIp; SCidr; SRanges; SWindows; SLinux; SMacOS; SAuto].

Definition section_title (s : RulesFileSection) : str :=
  match s with
  | SZones => u "Zones"
  | SDomains => u "Domains"
  | SIp => u "IP"
  | SCidr => u "CIDR"
  | SRanges => u "Ranges"
  | SWindows => u "Windows"
  | SLinux => u "Linux"
  | SMacOS => u "MacOS"
  | SAuto => AUTO_SECTION_NAME
  end.

Definition is_active_on (s : RulesFileSection) (p : HostPlatform) : bool :=
  match s with
  | SZones | SDomains | SIp | SCidr | SRanges | SAuto => true
  | SWindows => match p with HWindows => true | _ => false end
  | SLinux => match p with HLinux => true | _ => false end
  | SMacOS => match p with HMacOS => true | _ => false end
  end.

Definition is_platform_specific (s : RulesFileSection) : bool :=
  match s with SWindows | SLinux | SMacOS => true | _ => false end.

Definition app_platform (s : RulesFileSection) : option HostPlatform :=
  match s with
  | SWindows => Some HWindows
  | SLinux => Some HLinux
  | SMacOS => Some HMacOS
  | SZones | SDomains | SIp | SCidr | SRanges | SAuto => None
  end.

Definition section_rule_type (s : RulesFileSection) : ParsedRuleType :=
  match s with
  | SZones => PZone
  | SDomains | SAuto => PDomain
  | SIp => PExactIp
  | SCidr => PSubnet
  | SRanges => PIpRange
  | SWindows | SLinux | SMacOS => PApplication
  end.

Definition from_name (name : str) : option RulesFileSection :=
  let n := to_ascii_lowercase name in
  if str_eqb n (u "zones") then Some SZones
  else if str_eqb n (u "domains") then Some SDomains
  else if str_eqb n (u "ip") then Some SIp
  else if str_eqb n (u "cidr") then Some SCidr
  else if str_eqb n (u "ranges") then Some SRanges
  else if str_eqb n (u "windows") then Some SWindows
  else if str_eqb n (u "linux") then Some SLinux
  else if str_eqb n (u "macos") then Some SMacOS
  else if str_eqb n (u "auto") then Some SAuto
  else None.

Definition HEADER_PREFIX : str := u "--- ".

Definition parse_header (line : str) : option RulesFileSection :=
  name ← strip_prefix HEADER_PREFIX line; from_name (trim name).

Definition is_app_authored (s : RulesFileSection) : bool := match s with SAuto => true | _ => false end.

Definition carries_provenance (s : RulesFileSection) : bool :=
  match s with SAuto | SWindows | SLinux | SMacOS => true | _ => false end.

Definition takes_verify_prefix (s : RulesFileSection) : bool :=
  match s with SDomains | SAuto | SIp => true | _ => false end.

(** shared/contracts/src/preset_parser/sections.rs *)
Definition parse_section_header (line : str) : option str :=
  match strip_prefix HEADER_PREFIX line with
  | None => None
  | Some stripped =>
      if match stripped with c :: _ => is_whitespace c | [] => false end then None
      else let name := trim_end_matches is_whitespace stripped in
           if is_empty name then None else Some name
  end.

(** ** Entries *)

Record RulesFileEntry : Set := mkEntry {
  match_value : str;
  inline_comment : option str;
  e_enabled : bool;
  blocked : bool;
  verify_primary : bool;
  e_override_requested : bool;
  children_requested : bool;
  e_origin : option RuleOrigin;
}.

#[export] Instance RulesFileEntry_eq_dec : EqDecision RulesFileEntry.
Proof. solve_decision. Defined.

Record SectionContent : Set := mkSection { section : RulesFileSection; entries : list RulesFileEntry }.

#[export] Instance SectionContent_eq_dec : EqDecision SectionContent.
Proof. solve_decision. Defined.

Definition enabled_count (c : SectionContent) : nat := length (List.filter e_enabled (entries c)).

Definition disabled_count (c : SectionContent) : nat :=
  length (List.filter (fun e => negb (e_enabled e)) (entries c)).

Record RulesFileParsed : Set := mkParsed { sections : list SectionContent }.

Definition entries_for (p : RulesFileParsed) (s : RulesFileSection) : list RulesFileEntry :=
  match find_first (fun c => bool_decide (section c = s)) (sections p) with
  | Some c => entries c
  | None => []
  end.

Definition enabled_count_for (p : RulesFileParsed) (s : RulesFileSection) : nat :=
  length (List.filter e_enabled (entries_for p s)).

Definition active_sections_for (p : RulesFileParsed) (platform : HostPlatform) : list SectionContent :=
  List.filter (fun c => is_active_on (section c) platform) (sections p).

Definition total_active_enabled_count (p : RulesFileParsed) (platform : HostPlatform) : nat :=
  sum_list_with enabled_count (active_sections_for p platform).

Definition has_all_free_sections (p : RulesFileParsed) : bool :=
  forallb (fun s => existsb (fun c => bool_decide (section c = s)) (sections p)) ALL_SECTIONS.

Record UnknownSection : Set := mkUnknown { u_name : str; u_entries : list RulesFileEntry }.

Record PassthroughSection : Set := mkPassthrough { pt_name : str; pt_body : str }.

(** ** Versions and what a parse reports *)

Definition CURRENT_RULES_FILE_FORMAT_VERSION : N := 11.

Record PresetMetadata : Set := mkMeta {
  m_name : option str;
  m_description : option str;
  m_author : option str;
  m_preset_version : option str;
}.

Definition empty_meta : PresetMetadata := mkMeta None None None None.

Inductive ParseWarning : Set :=
| WUnknownSection (name : str) (entry_count : nat)
| UnknownFormatVersion (found supported : N)
| AutoRuleMissingProvenance (value : str)
| AutoRuleIncompleteProvenance (value reason_slug : str)
| VerifyPrimaryWithBlock (value : str).

Record ParseOutcome : Set := mkOutcome {
  parsed : RulesFileParsed;
  unknown_sections : list UnknownSection;
  warnings : list ParseWarning;
  file_format_version : option N;
  preset_metadata : option PresetMetadata;
}.

(** ** Reading *)

Definition EM_DASH : char := 8212.
Definition EN_DASH : char := 8211.
Definition BOM : char := 65279.

Definition HEADER_DASHES : list str := [[EM_DASH]; [EN_DASH]; [DASH]].

(** [str::parse::<u32>]: digits with an optional sign [+]. *)
Definition parse_u32 (s : str) : option N := parse_uint 4294967295 s.

Fixpoint after_dash (dashes : list str) (rest infix : str) : option N :=
  match dashes with
  | [] => None
  | dash :: dashes' =>
      match t ← strip_prefix dash rest; strip_prefix infix t with
      | Some number => parse_u32 (trim number)
      | None => after_dash dashes' rest infix
      end
  end.

Definition parse_dashed_header (line prefix infix : str) : option N :=
  rest ← strip_prefix prefix (trim line); after_dash HEADER_DASHES rest infix.

Definition parse_version_header (line : str) : option N :=
  parse_dashed_header line (u "# NetRuleRouter rules file ") (u " version ").

Definition parse_preset_header (line : str) : option N :=
  parse_dashed_header line (u "# NetRuleRouter preset ") (u " version ").

Definition parse_metadata_kv (line : str) : option (str * str) :=
  rest ← strip_prefix [HASH] line;
  '(key, value) ← split_once COLON (trim_start_matches is_whitespace rest);
  let key := trim key in
  if is_empty key || has_whitespace key
     || negb (forallb (fun c => is_ascii_alphanumeric c || (c =? UNDERSCORE)%N) key)
  then None
  else Some (key, trim value).

(** [str::lines]: pieces ending in a line feed, with a carriage return before
    it taken off; a last piece without one is a line when it is not empty. *)
Fixpoint lines_of (pieces : list str) : list str :=
  match pieces with
  | [] => []
  | [piece] => if is_empty piece then [] else [piece]
  | piece :: pieces' => default piece (strip_suffix [CR] piece) :: lines_of pieces'
  end.

Definition lines (s : str) : list str := lines_of (split (is_char LF) s).

Definition domain_split_inline_comment (s : str) : str * option str :=
  let '(value, comment) := split_inline_comment s in
  let comment := match trim <$> comment with
                 | Some c => if is_empty c then None else Some c
                 | None => None
                 end in
  (trim value, comment).

Definition take_rule_markers (value : str) (verify_values program_values : bool)
  : str * RuleMarkers * bool :=
  let '(rest, markers) := split_rule_markers value verify_values in
  let quoted := if program_values then unquote_program_value rest else None in
  (default rest quoted, markers, match quoted with Some _ => true | None => false end).

(** Which slot is current: a position in the known or the unknown sections. *)
Inductive Slot : Set := KnownSlot (idx : nat) | UnknownSlot (idx : nat).

(** The variables of the loop over the lines. *)
Record Reader : Set := mkReader {
  known : list SectionContent;
  unknown : list UnknownSection;
  r_warnings : list ParseWarning;
  version : option N;
  is_preset_file : bool;
  preset_meta : option PresetMetadata;
  current : option Slot;
}.

(** The section of the current slot; [None] for an unknown one. *)
Definition slot_section (r : Reader) (slot : Slot) : option RulesFileSection :=
  match slot with
  | KnownSlot idx => section <$> known r !! idx
  | UnknownSlot _ => None
  end.

(** The entry a rule line spells in a section ([None] for an unknown one), and
    its marks. *)
Definition read_entry (sec : option RulesFileSection) (trimmed : str)
  : option (RulesFileEntry * RuleMarkers) :=
  let verify_values := match sec with Some s => takes_verify_prefix s | None => false end in
  let program_values := match sec with
                        | Some s => match app_platform s with Some _ => true | None => false end
                        | None => false
                        end in
  let entry enabled value comment (flags : RuleFlags) (markers : RuleMarkers) :=
    ({| match_value := value; inline_comment := comment; e_enabled := enabled;
        blocked := deny markers; verify_primary := verify markers;
        e_override_requested := override_requested flags && program_values;
        children_requested := children flags && program_values; e_origin := None |}, markers) in
  match strip_prefix [HASH] trimmed with
  | Some rest =>
      let rest := trim_start_matches is_whitespace rest in
      if is_empty rest || starts_with [HASH] rest then None
      else
        let '(value, comment) := domain_split_inline_comment rest in
        let '(value, flags) := split_rule_flags (trim value) in
        let '(value, markers, quoted) := take_rule_markers value verify_values program_values in
        let is_rule := if quoted : bool then true
                       else match sec with
                            | Some s => is_disabled_rule_value (section_rule_type s) value
                            | None => negb (has_whitespace value)
                            end in
        if is_empty value || negb is_rule then None
        else Some (entry false value comment flags markers)
  | None =>
      let '(value, comment) := domain_split_inline_comment trimmed in
      let '(value, flags) := split_rule_flags (trim value) in
      if is_empty value then None
      else
        let '(value, markers, _) := take_rule_markers value verify_values program_values in
        if is_empty value then None
        else Some (entry true value comment flags markers)
  end.

Definition set_origin (e : RulesFileEntry) (p : ProvenanceComment) : RulesFileEntry :=
  {| match_value := match_value e; inline_comment := note p; e_enabled := e_enabled e;
     blocked := blocked e; verify_primary := verify_primary e;
     e_override_requested := e_override_requested e; children_requested := children_requested e;
     e_origin := Some (origin p) |}.

Definition take_provenance (e : RulesFileEntry) : RulesFileEntry * list ParseWarning :=
  match inline_comment e ≫= parse_provenance_comment with
  | Some p =>
      (set_origin e p,
       if complete p then []
       else [AutoRuleIncompleteProvenance (match_value e) (as_slug (reason (origin p)))])
  | None => (e, [AutoRuleMissingProvenance (match_value e)])
  end.

Definition take_provenance_if_any (e : RulesFileEntry) : RulesFileEntry :=
  match inline_comment e ≫= parse_provenance_comment with
  | Some p => set_origin e p
  | None => e
  end.

(** The entry with the provenance its section reads off it. *)
Definition with_provenance (sec : option RulesFileSection) (e : RulesFileEntry)
  : RulesFileEntry * list ParseWarning :=
  match sec with
  | Some s => if is_app_authored s then take_provenance e
              else if carries_provenance s then (take_provenance_if_any e, [])
              else (e, [])
  | None => (e, [])
  end.

Definition push_known (idx : nat) (e : RulesFileEntry) (l : list SectionContent) : list SectionContent :=
  alter (fun c => {| section := section c; entries := entries c ++ [e] |}) idx l.

Definition push_unknown (idx : nat) (e : RulesFileEntry) (l : list UnknownSection) : list UnknownSection :=
  alter (fun c => {| u_name := u_name c; u_entries := u_entries c ++ [e] |}) idx l.

(** The position of the first element [p] accepts. *)
Fixpoint position {A} (p : A -> bool) (l : list A) : option nat :=
  match l with
  | [] => None
  | x :: l' => if p x then Some 0 else S <$> position p l'
  end.

Definition open_section (r : Reader) (name : str) : Reader :=
  match from_name name with
  | Some s =>
      match position (fun c => bool_decide (section c = s)) (known r) with
      | Some idx =>
          mkReader (known r) (unknown r) (r_warnings r) (version r) (is_preset_file r) (preset_meta r)
            (Some (KnownSlot idx))
      | None =>
          mkReader (known r ++ [{| section := s; entries := [] |}]) (unknown r) (r_warnings r) (version r)
            (is_preset_file r) (preset_meta r) (Some (KnownSlot (length (known r))))
      end
  | None =>
      let '(idx, unk) := match position (fun c => str_eqb (u_name c) name) (unknown r) with
                         | Some idx => (idx, unknown r)
                         | None => (length (unknown r),
                                    unknown r ++ [{| u_name := name; u_entries := [] |}])
                         end in
      let warn := match unk !! idx with
                  | Some c => match u_entries c with [] => [WUnknownSection name 0] | _ => [] end
                  | None => []
                  end in
      mkReader (known r) unk (r_warnings r ++ warn) (version r) (is_preset_file r) (preset_meta r)
        (Some (UnknownSlot idx))
  end.

Definition set_meta (m : PresetMetadata) (key value : str) : PresetMetadata :=
  if str_eqb key (u "name")
  then mkMeta (Some value) (m_description m) (m_author m) (m_preset_version m)
  else if str_eqb key (u "description")
  then mkMeta (m_name m) (Some value) (m_author m) (m_preset_version m)
  else if str_eqb key (u "author")
  then mkMeta (m_name m) (m_description m) (Some value) (m_preset_version m)
  else if str_eqb key (u "preset_version")
  then mkMeta (m_name m) (m_description m) (m_author m) (Some value)
  else m.

Definition read_version (r : Reader) (v : N) (preset : bool) : Reader :=
  mkReader (known r) (unknown r)
    (r_warnings r ++ if (CURRENT_RULES_FILE_FORMAT_VERSION <? v)%N
                     then [UnknownFormatVersion v CURRENT_RULES_FILE_FORMAT_VERSION] else [])
    (Some v) (is_preset_file r || preset) (preset_meta r) (current r).

Definition read_meta (r : Reader) (trimmed : str) : Reader :=
  match parse_metadata_kv trimmed with
  | Some (key, value) =>
      mkReader (known r) (unknown r) (r_warnings r) (version r) (is_preset_file r)
        (Some (set_meta (default empty_meta (preset_meta r)) key value)) (current r)
  | None => r
  end.

Definition read_preamble (r : Reader) (trimmed : str) : Reader :=
  match version r with
  | None =>
      match parse_version_header trimmed with
      | Some v => read_version r v false
      | None =>
          match parse_preset_header trimmed with
          | Some v => read_version r v true
          | None => read_meta r trimmed
          end
      end
  | Some _ => read_meta r trimmed
  end.

Definition read_rule (r : Reader) (slot : Slot) (trimmed : str) : Reader :=
  let sec := slot_section r slot in
  match read_entry sec trimmed with
  | None => r
  | Some (e, markers) =>
      let warn1 := if contradictory markers then [VerifyPrimaryWithBlock (match_value e)] else [] in
      let '(e, warn2) := with_provenance sec e in
      mkReader (match slot with KnownSlot idx => push_known idx e (known r) | UnknownSlot _ => known r end)
        (match slot with UnknownSlot idx => push_unknown idx e (unknown r) | KnownSlot _ => unknown r end)
        (r_warnings r ++ warn1 ++ warn2) (version r) (is_preset_file r) (preset_meta r) (current r)
  end.

(** One turn of the loop. *)
Definition read_line (r : Reader) (line : str) : Reader :=
  let trimmed := trim line in
  if is_empty trimmed || is_syntax_hint_line trimmed then r
  else match parse_section_header line with
       | Some name => open_section r name
       | None =>
           match current r with
           | None => read_preamble r trimmed
           | Some slot => read_rule r slot trimmed
           end
       end.

Definition count_warning (unk : list UnknownSection) (w : ParseWarning) : ParseWarning :=
  match w with
  | WUnknownSection name n =>
      match find_first (fun c => str_eqb (u_name c) name) unk with
      | Some c => WUnknownSection name (length (u_entries c))
      | None => w
      end
  | _ => w
  end.

Definition new_reader : Reader := mkReader [] [] [] None false None None.

Definition finish (r : Reader) : ParseOutcome :=
  {| parsed := {| sections := known r |};
     unknown_sections := unknown r;
     warnings := count_warning (unknown r) <$> r_warnings r;
     file_format_version := version r;
     preset_metadata := if is_preset_file r then Some (default empty_meta (preset_meta r))
                        else preset_meta r |}.

Definition parse_rules_file (input : str) : ParseOutcome :=
  let input := default input (strip_prefix [BOM] input) in
  finish (fold_left read_line (lines input) new_reader).

(** ** Writing *)

Definition write_entry_line (e : RulesFileEntry) (emit_origin program_section : bool) : str :=
  let value := neutralize_field (match_value e) in
  let provenance := if emit_origin then to_provenance_comment <$> e_origin e else None in
  (if e_enabled e then [] else [HASH; SPACE])
  ++ (if blocked e then [DENY_PREFIX] else if verify_primary e then [VERIFY_PRIMARY_PREFIX] else [])
  ++ (if program_section then program_value_on_line value (e_enabled e) else value)
  ++ (if program_section && children_requested e then SPACE :: CHILDREN_FLAG else [])
  ++ (if program_section && e_override_requested e then SPACE :: OVERRIDE_FLAG else [])
  ++ match provenance, inline_comment e with
     | None, None => []
     | _, _ =>
         [SPACE; SPACE; HASH; SPACE]
         ++ match provenance with
            | Some tokens => tokens ++ match inline_comment e with Some _ => [SPACE] | None => [] end
            | None => []
            end
         ++ match inline_comment e with Some comment => neutralize_field comment | None => [] end
     end
  ++ [LF].

Definition write_meta_line (key : str) (value : option str) : str :=
  match value with
  | Some value => u "# " ++ key ++ u ": " ++ neutralize_field value ++ [LF]
  | None => []
  end.

Definition write_metadata (m : PresetMetadata) : str :=
  u "# NetRuleRouter preset " ++ [EM_DASH] ++ u " version "
  ++ fmt_dec CURRENT_RULES_FILE_FORMAT_VERSION ++ [LF]
  ++ write_meta_line (u "name") (m_name m)
  ++ write_meta_line (u "description") (m_description m)
  ++ write_meta_line (u "author") (m_author m)
  ++ write_meta_line (u "preset_version") (m_preset_version m)
  ++ [LF].

(** The entries collected for a section: of several contents the last. *)
Definition by_section (p : RulesFileParsed) (s : RulesFileSection) : option (list RulesFileEntry) :=
  entries <$> find_first (fun c => bool_decide (section c = s)) (reverse (sections p)).

(** The blocks of the file, one per section, joined by blank lines. *)
Definition known_block (p : RulesFileParsed) (s : RulesFileSection) : option str :=
  es ← by_section p s;
  Some (HEADER_PREFIX ++ section_title s ++ [LF]
        ++ mjoin ((fun e => write_entry_line e (carries_provenance s)
                              match app_platform s with Some _ => true | None => false end) <$> es)).

Definition unknown_block (c : UnknownSection) : str :=
  HEADER_PREFIX ++ neutralize_field (u_name c) ++ [LF]
  ++ mjoin ((fun e => write_entry_line e false false) <$> u_entries c).

Definition passthrough_block (c : PassthroughSection) : str :=
  HEADER_PREFIX ++ neutralize_field (pt_name c) ++ [LF] ++ pt_body c
  ++ (if negb (is_empty (pt_body c)) && negb (ends_with [LF] (pt_body c)) then [LF] else []).

Definition write_rules_file_with_passthrough (p : RulesFileParsed) (unk : list UnknownSection)
  (passthrough : list PassthroughSection) (metadata : option PresetMetadata) : str :=
  match metadata with Some m => write_metadata m | None => [] end
  ++ str_join [LF] (omap (known_block p) ALL_SECTIONS ++ (unknown_block <$> unk)
                    ++ (passthrough_block <$> passthrough)).

Definition write_rules_file (p : RulesFileParsed) (unk : list UnknownSection)
  (metadata : option PresetMetadata) : str :=
  write_rules_file_with_passthrough p unk [] metadata.

(** ** What a line gives back *)

Definition is_program (sec : option RulesFileSection) : bool :=
  match sec with Some s => match app_platform s with Some _ => true | None => false end | None => false end.

Definition reads_verify (sec : option RulesFileSection) : bool :=
  match sec with Some s => takes_verify_prefix s | None => false end.

Definition emits_origin (sec : option RulesFileSection) : bool :=
  match sec with Some s => carries_provenance s | None => false end.

(** The bare spelling of a program value would not read back. *)
Definition misread (v : str) (enabled : bool) : bool :=
  match unquote_program_value v with Some _ => true | None => false end
  || match snd (split_inline_comment v) with Some _ => true | None => false end
  || (negb enabled && negb (is_disabled_rule_value PApplication v)).

Definition quoted_entry (sec : option RulesFileSection) (e : RulesFileEntry) : bool :=
  is_program sec && misread (match_value e) (e_enabled e).

(** The comment text after the mark. *)
Definition comment_text (sec : option RulesFileSection) (e : RulesFileEntry) : option str :=
  match (if emits_origin sec then to_provenance_comment <$> e_origin e else None) with
  | Some tokens => Some (tokens ++ note_part (inline_comment e))
  | None => inline_comment e
  end.

Definition comment_part (c : option str) : str :=
  match c with Some c => COMMENT_MARK ++ SPACE :: c | None => [] end.

Definition mark_part (e : RulesFileEntry) : str :=
  if blocked e then [DENY_PREFIX] else if verify_primary e then [VERIFY_PRIMARY_PREFIX] else [].

Definition value_part (sec : option RulesFileSection) (e : RulesFileEntry) : str :=
  if quoted_entry sec e then in_quotes (match_value e) else match_value e.

Definition entry_flags (e : RulesFileEntry) : RuleFlags :=
  {| children := children_requested e; override_requested := e_override_requested e |}.

Definition entry_body (sec : option RulesFileSection) (e : RulesFileEntry) : str :=
  (mark_part e ++ value_part sec e) ++ flag_text (entry_flags e) ++ comment_part (comment_text sec e).

Definition entry_text (sec : option RulesFileSection) (e : RulesFileEntry) : str :=
  (if e_enabled e then [] else [HASH; SPACE]) ++ entry_body sec e.

(** A value that carries no marks of its own where they are read. *)
Definition marks_ok (sec : option RulesFileSection) (e : RulesFileEntry) : Prop :=
  if blocked e then reads_verify sec = true -> marked VERIFY_PRIMARY_PREFIX (match_value e) = false
  else if verify_primary e then starts_with [DENY_PREFIX] (match_value e) = false
  else marked DENY_PREFIX (match_value e) = false
       /\ (reads_verify sec = true -> marked VERIFY_PRIMARY_PREFIX (match_value e) = false).

(** A value that opens no section when it opens a line. *)
Definition no_header (v : str) : Prop := starts_with HEADER_PREFIX v = false /\ v <> u "---".

(** The provenance of an entry can be read off its comment, and a comment
    without one is not taken for it. *)
Definition provenance_ok (sec : option RulesFileSection) (e : RulesFileEntry) : Prop :=
  match e_origin e with
  | Some o => emits_origin sec = true /\ reason_wf (reason o) /\ field_wf (anchor o) /\ field_wf (added o)
              /\ forall t, inline_comment e = Some t -> note_wf t
  | None => emits_origin sec = true -> inline_comment e ≫= parse_provenance_comment = None
  end.

(** The entries a section of the file can hold; [None] for an unknown one. *)
Record entry_ok (sec : option RulesFileSection) (e : RulesFileEntry) : Prop := {
  eo_value : match_value e <> [] /\ trimmed_str (match_value e) /\ field_ok (match_value e);
  eo_flagless : flagless (match_value e);
  eo_comment : forall c, inline_comment e = Some c -> c <> [] /\ trimmed_str c /\ field_ok c;
  eo_quoted : quoted_entry sec e = true -> quotable (match_value e);
  eo_bare : quoted_entry sec e = false ->
    commentless (match_value e)
    /\ quote_settled (match_value e) (comment_part (comment_text sec e))
    /\ (e_enabled e = true -> mark_part e = [] -> no_header (match_value e));
  eo_marks : quoted_entry sec e = false -> marks_ok sec e;
  eo_verify : verify_primary e = true -> reads_verify sec = true;
  eo_program : is_program sec = false -> children_requested e = false /\ e_override_requested e = false;
  eo_disabled : e_enabled e = false -> is_program sec = false ->
    match sec with
    | Some s => is_disabled_rule_value (section_rule_type s) (match_value e) = true
    | None => has_whitespace (match_value e) = false
    end;
  eo_one_mark : blocked e = true -> verify_primary e = false;
  eo_provenance : provenance_ok sec e;
}.

Lemma program_value_text v enabled :
  starts_in_word v -> ends_in_word v -> flagless v ->
  program_value_on_line v enabled = if misread v enabled then in_quotes v else v.
Proof.
  intros Hs He Hf. unfold program_value_on_line.
  pose proof (split_rule_flags_written v no_flags Hs He Hf) as E. cbn in E. rewrite app_nil_r in E.
  rewrite E. fold (misread v enabled). destruct v as [|c v]; [done|]. cbn [is_empty orb].
  destruct (misread (c :: v) enabled); [|done]. unfold stored_rule_value. cbn. by rewrite !app_nil_r.
Qed.

Lemma entry_value_words sec e :
  entry_ok sec e -> starts_in_word (match_value e) /\ ends_in_word (match_value e).
Proof. intros H. destruct (eo_value _ _ H) as (? & ? & _). by apply trimmed_words. Qed.

(** The writer's line is the text above and a line feed. *)
Lemma write_entry_text sec e :
  entry_ok sec e -> write_entry_line e (emits_origin sec) (is_program sec) = entry_text sec e ++ [LF].
Proof.
  intros He. destruct (entry_value_words sec e He) as [Hs Hw].
  pose proof (eo_value _ _ He) as (_ & _ & Hv). pose proof (eo_comment _ _ He) as Hc.
  unfold write_entry_line, entry_text, entry_body, mark_part, value_part, quoted_entry, flag_text, comment_text.
  rewrite (neutralize_field_ok _ Hv). cbn [entry_flags children override_requested].
  assert (Hcom : match inline_comment e with Some comment => neutralize_field comment | None => [] end
                 = default [] (inline_comment e)).
  { destruct (inline_comment e) as [c|]; [|done]. cbn. apply neutralize_field_ok. by apply Hc. }
  rewrite Hcom, <- !app_assoc. f_equal. f_equal. destruct (is_program sec) eqn:Ep; cbn [andb].
  - rewrite program_value_text by (done || apply (eo_flagless _ _ He)). f_equal. f_equal. f_equal.
    destruct (if emits_origin sec then _ else _) as [tokens|], (inline_comment e) as [c|]; cbn; rewrite ?app_nil_r; try done.
    all: by rewrite <- ?app_assoc.
  - destruct (eo_program _ _ He Ep) as [-> ->]. cbn [app]. f_equal.
    destruct (if emits_origin sec then _ else _) as [tokens|], (inline_comment e) as [c|]; cbn; rewrite ?app_nil_r; try done.
    all: by rewrite <- ?app_assoc.
Qed.

Lemma mark_part_mark e c t : mark_part e = c :: t -> is_mark c = true /\ t = [].
Proof. unfold mark_part. destruct (blocked e); [|destruct (verify_primary e)]; by intros [= <- <-]. Qed.

(** The marked value of an entry reads as a value, whatever follows it. *)
Lemma marked_value_ok sec e :
  entry_ok sec e ->
  let mv := mark_part e ++ value_part sec e in
  starts_in_word mv /\ ends_in_word mv /\ commentless mv /\ flagless mv
  /\ quote_settled mv (comment_part (comment_text sec e)).
Proof.
  intros He. destruct (entry_value_words sec e He) as [Hs Hw]. cbn zeta.
  assert (Hv : starts_in_word (value_part sec e) /\ ends_in_word (value_part sec e)
               /\ commentless (value_part sec e) /\ flagless (value_part sec e)
               /\ quote_settled (value_part sec e) (comment_part (comment_text sec e))).
  { unfold value_part. destruct (quoted_entry sec e) eqn:Eq.
    - pose proof (eo_quoted _ _ He Eq). split_and!; [done| |by apply commentless_in_quotes| |by apply quote_settled_in_quotes].
      + apply (ends_in_word_app (PROGRAM_VALUE_QUOTE :: match_value e)). done.
      + apply flagless_quoted; [done..|apply (eo_flagless _ _ He)].
    - destruct (eo_bare _ _ He Eq) as (? & ? & _). split_and!; [done..|apply (eo_flagless _ _ He)|done]. }
  destruct Hv as (H1 & H2 & H3 & H4 & H5).
  destruct (mark_part e) as [|c t] eqn:E; [done|].
  destruct (mark_part_mark e c t E) as [Hc ->]. cbn [app].
  assert (Hcw : is_whitespace c = false) by (apply not_true_iff_false; intros X; apply whitespace_no_mark in X; congruence).
  split_and!; [done|by apply (ends_in_word_app [c])|by apply commentless_mark|by apply flagless_mark|by apply quote_settled_mark].
Qed.

Lemma flag_text_gap fl t : gap_head t -> gap_head (flag_text fl ++ t).
Proof. intros Ht. destruct fl as [[] []]; done. Qed.

Lemma flag_text_hashless fl : hashless (flag_text fl).
Proof. destruct fl as [[] []]; done. Qed.

Lemma flag_text_closing fl : closing_quote (flag_text fl) = None.
Proof. destruct fl as [[] []]; done. Qed.

Lemma quote_settled_flags v fl t :
  gap_head t -> quote_settled v t -> quote_settled v (flag_text fl) /\ quote_settled (v ++ flag_text fl) t.
Proof.
  intros Ht Hq. assert (Hg : gap_head (flag_text fl)) by (destruct fl as [[] []]; done). split.
  - unfold quote_settled in *. destruct (leading_marks v).2; [done|]. intros _. right. apply flag_text_closing.
  - unfold quote_settled in *. rewrite leading_marks_app by done. cbn [snd].
    destruct (leading_marks v).2 as [|c r]; cbn [app].
    + destruct (flag_text fl) as [|d f]; [done|]. intros E%N.eqb_eq. subst d. vm_compute in Hg. discriminate.
    + intros E. destruct (Hq E) as [[[a b] Hx]|Hx]; [left|by right].
      rewrite (closing_quote_app _ _ _ _ Hg Hx). by eexists.
Qed.

Definition clean_comment (c : str) : Prop := starts_in_word c /\ ends_in_word c.

(** A marked value, its flags and its comment, read apart. *)
Lemma domain_split_written mv fl c :
  starts_in_word mv -> ends_in_word mv -> commentless mv -> quote_settled mv (comment_part c) ->
  (forall t, c = Some t -> clean_comment t) ->
  domain_split_inline_comment (mv ++ flag_text fl ++ comment_part c) = (mv ++ flag_text fl, c).
Proof.
  intros Hs He Hc Hq Ht. unfold domain_split_inline_comment.
  assert (Hg : gap_head (comment_part c)) by by destruct c.
  destruct (quote_settled_flags mv fl _ Hg Hq) as [Hq1 Hq2].
  assert (Hgf : gap_head (flag_text fl)) by (destruct fl as [[] []]; done).
  pose proof (commentless_app mv (flag_text fl) Hc Hgf (flag_text_hashless fl) Hq1) as Hcf.
  assert (Hsf : starts_in_word (mv ++ flag_text fl)) by by apply starts_in_word_app.
  assert (Hef : ends_in_word (mv ++ flag_text fl)).
  { destruct (decide (flag_text fl = [])) as [->|Hf]; [by rewrite app_nil_r|].
    apply ends_in_word_app. split; [done|]. by destruct fl as [[] []]. }
  destruct c as [t|]; cbn [comment_part] in *.
  - rewrite app_assoc, split_inline_comment_written by done. cbn [fmap option_fmap option_map].
    destruct (Ht t eq_refl) as [Hts Hte]. rewrite trim_gap_word, trim_word_gap by done. by destruct t.
  - rewrite app_nil_r, Hcf. cbn. by rewrite trim_word.
Qed.

Definition entry_markers (e : RulesFileEntry) : RuleMarkers :=
  {| deny := blocked e; verify := verify_primary e; contradictory := false |}.

Lemma markers_written sec e :
  entry_ok sec e ->
  split_rule_markers (mark_part e ++ value_part sec e) (reads_verify sec) = (value_part sec e, entry_markers e).
Proof.
  intros He. destruct (entry_value_words sec e He) as [Hs _].
  pose proof (eo_marks _ _ He) as Hm. pose proof (eo_verify _ _ He) as Hv. pose proof (eo_one_mark _ _ He) as Ho.
  unfold mark_part, entry_markers, value_part, marks_ok in *.
  destruct (blocked e); [rewrite (Ho eq_refl)|destruct (verify_primary e); [rewrite (Hv eq_refl)|]];
    destruct (quoted_entry sec e); cbn [app]; try specialize (Hm eq_refl).
  - apply markers_deny; [done|]. intros _. by apply unmarked_in_quotes.
  - by apply markers_deny.
  - by apply markers_verify.
  - by apply markers_verify.
  - apply markers_none; [|intros _]; by apply unmarked_in_quotes.
  - destruct Hm. by apply markers_none.
Qed.

Lemma unquote_written sec e :
  entry_ok sec e ->
  (if is_program sec then unquote_program_value (value_part sec e) else None)
  = if quoted_entry sec e then Some (match_value e) else None.
Proof.
  intros He. destruct (eo_value _ _ He) as (Hne & Ht & _). unfold value_part, quoted_entry, misread.
  destruct (is_program sec); [|done]. cbn [andb].
  destruct (unquote_program_value (match_value e)) eqn:E; cbn [orb]; [by apply unquote_in_quotes|].
  destruct (_ || _); [by apply unquote_in_quotes|done].
Qed.

(** The text of a disabled rule is taken for one. *)
Lemma disabled_written sec e :
  entry_ok sec e -> e_enabled e = false ->
  (if quoted_entry sec e then true
   else match sec with
        | Some s => is_disabled_rule_value (section_rule_type s) (match_value e)
        | None => negb (has_whitespace (match_value e))
        end) = true.
Proof.
  intros He Hd. pose proof (eo_disabled _ _ He Hd) as H. unfold quoted_entry, misread. rewrite Hd.
  destruct (is_program sec) eqn:Ep; cbn [andb negb].
  - destruct sec as [s|]; [|done]. destruct (is_disabled_rule_value PApplication (match_value e)) eqn:E; cbn [negb].
    + rewrite orb_false_r. destruct (_ || _); [done|]. by destruct s.
    + by rewrite orb_true_r.
  - specialize (H eq_refl). destruct sec; [done|]. by rewrite H.
Qed.

(** The entry as a line spells it: the provenance still in the comment. *)
Definition on_the_line (sec : option RulesFileSection) (e : RulesFileEntry) : RulesFileEntry :=
  {| match_value := match_value e; inline_comment := comment_text sec e; e_enabled := e_enabled e;
     blocked := blocked e; verify_primary := verify_primary e;
     e_override_requested := e_override_requested e; children_requested := children_requested e;
     e_origin := None |}.

Lemma comment_text_clean sec e t :
  entry_ok sec e -> comment_text sec e = Some t -> clean_comment t.
Proof.
  intros He. unfold comment_text, clean_comment.
  pose proof (eo_comment _ _ He) as Hc. pose proof (eo_provenance _ _ He) as Hp. unfold provenance_ok in Hp.
  destruct (e_origin e) as [o|].
  - destruct Hp as (-> & Hr & Ha & Hd & Hn). cbn. intros [= <-]. apply trimmed_words.
    + apply provenance_trimmed; [done..|]. intros t Ht. destruct (Hc t Ht); naive_solver.
    + unfold to_provenance_comment. by rewrite <- app_assoc.
  - intros E. assert (inline_comment e = Some t) as Ht by by destruct (emits_origin sec).
    destruct (Hc t Ht) as (? & ? & _). by apply trimmed_words.
Qed.

Lemma entry_body_split sec e :
  entry_ok sec e ->
  domain_split_inline_comment (entry_body sec e)
  = ((mark_part e ++ value_part sec e) ++ flag_text (entry_flags e), comment_text sec e)
  /\ trim ((mark_part e ++ value_part sec e) ++ flag_text (entry_flags e))
     = (mark_part e ++ value_part sec e) ++ flag_text (entry_flags e)
  /\ split_rule_flags ((mark_part e ++ value_part sec e) ++ flag_text (entry_flags e))
     = (mark_part e ++ value_part sec e, entry_flags e).
Proof.
  intros He. destruct (marked_value_ok sec e He) as (H1 & H2 & H3 & H4 & H5).
  pose proof (domain_split_written _ (entry_flags e) _ H1 H2 H3 H5
                (fun t => comment_text_clean sec e t He)) as E.
  split_and!; [done| |by apply split_rule_flags_written].
  apply trim_word; [by apply starts_in_word_app|].
  destruct (decide (flag_text (entry_flags e) = [])) as [->|Hf]; [by rewrite app_nil_r|].
  apply ends_in_word_app. split; [done|]. by destruct (entry_flags e) as [[] []].
Qed.

Lemma entry_body_start sec e :
  entry_ok sec e -> exists c t, entry_body sec e = c :: t /\ is_whitespace c = false /\ (c =? HASH)%N = false.
Proof.
  intros He. destruct (marked_value_ok sec e He) as (H1 & _ & H3 & _). unfold entry_body.
  destruct (mark_part e ++ value_part sec e) as [|c t]; [done|]. exists c.
  eexists. split_and!; [done..|by eapply commentless_no_hash].
Qed.

(** Reading a written line. *)
Lemma read_entry_text sec e :
  entry_ok sec e -> read_entry sec (entry_text sec e) = Some (on_the_line sec e, entry_markers e).
Proof.
  intros He. destruct (entry_body_split sec e He) as (E1 & E2 & E3).
  destruct (entry_body_start sec e He) as (c & t & Ec & Hc & Hh).
  pose proof (markers_written sec e He) as Em. pose proof (unquote_written sec e He) as Eu.
  pose proof (disabled_written sec e He) as Ed. destruct (eo_value _ _ He) as (Hne & _).
  assert (Hfl : forall b, b = is_program sec -> children_requested e && b = children_requested e
                          /\ e_override_requested e && b = e_override_requested e).
  { intros b ->. destruct (is_program sec) eqn:Ep; [by rewrite !andb_true_r|].
    by destruct (eo_program _ _ He Ep) as [-> ->]. }
  destruct (Hfl _ eq_refl) as [Hch Hov]. clear Hfl.
  unfold read_entry, entry_text, take_rule_markers.
  change (match sec with Some s => takes_verify_prefix s | None => false end) with (reads_verify sec).
  change (match sec with Some s => match app_platform s with Some _ => true | None => false end | None => false end)
    with (is_program sec).
  assert (Hmv : is_empty (mark_part e ++ value_part sec e) = false).
  { unfold value_part. by destruct (mark_part e), (quoted_entry sec e), (match_value e). }
  assert (Hq : default (value_part sec e) (if quoted_entry sec e then Some (match_value e) else None) = match_value e).
  { unfold value_part. by destruct (quoted_entry sec e). }
  assert (Hv : is_empty (match_value e) = false) by by destruct (match_value e).
  destruct (e_enabled e) eqn:En; cbn [app].
  - assert (strip_prefix [HASH] (entry_body sec e) = None) as ->.
    { rewrite Ec. cbn [strip_prefix]. by rewrite N.eqb_sym, Hh. }
    rewrite E1, E2, E3, Hmv, Em, Eu, Hq, Hv. unfold on_the_line. rewrite En. cbn [entry_flags entry_markers children override_requested deny verify].
    by rewrite Hch, Hov.
  - assert (strip_prefix [HASH] (HASH :: SPACE :: entry_body sec e) = Some (SPACE :: entry_body sec e)) as -> by done.
    assert (trim_start_matches is_whitespace (SPACE :: entry_body sec e) = entry_body sec e) as ->.
    { rewrite Ec. cbn. by rewrite Hc. }
    assert (is_empty (entry_body sec e) || starts_with [HASH] (entry_body sec e) = false) as ->.
    { rewrite Ec. unfold starts_with. cbn [is_empty strip_prefix]. by rewrite N.eqb_sym, Hh. }
    rewrite E1, E2, E3, Em, Eu, Hq, Hv. specialize (Ed eq_refl).
    assert (forall b : bool, match (if b then Some (match_value e) else None) with Some _ => true | None => false end = b) as ->
      by by intros [].
    rewrite Ed. cbn [orb negb]. unfold on_the_line. rewrite En.
    cbn [entry_flags entry_markers children override_requested deny verify]. by rewrite Hch, Hov.
Qed.

Lemma provenance_written sec e :
  entry_ok sec e -> fst (with_provenance sec (on_the_line sec e)) = e.
Proof.
  intros He. pose proof (eo_provenance _ _ He) as Hp. unfold provenance_ok in Hp.
  destruct e as [v c en bl ve ov ch o]. cbn [e_origin inline_comment] in Hp.
  unfold with_provenance, on_the_line, comment_text. cbn [e_origin inline_comment match_value e_enabled blocked
    verify_primary e_override_requested children_requested].
  destruct o as [o|].
  - destruct Hp as (Hem & Hr & Ha & Hd & Hn). pose proof (provenance_reads o c Hr Ha Hd Hn) as E.
    unfold emits_origin in Hem |- *. destruct sec as [s|]; [|done]. rewrite Hem.
    destruct (is_app_authored s); unfold take_provenance, take_provenance_if_any;
      cbn [fmap option_fmap option_map inline_comment mbind option_bind]; by rewrite E.
  - destruct sec as [s|]; [|done]. cbn [emits_origin] in *.
    assert (is_app_authored s = true -> carries_provenance s = true) as Hs by by destruct s.
    destruct (carries_provenance s), (is_app_authored s); try (specialize (Hs eq_refl); discriminate);
      unfold take_provenance, take_provenance_if_any; cbn [inline_comment fmap option_fmap option_map] in *;
      try rewrite (Hp eq_refl); done.
Qed.

(** ** Lines *)

(** A text one line of a file can carry. *)
Definition line_ok (l : str) : Prop := contains_char (is_char LF) l = false /\ ends_with [CR] l = false.

Definition unlines (ls : list str) : str := mjoin ((fun l => l ++ [LF]) <$> ls).

Lemma lines_of_cons piece pieces :
  pieces <> [] -> lines_of (piece :: pieces) = default piece (strip_suffix [CR] piece) :: lines_of pieces.
Proof. by destruct pieces. Qed.

Lemma unlines_cons l ls : unlines (l :: ls) = l ++ LF :: unlines ls.
Proof. unfold unlines. cbn. by rewrite <- app_assoc. Qed.

Lemma lines_unlines ls : Forall line_ok ls -> lines (unlines ls) = ls.
Proof.
  unfold lines. induction 1 as [|l ls [Hl Hc] _ IH]; [done|].
  rewrite unlines_cons, split_app by done. rewrite split_none by done. cbn [app].
  rewrite lines_of_cons by apply split_not_nil. rewrite IH. f_equal.
  unfold ends_with in Hc. by destruct (strip_suffix [CR] l).
Qed.

(** Blocks of lines with a blank line between them. *)
Fixpoint join_lines (blocks : list (list str)) : list str :=
  match blocks with
  | [] => []
  | [b] => b
  | b :: blocks' => b ++ [] :: join_lines blocks'
  end.

Lemma unlines_app a b : unlines (a ++ b) = unlines a ++ unlines b.
Proof. unfold unlines. by rewrite fmap_app, join_app. Qed.

Lemma join_unlines blocks : str_join [LF] (unlines <$> blocks) = unlines (join_lines blocks).
Proof.
  induction blocks as [|b blocks IH]; [done|]. destruct blocks as [|b' blocks]; [done|].
  change (unlines <$> b :: b' :: blocks) with (unlines b :: (unlines <$> b' :: blocks)).
  rewrite str_join_cons by done. rewrite IH. cbn [join_lines]. by rewrite unlines_app.
Qed.

Lemma ends_in_word_line l : ends_in_word l -> contains_char (is_char LF) l = false -> line_ok l.
Proof.
  intros [_ Hl] Hc. split; [done|]. apply not_true_iff_false. rewrite ends_with_true. intros [r ->].
  unfold last_is in Hl. rewrite last_snoc in Hl. done.
Qed.

Lemma field_ok_no_lf s : field_ok s -> contains_char (is_char LF) s = false.
Proof.
  intros H. apply contains_char_false. intros c Hc. apply H in Hc.
  apply not_true_iff_false. intros E%N.eqb_eq. subst c. vm_compute in Hc. discriminate.
Qed.

Lemma no_whitespace_no_lf s : has_whitespace s = false -> contains_char (is_char LF) s = false.
Proof.
  unfold has_whitespace. rewrite !contains_char_false. intros H c Hc. apply H in Hc.
  apply not_true_iff_false. intros E%N.eqb_eq. subst c. vm_compute in Hc. discriminate.
Qed.

Lemma provenance_no_lf o :
  reason_wf (reason o) -> field_wf (anchor o) -> field_wf (added o) ->
  contains_char (is_char LF) (to_provenance_comment o) = false.
Proof.
  intros Hr Ha Hd. rewrite provenance_parts by done. destruct Hr as [[_ Hr] _].
  assert (Hf : forall p s, contains_char (is_char LF) p = false -> field_wf s ->
                           contains_char (is_char LF) (field_part p s) = false).
  { intros p s Hp [->|[_ Hs]]; [done|]. unfold field_part. destruct (is_empty s); [done|].
    change (SPACE :: p ++ s) with ([SPACE] ++ p ++ s). rewrite !contains_char_app, Hp.
    by rewrite (no_whitespace_no_lf s). }
  rewrite !contains_char_app, !Hf, (no_whitespace_no_lf (as_slug _)) by done. done.
Qed.

Lemma entry_text_no_lf sec e : entry_ok sec e -> contains_char (is_char LF) (entry_text sec e) = false.
Proof.
  intros He. destruct (eo_value _ _ He) as (_ & _ & Hv%field_ok_no_lf).
  assert (Hvp : contains_char (is_char LF) (value_part sec e) = false).
  { unfold value_part, in_quotes. destruct (quoted_entry sec e); [|done].
    change (?q :: match_value e ++ ?r) with ([q] ++ match_value e ++ r). by rewrite !contains_char_app, Hv. }
  assert (Hic : forall t, inline_comment e = Some t -> contains_char (is_char LF) t = false).
  { intros t Ht. destruct (eo_comment _ _ He t Ht) as (_ & _ & H). by apply field_ok_no_lf. }
  assert (Hc : contains_char (is_char LF) (comment_part (comment_text sec e)) = false).
  { pose proof (eo_provenance _ _ He) as Hp. unfold provenance_ok, comment_text in *.
    assert (Hn : contains_char (is_char LF) (note_part (inline_comment e)) = false).
    { destruct (inline_comment e) as [t|]; [|done]. cbn [note_part].
      change (SPACE :: t) with ([SPACE] ++ t). rewrite contains_char_app. by rewrite (Hic t eq_refl). }
    assert (Hcp : forall t, contains_char (is_char LF) t = false -> contains_char (is_char LF) (comment_part (Some t)) = false).
    { intros t Ht. cbn [comment_part]. change (SPACE :: t) with ([SPACE] ++ t). by rewrite !contains_char_app, Ht. }
    destruct (e_origin e) as [o|].
    - destruct Hp as (-> & Hr & Ha & Hd & _). cbn [fmap option_fmap option_map]. apply Hcp.
      by rewrite contains_char_app, Hn, provenance_no_lf.
    - assert ((if emits_origin sec then to_provenance_comment <$> None else None) = None) as ->
        by by destruct (emits_origin sec).
      destruct (inline_comment e) as [t|]; [|done]. by apply Hcp, Hic. }
  unfold entry_text, entry_body. rewrite !contains_char_app, Hvp, Hc.
  unfold mark_part. destruct (e_enabled e), (blocked e), (verify_primary e), (children_requested e) eqn:?, (e_override_requested e) eqn:?;
    unfold entry_flags; by rewrite Heqb, Heqb0.
Qed.

(** ** The loop over written lines *)

Lemma no_header_app v t : v <> [] -> no_header v -> gap_head t -> strip_prefix HEADER_PREFIX (v ++ t) = None.
Proof.
  intros Hv [Hs Hd] Ht. unfold starts_with in Hs.
  assert (Hw : match t with [] => True | w :: _ => (DASH =? w)%N = false end).
  { destruct t as [|w t]; [done|]. destruct (N.eqb_spec DASH w) as [<-|]; [|done]. vm_compute in Ht. discriminate. }
  change HEADER_PREFIX with [DASH; DASH; DASH; SPACE] in *.
  destruct v as [|a v]; [done|]. cbn [app strip_prefix] in *. destruct (N.eqb_spec DASH a) as [<-|]; [|done].
  destruct v as [|b v]; [destruct t; cbn [app strip_prefix]; by rewrite ?Hw|]. cbn [app strip_prefix] in *. destruct (N.eqb_spec DASH b) as [<-|]; [|done].
  destruct v as [|c v]; [destruct t; cbn [app strip_prefix]; by rewrite ?Hw|]. cbn [app strip_prefix] in *. destruct (N.eqb_spec DASH c) as [<-|]; [|done].
  destruct v as [|d v]; [done|]. cbn [app strip_prefix] in *. by destruct (N.eqb_spec SPACE d).
Qed.

Lemma entry_text_ends sec e : entry_ok sec e -> ends_in_word (entry_text sec e).
Proof.
  intros He. apply ends_in_word_app. destruct (marked_value_ok sec e He) as (_ & H2 & _). unfold entry_body.
  destruct (comment_text sec e) as [t|] eqn:Et; cbn [comment_part].
  - destruct (comment_text_clean sec e t He Et) as [_ Ht]. apply ends_in_word_app, ends_in_word_app.
    by apply (ends_in_word_app (COMMENT_MARK ++ [SPACE])).
  - rewrite app_nil_r. destruct (decide (flag_text (entry_flags e) = [])) as [->|Hf]; [by rewrite app_nil_r|].
    apply ends_in_word_app. split; [done|]. by destruct (entry_flags e) as [[] []].
Qed.

Lemma entry_text_line sec e : entry_ok sec e -> line_ok (entry_text sec e).
Proof. intros He. apply ends_in_word_line; [by apply entry_text_ends|by apply entry_text_no_lf]. Qed.

Lemma entry_text_header sec e : entry_ok sec e -> parse_section_header (entry_text sec e) = None.
Proof.
  intros He. unfold parse_section_header, entry_text. destruct (e_enabled e) eqn:En; [|done]. cbn [app].
  assert (strip_prefix HEADER_PREFIX (entry_body sec e) = None) as ->; [|done]. unfold entry_body, value_part.
  destruct (mark_part e) as [|c t] eqn:Em; cbn [app].
  - destruct (quoted_entry sec e) eqn:Eq; [done|]. destruct (eo_bare _ _ He Eq) as (_ & _ & Hh).
    apply no_header_app; [apply (eo_value _ _ He)|by apply Hh|].
    apply flag_text_gap. by destruct (comment_text sec e).
  - unfold mark_part in Em. destruct (blocked e); [|destruct (verify_primary e)]; by simplify_eq.
Qed.

Lemma read_line_entry r slot sec e :
  current r = Some slot -> slot_section r slot = sec -> entry_ok sec e ->
  read_line r (entry_text sec e) = read_rule r slot (entry_text sec e).
Proof.
  intros Hc Hs He. destruct (entry_body_start sec e He) as (c & t & Ec & Hw & Hh).
  assert (Hst : starts_in_word (entry_text sec e)).
  { unfold entry_text. rewrite Ec. by destruct (e_enabled e). }
  unfold read_line. rewrite trim_word by (done || by apply entry_text_ends).
  rewrite entry_text_header by done. rewrite Hc. unfold is_syntax_hint_line.
  rewrite trim_start_word by done. unfold entry_text. destruct (e_enabled e); [|done].
  cbn [app]. rewrite Ec. unfold starts_with. change SYNTAX_HINT_PREFIX with [HASH; COLON].
  cbn [is_empty strip_prefix orb]. by rewrite N.eqb_sym, Hh.
Qed.

Definition with_warnings (r : Reader) (k : list SectionContent) (unk : list UnknownSection) (w : list ParseWarning)
  : Reader := mkReader k unk w (version r) (is_preset_file r) (preset_meta r) (current r).

(** The entries of a section land in it, in order. *)
Lemma read_known_entries es s pre es0 unk r :
  Forall (entry_ok (Some s)) es ->
  known r = pre ++ [{| section := s; entries := es0 |}] -> unknown r = unk ->
  current r = Some (KnownSlot (length pre)) ->
  exists w, fold_left read_line (entry_text (Some s) <$> es) r
            = with_warnings r (pre ++ [{| section := s; entries := es0 ++ es |}]) unk w.
Proof.
  intros Hes. revert es0 r. induction Hes as [|e es He _ IH]; intros es0 r Hk Hu Hc.
  - exists (r_warnings r). rewrite app_nil_r, <- Hk, <- Hu. by destruct r.
  - cbn [fmap list_fmap fold_left]. rewrite (read_line_entry r (KnownSlot (length pre)) (Some s) e Hc); [| |done].
    2:{ cbn [slot_section]. rewrite Hk. by rewrite list_lookup_middle. }
    unfold read_rule. assert (slot_section r (KnownSlot (length pre)) = Some s) as ->.
    { cbn [slot_section]. rewrite Hk. by rewrite list_lookup_middle. }
    rewrite read_entry_text by done.
    pose proof (provenance_written (Some s) e He) as Hp.
    destruct (with_provenance (Some s) (on_the_line (Some s) e)) as [e' w]. cbn [fst] in Hp. subst e'.
    set (r' := mkReader _ _ _ _ _ _ _).
    destruct (IH (es0 ++ [e]) r') as [w' E]; [|done..|].
    { cbn. rewrite Hk. unfold push_known. by rewrite alter_app_r_alt, Nat.sub_diag by done. }
    exists w'. etrans; [exact E|]. unfold with_warnings. cbn. by rewrite <- app_assoc.
Qed.

Lemma read_unknown_entries es name pre es0 k r :
  Forall (entry_ok None) es ->
  unknown r = pre ++ [{| u_name := name; u_entries := es0 |}] -> known r = k ->
  current r = Some (UnknownSlot (length pre)) ->
  exists w, fold_left read_line (entry_text None <$> es) r
            = with_warnings r k (pre ++ [{| u_name := name; u_entries := es0 ++ es |}]) w.
Proof.
  intros Hes. revert es0 r. induction Hes as [|e es He _ IH]; intros es0 r Hu Hk Hc.
  - exists (r_warnings r). rewrite app_nil_r, <- Hk, <- Hu. by destruct r.
  - cbn [fmap list_fmap fold_left]. rewrite (read_line_entry r (UnknownSlot (length pre)) None e Hc) by done.
    unfold read_rule. cbn [slot_section]. rewrite read_entry_text by done.
    pose proof (provenance_written None e He) as Hp.
    destruct (with_provenance None (on_the_line None e)) as [e' w]. cbn [fst] in Hp. subst e'.
    set (r' := mkReader _ _ _ _ _ _ _).
    destruct (IH (es0 ++ [e]) r') as [w' E]; [|done..|].
    { cbn. rewrite Hu. unfold push_unknown. by rewrite alter_app_r_alt, Nat.sub_diag by done. }
    exists w'. etrans; [exact E|]. unfold with_warnings. cbn. by rewrite <- app_assoc.
Qed.

Definition known_lines (c : SectionContent) : list str :=
  (HEADER_PREFIX ++ section_title (section c)) :: (entry_text (Some (section c)) <$> entries c).

Definition unknown_lines (c : UnknownSection) : list str :=
  (HEADER_PREFIX ++ u_name c) :: (entry_text None <$> u_entries c).

Definition section_ok (c : SectionContent) : Prop := Forall (entry_ok (Some (section c))) (entries c).

(** A name that heads a section this version does not know. *)
Definition unknown_ok (c : UnknownSection) : Prop :=
  u_name c <> [] /\ trimmed_str (u_name c) /\ field_ok (u_name c) /\ from_name (u_name c) = None
  /\ Forall (entry_ok None) (u_entries c).

Lemma read_line_header r name :
  name <> [] -> trimmed_str name -> read_line r (HEADER_PREFIX ++ name) = open_section r name.
Proof.
  intros Hne Ht. destruct (trimmed_words name Ht Hne) as [Hs He]. unfold read_line.
  rewrite trim_word by (done || by apply ends_in_word_app).
  assert (parse_section_header (HEADER_PREFIX ++ name) = Some name) as ->; [|done].
  unfold parse_section_header. rewrite (proj2 (strip_prefix_Some _ _ name) eq_refl).
  destruct name as [|c name]; [done|]. cbn in Hs. rewrite Hs.
  assert (trim_end_matches is_whitespace (c :: name) = c :: name) as ->; [|done].
  rewrite <- (trim_word (c :: name)) at 2 by done. unfold trim. by rewrite trim_start_word.
Qed.

Lemma from_section_title s : from_name (section_title s) = Some s.
Proof. by destruct s. Qed.

Lemma section_title_ok s : section_title s <> [] /\ trimmed_str (section_title s) /\ field_ok (section_title s).
Proof.
  split_and!.
  - by destruct s.
  - split; [|by destruct s]. intros c t. destruct s; by intros [= <- <-].
  - intros c Hc. assert (forallb (fun c => negb (is_forbidden_field_char c)) (section_title s) = true) as H by by destruct s.
    rewrite forallb_forall in H. apply list_elem_of_In in Hc. by apply negb_true_iff, H.
Qed.

Lemma position_None {A} (p : A -> bool) l : (forall x, x ∈ l -> p x = false) -> position p l = None.
Proof.
  intros H. induction l as [|x l IH]; [done|]. cbn [position]. rewrite (H x) by by left.
  rewrite IH; [done|]. intros y Hy. apply H. by right.
Qed.

Definition same_preamble (r r' : Reader) : Prop :=
  version r' = version r /\ is_preset_file r' = is_preset_file r /\ preset_meta r' = preset_meta r.

Lemma read_known_block r c :
  section_ok c -> (forall c', c' ∈ known r -> section c' <> section c) ->
  let r' := fold_left read_line (known_lines c) r in
  known r' = known r ++ [c] /\ unknown r' = unknown r /\ same_preamble r r'.
Proof.
  intros Hc Hn. unfold known_lines. cbn [fold_left]. destruct (section_title_ok (section c)) as (H1 & H2 & _).
  rewrite read_line_header by done. unfold open_section. rewrite from_section_title, position_None.
  2:{ intros x Hx. apply bool_decide_eq_false. by apply Hn. }
  set (r0 := mkReader _ _ _ _ _ _ _).
  destruct (read_known_entries (entries c) (section c) (known r) [] (unknown r) r0) as [w E]; [done..|].
  rewrite E. by destruct c.
Qed.

Lemma read_unknown_block r c :
  unknown_ok c -> (forall c', c' ∈ unknown r -> u_name c' <> u_name c) ->
  let r' := fold_left read_line (unknown_lines c) r in
  known r' = known r /\ unknown r' = unknown r ++ [c] /\ same_preamble r r'.
Proof.
  intros (H1 & H2 & _ & Hf & Hc) Hn. unfold unknown_lines. cbn [fold_left].
  rewrite read_line_header by done. unfold open_section. rewrite Hf, position_None.
  2:{ intros x Hx. apply not_true_iff_false. rewrite str_eqb_eq. by apply Hn. }
  set (r0 := mkReader _ _ _ _ _ _ _).
  destruct (read_unknown_entries (u_entries c) (u_name c) (unknown r) [] (known r) r0) as [w E]; [done..|].
  rewrite E. by destruct c.
Qed.

Lemma fold_join blocks r :
  fold_left read_line (join_lines blocks) r = fold_left (fun r b => fold_left read_line b r) blocks r.
Proof.
  revert r. induction blocks as [|b blocks IH]; intros r; [done|]. destruct blocks as [|b' blocks]; [done|].
  cbn [join_lines]. rewrite fold_left_app. exact (IH (fold_left read_line b r)).
Qed.

Lemma read_known_blocks cs r :
  Forall section_ok cs -> NoDup (section <$> known r ++ cs) ->
  let r' := fold_left (fun r b => fold_left read_line b r) (known_lines <$> cs) r in
  known r' = known r ++ cs /\ unknown r' = unknown r /\ same_preamble r r'.
Proof.
  intros Hcs. revert r. induction Hcs as [|c cs Hc _ IH]; intros r Hnd.
  - by rewrite app_nil_r.
  - cbn [fmap list_fmap fold_left]. destruct (read_known_block r c Hc) as (E1 & E2 & E3).
    { intros c' Hc' E. rewrite fmap_app in Hnd. apply NoDup_app in Hnd as (_ & Hd & _).
      apply (Hd (section c')); [by apply list_elem_of_fmap_2|]. rewrite E. cbn. by left. }
    destruct (IH (fold_left read_line (known_lines c) r)) as (F1 & F2 & F3).
    { rewrite E1, <- app_assoc. exact Hnd. }
    split_and!; [by rewrite F1, E1, <- app_assoc|by rewrite F2|].
    unfold same_preamble in *. destruct E3 as (E3 & E4 & E5), F3 as (-> & -> & ->). done.
Qed.

Lemma read_unknown_blocks cs r :
  Forall unknown_ok cs -> NoDup (u_name <$> unknown r ++ cs) ->
  let r' := fold_left (fun r b => fold_left read_line b r) (unknown_lines <$> cs) r in
  known r' = known r /\ unknown r' = unknown r ++ cs /\ same_preamble r r'.
Proof.
  intros Hcs. revert r. induction Hcs as [|c cs Hc _ IH]; intros r Hnd.
  - by rewrite app_nil_r.
  - cbn [fmap list_fmap fold_left]. destruct (read_unknown_block r c Hc) as (E1 & E2 & E3).
    { intros c' Hc' E. rewrite fmap_app in Hnd. apply NoDup_app in Hnd as (_ & Hd & _).
      apply (Hd (u_name c')); [by apply list_elem_of_fmap_2|]. rewrite E. cbn. by left. }
    destruct (IH (fold_left read_line (unknown_lines c) r)) as (F1 & F2 & F3).
    { rewrite E2, <- app_assoc. exact Hnd. }
    split_and!; [by rewrite F1|by rewrite F2, E2, <- app_assoc|].
    unfold same_preamble in *. destruct E3 as (E3 & E4 & E5), F3 as (-> & -> & ->). done.
Qed.

(** ** The preamble *)

Definition META_KEYS : list str := [u "name"; u "description"; u "author"; u "preset_version"].

Definition meta_fields (m : PresetMetadata) : list (option str) :=
  [m_name m; m_description m; m_author m; m_preset_version m].

Definition meta_ok (m : PresetMetadata) : Prop :=
  Forall (fun f => forall v, f = Some v -> trimmed_str v /\ field_ok v) (meta_fields m).

Definition meta_text (key v : str) : str := u "# " ++ key ++ u ": " ++ v.

Definition meta_lines (m : PresetMetadata) : list str :=
  (u "# NetRuleRouter preset " ++ [EM_DASH] ++ u " version " ++ fmt_dec CURRENT_RULES_FILE_FORMAT_VERSION)
  :: mjoin (zip_with (fun key f => match f with Some v => [meta_text key v] | None => [] end)
              META_KEYS (meta_fields m))
  ++ [[]].

Lemma write_meta_text key f :
  (forall v, f = Some v -> trimmed_str v /\ field_ok v) ->
  write_meta_line key f = unlines (match f with Some v => [meta_text key v] | None => [] end).
Proof.
  intros H. destruct f as [v|]; [|done]. destruct (H v eq_refl) as [_ Hv].
  unfold write_meta_line, meta_text. rewrite neutralize_field_ok by done.
  rewrite unlines_cons. by rewrite <- !app_assoc.
Qed.

Lemma write_metadata_lines m : meta_ok m -> write_metadata m = unlines (meta_lines m).
Proof.
  unfold meta_ok, meta_fields. rewrite !Forall_cons. intros (H1 & H2 & H3 & H4 & _).
  unfold write_metadata. rewrite !write_meta_text by done. unfold meta_lines.
  cbn [META_KEYS meta_fields zip_with]. rewrite unlines_cons, <- !app_assoc. cbn [app]. do 4 f_equal.
  cbn [mjoin list_join]. rewrite !unlines_app, <- !app_assoc. done.
Qed.

Lemma read_line_meta r key v :
  key ∈ META_KEYS -> trimmed_str v -> current r = None -> is_Some (version r) ->
  read_line r (meta_text key v)
  = mkReader (known r) (unknown r) (r_warnings r) (version r) (is_preset_file r)
      (Some (set_meta (default empty_meta (preset_meta r)) key v)) None.
Proof.
  intros Hk Hv Hc [n Hn]. unfold read_line.
  assert (exists rest, trim (meta_text key v) = HASH :: SPACE :: rest
                       /\ parse_metadata_kv (HASH :: SPACE :: rest) = Some (key, v)) as (rest & Et & Ep).
  { destruct (decide (v = [])) as [->|Hne].
    - unfold META_KEYS in Hk. exists (key ++ u ":"). rewrite !elem_of_cons in Hk.
      destruct Hk as [->|[->|[->|[->|?%not_elem_of_nil]]]]; [..|done]; split; vm_compute; reflexivity.
    - exists (key ++ u ": " ++ v). destruct (trimmed_words v Hv Hne) as [Hs He].
      assert (parse_metadata_kv (HASH :: SPACE :: key ++ u ": " ++ v) = Some (key, trim (SPACE :: v))) as ->.
      { unfold META_KEYS in Hk. rewrite !elem_of_cons in Hk.
        destruct Hk as [->|[->|[->|[->|?%not_elem_of_nil]]]]; [..|done]; reflexivity. }
      rewrite trim_gap_word by done. split; [|done]. apply trim_word; [done|].
      apply (ends_in_word_app (u "# ")). by apply ends_in_word_app, ends_in_word_app. }
  rewrite Et. change (parse_section_header (meta_text key v)) with (@None str).
  change (is_empty (HASH :: SPACE :: rest) || is_syntax_hint_line (HASH :: SPACE :: rest)) with false.
  cbn iota. rewrite Hc. unfold read_preamble. rewrite Hn. unfold read_meta. rewrite Ep, <- Hn, Hc. done.
Qed.

Definition add_field (meta : option PresetMetadata) (kf : str * option str) : option PresetMetadata :=
  match kf.2 with Some v => Some (set_meta (default empty_meta meta) kf.1 v) | None => meta end.

Lemma read_meta_fields kfs r :
  Forall (fun kf : str * option str => kf.1 ∈ META_KEYS /\ forall v, kf.2 = Some v -> trimmed_str v) kfs ->
  current r = None -> is_Some (version r) ->
  fold_left read_line (mjoin ((fun kf : str * option str =>
    match kf.2 with Some v => [meta_text kf.1 v] | None => [] end) <$> kfs)) r
  = mkReader (known r) (unknown r) (r_warnings r) (version r) (is_preset_file r)
      (fold_left add_field kfs (preset_meta r)) None.
Proof.
  intros H. revert r. induction H as [|[key f] kfs [Hk Hf] _ IH]; intros r Hc Hn.
  - rewrite <- Hc. by destruct r.
  - cbn [fmap list_fmap mjoin list_join]. rewrite fold_left_app. cbn [fst snd] in *.
    destruct f as [v|]; [|exact (IH r Hc Hn)].
    change (fold_left read_line [meta_text key v] r) with (read_line r (meta_text key v)).
    rewrite (read_line_meta r key v Hk (Hf v eq_refl) Hc Hn). exact (IH (mkReader _ _ _ _ _ _ None) eq_refl Hn).
Qed.

(** ** The file *)

(** The sections the file gets, in its canonical order. *)
Definition in_order (p : RulesFileParsed) : list SectionContent :=
  omap (fun s => mkSection s <$> by_section p s) ALL_SECTIONS.

Lemma by_section_elem p s es : by_section p s = Some es -> mkSection s es ∈ sections p.
Proof.
  unfold by_section. destruct (find_first _ (reverse (sections p))) as [c|] eqn:E; [|done].
  intros [= <-]. apply find_first_Some in E as [Hc Hs]. apply bool_decide_eq_true in Hs as <-.
  rewrite elem_of_reverse in Hc. by destruct c.
Qed.

Lemma by_section_unique p c :
  NoDup (section <$> sections p) -> c ∈ sections p -> by_section p (section c) = Some (entries c).
Proof.
  intros Hnd Hc. unfold by_section.
  destruct (find_first (fun c0 => bool_decide (section c0 = section c)) (reverse (sections p))) as [c'|] eqn:E.
  - apply find_first_Some in E as [Hc' Hs]. apply bool_decide_eq_true in Hs.
    rewrite elem_of_reverse in Hc'. cbn. f_equal. f_equal.
    apply list_elem_of_lookup in Hc as [i Hi], Hc' as [j Hj].
    assert (j = i) as ->; [|congruence].
    apply (NoDup_lookup _ j i (section c) Hnd); rewrite list_lookup_fmap; [by rewrite Hj, <- Hs|by rewrite Hi].
  - rewrite find_first_None in E. specialize (E c ltac:(by apply elem_of_reverse)).
    by apply bool_decide_eq_false in E.
Qed.

Lemma in_order_elem p c : c ∈ in_order p -> c ∈ sections p.
Proof.
  unfold in_order. rewrite list_elem_of_omap. intros (s & _ & H).
  destruct (by_section p s) as [es|] eqn:E; [|done]. injection H as <-. by apply by_section_elem.
Qed.

Lemma in_order_keys p (l : list RulesFileSection) :
  section <$> omap (fun s => mkSection s <$> by_section p s) l = filter (fun s => is_Some (by_section p s)) l.
Proof.
  induction l as [|s l IH]; [done|]. cbn [omap list_omap]. rewrite filter_cons.
  destruct (by_section p s) as [es|]; cbn [fmap option_fmap option_map].
  - rewrite decide_True by by eexists. cbn. f_equal. exact IH.
  - rewrite decide_False by (intros [? ?]; done). exact IH.
Qed.

Lemma in_order_nodup p : NoDup (section <$> in_order p).
Proof.
  unfold in_order. rewrite in_order_keys. apply NoDup_filter.
  apply (bool_decide_unpack (NoDup ALL_SECTIONS)). vm_compute. exact I.
Qed.

Lemma in_order_perm p : NoDup (section <$> sections p) -> in_order p ≡ₚ sections p.
Proof.
  intros Hnd. apply NoDup_Permutation.
  - by apply (NoDup_fmap_1 section), in_order_nodup.
  - by apply (NoDup_fmap_1 section).
  - intros c. split; [apply in_order_elem|]. intros Hc. unfold in_order. rewrite list_elem_of_omap.
    exists (section c). split.
    + destruct (section c); unfold ALL_SECTIONS; repeat (left + right).
    + rewrite by_section_unique by done. by destruct c.
Qed.

(** What the file can carry. *)
Record file_ok (p : RulesFileParsed) (unk : list UnknownSection) (meta : option PresetMetadata) : Prop := {
  fo_sections : Forall section_ok (sections p);
  fo_once : NoDup (section <$> sections p);
  fo_unknown : Forall unknown_ok unk;
  fo_names : NoDup (u_name <$> unk);
  fo_meta : forall m, meta = Some m -> meta_ok m;
}.

Definition file_lines (p : RulesFileParsed) (unk : list UnknownSection) (meta : option PresetMetadata) : list str :=
  match meta with Some m => meta_lines m | None => [] end
  ++ join_lines ((known_lines <$> in_order p) ++ (unknown_lines <$> unk)).

Lemma write_entries_text sec es :
  Forall (entry_ok sec) es ->
  mjoin ((fun e => write_entry_line e (emits_origin sec) (is_program sec)) <$> es)
  = unlines (entry_text sec <$> es).
Proof.
  induction 1 as [|e es He _ IH]; [done|]. cbn [fmap list_fmap mjoin list_join].
  rewrite unlines_cons, write_entry_text, <- app_assoc by done. cbn [app]. do 2 f_equal. exact IH.
Qed.

Lemma in_order_ok p : Forall section_ok (sections p) -> Forall section_ok (in_order p).
Proof. rewrite !Forall_forall. intros H c Hc. by apply H, in_order_elem. Qed.

Lemma known_blocks_text p (l : list RulesFileSection) :
  Forall section_ok (sections p) ->
  omap (known_block p) l = unlines <$> (known_lines <$> omap (fun s => mkSection s <$> by_section p s) l).
Proof.
  intros H. induction l as [|s l IH]; [done|]. cbn [omap list_omap]. unfold known_block at 1.
  destruct (by_section p s) as [es|] eqn:E; [|exact IH]. cbn [mbind option_bind fmap option_fmap option_map list_fmap].
  f_equal; [|exact IH]. unfold known_lines. cbn [section entries]. rewrite unlines_cons, <- app_assoc. cbn [app].
  do 3 f_equal. apply (write_entries_text (Some s)).
  apply by_section_elem in E. rewrite Forall_forall in H. exact (H _ E).
Qed.

Lemma unknown_blocks_text unk :
  Forall unknown_ok unk -> unknown_block <$> unk = unlines <$> (unknown_lines <$> unk).
Proof.
  induction 1 as [|c unk Hc _ IH]; [done|]. cbn [fmap list_fmap]. f_equal; [|exact IH].
  destruct Hc as (_ & _ & Hf & _ & He). unfold unknown_block, unknown_lines.
  rewrite neutralize_field_ok, unlines_cons, <- app_assoc by done. cbn [app]. do 3 f_equal.
  by apply (write_entries_text None).
Qed.

Lemma write_lines p unk meta : file_ok p unk meta -> write_rules_file p unk meta = unlines (file_lines p unk meta).
Proof.
  intros H. unfold write_rules_file, write_rules_file_with_passthrough, file_lines. cbn [fmap list_fmap].
  rewrite app_nil_r, unlines_app, <- join_unlines, fmap_app. f_equal.
  - destruct meta as [m|]; [|done]. by apply write_metadata_lines, (fo_meta _ _ _ H).
  - f_equal. f_equal; [apply known_blocks_text, (fo_sections _ _ _ H)|].
    apply unknown_blocks_text, (fo_unknown _ _ _ H).
Qed.

Lemma header_line_ok name : name <> [] -> trimmed_str name -> field_ok name -> line_ok (HEADER_PREFIX ++ name).
Proof.
  intros Hn Ht Hf. apply ends_in_word_line.
  - destruct (trimmed_words name Ht Hn). by apply ends_in_word_app.
  - by rewrite contains_char_app, (field_ok_no_lf name).
Qed.

Lemma entry_lines_ok sec es : Forall (entry_ok sec) es -> Forall line_ok (entry_text sec <$> es).
Proof. intros H. apply Forall_fmap. eapply Forall_impl; [exact H|]. apply entry_text_line. Qed.

Lemma known_lines_ok c : section_ok c -> Forall line_ok (known_lines c).
Proof.
  intros H. constructor; [|by apply entry_lines_ok].
  destruct (section_title_ok (section c)) as (? & ? & ?). by apply header_line_ok.
Qed.

Lemma unknown_lines_ok c : unknown_ok c -> Forall line_ok (unknown_lines c).
Proof. intros (? & ? & ? & _ & H). constructor; [by apply header_line_ok|by apply entry_lines_ok]. Qed.

Lemma join_lines_ok blocks : Forall (Forall line_ok) blocks -> Forall line_ok (join_lines blocks).
Proof.
  induction 1 as [|b blocks Hb H IH]; [done|]. destruct blocks as [|b' blocks]; [done|].
  cbn [join_lines]. apply Forall_app. split; [done|]. by constructor.
Qed.

Lemma meta_lines_ok m : meta_ok m -> Forall line_ok (meta_lines m).
Proof.
  intros H. constructor; [done|]. apply Forall_app. split; [|by constructor].
  unfold meta_ok, META_KEYS, meta_fields in *. rewrite !Forall_cons in H.
  assert (Hl : forall key f, contains_char (is_char LF) key = false ->
    (forall v, f = Some v -> trimmed_str v /\ field_ok v) ->
    Forall line_ok (match f with Some v => [meta_text key v] | None => [] end)).
  { intros key f Hk Hf. destruct f as [v|]; [|done]. constructor; [|done]. destruct (Hf v eq_refl) as [Ht Hv].
    unfold meta_text. split; [by rewrite !contains_char_app, Hk, (field_ok_no_lf v)|].
    apply not_true_iff_false. rewrite ends_with_true. intros [r E]. apply (f_equal last) in E.
    rewrite !app_assoc, last_snoc, last_app in E. destruct Ht as [_ Ht]. unfold last_is in Ht.
    destruct (last v) as [x|]; [by simplify_eq|by rewrite last_app in E]. }
  destruct H as (H1 & H2 & H3 & H4 & _). cbn [zip_with mjoin list_join].
  repeat (apply Forall_app; split); [by apply Hl..|done].
Qed.

Lemma file_lines_ok p unk meta : file_ok p unk meta -> Forall line_ok (file_lines p unk meta).
Proof.
  intros H. apply Forall_app. split.
  - destruct meta as [m|]; [|done]. by apply meta_lines_ok, (fo_meta _ _ _ H).
  - apply join_lines_ok, Forall_app. split; apply Forall_fmap.
    + eapply Forall_impl; [apply in_order_ok, (fo_sections _ _ _ H)|apply known_lines_ok].
    + eapply Forall_impl; [apply (fo_unknown _ _ _ H)|apply unknown_lines_ok].
Qed.

Lemma file_no_bom p unk meta : strip_prefix [BOM] (unlines (file_lines p unk meta)) = None.
Proof.
  unfold file_lines. destruct meta as [m|]; [done|]. cbn [app].
  destruct (in_order p) as [|c cs]; cbn [fmap list_fmap app].
  - destruct unk as [|c cs]; [done|]. by destruct cs.
  - by destruct (_ ++ _).
Qed.

Definition preamble_reader (meta : option PresetMetadata) : Reader :=
  match meta with
  | Some m => mkReader [] [] [] (Some CURRENT_RULES_FILE_FORMAT_VERSION) true
                (if bool_decide (meta_fields m = [None; None; None; None]) then None else Some m) None
  | None => new_reader
  end.

Lemma read_metadata m :
  meta_ok m -> fold_left read_line (meta_lines m) new_reader = preamble_reader (Some m).
Proof.
  intros H. unfold meta_lines. cbn [fold_left].
  set (r0 := read_line new_reader _). assert (r0 = mkReader [] [] [] (Some 11%N) true None None) as -> by by vm_compute.
  rewrite fold_left_app. unfold meta_ok, meta_fields in H. rewrite !Forall_cons in H. destruct H as (H1 & H2 & H3 & H4 & _).
  pose proof (read_meta_fields (zip META_KEYS (meta_fields m)) (mkReader [] [] [] (Some 11%N) true None None)) as E.
  change (zip_with ?f META_KEYS (meta_fields m)) with
    ((fun kf : str * option str => match kf.2 with Some v => [meta_text kf.1 v] | None => [] end) <$> zip META_KEYS (meta_fields m)).
  rewrite E; [|repeat constructor; cbn; try naive_solver; unfold META_KEYS; repeat (left + right)|done|by eexists].
  destruct m as [[] [] [] []]; reflexivity.
Qed.

Lemma read_preamble_lines meta :
  (forall m, meta = Some m -> meta_ok m) ->
  fold_left read_line (match meta with Some m => meta_lines m | None => [] end) new_reader = preamble_reader meta.
Proof. intros H. destruct meta as [m|]; [|done]. by apply read_metadata, H. Qed.

Lemma read_file_lines p unk meta :
  file_ok p unk meta ->
  let r := fold_left read_line (file_lines p unk meta) new_reader in
  known r = in_order p /\ unknown r = unk /\ same_preamble (preamble_reader meta) r.
Proof.
  intros H. unfold file_lines. rewrite fold_left_app, (read_preamble_lines meta (fo_meta _ _ _ H)), fold_join, fold_left_app.
  assert (Hk : known (preamble_reader meta) = [] /\ unknown (preamble_reader meta) = []) by by destruct meta.
  destruct Hk as [Hk Hu].
  destruct (read_known_blocks (in_order p) (preamble_reader meta)) as (E1 & E2 & E3).
  { apply in_order_ok, (fo_sections _ _ _ H). }
  { rewrite Hk. apply in_order_nodup. }
  set (r1 := fold_left _ (known_lines <$> in_order p) _) in *.
  destruct (read_unknown_blocks unk r1) as (F1 & F2 & F3).
  { apply (fo_unknown _ _ _ H). }
  { rewrite E2, Hu. apply (fo_names _ _ _ H). }
  split_and!; [by rewrite F1, E1, Hk|by rewrite F2, E2, Hu|].
  unfold same_preamble in *. destruct E3 as (E3 & E4 & E5), F3 as (F3 & F4 & F5).
  split_and!; congruence.
Qed.

(** Reading what was written is reading its lines. *)
Lemma parse_written p unk meta :
  file_ok p unk meta ->
  parse_rules_file (write_rules_file p unk meta) = finish (fold_left read_line (file_lines p unk meta) new_reader).
Proof.
  intros H. unfold parse_rules_file. rewrite write_lines by done. rewrite file_no_bom. cbn [default].
  by rewrite (lines_unlines _ (file_lines_ok p unk meta H)).
Qed.

(** C38. Export and import are inverse: a file written from sections whose
    entries the format can spell, unknown sections and preset metadata is read
    back as the same sections in the canonical order, the same unknown sections
    and the same metadata, with the version of the format in the preset header. *)
Theorem rules_file_roundtrip p unk meta :
  file_ok p unk meta ->
  let out := parse_rules_file (write_rules_file p unk meta) in
  sections (parsed out) = in_order p /\ in_order p ≡ₚ sections p
  /\ unknown_sections out = unk /\ preset_metadata out = meta
  /\ file_format_version out = (fun _ => CURRENT_RULES_FILE_FORMAT_VERSION) <$> meta.
Proof.
  intros H. cbn zeta. rewrite parse_written by done.
  destruct (read_file_lines p unk meta H) as (E1 & E2 & E3 & E4 & E5).
  unfold finish. cbn [parsed sections unknown_sections preset_metadata file_format_version].
  rewrite E1, E2, E3, E4, E5. split_and!; [done|apply in_order_perm, (fo_once _ _ _ H)|done| |by destruct meta].
  destruct meta as [[[] [] [] []]|]; reflexivity.
Qed.

(** ** The two readers *)

(** No white space between the [#] of a disabled rule, or the one space after
    it, and the value. *)
Definition clean_hash (line : str) : bool :=
  match line with
  | h :: c :: rest =>
      negb (h =? HASH)%N
      || (if (c =? SPACE)%N then match rest with d :: _ => negb (is_whitespace d) | [] => true end
          else negb (is_whitespace c))
  | _ => true
  end.

(** An entry of the service as the window shows it. *)
Definition window_rule (s : RulesFileSection) (hint number : N) (e : RulesFileEntry) : ParsedRule :=
  {| id_hint := hint; p_enabled := e_enabled e; rule_type := section_rule_type s;
     section_name := section_title s; p_match_value := match_value e;
     p_comment := default [] (inline_comment e); p_blocked := blocked e; p_verify_primary := verify_primary e;
     p_children := children_requested e; p_override_requested := e_override_requested e;
     p_origin := e_origin e; line_number := number |}.

(** The flags a rule of another kind than a program does not have. *)
Definition own_flags (r : ParsedRule) : ParsedRule :=
  let b := bool_decide (rule_type r = PApplication) in
  {| id_hint := id_hint r; p_enabled := p_enabled r; rule_type := rule_type r; section_name := section_name r;
     p_match_value := p_match_value r; p_comment := p_comment r; p_blocked := p_blocked r;
     p_verify_primary := p_verify_primary r; p_children := p_children r && b;
     p_override_requested := p_override_requested r && b; p_origin := p_origin r; line_number := line_number r |}.

(** What the service makes of a line once the [#] is off. *)
Definition entry_of_body (s : RulesFileSection) (body : str) (enabled : bool) : option RulesFileEntry :=
  let '(value, comment) := domain_split_inline_comment body in
  let '(value, flags) := split_rule_flags (trim value) in
  let '(value, markers, quoted) := take_rule_markers value (takes_verify_prefix s) (is_program (Some s)) in
  if is_empty value || (negb enabled && negb quoted && negb (is_disabled_rule_value (section_rule_type s) value))
  then None
  else Some (mkEntry value comment enabled (deny markers) (verify markers)
               (override_requested flags && is_program (Some s)) (children flags && is_program (Some s)) None).

Lemma body_readers_agree s body hash hint number :
  own_flags <$> rule_of_body (section_rule_type s) (section_title s) hint number body hash
  = (fun e => window_rule s hint number (fst (with_provenance (Some s) e))) <$> entry_of_body s body (negb hash).
Proof.
  unfold rule_of_body, entry_of_body, domain_split_inline_comment, take_rule_markers.
  destruct (split_inline_comment body) as [v c]. rewrite !split_rule_flags_trim.
  destruct (split_rule_flags v) as [v' fl].
  assert ((match section_rule_type s with PDomain | PExactIp => true | _ => false end) = takes_verify_prefix s) as ->
    by by destruct s.
  destruct (split_rule_markers v' (takes_verify_prefix s)) as [v'' mk].
  assert ((match section_rule_type s with PApplication => unquote_program_value v'' | _ => None end)
          = if is_program (Some s) then unquote_program_value v'' else None) as -> by by destruct s.
  set (q := if is_program (Some s) then unquote_program_value v'' else None).
  rewrite negb_involutive. destruct (is_empty (default v'' q)); [done|]. cbn [orb].
  assert ((match q with Some _ => false | None => true end) = negb (match q with Some _ => true | None => false end)) as ->
    by by destruct q.
  destruct (hash && _ && _); [done|].
  assert (Hp : parse_provenance_comment [] = None) by done.
  assert (Hs : is_auto_section (section_title s) || bool_decide (section_rule_type s = PApplication) = carries_provenance s
               /\ (is_app_authored s = true -> carries_provenance s = true)
               /\ bool_decide (section_rule_type s = PApplication) = is_program (Some s)) by by destruct s.
  destruct Hs as (-> & Ha & Hb). unfold with_provenance, take_provenance, take_provenance_if_any, own_flags.
  set (t := match trim <$> c with Some c => _ | None => None end).
  assert (Ht : trim (default [] c) = default [] t).
  { unfold t. destruct c as [c|]; [|done]. cbn. destruct (trim c) eqn:E; by rewrite ?E. }
  rewrite Ht. destruct (carries_provenance s), (is_app_authored s); try (specialize (Ha eq_refl); discriminate);
    cbn [inline_comment rule_type]; rewrite <- ?Hb; destruct t as [t|]; cbn; rewrite ?Hp; cbn; try done;
    destruct (parse_provenance_comment t) as [pv|]; done.
Qed.
Lemma read_entry_enabled s t :
  strip_prefix [HASH] t = None -> fst <$> read_entry (Some s) t = entry_of_body s t true.
Proof.
  intros E. unfold read_entry, entry_of_body. rewrite E.
  destruct (domain_split_inline_comment t) as [v c]. destruct (split_rule_flags (trim v)) as [v' fl].
  fold (is_program (Some s)). destruct (is_empty v') eqn:Ev.
  - apply is_empty_true in Ev as ->. by destruct s.
  - destruct (take_rule_markers v' (takes_verify_prefix s) (is_program (Some s))) as [[v'' mk] q].
    by destruct (is_empty v'').
Qed.

Lemma read_entry_disabled s b :
  starts_in_word b -> starts_with [HASH] b = false ->
  forall rest, trim_start_matches is_whitespace rest = b ->
  fst <$> read_entry (Some s) (HASH :: rest) = entry_of_body s b false.
Proof.
  intros Hb Hh rest Hr. unfold read_entry, entry_of_body.
  change (strip_prefix [HASH] (HASH :: rest)) with (Some rest). cbn iota. rewrite Hr, Hh.
  destruct b as [|c b]; [done|]. cbn [is_empty orb].
  destruct (domain_split_inline_comment (c :: b)) as [v cm]. destruct (split_rule_flags (trim v)) as [v' fl].
  fold (is_program (Some s)).
  destruct (take_rule_markers v' (takes_verify_prefix s) (is_program (Some s))) as [[v'' mk] q].
  by destruct (is_empty v''), q, (is_disabled_rule_value (section_rule_type s) v'').
Qed.

Lemma hash_body_none s rest hint number h :
  rule_of_body (section_rule_type s) (section_title s) hint number (HASH :: rest) h = None.
Proof. by destruct s, h. Qed.

Lemma readers_agree_line s raw hint number :
  clean_hash (trim raw) = true ->
  own_flags <$> parse_rule_line raw (section_rule_type s) (section_title s) hint number
  = (fun em => window_rule s hint number (fst (with_provenance (Some s) (fst em)))) <$> read_entry (Some s) (trim raw).
Proof.
  intros Hc. change (fun em : RulesFileEntry * RuleMarkers => window_rule s hint number (fst (with_provenance (Some s) (fst em))))
    with ((fun e => window_rule s hint number (fst (with_provenance (Some s) e))) ∘ (@fst RulesFileEntry RuleMarkers)).
  rewrite option_fmap_compose. unfold parse_rule_line.
  assert (He : last_is is_whitespace (trim raw) = false) by apply trim_end_matches_last.
  set (t := trim raw) in *. clearbody t.
  destruct t as [|h rest]; [by destruct s|]. cbn [is_empty].
  destruct (N.eqb_spec HASH h) as [<-|Hh].
  2:{ assert (strip_prefix [HASH] (h :: rest) = None) as E by (cbn [strip_prefix]; by destruct (N.eqb_spec HASH h)).
      assert (starts_with [HASH; HASH] (h :: rest) = false /\ strip_prefix [HASH; SPACE] (h :: rest) = None) as [-> ->].
      { unfold starts_with. cbn [strip_prefix]. by destruct (N.eqb_spec HASH h). }
      by rewrite E, (read_entry_enabled s _ E), body_readers_agree. }
  destruct rest as [|c rest]; [by destruct s|]. unfold clean_hash in Hc. cbn [negb orb] in Hc.
  change (HASH =? HASH)%N with true in Hc. cbn [negb orb] in Hc.
  destruct (N.eqb_spec c SPACE) as [->|Hsp].
  - destruct rest as [|d rest]; [by vm_compute in He|]. apply negb_true_iff in Hc.
    change (starts_with [HASH; HASH] (HASH :: SPACE :: d :: rest)) with false.
    change (strip_prefix [HASH; SPACE] (HASH :: SPACE :: d :: rest)) with (Some (d :: rest)). cbn iota.
    destruct (N.eqb_spec HASH d) as [<-|Hd]; [by rewrite hash_body_none|].
    rewrite (read_entry_disabled s (d :: rest)); [by rewrite body_readers_agree|done| |cbn; by rewrite Hc].
    unfold starts_with. cbn [strip_prefix]. by destruct (N.eqb_spec HASH d).
  - apply negb_true_iff in Hc. unfold starts_with. cbn [strip_prefix]. change (HASH =? HASH)%N with true. cbn iota.
    destruct (N.eqb_spec HASH c) as [<-|Hd]; [done|]. destruct (N.eqb_spec SPACE c); [by subst c|]. cbn [is_empty].
    rewrite (read_entry_disabled s (c :: rest)); [by rewrite body_readers_agree|done| |cbn; by rewrite Hc].
    unfold starts_with. cbn [strip_prefix]. by destruct (N.eqb_spec HASH c).
Qed.

(** The window and the service read a rule line alike: the window's rule is
    the service's entry, on every line in which nothing but one space stands
    between the [#] of a disabled rule and its value; neither reads what the
    other does not. *)
Theorem readers_agree s raw hint number :
  clean_hash (trim raw) = true ->
  own_flags <$> parse_rule_line raw (section_rule_type s) (section_title s) hint number
  = (fun em => window_rule s hint number (fst (with_provenance (Some s) (fst em)))) <$> read_entry (Some s) (trim raw).
Proof. apply readers_agree_line. Qed.

Lemma readers_agree_witness :
  clean_hash (trim (u "  # !/opt/app/run +children  # note")) = true
  /\ read_entry (Some SLinux) (trim (u "  # !/opt/app/run +children  # note")) <> None
  /\ own_flags <$> parse_rule_line (u "  # !/opt/app/run +children  # note") (section_rule_type SLinux) (section_title SLinux) 1 2
     = (fun em => window_rule SLinux 1 2 (fst (with_provenance (Some SLinux) (fst em))))
         <$> read_entry (Some SLinux) (trim (u "  # !/opt/app/run +children  # note")).
Proof. split; [reflexivity|]. split; [by vm_compute|]. apply readers_agree. reflexivity. Defined.

(** Two spaces after the [#] of a quoted program hide the quote from the window:
    its comment then starts inside the name. *)
Example readers_differ :
  let line := u "#  '/opt/a # b'" in
  let line := replace_char 39 QUOTE line in
  clean_hash line = false
  /\ (p_match_value <$> parse_rule_line line PApplication (u "Linux") 0 0)
     <> ((fun em => match_value (fst em)) <$> read_entry (Some SLinux) line).
Proof. split; [reflexivity|]. by vm_compute. Qed.

Definition reexport (input : str) : str :=
  let out := parse_rules_file input in
  write_rules_file (parsed out) (unknown_sections out) (preset_metadata out).

(** A quoted program whose name starts with the mark of a deny comes back as a
    deny of another program. *)
Example quoted_mark_lost :
  let input := u "--- Linux" ++ [LF; QUOTE] ++ u "!tool" ++ [QUOTE; LF] in
  (fun e => (match_value e, blocked e)) <$> entries_for (parsed (parse_rules_file input)) SLinux
  = [(u "!tool", false)]
  /\ (fun e => (match_value e, blocked e)) <$> entries_for (parsed (parse_rules_file (reexport input))) SLinux
     = [(u "tool", true)].
Proof. by vm_compute. Qed.

(** An indented line that looks like a header is a value when read and a header
    when written: the rules after it move to another section. *)
Example indented_header_moves_rules :
  let input := u "--- Zones" ++ [LF; SPACE] ++ u "--- IP" ++ [LF] ++ u "ru" ++ [LF] in
  match_value <$> entries_for (parsed (parse_rules_file input)) SZones = [u "--- IP"; u "ru"]
  /\ match_value <$> entries_for (parsed (parse_rules_file (reexport input))) SZones = []
  /\ match_value <$> entries_for (parsed (parse_rules_file (reexport input))) SIp = [u "ru"].
Proof. by vm_compute. Qed.

(** ** Deciding what the file can carry *)

Definition trimmedb (s : str) : bool :=
  match s with c :: _ => negb (is_whitespace c) | [] => true end && negb (last_is is_whitespace s).

Lemma trimmedb_ok s : trimmedb s = true -> trimmed_str s.
Proof.
  unfold trimmedb. rewrite andb_true_iff, negb_true_iff. intros [Hs Hl]. split; [|done].
  intros c t ->. by apply negb_true_iff.
Qed.

Definition fieldb (s : str) : bool := forallb (fun c => negb (is_forbidden_field_char c)) s.

Lemma fieldb_ok s : fieldb s = true -> field_ok s.
Proof.
  unfold fieldb. rewrite forallb_forall. intros H c Hc. apply list_elem_of_In in Hc. by apply negb_true_iff, H.
Qed.

Definition flaglessb (s : str) : bool := forallb (fun gw => negb (is_flag gw.2)) (tail (words_with_gaps s)).

Lemma flaglessb_ok s : flaglessb s = true -> flagless s.
Proof.
  unfold flaglessb, flagless. rewrite forallb_forall, Forall_forall. intros H gw Hg.
  apply list_elem_of_In in Hg. by apply negb_true_iff, H.
Qed.

(** A value of one word that neither a mark, a quote, a comment nor a header
    could start: hosts, zones, addresses, blocks, ranges and most paths. *)
Definition plainb (v : str) : bool :=
  negb (is_empty v) && negb (has_whitespace v) && negb (contains_char (is_char HASH) v) && fieldb v
  && match v with c :: _ => negb (is_mark c) && negb (is_char QUOTE c) && negb (is_char DASH c) | [] => false end.

Definition commentb (c : str) : bool := negb (is_empty c) && trimmedb c && fieldb c.

(** An entry without provenance, flags or contradicting marks. *)
Definition plain_entryb (sec : option RulesFileSection) (e : RulesFileEntry) : bool :=
  plainb (match_value e) && negb (is_program sec)
  && match inline_comment e with Some c => commentb c | None => true end
  && negb (children_requested e) && negb (e_override_requested e)
  && negb (blocked e && verify_primary e) && (negb (verify_primary e) || reads_verify sec)
  && match e_origin e with Some _ => false | None => true end
  && (negb (emits_origin sec) || match inline_comment e ≫= parse_provenance_comment with Some _ => false | None => true end)
  && (e_enabled e || match sec with Some s => is_disabled_rule_value (section_rule_type s) (match_value e) | None => true end).

Lemma find_comment_hashless b v : hashless v -> find_comment b v = (v, None).
Proof. intros H. exact (find_comment_app b [] v eq_refl H). Qed.

Lemma words_one v : v <> [] -> has_whitespace v = false -> words_with_gaps v = [([], v)].
Proof.
  intros Hne H. induction v as [|c v IH]; [done|]. unfold has_whitespace in H. cbn [contains_char existsb] in H.
  apply orb_false_iff in H as [Hc Hv]. cbn [words_with_gaps]. rewrite Hc.
  destruct v as [|d v]; [done|]. by rewrite IH.
Qed.

Lemma plain_value v :
  plainb v = true ->
  v <> [] /\ trimmed_str v /\ field_ok v /\ flagless v /\ commentless v /\ no_header v
  /\ (forall t, quote_settled v t) /\ (forall m, is_mark m = true -> marked m v = false) /\ starts_with [DENY_PREFIX] v = false.
Proof.
  unfold plainb. rewrite !andb_true_iff, !negb_true_iff. intros ((((Hne%is_empty_false & Hw) & Hh) & Hf%fieldb_ok) & Hc).
  destruct v as [|c v]; [done|]. rewrite !andb_true_iff, !negb_true_iff in Hc. destruct Hc as [[Hm Hq] Hd].
  assert (Hqt : (c =? PROGRAM_VALUE_QUOTE)%N = false) by (unfold is_char in Hq; by rewrite N.eqb_sym).
  assert (Hmk : forall m, is_mark m = true -> (c =? m)%N = false).
  { intros m Hm'. apply not_true_iff_false. intros ->%N.eqb_eq. congruence. }
  split_and!; [done| |done| | | | | |].
  - split; [intros c' t [= <- <-]; by apply orb_false_iff in Hw as [? _]|by apply last_is_no_whitespace].
  - unfold flagless. by rewrite words_one.
  - apply commentless_cases. unfold quoted_head. cbn [leading_marks]. rewrite Hm, Hqt. by apply find_comment_hashless.
  - split; [|intros E; injection E as -> _; done].
    unfold starts_with. change HEADER_PREFIX with (DASH :: u "-- "). cbn [strip_prefix]. unfold is_char in Hd. by rewrite Hd.
  - intros t. unfold quote_settled. cbn [leading_marks]. rewrite Hm. cbn [snd]. by rewrite Hqt.
  - intros m Hm'. unfold marked, split_mark. destruct v; [done|]. by rewrite (Hmk m Hm').
  - unfold starts_with. cbn [strip_prefix]. by rewrite N.eqb_sym, (Hmk DENY_PREFIX eq_refl).
Qed.

(** An entry with a plain value. *)
Lemma plain_value_entry_ok sec e :
  plainb (match_value e) = true -> is_program sec = false ->
  (forall c, inline_comment e = Some c -> c <> [] /\ trimmed_str c /\ field_ok c) ->
  children_requested e = false -> e_override_requested e = false ->
  (blocked e = true -> verify_primary e = false) -> (verify_primary e = true -> reads_verify sec = true) ->
  provenance_ok sec e ->
  (e_enabled e = false -> forall s, sec = Some s ->
     is_disabled_rule_value (section_rule_type s) (match_value e) = true) ->
  entry_ok sec e.
Proof.
  intros Hv Hp Hc Hch Hov Hm Hve Ho Hd.
  destruct (plain_value _ Hv) as (H1 & H2 & H3 & H4 & H5 & H6 & H7 & H8 & H9).
  constructor; try done.
  - unfold quoted_entry. by rewrite Hp.
  - intros _. unfold marks_ok. destruct (blocked e); [|destruct (verify_primary e)]; [|done|];
      [|split]; intros; by apply H8.
  - intros E _. destruct sec; [by apply Hd|].
    unfold plainb in Hv. rewrite !andb_true_iff, !negb_true_iff in Hv. by destruct Hv as ((((_ & ?) & _) & _) & _).
Qed.

Lemma plain_entry_ok sec e : plain_entryb sec e = true -> entry_ok sec e.
Proof.
  unfold plain_entryb. rewrite !andb_true_iff, !orb_true_iff, !negb_true_iff.
  intros (((((((((Hv & Hp) & Hc) & Hch) & Hov) & Hm) & Hve) & Ho) & Hpr) & Hd).
  destruct (e_origin e) eqn:Eo; [done|].
  apply plain_value_entry_ok; try done.
  - intros c Ec. rewrite Ec in Hc. unfold commentb in Hc. rewrite !andb_true_iff, negb_true_iff in Hc.
    destruct Hc as [[?%is_empty_false ?%trimmedb_ok] ?%fieldb_ok]. done.
  - intros E. rewrite E in Hm. done.
  - intros E. rewrite E in Hve. by destruct Hve.
  - unfold provenance_ok. rewrite Eo. intros E. destruct Hpr as [|Hpr]; [congruence|].
    by destruct (inline_comment e ≫= parse_provenance_comment).
  - intros E s ->. rewrite E in Hd. by destruct Hd.
Qed.

(** A file with a deny, a disabled domain, a quoted program with a flag, a rule
    the application added, an unknown section and metadata. *)
Definition sample_plain (v : str) (enabled deny : bool) (c : option str) : RulesFileEntry :=
  mkEntry v c enabled deny false false false None.

Definition sample_program : RulesFileEntry :=
  mkEntry (u "Web Content") (Some (u "a helper")) false false false false true None.

Definition sample_auto : RulesFileEntry :=
  mkEntry (u "cdn.example.com") (Some (u "seen twice")) true false true false false
    (Some (Auto SiteCompanion (u "example.com") (u "2026-01-05"))).

Definition sample_parsed : RulesFileParsed :=
  mkParsed [ mkSection SAuto [sample_auto];
             mkSection SLinux [sample_program];
             mkSection SDomains [ sample_plain (u "ads.example.com") true true (Some (u "no ads"));
                                  sample_plain (u "old.example.com") false false None ] ].

Definition sample_unknown : list UnknownSection :=
  [mkUnknown (u "Ports") [sample_plain (u "443") true false None]].

Definition sample_meta : option PresetMetadata := Some (mkMeta (Some (u "Work")) None (Some (u "J. Doe")) None).

Lemma sample_program_ok : entry_ok (Some SLinux) sample_program.
Proof.
  constructor; try done.
  - split_and!; [done|by apply trimmedb_ok|by apply fieldb_ok].
  - by apply flaglessb_ok.
  - intros c [= <-]. split_and!; [done|by apply trimmedb_ok|by apply fieldb_ok].
Qed.

Lemma sample_auto_ok : entry_ok (Some SAuto) sample_auto.
Proof.
  constructor; try done.
  - split_and!; [done|by apply trimmedb_ok|by apply fieldb_ok].
  - by apply flaglessb_ok.
  - intros c [= <-]. split_and!; [done|by apply trimmedb_ok|by apply fieldb_ok].
  - split; [done|]. split; [by split|]. split; [by right|]. split; [by right|]. intros t [= <-].
    split_and!; [done|by apply trimmedb_ok|done].
Qed.

Lemma rules_file_roundtrip_witness :
  let out := parse_rules_file (write_rules_file sample_parsed sample_unknown sample_meta) in
  sections (parsed out) = reverse (sections sample_parsed)
  /\ unknown_sections out = sample_unknown /\ preset_metadata out = sample_meta.
Proof.
  assert (H : file_ok sample_parsed sample_unknown sample_meta).
  { constructor.
    - constructor; [by apply Forall_singleton, sample_auto_ok|].
      constructor; [by apply Forall_singleton, sample_program_ok|]. apply Forall_singleton.
      constructor; [by apply plain_entry_ok|by apply Forall_singleton, plain_entry_ok].
    - apply (bool_decide_unpack (NoDup _)). vm_compute. exact I.
    - constructor; [|constructor]. split_and!; [done|by apply trimmedb_ok|by apply fieldb_ok|done|].
      constructor; [by apply plain_entry_ok|constructor].
    - apply (bool_decide_unpack (NoDup _)). vm_compute. exact I.
    - intros m [= <-]. repeat (apply Forall_cons; split); [..|constructor]; intros v [=]; subst;
        (split; [by apply trimmedb_ok|by apply fieldb_ok]). }
  destruct (rules_file_roundtrip sample_parsed sample_unknown sample_meta H) as (E1 & _ & E2 & E3 & _).
  cbn zeta. rewrite E1, E2, E3. split_and!; reflexivity.
Defined.
