(* ===== verification/RuleValue.v ===== *)
(** * One rule, validated

    core/domain/src/validation.rs, the half that reads one rule: the canonical
    form of a host name, an address, a network, a range and an application
    value, the errors that refuse them and the warnings that come with them, and
    [normalize_rule] that puts them together. *)

From stdpp Require Import base numbers list.
From S2P Require Import Prelude Str Digits IpAddr IpBlock IpText NetPolicy AppPath AppIdentity AutoRule.
From S2P Require Import Canonical Normalize RuleLine RuleClass RulesFile.

Open Scope nat_scope.

(** ** Rules as the file has them (core/domain/src/lib.rs) *)

Inductive AddressMatch : Set :=
| MExactFqdn (value : str)
| MSuffixDomain (value : str)
| MAnyZoneDomain (base : str)
| MZone (name : str)
| MExactIp (text : str)
| MSubnet (text : str)
| MIpRange (text : str).

#[export] Instance AddressMatch_eq_dec : EqDecision AddressMatch.
Proof. solve_decision. Defined.

Definition from_domain_value (value : str) : AddressMatch :=
  match strip_suffix (u ".*") value with
  | Some base => MAnyZoneDomain (default base (strip_prefix (u "*.") base))
  | None => match strip_prefix (u "*.") value with
            | Some label => MSuffixDomain label
            | None => MExactFqdn value
            end
  end.

Definition match_to_display_string (m : AddressMatch) : str :=
  match m with
  | MExactFqdn label => label
  | MSuffixDomain label => u "*." ++ label
  | MAnyZoneDomain base => base ++ u ".*"
  | MZone name => name
  | MExactIp text | MSubnet text | MIpRange text => text
  end.

Inductive AppMatchPattern : Set := AppExact (s : str) | AppGlob (s : str).

#[export] Instance AppMatchPattern_eq_dec : EqDecision AppMatchPattern.
Proof. solve_decision. Defined.

Definition app_pattern_as_str (p : AppMatchPattern) : str := match p with AppExact s | AppGlob s => s end.

(** [windows_service_name] is [None] in this version. *)
Record AppMatch : Set := mkAppMatch {
  am_pattern : AppMatchPattern;
  am_include_child_processes : bool;
  am_override_requested : bool;
}.

#[export] Instance AppMatch_eq_dec : EqDecision AppMatch.
Proof. solve_decision. Defined.

Record Rule : Set := mkRule {
  ru_id : str;
  ru_enabled : bool;
  ru_address_match : option AddressMatch;
  ru_app_match : option AppMatch;
  ru_comment : str;
  ru_action : RuleAction;
  ru_origin : option RuleOrigin;
}.

#[export] Instance Rule_eq_dec : EqDecision Rule.
Proof. solve_decision. Defined.

(** ** Errors and warnings *)

Inductive ValidationError : Set :=
| MissingPrimaryBinding
| SameAdapterBoundToBothRoles (stable_id : str)
| RuleEmptyMatch (rule_id : str)
| DomainEmptyValue (rule_id : str)
| DomainInvalidIdn (rule_id value : str)
| WrongSection (rule_id value : str) (belongs_in : RulesFileSection)
| InvalidSubnet (rule_id value : str)
| InvalidIpRange (rule_id value : str)
| NetworkTooWide (rule_id value : str) (widest_prefix : Z)
| NetworkCoversReserved (rule_id value : str) (class : AddressClass)
| InvalidIpAddress (rule_id value : str)
| IpAddressNotADestination (rule_id value : str) (class : AddressClass)
| DomainInvalidValue (rule_id value : str)
| ZoneEmptyName (rule_id : str)
| AppGlobTooWide (rule_id : str)
| AppNameInvalid (rule_id value : str)
| AppPathInvalid (rule_id value : str) (problem : AppPathError)
| TooManyRules (count limit : nat).

Definition error_rule_id (e : ValidationError) : option str :=
  match e with
  | MissingPrimaryBinding | SameAdapterBoundToBothRoles _ | TooManyRules _ _ => None
  | RuleEmptyMatch rule_id | DomainEmptyValue rule_id | DomainInvalidIdn rule_id _ | WrongSection rule_id _ _
  | InvalidSubnet rule_id _ | InvalidIpRange rule_id _ | NetworkTooWide rule_id _ _
  | NetworkCoversReserved rule_id _ _ | InvalidIpAddress rule_id _ | IpAddressNotADestination rule_id _ _
  | DomainInvalidValue rule_id _ | ZoneEmptyName rule_id | AppGlobTooWide rule_id
  | AppNameInvalid rule_id _ | AppPathInvalid rule_id _ _ => Some rule_id
  end.

(** [UnknownAdapterReference] is declared in the source and never raised by
    this pipeline. *)
Inductive ValidationWarning : Set :=
| WDomainNormalizedToAscii (rule_id original normalized : str)
| WDomainTrailingDotRemoved (rule_id original normalized : str)
| WIpv4MappedIpv6Normalized (rule_id original normalized : str)
| WProcessNameContainedPath (rule_id original normalized : str)
| WProcessNameMissingExeSuffix (rule_id original normalized : str)
| WDuplicateRuleInSameSet (kept_rule_id removed_rule_id : str) (role : RouteRole)
| WDuplicateRuleAcrossSets (primary_rule_id secondary_rule_id : str)
| WUnusualIpDestination (rule_id : str) (address : IpAddr) (class : AddressClass)
| WSingleAddressNetwork (rule_id original : str) (address : IpAddr)
| WSubnetHostBitsCleared (rule_id original normalized : str)
| WWideNetwork (rule_id value : str) (public : bool) (widest_prefix : Z)
| WRuleOnNoDestinationDropped (rule_id value : str)
| WAppPatternRefusedDropped (rule_id value : str)
| WVerifyIgnored (rule_id : str) (role : RouteRole).

(** A check that may refuse its value and pushes warnings as it goes; what was
    pushed before a refusal stays. *)
Definition Checked (A : Type) : Type := result A ValidationError * list ValidationWarning.

Definition accept {A} (x : A) : Checked A := (Ok x, []).
Definition refuse {A} (e : ValidationError) : Checked A := (Err e, []).
Definition warn (ws : list ValidationWarning) : Checked unit := (Ok tt, ws).

Definition and_then {A B} (m : Checked A) (k : A -> Checked B) : Checked B :=
  match m with
  | (Ok x, ws) => let '(r, ws') := k x in (r, ws ++ ws')
  | (Err e, ws) => (Err e, ws)
  end.

Notation "'let*' x := m 'in' k" := (and_then m (fun x => k))
  (at level 10, x name, m at level 100, k at level 200) : nrr_scope.
Open Scope nrr_scope.

(** ** Where a value belongs *)

Definition app_section_spelled_by (value : str) : RulesFileSection :=
  let v := trim value in
  let drive := match v with
               | letter :: c :: _ => is_ascii_alphabetic letter && (c =? COLON)%N
               | _ => false
               end in
  let windows := exe_tail v || drive || contains_char (is_char BACKSLASH) v in
  let posix_path := existsb (fun p => starts_with p v) [u "/"; u "./"; u "../"; u "~/"] in
  if posix_path && negb windows then SLinux else SWindows.

Definition section_of (kind : ParsedRuleType) (value : str) : RulesFileSection :=
  match kind with
  | PZone => SZones
  | PDomain => SDomains
  | PExactIp => SIp
  | PSubnet => SCidr
  | PIpRange => SRanges
  | PApplication => app_section_spelled_by value
  end.

Definition misplaced_value (section : ParsedRuleType) (value rule_id : str) (platform : HostPlatform)
  : option ValidationError :=
  (fun kind => WrongSection rule_id (trim value) (section_of kind value))
    <$> misplaced_rule_value section value (executable_naming platform).

Definition wrong_section (value rule_id : str) (section : ParsedRuleType) : option ValidationError :=
  misplaced_value section value rule_id HWindows.

Definition address_refusal (value rule_id : str) : ValidationError :=
  default (InvalidIpAddress rule_id value) (wrong_section value rule_id PExactIp).

Definition match_section (m : AddressMatch) : ParsedRuleType :=
  match m with
  | MZone _ => PZone
  | MExactFqdn _ | MSuffixDomain _ | MAnyZoneDomain _ => PDomain
  | MExactIp _ => PExactIp
  | MSubnet _ => PSubnet
  | MIpRange _ => PIpRange
  end.

(** The values of a rule, the address first, each with the section it was
    read from. *)
Definition rule_values (rule : Rule) : list (ParsedRuleType * str) :=
  match ru_address_match rule with
  | Some m => [(match_section m, match_to_display_string m)]
  | None => []
  end
  ++ match ru_app_match rule with
     | Some a => [(PApplication, app_pattern_as_str (am_pattern a))]
     | None => []
     end.

(** [Iterator::find_map]. *)
Definition find_map {A B} (f : A -> option B) (l : list A) : option B := head (omap f l).

Definition misplaced_in_rule (rule : Rule) (platform : HostPlatform) : option ValidationError :=
  find_map (fun sv => misplaced_value sv.1 sv.2 (ru_id rule) platform) (rule_values rule).

(** ** Addresses *)

Definition single_address_written (value : str) : option IpAddr :=
  let value := trim value in
  if contains_char (is_char SLASH) value then
    match IpBlock_parse value with
    | Some block => if is_single_address block then Some (canonical_ip (network block)) else None
    | None => None
    end
  else
    match IpRange_parse value with
    | Some range => if bool_decide (range_first range = range_last range)
                    then Some (canonical_ip (range_first range)) else None
    | None => None
    end.

Definition canonical_ip_address (value rule_id : str) : Checked IpAddr :=
  let value := trim value in
  match parse_ip_addr value with
  | None => refuse (address_refusal value rule_id)
  | Some addr =>
      let canonical := canonical_ip addr in
      let class := classify canonical in
      let* _ := match class with
                | Unspecified | ThisNetwork | Broadcast => refuse (IpAddressNotADestination rule_id value class)
                | Loopback | Multicast | LinkLocal => warn [WUnusualIpDestination rule_id canonical class]
                | Routable => warn []
                end in
      let* _ := warn (if bool_decide (canonical = addr) then []
                      else [WIpv4MappedIpv6Normalized rule_id (fmt_ip addr) (fmt_ip canonical)]) in
      accept canonical
  end.

Definition check_networks (value : str) (blocks : list IpBlock) (rule_id : str) : Checked unit :=
  match find_first wider_than_rule_allows blocks with
  | Some wide => refuse (NetworkTooWide rule_id value (widest_rule_prefix (is_ipv4 (network wide))))
  | None =>
      match find_map reserved_overlap blocks with
      | Some class => refuse (NetworkCoversReserved rule_id value class)
      | None =>
          let* _ := warn (match find_first touches_link_local blocks with
                          | Some link_local => [WUnusualIpDestination rule_id (network link_local) LinkLocal]
                          | None => []
                          end) in
          let* _ := warn (match find_first wider_than_fail_closed blocks with
                          | Some wide => [WWideNetwork rule_id value (negb (forallb is_private blocks))
                                            (fail_closed_widest_prefix (is_ipv4 (network wide)))]
                          | None => []
                          end) in
          accept tt
      end
  end.

Definition canonical_subnet (value rule_id : str) : Checked IpBlock :=
  let value := trim value in
  match IpBlock_parse value with
  | None => refuse (default (InvalidSubnet rule_id value) (wrong_section value rule_id PSubnet))
  | Some written =>
      let block := canonical_block written in
      let as_written := match split_once SLASH value with
                        | Some (a, _) => parse_ip_addr (trim a)
                        | None => None
                        end in
      let* _ := warn (if negb (bool_decide (network block = network written))
                      then [WIpv4MappedIpv6Normalized rule_id value (IpBlock_fmt block)]
                      else if negb (bool_decide (as_written = Some (network block)))
                      then [WSubnetHostBitsCleared rule_id value (IpBlock_fmt block)]
                      else []) in
      let* _ := check_networks value [block] rule_id in
      accept block
  end.

Definition canonical_ip_range (value rule_id : str) : Checked IpRange :=
  let value := trim value in
  let parsed :=
    match split_once DASH value with
    | Some (first, last) =>
        match parse_ip_addr (trim first), parse_ip_addr (trim last) with
        | Some first, Some last => IpRange_new (canonical_ip first) (canonical_ip last)
        | _, _ => None
        end
    | None => None
    end in
  match parsed with
  | None => refuse (default (InvalidIpRange rule_id value) (wrong_section value rule_id PIpRange))
  | Some range =>
      let widest := prefix_of_width (IpRange_is_ipv4 range) (width_bits range) in
      let allowed := widest_rule_prefix (IpRange_is_ipv4 range) in
      if (widest <? allowed)%Z then refuse (NetworkTooWide rule_id value allowed)
      else let* _ := check_networks value (range_blocks range) rule_id in accept range
  end.

(** ** Host names *)

Definition is_valid_ascii_dns_label (label : str) : bool :=
  negb (is_empty label) && (byte_len label <=? MAX_LABEL_OCTETS)
  && negb (starts_with [DASH] label) && negb (ends_with [DASH] label)
  && forallb (fun c => is_ascii_alphanumeric c || (c =? DASH)%N || (c =? UNDERSCORE)%N) label.

Definition is_valid_hostname `{Idna} (host : str) : bool :=
  if is_ascii host then forallb is_valid_ascii_dns_label (split (is_char DOT) host)
  else match domain_to_ascii host with Some _ => true | None => false end.

(** [value.parse::<Ipv6Addr>().is_ok()]. *)
Definition is_ipv6_text (value : str) : bool :=
  match read_ipv6_addr value with Some (_, []) => true | _ => false end.

Definition reject_if_not_a_hostname `{Idna} (value rule_id : str) : Checked unit :=
  if negb (existsb is_ascii_alphabetic value) || is_ipv6_text value then
    refuse (match fst (canonical_ip_address value rule_id) with
            | Ok _ | Err (IpAddressNotADestination _ _ _) => WrongSection rule_id value SIp
            | Err refusal => refusal
            end)
  else if (byte_len value <=? MAX_HOSTNAME_OCTETS) && is_valid_hostname value then accept tt
  else refuse (DomainInvalidValue rule_id value).

Definition normalize_domain_label `{Idna} (value rule_id : str) : Checked str :=
  let trimmed := trim value in
  let without_dot := trim_end_matches (is_char DOT) trimmed in
  if is_empty without_dot then refuse (DomainEmptyValue rule_id)
  else
    let* _ := warn (if str_eqb without_dot trimmed then []
                    else [WDomainTrailingDotRemoved rule_id trimmed without_dot]) in
    if is_ascii without_dot then
      let lowercased := to_ascii_lowercase without_dot in
      let* _ := reject_if_not_a_hostname lowercased rule_id in
      accept lowercased
    else
      match domain_to_ascii without_dot with
      | Some ascii =>
          let* _ := warn (if str_eqb ascii without_dot then []
                          else [WDomainNormalizedToAscii rule_id without_dot ascii]) in
          let* _ := reject_if_not_a_hostname ascii rule_id in
          accept ascii
      | None => refuse (DomainInvalidIdn rule_id without_dot)
      end.

Inductive HostNameKind : Set := ZoneName | DomainName.

Definition zone_body (value : str) : str :=
  let trimmed := trim value in
  let stripped := default trimmed (strip_prefix (u "*.") trimmed) in
  default stripped (strip_prefix [DOT] stripped).

Definition canonical_host_name `{Idna} (kind : HostNameKind) (value rule_id : str) : Checked str :=
  match kind with
  | DomainName => normalize_domain_label value rule_id
  | ZoneName =>
      let body := zone_body value in
      if is_empty body then refuse (ZoneEmptyName rule_id) else normalize_domain_label body rule_id
  end.

Definition suffix_or_zone (normalized : str) : CanonicalAddressMatch :=
  if is_empty normalized || contains_char (is_char DOT) normalized
  then SuffixDomain normalized else Zone normalized.

(** ** Applications *)

Definition refuse_unholdable_app_value (raw rule_id : str) (limit : nat) : Checked unit :=
  let trimmed := trim raw in
  let misplaced_deny :=
    carries_retired_block_flag trimmed
    || starts_with [DENY_PREFIX] (default trimmed (strip_prefix [VERIFY_PRIMARY_PREFIX] trimmed)) in
  if (limit <? byte_len raw) || negb (is_none (first_forbidden_field_char raw)) || misplaced_deny
  then refuse (AppNameInvalid rule_id raw)
  else accept tt.

Definition optional_warning (original : option str) (w : str -> ValidationWarning) : list ValidationWarning :=
  match original with Some o => [w o] | None => [] end.

Definition canonical_name_pattern `{Unicode} (raw : str) (glob : bool) (naming : ExecutableNaming)
  (rule_id : str) : Checked CanonicalAppPattern :=
  let* _ := refuse_unholdable_app_value raw rule_id MAX_RULE_VALUE_BYTES in
  if glob then
    let lowercased := canonical_glob_process_pattern raw in
    let key := app_match_key lowercased in
    if negb (is_empty key) && forallb (is_char STAR) key then refuse (AppGlobTooWide rule_id)
    else accept (Glob lowercased)
  else
    let '(process_name, changes) := canonical_exact_process_name raw naming in
    let* _ := warn (optional_warning (stripped_path_from changes)
                      (fun o => WProcessNameContainedPath rule_id o process_name)
                    ++ optional_warning (appended_exe_to changes)
                         (fun o => WProcessNameMissingExeSuffix rule_id o process_name)) in
    accept (Exact process_name).

Definition canonical_app_pattern `{Unicode} (raw : str) (glob : bool) (platform : HostPlatform)
  (rule_id : str) : Checked CanonicalAppPattern :=
  let style := path_style platform in
  if is_path_value raw style then
    let* _ := refuse_unholdable_app_value raw rule_id MAX_PATH_VALUE_BYTES in
    match AppPath_parse raw style with
    | Ok path => accept (Path path)
    | Err problem => refuse (AppPathInvalid rule_id raw problem)
    end
  else canonical_name_pattern raw glob (executable_naming platform) rule_id.

Definition normalize_app_match `{Unicode} (app : AppMatch) (platform : HostPlatform) (rule_id : str)
  : Checked CanonicalAppMatch :=
  let '(raw, glob) := match am_pattern app with
                      | AppExact raw => (raw, false)
                      | AppGlob raw => (raw, true)
                      end in
  let* pattern := canonical_app_pattern raw glob platform rule_id in
  accept {| pattern := pattern;
            include_child_processes := am_include_child_processes app;
            Canonical.override_requested := am_override_requested app |}.

(** ** The rule *)

(** What became of one rule: kept, dropped with a warning, or refused with an
    error; and the warnings. *)
Definition Normalized (A : Type) : Type := option A * list ValidationError * list ValidationWarning.

(** A value of the rule: [Some] of its canonical form, or why there is none. *)
Definition value_of {A} (drop : ValidationError -> option ValidationWarning) (c : Checked A) : Normalized A :=
  match c with
  | (Ok x, ws) => (Some x, [], ws)
  | (Err e, ws) => match drop e with
                   | Some w => (None, [], ws ++ [w])
                   | None => (None, [e], ws)
                   end
  end.

(** A rule on an address that is never a destination is dropped, the rest of
    the file still imports. *)
Definition no_destination (e : ValidationError) : option ValidationWarning :=
  match e with
  | NetworkCoversReserved rule_id value _ => Some (WRuleOnNoDestinationDropped rule_id value)
  | _ => None
  end.

Definition no_destination_ip (e : ValidationError) : option ValidationWarning :=
  match e with
  | IpAddressNotADestination rule_id value _ => Some (WRuleOnNoDestinationDropped rule_id value)
  | _ => None
  end.

Definition refused_app (a : AppMatch) (e : ValidationError) : option ValidationWarning :=
  match e with
  | AppNameInvalid rule_id _ | AppPathInvalid rule_id _ _ | AppGlobTooWide rule_id =>
      Some (WAppPatternRefusedDropped rule_id (app_pattern_as_str (am_pattern a)))
  | _ => None
  end.

Definition map_checked {A B} (f : A -> B) (c : Checked A) : Checked B := let* x := c in accept (f x).

Definition written_match (rule : Rule) : option AddressMatch * list ValidationWarning :=
  match ru_address_match rule with
  | Some (MSubnet text | MIpRange text) =>
      match single_address_written text with
      | Some address => (Some (MExactIp (fmt_ip address)), [WSingleAddressNetwork (ru_id rule) (trim text) address])
      | None => (ru_address_match rule, [])
      end
  | other => (other, [])
  end.

Definition normalize_address `{Idna} (rule_id : str) (m : AddressMatch) : Normalized CanonicalAddressMatch :=
  match m with
  | MZone name => value_of (fun _ => None) (map_checked Zone (canonical_host_name ZoneName name rule_id))
  | MExactFqdn value =>
      value_of (fun _ => None) (map_checked ExactFqdn (canonical_host_name DomainName value rule_id))
  | MSuffixDomain value =>
      value_of (fun _ => None) (map_checked suffix_or_zone (canonical_host_name DomainName value rule_id))
  | MAnyZoneDomain base =>
      value_of (fun _ => None) (map_checked AnyZoneDomain (canonical_host_name DomainName base rule_id))
  | MSubnet text => value_of no_destination (map_checked Subnet (canonical_subnet text rule_id))
  | MIpRange text => value_of no_destination (map_checked Range (canonical_ip_range text rule_id))
  | MExactIp text => value_of no_destination_ip (map_checked ExactIp (canonical_ip_address text rule_id))
  end.

Definition normalize_app `{Unicode} (platform : HostPlatform) (rule_id : str) (a : AppMatch)
  : Normalized CanonicalAppMatch :=
  value_of (refused_app a) (normalize_app_match a platform rule_id).

(** A part the rule may not have; a missing one stays missing. *)
Definition normalize_part {A B} (f : A -> Normalized B) (part : option A) : Normalized (option B) :=
  match part with
  | None => (Some None, [], [])
  | Some x => match f x with
              | (Some y, es, ws) => (Some (Some y), es, ws)
              | (None, es, ws) => (None, es, ws)
              end
  end.

(** The next part is read only when the rule survived this one. *)
Definition next_part {A B} (m : Normalized A) (k : A -> Normalized B) : Normalized B :=
  match m with
  | (Some x, es, ws) => let '(r, es', ws') := k x in (r, es ++ es', ws ++ ws')
  | (None, es, ws) => (None, es, ws)
  end.

Definition normalize_rule `{Unicode} `{Idna} (rule : Rule) (platform : HostPlatform)
  : Normalized CanonicalRule :=
  if is_none (ru_address_match rule) && is_none (ru_app_match rule)
  then (None, [RuleEmptyMatch (ru_id rule)], [])
  else match misplaced_in_rule rule platform with
       | Some misplaced => (None, [misplaced], [])
       | None =>
           let '(written, single) := written_match rule in
           next_part (Some tt, [], single) (fun _ =>
           next_part (normalize_part (normalize_address (ru_id rule)) written) (fun address =>
           next_part (normalize_part (normalize_app platform (ru_id rule)) (ru_app_match rule)) (fun app =>
           (Some {| r_id := ru_id rule; r_enabled := ru_enabled rule;
                    r_address_match := address; r_app_match := app;
                    r_comment := trim (ru_comment rule); r_action := ru_action rule;
                    r_origin := ru_origin rule |}, [], []))))
       end.

(** ** [?] where it means something *)

Definition verify_applies (rule : CanonicalRule) : bool :=
  match r_address_match rule with
  | Some (ExactFqdn _ | SuffixDomain _ | ExactIp (V4 _)) => true
  | _ => false
  end.

(** The rule with a [?] that means nothing turned into a route, and whether it
    was turned. *)
Definition settle_verify (rule : CanonicalRule) : CanonicalRule * bool :=
  if bool_decide (r_action rule = Verify) && negb (verify_applies rule)
  then ({| r_id := r_id rule; r_enabled := r_enabled rule;
           r_address_match := r_address_match rule; r_app_match := r_app_match rule;
           r_comment := r_comment rule; r_action := Route; r_origin := r_origin rule |}, true)
  else (rule, false).

Definition normalize_rule_of `{Unicode} `{Idna} (role : RouteRole) (platform : HostPlatform) (rule : Rule)
  : Normalized CanonicalRule :=
  next_part (normalize_rule rule platform) (fun canonical =>
  let '(settled, turned) := settle_verify canonical in
  (Some settled, [], if turned then [WVerifyIgnored (r_id settled) role] else [])).

Fixpoint normalize_rule_set `{Unicode} `{Idna} (rules : list Rule) (role : RouteRole)
  (platform : HostPlatform) : list CanonicalRule * list ValidationError * list ValidationWarning :=
  match rules with
  | [] => ([], [], [])
  | rule :: rules' =>
      let '(kept, es, ws) := normalize_rule_of role platform rule in
      let '(out, es', ws') := normalize_rule_set rules' role platform in
      (option_list kept ++ out, es ++ es', ws ++ ws')
  end.

(** ** Reading a check *)

Lemma and_then_Ok {A B} (m : Checked A) (k : A -> Checked B) y ws :
  and_then m k = (Ok y, ws) <->
  exists x w1 w2, m = (Ok x, w1) /\ k x = (Ok y, w2) /\ ws = w1 ++ w2.
Proof.
  unfold and_then. destruct m as [[x|e] w1].
  - destruct (k x) as [r w2] eqn:E. split.
    + intros [= -> <-]. eauto 10.
    + intros (x' & w1' & w2' & [= <- <-] & E' & ->). rewrite E in E'. by injection E' as -> ->.
  - split; [done|]. intros (? & ? & ? & ? & _). done.
Qed.

Lemma map_checked_Ok {A B} (f : A -> B) c y ws :
  map_checked f c = (Ok y, ws) <-> exists x, c = (Ok x, ws) /\ y = f x.
Proof.
  unfold map_checked. rewrite and_then_Ok. split.
  - intros (x & w1 & w2 & -> & [= <- <-] & ->). rewrite app_nil_r. eauto.
  - intros (x & -> & ->). exists x, ws, []. by rewrite app_nil_r.
Qed.

(** Every refusal names the rule it refuses. *)
Definition errs_on {A} (rule_id : str) (c : Checked A) : Prop :=
  match fst c with Ok _ => True | Err e => error_rule_id e = Some rule_id end.

Lemma errs_accept {A} i (x : A) : errs_on i (accept x).
Proof. done. Qed.

Lemma errs_warn i ws : errs_on i (warn ws).
Proof. done. Qed.

Lemma errs_refuse {A} i e : error_rule_id e = Some i -> errs_on i (@refuse A e).
Proof. done. Qed.

Lemma errs_and_then {A B} i (m : Checked A) (k : A -> Checked B) :
  errs_on i m -> (forall x, errs_on i (k x)) -> errs_on i (and_then m k).
Proof.
  intros Hm Hk. unfold and_then. destruct m as [[x|e] w]; [|exact Hm].
  specialize (Hk x). by destruct (k x) as [r w'].
Qed.

#[export] Hint Resolve errs_accept errs_warn errs_refuse errs_and_then : nrr.

Lemma errs_misplaced section value i platform e :
  misplaced_value section value i platform = Some e -> error_rule_id e = Some i.
Proof. unfold misplaced_value. intros (k & _ & ->)%fmap_Some. done. Qed.

Lemma errs_default_wrong e value i section :
  error_rule_id e = Some i -> error_rule_id (default e (wrong_section value i section)) = Some i.
Proof.
  intros He. destruct (wrong_section value i section) eqn:E; [|done]. by eapply errs_misplaced.
Qed.

#[export] Hint Resolve errs_default_wrong : nrr.

Ltac errs :=
  repeat first
    [ done
    | apply errs_accept | apply errs_warn
    | apply errs_and_then; [|intros ?]
    | apply errs_refuse
    | apply errs_default_wrong
    | case_match ].

Lemma canonical_ip_address_errs value i : errs_on i (canonical_ip_address value i).
Proof. unfold canonical_ip_address, address_refusal. errs. Qed.

Lemma check_networks_errs value blocks i : errs_on i (check_networks value blocks i).
Proof. unfold check_networks. errs. Qed.

Lemma canonical_subnet_errs value i : errs_on i (canonical_subnet value i).
Proof. unfold canonical_subnet. errs; apply check_networks_errs. Qed.

Lemma canonical_ip_range_errs value i : errs_on i (canonical_ip_range value i).
Proof. unfold canonical_ip_range. errs; apply check_networks_errs. Qed.

Section Checks.
Context `{Unicode} `{Idna}.

Lemma reject_errs value i : errs_on i (reject_if_not_a_hostname value i).
Proof.
  unfold reject_if_not_a_hostname. pose proof (canonical_ip_address_errs value i) as He. unfold errs_on in He.
  repeat case_match; try done; by apply errs_refuse.
Qed.

Lemma normalize_domain_label_errs value i : errs_on i (normalize_domain_label value i).
Proof. unfold normalize_domain_label. errs; apply reject_errs. Qed.

Lemma canonical_host_name_errs kind value i : errs_on i (canonical_host_name kind value i).
Proof. unfold canonical_host_name. errs; apply normalize_domain_label_errs. Qed.

Lemma refuse_unholdable_errs raw i limit : errs_on i (refuse_unholdable_app_value raw i limit).
Proof. unfold refuse_unholdable_app_value. errs. Qed.

Lemma normalize_app_match_errs a platform i : errs_on i (normalize_app_match a platform i).
Proof.
  unfold normalize_app_match, canonical_app_pattern, canonical_name_pattern.
  errs; apply refuse_unholdable_errs.
Qed.

End Checks.

(** ** The fate of a rule

    A rule is kept, refused by one error that names it, or dropped with a
    warning that names it. *)

Definition drop_notice (w : ValidationWarning) : option str :=
  match w with
  | WRuleOnNoDestinationDropped rule_id _ | WAppPatternRefusedDropped rule_id _ => Some rule_id
  | _ => None
  end.

Definition fate {A} (i : str) (n : Normalized A) : Prop :=
  match n with
  | (Some _, es, _) => es = []
  | (None, es, ws) => (exists e, es = [e] /\ error_rule_id e = Some i)
                      \/ (es = [] /\ exists w, w ∈ ws /\ drop_notice w = Some i)
  end.

Lemma fate_value_of {A} i drop (c : Checked A) :
  errs_on i c -> (forall e w, error_rule_id e = Some i -> drop e = Some w -> drop_notice w = Some i) ->
  fate i (value_of drop c).
Proof.
  intros Hc Hd. destruct c as [[x|e] ws]; [done|]. unfold value_of. destruct (drop e) as [w|] eqn:E; simpl.
  - right. split; [done|]. exists w. split; [|exact (Hd e w Hc E)]. apply elem_of_app. right. by left.
  - left. by exists e.
Qed.

Lemma fate_part {A B} i (f : A -> Normalized B) part : (forall x, fate i (f x)) -> fate i (normalize_part f part).
Proof.
  intros Hf. destruct part as [x|]; [|done]. specialize (Hf x). unfold normalize_part.
  by destruct (f x) as [[[y|] es] ws].
Qed.

Lemma fate_next {A B} i (m : Normalized A) (k : A -> Normalized B) :
  fate i m -> (forall x, fate i (k x)) -> fate i (next_part m k).
Proof.
  intros Hm Hk. destruct m as [[[x|] es] ws]; [|exact Hm]. simpl in *. subst es. specialize (Hk x).
  destruct (k x) as [[[y|] es'] ws']; [done|]. destruct Hk as [He|[He (w & Hw & Hn)]]; [by left|].
  right. split; [done|]. exists w. split; [|done]. apply elem_of_app. by right.
Qed.

Lemma errs_map {A B} i (f : A -> B) c : errs_on i c -> errs_on i (map_checked f c).
Proof. intros Hc. by apply errs_and_then. Qed.

Section Fate.
Context `{Unicode} `{Idna}.

Lemma normalize_address_fate i m : fate i (normalize_address i m).
Proof.
  destruct m; apply fate_value_of.
  all: try (apply errs_map; first [apply canonical_host_name_errs | apply canonical_subnet_errs
    | apply canonical_ip_range_errs | apply canonical_ip_address_errs]).
  all: intros e w E1 E2; destruct e; by simplify_eq/=.
Qed.

Lemma normalize_app_fate platform i a : fate i (normalize_app platform i a).
Proof.
  apply fate_value_of; [apply normalize_app_match_errs|].
  intros e w E1 E2; destruct e; by simplify_eq/=.
Qed.

Lemma normalize_rule_fate rule platform : fate (ru_id rule) (normalize_rule rule platform).
Proof.
  unfold normalize_rule. destruct (_ && _).
  { left. by eexists. }
  destruct (misplaced_in_rule rule platform) as [e|] eqn:E.
  { left. exists e. split; [done|]. unfold misplaced_in_rule, find_map in E. apply head_Some_elem_of in E.
    apply list_elem_of_omap in E as (sv & _ & E). by eapply errs_misplaced. }
  destruct (written_match rule) as [written single].
  apply fate_next; [done|]. intros _. apply fate_next.
  { apply fate_part. intros m. apply normalize_address_fate. }
  intros address. apply fate_next; [|done]. apply fate_part. intros a. apply normalize_app_fate.
Qed.

Lemma normalize_rule_of_fate role platform rule : fate (ru_id rule) (normalize_rule_of role platform rule).
Proof.
  apply fate_next; [apply normalize_rule_fate|]. intros c. by destruct (settle_verify c).
Qed.

(** What is kept is the rule itself: its id, its state, its author. *)
Lemma normalize_rule_Some rule platform r es ws :
  normalize_rule rule platform = (Some r, es, ws) ->
  misplaced_in_rule rule platform = None /\ es = [] /\
  (exists w1, normalize_part (normalize_address (ru_id rule)) (fst (written_match rule))
              = (Some (r_address_match r), [], w1)) /\
  (exists w2, normalize_part (normalize_app platform (ru_id rule)) (ru_app_match rule)
              = (Some (r_app_match r), [], w2)) /\
  r_id r = ru_id rule /\ r_enabled r = ru_enabled rule /\ r_comment r = trim (ru_comment rule)
  /\ r_action r = ru_action rule /\ r_origin r = ru_origin rule.
Proof.
  intros E. pose proof (normalize_rule_fate rule platform) as Hf. rewrite E in Hf. simpl in Hf. subst es.
  revert E. unfold normalize_rule. destruct (_ && _); [done|].
  destruct (misplaced_in_rule rule platform) as [e|]; [done|].
  destruct (written_match rule) as [written single]. cbn [next_part fst].
  destruct (normalize_part _ written) as [[[a|] e1] w1] eqn:E1; [|done].
  destruct (normalize_part _ (ru_app_match rule)) as [[[b|] e2] w2] eqn:E2; [|done].
  cbn [next_part]. intros E. injection E as <- Ee _. apply app_eq_nil in Ee as [-> [-> _]%app_eq_nil].
  split_and!; eauto.
Qed.

Lemma normalize_rule_of_Some role platform rule r es ws :
  normalize_rule_of role platform rule = (Some r, es, ws) ->
  exists r0 ws0, normalize_rule rule platform = (Some r0, [], ws0) /\ r = fst (settle_verify r0) /\ es = [].
Proof.
  unfold normalize_rule_of. destruct (normalize_rule rule platform) as [[[r0|] es0] ws0] eqn:E; [|done].
  pose proof (normalize_rule_fate rule platform) as Hf. rewrite E in Hf. simpl in Hf. subst es0. cbn [next_part].
  destruct (settle_verify r0) as [s t] eqn:Es. intros [= <- <- _]. exists r0, ws0. by rewrite Es.
Qed.

End Fate.
