(* ===== verification/RuleAccept.v ===== *)
(** * What an accepted rule is

    The canonical form [normalize_rule] promises of the rules it keeps: host
    names the runtime's normalizer leaves as they are, addresses and networks of
    no reserved class and of a bounded width, application patterns in the
    platform's spelling. The crate [idna] is a parameter with two documented
    laws. *)

From stdpp Require Import base numbers list.
From S2P Require Import Prelude Str Digits IpAddr IpBlock IpText NetPolicy AppPath AppIdentity AutoRule.
From S2P Require Import Canonical Normalize RuleLine RuleClass RulesFile RuleValue.

Open Scope nat_scope.

(** [domain_to_ascii] returns an ASCII name in lower case (UTS 46). *)
Class IdnaLaws `{Idna} : Prop := {
  idna_ascii s a : domain_to_ascii s = Some a -> is_ascii a = true;
  idna_lower s a : domain_to_ascii s = Some a -> to_ascii_lowercase a = a;
}.

(** ** Host names *)

Definition host_ok (n : str) : Prop :=
  is_ascii n = true /\ to_ascii_lowercase n = n /\ byte_len n <= MAX_HOSTNAME_OCTETS
  /\ forallb is_valid_ascii_dns_label (split (is_char DOT) n) = true
  /\ existsb is_ascii_alphabetic n = true /\ is_ipv6_text n = false.

Lemma valid_label_chars label :
  is_valid_ascii_dns_label label = true -> forallb hostname_char label = true.
Proof.
  unfold is_valid_ascii_dns_label. rewrite !andb_true_iff. intros [_ Hc].
  apply forallb_forall. intros c Hin. rewrite forallb_forall in Hc. specialize (Hc c Hin).
  unfold hostname_char. destruct (is_ascii_alphanumeric c), (c =? DASH)%N, (c =? UNDERSCORE)%N, (c =? DOT)%N;
    done.
Qed.

Lemma split_forallb p (s : str) d :
  Forall (fun piece => forallb p piece = true) (split (is_char d) s) -> p d = true -> forallb p s = true.
Proof.
  intros Hs Hd. induction s as [|c s IH]; [done|]. cbn [split] in Hs. cbn [forallb].
  destruct (is_char d c) eqn:E.
  - apply N.eqb_eq in E as <-. rewrite Hd. apply IH. by inversion Hs.
  - destruct (split (is_char d) s) as [|piece rest] eqn:Es; [by apply split_not_nil in Es|].
    inversion Hs as [|x l H1 H2]. simpl in H1. apply andb_true_iff in H1 as [-> H1]. apply IH. by constructor.
Qed.

Lemma host_ok_chars n : host_ok n -> forallb hostname_char n = true.
Proof.
  intros (_ & _ & _ & Hl & _). apply (split_forallb _ _ DOT); [|done].
  apply Forall_forall. intros label Hin. apply valid_label_chars. rewrite forallb_forall in Hl.
  apply Hl. by apply list_elem_of_In.
Qed.

Lemma host_ok_labels n : host_ok n -> dns_labels_are_well_formed n = true.
Proof.
  intros (_ & _ & Hb & Hl & Ha & _). unfold dns_labels_are_well_formed.
  destruct n as [|c n]; [done|]. cbn [is_empty orb]. rewrite (proj2 (Nat.ltb_ge _ _) Hb).
  apply forallb_forall. intros label Hin. rewrite forallb_forall in Hl. specialize (Hl label Hin).
  unfold is_valid_ascii_dns_label in Hl. rewrite !andb_true_iff in Hl. destruct Hl as [[[[-> ->] _] _] _]. done.
Qed.

Lemma host_ok_trim n : host_ok n -> trim n = n.
Proof.
  intros Hn. apply trim_id, contains_char_false. intros c Hc. apply hostname_char_not_whitespace.
  pose proof (host_ok_chars n Hn) as H. rewrite forallb_forall in H. apply H. by apply list_elem_of_In.
Qed.

(** The runtime reads an accepted name as itself. *)
Lemma host_ok_runtime `{Idna} n : host_ok n -> normalize_hostname_value (Some n) = (HostValid n, []).
Proof.
  intros Hn. pose proof (host_ok_labels n Hn) as Hl. pose proof (host_ok_chars n Hn) as Hc.
  destruct (labels_no_trailing_dot n Hl) as [Hd Hne]. pose proof Hn as (Ha & Hlow & _).
  unfold normalize_hostname_value. rewrite host_ok_trim by exact Hn.
  rewrite (proj2 (is_empty_false n) Hne), Hd, Ha, Hlow, Hc, Hl. done.
Qed.

Section Names.
Context `{Idna} {HL : IdnaLaws}.

Lemma reject_Ok v i x ws :
  reject_if_not_a_hostname v i = (Ok x, ws) ->
  ws = [] /\ existsb is_ascii_alphabetic v = true /\ is_ipv6_text v = false
  /\ byte_len v <= MAX_HOSTNAME_OCTETS /\ is_valid_hostname v = true.
Proof using Type.
  unfold reject_if_not_a_hostname, refuse, accept. destruct (existsb is_ascii_alphabetic v); [|done].
  destruct (is_ipv6_text v); [done|]. cbn [negb orb].
  destruct (byte_len v <=? MAX_HOSTNAME_OCTETS) eqn:E1; [|done]. apply Nat.leb_le in E1.
  destruct (is_valid_hostname v); [|done]. by intros [= _ <-].
Qed.

Lemma reject_host_ok v i x ws :
  is_ascii v = true -> to_ascii_lowercase v = v -> reject_if_not_a_hostname v i = (Ok x, ws) -> host_ok v.
Proof using Type.
  intros Ha Hl (_ & Hal & H6 & Hb & Hv)%reject_Ok. unfold is_valid_hostname in Hv. rewrite Ha in Hv. by split_and!.
Qed.

(** The ACE form of a name, as validation and the runtime compute it. *)
Definition ace_of (name : str) : option str :=
  if is_ascii name then Some (to_ascii_lowercase name) else domain_to_ascii name.

Lemma normalize_domain_label_Ok v i n ws :
  normalize_domain_label v i = (Ok n, ws) ->
  host_ok n /\ ace_of (trim_end_matches (is_char DOT) (trim v)) = Some n.
Proof using HL.
  unfold normalize_domain_label, ace_of. set (w := trim_end_matches _ _).
  destruct (is_empty w); [done|]. intros (x & w1 & w2 & _ & E & _)%and_then_Ok. revert E.
  destruct (is_ascii w) eqn:Ea.
  - intros (y & w3 & w4 & E & [= <- _] & _)%and_then_Ok. split; [|done].
    apply (reject_host_ok _ _ _ _) in E; [done|by apply to_ascii_lowercase_ascii|apply to_ascii_lowercase_idemp].
  - destruct (domain_to_ascii w) as [a|] eqn:Ei; [|done].
    intros (y & w3 & w4 & _ & E & _)%and_then_Ok. apply and_then_Ok in E as (z & w5 & w6 & E & [= <- _] & _).
    split; [|done]. apply (reject_host_ok _ _ _ _) in E; [done|by eapply idna_ascii|by eapply idna_lower].
Qed.

Lemma canonical_host_name_ok kind v i n ws : canonical_host_name kind v i = (Ok n, ws) -> host_ok n.
Proof using HL.
  destruct kind; simpl; [destruct (is_empty _); [done|]|]; intros []%normalize_domain_label_Ok; done.
Qed.

(** A domain rule that validation accepts is alive: its stored name is
    made of DNS labels in lower case ([host_ok]), the runtime's host normalizer
    reads its stored name back as that very name, and a connection to
    the host as the user wrote it (at most one trailing dot, any case, Unicode or
    not) is normalized to the same name whenever the runtime accepts it at all.
    So no name is accepted that a packet could never carry. *)
Theorem accepted_name_is_alive v i n ws :
  canonical_host_name DomainName v i = (Ok n, ws) ->
  host_ok n
  /\ normalize_hostname_value (Some n) = (HostValid n, [])
  /\ (trim_end_matches (is_char DOT) (trim v) = default (trim v) (strip_suffix [DOT] (trim v)) ->
      forall m ws', normalize_hostname_value (Some v) = (HostValid m, ws') -> m = n).
Proof using HL.
  intros [Hn Hace]%normalize_domain_label_Ok. split; [done|]. split; [by apply host_ok_runtime|].
  intros Hdot m ws'. unfold normalize_hostname_value. destruct (is_empty (trim v)); [done|].
  rewrite Hdot in Hace. revert Hace. unfold ace_of.
  destruct (strip_suffix [DOT] (trim v)) as [w|]; cbn [default from_option id];
    [|set (w := trim v)]; destruct (is_ascii w); intros Hace.
  1,3: injection Hace as <-; repeat case_match; by intros [= <- _].
  all: rewrite Hace; repeat case_match; by intros [= <- _].
Qed.

End Names.

(** A concrete converter with one entry, for the examples. *)
Definition sample_idna : Idna :=
  {| domain_to_ascii := fun s =>
       if str_eqb s [1087; 1088; 1080; 1084; 1077; 1088; 46; 1088; 1092]%N
       then Some (u "xn--e1afmkfd.xn--p1ai") else None |}.

#[export] Instance sample_idna_laws : @IdnaLaws sample_idna.
Proof.
  split; intros s a; cbn [domain_to_ascii sample_idna]; destruct (str_eqb _ _); intros E; simplify_eq; reflexivity.
Qed.

Lemma accepted_name_is_alive_witness :
  let v := [1087; 1088; 1080; 1084; 1077; 1088; 46; 1088; 1092]%N in
  let n := u "xn--e1afmkfd.xn--p1ai" in
  @canonical_host_name sample_idna DomainName v (u "r-0001")
    = (Ok n, [WDomainNormalizedToAscii (u "r-0001") v n])
  /\ @normalize_hostname_value sample_idna (Some n) = (HostValid n, []).
Proof.
  intros v n. assert (E : @canonical_host_name sample_idna DomainName v (u "r-0001")
    = (Ok n, [WDomainNormalizedToAscii (u "r-0001") v n])) by (vm_compute; reflexivity).
  split; [exact E|]. apply (@accepted_name_is_alive sample_idna _ v (u "r-0001") n _ E).
Defined.

(** ** Addresses and networks *)

(** An address some packet may be sent to. *)
Definition destination_class (c : AddressClass) : bool :=
  match c with Unspecified | ThisNetwork | Broadcast => false | _ => true end.

Definition block_ok (b : IpBlock) : Prop :=
  block_wf b /\ wider_than_rule_allows b = false
  /\ forall a, ip_wf a -> in_block b a -> reserved_class (classify a) = false.

Definition canonical_address_ok (m : CanonicalAddressMatch) : Prop :=
  match m with
  | ExactFqdn n | AnyZoneDomain n | Zone n => host_ok n
  | SuffixDomain n => host_ok n /\ contains_char (is_char DOT) n = true
  | ExactIp a => ip_wf a /\ canonical_ip a = a /\ destination_class (classify a) = true
  | Subnet b => block_ok b /\ canonical_block b = b
  | Range r =>
      range_wf r /\ Forall block_ok (range_blocks r)
      /\ (canonical_ip (range_first r) = range_first r /\ canonical_ip (range_last r) = range_last r)
      /\ (prefix_of_width (IpRange_is_ipv4 r) (width_bits r) <? widest_rule_prefix (IpRange_is_ipv4 r))%Z = false
      /\ forall a, ip_wf a -> IpRange_contains r a = true -> reserved_class (classify a) = false
  end.

Lemma canonical_ip_address_Ok value i a ws :
  canonical_ip_address value i = (Ok a, ws) ->
  ip_wf a /\ canonical_ip a = a /\ destination_class (classify a) = true.
Proof.
  unfold canonical_ip_address. destruct (parse_ip_addr (trim value)) as [addr|] eqn:Ep; [|done].
  intros (x & w1 & w2 & E1 & E2 & _)%and_then_Ok.
  apply and_then_Ok in E2 as (y & w3 & w4 & _ & [= <- _] & _).
  split; [by eapply canonical_ip_wf, parse_ip_wf|]. split; [apply canonical_ip_idemp|].
  by destruct (classify (canonical_ip addr)).
Qed.

Lemma find_map_None {A B} (f : A -> option B) l : find_map f l = None <-> forall x, x ∈ l -> f x = None.
Proof.
  unfold find_map. induction l as [|y l IH]; csimpl.
  - split; [intros _ x Hx; by apply not_elem_of_nil in Hx|done].
  - destruct (f y) eqn:E; simpl.
    + split; [done|]. intros H. specialize (H y (list_elem_of_here y l)). congruence.
    + rewrite IH. split; intros H x Hx; [|by apply H; right]. apply elem_of_cons in Hx as [->|Hx]; auto.
Qed.

Lemma check_networks_Ok value blocks i x ws :
  Forall block_wf blocks -> check_networks value blocks i = (Ok x, ws) -> Forall block_ok blocks.
Proof.
  intros Hb. unfold check_networks.
  destruct (find_first wider_than_rule_allows blocks) eqn:E1; [done|].
  destruct (find_map reserved_overlap blocks) eqn:E2; [done|]. intros _.
  apply Forall_forall. intros b Hin. rewrite Forall_forall in Hb.
  split; [by apply Hb|]. split; [exact (proj1 (find_first_None _ _) E1 b Hin)|].
  intros a Ha Hba. apply not_true_iff_false. intros Hr.
  pose proof (proj1 (find_map_None _ _) E2 b Hin) as E. apply eq_None_not_Some in E. apply E.
  apply reserved_overlap_tables. apply overlaps_networks; [by apply Hb|].
  exists a. split; [done|]. split; [done|]. by apply classify_reserved.
Qed.

Lemma canonical_block_wf b : block_wf b -> block_wf (canonical_block b).
Proof.
  intros Hb. unfold canonical_block. destruct (network b) as [v|v] eqn:En; [done|].
  destruct (96 <=? prefix_len b)%Z eqn:Ep; [|done]. apply Z.leb_le in Ep.
  destruct (is_ipv4 (canonical_ip (V6 v))); [|done].
  destruct (IpBlock_new _ _) as [b'|] eqn:E; [|done]. cbn [default from_option id].
  apply IpBlock_new_Some in E as (_ & _ & _ & _ & Hw); [done| |lia].
  apply canonical_ip_wf. rewrite <- En. apply Hb.
Qed.

Lemma canonical_block_idemp b : canonical_block (canonical_block b) = canonical_block b.
Proof.
  unfold canonical_block at 2 3. destruct (network b) as [v|v] eqn:En; [unfold canonical_block; by rewrite En|].
  destruct (96 <=? prefix_len b)%Z eqn:Ep; [|unfold canonical_block; by rewrite En, Ep].
  destruct (is_ipv4 (canonical_ip (V6 v))) eqn:E4; [|unfold canonical_block; by rewrite En, Ep, E4].
  unfold IpBlock_new at 1 2. destruct (_ <? _)%Z eqn:El; cbn [default from_option id].
  - unfold canonical_block. rewrite En, Ep, E4. unfold IpBlock_new. by rewrite El.
  - destruct (canonical_ip (V6 v)) as [w|w]; [reflexivity|done].
Qed.

Lemma canonical_subnet_Ok value i b ws :
  canonical_subnet value i = (Ok b, ws) -> block_ok b /\ canonical_block b = b.
Proof.
  unfold canonical_subnet. destruct (IpBlock_parse (trim value)) as [written|] eqn:Ep; [|done].
  intros (x & w1 & w2 & _ & E & _)%and_then_Ok. apply and_then_Ok in E as (y & w3 & w4 & E & [= <- _] & _).
  split; [|apply canonical_block_idemp].
  apply check_networks_Ok in E; [by inversion E|]. constructor; [|done].
  by eapply canonical_block_wf, IpBlock_parse_wf.
Qed.

Lemma canonical_ip_range_Ok value i r ws :
  canonical_ip_range value i = (Ok r, ws) -> canonical_address_ok (Range r).
Proof.
  unfold canonical_ip_range. destruct (split_once DASH (trim value)) as [[f l]|]; [|done].
  destruct (parse_ip_addr (trim f)) as [a|] eqn:Ef; [|done].
  destruct (parse_ip_addr (trim l)) as [b|] eqn:El; [|done].
  destruct (IpRange_new (canonical_ip a) (canonical_ip b)) as [range|] eqn:Er; [|done].
  destruct (_ <? _)%Z eqn:Ew; [done|]. intros (x & w1 & w2 & E & [= <- _] & _)%and_then_Ok.
  apply parse_ip_wf, canonical_ip_wf in Ef, El.
  assert (Hi := range_blocks_inside _ _ _ Ef El Er).
  assert (Hok : Forall block_ok (range_blocks range)).
  { eapply check_networks_Ok; [|exact E]. eapply Forall_impl; [exact Hi|]. by intros b' []. }
  cbn [canonical_address_ok]. split; [exact (IpRange_new_wf _ _ _ Ef El Er)|]. split; [exact Hok|].
  destruct (IpRange_new_Some _ _ _ Ef El Er) as (R1 & R2 & _).
  split; [rewrite R1, R2; split; apply canonical_ip_idemp|]. split; [exact Ew|]. intros c Hc Hin.
  destruct (range_blocks_reach _ _ _ c Ef El Er Hin) as (b' & Hb' & Hcb).
  rewrite Forall_forall in Hok. by apply (Hok b' Hb').
Qed.

(** A network of one address is never kept as a network. *)
Lemma canonical_block_single b : block_wf b -> is_single_address (canonical_block b) = is_single_address b.
Proof.
  intros Hb. unfold canonical_block. destruct (network b) as [v|v] eqn:En; [done|].
  destruct (96 <=? prefix_len b)%Z eqn:Ep; [|done]. apply Z.leb_le in Ep.
  destruct (is_ipv4 (canonical_ip (V6 v))) eqn:E4; [|done].
  destruct (IpBlock_new _ _) as [b'|] eqn:E; [|done]. cbn [default from_option id].
  assert (Hw : ip_wf (canonical_ip (V6 v))) by (apply canonical_ip_wf; rewrite <- En; apply Hb).
  apply IpBlock_new_Some in E as (_ & H1 & H2 & _); [|done|lia].
  unfold is_single_address, max_prefix_len, IpBlock_is_ipv4. rewrite H1, H2, E4, En. cbn [is_ipv4].
  apply eq_true_iff_eq. rewrite !Z.eqb_eq. lia.
Qed.

Lemma subnet_not_single text i b ws :
  single_address_written text = None -> canonical_subnet text i = (Ok b, ws) -> is_single_address b = false.
Proof.
  unfold canonical_subnet, single_address_written.
  destruct (IpBlock_parse (trim text)) as [written|] eqn:Ep; [|done].
  assert (contains_char (is_char SLASH) (trim text) = true) as ->.
  { unfold IpBlock_parse in Ep. destruct (split_once SLASH (trim (trim text))) as [[a p]|] eqn:Es; [|done].
    apply split_once_Some in Es as [Es _]. apply existsb_elem. exists SLASH. split; [|done].
    apply trim_elem. rewrite Es. apply elem_of_app. right. by left. }
  intros Hs. intros (x & w1 & w2 & _ & E & _)%and_then_Ok. apply and_then_Ok in E as (y & w3 & w4 & _ & [= <- _] & _).
  rewrite canonical_block_single by (by eapply IpBlock_parse_wf). by destruct (is_single_address written).
Qed.

(** ** Applications *)

Definition app_pattern_ok `{Unicode} (platform : HostPlatform) (p : CanonicalAppPattern) : Prop :=
  match p with
  | Exact s => executable_naming platform = WindowsExe -> ends_with (u ".exe") s = true
  | Glob s => app_match_key s = [] \/ forallb (is_char STAR) (app_match_key s) = false
  | Path path => exists raw, AppPath_parse raw (path_style platform) = Ok path
  end.

Section Apps.
Context `{Unicode}.

Lemma exact_name_exe raw : ends_with (u ".exe") (fst (canonical_exact_process_name raw WindowsExe)) = true.
Proof using Type.
  unfold canonical_exact_process_name. set (l := to_lowercase _).
  destruct (ends_with (u ".exe") l) eqn:E; [done|]. simpl. apply ends_with_true. eauto.
Qed.

Lemma normalize_app_match_Ok a platform i c ws :
  normalize_app_match a platform i = (Ok c, ws) ->
  app_pattern_ok platform (pattern c)
  /\ include_child_processes c = am_include_child_processes a
  /\ Canonical.override_requested c = am_override_requested a.
Proof using Type.
  unfold normalize_app_match. destruct (match am_pattern a with AppExact _ => _ | AppGlob _ => _ end) as [raw glob].
  intros (p & w1 & w2 & E & [= <- _] & _)%and_then_Ok. split; [|done]. cbn [pattern].
  revert E. unfold canonical_app_pattern. destruct (is_path_value raw (path_style platform)).
  - intros (x & w3 & w4 & _ & E & _)%and_then_Ok.
    destruct (AppPath_parse raw (path_style platform)) as [path|] eqn:Ep; [|done]. injection E as <- _. by exists raw.
  - unfold canonical_name_pattern. intros (x & w3 & w4 & _ & E & _)%and_then_Ok. revert E. destruct glob.
    + destruct (is_empty _) eqn:Ee; cbn [negb andb].
      * intros [= <- _]. left. by apply is_empty_true.
      * destruct (forallb _ _) eqn:Ef; [done|]. intros [= <- _]. by right.
    + destruct (canonical_exact_process_name raw (executable_naming platform)) as [name changes] eqn:Ec.
      intros (y & w5 & w6 & _ & [= <- _] & _)%and_then_Ok. cbn [app_pattern_ok]. intros Hn. rewrite Hn in Ec.
      pose proof (exact_name_exe raw) as Hx. by rewrite Ec in Hx.
Qed.

End Apps.

(** ** The rule *)

Definition canonical_rule_ok `{Unicode} (platform : HostPlatform) (r : CanonicalRule) : Prop :=
  (is_Some (r_address_match r) \/ is_Some (r_app_match r))
  /\ (forall m, r_address_match r = Some m -> canonical_address_ok m)
  /\ (forall b, r_address_match r = Some (Subnet b) -> is_single_address b = false)
  /\ (forall a, r_app_match r = Some a -> app_pattern_ok platform (pattern a))
  /\ (r_action r = Verify -> verify_applies r = true).

Section Accepted.
Context `{Unicode} `{Idna} {HL : IdnaLaws}.

Lemma value_of_Some {A} drop (c : Checked A) x es ws : value_of drop c = (Some x, es, ws) -> c = (Ok x, ws).
Proof using Type.
  destruct c as [[y|e] w]; simpl; [by intros [= -> _ ->]|]. destruct (drop e); done.
Qed.

Lemma normalize_part_Some {A B} (f : A -> Normalized B) part r es ws :
  normalize_part f part = (Some r, es, ws) ->
  match part with None => r = None | Some x => exists y, r = Some y /\ f x = (Some y, es, ws) end.
Proof using Type.
  destruct part as [x|]; simpl; [|by intros [= <- _ _]].
  destruct (f x) as [[[y|] e] w]; [|done]. intros [= <- -> ->]. eauto.
Qed.

Lemma suffix_or_zone_ok n : host_ok n -> canonical_address_ok (suffix_or_zone n).
Proof using Type.
  intros Hn. unfold suffix_or_zone. pose proof Hn as (_ & _ & _ & _ & Ha & _). destruct n as [|c n]; [done|].
  cbn [is_empty orb]. by destruct (contains_char (is_char DOT) (c :: n)) eqn:E.
Qed.

Lemma normalize_address_ok i m c es ws :
  normalize_address i m = (Some c, es, ws) -> canonical_address_ok c.
Proof using HL.
  destruct m; cbn [normalize_address]; intros (x & E & ->)%value_of_Some%map_checked_Ok;
    [apply canonical_host_name_ok in E; exact E|..|].
  - apply suffix_or_zone_ok. by apply canonical_host_name_ok in E.
  - by apply canonical_host_name_ok in E.
  - by apply canonical_host_name_ok in E.
  - by apply canonical_ip_address_Ok in E.
  - by eapply canonical_subnet_Ok.
  - by eapply canonical_ip_range_Ok.
Qed.

Lemma settle_verify_spec r :
  let s := fst (settle_verify r) in
  r_id s = r_id r /\ r_enabled s = r_enabled r /\ r_address_match s = r_address_match r
  /\ r_app_match s = r_app_match r /\ r_comment s = r_comment r /\ r_origin s = r_origin r
  /\ (r_action s = Verify -> verify_applies s = true)
  /\ (r_action s = if bool_decide (r_action r = Verify) && negb (verify_applies r) then Route else r_action r).
Proof using Type.
  unfold settle_verify. destruct (bool_decide (r_action r = Verify)) eqn:E1; cbn [andb].
  - destruct (verify_applies r) eqn:E2; cbn [negb fst]; split_and!; done.
  - cbn [fst]. apply bool_decide_eq_false in E1. split_and!; try done.
Qed.

(** Every rule the pipeline keeps is in canonical form. *)
Lemma normalize_rule_of_ok role platform rule r es ws :
  normalize_rule_of role platform rule = (Some r, es, ws) -> canonical_rule_ok platform r.
Proof using HL.
  intros (r0 & ws0 & E & -> & _)%normalize_rule_of_Some.
  destruct (settle_verify_spec r0) as (_ & _ & Ha & Hp & _ & _ & Hv & _).
  assert (Hsome : is_Some (ru_address_match rule) \/ is_Some (ru_app_match rule)).
  { unfold normalize_rule in E. destruct (ru_address_match rule), (ru_app_match rule); eauto. done. }
  apply normalize_rule_Some in E as (_ & _ & [w1 E1] & [w2 E2] & _).
  apply normalize_part_Some in E1, E2. unfold canonical_rule_ok. rewrite Ha, Hp. split_and!.
  - destruct Hsome as [[m Hm]|[a Hm]].
    + left. unfold written_match in E1. rewrite Hm in E1.
      destruct m; try (destruct E1 as (y & -> & _); by eexists);
        destruct (single_address_written text); destruct E1 as (y & -> & _); by eexists.
    + right. rewrite Hm in E2. destruct E2 as (y & -> & _). by eexists.
  - intros m Hm. destruct (fst (written_match rule)); [|congruence].
    destruct E1 as (y & Ey & E1). apply normalize_address_ok in E1. congruence.
  - intros b Hb. unfold written_match in E1.
    destruct (ru_address_match rule) as [[v|v|v|v|v|v|v]|]; cbn [fst] in E1; try congruence;
      try (destruct (single_address_written v) eqn:Es; cbn [fst] in E1);
      destruct E1 as (y & Ey & (x & E1 & ->)%value_of_Some%map_checked_Ok); rewrite Hb in Ey;
      try discriminate; apply (inj Some) in Ey.
    1,2: unfold suffix_or_zone in Ey; by destruct (_ || _).
    injection Ey as ->. by eapply subnet_not_single.
  - intros a Hm. destruct (ru_app_match rule) as [a0|]; [|congruence].
    destruct E2 as (y & Ey & E2%value_of_Some). apply normalize_app_match_Ok in E2 as [E2 _]. congruence.
  - exact Hv.
Qed.

Lemma canonical_address_ok_wf m : canonical_address_ok m -> address_wf m.
Proof using Type. destruct m; simpl; try done; [by intros []|by intros [[? _] _]|by intros [? _]]. Qed.

End Accepted.
