(* ===== verification/Validation.v ===== *)
(** * The validation pipeline

    core/domain/src/validation.rs, the half that works on whole rule sets: the
    rule cap, the bindings, duplicates within a route and across the two, and
    [validate_and_canonicalize], which turns a configuration into a canonical
    profile or refuses it. *)

From stdpp Require Import base numbers list sorting.
From S2P Require Import Prelude Str Digits IpAddr IpBlock IpText NetPolicy AppPath AppIdentity AutoRule.
From S2P Require Import Canonical Normalize Matching RuleLine RuleClass RulesFile RuleValue RuleAccept.

Open Scope nat_scope.

(** ** The configuration (core/domain/src/lib.rs; [BindingSource] is
    shared/contracts/src/routing.rs) *)

Inductive BindingSource : Set := UserAssigned | HeuristicSuggestion | RestoredFromConfig.

Record AdapterIdentity : Set := mkAdapter { stable_id : str; display_name : str }.

Record RouteBinding : Set := mkBinding {
  b_role : RouteRole;
  b_adapter : AdapterIdentity;
  b_source : BindingSource;
}.

Record RuleBook : Set := mkRuleBook { rb_primary : list Rule; rb_secondary : list Rule }.

Record ActiveConfiguration : Set := mkConfig {
  c_primary : option RouteBinding;
  c_secondary : option RouteBinding;
  c_behavior_mode : RouteBehaviorMode;
  c_rule_book : RuleBook;
}.

Definition has_role_conflict (c : ActiveConfiguration) : bool :=
  match c_primary c, c_secondary c with
  | Some p, Some s => str_eqb (stable_id (b_adapter p)) (stable_id (b_adapter s))
  | _, _ => false
  end.

Record CanonicalProfile : Set := mkProfile {
  p_primary : RouteBinding;
  p_secondary : option RouteBinding;
  p_behavior_mode : RouteBehaviorMode;
  p_rule_book : CanonicalRuleBook;
}.

Inductive ValidationOutcome : Set :=
| Accepted (profile : CanonicalProfile)
| AcceptedWithWarnings (profile : CanonicalProfile) (warnings : list ValidationWarning)
| Rejected (errors : list ValidationError) (warnings : list ValidationWarning).

Definition outcome_profile (o : ValidationOutcome) : option CanonicalProfile :=
  match o with
  | Accepted p | AcceptedWithWarnings p _ => Some p
  | Rejected _ _ => None
  end.

Definition outcome_warnings (o : ValidationOutcome) : list ValidationWarning :=
  match o with Accepted _ => [] | AcceptedWithWarnings _ ws | Rejected _ ws => ws end.

Definition outcome_errors (o : ValidationOutcome) : list ValidationError :=
  match o with Accepted _ | AcceptedWithWarnings _ _ => [] | Rejected es _ => es end.

Definition is_accepted (o : ValidationOutcome) : bool := negb (is_none (outcome_profile o)).

(** ** The rule cap *)

Definition FREE_MAX_RULES : nat := N.to_nat 9999.

Inductive RuleCapExcess : Set := ExcessUser (count limit : nat) | ExcessAuto (count limit : nat).

Definition count_and_limit (e : RuleCapExcess) : nat * nat :=
  match e with ExcessUser count limit | ExcessAuto count limit => (count, limit) end.

Definition rule_cap_excess (user_authored : list bool) (auto_limit : option nat) : option RuleCapExcess :=
  let user := length (List.filter (fun own => own) user_authored) in
  let auto := length (List.filter negb user_authored) in
  if FREE_MAX_RULES <? user then Some (ExcessUser user FREE_MAX_RULES)
  else match auto_limit with
       | Some limit => if limit <? auto then Some (ExcessAuto auto limit) else None
       | None => None
       end.

(** ** Duplicates *)

Record MatchKey : Set := mkMatchKey {
  k_address : option CanonicalAddressMatch;
  k_app_pattern : option CanonicalAppPattern;
  k_app_children : option bool;
  k_action : RuleAction;
  k_enabled : bool;
}.

#[export] Instance MatchKey_eq_dec : EqDecision MatchKey.
Proof. solve_decision. Defined.

Definition from_rule (rule : CanonicalRule) : MatchKey :=
  {| k_address := r_address_match rule;
     k_app_pattern := pattern <$> r_app_match rule;
     k_app_children := include_child_processes <$> r_app_match rule;
     k_action := r_action rule;
     k_enabled := r_enabled rule |}.

Definition within_set (rule : CanonicalRule) : MatchKey :=
  let key := from_rule rule in
  match k_action key with
  | Verify => {| k_address := k_address key; k_app_pattern := k_app_pattern key;
                 k_app_children := k_app_children key; k_action := Route; k_enabled := k_enabled key |}
  | _ => key
  end.

Definition across_sets (rule : CanonicalRule) : MatchKey :=
  let key := from_rule rule in
  match k_address key with
  | Some (Range range) =>
      match range_blocks range with
      | [block] => {| k_address := Some (Subnet block); k_app_pattern := k_app_pattern key;
                      k_app_children := k_app_children key; k_action := k_action key;
                      k_enabled := k_enabled key |}
      | _ => key
      end
  | _ => key
  end.

(** [seen] maps a key to the slot of [out] that holds it. *)
Record Dedup : Set := mkDedup {
  seen : list (MatchKey * nat);
  out : list CanonicalRule;
  dedup_warnings : list ValidationWarning;
}.

Definition seen_get (key : MatchKey) (seen : list (MatchKey * nat)) : option nat :=
  snd <$> find_first (fun e => bool_decide (e.1 = key)) seen.

Definition dedup_step (role : RouteRole) (st : Dedup) (rule : CanonicalRule) : Dedup :=
  let key := within_set rule in
  match seen_get key (seen st) with
  | Some slot =>
      match out st !! slot with
      | Some kept =>
          if bool_decide (r_action kept = Verify) && negb (bool_decide (r_action rule = Verify))
          then mkDedup (seen st) (<[slot := rule]> (out st))
                 (dedup_warnings st ++ [WDuplicateRuleInSameSet (r_id rule) (r_id kept) role])
          else mkDedup (seen st) (out st)
                 (dedup_warnings st ++ [WDuplicateRuleInSameSet (r_id kept) (r_id rule) role])
      | None => st
      end
  | None => mkDedup (seen st ++ [(key, length (out st))]) (out st ++ [rule]) (dedup_warnings st)
  end.

Definition dedup_all (rules : list CanonicalRule) (role : RouteRole) : Dedup :=
  fold_left (dedup_step role) rules (mkDedup [] [] []).

Definition deduplicate_set (rules : list CanonicalRule) (role : RouteRole)
  : list CanonicalRule * list ValidationWarning :=
  let st := dedup_all rules role in (out st, dedup_warnings st).

(** The keys of the primary set, a later rule replacing an earlier one of the
    same key, as [HashMap::from_iter] does. *)
Definition key_owner (primary : list CanonicalRule) (key : MatchKey) : option CanonicalRule :=
  find_first (fun r => bool_decide (across_sets r = key)) (reverse primary).

Definition detect_cross_set_duplicates (primary secondary : list CanonicalRule)
  : list ValidationWarning :=
  omap (fun sec => (fun pri => WDuplicateRuleAcrossSets (r_id pri) (r_id sec))
                     <$> key_owner primary (across_sets sec)) secondary.

(** ** Ties between the two routes *)

Definition routed_network (rule : CanonicalRule) : bool :=
  r_enabled rule && bool_decide (r_action rule = Route)
  && match r_address_match rule with Some m => negb (is_none (ip_blocks m)) | None => false end.

(** A network a rule names, with the program it names it for. *)
Definition pieces (rule : CanonicalRule)
  : list (option CanonicalAppPattern * option bool * IpBlock) :=
  (fun b => (pattern <$> r_app_match rule, include_child_processes <$> r_app_match rule, b))
    <$> default [] (r_address_match rule ≫= ip_blocks).

Definition networks_on_both_routes (book : CanonicalRuleBook) : list str :=
  let on_primary := mjoin (pieces <$> List.filter routed_network (primary book)) in
  omap (fun rule => to_display_string <$> r_address_match rule)
    (List.filter (fun rule => existsb (fun p => bool_decide (p ∈ on_primary)) (pieces rule))
       (List.filter routed_network (secondary book))).

Definition routed_folder (rule : CanonicalRule) : option AppPath :=
  if negb (r_enabled rule) || negb (bool_decide (r_action rule = Route))
     || negb (is_none (r_address_match rule)) then None
  else match r_app_match rule with
       | Some a => match pattern a with
                   | Path path => match path_kind path with
                                  | Folder | FolderTree => Some path
                                  | _ => None
                                  end
                   | _ => None
                   end
       | None => None
       end.

Definition folders_on_both_routes (book : CanonicalRuleBook) : list str :=
  let on_primary := omap routed_folder (primary book) in
  AppPath_as_str <$> List.filter (fun path => bool_decide (path ∈ on_primary))
                       (omap routed_folder (secondary book)).

Definition describe_match (rule : CanonicalRule) : str :=
  match r_address_match rule, r_app_match rule with
  | Some address, Some app => to_display_string address ++ u " + " ++ pattern_as_str (pattern app)
  | Some address, None => to_display_string address
  | None, Some app => pattern_as_str (pattern app)
  | None, None => r_id rule
  end.

Definition describe_pair (primary secondary : CanonicalRule) : str :=
  let p := describe_match primary in
  let s := describe_match secondary in
  if str_eqb p s then s else p ++ u " = " ++ s.

(** ** The pipeline *)

Section Pipeline.
Context `{Unicode} `{Idna}.

(** Errors shown next to a missing primary binding; no rule is normalized. *)
Definition rule_errors_only (rule : Rule) : list ValidationError :=
  (if is_none (ru_address_match rule) && is_none (ru_app_match rule)
   then [RuleEmptyMatch (ru_id rule)] else [])
  ++ match ru_address_match rule with
     | Some (MExactFqdn v | MSuffixDomain v | MAnyZoneDomain v) =>
         match fst (normalize_domain_label v (ru_id rule)) with Err e => [e] | Ok _ => [] end
     | _ => []
     end.

Definition collect_rule_errors_only (config : ActiveConfiguration) : list ValidationError :=
  mjoin (rule_errors_only <$> (rb_primary (c_rule_book config) ++ rb_secondary (c_rule_book config))).

Definition validate_and_canonicalize (config : ActiveConfiguration) (platform : HostPlatform)
  : ValidationOutcome :=
  let book := c_rule_book config in
  match rule_cap_excess ((fun rule => is_none (ru_origin rule)) <$> rb_primary book ++ rb_secondary book) None with
  | Some excess => let '(count, limit) := count_and_limit excess in Rejected [TooManyRules count limit] []
  | None =>
      match c_primary config with
      | None => Rejected (MissingPrimaryBinding :: collect_rule_errors_only config) []
      | Some primary_binding =>
          let conflict := if has_role_conflict config
                          then [SameAdapterBoundToBothRoles (stable_id (b_adapter primary_binding))] else [] in
          let '(primary_rules, pe, pw) := normalize_rule_set (rb_primary book) Primary platform in
          let '(secondary_rules, se, sw) := normalize_rule_set (rb_secondary book) Secondary platform in
          let '(primary_rules, pd) := deduplicate_set primary_rules Primary in
          let '(secondary_rules, sd) := deduplicate_set secondary_rules Secondary in
          let errors := conflict ++ pe ++ se in
          let warnings := pw ++ sw ++ pd ++ sd ++ detect_cross_set_duplicates primary_rules secondary_rules in
          match errors with
          | _ :: _ => Rejected errors warnings
          | [] =>
              let profile :=
                {| p_primary := primary_binding; p_secondary := c_secondary config;
                   p_behavior_mode := c_behavior_mode config;
                   p_rule_book := {| primary := from_rules primary_rules;
                                     secondary := from_rules secondary_rules |} |} in
              match warnings with
              | [] => Accepted profile
              | _ :: _ => AcceptedWithWarnings profile warnings
              end
          end
      end
  end.

End Pipeline.

(** ** Deduplication *)

Lemma within_set_action r :
  within_set r = {| k_address := r_address_match r; k_app_pattern := pattern <$> r_app_match r;
                    k_app_children := include_child_processes <$> r_app_match r;
                    k_action := match r_action r with Verify => Route | x => x end;
                    k_enabled := r_enabled r |}.
Proof. unfold within_set, from_rule. cbn. by destruct (r_action r). Qed.

(** What a set names: the key within the set, and whether it is only asked
    about with a [?]. *)
Lemma from_rule_within r s :
  from_rule r = from_rule s <->
  within_set r = within_set s /\ (r_action r = Verify <-> r_action s = Verify).
Proof.
  rewrite !within_set_action. unfold from_rule. split.
  - intros E. injection E as E1 E2 E3 E4 E5. by rewrite E1, E2, E3, E4, E5.
  - intros [E Hv]. injection E as E1 E2 E3 E4 E5. rewrite E1, E2, E3, E5. f_equal.
    destruct (r_action r), (r_action s); naive_solver.
Qed.

(** The index is the keys of what is kept, each once; and every rule read so
    far is represented by a kept rule of its key, which asks with a [?] only if
    they all do, and is itself kept or named as removed. *)
Record dedup_inv (role : RouteRole) (read : list CanonicalRule) (st : Dedup) : Prop := {
  di_seen : seen st = imap (fun j r => (within_set r, j)) (out st);
  di_nodup : NoDup (within_set <$> out st);
  di_from : forall s, s ∈ out st -> s ∈ read;
  di_rep : forall r, r ∈ read -> exists s, s ∈ out st /\ within_set s = within_set r
             /\ (r_action s = Verify -> r_action r = Verify);
  di_named : forall r, r ∈ read -> r ∈ out st
             \/ exists kept, WDuplicateRuleInSameSet kept (r_id r) role ∈ dedup_warnings st;
}.

Lemma seen_get_index key rules :
  match seen_get key (imap (fun j r => (within_set r, j)) rules) with
  | Some slot => exists kept, rules !! slot = Some kept /\ within_set kept = key
  | None => key ∉ within_set <$> rules
  end.
Proof.
  unfold seen_get. destruct (find_first _ _) as [[k slot]|] eqn:E; simpl.
  - apply find_first_Some in E as [Hin Hk]. apply bool_decide_eq_true in Hk. simpl in Hk. subst k.
    apply list_elem_of_lookup in Hin as [j Hj]. apply list_lookup_imap_Some in Hj as (r & Hr & E).
    injection E as -> ->. eauto.
  - intros (r & -> & Hr)%list_elem_of_fmap. apply list_elem_of_lookup in Hr as [j Hj].
    rewrite find_first_None in E. specialize (E (within_set r, j)). simpl in E.
    rewrite bool_decide_eq_false in E. apply E; [|done].
    apply list_elem_of_lookup. exists j. by rewrite list_lookup_imap, Hj.
Qed.

Lemma index_keys rules :
  imap (fun j r => (within_set r, j)) rules = imap (fun j k => (k, j)) (within_set <$> rules).
Proof. by rewrite imap_fmap. Qed.

Lemma replaced_keys (rules : list CanonicalRule) slot kept rule :
  rules !! slot = Some kept -> within_set rule = within_set kept ->
  within_set <$> <[slot := rule]> rules = within_set <$> rules.
Proof.
  intros Hs Hk. rewrite list_fmap_insert, Hk. apply list_insert_id. by rewrite list_lookup_fmap, Hs.
Qed.

(** What replacing a slot keeps. *)
Lemma replaced_elem (rules : list CanonicalRule) slot kept rule s :
  rules !! slot = Some kept -> s ∈ rules -> s ∈ <[slot := rule]> rules \/ s = kept.
Proof.
  intros Hs [j Hj]%list_elem_of_lookup. destruct (decide (j = slot)) as [->|Hne]; [right; congruence|].
  left. apply (list_elem_of_lookup_2 _ j). by rewrite list_lookup_insert_ne.
Qed.

Lemma replaced_from (rules : list CanonicalRule) slot rule s : s ∈ <[slot := rule]> rules -> s = rule \/ s ∈ rules.
Proof.
  intros [j Hj]%list_elem_of_lookup. apply list_lookup_insert_Some in Hj as [(_ & -> & _)|[_ Hj]]; [by left|].
  right. by eapply list_elem_of_lookup_2.
Qed.

Lemma elem_snoc {A} (x y : A) l : x ∈ l ++ [y] <-> x ∈ l \/ x = y.
Proof. by rewrite elem_of_app, list_elem_of_singleton. Qed.

Lemma dedup_new role read st rule :
  dedup_inv role read st -> within_set rule ∉ within_set <$> out st ->
  dedup_inv role (read ++ [rule])
    (mkDedup (seen st ++ [(within_set rule, length (out st))]) (out st ++ [rule]) (dedup_warnings st)).
Proof.
  intros [Hs Hn Hf Hr Hd] Hk. split; cbn [seen out dedup_warnings].
  - rewrite imap_app, Hs. simpl. by rewrite Nat.add_0_r.
  - rewrite fmap_app. apply NoDup_app. split_and!; [done| |apply NoDup_singleton].
    intros x Hx ->%list_elem_of_singleton. done.
  - intros s. rewrite !elem_snoc. naive_solver.
  - intros r. rewrite elem_snoc. intros [(s & H1 & H2)%Hr| ->].
    + exists s. rewrite elem_snoc. naive_solver.
    + exists rule. rewrite elem_snoc. naive_solver.
  - intros r. rewrite !elem_snoc. intros [[H|[k H]]%Hd| ->]; eauto.
Qed.

Lemma dedup_replace role read st rule slot kept :
  dedup_inv role read st -> out st !! slot = Some kept -> within_set kept = within_set rule ->
  r_action rule <> Verify ->
  dedup_inv role (read ++ [rule])
    (mkDedup (seen st) (<[slot := rule]> (out st))
       (dedup_warnings st ++ [WDuplicateRuleInSameSet (r_id rule) (r_id kept) role])).
Proof.
  intros [Hs Hn Hf Hr Hd] Hl Hk Hv.
  assert (Hin : rule ∈ <[slot := rule]> (out st)).
  { apply (list_elem_of_lookup_2 _ slot). apply list_lookup_insert_eq. by eapply lookup_lt_Some. }
  split; cbn [seen out dedup_warnings].
  - by rewrite Hs, !index_keys, (replaced_keys _ _ kept).
  - by rewrite (replaced_keys _ _ kept).
  - intros s [->|H]%replaced_from; rewrite elem_snoc; [by right|left; auto].
  - intros r. rewrite elem_snoc. intros [(s & H1 & H2 & H3)%Hr| ->]; [|exists rule; naive_solver].
    apply (replaced_elem _ slot kept rule) in H1 as [H1| ->]; [| |done].
    + exists s. auto.
    + exists rule. split; [done|]. split; [congruence|done].
  - intros r. rewrite elem_snoc. intros [[H|[k H]]%Hd| ->].
    + apply (replaced_elem _ slot kept rule) in H as [H| ->]; [by left| |done].
      right. exists (r_id rule). rewrite elem_snoc. by right.
    + right. exists k. rewrite elem_snoc. by left.
    + by left.
Qed.

Lemma dedup_keep role read st rule kept :
  dedup_inv role read st -> kept ∈ out st -> within_set kept = within_set rule ->
  (r_action kept = Verify -> r_action rule = Verify) ->
  dedup_inv role (read ++ [rule])
    (mkDedup (seen st) (out st)
       (dedup_warnings st ++ [WDuplicateRuleInSameSet (r_id kept) (r_id rule) role])).
Proof.
  intros [Hs Hn Hf Hr Hd] Hin Hk Hv. split; cbn [seen out dedup_warnings]; [done..| | |].
  - intros s H. rewrite elem_snoc. left. auto.
  - intros r. rewrite elem_snoc. intros [H%Hr| ->]; [done|]. by exists kept.
  - intros r. rewrite elem_snoc. intros [[H|[k H]]%Hd| ->]; [by left|right..].
    + exists k. rewrite elem_snoc. by left.
    + exists (r_id kept). rewrite elem_snoc. by right.
Qed.

Lemma dedup_step_inv role read st rule :
  dedup_inv role read st -> dedup_inv role (read ++ [rule]) (dedup_step role st rule).
Proof.
  intros Hi. unfold dedup_step. pose proof (seen_get_index (within_set rule) (out st)) as Hg.
  rewrite <- (di_seen _ _ _ Hi) in Hg. destruct (seen_get _ _) as [slot|]; [|by apply dedup_new].
  destruct Hg as (kept & Hl & Hk). rewrite Hl.
  destruct (bool_decide (r_action kept = Verify)) eqn:E1, (bool_decide (r_action rule = Verify)) eqn:E2;
    rewrite ?bool_decide_eq_true, ?bool_decide_eq_false in *; cbn [andb negb];
    first [by apply dedup_replace | apply dedup_keep; [done|by eapply list_elem_of_lookup_2|done|done]].
Qed.

Lemma dedup_all_inv rules role : dedup_inv role rules (dedup_all rules role).
Proof.
  unfold dedup_all. assert (H : forall read st, dedup_inv role read st ->
    dedup_inv role (read ++ rules) (fold_left (dedup_step role) rules st)).
  { induction rules as [|r rules IH]; intros read st Hi; simpl; [by rewrite app_nil_r|].
    rewrite (cons_middle r read rules), (assoc_L (++)). by apply IH, dedup_step_inv. }
  apply (H [] _). split; cbn; [done|constructor|intros s Hs; by apply not_elem_of_nil in Hs..].
Qed.

Lemma dedup_same_key rules role s t :
  s ∈ out (dedup_all rules role) -> t ∈ out (dedup_all rules role) -> within_set s = within_set t -> s = t.
Proof.
  intros [i Hi]%list_elem_of_lookup [j Hj]%list_elem_of_lookup E.
  assert (i = j) as ->; [|congruence].
  apply (NoDup_lookup _ i j (within_set s) (di_nodup _ _ _ (dedup_all_inv rules role)));
    rewrite list_lookup_fmap; [by rewrite Hi|by rewrite Hj, E].
Qed.

(** What is kept of a set says the same whatever order its rules came in. *)
Lemma dedup_elem_perm l k role s :
  l ≡ₚ k -> s ∈ out (dedup_all l role) -> from_rule s ∈ from_rule <$> out (dedup_all k role).
Proof.
  intros P Hs. destruct (dedup_all_inv l role) as [_ _ Lf Lr _], (dedup_all_inv k role) as [_ _ Kf Kr _].
  destruct (Kr s) as (t & Ht & Hk & Hv); [rewrite <- P; auto|].
  destruct (Lr t) as (s' & Hs' & Hk' & Hv'); [rewrite P; auto|].
  assert (s' = s) as -> by (apply (dedup_same_key l role); congruence).
  apply list_elem_of_fmap. exists t. split; [|done]. apply from_rule_within. split; [done|]. by split.
Qed.

Lemma dedup_keys_nodup rules role : NoDup (from_rule <$> out (dedup_all rules role)).
Proof.
  pose proof (di_nodup _ _ _ (dedup_all_inv rules role)) as Hn. revert Hn.
  generalize (out (dedup_all rules role)). intros l. induction l as [|r l IH]; [constructor|].
  rewrite !fmap_cons, !NoDup_cons. intros [H1 H2]. split; [|auto].
  intros (s & E & Hs)%list_elem_of_fmap. apply H1. apply from_rule_within in E as [-> _].
  by apply list_elem_of_fmap_2.
Qed.

(** Within one route a match is named once, and line order does not decide
    the route: deduplication keeps one rule per match, every rule read is
    represented by a kept one, a plain rule beats its [?] twin wherever either
    stands, and two arrangements of the same rules keep the same keys with the
    same actions. *)
Theorem dedup_one_rule_per_match l k role :
  l ≡ₚ k ->
  let kept := fst (deduplicate_set l role) in
  NoDup (within_set <$> kept)
  /\ (forall r, r ∈ l -> exists s, s ∈ kept /\ within_set s = within_set r
                              /\ (r_action s = Verify -> r_action r = Verify))
  /\ from_rule <$> kept ≡ₚ from_rule <$> fst (deduplicate_set k role).
Proof.
  intros P kept. subst kept. unfold deduplicate_set. cbn [fst].
  destruct (dedup_all_inv l role) as [_ Hn _ Hr _]. split; [exact Hn|]. split; [exact Hr|].
  apply NoDup_Permutation; [apply dedup_keys_nodup..|].
  intros x. split; intros (s & -> & Hs)%list_elem_of_fmap; by eapply dedup_elem_perm.
Qed.

Definition sample_rule (i : str) (a : RuleAction) : CanonicalRule :=
  {| r_id := i; r_enabled := true; r_address_match := Some (ExactFqdn (u "example.com"));
     r_app_match := None; r_comment := []; r_action := a; r_origin := None |}.

Lemma dedup_one_rule_per_match_witness :
  let l := [sample_rule (u "r-0000") Verify; sample_rule (u "r-0001") Route] in
  let k := [sample_rule (u "r-0001") Route; sample_rule (u "r-0000") Verify] in
  fst (deduplicate_set l Primary) = [sample_rule (u "r-0001") Route]
  /\ from_rule <$> fst (deduplicate_set l Primary) ≡ₚ from_rule <$> fst (deduplicate_set k Primary).
Proof.
  intros l k. split; [reflexivity|]. apply (dedup_one_rule_per_match l k Primary). apply Permutation_swap.
Defined.

(** The request to apply anyway is no part of the key: of two lines that differ
    in [+override] only, the first decides whether the rule applies anyway. *)
Definition sample_app_rule (i : str) (override : bool) : CanonicalRule :=
  {| r_id := i; r_enabled := true; r_address_match := None;
     r_app_match := Some (mkCanonicalAppMatch (Exact (u "app.exe")) false override);
     r_comment := []; r_action := Route; r_origin := None |}.

Example override_lost_by_line_order :
  let plain := sample_app_rule (u "r-0000") false in
  let override := sample_app_rule (u "r-0001") true in
  deduplicate_set [plain; override] Primary
    = ([plain], [WDuplicateRuleInSameSet (u "r-0000") (u "r-0001") Primary])
  /\ deduplicate_set [override; plain] Primary
     = ([override], [WDuplicateRuleInSameSet (u "r-0001") (u "r-0000") Primary]).
Proof. by vm_compute. Qed.

(** ** The outcome *)

Section Outcome.
Context `{Unicode} `{Idna} {HL : IdnaLaws}.

Definition kept_rule (role : RouteRole) (platform : HostPlatform) (rule : Rule) : option CanonicalRule :=
  fst (fst (normalize_rule_of role platform rule)).
Definition rule_errors (role : RouteRole) (platform : HostPlatform) (rule : Rule) : list ValidationError :=
  snd (fst (normalize_rule_of role platform rule)).
Definition rule_warnings (role : RouteRole) (platform : HostPlatform) (rule : Rule) : list ValidationWarning :=
  snd (normalize_rule_of role platform rule).

Lemma normalize_rule_set_eq rules role platform :
  normalize_rule_set rules role platform
  = (omap (kept_rule role platform) rules, mjoin (rule_errors role platform <$> rules),
     mjoin (rule_warnings role platform <$> rules)).
Proof using Type.
  induction rules as [|rule rules IH]; [done|]. cbn [normalize_rule_set]. rewrite IH. csimpl.
  unfold kept_rule, rule_errors, rule_warnings.
  by destruct (normalize_rule_of role platform rule) as [[[r|] es] ws].
Qed.

Definition rules_of (config : ActiveConfiguration) (role : RouteRole) : list Rule :=
  match role with Primary => rb_primary (c_rule_book config) | Secondary => rb_secondary (c_rule_book config) end.

Definition set_of (p : CanonicalProfile) (role : RouteRole) : list CanonicalRule :=
  match role with Primary => primary (p_rule_book p) | Secondary => secondary (p_rule_book p) end.

(** What a route's rules come to: its rules in canonical order. *)
Definition route_set (config : ActiveConfiguration) (platform : HostPlatform) (role : RouteRole)
  : list CanonicalRule :=
  out (dedup_all (omap (kept_rule role platform) (rules_of config role)) role).

Definition user_count (config : ActiveConfiguration) : nat :=
  length (List.filter (fun own => own)
    ((fun rule => is_none (ru_origin rule)) <$> rb_primary (c_rule_book config) ++ rb_secondary (c_rule_book config))).

(** The configurations validation accepts. *)
Definition acceptable (config : ActiveConfiguration) (platform : HostPlatform) : Prop :=
  user_count config <= FREE_MAX_RULES
  /\ is_Some (c_primary config) /\ has_role_conflict config = false
  /\ forall role rule, rule ∈ rules_of config role -> rule_errors role platform rule = [].

Lemma rule_cap_none config :
  rule_cap_excess ((fun rule => is_none (ru_origin rule))
    <$> rb_primary (c_rule_book config) ++ rb_secondary (c_rule_book config)) None = None
  <-> user_count config <= FREE_MAX_RULES.
Proof using Type.
  unfold rule_cap_excess. fold (user_count config). destruct (Nat.ltb_spec FREE_MAX_RULES (user_count config)).
  - split; [done|lia].
  - split; [lia|done].
Qed.

Lemma mjoin_nil {A B} (f : A -> list B) l : mjoin (f <$> l) = [] <-> forall x, x ∈ l -> f x = [].
Proof using Type.
  induction l as [|y l IH]; csimpl.
  - split; [intros _ x Hx; by apply not_elem_of_nil in Hx|done].
  - rewrite app_nil, IH. split.
    + intros [H1 H2] x [->|Hx]%elem_of_cons; auto.
    + intros Hx. split; [apply Hx; by left|]. intros x Hin. apply Hx. by right.
Qed.

(** All warnings of a configuration, in the order they are pushed. *)
Definition all_warnings (config : ActiveConfiguration) (platform : HostPlatform) : list ValidationWarning :=
  let normalized role := omap (kept_rule role platform) (rules_of config role) in
  mjoin (rule_warnings Primary platform <$> rules_of config Primary)
  ++ mjoin (rule_warnings Secondary platform <$> rules_of config Secondary)
  ++ dedup_warnings (dedup_all (normalized Primary) Primary)
  ++ dedup_warnings (dedup_all (normalized Secondary) Secondary)
  ++ detect_cross_set_duplicates (route_set config platform Primary) (route_set config platform Secondary).

Definition all_errors (config : ActiveConfiguration) (platform : HostPlatform) (pb : RouteBinding)
  : list ValidationError :=
  (if has_role_conflict config then [SameAdapterBoundToBothRoles (stable_id (b_adapter pb))] else [])
  ++ mjoin (rule_errors Primary platform <$> rules_of config Primary)
  ++ mjoin (rule_errors Secondary platform <$> rules_of config Secondary).

Definition profile_of (config : ActiveConfiguration) (platform : HostPlatform) (pb : RouteBinding)
  : CanonicalProfile :=
  {| p_primary := pb; p_secondary := c_secondary config; p_behavior_mode := c_behavior_mode config;
     p_rule_book := {| primary := from_rules (route_set config platform Primary);
                       secondary := from_rules (route_set config platform Secondary) |} |}.

Lemma validate_bound config platform pb :
  user_count config <= FREE_MAX_RULES -> c_primary config = Some pb ->
  validate_and_canonicalize config platform =
    match all_errors config platform pb with
    | _ :: _ => Rejected (all_errors config platform pb) (all_warnings config platform)
    | [] => match all_warnings config platform with
            | [] => Accepted (profile_of config platform pb)
            | _ :: _ => AcceptedWithWarnings (profile_of config platform pb) (all_warnings config platform)
            end
    end.
Proof using Type.
  intros Hc Hp. unfold validate_and_canonicalize. rewrite (proj2 (rule_cap_none config) Hc), Hp.
  rewrite !normalize_rule_set_eq. unfold deduplicate_set. reflexivity.
Qed.

Lemma all_errors_nil config platform pb :
  all_errors config platform pb = [] <->
  has_role_conflict config = false
  /\ forall role rule, rule ∈ rules_of config role -> rule_errors role platform rule = [].
Proof using Type.
  unfold all_errors. rewrite !app_nil, !mjoin_nil. split.
  - intros (H1 & H2 & H3). split; [by destruct (has_role_conflict config)|]. intros []; auto.
  - intros [-> H1]. split_and!; [done|apply (H1 Primary)|apply (H1 Secondary)].
Qed.

(** An accepted configuration gives its profile with all its warnings. *)
Lemma validate_accepted config platform p :
  outcome_profile (validate_and_canonicalize config platform) = Some p ->
  acceptable config platform
  /\ (exists pb, c_primary config = Some pb /\ p = profile_of config platform pb)
  /\ outcome_warnings (validate_and_canonicalize config platform) = all_warnings config platform
  /\ outcome_errors (validate_and_canonicalize config platform) = [].
Proof using Type.
  destruct (decide (user_count config <= FREE_MAX_RULES)) as [Hc|Hc].
  2:{ unfold validate_and_canonicalize. destruct (rule_cap_excess _ None) as [e|] eqn:E.
      - by destruct (count_and_limit e).
      - by apply rule_cap_none in E. }
  destruct (c_primary config) as [pb|] eqn:Hp.
  2:{ unfold validate_and_canonicalize. by rewrite (proj2 (rule_cap_none config) Hc), Hp. }
  rewrite (validate_bound config platform pb Hc Hp).
  destruct (all_errors config platform pb) eqn:Ee; [|done]. apply all_errors_nil in Ee as [E1 E2].
  destruct (all_warnings config platform) eqn:Ew; intros E; apply (inj Some) in E as <-;
    (split; [by split_and!; eauto|split; [by exists pb|done]]).
Qed.

Lemma acceptable_profile config platform :
  acceptable config platform ->
  exists pb, c_primary config = Some pb
    /\ outcome_profile (validate_and_canonicalize config platform) = Some (profile_of config platform pb).
Proof using Type.
  intros (Hc & [pb Hp] & H1 & H2). exists pb. split; [done|].
  rewrite (validate_bound config platform pb Hc Hp), (proj2 (all_errors_nil config platform pb) (conj H1 H2)).
  by destruct (all_warnings config platform).
Qed.

(** A notice that a rule did not make it into the profile. *)
Definition loss_notice (w : ValidationWarning) : option str :=
  match w with
  | WDuplicateRuleInSameSet _ removed_rule_id _ => Some removed_rule_id
  | _ => drop_notice w
  end.

Lemma kept_rule_Some role platform rule r :
  kept_rule role platform rule = Some r ->
  canonical_rule_ok platform r /\ r_id r = ru_id rule /\ r_enabled r = ru_enabled rule
  /\ r_comment r = trim (ru_comment rule) /\ r_origin r = ru_origin rule.
Proof using HL.
  unfold kept_rule. destruct (normalize_rule_of role platform rule) as [[o es] ws] eqn:E. cbn [fst]. intros ->.
  split; [by eapply normalize_rule_of_ok|].
  apply normalize_rule_of_Some in E as (r0 & ws0 & E & -> & _).
  apply normalize_rule_Some in E as (_ & _ & _ & _ & H1 & H2 & H3 & _ & H4).
  destruct (settle_verify_spec r0) as (S1 & S2 & _ & _ & S3 & S4 & _). split_and!; congruence.
Qed.

(** A rule with no error that is not kept is named by a drop notice. *)
Lemma kept_rule_None role platform rule :
  kept_rule role platform rule = None -> rule_errors role platform rule = [] ->
  exists w, w ∈ rule_warnings role platform rule /\ drop_notice w = Some (ru_id rule).
Proof using Type.
  unfold kept_rule, rule_errors, rule_warnings. pose proof (normalize_rule_of_fate role platform rule) as Hf.
  destruct (normalize_rule_of role platform rule) as [[o es] ws]. cbn [fst snd]. intros -> ->.
  destruct Hf as [(e & He & _)|[_ H1]]; [done|exact H1].
Qed.

Lemma role_warnings config platform role w :
  w ∈ mjoin (rule_warnings role platform <$> rules_of config role)
  \/ w ∈ dedup_warnings (dedup_all (omap (kept_rule role platform) (rules_of config role)) role) ->
  w ∈ all_warnings config platform.
Proof using Type. unfold all_warnings. rewrite !elem_of_app. destruct role; tauto. Qed.

Lemma set_of_profile config platform pb role :
  set_of (profile_of config platform pb) role = from_rules (route_set config platform role).
Proof using Type. by destruct role. Qed.

(** C32. The type of an accepted profile: every rule of it is in canonical form
    (a live host name, an address that is a destination, networks of no reserved
    class and bounded width, an application pattern in the platform's spelling,
    a [?] only where it is asked of one destination), no two rules of a route
    agree in all of what they match, what they do with it (a [?] being a route)
    and whether they are enabled, the rules of a route stand in canonical order,
    and the two routes are bound to different adapters. *)
Theorem validated_profile_ok config platform p :
  outcome_profile (validate_and_canonicalize config platform) = Some p ->
  (forall role, Forall (canonical_rule_ok platform) (set_of p role)
     /\ NoDup (within_set <$> set_of p role) /\ StronglySorted (cmp_le rule_cmp) (set_of p role))
  /\ (forall s, p_secondary p = Some s ->
        stable_id (b_adapter (p_primary p)) <> stable_id (b_adapter s)).
Proof using HL.
  intros ((_ & _ & Hc & _) & (pb & Hp & ->) & _)%validate_accepted. split.
  - intros role. rewrite set_of_profile. destruct (dedup_all_inv (omap (kept_rule role platform) (rules_of config role)) role)
      as [_ Hn Hf _ _]. fold (route_set config platform role) in Hn, Hf. split_and!.
    + rewrite from_rules_perm. apply Forall_forall. intros r Hr%Hf.
      apply list_elem_of_omap in Hr as (rule & _ & Hk). by apply kept_rule_Some in Hk as [Hk _].
    + by rewrite from_rules_perm.
    + apply sort_by_sorted, _.
  - cbn [profile_of p_primary p_secondary]. intros s Hs. unfold has_role_conflict in Hc. rewrite Hp, Hs in Hc.
    intros E. rewrite E, str_eqb_refl in Hc. done.
Qed.

(** C33. No rule is lost in silence: in an accepted configuration every rule of
    the file is in the profile of its own route, as the rule it was (its id,
    whether it is enabled, its comment, its author), or a warning says by its id
    that it was dropped or removed as a duplicate. *)
Theorem no_rule_lost config platform p role rule :
  outcome_profile (validate_and_canonicalize config platform) = Some p -> rule ∈ rules_of config role ->
  (exists r, r ∈ set_of p role /\ r_id r = ru_id rule /\ r_enabled r = ru_enabled rule
     /\ r_comment r = trim (ru_comment rule) /\ r_origin r = ru_origin rule)
  \/ exists w, w ∈ outcome_warnings (validate_and_canonicalize config platform)
       /\ loss_notice w = Some (ru_id rule).
Proof using HL.
  intros ((_ & _ & _ & He) & (pb & Hp & ->) & -> & _)%validate_accepted Hin. rewrite set_of_profile.
  destruct (kept_rule role platform rule) as [r|] eqn:Ek.
  - assert (Hr : r ∈ omap (kept_rule role platform) (rules_of config role)) by (apply list_elem_of_omap; eauto).
    apply kept_rule_Some in Ek as (_ & H1 & H2 & H3 & H4).
    destruct (di_named _ _ _ (dedup_all_inv _ role) r Hr) as [Hd|[kept Hw]].
    + left. exists r. rewrite from_rules_perm. done.
    + right. eexists. split; [apply (role_warnings _ _ role); right; exact Hw|]. simpl. by rewrite H1.
  - right. destruct (kept_rule_None _ _ _ Ek (He role rule Hin)) as (w & Hw & Hd). exists w. split.
    + apply (role_warnings _ _ role). left. apply list_elem_of_join.
      exists (rule_warnings role platform rule). split; [done|]. by apply list_elem_of_fmap_2.
    + by destruct w.
Qed.

Lemma collect_errors_blame config e i :
  e ∈ collect_rule_errors_only config -> error_rule_id e = Some i ->
  exists role rule, rule ∈ rules_of config role /\ ru_id rule = i.
Proof using Type.
  unfold collect_rule_errors_only. intros (es & He & Hes)%list_elem_of_join Hi.
  apply list_elem_of_fmap in Hes as (rule & -> & Hr).
  assert (ru_id rule = i) as Hid.
  { unfold rule_errors_only in He. apply elem_of_app in He as [He|He].
    - destruct (_ && _); [|by apply not_elem_of_nil in He].
      apply list_elem_of_singleton in He as ->. by injection Hi.
    - destruct (ru_address_match rule) as [m|]; [|by apply not_elem_of_nil in He].
      assert (Hl : forall v, e ∈ match fst (normalize_domain_label v (ru_id rule)) with Err e => [e] | Ok _ => [] end ->
                   ru_id rule = i).
      { intros v Hv. pose proof (normalize_domain_label_errs v (ru_id rule)) as Hx. unfold errs_on in Hx.
        destruct (fst _); [by apply not_elem_of_nil in Hv|]. apply list_elem_of_singleton in Hv as ->. congruence. }
      destruct m; eauto; by apply not_elem_of_nil in He. }
  apply elem_of_app in Hr as [Hr|Hr]; [exists Primary|exists Secondary]; eauto.
Qed.

Lemma rule_errors_blame role platform rule e i :
  e ∈ rule_errors role platform rule -> error_rule_id e = Some i -> ru_id rule = i.
Proof using Type.
  unfold rule_errors. pose proof (normalize_rule_of_fate role platform rule) as Hf.
  destruct (normalize_rule_of role platform rule) as [[[r|] es] ws]; cbn [fst snd fate] in *.
  - subst es. intros He. by apply not_elem_of_nil in He.
  - destruct Hf as [(e' & -> & H1)|[-> _]]; [|intros He; by apply not_elem_of_nil in He].
    intros ->%list_elem_of_singleton. congruence.
Qed.

(** The verdict: a configuration is accepted exactly when it holds no more
    of the user's rules than the cap, has a primary binding, binds the two routes
    to different adapters and has no rule that is refused; otherwise there is at
    least one error, and every error about a rule names a rule of the file. *)
Theorem validation_verdict config platform :
  let o := validate_and_canonicalize config platform in
  (is_accepted o = true <-> acceptable config platform)
  /\ (is_accepted o = false -> outcome_errors o <> [])
  /\ (forall e i, e ∈ outcome_errors o -> error_rule_id e = Some i ->
        exists role rule, rule ∈ rules_of config role /\ ru_id rule = i).
Proof using Type.
  intros o. split; [|split].
  - unfold is_accepted. split.
    + destruct (outcome_profile o) as [p|] eqn:E; [|done]. by apply validate_accepted in E as [H1 _].
    + intros (pb & _ & E)%acceptable_profile. subst o. by rewrite E.
  - subst o. unfold validate_and_canonicalize. destruct (rule_cap_excess _ None); [by destruct (count_and_limit _)|].
    destruct (c_primary config); [|done]. rewrite !normalize_rule_set_eq. unfold deduplicate_set.
    repeat case_match; done.
  - intros e i. subst o. destruct (decide (user_count config <= FREE_MAX_RULES)) as [Hc|Hc].
    2:{ unfold validate_and_canonicalize. destruct (rule_cap_excess _ None) as [x|] eqn:E; [|by apply rule_cap_none in E].
        destruct (count_and_limit x). simpl. by intros ->%list_elem_of_singleton. }
    destruct (c_primary config) as [pb|] eqn:Hp.
    2:{ unfold validate_and_canonicalize. rewrite (proj2 (rule_cap_none config) Hc), Hp. simpl.
        intros [->|He]%elem_of_cons Hi; [done|]. by eapply collect_errors_blame. }
    rewrite (validate_bound config platform pb Hc Hp). intros He Hi.
    assert (e ∈ all_errors config platform pb) as Hx.
    { destruct (all_errors config platform pb) eqn:E; [|exact He].
      by destruct (all_warnings config platform); apply not_elem_of_nil in He. }
    unfold all_errors in Hx. rewrite !elem_of_app in Hx. destruct Hx as [Hx|[Hx|Hx]].
    { destruct (has_role_conflict config); [|by apply not_elem_of_nil in Hx]. by apply list_elem_of_singleton in Hx as ->. }
    all: apply list_elem_of_join in Hx as (es & Hes & (rule & -> & Hr)%list_elem_of_fmap);
      eexists _, rule; split; [exact Hr|by eapply rule_errors_blame].
Qed.

End Outcome.

(** ** A sample configuration *)

Definition sample_input (i : str) (m : option AddressMatch) (a : option AppMatch) (act : RuleAction) : Rule :=
  {| ru_id := i; ru_enabled := true; ru_address_match := m; ru_app_match := a; ru_comment := u " note ";
     ru_action := act; ru_origin := None |}.

Definition sample_binding (role : RouteRole) (adapter : str) : RouteBinding :=
  mkBinding role (mkAdapter adapter adapter) UserAssigned.

(** Two spellings of one host, a network written with host bits, an address
    that is never a destination, a program and a zone. *)
Definition sample_config : ActiveConfiguration :=
  {| c_primary := Some (sample_binding Primary (u "eth0"));
     c_secondary := Some (sample_binding Secondary (u "tun0"));
     c_behavior_mode := PreferPrimary;
     c_rule_book :=
       {| rb_primary := [sample_input (u "r-0000") (Some (MExactFqdn (u "Example.com."))) None Verify;
                         sample_input (u "r-0001") (Some (MExactFqdn (u "example.COM"))) None Route;
                         sample_input (u "r-0002") (Some (MSubnet (u "10.1.2.3/16"))) None Verify;
                         sample_input (u "r-0003") (Some (MExactIp (u "0.0.0.0"))) None Route];
          rb_secondary := [sample_input (u "r-0000") None (Some (mkAppMatch (AppExact (u "viewer")) false false)) Block;
                           sample_input (u "r-0001") (Some (MSuffixDomain (u "ru"))) None Route] |} |}.

Definition sample_outcome : ValidationOutcome :=
  @validate_and_canonicalize ascii_unicode sample_idna sample_config HLinux.

Lemma validated_profile_ok_witness :
  exists p, outcome_profile sample_outcome = Some p
    /\ (r_id <$> set_of p Primary) = [u "r-0001"; u "r-0002"]
    /\ (forall role, Forall (@canonical_rule_ok ascii_unicode HLinux) (set_of p role)
          /\ NoDup (within_set <$> set_of p role) /\ StronglySorted (cmp_le rule_cmp) (set_of p role)).
Proof.
  destruct (outcome_profile sample_outcome) as [p|] eqn:E; [|vm_compute in E; discriminate].
  exists p. split; [reflexivity|]. split.
  - assert (Ep : (fun p => r_id <$> set_of p Primary) <$> outcome_profile sample_outcome
                 = Some [u "r-0001"; u "r-0002"]) by (vm_compute; reflexivity).
    rewrite E in Ep. by injection Ep.
  - apply (@validated_profile_ok ascii_unicode sample_idna sample_idna_laws sample_config HLinux p E).
Defined.

Lemma no_rule_lost_witness :
  exists w, w ∈ outcome_warnings sample_outcome /\ loss_notice w = Some (u "r-0003").
Proof.
  destruct (outcome_profile sample_outcome) as [p|] eqn:E; [|vm_compute in E; discriminate].
  set (rule := sample_input (u "r-0003") (Some (MExactIp (u "0.0.0.0"))) None Route).
  assert (Hin : rule ∈ rules_of sample_config Primary)
    by (apply (list_elem_of_lookup_2 _ 3); reflexivity).
  destruct (@no_rule_lost ascii_unicode sample_idna sample_idna_laws sample_config HLinux p Primary rule E Hin)
    as [(r & Hr & Hid & _)|Hw]; [|exact Hw].
  exfalso. assert (Ep : (fun p => existsb (fun r => str_eqb (r_id r) (u "r-0003")) (set_of p Primary))
                 <$> outcome_profile sample_outcome = Some false) by (vm_compute; reflexivity).
  rewrite E in Ep. injection Ep as Ep. rewrite existsb_false in Ep. specialize (Ep r Hr).
  rewrite Hid in Ep. by vm_compute in Ep.
Defined.

Lemma validation_verdict_witness :
  is_accepted sample_outcome = true /\ @acceptable ascii_unicode sample_idna sample_config HLinux
  /\ outcome_errors (@validate_and_canonicalize ascii_unicode sample_idna
       (mkConfig None None PreferPrimary (mkRuleBook [] [])) HLinux) <> [].
Proof.
  destruct (@validation_verdict ascii_unicode sample_idna sample_config HLinux) as [[H1 _] _].
  assert (E : is_accepted sample_outcome = true) by (vm_compute; reflexivity).
  split; [exact E|]. split; [exact (H1 E)|].
  destruct (@validation_verdict ascii_unicode sample_idna (mkConfig None None PreferPrimary (mkRuleBook [] [])) HLinux)
    as [_ [H2 _]]. apply H2. vm_compute. reflexivity.
Defined.

(** A range of one address written half in IPv4-mapped form stays a range: the
    rule is no address rule. *)
Example mapped_single_range_stays_a_range :
  single_address_written (u "::ffff:192.0.2.7-192.0.2.7") = None
  /\ (fun r => (range_first r, range_last r))
       <$> (match fst (canonical_ip_range (u "::ffff:192.0.2.7-192.0.2.7") (u "r-0000")) with
            | Ok r => Some r | Err _ => None end)
     = Some (ipv4 192 0 2 7, ipv4 192 0 2 7)
  /\ single_address_written (u "192.0.2.7-192.0.2.7") = Some (ipv4 192 0 2 7).
Proof. by vm_compute. Qed.

(** A host written [tool.exe.] is accepted as a domain and stored as [tool.exe],
    a value the same pipeline refuses in the same section. *)
Example trailing_dot_hides_a_program :
  let i := u "r-0000" in
  let written := sample_input i (Some (MExactFqdn (u "tool.exe."))) None Route in
  let stored := sample_input i (Some (MExactFqdn (u "tool.exe"))) None Route in
  @kept_rule ascii_unicode sample_idna Primary HWindows written
    = Some (mkCanonicalRule i true (Some (ExactFqdn (u "tool.exe"))) None (u "note") Route None)
  /\ @rule_errors ascii_unicode sample_idna Primary HWindows stored
     = [WrongSection i (u "tool.exe") SWindows].
Proof. by vm_compute. Qed.
