(* ===== verification/Convert.v ===== *)
(** * Between the file and the rule set

    core/domain/src/rules_file/convert.rs: a parsed file becomes the rules that
    validation reads, and a canonical rule set becomes a file again. The theorem
    at the end goes all the way round: rules exported as text, read, converted
    and validated come back as the same rules. *)

From stdpp Require Import base numbers list sorting.
From S2P Require Import Prelude Str Digits IpAddr IpBlock IpText NetPolicy AppPath AppIdentity AutoRule.
From S2P Require Import Canonical Normalize RuleLine RuleClass RulesFile RuleValue RuleAccept.

Open Scope nat_scope.

(** ** From the file *)

(** [format!("r-{global_idx:04}")]. *)
Definition rule_id_of (index : nat) : str := u "r-" ++ pad_zero 4 (fmt_dec (N.of_nat index)).

Definition entry_matches (sec : RulesFileSection) (e : RulesFileEntry) (include_child_processes : bool)
  : option AddressMatch * option AppMatch :=
  match sec with
  | SZones => (Some (MZone (match_value e)), None)
  | SDomains | SAuto => (Some (from_domain_value (match_value e)), None)
  | SIp => (Some (MExactIp (match_value e)), None)
  | SCidr => (Some (MSubnet (match_value e)), None)
  | SRanges => (Some (MIpRange (match_value e)), None)
  | SWindows | SLinux | SMacOS =>
      let pattern := if contains_char (is_char STAR) (match_value e)
                     then AppGlob (match_value e) else AppExact (match_value e) in
      (None, Some {| am_pattern := pattern;
                     am_include_child_processes := include_child_processes || children_requested e;
                     am_override_requested := e_override_requested e |})
  end.

Definition entry_action (e : RulesFileEntry) : RuleAction :=
  if blocked e then Block else if verify_primary e then Verify else Route.

Definition entry_rule (include_child_processes : bool) (index : nat) (se : RulesFileSection * RulesFileEntry)
  : Rule :=
  let '(sec, e) := se in
  let '(address, app) := entry_matches sec e include_child_processes in
  {| ru_id := rule_id_of index; ru_enabled := e_enabled e; ru_address_match := address; ru_app_match := app;
     ru_comment := default [] (inline_comment e); ru_action := entry_action e; ru_origin := e_origin e |}.

(** The entries of the sections in their order, each with its section. *)
Definition section_entries (l : list SectionContent) : list (RulesFileSection * RulesFileEntry) :=
  mjoin ((fun c => pair (section c) <$> entries c) <$> l).

Definition rules_file_to_route_rule_set (parsed : RulesFileParsed) (platform : HostPlatform)
  (include_child_processes : bool) : list Rule :=
  imap (entry_rule include_child_processes) (section_entries (active_sections_for parsed platform)).

(** ** To the file *)

(** The vectors the exporter sorts entries into. *)
Inductive Bucket : Set := BZones | BDomains | BIps | BSubnets | BRanges | BApps | BAuto.

#[export] Instance Bucket_eq_dec : EqDecision Bucket.
Proof. solve_decision. Defined.

Definition is_domain_kind (m : CanonicalAddressMatch) : bool :=
  match m with ExactFqdn _ | SuffixDomain _ => true | _ => false end.

Definition is_name_kind (m : CanonicalAddressMatch) : bool :=
  match m with ExactIp _ | Subnet _ | Range _ => false | _ => true end.

Definition exported_address (rule : CanonicalRule) (addr : CanonicalAddressMatch) : Bucket * RulesFileEntry :=
  let domain := is_domain_kind addr in
  let app_authored := negb (is_none (r_origin rule)) && domain in
  let verify := (domain || match addr with ExactIp _ => true | _ => false end)
                && bool_decide (r_action rule = Verify) in
  let bucket := match addr with
                | ExactFqdn _ | SuffixDomain _ => if app_authored then BAuto else BDomains
                | AnyZoneDomain _ => BDomains
                | Zone _ => BZones
                | ExactIp _ => BIps
                | Subnet _ => BSubnets
                | Range _ => BRanges
                end in
  (bucket,
   {| match_value := match addr with
                     | ExactFqdn label => label
                     | SuffixDomain label => u "*." ++ label
                     | AnyZoneDomain base => base ++ u ".*"
                     | Zone name => name
                     | ExactIp a => fmt_ip a
                     | Subnet block => IpBlock_fmt block
                     | Range range => IpRange_fmt range
                     end;
      inline_comment := if is_empty (r_comment rule) then None else Some (r_comment rule);
      e_enabled := r_enabled rule;
      blocked := bool_decide (r_action rule = Block);
      verify_primary := verify;
      e_override_requested := false;
      children_requested := false;
      e_origin := if app_authored then r_origin rule else None |}).

Definition exported_app (rule : CanonicalRule) (app : CanonicalAppMatch) : Bucket * RulesFileEntry :=
  (BApps,
   {| match_value := pattern_as_str (pattern app);
      inline_comment := if is_empty (r_comment rule) then None else Some (r_comment rule);
      e_enabled := r_enabled rule;
      blocked := bool_decide (r_action rule = Block);
      verify_primary := false;
      e_override_requested := Canonical.override_requested app;
      children_requested := include_child_processes app;
      e_origin := r_origin rule |}).

Definition exported_entry (rule : CanonicalRule) : option (Bucket * RulesFileEntry) :=
  match r_address_match rule with
  | Some addr => Some (exported_address rule addr)
  | None => exported_app rule <$> r_app_match rule
  end.

Definition bucket_entries (rules : list CanonicalRule) (b : Bucket) : list RulesFileEntry :=
  omap (fun rule => match exported_entry rule with
                    | Some (b', e) => if bool_decide (b' = b) then Some e else None
                    | None => None
                    end) rules.

Definition canonical_rule_set_to_rules_file_parsed (rules : list CanonicalRule)
  (host_app_section : RulesFileSection) : RulesFileParsed :=
  mkParsed
    (List.filter (fun c => match entries c with [] => false | _ => true end)
       ((fun sb => mkSection sb.1 (bucket_entries rules sb.2))
          <$> [(SZones, BZones); (SDomains, BDomains); (SIp, BIps); (SCidr, BSubnets); (SRanges, BRanges);
               (host_app_section, BApps); (SAuto, BAuto)])).

(** ** An exported address is read as itself *)

(** How the file's reader sees the exported value. *)
Definition reread (m : CanonicalAddressMatch) : AddressMatch :=
  match m with
  | ExactFqdn n => MExactFqdn n
  | SuffixDomain n => MSuffixDomain n
  | AnyZoneDomain n => MAnyZoneDomain n
  | Zone n => MZone n
  | ExactIp a => MExactIp (fmt_ip a)
  | Subnet b => MSubnet (IpBlock_fmt b)
  | Range r => MIpRange (IpRange_fmt r)
  end.

Lemma host_ok_no_char n c : host_ok n -> hostname_char c = false -> contains_char (is_char c) n = false.
Proof.
  intros Hn Hc. apply contains_char_false. intros d Hd. apply N.eqb_neq. intros <-.
  pose proof (host_ok_chars n Hn) as H. rewrite forallb_forall in H. apply list_elem_of_In in Hd.
  rewrite (H c Hd) in Hc. done.
Qed.

Lemma host_ok_nonempty n : host_ok n -> n <> [].
Proof. intros (_ & _ & _ & _ & H & _) ->. done. Qed.

Lemma strip_suffix_no_char suf s c :
  last suf = Some c -> last_is (is_char c) s = false -> strip_suffix suf s = None.
Proof.
  intros Hc Hs. destruct (strip_suffix suf s) as [r|] eqn:E; [|done]. apply strip_suffix_Some in E as ->.
  unfold last_is in Hs. rewrite last_app, Hc in Hs. unfold is_char in Hs. by rewrite N.eqb_refl in Hs.
Qed.

Lemma strip_prefix_no_char pre s c :
  head pre = Some c -> contains_char (is_char c) s = false -> strip_prefix pre s = None.
Proof.
  intros Hc Hs. destruct (strip_prefix pre s) as [r|] eqn:E; [|done]. apply strip_prefix_Some in E as ->.
  destruct pre as [|d pre]; [done|]. injection Hc as ->. apply orb_false_iff in Hs as [Hs _].
  unfold is_char in Hs. by rewrite N.eqb_refl in Hs.
Qed.

Lemma last_is_contains p (s : str) : contains_char p s = false -> last_is p s = false.
Proof.
  intros Hs. unfold last_is. destruct (last s) as [c|] eqn:E; [|done].
  apply last_Some_elem_of in E. by apply (proj1 (contains_char_false p s) Hs).
Qed.

Lemma last_is_app_ne p (s t : str) : t <> [] -> last_is p (s ++ t) = last_is p t.
Proof.
  intros Ht. unfold last_is. rewrite last_app. destruct (last t) eqn:E; [done|]. by apply last_None in E.
Qed.

Lemma from_domain_host n : host_ok n -> from_domain_value n = MExactFqdn n.
Proof.
  intros Hn. assert (Hs := host_ok_no_char n STAR Hn eq_refl). unfold from_domain_value.
  rewrite (strip_suffix_no_char _ _ STAR) by (done || by apply last_is_contains).
  by rewrite (strip_prefix_no_char _ _ STAR).
Qed.

Lemma from_domain_suffix n : host_ok n -> from_domain_value (u "*." ++ n) = MSuffixDomain n.
Proof.
  intros Hn. assert (Hs := host_ok_no_char n STAR Hn eq_refl). unfold from_domain_value.
  rewrite (strip_suffix_no_char _ _ STAR); [|done|].
  - by rewrite (proj2 (strip_prefix_Some _ _ n)).
  - rewrite last_is_app_ne by (by apply host_ok_nonempty). by apply last_is_contains.
Qed.

Lemma from_domain_any_zone n : host_ok n -> from_domain_value (n ++ u ".*") = MAnyZoneDomain n.
Proof.
  intros Hn. assert (Hs := host_ok_no_char n STAR Hn eq_refl). unfold from_domain_value.
  rewrite (proj2 (strip_suffix_Some _ _ n)) by done. by rewrite (strip_prefix_no_char _ _ STAR).
Qed.

(** ** Validation of what was exported *)

Section Reread.
Context `{Unicode} `{Idna} {HL : IdnaLaws}.

Lemma host_ok_accepted n i : host_ok n -> reject_if_not_a_hostname n i = (Ok tt, []).
Proof using Type.
  intros (Ha & _ & Hb & Hl & Hal & H6). unfold reject_if_not_a_hostname, is_valid_hostname.
  by rewrite Hal, H6, Ha, Hl, (proj2 (Nat.leb_le _ _) Hb).
Qed.

Lemma host_ok_no_trailing_dot n : host_ok n -> trim_end_matches (is_char DOT) n = n.
Proof using Type.
  intros Hn. destruct (labels_no_trailing_dot n (host_ok_labels n Hn)) as [Hd _].
  apply trim_end_matches_id. unfold last_is. destruct (last n) as [c|] eqn:E; [|done].
  apply not_true_iff_false. intros Ec%N.eqb_eq. subst c. apply last_Some in E as [r ->].
  by rewrite (proj2 (strip_suffix_Some [DOT] _ r) eq_refl) in Hd.
Qed.

Lemma domain_label_reread n i : host_ok n -> normalize_domain_label n i = (Ok n, []).
Proof using Type.
  intros Hn. unfold normalize_domain_label. rewrite host_ok_trim, host_ok_no_trailing_dot by done.
  rewrite (proj2 (is_empty_false n) (host_ok_nonempty n Hn)), str_eqb_refl. pose proof Hn as (Ha & Hl & _).
  rewrite Ha, Hl, host_ok_accepted by done. done.
Qed.

Lemma zone_body_host n : host_ok n -> zone_body n = n.
Proof using Type.
  intros Hn. unfold zone_body. rewrite host_ok_trim by done.
  rewrite (strip_prefix_no_char _ _ STAR) by (done || by apply host_ok_no_char). cbn [default from_option id].
  destruct (strip_prefix [DOT] n) as [r|] eqn:E; [|done]. apply strip_prefix_Some in E.
  destruct Hn as (_ & _ & _ & Hl & _). rewrite E in Hl. done.
Qed.
Lemma check_networks_pass value blocks i :
  Forall block_ok blocks -> exists ws, check_networks value blocks i = (Ok tt, ws).
Proof using Type.
  intros Hb. rewrite Forall_forall in Hb. unfold check_networks.
  assert (find_first wider_than_rule_allows blocks = None) as ->.
  { apply find_first_None. intros b Hin. by destruct (Hb b Hin) as (_ & ? & _). }
  assert (find_map reserved_overlap blocks = None) as ->.
  { apply find_map_None. intros b Hin. destruct (Hb b Hin) as (Hw & _ & Hr). apply eq_None_not_Some.
    rewrite reserved_overlap_tables, overlaps_networks by done. intros (a & Ha & Hba & Hn).
    apply classify_reserved in Hn; [|done]. by rewrite (Hr a Ha Hba) in Hn. }
  by eexists.
Qed.

Lemma ip_address_reread a i :
  ip_wf a -> canonical_ip a = a -> destination_class (classify a) = true ->
  exists ws, canonical_ip_address (fmt_ip a) i = (Ok a, ws).
Proof using Type.
  intros Hw Hc Hd. unfold canonical_ip_address. rewrite fmt_ip_trim, parse_fmt_ip, Hc by done.
  rewrite bool_decide_eq_true_2 by done. destruct (classify a); try done; by eexists.
Qed.

Lemma subnet_reread b i :
  block_ok b -> canonical_block b = b -> exists ws, canonical_subnet (IpBlock_fmt b) i = (Ok b, ws).
Proof using Type.
  intros Hb Hc. pose proof Hb as [Hw _]. unfold canonical_subnet.
  assert (trim (IpBlock_fmt b) = IpBlock_fmt b) as -> by apply trim_block_text.
  rewrite parse_fmt_block, Hc by done.
  destruct (check_networks_pass (IpBlock_fmt b) [b] i) as [ws Ews]; [by constructor|].
  rewrite Ews. by eexists.
Qed.

Lemma range_reread r i :
  canonical_address_ok (Range r) -> exists ws, canonical_ip_range (IpRange_fmt r) i = (Ok r, ws).
Proof using Type.
  intros ((Hf & Hl & Hn) & Hb & [Cf Cl] & Hw & _). unfold canonical_ip_range, IpRange_fmt.
  rewrite trim_joined by done.
  rewrite (proj2 (split_once_Some DASH _ (fmt_ip (range_first r)) (fmt_ip (range_last r))))
    by (split; [done|by apply fmt_ip_no_char]).
  rewrite !fmt_ip_trim, !parse_fmt_ip, Cf, Cl, Hn, Hw by done.
  destruct (check_networks_pass (fmt_ip (range_first r) ++ DASH :: fmt_ip (range_last r)) (range_blocks r) i)
    as [ws Ews]; [done|]. rewrite Ews. by eexists.
Qed.

Lemma normalize_address_reread m i :
  canonical_address_ok m -> exists ws, normalize_address i (reread m) = (Some m, [], ws).
Proof using Type.
  destruct m as [n|n|n|n|a|b|r]; cbn [reread normalize_address]; intros Hm.
  - unfold map_checked, canonical_host_name. rewrite domain_label_reread by exact Hm. by eexists.
  - destruct Hm as [Hm Hd]. unfold map_checked, canonical_host_name. rewrite domain_label_reread by exact Hm.
    cbn. unfold suffix_or_zone. rewrite Hd, orb_true_r. by eexists.
  - unfold map_checked, canonical_host_name. rewrite domain_label_reread by exact Hm. by eexists.
  - unfold map_checked, canonical_host_name. rewrite zone_body_host by exact Hm.
    rewrite (proj2 (is_empty_false n) (host_ok_nonempty n Hm)), domain_label_reread by exact Hm. by eexists.
  - destruct Hm as (H1 & H2 & H3). destruct (ip_address_reread a i H1 H2 H3) as [ws ->]. by eexists.
  - destruct Hm as [H1 H2]. destruct (subnet_reread b i H1 H2) as [ws ->]. by eexists.
  - destruct (range_reread r i Hm) as [ws ->]. by eexists.
Qed.

(** A network of several addresses is not taken for one. *)
Lemma block_not_single b : block_wf b -> is_single_address b = false -> single_address_written (IpBlock_fmt b) = None.
Proof using Type.
  intros Hw Hs. unfold single_address_written.
  assert (trim (IpBlock_fmt b) = IpBlock_fmt b) as -> by apply trim_block_text.
  assert (contains_char (is_char SLASH) (IpBlock_fmt b) = true) as ->.
  { unfold IpBlock_fmt. rewrite contains_char_app. cbn. by rewrite orb_true_r. }
  by rewrite parse_fmt_block, Hs.
Qed.

Lemma range_not_single r :
  range_wf r -> range_first r <> range_last r -> single_address_written (IpRange_fmt r) = None.
Proof using Type.
  intros Hw Hne. unfold single_address_written.
  assert (trim (IpRange_fmt r) = IpRange_fmt r) as -> by (by apply trim_joined).
  assert (contains_char (is_char SLASH) (IpRange_fmt r) = false) as ->.
  { unfold IpRange_fmt. rewrite contains_char_app. cbn [contains_char existsb].
    rewrite (fmt_ip_no_char SLASH (range_first r)) by done. by apply (fmt_ip_no_char SLASH (range_last r)). }
  by rewrite parse_fmt_range, bool_decide_eq_false_2.
Qed.
End Reread.

(** ** A rule there and back *)

(** The rules the file can carry without a program: a name that stands in its
    section, a range of several addresses, a comment of one line, and an
    author only where the file has a place for it. *)
Record exportable (r : CanonicalRule) : Prop := {
  ex_no_app : r_app_match r = None;
  ex_placed : forall m naming, r_address_match r = Some m -> is_name_kind m = true ->
    misplaced_rule_value (match_section (reread m)) (match_to_display_string (reread m)) naming = None;
  ex_range : forall g, r_address_match r = Some (Range g) -> range_first g <> range_last g;
  ex_comment : trimmed_str (r_comment r) /\ field_ok (r_comment r);
  ex_origin : forall o, r_origin r = Some o ->
    (exists m, r_address_match r = Some m /\ is_domain_kind m = true)
    /\ reason_wf (reason o) /\ field_wf (anchor o) /\ field_wf (added o)
    /\ (r_comment r <> [] -> note_wf (r_comment r));
}.

(** Addresses, networks and ranges always stand in their sections. *)
Lemma placed r m naming :
  exportable r -> r_address_match r = Some m ->
  misplaced_rule_value (match_section (reread m)) (match_to_display_string (reread m)) naming = None.
Proof.
  intros He Hm. pose proof (ex_placed r He m naming Hm) as Hn. unfold misplaced_rule_value in *.
  destruct m as [n|n|n|n|a|b|g]; try (by apply Hn); cbn [reread match_section match_to_display_string].
  - by rewrite classify_fmt_ip.
  - by rewrite classify_fmt_block.
  - by rewrite classify_fmt_range.
Qed.

Definition with_id (i : str) (r : CanonicalRule) : CanonicalRule :=
  {| r_id := i; r_enabled := r_enabled r; r_address_match := r_address_match r; r_app_match := r_app_match r;
     r_comment := r_comment r; r_action := r_action r; r_origin := r_origin r |}.

Definition bucket_section (host_app_section : RulesFileSection) (b : Bucket) : RulesFileSection :=
  match b with
  | BZones => SZones | BDomains => SDomains | BIps => SIp | BSubnets => SCidr | BRanges => SRanges
  | BApps => host_app_section | BAuto => SAuto
  end.

Lemma exported_matches host r m ch :
  canonical_address_ok m ->
  let be := exported_address r m in
  entry_matches (bucket_section host be.1) be.2 ch = (Some (reread m), None).
Proof.
  intros Hm. destruct m as [n|n|n|n|a|b|g]; cbn [exported_address fst snd is_domain_kind match_value];
    try reflexivity.
  - by destruct (negb (is_none (r_origin r)) && true); simpl; rewrite from_domain_host.
  - destruct Hm as [Hm _]. by destruct (negb (is_none (r_origin r)) && true); cbn [bucket_section entry_matches match_value];
      rewrite from_domain_suffix.
  - cbn [bucket_section entry_matches match_value]. by rewrite from_domain_any_zone.
Qed.

Lemma exported_action r m :
  r_address_match r = Some m -> (r_action r = Verify -> verify_applies r = true) ->
  entry_action (exported_address r m).2 = r_action r.
Proof.
  intros Hm Hv. unfold entry_action, exported_address. cbn [snd blocked verify_primary].
  unfold verify_applies in Hv. rewrite Hm in Hv.
  destruct (r_action r); [by destruct m|by destruct m|]. specialize (Hv eq_refl).
  by destruct m as [?|?|?|?|[]|?|?].
Qed.

Lemma exported_origin r m : exportable r -> r_address_match r = Some m -> e_origin (exported_address r m).2 = r_origin r.
Proof.
  intros He Hm. cbn [exported_address snd e_origin]. destruct (r_origin r) as [o|] eqn:Eo; [|done].
  destruct (ex_origin r He o Eo) as ((m' & E & Hd) & _). rewrite Hm in E. injection E as <-. by rewrite Hd.
Qed.

(** ** The exported entries are entries the file can hold *)

Definition export_char (c : char) : bool :=
  hostname_char c || (c =? STAR)%N || (c =? COLON)%N || (c =? SLASH)%N.

Lemma export_char_cases c :
  export_char c = true ->
  is_whitespace c = false /\ is_char HASH c = false /\ is_forbidden_field_char c = false
  /\ is_mark c = false /\ is_char QUOTE c = false.
Proof.
  intros Hc. unfold export_char, hostname_char, is_ascii_alphanumeric, is_ascii_alphabetic, is_ascii_uppercase,
    is_ascii_lowercase, is_ascii_digit, DOT, DASH, UNDERSCORE, STAR, COLON, SLASH in Hc.
  rewrite !orb_true_iff, !andb_true_iff, !N.leb_le, !N.eqb_eq in Hc.
  unfold is_whitespace, is_forbidden_field_char, is_control, is_mark, is_char, HASH, QUOTE, TAB, DENY_PREFIX,
    VERIFY_PRIMARY_PREFIX.
  split_and!; apply not_true_iff_false;
    rewrite ?orb_true_iff, ?andb_true_iff, ?negb_true_iff, ?orb_true_iff, ?andb_true_iff, ?N.leb_le, ?N.eqb_eq; lia.
Qed.

Lemma export_plain v :
  v <> [] -> forallb export_char v = true -> head v <> Some DASH -> plainb v = true.
Proof.
  intros Hne Hv Hd. rewrite forallb_forall in Hv. unfold plainb, has_whitespace, fieldb.
  assert (Hall : forall c, c ∈ v -> export_char c = true) by (intros c Hc; by apply Hv, list_elem_of_In).
  rewrite (proj2 (is_empty_false v) Hne).
  assert (contains_char is_whitespace v = false) as ->.
  { apply contains_char_false. intros c Hc. by apply export_char_cases, Hall. }
  assert (contains_char (is_char HASH) v = false) as ->.
  { apply contains_char_false. intros c Hc. by apply export_char_cases, Hall. }
  assert (forallb (fun c => negb (is_forbidden_field_char c)) v = true) as ->.
  { apply forallb_forall. intros c Hc. apply negb_true_iff, export_char_cases, Hv, Hc. }
  destruct v as [|c v]; [done|]. destruct (export_char_cases c (Hall c ltac:(left))) as (_ & _ & _ & -> & ->).
  cbn [negb andb]. unfold is_char. destruct (N.eqb_spec DASH c) as [Ec|]; [|done]. by subst c.
Qed.

Lemma host_export_chars n : host_ok n -> forallb export_char n = true.
Proof.
  intros Hn. pose proof (host_ok_chars n Hn) as H. apply forallb_forall. intros c Hc.
  rewrite forallb_forall in H. unfold export_char. by rewrite (H c Hc).
Qed.

Lemma host_head n : host_ok n -> head n <> Some DASH.
Proof.
  intros (_ & _ & _ & Hl & _) Hh. destruct n as [|c n]; [done|]. injection Hh as ->. cbn [split] in Hl.
  change (is_char DOT DASH) with false in Hl. cbn iota in Hl.
  destruct (split (is_char DOT) n) as [|p ps]; apply andb_true_iff in Hl as [Hl _]; unfold is_valid_ascii_dns_label in Hl;
    rewrite !andb_true_iff, !negb_true_iff in Hl; destruct Hl as [[[_ Hs] _] _]; done.
Qed.

Lemma ip_export_char c : ip_char c = true -> export_char c = true /\ c <> DASH.
Proof.
  unfold ip_char, export_char, hostname_char, is_ascii_alphanumeric, is_ascii_alphabetic, is_ascii_uppercase,
    is_ascii_lowercase, is_ascii_digit, DOT, DASH, UNDERSCORE, STAR, COLON, SLASH.
  rewrite !orb_true_iff, !andb_true_iff, !N.leb_le, !N.eqb_eq. lia.
Qed.

Lemma fmt_ip_nonempty a : fmt_ip a <> [].
Proof. intros E. pose proof (fmt_ip_address_shaped a) as H. by rewrite E in H. Qed.

Lemma fmt_ip_export a : forallb export_char (fmt_ip a) = true.
Proof.
  apply forallb_forall. intros c Hc. pose proof (fmt_ip_chars a) as H. rewrite forallb_forall in H.
  by apply ip_export_char, H.
Qed.

Lemma fmt_ip_head a t : head (fmt_ip a ++ t) <> Some DASH.
Proof.
  pose proof (fmt_ip_chars a) as H. pose proof (fmt_ip_nonempty a). destruct (fmt_ip a) as [|c s]; [done|].
  cbn in *. apply andb_true_iff in H as [Hc _]. intros [= ->]. by apply ip_export_char in Hc as [_ ?].
Qed.

Lemma fmt_dec_export n : forallb export_char (fmt_dec n) = true.
Proof.
  apply forallb_forall. intros c Hc. pose proof (fmt_dec_all_digits n) as H. rewrite forallb_forall in H.
  unfold export_char, hostname_char, is_ascii_alphanumeric. by rewrite (H c Hc), orb_true_r.
Qed.

Lemma exported_plain r m : canonical_address_ok m -> plainb (match_value (exported_address r m).2) = true.
Proof.
  intros Hm. cbn [exported_address snd match_value]. destruct m as [n|n|n|n|a|b|g].
  - apply export_plain; [by apply host_ok_nonempty|by apply host_export_chars|by apply host_head].
  - destruct Hm as [Hm _]. pose proof (host_export_chars n Hm) as Hc. by apply export_plain.
  - pose proof (host_ok_nonempty n Hm). pose proof (host_head n Hm).
    apply export_plain; [by destruct n|rewrite forallb_app, host_export_chars by done; done|by destruct n].
  - apply export_plain; [by apply host_ok_nonempty|by apply host_export_chars|by apply host_head].
  - apply export_plain; [apply fmt_ip_nonempty|apply fmt_ip_export|].
    pose proof (fmt_ip_head a []) as Hh. by rewrite app_nil_r in Hh.
  - pose proof (fmt_ip_nonempty (network b)). apply export_plain; [|unfold IpBlock_fmt|apply fmt_ip_head].
    + unfold IpBlock_fmt. by destruct (fmt_ip (network b)).
    + rewrite forallb_app. cbn [forallb]. by rewrite fmt_ip_export, fmt_dec_export.
  - pose proof (fmt_ip_nonempty (range_first g)). apply export_plain; [|unfold IpRange_fmt|apply fmt_ip_head].
    + unfold IpRange_fmt. by destruct (fmt_ip (range_first g)).
    + rewrite forallb_app. cbn [forallb]. by rewrite !fmt_ip_export.
Qed.

(** A one-word value is judged as it stands when its line is commented out. *)
Lemma plain_disabled kind v :
  plainb v = true ->
  is_disabled_rule_value kind v =
    match kind with
    | PApplication => looks_like_a_rule_value v || names_a_program_image v || names_a_place v
    | PSubnet => match IpBlock_parse v with Some _ => true | None => false end
    | PIpRange =>
        match split_once DASH v with
        | Some (first, last) =>
            match parse_ip_addr (trim first), parse_ip_addr (trim last) with
            | Some _, Some _ => true
            | _, _ => false
            end
        | None => false
        end
    | PExactIp => match parse_ip_addr v with Some _ => true | None => false end
    | PZone | PDomain => looks_like_a_host_value v
    end.
Proof.
  unfold plainb. rewrite !andb_true_iff, !negb_true_iff. intros ((((Hne & Hw) & _) & _) & Hc).
  unfold is_disabled_rule_value.
  assert (carries_retired_block_flag v = false) as ->.
  { unfold carries_retired_block_flag, split_whitespace. rewrite split_none by exact Hw. cbn [List.filter].
    by rewrite Hne. }
  rewrite trim_id by exact Hw. rewrite (trim_start_matches_id is_mark v); [done|].
  destruct v; [done|]. rewrite !andb_true_iff, !negb_true_iff in Hc. by destruct Hc as [[? _] _].
Qed.

Lemma host_looks v :
  forallb (fun c => hostname_char c || (c =? STAR)%N) v = true -> v <> [] -> looks_like_a_host_value v = true.
Proof.
  intros Hv Hne. unfold looks_like_a_host_value. rewrite (proj2 (is_empty_false v) Hne). cbn [negb andb].
  apply forallb_forall. intros c Hc. rewrite forallb_forall in Hv. specialize (Hv c Hc). cbv beta in Hv.
  assert (is_whitespace c = false) as ->.
  { apply export_char_cases. unfold export_char. apply orb_true_iff in Hv as [-> | ->]; rewrite ?orb_true_r; done. }
  unfold hostname_char in Hv. cbn [negb andb].
  destruct (is_ascii_alphanumeric c), (c =? DOT)%N, (c =? DASH)%N, (c =? UNDERSCORE)%N, (c =? STAR)%N;
    rewrite ?orb_true_r; done.
Qed.

Lemma host_text_chars n : host_ok n -> forallb (fun c => hostname_char c || (c =? STAR)%N) n = true.
Proof.
  intros Hn. pose proof (host_ok_chars n Hn) as H. apply forallb_forall. intros c Hc.
  rewrite forallb_forall in H. by rewrite (H c Hc).
Qed.

Lemma exported_disabled host r m :
  canonical_address_ok m ->
  let be := exported_address r m in
  is_disabled_rule_value (section_rule_type (bucket_section host be.1)) (match_value be.2) = true.
Proof.
  intros Hm be. rewrite plain_disabled by (by apply exported_plain). subst be.
  destruct m as [n|n|n|n|a|b|g]; cbn [exported_address fst snd is_domain_kind match_value].
  - destruct (_ && _); by apply host_looks; [apply host_text_chars|apply host_ok_nonempty].
  - destruct Hm as [Hm _]. pose proof (host_text_chars n Hm). destruct (_ && _); by apply host_looks.
  - apply host_looks; [rewrite forallb_app, host_text_chars by done; done|].
    pose proof (host_ok_nonempty n Hm). by destruct n.
  - by apply host_looks; [apply host_text_chars|apply host_ok_nonempty].
  - cbn [bucket_section section_rule_type]. by rewrite parse_fmt_ip by apply Hm.
  - cbn [bucket_section section_rule_type]. by rewrite parse_fmt_block by apply Hm.
  - cbn [bucket_section section_rule_type]. unfold IpRange_fmt. destruct Hm as ((Hf & Hl & _) & _).
    rewrite (proj2 (split_once_Some DASH _ (fmt_ip (range_first g)) (fmt_ip (range_last g))))
      by (split; [done|by apply fmt_ip_no_char]).
    by rewrite !fmt_ip_trim, !parse_fmt_ip.
Qed.

Lemma exported_entry_ok host r m :
  canonical_address_ok m -> exportable r -> r_address_match r = Some m ->
  let be := exported_address r m in entry_ok (Some (bucket_section host be.1)) be.2.
Proof.
  intros Hm He Em be. apply plain_value_entry_ok; subst be.
  - by apply exported_plain.
  - cbn [exported_address fst]. by destruct m; cbn [is_domain_kind]; try destruct (_ && _).
  - cbn [exported_address snd inline_comment]. intros c Hc. destruct (ex_comment r He) as [H1 H2].
    destruct (r_comment r) eqn:E; [done|]. simpl in Hc. by injection Hc as <-.
  - done.
  - done.
  - cbn [exported_address snd blocked verify_primary]. intros ->%bool_decide_eq_true. by rewrite andb_false_r.
  - cbn [exported_address fst snd verify_primary]. rewrite andb_true_iff. intros [Hk _].
    destruct m; cbn [is_domain_kind] in *; try done; by destruct (_ && _).
  - unfold provenance_ok. rewrite exported_origin by done. destruct (r_origin r) as [o|] eqn:Eo.
    + destruct (ex_origin r He o Eo) as ((m' & E & Hd) & H1 & H2 & H3 & H4). rewrite Em in E. injection E as <-.
      split_and!; try done.
      * cbn [exported_address fst]. rewrite Eo. by destruct m.
      * cbn [exported_address snd inline_comment]. intros t Ht. destruct (r_comment r) eqn:Ec; [done|].
        simpl in Ht. injection Ht as <-. by apply H4.
    + cbn [exported_address fst]. rewrite Eo. by destruct m.
  - intros _ s [= <-]. by apply exported_disabled.
Qed.

(** ** The exported file *)

Definition BUCKETS (host : RulesFileSection) : list (RulesFileSection * Bucket) :=
  [(SZones, BZones); (SDomains, BDomains); (SIp, BIps); (SCidr, BSubnets); (SRanges, BRanges);
   (host, BApps); (SAuto, BAuto)].

Definition exported_line (host : RulesFileSection) (r : CanonicalRule) : option (RulesFileSection * RulesFileEntry) :=
  (fun be => (bucket_section host be.1, be.2)) <$> exported_entry r.

Definition table_entries (host : RulesFileSection) (rules : list CanonicalRule)
  : list (RulesFileSection * RulesFileEntry) :=
  mjoin ((fun sb => pair sb.1 <$> bucket_entries rules sb.2) <$> BUCKETS host).

Lemma table_entries_cons host r rules :
  table_entries host (r :: rules) ≡ₚ option_list (exported_line host r) ++ table_entries host rules.
Proof.
  unfold table_entries, exported_line, BUCKETS, bucket_entries. cbn [fmap list_fmap mjoin list_join omap list_omap fst snd].
  destruct (exported_entry r) as [[b e]|]; cbn [fmap option_fmap option_map option_list app]; [|done].
  destruct b; cbn [bool_decide decide_rel bucket_section fst snd]; simpl; solve_Permutation.
Qed.

Lemma table_entries_perm host rules : table_entries host rules ≡ₚ omap (exported_line host) rules.
Proof.
  induction rules as [|r rules IH]; [done|]. rewrite table_entries_cons, IH. csimpl.
  by destruct (exported_line host r).
Qed.

Lemma section_entries_nonempty (l : list SectionContent) :
  section_entries (List.filter (fun c => match entries c with [] => false | _ => true end) l) = section_entries l.
Proof.
  unfold section_entries. induction l as [|c l IH]; [done|]. cbn [List.filter].
  destruct c as [sec [|e es]]; cbn [entries]; csimpl; [done|]. by rewrite IH.
Qed.

Lemma exported_sections_entries host rules :
  section_entries (sections (canonical_rule_set_to_rules_file_parsed rules host)) ≡ₚ omap (exported_line host) rules.
Proof.
  cbn [canonical_rule_set_to_rules_file_parsed sections]. rewrite section_entries_nonempty, <- table_entries_perm.
  unfold section_entries, table_entries. by rewrite <- list_fmap_compose.
Qed.

Lemma section_entries_Permutation l k : l ≡ₚ k -> section_entries l ≡ₚ section_entries k.
Proof.
  unfold section_entries. induction 1 as [|c l k _ IH|c d l|l k j _ IH1 _ IH2]; csimpl.
  - done.
  - by rewrite IH.
  - solve_Permutation.
  - by etrans.
Qed.

Lemma NoDup_fmap_filter {A B} (f : A -> B) p (l : list A) :
  NoDup (f <$> l) -> NoDup (f <$> List.filter p l).
Proof.
  induction l as [|x l IH]; [done|]. rewrite fmap_cons, NoDup_cons. intros [Hx Hl]. cbn [List.filter].
  destruct (p x); [|by apply IH]. rewrite fmap_cons, NoDup_cons. split; [|by apply IH].
  intros (y & E & [Hy _]%filter_elem)%list_elem_of_fmap. apply Hx. rewrite E. by apply list_elem_of_fmap_2.
Qed.

Lemma exported_sections_nodup platform rules :
  NoDup (section <$> sections (canonical_rule_set_to_rules_file_parsed rules (app_section platform))).
Proof.
  cbn [canonical_rule_set_to_rules_file_parsed sections]. apply NoDup_fmap_filter.
  rewrite <- list_fmap_compose. change (NoDup (fst <$> BUCKETS (app_section platform))).
  apply (bool_decide_unpack (NoDup (fst <$> BUCKETS (app_section platform)))). by destruct platform.
Qed.

Lemma exported_section_of platform rules c :
  c ∈ sections (canonical_rule_set_to_rules_file_parsed rules (app_section platform)) ->
  exists b, c = mkSection (bucket_section (app_section platform) b) (bucket_entries rules b)
    /\ is_active_on (section c) platform = true.
Proof.
  cbn [canonical_rule_set_to_rules_file_parsed sections]. intros [Hc _]%filter_elem.
  apply list_elem_of_fmap in Hc as ([sec b] & -> & Hin). exists b. cbn [fst snd section].
  repeat (apply elem_of_cons in Hin as [E|Hin]; [injection E as -> ->; by destruct platform|]).
  by apply not_elem_of_nil in Hin.
Qed.

Section RoundTrip.
Context `{Unicode} `{Idna} {HL : IdnaLaws}.

(** Reading an exported rule gives the rule, under its new id. *)
Lemma rule_reread platform role ch i r m :
  canonical_rule_ok platform r -> exportable r -> r_address_match r = Some m ->
  let be := exported_address r m in
  exists ws, normalize_rule_of role platform (entry_rule ch i (bucket_section (app_section platform) be.1, be.2))
             = (Some (with_id (rule_id_of i) r), [], ws).
Proof using Type.
  intros (_ & Ha & Hs & _ & Hv) He Hm be. specialize (Ha m Hm). subst be.
  pose proof (exported_matches (app_section platform) r m ch Ha) as Em. cbn zeta in Em.
  set (rule := entry_rule ch i _).
  assert (Er : rule = {| ru_id := rule_id_of i; ru_enabled := r_enabled r; ru_address_match := Some (reread m);
                         ru_app_match := None; ru_comment := r_comment r; ru_action := r_action r;
                         ru_origin := r_origin r |}).
  { unfold rule, entry_rule. rewrite Em, exported_action, exported_origin by done. f_equal.
    cbn [exported_address snd inline_comment]. by destruct (r_comment r). }
  assert (Ew : written_match rule = (Some (reread m), [])).
  { rewrite Er. unfold written_match. cbn [ru_address_match]. destruct m as [?|?|?|?|?|b|g]; try reflexivity; cbn [reread].
    - rewrite block_not_single; [done|apply Ha|by apply Hs].
    - rewrite range_not_single; [done|apply Ha|by apply (ex_range r He)]. }
  destruct (normalize_address_reread m (rule_id_of i) Ha) as [ws Ews]. exists ws.
  unfold normalize_rule_of, normalize_rule. rewrite Ew, Er. cbn [ru_address_match ru_app_match ru_id is_none andb].
  unfold misplaced_in_rule, rule_values, find_map, misplaced_value.
  cbn [ru_address_match ru_app_match app omap list_omap fst snd ru_id].
  rewrite (placed r m _ He Hm). cbn [fmap option_fmap option_map head next_part normalize_part].
  rewrite Ews. cbn [next_part app ru_enabled ru_comment ru_action ru_origin].
  rewrite trim_trimmed by apply (ex_comment r He).
  assert (Et : settle_verify (with_id (rule_id_of i) r) = (with_id (rule_id_of i) r, false)).
  { unfold settle_verify. destruct (bool_decide (r_action (with_id (rule_id_of i) r) = Verify)) eqn:E; [|done].
    apply bool_decide_eq_true in E. assert (Hv' : verify_applies (with_id (rule_id_of i) r) = true) by exact (Hv E).
    by rewrite Hv'. }
  assert (Eq : {| r_id := rule_id_of i; r_enabled := r_enabled r; r_address_match := Some m; r_app_match := None;
                  r_comment := r_comment r; r_action := r_action r; r_origin := r_origin r |}
               = with_id (rule_id_of i) r) by (unfold with_id; by rewrite Hm, (ex_no_app r He)).
  rewrite Eq, Et. by rewrite !app_nil_r.
Qed.
Definition ready (platform : HostPlatform) (r : CanonicalRule) : Prop :=
  canonical_rule_ok platform r /\ exportable r.

Lemma ready_address platform r :
  ready platform r -> exists m, r_address_match r = Some m /\ canonical_address_ok m.
Proof using Type.
  intros [(Hs & Ha & _) He]. rewrite (ex_no_app r He) in Hs. destruct Hs as [[m Hm]|[? ?]]; [|done].
  exists m. auto.
Qed.

(** What the exporter makes of a set is a file the format can carry. *)
Lemma exported_file_ok platform rules :
  Forall (ready platform) rules ->
  file_ok (canonical_rule_set_to_rules_file_parsed rules (app_section platform)) [] None.
Proof using Type.
  intros Hr. rewrite Forall_forall in Hr. constructor; [|apply exported_sections_nodup|constructor..|done].
  apply Forall_forall. intros c (b & -> & _)%exported_section_of. unfold section_ok. cbn [section entries].
  apply Forall_forall. intros e (r & Hin & E)%list_elem_of_omap. unfold exported_entry in E.
  destruct (ready_address platform r (Hr r Hin)) as (m & Hm & Ha). rewrite Hm in E.
  pose proof (exported_entry_ok (app_section platform) r m Ha (proj2 (Hr r Hin)) Hm) as Ho.
  destruct (exported_address r m) as [b' e']. case_bool_decide; [|done]. injection E as <-. by subst b'.
Qed.

(** The rules the reader finds in the exported text, in some order. *)
Lemma exported_entries_read platform rules :
  Forall (ready platform) rules ->
  let text := write_rules_file (canonical_rule_set_to_rules_file_parsed rules (app_section platform)) [] None in
  section_entries (active_sections_for (parsed (parse_rules_file text)) platform)
  ≡ₚ omap (exported_line (app_section platform)) rules.
Proof using Type.
  intros Hr text. assert (Hok := exported_file_ok platform rules Hr). subst text.
  set (p := canonical_rule_set_to_rules_file_parsed rules (app_section platform)) in *.
  assert (Hs : sections (parsed (parse_rules_file (write_rules_file p [] None))) = in_order p).
  { rewrite parse_written by done. destruct (read_file_lines p [] None Hok) as (E & _). exact E. }
  unfold active_sections_for. rewrite Hs. rewrite filter_all.
  - rewrite (section_entries_Permutation _ _ (in_order_perm p (fo_once _ _ _ Hok))). apply exported_sections_entries.
  - intros c Hc%in_order_elem. by apply exported_section_of in Hc as (b & _ & Hact).
Qed.

Lemma rule_set_reread platform role ch rules start :
  Forall (ready platform) rules ->
  exists ws, normalize_rule_set
      (imap (fun i => entry_rule ch (start + i)) (omap (exported_line (app_section platform)) rules)) role platform
    = (imap (fun i => with_id (rule_id_of (start + i))) rules, [], ws).
Proof using Type.
  intros Hr. revert start. induction Hr as [|r rules Hr _ IH]; intros start; [by eexists|].
  destruct (ready_address platform r Hr) as (m & Hm & Ha). destruct Hr as [Hok He].
  assert (exported_line (app_section platform) r
          = Some (bucket_section (app_section platform) (exported_address r m).1, (exported_address r m).2)) as El
    by (unfold exported_line, exported_entry; by rewrite Hm).
  destruct (rule_reread platform role ch start r m Hok He Hm) as [w1 E1]. destruct (IH (S start)) as [w2 E2].
  cbn [omap list_omap]. rewrite El, !imap_cons. cbn [normalize_rule_set].
  rewrite Nat.add_0_r, E1. eexists.
  rewrite (imap_ext _ (fun i => entry_rule ch (S start + i))) by (intros; unfold compose; by rewrite Nat.add_succ_r).
  rewrite (imap_ext (_ ∘ S) (fun i => with_id (rule_id_of (S start + i)))) by (intros; unfold compose; by rewrite Nat.add_succ_r).
  rewrite E2. reflexivity.
Qed.

Lemma omap_total {A B} (f : A -> option B) (d : B) l :
  Forall (fun x => is_Some (f x)) l -> omap f l = (fun x => default d (f x)) <$> l.
Proof using Type. induction 1 as [|x l [y Hy] _ IH]; [done|]. csimpl. by rewrite Hy, IH. Qed.

Lemma omap_perm_inv {A B} (f : A -> option B) (l : list B) (k : list A) :
  Forall (fun x => is_Some (f x)) k -> l ≡ₚ omap f k -> exists k', k ≡ₚ k' /\ l = omap f k'.
Proof using Type.
  intros Hk Hp. destruct k as [|x k0] eqn:Ek.
  { apply Permutation_nil_r in Hp as ->. by exists []. }
  assert (Hd := Forall_inv Hk). destruct Hd as [d _]. rewrite (omap_total f d) in Hp by done.
  apply Permutation_map_inv in Hp as (k' & -> & Hk'). exists k'. split; [done|].
  rewrite (omap_total f d); [done|]. by rewrite <- Hk'.
Qed.

Lemma unnumbered (f : nat -> str) rules :
  with_id [] <$> imap (fun i => with_id (f i)) rules = with_id [] <$> rules.
Proof using Type.
  revert f. induction rules as [|r rules IH]; intros f; [done|]. rewrite imap_cons, !fmap_cons. f_equal.
  apply (IH (f ∘ S)).
Qed.

(** C31. Export and import are inverse from end to end: a canonical rule set written
    as a rules file, read back as text, converted and validated again gives no error
    and the same rules up to their order and ids. It holds for every set of accepted
    rules each of which
    - has an address condition and none on the program;
    - if it is about a name, has one that is not misplaced in its section;
    - if it is about a range, has one of several addresses;
    - has a comment that is trimmed and has no character a field may not hold;
    - if it has an author, is about a domain, with a reason, an anchor and a date the
      file can spell and a comment that does not read as one of them. *)
Theorem export_import_roundtrip platform role ch rules :
  Forall (canonical_rule_ok platform) rules -> Forall exportable rules ->
  let text := write_rules_file (canonical_rule_set_to_rules_file_parsed rules (app_section platform)) [] None in
  let read := rules_file_to_route_rule_set (parsed (parse_rules_file text)) platform ch in
  exists back ws, normalize_rule_set read role platform = (back, [], ws)
    /\ with_id [] <$> back ≡ₚ with_id [] <$> rules.
Proof using Type.
  intros H1 H2 text read. assert (Hr : Forall (ready platform) rules) by (by apply Forall_and).
  pose proof (exported_entries_read platform rules Hr) as Hp. cbn zeta in Hp. fold text in Hp.
  apply omap_perm_inv in Hp as (rules' & Hperm & Hl).
  2:{ eapply Forall_impl; [exact Hr|]. intros r (m & Hm & _)%ready_address.
      unfold exported_line, exported_entry. rewrite Hm. by eexists. }
  destruct (rule_set_reread platform role ch rules' 0) as [ws E]; [by rewrite <- Hperm|].
  eexists _, ws. split; [subst read; unfold rules_file_to_route_rule_set; rewrite Hl; exact E|].
  by rewrite (unnumbered (fun i => rule_id_of (0 + i))), Hperm.
Qed.

End RoundTrip.

Definition sample_canonical (i : str) (m : CanonicalAddressMatch) (a : RuleAction) (enabled : bool) (c : str)
  : CanonicalRule :=
  {| r_id := i; r_enabled := enabled; r_address_match := Some m; r_app_match := None; r_comment := c;
     r_action := a; r_origin := None |}.

Definition sample_set : list CanonicalRule :=
  [sample_canonical (u "r-0007") (ExactFqdn (u "example.com")) Verify true (u "checked");
   sample_canonical (u "r-0003") (AnyZoneDomain (u "example")) Block true [];
   sample_canonical (u "r-0001") (Zone (u "ru")) Route false (u "off for now")].

Lemma export_import_roundtrip_witness :
  let text := write_rules_file (canonical_rule_set_to_rules_file_parsed sample_set SLinux) [] None in
  let read := rules_file_to_route_rule_set (parsed (parse_rules_file text)) HLinux false in
  exists back ws, @normalize_rule_set ascii_unicode sample_idna read Primary HLinux = (back, [], ws)
    /\ with_id [] <$> back ≡ₚ with_id [] <$> sample_set.
Proof.
  assert (Hh : forall n, forallb (fun b => b) [is_ascii n; str_eqb (to_ascii_lowercase n) n;
      byte_len n <=? MAX_HOSTNAME_OCTETS; forallb is_valid_ascii_dns_label (split (is_char DOT) n);
      existsb is_ascii_alphabetic n; negb (is_ipv6_text n)] = true -> host_ok n).
  { intros n. cbn [forallb]. rewrite !andb_true_iff, negb_true_iff, str_eqb_eq, Nat.leb_le.
    intros (? & ? & ? & ? & ? & ? & _). by split_and!. }
  assert (He : Forall (@canonical_rule_ok ascii_unicode HLinux) sample_set).
  { repeat constructor; unfold canonical_rule_ok; cbn; try done; try (by left; eexists);
      try (intros ? E; by simplify_eq); intros ? E; simplify_eq; by apply Hh. }
  apply (@export_import_roundtrip ascii_unicode sample_idna HLinux Primary false sample_set He).
  repeat constructor; try done; try (intros g E; by simplify_eq);
    cbn; try (apply trimmedb_ok; reflexivity); try (apply fieldb_ok; reflexivity).
  all: intros m naming E _; apply (inj Some) in E as <-; by destruct naming; vm_compute.
Defined.
