(* ===== verification/WindowFile.v ===== *)
(** * The window's reader of a rules file

    shared/contracts/src/preset_parser/: section names ([sections.rs]), the
    parser state ([state.rs]), and the sections a build carries without applying
    them ([carry.rs]). *)

From stdpp Require Import base numbers list sorting.
From S2P Require Import Prelude Str Digits IpAddr IpBlock AppPath AppIdentity AutoRule RuleLine RulesFile.

Open Scope nat_scope.

Section WindowFile.

(** [cfg!(target_os)]: the system the build runs on. *)
Context (os : HostPlatform).

(** ** Section names *)

Definition classify_section (name : str) : option ParsedRuleType :=
  if str_eqb name (u "Zones") then Some PZone
  else if str_eqb name (u "Domains") then Some PDomain
  else if str_eqb name (u "IP") then Some PExactIp
  else if str_eqb name (u "CIDR") then Some PSubnet
  else if str_eqb name (u "Ranges") then Some PIpRange
  else if str_eqb name (u "Windows") then Some PApplication
  else if str_eqb name AUTO_SECTION_NAME then Some PDomain
  else None.

Definition classify_section_lenient (name : str) : option ParsedRuleType :=
  let lowered := to_ascii_lowercase name in
  if str_eqb lowered (u "zones") then Some PZone
  else if str_eqb lowered (u "domains") then Some PDomain
  else if str_eqb lowered (u "ip") then Some PExactIp
  else if str_eqb lowered (u "cidr") then Some PSubnet
  else if str_eqb lowered (u "ranges") then Some PIpRange
  else if str_eqb lowered (u "auto") then Some PDomain
  else if str_eqb lowered (u "windows") && bool_decide (os = HWindows) then Some PApplication
  else if str_eqb lowered (u "linux") && bool_decide (os = HLinux) then Some PApplication
  else if str_eqb lowered (u "macos") && bool_decide (os = HMacOS) then Some PApplication
  else None.

Definition app_section_os_label (name : str) : option str :=
  let lowered := to_ascii_lowercase name in
  if str_eqb lowered (u "windows") then Some (u "Windows")
  else if str_eqb lowered (u "linux") then Some (u "Linux")
  else if str_eqb lowered (u "macos") then Some (u "macOS")
  else None.

Definition is_other_os_app_section (name : str) : bool :=
  match app_section_os_label name with Some _ => true | None => false end
  && match classify_section_lenient name with Some _ => false | None => true end.

(** ** What a parse reports *)

Record PassthroughBlock : Set := mkBlock {
  b_section_name : str;
  raw_text : str;
  content_lines : nat;
  preview : list str;
}.

Record DuplicateGroup : Set := mkDuplicate {
  d_section_name : str;
  occurrences : N;
  is_known_section : bool;
}.

Record PresetParseResult : Set := mkResult {
  rules : list ParsedRule;
  passthrough : list PassthroughBlock;
  duplicate_sections : list DuplicateGroup;
}.

(** ** The state *)

Inductive CurrentSection : Set :=
| CNone
| CKnown (rule_type : ParsedRuleType) (section_name : str)
| CUnknown (section_name accumulated : str).

Record ParserState : Set := mkState {
  s_rules : list ParsedRule;
  s_passthrough : list PassthroughBlock;
  section_counts : list (str * N);
  section_order : list (str * str);
  next_id_hint : N;
  s_current : CurrentSection;
}.

Definition parser_new : ParserState := mkState [] [] [] [] 1 CNone.

(** [u32] addition in a release build. *)
Definition u32_succ (n : N) : N := ((n + 1) mod 4294967296)%N.

(** The count of a key; 0 when the map does not hold it. *)
Fixpoint count_of (key : str) (counts : list (str * N)) : N :=
  match counts with
  | [] => 0
  | (k, n) :: counts' => if str_eqb k key then n else count_of key counts'
  end.

Fixpoint count_up (key : str) (counts : list (str * N)) : list (str * N) :=
  match counts with
  | [] => [(key, u32_succ 0)]
  | (k, n) :: counts' =>
      if str_eqb k key then (k, u32_succ n) :: counts' else (k, n) :: count_up key counts'
  end.

Definition close_current (st : ParserState) : ParserState :=
  match s_current st with
  | CUnknown name accumulated =>
      let '(content_lines, preview) := summarize_passthrough accumulated in
      mkState (s_rules st)
        (s_passthrough st ++ [mkBlock name (normalise_trailing_newline accumulated) content_lines preview])
        (section_counts st) (section_order st) (next_id_hint st) CNone
  | _ => mkState (s_rules st) (s_passthrough st) (section_counts st) (section_order st) (next_id_hint st) CNone
  end.

Definition start_section (st : ParserState) (name : str) : ParserState :=
  let st := close_current st in
  let key := to_ascii_lowercase name in
  mkState (s_rules st) (s_passthrough st) (count_up key (section_counts st))
    (if (count_of key (section_counts st) =? 0)%N then section_order st ++ [(key, name)] else section_order st)
    (next_id_hint st)
    (match classify_section_lenient name with
     | Some rule_type => CKnown rule_type name
     | None => CUnknown name []
     end).

Definition consume_line (st : ParserState) (line : str) (line_number : N) : ParserState :=
  match s_current st with
  | CNone => st
  | CKnown rule_type name =>
      match parse_rule_line line rule_type name (next_id_hint st) line_number with
      | Some rule =>
          mkState (s_rules st ++ [rule]) (s_passthrough st) (section_counts st) (section_order st)
            (u32_succ (next_id_hint st)) (s_current st)
      | None => st
      end
  | CUnknown name accumulated =>
      mkState (s_rules st) (s_passthrough st) (section_counts st) (section_order st) (next_id_hint st)
        (CUnknown name (accumulated ++ line ++ [LF]))
  end.

Definition duplicate_of (counts : list (str * N)) (kd : str * str) : option DuplicateGroup :=
  let count := count_of kd.1 counts in
  if (2 <=? count)%N
  then Some (mkDuplicate kd.2 count
               match classify_section_lenient kd.1 with Some _ => true | None => false end)
  else None.

Definition parser_finish (st : ParserState) : PresetParseResult :=
  let st := close_current st in
  mkResult (s_rules st) (s_passthrough st) (omap (duplicate_of (section_counts st)) (section_order st)).

(** ** Walking the file *)

Definition without_cr (line : str) : str := default line (strip_suffix [CR] line).

(** One turn of the loop, on a line without its carriage return. *)
Definition walk_line (st : ParserState) (line : str) (line_number : N) : ParserState :=
  if is_syntax_hint_line line then st
  else match parse_section_header line with
       | Some name => start_section st name
       | None => consume_line st line line_number
       end.

Fixpoint walk (st : ParserState) (idx : N) (raw_lines : list str) : ParserState :=
  match raw_lines with
  | [] => st
  | raw_line :: raw_lines' => walk (walk_line st (without_cr raw_line) (idx + 1)) (idx + 1)%N raw_lines'
  end.

Definition without_bom (text : str) : str := default text (strip_prefix [BOM] text).

Definition parse_canonical_rules (text : str) : PresetParseResult :=
  parser_finish (walk parser_new 0 (split (is_char LF) (without_bom text))).

Fixpoint other_os_lines (section_name : str) (rules : list ParsedRule) (idx : N) (raw_lines : list str)
  : list ParsedRule :=
  match raw_lines with
  | [] => rules
  | raw_line :: raw_lines' =>
      let line := without_cr raw_line in
      if is_syntax_hint_line line then other_os_lines section_name rules (idx + 1)%N raw_lines'
      else
        let id_hint := N.min (N.of_nat (length rules) + 1) 4294967295 in
        other_os_lines section_name
          (match parse_rule_line line PApplication section_name id_hint (idx + 1) with
           | Some rule => rules ++ [rule]
           | None => rules
           end) (idx + 1)%N raw_lines'
  end.

Definition other_os_app_rules (section_name raw_text : str) : list ParsedRule :=
  if negb (is_other_os_app_section section_name) then []
  else other_os_lines section_name [] 0 (split (is_char LF) raw_text).

(** ** Sections carried along *)

(** [BTreeMap<String, String>]: ascending names. *)
Definition Sections : Type := list (str * str).

(** [*entry(name).or_default()] replaced by [f] of it. *)
Fixpoint update_entry (name : str) (f : str -> str) (m : Sections) : Sections :=
  match m with
  | [] => [(name, f [])]
  | (k, v) :: m' =>
      match str_cmp name k with
      | Lt => (name, f []) :: m
      | Eq => (k, f v) :: m'
      | Gt => (k, v) :: update_entry name f m'
      end
  end.

Definition add_passthrough_block (sections : Sections) (name raw : str) : Sections :=
  if is_empty name then sections
  else update_entry name
         (fun text => (if negb (is_empty text) && negb (ends_with [LF] text) then text ++ [LF] else text) ++ raw)
         sections.

Definition passthrough_sections (text : str) : Sections :=
  fold_left (fun sections block => add_passthrough_block sections (b_section_name block) (raw_text block))
    (passthrough (parse_canonical_rules text)) [].

(** The lines outside the sections this build does not apply. *)
Fixpoint kept_lines (skipping : bool) (lines : list str) : list str :=
  match lines with
  | [] => []
  | line :: lines' =>
      let skipping := match parse_section_header (without_cr line) with
                      | Some name => match classify_section_lenient name with Some _ => false | None => true end
                      | None => skipping
                      end in
      if skipping : bool then kept_lines skipping lines' else line :: kept_lines skipping lines'
  end.

Fixpoint drop_blank (lines : list str) : list str :=
  match lines with
  | line :: lines' => if is_empty (trim line) then drop_blank lines' else lines
  | [] => []
  end.

(** Blank lines popped off the end. *)
Definition pop_blank (lines : list str) : list str := reverse (drop_blank (reverse lines)).

Definition section_lines (nr : str * str) : list str :=
  (HEADER_PREFIX ++ nr.1)
  :: (if negb (is_empty nr.2) then split (is_char LF) (default nr.2 (strip_suffix [LF] nr.2)) else [])
  ++ [[]].

Definition with_passthrough_sections (text : str) (sections : Sections) : str :=
  let lines := pop_blank (kept_lines false (split (is_char LF) (without_bom text))) in
  let lines := if negb (bool_decide (lines = [])) then lines ++ [[]] else lines in
  str_join [LF] (lines ++ mjoin (section_lines <$> sections)).

Definition rposition_nonempty (lines : list str) : option nat :=
  (fun i => length lines - 1 - i) <$> position (fun l => negb (is_empty l)) (reverse lines).

Definition canonical_rules_body (text : str) : str :=
  let lines := trim_end_matches is_whitespace <$> lines text in
  let start := default (length lines)
                 (position (fun line => negb (is_empty line) && negb (starts_with [HASH] line)) lines) in
  let end_ := match rposition_nonempty lines with Some last => max (last + 1) start | None => start end in
  str_join [LF] (drop start (take end_ lines)).

(** ** Rules do not depend on where their line is *)

Definition at_line (n : N) (r : ParsedRule) : ParsedRule :=
  {| id_hint := id_hint r; p_enabled := p_enabled r; rule_type := rule_type r; section_name := section_name r;
     p_match_value := p_match_value r; p_comment := p_comment r; p_blocked := p_blocked r;
     p_verify_primary := p_verify_primary r; p_children := p_children r;
     p_override_requested := p_override_requested r; p_origin := p_origin r; line_number := n |}.

Lemma parse_rule_line_number raw kind name hint n :
  parse_rule_line raw kind name hint n = at_line n <$> parse_rule_line raw kind name hint 0.
Proof using Type.
  assert (H : forall body hash, rule_of_body kind name hint n body hash = at_line n <$> rule_of_body kind name hint 0 body hash).
  { intros body hash. unfold rule_of_body. destruct (split_inline_comment body) as [v c].
    destruct (split_rule_flags v) as [v' fl]. destruct (split_rule_markers v' _) as [v'' mk].
    destruct (is_empty _); [done|]. destruct (_ && _ && _); [done|]. by destruct (if _ || _ then _ else _). }
  unfold parse_rule_line. destruct (is_empty (trim raw)); [done|]. destruct (starts_with [HASH; HASH] (trim raw)); [done|].
  destruct (strip_prefix [HASH; SPACE] (trim raw)); [apply H|].
  destruct (strip_prefix [HASH] (trim raw)) as [rest|]; [|apply H]. destruct (is_empty rest); [done|apply H].
Qed.

(** A rule without its line. *)
Definition unnumbered (l : list ParsedRule) : list ParsedRule := at_line 0 <$> l.

Lemma unnumbered_snoc l r n : unnumbered (l ++ [at_line n r]) = unnumbered l ++ [at_line 0 r].
Proof using Type. unfold unnumbered. by rewrite fmap_app. Qed.

Definition applies (c : CurrentSection) : Prop := match c with CUnknown _ _ => False | _ => True end.

(** The state after the kept lines against the state after all of them. *)
Record kept_sim (skipping : bool) (st kept : ParserState) : Prop := {
  ks_rules : unnumbered (s_rules kept) = unnumbered (s_rules st);
  ks_next : next_id_hint kept = next_id_hint st;
  ks_passthrough : s_passthrough kept = [];
  ks_applies : applies (s_current kept);
  ks_current : if skipping then match s_current st with CUnknown _ _ => True | _ => False end
               else s_current kept = s_current st;
}.

Lemma close_rules st : s_rules (close_current st) = s_rules st /\ next_id_hint (close_current st) = next_id_hint st.
Proof using Type.
  unfold close_current. destruct (s_current st) as [| |name acc]; [done..|]. by destruct (summarize_passthrough acc).
Qed.

Lemma close_applies st : applies (s_current st) -> s_passthrough (close_current st) = s_passthrough st.
Proof using Type. unfold close_current. by destruct (s_current st). Qed.

Lemma header_no_hint line name : parse_section_header line = Some name -> is_syntax_hint_line line = false.
Proof using Type.
  unfold parse_section_header. destruct (strip_prefix HEADER_PREFIX line) as [rest|] eqn:E; [|done].
  apply strip_prefix_Some in E as ->. done.
Qed.

(** A header the kept text also has. *)
Lemma sim_header skipping st kept name t :
  kept_sim skipping st kept -> classify_section_lenient name = Some t ->
  kept_sim false (start_section st name) (start_section kept name).
Proof using Type.
  intros [H1 H2 H3 H4 _] Ht. unfold start_section. rewrite Ht.
  destruct (close_rules st) as [R1 R2], (close_rules kept) as [R3 R4].
  constructor; cbn [s_rules next_id_hint s_passthrough s_current]; [congruence|congruence|by rewrite close_applies|done|done].
Qed.

(** A header of a section that is not kept. *)
Lemma sim_skip skipping st kept name :
  kept_sim skipping st kept -> classify_section_lenient name = None ->
  kept_sim true (start_section st name) kept.
Proof using Type.
  intros [H1 H2 H3 H4 _] Ht. unfold start_section. rewrite Ht. destruct (close_rules st) as [R1 R2].
  constructor; cbn [s_rules next_id_hint s_passthrough s_current]; [congruence|congruence|done|done|done].
Qed.

(** A line of a section. *)
Lemma sim_line skipping st kept line n m :
  kept_sim skipping st kept ->
  kept_sim skipping (consume_line st line n) (if skipping then kept else consume_line kept line m).
Proof using Type.
  intros [H1 H2 H3 H4 H5]. unfold consume_line. destruct skipping.
  - destruct (s_current st); [done..|]. by constructor.
  - rewrite H5, H2. destruct (s_current st) as [|kind name|name acc] eqn:Es; [by constructor; rewrite ?Es| |by rewrite H5 in H4].
    rewrite (parse_rule_line_number _ _ _ _ n), (parse_rule_line_number _ _ _ _ m).
    destruct (parse_rule_line line kind name (next_id_hint st) 0) as [r|]; cbn [fmap option_fmap option_map];
      [|by constructor; rewrite ?Es].
    constructor; cbn [s_rules next_id_hint s_passthrough s_current]; [by rewrite !unnumbered_snoc, H1|done..].
Qed.

Lemma sim_walk lines skipping st kept i j :
  kept_sim skipping st kept ->
  exists skipping', kept_sim skipping' (walk st i lines) (walk kept j (kept_lines skipping lines)).
Proof using Type.
  revert skipping st kept i j. induction lines as [|line lines IH]; intros skipping st kept i j H; [by eexists|].
  cbn [walk kept_lines]. unfold walk_line at 1.
  destruct (parse_section_header (without_cr line)) as [name|] eqn:Eh.
  - rewrite (header_no_hint _ _ Eh). destruct (classify_section_lenient name) as [t|] eqn:Ec.
    + cbn [walk]. unfold walk_line. rewrite (header_no_hint _ _ Eh), Eh. by apply IH, (sim_header skipping _ _ _ t).
    + by apply IH, (sim_skip skipping).
  - destruct (is_syntax_hint_line (without_cr line)) eqn:Ei.
    + destruct skipping; [by apply IH|]. cbn [walk]. unfold walk_line. rewrite Ei. by apply IH.
    + pose proof (sim_line skipping st kept (without_cr line) (i + 1) (j + 1) H) as Hl.
      destruct skipping; [by apply IH|]. cbn [walk]. unfold walk_line. rewrite Ei, Eh. by apply IH.
Qed.

(** ** Text that can be carried *)

(** A line of a carried section: no header and no hint, and read back whole. *)
Definition carried_line (l : str) : Prop :=
  line_ok l /\ is_syntax_hint_line l = false /\ parse_section_header l = None.

(** The name of a section this build does not apply. *)
Definition carried_name (n : str) : Prop :=
  n <> [] /\ line_ok (HEADER_PREFIX ++ n) /\ parse_section_header (HEADER_PREFIX ++ n) = Some n
  /\ classify_section_lenient n = None.

(** Lines, the last one not empty. *)
Definition carried_raw (raw : str) : Prop :=
  exists ls, Forall carried_line ls /\ raw = unlines ls /\ last ls <> Some [].

Definition carried (nr : str * str) : Prop := carried_name nr.1 /\ carried_raw nr.2.

Lemma trim_lf_snoc s : trim_end_matches (is_char LF) (s ++ [LF]) = trim_end_matches (is_char LF) s.
Proof using Type. unfold trim_end_matches. by rewrite reverse_app. Qed.

Lemma trim_lf_line s l :
  l <> [] -> contains_char (is_char LF) l = false -> trim_end_matches (is_char LF) (s ++ l) = s ++ l.
Proof using Type.
  intros Hne Hl. unfold trim_end_matches. destruct l as [|c l _] using rev_ind; [done|].
  rewrite contains_char_app in Hl. apply orb_false_iff in Hl as [_ Hc]. cbn [contains_char existsb] in Hc. rewrite orb_false_r in Hc.
  rewrite app_assoc, reverse_snoc. cbn [trim_start_matches]. rewrite Hc.
  by rewrite <- reverse_snoc, reverse_involutive.
Qed.

Lemma unlines_snoc ls l : unlines (ls ++ [l]) = unlines ls ++ l ++ [LF].
Proof using Type. rewrite unlines_app, unlines_cons. done. Qed.

(** Normalising the newline at the end drops the empty lines there. *)
Lemma normalise_unlines ls :
  Forall line_ok ls ->
  exists ls' k, ls = ls' ++ replicate k [] /\ last ls' <> Some []
                /\ normalise_trailing_newline (unlines ls) = unlines ls'.
Proof using Type.
  intros H. induction ls as [|l ls IH] using rev_ind; [by exists [], 0|].
  apply Forall_app in H as [Hls Hl]. rewrite Forall_singleton in Hl. destruct Hl as [Hl _].
  unfold normalise_trailing_newline in *. rewrite unlines_snoc. destruct (decide (l = [])) as [->|Hne].
  - cbn [app]. rewrite trim_lf_snoc. destruct (IH Hls) as (ls' & k & -> & Hlast & E).
    exists ls', (k + 1). rewrite replicate_add, app_assoc. done.
  - exists (ls ++ [l]), 0. cbn [replicate]. rewrite app_nil_r, last_snoc. split; [done|]. split; [congruence|].
    rewrite app_assoc, trim_lf_snoc, trim_lf_line by done.
    rewrite unlines_snoc, app_assoc. destruct (unlines ls ++ l) as [|c s] eqn:E; [|done].
    apply app_nil in E as [_ E]. done.
Qed.

Lemma carried_raw_normalise ls : Forall carried_line ls -> carried_raw (normalise_trailing_newline (unlines ls)).
Proof using Type.
  intros H. destruct (normalise_unlines ls) as (ls' & k & E & Hl & ->).
  { eapply Forall_impl; [exact H|]. by intros l [? _]. }
  exists ls'. split_and!; [|done..]. rewrite E in H. by apply Forall_app in H as [H _].
Qed.

Lemma header_name_carried line name :
  line_ok line -> parse_section_header line = Some name -> classify_section_lenient name = None -> carried_name name.
Proof using Type.
  intros [Hlf _] Hh Hc. unfold parse_section_header in Hh.
  destruct (strip_prefix HEADER_PREFIX line) as [rest|] eqn:E; [|done]. apply strip_prefix_Some in E as ->.
  destruct (match rest with c :: _ => is_whitespace c | [] => false end) eqn:Ew; [done|].
  destruct (is_empty (trim_end_matches is_whitespace rest)) eqn:Ee; [done|]. injection Hh as Hn.
  apply is_empty_false in Ee. rewrite Hn in Ee.
  assert (Hlast : last_is is_whitespace name = false) by (rewrite <- Hn; apply trim_end_matches_last).
  destruct (trim_end_matches_prefix is_whitespace rest) as [t Ht]. rewrite Hn in Ht.
  assert (Hs : starts_in_word name) by (destruct name; [done|]; by rewrite Ht in Ew).
  assert (Hw : trim_end_matches is_whitespace name = name).
  { rewrite <- (trim_word name) at 2 by (done || by split). unfold trim. by rewrite trim_start_word. }
  split_and!; [done| | |done].
  - apply ends_in_word_line; [by apply ends_in_word_app|]. rewrite Ht, !contains_char_app in Hlf.
    rewrite contains_char_app. apply orb_false_iff in Hlf as [-> [-> _]%orb_false_iff]. done.
  - unfold parse_section_header. rewrite (proj2 (strip_prefix_Some _ _ name) eq_refl).
    destruct name as [|c name]; [done|]. cbn in Hs. by rewrite Hs, Hw.
Qed.

Definition state_carried (st : ParserState) : Prop :=
  Forall (fun b => carried (b_section_name b, raw_text b)) (s_passthrough st)
  /\ match s_current st with
     | CUnknown name accumulated => carried_name name /\ exists ls, Forall carried_line ls /\ accumulated = unlines ls
     | _ => True
     end.

Lemma close_carried st : state_carried st -> state_carried (close_current st).
Proof using Type.
  intros [Hp Hc]. unfold close_current. destruct (s_current st) as [| |name acc]; [done..|].
  destruct (summarize_passthrough acc) as [n p]. destruct Hc as (Hn & ls & Hls & ->).
  split; [|done]. cbn [s_passthrough]. apply Forall_app. split; [done|]. apply Forall_singleton.
  split; [done|by apply carried_raw_normalise].
Qed.

Lemma walk_line_carried st line n : line_ok line -> state_carried st -> state_carried (walk_line st line n).
Proof using Type.
  intros Hl Hst. unfold walk_line. destruct (is_syntax_hint_line line) eqn:Ei; [done|].
  destruct (parse_section_header line) as [name|] eqn:Eh.
  - pose proof (close_carried st Hst) as [Hp _]. unfold start_section. split; [done|]. cbn [s_current].
    destruct (classify_section_lenient name) eqn:Ec; [done|].
    split; [by eapply header_name_carried|]. by exists [].
  - destruct Hst as [Hp Hc]. unfold consume_line. destruct (s_current st) as [|kind name|name acc] eqn:Es.
    + split; [done|]. by rewrite Es.
    + destruct (parse_rule_line _ _ _ _ _); split; cbn [s_passthrough s_current]; rewrite ?Es; done.
    + destruct Hc as (Hn & ls & Hls & ->). split; [done|]. cbn [s_current]. split; [done|].
      exists (ls ++ [line]). rewrite unlines_snoc. split; [|done]. apply Forall_app. split; [done|]. by apply Forall_singleton.
Qed.

Lemma walk_carried raw_lines st i :
  Forall (fun l => line_ok (without_cr l)) raw_lines -> state_carried st -> state_carried (walk st i raw_lines).
Proof using Type.
  intros H. revert st i. induction H as [|l ls Hl _ IH]; intros st i Hst; [done|].
  by apply IH, walk_line_carried.
Qed.

(** ** The map of carried sections *)

Definition key_lt (a b : str * str) : Prop := str_cmp a.1 b.1 = Lt.

Lemma update_entry_head name f m k :
  str_cmp k name = Lt -> Forall (fun e => str_cmp k e.1 = Lt) m ->
  Forall (fun e => str_cmp k e.1 = Lt) (update_entry name f m).
Proof using Type.
  intros Hk H. induction H as [|[k' v] m Hk' Hm IH]; cbn [update_entry]; [by apply Forall_singleton|].
  destruct (str_cmp name k') eqn:E; constructor; [done..| |done|done]. by constructor.
Qed.

Lemma update_entry_sorted name f m : StronglySorted key_lt m -> StronglySorted key_lt (update_entry name f m).
Proof using Type.
  intros H. induction H as [|[k v] m Hm IH Hk]; cbn [update_entry]; [by repeat constructor|].
  destruct (str_cmp name k) eqn:E.
  - by constructor.
  - constructor; [by constructor|]. constructor; [done|]. eapply Forall_impl; [exact Hk|].
    intros [k' v'] Hk'. unfold key_lt in *. cbn [fst] in *. exact (cmp_lt_trans str_cmp name k k' E Hk').
  - constructor; [done|]. apply update_entry_head; [|done]. cbn [fst]. rewrite (cmp_opp str_cmp), E. done.
Qed.

Lemma update_entry_all (P : str * str -> Prop) name f m :
  P (name, f []) -> (forall v, P (name, v) -> P (name, f v)) -> Forall P m -> Forall P (update_entry name f m).
Proof using Type.
  intros H0 Hf H. induction H as [|[k v] m Hk Hm IH]; cbn [update_entry]; [by repeat constructor|].
  destruct (str_cmp name k) eqn:E; [|constructor; [done|by constructor]|by constructor].
  apply (cmp_eq str_cmp) in E as ->. constructor; [by apply Hf|done].
Qed.

Lemma update_entry_snoc name f m :
  Forall (fun e => str_cmp e.1 name = Lt) m -> update_entry name f m = m ++ [(name, f [])].
Proof using Type.
  intros H. induction H as [|[k v] m Hk Hm IH]; [done|]. cbn [update_entry fst] in *.
  rewrite (cmp_opp str_cmp), Hk. cbn [CompOpp app]. by rewrite IH.
Qed.

Lemma carried_raw_app a b : carried_raw a -> carried_raw b -> carried_raw (a ++ b).
Proof using Type.
  intros (la & Ha & -> & Hla) (lb & Hb & -> & Hlb). exists (la ++ lb).
  split_and!; [by apply Forall_app|by rewrite unlines_app|]. rewrite last_app. by destruct (last lb).
Qed.

Lemma carried_raw_newline a : carried_raw a -> negb (is_empty a) && negb (ends_with [LF] a) = false.
Proof using Type.
  intros (ls & _ & -> & _). destruct ls as [|l ls _] using rev_ind; [done|]. rewrite unlines_snoc.
  apply andb_false_iff. right. apply negb_false_iff, ends_with_true. exists (unlines ls ++ l). by rewrite <- app_assoc.
Qed.

Lemma add_block_carried m name raw :
  carried (name, raw) -> Forall carried m -> StronglySorted key_lt m ->
  Forall carried (add_passthrough_block m name raw) /\ StronglySorted key_lt (add_passthrough_block m name raw).
Proof using Type.
  intros [Hn Hr] Hm Hs. unfold add_passthrough_block. destruct (is_empty name); [done|].
  split; [|by apply update_entry_sorted]. apply update_entry_all; [|intros v [_ Hv]|done]; split; [done| |done|].
  - done.
  - cbn [fst snd] in *. rewrite (carried_raw_newline v Hv). by apply carried_raw_app.
Qed.

Definition add_block (m : Sections) (b : PassthroughBlock) : Sections :=
  add_passthrough_block m (b_section_name b) (raw_text b).

Lemma add_blocks_carried bs m :
  Forall (fun b => carried (b_section_name b, raw_text b)) bs -> Forall carried m -> StronglySorted key_lt m ->
  Forall carried (fold_left add_block bs m) /\ StronglySorted key_lt (fold_left add_block bs m).
Proof using Type.
  intros H. revert m. induction H as [|b bs Hb _ IH]; intros m Hm Hs; [done|]. cbn [fold_left].
  destruct (add_block_carried m _ _ Hb Hm Hs). by apply IH.
Qed.

(** Blocks that come in the order of the map are the map. *)
Lemma add_blocks_sorted bs m :
  StronglySorted key_lt (m ++ ((fun b => (b_section_name b, raw_text b)) <$> bs)) ->
  Forall (fun b => b_section_name b <> []) bs ->
  fold_left add_block bs m = m ++ ((fun b => (b_section_name b, raw_text b)) <$> bs).
Proof using Type.
  intros Hs Hn. revert m Hs. induction Hn as [|b bs Hb _ IH]; intros m Hs; [by rewrite app_nil_r|].
  cbn [fold_left]. assert (add_block m b = m ++ [(b_section_name b, raw_text b)]) as ->.
  { unfold add_block, add_passthrough_block. destruct (is_empty (b_section_name b)) eqn:E; [by apply is_empty_true in E|].
    rewrite update_entry_snoc; [done|]. apply Forall_forall. intros e He.
    refine (StronglySorted_app_1_elem_of key_lt _ _ e (b_section_name b, raw_text b) Hs He _). cbn. by left. }
  rewrite IH; [|by rewrite <- app_assoc]. by rewrite <- app_assoc.
Qed.

(** ** Reading carried sections *)

Lemma walk_app a b st i : walk st i (a ++ b) = walk (walk st i a) (i + N.of_nat (length a)) b.
Proof using Type.
  revert st i. induction a as [|l a IH]; intros st i; cbn [app walk length]; [by rewrite N.add_0_r|].
  rewrite IH. f_equal. lia.
Qed.

Lemma without_cr_line l : line_ok l -> without_cr l = l.
Proof using Type. intros [_ H]. unfold without_cr, ends_with in *. by destruct (strip_suffix [CR] l). Qed.

Definition set_current (st : ParserState) (c : CurrentSection) : ParserState :=
  mkState (s_rules st) (s_passthrough st) (section_counts st) (section_order st) (next_id_hint st) c.

Lemma walk_content ls st i name acc :
  Forall carried_line ls -> s_current st = CUnknown name acc ->
  walk st i ls = set_current st (CUnknown name (acc ++ unlines ls)).
Proof using Type.
  intros H. revert st i acc. induction H as [|l ls Hl _ IH]; intros st i acc Hc.
  - cbn. rewrite app_nil_r. unfold set_current. rewrite <- Hc. by destruct st.
  - cbn [walk]. destruct Hl as (Hlo & Hi & Hh). rewrite without_cr_line by done.
    unfold walk_line. rewrite Hi, Hh. unfold consume_line. rewrite Hc.
    erewrite IH by done. by rewrite unlines_cons, <- !app_assoc.
Qed.

Lemma split_unlines ls : Forall line_ok ls -> split (is_char LF) (unlines ls) = ls ++ [[]].
Proof using Type.
  induction 1 as [|l ls [Hl _] _ IH]; [done|]. rewrite unlines_cons, split_app, split_none by done.
  cbn [app]. by rewrite IH.
Qed.

Lemma section_lines_carried name ls :
  Forall carried_line ls -> last ls <> Some [] ->
  section_lines (name, unlines ls) = (HEADER_PREFIX ++ name) :: ls ++ [[]].
Proof using Type.
  intros H Hl. unfold section_lines. cbn [fst snd]. f_equal. f_equal.
  assert (Hok : Forall line_ok ls) by (eapply Forall_impl; [exact H|]; by intros l [? _]).
  destruct ls as [|l ls _] using rev_ind; [done|]. rewrite unlines_snoc.
  assert (is_empty (unlines ls ++ l ++ [LF]) = false) as ->.
  { apply is_empty_false. intros E. apply app_nil in E as [_ E]. by apply app_nil in E as [_ E]. }
  cbn [negb]. rewrite app_assoc, (proj2 (strip_suffix_Some _ _ (unlines ls ++ l)) eq_refl). cbn [default].
  pose proof (split_unlines _ Hok) as E. rewrite unlines_snoc, app_assoc, split_app in E by done.
  cbn in E. by apply app_inj_tail in E as [E _].
Qed.

Lemma normalise_carried ls :
  Forall carried_line ls -> last ls <> Some [] -> normalise_trailing_newline (unlines (ls ++ [[]])) = unlines ls.
Proof using Type.
  intros H Hl. rewrite unlines_snoc. cbn [app]. unfold normalise_trailing_newline. rewrite trim_lf_snoc.
  destruct ls as [|l ls _] using rev_ind; [done|]. rewrite last_snoc in Hl.
  apply Forall_app in H as [_ H]. rewrite Forall_singleton in H. destruct H as [[Hlf _] _].
  rewrite unlines_snoc, app_assoc, trim_lf_snoc, trim_lf_line by (congruence || done).
  destruct (unlines ls ++ l) as [|c s] eqn:E; [|done]. apply app_nil in E as [_ E]. congruence.
Qed.

Definition block_pair (b : PassthroughBlock) : str * str := (b_section_name b, raw_text b).

Lemma blank_carried : carried_line [].
Proof using Type. done. Qed.

(** A carried section adds its block when it is closed. *)
Lemma walk_section st i nr :
  carried nr ->
  let st' := walk st i (section_lines nr) in
  s_rules st' = s_rules st
  /\ block_pair <$> s_passthrough (close_current st') = (block_pair <$> s_passthrough (close_current st)) ++ [nr].
Proof using Type.
  destruct nr as [name raw]. intros [(Hne & Hlo & Hh & Hc) (ls & Hls & Hr & Hlast)]. cbn [fst snd] in *. subst raw.
  rewrite section_lines_carried by done. cbn [walk]. rewrite without_cr_line by done.
  unfold walk_line. rewrite (header_no_hint _ _ Hh), Hh. unfold start_section. rewrite Hc.
  erewrite walk_content; [|apply Forall_app; split; [done|apply Forall_singleton, blank_carried]|done].
  cbn zeta. split; [exact (proj1 (close_rules st))|]. unfold close_current at 1.
  cbn [set_current s_current app]. destruct (summarize_passthrough (unlines (ls ++ [[]]))) as [n p].
  cbn [s_passthrough]. rewrite fmap_app. cbn. unfold block_pair. cbn. by rewrite normalise_carried.
Qed.

Lemma walk_sections nrs st i :
  Forall carried nrs ->
  let st' := walk st i (mjoin (section_lines <$> nrs)) in
  s_rules st' = s_rules st
  /\ block_pair <$> s_passthrough (close_current st') = (block_pair <$> s_passthrough (close_current st)) ++ nrs.
Proof using Type.
  intros H. revert st i. induction H as [|nr nrs Hnr _ IH]; intros st i; [by rewrite app_nil_r|].
  cbn [fmap list_fmap mjoin list_join]. rewrite walk_app. destruct (walk_section st i nr Hnr) as [E1 E2].
  destruct (IH (walk st i (section_lines nr)) (i + N.of_nat (length (section_lines nr)))%N) as [F1 F2].
  split; [etrans; [exact F1|exact E1]|]. etrans; [exact F2|]. by rewrite E2, <- app_assoc.
Qed.

(** ** The kept text *)

Definition keeps (l : str) : Prop :=
  match parse_section_header (without_cr l) with Some n => is_Some (classify_section_lenient n) | None => True end.

Definition blank_line (l : str) : Prop := trim l = [].

Lemma kept_lines_keeps skipping ls : Forall keeps (kept_lines skipping ls).
Proof using Type.
  revert skipping. induction ls as [|l ls IH]; intros skipping; [done|]. cbn [kept_lines].
  destruct (parse_section_header (without_cr l)) as [n|] eqn:E.
  - destruct (classify_section_lenient n) eqn:Ec; [|apply IH]. constructor; [|apply IH].
    unfold keeps. rewrite E, Ec. by eexists.
  - destruct skipping; [apply IH|]. constructor; [|apply IH]. unfold keeps. by rewrite E.
Qed.

Lemma kept_lines_elem skipping ls l : l ∈ kept_lines skipping ls -> l ∈ ls.
Proof using Type.
  revert skipping. induction ls as [|l' ls IH]; intros skipping; [done|]. cbn [kept_lines].
  destruct (if parse_section_header (without_cr l') is Some n then _ else _).
  - intros H. right. exact (IH _ H).
  - rewrite elem_of_cons. intros [->|H]; [left|right; exact (IH _ H)].
Qed.

Lemma walk_keeps ls st i :
  Forall keeps ls -> applies (s_current st) -> applies (s_current (walk st i ls)).
Proof using Type.
  intros H. revert st i. induction H as [|l ls Hl _ IH]; intros st i Hst; [done|]. cbn [walk]. apply IH.
  unfold walk_line, keeps in *. destruct (is_syntax_hint_line (without_cr l)); [done|].
  destruct (parse_section_header (without_cr l)) as [n|].
  - destruct Hl as [t Ht]. unfold start_section. by rewrite Ht.
  - unfold consume_line. destruct (s_current st) eqn:E; [by rewrite E| |done].
    destruct (parse_rule_line _ _ _ _ _); cbn [s_current]; by rewrite ?E.
Qed.

Lemma blank_chars l : blank_line l -> forallb is_whitespace l = true.
Proof using Type.
  unfold blank_line, trim. intros H. destruct (trim_start_matches_blank is_whitespace l) as (a & Ea & Ha).
  destruct (trim_end_matches_blank is_whitespace (trim_start_matches is_whitespace l)) as (b & Eb & Hb).
  rewrite H in Eb. rewrite Ea, Eb. cbn [app]. rewrite forallb_app. by rewrite Ha, Hb.
Qed.

Lemma blank_trim l : forallb is_whitespace l = true -> trim_start_matches is_whitespace l = [].
Proof using Type. induction l as [|c l IH]; [done|]. cbn. intros [-> H]%andb_true_iff. by apply IH. Qed.

Lemma walk_line_blank st l n : blank_line l -> applies (s_current st) -> walk_line st (without_cr l) n = st.
Proof using Type.
  intros Hb Hst. apply blank_chars in Hb.
  assert (Hw : forallb is_whitespace (without_cr l) = true).
  { unfold without_cr. destruct (strip_suffix [CR] l) as [s|] eqn:E; [|done]. apply strip_suffix_Some in E as ->.
    rewrite forallb_app in Hb. by apply andb_true_iff in Hb as [? _]. }
  assert (Ht : trim (without_cr l) = []) by (unfold trim; by rewrite blank_trim).
  unfold walk_line. assert (is_syntax_hint_line (without_cr l) = false) as ->.
  { unfold is_syntax_hint_line. by rewrite blank_trim. }
  assert (parse_section_header (without_cr l) = None) as ->.
  { unfold parse_section_header. destruct (without_cr l) as [|c t]; [done|].
    change HEADER_PREFIX with (DASH :: u "-- "). cbn [strip_prefix]. destruct (N.eqb_spec DASH c) as [<-|]; [|done].
    vm_compute in Hw. discriminate. }
  unfold consume_line. destruct (s_current st); [done| |done]. unfold parse_rule_line. by rewrite Ht.
Qed.

Lemma walk_blank ls st i : Forall blank_line ls -> applies (s_current st) -> walk st i ls = st.
Proof using Type.
  intros H. revert st i. induction H as [|l ls Hl _ IH]; intros st i Hst; [done|].
  cbn [walk]. rewrite walk_line_blank by done. by apply IH.
Qed.

Lemma drop_blank_split ls : exists bs, ls = bs ++ drop_blank ls /\ Forall blank_line bs.
Proof using Type.
  induction ls as [|l ls IH]; [by exists []|]. cbn [drop_blank]. destruct (is_empty (trim l)) eqn:E; [|by exists []].
  destruct IH as (bs & Eb & Hb). exists (l :: bs). split; [cbn; by f_equal|]. constructor; [by apply is_empty_true|done].
Qed.

Lemma pop_blank_split ls : exists bs, ls = pop_blank ls ++ bs /\ Forall blank_line bs.
Proof using Type.
  destruct (drop_blank_split (reverse ls)) as (bs & E & H). exists (reverse bs). split; [|by apply Forall_reverse].
  unfold pop_blank. rewrite <- reverse_app, <- E. by rewrite reverse_involutive.
Qed.

(** ** Carrying *)

(** A text the reader takes one way: a second byte order mark does not follow
    the first, and no line ends in two carriage returns. *)
Definition clean_text (text : str) : Prop :=
  starts_with [BOM] (without_bom text) = false
  /\ Forall (fun l => ends_with [CR; CR] l = false) (split (is_char LF) (without_bom text)).

Lemma clean_lines text :
  clean_text text -> Forall (fun l => line_ok (without_cr l)) (split (is_char LF) (without_bom text)).
Proof using Type.
  intros [_ H]. rewrite Forall_forall in *. intros l Hl. pose proof (H l Hl) as Hc.
  pose proof (split_pieces _ _ _ Hl) as Hlf. unfold without_cr.
  destruct (strip_suffix [CR] l) as [s|] eqn:E; [change (line_ok s)|change (line_ok l)].
  - apply strip_suffix_Some in E as ->. rewrite contains_char_app in Hlf. apply orb_false_iff in Hlf as [Hlf _].
    split; [done|]. apply not_true_iff_false. rewrite ends_with_true. intros [t ->].
    apply not_true_iff_false in Hc. apply Hc, ends_with_true. exists t. by rewrite <- app_assoc.
  - split; [done|]. unfold ends_with. by rewrite E.
Qed.

Lemma passthrough_carried text :
  clean_text text ->
  Forall carried (passthrough_sections text) /\ StronglySorted key_lt (passthrough_sections text).
Proof using Type.
  intros H. unfold passthrough_sections. apply add_blocks_carried; [|constructor|constructor].
  apply close_carried, walk_carried; [by apply clean_lines|]. split; [constructor|exact I].
Qed.

Definition body_lines (text : str) : list str :=
  let lines := pop_blank (kept_lines false (split (is_char LF) (without_bom text))) in
  if negb (bool_decide (lines = [])) then lines ++ [[]] else lines.

Lemma body_no_lf text l : l ∈ body_lines text -> contains_char (is_char LF) l = false.
Proof using Type.
  unfold body_lines. set (ls := kept_lines false _). assert (H : forall l, l ∈ pop_blank ls -> contains_char (is_char LF) l = false).
  { intros x Hx. destruct (pop_blank_split ls) as (bs & E & _). apply (split_pieces _ (without_bom text)).
    apply (kept_lines_elem false). fold ls. rewrite E. apply elem_of_app. by left. }
  destruct (bool_decide (pop_blank ls = [])); cbn [negb]; [apply H|].
  rewrite elem_of_app, list_elem_of_singleton. intros [Hl| ->]; [by apply H|done].
Qed.

(** The reader is in the same place after the body as after the kept lines. *)
Lemma walk_body text :
  exists skipping, kept_sim skipping (walk parser_new 0 (split (is_char LF) (without_bom text)))
                     (walk parser_new 0 (body_lines text)).
Proof using Type.
  destruct (sim_walk (split (is_char LF) (without_bom text)) false parser_new parser_new 0 0) as [sk H]; [by constructor|].
  exists sk. assert (walk parser_new 0 (body_lines text)
    = walk parser_new 0 (kept_lines false (split (is_char LF) (without_bom text)))) as ->; [|done].
  unfold body_lines. set (ls := kept_lines false _).
  pose proof (kept_lines_keeps false (split (is_char LF) (without_bom text))) as Hk. fold ls in Hk.
  destruct (pop_blank_split ls) as (bs & E & Hb). transitivity (walk parser_new 0 (pop_blank ls ++ bs)); [|by rewrite <- E].
  rewrite E in Hk. apply Forall_app in Hk as [Hk _]. rewrite walk_app. pose proof (walk_keeps (pop_blank ls) parser_new 0 Hk I) as Ha.
  rewrite (walk_blank bs) by done. destruct (bool_decide (pop_blank ls = [])); cbn [negb]; [done|].
  rewrite walk_app. apply walk_blank; [|done]. by apply Forall_singleton.
Qed.

Lemma kept_skipping_head ls l ls' : kept_lines true ls = l :: ls' -> is_Some (parse_section_header (without_cr l)).
Proof using Type.
  induction ls as [|x ls IH]; [done|]. cbn [kept_lines]. destruct (parse_section_header (without_cr x)) as [n|] eqn:E.
  - destruct (classify_section_lenient n); [|done]. intros [= <- _]. rewrite E. by eexists.
  - done.
Qed.

Lemma header_no_bom l : is_Some (parse_section_header (without_cr l)) -> starts_with [BOM] l = false.
Proof using Type.
  intros [n H]. unfold parse_section_header in H. destruct (strip_prefix HEADER_PREFIX (without_cr l)) as [r|] eqn:E; [|done].
  apply strip_prefix_Some in E. unfold without_cr in E. destruct (strip_suffix [CR] l) as [s|] eqn:Es.
  - apply strip_suffix_Some in Es as ->. change (s = HEADER_PREFIX ++ r) in E. by subst s.
  - change (l = HEADER_PREFIX ++ r) in E. by subst l.
Qed.

Lemma body_no_bom text l ls :
  starts_with [BOM] (without_bom text) = false -> body_lines text = l :: ls -> starts_with [BOM] l = false.
Proof using Type.
  intros Ht. unfold body_lines. set (ks := kept_lines false _). destruct (pop_blank_split ks) as (bs & E & _).
  destruct (pop_blank ks) as [|x xs]; [done|]. intros [= <- _]. cbn [app] in E. unfold ks in E.
  pose proof (str_join_split LF (without_bom text)) as Hj.
  destruct (split (is_char LF) (without_bom text)) as [|y ys]; [done|]. cbn [kept_lines] in E.
  assert (Hy : starts_with [BOM] y = false).
  { rewrite <- Hj in Ht. destruct y as [|c y]; [done|]. destruct ys; [done|]. rewrite str_join_cons in Ht by done.
    unfold starts_with in *. cbn [app strip_prefix] in *. by destruct (BOM =? c)%N. }
  destruct (parse_section_header (without_cr y)) as [n|].
  - destruct (classify_section_lenient n); [by injection E as -> _|]. by eapply header_no_bom, kept_skipping_head.
  - by injection E as -> _.
Qed.

Lemma section_lines_no_lf nrs l : Forall carried nrs -> l ∈ mjoin (section_lines <$> nrs) -> contains_char (is_char LF) l = false.
Proof using Type.
  intros H Hl. apply list_elem_of_join in Hl as (b & Hl & Hb). apply list_elem_of_fmap in Hb as ([n raw] & -> & Hnr).
  rewrite Forall_forall in H. destruct (H _ Hnr) as [(_ & [Hn _] & _) (ls & Hls & Hr & Hlast)]. cbn [fst snd] in *. subst raw.
  rewrite section_lines_carried in Hl by done. rewrite elem_of_cons, elem_of_app, list_elem_of_singleton in Hl.
  destruct Hl as [->|[Hl| ->]]; [done| |done]. rewrite Forall_forall in Hls. by destruct (Hls _ Hl) as [[? _] _].
Qed.

(** The lines of the carried text are read back as they were put together. *)
Lemma read_carried text nrs :
  starts_with [BOM] (without_bom text) = false -> Forall carried nrs ->
  walk parser_new 0 (split (is_char LF) (without_bom (with_passthrough_sections text nrs)))
  = walk parser_new 0 (body_lines text ++ mjoin (section_lines <$> nrs)).
Proof using Type.
  intros Ht Hn. unfold with_passthrough_sections. fold (body_lines text).
  set (ls := body_lines text ++ mjoin (section_lines <$> nrs)).
  destruct (decide (ls = [])) as [->|Hne]; [done|].
  assert (Hb : without_bom (str_join [LF] ls) = str_join [LF] ls).
  { unfold without_bom. assert (starts_with [BOM] (str_join [LF] ls) = false) as H; [|unfold starts_with in H; by destruct (strip_prefix _ _)].
    destruct ls as [|l ls'] eqn:El; [done|].
    assert (Hl : starts_with [BOM] l = false).
    { unfold ls in El. destruct (body_lines text) as [|x xs] eqn:Eb; cbn [app] in El.
      - destruct nrs as [|[n raw] nrs']; [done|]. by injection El as <- _.
      - injection El as -> _. by eapply body_no_bom. }
    destruct ls'; [done|]. rewrite str_join_cons by done. unfold starts_with in *.
    destruct l as [|c l]; [done|]. cbn [app strip_prefix] in *. by destruct (BOM =? c)%N. }
  rewrite Hb, split_str_join; [done..|]. intros q Hq. apply elem_of_app in Hq as [Hq|Hq];
    [by eapply body_no_lf|by eapply section_lines_no_lf].
Qed.

(** Writing rules keeps the sections a build does not apply: put into a new
    text, the sections of the old file are all read back, merged by name, and
    the rules of the new text are read as before, whatever sections of its own
    it held. *)
Theorem carry_keeps old text :
  clean_text old -> starts_with [BOM] (without_bom text) = false ->
  let out := with_passthrough_sections text (passthrough_sections old) in
  passthrough_sections out = passthrough_sections old
  /\ unnumbered (rules (parse_canonical_rules out)) = unnumbered (rules (parse_canonical_rules text)).
Proof using Type.
  intros Ho Ht. cbn zeta. destruct (passthrough_carried old Ho) as [Hc Hs].
  set (nrs := passthrough_sections old) in *. destruct (walk_body text) as [sk Hk].
  assert (Hw := read_carried text nrs Ht Hc). rewrite walk_app in Hw.
  set (st := walk parser_new 0 (body_lines text)) in *.
  destruct (walk_sections nrs st (0 + N.of_nat (length (body_lines text))) Hc) as [E1 E2]. rewrite <- Hw in E1, E2.
  split.
  - unfold passthrough_sections, parse_canonical_rules. cbn [passthrough parser_finish].
    rewrite (close_applies st (ks_applies _ _ _ Hk)), (ks_passthrough _ _ _ Hk) in E2. cbn [fmap list_fmap app] in E2.
    pose proof (add_blocks_sorted (s_passthrough (close_current
      (walk parser_new 0 (split (is_char LF) (without_bom (with_passthrough_sections text nrs)))))) []) as Ha.
    cbn [app] in Ha. change (fun b => (b_section_name b, raw_text b)) with block_pair in Ha. rewrite E2 in Ha.
    assert (Hne : Forall (fun nr : str * str => nr.1 <> []) nrs) by (eapply Forall_impl; [exact Hc|]; by intros nr [[? _] _]).
    rewrite <- E2, Forall_fmap in Hne. by apply Ha.
  - unfold parse_canonical_rules, parser_finish. cbn [rules]. rewrite (proj1 (close_rules _)), E1.
    rewrite (proj1 (close_rules _)). apply (ks_rules _ _ _ Hk).
Qed.

(** ** The window and the service on a whole file *)

(** The rules of a section, without the hints of where they stand. *)
Definition shown (s : RulesFileSection) (r : ParsedRule) : ParsedRule :=
  {| id_hint := 0; p_enabled := p_enabled r; rule_type := rule_type r; section_name := section_title s;
     p_match_value := p_match_value r; p_comment := p_comment r; p_blocked := p_blocked r;
     p_verify_primary := p_verify_primary r; p_children := p_children (own_flags r);
     p_override_requested := p_override_requested (own_flags r); p_origin := p_origin r; line_number := 0 |}.

Definition in_section (s : RulesFileSection) (r : ParsedRule) : bool := bool_decide (from_name (section_name r) = Some s).

Definition shown_in (s : RulesFileSection) (rs : list ParsedRule) : list ParsedRule :=
  shown s <$> List.filter (in_section s) rs.

Definition service_view (s : RulesFileSection) (cs : list SectionContent) : list ParsedRule :=
  window_rule s 0 0 <$> entries_for (mkParsed cs) s.

Lemma classify_from_name name :
  classify_section_lenient name
  = match from_name name with
    | Some s => if is_active_on s os then Some (section_rule_type s) else None
    | None => None
    end.
Proof using Type.
  unfold classify_section_lenient, from_name. set (n := to_ascii_lowercase name). clearbody n.
  repeat (match goal with |- context [str_eqb n ?x] => destruct (str_eqb n x) eqn:? end; try done);
    repeat match goal with H : str_eqb n _ = true |- _ => apply str_eqb_eq in H end; subst; try discriminate;
    by destruct os.
Qed.

Lemma from_name_auto name s :
  from_name name = Some s -> is_auto_section name = is_auto_section (section_title s).
Proof using Type.
  unfold from_name, is_auto_section, eq_ignore_ascii_case. change (to_ascii_lowercase AUTO_SECTION_NAME) with (u "auto").
  set (n := to_ascii_lowercase name). clearbody n.
  repeat (match goal with |- context [if str_eqb n ?x then _ else _] => destruct (str_eqb n x) eqn:? end;
          [intros [= <-]; repeat match goal with H : str_eqb n _ = true |- _ => apply str_eqb_eq in H end; subst; done|]).
  done.
Qed.

Definition named (name : str) (hint : N) (r : ParsedRule) : ParsedRule :=
  {| id_hint := hint; p_enabled := p_enabled r; rule_type := rule_type r; section_name := name;
     p_match_value := p_match_value r; p_comment := p_comment r; p_blocked := p_blocked r;
     p_verify_primary := p_verify_primary r; p_children := p_children r;
     p_override_requested := p_override_requested r; p_origin := p_origin r; line_number := line_number r |}.

Lemma parse_rule_line_named raw kind name name' hint n :
  is_auto_section name = is_auto_section name' ->
  parse_rule_line raw kind name hint n = named name hint <$> parse_rule_line raw kind name' 0 n.
Proof using Type.
  intros Ha.
  assert (H : forall body hash, rule_of_body kind name hint n body hash = named name hint <$> rule_of_body kind name' 0 n body hash).
  { intros body hash. unfold rule_of_body. rewrite Ha. destruct (split_inline_comment body) as [v c].
    destruct (split_rule_flags v) as [v' fl]. destruct (split_rule_markers v' _) as [v'' mk].
    destruct (is_empty _); [done|]. destruct (_ && _ && _); [done|]. by destruct (if _ || _ then _ else _). }
  unfold parse_rule_line. destruct (is_empty (trim raw)); [done|]. destruct (starts_with [HASH; HASH] (trim raw)); [done|].
  destruct (strip_prefix [HASH; SPACE] (trim raw)); [apply H|].
  destruct (strip_prefix [HASH] (trim raw)) as [rest|]; [|apply H]. destruct (is_empty rest); [done|apply H].
Qed.

(** A rule line of a section the system applies, in both readers. *)
Lemma line_lockstep s name raw hint n :
  from_name name = Some s -> clean_hash (trim raw) = true ->
  match parse_rule_line raw (section_rule_type s) name hint n with
  | Some r => exists em, read_entry (Some s) (trim raw) = Some em /\ section_name r = name
              /\ shown s r = window_rule s 0 0 (fst (with_provenance (Some s) (fst em)))
  | None => read_entry (Some s) (trim raw) = None
  end.
Proof using Type.
  intros Hn Hc. rewrite (parse_rule_line_named _ _ _ (section_title s) hint n (from_name_auto name s Hn)).
  pose proof (readers_agree_line s raw 0 n Hc) as E.
  destruct (parse_rule_line raw (section_rule_type s) (section_title s) 0 n) as [r|];
    destruct (read_entry (Some s) (trim raw)) as [em|]; cbn [fmap option_fmap option_map] in *; try done.
  apply (inj Some) in E. exists em. split; [done|]. split; [done|].
  revert E. generalize (fst (with_provenance (Some s) em.1)). intros e E.
  destruct r as [i en k nm v c b vf ch ov o ln], e as [v' c' en' b' vf' ov' ch' o'].
  unfold own_flags, window_rule in E. cbn in E. injection E; intros; by subst.
Qed.

(** The service's section under the window's current one. *)
Definition current_rel (st : ParserState) (r : Reader) : Prop :=
  match s_current st, current r with
  | CNone, None => True
  | CKnown kind name, Some (KnownSlot i) =>
      exists c, known r !! i = Some c /\ from_name name = Some (section c)
                /\ is_active_on (section c) os = true /\ kind = section_rule_type (section c)
  | CUnknown _ _, Some (KnownSlot i) => exists c, known r !! i = Some c /\ is_active_on (section c) os = false
  | CUnknown _ _, Some (UnknownSlot _) => True
  | _, _ => False
  end.

Record lockstep (st : ParserState) (r : Reader) : Prop := {
  ls_rules : forall s, is_active_on s os = true -> shown_in s (s_rules st) = service_view s (known r);
  ls_once : NoDup (section <$> known r);
  ls_current : current_rel st r;
}.

Lemma entries_for_lookup cs i c s :
  NoDup (section <$> cs) -> cs !! i = Some c -> section c = s -> entries_for (mkParsed cs) s = entries c.
Proof using Type.
  intros Hnd Hi <-. unfold entries_for. cbn [sections]. revert i Hi. induction cs as [|x cs IH]; intros i Hi; [done|].
  cbn [fmap list_fmap] in Hnd. apply NoDup_cons in Hnd as [Hx Hnd]. cbn [find_first].
  destruct i as [|i]; [injection Hi as ->; by rewrite bool_decide_eq_true_2|].
  rewrite bool_decide_eq_false_2; [by eapply IH|]. intros E. apply Hx. rewrite E.
  apply list_elem_of_fmap_2. by eapply list_elem_of_lookup_2.
Qed.

Lemma entries_for_none cs s : s ∉ section <$> cs -> entries_for (mkParsed cs) s = [].
Proof using Type.
  intros H. unfold entries_for. cbn [sections]. destruct (find_first _ cs) as [c|] eqn:E; [|done].
  apply find_first_Some in E as [Hc Hs]. apply bool_decide_eq_true in Hs. exfalso. apply H. subst s.
  by apply list_elem_of_fmap_2.
Qed.

Lemma push_known_keys i e cs : section <$> push_known i e cs = section <$> cs.
Proof using Type.
  unfold push_known. revert i. induction cs as [|c cs IH]; intros [|i]; cbn; [done..|]. f_equal. apply IH.
Qed.

Lemma push_known_entries i e cs c s :
  NoDup (section <$> cs) -> cs !! i = Some c ->
  entries_for (mkParsed (push_known i e cs)) s
  = if bool_decide (section c = s) then entries_for (mkParsed cs) s ++ [e] else entries_for (mkParsed cs) s.
Proof using Type.
  intros Hnd Hi.
  assert (Hp : push_known i e cs !! i = Some {| section := section c; entries := entries c ++ [e] |}).
  { unfold push_known. by rewrite list_lookup_alter_eq, Hi. }
  case_bool_decide as E.
  - rewrite (entries_for_lookup cs i c s Hnd Hi E).
    by rewrite (entries_for_lookup _ i _ s ltac:(by rewrite push_known_keys) Hp E).
  - destruct (decide (s ∈ section <$> cs)) as [Hs|Hs].
    2:{ by rewrite !entries_for_none by (rewrite ?push_known_keys; done). }
    apply list_elem_of_fmap in Hs as (d & -> & Hd). apply list_elem_of_lookup in Hd as [j Hj].
    rewrite (entries_for_lookup cs j d _ Hnd Hj eq_refl).
    apply (entries_for_lookup _ j); [by rewrite push_known_keys| |done].
    unfold push_known. rewrite list_lookup_alter_ne; [done|]. intros ->. congruence.
Qed.

Lemma position_Some {A} (p : A -> bool) l i : position p l = Some i -> exists x, l !! i = Some x /\ p x = true.
Proof using Type.
  revert i. induction l as [|x l IH]; intros i; [done|]. cbn [position]. destruct (p x) eqn:E.
  - intros [= <-]. by exists x.
  - destruct (position p l) as [j|]; [|done]. intros [= <-]. by apply IH.
Qed.

Lemma position_None_inv {A} (p : A -> bool) l : position p l = None -> forall x, x ∈ l -> p x = false.
Proof using Type.
  induction l as [|y l IH]; [intros _ x Hx; by apply not_elem_of_nil in Hx|]. cbn [position].
  destruct (p y) eqn:E; [done|]. destruct (position p l); [done|]. intros _ x. rewrite elem_of_cons.
  intros [->|Hx]; [done|by apply IH].
Qed.

Lemma entries_for_snoc cs s s' : entries_for (mkParsed (cs ++ [mkSection s []])) s' = entries_for (mkParsed cs) s'.
Proof using Type.
  unfold entries_for. cbn [sections]. induction cs as [|c cs IH]; cbn [app find_first].
  - by case_bool_decide.
  - by case_bool_decide.
Qed.

Lemma header_lockstep st r name : lockstep st r -> lockstep (start_section st name) (open_section r name).
Proof using Type.
  intros [H1 H2 H3]. destruct (close_rules st) as [Er _]. unfold start_section, open_section.
  rewrite classify_from_name. destruct (from_name name) as [s|] eqn:En.
  - destruct (position (fun c => bool_decide (section c = s)) (known r)) as [i|] eqn:Ep.
    + apply position_Some in Ep as (c & Hc & Hs%bool_decide_eq_true). constructor; cbn [s_rules known].
      * by rewrite Er.
      * done.
      * unfold current_rel. cbn [s_current current known]. destruct (is_active_on s os) eqn:Ea; exists c; by subst s.
    + pose proof (position_None_inv _ _ Ep) as Hn. constructor; cbn [s_rules known].
      * intros s' Hs'. unfold service_view. rewrite Er, entries_for_snoc. by apply H1.
      * rewrite fmap_app. apply NoDup_app. split_and!; [done| |by apply NoDup_singleton].
        intros x Hx ->%list_elem_of_singleton. apply list_elem_of_fmap in Hx as (c & E & Hc).
        specialize (Hn c Hc). apply bool_decide_eq_false in Hn. done.
      * unfold current_rel. cbn [s_current current known]. rewrite list_lookup_middle by done.
        destruct (is_active_on s os) eqn:Ea; by eexists.
  - destruct (position _ (unknown r)) as [i|]; constructor; cbn [s_rules known]; rewrite ?Er; done.
Qed.

Lemma shown_in_snoc s rs r :
  shown_in s (rs ++ [r]) = shown_in s rs ++ if in_section s r then [shown s r] else [].
Proof using Type.
  unfold shown_in. rewrite List.filter_app, fmap_app. f_equal. cbn [List.filter]. by destruct (in_section s r).
Qed.

Lemma read_preamble_known r t : known (read_preamble r t) = known r /\ current (read_preamble r t) = current r.
Proof using Type.
  assert (Hm : known (read_meta r t) = known r /\ current (read_meta r t) = current r).
  { unfold read_meta. destruct (parse_metadata_kv t) as [[k v]|]; done. }
  unfold read_preamble. destruct (version r); [done|]. destruct (parse_version_header t); [done|].
  by destruct (parse_preset_header t).
Qed.

(** Reading a rule into a section the system does not apply shows nowhere. *)
Lemma read_rule_elsewhere st st' r slot t :
  lockstep st r -> s_rules st' = s_rules st -> current r = Some slot ->
  match slot with
  | KnownSlot i => exists c, known r !! i = Some c /\ is_active_on (section c) os = false
  | UnknownSlot _ => True
  end ->
  (exists n a, s_current st' = CUnknown n a) ->
  lockstep st' (read_rule r slot t).
Proof using Type.
  intros [H1 H2 H3] Er Hc Hslot (n & a & Ec). unfold read_rule.
  destruct (read_entry (slot_section r slot) t) as [[e mk]|].
  2:{ constructor; [by rewrite Er|done|]. unfold current_rel. rewrite Ec, Hc. by destruct slot. }
  destruct (with_provenance (slot_section r slot) e) as [e' wn]. destruct slot as [i|i].
  - destruct Hslot as (c & Hi & Ha). constructor; cbn [known].
    + intros s Hs. rewrite Er. unfold service_view. rewrite (push_known_entries i e' _ c s H2 Hi).
      rewrite bool_decide_eq_false_2 by congruence. by apply H1.
    + by rewrite push_known_keys.
    + unfold current_rel. rewrite Ec. cbn [current known]. rewrite Hc. unfold push_known.
      rewrite list_lookup_alter_eq, Hi. by eexists.
  - constructor; cbn [known]; [by rewrite Er|done|]. unfold current_rel. rewrite Ec. cbn [current]. by rewrite Hc.
Qed.

(** A rule of a section the system applies shows in it alone. *)
Lemma read_rule_lockstep st r i c name raw n :
  lockstep st r -> s_current st = CKnown (section_rule_type (section c)) name -> current r = Some (KnownSlot i) ->
  known r !! i = Some c -> from_name name = Some (section c) -> is_active_on (section c) os = true ->
  clean_hash (trim raw) = true ->
  lockstep (consume_line st raw n) (read_rule r (KnownSlot i) (trim raw)).
Proof using Type.
  intros [H1 H2 H3] Ec Hc Hi Hn Ha Hh. unfold consume_line. rewrite Ec. unfold read_rule. cbn [slot_section].
  rewrite Hi. cbn [fmap option_fmap option_map].
  pose proof (line_lockstep (section c) name raw (next_id_hint st) n Hn Hh) as Hl.
  destruct (parse_rule_line raw (section_rule_type (section c)) name (next_id_hint st) n) as [pr|].
  2:{ rewrite Hl. by constructor. }
  destruct Hl as ([e mk] & -> & Hname & Hsh). cbn [fst] in Hsh.
  destruct (with_provenance (Some (section c)) e) as [e' wn]. cbn [fst] in Hsh.
  constructor; cbn [s_rules known].
  - intros s Hs. unfold service_view. rewrite shown_in_snoc, (push_known_entries i e' _ c s H2 Hi), (H1 s Hs).
    unfold in_section. rewrite Hname, Hn. case_bool_decide as E1; case_bool_decide as E2; [|congruence..|].
    + unfold service_view. rewrite fmap_app. rewrite <- E2, Hsh. done.
    + by rewrite app_nil_r.
  - by rewrite push_known_keys.
  - unfold current_rel. cbn [s_current current known]. rewrite Hc. unfold push_known.
    rewrite list_lookup_alter_eq, Hi. by eexists.
Qed.

Lemma consume_rules_elsewhere st line n :
  match s_current st with CKnown _ _ => False | _ => True end -> s_rules (consume_line st line n) = s_rules st.
Proof using Type. unfold consume_line. by destruct (s_current st). Qed.

Lemma hint_trim l : is_syntax_hint_line (trim l) = is_syntax_hint_line l.
Proof using Type.
  unfold is_syntax_hint_line, trim. set (x := trim_start_matches is_whitespace l).
  assert (Hx : match x with c :: _ => is_whitespace c = false | [] => True end) by apply trim_start_matches_clean.
  destruct (trim_end_matches_blank is_whitespace x) as (b & E & Hb).
  set (y := trim_end_matches is_whitespace x) in *. clearbody y. clearbody x. subst x.
  assert (Hy : trim_start_matches is_whitespace y = y).
  { destruct y as [|c y]; [done|]. by apply trim_start_word. }
  rewrite Hy. unfold starts_with. change SYNTAX_HINT_PREFIX with [HASH; COLON].
  destruct y as [|c [|d y]]; cbn [app strip_prefix].
  - destruct b as [|w b]; [done|]. cbn in Hx, Hb. rewrite Hx in Hb. done.
  - destruct (HASH =? c)%N; [|done]. destruct b as [|w b]; [done|]. destruct (N.eqb_spec COLON w) as [<-|]; [|done].
    vm_compute in Hb. discriminate.
  - by destruct (HASH =? c)%N, (COLON =? d)%N.
Qed.

Lemma line_in_lockstep st r line n :
  clean_hash (trim line) = true -> lockstep st r -> lockstep (walk_line st line n) (read_line r line).
Proof using Type.
  intros Hh Hls. unfold walk_line, read_line. rewrite hint_trim.
  destruct (is_syntax_hint_line line) eqn:Ei; [by rewrite orb_true_r|]. rewrite orb_false_r.
  destruct (parse_section_header line) as [name|] eqn:Eh.
  { destruct (is_empty (trim line)) eqn:Ee; [|by apply header_lockstep].
    exfalso. apply is_empty_true, blank_chars in Ee. unfold parse_section_header in Eh.
    destruct (strip_prefix HEADER_PREFIX line) as [rest|] eqn:Es; [|done]. apply strip_prefix_Some in Es as ->.
    vm_compute in Ee. discriminate. }
  assert (Hcur := ls_current _ _ Hls). unfold current_rel in Hcur.
  destruct (s_current st) as [|kind name|name acc] eqn:Ec.
  - assert (consume_line st line n = st) as -> by (unfold consume_line; by rewrite Ec).
    destruct (is_empty (trim line)); [done|]. destruct (current r) eqn:Er; [done|].
    destruct (read_preamble_known r (trim line)) as [E1 E2]. destruct Hls as [H1 H2 H3].
    constructor; rewrite ?E1; [done..|]. unfold current_rel. by rewrite Ec, E2, Er.
  - destruct (current r) as [[i|i]|] eqn:Er; [|done..]. destruct Hcur as (c & Hi & Hn & Ha & ->).
    destruct (is_empty (trim line)) eqn:Ee.
    + assert (consume_line st line n = st) as ->; [|done]. unfold consume_line. rewrite Ec. unfold parse_rule_line. by rewrite Ee.
    + by eapply read_rule_lockstep.
  - assert (Hcl : exists m a, s_current (consume_line st line n) = CUnknown m a) by (unfold consume_line; rewrite Ec; by eexists _, _).
    assert (Hr : s_rules (consume_line st line n) = s_rules st) by (apply consume_rules_elsewhere; by rewrite Ec).
    destruct (current r) as [slot|] eqn:Er; [|done]. destruct (is_empty (trim line)).
    + destruct Hls as [H1 H2 H3]. constructor; [by rewrite Hr|done|]. unfold current_rel.
      destruct Hcl as (m & a & ->). by rewrite Er.
    + by apply (read_rule_elsewhere st).
Qed.

Lemma trim_end_ws p s c : p c = true -> trim_end_matches p (s ++ [c]) = trim_end_matches p s.
Proof using Type. intros H. unfold trim_end_matches. rewrite reverse_snoc. cbn [trim_start_matches]. by rewrite H. Qed.

Lemma trim_snoc s c : is_whitespace c = true -> trim (s ++ [c]) = trim s.
Proof using Type.
  intros Hc. unfold trim. induction s as [|d s IH]; cbn [app trim_start_matches]; [by rewrite Hc|].
  destruct (is_whitespace d); [done|]. exact (trim_end_ws _ (d :: s) c Hc).
Qed.

Lemma header_cr s : parse_section_header (s ++ [CR]) = parse_section_header s.
Proof using Type.
  unfold parse_section_header. destruct (strip_prefix HEADER_PREFIX s) as [rest|] eqn:E.
  - apply strip_prefix_Some in E as ->. rewrite <- app_assoc, (proj2 (strip_prefix_Some _ _ (rest ++ [CR])) eq_refl).
    destruct rest as [|c rest]; [done|]. cbn [app]. destruct (is_whitespace c); [done|].
    change (c :: rest ++ [CR]) with ((c :: rest) ++ [CR]). by rewrite trim_end_ws.
  - destruct (strip_prefix HEADER_PREFIX (s ++ [CR])) as [rest|] eqn:E2; [|done]. exfalso.
    apply strip_prefix_Some in E2. destruct rest as [|c rest _] using rev_ind.
    + apply (f_equal last) in E2. rewrite last_snoc in E2. done.
    + rewrite app_assoc in E2. apply app_inj_tail in E2 as [-> _].
      by rewrite (proj2 (strip_prefix_Some _ _ rest) eq_refl) in E.
Qed.

Lemma without_cr_cases l : without_cr l = l \/ exists s, l = s ++ [CR] /\ without_cr l = s.
Proof using Type.
  unfold without_cr. destruct (strip_suffix [CR] l) as [s|] eqn:E; [right|by left].
  apply strip_suffix_Some in E as ->. by exists s.
Qed.

Lemma trim_without_cr l : trim (without_cr l) = trim l.
Proof using Type. destruct (without_cr_cases l) as [->|(s & -> & ->)]; [done|]. by rewrite trim_snoc. Qed.

Lemma read_line_cr r l : read_line r (without_cr l) = read_line r l.
Proof using Type.
  unfold read_line. rewrite trim_without_cr. destruct (without_cr_cases l) as [->|(s & -> & ->)]; [done|].
  by rewrite header_cr.
Qed.

Lemma read_pieces pieces r :
  fold_left read_line (lines_of pieces) r = fold_left (fun r l => read_line r (without_cr l)) pieces r.
Proof using Type.
  revert r. induction pieces as [|p pieces IH]; intros r; [done|]. destruct pieces as [|q pieces].
  - cbn. destruct p as [|c p]; [done|]. cbn. by rewrite read_line_cr.
  - rewrite lines_of_cons by done. cbn [fold_left]. apply IH.
Qed.

Lemma walk_lockstep ls st r i :
  Forall (fun l => clean_hash (trim l) = true) ls -> lockstep st r ->
  lockstep (walk st i ls) (fold_left (fun r l => read_line r (without_cr l)) ls r).
Proof using Type.
  intros H. revert st r i. induction H as [|l ls Hl _ IH]; intros st r i Hst; [done|]. cbn [walk fold_left].
  apply IH, line_in_lockstep; [by rewrite trim_without_cr|done].
Qed.

(** C39. The window shows what the service applies: read from the same text, the
    window's rules of every section the system applies are the service's entries
    of it, in order, whatever the case, order and repetition of the headers, the
    preamble, the foreign sections and the line ends. It holds for every text on no
    line of which, trimmed, a leading [#] is followed by white space other than one
    single space. *)
Theorem window_shows_service text s :
  is_active_on s os = true ->
  Forall (fun l => clean_hash (trim l) = true) (split (is_char LF) (without_bom text)) ->
  shown_in s (rules (parse_canonical_rules text)) = service_view s (sections (parsed (parse_rules_file text))).
Proof using Type.
  intros Hs Hh. unfold parse_canonical_rules, parse_rules_file, parser_finish, finish. cbn [rules parsed sections].
  rewrite (proj1 (close_rules _)). fold (without_bom text). unfold lines. rewrite read_pieces.
  refine (ls_rules _ _ (walk_lockstep _ parser_new new_reader 0 Hh _) s Hs).
  constructor; [done|constructor|done].
Qed.

End WindowFile.

(** ** Examples *)

Definition text_of (ls : list str) : str := unlines ls.

Definition old_file : str :=
  text_of [u "--- Geo"; u "first"; []; u "--- Domains"; u "old.example"; u "--- Windows"; u "app.exe"; u "--- Geo"; u "# second"; []; []].

Definition new_file : str := text_of [u "# header"; u "--- domains"; u "!a.example  # why"; u "# b.example"; u "--- Lab"; u "gone"].

Lemma clean_text_check text :
  starts_with [BOM] (without_bom text) = false ->
  forallb (fun l => negb (ends_with [CR; CR] l)) (split (is_char LF) (without_bom text)) = true -> clean_text text.
Proof.
  intros H1 H2. split; [done|]. rewrite forallb_forall in H2. apply Forall_forall. intros l Hl.
  apply list_elem_of_In in Hl. by apply negb_true_iff, H2.
Qed.

Lemma carry_keeps_witness :
  passthrough_sections HLinux (with_passthrough_sections HLinux new_file (passthrough_sections HLinux old_file))
  = [(u "Geo", text_of [u "first"; u "# second"]); (u "Windows", text_of [u "app.exe"])]
  /\ length (rules (parse_canonical_rules HLinux
       (with_passthrough_sections HLinux new_file (passthrough_sections HLinux old_file)))) = 2.
Proof.
  destruct (carry_keeps HLinux old_file new_file) as [E1 E2];
    [apply clean_text_check; reflexivity|reflexivity|].
  rewrite E1. split; [reflexivity|]. apply (f_equal length) in E2. unfold unnumbered in E2. rewrite !length_fmap in E2.
  rewrite E2. reflexivity.
Defined.

Lemma window_shows_service_witness :
  shown_in SDomains (rules (parse_canonical_rules HLinux new_file))
  = service_view SDomains (sections (parsed (parse_rules_file new_file)))
  /\ length (service_view SDomains (sections (parsed (parse_rules_file new_file)))) = 2.
Proof.
  split; [|reflexivity]. apply window_shows_service; [reflexivity|].
  repeat (constructor; [reflexivity|]). constructor.
Defined.

(** A second byte order mark becomes a first one: a line that was no header
    opens a section of its own once the text is written back. *)
Example carry_second_bom :
  let text := [BOM; BOM] ++ u "--- Geo" ++ [LF] ++ u "x" in
  passthrough_sections HLinux text = []
  /\ passthrough_sections HLinux (with_passthrough_sections HLinux text []) = [(u "Geo", u "x" ++ [LF])].
Proof. by vm_compute. Qed.

(** A line that ends in two carriage returns loses one at every rewrite. *)
Example carry_two_cr :
  let text := u "--- Geo" ++ [LF] ++ u "x" ++ [CR; CR; LF] in
  passthrough_sections HLinux text = [(u "Geo", u "x" ++ [CR; LF])]
  /\ passthrough_sections HLinux (with_passthrough_sections HLinux text (passthrough_sections HLinux text))
     = [(u "Geo", u "x" ++ [LF])].
Proof. by vm_compute. Qed.
