(* ===== verification/DnsWire.v ===== *)
(** * DNS messages on the wire

    core/services/service-runtime/src/dns_wire.rs and
    shared/contracts/src/dns_name.rs: the question of a message, names with and
    without compression, the answers the loopback resolver gives, and what the
    answer of an upstream server means. A packet is the list of its octets, an
    offset a [nat] (a packet is shorter than [isize::MAX], so the checked
    additions of offsets do not fail). The loops over names have fuel; they
    answer within it on every packet ([dns_names_total]). *)

From stdpp Require Import base numbers list relations sets.
From S2P Require Import Prelude Str Digits IpAddr.

Open Scope nat_scope.

(** ** Octets *)

Abbreviation packet := (list N) (only parsing).

(** [packet.get(a..b)]. *)
Definition slice (p : packet) (a b : nat) : option (list N) :=
  if (a <=? b) && (b <=? length p) then Some (take (b - a) (drop a p)) else None.

(** [u16::to_be_bytes], [u32::to_be_bytes]. *)
Definition u16_be (n : N) : list N := fixed_digits 2 256 n.
Definition u32_be (n : N) : list N := fixed_digits 4 256 n.

(** [from_be_bytes]. *)
Definition from_be (l : list N) : N := value_of 256 0 l.

(** The number at two octets, [None] past the end. *)
Definition get_u16 (p : packet) (off : nat) : option N :=
  hi ← p !! off; lo ← p !! (off + 1); Some (from_be [hi; lo]).

(** The octet at a place the caller has checked ([packet[i]]). *)
Definition at_ (p : packet) (i : nat) : N := default 0%N (p !! i).

(** ** Names (dns_name.rs) *)

Definition is_learnable_label (label : list N) : bool :=
  negb (is_empty label)
  && forallb (fun b => is_ascii_alphanumeric b || (b =? DASH)%N || (b =? UNDERSCORE)%N) label.

(** ** Constants *)

Definition DNS_HEADER_LEN : nat := 12.
Definition QTYPE_A : N := 1.
Definition QTYPE_CNAME : N := 5.
Definition QTYPE_PTR : N := 12.
Definition CLASS_IN : N := 1.
Definition QTYPE_AAAA : N := 28.
Definition RCODE_NXDOMAIN : N := 3.
Definition RCODE_SERVFAIL : N := 2.
Definition MAX_CNAME_CHAIN : nat := 16.
(** [u16::MAX]. *)
Definition U16_MAX : nat := N.to_nat 65535.

Lemma U16_MAX_eq : Z.of_nat U16_MAX = 65535%Z.
Proof. unfold U16_MAX. by rewrite N_nat_Z. Qed.

#[global] Opaque U16_MAX.
Definition DNS_TCP_MAX_MESSAGE : nat := U16_MAX.

Record ParsedQuestion : Set := mkQuestion { qname : str; q_type : N; question_end : nat }.

(** ** Reading names *)

(** More turns than a name can take: each turn takes a label of two octets or
    more out of at most 255, one of 32 jumps, or is the last. *)
Definition name_turns : nat := 200.
#[global] Opaque name_turns.

Fixpoint qname_loop (fuel : nat) (p : packet) (off : nat) (labels : list str) (total : nat)
  : option (option (list str * nat)) :=
  match fuel with
  | O => None
  | S fuel' =>
      match p !! off with
      | None => Some None
      | Some len =>
          if (len =? 0)%N then Some (Some (labels, off + 1))
          else if negb (N.land len 192 =? 0)%N then Some None
          else
            let off := off + 1 in
            let end_ := off + N.to_nat len in
            match slice p off end_ with
            | None => Some None
            | Some label =>
                if negb (is_learnable_label label) then Some None
                else
                  let s := to_ascii_lowercase label in
                  let total := total + (N.to_nat len + 1) in
                  if 255 <? total then Some None
                  else qname_loop fuel' p end_ (labels ++ [s]) total
            end
      end
  end.

Definition parse_qname (p : packet) (off : nat) : option (str * nat) :=
  '(labels, off) ← default None (qname_loop name_turns p off [] 0);
  Some (str_join [DOT] labels, off).

Fixpoint decode_loop (fuel : nat) (p : packet) (off jumps total : nat) (labels : list str)
  : option (option (list str)) :=
  match fuel with
  | O => None
  | S fuel' =>
      match p !! off with
      | None => Some None
      | Some len =>
          if (len =? 0)%N then Some (Some labels)
          else if (N.land len 192 =? 192)%N then
            match p !! (off + 1) with
            | None => Some None
            | Some b2 =>
                let target := N.to_nat (N.lor (N.shiftl (N.land len 63) 8) b2) in
                let jumps := jumps + 1 in
                if (32 <? jumps) || (length p <=? target) then Some None
                else decode_loop fuel' p target jumps total labels
            end
          else if negb (N.land len 192 =? 0)%N then Some None
          else
            let off := off + 1 in
            match slice p off (off + N.to_nat len) with
            | None => Some None
            | Some label =>
                if negb (is_learnable_label label) then Some None
                else
                  let total := total + (N.to_nat len + 1) in
                  if 255 <? total then Some None
                  else decode_loop fuel' p (off + N.to_nat len) jumps total
                         (labels ++ [to_ascii_lowercase label])
            end
      end
  end.

Definition decode_name (p : packet) (off : nat) : option str :=
  labels ← default None (decode_loop name_turns p off 0 0 []);
  match labels with [] => None | _ => Some (str_join [DOT] labels) end.

Fixpoint skip_loop (fuel : nat) (p : packet) (off : nat) : option (option nat) :=
  match fuel with
  | O => None
  | S fuel' =>
      match p !! off with
      | None => Some None
      | Some len =>
          if (len =? 0)%N then Some (Some (off + 1))
          else if (N.land len 192 =? 192)%N then
            Some (match p !! (off + 1) with Some _ => Some (off + 2) | None => None end)
          else if negb (N.land len 192 =? 0)%N then Some None
          else skip_loop fuel' p (off + (1 + N.to_nat len))
      end
  end.

(** Every turn moves forward, so the packet's length bounds them. *)
Definition skip_encoded_name (p : packet) (off : nat) : option nat :=
  default None (skip_loop (S (length p)) p off).

(** ** Questions *)

Definition parse_question (p : packet) : option ParsedQuestion :=
  if length p <? DNS_HEADER_LEN then None
  else if (from_be [at_ p 4; at_ p 5] =? 0)%N then None
  else
    '(qname, after_name) ←
      match parse_qname p DNS_HEADER_LEN with
      | Some parsed => Some parsed
      | None =>
          name ← decode_name p DNS_HEADER_LEN;
          after ← skip_encoded_name p DNS_HEADER_LEN;
          Some (name, after)
      end;
    qtype ← get_u16 p after_name;
    _ ← get_u16 p (after_name + 2);
    let question_end := after_name + 4 in
    if length p <? question_end then None
    else Some (mkQuestion qname qtype question_end).

(** The name of the first question for comparison: labels lower-cased, each with
    a dot, no character rules. *)
Fixpoint key_loop (fuel : nat) (p : packet) (off jumps : nat) (key : list N) : option (option (list N)) :=
  match fuel with
  | O => None
  | S fuel' =>
      match p !! off with
      | None => Some None
      | Some len =>
          if (len =? 0)%N then Some (Some key)
          else if (N.land len 192 =? 192)%N then
            match p !! (off + 1) with
            | None => Some None
            | Some b2 =>
                let target := N.to_nat (N.lor (N.shiftl (N.land len 63) 8) b2) in
                let jumps := jumps + 1 in
                if (32 <? jumps) || (length p <=? target) then Some None
                else key_loop fuel' p target jumps key
            end
          else if negb (N.land len 192 =? 0)%N then Some None
          else
            match slice p (off + 1) (off + 1 + N.to_nat len) with
            | None => Some None
            | Some label =>
                let key := key ++ to_ascii_lowercase label ++ [DOT] in
                if 255 <? length key then Some None
                else key_loop fuel' p (off + (1 + N.to_nat len)) jumps key
            end
      end
  end.

Definition question_key (p : packet) : option (list N * N * N) :=
  if (length p <? DNS_HEADER_LEN) || (from_be [at_ p 4; at_ p 5] =? 0)%N then None
  else
    key ← default None (key_loop name_turns p DNS_HEADER_LEN 0 []);
    after_name ← skip_encoded_name p DNS_HEADER_LEN;
    fixed ← slice p after_name (after_name + 4);
    Some (key, from_be (take 2 fixed), from_be (drop 2 fixed)).

Definition is_truncated (reply : packet) : bool :=
  (DNS_HEADER_LEN <=? length reply) && negb (N.land (at_ reply 2) 2 =? 0)%N.

(** ** Answers of the resolver *)

(** The header and the question of the query with the flags and counts of an
    answer. [question_end] is the one [parse_question] gave, so the places
    written to exist. *)
Definition response_prefix (query : packet) (question_end : nat) (rcode ancount : N) : list N :=
  take 2 query
  ++ [N.lor 128 (N.land (at_ query 2) 121); N.lor 128 (N.land rcode 15)]
  ++ [at_ query 4; at_ query 5] ++ u16_be ancount ++ [0; 0; 0; 0]%N
  ++ drop DNS_HEADER_LEN (take question_end query).

(** One answer record, its name a pointer to the question. *)
Definition address_record (qtype ttl : N) (octets : list N) : list N :=
  [192; 12]%N ++ u16_be qtype ++ [0; 1]%N ++ u32_be ttl ++ u16_be (N.of_nat (length octets) mod 65536) ++ octets.

Definition build_address_response (query : packet) (qtype : N) (rdata : list (list N)) (ttl : N)
  : option (list N) :=
  match rdata with
  | [] => None
  | _ =>
      q ← parse_question query;
      let ancount := Nat.min (length rdata) U16_MAX in
      Some (response_prefix query (question_end q) 0 (N.of_nat ancount)
            ++ concat (address_record qtype ttl <$> take ancount rdata))
  end.

Definition octets_v4 (v : Z) : list N := fixed_digits 4 256 (Z.to_N v).
Definition octets_v6 (v : Z) : list N := fixed_digits 16 256 (Z.to_N v).

Definition build_a_response (query : packet) (ips : list Z) (ttl : N) : option (list N) :=
  build_address_response query QTYPE_A (octets_v4 <$> ips) ttl.

Definition build_aaaa_response (query : packet) (ips : list Z) (ttl : N) : option (list N) :=
  build_address_response query QTYPE_AAAA (octets_v6 <$> ips) ttl.

Definition build_error_response (query : packet) (rcode : N) : option (list N) :=
  q ← parse_question query; Some (response_prefix query (question_end q) rcode 0).

Definition RNAME : list N := [6; 110; 111; 98; 111; 100; 121; 7; 105; 110; 118; 97; 108; 105; 100; 0]%N.

Definition build_negative_response (query : packet) (rcode negative_ttl : N) : option (list N) :=
  q ← parse_question query;
  let resp := response_prefix query (question_end q) rcode 0 in
  let resp := take 8 resp ++ u16_be 1 ++ drop 10 resp in
  let rdlength := N.of_nat (2 + length RNAME + 5 * 4) in
  Some (resp ++ [192; 12]%N ++ u16_be 6 ++ [0; 1]%N ++ u32_be negative_ttl ++ u16_be rdlength
        ++ [192; 12]%N ++ RNAME ++ u32_be 1 ++ u32_be 3600 ++ u32_be 600 ++ u32_be 86400
        ++ u32_be negative_ttl).

(** ** Queries to an upstream server *)

Fixpoint encode_labels (labels : list str) : option (list N) :=
  match labels with
  | [] => Some []
  | label :: rest =>
      if is_empty label || (63 <? byte_len label) || negb (is_ascii label) then None
      else out ← encode_labels rest; Some (N.of_nat (byte_len label) :: label ++ out)
  end.

Definition encode_qname (qname : str) : option (list N) :=
  let name := default qname (strip_suffix [DOT] qname) in
  if is_empty name then None
  else
    out ← encode_labels (split (is_char DOT) name);
    let out := out ++ [0%N] in
    if 255 <? length out then None else Some out.

(** The message both query builders write. *)
Definition query_message (id : N) (name : list N) (qtype : N) : list N :=
  u16_be id ++ [1; 0]%N ++ [0; 1]%N ++ [0; 0; 0; 0; 0; 0]%N ++ name ++ u16_be qtype ++ [0; 1]%N.

Definition build_address_query (id : N) (qname : str) (qtype : N) : option (list N) :=
  name ← encode_qname qname; Some (query_message id name qtype).

Definition reverse_in_addr_arpa (ip : Z) : str :=
  fmt_dec (octet ip 0) ++ [DOT] ++ fmt_dec (octet ip 1) ++ [DOT] ++ fmt_dec (octet ip 2) ++ [DOT]
  ++ fmt_dec (octet ip 3) ++ u ".in-addr.arpa".

Definition build_ptr_query (id : N) (ip : Z) : option (list N) :=
  name ← encode_qname (reverse_in_addr_arpa ip); Some (query_message id name QTYPE_PTR).

(** ** Answers of an upstream server *)

Record AnswerRr : Set := mkRr
  { owner : option str; rtype : N; rclass : N; rr_ttl : N; rdata_start : nat; rdlen : nat }.

Fixpoint read_answer_records (p : packet) (off ancount : nat) : list AnswerRr :=
  match ancount with
  | O => []
  | S ancount' =>
      match skip_encoded_name p off with
      | None => []
      | Some after_name =>
          match slice p after_name (after_name + 10) with
          | None => []
          | Some fixed =>
              let rdlen := N.to_nat (from_be (drop 8 fixed)) in
              let rdata_start := after_name + 10 in
              match slice p rdata_start (rdata_start + rdlen) with
              | None => []
              | Some _ =>
                  mkRr (decode_name p off) (from_be (take 2 fixed)) (from_be (take 2 (drop 2 fixed)))
                    (from_be (take 4 (drop 4 fixed))) rdata_start rdlen
                  :: read_answer_records p (rdata_start + rdlen) ancount'
              end
          end
      end
  end.

(** The aliases of the answer, owner and target. *)
Definition alias_of (p : packet) (r : AnswerRr) : option (str * str) :=
  if (rtype r =? QTYPE_CNAME)%N && (rclass r =? CLASS_IN)%N
  then o ← owner r; target ← decode_name p (rdata_start r); Some (o, target)
  else None.

Definition aliases (p : packet) (records : list AnswerRr) : list (str * str) :=
  omap (alias_of p) records.

(** One pass over the aliases: the names known so far and whether one was new. *)
Definition closure_pass (als : list (str * str)) (names : list str) : list str * bool :=
  fold_left (fun '(names, grew) '(o, target) =>
               if bool_decide (o ∈ names) && negb (bool_decide (target ∈ names))
               then (target :: names, true) else (names, grew))
    als (names, false).

Fixpoint closure_loop (rounds : nat) (als : list (str * str)) (names : list str) : list str :=
  match rounds with
  | O => names
  | S rounds' =>
      let '(names, grew) := closure_pass als names in
      if grew then closure_loop rounds' als names else names
  end.

Definition answer_owner_closure (p : packet) (records : list AnswerRr) (qname : str) : list str :=
  closure_loop MAX_CNAME_CHAIN (aliases p records) [qname].

Definition address_rdlen (qtype : N) : option nat :=
  if (qtype =? QTYPE_A)%N then Some 4 else if (qtype =? QTYPE_AAAA)%N then Some 16 else None.

Definition only_v4 (addresses : list IpAddr) : list Z :=
  omap (fun a => match a with V4 v => Some v | V6 _ => None end) addresses.

Definition address_from_rdata (rdata : list N) : option IpAddr :=
  if length rdata =? 4 then Some (V4 (Z.of_N (from_be rdata)))
  else if length rdata =? 16 then Some (V6 (Z.of_N (from_be rdata)))
  else None.

Inductive AddressResponseOutcome : Set :=
  | Answers (addresses : list IpAddr) (min_ttl : N)
  | ANoRecords | ATruncated | AFailed (rcode : N) | AMismatch.

Inductive PtrResponseOutcome : Set :=
  | Names (names : list str) | PNoRecords | PTruncated | PFailed (rcode : N) | PMismatch.

(** The owner of a record is one of the names of the answer. *)
Definition on_chain (owners : list str) (r : AnswerRr) : bool :=
  match owner r with Some o => bool_decide (o ∈ owners) | None => false end.

(** The address of a record that answers the question, with its lifetime. *)
Definition accepted (p : packet) (qtype : N) (width : nat) (owners : list str) (r : AnswerRr)
  : option (IpAddr * N) :=
  if (rtype r =? qtype)%N && (rclass r =? CLASS_IN)%N && (rdlen r =? width) && on_chain owners r
  then rdata ← slice p (rdata_start r) (rdata_start r + width);
       addr ← address_from_rdata rdata; Some (addr, rr_ttl r)
  else None.

Definition U32_MAX : N := 4294967295.

Definition parse_address_response (expect_id : N) (expect_qname : str) (qtype : N) (p : packet)
  : AddressResponseOutcome :=
  match address_rdlen qtype with
  | None => AMismatch
  | Some width =>
      if length p <? DNS_HEADER_LEN then AMismatch
      else if negb (from_be [at_ p 0; at_ p 1] =? expect_id)%N then AMismatch
      else if (N.land (at_ p 2) 128 =? 0)%N then AMismatch
      else
        match parse_question p with
        | None => AMismatch
        | Some q =>
            let expect := to_ascii_lowercase (default expect_qname (strip_suffix [DOT] expect_qname)) in
            if negb (str_eqb (qname q) expect) || negb (q_type q =? qtype)%N then AMismatch
            else if negb (N.land (at_ p 2) 2 =? 0)%N then ATruncated
            else
              let rcode := N.land (at_ p 3) 15 in
              if (rcode =? RCODE_NXDOMAIN)%N then ANoRecords
              else if negb (rcode =? 0)%N then AFailed rcode
              else
                let ancount := N.to_nat (from_be [at_ p 6; at_ p 7]) in
                let records := read_answer_records p (question_end q) ancount in
                let owners := answer_owner_closure p records (qname q) in
                match omap (accepted p qtype width owners) records with
                | [] => ANoRecords
                | found =>
                    let min_ttl := foldr N.min U32_MAX (found.*2) in
                    Answers (found.*1) (if (min_ttl =? U32_MAX)%N then 0%N else min_ttl)
                end
        end
  end.

Definition parse_ptr_response (expect_id : N) (ip : Z) (p : packet) : PtrResponseOutcome :=
  if length p <? DNS_HEADER_LEN then PMismatch
  else if negb (from_be [at_ p 0; at_ p 1] =? expect_id)%N then PMismatch
  else if (N.land (at_ p 2) 128 =? 0)%N then PMismatch
  else
    match parse_question p with
    | None => PMismatch
    | Some q =>
        if negb (str_eqb (qname q) (reverse_in_addr_arpa ip)) || negb (q_type q =? QTYPE_PTR)%N then PMismatch
        else if negb (N.land (at_ p 2) 2 =? 0)%N then PTruncated
        else
          let rcode := N.land (at_ p 3) 15 in
          if (rcode =? RCODE_NXDOMAIN)%N then PNoRecords
          else if negb (rcode =? 0)%N then PFailed rcode
          else
            let ancount := N.to_nat (from_be [at_ p 6; at_ p 7]) in
            let records := read_answer_records p (question_end q) ancount in
            let owners := answer_owner_closure p records (qname q) in
            match omap (fun r => if (rtype r =? QTYPE_PTR)%N && (rclass r =? CLASS_IN)%N && on_chain owners r
                                 then decode_name p (rdata_start r) else None) records with
            | [] => PNoRecords
            | names => Names names
            end
    end.

(** ** Messages over TCP *)

Inductive TcpError : Set := UnexpectedEof | LengthOutOfBounds | MessageTooLong.

(** [Read::read_exact] of [n] octets on what is left of a stream. *)
Definition read_exact (n : nat) (stream : list N) : result (list N * list N) TcpError :=
  if length stream <? n then Err UnexpectedEof else Ok (take n stream, drop n stream).

Definition read_tcp_message (stream : list N) (max : nat) : result (option (list N) * list N) TcpError :=
  match stream with
  | [] => Ok (None, [])
  | hi :: rest =>
      match read_exact 1 rest with
      | Err e => Err e
      | Ok (lo, rest) =>
          let n := N.to_nat (from_be (hi :: lo)) in
          if (n =? 0) || (Nat.min max DNS_TCP_MAX_MESSAGE <? n) then Err LengthOutOfBounds
          else match read_exact n rest with
               | Err e => Err e
               | Ok (body, rest) => Ok (Some body, rest)
               end
      end
  end.

(** The octets written, in order. *)
Definition write_tcp_message (message : list N) : result (list N) TcpError :=
  if DNS_TCP_MAX_MESSAGE <? length message then Err MessageTooLong
  else Ok (u16_be (N.of_nat (length message)) ++ message).

(** ** Octets: lemmas *)

Lemma slice_Some p a b l :
  slice p a b = Some l <-> a <= b /\ b <= length p /\ l = take (b - a) (drop a p).
Proof.
  unfold slice. destruct (a <=? b) eqn:E1, (b <=? length p) eqn:E2; cbn [andb];
    rewrite ?Nat.leb_le, ?Nat.leb_gt in *; split; intros H; simplify_eq; try lia; try done.
  by destruct H as (_ & _ & ->).
Qed.

Lemma slice_length p a b l : slice p a b = Some l -> length l = b - a.
Proof. intros (? & ? & ->)%slice_Some. rewrite length_take, length_drop. lia. Qed.

Lemma slice_at pre l post : slice (pre ++ l ++ post) (length pre) (length pre + length l) = Some l.
Proof.
  apply slice_Some. rewrite !length_app. split; [lia|]. split; [lia|].
  rewrite drop_app_length. replace (length pre + length l - length pre) with (length l) by lia.
  by rewrite take_app_length.
Qed.

Lemma slice_stable p p' a b l :
  (forall i, a <= i < b -> p' !! i = p !! i) -> a < b -> slice p a b = Some l -> slice p' a b = Some l.
Proof.
  intros Heq Hlt (_ & Hb & ->)%slice_Some. apply slice_Some.
  assert (b <= length p').
  { destruct (lookup_lt_is_Some_2 p (b - 1)) as [x Hx]; [lia|].
    rewrite <- Heq in Hx by lia. apply lookup_lt_Some in Hx. lia. }
  split; [lia|]. split; [done|]. apply list_eq. intros i.
  destruct (decide (i < b - a)) as [Hi|Hi].
  - rewrite !lookup_take_lt, !lookup_drop by done. symmetry. apply Heq. lia.
  - rewrite !lookup_take_ge by lia. done.
Qed.

Lemma value_of_fixed w n : value_of 256 0 (fixed_digits w 256 n) = (n mod 256 ^ N.of_nat w)%N.
Proof.
  revert n. induction w as [|w IH]; intros n; cbn [fixed_digits].
  - by rewrite N.mod_1_r.
  - rewrite value_of_snoc, IH, Nat2N.inj_succ, N.pow_succ_r' by lia.
    rewrite N.Div0.mod_mul_r. lia.
Qed.

Lemma from_be_u16 n : (n < 65536)%N -> from_be (u16_be n) = n.
Proof. intros H. unfold from_be, u16_be. rewrite value_of_fixed. by apply N.mod_small. Qed.

Lemma from_be_u32 n : (n <= U32_MAX)%N -> from_be (u32_be n) = n.
Proof. intros H. unfold from_be, u32_be. rewrite value_of_fixed. apply N.mod_small. unfold U32_MAX in H. lia. Qed.

Lemma u16_be_length n : length (u16_be n) = 2.
Proof. apply fixed_digits_length. Qed.

Lemma u32_be_length n : length (u32_be n) = 4.
Proof. apply fixed_digits_length. Qed.

(** ** Names: the loops end *)

Lemma land_192_cases len : (N.land len 192 =? 192)%N = true -> (N.land len 192 =? 0)%N = false.
Proof. intros ->%N.eqb_eq. done. Qed.

Lemma name_turns_eq : name_turns = 200.
Proof. reflexivity. Qed.

Lemma qname_loop_total fuel p off labels total :
  total <= 255 -> 256 - total < 2 * fuel -> is_Some (qname_loop fuel p off labels total).
Proof.
  revert off labels total. induction fuel as [|fuel IH]; intros off labels total Ht Hf; [lia|].
  cbn [qname_loop]. repeat (case_match; try by eexists).
  rewrite Nat.ltb_ge in *. rewrite N.eqb_neq in *. apply IH; lia.
Qed.

Lemma decode_loop_total fuel p off jumps total labels :
  total <= 255 -> jumps <= 32 -> 256 - total + 2 * (33 - jumps) < 2 * fuel ->
  is_Some (decode_loop fuel p off jumps total labels).
Proof.
  revert off jumps total labels. induction fuel as [|fuel IH]; intros off jumps total labels Ht Hj Hf; [lia|].
  cbn [decode_loop]. repeat (case_match; try by eexists).
  all: rewrite ?orb_false_iff, ?Nat.ltb_ge, ?N.eqb_neq in *; apply IH; lia.
Qed.

Lemma lower_length s : length (to_ascii_lowercase s) = length s.
Proof. apply length_fmap. Qed.

Lemma key_loop_total fuel p off jumps key :
  length key <= 255 -> jumps <= 32 -> 256 - length key + 2 * (33 - jumps) < 2 * fuel ->
  is_Some (key_loop fuel p off jumps key).
Proof.
  revert off jumps key. induction fuel as [|fuel IH]; intros off jumps key Ht Hj Hf; [lia|].
  cbn [key_loop]. repeat (case_match; try by eexists).
  - rewrite ?orb_false_iff, ?Nat.ltb_ge in *. apply IH; lia.
  - match goal with H : slice _ _ _ = Some _ |- _ => apply slice_length in H end.
    rewrite Nat.ltb_ge, N.eqb_neq, !length_app, lower_length in *. cbn [length] in *.
    apply IH; rewrite ?length_app, ?lower_length; cbn [length]; lia.
Qed.

Lemma skip_loop_total fuel p off : length p - off < fuel -> is_Some (skip_loop fuel p off).
Proof.
  revert off. induction fuel as [|fuel IH]; intros off Hf; [lia|].
  cbn [skip_loop]. repeat (case_match; try by eexists).
  match goal with H : _ !! _ = Some _ |- _ => apply lookup_lt_Some in H end. apply IH. lia.
Qed.

(** ** Names: what the loops read

    A name without pointers at [off], its labels in lower case, the offset after
    it; [total] is what earlier labels took of the 255 octets. *)

Inductive plain_name (p : packet) : nat -> nat -> list str -> nat -> Prop :=
  | plain_end off total : p !! off = Some 0%N -> plain_name p off total [] (off + 1)
  | plain_label off total len label labels e :
      p !! off = Some len -> len <> 0%N -> N.land len 192 = 0%N ->
      slice p (off + 1) (off + 1 + N.to_nat len) = Some label -> is_learnable_label label = true ->
      total + (N.to_nat len + 1) <= 255 ->
      plain_name p (off + 1 + N.to_nat len) (total + (N.to_nat len + 1)) labels e ->
      plain_name p off total (to_ascii_lowercase label :: labels) e.

Lemma plain_name_bounds p off total labels e : plain_name p off total labels e -> off < e /\ e <= length p.
Proof.
  induction 1 as [off total H|]; [|lia]. apply lookup_lt_Some in H. lia.
Qed.

Lemma plain_name_stable p p' off total labels e :
  plain_name p off total labels e -> (forall i, off <= i < e -> p' !! i = p !! i) ->
  plain_name p' off total labels e.
Proof.
  induction 1 as [off total H|off total len label labels e H H0 Hb Hs Hl Ht Hp IH]; intros Heq.
  - constructor. rewrite Heq by lia. done.
  - apply plain_name_bounds in Hp as Hb'. econstructor; try done.
    + by rewrite Heq by lia.
    + eapply slice_stable; [|lia|exact Hs]. intros i Hi. apply Heq. lia.
    + apply IH. intros i Hi. apply Heq. lia.
Qed.

Lemma qname_loop_plain fuel p off labels total labels' e :
  qname_loop fuel p off labels total = Some (Some (labels', e)) ->
  exists ext, labels' = labels ++ ext /\ plain_name p off total ext e.
Proof.
  revert off labels total. induction fuel as [|fuel IH]; intros off labels total; [done|].
  cbn [qname_loop]. repeat case_match; intros E; simplify_eq.
  - exists []. rewrite app_nil_r. split; [done|]. constructor. by rewrite H, (proj1 (N.eqb_eq _ _) H0).
  - apply IH in E as (ext & -> & Hp). eexists. rewrite <- app_assoc. split; [done|].
    rewrite Nat.ltb_ge, N.eqb_neq, ?negb_false_iff, N.eqb_eq in *. by econstructor.
Qed.

(** Opens one turn of a loop on a name without pointers. *)
Ltac plain_turn :=
  match goal with
  | H : ?p !! ?off = Some ?len |- context [?p !! ?off] => rewrite H
  end;
  match goal with
  | H0 : ?len <> 0%N, Hb : N.land ?len 192 = 0%N |- _ =>
      rewrite (proj2 (N.eqb_neq _ _) H0); rewrite ?Hb; cbn [N.eqb Pos.eqb negb]
  end.

Lemma plain_qname fuel p off labels total ext e :
  plain_name p off total ext e -> is_Some (qname_loop fuel p off labels total) ->
  qname_loop fuel p off labels total = Some (Some (labels ++ ext, e)).
Proof.
  intros Hp. revert fuel labels. induction Hp as [off total H|off total len label ext e H H0 Hb Hs Hl Ht Hp IH];
    intros fuel labels [r Hr]; (destruct fuel as [|fuel]; [done|]); cbn [qname_loop] in *.
  - rewrite H. by rewrite app_nil_r.
  - revert Hr. plain_turn. rewrite Hs, Hl. cbn [negb]. rewrite (proj2 (Nat.ltb_ge _ _) Ht). intros Hr.
    rewrite IH by eauto. by rewrite <- app_assoc.
Qed.

Lemma plain_decode fuel p off jumps labels total ext e :
  plain_name p off total ext e -> is_Some (decode_loop fuel p off jumps total labels) ->
  decode_loop fuel p off jumps total labels = Some (Some (labels ++ ext)).
Proof.
  intros Hp. revert fuel labels. induction Hp as [off total H|off total len label ext e H H0 Hb Hs Hl Ht Hp IH];
    intros fuel labels [r Hr]; (destruct fuel as [|fuel]; [done|]); cbn [decode_loop] in *.
  - rewrite H. by rewrite app_nil_r.
  - revert Hr. plain_turn. rewrite Hs, Hl. cbn [negb]. rewrite (proj2 (Nat.ltb_ge _ _) Ht). intros Hr.
    rewrite IH by eauto. by rewrite <- app_assoc.
Qed.

(** The labels of a name, each with its dot. *)
Definition dotted (labels : list str) : str := concat ((fun l => l ++ [DOT]) <$> labels).

Lemma plain_key fuel p off jumps key ext e :
  plain_name p off (length key) ext e -> is_Some (key_loop fuel p off jumps key) ->
  key_loop fuel p off jumps key = Some (Some (key ++ dotted ext)).
Proof.
  intros Hp. remember (length key) as total eqn:Et. revert fuel key Et.
  induction Hp as [off total H|off total len label ext e H H0 Hb Hs Hl Ht Hp IH];
    intros fuel key -> [r Hr]; (destruct fuel as [|fuel]; [done|]); cbn [key_loop] in *.
  - rewrite H. unfold dotted. simpl. by rewrite app_nil_r.
  - revert Hr. plain_turn. rewrite Hs. apply slice_length in Hs.
    assert (El : length (key ++ to_ascii_lowercase label ++ [DOT]) = length key + (N.to_nat len + 1)).
    { rewrite !length_app, lower_length. simpl. lia. }
    rewrite El, (proj2 (Nat.ltb_ge _ _) Ht). replace (off + (1 + N.to_nat len)) with (off + 1 + N.to_nat len) by lia.
    intros Hr. rewrite IH by eauto. unfold dotted. cbn [fmap list_fmap concat]. by rewrite <- !app_assoc.
Qed.

Lemma plain_skip p off total ext e : plain_name p off total ext e -> skip_encoded_name p off = Some e.
Proof.
  intros Hp. unfold skip_encoded_name. assert (Hf : length p - off < S (length p)) by lia.
  revert Hf. generalize (S (length p)) as fuel.
  induction Hp as [off total H|off total len label ext e H H0 Hb Hs Hl Ht Hp IH];
    intros fuel Hf; (destruct fuel as [|fuel]; [lia|]); cbn [skip_loop].
  - by rewrite H.
  - plain_turn. replace (off + (1 + N.to_nat len)) with (off + 1 + N.to_nat len) by lia.
    apply IH. apply lookup_lt_Some in H. lia.
Qed.

Lemma parse_qname_plain p off n e :
  parse_qname p off = Some (n, e) <-> exists labels, n = str_join [DOT] labels /\ plain_name p off 0 labels e.
Proof.
  unfold parse_qname. split.
  - destruct (qname_loop _ _ _ _ _) as [[[labels e']|]|] eqn:E; cbn; intros H; simplify_eq.
    apply qname_loop_plain in E as (ext & -> & Hp). by exists ext.
  - intros (labels & -> & Hp). rewrite (plain_qname _ _ _ _ _ _ _ Hp); [done|].
    apply qname_loop_total; rewrite ?name_turns_eq; lia.
Qed.

(** ** Questions: lemmas *)

(** A name read by either reader of [parse_question], with the offset after it. *)
Definition name_read (p : packet) (n : str) (after : nat) : Prop :=
  parse_qname p DNS_HEADER_LEN = Some (n, after)
  \/ decode_name p DNS_HEADER_LEN = Some n /\ skip_encoded_name p DNS_HEADER_LEN = Some after.

Lemma get_u16_Some p off n :
  get_u16 p off = Some n -> exists hi lo, p !! off = Some hi /\ p !! (off + 1) = Some lo /\ n = from_be [hi; lo].
Proof. unfold get_u16. intros (hi & H1 & (lo & H2 & H3)%bind_Some)%bind_Some. simplify_eq. eauto. Qed.

Lemma parse_question_Some p q :
  parse_question p = Some q ->
  DNS_HEADER_LEN <= length p /\ from_be [at_ p 4; at_ p 5] <> 0%N
  /\ exists after, name_read p (qname q) after /\ question_end q = after + 4 /\ after + 4 <= length p
     /\ get_u16 p after = Some (q_type q) /\ is_Some (get_u16 p (after + 2)).
Proof.
  unfold parse_question. destruct (length p <? _) eqn:El; [done|]. destruct (_ =? 0)%N eqn:E0; [done|].
  rewrite Nat.ltb_ge in El. rewrite N.eqb_neq in E0.
  intros ([n after] & Hn & H)%bind_Some. cbv beta iota in H.
  apply bind_Some in H as (ty & Hty & (cls & Hc & H)%bind_Some).
  destruct (Nat.ltb_spec (length p) (after + 4)) as [|Ee]; [done|]. injection H as <-. cbn.
  split; [done|]. split; [done|]. exists after. split; [|by eauto 6].
  destruct (parse_qname p DNS_HEADER_LEN) as [[]|] eqn:Eq; simplify_eq; [by left|right].
  apply bind_Some in Hn as (? & -> & (? & -> & ?)%bind_Some). by simplify_eq.
Qed.

Lemma parse_question_intro p n after ty :
  DNS_HEADER_LEN <= length p -> from_be [at_ p 4; at_ p 5] <> 0%N ->
  parse_qname p DNS_HEADER_LEN = Some (n, after) -> after + 4 <= length p ->
  get_u16 p after = Some ty -> is_Some (get_u16 p (after + 2)) ->
  parse_question p = Some (mkQuestion n ty (after + 4)).
Proof.
  intros Hl H0 Hn He Ht [c Hc]. unfold parse_question.
  rewrite (proj2 (Nat.ltb_ge _ _) Hl), (proj2 (N.eqb_neq _ _) H0), Hn. cbn [mbind option_bind]. rewrite Ht, Hc. cbn [mbind option_bind].
  by rewrite (proj2 (Nat.ltb_ge _ _) He).
Qed.

Lemma learnable_lower label : is_learnable_label label = true -> to_ascii_lowercase label <> [].
Proof. by destruct label. Qed.

Lemma decode_key fuel p off jumps labels key labels' :
  decode_loop fuel p off jumps (length key) labels = Some (Some labels') ->
  exists ext, labels' = labels ++ ext /\ Forall (fun l => l <> []) ext
    /\ key_loop fuel p off jumps key = Some (Some (key ++ dotted ext)).
Proof.
  revert off jumps labels key. induction fuel as [|fuel IH]; intros off jumps labels key; [done|].
  cbn [decode_loop key_loop]. destruct (p !! off) as [len|]; [|done].
  destruct (len =? 0)%N. { intros [= <-]. exists []. unfold dotted. simpl. rewrite !app_nil_r. eauto. }
  destruct (N.land len 192 =? 192)%N. { repeat case_match; try done; apply IH. }
  destruct (negb _); [done|]. destruct (slice p _ _) as [label|] eqn:Es; [|done].
  destruct (is_learnable_label label) eqn:Hl; [cbn [negb]|done]. apply slice_length in Es.
  assert (El : length (key ++ to_ascii_lowercase label ++ [DOT]) = length key + (N.to_nat len + 1)).
  { rewrite !length_app, lower_length. simpl. lia. }
  rewrite El. destruct (255 <? _); [done|]. rewrite <- El. intros (ext & -> & Hf & Hk)%IH.
  exists (to_ascii_lowercase label :: ext). rewrite <- app_assoc. split; [done|]. split; [constructor; [by apply learnable_lower|done]|].
  replace (off + (1 + N.to_nat len)) with (off + 1 + N.to_nat len) by lia. rewrite Hk. unfold dotted.
  cbn [fmap list_fmap concat]. by rewrite <- !app_assoc.
Qed.

Lemma dotted_join labels :
  dotted labels = match labels with [] => [] | _ => str_join [DOT] labels ++ [DOT] end.
Proof.
  induction labels as [|l labels IH]; [done|]. unfold dotted in *. cbn [fmap list_fmap concat]. rewrite IH.
  destruct labels as [|l' labels]; cbn [str_join]; [by rewrite app_nil_r|]. by rewrite <- !app_assoc.
Qed.

Lemma plain_label_nonempty p off total labels e :
  plain_name p off total labels e -> Forall (fun l => l <> []) labels.
Proof.
  induction 1; constructor; [by apply learnable_lower|done].
Qed.

Definition name_key (n : str) : list N := match n with [] => [] | _ => n ++ [DOT] end.

Lemma name_key_join labels :
  Forall (fun l => l <> []) labels -> dotted labels = name_key (str_join [DOT] labels).
Proof.
  intros H. rewrite dotted_join. destruct H as [|l labels Hl _]; [done|]. unfold name_key.
  destruct (str_join [DOT] (l :: labels)) eqn:E; [|done].
  destruct l; [done|]. by destruct labels.
Qed.

Lemma name_read_key p n after :
  name_read p n after ->
  key_loop name_turns p DNS_HEADER_LEN 0 [] = Some (Some (name_key n))
  /\ skip_encoded_name p DNS_HEADER_LEN = Some after.
Proof.
  assert (Ht : is_Some (key_loop name_turns p DNS_HEADER_LEN 0 []))
    by (apply key_loop_total; rewrite ?name_turns_eq; simpl; lia).
  intros [(labels & -> & Hp)%parse_qname_plain|[Hd Hs]].
  - rewrite <- name_key_join by by eapply plain_label_nonempty.
    split; [by apply (plain_key _ _ _ _ [] _ _ Hp)|by eapply plain_skip].
  - split; [|done]. unfold decode_name in Hd. destruct (decode_loop _ _ _ _ _ _) as [[labels|]|] eqn:E; [|done..].
    apply (decode_key _ _ _ _ _ []) in E as (ext & -> & Hf & ->). cbn in Hd |- *.
    rewrite name_key_join by done. by destruct ext; simplify_eq.
Qed.

Lemma slice_u16 p off n c :
  get_u16 p off = Some n -> get_u16 p (off + 2) = Some c ->
  exists fixed, slice p off (off + 4) = Some fixed /\ from_be (take 2 fixed) = n /\ from_be (drop 2 fixed) = c.
Proof.
  intros (a & b & Ha & Hb & ->)%get_u16_Some (x & y & Hx & Hy & ->)%get_u16_Some.
  exists [a; b; x; y]. split; [|done]. apply lookup_lt_Some in Hy as Hl. apply slice_Some.
  split; [lia|]. split; [lia|]. apply list_eq. intros i.
  replace (off + 4 - off) with 4 by lia.
  destruct (decide (i < 4)) as [Hi|Hi]; [|by rewrite lookup_take_ge, lookup_ge_None_2 by (simpl; lia)].
  rewrite lookup_take_lt, lookup_drop by done.
  replace (off + 2 + 1) with (off + 3) in Hy by lia.
  do 4 (destruct i as [|i]; [by rewrite ?Nat.add_0_r, ?Ha, ?Hb, ?Hx, ?Hy|]). lia.
Qed.

(** The comparison key of a message and its parsed question agree: whenever
    the resolver reads the question of a packet, compressed or not, the key
    exists, its name is the parsed name with a closing dot and its type the
    parsed type. So two packets whose keys are equal ask the same question, and
    an answer is matched to its query by the same name the rules are. *)
Theorem question_key_agrees p q :
  parse_question p = Some q ->
  exists class, question_key p = Some (name_key (qname q), q_type q, class)
    /\ forall p' q', parse_question p' = Some q' ->
         question_key p' = Some (name_key (qname q), q_type q, class) ->
         qname q' = qname q /\ q_type q' = q_type q.
Proof.
  assert (K : forall p q, parse_question p = Some q ->
            exists class, question_key p = Some (name_key (qname q), q_type q, class)).
  { clear. intros p q (Hl & H0 & after & [Hk Hs]%name_read_key & _ & _ & Ht & [c Hc])%parse_question_Some.
    exists c. unfold question_key. rewrite (proj2 (Nat.ltb_ge _ _) Hl), (proj2 (N.eqb_neq _ _) H0). cbn [orb].
    rewrite Hk, Hs. cbn. destruct (slice_u16 _ _ _ _ Ht Hc) as (fixed & -> & <- & <-). done. }
  intros H. destruct (K p q H) as [c Hc]. exists c. split; [done|].
  intros p' q' H' Hk. destruct (K p' q' H') as [c' Hc']. rewrite Hc' in Hk. injection Hk as Hn Ht _.
  split; [|done]. revert Hn. unfold name_key.
  destruct (qname q'), (qname q); cbn; try done. by intros [= -> ->%app_inj_tail_iff%proj1].
Qed.

(** ** Frames of answers *)

(** A message with the header of an answer to [query], the echoed question and a
    tail: what the builders write, up to the last four counts. *)
Definition frame (query : packet) (qe : nat) (rcode ancount : N) (counts tail : list N) : list N :=
  [at_ query 0; at_ query 1; N.lor 128 (N.land (at_ query 2) 121); N.lor 128 (N.land rcode 15);
   at_ query 4; at_ query 5]
  ++ u16_be ancount ++ counts ++ drop DNS_HEADER_LEN (take qe query) ++ tail.

Lemma take_2_at (query : packet) : 2 <= length query -> take 2 query = [at_ query 0; at_ query 1].
Proof. destruct query as [|? [|]]; simpl; try lia. done. Qed.

Lemma response_prefix_frame query qe rcode ancount tail :
  DNS_HEADER_LEN <= length query ->
  response_prefix query qe rcode ancount ++ tail = frame query qe rcode ancount [0; 0; 0; 0]%N tail.
Proof.
  unfold DNS_HEADER_LEN. intros Hl. unfold response_prefix, frame. rewrite take_2_at by lia.
  by rewrite <- !app_assoc.
Qed.

Lemma at_app_l (l k : list N) i : i < length l -> at_ (l ++ k) i = at_ l i.
Proof. intros H. unfold at_. by rewrite lookup_app_l. Qed.

Section Frame.
Context (query : packet) (q : ParsedQuestion) (rcode ancount : N) (counts tail : list N).
Hypothesis Hq : parse_question query = Some q.
Hypothesis Hcounts : length counts = 4.
Hypothesis Hcode : (rcode < 16)%N.
Hypothesis Hcount : (ancount < 65536)%N.

Let p := frame query (question_end q) rcode ancount counts tail.

Lemma question_bounds : DNS_HEADER_LEN <= length query /\ question_end q <= length query.
Proof using Hq. apply parse_question_Some in Hq as (Hl & _ & after & _ & -> & He & _). done. Qed.

Lemma name_read_bounds after : name_read query (qname q) after -> DNS_HEADER_LEN < after.
Proof using Type.
  intros [(labels & _ & Hp)%parse_qname_plain|[_ Hs]]; [by apply plain_name_bounds in Hp as []|].
  unfold skip_encoded_name in Hs. revert Hs.
  enough (G : forall fuel off e, skip_loop fuel query off = Some (Some e) -> off < e).
  { destruct (skip_loop _ _ _) as [[e|]|] eqn:E; [|done..]. cbn. intros [= <-]. by apply G in E. }
  clear. induction fuel as [|fuel IH]; intros off e; [done|]. cbn [skip_loop].
  repeat case_match; intros E; simplify_eq; try lia. apply IH in E. lia.
Qed.

Lemma frame_lookup i : DNS_HEADER_LEN <= i < question_end q -> p !! i = query !! i.
Proof using Hq Hcounts.
  clear Hcode Hcount. intros Hi. destruct question_bounds as [Hl He]. unfold p, frame, DNS_HEADER_LEN in *.
  rewrite !app_assoc. rewrite lookup_app_l, lookup_app_r; rewrite !length_app, u16_be_length, Hcounts; cbn [length].
  - rewrite lookup_drop, lookup_take_lt; [|lia]. f_equal. lia.
  - lia.
  - rewrite length_drop, length_take. lia.
Qed.

Lemma frame_length : length p = question_end q + length tail.
Proof using Hq Hcounts.
  clear Hcode Hcount. destruct question_bounds as [Hl He].
  assert (DNS_HEADER_LEN <= question_end q).
  { apply parse_question_Some in Hq as (_ & _ & after & Hn%name_read_bounds & -> & _). lia. }
  unfold p, frame, DNS_HEADER_LEN in *. rewrite !length_app, u16_be_length, Hcounts, length_drop, length_take.
  cbn [length]. lia.
Qed.

Lemma frame_header :
  at_ p 0 = at_ query 0 /\ at_ p 1 = at_ query 1
  /\ at_ p 4 = at_ query 4 /\ at_ p 5 = at_ query 5
  /\ N.land (at_ p 2) 128 <> 0%N /\ N.land (at_ p 2) 2 = 0%N /\ N.land (at_ p 3) 15 = rcode
  /\ from_be [at_ p 6; at_ p 7] = ancount.
Proof using Hcode Hcount.
  split; [done|]. split; [done|]. split; [done|]. split; [done|].
  change (at_ p 2) with (N.lor 128 (N.land (at_ query 2) 121)).
  change (at_ p 3) with (N.lor 128 (N.land rcode 15)).
  rewrite !N.land_lor_distr_l, <- !N.land_assoc.
  change (N.land 121 128) with 0%N. change (N.land 121 2) with 0%N. change (N.land 15 15) with (N.ones 4).
  change (N.land 128 2) with 0%N. change (N.land 128 15) with 0%N. change (N.land 128 128) with 128%N.
  rewrite !N.land_0_r, N.land_ones, N.mod_small by done.
  split; [done|]. split; [done|]. split; [done|].
  transitivity (from_be (u16_be ancount)); [reflexivity|by apply from_be_u16].
Qed.

Lemma frame_question after :
  parse_qname query DNS_HEADER_LEN = Some (qname q, after) -> parse_question p = Some q.
Proof using Hq Hcounts Hcode Hcount.
  intros Hn. destruct question_bounds as [Hl He]. pose proof frame_length as Hpl.
  apply parse_question_Some in Hq as Hq'. destruct Hq' as (_ & H0 & after' & Hn' & Hend & Hle & Ht & Hc).
  assert (after' = after) as ->.
  { destruct Hn' as [Hn'|[_ Hs]]; [congruence|]. apply parse_qname_plain in Hn as (ls & _ & Hp).
    apply plain_skip in Hp. congruence. }
  apply parse_qname_plain in Hn as (labels & Hj & Hp). apply plain_name_bounds in Hp as Hb.
  assert (E : forall i, DNS_HEADER_LEN <= i < question_end q -> p !! i = query !! i) by apply frame_lookup.
  assert (G : forall off, after <= off -> off + 1 < question_end q -> get_u16 p off = get_u16 query off).
  { intros off H1 H2. unfold get_u16. rewrite !E by lia. done. }
  replace q with (mkQuestion (qname q) (q_type q) (after + 4)) by (rewrite <- Hend; by destruct q).
  apply parse_question_intro.
  - lia.
  - destruct frame_header as (_ & _ & -> & -> & _). done.
  - apply parse_qname_plain. exists labels. split; [done|]. eapply plain_name_stable; [exact Hp|].
    intros i Hi. apply E. lia.
  - lia.
  - rewrite G by lia. done.
  - rewrite G by lia. done.
Qed.

End Frame.

(** ** Records of answers *)

Lemma decode_pointer fuel p off jumps total labels :
  p !! off = Some 192%N -> p !! (off + 1) = Some 12%N -> jumps < 32 -> DNS_HEADER_LEN < length p ->
  decode_loop (S fuel) p off jumps total labels = decode_loop fuel p DNS_HEADER_LEN (jumps + 1) total labels.
Proof.
  intros H1 H2 Hj Hl. cbn [decode_loop]. rewrite H1, H2.
  change (192 =? 0)%N with false. change (N.land 192 192 =? 192)%N with true.
  change (N.to_nat (N.lor (N.shiftl (N.land 192 63) 8) 12)) with DNS_HEADER_LEN. cbv beta iota zeta.
  rewrite (proj2 (Nat.ltb_ge _ _)) by lia. rewrite (proj2 (Nat.leb_gt _ _)) by lia. done.
Qed.

Lemma pointer_name p off labels e :
  p !! off = Some 192%N -> p !! (off + 1) = Some 12%N -> plain_name p DNS_HEADER_LEN 0 labels e ->
  labels <> [] -> decode_name p off = Some (str_join [DOT] labels).
Proof.
  intros H1 H2 Hp Hne. apply plain_name_bounds in Hp as Hb. unfold decode_name.
  rewrite name_turns_eq. change 200 with (S 199). generalize (eq_refl 199). generalize 199 at 1 3. intros fuel Hf.
  rewrite decode_pointer by (done || lia).
  rewrite (plain_decode _ _ _ _ _ _ _ _ Hp) by (apply decode_loop_total; lia).
  cbn. by destruct labels.
Qed.

Lemma pointer_skip p off :
  p !! off = Some 192%N -> p !! (off + 1) = Some 12%N -> skip_encoded_name p off = Some (off + 2).
Proof. intros H1 H2. unfold skip_encoded_name. cbn [skip_loop]. rewrite H1, H2. done. Qed.

(** What one written record is read as. *)
Definition record_reads (p : packet) (n : str) (qtype ttl : N) (rdata : list N) (r : AnswerRr) : Prop :=
  owner r = Some n /\ rtype r = qtype /\ rclass r = CLASS_IN /\ rr_ttl r = ttl
  /\ rdlen r = length rdata /\ slice p (rdata_start r) (rdata_start r + length rdata) = Some rdata.

Lemma read_records p pre n qtype ttl rdatas :
  p = pre ++ concat (address_record qtype ttl <$> rdatas) ->
  (forall off, p !! off = Some 192%N -> p !! (off + 1) = Some 12%N -> decode_name p off = Some n) ->
  (qtype < 65536)%N -> (ttl <= U32_MAX)%N -> Forall (fun rd => (N.of_nat (length rd) < 65536)%N) rdatas ->
  Forall2 (record_reads p n qtype ttl) rdatas (read_answer_records p (length pre) (length rdatas)).
Proof.
  intros Hp Hd Ht Httl Hr. revert pre Hp. induction Hr as [|rd rdatas Hlen _ IH]; intros pre Hp; [constructor|].
  cbn [fmap list_fmap concat] in Hp. unfold address_record in Hp at 1. rewrite N.mod_small in Hp by done.
  set (fixed := u16_be qtype ++ [0; 1]%N ++ u32_be ttl ++ u16_be (N.of_nat (length rd))).
  set (rest := concat (address_record qtype ttl <$> rdatas)) in *.
  assert (Hp1 : p = pre ++ [192; 12]%N ++ fixed ++ rd ++ rest) by (rewrite Hp; unfold fixed; by rewrite <- !app_assoc).
  assert (L0 : p !! length pre = Some 192%N) by (rewrite Hp1, lookup_app_r by lia; by rewrite Nat.sub_diag).
  assert (L1 : p !! (length pre + 1) = Some 12%N)
    by (rewrite Hp1, lookup_app_r by lia; by replace (length pre + 1 - length pre) with 1 by lia).
  assert (S1 : slice p (length pre + 2) (length pre + 2 + 10) = Some fixed).
  { rewrite Hp1, (app_assoc pre). replace (length pre + 2) with (length (pre ++ [192; 12]%N)) by (rewrite length_app; done).
    apply slice_at. }
  assert (S2 : slice p (length pre + 2 + 10) (length pre + 2 + 10 + length rd) = Some rd).
  { rewrite Hp1, 2!app_assoc.
    replace (length pre + 2 + 10) with (length ((pre ++ [192; 12]%N) ++ fixed)) by (rewrite !length_app; done).
    apply slice_at. }
  cbn [read_answer_records length]. rewrite (pointer_skip _ _ L0 L1), S1.
  change (drop 8 fixed) with (u16_be (N.of_nat (length rd))). rewrite from_be_u16, Nat2N.id by done. rewrite S2.
  change (take 2 fixed) with (u16_be qtype). change (take 2 (drop 2 fixed)) with [0; 1]%N.
  change (take 4 (drop 4 fixed)) with (u32_be ttl). rewrite from_be_u16, from_be_u32 by done.
  constructor.
  - unfold record_reads. cbn. rewrite (Hd _ L0 L1). eauto 10.
  - replace (length pre + 2 + 10 + length rd) with (length (pre ++ [192; 12]%N ++ fixed ++ rd))
      by (rewrite !length_app; change (length fixed) with 10; simpl; lia).
    apply IH. rewrite Hp1. by rewrite <- !app_assoc.
Qed.

Lemma records_no_aliases p n qtype ttl rdatas rs :
  Forall2 (record_reads p n qtype ttl) rdatas rs -> qtype <> QTYPE_CNAME -> aliases p rs = [].
Proof.
  intros H Hq. induction H as [|rd r rdatas rs (_ & Ht & _) _ IH]; [done|]. unfold aliases in *. cbn [omap list_omap].
  unfold alias_of at 1. by rewrite Ht, (proj2 (N.eqb_neq _ _) Hq).
Qed.

Lemma records_accepted p n qtype ttl width (mk : list N -> IpAddr) rdatas rs :
  Forall2 (record_reads p n qtype ttl) rdatas rs ->
  Forall (fun rd => length rd = width /\ address_from_rdata rd = Some (mk rd)) rdatas ->
  omap (accepted p qtype width [n]) rs = (fun rd => (mk rd, ttl)) <$> rdatas.
Proof.
  induction 1 as [|rd r rdatas rs (Ho & Ht & Hc & Hl & Hd & Hs) _ IH]; intros Hw; [done|].
  apply Forall_cons in Hw as [[<- Ha] Hw]. cbn [omap list_omap fmap list_fmap].
  unfold accepted at 1, on_chain. rewrite Ho, Ht, Hc, Hd, !N.eqb_refl, Nat.eqb_refl, bool_decide_eq_true_2 by set_solver.
  cbn [andb]. rewrite Hs. cbn [mbind option_bind]. rewrite Ha. cbn [mbind option_bind]. by rewrite Hl, IH.
Qed.

(** ** Exchanges *)

(** The name a client that asked for [x] expects in the answer. *)
Definition asked (x : str) : str := to_ascii_lowercase (default x (strip_suffix [DOT] x)).

Definition message_id (p : packet) : N := from_be [at_ p 0; at_ p 1].

(** The outcome of an answer to the question asked, by its code and records. *)
Definition outcome_of (p : packet) (q : ParsedQuestion) (qtype : N) (width : nat) (rcode ancount : N)
  : AddressResponseOutcome :=
  if (rcode =? RCODE_NXDOMAIN)%N then ANoRecords
  else if negb (rcode =? 0)%N then AFailed rcode
  else
    let records := read_answer_records p (question_end q) (N.to_nat ancount) in
    match omap (accepted p qtype width (answer_owner_closure p records (qname q))) records with
    | [] => ANoRecords
    | found =>
        let min_ttl := foldr N.min U32_MAX (found.*2) in
        Answers (found.*1) (if (min_ttl =? U32_MAX)%N then 0%N else min_ttl)
    end.

Lemma frame_outcome query q rcode ancount counts tail after x width :
  parse_question query = Some q -> length counts = 4 -> (rcode < 16)%N -> (ancount < 65536)%N ->
  parse_qname query DNS_HEADER_LEN = Some (qname q, after) ->
  address_rdlen (q_type q) = Some width -> asked x = qname q ->
  let p := frame query (question_end q) rcode ancount counts tail in
  parse_address_response (message_id query) x (q_type q) p = outcome_of p q (q_type q) width rcode ancount.
Proof.
  intros Hq Hc Hr Ha Hn Hw Hx p.
  pose proof (frame_question query q rcode ancount counts tail Hq Hc Hr Ha after Hn) as Hpq.
  destruct (frame_header query q rcode ancount counts tail Hr Ha) as (H0 & H1 & _ & _ & H2 & H3 & H4 & H5).
  apply parse_question_Some in Hpq as Hl. destruct Hl as [Hl _].
  unfold parse_address_response. rewrite Hw. fold p in Hpq, H0, H1, H2, H3, H4, H5, Hl |- *.
  rewrite (proj2 (Nat.ltb_ge _ _) Hl), H0, H1. unfold message_id. rewrite N.eqb_refl. cbn [negb].
  rewrite (proj2 (N.eqb_neq _ _) H2), Hpq. fold (asked x). rewrite Hx, str_eqb_refl, N.eqb_refl. cbn [negb orb].
  rewrite H3. change (0 =? 0)%N with true. cbn [negb]. rewrite H4, H5. reflexivity.
Qed.

Lemma plain_join_nonempty p off total labels e :
  plain_name p off total labels e -> str_join [DOT] labels <> [] -> labels <> [].
Proof. by destruct labels. Qed.

Lemma foldr_min_same {A} (l : list A) (ttl : N) :
  l <> [] -> (ttl <= U32_MAX)%N -> foldr N.min U32_MAX ((fun _ => ttl) <$> l) = ttl.
Proof.
  intros Hl Ht. destruct l as [|a l]; [done|]. clear Hl. cbn [fmap list_fmap foldr].
  induction l as [|b l IH]; cbn [fmap list_fmap foldr]; lia.
Qed.

(** A query whose question is read without pointers, with an address type. *)
Record plain_query (query : packet) (q : ParsedQuestion) (width : nat) : Prop := {
  pq_question : parse_question query = Some q;
  pq_name : exists after, parse_qname query DNS_HEADER_LEN = Some (qname q, after);
  pq_named : qname q <> [];
  pq_width : address_rdlen (q_type q) = Some width;
}.

Lemma address_rdlen_cases qtype width :
  address_rdlen qtype = Some width ->
  (qtype < 65536)%N /\ qtype <> QTYPE_CNAME /\ (N.of_nat width < 65536)%N.
Proof.
  unfold address_rdlen. intros H. repeat case_match; simplify_eq; rewrite N.eqb_eq in *; by subst.
Qed.

Lemma frame_pointer query q width ancount tail off :
  plain_query query q width ->
  let p := frame query (question_end q) 0 ancount [0; 0; 0; 0]%N tail in
  p !! off = Some 192%N -> p !! (off + 1) = Some 12%N -> decode_name p off = Some (qname q).
Proof.
  intros [Hq [after Hn] Hne _] p H1 H2. apply parse_qname_plain in Hn as (labels & Hj & Hp). rewrite Hj.
  eapply pointer_name; [done..| |by eapply plain_join_nonempty; [|rewrite <- Hj]].
  eapply plain_name_stable; [exact Hp|]. intros i Hi.
  apply (frame_lookup query q 0 ancount [0; 0; 0; 0]%N tail Hq eq_refl).
  apply parse_question_Some in Hq as (_ & _ & a' & Hn' & -> & _).
  apply plain_skip in Hp as Hs. destruct Hn' as [(ls & _ & Hs'%plain_skip)%parse_qname_plain|[_ Hs']];
    rewrite Hs in Hs'; simplify_eq; lia.
Qed.

Lemma frame_records query q width ancount rdatas ttl :
  plain_query query q width -> (ttl <= U32_MAX)%N -> Forall (fun rd => length rd = width) rdatas ->
  let p := frame query (question_end q) 0 ancount [0; 0; 0; 0]%N (concat (address_record (q_type q) ttl <$> rdatas)) in
  Forall2 (record_reads p (qname q) (q_type q) ttl) rdatas
    (read_answer_records p (question_end q) (length rdatas)).
Proof.
  intros Hpq Httl Hr p. destruct (address_rdlen_cases _ _ (pq_width _ _ _ Hpq)) as (Ht & _ & Hw).
  set (pre := frame query (question_end q) 0 ancount [0; 0; 0; 0]%N []).
  assert (Hprel : length pre = question_end q).
  { unfold pre. rewrite (frame_length query q 0 ancount [0; 0; 0; 0]%N [] (pq_question _ _ _ Hpq) eq_refl). simpl. lia. }
  rewrite <- Hprel. apply read_records; try done.
  - unfold p, pre, frame. by rewrite <- !app_assoc.
  - intros off. by eapply frame_pointer.
  - eapply Forall_impl; [exact Hr|]. by intros rd ->.
Qed.

Lemma address_exchange query q width x (mk : list N -> IpAddr) rdatas ttl resp :
  plain_query query q width -> asked x = qname q -> (ttl <= U32_MAX)%N ->
  Forall (fun rd => length rd = width /\ address_from_rdata rd = Some (mk rd)) rdatas ->
  build_address_response query (q_type q) rdatas ttl = Some resp ->
  parse_address_response (message_id query) x (q_type q) resp
    = Answers (mk <$> take U16_MAX rdatas) (if (ttl =? U32_MAX)%N then 0%N else ttl).
Proof.
  intros Hpq Hx Httl Hr Hb. pose proof Hpq as [Hq [after Hn] Hne Hw].
  destruct (question_bounds query q Hq) as [Hl Hqe].
  set (cnt := Nat.min (length rdatas) U16_MAX).
  replace (take U16_MAX rdatas) with (take cnt rdatas).
  2: { unfold cnt. destruct (Nat.min_spec (length rdatas) U16_MAX) as [[? ->]|[? ->]]; [|done].
       rewrite !take_ge by lia. done. }
  assert (Hresp : resp = frame query (question_end q) 0 (N.of_nat cnt) [0; 0; 0; 0]%N
                           (concat (address_record (q_type q) ttl <$> take cnt rdatas)) /\ rdatas <> []).
  { rewrite <- response_prefix_frame by done. unfold build_address_response in Hb.
    destruct rdatas; [discriminate|]. rewrite Hq in Hb. cbn [mbind option_bind] in Hb. apply (inj Some) in Hb.
    split; [by rewrite <- Hb|discriminate]. }
  destruct Hresp as [Hresp Hrd]. assert (Hcnt : (N.of_nat cnt < 65536)%N) by (pose proof U16_MAX_eq; lia).
  rewrite Hresp, (frame_outcome _ _ 0 _ [0; 0; 0; 0]%N _ _ _ _ Hq eq_refl eq_refl Hcnt Hn Hw Hx), <- Hresp.
  apply (Forall_take _ cnt) in Hr.
  assert (Hlen : length (take cnt rdatas) = cnt) by (rewrite length_take; lia).
  assert (Hpos : take cnt rdatas <> []).
  { intros E. rewrite E in Hlen. destruct rdatas; [done|]. unfold cnt in Hlen. cbn [length] in Hlen. pose proof U16_MAX_eq. lia. }
  pose proof (frame_records query q width (N.of_nat cnt) (take cnt rdatas) ttl Hpq Httl
                ltac:(eapply Forall_impl; [exact Hr|by intros ? []])) as Hrecs.
  cbv zeta in Hrecs. rewrite <- Hresp, Hlen in Hrecs. revert Hrecs Hr Hpos. clear - Hw Httl.
  generalize (take cnt rdatas) as rds. intros rds Hrecs Hr Hpos.
  unfold outcome_of. cbn [N.eqb negb RCODE_NXDOMAIN]. rewrite Nat2N.id. unfold answer_owner_closure.
  rewrite (records_no_aliases _ _ _ _ _ _ Hrecs) by apply (address_rdlen_cases _ _ Hw).
  change (closure_loop MAX_CNAME_CHAIN [] [qname q]) with [qname q].
  rewrite (records_accepted _ _ _ _ _ mk _ _ Hrecs Hr).
  destruct rds as [|rd rds]; [done|]. cbv zeta.
  assert (F1 : ((fun rd => (mk rd, ttl)) <$> (rd :: rds)).*1 = mk <$> (rd :: rds)) by (by rewrite <- list_fmap_compose).
  assert (F2 : ((fun rd => (mk rd, ttl)) <$> (rd :: rds)).*2 = (fun _ => ttl) <$> (rd :: rds)) by (by rewrite <- list_fmap_compose).
  cbn [fmap list_fmap] in F1, F2 |- *. rewrite F1, F2. f_equal.
  pose proof (foldr_min_same (rd :: rds) ttl Hpos Httl) as F3. cbn [fmap list_fmap] in F3. by rewrite F3.
Qed.

Lemma octets_v4_rdata v :
  (0 <= v < 2 ^ 32)%Z ->
  length (octets_v4 v) = 4 /\ address_from_rdata (octets_v4 v) = Some (V4 v).
Proof.
  intros Hv. unfold octets_v4, address_from_rdata. rewrite fixed_digits_length. split; [done|].
  cbn [Nat.eqb]. unfold from_be. rewrite value_of_fixed, N.mod_small by (change (256 ^ N.of_nat 4)%N with 4294967296%N; lia).
  do 2 f_equal. lia.
Qed.

Lemma octets_v6_rdata v :
  (0 <= v < 2 ^ 128)%Z ->
  length (octets_v6 v) = 16 /\ address_from_rdata (octets_v6 v) = Some (V6 v).
Proof.
  intros Hv. unfold octets_v6, address_from_rdata. rewrite fixed_digits_length. split; [done|].
  cbn [Nat.eqb]. unfold from_be. rewrite value_of_fixed, N.mod_small.
  - do 2 f_equal. lia.
  - apply N2Z.inj_lt. rewrite Z2N.id by lia. exact (proj2 Hv).
Qed.

Lemma family_exchange query q width x ttl (octs : Z -> list N) (mk : Z -> IpAddr) ips resp :
  plain_query query q width -> asked x = qname q -> (ttl <= U32_MAX)%N ->
  Forall (fun v => length (octs v) = width /\ address_from_rdata (octs v) = Some (mk v)) ips ->
  build_address_response query (q_type q) (octs <$> ips) ttl = Some resp ->
  parse_address_response (message_id query) x (q_type q) resp
    = Answers (mk <$> take U16_MAX ips) (if (ttl =? U32_MAX)%N then 0%N else ttl).
Proof.
  intros Hpq Hx Httl Hips Hb.
  assert (HF : Forall (fun rd => length rd = width
                /\ address_from_rdata rd = Some (default (V4 0) (address_from_rdata rd))) (octs <$> ips)).
  { apply Forall_fmap. eapply Forall_impl; [exact Hips|]. cbn. intros v [H1 H2]. by rewrite H2. }
  rewrite (address_exchange query q width x _ _ ttl resp Hpq Hx Httl HF Hb). f_equal.
  rewrite <- fmap_take, <- list_fmap_compose. apply list_fmap_ext. intros i v Hv.
  apply (Forall_take _ U16_MAX) in Hips. rewrite Forall_lookup in Hips. apply Hips in Hv as [_ Hv]. cbn. by rewrite Hv.
Qed.

(** What the resolver answers is what a client reads. For a query with an
    uncompressed address question, the built [A] or [AAAA] answer, read by the
    upstream parser under the query's id and the name asked for (in any case,
    with or without its last dot), gives back exactly the addresses, up to the
    65535 a count can hold, and the lifetime; the largest lifetime is read as
    zero. *)
Theorem resolver_answer_read_back query q width x ttl :
  plain_query query q width -> asked x = qname q -> (ttl <= U32_MAX)%N ->
  let life := if (ttl =? U32_MAX)%N then 0%N else ttl in
  (forall ips resp, q_type q = QTYPE_A -> Forall (fun v => 0 <= v < 2 ^ 32)%Z ips ->
     build_a_response query ips ttl = Some resp ->
     parse_address_response (message_id query) x QTYPE_A resp = Answers (V4 <$> take U16_MAX ips) life)
  /\ (forall ips resp, q_type q = QTYPE_AAAA -> Forall (fun v => 0 <= v < 2 ^ 128)%Z ips ->
     build_aaaa_response query ips ttl = Some resp ->
     parse_address_response (message_id query) x QTYPE_AAAA resp = Answers (V6 <$> take U16_MAX ips) life).
Proof.
  intros Hpq Hx Httl life. pose proof (pq_width _ _ _ Hpq) as Hw.
  split; intros ips resp Ht Hips Hb; rewrite Ht in Hw; injection Hw as <-;
    unfold build_a_response, build_aaaa_response in Hb; rewrite <- Ht in Hb |- *.
  - apply (family_exchange query q 4 x ttl octets_v4 V4 ips resp); try done.
    eapply Forall_impl; [exact Hips|]. apply octets_v4_rdata.
  - apply (family_exchange query q 16 x ttl octets_v6 V6 ips resp); try done.
    eapply Forall_impl; [exact Hips|]. apply octets_v6_rdata.
Qed.

(** ** Queries *)

Lemma land_192_small len : (len < 64)%N -> N.land len 192 = 0%N.
Proof.
  intros H. rewrite <- (N.mod_small len 64 H). change 64%N with (2 ^ 6)%N.
  rewrite <- N.land_ones, <- N.land_assoc. apply N.land_0_r.
Qed.

Lemma encode_labels_plain labels out pre post total :
  encode_labels labels = Some out -> Forall (fun l => is_learnable_label l = true) labels ->
  total + length out <= 255 ->
  plain_name (pre ++ out ++ [0%N] ++ post) (length pre) total (to_ascii_lowercase <$> labels)
    (length pre + length out + 1).
Proof.
  revert out pre total. induction labels as [|l labels IH]; intros out pre total He Hl Ht.
  - injection He as <-. replace (length pre + length [] + 1) with (length pre + 1) by (simpl; lia).
    constructor. rewrite lookup_app_r, Nat.sub_diag by lia. done.
  - cbn [encode_labels] in He. apply Forall_cons in Hl as [Hl Hls].
    destruct (is_empty l) eqn:E0; [done|]. destruct (63 <? byte_len l) eqn:E1; [done|].
    destruct (is_ascii l) eqn:E2; [|done]. cbn [orb negb] in He.
    apply bind_Some in He as (out' & He & [= <-]). rewrite Nat.ltb_ge, byte_len_ascii in * by done.
    cbn [length] in Ht. rewrite length_app in Ht. apply is_empty_false in E0.
    assert (0 < length l) by (destruct l; simpl; [done|lia]). cbn [fmap list_fmap].
    replace (length pre + length (N.of_nat (length l) :: l ++ out') + 1)
      with (length (pre ++ N.of_nat (length l) :: l) + length out' + 1)
      by (cbn [length]; rewrite !length_app; simpl; lia).
    apply (plain_label _ _ _ (N.of_nat (length l)) l); rewrite ?Nat2N.id; try done; try lia.
    + rewrite lookup_app_r, Nat.sub_diag by lia. done.
    + apply land_192_small. lia.
    + replace (pre ++ (N.of_nat (length l) :: l ++ out') ++ [0%N] ++ post)
        with ((pre ++ [N.of_nat (length l)]) ++ l ++ out' ++ [0%N] ++ post)
        by (rewrite <- !app_assoc; cbn [app]; by rewrite <- !app_assoc).
      replace (length pre + 1) with (length (pre ++ [N.of_nat (length l)])) by (by rewrite length_app).
      apply slice_at.
    + replace (length pre + 1 + length l) with (length (pre ++ N.of_nat (length l) :: l))
        by (rewrite length_app; simpl; lia).
      replace (pre ++ (N.of_nat (length l) :: l ++ out') ++ [0%N] ++ post)
        with ((pre ++ N.of_nat (length l) :: l) ++ out' ++ [0%N] ++ post)
        by (rewrite <- !app_assoc; cbn [app]; by rewrite <- !app_assoc).
      apply IH; [done..|lia].
Qed.

Lemma lower_join labels :
  str_join [DOT] (to_ascii_lowercase <$> labels) = to_ascii_lowercase (str_join [DOT] labels).
Proof.
  induction labels as [|l [|l' labels] IH]; [done..|]. cbn [fmap list_fmap str_join] in *.
  unfold to_ascii_lowercase in *. rewrite !fmap_app. by rewrite IH.
Qed.

(** The labels of a name a client asks for may be learned. *)
Definition learnable_name (x : str) : Prop :=
  Forall (fun l => is_learnable_label l = true) (split (is_char DOT) (default x (strip_suffix [DOT] x))).

Lemma query_question id x qtype p :
  build_address_query id x qtype = Some p -> (id < 65536)%N -> (qtype < 65536)%N -> learnable_name x ->
  let q := mkQuestion (asked x) qtype (length p) in
  message_id p = id /\ parse_question p = Some q
  /\ parse_qname p DNS_HEADER_LEN = Some (asked x, length p - 4) /\ asked x <> [].
Proof.
  intros (name & Hn & [= <-])%bind_Some Hid Hty Hl q. unfold encode_qname in Hn.
  destruct (is_empty _) eqn:Ee; [done|]. apply bind_Some in Hn as (out & He & Hn).
  destruct (Nat.ltb_spec 255 (length (out ++ [0%N]))) as [|Hlen]; [done|]. injection Hn as <-.
  rewrite length_app in Hlen. cbn [length] in Hlen.
  set (pre := u16_be id ++ [1; 0; 0; 1; 0; 0; 0; 0; 0; 0]%N).
  set (post := u16_be qtype ++ [0; 1]%N).
  assert (Hp : query_message id (out ++ [0%N]) qtype = pre ++ out ++ [0%N] ++ post)
    by (unfold query_message, pre; by rewrite <- !app_assoc).
  assert (Hplen : length (query_message id (out ++ [0%N]) qtype) = 12 + length out + 1 + 4).
  { rewrite Hp. unfold pre, post. rewrite !length_app, !u16_be_length. simpl. lia. }
  assert (Hpq : parse_qname (query_message id (out ++ [0%N]) qtype) DNS_HEADER_LEN = Some (asked x, 12 + length out + 1)).
  { apply parse_qname_plain. eexists. split; [|rewrite Hp; eapply (encode_labels_plain _ _ pre post 0); [done..|lia]].
    rewrite lower_join, str_join_split. done. }
  split; [by apply from_be_u16|]. split; [|split; [rewrite Hplen; by replace (12 + length out + 1 + 4 - 4) with (12 + length out + 1) by lia|]].
  - unfold q. rewrite Hplen.
    assert (Hpost : forall i, i < 4 -> query_message id (out ++ [0%N]) qtype !! (12 + length out + 1 + i) = post !! i).
    { intros i Hi. rewrite Hp, !app_assoc. rewrite lookup_app_r; rewrite !length_app; unfold pre; rewrite length_app, u16_be_length; cbn [length]; [f_equal; lia|lia]. }
    apply parse_question_intro; try done; unfold get_u16, DNS_HEADER_LEN; try lia.
    + rewrite <- (Nat.add_0_r (12 + length out + 1)) at 1. rewrite !Hpost by lia. cbn.
      f_equal. by apply from_be_u16.
    + rewrite <- Nat.add_assoc, !Hpost by lia. by eexists.
  - unfold asked. destruct (default x (strip_suffix [DOT] x)); done.
Qed.

(** ** Refusals *)

Lemma negative_response_frame query q rcode ttl resp :
  parse_question query = Some q -> build_negative_response query rcode ttl = Some resp ->
  exists tail, resp = frame query (question_end q) rcode 0 [0; 1; 0; 0]%N tail.
Proof.
  intros Hq Hb. destruct (question_bounds query q Hq) as [Hl _]. unfold build_negative_response in Hb. rewrite Hq in Hb.
  cbn [mbind option_bind] in Hb. apply (inj Some) in Hb. rewrite <- Hb. eexists.
  unfold response_prefix, frame. rewrite take_2_at by (unfold DNS_HEADER_LEN in Hl; lia).
  rewrite <- !app_assoc. reflexivity.
Qed.

(** The outcome a client sees of an answer without records. *)
Definition refusal (rcode : N) : AddressResponseOutcome :=
  if (rcode =? 0)%N || (rcode =? RCODE_NXDOMAIN)%N then ANoRecords else AFailed rcode.

Lemma frame_refusal query q rcode counts tail width x :
  plain_query query q width -> length counts = 4 -> (rcode < 16)%N -> asked x = qname q ->
  parse_address_response (message_id query) x (q_type q) (frame query (question_end q) rcode 0 counts tail)
    = refusal rcode.
Proof.
  intros [Hq [after Hn] _ Hw] Hc Hr Hx.
  rewrite (frame_outcome query q rcode 0 counts tail after x width); try done.
  unfold outcome_of, refusal. destruct (rcode =? RCODE_NXDOMAIN)%N; [by rewrite orb_true_r|].
  destruct (rcode =? 0)%N; done.
Qed.

(** A query for a name with labels the product may learn is read back as that
    name, type and id, and each answer without records the resolver builds for it
    is understood by the client that asked: code 0 and NXDOMAIN as "no such
    records", with or without the authority record that lets it be cached, and
    every other code as a failure with that code. Both answers exist. *)
Theorem query_and_refusals id x qtype width query rcode ttl :
  build_address_query id x qtype = Some query -> (id < 65536)%N -> address_rdlen qtype = Some width ->
  learnable_name x -> (rcode < 16)%N ->
  parse_question query = Some (mkQuestion (asked x) qtype (length query)) /\ message_id query = id
  /\ exists plain cached,
       build_error_response query rcode = Some plain /\ build_negative_response query rcode ttl = Some cached
       /\ parse_address_response id x qtype plain = refusal rcode
       /\ parse_address_response id x qtype cached = refusal rcode.
Proof.
  intros Hb Hid Hw Hl Hr. destruct (address_rdlen_cases _ _ Hw) as [Hty _].
  destruct (query_question id x qtype query Hb Hid Hty Hl) as (Hm & Hq & Hn & Hne).
  split; [done|]. split; [done|].
  assert (Hpq : plain_query query (mkQuestion (asked x) qtype (length query)) width) by (split; eauto).
  destruct (build_negative_response query rcode ttl) as [cached|] eqn:Hc.
  2: { unfold build_negative_response in Hc. by rewrite Hq in Hc. }
  destruct (negative_response_frame _ _ _ _ _ Hq Hc) as [tail Et].
  exists (frame query (length query) rcode 0 [0; 0; 0; 0]%N []), cached.
  split. { unfold build_error_response. rewrite Hq. cbn [mbind option_bind question_end].
           rewrite <- response_prefix_frame by apply (question_bounds _ _ Hq). by rewrite app_nil_r. }
  split; [done|]. rewrite <- Hm, Et. split.
  - by apply (frame_refusal query (mkQuestion (asked x) qtype (length query)) rcode [0; 0; 0; 0]%N [] width x Hpq).
  - by apply (frame_refusal query (mkQuestion (asked x) qtype (length query)) rcode [0; 1; 0; 0]%N tail width x Hpq).
Qed.

(** ** Owners of records *)

(** [b] is an alias target of [a] in the answer. *)
Definition alias_step (als : list (str * str)) (a b : str) : Prop := (a, b) ∈ als.

Lemma closure_pass_sound als0 als names grew names' grew' :
  fold_left (fun '(names, grew) '(o, target) =>
               if bool_decide (o ∈ names) && negb (bool_decide (target ∈ names))
               then (target :: names, true) else (names, grew)) als (names, grew) = (names', grew') ->
  names ⊆ names' /\ (grew = true -> grew' = true)
  /\ (als ⊆ als0 -> forall root, (forall n, n ∈ names -> rtc (alias_step als0) root n) ->
      forall n, n ∈ names' -> rtc (alias_step als0) root n)
  /\ (forall a b, (a, b) ∈ als -> a ∈ names -> b ∈ names')
  /\ (grew' = false -> names' = names /\ grew = false).
Proof.
  revert names grew. induction als as [|[o target] als IH]; intros names grew; cbn [fold_left].
  { intros [= <- <-]. split; [done|]. split; [done|]. split; [by eauto|]. split; [|done].
    intros a b Hab. by apply not_elem_of_nil in Hab. }
  destruct (bool_decide (o ∈ names) && negb (bool_decide (target ∈ names))) eqn:E;
    intros (Hsub & Hg & Hs & Hc & Hf)%IH.
  - apply andb_true_iff in E as [Ho%bool_decide_eq_true _]. split; [set_solver|]. split; [by auto|]. split; [|split].
    + intros Hals root Hr n Hn. apply (Hs ltac:(set_solver) root); [|done].
      intros m [->|Hm]%elem_of_cons; [|by auto]. eapply rtc_r; [by apply Hr|]. apply Hals. left.
    + intros a b [[= -> ->]|Hab]%elem_of_cons Ha; [set_solver|]. apply (Hc a b Hab). set_solver.
    + intros Hg'. rewrite Hg in Hg' by done. done.
  - split; [done|]. split; [done|]. split; [|split].
    + intros Hals root Hr n Hn. apply (Hs ltac:(set_solver) root); done.
    + intros a b [[= -> ->]|Hab]%elem_of_cons Ha; [|by eapply Hc].
      rewrite bool_decide_eq_true_2 in E by done. cbn in E. apply negb_false_iff, bool_decide_eq_true in E. by apply Hsub.
    + done.
Qed.

Lemma closure_loop_grows rounds als names : names ⊆ closure_loop rounds als names.
Proof.
  revert names. induction rounds as [|rounds IH]; intros names; [done|]. cbn [closure_loop].
  destruct (closure_pass als names) as [names' grew] eqn:E.
  apply (closure_pass_sound als) in E as (Hsub & _). destruct grew; [|done]. by etrans; [|apply IH].
Qed.

Lemma closure_loop_sound rounds als names root :
  (forall n, n ∈ names -> rtc (alias_step als) root n) ->
  forall n, n ∈ closure_loop rounds als names -> rtc (alias_step als) root n.
Proof.
  revert names. induction rounds as [|rounds IH]; intros names Hr; [done|]. cbn [closure_loop].
  destruct (closure_pass als names) as [names' grew] eqn:E.
  apply (closure_pass_sound als) in E as (_ & _ & Hs & _). specialize (Hs ltac:(done) root Hr).
  destruct grew; [by apply IH|done].
Qed.

Lemma closure_loop_complete rounds als names k a n :
  a ∈ names -> nsteps (alias_step als) k a n -> k <= rounds -> n ∈ closure_loop rounds als names.
Proof.
  revert names k a. induction rounds as [|rounds IH]; intros names k a Ha Hn Hk.
  { destruct k; [|lia]. by inversion Hn; subst. }
  cbn [closure_loop]. destruct (closure_pass als names) as [names' grew] eqn:E.
  apply (closure_pass_sound als) in E as (Hsub & _ & _ & Hc & Hf). destruct grew.
  - destruct Hn as [|k a b n Hab Hn]; [by apply closure_loop_grows, Hsub|]. eapply (IH names' k b); [by eapply Hc|done|lia].
  - destruct Hf as [-> _]; [done|]. revert Ha. clear Hk IH. induction Hn as [|k a b n Hab Hn IHn]; [done|].
    intros Ha. apply IHn. by eapply Hc.
Qed.

(** A record that answers the question itself: type, class and width as asked. *)
Definition is_answer (qtype : N) (width : nat) (r : AnswerRr) : Prop :=
  rtype r = qtype /\ rclass r = CLASS_IN /\ rdlen r = width.

(** The address in a record. *)
Definition record_address (p : packet) (r : AnswerRr) : option IpAddr :=
  slice p (rdata_start r) (rdata_start r + rdlen r) ≫= address_from_rdata.

Lemma accepted_Some p qtype width owners r a t :
  accepted p qtype width owners r = Some (a, t) <->
  is_answer qtype width r /\ (exists o, owner r = Some o /\ o ∈ owners)
  /\ record_address p r = Some a /\ rr_ttl r = t.
Proof.
  unfold accepted, is_answer, record_address, on_chain.
  destruct (N.eqb_spec (rtype r) qtype) as [E1|E1]; [|by split; [|intros ((? & _) & _)]].
  destruct (N.eqb_spec (rclass r) CLASS_IN) as [E2|E2]; [|by split; [|intros ((_ & ? & _) & _)]].
  destruct (Nat.eqb_spec (rdlen r) width) as [E3|E3]; [|by split; [|intros ((_ & _ & ?) & _)]].
  cbn [andb]. destruct (owner r) as [o|]; [|by split; [|intros (_ & (? & ? & _) & _)]].
  destruct (bool_decide_reflect (o ∈ owners)) as [Ho|Ho]; [|by split; [|intros (_ & (? & [= <-] & ?) & _)]].
  rewrite E3. split.
  - intros (rdata & -> & (addr & Ha & [= <- <-])%bind_Some)%bind_Some. cbn. eauto 10.
  - intros (_ & _ & (rdata & -> & Ha)%bind_Some & <-). cbn. by rewrite Ha.
Qed.

Lemma foldr_min_le (l : list N) (t : N) : t ∈ l -> (foldr N.min U32_MAX l <= t)%N.
Proof. induction l as [|x l IH]; [by intros ?%not_elem_of_nil|]. cbn [foldr]. intros [->|H%IH]%elem_of_cons; lia. Qed.

Lemma parse_address_answers id x qtype p addrs ttl :
  parse_address_response id x qtype p = Answers addrs ttl ->
  exists q width,
    address_rdlen qtype = Some width /\ parse_question p = Some q
    /\ qname q = asked x /\ q_type q = qtype /\ message_id p = id
    /\ is_truncated p = false /\ N.land (at_ p 3) 15 = 0%N /\ addrs <> []
    /\ let records := read_answer_records p (question_end q) (N.to_nat (from_be [at_ p 6; at_ p 7])) in
       let found := omap (accepted p qtype width (answer_owner_closure p records (qname q))) records in
       addrs = found.*1 /\ (ttl <= foldr N.min U32_MAX (found.*2))%N.
Proof.
  unfold parse_address_response. destruct (address_rdlen qtype) as [width|]; [|done].
  destruct (length p <? _) eqn:El; [done|]. destruct (_ =? id)%N eqn:Ei; [cbn [negb]|done].
  destruct (_ =? 0)%N; [done|]. destruct (parse_question p) as [q|] eqn:Hq; [|done]. fold (asked x).
  destruct (str_eqb _ _) eqn:En; [cbn [negb orb]|done]. destruct (q_type q =? qtype)%N eqn:Et; [cbn [negb]|done].
  destruct (N.land (at_ p 2) 2 =? 0)%N eqn:Etc; [cbn [negb]|done].
  destruct (_ =? RCODE_NXDOMAIN)%N; [done|]. destruct (N.land (at_ p 3) 15 =? 0)%N eqn:Er; [cbn [negb]|done].
  set (found := omap _ _). intros Hf. exists q, width.
  apply str_eqb_eq in En. rewrite N.eqb_eq in Et, Ei, Er.
  assert (addrs = found.*1 /\ (ttl <= foldr N.min U32_MAX (found.*2))%N /\ addrs <> []) as (H1 & H2 & H3).
  { destruct found as [|f found]; [done|]. cbv zeta in Hf. injection Hf as <- <-. split; [done|].
    split; [destruct (_ =? U32_MAX)%N; [apply N.le_0_l|reflexivity]|done]. }
  split; [done|]. split; [done|]. split; [done|]. split; [done|]. split; [done|].
  split; [unfold is_truncated; by rewrite Etc, andb_false_r|]. eauto.
Qed.


(** ** Every packet is answered *)

Lemma read_answer_records_bounds p off ancount :
  length (read_answer_records p off ancount) <= ancount
  /\ forall r, r ∈ read_answer_records p off ancount -> rdata_start r + rdlen r <= length p.
Proof.
  revert off. induction ancount as [|ancount IH]; intros off; cbn [read_answer_records].
  { split; [done|]. by intros r ?%not_elem_of_nil. }
  repeat (case_match; [|split; [simpl; lia|by intros r ?%not_elem_of_nil]]).
  destruct (IH (n + 10 + N.to_nat (from_be (drop 8 l)))) as [Hl Hr]. split; [cbn [length]; lia|].
  intros r [->|Hin]%elem_of_cons; [|by apply Hr]. cbn.
  match goal with H : slice _ (_ + 10) _ = Some _ |- _ => apply slice_Some in H end. lia.
Qed.

(** C35. The readers of names and records end on every packet, a hostile one
    included: a chain of pointers or labels uses up its 32 jumps or 255 octets
    before the turns of a loop run out, the records read are at most as many as
    the header counts, and no record, nor the question, reaches past the end of
    the packet. *)
Theorem dns_names_total p off :
  is_Some (qname_loop name_turns p off [] 0) /\ is_Some (decode_loop name_turns p off 0 0 [])
  /\ is_Some (key_loop name_turns p off 0 []) /\ is_Some (skip_loop (S (length p)) p off)
  /\ (forall ancount, length (read_answer_records p off ancount) <= ancount
        /\ forall r, r ∈ read_answer_records p off ancount -> rdata_start r + rdlen r <= length p)
  /\ (forall q, parse_question p = Some q -> DNS_HEADER_LEN + 4 < question_end q <= length p).
Proof.
  split; [apply qname_loop_total; rewrite ?name_turns_eq; lia|].
  split; [apply decode_loop_total; rewrite ?name_turns_eq; lia|].
  split; [apply key_loop_total; rewrite ?name_turns_eq; simpl; lia|].
  split; [apply skip_loop_total; lia|].
  split; [intros ancount; apply read_answer_records_bounds|].
  intros q (_ & _ & after & Hn%name_read_bounds & -> & He & _)%parse_question_Some. lia.
Qed.

(** ** Messages over TCP: the frame *)

Lemma u16_be_eq n : u16_be n = [(n / 256) mod 256; n mod 256]%N.
Proof. reflexivity. Qed.

Lemma u16_be_from hi lo : (hi < 256)%N -> (lo < 256)%N -> u16_be (from_be [hi; lo]) = [hi; lo].
Proof.
  intros Hh Hl. change (from_be [hi; lo]) with ((0 * 256 + hi) * 256 + lo)%N.
  rewrite u16_be_eq.
  rewrite N.mul_0_l, N.add_0_l, N.div_add_l, N.div_small, N.add_0_r by lia.
  rewrite N.mod_small by done. f_equal. f_equal. rewrite N.add_comm, N.Div0.mod_add. by apply N.mod_small.
Qed.

Lemma read_exact_1 c s : read_exact 1 (c :: s) = Ok ([c], s).
Proof. done. Qed.

(** A message of 1 to 65535 octets written to a TCP stream is read back, and
    what follows it is left on the stream; a longer one is refused, not cut. A
    reader never takes a body of more than [max] octets, and what it takes is the
    frame of that body. *)
Theorem tcp_frame_roundtrip stream max :
  (forall m rest, m <> [] -> length m <= max ->
     match write_tcp_message m with
     | Ok framed => length m <= U16_MAX /\ read_tcp_message (framed ++ rest) max = Ok (Some m, rest)
     | Err e => e = MessageTooLong /\ U16_MAX < length m
     end)
  /\ (forall body rest, Forall (fun b => b < 256)%N stream ->
       read_tcp_message stream max = Ok (Some body, rest) ->
       0 < length body /\ length body <= max
       /\ exists framed, write_tcp_message body = Ok framed /\ stream = framed ++ rest).
Proof.
  unfold write_tcp_message, DNS_TCP_MAX_MESSAGE. split.
  - intros m rest Hm Hmax. destruct (Nat.ltb_spec U16_MAX (length m)) as [|Hl]; [done|]. split; [done|].
    assert (Hn : (N.of_nat (length m) < 65536)%N) by (pose proof U16_MAX_eq; lia).
    rewrite u16_be_eq. cbn [app]. unfold read_tcp_message.
    rewrite read_exact_1, <- u16_be_eq, from_be_u16, Nat2N.id by done. unfold DNS_TCP_MAX_MESSAGE.
    destruct m as [|b m]; [done|]. set (l := b :: m) in *.
    rewrite (proj2 (Nat.eqb_neq _ _)) by done. rewrite (proj2 (Nat.ltb_ge _ _)) by lia. cbn [orb]. unfold read_exact.
    rewrite length_app, (proj2 (Nat.ltb_ge _ _)) by lia. by rewrite take_app_length, drop_app_length.
  - intros body rest Hb. destruct stream as [|hi stream]; [done|]. unfold read_tcp_message.
    destruct stream as [|lo stream]; [done|]. rewrite read_exact_1. unfold read_exact.
    set (n := from_be [hi; lo]). destruct (Nat.eqb_spec (N.to_nat n) 0) as [|H0]; [done|].
    destruct (Nat.ltb_spec (Nat.min max DNS_TCP_MAX_MESSAGE) (N.to_nat n)) as [|Hmax]; [done|]. cbn [orb].
    destruct (Nat.ltb_spec (length stream) (N.to_nat n)) as [|Hlen]; [done|]. intros [= <- <-].
    unfold DNS_TCP_MAX_MESSAGE in Hmax. rewrite length_take_le by lia. split; [lia|]. split; [lia|].
    rewrite (proj2 (Nat.ltb_ge _ _)) by lia. eexists. split; [done|].
    rewrite N2Nat.id. apply Forall_cons in Hb as [Hh [Hlo _]%Forall_cons]. unfold n.
    rewrite u16_be_from by done. cbn [app]. by rewrite take_drop.
Qed.

(** ** Examples and witnesses *)

Definition sample_query : packet := default [] (build_address_query 4660 (u "Example.org.") QTYPE_A).

Definition sample_question : ParsedQuestion := mkQuestion (u "example.org") QTYPE_A 29.

Lemma sample_plain_query : plain_query sample_query sample_question 4.
Proof. split; [by vm_compute|exists 25; by vm_compute|done|done]. Qed.

Lemma question_key_agrees_witness :
  exists class, question_key sample_query = Some (u "example.org.", QTYPE_A, class).
Proof.
  destruct (question_key_agrees sample_query sample_question) as (class & H & _); [vm_compute; reflexivity|].
  exists class. exact H.
Defined.

Lemma resolver_answer_read_back_witness :
  exists resp, build_a_response sample_query [3221226219]%Z 300 = Some resp
    /\ parse_address_response 4660 (u "example.ORG") QTYPE_A resp = Answers [V4 3221226219] 300.
Proof.
  destruct (build_a_response sample_query [3221226219]%Z 300) as [resp|] eqn:E; [|vm_compute in E; discriminate E].
  exists resp. split; [reflexivity|].
  destruct (resolver_answer_read_back sample_query sample_question 4 (u "example.ORG") 300 sample_plain_query)
    as [H _]; [vm_compute; reflexivity|vm_compute; discriminate|].
  change 4660%N with (message_id sample_query).
  assert (HF : Forall (fun v => 0 <= v < 2 ^ 32)%Z [3221226219]%Z) by (apply Forall_singleton; lia).
  rewrite (H [3221226219]%Z resp eq_refl HF E).
  rewrite take_ge by (pose proof U16_MAX_eq; simpl; lia). reflexivity.
Defined.

Lemma query_and_refusals_witness :
  exists plain, build_error_response sample_query RCODE_SERVFAIL = Some plain
    /\ parse_address_response 4660 (u "Example.org.") QTYPE_A plain = AFailed RCODE_SERVFAIL.
Proof.
  destruct (query_and_refusals 4660 (u "Example.org.") QTYPE_A 4 sample_query RCODE_SERVFAIL 60)
    as (_ & _ & plain & cached & H1 & _ & H2 & _).
  - vm_compute. reflexivity.
  - reflexivity.
  - reflexivity.
  - repeat constructor.
  - reflexivity.
  - exists plain. split; [exact H1|exact H2].
Defined.

(** An answer with an alias, an address for its target and one for another name. *)
Definition sample_answer : packet :=
  response_prefix sample_query 29 0 3
  ++ [192; 12]%N ++ u16_be QTYPE_CNAME ++ [0; 1]%N ++ u32_be 60 ++ u16_be 8 ++ [1; 97; 4; 116; 101; 115; 116; 0]%N
  ++ [1; 65; 4; 116; 101; 115; 116; 0]%N ++ u16_be QTYPE_A ++ [0; 1]%N ++ u32_be 30 ++ u16_be 4 ++ [192; 0; 2; 1]%N
  ++ [1; 98; 4; 116; 101; 115; 116; 0]%N ++ u16_be QTYPE_A ++ [0; 1]%N ++ u32_be 30 ++ u16_be 4 ++ [192; 0; 2; 9]%N.


Lemma tcp_frame_roundtrip_witness :
  read_tcp_message ([0; 2; 7; 8] ++ [9])%N 512 = Ok (Some [7; 8]%N, [9]%N).
Proof.
  destruct (tcp_frame_roundtrip [] 512) as [H _].
  specialize (H [7; 8]%N [9]%N ltac:(discriminate) ltac:(simpl; lia)).
  destruct (write_tcp_message [7; 8]%N) as [framed|] eqn:E.
  - destruct H as [_ H]. rewrite <- H. f_equal. f_equal.
    unfold write_tcp_message in E. destruct (Nat.ltb_spec DNS_TCP_MAX_MESSAGE (length [7; 8]%N)); [discriminate E|].
    injection E as <-. reflexivity.
  - destruct H as [_ H]. pose proof U16_MAX_eq. simpl in H. lia.
Defined.

(** An empty message is written as a frame no reader accepts. *)
Example empty_message_unreadable :
  match write_tcp_message [] with Ok framed => read_tcp_message framed 512 | Err e => Err e end
    = Err LengthOutOfBounds.
Proof. reflexivity. Qed.

(** A name of 256 octets on the wire, one more than a name may have, is read. *)
Example name_of_256_octets_is_read :
  let label := 63%N :: replicate 63 97%N in
  let p := replicate 12 0%N ++ label ++ label ++ label ++ (62%N :: replicate 62 97%N) ++ [0%N] in
  (snd <$> parse_qname p 12) = Some (12 + 256).
Proof. vm_compute. reflexivity. Qed.
