(* ===== verification/Coalescer.v ===== *)
(** * One enforcement pass at a time

    core/services/service-runtime/src/recompute_coalescer.rs: callers of the
    recompute hook share passes. Threads are the indices of a list; what a thread
    does while it holds the lock is one step, and a step is any order of them the
    mutex and the condition variable allow. Between the end of a pass and
    [notify_all] the lock is free, so they are two steps; a wait may also end by
    itself. Request numbers are [nat]: a [u64] counter does not run out. *)

From stdpp Require Import base numbers list relations.
From S2P Require Import Prelude.

Open Scope nat_scope.

(** ** The shared state *)

Record State : Set := mkState { requested : nat; completed : nat; running : bool }.

Definition new_state : State := mkState 0 0 false.

(** [state.requested += 1; let mine = state.requested]. *)
Definition enter (s : State) : State * nat :=
  (mkState (S (requested s)) (completed s) (running s), S (requested s)).

Inductive Turn : Set := Return | RunPass (covers : nat) | Wait.

(** One turn of the loop of [call], under the lock. *)
Definition turn (s : State) (mine : nat) : State * Turn :=
  if mine <=? completed s then (s, Return)
  else if negb (running s) then (mkState (requested s) (completed s) true, RunPass (requested s))
  else (s, Wait).

(** [PassGuard::drop] up to the notification. *)
Definition guard_drop (s : State) (covers : nat) (finished : bool) : State :=
  mkState (requested s) (if finished then Nat.max (completed s) covers else completed s) false.

(** ** Threads *)

(** Where a thread is: outside, before a turn, waiting on the condition
    variable, in a pass, or before [notify_all] after a pass that finished or
    panicked. *)
Inductive Pc : Set :=
  | Outside
  | AtTurn (mine : nat)
  | Asleep (mine : nat)
  | InPass (mine covers : nat)
  | Notifying (mine : nat) (finished : bool).

(** What happens, in order: calls, starts and ends of passes, returns. *)
Inductive Event : Set := ECall (t : nat) | EStart (t : nat) | EFinish (t : nat) | EReturn (t : nat).

Record Sys : Set := mkSys { shared : State; threads : list Pc; log : list Event }.

Definition start (n : nat) : Sys := mkSys new_state (replicate n Outside) [].

(** The thread [t] takes a turn for the request [mine]. *)
Definition take_turn (s : State) (ts : list Pc) (l : list Event) (t mine : nat) : Sys :=
  match turn s mine with
  | (s', Return) => mkSys s' (<[t := Outside]> ts) (l ++ [EReturn t])
  | (s', RunPass covers) => mkSys s' (<[t := InPass mine covers]> ts) (l ++ [EStart t])
  | (s', Wait) => mkSys s' (<[t := Asleep mine]> ts) l
  end.

(** [notify_all]. *)
Definition wake (p : Pc) : Pc := match p with Asleep mine => AtTurn mine | _ => p end.

(** The steps of calls that are under way. *)
Inductive own_step : Sys -> Sys -> Prop :=
  | step_turn s ts l t mine :
      ts !! t = Some (AtTurn mine) -> own_step (mkSys s ts l) (take_turn s ts l t mine)
  | step_finish s ts l t mine covers :
      ts !! t = Some (InPass mine covers) ->
      own_step (mkSys s ts l)
        (mkSys (guard_drop s covers true) (<[t := Notifying mine true]> ts) (l ++ [EFinish t]))
  | step_panic s ts l t mine covers :
      ts !! t = Some (InPass mine covers) ->
      own_step (mkSys s ts l) (mkSys (guard_drop s covers false) (<[t := Notifying mine false]> ts) l)
  | step_notify s ts l t mine finished :
      ts !! t = Some (Notifying mine finished) ->
      own_step (mkSys s ts l)
        (mkSys s (wake <$> (<[t := if finished then AtTurn mine else Outside]> ts)) l).

(** All steps: those, new calls, and waits that end by themselves. *)
Inductive step : Sys -> Sys -> Prop :=
  | step_own a b : own_step a b -> step a b
  | step_call s ts l t s' mine :
      ts !! t = Some Outside -> enter s = (s', mine) ->
      step (mkSys s ts l) (take_turn s' ts (l ++ [ECall t]) t mine)
  | step_spurious s ts l t mine :
      ts !! t = Some (Asleep mine) -> step (mkSys s ts l) (mkSys s (<[t := AtTurn mine]> ts) l).

Inductive reachable (n : nat) : Sys -> Prop :=
  | reach_start : reachable n (start n)
  | reach_step a b : reachable n a -> step a b -> reachable n b.

(** ** The invariant *)

(** The calls in a log. *)
Definition is_call (e : Event) : bool := match e with ECall _ => true | _ => false end.
Definition ncalls (l : list Event) : nat := length (List.filter is_call l).
#[global] Arguments ncalls : simpl never.

(** The request a thread has under way. *)
Definition mine_of (p : Pc) : option nat :=
  match p with
  | Outside => None
  | AtTurn m | Asleep m | InPass m _ | Notifying m _ => Some m
  end.

(** The thread's last call is the [m]-th of the log. *)
Definition called (l : list Event) (t m : nat) : Prop :=
  exists a b, l = a ++ (ECall t :: b) /\ (ECall t ∉ b) /\ S (ncalls a) = m.

(** A pass of the thread runs, started when there were [c] calls. *)
Definition pass_open (l : list Event) (t c : nat) : Prop :=
  exists a b, l = a ++ (EStart t :: b) /\ ncalls a = c.

(** A pass started when there were [c] calls, and finished. *)
Definition pass_done (l : list Event) (c : nat) : Prop :=
  exists a s b d, l = a ++ (EStart s :: b ++ (EFinish s :: d)) /\ ncalls a = c.

Record inv (y : Sys) : Prop := {
  i_requested : requested (shared y) = ncalls (log y);
  i_called t p m : threads y !! t = Some p -> mine_of p = Some m -> called (log y) t m /\ m <= requested (shared y);
  i_running t m c : threads y !! t = Some (InPass m c) -> running (shared y) = true;
  i_runner : running (shared y) = true -> exists t m c, threads y !! t = Some (InPass m c);
  i_one t t' m m' c c' :
    threads y !! t = Some (InPass m c) -> threads y !! t' = Some (InPass m' c') -> t = t';
  i_pass t m c : threads y !! t = Some (InPass m c) ->
    pass_open (log y) t c /\ completed (shared y) < c /\ c <= requested (shared y);
  i_done : completed (shared y) = 0 \/ pass_done (log y) (completed (shared y));
  i_asleep t m : threads y !! t = Some (Asleep m) ->
    running (shared y) = true \/ exists t' m' f, threads y !! t' = Some (Notifying m' f);
}.

(** ** Logs *)

Lemma ncalls_app l k : ncalls (l ++ k) = ncalls l + ncalls k.
Proof. unfold ncalls. by rewrite List.filter_app, length_app. Qed.

Lemma called_snoc l t m e : called l t m -> e <> ECall t -> called (l ++ [e]) t m.
Proof.
  intros (a & b & -> & Hb & Hm) He. exists a, (b ++ [e]). rewrite <- app_assoc. split; [done|]. split; [|done].
  intros [?|?%list_elem_of_singleton]%elem_of_app; [done|]. congruence.
Qed.

Lemma called_other l t m e : called l t m -> is_call e = false -> called (l ++ [e]) t m.
Proof. intros H He. apply called_snoc; [done|]. by intros ->. Qed.

Lemma called_new l t : called (l ++ [ECall t]) t (S (ncalls l)).
Proof. exists l, []. split; [done|]. split; [apply not_elem_of_nil|done]. Qed.

Lemma pass_open_snoc l t c e : pass_open l t c -> pass_open (l ++ [e]) t c.
Proof. intros (a & b & -> & Hc). exists a, (b ++ [e]). by rewrite <- app_assoc. Qed.

Lemma pass_done_snoc l c e : pass_done l c -> pass_done (l ++ [e]) c.
Proof.
  intros (a & s & b & d & -> & Hc). exists a, s, b, (d ++ [e]). split; [|done].
  rewrite <- app_assoc. cbn [app]. by rewrite <- app_assoc.
Qed.

Lemma pass_done_new l t c : pass_open l t c -> pass_done (l ++ [EFinish t]) c.
Proof.
  intros (a & b & -> & Hc). exists a, t, b, []. split; [|done]. by rewrite <- app_assoc.
Qed.

(** ** Every step keeps the invariant *)

(** Splits a lookup in a list one thread of which was changed. *)
Ltac thread_cases :=
  repeat match goal with
  | H : <[_ := _]> _ !! _ = Some _ |- _ =>
      apply list_lookup_insert_Some in H as [(? & ? & _)|[? ?]]
  end; simplify_eq/=.

#[local] Hint Extern 2 (called (_ ++ [_]) _ _) => apply called_other; [|reflexivity] : nrr.
#[local] Hint Resolve pass_open_snoc pass_done_snoc : nrr.

Lemma inv_turn s ts l t mine :
  inv (mkSys s ts l) -> ts !! t = Some (AtTurn mine) -> inv (take_turn s ts l t mine).
Proof.
  intros [Hreq Hcal Hrun Hrunner Hone Hpass Hdone Hsleep] Ht; cbn in *. unfold take_turn, turn.
  assert (Hlt : t < length ts) by by eapply lookup_lt_Some.
  destruct (Nat.leb_spec mine (completed s)); [|destruct (running s) eqn:Er]; cbn [negb].
  - split; cbn; try done.
    + by rewrite ncalls_app, Nat.add_0_r.
    + intros t' p m Hp Hm. thread_cases. destruct (Hcal t' p m) as [? ?]; eauto with nrr.
    + intros t' m c Hp. thread_cases. eauto.
    + intros Hr. destruct (Hrunner Hr) as (t' & m & c & Hp). exists t', m, c.
      rewrite list_lookup_insert_ne by congruence. done.
    + intros t1 t2 m1 m2 c1 c2 H1 H2. thread_cases. eauto.
    + intros t' m c Hp. thread_cases. destruct (Hpass t' m c) as (? & ? & ?); eauto with nrr.
    + destruct Hdone; eauto with nrr.
    + intros t' m Hp. thread_cases. destruct (Hsleep t' m) as [?|(t1 & m1 & f & Hn)]; [done|by left|].
      right. exists t1, m1, f. rewrite list_lookup_insert_ne by congruence. done.
  - split; cbn; try done.
    + intros t' p m Hp Hm. thread_cases; eauto.
    + intros _. destruct (Hrunner eq_refl) as (t' & m & c & Hp). exists t', m, c.
      rewrite list_lookup_insert_ne by congruence. done.
    + intros t1 t2 m1 m2 c1 c2 H1 H2. thread_cases. eauto.
    + intros t' m c Hp. thread_cases. eauto.
    + eauto.
  - split; cbn; try done.
    + by rewrite ncalls_app, Nat.add_0_r.
    + intros t' p m Hp Hm. thread_cases.
      * destruct (Hcal t' (AtTurn m) m) as [? ?]; eauto with nrr.
      * destruct (Hcal t' p m) as [? ?]; eauto with nrr.
    + intros _. exists t, mine, (requested s). by apply list_lookup_insert_eq.
    + intros t1 t2 m1 m2 c1 c2 H1 H2. thread_cases; try done;
        match goal with H : _ !! _ = Some (InPass _ _) |- _ => apply Hrun in H; congruence end.
    + intros t' m c Hp. thread_cases.
      * split; [by exists l, []|]. destruct (Hcal t' (AtTurn m) m) as [_ ?]; [done..|]. lia.
      * match goal with H : _ !! _ = Some (InPass _ _) |- _ => apply Hrun in H; congruence end.
    + destruct Hdone; eauto with nrr.
    + eauto.
Qed.

Lemma inv_enter s ts l t s' mine :
  inv (mkSys s ts l) -> ts !! t = Some Outside -> enter s = (s', mine) ->
  inv (mkSys s' (<[t := AtTurn mine]> ts) (l ++ [ECall t])).
Proof.
  intros [Hreq Hcal Hrun Hrunner Hone Hpass Hdone Hsleep] Ht [= <- <-]; cbn in *.
  split; cbn.
  - rewrite ncalls_app, Hreq. change (ncalls [ECall t]) with 1. lia.
  - intros t' p m Hp Hm. thread_cases; [split; [rewrite Hreq; apply called_new|lia]|].
    destruct (Hcal t' p m) as [? ?]; [done..|]. split; [|lia]. apply called_snoc; congruence.
  - intros t' m c Hp. thread_cases. eauto.
  - intros Hr. destruct (Hrunner Hr) as (t' & m & c & Hp). exists t', m, c.
    rewrite list_lookup_insert_ne by congruence. done.
  - intros t1 t2 m1 m2 c1 c2 H1 H2. thread_cases. eauto.
  - intros t' m c Hp. thread_cases. destruct (Hpass t' m c) as (? & ? & ?); [done|]. split; [eauto with nrr|lia].
  - destruct Hdone; eauto with nrr.
  - intros t' m Hp. thread_cases. destruct (Hsleep t' m) as [?|(t1 & m1 & f & Hn)]; [done|by left|].
    right. exists t1, m1, f. rewrite list_lookup_insert_ne by congruence. done.
Qed.

(** The end of a pass, with or without a panic. *)
Lemma inv_guard_drop s ts l t mine covers finished :
  inv (mkSys s ts l) -> ts !! t = Some (InPass mine covers) ->
  inv (mkSys (guard_drop s covers finished) (<[t := Notifying mine finished]> ts)
         (l ++ (if finished then [EFinish t] else []))).
Proof.
  intros [Hreq Hcal Hrun Hrunner Hone Hpass Hdone Hsleep] Ht; cbn in *.
  assert (Hlt : t < length ts) by by eapply lookup_lt_Some.
  destruct (Hpass t mine covers Ht) as (Hopen & Hlow & Hhigh).
  assert (Hno : forall t' m c, <[t := Notifying mine finished]> ts !! t' = Some (InPass m c) -> False).
  { intros t' m c Hp. thread_cases. by destruct (Hone t t' mine m covers c). }
  split; cbn.
  - by destruct finished; rewrite ncalls_app, Nat.add_0_r.
  - intros t' p m Hp Hm.
    assert (called l t' m /\ m <= requested s) as [? ?] by (thread_cases; eauto).
    destruct finished; [by eauto with nrr|by rewrite app_nil_r].
  - intros t' m c []%Hno.
  - done.
  - intros t1 t2 m1 m2 c1 c2 []%Hno.
  - intros t' m c []%Hno.
  - destruct finished.
    + right. rewrite Nat.max_r by lia. by apply pass_done_new.
    + by rewrite app_nil_r.
  - intros t' m Hp. right. exists t, mine, finished. by apply list_lookup_insert_eq.
Qed.

Lemma wake_lookup (ts : list Pc) t p :
  (wake <$> ts) !! t = Some p -> exists p0, ts !! t = Some p0 /\ p = wake p0.
Proof. rewrite list_lookup_fmap, fmap_Some. naive_solver. Qed.

Lemma inv_notify s ts l t mine (finished : bool) :
  inv (mkSys s ts l) -> ts !! t = Some (Notifying mine finished) ->
  inv (mkSys s (wake <$> (<[t := if finished then AtTurn mine else Outside]> ts)) l).
Proof.
  intros [Hreq Hcal Hrun Hrunner Hone Hpass Hdone Hsleep] Ht; cbn in *.
  assert (Hin : forall t' m c, (wake <$> (<[t := if finished then AtTurn mine else Outside]> ts)) !! t' = Some (InPass m c) ->
            ts !! t' = Some (InPass m c)).
  { intros t' m c (p0 & Hp & E)%wake_lookup. destruct p0; simplify_eq/=. thread_cases; [by destruct finished|done]. }
  split; cbn; try done.
  - intros t' p m (p0 & Hp & ->)%wake_lookup Hm. thread_cases.
    + destruct finished; simplify_eq/=. eauto.
    + eapply Hcal; [done|]. by destruct p0.
  - intros t' m c Hp%Hin. eauto.
  - intros Hr. destruct (Hrunner Hr) as (t' & m & c & Hp). exists t', m, c.
    rewrite list_lookup_fmap, list_lookup_insert_ne by congruence. by rewrite Hp.
  - intros t1 t2 m1 m2 c1 c2 H1%Hin H2%Hin. eauto.
  - intros t' m c Hp%Hin. eauto.
  - intros t' m (p0 & Hp & E)%wake_lookup. by destruct p0.
Qed.

Lemma inv_spurious s ts l t mine :
  inv (mkSys s ts l) -> ts !! t = Some (Asleep mine) -> inv (mkSys s (<[t := AtTurn mine]> ts) l).
Proof.
  intros [Hreq Hcal Hrun Hrunner Hone Hpass Hdone Hsleep] Ht; cbn in *. split; cbn; try done.
  - intros t' p m Hp Hm. thread_cases; eauto.
  - intros t' m c Hp. thread_cases. eauto.
  - intros Hr. destruct (Hrunner Hr) as (t' & m & c & Hp). exists t', m, c.
    rewrite list_lookup_insert_ne by congruence. done.
  - intros t1 t2 m1 m2 c1 c2 H1 H2. thread_cases. eauto.
  - intros t' m c Hp. thread_cases. eauto.
  - intros t' m Hp. thread_cases. destruct (Hsleep t' m) as [?|(t1 & m1 & f & Hn)]; [done|by left|].
    right. exists t1, m1, f. rewrite list_lookup_insert_ne by congruence. done.
Qed.

Lemma take_turn_insert s ts l t mine p :
  take_turn s (<[t := p]> ts) l t mine = take_turn s ts l t mine.
Proof. unfold take_turn. destruct (turn s mine) as [s' []]; by rewrite list_insert_insert_eq. Qed.

Lemma inv_step a b : inv a -> step a b -> inv b.
Proof.
  intros Ha H. destruct H as [a b H|s ts l t s' mine Ht He|s ts l t mine Ht].
  - destruct H.
    + by apply inv_turn.
    + by apply (inv_guard_drop s ts l t mine covers true).
    + rewrite <- (app_nil_r l). by apply (inv_guard_drop s ts l t mine covers false).
    + by apply inv_notify.
  - rewrite <- (take_turn_insert _ _ _ _ _ (AtTurn mine)). apply inv_turn; [by eapply inv_enter|].
    apply list_lookup_insert_eq. by eapply lookup_lt_Some.
  - by apply inv_spurious.
Qed.

Lemma inv_start n : inv (start n).
Proof.
  assert (Hout : forall t p, replicate n Outside !! t = Some p -> p = Outside) by (by intros t p []%lookup_replicate).
  split; cbn; try done; try (intros; match goal with H : _ !! _ = Some _ |- _ => apply Hout in H; simplify_eq/= end).
  by left.
Qed.

Lemma inv_reachable n y : reachable n y -> inv y.
Proof. induction 1; [apply inv_start|by eapply inv_step]. Qed.

(** ** What a caller may rely on *)

(** In the log, after the last call of [t] a pass has started and then finished. *)
Definition covered (l : list Event) (t : nat) : Prop :=
  exists a b s c d, l = a ++ (ECall t :: b ++ (EStart s :: c ++ (EFinish s :: d)))
    /\ ECall t ∉ b ++ (EStart s :: c ++ (EFinish s :: d)).

(** Of two splits of a list, the one with more calls before it comes later. *)
Lemma split_later (a b a' b' : list Event) t :
  a ++ (ECall t :: b) = a' ++ b' -> S (ncalls a) <= ncalls a' -> exists k, a' = a ++ (ECall t :: k) /\ b = k ++ b'.
Proof.
  intros E Hn. change (ECall t :: b) with ([ECall t] ++ b) in E. rewrite app_assoc in E.
  apply app_eq_inv in E as [(k & E1 & ->)|(k & -> & ->)].
  - destruct k as [|e k]; [rewrite app_nil_r in E1|].
    + exists []. by rewrite <- E1.
    + exfalso. destruct (exists_last (l := e :: k)) as (k' & e' & Ek); [done|]. rewrite Ek, app_assoc in E1.
      apply app_inj_tail in E1 as [-> _]. rewrite ncalls_app in Hn. lia.
  - exists k. by rewrite <- app_assoc.
Qed.

Lemma turn_covered s ts l t mine :
  inv (mkSys s ts l) -> ts !! t = Some (AtTurn mine) -> mine <= completed s -> covered l t.
Proof.
  intros [_ Hcal _ _ _ _ Hdone _] Ht Hle. cbn in *.
  destruct (Hcal t _ mine Ht eq_refl) as [(a & b & E & Hb & Hm) _].
  destruct Hdone as [Hz|(a' & r & c & d & E' & Hc)]; [lia|]. rewrite E in E'.
  apply split_later in E' as (k & -> & ->); [|lia]. exists a, k, r, c, d. done.
Qed.

Lemma turn_log s ts l t mine :
  inv (mkSys s ts l) -> ts !! t = Some (AtTurn mine) ->
  (forall l1 u l2, l = l1 ++ (EReturn u :: l2) -> covered l1 u) ->
  forall l1 u l2, log (take_turn s ts l t mine) = l1 ++ (EReturn u :: l2) -> covered l1 u.
Proof.
  intros Hi Ht Hl l1 u l2. unfold take_turn, turn.
  assert (Hsnoc : forall e, (e = EReturn t -> covered l t) -> (forall v, e = EReturn v -> v = t) ->
            l ++ [e] = l1 ++ (EReturn u :: l2) -> covered l1 u).
  { intros e He Hv E. destruct (exists_last (l := EReturn u :: l2)) as (k & e' & Ek); [done|].
    rewrite Ek, app_assoc in E. apply app_inj_tail in E as [E <-].
    destruct k as [|e0 k]; simplify_eq/=; [|by eapply Hl].
    rewrite app_nil_r in *. destruct (Hv u eq_refl). by apply He. }
  destruct (Nat.leb_spec mine (completed s)) as [Hle|]; [|destruct (negb _)]; cbn.
  - apply Hsnoc; [|congruence]. intros _. by eapply turn_covered.
  - by apply Hsnoc.
  - apply Hl.
Qed.

Lemma returns_covered n y :
  reachable n y -> forall l1 t l2, log y = l1 ++ (EReturn t :: l2) -> covered l1 t.
Proof.
  assert (Hsnoc : forall l e l1 t l2, (forall v, e <> EReturn v) ->
            (forall l1 u l2, l = l1 ++ (EReturn u :: l2) -> covered l1 u) ->
            l ++ [e] = l1 ++ (EReturn t :: l2) -> covered l1 t).
  { intros l e l1 t l2 He Hl E. destruct (exists_last (l := EReturn t :: l2)) as (k & e' & Ek); [done|].
    rewrite Ek, app_assoc in E. apply app_inj_tail in E as [E <-].
    destruct k as [|e0 k]; simplify_eq/=; [by destruct (He t)|by eapply Hl]. }
  induction 1 as [|a b Ha IH H].
  { intros [] ? ?; done. }
  apply inv_reachable in Ha. destruct H as [a b H|s ts l t s' mine Ht He|s ts l t mine Ht]; cbn in IH.
  - destruct H; cbn in *; try done.
    + by apply turn_log.
    + intros l1 u l2. by apply Hsnoc.
  - rewrite <- (take_turn_insert _ _ _ _ _ (AtTurn mine)). apply turn_log; [by eapply inv_enter| |].
    + apply list_lookup_insert_eq. by eapply lookup_lt_Some.
    + intros l1 u l2. by apply Hsnoc.
  - done.
Qed.

(** C36. The contract of the coalesced hook, for any number of threads and any
    interleaving, panicking passes and spurious wake-ups included: two passes
    never run at the same time, and whenever a call returns, a pass has started
    after that call and has finished without a panic before the return. So what a
    caller recorded before it called is enforced when the call is over. *)
Theorem coalesce_contract n y :
  reachable n y ->
  (forall t t' m m' c c', threads y !! t = Some (InPass m c) -> threads y !! t' = Some (InPass m' c') -> t = t')
  /\ (forall l1 t l2, log y = l1 ++ (EReturn t :: l2) -> covered l1 t).
Proof.
  intros H. split; [apply (i_one _ (inv_reachable n y H))|by apply (returns_covered n)].
Qed.

(** ** No caller is stranded *)

Definition inside (p : Pc) : nat := match p with Outside => 0 | _ => 1 end.
Definition notes (p : Pc) : nat := match p with Notifying _ true => 1 | _ => 0 end.
Definition effort (p : Pc) : nat := match p with AtTurn _ => 3 | InPass _ _ => 2 | Asleep _ => 1 | _ => 0 end.

(** A pass that does not cover the last request. *)
Definition behind (r : nat) (p : Pc) : bool := match p with InPass _ c => c <? r | _ => false end.

(** The passes that must still end. *)
Definition rounds (s : State) (ts : list Pc) : nat :=
  if requested s <=? completed s then 0 else if existsb (behind (requested s)) ts then 2 else 1.

Definition stage (s : State) (ts : list Pc) : nat :=
  sum_list_with inside ts + 2 * rounds s ts + sum_list_with notes ts.

(** A bound on the steps until all calls under way are over. *)
Definition bound (y : Sys) : nat :=
  (3 * length (threads y) + 1) * stage (shared y) (threads y) + sum_list_with effort (threads y).

Lemma sum_insert (f : Pc -> nat) ts t p q :
  ts !! t = Some q -> sum_list_with f (<[t := p]> ts) + f q = sum_list_with f ts + f p.
Proof.
  revert t. induction ts as [|r ts IH]; intros [|t] H; simplify_eq/=; [lia|]. apply IH in H. lia.
Qed.

Lemma sum_wake (f : Pc -> nat) ts : (forall p, f (wake p) = f p) -> sum_list_with f (wake <$> ts) = sum_list_with f ts.
Proof. intros H. induction ts as [|p ts IH]; [done|]. cbn. by rewrite H, IH. Qed.

Lemma effort_bound ts : sum_list_with effort ts <= 3 * length ts.
Proof. induction ts as [|p ts IH]; [done|]. cbn. destruct p; cbn; lia. Qed.

Lemma behind_insert r ts t p q :
  ts !! t = Some q -> behind r q = false -> behind r p = false ->
  existsb (behind r) (<[t := p]> ts) = existsb (behind r) ts.
Proof.
  intros H Hq Hp. revert t H. induction ts as [|x ts IH]; intros [|t] H; simplify_eq/=; [by rewrite Hp, Hq|].
  by rewrite (IH t H).
Qed.

Lemma behind_wake r ts : existsb (behind r) (wake <$> ts) = existsb (behind r) ts.
Proof. induction ts as [|p ts IH]; [done|]. cbn. rewrite IH. by destruct p. Qed.

Lemma behind_none r ts :
  (forall t m c, ts !! t = Some (InPass m c) -> c = r) -> existsb (behind r) ts = false.
Proof.
  intros H. apply existsb_false. intros p [t Hp]%list_elem_of_lookup. destruct p; try done. cbn.
  rewrite (H _ _ _ Hp). apply Nat.ltb_irrefl.
Qed.

Lemma behind_some r ts t m c : ts !! t = Some (InPass m c) -> c < r -> existsb (behind r) ts = true.
Proof.
  intros Hp Hc. apply existsb_elem. exists (InPass m c). split; [by eapply list_elem_of_lookup_2|].
  by apply Nat.ltb_lt.
Qed.

(** When a pass ends, no other runs; it leaves one round less. *)
Lemma rounds_drop s ts l t mine covers finished :
  inv (mkSys s ts l) -> ts !! t = Some (InPass mine covers) ->
  rounds (guard_drop s covers finished) (<[t := Notifying mine finished]> ts) + (if finished then 1 else 0)
    <= rounds s ts.
Proof.
  intros Hi Ht. destruct (i_pass _ Hi t mine covers Ht) as (_ & Hlow & Hhigh). cbn in *.
  pose proof (i_one _ Hi) as Hone. cbn in Hone. unfold rounds, guard_drop. cbn.
  rewrite (proj2 (Nat.leb_gt (requested s) (completed s))) by lia.
  rewrite (behind_none _ (<[t := Notifying mine finished]> ts)).
  2: { intros t' m c Hp. thread_cases. by destruct (Hone t t' mine m covers c). }
  destruct (Nat.lt_ge_cases covers (requested s)) as [Hc|Hc].
  - rewrite (behind_some _ _ _ _ _ Ht Hc). destruct finished; repeat case_match; lia.
  - destruct finished; [|repeat case_match; lia].
    rewrite (proj2 (Nat.leb_le _ _)) by lia. case_match; lia.
Qed.

Lemma own_step_bound y y' : inv y -> own_step y y' -> bound y' < bound y.
Proof.
  assert (Hlex : forall s ts s' ts', length ts' = length ts ->
            stage s' ts' < stage s ts \/ stage s' ts' = stage s ts /\ sum_list_with effort ts' < sum_list_with effort ts ->
            forall l l', bound (mkSys s' ts' l') < bound (mkSys s ts l)).
  { intros s ts s' ts' Hlen H l l'. unfold bound. cbn [shared threads]. pose proof (effort_bound ts') as He.
    rewrite Hlen in *. set (k := 3 * length ts) in *. destruct H as [H|[-> H]]; [|lia].
    assert ((k + 1) * S (stage s' ts') <= (k + 1) * stage s ts) by (apply Nat.mul_le_mono_l; lia). lia. }
  intros Hi H. destruct H as [s ts l t mine Ht|s ts l t mine covers Ht|s ts l t mine covers Ht|s ts l t mine finished Ht].
  - unfold take_turn, turn. destruct (i_called _ Hi t _ mine Ht eq_refl) as [_ Hm]. cbn in Hm.
    destruct (Nat.leb_spec mine (completed s)) as [|Hc]; [|destruct (running s) eqn:Er]; cbn [negb];
      apply Hlex; try by rewrite length_insert.
    + left. unfold stage, rounds. rewrite (behind_insert _ _ _ _ _ Ht) by done.
      pose proof (sum_insert inside _ _ Outside _ Ht). pose proof (sum_insert notes _ _ Outside _ Ht). cbn in *. lia.
    + right. unfold stage, rounds. rewrite (behind_insert _ _ _ _ _ Ht) by done.
      pose proof (sum_insert inside _ _ (Asleep mine) _ Ht). pose proof (sum_insert notes _ _ (Asleep mine) _ Ht).
      pose proof (sum_insert effort _ _ (Asleep mine) _ Ht). cbn in *. lia.
    + right. unfold stage, rounds. cbn [requested completed].
      rewrite (behind_insert _ _ _ _ _ Ht) by (try done; apply Nat.ltb_irrefl).
      set (p := InPass mine (requested s)).
      pose proof (sum_insert inside _ _ p _ Ht). pose proof (sum_insert notes _ _ p _ Ht).
      pose proof (sum_insert effort _ _ p _ Ht). cbn in *. lia.
  - apply Hlex; [by rewrite length_insert|]. left. pose proof (rounds_drop s ts l t mine covers true Hi Ht).
    set (p := Notifying mine true) in *. unfold stage.
    pose proof (sum_insert inside _ _ p _ Ht). pose proof (sum_insert notes _ _ p _ Ht). cbn in *. lia.
  - apply Hlex; [by rewrite length_insert|]. pose proof (rounds_drop s ts l t mine covers false Hi Ht).
    set (p := Notifying mine false) in *. unfold stage.
    pose proof (sum_insert inside _ _ p _ Ht). pose proof (sum_insert notes _ _ p _ Ht).
    pose proof (sum_insert effort _ _ p _ Ht). cbn in *. lia.
  - apply Hlex; [by rewrite length_fmap, length_insert|]. left. unfold stage, rounds.
    rewrite behind_wake, (behind_insert _ _ _ _ _ Ht) by by destruct finished.
    rewrite !sum_wake by by intros [].
    set (p := if finished then AtTurn mine else Outside).
    pose proof (sum_insert inside _ _ p _ Ht). pose proof (sum_insert notes _ _ p _ Ht). destruct finished; cbn in *; lia.
Qed.

Lemma own_step_enabled y t p :
  inv y -> threads y !! t = Some p -> p <> Outside -> exists y', own_step y y'.
Proof.
  intros Hi Hp Hne. destruct y as [s ts l]. cbn in Hp.
  assert (Hpass : forall u m c, ts !! u = Some (InPass m c) -> exists y', own_step (mkSys s ts l) y')
    by (intros; eexists; by eapply step_finish).
  destruct p as [|m|m|m c|m f]; [done| | |by eapply Hpass|].
  - eexists. by eapply step_turn.
  - destruct (i_asleep _ Hi t m Hp) as [Hr|(u & m' & f & Hu)].
    + destruct (i_runner _ Hi Hr) as (u & m' & c & Hu). by eapply Hpass.
    + eexists. by eapply step_notify.
  - eexists. by eapply step_notify.
Qed.

Lemma reachable_own n y y' k : reachable n y -> nsteps own_step k y y' -> reachable n y'.
Proof. intros H Hk. induction Hk; [done|]. apply IHHk. eapply reach_step; [done|by constructor]. Qed.

(** C37. No caller is stranded: from every reachable state, once no new call comes
    in, the calls under way are over after at most [bound] steps, whatever their
    order and whichever passes panic, because as long as one of them is not, some
    thread can go on. A caller asleep on the condition variable is woken by the
    pass it waits for, also when that pass panics. *)
Theorem callers_come_back n y k y' :
  reachable n y -> nsteps own_step k y y' ->
  k + bound y' <= bound y
  /\ ((exists y'', own_step y' y'') \/ Forall (fun p => p = Outside) (threads y')).
Proof.
  intros Hr Hk. split.
  - revert Hr. induction Hk as [y|k y1 y2 y3 Hs Hk IH]; intros Hr; [lia|].
    pose proof (own_step_bound _ _ (inv_reachable n y1 Hr) Hs).
    specialize (IH ltac:(eapply reach_step; [done|by constructor])). lia.
  - pose proof (inv_reachable n y' (reachable_own n y y' k Hr Hk)) as Hi.
    destruct (decide (Forall (fun p => inside p = 0) (threads y'))) as [Ha|Ha].
    + right. eapply Forall_impl; [exact Ha|]. by intros [].
    + left. apply not_Forall_Exists in Ha; [|apply _]. apply Exists_exists in Ha as (p & Hin & Hne).
      apply list_elem_of_lookup in Hin as [t Ht]. eapply own_step_enabled; [done..|]. intros ->. by apply Hne.
Qed.

(** ** Witnesses *)

(** Two callers: the first runs a pass, the second calls meanwhile and waits. *)
Definition two_callers : Sys :=
  mkSys (mkState 2 0 true) [InPass 1 1; Asleep 2] [ECall 0; EStart 0; ECall 1].

Lemma two_callers_reachable : reachable 2 two_callers.
Proof.
  assert (H : reachable 2 (mkSys (mkState 1 0 true) [InPass 1 1; Outside] [ECall 0; EStart 0])).
  { eapply reach_step; [apply reach_start|].
    exact (step_call new_state [Outside; Outside] [] 0 (mkState 1 0 false) 1 eq_refl eq_refl). }
  eapply reach_step; [exact H|].
  exact (step_call (mkState 1 0 true) [InPass 1 1; Outside] [ECall 0; EStart 0] 1 (mkState 2 0 true) 2 eq_refl eq_refl).
Qed.

(** The pass of the first ends; the second caller, woken, must run its own. *)
Definition second_pass : Sys :=
  mkSys (mkState 2 1 true) [AtTurn 1; InPass 2 2] [ECall 0; EStart 0; ECall 1; EFinish 0; EStart 1].

Lemma two_callers_go_on : nsteps own_step 3 two_callers second_pass.
Proof.
  eapply nsteps_l; [apply (step_finish _ _ _ 0 1 1); reflexivity|].
  eapply nsteps_l; [apply (step_notify _ _ _ 0 1 true); reflexivity|].
  eapply nsteps_l; [apply (step_turn _ _ _ 1 2); reflexivity|]. apply nsteps_O.
Qed.

(** The first caller is back after its pass. *)
Definition first_back : Sys :=
  mkSys (mkState 2 1 true) [Outside; InPass 2 2] [ECall 0; EStart 0; ECall 1; EFinish 0; EStart 1; EReturn 0].

Lemma first_back_reachable : reachable 2 first_back.
Proof.
  eapply reach_step; [eapply reachable_own; [apply two_callers_reachable|apply two_callers_go_on]|].
  apply step_own. exact (step_turn (mkState 2 1 true) [AtTurn 1; InPass 2 2] (log second_pass) 0 1 eq_refl).
Qed.

Lemma coalesce_contract_witness : covered [ECall 0; EStart 0; ECall 1; EFinish 0; EStart 1] 0.
Proof.
  destruct (coalesce_contract 2 first_back first_back_reachable) as [_ H].
  apply (H [ECall 0; EStart 0; ECall 1; EFinish 0; EStart 1] 0 []). reflexivity.
Defined.

Lemma callers_come_back_witness :
  3 + bound second_pass <= bound two_callers
  /\ ((exists y'', own_step second_pass y'') \/ Forall (fun p => p = Outside) (threads second_pass)).
Proof. exact (callers_come_back 2 two_callers 3 second_pass two_callers_reachable two_callers_go_on). Defined.
