(* ===== verification/LinkLiveness.v ===== *)
(** * Is the secondary link alive?

    core/services/service-runtime/src/secondary_liveness.rs: results of a
    reachability probe, per interface, turned into a verdict with hysteresis. A
    [BootInstant] and a [Duration] are nanoseconds; a call holds the lock, so it is
    one step. The log line of [is_dead] is not modelled, the note that it was
    written is. *)

From stdpp Require Import base numbers list gmap.
From S2P Require Import Prelude.

Open Scope Z_scope.

(** ** The tracker *)

Definition secs (n : Z) : Z := n * 1000000000.

(** [BootInstant::saturating_duration_since]. *)
Definition since (now prev : Z) : Z := Z.max 0 (now - prev).

Definition RECOVERY_SUCCESS_STREAK : Z := 3.
Definition MAX_EVIDENCE_GAP : Z := secs 20.

Record Tracker := mkTracker
  { window_secs : Z;
    first_fail : gmap N Z;
    recovery_needed : gmap N Z;
    ever_reachable : gset N;
    baseline_hold_logged : gset N;
    last_record : gmap N Z }.

Definition new_tracker (window : Z) : Tracker := mkTracker window ∅ ∅ ∅ ∅ ∅.

Definition set_window_secs (s : Tracker) (window : Z) : Tracker :=
  mkTracker window (first_fail s) (recovery_needed s) (ever_reachable s) (baseline_hold_logged s) (last_record s).

Definition enabled (s : Tracker) : bool := 0 <? window_secs s.

(** A silence too long between two results. *)
Definition gap (prev : option Z) (now : Z) : bool :=
  match prev with Some prev => MAX_EVIDENCE_GAP <? since now prev | None => false end.

(** The interface was not probed for a while: what was known is of another link. *)
Definition new_incarnation (s : Tracker) (i : N) : Tracker :=
  mkTracker (window_secs s) (delete i (first_fail s)) (delete i (recovery_needed s))
    (ever_reachable s ∖ {[i]}) (baseline_hold_logged s ∖ {[i]}) (last_record s).

Definition record (s : Tracker) (i : N) (reachable : bool) (now : Z) : Tracker :=
  let s := if gap (last_record s !! i) now then new_incarnation s i else s in
  let last := <[i := now]> (last_record s) in
  if reachable then
    mkTracker (window_secs s) (delete i (first_fail s))
      (match recovery_needed s !! i with
       | Some remaining =>
           let remaining := u_sat_sub remaining 1 in
           if remaining =? 0 then delete i (recovery_needed s) else <[i := remaining]> (recovery_needed s)
       | None => recovery_needed s
       end)
      ({[i]} ∪ ever_reachable s) (baseline_hold_logged s ∖ {[i]}) last
  else
    mkTracker (window_secs s)
      (match first_fail s !! i with Some _ => first_fail s | None => <[i := now]> (first_fail s) end)
      (<[i := RECOVERY_SUCCESS_STREAK]> (recovery_needed s)) (ever_reachable s) (baseline_hold_logged s) last.

Definition is_dead (s : Tracker) (i : N) (now : Z) : Tracker * bool :=
  if window_secs s =? 0 then (s, false)
  else
    match first_fail s !! i with
    | None => (s, false)
    | Some first =>
        if since now first <? secs (window_secs s) then (s, false)
        else if negb (match last_record s !! i with
                      | Some last => since now last <=? MAX_EVIDENCE_GAP
                      | None => false
                      end) then (s, false)
        else
          if negb (bool_decide (i ∈ ever_reachable s)) then
            (mkTracker (window_secs s) (first_fail s) (recovery_needed s) (ever_reachable s)
               ({[i]} ∪ baseline_hold_logged s) (last_record s), false)
          else (s, true)
    end.

Definition forget (s : Tracker) (i : N) : Tracker :=
  mkTracker (window_secs s) (delete i (first_fail s)) (delete i (recovery_needed s))
    (ever_reachable s ∖ {[i]}) (baseline_hold_logged s ∖ {[i]}) (delete i (last_record s)).

Definition in_failing_run (s : Tracker) (i : N) : bool :=
  enabled s && (bool_decide (is_Some (first_fail s !! i)) || bool_decide (is_Some (recovery_needed s !! i))).

(** ** The history of an interface *)

Inductive Op : Set :=
  | Record_ (i : N) (reachable : bool) (now : Z)
  | Forget (i : N)
  | Ask (i : N) (now : Z)
  | SetWindow (window : Z).

Definition apply_op (s : Tracker) (o : Op) : Tracker :=
  match o with
  | Record_ i reachable now => record s i reachable now
  | Forget i => forget s i
  | Ask i now => fst (is_dead s i now)
  | SetWindow w => set_window_secs s w
  end.

Definition run (window : Z) (ops : list Op) : Tracker := fold_left apply_op ops (new_tracker window).

(** The results recorded for the interface since it was last forgotten, the
    newest first. *)
Fixpoint history (i : N) (ops : list Op) (h : list (Z * bool)) : list (Z * bool) :=
  match ops with
  | [] => h
  | Record_ j reachable now :: ops => history i ops (if bool_decide (i = j) then (now, reachable) :: h else h)
  | Forget j :: ops => history i ops (if bool_decide (i = j) then [] else h)
  | _ :: ops => history i ops h
  end.

(** The results after the last silence. *)
Fixpoint incarnation (h : list (Z * bool)) : list (Z * bool) :=
  match h with
  | [] => []
  | (now, reachable) :: h' =>
      (now, reachable) :: if gap (fst <$> head h') now then [] else incarnation h'
  end.

(** The failures since the last success. *)
Fixpoint failing (c : list (Z * bool)) : list (Z * bool) :=
  match c with
  | (t, false) :: c => (t, false) :: failing c
  | _ => []
  end.

(** Successes still wanted before the link counts as recovered. *)
Fixpoint wanted (c : list (Z * bool)) : option Z :=
  match c with
  | [] => None
  | (_, false) :: _ => Some RECOVERY_SUCCESS_STREAK
  | (_, true) :: c =>
      match wanted c with
      | Some n => if u_sat_sub n 1 =? 0 then None else Some (u_sat_sub n 1)
      | None => None
      end
  end.

(** What the tracker holds of an interface with this history. *)
Record follows (s : Tracker) (i : N) (h : list (Z * bool)) : Prop := {
  f_first : first_fail s !! i = fst <$> last (failing (incarnation h));
  f_recovery : recovery_needed s !! i = wanted (incarnation h);
  f_reached : i ∈ ever_reachable s <-> exists t, (t, true) ∈ incarnation h;
  f_last : last_record s !! i = fst <$> head h;
}.

(** ** The tracker follows the history *)

Lemma follows_incarnation s i h now :
  follows s i h ->
  let s1 := if gap (last_record s !! i) now then new_incarnation s i else s in
  let c := if gap (fst <$> head h) now then [] else incarnation h in
  first_fail s1 !! i = fst <$> last (failing c) /\ recovery_needed s1 !! i = wanted c
  /\ (i ∈ ever_reachable s1 <-> exists t, (t, true) ∈ c).
Proof.
  intros [Hf Hr He Hl]. cbv zeta. rewrite Hl. destruct (gap _ now); cbn.
  - rewrite !lookup_delete_eq. split; [done|]. split; [done|]. split; [set_solver|].
    by intros [t ?%not_elem_of_nil].
  - done.
Qed.

Lemma record_same s i reachable now h :
  follows s i h -> follows (record s i reachable now) i ((now, reachable) :: h).
Proof.
  intros Hh. destruct (follows_incarnation s i h now Hh) as (Hf & Hr & He). unfold record.
  set (s1 := if gap (last_record s !! i) now then _ else _) in *.
  set (c := if gap (fst <$> head h) now then _ else _) in *.
  destruct reachable; split; cbn [first_fail recovery_needed ever_reachable last_record incarnation];
    fold c; cbn [failing wanted head fmap option_fmap option_map fst].
  - by rewrite lookup_delete_eq.
  - rewrite <- Hr. destruct (recovery_needed s1 !! i) as [n|] eqn:E; [|done].
    destruct (u_sat_sub n 1 =? 0); [by rewrite lookup_delete_eq|by rewrite lookup_insert_eq].
  - split; [|set_solver]. intros _. exists now. left.
  - by rewrite lookup_insert_eq.
  - change (failing ((now, false) :: c)) with ((now, false) :: failing c).
    destruct (first_fail s1 !! i) as [t|] eqn:E; rewrite ?lookup_insert_eq, ?E.
    + destruct (failing c) as [|x f]; [done|]. exact Hf.
    + destruct (last (failing c)) eqn:El; [done|]. apply last_None in El. by rewrite El.
  - by rewrite lookup_insert_eq.
  - rewrite He. split; intros [t Ht]; exists t; [by right|]. by apply elem_of_cons in Ht as [|].
  - by rewrite lookup_insert_eq.
Qed.

Lemma follows_other s s' i h :
  first_fail s' !! i = first_fail s !! i -> recovery_needed s' !! i = recovery_needed s !! i ->
  (i ∈ ever_reachable s' <-> i ∈ ever_reachable s) -> last_record s' !! i = last_record s !! i ->
  follows s i h -> follows s' i h.
Proof. intros H1 H2 H3 H4 [Hf Hr He Hl]. split; congruence || (by rewrite H3). Qed.

Lemma record_other s i j reachable now h : i <> j -> follows s i h -> follows (record s j reachable now) i h.
Proof.
  intros Hij. apply follows_other; unfold record, new_incarnation;
    destruct (gap _ _), reachable; cbn; repeat case_match;
    rewrite ?lookup_insert_ne, ?lookup_delete_ne by done; try done; set_solver.
Qed.

Lemma forget_follows s i j h : follows s i h -> follows (forget s j) i (if bool_decide (i = j) then [] else h).
Proof.
  destruct (bool_decide_reflect (i = j)) as [->|Hij].
  - intros _. unfold forget. split; cbn; rewrite ?lookup_delete_eq; try done.
    split; [set_solver|]. by intros [t ?%not_elem_of_nil].
  - apply follows_other; cbn; rewrite ?lookup_delete_ne by done; try done. set_solver.
Qed.

Lemma ask_follows s i j now h : follows s i h -> follows (fst (is_dead s j now)) i h.
Proof. apply follows_other; unfold is_dead; repeat case_match; done. Qed.

Lemma run_follows window ops i : follows (run window ops) i (history i ops []).
Proof.
  unfold run. assert (H : follows (new_tracker window) i []).
  { split; cbn; try done. split; [set_solver|]. by intros [t ?%not_elem_of_nil]. }
  revert H. generalize (new_tracker window) as s. generalize (@nil (Z * bool)) as h.
  induction ops as [|o ops IH]; intros h s H; [done|]. cbn [fold_left history].
  destruct o as [j reachable now|j|j now|w]; apply IH; cbn [apply_op].
  - destruct (bool_decide_reflect (i = j)) as [<-|]; [by apply record_same|by apply record_other].
  - by apply forget_follows.
  - by apply ask_follows.
  - by destruct H.
Qed.

(** One success takes one off what is wanted. *)
Definition fewer (w : option Z) : option Z :=
  match w with Some n => if u_sat_sub n 1 =? 0 then None else Some (u_sat_sub n 1) | None => None end.

Lemma wanted_bound c n : wanted c = Some n -> 1 <= n <= 3.
Proof.
  revert n. induction c as [|[t []] c IH]; intros n; cbn; [done| |intros [= <-]; unfold RECOVERY_SUCCESS_STREAK; lia].
  destruct (wanted c) as [m|]; [|done]. specialize (IH m eq_refl). unfold u_sat_sub.
  destruct (Z.eqb_spec (Z.max 0 (m - 1)) 0); [done|]. intros [= <-]. lia.
Qed.

Lemma fewer_three c : fewer (fewer (fewer (wanted c))) = None.
Proof.
  destruct (wanted c) as [n|] eqn:E; [|done]. apply wanted_bound in E.
  assert (n = 1 \/ n = 2 \/ n = 3) as [-> |[-> | ->]] by lia; done.
Qed.

(** The link has recovered once the last three results are successes. *)
Lemma wanted_take c : is_Some (wanted c) <-> exists t, (t, false) ∈ take 3 c.
Proof.
  assert (Hno : forall c : list (Z * bool), Forall (fun x => snd x = true) c -> ~ exists t, (t, false) ∈ c).
  { intros l Hl [t Ht]. rewrite Forall_forall in Hl. by specialize (Hl _ Ht). }
  destruct c as [|[t1 []] [|[t2 []] [|[t3 []] c]]].
  all: try (split; [intros _|by eexists]; match goal with |- context [(?t, false) :: _] => exists t end; cbn; set_solver).
  all: try (split; [by intros [? ?]|]; cbn [take]; intros H; exfalso; revert H; apply Hno; by repeat constructor).
  split; [|cbn [take]; intros H; exfalso; revert H; apply Hno; by repeat constructor].
  change (wanted ((t1, true) :: (t2, true) :: (t3, true) :: c)) with (fewer (fewer (fewer (wanted c)))).
  rewrite fewer_three. by intros [? ?].
Qed.

Lemma failing_split c :
  exists rest, c = failing c ++ rest /\ Forall (fun x => snd x = false) (failing c)
    /\ (rest = [] \/ exists up rest', rest = (up, true) :: rest').
Proof.
  induction c as [|[t []] c (rest & E & Hf & Hr)].
  - exists []. eauto.
  - exists ((t, true) :: c). cbn. eauto 6.
  - exists rest. cbn. rewrite <- E. eauto.
Qed.

(** A run of failures after a success is the maximal one. *)
Lemma failing_run_app run up rest :
  Forall (fun x => snd x = false) run -> failing (run ++ (up, true) :: rest) = run.
Proof. induction 1 as [|[t r] run Hr _ IH]; [done|]. cbn in Hr. subst r. cbn. by rewrite IH. Qed.

Lemma incarnation_prefix h : exists older, h = incarnation h ++ older.
Proof.
  induction h as [|[now r] h [older IH]]; [by exists []|]. cbn. destruct (gap _ now).
  - by exists h.
  - exists older. by rewrite IH at 1.
Qed.

Lemma incarnation_head h : head (incarnation h) = head h.
Proof. by destruct h as [|[]]. Qed.

Lemma incarnation_dense h k a b :
  incarnation h !! k = Some a -> incarnation h !! S k = Some b -> since (fst a) (fst b) <= MAX_EVIDENCE_GAP.
Proof.
  revert k. induction h as [|[now r] h IH]; intros k; [done|]. cbn [incarnation].
  destruct (gap (fst <$> head h) now) eqn:Eg; [by destruct k|]. destruct k as [|k]; [|by apply IH].
  intros [= <-] Hb. change (incarnation h !! 0%nat = Some b) in Hb. rewrite <- head_lookup, incarnation_head in Hb. rewrite Hb in Eg. cbn in Eg.
  apply Z.ltb_ge in Eg. done.
Qed.

Lemma dead_first_fail s i now h :
  follows s i h ->
  snd (is_dead s i now) = true <->
  window_secs s <> 0
  /\ (exists t0, last (failing (incarnation h)) = Some t0 /\ secs (window_secs s) <= since now (fst t0))
  /\ (exists newest, head h = Some newest /\ since now (fst newest) <= MAX_EVIDENCE_GAP)
  /\ exists t, (t, true) ∈ incarnation h.
Proof.
  intros [Hf _ He Hl]. unfold is_dead. rewrite Hf, Hl.
  destruct (Z.eqb_spec (window_secs s) 0) as [|Hw]; [by split; [|intros []]|].
  destruct (last (failing (incarnation h))) as [t0|]; cbn; [|by split; [|intros (_ & (? & ? & _) & _)]].
  destruct (Z.ltb_spec (since now t0.1) (secs (window_secs s))) as [Hlt|Hge].
  { split; [done|]. intros (_ & (? & [= <-] & ?) & _). lia. }
  destruct (head h) as [newest|]; cbn; [|by split; [|intros (_ & _ & (? & ? & _) & _)]].
  destruct (Z.leb_spec (since now newest.1) MAX_EVIDENCE_GAP) as [Hle|Hgt]; cbn [negb].
  2: { split; [done|]. intros (_ & _ & (? & [= <-] & ?) & _). lia. }
  rewrite <- He. destruct (bool_decide_reflect (i ∈ ever_reachable s)); cbn [negb snd]; [|by split; [|intros (_ & _ & _ & ?)]].
  split; [eauto 10|done].
Qed.

(** The verdicts of the tracker are those of the recorded results. Take the
    results of an interface since it was last forgotten, back to the last silence
    of more than 20 seconds: consecutive ones lie at most that far apart. The
    interface is dead exactly when the feature is on, the newest result is that
    fresh, and the results are a run of failures that began at least a window ago,
    after a success; so one success, a silence or a peer that never answered means
    alive. It counts as failing exactly when one of the last three results is a
    failure. What happens to other interfaces makes no difference. *)
Theorem link_verdicts window ops i now :
  let s := run window ops in
  let h := history i ops [] in
  let c := incarnation h in
  (snd (is_dead s i now) = true <->
     window_secs s <> 0
     /\ exists fails up rest t0 newest,
          c = fails ++ (up, true) :: rest /\ Forall (fun x => snd x = false) fails
          /\ last fails = Some (t0, false) /\ secs (window_secs s) <= since now t0
          /\ head c = Some newest /\ since now (fst newest) <= MAX_EVIDENCE_GAP)
  /\ (in_failing_run s i = true <-> 0 < window_secs s /\ exists t, (t, false) ∈ take 3 c)
  /\ (exists older, h = c ++ older)
  /\ (forall k a b, c !! k = Some a -> c !! S k = Some b -> since (fst a) (fst b) <= MAX_EVIDENCE_GAP).
Proof.
  intros s h c. pose proof (run_follows window ops i) as Hh. fold s h in Hh.
  split; [|split; [|split; [apply incarnation_prefix|apply incarnation_dense]]].
  - rewrite (dead_first_fail s i now h Hh). fold c. split.
    + intros (Hw & ([t0 r0] & Hl & Ht) & (newest & Hn & Hg) & t & Hup). split; [done|].
      destruct (failing_split c) as (rest & E & Hf & [->|(up & rest' & ->)]).
      * exfalso. rewrite app_nil_r in E. rewrite Forall_forall in Hf. rewrite <- E in Hf. by specialize (Hf _ Hup).
      * exists (failing c), up, rest', t0, newest. split; [done|]. split; [done|].
        assert (r0 = false) as ->. { rewrite Forall_forall in Hf. by apply (Hf (t0, r0)), last_Some_elem_of. }
        unfold c. by rewrite incarnation_head.
    + intros (Hw & fails & up & rest & t0 & newest & E & Hf & Hl & Ht & Hn & Hg). split; [done|].
      split; [|split].
      * exists (t0, false). rewrite E, failing_run_app by done. done.
      * exists newest. split; [|done]. rewrite <- (incarnation_head h). done.
      * exists up. rewrite E. set_solver.
  - unfold in_failing_run, enabled. rewrite andb_true_iff, Z.ltb_lt, orb_true_iff, !bool_decide_eq_true, <- wanted_take.
    rewrite (f_first _ _ _ Hh), (f_recovery _ _ _ Hh). fold c. split; intros [Hw H]; (split; [done|]).
    + destruct H as [[x Hx]|H]; [|done]. destruct c as [|[t []] c']; [done..|]. by eexists.
    + by right.
Qed.

(** A link that answered and then failed for half a minute is dead; one success
    brings it back at once, and three end the failing run. *)
Example verdict_example :
  let probes := (fun k => Record_ 7 (bool_decide (k = 0)%nat) (secs (5 * Z.of_nat k))) <$> seq 0 8 in
  let s := run 30 probes in
  let back := Record_ 7 true (secs 40) in
  snd (is_dead s 7 (secs 36)) = true
  /\ snd (is_dead (run 30 (probes ++ [back])) 7 (secs 41)) = false
  /\ in_failing_run (run 30 (probes ++ [back; back])) 7 = true
  /\ in_failing_run (run 30 (probes ++ [back; back; back])) 7 = false.
Proof. by vm_compute. Qed.
