(* ===== verification/NetClaims.v ===== *)
(** * Which link a network belongs to

    core/domain/src/rule_shape.rs, the rule shapes enforcement can carry, and
    [NetworkClaims] of core/services/service-runtime/src/address_ownership.rs, the
    networks of both links' route rules asked by longest prefix. The hash map of
    blocks is a [gmap]; [partition_point] on a sorted vector is the length of the
    prefix its predicate holds on. *)

From stdpp Require Import base numbers list gmap sorting.
From S2P Require Import Prelude Str Digits IpAddr IpBlock AppPath AppIdentity AutoRule HostMatch Canonical.
From S2P Require Import Normalize Matching.

Open Scope Z_scope.

(** ** Rule shapes *)

Inductive RuleShape : Set :=
  | Destination | NetworkDestination | Source | SourceAndDestination | SourceAndNetwork.

(** [RuleShape::of]. *)
Definition shape_of (rule : CanonicalRule) : option RuleShape :=
  let network := bool_decide (is_Some (r_address_match rule ≫= ip_blocks)) in
  match r_address_match rule, r_app_match rule with
  | Some _, None => Some (if network then NetworkDestination else Destination)
  | None, Some _ => Some Source
  | Some _, Some _ => Some (if network then SourceAndNetwork else SourceAndDestination)
  | None, None => None
  end.

Record RuleShapeSupport : Set := mkSupport {
  app_scoped_destination_block : bool;
  app_scoped_destination_route : bool;
  network_destination : bool;
}.

Inductive UnsupportedShapeReason : Set :=
  | AppScopedDestinationBlock | AppScopedDestinationRoute | UnsupportedNetwork.

Inductive ShapeVerdict : Set := Supported | Unsupported (reason : UnsupportedShapeReason).

Definition shape_verdict (shape : RuleShape) (action : RuleAction) (support : RuleShapeSupport) : ShapeVerdict :=
  let network := match shape with NetworkDestination | SourceAndNetwork => true | _ => false end in
  if network && negb (network_destination support) then Unsupported UnsupportedNetwork
  else
    match shape, action with
    | (Destination | NetworkDestination | Source), _ => Supported
    | (SourceAndDestination | SourceAndNetwork), Block =>
        if app_scoped_destination_block support then Supported else Unsupported AppScopedDestinationBlock
    | (SourceAndDestination | SourceAndNetwork), (Route | Verify) =>
        if app_scoped_destination_route support then Supported else Unsupported AppScopedDestinationRoute
    end.

Definition rule_verdict (rule : CanonicalRule) (support : RuleShapeSupport) : ShapeVerdict :=
  match shape_of rule with
  | Some shape => shape_verdict shape (r_action rule) support
  | None => Supported
  end.

Definition is_supported (v : ShapeVerdict) : bool :=
  match v with Supported => true | Unsupported _ => false end.

(** The first of the rules whose shape is not supported. *)
Fixpoint find_unsupported (rules : list CanonicalRule) (support : RuleShapeSupport)
  : option (CanonicalRule * UnsupportedShapeReason) :=
  match rules with
  | [] => None
  | rule :: rules' =>
      match rule_verdict rule support with
      | Unsupported reason => Some (rule, reason)
      | Supported => find_unsupported rules' support
      end
  end.

Definition first_unsupported_new (book : CanonicalRuleBook) (carried : option CanonicalRuleBook)
  (support : RuleShapeSupport) : option (CanonicalRule * UnsupportedShapeReason) :=
  let carried_in (role : RouteRole) := match carried with Some c => set_for c role | None => [] end in
  let fresh (role : RouteRole) :=
    List.filter (fun r => negb (bool_decide (r ∈ carried_in role))) (set_for book role) in
  find_unsupported (fresh Primary ++ fresh Secondary) support.

Definition first_unsupported (book : CanonicalRuleBook) (support : RuleShapeSupport) :=
  first_unsupported_new book None support.

(** ** Network claims *)

Inductive Link : Set := Main | Additional.

#[export] Instance Link_eq_dec : EqDecision Link.
Proof. solve_decision. Defined.

#[export] Instance IpBlock_countable : Countable IpBlock.
Proof.
  apply (inj_countable' (fun b => (network b, prefix_len b)) (fun '(n, p) => mkIpBlock n p)).
  by intros [].
Defined.

Record NetworkClaim : Set := mkClaim { claim_main : bool; claim_additional : bool; claim_label : str }.

Definition claim_has (c : NetworkClaim) (link : Link) : bool :=
  match link with Main => claim_main c | Additional => claim_additional c end.

Definition claim_winner (c : NetworkClaim) : Link := if claim_main c then Main else Additional.

Record NetworkClaims := mkClaims {
  by_block : gmap IpBlock NetworkClaim;
  v4_lens : list Z;
  v6_lens : list Z;
  sorted : list IpBlock;
}.

(** One turn of the loop of [new]. *)
Definition add_claim (by_block : gmap IpBlock NetworkClaim) (tagged : IpBlock * Link)
  : gmap IpBlock NetworkClaim :=
  let '(net, link) := tagged in
  let claim := default (mkClaim false false (IpBlock_fmt net)) (by_block !! net) in
  <[net := match link with
           | Main => mkClaim true (claim_additional claim) (claim_label claim)
           | Additional => mkClaim (claim_main claim) true (claim_label claim)
           end]> by_block.

Definition lens (blocks : list IpBlock) (v4 : bool) : list Z :=
  dedup (sort_by (cmp_rev Z.compare)
           (prefix_len <$> List.filter (fun net => Bool.eqb (IpBlock_is_ipv4 net) v4) blocks)).

Definition new_claims (main additional : list IpBlock) : NetworkClaims :=
  let by_block := fold_left add_claim
                    (((fun net => (net, Main)) <$> main) ++ ((fun net => (net, Additional)) <$> additional)) ∅ in
  let sorted := sort_by IpBlock_cmp ((map_to_list by_block).*1) in
  mkClaims by_block (lens sorted true) (lens sorted false) sorted.

(** The networks the route rules of a set name, those enforcement can carry. *)
Definition route_networks (support : RuleShapeSupport) (rules : CanonicalRuleSet) : list IpBlock :=
  concat (omap (fun r => r_address_match r ≫= ip_blocks)
    (List.filter (fun r => r_enabled r && bool_decide (r_app_match r = None)
                           && negb (bool_decide (r_action r = Block))
                           && is_supported (rule_verdict r support)) rules)).

Definition of_book (book : CanonicalRuleBook) (support : RuleShapeSupport) : NetworkClaims :=
  new_claims (route_networks support (primary book)) (route_networks support (secondary book)).

(** Every claimed network holding [ip], narrowest first. *)
Definition holding (c : NetworkClaims) (ip : IpAddr) : list (IpBlock * NetworkClaim) :=
  omap (fun len => net ← IpBlock_new ip len; claim ← by_block c !! net; Some (net, claim))
    (if is_ipv4 ip then v4_lens c else v6_lens c).

Definition longest (c : NetworkClaims) (ip : IpAddr) : option (IpBlock * NetworkClaim) := head (holding c ip).

Definition narrowest (c : NetworkClaims) (ip : IpAddr) : option (IpBlock * Link) :=
  '(net, claim) ← longest c ip; Some (net, claim_winner claim).

(** [NetworkClaims::winner]. *)
Definition net_winner (c : NetworkClaims) (ip : IpAddr) : option Link := snd <$> narrowest c ip.

(** [NetworkClaims::names]. *)
Definition net_names (c : NetworkClaims) (ip : IpAddr) (link : Link) : bool :=
  existsb (fun '(_, claim) => claim_has claim link) (holding c ip).

Definition ip_lt (a b : IpAddr) : bool := match ip_cmp a b with Lt => true | _ => false end.
Definition ip_le (a b : IpAddr) : bool := match ip_cmp a b with Gt => false | _ => true end.

(** Claimed networks strictly inside [outer]. *)
Definition inside (c : NetworkClaims) (outer : IpBlock) : list (IpBlock * NetworkClaim) :=
  omap (fun net => claim ← by_block c !! net; Some (net, claim))
    (List.filter (fun net => (prefix_len outer <? prefix_len net) && IpBlock_covers outer net)
       (take_while (fun net => ip_le (network net) (IpBlock_last outer))
          (from_partition_point (fun net => ip_lt (network net) (network outer)) (sorted c)))).

(** ** The map of claims *)

Definition tagged (main additional : list IpBlock) : list (IpBlock * Link) :=
  ((fun net => (net, Main)) <$> main) ++ ((fun net => (net, Additional)) <$> additional).

(** What the map holds of a network after these were added. *)
Definition claim_of (l : list (IpBlock * Link)) (net : IpBlock) (o : option NetworkClaim) : Prop :=
  match o with
  | Some c => (forall link, claim_has c link = true <-> (net, link) ∈ l) /\ claim_label c = IpBlock_fmt net
              /\ exists link, (net, link) ∈ l
  | None => forall link, (net, link) ∉ l
  end.

Lemma add_claims_of l net : claim_of l net (fold_left add_claim l ∅ !! net).
Proof.
  induction l as [|[net' link'] l IH] using rev_ind.
  { cbn [fold_left]. rewrite lookup_empty. intros link. apply not_elem_of_nil. }
  rewrite fold_left_app. cbn [fold_left]. set (m := fold_left add_claim l ∅) in *.
  assert (Hin : forall link, (net, link) ∈ l ++ [(net', link')] <-> (net, link) ∈ l \/ net = net' /\ link = link').
  { intros link. rewrite elem_of_app, list_elem_of_singleton. naive_solver. }
  unfold add_claim. destruct (decide (net' = net)) as [->|Hne].
  - rewrite lookup_insert_eq. unfold claim_of in *. destruct (m !! net) as [c|]; cbn [default from_option id].
    + destruct IH as (Hh & Hl & _). split; [|split; [by destruct link'|exists link'; apply Hin; auto]].
      intros link. rewrite Hin. destruct link, link'; cbn; rewrite <- ?Hh; cbn; naive_solver.
    + split; [|split; [by destruct link'|exists link'; apply Hin; auto]].
      intros link. rewrite Hin. destruct link, link'; cbn; naive_solver.
  - rewrite lookup_insert_ne by done. unfold claim_of in *. destruct (m !! net) as [c|].
    + destruct IH as (Hh & Hl & link & Hlink). split; [|split; [done|exists link; apply Hin; auto]].
      intros k. rewrite Hin, Hh. naive_solver.
    + intros link. rewrite Hin. naive_solver.
Qed.

Lemma tagged_elem main additional net link :
  (net, link) ∈ tagged main additional <-> net ∈ match link with Main => main | Additional => additional end.
Proof.
  unfold tagged. rewrite elem_of_app, !list_elem_of_fmap. destruct link; naive_solver.
Qed.

Lemma new_claims_of main additional net :
  claim_of (tagged main additional) net (by_block (new_claims main additional) !! net).
Proof. apply add_claims_of. Qed.

Lemma sorted_elem main additional net :
  net ∈ sorted (new_claims main additional) <-> is_Some (by_block (new_claims main additional) !! net).
Proof.
  cbn. rewrite sort_by_elem_of. split.
  - intros ([n c] & -> & Hc%elem_of_map_to_list)%list_elem_of_fmap. by eexists.
  - intros [c Hc]. apply list_elem_of_fmap. exists (net, c). split; [done|]. by apply elem_of_map_to_list.
Qed.

(** ** Prefix lengths *)

Lemma lens_elem blocks v4 len :
  len ∈ lens blocks v4 <-> exists net, net ∈ blocks /\ IpBlock_is_ipv4 net = v4 /\ prefix_len net = len.
Proof.
  unfold lens. rewrite dedup_elem, sort_by_elem_of, list_elem_of_fmap. setoid_rewrite filter_elem.
  setoid_rewrite eqb_true_iff. naive_solver.
Qed.

Lemma lens_strict blocks v4 : StronglySorted (fun a b => b < a) (lens blocks v4).
Proof.
  unfold lens. eapply strongly_sorted_impl; [|apply (dedup_strict (fun a b => b <= a))].
  - intros a b. cbn. lia.
  - intros a b c. cbn. lia.
  - intros a b. cbn. lia.
  - exact (sort_by_sorted (cmp_rev Z.compare) _).
Qed.

(** ** Longest prefix *)

(** Two blocks with a common address and the same prefix length are the same. *)
Lemma block_at_prefix b a :
  block_wf b -> ip_wf a -> in_block b a -> IpBlock_new a (prefix_len b) = Some b.
Proof.
  intros Hb Ha Hin. apply (IpBlock_contains_spec b a Hb Ha) in Hin. unfold IpBlock_contains in Hin.
  apply andb_true_iff in Hin as [_ Hin]. destruct (IpBlock_new a (prefix_len b)) as [b'|]; [|done].
  apply bool_decide_eq_true in Hin. by rewrite Hin.
Qed.

Lemma new_block_holds a len b :
  ip_wf a -> 0 <= len -> IpBlock_new a len = Some b -> block_wf b /\ prefix_len b = len /\ in_block b a.
Proof.
  intros Ha Hlen E. apply IpBlock_new_Some in E as (Hle & Hp & Hf & Hn & Hwf); [|done..].
  split; [done|]. split; [done|]. split; [done|]. unfold block_size. rewrite (family_bits_eq _ _ Hf), Hp.
  assert (0 < 2 ^ (family_bits a - len)) by lia.
  assert (Hm := Z.mod_pos_bound (to_bits a) (2 ^ (family_bits a - len)) ltac:(lia)). lia.
Qed.

Section Claims.
Context (main additional : list IpBlock).
Hypothesis Hmain : Forall block_wf main.
Hypothesis Hadditional : Forall block_wf additional.

Let c := new_claims main additional.

Lemma claimed_wf net claim : by_block c !! net = Some claim -> block_wf net.
Proof using Hmain Hadditional.
  intros E. pose proof (new_claims_of main additional net) as H. fold c in H. rewrite E in H.
  destruct H as (_ & _ & link & Hin%tagged_elem). rewrite !Forall_forall in *. destruct link; auto.
Qed.

Lemma claims_lens ip len :
  len ∈ (if is_ipv4 ip then v4_lens c else v6_lens c) <->
  exists net claim, by_block c !! net = Some claim /\ is_ipv4 (network net) = is_ipv4 ip /\ prefix_len net = len.
Proof using Type.
  assert (E : (if is_ipv4 ip then v4_lens c else v6_lens c) = lens (sorted c) (is_ipv4 ip)) by by destruct (is_ipv4 ip).
  rewrite E, lens_elem. split.
  - intros (net & [claim Hc]%sorted_elem & Hf & Hl). by exists net, claim.
  - intros (net & claim & Hc & Hf & Hl). exists net. split; [apply sorted_elem; by exists claim|done].
Qed.

(** Asking the masks of an address at the lengths in use finds exactly the
    claimed networks that hold it. *)
Lemma holding_elem ip net claim :
  ip_wf ip -> (net, claim) ∈ holding c ip <-> by_block c !! net = Some claim /\ in_block net ip.
Proof using Hmain Hadditional.
  intros Hip. unfold holding. rewrite list_elem_of_omap. split.
  - intros (len & Hlen & (net' & En & (claim' & Ec & [= -> ->])%bind_Some)%bind_Some). split; [done|].
    apply claims_lens in Hlen as (n0 & c0 & E0 & _ & <-). apply claimed_wf in E0 as (_ & Hp & _).
    by apply (new_block_holds ip (prefix_len n0)) in En as (_ & _ & H); [|done|lia].
  - intros [E Hin]. exists (prefix_len net). split.
    + apply claims_lens. exists net, claim. split; [done|]. split; [|done]. destruct Hin. congruence.
    + rewrite (block_at_prefix net ip) by (done || by eapply claimed_wf). cbn [mbind option_bind]. by rewrite E.
Qed.

Lemma holding_narrowest ip :
  ip_wf ip -> StronglySorted (fun x y => prefix_len (fst y) < prefix_len (fst x)) (holding c ip).
Proof using Hmain Hadditional.
  intros Hip. unfold holding.
  assert (Hpos : forall len, len ∈ (if is_ipv4 ip then v4_lens c else v6_lens c) -> 0 <= len).
  { intros len (n0 & c0 & E0 & _ & <-)%claims_lens. apply claimed_wf in E0 as (_ & ? & _). lia. }
  assert (Hs : StronglySorted (fun a b => b < a) (if is_ipv4 ip then v4_lens c else v6_lens c))
    by (destruct (is_ipv4 ip); apply lens_strict).
  induction Hs as [|len ls Hs IH Hf]; cbn [omap list_omap]; [constructor|].
  assert (IH' := IH ltac:(intros; apply Hpos; by right)).
  destruct (IpBlock_new ip len) as [net|] eqn:En; cbn [mbind option_bind]; [|done].
  destruct (by_block c !! net) as [claim|]; cbn [mbind option_bind]; [|done]. constructor; [done|].
  apply (new_block_holds ip len) in En as (_ & Hp & _); [|done|apply Hpos; left].
  apply Forall_forall. intros [n k] (len' & Hlen' & (n' & En' & (k' & _ & [= -> ->])%bind_Some)%bind_Some)%list_elem_of_omap.
  apply (new_block_holds ip len') in En' as (_ & Hp' & _); [|done|apply Hpos; by right].
  rewrite Forall_forall in Hf. cbn. rewrite Hp, Hp'. by apply Hf.
Qed.

End Claims.

(** ** Networks inside a network *)

#[export] Instance IpBlock_cmp_order : CmpOrder IpBlock_cmp.
Proof. unfold IpBlock_cmp. apply _. Qed.

Lemma ip_le_trans a b d : ip_le a b = true -> ip_le b d = true -> ip_le a d = true.
Proof.
  unfold ip_le. destruct a, b, d; cbn; try done.
  all: repeat match goal with |- context [Z.compare ?x ?y] => destruct (Z.compare_spec x y) end; try done; lia.
Qed.

Lemma IpBlock_cmp_network a b : IpBlock_cmp a b <> Gt -> ip_le (network a) (network b) = true.
Proof.
  unfold IpBlock_cmp, cmp_then, cmp_on, then_with, ip_le. by destruct (ip_cmp (network a) (network b)).
Qed.

Lemma covers_span outer net :
  block_wf outer -> block_wf net -> IpBlock_covers outer net = true ->
  ip_lt (network net) (network outer) = false /\ ip_le (network net) (IpBlock_last outer) = true.
Proof.
  intros Ho Hn Hc. destruct (block_bounds net Hn) as (_ & _ & Hpos).
  assert (Hin : in_block outer (network net)).
  { apply (IpBlock_covers_spec outer net Ho Hn); [done|apply Hn|]. split; [done|lia]. }
  destruct (IpBlock_last_bits outer Ho) as [Hlf Hlb]. destruct Hin as [Hf Hb].
  unfold ip_lt, ip_le. revert Hf Hb Hlf Hlb.
  destruct (network net), (network outer), (IpBlock_last outer); cbn; intros; try done.
  all: repeat match goal with |- context [Z.compare ?x ?y] => destruct (Z.compare_spec x y) end; split; done || lia.
Qed.

Section Inside.
Context (main additional : list IpBlock).
Hypothesis Hmain : Forall block_wf main.
Hypothesis Hadditional : Forall block_wf additional.

Let c := new_claims main additional.

Lemma inside_elem outer net claim :
  block_wf outer ->
  (net, claim) ∈ inside c outer <->
  by_block c !! net = Some claim /\ prefix_len outer < prefix_len net /\ IpBlock_covers outer net = true.
Proof using Hmain Hadditional.
  intros Ho. unfold inside. rewrite list_elem_of_omap. split.
  - intros (n & [_ [Hp Hc]%andb_true_iff]%filter_elem & (k & Hk & E)%bind_Some).
    apply (inj Some) in E as [= -> ->]. by rewrite Z.ltb_lt in Hp.
  - intros (Hk & Hp & Hc). exists net. split; [|cbn [mbind option_bind]; by rewrite Hk].
    apply filter_elem. rewrite andb_true_iff, Z.ltb_lt. split; [|done].
    destruct (covers_span outer net Ho) as [Hlt Hle]; [exact (claimed_wf main additional Hmain Hadditional net claim Hk)|done|].
    eapply (take_while_keeps (cmp_le IpBlock_cmp)); [| |done|].
    + assert (Hs : StronglySorted (cmp_le IpBlock_cmp) (sorted c)) by apply (sort_by_sorted IpBlock_cmp).
      destruct (from_partition_point_suffix (fun net => ip_lt (network net) (network outer)) (sorted c)) as [k E].
      rewrite E in Hs. by apply StronglySorted_app_1_r in Hs.
    + intros y Hy Hx. eapply ip_le_trans; [by apply IpBlock_cmp_network|done].
    + apply from_partition_point_keeps; [done|]. apply sorted_elem. by exists claim.
Qed.

End Inside.

(** ** What the claims answer *)

Definition side (main additional : list IpBlock) (link : Link) : list IpBlock :=
  match link with Main => main | Additional => additional end.

(** The network of the link is the narrowest that holds the address; the main
    link has it where both name it. *)
Definition wins (main additional : list IpBlock) (ip : IpAddr) (link : Link) (net : IpBlock) : Prop :=
  in_block net ip /\ net ∈ side main additional link /\ (link = Additional -> net ∉ main)
  /\ forall other net', net' ∈ side main additional other -> in_block net' ip -> prefix_len net' <= prefix_len net.

Section Answers.
Context (main additional : list IpBlock).
Hypothesis Hmain : Forall block_wf main.
Hypothesis Hadditional : Forall block_wf additional.

Let c := new_claims main additional.

Lemma claim_sides net claim :
  by_block c !! net = Some claim -> forall link, claim_has claim link = true <-> net ∈ side main additional link.
Proof using Type.
  intros E link. pose proof (new_claims_of main additional net) as H. fold c in H. rewrite E in H.
  destruct H as (Hh & _). by rewrite Hh, tagged_elem.
Qed.

Lemma side_claimed net link :
  net ∈ side main additional link -> exists claim, by_block c !! net = Some claim /\ claim_has claim link = true.
Proof using Type.
  intros Hin. pose proof (new_claims_of main additional net) as H. fold c in H.
  assert (Ht : (net, link) ∈ tagged main additional) by by apply tagged_elem.
  destruct (by_block c !! net) as [claim|]; [|by destruct (H link)].
  exists claim. split; [done|]. by apply H.
Qed.

Lemma claimed_side net claim : by_block c !! net = Some claim -> exists link, net ∈ side main additional link.
Proof using Type.
  intros E. pose proof (new_claims_of main additional net) as H. fold c in H. rewrite E in H.
  destruct H as (_ & _ & link & Hin). exists link. by apply tagged_elem.
Qed.

Lemma claim_winner_side net claim :
  by_block c !! net = Some claim ->
  net ∈ side main additional (claim_winner claim) /\ (claim_winner claim = Additional -> net ∉ main).
Proof using Type.
  intros E. pose proof (claim_sides _ _ E) as Hs. unfold claim_winner.
  destruct (claim_main claim) eqn:Em; (split; [|intros Hc; try done]).
  - by apply Hs.
  - destruct (claimed_side _ _ E) as [[] Hin]; [|done]. apply (Hs Main) in Hin. cbn in Hin. congruence.
  - intros Hin. apply (Hs Main) in Hin. cbn in Hin. congruence.
Qed.

Lemma longest_wins ip net claim :
  ip_wf ip -> longest c ip = Some (net, claim) ->
  by_block c !! net = Some claim /\ wins main additional ip (claim_winner claim) net.
Proof using Hmain Hadditional.
  intros Hip. unfold longest. pose proof (holding_narrowest main additional Hmain Hadditional ip Hip) as Hs. fold c in Hs.
  destruct (holding c ip) as [|x rest] eqn:Eh; [done|]. intros [= ->].
  assert (Hin : (net, claim) ∈ holding c ip) by (rewrite Eh; left).
  apply (holding_elem main additional Hmain Hadditional ip) in Hin as [E Hb]; [|done]. split; [exact E|].
  destruct (claim_winner_side _ _ E) as [H1 H2]. split; [done|]. split; [done|]. split; [done|].
  intros other net' Hn' Hb'. apply side_claimed in Hn' as (claim' & E' & _).
  assert (Hin' : (net', claim') ∈ holding c ip) by by apply (holding_elem main additional Hmain Hadditional ip).
  rewrite Eh in Hin'. apply StronglySorted_inv in Hs as [_ Hf]. rewrite Forall_forall in Hf.
  apply elem_of_cons in Hin' as [[= -> ->]|Hin']; [lia|]. specialize (Hf _ Hin'). cbn in Hf. lia.
Qed.

Lemma net_winner_wins ip link :
  ip_wf ip -> net_winner c ip = Some link <-> exists net, wins main additional ip link net.
Proof using Hmain Hadditional.
  intros Hip. unfold net_winner, narrowest. split.
  - destruct (longest c ip) as [[net claim]|] eqn:El; [|done]. intros [= <-].
    exists net. by apply longest_wins.
  - intros (net & Hb & Hin & Hadd & Hmax). apply side_claimed in Hin as Hc. destruct Hc as (claim & E & Hh).
    assert (Hhold : (net, claim) ∈ holding c ip) by by apply (holding_elem main additional Hmain Hadditional ip).
    destruct (longest c ip) as [[net1 claim1]|] eqn:El.
    2: { unfold longest in El. destruct (holding c ip); [by apply not_elem_of_nil in Hhold|done]. }
    apply longest_wins in El as (E1 & Hb1 & Hin1 & _ & Hmax1); [|done].
    assert (net1 = net) as ->.
    { pose proof (claimed_wf main additional Hmain Hadditional _ _ E) as Hw.
      pose proof (claimed_wf main additional Hmain Hadditional _ _ E1) as Hw1.
      assert (Ep : prefix_len net1 = prefix_len net)
        by (apply Z.le_antisymm; [by eapply Hmax|by eapply Hmax1]).
      pose proof (block_at_prefix net1 ip Hw1 Hip Hb1) as N1. rewrite Ep, (block_at_prefix net ip Hw Hip Hb) in N1. congruence. }
    rewrite E in E1. injection E1 as <-. cbn. f_equal. unfold claim_winner.
    destruct link; cbn in Hh; [by rewrite Hh|]. destruct (claim_main claim) eqn:Em; [|done].
    exfalso. apply Hadd; [done|]. by apply (claim_sides _ _ E Main).
Qed.

Lemma net_winner_none ip :
  ip_wf ip -> net_winner c ip = None <-> forall link net, net ∈ side main additional link -> ~ in_block net ip.
Proof using Hmain Hadditional.
  intros Hip. split.
  - intros Hn link net Hin Hb. destruct (side_claimed net link Hin) as (claim & E & _).
    assert (Hh : (net, claim) ∈ holding c ip) by by apply (holding_elem main additional Hmain Hadditional ip).
    unfold net_winner, narrowest, longest in Hn. destruct (holding c ip) as [|[] ?]; [by apply not_elem_of_nil in Hh|done].
  - intros Hn. destruct (net_winner c ip) as [link|] eqn:E; [|done].
    apply net_winner_wins in E as (net & Hb & Hin & _); [|done]. by destruct (Hn link net Hin).
Qed.

Lemma net_names_side ip link :
  ip_wf ip -> net_names c ip link = true <-> exists net, net ∈ side main additional link /\ in_block net ip.
Proof using Hmain Hadditional.
  intros Hip. unfold net_names. rewrite existsb_elem. split.
  - intros ([net claim] & Hin & Hh). apply (holding_elem main additional Hmain Hadditional ip) in Hin as [E Hb]; [|done].
    exists net. split; [|done]. by apply (claim_sides _ _ E).
  - intros (net & (claim & E & Hh)%side_claimed & Hb). exists (net, claim). split; [|done].
    by apply (holding_elem main additional Hmain Hadditional ip).
Qed.

Lemma inside_side outer net :
  block_wf outer ->
  net ∈ (inside c outer).*1 <->
  (exists link, net ∈ side main additional link) /\ prefix_len outer < prefix_len net
  /\ forall a, ip_wf a -> in_block net a -> in_block outer a.
Proof using Hmain Hadditional.
  intros Ho. rewrite list_elem_of_fmap. split.
  - intros ([n claim] & -> & Hin). apply (inside_elem main additional Hmain Hadditional) in Hin as (E & Hp & Hc); [|done].
    split; [by eapply claimed_side|]. split; [done|].
    apply IpBlock_covers_spec; [done| |done]. by apply (claimed_wf main additional Hmain Hadditional) in E.
  - intros ([link Hl] & Hp & Hc). apply side_claimed in Hl as (claim & E & _). exists (net, claim). split; [done|].
    apply (inside_elem main additional Hmain Hadditional); [done|]. split; [done|]. split; [done|].
    apply IpBlock_covers_spec; [done| |done]. by apply (claimed_wf main additional Hmain Hadditional) in E.
Qed.

End Answers.

(** The lookup by masks is the longest-prefix rule. Whatever networks the two
    links name, an address goes to the link of the narrowest network that holds
    it, the main link where both name that network, and to none exactly when no
    network holds it; a link names the address exactly when one of its networks
    holds it; and the scan of the sorted blocks finds exactly the networks
    strictly inside another, though it starts and stops by network address. *)
Theorem net_claims_exact main additional ip outer :
  Forall block_wf main -> Forall block_wf additional -> ip_wf ip -> block_wf outer ->
  let c := new_claims main additional in
  (forall link, net_winner c ip = Some link <-> exists net, wins main additional ip link net)
  /\ (net_winner c ip = None <-> forall link net, net ∈ side main additional link -> ~ in_block net ip)
  /\ (forall link, net_names c ip link = true <-> exists net, net ∈ side main additional link /\ in_block net ip)
  /\ (forall net, net ∈ (inside c outer).*1 <->
        (exists link, net ∈ side main additional link) /\ prefix_len outer < prefix_len net
        /\ forall a, ip_wf a -> in_block net a -> in_block outer a).
Proof.
  intros Hm Ha Hip Ho c. split; [intros; by apply net_winner_wins|]. split; [by apply net_winner_none|].
  split; [intros; by apply net_names_side|intros; by apply inside_side].
Qed.

(** ** The claims and the decision engine *)

Definition role_link (role : RouteRole) : Link := match role with Primary => Main | Secondary => Additional end.

(** The networks of a book are as validation leaves them. *)
Definition networks_ok (book : CanonicalRuleBook) : Prop :=
  forall role rule, rule ∈ set_for book role ->
    match r_address_match rule with
    | Some (Subnet b) => block_wf b
    | Some (Range r) => exists f l, ip_wf f /\ ip_wf l /\ IpRange_new f l = Some r
    | _ => True
    end.

(** Every enabled network rule routes, for all programs. *)
Definition plain_networks (book : CanonicalRuleBook) : Prop :=
  forall role rule, rule ∈ set_for book role -> r_enabled rule = true ->
    is_Some (r_address_match rule ≫= ip_blocks) -> r_app_match rule = None /\ r_action rule <> Block.

Lemma route_networks_elem support rules net :
  net ∈ route_networks support rules <->
  exists rule blocks, rule ∈ rules /\ r_enabled rule = true /\ r_app_match rule = None
    /\ r_action rule <> Block /\ is_supported (rule_verdict rule support) = true
    /\ r_address_match rule ≫= ip_blocks = Some blocks /\ net ∈ blocks.
Proof.
  unfold route_networks. rewrite list_elem_of_In, in_concat. setoid_rewrite <- list_elem_of_In.
  setoid_rewrite list_elem_of_omap. setoid_rewrite filter_elem. setoid_rewrite andb_true_iff.
  setoid_rewrite andb_true_iff. setoid_rewrite andb_true_iff. setoid_rewrite negb_true_iff.
  setoid_rewrite bool_decide_eq_true. setoid_rewrite bool_decide_eq_false. naive_solver.
Qed.

(** The blocks of a network rule: canonical, and at most one holds an address. *)
Lemma rule_blocks_ok book role rule blocks :
  networks_ok book -> rule ∈ set_for book role -> r_address_match rule ≫= ip_blocks = Some blocks ->
  Forall block_wf blocks
  /\ forall a b b', b ∈ blocks -> b' ∈ blocks -> in_block b a -> in_block b' a -> b = b'.
Proof.
  intros Hok Hin Hb. specialize (Hok role rule Hin). destruct (r_address_match rule) as [[]|]; simplify_eq/=.
  - split; [by constructor|]. intros a b b' ->%list_elem_of_singleton ->%list_elem_of_singleton. done.
  - destruct Hok as (f & l & Hf & Hl & E). split.
    + eapply Forall_impl; [exact (range_blocks_inside f l _ Hf Hl E)|]. by intros b [].
    + intros a b b' Hb Hb' [_ Ha] [_ Ha'].
      apply IpRange_new_Some in E as (_ & _ & _ & _ & Hend & Ht & _); [|done..].
      apply tiling_sorted in Ht; [|done]. revert Hb Hb'. induction Ht as [|x k Hs IH Hf']; [by intros ?%not_elem_of_nil|].
      rewrite Forall_forall in Hf'. rewrite !elem_of_cons.
      intros [->|H1] [->|H2]; [done| | |by apply IH]; [specialize (Hf' _ H2)|specialize (Hf' _ H1)]; lia.
Qed.

(** The networks of a link's route rules. *)
Definition link_networks (book : CanonicalRuleBook) (support : RuleShapeSupport) (link : Link) : list IpBlock :=
  side (route_networks support (primary book)) (route_networks support (secondary book)) link.

Section Engine.
Context `{Unicode} (book : CanonicalRuleBook) (support : RuleShapeSupport) (proc : option NormalizedAppIdentity).
Hypothesis Hok : networks_ok book.
Hypothesis Hplain : plain_networks book.
Hypothesis Hsupport : network_destination support = true.

Lemma link_networks_elem role net :
  net ∈ link_networks book support (role_link role) <->
  exists rule blocks, rule ∈ set_for book role /\ r_enabled rule = true
    /\ r_address_match rule ≫= ip_blocks = Some blocks /\ net ∈ blocks.
Proof using Hplain Hsupport.
  assert (E : link_networks book support (role_link role) = route_networks support (set_for book role)) by by destruct role.
  rewrite E, route_networks_elem. split.
  - intros (rule & blocks & Hin & He & _ & _ & _ & Hb & Hn). eauto 8.
  - intros (rule & blocks & Hin & He & Hb & Hn).
    destruct (Hplain role rule Hin He) as [Ha Hact]; [by eexists|].
    exists rule, blocks. do 4 (split; [done|]). split; [|done].
    unfold rule_verdict, shape_of. rewrite Ha, Hb. cbn [mbind]. rewrite bool_decide_eq_true_2 by by eexists.
    destruct (r_address_match rule); [|done]. unfold shape_verdict. by rewrite Hsupport.
Qed.

Lemma link_networks_wf link : Forall block_wf (link_networks book support link).
Proof using Hok Hplain Hsupport.
  apply Forall_forall. intros net Hin. assert (exists role, link = role_link role) as [role ->]
    by (destruct link; [by exists Primary|by exists Secondary]).
  apply link_networks_elem in Hin as (rule & blocks & Hr & _ & Hb & Hn).
  destruct (rule_blocks_ok book role rule blocks Hok Hr Hb) as [Hf _]. rewrite Forall_forall in Hf. by apply Hf.
Qed.

(** The candidates of the network tier are the networks that hold the address. *)
Lemma collect_subnet_elem ip c :
  ip_wf ip ->
  c ∈ collect_subnet book proc ip ->
  exists net, net ∈ link_networks book support (role_link (c_route_role c)) /\ in_block net ip
    /\ c_specificity c = Z.to_N (prefix_len net) /\ c_match_class c = CSubnet /\ c_action c <> Block
    /\ eligible c = true.
Proof using Hok Hplain Hsupport.
  intros Hip (role & rule & Hr & He & Hc)%for_each_enabled_elem. unfold subnet_candidates in Hc.
  destruct (r_address_match rule ≫= ip_blocks) as [blocks|] eqn:Hb; [|by apply not_elem_of_nil in Hc].
  destruct (find_first _ blocks) as [net|] eqn:Ef; [|by apply not_elem_of_nil in Hc].
  apply list_elem_of_singleton in Hc as ->. apply find_first_Some in Ef as [Hn Hcont].
  destruct (Hplain role rule Hr He) as [Ha Hact]; [by eexists|].
  destruct (rule_blocks_ok book role rule blocks Hok Hr Hb) as [Hf _]. rewrite Forall_forall in Hf.
  exists net. cbn. split; [apply link_networks_elem; eauto 8|]. split; [by apply IpBlock_contains_spec; [apply Hf| |]|].
  do 3 (split; [done|]). unfold eligible, eval_app_filter. cbn. by rewrite Ha.
Qed.

Lemma collect_subnet_intro ip role net :
  ip_wf ip -> net ∈ link_networks book support (role_link role) -> in_block net ip ->
  exists c, c ∈ collect_subnet book proc ip /\ c_route_role c = role /\ c_specificity c = Z.to_N (prefix_len net).
Proof using Hok Hplain Hsupport.
  intros Hip (rule & blocks & Hr & He & Hb & Hn)%link_networks_elem Hin.
  destruct (rule_blocks_ok book role rule blocks Hok Hr Hb) as [Hf Hone]. rewrite Forall_forall in Hf.
  destruct (find_first (fun b => IpBlock_contains b ip) blocks) as [b|] eqn:Ef.
  - apply find_first_Some in Ef as Hb'. destruct Hb' as [Hb1 Hb2]. apply IpBlock_contains_spec in Hb2; [|by apply Hf|done].
    assert (b = net) as -> by by apply (Hone ip).
    exists (make_candidate (r_id rule) role CSubnet (Z.to_N (prefix_len net)) (eval_app_filter rule proc) (r_action rule)).
    split; [|by split]. apply for_each_enabled_elem. exists role, rule. do 2 (split; [done|]).
    unfold subnet_candidates. rewrite Hb, Ef. left.
  - rewrite find_first_None in Ef. specialize (Ef net Hn). cbn in Ef.
    apply IpBlock_contains_spec in Hin; [|by apply Hf|done]. congruence.
Qed.

(** Of candidates of the network tier, none routing is outranked by a block. *)
Lemma subnet_cmp c d :
  c_match_class c = CSubnet -> c_match_class d = CSubnet -> c_action c <> Block -> c_action d <> Block ->
  candidate_cmp c d <> Gt ->
  (c_specificity d < c_specificity c)%N
  \/ c_specificity d = c_specificity c /\ (c_route_role c = Primary \/ c_route_role d = Secondary).
Proof using Type.
  intros Hc Hd Ac Ad. unfold candidate_cmp, cmp_then, cmp_on, cmp_rev, then_with. rewrite Hc, Hd, N.compare_refl.
  assert (E : N.compare (action_rank (c_action c)) (action_rank (c_action d)) = Eq)
    by by destruct (c_action c), (c_action d).
  rewrite E. destruct (N.compare_spec (c_specificity d) (c_specificity c)) as [Es|Es|Es]; [|by left|done].
  intros Hr. right. split; [done|]. destruct (c_route_role c), (c_route_role d); cbn in Hr; auto; done.
Qed.

(** The network of the winning candidate is the narrowest that holds the address. *)
Lemma winner_network ip c :
  ip_wf ip -> c ∈ collect_subnet book proc ip ->
  (forall d, d ∈ collect_subnet book proc ip -> eligible d = true -> candidate_cmp c d <> Gt) ->
  exists net, wins (link_networks book support Main) (link_networks book support Additional) ip (role_link (c_route_role c)) net.
Proof using Hok Hplain Hsupport.
  intros Hip Hc Hmax. destruct (collect_subnet_elem ip c Hip Hc) as (net & Hn & Hb & Hs & Hcl & Hact & _).
  pose proof (link_networks_wf (role_link (c_route_role c))) as Hwf. rewrite Forall_forall in Hwf.
  destruct (Hwf net Hn) as (_ & Hpos & _).
  assert (Hle : forall role net', net' ∈ link_networks book support (role_link role) -> in_block net' ip ->
            prefix_len net' <= prefix_len net
            /\ (prefix_len net' = prefix_len net -> c_route_role c = Primary \/ role = Secondary)).
  { intros role net' Hn' Hb'. destruct (collect_subnet_intro ip role net' Hip Hn' Hb') as (d & Hd & Hdr & Hds).
    destruct (collect_subnet_elem ip d Hip Hd) as (_ & _ & _ & _ & Hdc & Hda & Hde).
    pose proof (link_networks_wf (role_link role)) as Hwf'. rewrite Forall_forall in Hwf'. destruct (Hwf' net' Hn') as (_ & Hpos' & _).
    destruct (subnet_cmp c d Hcl Hdc Hact Hda (Hmax d Hd Hde)) as [Hlt|[Heq Hr]]; rewrite Hs, Hds in *.
    - split; [|intros]; lia.
    - rewrite Hdr in Hr. split; [lia|done]. }
  exists net. split; [done|]. split; [by destruct (c_route_role c)|]. split.
  - intros Hl Hin. destruct (Hle Primary net Hin Hb) as [_ [E|E]]; [done| |done]. by rewrite E in Hl.
  - intros other net' Hn' Hb'. apply (Hle match other with Main => Primary | Additional => Secondary end); [by destruct other|done].
Qed.

End Engine.

(** The arbiter and the engine agree on networks. For every book of canonical
    network rules that route for all programs, and every address, the link the
    enforcement side gives the address by its networks is the route of the rule the
    decision engine picks in its network tier, and there is none on one side
    exactly when there is none on the other; so a route is installed where the
    decision sends the connection. *)
Theorem networks_agree_with_engine `{Unicode} book support proc ip :
  networks_ok book -> plain_networks book -> network_destination support = true -> ip_wf ip ->
  (fun w => role_link (c_route_role w)) <$> select_winner (collect_subnet book proc ip)
    = net_winner (of_book book support) ip.
Proof.
  intros Hok Hplain Hsup Hip.
  pose proof (link_networks_wf book support Hok Hplain Hsup Main) as Hm.
  pose proof (link_networks_wf book support Hok Hplain Hsup Additional) as Ha.
  destruct (select_winner (collect_subnet book proc ip)) as [w|] eqn:Ew; cbn [fmap option_fmap option_map].
  - symmetry. apply net_winner_wins; [done..|].
    apply select_winner_Some in Ew as (c & Hc & _ & [m ->] & Hmax & _).
    exact (winner_network book support proc Hok Hplain Hsup ip c Hip Hc Hmax).
  - symmetry. destruct (net_winner (of_book book support) ip) as [link|] eqn:En; [|done]. exfalso.
    apply (net_winner_wins (link_networks book support Main) (link_networks book support Additional)) in En as (net & Hb & Hn & _);
      [|done..].
    destruct (collect_subnet_intro book support proc Hok Hplain Hsup ip
                match link with Main => Primary | Additional => Secondary end net Hip) as (c & Hc & _);
      [by destruct link|done|].
    destruct (collect_subnet_elem book support proc Hok Hplain Hsup ip c Hip Hc) as (_ & _ & _ & _ & _ & _ & He).
    rewrite select_winner_None in Ew. rewrite (Ew c Hc) in He. done.
Qed.

(** ** Examples *)

Definition wide_net : IpBlock := mkIpBlock (ipv4 10 0 0 0) 8.
Definition narrow_net : IpBlock := mkIpBlock (ipv4 10 1 0 0) 16.

Lemma wide_net_wf : block_wf wide_net.
Proof. repeat split; by vm_compute. Qed.

Lemma narrow_net_wf : block_wf narrow_net.
Proof. repeat split; by vm_compute. Qed.

Lemma net_claims_exact_witness :
  net_winner (new_claims [wide_net] [narrow_net; wide_net]) (ipv4 10 1 2 3) = Some Additional
  /\ (net_winner (new_claims [wide_net] [narrow_net; wide_net]) (ipv4 10 1 2 3) = Some Additional <->
      exists net, wins [wide_net] [narrow_net; wide_net] (ipv4 10 1 2 3) Additional net).
Proof.
  split; [by vm_compute|].
  destruct (net_claims_exact [wide_net] [narrow_net; wide_net] (ipv4 10 1 2 3) wide_net) as [Hw _].
  - repeat constructor; apply wide_net_wf.
  - repeat constructor; apply narrow_net_wf || apply wide_net_wf.
  - split; by vm_compute.
  - apply wide_net_wf.
  - apply Hw.
Defined.

Definition wide_rule : CanonicalRule := mkCanonicalRule (u "1") true (Some (Subnet wide_net)) None [] Route None.
Definition narrow_rule : CanonicalRule := mkCanonicalRule (u "2") true (Some (Subnet narrow_net)) None [] Route None.

Lemma networks_agree_with_engine_witness :
  (fun w => role_link (c_route_role w)) <$>
    select_winner (@collect_subnet ascii_unicode (mkCanonicalRuleBook [wide_rule] [narrow_rule]) None (ipv4 10 1 2 3))
  = net_winner (of_book (mkCanonicalRuleBook [wide_rule] [narrow_rule]) (mkSupport true true true)) (ipv4 10 1 2 3).
Proof.
  apply (@networks_agree_with_engine ascii_unicode).
  - intros [] rule ->%list_elem_of_singleton; [apply wide_net_wf|apply narrow_net_wf].
  - by intros [] rule ->%list_elem_of_singleton.
  - done.
  - split; by vm_compute.
Defined.
