(* ===== verification/HostCache.v ===== *)
(** * Cached host names

    core/storage/src/suffix_window.rs, which cached names under a rule earn
    filters when there are too many, and core/services/service-runtime/src/
    fqdn_cache_lookup.rs, the port enforcement reads the name cache through: the
    trait with its provided method as a class, and the snapshot one compute
    reads, with the index that finds the names under a suffix. The rows the
    snapshot is taken from come from the store, so they are an argument; an
    unreadable part is [None]. Times are milliseconds. *)

From stdpp Require Import base numbers list gmap sorting.
From S2P Require Import Prelude Str IpAddr HostMatch.

Open Scope nat_scope.

(** ** The window of a suffix *)

Definition SITE_SHARE_DIVISOR : nat := 16.

(** [canonicalize_hostname], and the way a suffix is read. *)
Definition canonicalize_hostname (input : str) : str :=
  to_ascii_lowercase (trim_end_matches (is_char DOT) (trim input)).

Definition site_of (host suffix : str) : str :=
  let host := to_ascii_lowercase (trim_end_matches (is_char DOT) host) in
  match (rest ← strip_suffix suffix host; strip_suffix [DOT] rest) with
  | None => host
  | Some rest => last_label rest ++ DOT :: suffix
  end.

(** The loop: names per site so far, names placed, names waiting. *)
Fixpoint window_loop (suffix : str) (cap limit : nat) (ordered : list str) (held : gmap str nat)
  (out waiting : list str) : list str * list str :=
  match ordered with
  | [] => (out, waiting)
  | host :: ordered' =>
      if length out =? limit then (out, waiting)
      else
        let site := site_of host suffix in
        let count := default 0 (held !! site) in
        if count <? cap
        then window_loop suffix cap limit ordered' (<[site := S count]> held) (out ++ [host]) waiting
        else
          let waiting := if length waiting <? limit then waiting ++ [host] else waiting in
          window_loop suffix cap limit ordered' (<[site := count]> held) out waiting
  end.

Definition site_cap (limit : nat) : nat := Nat.max (limit / SITE_SHARE_DIVISOR) 1.

Definition fair_suffix_window (ordered : list str) (suffix : str) (limit : nat) : list str :=
  if limit =? 0 then []
  else
    let suffix := canonicalize_hostname suffix in
    let '(out, waiting) := window_loop suffix (site_cap limit) limit ordered ∅ [] [] in
    out ++ take (limit - length out) waiting.

(** ** The lookup port *)

Class FqdnCacheLookup (C : Type) := {
  ips_for_hostname : C -> str -> list IpAddr;
  hostnames_under_suffix : C -> str -> nat -> list str;
}.

Section Port.
Context {C : Type} `{!FqdnCacheLookup C}.

(** The provided method. *)
Definition hostnames_for_suffix_domain (cache : C) (label : str) (limit : nat) : list str :=
  if limit =? 0 then []
  else
    let hosts := hostnames_under_suffix cache label limit in
    let apex := canonicalize_hostname label in
    if is_empty apex || bool_decide (apex ∈ hosts) || match ips_for_hostname cache apex with [] => true | _ => false end
    then hosts
    else
      let hosts := if limit <=? length hosts then removelast hosts else hosts in
      sort_by str_cmp (hosts ++ [apex]).

End Port.

(** [DenylistFilteredCache] of secondary_ip_policy.rs: a view without the declined
    addresses. *)
Record DenylistFilteredCache (C : Type) := mkDenylist { dl_inner : C; dl_denied : gset Z }.
Arguments mkDenylist {C} _ _.
Arguments dl_inner {C} _.
Arguments dl_denied {C} _.

#[export] Instance denylist_lookup {C} `{!FqdnCacheLookup C} : FqdnCacheLookup (DenylistFilteredCache C) := {|
  ips_for_hostname cache host :=
    List.filter (fun ip => match ip with V4 v4 => negb (bool_decide (v4 ∈ dl_denied cache)) | V6 _ => true end)
      (ips_for_hostname (dl_inner cache) host);
  hostnames_under_suffix cache suffix limit := hostnames_under_suffix (dl_inner cache) suffix limit;
|}.

(** ** The index of a suffix *)

(** [BTreeMap::entry(key).or_default().push(at)]. *)
Fixpoint btree_push (key : str) (pos : nat) (m : list (str * list nat)) : list (str * list nat) :=
  match m with
  | [] => [(key, [pos])]
  | (k, v) :: m' =>
      match str_cmp key k with
      | Lt => (key, [pos]) :: m
      | Eq => (k, v ++ [pos]) :: m'
      | Gt => (k, v) :: btree_push key pos m'
      end
  end.

Definition reversed_labels (host : str) : str := str_join [DOT] (reverse (split (is_char DOT) host)).

(** [SuffixIndex], the map by reversed labels in key order. *)
Abbreviation SuffixIndex := (list (str * list nat)) (only parsing).

Fixpoint build_from (pos : nat) (hosts : list str) (m : SuffixIndex) : SuffixIndex :=
  match hosts with
  | [] => m
  | host :: hosts' =>
      build_from (S pos) hosts' (btree_push (reversed_labels (to_ascii_lowercase host)) pos m)
  end.

Definition build_index (hosts : list str) : SuffixIndex := build_from 0 hosts [].

Definition str_lt (a b : str) : bool := match str_cmp a b with Lt => true | _ => false end.

Definition under (index : SuffixIndex) (suffix : str) : list nat :=
  let prefix := reversed_labels suffix ++ [DOT] in
  sort_by Nat.compare
    (concat (snd <$> take_while (fun e => starts_with prefix (fst e))
                       (from_partition_point (fun e => str_lt (fst e) prefix) index))).

(** ** The snapshot *)

Definition confirmed_since (resolved_at cutoff : option Z) : bool :=
  match cutoff, resolved_at with
  | Some cutoff, Some at_ => Z.leb cutoff at_
  | _, _ => true
  end.

Record FqdnCacheSnapshot := mkSnapshot {
  by_hostname : gmap str (list IpAddr);
  hostnames_by_recency : list str;
  direct_host_counts : gmap Z Z;
  shared_direct : gset Z;
  shared_direct_primary_ruled : gset Z;
}.

Definition snapshot_empty : FqdnCacheSnapshot := mkSnapshot ∅ [] ∅ ∅ ∅.

(** What the store answers to the snapshot's reads. *)
Record CacheReads := mkReads {
  snapshot_resolutions : option (list (str * IpAddr * Z));
  snapshot_hostnames : option (list (str * Z));
  shared_ip_direct_host_counts : option (list (Z * Z));
  shared_ip_census_ips : option (list Z);
  shared_ip_census_primary_ruled_ips : option (list Z);
}.

Definition census_or_empty (read : option (list Z)) : gset Z :=
  match read with Some ips => list_to_set ips | None => ∅ end.

(** One turn of the loop over the rows. *)
Definition add_row (cutoff : option Z) (m : gmap str (list IpAddr)) (row : str * IpAddr * Z)
  : gmap str (list IpAddr) :=
  let '(host, addr, resolved_at) := row in
  if confirmed_since (Some resolved_at) cutoff
  then <[host := default [] (m !! host) ++ [addr]]> m else m.

(** [FqdnCacheSnapshot::take]; [None] is a poisoned lock. *)
Definition take_snapshot (cache : option CacheReads) (cutoff : option Z) : FqdnCacheSnapshot :=
  match cache with
  | None => snapshot_empty
  | Some reads => {|
      by_hostname := match snapshot_resolutions reads with
                     | Some rows => fold_left (add_row cutoff) rows ∅
                     | None => ∅
                     end;
      hostnames_by_recency := match snapshot_hostnames reads with Some rows => fst <$> rows | None => [] end;
      direct_host_counts := match shared_ip_direct_host_counts reads with
                            | Some rows => fold_left (fun m '(ip, n) => <[ip := n]> m) rows ∅
                            | None => ∅
                            end;
      shared_direct := census_or_empty (shared_ip_census_ips reads);
      shared_direct_primary_ruled := census_or_empty (shared_ip_census_primary_ruled_ips reads);
    |}
  end.

(** What the store answers about some addresses alone. *)
Record AddressSnapshot := mkAddressSnapshot {
  as_resolutions : list (str * IpAddr * Z);
  as_hostnames : list (str * Z);
  as_direct_host_counts : list (Z * Z);
  as_primary_ruled : list Z;
}.

(** [FqdnCacheSnapshot::take_for_addresses]; [None] is a poisoned lock or a
    failed read. *)
Definition take_for_addresses (read : option AddressSnapshot) (cutoff : option Z) : FqdnCacheSnapshot :=
  match read with
  | None => snapshot_empty
  | Some rows =>
      let by_hostname := fold_left (add_row cutoff) (as_resolutions rows) ∅ in
      {| by_hostname := by_hostname;
         hostnames_by_recency :=
           List.filter (fun host => bool_decide (is_Some (by_hostname !! host))) (fst <$> as_hostnames rows);
         direct_host_counts := fold_left (fun m '(ip, n) => <[ip := n]> m) (as_direct_host_counts rows) ∅;
         shared_direct := list_to_set (fst <$> as_direct_host_counts rows);
         shared_direct_primary_ruled := list_to_set (as_primary_ruled rows) |}
  end.

Definition hostname_count (s : FqdnCacheSnapshot) : nat := size (by_hostname s).

(** [FqdnCacheSnapshot::scoped_to]. *)
Definition scoped_to (s : FqdnCacheSnapshot) (wanted : list IpAddr) : FqdnCacheSnapshot :=
  let by_hostname := omap (fun ips =>
    match List.filter (fun ip => bool_decide (ip ∈ wanted)) ips with [] => None | kept => Some kept end) (by_hostname s) in
  let kept (ip : Z) := V4 ip ∈ wanted in
  {| by_hostname := by_hostname;
     hostnames_by_recency :=
       List.filter (fun host => bool_decide (is_Some (by_hostname !! host))) (hostnames_by_recency s);
     direct_host_counts := filter (fun '(ip, _) => kept ip) (direct_host_counts s);
     shared_direct := filter kept (shared_direct s);
     shared_direct_primary_ruled := filter kept (shared_direct_primary_ruled s) |}.

Definition snapshot_under_suffix (s : FqdnCacheSnapshot) (suffix : str) (limit : nat) : list str :=
  if (limit =? 0) || is_empty suffix then []
  else
    let normalised := canonicalize_hostname suffix in
    if is_empty normalised then []
    else
      let positions := under (build_index (hostnames_by_recency s)) normalised in
      sort_by str_cmp
        (fair_suffix_window (omap (fun pos => hostnames_by_recency s !! pos) positions) normalised limit).

#[export] Instance snapshot_lookup : FqdnCacheLookup FqdnCacheSnapshot := {|
  ips_for_hostname s host := default [] (by_hostname s !! host);
  hostnames_under_suffix := snapshot_under_suffix;
|}.

(** The hosts a [base.*] rule covers. *)
Definition covered_by_any_zone (hosts : list str) (base : str) (limit : nat) : list str :=
  take limit (List.filter (fun h => bool_decide (is_Some (match_any_zone_domain h base)))
                (to_ascii_lowercase <$> hosts)).

Definition snapshot_any_zone (s : FqdnCacheSnapshot) (base : str) (limit : nat) : list str :=
  covered_by_any_zone (hostnames_by_recency s) base limit.

Definition direct_host_count_for_ip (s : FqdnCacheSnapshot) (ip : Z) : Z :=
  default 0%Z (direct_host_counts s !! ip).

(** ** The window, against its reference *)

(** How many names of the site of [host] come before it. *)
Definition site_rank (suffix : str) (before : list str) (host : str) : nat :=
  length (List.filter (fun h => str_eqb (site_of h suffix) (site_of host suffix)) before).

(** The names among the first [cap] of their site ([fair]), or the others. *)
Fixpoint by_share (fair : bool) (suffix : str) (cap : nat) (before ordered : list str) : list str :=
  match ordered with
  | [] => []
  | host :: ordered' =>
      let rest := by_share fair suffix cap (before ++ [host]) ordered' in
      if Bool.eqb (site_rank suffix before host <? cap) fair then host :: rest else rest
  end.

Lemma site_rank_snoc suffix before host h :
  site_rank suffix (before ++ [h]) host
  = site_rank suffix before host + (if str_eqb (site_of h suffix) (site_of host suffix) then 1 else 0).
Proof.
  unfold site_rank. rewrite List.filter_app, length_app. cbn. by destruct (str_eqb _ _).
Qed.

Lemma by_share_cons fair suffix cap before h l :
  by_share fair suffix cap before (h :: l)
  = (if Bool.eqb (site_rank suffix before h <? cap) fair then [h] else []) ++ by_share fair suffix cap (before ++ [h]) l.
Proof. cbn [by_share]. by destruct (Bool.eqb _ fair). Qed.

Lemma by_share_perm suffix cap before ordered :
  by_share true suffix cap before ordered ++ by_share false suffix cap before ordered ≡ₚ ordered.
Proof.
  revert before. induction ordered as [|h l IH]; intros before; [done|]. rewrite !by_share_cons.
  specialize (IH (before ++ [h])). destruct (site_rank suffix before h <? cap); cbn [Bool.eqb app].
  - by rewrite IH.
  - rewrite <- Permutation_middle. by rewrite IH.
Qed.

(** The counts the loop keeps are the ranks, up to the cap. *)
Definition held_ok (suffix : str) (cap : nat) (before : list str) (held : gmap str nat) : Prop :=
  forall host, default 0 (held !! site_of host suffix) = Nat.min cap (site_rank suffix before host).

Lemma held_ok_snoc suffix cap before held h :
  held_ok suffix cap before held ->
  held_ok suffix cap (before ++ [h])
    (<[site_of h suffix := if default 0 (held !! site_of h suffix) <? cap
                           then S (default 0 (held !! site_of h suffix))
                           else default 0 (held !! site_of h suffix)]> held).
Proof.
  intros Hok host. rewrite site_rank_snoc. destruct (decide (site_of h suffix = site_of host suffix)) as [E|E].
  - assert (Hr : site_rank suffix before h = site_rank suffix before host) by (unfold site_rank; by rewrite E).
    rewrite <- E, lookup_insert_eq. cbn [default from_option id].
    assert (str_eqb (site_of h suffix) (site_of h suffix) = true) as -> by by apply str_eqb_eq.
    rewrite (Hok h), <- Hr. destruct (Nat.ltb_spec (cap `min` site_rank suffix before h) cap); lia.
  - rewrite lookup_insert_ne by done. rewrite (Hok host).
    destruct (str_eqb (site_of h suffix) (site_of host suffix)) eqn:Ee; [by apply str_eqb_eq in Ee|lia].
Qed.

Lemma take_snoc_capped {A} (limit : nat) (w : list A) x :
  (if length (take limit w) <? limit then take limit w ++ [x] else take limit w) = take limit (w ++ [x]).
Proof.
  rewrite length_take. destruct (Nat.ltb_spec (limit `min` length w) limit).
  - by rewrite (take_ge w), take_ge by (rewrite ?length_app; cbn; lia).
  - by rewrite take_app_le by lia.
Qed.

Lemma window_loop_spec suffix cap limit ordered : forall before held out w,
  held_ok suffix cap before held -> length out <= limit ->
  let '(out', waiting') := window_loop suffix cap limit ordered held out (take limit w) in
  out' ++ take (limit - length out') waiting'
  = take limit (out ++ by_share true suffix cap before ordered ++ w ++ by_share false suffix cap before ordered).
Proof.
  induction ordered as [|h l IH]; intros before held out w Hok Hlen; cbn [window_loop].
  { cbn [by_share app]. rewrite app_nil_r, take_app, (take_ge out), take_take by lia. do 2 f_equal. lia. }
  destruct (Nat.eqb_spec (length out) limit) as [<-|Hne].
  { by rewrite Nat.sub_diag, take_0, app_nil_r, take_app_length. }
  pose proof (held_ok_snoc _ _ _ _ h Hok) as Hok'. rewrite !by_share_cons.
  assert (Hc : (default 0 (held !! site_of h suffix) <? cap) = (site_rank suffix before h <? cap)).
  { rewrite (Hok h). apply eq_true_iff_eq. rewrite !Nat.ltb_lt. lia. }
  rewrite Hc in *. destruct (site_rank suffix before h <? cap); cbn [Bool.eqb app].
  - specialize (IH _ _ (out ++ [h]) w Hok'). rewrite length_app in IH. cbn in IH.
    assert (Hl : length out + 1 <= limit) by lia. specialize (IH Hl).
    destruct (window_loop _ _ _ l _ _ _) as [o wt]. rewrite IH. by rewrite <- !app_assoc.
  - rewrite take_snoc_capped. specialize (IH _ _ out (w ++ [h]) Hok' Hlen).
    destruct (window_loop _ _ _ l _ _ _) as [o wt]. rewrite IH. by rewrite <- !app_assoc.
Qed.

Lemma fair_window_eq ordered suffix limit :
  fair_suffix_window ordered suffix limit
  = take limit (by_share true (canonicalize_hostname suffix) (site_cap limit) [] ordered
                ++ by_share false (canonicalize_hostname suffix) (site_cap limit) [] ordered).
Proof.
  unfold fair_suffix_window. destruct (Nat.eqb_spec limit 0) as [->|]; [done|].
  pose proof (window_loop_spec (canonicalize_hostname suffix) (site_cap limit) limit ordered [] ∅ [] []) as H.
  rewrite take_nil in H. destruct (window_loop _ _ _ _ _ _ _) as [out waiting].
  apply H; [|cbn; lia]. intros host. rewrite lookup_empty. cbn. lia.
Qed.

Lemma by_share_first suffix cap before pre host post :
  site_rank suffix (before ++ pre) host < cap -> host ∈ by_share true suffix cap before (pre ++ host :: post).
Proof.
  revert before. induction pre as [|h pre IH]; intros before Hr; cbn [app]; rewrite by_share_cons.
  - rewrite app_nil_r in Hr. apply Nat.ltb_lt in Hr. rewrite Hr. left.
  - apply elem_of_app. right. apply IH. by rewrite <- app_assoc.
Qed.

Lemma by_share_bounded suffix cap before ordered host :
  site_rank suffix (by_share true suffix cap before ordered) host + Nat.min cap (site_rank suffix before host) <= cap.
Proof.
  revert before. induction ordered as [|h l IH]; intros before; [cbn; lia|]. rewrite by_share_cons.
  specialize (IH (before ++ [h])). rewrite site_rank_snoc in IH. unfold site_rank in *.
  rewrite List.filter_app, length_app.
  destruct (str_eqb (site_of h suffix) (site_of host suffix)) eqn:E.
  - apply str_eqb_eq in E as E'. rewrite E'.
    destruct (Nat.ltb_spec (length (List.filter (fun h0 => str_eqb (site_of h0 suffix) (site_of host suffix)) before)) cap);
      cbn; rewrite ?E; cbn; lia.
  - assert (length (List.filter (fun h0 => str_eqb (site_of h0 suffix) (site_of host suffix))
              (if Bool.eqb (length (List.filter (fun h0 => str_eqb (site_of h0 suffix) (site_of h suffix)) before) <? cap) true
               then [h] else [])) = 0) as -> by (destruct (Bool.eqb _ true); cbn; by rewrite ?E).
    lia.
Qed.

(** The window of a crowded suffix is full and fair. It holds as many names
    as there are places for, each of them one of the names offered and none more
    often than offered; and either every name among the first [site_cap] of its
    site has a place, or no site holds more than [site_cap] places. So a site
    that answers under thousands of names never takes the place of another
    site's newest name while it holds more than its share itself. *)
Theorem fair_window_spec ordered suffix limit :
  let window := fair_suffix_window ordered suffix limit in
  let rank := site_rank (canonicalize_hostname suffix) in
  length window = Nat.min limit (length ordered)
  /\ (exists rest, window ++ rest ≡ₚ ordered)
  /\ ((forall pre host post, ordered = pre ++ host :: post -> rank pre host < site_cap limit -> host ∈ window)
      \/ forall host, rank window host <= site_cap limit).
Proof.
  cbn zeta. rewrite fair_window_eq. set (suf := canonicalize_hostname suffix).
  pose proof (by_share_perm suf (site_cap limit) [] ordered) as P. split; [by rewrite length_take, P|].
  split; [eexists; rewrite take_drop; exact P|].
  destruct (decide (length (by_share true suf (site_cap limit) [] ordered) <= limit)) as [Hle|Hgt].
  - left. intros pre host post -> Hr. rewrite take_app, take_ge by done. apply elem_of_app. left.
    by apply by_share_first.
  - right. intros host. rewrite take_app_le by lia.
    pose proof (by_share_bounded suf (site_cap limit) [] ordered host) as Hb. unfold site_rank in *.
    rewrite <- (take_drop limit (by_share _ _ _ _ _)), List.filter_app, length_app in Hb. lia.
Qed.

(** ** The index, against a scan *)

Lemma starts_with_between p x y :
  str_cmp p y <> Gt -> str_cmp y x <> Gt -> starts_with p x = true -> starts_with p y = true.
Proof.
  revert x y. induction p as [|c p IH]; intros x y; [done|]. unfold starts_with, str_cmp in *. cbn.
  destruct y as [|d y]; [done|]. destruct x as [|e x]; [done|]. cbn.
  destruct (N.eqb_spec c e) as [->|]; [|done].
  destruct (N.compare_spec e d), (N.compare_spec d e); cbn; try done; try lia. subst.
  rewrite N.eqb_refl. by apply IH.
Qed.

Lemma starts_with_le p x : starts_with p x = true -> str_cmp p x <> Gt.
Proof.
  intros (r & ->)%starts_with_true. unfold str_cmp. induction p as [|c p IH]; cbn; [by destruct r|].
  by rewrite N.compare_refl.
Qed.

Definition key_le (a b : str * list nat) : Prop := str_cmp (fst a) (fst b) <> Gt.

Lemma btree_push_elem key pos m e : e ∈ btree_push key pos m -> fst e = key \/ exists e', e' ∈ m /\ fst e = fst e'.
Proof.
  induction m as [|[k v] m IH]; cbn; [intros ->%list_elem_of_singleton; by left|].
  assert (Hhere : forall w, exists e', e' ∈ (k, v) :: m /\ fst (k, w : list nat) = fst e')
    by (intros w; exists (k, v); split; [left|done]).
  assert (Hthere : forall e e' : str * list nat, e' ∈ m -> fst e = fst e' -> exists e', e' ∈ (k, v) :: m /\ fst e = fst e')
    by (intros x y Hy Hxy; exists y; split; [by right|done]).
  destruct (str_cmp key k); rewrite !elem_of_cons.
  - intros [->|Hin]; eauto.
  - intros [->|[->|Hin]]; eauto.
  - intros [->|[->|(e' & Hin & E)]%IH]; eauto.
Qed.

Lemma btree_push_sorted key pos m : StronglySorted key_le m -> StronglySorted key_le (btree_push key pos m).
Proof.
  induction 1 as [|[k v] m Hs IH Hf]; cbn; [repeat constructor|]. rewrite Forall_forall in Hf. unfold key_le in *.
  destruct (str_cmp key k) eqn:E.
  - constructor; [done|]. apply Forall_forall. intros e He. by apply Hf.
  - constructor; [constructor; [done|by apply Forall_forall]|]. apply Forall_forall. cbn.
    intros e [->|He]%elem_of_cons; cbn; [by rewrite E|]. rewrite (cmp_lt_le_trans str_cmp key k); [done..|by apply Hf].
  - constructor; [done|]. apply Forall_forall. intros e [->|(e' & He' & ->)]%btree_push_elem; cbn; [|by apply Hf].
    apply (cmp_gt_lt str_cmp) in E. by rewrite E.
Qed.

(** What a test on keys reads off the map. *)
Definition read_keys (p : str -> bool) (m : list (str * list nat)) : list nat :=
  concat (snd <$> List.filter (fun e => p (fst e)) m).

Lemma read_keys_push p key pos m : read_keys p (btree_push key pos m) ≡ₚ (if p key then [pos] else []) ++ read_keys p m.
Proof.
  unfold read_keys. induction m as [|[k v] m IH]; cbn; [by destruct (p key)|].
  destruct (str_cmp key k) eqn:E; cbn.
  - apply (cmp_eq str_cmp) in E as ->. destruct (p k); cbn; [|done].
    rewrite <- app_assoc. cbn. by rewrite Permutation_middle.
  - by destruct (p key).
  - destruct (p k); cbn; [|done]. rewrite IH. rewrite !app_assoc. by rewrite (Permutation_app_comm v).
Qed.

Lemma build_from_read p pos hosts m :
  read_keys p (build_from pos hosts m)
  ≡ₚ read_keys p m ++ List.filter (fun i => match hosts !! (i - pos) with
                                            | Some h => p (reversed_labels (to_ascii_lowercase h))
                                            | None => false
                                            end) (seq pos (length hosts)).
Proof.
  revert pos m. induction hosts as [|h hosts IH]; intros pos m; cbn [build_from length seq List.filter]; [by rewrite app_nil_r|].
  rewrite IH, read_keys_push, Nat.sub_diag. cbn [lookup list_lookup].
  rewrite (Permutation_app_comm (if p _ then _ else _)), <- app_assoc. f_equiv.
  assert (E : List.filter (fun i => match hosts !! (i - S pos) with
                                    | Some h => p (reversed_labels (to_ascii_lowercase h)) | None => false end)
                (seq (S pos) (length hosts))
            = List.filter (fun i => match (h :: hosts) !! (i - pos) with
                                    | Some h => p (reversed_labels (to_ascii_lowercase h)) | None => false end)
                (seq (S pos) (length hosts))).
  { apply List.filter_ext_in. intros i Hi%List.in_seq. by replace (i - pos) with (S (i - S pos)) by lia. }
  rewrite E. by destruct (p (reversed_labels (to_ascii_lowercase h))).
Qed.

Lemma build_from_sorted pos hosts m : StronglySorted key_le m -> StronglySorted key_le (build_from pos hosts m).
Proof.
  revert pos m. induction hosts as [|h hosts IH]; intros pos m Hm; cbn; [done|]. by apply IH, btree_push_sorted.
Qed.

Lemma str_join_app sep a b :
  a <> [] -> b <> [] -> str_join sep (a ++ b) = str_join sep a ++ sep ++ str_join sep b.
Proof.
  intros Ha Hb. induction a as [|x a IH]; [done|]. destruct a as [|y a]; [cbn [app]; by rewrite str_join_cons|].
  change ((x :: y :: a) ++ b) with (x :: ((y :: a) ++ b)). rewrite !str_join_cons by done.
  rewrite IH by done. by rewrite <- !app_assoc.
Qed.

Lemma reversed_split_not_nil s : reverse (split (is_char DOT) s) <> [].
Proof. intros E%(f_equal length). rewrite length_reverse in E. pose proof (split_length_pos (is_char DOT) s). cbn in E. lia. Qed.

Lemma reversed_labels_dot a b : reversed_labels (a ++ DOT :: b) = reversed_labels b ++ DOT :: reversed_labels a.
Proof.
  unfold reversed_labels. rewrite split_app by (unfold is_char; apply N.eqb_refl).
  rewrite reverse_app, str_join_app by apply reversed_split_not_nil. done.
Qed.

Lemma reversed_labels_involutive s : reversed_labels (reversed_labels s) = s.
Proof.
  unfold reversed_labels at 1. unfold reversed_labels. rewrite split_str_join, reverse_involutive, str_join_split; [done| |].
  - apply reversed_split_not_nil.
  - intros q Hq. apply (proj1 (elem_of_reverse _ _)) in Hq. by eapply split_pieces.
Qed.

Lemma reversed_labels_under host suffix :
  starts_with (reversed_labels suffix ++ [DOT]) (reversed_labels host) = ends_with (DOT :: suffix) host.
Proof.
  apply eq_true_iff_eq. rewrite starts_with_true, ends_with_true. split.
  - intros [r E]. exists (reversed_labels r). rewrite <- (reversed_labels_involutive host), E, <- app_assoc. cbn.
    by rewrite reversed_labels_dot, reversed_labels_involutive.
  - intros [r ->]. exists (reversed_labels r). by rewrite reversed_labels_dot, <- app_assoc.
Qed.

Lemma nat_sorted_seq p pos n : StronglySorted (cmp_le Nat.compare) (List.filter p (seq pos n)).
Proof.
  revert pos. induction n as [|n IH]; intros pos; cbn; [constructor|]. destruct (p pos); [|apply IH].
  constructor; [apply IH|]. apply Forall_forall. intros x [Hx%list_elem_of_In%List.in_seq _]%filter_elem.
  unfold cmp_le. rewrite Nat.compare_gt_iff. lia.
Qed.

#[export] Instance nat_cmp_total : CmpTotal Nat.compare.
Proof.
  split; [split|].
  - intros x y. apply Nat.compare_antisym.
  - intros x y z. rewrite !Nat.compare_ngt_iff. lia.
  - intros x y. apply Nat.compare_eq.
Qed.

(** The range of keys the index reads is a scan of every name. *)
Lemma under_scan hosts suffix :
  under (build_index hosts) suffix
  = List.filter (fun i => match hosts !! i with
                          | Some host => ends_with (DOT :: suffix) (to_ascii_lowercase host)
                          | None => false
                          end) (seq 0 (length hosts)).
Proof.
  unfold under, build_index. set (prefix := reversed_labels suffix ++ [DOT]).
  rewrite (range_is_filter key_le).
  - change (concat _) with (read_keys (starts_with prefix) (build_from 0 hosts [])).
    rewrite (sort_by_canonical Nat.compare _ _ (build_from_read (starts_with prefix) 0 hosts [])). cbn [read_keys app].
    assert (E : forall i, match hosts !! (i - 0) with
                          | Some h => starts_with prefix (reversed_labels (to_ascii_lowercase h)) | None => false end
                = match hosts !! i with
                  | Some host => ends_with (DOT :: suffix) (to_ascii_lowercase host) | None => false end).
    { intros i. rewrite Nat.sub_0_r. destruct (hosts !! i); [|done]. apply reversed_labels_under. }
    rewrite (List.filter_ext _ _ E). apply sort_by_id, nat_sorted_seq.
  - apply build_from_sorted. constructor.
  - intros [k v]. cbn. unfold str_lt. intros Hlt. apply not_true_iff_false. intros Hs%starts_with_le.
    rewrite (cmp_opp str_cmp k prefix) in Hs. by destruct (str_cmp k prefix).
  - intros [k v] [k' v']. unfold key_le, str_lt. cbn. intros Hle Hb. apply starts_with_between; [|done].
    rewrite (cmp_opp str_cmp k prefix). by destruct (str_cmp k prefix).
  - intros [k v] [k' v']. unfold key_le, str_lt. cbn. intros Hle Hb.
    destruct (str_cmp k' prefix) eqn:E; try done.
    by rewrite (cmp_le_lt_trans str_cmp k k' prefix Hle E) in Hb.
Qed.

(** ** What the snapshot lists *)

(** The cached names below [suffix], newest first. *)
Definition names_under (s : FqdnCacheSnapshot) (suffix : str) : list str :=
  List.filter (fun h => ends_with (DOT :: suffix) (to_ascii_lowercase h)) (hostnames_by_recency s).

Lemma omap_positions {A} (p : A -> bool) (l : list A) :
  omap (fun i => l !! i) (List.filter (fun i => match l !! i with Some x => p x | None => false end) (seq 0 (length l)))
  = List.filter p l.
Proof.
  assert (H : forall l pre, omap (fun i => (pre ++ l) !! i)
    (List.filter (fun i => match (pre ++ l) !! i with Some x => p x | None => false end) (seq (length pre) (length l)))
    = List.filter p l); [|exact (H l [])].
  clear l. induction l as [|x l IH]; intros pre; cbn; [done|]. specialize (IH (pre ++ [x])).
  rewrite length_app, <- app_assoc in IH. cbn in IH. rewrite Nat.add_1_r in IH.
  rewrite list_lookup_middle by done. destruct (p x); [|exact IH]. cbn.
  rewrite list_lookup_middle by done. by rewrite IH.
Qed.

Lemma snapshot_under_suffix_eq s suffix limit :
  canonicalize_hostname suffix <> [] ->
  snapshot_under_suffix s suffix limit
  = sort_by str_cmp (fair_suffix_window (names_under s (canonicalize_hostname suffix)) (canonicalize_hostname suffix) limit).
Proof.
  intros Hn. unfold snapshot_under_suffix. destruct (Nat.eqb_spec limit 0) as [->|Hl]; [done|].
  destruct suffix as [|c suffix]; [done|]. cbn [is_empty orb].
  destruct (is_empty (canonicalize_hostname (c :: suffix))) eqn:E; [by apply is_empty_true in E|].
  by rewrite under_scan, omap_positions.
Qed.

(** The index answers what a scan of every name answers. For any list of
    cached names and any suffix, the positions the index finds by one range of
    its keys are exactly those of the names that end, in lower case, with a dot
    and the suffix, in the order of the list; and what the snapshot lists under a
    suffix is the fair window of that scan, in name order, nothing when the
    suffix is blank. *)
Theorem suffix_index_is_scan s suffix limit :
  (forall hosts, under (build_index hosts) suffix
     = List.filter (fun i => match hosts !! i with
                             | Some host => ends_with (DOT :: suffix) (to_ascii_lowercase host)
                             | None => false
                             end) (seq 0 (length hosts)))
  /\ hostnames_under_suffix s suffix limit
     = let normalised := canonicalize_hostname suffix in
       if is_empty normalised then []
       else sort_by str_cmp (fair_suffix_window (names_under s normalised) normalised limit).
Proof.
  split; [intros; apply under_scan|]. cbn [hostnames_under_suffix snapshot_lookup]. cbn zeta.
  destruct (is_empty (canonicalize_hostname suffix)) eqn:E.
  - unfold snapshot_under_suffix. rewrite E. by destruct (_ || _).
  - apply snapshot_under_suffix_eq. by apply is_empty_false.
Qed.

Lemma fair_window_sound ordered suffix limit x : x ∈ fair_suffix_window ordered suffix limit -> x ∈ ordered.
Proof.
  rewrite fair_window_eq. intros Hx%elem_of_take. destruct Hx as (i & Hi & _).
  rewrite <- (by_share_perm (canonicalize_hostname suffix) (site_cap limit) []). by eapply list_elem_of_lookup_2.
Qed.

Lemma fair_window_complete ordered suffix limit :
  length ordered <= limit -> fair_suffix_window ordered suffix limit ≡ₚ ordered.
Proof.
  intros Hle. rewrite fair_window_eq, take_ge; [apply by_share_perm|]. by rewrite by_share_perm.
Qed.

Lemma snapshot_under_suffix_elem s suffix limit h :
  canonicalize_hostname suffix = suffix -> suffix <> [] -> length (names_under s suffix) <= limit ->
  h ∈ snapshot_under_suffix s suffix limit <->
  h ∈ hostnames_by_recency s /\ ends_with (DOT :: suffix) (to_ascii_lowercase h) = true.
Proof.
  intros Hc Hne Hle. rewrite snapshot_under_suffix_eq, Hc by by rewrite Hc.
  rewrite sort_by_elem_of, fair_window_complete by done.
  apply (filter_elem (fun h => ends_with (DOT :: suffix) (to_ascii_lowercase h))).
Qed.

Lemma scoped_ips s wanted host :
  ips_for_hostname (scoped_to s wanted) host
  = List.filter (fun ip => bool_decide (ip ∈ wanted)) (ips_for_hostname s host).
Proof.
  cbn. rewrite lookup_omap. destruct (by_hostname s !! host) as [ips|]; cbn; [|done].
  by destruct (List.filter _ ips).
Qed.

Lemma scoped_listed s wanted host :
  host ∈ hostnames_by_recency (scoped_to s wanted) <->
  host ∈ hostnames_by_recency s /\ exists ip, ip ∈ wanted /\ ip ∈ ips_for_hostname s host.
Proof.
  cbn. rewrite filter_elem, bool_decide_eq_true, lookup_omap. f_equiv.
  destruct (by_hostname s !! host) as [ips|]; cbn; [|split; [by intros []|by intros (ip & _ & ?%not_elem_of_nil)]].
  destruct (List.filter (fun ip => bool_decide (ip ∈ wanted)) ips) as [|x l] eqn:E.
  - split; [by intros []|]. intros (ip & Hw & Hin).
    assert (Hf : ip ∈ List.filter (fun ip => bool_decide (ip ∈ wanted)) ips)
      by (apply filter_elem; by rewrite bool_decide_eq_true).
    rewrite E in Hf. by apply not_elem_of_nil in Hf.
  - split; [|by eexists]. intros _. exists x.
    assert (Hx : x ∈ List.filter (fun ip => bool_decide (ip ∈ wanted)) ips) by (rewrite E; left).
    apply filter_elem in Hx as [Hx Hw]. by rewrite bool_decide_eq_true in Hw.
Qed.

(** ** A snapshot read for some addresses *)

(** The addresses of the confirmed rows of a host, in the order of the rows. *)
Definition confirmed_rows (cutoff : option Z) (host : str) (rows : list (str * IpAddr * Z)) : list IpAddr :=
  omap (fun '(h, addr, at_) => if str_eqb h host && confirmed_since (Some at_) cutoff then Some addr else None) rows.

Lemma add_rows_lookup cutoff rows host :
  fold_left (add_row cutoff) rows ∅ !! host
  = match confirmed_rows cutoff host rows with [] => None | ips => Some ips end.
Proof.
  unfold confirmed_rows. induction rows as [|[[h addr] at_] rows IH] using rev_ind; [apply lookup_empty|].
  rewrite fold_left_app, omap_app. cbn [fold_left]. unfold add_row at 1. set (m := fold_left (add_row cutoff) rows ∅) in *.
  cbn. destruct (confirmed_since (Some at_) cutoff); [|by rewrite andb_false_r, app_nil_r].
  rewrite andb_true_r. destruct (str_eqb h host) eqn:E.
  - apply str_eqb_eq in E as ->. rewrite lookup_insert_eq, IH. by destruct (omap _ rows).
  - rewrite lookup_insert_ne, app_nil_r; [done|]. intros ->. by rewrite str_eqb_refl in E.
Qed.

Lemma add_counts_lookup (rows : list (Z * Z)) ip n :
  NoDup rows.*1 ->
  fold_left (fun (m : gmap Z Z) '(ip, n) => <[ip := n]> m) rows ∅ !! ip = Some n <-> (ip, n) ∈ rows.
Proof.
  induction rows as [|[i k] rows IH] using rev_ind.
  { intros _. cbn. rewrite lookup_empty. split; [done|by intros ?%not_elem_of_nil]. }
  rewrite fmap_app, NoDup_app. intros (Hnd & Hdis & _). specialize (IH Hnd).
  rewrite fold_left_app, elem_of_app, list_elem_of_singleton, <- IH. cbn [fold_left].
  destruct (decide (i = ip)) as [->|Hne].
  - rewrite lookup_insert_eq. split; [intros [= ->]; by right|].
    intros [Hin%IH|[= ->]]; [|done]. exfalso.
    apply (Hdis ip); [exact (list_elem_of_fmap_2 fst _ _ Hin)|left].
  - rewrite lookup_insert_ne by done. naive_solver.
Qed.

(** The rows about [wanted] are the snapshot's own rows cut down to them, as the
    store documents them. *)
Definition cut_down (reads : CacheReads) (wanted : list IpAddr) (rows : AddressSnapshot) : Prop :=
  exists resolutions hostnames counts census primary,
    reads = mkReads (Some resolutions) (Some hostnames) (Some counts) (Some census) (Some primary)
    /\ as_resolutions rows = List.filter (fun '(_, addr, _) => bool_decide (addr ∈ wanted)) resolutions
    /\ as_hostnames rows
       = List.filter (fun '(h, _) => existsb (fun '(h', _, _) => str_eqb h' h) (as_resolutions rows)) hostnames
    /\ NoDup counts.*1 /\ as_direct_host_counts rows ≡ₚ List.filter (fun '(ip, _) => bool_decide (V4 ip ∈ wanted)) counts
    /\ (forall ip, ip ∈ census <-> ip ∈ counts.*1)
    /\ (forall ip, ip ∈ as_primary_ruled rows <-> ip ∈ primary /\ V4 ip ∈ wanted).

Lemma confirmed_rows_filter cutoff host (wanted : list IpAddr) rows :
  confirmed_rows cutoff host (List.filter (fun '(_, addr, _) => bool_decide (addr ∈ wanted)) rows)
  = List.filter (fun ip => bool_decide (ip ∈ wanted)) (confirmed_rows cutoff host rows).
Proof.
  unfold confirmed_rows. induction rows as [|[[h addr] at_] rows IH]; [done|]. cbn.
  destruct (bool_decide (addr ∈ wanted)) eqn:E, (str_eqb h host && confirmed_since (Some at_) cutoff) eqn:E'; cbn;
    rewrite ?E, ?E', ?IH; done.
Qed.

Lemma confirmed_rows_listed cutoff host rows :
  confirmed_rows cutoff host rows <> [] -> existsb (fun '(h', _, _) => str_eqb h' host) rows = true.
Proof.
  unfold confirmed_rows. induction rows as [|[[h addr] at_] rows IH]; [done|]. cbn.
  destruct (str_eqb h host); [done|]. exact IH.
Qed.

(** Hosts without a row have no addresses, so dropping them first changes nothing. *)
Lemma hosts_with_rows {A} (m : gmap str A) (rows : list (str * IpAddr * Z)) (hostnames : list (str * Z)) :
  (forall host, is_Some (m !! host) -> existsb (fun '(h', _, _) => str_eqb h' host) rows = true) ->
  List.filter (fun host => bool_decide (is_Some (m !! host)))
    (List.filter (fun '(h, _) => existsb (fun '(h', _, _) => str_eqb h' h) rows) hostnames).*1
  = List.filter (fun host => bool_decide (is_Some (m !! host))) hostnames.*1.
Proof.
  intros H. induction hostnames as [|[h seen] hostnames IH]; [done|]. cbn.
  destruct (existsb _ rows) eqn:E; cbn; [by rewrite IH|].
  case_bool_decide as Hs; [|done]. by rewrite H in E.
Qed.

Lemma nodup_filter_keys (p : Z * Z -> bool) (l : list (Z * Z)) : NoDup l.*1 -> NoDup (List.filter p l).*1.
Proof.
  induction l as [|x l IH]; cbn; [done|]. rewrite NoDup_cons. intros [Hx Hnd].
  destruct (p x); [|by apply IH]. cbn. rewrite NoDup_cons. split; [|by apply IH].
  intros (y & Hy & [Hin _]%filter_elem)%list_elem_of_fmap. apply Hx. rewrite Hy. by apply list_elem_of_fmap_2.
Qed.

(** Reading the rows of a few addresses gives the snapshot cut down to them.
    When the store's answer about some addresses is its whole answer cut down to
    them, the snapshot built from it is the one [scoped_to] makes of the whole
    snapshot: the same addresses of each host, the same hosts in the same order,
    the same census. *)
Theorem take_for_addresses_is_scoped reads wanted rows cutoff :
  cut_down reads wanted rows ->
  take_for_addresses (Some rows) cutoff = scoped_to (take_snapshot (Some reads) cutoff) wanted.
Proof.
  intros (resolutions & hostnames & counts & census & primary & -> & Hr & Hh & Hnd & Hc & Hcen & Hp).
  unfold take_for_addresses, scoped_to, take_snapshot. cbn [by_hostname hostnames_by_recency direct_host_counts shared_direct
    shared_direct_primary_ruled snapshot_resolutions snapshot_hostnames shared_ip_direct_host_counts shared_ip_census_ips
    shared_ip_census_primary_ruled_ips census_or_empty].
  assert (Hm : fold_left (add_row cutoff) (as_resolutions rows) ∅
    = omap (fun ips => match List.filter (fun ip => bool_decide (ip ∈ wanted)) ips with [] => None | kept => Some kept end)
        (fold_left (add_row cutoff) resolutions ∅)).
  { apply map_eq. intros host. rewrite lookup_omap, !add_rows_lookup, Hr, confirmed_rows_filter.
    by destruct (confirmed_rows cutoff host resolutions) as [|x l]. }
  f_equal.
  - exact Hm.
  - rewrite <- Hm, Hh. apply hosts_with_rows. intros host Hs. rewrite add_rows_lookup in Hs.
    apply (confirmed_rows_listed cutoff). by destruct (confirmed_rows cutoff host (as_resolutions rows)); [destruct Hs|].
  - assert (Hnd' : NoDup (as_direct_host_counts rows).*1) by (rewrite Hc; by apply nodup_filter_keys).
    apply map_eq. intros ip. apply option_eq. intros n.
    rewrite add_counts_lookup, map_lookup_filter_Some, add_counts_lookup, Hc by done.
    rewrite filter_elem, bool_decide_eq_true. done.
  - apply set_eq. intros ip. rewrite elem_of_list_to_set, elem_of_filter, elem_of_list_to_set, Hcen, Hc, !list_elem_of_fmap.
    setoid_rewrite filter_elem. split.
    + intros ([i n] & -> & Hin & Hw). rewrite bool_decide_eq_true in Hw. split; [done|]. by exists (i, n).
    + intros (Hw & [i n] & -> & Hin). exists (i, n). rewrite bool_decide_eq_true. done.
  - apply set_eq. intros ip. rewrite elem_of_list_to_set, elem_of_filter, elem_of_list_to_set, Hp. tauto.
Qed.

Definition sample_reads : CacheReads :=
  mkReads (Some [(u "a.example", ipv4 192 0 2 1, 50%Z); (u "b.example", ipv4 192 0 2 2, 60%Z)])
    (Some [(u "b.example", 60%Z); (u "a.example", 50%Z)]) (Some [(3221225986%Z, 1%Z)]) (Some [3221225986%Z]) (Some []).

Definition sample_rows : AddressSnapshot :=
  mkAddressSnapshot [(u "b.example", ipv4 192 0 2 2, 60%Z)] [(u "b.example", 60%Z)] [(3221225986%Z, 1%Z)] [].

Lemma take_for_addresses_is_scoped_witness :
  take_for_addresses (Some sample_rows) (Some 10%Z) = scoped_to (take_snapshot (Some sample_reads) (Some 10%Z)) [ipv4 192 0 2 2].
Proof.
  apply take_for_addresses_is_scoped. eexists _, _, _, _, _. split; [reflexivity|].
  split; [by vm_compute|]. split; [by vm_compute|]. split; [apply NoDup_singleton|].
  split; [by vm_compute|]. split; [done|].
  intros ip. split; [by intros ?%not_elem_of_nil|by intros [?%not_elem_of_nil _]].
Defined.
