(* ===== verification/PublicZone.v ===== *)
(** * Zones anybody can register a name under

    core/domain/src/public_zone.rs: what a name held only through a public
    top-level zone may bring into the tunnel. *)

From stdpp Require Import base numbers list.
From S2P Require Import Prelude Str IpAddr IpBlock HostMatch NetPolicy.

Open Scope N_scope.

Definition GENERIC_TLDS : list str :=
  [u "com"; u "net"; u "org"; u "info"; u "biz"; u "edu"; u "gov"; u "mil"; u "int"; u "name";
   u "pro"; u "mobi"; u "asia"; u "tel"; u "travel"; u "jobs"; u "aero"; u "coop"; u "museum";
   u "cat"; u "xyz"; u "top"; u "online"; u "site"; u "store"; u "shop"; u "app"; u "dev";
   u "club"; u "live"; u "tech"; u "space"; u "website"; u "fun"; u "icu"; u "vip"; u "work";
   u "life"; u "world"; u "today"; u "news"; u "blog"; u "cloud"; u "link"; u "click"; u "page";
   u "media"; u "art"; u "one"; u "group"; u "global"; u "digital"; u "network"; u "email";
   u "games"; u "agency"; u "solutions"; u "services"; u "company"; u "center"; u "zone";
   u "moscow"; u "tatar"].

(** Internationalised country names, as stored. *)
Definition IDN_COUNTRY_TLDS : list str :=
  [u "xn--p1ai"; u "xn--p1acf"; u "xn--90ais"; u "xn--j1amh"; u "xn--80ao21a"; u "xn--d1alf";
   u "xn--90a3ac"; u "xn--l1acc"; u "xn--90ae"; u "xn--node"; u "xn--y9a3aq"; u "xn--fiqs8s";
   u "xn--fiqz9s"; u "xn--j6w193g"; u "xn--kprw13d"; u "xn--3e0b707e"; u "xn--wgbh1c";
   u "xn--mgberp4a5d4ar"; u "xn--mgbaam7a8h"; u "xn--h2brj9c"; u "xn--o3cw4h"].

(** [str::trim_matches]. *)
Definition trim_matches (p : char -> bool) (s : str) : str := trim_end_matches p (trim_start_matches p s).

(** The letters of a two-letter code reserved for private use. *)
Definition is_private_use_code (code : str) : bool :=
  match code with
  | [a; b] =>
      ((a =? 97) && (b =? 97)) || ((a =? 113) && (109 <=? b) && (b <=? 122))
      || ((a =? 120) && (97 <=? b) && (b <=? 122)) || ((a =? 122) && (b =? 122))
  | _ => false
  end.

Definition is_public_tld (label : str) : bool :=
  let label := to_ascii_lowercase (trim_matches (is_char DOT) label) in
  if (byte_len label =? 2)%nat then forallb is_ascii_lowercase label && negb (is_private_use_code label)
  else bool_decide (label ∈ GENERIC_TLDS) || bool_decide (label ∈ IDN_COUNTRY_TLDS).

Definition is_public_zone (zone : str) : bool :=
  let zone := trim_matches (is_char DOT) zone in
  negb (is_empty zone) && negb (contains_char (is_char DOT) zone) && is_public_tld zone.

Definition admits_zone_learned_address (host : str) (ip : IpAddr) : bool :=
  let tld := last_label (trim_end_matches (is_char DOT) host) in
  negb (is_public_zone tld && is_private_address ip).
