(* ===== verification/AddressOwner.v ===== *)
(** * Who owns an address

    core/services/service-runtime/src/address_ownership.rs: the arbiter every
    enforcement mechanism asks which link an address belongs to, whether a block
    may be put on it, and which of a program's addresses its rule may take. The
    name cache is any [FqdnCacheLookup], the observed destinations of programs
    any [AppObservationLookup]; hash sets and maps are [gset] and [gmap], and a
    loop over one that the result does not depend on the order of is a fold over
    its elements. The list [explicit_sorted] caches is computed where it is read. *)

From stdpp Require Import base numbers list gmap sorting.
From S2P Require Import Prelude Str Digits IpAddr IpBlock AppPath AppIdentity AutoRule HostMatch Canonical.
From S2P Require Import NetPolicy Normalize Matching NetClaims HostCache PublicZone.

Open Scope N_scope.

(** ** Claims and their order *)

Inductive NameClaim : Set :=
| ZoneClaim (labels : N) | SuffixClaim (labels : N) | SiteZoneClaim (labels : N) | ExactFqdnClaim.

#[export] Instance NameClaim_eq_dec : EqDecision NameClaim.
Proof. solve_decision. Defined.

Definition claim_key (c : NameClaim) : N * N :=
  match c with
  | ZoneClaim labels => (0, labels)
  | SuffixClaim labels => (1, 2 * labels)
  | SiteZoneClaim labels => (1, 2 * labels + 1)
  | ExactFqdnClaim => (2, 0)
  end.

Definition claim_cmp : NameClaim -> NameClaim -> comparison := cmp_on claim_key (pair_cmp N.compare N.compare).
Definition claim_gt (a b : NameClaim) : bool := match claim_cmp a b with Gt => true | _ => false end.

Inductive ZoneVsIpOrder : Set := ExactIpFirst | ZoneFirst.

#[export] Instance ZoneVsIpOrder_eq_dec : EqDecision ZoneVsIpOrder.
Proof. solve_decision. Defined.

Definition from_zone_priority_over_ip (zone_first : bool) : ZoneVsIpOrder :=
  if zone_first then ZoneFirst else ExactIpFirst.

Record OwnershipSettings : Set := mkSettings { os_order : ZoneVsIpOrder; os_app_takeover : bool }.

Definition from_policy (zone_priority_over_ip app_rules_take_all_addresses : bool) : OwnershipSettings :=
  mkSettings (from_zone_priority_over_ip zone_priority_over_ip) app_rules_take_all_addresses.

Abbreviation ClaimRank := (N * N)%type (only parsing).

Definition rank_cmp : ClaimRank -> ClaimRank -> comparison := pair_cmp N.compare N.compare.
Definition rank_gt (a b : ClaimRank) : bool := match rank_cmp a b with Gt => true | _ => false end.

Definition host_rank (claim : NameClaim) (order : ZoneVsIpOrder) : ClaimRank :=
  match claim with
  | ZoneClaim labels => match order with ExactIpFirst => (0, labels) | ZoneFirst => (2, labels) end
  | SuffixClaim labels => (3, 2 * labels)
  | SiteZoneClaim labels => (3, 2 * labels + 1)
  | ExactFqdnClaim => (4, 0)
  end.

Definition subnet_rank (prefix : Z) (order : ZoneVsIpOrder) : ClaimRank :=
  match order with ExactIpFirst => (1, Z.to_N prefix) | ZoneFirst => (0, Z.to_N prefix) end.

Definition literal_rank (order : ZoneVsIpOrder) : ClaimRank :=
  match order with ExactIpFirst => (2, 0) | ZoneFirst => (1, 0) end.

(** [label_count] of the arbiter: empty labels do not count. *)
Definition claim_labels (name : str) : N :=
  N.of_nat (length (List.filter (fun l => negb (is_empty l)) (split (is_char DOT) name))).

Definition zone_claim (zone : str) (own : option (CanonicalRuleSet * option CanonicalAppMatch)) : NameClaim :=
  if negb (zone_ranks_as_suffix zone) then ZoneClaim (claim_labels zone)
  else match own with
       | Some (set, app) =>
           if holds_suffix set zone app then SuffixClaim (claim_labels zone) else SiteZoneClaim (claim_labels zone)
       | None => SiteZoneClaim (claim_labels zone)
       end.

Definition block_rank (block : CanonicalAddressMatch) (ip : IpAddr) (order : ZoneVsIpOrder) : option ClaimRank :=
  match block with
  | ExactIp _ => None
  | Subnet _ | Range _ =>
      blocks ← ip_blocks block;
      piece ← find_first (fun net => IpBlock_contains net ip) blocks;
      Some (subnet_rank (prefix_len piece) order)
  | ExactFqdn _ => Some (host_rank ExactFqdnClaim order)
  | SuffixDomain s => Some (host_rank (SuffixClaim (claim_labels s)) order)
  | Zone z => Some (host_rank (zone_claim z None) order)
  | AnyZoneDomain _ => None
  end.

(** ** The caps of the codegen and the planner *)

Definition SUFFIX_FANOUT_BACKSTOP : nat := Z.to_nat 4096.
Definition PER_HOSTNAME_IP_CAP : nat := 64.

#[global] Opaque SUFFIX_FANOUT_BACKSTOP.

Inductive FamilyScope : Set := V4Only | Both.

Definition admits (families : FamilyScope) (ip : IpAddr) : bool :=
  match families, ip with Both, _ | V4Only, V4 _ => true | V4Only, V6 _ => false end.

(** ** What one rule set claims *)

Definition is_route (action : RuleAction) : bool := match action with Block => false | Route | Verify => true end.

Record SetClaims := mkSetClaims {
  sc_names : gmap str NameClaim;
  sc_literal : gset IpAddr;
  sc_networks : list IpBlock;
}.

(** The entry of a map of claims is the strongest of them. *)
Definition raise_claim {K} `{Countable K} (claims : gmap K NameClaim) (k : K) (c : NameClaim) : gmap K NameClaim :=
  <[k := match claims !! k with Some best => if claim_gt c best then c else best | None => c end]> claims.

Section Cache.
Context {C : Type} `{!FqdnCacheLookup C} (cache : C).

Definition capped_for_host (host : str) (families : FamilyScope) : list IpAddr :=
  let all := ips_for_hostname cache host in
  let v4 := take PER_HOSTNAME_IP_CAP (List.filter is_ipv4 all) in
  let v6 := take PER_HOSTNAME_IP_CAP (List.filter (fun ip => negb (is_ipv4 ip) && admits families ip) all) in
  sort_by ip_cmp v4 ++ sort_by ip_cmp v6.

Definition add_rule_claims (support : RuleShapeSupport) (rules : CanonicalRuleSet) (acc : SetClaims)
  (rule : CanonicalRule) : SetClaims :=
  if negb (r_enabled rule) || bool_decide (is_Some (r_app_match rule)) || negb (is_route (r_action rule)) then acc
  else
    let claim_all hosts c :=
      mkSetClaims (fold_left (fun m h => raise_claim m h c) hosts (sc_names acc)) (sc_literal acc) (sc_networks acc) in
    match r_address_match rule with
    | Some (ExactIp ip) => mkSetClaims (sc_names acc) ({[ip]} ∪ sc_literal acc) (sc_networks acc)
    | Some (ExactFqdn host) => claim_all [host] ExactFqdnClaim
    | Some (SuffixDomain suffix) =>
        claim_all (hostnames_for_suffix_domain cache suffix SUFFIX_FANOUT_BACKSTOP) (SuffixClaim (claim_labels suffix))
    | Some (Zone zone) =>
        claim_all (hostnames_under_suffix cache zone SUFFIX_FANOUT_BACKSTOP)
          (zone_claim zone (Some (rules, r_app_match rule)))
    | Some ((Subnet _ | Range _) as m) =>
        if is_supported (rule_verdict rule support)
        then mkSetClaims (sc_names acc) (sc_literal acc) (sc_networks acc ++ default [] (ip_blocks m))
        else acc
    | Some (AnyZoneDomain _) | None => acc
    end.

Definition name_claims (support : RuleShapeSupport) (rules : CanonicalRuleSet) : SetClaims :=
  fold_left (add_rule_claims support rules) rules (mkSetClaims ∅ ∅ []).

(** [address_rule_ips]: the IPv4 addresses one rule set names. *)
Definition rule_ips (rule : CanonicalRule) : list Z :=
  let host_ips host := take PER_HOSTNAME_IP_CAP
    (omap (fun ip => match ip with V4 v4 => Some v4 | V6 _ => None end) (ips_for_hostname cache host)) in
  if negb (r_enabled rule) || bool_decide (is_Some (r_app_match rule)) || negb (is_route (r_action rule)) then []
  else
    match r_address_match rule with
    | Some (ExactIp (V4 ip)) => [ip]
    | Some (ExactFqdn host) => host_ips host
    | Some (SuffixDomain suffix) => hostnames_for_suffix_domain cache suffix SUFFIX_FANOUT_BACKSTOP ≫= host_ips
    | Some (Zone zone) => hostnames_under_suffix cache zone SUFFIX_FANOUT_BACKSTOP ≫= host_ips
    | _ => []
    end.

Definition address_rule_ips (rules : CanonicalRuleSet) : gset Z := list_to_set (rules ≫= rule_ips).

(** ** Both sets resolved together *)

(** What the loop over hosts builds. *)
Record HostPass := mkPass {
  hp_main : gset IpAddr;
  hp_additional : gset IpAddr;
  hp_main_claim : gmap IpAddr NameClaim;
  hp_additional_claim : gmap IpAddr NameClaim;
  hp_rank : gmap IpAddr ClaimRank;
  hp_holder : gmap IpAddr str;
  hp_host_rank : gmap str ClaimRank;
  hp_zone_learned : gset IpAddr;
  hp_vouched : gset IpAddr;
}.

(** [raise]: the strongest claim on an address, with who holds it. *)
Definition raise_rank (rank : ClaimRank) (holder : IpAddr -> str)
  (r : gmap IpAddr ClaimRank * gmap IpAddr str) (ip : IpAddr) : gmap IpAddr ClaimRank * gmap IpAddr str :=
  let insert := (<[ip := rank]> (fst r), <[ip := holder ip]> (snd r)) in
  match fst r !! ip with
  | Some best => if rank_gt rank best then insert else r
  | None => insert
  end.

Definition strongest (claims : gmap IpAddr NameClaim) (ips : list IpAddr) (c : NameClaim) : gmap IpAddr NameClaim :=
  fold_left (fun m ip => raise_claim m ip c) ips claims.

(** The greater of two optional claims. *)
Definition claim_max (m a : option NameClaim) : option NameClaim :=
  match m, a with
  | Some m, Some a => Some (if claim_gt m a then m else a)
  | Some c, None | None, Some c => Some c
  | None, None => None
  end.

(** The link that carries a host, with the claim it carries it by. *)
Definition contest (m a : option NameClaim) : option (Link * NameClaim) :=
  match m, a with
  | Some m, Some a => if claim_gt a m then Some (Additional, a) else Some (Main, m)
  | Some m, None => Some (Main, m)
  | None, Some a => Some (Additional, a)
  | None, None => None
  end.

Definition host_step (order : ZoneVsIpOrder) (main_names additional_names : gmap str NameClaim) (p : HostPass)
  (host : str) : HostPass :=
  let ips := capped_for_host host Both in
  let m := main_names !! host in
  let a := additional_names !! host in
  let ranks := match claim_max m a with
               | Some best => fold_left (raise_rank (host_rank best order) (fun _ => host)) ips (hp_rank p, hp_holder p)
               | None => (hp_rank p, hp_holder p)
               end in
  let host_ranks := match claim_max m a with
                    | Some best => <[host := host_rank best order]> (hp_host_rank p)
                    | None => hp_host_rank p
                    end in
  let '(learned, vouched) :=
    match a with
    | Some claim =>
        if bool_decide (claim = ZoneClaim 1)
        then (list_to_set (List.filter (fun ip => negb (admits_zone_learned_address host ip)) ips) ∪ hp_zone_learned p,
              hp_vouched p)
        else (hp_zone_learned p, list_to_set ips ∪ hp_vouched p)
    | None => (hp_zone_learned p, hp_vouched p)
    end in
  let '(main, main_claim, additional, additional_claim) :=
    match contest m a with
    | Some (Additional, c) =>
        (hp_main p, hp_main_claim p, list_to_set ips ∪ hp_additional p, strongest (hp_additional_claim p) ips c)
    | Some (Main, c) =>
        (list_to_set ips ∪ hp_main p, strongest (hp_main_claim p) ips c, hp_additional p, hp_additional_claim p)
    | None => (hp_main p, hp_main_claim p, hp_additional p, hp_additional_claim p)
    end in
  mkPass main additional main_claim additional_claim (fst ranks) (snd ranks) host_ranks learned vouched.

(** The hosts both sets name, sorted and without duplicates. *)
Definition claimed_hosts (main_names additional_names : gmap str NameClaim) : list str :=
  sort_by str_cmp (elements (dom main_names ∪ dom additional_names)).

Definition host_pass (order : ZoneVsIpOrder) (main additional : SetClaims) : HostPass :=
  let literals := sort_by ip_cmp (elements (sc_literal main ∪ sc_literal additional)) in
  let ranks := fold_left (raise_rank (literal_rank order) fmt_ip) literals (∅, ∅) in
  fold_left (host_step order (sc_names main) (sc_names additional))
    (claimed_hosts (sc_names main) (sc_names additional))
    (mkPass (sc_literal main) (sc_literal additional) ∅ ∅ (fst ranks) (snd ranks) ∅ ∅ (sc_literal additional)).

End Cache.

(** ** The arbiter *)

Record AddressOwnership := mkOwnership {
  ao_main : gset IpAddr;
  ao_additional : gset IpAddr;
  ao_main_claimed : gset IpAddr;
  ao_route_rank : gmap IpAddr ClaimRank;
  ao_route_holder : gmap IpAddr str;
  ao_host_route_rank : gmap str ClaimRank;
  ao_literal_blocks : gmap IpAddr str;
  ao_networks : NetworkClaims;
  ao_main_zone_only : gset IpAddr;
  ao_additional_zone_only : gset IpAddr;
  ao_zone_refused : gset IpAddr;
  ao_app_taken : gmap IpAddr Link;
  ao_app_takeover : bool;
  ao_order : ZoneVsIpOrder;
}.

(** One turn of [literal_blocks]: the smallest rule id per address. *)
Definition add_literal_block (support : RuleShapeSupport) (out : gmap IpAddr str) (rule : CanonicalRule)
  : gmap IpAddr str :=
  if negb (r_enabled rule) || is_route (r_action rule) || negb (is_supported (rule_verdict rule support)) then out
  else match r_address_match rule with
       | Some (ExactIp ip) =>
           match out !! ip with
           | Some best => if str_lt (r_id rule) best then <[ip := r_id rule]> out else out
           | None => <[ip := r_id rule]> out
           end
       | _ => out
       end.

Definition literal_blocks (book : CanonicalRuleBook) (support : RuleShapeSupport) : gmap IpAddr str :=
  fold_left (add_literal_block support) (primary book ++ secondary book) ∅.

Definition app_takeover_vetoes (book : CanonicalRuleBook) (support : RuleShapeSupport) : gset IpAddr :=
  dom (literal_blocks book support).

Definition is_zone_claim (c : NameClaim) : bool := match c with ZoneClaim _ => true | _ => false end.

(** The main set after a literal of the additional link took its addresses off
    the zones of the main one. *)
Definition yield_to_literals (order : ZoneVsIpOrder) (main_literal additional_literal : gset IpAddr)
  (main_claim : gmap IpAddr NameClaim) (main : gset IpAddr) : gset IpAddr :=
  match order with
  | ExactIpFirst =>
      fold_left (fun main ip =>
        let named_closer := bool_decide (ip ∈ main_literal)
                            || match main_claim !! ip with Some c => negb (is_zone_claim c) | None => false end in
        if negb named_closer then main ∖ {[ip]} else main) (elements additional_literal) main
  | ZoneFirst => main
  end.

(** The mirror: a literal of the main link yields to a name of the additional one
    the engine evaluates first. *)
Definition yield_to_names (order : ZoneVsIpOrder) (main_literal additional_literal : gset IpAddr)
  (main_claim additional_claim : gmap IpAddr NameClaim) (main : gset IpAddr) : gset IpAddr :=
  fold_left (fun main ip =>
    let named_closer :=
      negb (bool_decide (ip ∈ additional_literal)) && negb (bool_decide (is_Some (main_claim !! ip)))
      && match additional_claim !! ip with
         | Some (ZoneClaim _) => bool_decide (order = ZoneFirst)
         | Some _ => true
         | None => false
         end in
    if named_closer then main ∖ {[ip]} else main) (elements main_literal) main.

Definition claims_empty (c : NetworkClaims) : bool := bool_decide (by_block c = ∅).

(** The addresses a link holds through a zone and nothing closer. *)
Definition zone_only (order : ZoneVsIpOrder) (networks : NetworkClaims) (held literal : gset IpAddr)
  (claims : gmap IpAddr NameClaim) : gset IpAddr :=
  if negb (bool_decide (order = ExactIpFirst)) || claims_empty networks then ∅
  else dom (filter (fun '(ip, c) => is_zone_claim c = true /\ ip ∈ held /\ (ip ∉ literal)) claims).

Definition resolve_with_support {C} `{!FqdnCacheLookup C} (book : CanonicalRuleBook) (cache : C)
  (order : ZoneVsIpOrder) (support : RuleShapeSupport) : AddressOwnership :=
  let mc := name_claims cache support (primary book) in
  let ac := name_claims cache support (secondary book) in
  let networks := new_claims (sc_networks mc) (sc_networks ac) in
  let p := host_pass cache order mc ac in
  let zone_refused := filter (fun ip => (ip ∉ hp_vouched p) /\ net_names networks ip Additional = false) (hp_zone_learned p) in
  let main_claimed := hp_main p in
  let main := yield_to_names order (sc_literal mc) (sc_literal ac) (hp_main_claim p) (hp_additional_claim p)
                (yield_to_literals order (sc_literal mc) (sc_literal ac) (hp_main_claim p) (hp_main p)) in
  {| ao_main := main;
     ao_additional := hp_additional p;
     ao_main_claimed := main_claimed;
     ao_route_rank := hp_rank p;
     ao_route_holder := hp_holder p;
     ao_host_route_rank := hp_host_rank p;
     ao_literal_blocks := literal_blocks book support;
     ao_networks := networks;
     ao_main_zone_only := zone_only order networks main (sc_literal mc) (hp_main_claim p);
     ao_additional_zone_only := zone_only order networks (hp_additional p) (sc_literal ac) (hp_additional_claim p);
     ao_zone_refused := zone_refused;
     ao_app_taken := ∅;
     ao_app_takeover := false;
     ao_order := order |}.

(** [AddressOwnership::from_sets]. *)
Definition from_sets (main additional : gset IpAddr) : AddressOwnership :=
  mkOwnership main additional main ∅ ∅ ∅ ∅ (mkClaims ∅ [] [] []) ∅ ∅ ∅ ∅ false ExactIpFirst.

(** ** Programs *)

Class AppObservationLookup (O : Type) := {
  ips_for_app : O -> str -> list Z;
  ips_v6_for_app : O -> str -> list Z;
  latest_of : O -> str -> list Z -> nat -> list Z;
  destination_used_outside : O -> list str -> IpAddr -> bool;
}.

(** app_destination_memory.rs: the programs a rule set routes. *)
Definition routed_app_patterns (set : CanonicalRuleSet) : list str :=
  sort_by str_cmp (elements (list_to_set (omap (fun r =>
    if r_enabled r && bool_decide (r_action r = Route) && bool_decide (r_address_match r = None)
    then app ← r_app_match r;
         Some (match pattern app with Exact s | Canonical.Glob s => s | Path path => AppPath_as_str path end)
    else None) set) : gset str)).

Definition set_app_taken (o : AddressOwnership) (taken : gmap IpAddr Link) : AddressOwnership :=
  mkOwnership (ao_main o) (ao_additional o) (ao_main_claimed o) (ao_route_rank o) (ao_route_holder o)
    (ao_host_route_rank o) (ao_literal_blocks o) (ao_networks o) (ao_main_zone_only o) (ao_additional_zone_only o)
    (ao_zone_refused o) taken true (ao_order o).

Section Observed.
Context {O : Type} `{!AppObservationLookup O} (observations : O).

(** The addresses the programs of a set were observed using, in the loop's order. *)
Definition observed_ips (set : CanonicalRuleSet) : list IpAddr :=
  pattern ← routed_app_patterns set;
  (V4 <$> ips_for_app observations pattern) ++ (V6 <$> ips_v6_for_app observations pattern).

(** [with_app_takeover]. *)
Definition with_app_takeover (book : CanonicalRuleBook) (o : AddressOwnership) : AddressOwnership :=
  let take_all link taken ip :=
    if bool_decide (is_Some (ao_literal_blocks o !! ip)) then taken
    else match taken !! ip with Some _ => taken | None => <[ip := link]> taken end in
  set_app_taken o
    (fold_left (take_all Additional) (observed_ips (secondary book))
       (fold_left (take_all Main) (observed_ips (primary book)) (ao_app_taken o))).

Definition resolve_for {C} `{!FqdnCacheLookup C} (book : CanonicalRuleBook) (cache : C) (settings : OwnershipSettings)
  (support : RuleShapeSupport) : AddressOwnership :=
  let o := resolve_with_support book cache (os_order settings) support in
  if os_app_takeover settings then with_app_takeover book o else o.

End Observed.

(** ** Questions *)

Section Questions.
Context (o : AddressOwnership).

Definition address_owner (ip : IpAddr) : option Link :=
  let network := net_winner (ao_networks o) ip in
  if bool_decide (ip ∈ ao_main o) then
    if bool_decide (ip ∈ ao_main_zone_only o) && bool_decide (network = Some Additional)
    then Some Additional else Some Main
  else if bool_decide (ip ∈ ao_additional o) then
    if bool_decide (ip ∈ ao_additional_zone_only o) && bool_decide (network = Some Main)
    then Some Main else Some Additional
  else network.

Definition owner_of (ip : IpAddr) : option Link :=
  match ao_app_taken o !! ip with Some link => Some link | None => address_owner ip end.

Definition app_rule_may_claim (ip : IpAddr) (for_link : Link) : bool :=
  match owner_of ip with None => true | Some owner => bool_decide (owner = for_link) end.

Definition address_rule_may_steer (ip : IpAddr) (for_link : Link) : bool :=
  match for_link with
  | Main => negb (bool_decide (owner_of ip = Some Additional))
  | Additional =>
      if bool_decide (ip ∈ ao_zone_refused o) then false else negb (bool_decide (owner_of ip = Some Main))
  end.

Definition keeps_out_of_tunnel (ip : IpAddr) : bool := bool_decide (ip ∈ ao_zone_refused o).

Definition address_rule_may_permit (ip : IpAddr) (for_link : Link) : bool :=
  match for_link, ao_app_taken o !! ip with
  | Main, Some Additional => negb (bool_decide (address_owner ip = Some Additional))
  | _, _ => address_rule_may_steer ip for_link
  end.

Definition may_block (ip : IpAddr) : bool :=
  if bool_decide (ip ∈ ao_main_claimed o) then false
  else negb (net_names (ao_networks o) ip Main)
       || (bool_decide (ip ∈ ao_additional o) && bool_decide (address_owner ip = Some Additional)).

Definition named_by (ip : IpAddr) (link : Link) : bool :=
  match link with
  | Main => bool_decide (ip ∈ ao_main_claimed o)
  | Additional => bool_decide (ip ∈ ao_additional o)
  end || net_names (ao_networks o) ip link.

(** [None] is below every rank. *)
Definition rank_max (a b : option ClaimRank) : option ClaimRank :=
  match a, b with
  | Some x, Some y => Some (if rank_gt x y then x else y)
  | Some x, None | None, Some x => Some x
  | None, None => None
  end.

Definition network_rank (ip : IpAddr) : option ClaimRank :=
  '(net, _) ← longest (ao_networks o) ip; Some (subnet_rank (prefix_len net) (ao_order o)).

Definition outranked (ip : IpAddr) (own : ClaimRank) : bool :=
  match rank_max (ao_route_rank o !! ip) (network_rank ip) with Some r => rank_gt r own | None => false end.

Definition block_yields (ip : IpAddr) (block : CanonicalAddressMatch) : bool :=
  match block_rank block ip (ao_order o) with Some own => outranked ip own | None => false end.

Definition block_leak (host : str) (ip : IpAddr) (block : CanonicalAddressMatch) : option str :=
  own ← block_rank block ip (ao_order o);
  if negb (outranked ip own)
     || match ao_host_route_rank o !! host with Some h => rank_gt h own | None => false end then None
  else
    match longest (ao_networks o) ip with
    | Some (net, claim) =>
        if match ao_route_rank o !! ip with
           | Some explicit => rank_gt (subnet_rank (prefix_len net) (ao_order o)) explicit
           | None => true
           end
        then Some (claim_label claim) else ao_route_holder o !! ip
    | None => ao_route_holder o !! ip
    end.

Definition literal_block_of (ip : IpAddr) : option str := ao_literal_blocks o !! ip.

(** [AddressOwnership::networks]: those of one link, in address order. *)
Definition networks_of (link : Link) : list IpBlock :=
  List.filter (fun net => match by_block (ao_networks o) !! net with Some c => claim_has c link | None => false end)
    (sorted (ao_networks o)).

Definition network_of (ip : IpAddr) (link : Link) : option IpBlock :=
  fst <$> find_first (fun '(_, claim) => claim_has claim link) (holding (ao_networks o) ip).

(** The named and taken addresses, sorted and without duplicates. *)
Definition explicit_sorted : list IpAddr := sort_by ip_cmp (elements (dom (ao_route_rank o) ∪ dom (ao_app_taken o))).

(** The slice between the two partition points. *)
Definition explicit_inside (net : IpBlock) : list IpAddr :=
  take_while (fun ip => ip_le ip (IpBlock_last net))
    (from_partition_point (fun ip => ip_lt ip (network net)) explicit_sorted).

Definition names_inside (block : IpBlock) : bool :=
  negb (match explicit_inside block with [] => true | _ => false end)
  || existsb (fun '(ip, _) => IpBlock_contains block ip) (map_to_list (ao_literal_blocks o))
  || existsb (fun net => IpBlock_overlaps net block) (sorted (ao_networks o)).

Definition networks_inside (net : IpBlock) : list (IpBlock * Link) :=
  (fun '(n, claim) => (n, claim_winner claim)) <$> inside (ao_networks o) net.

(** In input order, each address once. *)
Fixpoint refused_from (seen : gset Z) (candidates : list Z) (for_link : Link) : list Z :=
  match candidates with
  | [] => []
  | ip :: rest =>
      if app_rule_may_claim (V4 ip) for_link then refused_from seen rest for_link
      else if bool_decide (ip ∈ seen) then refused_from seen rest for_link
      else ip :: refused_from ({[ip]} ∪ seen) rest for_link
  end.

Definition refused_for_app (candidates : list Z) (for_link : Link) : list Z := refused_from ∅ candidates for_link.

End Questions.

(** ** The addresses a rule did not act on *)

Record HeldBack := mkHeldBack {
  hb_ownership : AddressOwnership;
  hb_tunnel_route : bool;
  hb_claimed : option (IpAddr * Z);
  hb_outside_tunnel : option (IpAddr * Z);
}.

Definition held_back_new (o : AddressOwnership) (link : Link) (action : RuleAction) : HeldBack :=
  mkHeldBack o (bool_decide (link = Additional) && is_route action) None None.

Definition note_held (h : HeldBack) (ip : IpAddr) : HeldBack :=
  let count slot := match slot with Some (first, n) => Some (first, (n + 1)%Z) | None => Some (ip, 1%Z) end in
  if hb_tunnel_route h && keeps_out_of_tunnel (hb_ownership h) ip
  then mkHeldBack (hb_ownership h) (hb_tunnel_route h) (hb_claimed h) (count (hb_outside_tunnel h))
  else mkHeldBack (hb_ownership h) (hb_tunnel_route h) (count (hb_claimed h)) (hb_outside_tunnel h).

(** ** The gate of a program's destinations *)

Inductive AppDestinationRefusal : Set := ClaimedByAddressRule | UsedByOtherProcess | DeclinedShared.

#[export] Instance AppDestinationRefusal_eq_dec : EqDecision AppDestinationRefusal.
Proof. solve_decision. Defined.

Record AppDestinations := mkDestinations {
  admitted : list Z;
  refused : list (Z * AppDestinationRefusal);
  admitted_v6 : list Z;
}.

Inductive AppTrafficElsewhere : Set := NamedByAddressRules | SharedWithOthers.

Definition none_taken (d : AppDestinations) : option AppTrafficElsewhere :=
  match admitted d, admitted_v6 d, refused d with
  | [], [], (_ :: _) as refused =>
      Some (if existsb (fun '(_, why) => bool_decide (why = ClaimedByAddressRule)) refused
            then NamedByAddressRules else SharedWithOthers)
  | _, _, _ => None
  end.

Section Gate.
Context {O : Type} `{!AppObservationLookup O}.

Record AppDestinationGate := mkGate {
  g_ownership : AddressOwnership;
  g_observations : O;
  g_friendly : list str;
  g_declined : option (gset Z);
}.

Definition for_rule_set (o : AddressOwnership) (observations : O) (rules : CanonicalRuleSet) : AppDestinationGate :=
  mkGate o observations (routed_app_patterns rules) None.

Definition with_declined (g : AppDestinationGate) (declined : gset Z) : AppDestinationGate :=
  mkGate (g_ownership g) (g_observations g) (g_friendly g) (Some declined).

Definition mirrored (g : AppDestinationGate) (pattern : str) (addresses : list Z) : list Z :=
  latest_of (g_observations g) pattern addresses PER_HOSTNAME_IP_CAP.

(** Why the gate holds an address back. *)
Definition refusal (g : AppDestinationGate) (for_link : Link) (ip : Z) : option AppDestinationRefusal :=
  if negb (app_rule_may_claim (g_ownership g) (V4 ip) for_link) then Some ClaimedByAddressRule
  else if bool_decide (for_link = Additional)
          && match g_declined g with Some declined => bool_decide (ip ∈ declined) | None => false end
  then Some DeclinedShared
  else if negb (ao_app_takeover (g_ownership g))
          && destination_used_outside (g_observations g) (g_friendly g) (V4 ip)
  then Some UsedByOtherProcess
  else None.

Definition admit_v4 (g : AppDestinationGate) (for_link : Link) (d : AppDestinations) (ip : Z) : AppDestinations :=
  match refusal g for_link ip with
  | Some why => mkDestinations (admitted d) (refused d ++ [(ip, why)]) (admitted_v6 d)
  | None => mkDestinations (admitted d ++ [ip]) (refused d) (admitted_v6 d)
  end.

Definition admit_v6 (g : AppDestinationGate) (for_link : Link) (d : AppDestinations) (ip : Z) : AppDestinations :=
  if app_rule_may_claim (g_ownership g) (V6 ip) for_link
     && (ao_app_takeover (g_ownership g)
         || negb (destination_used_outside (g_observations g) (g_friendly g) (V6 ip)))
  then mkDestinations (admitted d) (refused d) (admitted_v6 d ++ [ip])
  else d.

Definition admit_destinations (g : AppDestinationGate) (pattern : str) (for_link : Link) : AppDestinations :=
  fold_left (admit_v6 g for_link) (ips_v6_for_app (g_observations g) pattern)
    (fold_left (admit_v4 g for_link) (ips_for_app (g_observations g) pattern) (mkDestinations [] [] [])).

End Gate.
Arguments AppDestinationGate O : clear implicits.

(** ** The best of a set of claims *)

Section Best.
Context {T : Type} (cmp : T -> T -> comparison) `{!CmpTotal cmp}.

(** [o] is the greatest element of [P], or [P] is empty. *)
Definition is_best (o : option T) (P : T -> Prop) : Prop :=
  match o with
  | Some b => P b /\ forall x, P x -> cmp x b <> Gt
  | None => forall x, ~ P x
  end.

Lemma is_best_iff o (P Q : T -> Prop) : (forall x, P x <-> Q x) -> is_best o P -> is_best o Q.
Proof using Type. intros H. destruct o; cbn; [|by setoid_rewrite H]. rewrite H. by setoid_rewrite H. Qed.

Lemma is_best_add o (P : T -> Prop) c :
  is_best o P ->
  is_best (Some (match o with
                 | Some b => if match cmp c b with Gt => true | _ => false end then c else b
                 | None => c
                 end)) (fun x => P x \/ x = c).
Proof using CmpTotal0.
  destruct o as [b|]; cbn.
  - intros [Hb Hmax]. destruct (cmp c b) eqn:E; (split; [auto|]); intros x [Hx | ->]; auto;
      try (by rewrite ?E, ?(cmp_refl cmp)).
    pose proof (Hmax x Hx) as Hle. apply (cmp_le_trans cmp _ b); [done|].
    rewrite (cmp_opp cmp c b), E. done.
  - intros Hn. split; [by right|]. intros x [Hx | ->]; [by destruct (Hn x)|]. by rewrite (cmp_refl cmp).
Qed.

Lemma is_best_unique o o' P : is_best o P -> is_best o' P -> o = o'.
Proof using CmpTotal0.
  destruct o as [b|], o' as [b'|]; cbn; [|intros [Hb _] Hn; by destruct (Hn b)|intros Hn [Hb _]; by destruct (Hn b')|done].
  intros [Hb Hm] [Hb' Hm']. f_equal. apply (cmp_eq cmp). specialize (Hm _ Hb'). specialize (Hm' _ Hb).
  rewrite (cmp_opp cmp b b') in Hm. by destruct (cmp b b').
Qed.

End Best.

#[export] Instance rank_cmp_total : CmpTotal rank_cmp.
Proof. unfold rank_cmp. apply _. Qed.

Lemma claim_key_inj a b : claim_key a = claim_key b -> a = b.
Proof. destruct a, b; cbn; intros E; simplify_eq; f_equal; lia. Qed.

#[export] Instance claim_cmp_total : CmpTotal claim_cmp.
Proof.
  unfold claim_cmp. split; [apply _|]. intros x y E. apply claim_key_inj. by apply (cmp_eq (pair_cmp N.compare N.compare)).
Qed.

(** ** What a rule set claims *)

Lemma raise_claim_best {K} `{Countable K} (claims : gmap K NameClaim) (P : K -> NameClaim -> Prop) k c :
  (forall k, is_best claim_cmp (claims !! k) (P k)) ->
  forall k', is_best claim_cmp (raise_claim claims k c !! k') (fun x => P k' x \/ k' = k /\ x = c).
Proof.
  intros Hok k'. unfold raise_claim. destruct (decide (k = k')) as [<-|Hne].
  - rewrite lookup_insert_eq. eapply is_best_iff; [|exact (is_best_add claim_cmp _ _ c (Hok k))]. naive_solver.
  - rewrite lookup_insert_ne by done. eapply is_best_iff; [|exact (Hok k')]. naive_solver.
Qed.

Lemma raise_all_best {K} `{Countable K} (c : NameClaim) (ks : list K) : forall (claims : gmap K NameClaim) P,
  (forall k, is_best claim_cmp (claims !! k) (P k)) ->
  forall k, is_best claim_cmp (fold_left (fun m k => raise_claim m k c) ks claims !! k) (fun x => P k x \/ k ∈ ks /\ x = c).
Proof.
  induction ks as [|k0 ks IH]; intros claims P Hok k; cbn [fold_left].
  - eapply is_best_iff; [|exact (Hok k)]. intros x. rewrite elem_of_nil. naive_solver.
  - eapply is_best_iff; [|exact (IH _ _ (raise_claim_best claims P k0 c Hok) k)].
    intros x. cbn beta. rewrite elem_of_cons. naive_solver.
Qed.

Section Claims.
Context {C : Type} `{!FqdnCacheLookup C} (cache : C) (support : RuleShapeSupport).

(** A rule steers addresses by themselves: enabled, for all programs, not a block. *)
Definition steers (rule : CanonicalRule) : bool :=
  r_enabled rule && negb (bool_decide (is_Some (r_app_match rule))) && is_route (r_action rule).

(** The rule of the set names [host], as closely as [c] says. *)
Definition claims_host (rules : CanonicalRuleSet) (rule : CanonicalRule) (host : str) (c : NameClaim) : Prop :=
  steers rule = true /\
  match r_address_match rule with
  | Some (ExactFqdn h) => host = h /\ c = ExactFqdnClaim
  | Some (SuffixDomain s) =>
      host ∈ hostnames_for_suffix_domain cache s SUFFIX_FANOUT_BACKSTOP /\ c = SuffixClaim (claim_labels s)
  | Some (Zone z) =>
      host ∈ hostnames_under_suffix cache z SUFFIX_FANOUT_BACKSTOP
      /\ c = zone_claim z (Some (rules, r_app_match rule))
  | _ => False
  end.

(** What the claims of the rules read so far say. *)
Definition claims_ok (rules seen : CanonicalRuleSet) (acc : SetClaims) : Prop :=
  (forall host, is_best claim_cmp (sc_names acc !! host) (fun c => exists rule, rule ∈ seen /\ claims_host rules rule host c))
  /\ (forall ip, ip ∈ sc_literal acc <->
        exists rule, rule ∈ seen /\ steers rule = true /\ r_address_match rule = Some (ExactIp ip))
  /\ sc_networks acc = route_networks support seen.

Lemma steers_skips rule :
  (negb (r_enabled rule) || bool_decide (is_Some (r_app_match rule)) || negb (is_route (r_action rule))) = negb (steers rule).
Proof.
  unfold steers. by destruct (r_enabled rule), (bool_decide _), (is_route _).
Qed.

Lemma route_networks_snoc seen rule :
  route_networks support (seen ++ [rule])
  = route_networks support seen
    ++ (if steers rule && is_supported (rule_verdict rule support) then default [] (r_address_match rule ≫= ip_blocks) else []).
Proof.
  unfold route_networks. rewrite List.filter_app, omap_app, concat_app. f_equal. cbn [List.filter].
  assert (E : r_enabled rule && bool_decide (r_app_match rule = None) && negb (bool_decide (r_action rule = Block))
    = steers rule).
  { unfold steers. destruct (r_enabled rule), (r_app_match rule), (r_action rule); cbn; try done;
      repeat case_bool_decide; naive_solver. }
  rewrite E. destruct (steers rule && _); cbn; [|done]. destruct (r_address_match rule ≫= ip_blocks); cbn; [|done].
  apply app_nil_r.
Qed.

Lemma add_rule_claims_ok rules seen acc rule :
  claims_ok rules seen acc -> claims_ok rules (seen ++ [rule]) (add_rule_claims cache support rules acc rule).
Proof.
  intros (Hn & Hl & Hnet). unfold add_rule_claims. rewrite steers_skips.
  assert (Hstep : forall host hosts c,
    (forall x, claims_host rules rule host x <-> host ∈ hosts /\ x = c) ->
    is_best claim_cmp (fold_left (fun m h => raise_claim m h c) hosts (sc_names acc) !! host)
      (fun x => exists r, r ∈ seen ++ [rule] /\ claims_host rules r host x)).
  { intros host hosts c Hc. eapply is_best_iff; [|apply (raise_all_best c hosts _ _ Hn host)]. intros x. cbn beta.
    rewrite <- Hc. setoid_rewrite elem_of_app. setoid_rewrite list_elem_of_singleton. naive_solver. }
  assert (Hsame : forall host, (forall x, ~ claims_host rules rule host x) ->
    is_best claim_cmp (sc_names acc !! host) (fun x => exists r, r ∈ seen ++ [rule] /\ claims_host rules r host x)).
  { intros host Hc. eapply is_best_iff; [|exact (Hn host)]. intros x.
    setoid_rewrite elem_of_app. setoid_rewrite list_elem_of_singleton. naive_solver. }
  assert (Hlit : forall ip, (exists r, r ∈ seen ++ [rule] /\ steers r = true /\ r_address_match r = Some (ExactIp ip))
    <-> ip ∈ sc_literal acc \/ steers rule = true /\ r_address_match rule = Some (ExactIp ip)).
  { intros ip. rewrite Hl. setoid_rewrite elem_of_app. setoid_rewrite list_elem_of_singleton. naive_solver. }
  unfold claims_ok. rewrite route_networks_snoc. setoid_rewrite Hlit. unfold claims_host in Hstep, Hsame.
  destruct (steers rule) eqn:Es; cbn [negb andb].
  - destruct (r_address_match rule) as [[h|s|b|z|ip|net|r]|] eqn:Ea; cbn [mbind option_bind ip_blocks default from_option id];
      rewrite ?app_nil_r; try destruct (is_supported _); cbn [sc_names sc_literal sc_networks]; rewrite ?app_nil_r, ?Hnet.
    all: rewrite ?Ea in Hstep, Hsame; split; [intros host; first [apply Hsame; naive_solver
      | apply Hstep; intros x; rewrite ?list_elem_of_singleton; naive_solver]|].
    all: split; [intros ip'; set_solver|done].
  - rewrite app_nil_r. split; [intros host; apply Hsame; naive_solver|]. split; [naive_solver|done].
Qed.

Lemma name_claims_ok rules : claims_ok rules rules (name_claims cache support rules).
Proof.
  unfold name_claims.
  assert (H : forall l seen acc, claims_ok rules seen acc ->
    claims_ok rules (seen ++ l) (fold_left (add_rule_claims cache support rules) l acc)).
  { induction l as [|r l IH]; intros seen acc Hok; cbn; [by rewrite app_nil_r|].
    replace (seen ++ r :: l) with ((seen ++ [r]) ++ l) by by rewrite <- app_assoc.
    by apply IH, add_rule_claims_ok. }
  apply (H rules []). split; [|split; [|done]].
  - intros host. cbn. rewrite lookup_empty. intros x (r & Hr & _). by apply not_elem_of_nil in Hr.
  - intros ip. cbn. split; [set_solver|]. intros (r & Hr & _). by apply not_elem_of_nil in Hr.
Qed.

End Claims.
