(* ===== verification/AddressContest.v ===== *)
(** * The contests of the address arbiter

    What [AddressOwner.resolve_with_support] decides, stated of the rules and the
    cached hosts: which claims the loop over hosts leaves on an address, whom an
    address goes to, that it is the link the decision engine picks, when a block
    yields, and when the kill switch may cut an address. *)

From stdpp Require Import base numbers list gmap sorting.
From S2P Require Import Prelude Str Digits IpAddr IpBlock AppPath AppIdentity AutoRule HostMatch Canonical.
From S2P Require Import NetPolicy Normalize Matching NetClaims HostCache PublicZone AddressOwner.

Open Scope N_scope.

(** ** What the loop over hosts builds *)

Section Pass.
Context {C : Type} `{!FqdnCacheLookup C} (cache : C) (order : ZoneVsIpOrder) (mc ac : SetClaims).

(** The address is one of the host's. *)
Definition on_host (host : str) (ip : IpAddr) : Prop := ip ∈ capped_for_host cache host Both.

Definition carried (host : str) : option (Link * NameClaim) := contest (sc_names mc !! host) (sc_names ac !! host).

(** A host of the list on the address is carried by the link, by the claim. *)
Definition holds_by (hosts : list str) (link : Link) (ip : IpAddr) (c : NameClaim) : Prop :=
  exists host, host ∈ hosts /\ on_host host ip /\ carried host = Some (link, c).

Definition literal_of (link : Link) : gset IpAddr :=
  match link with Main => sc_literal mc | Additional => sc_literal ac end.

(** A route rule names the address, literally or through a host of the list. *)
Definition ranked_by (hosts : list str) (ip : IpAddr) (r : ClaimRank) : Prop :=
  (ip ∈ sc_literal mc ∪ sc_literal ac /\ r = literal_rank order)
  \/ exists host best, host ∈ hosts /\ on_host host ip
       /\ claim_max (sc_names mc !! host) (sc_names ac !! host) = Some best /\ r = host_rank best order.

Definition pass_held (p : HostPass) (link : Link) : gset IpAddr :=
  match link with Main => hp_main p | Additional => hp_additional p end.

Definition pass_claim (p : HostPass) (link : Link) : gmap IpAddr NameClaim :=
  match link with Main => hp_main_claim p | Additional => hp_additional_claim p end.

Definition pass_ok (hosts : list str) (p : HostPass) : Prop :=
  (forall link ip, ip ∈ pass_held p link <-> ip ∈ literal_of link \/ exists c, holds_by hosts link ip c)
  /\ (forall link ip, is_best claim_cmp (pass_claim p link !! ip) (holds_by hosts link ip))
  /\ (forall ip, is_best rank_cmp (hp_rank p !! ip) (ranked_by hosts ip)).

Lemma raise_ranks_best rank holder ips : forall r (P : IpAddr -> ClaimRank -> Prop),
  (forall ip, is_best rank_cmp (fst r !! ip) (P ip)) ->
  forall ip, is_best rank_cmp (fst (fold_left (raise_rank rank holder) ips r) !! ip)
               (fun x => P ip x \/ ip ∈ ips /\ x = rank).
Proof.
  induction ips as [|i ips IH]; intros r P Hok ip; cbn [fold_left].
  - eapply is_best_iff; [|exact (Hok ip)]. intros x. rewrite elem_of_nil. naive_solver.
  - eapply is_best_iff; [|apply (IH _ (fun k x => P k x \/ k = i /\ x = rank))].
    { intros x. cbn beta. rewrite elem_of_cons. naive_solver. }
    intros k. pose proof (is_best_add rank_cmp _ _ rank (Hok i)) as Hadd. unfold raise_rank, rank_gt.
    destruct (decide (i = k)) as [<-|Hne].
    + assert (E : fst (match fst r !! i with
                       | Some best => if match rank_cmp rank best with Gt => true | _ => false end
                                      then (<[i := rank]> (fst r), <[i := holder i]> (snd r)) else r
                       | None => (<[i := rank]> (fst r), <[i := holder i]> (snd r)) end) !! i
        = Some (match fst r !! i with
                | Some b => if match rank_cmp rank b with Gt => true | _ => false end then rank else b
                | None => rank end)).
      { destruct (fst r !! i) as [b|] eqn:Er; [destruct (rank_cmp rank b)|]; cbn; rewrite ?lookup_insert_eq; done. }
      rewrite E. eapply is_best_iff; [|exact Hadd]. naive_solver.
    + eapply is_best_iff; [|].
      2: { specialize (Hok k). revert Hok. destruct (fst r !! i) as [b|]; [destruct (rank_cmp rank b)|]; cbn;
           rewrite ?lookup_insert_ne by done; exact (fun H => H). }
      naive_solver.
Qed.

Lemma holds_by_snoc hosts host link ip c :
  holds_by (hosts ++ [host]) link ip c <-> holds_by hosts link ip c \/ on_host host ip /\ carried host = Some (link, c).
Proof.
  unfold holds_by. setoid_rewrite elem_of_app. setoid_rewrite list_elem_of_singleton. split.
  - intros (h & [Hin | ->] & Hon & Hc); [left; eauto|by right].
  - intros [(h & Hin & Hon & Hc)|[Hon Hc]]; [exists h; auto|exists host; auto].
Qed.

Lemma host_step_held hosts p host link ip :
  pass_ok hosts p ->
  ip ∈ pass_held (host_step cache order (sc_names mc) (sc_names ac) p host) link
  <-> ip ∈ literal_of link \/ exists c, holds_by (hosts ++ [host]) link ip c.
Proof.
  intros (Hh & _ & _). setoid_rewrite holds_by_snoc. specialize (Hh link ip). unfold on_host, carried, host_step.
  destruct (match sc_names ac !! host with Some claim => _ | None => _ end) as [learned vouched].
  destruct (contest (sc_names mc !! host) (sc_names ac !! host)) as [[[] c]|]; destruct link;
    cbn [pass_held hp_main hp_additional]; rewrite ?elem_of_union, ?elem_of_list_to_set; cbn [pass_held] in Hh;
    rewrite Hh; naive_solver.
Qed.

Lemma host_step_claim hosts p host link ip :
  pass_ok hosts p ->
  is_best claim_cmp (pass_claim (host_step cache order (sc_names mc) (sc_names ac) p host) link !! ip)
    (holds_by (hosts ++ [host]) link ip).
Proof.
  intros (_ & Hc & _). unfold host_step.
  destruct (match sc_names ac !! host with Some claim => _ | None => _ end) as [learned vouched].
  fold (carried host).
  assert (Hsame : (forall c, carried host <> Some (link, c)) ->
    is_best claim_cmp (pass_claim p link !! ip) (holds_by (hosts ++ [host]) link ip)).
  { intros Hn. eapply is_best_iff; [|exact (Hc link ip)]. intros x. rewrite holds_by_snoc. naive_solver. }
  assert (Hraise : forall c, carried host = Some (link, c) ->
    is_best claim_cmp (strongest (pass_claim p link) (capped_for_host cache host Both) c !! ip)
      (holds_by (hosts ++ [host]) link ip)).
  { intros c Hcar. eapply is_best_iff; [|exact (raise_all_best c _ _ _ (Hc link) ip)].
    intros x. cbn beta. rewrite holds_by_snoc, Hcar. unfold on_host. naive_solver. }
  destruct (carried host) as [[[] c]|]; destruct link; cbn [pass_claim hp_main_claim hp_additional_claim];
    first [by apply Hraise | by apply Hsame].
Qed.

Lemma host_step_rank hosts p host ip :
  pass_ok hosts p ->
  is_best rank_cmp (hp_rank (host_step cache order (sc_names mc) (sc_names ac) p host) !! ip)
    (ranked_by (hosts ++ [host]) ip).
Proof.
  intros (_ & _ & Hr). unfold host_step.
  destruct (match sc_names ac !! host with Some claim => _ | None => _ end) as [learned vouched].
  destruct (match contest (sc_names mc !! host) (sc_names ac !! host) with Some _ => _ | None => _ end) as [[[m m'] a] a'].
  cbn [hp_rank].
  assert (Hsnoc : forall x, ranked_by (hosts ++ [host]) ip x <-> ranked_by hosts ip x
    \/ exists best, on_host host ip /\ claim_max (sc_names mc !! host) (sc_names ac !! host) = Some best
                    /\ x = host_rank best order).
  { intros x. unfold ranked_by. setoid_rewrite elem_of_app. setoid_rewrite list_elem_of_singleton. split.
    - intros [Hl|(h & best & [Hin | ->] & Hon & Hm & ->)]; [by left; left|left; right; exists h, best; auto|right; eauto].
    - intros [[Hl|(h & best & Hin & Hon & Hm & ->)]|(best & Hon & Hm & ->)];
        [by left|right; exists h, best; auto|right; exists host, best; auto]. }
  destruct (claim_max (sc_names mc !! host) (sc_names ac !! host)) as [best|].
  - eapply is_best_iff; [|apply raise_ranks_best; exact Hr]. intros x. cbn beta. rewrite Hsnoc. unfold on_host. naive_solver.
  - eapply is_best_iff; [|exact (Hr ip)]. intros x. rewrite Hsnoc. naive_solver.
Qed.

Lemma host_pass_ok : pass_ok (claimed_hosts (sc_names mc) (sc_names ac)) (host_pass cache order mc ac).
Proof.
  unfold host_pass. set (f := host_step cache order (sc_names mc) (sc_names ac)).
  assert (H : forall l hosts p, pass_ok hosts p -> pass_ok (hosts ++ l) (fold_left f l p)).
  { induction l as [|h l IH]; intros hosts p Hok; cbn; [by rewrite app_nil_r|].
    replace (hosts ++ h :: l) with ((hosts ++ [h]) ++ l) by by rewrite <- app_assoc. apply IH.
    split; [intros; by apply host_step_held|]. split; [intros; by apply host_step_claim|intros; by apply host_step_rank]. }
  apply (H _ []). split; [|split].
  - intros link ip. destruct link; cbn [pass_held hp_main hp_additional literal_of];
      (split; [by left|]); intros [Hin|(c & h & Hh & _)]; [done|by apply not_elem_of_nil in Hh|done|by apply not_elem_of_nil in Hh].
  - intros link ip. destruct link; cbn [pass_claim hp_main_claim hp_additional_claim]; rewrite lookup_empty;
      intros x (h & Hh & _); by apply not_elem_of_nil in Hh.
  - intros ip. cbn [hp_rank]. eapply is_best_iff; [|apply raise_ranks_best with (P := fun _ _ => False)].
    + intros x. unfold ranked_by. rewrite sort_by_elem_of, elem_of_elements. setoid_rewrite elem_of_nil. naive_solver.
    + intros i. cbn. rewrite lookup_empty. naive_solver.
Qed.

End Pass.

(** ** Who has an address, by what is claimed on it *)

Lemma fold_remove (drop : IpAddr -> bool) (l : list IpAddr) : forall (s : gset IpAddr) ip,
  ip ∈ fold_left (fun s i => if drop i then s ∖ {[i]} else s) l s <-> ip ∈ s /\ ~ (ip ∈ l /\ drop ip = true).
Proof.
  induction l as [|i l IH]; intros s ip; cbn [fold_left].
  - rewrite elem_of_nil. naive_solver.
  - rewrite IH, elem_of_cons. destruct (drop i) eqn:E.
    + rewrite elem_of_difference, elem_of_singleton. split.
      * intros [[Hs Hne] Hn]. split; [done|]. intros [[-> | Hl] Hd]; [done|by apply Hn].
      * intros [Hs Hn]. split; [split; [done|]|by intros [Hl Hd]; apply Hn; auto].
        intros ->. apply Hn. auto.
    + split; [|naive_solver]. intros [Hs Hn]. split; [done|]. intros [[-> | Hl] Hd]; [congruence|by apply Hn].
Qed.

Lemma yield_to_literals_elem order ml al mcl main ip :
  ip ∈ yield_to_literals order ml al mcl main <->
  ip ∈ main /\ ~ (order = ExactIpFirst /\ ip ∈ al /\ (ip ∉ ml)
                 /\ match mcl !! ip with Some c => is_zone_claim c = true | None => True end).
Proof.
  unfold yield_to_literals. destruct order; [|naive_solver].
  cbn zeta. rewrite fold_remove, elem_of_elements, negb_true_iff, orb_false_iff.
  rewrite bool_decide_eq_false. destruct (mcl !! ip) as [c|]; [rewrite negb_false_iff|]; naive_solver.
Qed.

(** A claim of the additional link the engine evaluates ahead of a literal. *)
Definition ahead_of_literal (order : ZoneVsIpOrder) (ca : option NameClaim) : bool :=
  match ca with Some (ZoneClaim _) => bool_decide (order = ZoneFirst) | Some _ => true | None => false end.

Lemma yield_to_names_elem order ml al mcl acl main ip :
  ip ∈ yield_to_names order ml al mcl acl main <->
  ip ∈ main /\ ~ (ip ∈ ml /\ (ip ∉ al) /\ mcl !! ip = None /\ ahead_of_literal order (acl !! ip) = true).
Proof.
  unfold yield_to_names. rewrite fold_remove, elem_of_elements. cbn zeta. fold (ahead_of_literal order (acl !! ip)).
  rewrite !andb_true_iff, !negb_true_iff, !bool_decide_eq_false, <- eq_None_not_Some. naive_solver.
Qed.

Definition is_some_b {A} (o : option A) : bool := match o with Some _ => true | None => false end.
Definition zone_b (o : option NameClaim) : bool := match o with Some c => is_zone_claim c | None => false end.

(** The owner of an address both links claim this way: literally or not, by
    their strongest host, and by their networks. *)
Definition owner_at (order : ZoneVsIpOrder) (lm la : bool) (cm ca : option NameClaim) (nw : option Link) : option Link :=
  let ip_first := bool_decide (order = ExactIpFirst) in
  let taken_by_literal := ip_first && la && negb lm && negb (is_some_b cm && negb (zone_b cm)) in
  let taken_by_name := lm && negb la && negb (is_some_b cm) && ahead_of_literal order ca in
  if (lm || is_some_b cm) && negb taken_by_literal && negb taken_by_name
  then if ip_first && zone_b cm && negb lm && bool_decide (nw = Some Additional) then Some Additional else Some Main
  else if la || is_some_b ca
  then if ip_first && zone_b ca && negb la && bool_decide (nw = Some Main) then Some Main else Some Additional
  else nw.

Lemma zone_only_elem order nets held literal claims ip :
  ip ∈ zone_only order nets held literal claims <->
  order = ExactIpFirst /\ claims_empty nets = false /\ zone_b (claims !! ip) = true /\ ip ∈ held /\ (ip ∉ literal).
Proof.
  unfold zone_only. destruct (bool_decide (order = ExactIpFirst)) eqn:Eo; cbn [negb orb].
  2: { apply bool_decide_eq_false in Eo. set_solver. }
  apply bool_decide_eq_true in Eo. destruct (claims_empty nets); [set_solver|].
  rewrite elem_of_dom. unfold is_Some. setoid_rewrite map_lookup_filter_Some. unfold zone_b. split.
  - intros (c & -> & H). cbn in H. naive_solver.
  - intros (_ & _ & Hz & H). destruct (claims !! ip) as [c|]; [|done]. exists c. naive_solver.
Qed.

Lemma claims_empty_winner nets ip : claims_empty nets = true -> net_winner nets ip = None.
Proof.
  intros E%bool_decide_eq_true. unfold net_winner, narrowest, longest.
  assert (holding nets ip = []) as ->; [|done]. apply elem_of_nil_inv. unfold holding.
  intros x (len & _ & (net & _ & (claim & Hc & _)%bind_Some)%bind_Some)%list_elem_of_omap.
  by rewrite E, lookup_empty in Hc.
Qed.

Section Owner.
Context {C : Type} `{!FqdnCacheLookup C} (book : CanonicalRuleBook) (cache : C) (order : ZoneVsIpOrder)
  (support : RuleShapeSupport).

Let mc := name_claims cache support (primary book).
Let ac := name_claims cache support (secondary book).
Let p := host_pass cache order mc ac.
Let o := resolve_with_support book cache order support.

Lemma pass_held_some link ip : ip ∈ pass_held p link <-> ip ∈ literal_of mc ac link \/ is_Some (pass_claim p link !! ip).
Proof.
  destruct (host_pass_ok cache order mc ac) as (Hh & Hc & _). fold p in Hh, Hc. rewrite Hh.
  specialize (Hc link ip). unfold is_best in Hc. destruct (pass_claim p link !! ip) as [c|].
  - split; intros _; right; [by eexists|]. exists c. apply Hc.
  - split; (intros [H|[c H]]; [by left|]); [by destruct (Hc c)|done].
Qed.

Lemma ao_main_elem ip :
  ip ∈ ao_main o <->
  (ip ∈ sc_literal mc \/ is_Some (hp_main_claim p !! ip))
  /\ ~ (order = ExactIpFirst /\ ip ∈ sc_literal ac /\ (ip ∉ sc_literal mc)
        /\ match hp_main_claim p !! ip with Some c => is_zone_claim c = true | None => True end)
  /\ ~ (ip ∈ sc_literal mc /\ (ip ∉ sc_literal ac) /\ hp_main_claim p !! ip = None
        /\ ahead_of_literal order (hp_additional_claim p !! ip) = true).
Proof.
  unfold o, resolve_with_support. cbn [ao_main]. fold mc ac. fold p.
  rewrite yield_to_names_elem, yield_to_literals_elem. pose proof (pass_held_some Main ip) as H. cbn in H. rewrite H. tauto.
Qed.

Lemma ao_main_bool ip :
  bool_decide (ip ∈ ao_main o)
  = let lm := bool_decide (ip ∈ sc_literal mc) in
    let la := bool_decide (ip ∈ sc_literal ac) in
    let cm := hp_main_claim p !! ip in
    (lm || is_some_b cm)
    && negb (bool_decide (order = ExactIpFirst) && la && negb lm && negb (is_some_b cm && negb (zone_b cm)))
    && negb (lm && negb la && negb (is_some_b cm) && ahead_of_literal order (hp_additional_claim p !! ip)).
Proof.
  apply eq_true_iff_eq. rewrite bool_decide_eq_true, ao_main_elem. cbn zeta.
  assert (Hnone : ~ is_Some (@None NameClaim)) by by intros [].
  destruct (ahead_of_literal order (hp_additional_claim p !! ip)); rewrite ?andb_false_r, ?andb_true_r;
  destruct (hp_main_claim p !! ip) as [c|]; cbn [is_some_b zone_b]; [destruct (is_zone_claim c)| |destruct (is_zone_claim c)|];
    try assert (is_Some (Some c)) by (by eexists); repeat case_bool_decide; cbn; intuition congruence.
Qed.

Lemma zone_only_bool nets held literal claims ip :
  (claims_empty nets = true -> net_winner nets ip = None) ->
  forall link, bool_decide (ip ∈ zone_only order nets held literal claims) && bool_decide (net_winner nets ip = Some link)
  = bool_decide (order = ExactIpFirst) && zone_b (claims !! ip) && bool_decide (ip ∈ held)
    && negb (bool_decide (ip ∈ literal)) && bool_decide (net_winner nets ip = Some link).
Proof.
  intros He link. destruct (bool_decide (net_winner nets ip = Some link)) eqn:Hw; [|by rewrite !andb_false_r].
  apply bool_decide_eq_true in Hw. rewrite !andb_true_r.
  apply eq_true_iff_eq. rewrite bool_decide_eq_true, zone_only_elem, !andb_true_iff, negb_true_iff, !bool_decide_eq_true.
  rewrite bool_decide_eq_false. destruct (claims_empty nets); [rewrite He in Hw by done; done|]. tauto.
Qed.

Lemma address_owner_at ip :
  address_owner o ip
  = owner_at order (bool_decide (ip ∈ sc_literal mc)) (bool_decide (ip ∈ sc_literal ac)) (hp_main_claim p !! ip)
      (hp_additional_claim p !! ip) (net_winner (ao_networks o) ip).
Proof.
  pose proof (pass_held_some Additional ip) as Ha. cbn [pass_held pass_claim literal_of] in Ha.
  assert (Hab : bool_decide (ip ∈ ao_additional o)
    = bool_decide (ip ∈ sc_literal ac) || is_some_b (hp_additional_claim p !! ip)).
  { change (ao_additional o) with (hp_additional p). apply eq_true_iff_eq.
    rewrite orb_true_iff, !bool_decide_eq_true, Ha. f_equiv.
    destruct (hp_additional_claim p !! ip); cbn; split; intros H; done || by eexists. }
  pose proof (claims_empty_winner (ao_networks o) ip) as He.
  unfold address_owner, owner_at.
  change (ao_main_zone_only o) with (zone_only order (ao_networks o) (ao_main o) (sc_literal mc) (hp_main_claim p)).
  change (ao_additional_zone_only o)
    with (zone_only order (ao_networks o) (ao_additional o) (sc_literal ac) (hp_additional_claim p)).
  cbn zeta. rewrite !zone_only_bool by done. rewrite ao_main_bool, Hab. cbn zeta.
  destruct ((_ || _) && _ && _); [by rewrite andb_true_r|].
  destruct (_ || _); [by rewrite andb_true_r|done].
Qed.

End Owner.

(** ** A named address is not blocked *)

Lemma winner_main_names nets ip : net_winner nets ip = Some Main -> net_names nets ip Main = true.
Proof.
  unfold net_winner, narrowest, longest, net_names. destruct (holding nets ip) as [|[net claim] rest]; [done|]. cbn.
  intros [= E]. unfold claim_winner in E. by destruct (claim_main claim).
Qed.

Section Blocks.
Context {C O : Type} `{!FqdnCacheLookup C} `{!AppObservationLookup O} (book : CanonicalRuleBook) (cache : C)
  (settings : OwnershipSettings) (support : RuleShapeSupport) (observations : O).

Let mc := name_claims cache support (primary book).
Let ac := name_claims cache support (secondary book).
Let o0 := resolve_with_support book cache (os_order settings) support.
Let o := resolve_for observations book cache settings support.

(** The takeover changes what programs took and nothing else. *)
Lemma resolve_for_address ip :
  address_owner o ip = address_owner o0 ip /\ may_block o ip = may_block o0 ip
  /\ ao_networks o = ao_networks o0 /\ ao_additional o = ao_additional o0 /\ ao_main_claimed o = ao_main_claimed o0.
Proof. unfold o, resolve_for. fold o0. destruct (os_app_takeover settings); done. Qed.

Lemma main_is_claimed ip : ip ∈ ao_main o0 -> ip ∈ ao_main_claimed o0.
Proof.
  intros (H & _)%ao_main_elem. apply (pass_held_some book cache (os_order settings) support Main ip). exact H.
Qed.

Lemma claimed_not_blocked ip : ip ∈ ao_main_claimed o0 -> may_block o0 ip = false.
Proof. intros H. unfold may_block. by rewrite bool_decide_eq_true_2. Qed.

Lemma owner_main_not_blocked ip : address_owner o0 ip = Some Main -> may_block o0 ip = false.
Proof.
  unfold address_owner. destruct (bool_decide (ip ∈ ao_main o0)) eqn:Em.
  - intros _. apply claimed_not_blocked, main_is_claimed. by apply bool_decide_eq_true in Em.
  - intros H. unfold may_block, address_owner. rewrite Em. cbn zeta in H |- *.
    destruct (bool_decide (ip ∈ ao_main_claimed o0)); [done|].
    destruct (bool_decide (ip ∈ ao_additional o0)).
    + destruct (bool_decide (ip ∈ ao_additional_zone_only o0)); cbn [andb] in H |- *; [|done].
      case_bool_decide as Hw; [|done]. by rewrite (winner_main_names _ _ Hw).
    + by rewrite (winner_main_names _ _ H).
Qed.

(** The main link carries every host it names exactly. *)
Lemma exact_host_carried host :
  (exists rule, rule ∈ primary book /\ steers rule = true /\ r_address_match rule = Some (ExactFqdn host)) ->
  exists c, carried mc ac host = Some (Main, c).
Proof.
  intros (rule & Hin & Hs & Ha). destruct (name_claims_ok cache support (primary book)) as (Hn & _ & _). fold mc in Hn.
  specialize (Hn host). unfold carried, contest.
  destruct (sc_names mc !! host) as [m|]; cbn in Hn.
  - destruct Hn as [_ Hmax]. specialize (Hmax ExactFqdnClaim). destruct (sc_names ac !! host) as [a|]; [|by eexists].
    assert (Hgt : claim_gt a m = false); [|rewrite Hgt; by eexists].
    assert (Hle : claim_cmp ExactFqdnClaim m <> Gt)
      by (apply Hmax; exists rule; split; [done|]; split; [done|]; by rewrite Ha).
    by destruct m, a.
  - exfalso. apply (Hn ExactFqdnClaim). exists rule. split; [done|]. split; [done|]. by rewrite Ha.
Qed.

Lemma carried_is_claimed host : is_Some (carried mc ac host) -> host ∈ claimed_hosts (sc_names mc) (sc_names ac).
Proof.
  intros [x H]. unfold claimed_hosts. rewrite sort_by_elem_of, elem_of_elements, elem_of_union, !elem_of_dom.
  unfold carried, contest in H. destruct (sc_names mc !! host); [left; by eexists|].
  destruct (sc_names ac !! host); [right; by eexists|done].
Qed.

End Blocks.

(** ** When a block yields *)

Lemma rank_le_spec a b : rank_cmp a b <> Gt <-> fst a < fst b \/ fst a = fst b /\ snd a <= snd b.
Proof.
  destruct a as [a1 a2], b as [b1 b2]. unfold rank_cmp, pair_cmp, cmp_then, cmp_on, then_with. cbn.
  destruct (N.compare_spec a1 b1); destruct (N.compare_spec a2 b2); split; intros; try done; lia.
Qed.

Lemma rank_gt_spec a b : rank_gt a b = true <-> fst b < fst a \/ fst a = fst b /\ snd b < snd a.
Proof.
  destruct a as [a1 a2], b as [b1 b2]. unfold rank_gt, rank_cmp, pair_cmp, cmp_then, cmp_on, then_with. cbn.
  destruct (N.compare_spec a1 b1); destruct (N.compare_spec a2 b2); split; intros; try done; lia.
Qed.

Lemma rank_gt_mono a b own : rank_gt a own = true -> rank_cmp a b <> Gt -> rank_gt b own = true.
Proof. rewrite !rank_gt_spec, rank_le_spec. lia. Qed.

Lemma claim_le_spec a b : claim_cmp a b <> Gt <-> rank_cmp (claim_key a) (claim_key b) <> Gt.
Proof. done. Qed.

(** The rank of a claim follows its place in the contest. *)
Lemma host_rank_mono a b order : claim_cmp a b <> Gt -> rank_cmp (host_rank a order) (host_rank b order) <> Gt.
Proof. rewrite claim_le_spec, !rank_le_spec. destruct a, b, order; cbn; lia. Qed.

Lemma claim_max_best m a best :
  claim_max m a = Some best ->
  (m = Some best \/ a = Some best) /\ forall c, m = Some c \/ a = Some c -> claim_cmp c best <> Gt.
Proof.
  unfold claim_max, claim_gt. destruct m as [m|], a as [a|]; [|intros [= <-]..|done].
  - destruct (claim_cmp m a) eqn:E; intros [= <-]; (split; [auto|]); intros c [[= <-]|[= <-]];
      rewrite ?(cmp_refl claim_cmp), ?E; try done.
    rewrite (cmp_opp claim_cmp m a), E. done.
  - split; [auto|]. intros c [[= <-]|?]; [|done]. by rewrite (cmp_refl claim_cmp).
  - split; [auto|]. intros c [?|[= <-]]; [done|]. by rewrite (cmp_refl claim_cmp).
Qed.

Section Yields.
Context {C : Type} `{!FqdnCacheLookup C} (book : CanonicalRuleBook) (cache : C) (order : ZoneVsIpOrder)
  (support : RuleShapeSupport).

Let mc := name_claims cache support (primary book).
Let ac := name_claims cache support (secondary book).
Let o := resolve_with_support book cache order support.

(** A route rule of the book claims the address with this rank: it names the
    address, a host of it, or a network it is in. *)
Definition route_claim (role : RouteRole) (ip : IpAddr) (r : ClaimRank) : Prop :=
  exists rule, rule ∈ set_for book role /\
  ((steers rule = true /\ r_address_match rule = Some (ExactIp ip) /\ r = literal_rank order)
   \/ (exists host c, on_host cache host ip /\ claims_host cache (set_for book role) rule host c /\ r = host_rank c order)
   \/ (exists blocks net, steers rule = true /\ is_supported (rule_verdict rule support) = true
         /\ r_address_match rule ≫= ip_blocks = Some blocks /\ net ∈ blocks /\ in_block net ip
         /\ r = subnet_rank (prefix_len net) order)).

Let names_of (role : RouteRole) : SetClaims := match role with Primary => mc | Secondary => ac end.

Lemma names_of_ok role : claims_ok cache support (set_for book role) (set_for book role) (names_of role).
Proof. destruct role; apply name_claims_ok. Qed.

Lemma networks_of_role role : sc_networks (names_of role) = route_networks support (set_for book role).
Proof. apply names_of_ok. Qed.

Lemma steers_network rule :
  steers rule = true <->
  r_enabled rule = true /\ r_app_match rule = None /\ r_action rule <> Block.
Proof.
  unfold steers. rewrite !andb_true_iff, negb_true_iff, bool_decide_eq_false, <- eq_None_not_Some.
  destruct (r_action rule); cbn; naive_solver.
Qed.

Lemma named_host role rule host c :
  rule ∈ set_for book role -> claims_host cache (set_for book role) rule host c ->
  exists best, claim_max (sc_names mc !! host) (sc_names ac !! host) = Some best /\ claim_cmp c best <> Gt
    /\ host ∈ claimed_hosts (sc_names mc) (sc_names ac).
Proof.
  intros Hin Hc. destruct (names_of_ok role) as (Hn & _). specialize (Hn host).
  assert (Hb : exists b, sc_names (names_of role) !! host = Some b /\ claim_cmp c b <> Gt).
  { destruct (sc_names (names_of role) !! host) as [b|]; [|by destruct (Hn c); exists rule].
    exists b. split; [done|]. apply Hn. by exists rule. }
  destruct Hb as (b & Eb & Hle).
  destruct (claim_max (sc_names mc !! host) (sc_names ac !! host)) as [best|] eqn:Emax.
  2: { exfalso. destruct role; cbn in Eb; rewrite Eb in Emax; cbn in Emax; [by destruct (sc_names ac !! host)|].
       by destruct (sc_names mc !! host). }
  exists best. split; [done|]. apply claim_max_best in Emax as [_ Hmax]. split.
  - apply (cmp_le_trans claim_cmp c b best Hle). apply Hmax. destruct role; [by left|by right].
  - unfold claimed_hosts. rewrite sort_by_elem_of, elem_of_elements, elem_of_union, !elem_of_dom.
    destruct role; [left|right]; by eexists.
Qed.

Lemma ranked_gt ip own :
  (exists r, ao_route_rank o !! ip = Some r /\ rank_gt r own = true) <->
  exists role rule, rule ∈ set_for book role /\
    ((steers rule = true /\ r_address_match rule = Some (ExactIp ip) /\ rank_gt (literal_rank order) own = true)
     \/ exists host c, on_host cache host ip /\ claims_host cache (set_for book role) rule host c
                       /\ rank_gt (host_rank c order) own = true).
Proof.
  destruct (host_pass_ok cache order mc ac) as (_ & _ & Hr). specialize (Hr ip).
  change (hp_rank (host_pass cache order mc ac)) with (ao_route_rank o) in Hr.
  destruct (names_of_ok Primary) as (Hmn & Hml & _), (names_of_ok Secondary) as (Han & Hal & _).
  cbn [names_of set_for] in *. split.
  - intros (r & E & Hgt). rewrite E in Hr. destruct Hr as [[[Hl ->]|(host & best & _ & Hon & Hmax & ->)] _].
    + apply elem_of_union in Hl as [Hl|Hl]; [apply Hml in Hl|apply Hal in Hl]; destruct Hl as (rule & Hin & Hs & Ha);
        [exists Primary, rule|exists Secondary, rule]; auto 6.
    + apply claim_max_best in Hmax as [[E'|E'] _]; [specialize (Hmn host)|specialize (Han host)];
        [rewrite E' in Hmn; destruct Hmn as [(rule & Hin & Hc) _]; exists Primary, rule
        |rewrite E' in Han; destruct Han as [(rule & Hin & Hc) _]; exists Secondary, rule]; eauto 8.
  - intros (role & rule & Hin & Hclaim).
    assert (Hx : exists x, ranked_by cache order mc ac (claimed_hosts (sc_names mc) (sc_names ac)) ip x /\ rank_gt x own = true).
    { destruct Hclaim as [(Hs & Ha & Hgt)|(host & c & Hon & Hc & Hgt)].
      - exists (literal_rank order). split; [left; split; [|done]|done]. apply elem_of_union.
        destruct role; [left; apply Hml|right; apply Hal]; eauto.
      - destruct (named_host role rule host c Hin Hc) as (best & Hmax & Hle & Hclaimed).
        exists (host_rank best order). split; [right; by exists host, best|].
        eapply rank_gt_mono; [done|]. by apply host_rank_mono. }
    destruct Hx as (x & Hx & Hgt). destruct (ao_route_rank o !! ip) as [r|]; [|by destruct (Hr x)].
    exists r. split; [done|]. destruct Hr as [_ Hr]. eapply rank_gt_mono; [done|by apply Hr].
Qed.

Hypothesis Hok : networks_ok book.

Lemma networks_blocks_wf : Forall block_wf (sc_networks mc) /\ Forall block_wf (sc_networks ac).
Proof.
  assert (H : forall role, Forall block_wf (sc_networks (names_of role))); [|split; [apply (H Primary)|apply (H Secondary)]].
  intros role. rewrite networks_of_role. apply Forall_forall.
  intros net (rule & blocks & Hin & _ & _ & _ & _ & Hb & Hn)%route_networks_elem.
  destruct (rule_blocks_ok book role rule blocks Hok Hin Hb) as [Hf _]. rewrite Forall_forall in Hf. auto.
Qed.

Lemma network_gt ip own :
  ip_wf ip ->
  (exists r, network_rank o ip = Some r /\ rank_gt r own = true) <->
  exists role rule blocks net, rule ∈ set_for book role /\ steers rule = true
    /\ is_supported (rule_verdict rule support) = true
    /\ r_address_match rule ≫= ip_blocks = Some blocks /\ net ∈ blocks /\ in_block net ip
    /\ rank_gt (subnet_rank (prefix_len net) order) own = true.
Proof.
  intros Hip. destruct networks_blocks_wf as [Hm Ha].
  assert (Hside : forall link net, net ∈ side (sc_networks mc) (sc_networks ac) link <->
    exists rule blocks, rule ∈ set_for book (match link with Main => Primary | Additional => Secondary end)
      /\ steers rule = true /\ is_supported (rule_verdict rule support) = true
      /\ r_address_match rule ≫= ip_blocks = Some blocks /\ net ∈ blocks).
  { intros link net. setoid_rewrite steers_network.
    assert (Em : sc_networks mc = route_networks support (primary book)) by exact (networks_of_role Primary).
    assert (Ea : sc_networks ac = route_networks support (secondary book)) by exact (networks_of_role Secondary).
    destruct link; cbn [side set_for]; rewrite ?Em, ?Ea, route_networks_elem; naive_solver. }
  unfold network_rank. change (ao_networks o) with (new_claims (sc_networks mc) (sc_networks ac)).
  change (ao_order o) with order. split.
  - intros (r & E & Hgt). destruct (longest _ ip) as [[net claim]|] eqn:El; [|done]. injection E as <-.
    apply longest_wins in El as (_ & Hb & Hs & _); [|done..]. apply Hside in Hs as (rule & blocks & Hin & H1 & H2 & H3 & H4).
    eexists _, rule, blocks, net. eauto 8.
  - intros (role & rule & blocks & net & Hin & Hs & Hv & Hb & Hn & Hh & Hgt).
    assert (Hnet : net ∈ side (sc_networks mc) (sc_networks ac) (role_link role)).
    { apply Hside. exists rule, blocks. by destruct role. }
    destruct (longest (new_claims (sc_networks mc) (sc_networks ac)) ip) as [[net' claim]|] eqn:El.
    + apply longest_wins in El as (_ & _ & _ & _ & Hmax); [|done..]. eexists. split; [reflexivity|].
      eapply rank_gt_mono; [exact Hgt|]. specialize (Hmax _ _ Hnet Hh). rewrite rank_le_spec. destruct order; cbn; lia.
    + exfalso. destruct (side_claimed _ _ _ _ Hnet) as (claim & E & _).
      assert (Hhold : (net, claim) ∈ holding (new_claims (sc_networks mc) (sc_networks ac)) ip)
        by (apply (holding_elem _ _ Hm Ha ip); done).
      unfold longest in El. destruct (holding _ ip); [by apply not_elem_of_nil in Hhold|done].
Qed.

End Yields.

Lemma outranked_iff o ip own :
  outranked o ip own = true <->
  (exists r, ao_route_rank o !! ip = Some r /\ rank_gt r own = true)
  \/ exists r, network_rank o ip = Some r /\ rank_gt r own = true.
Proof.
  unfold outranked, rank_max. destruct (ao_route_rank o !! ip) as [a|], (network_rank o ip) as [b|]; [|naive_solver..].
  destruct (rank_gt a b) eqn:E; (split; [eauto|]); intros [(r & [= <-] & H)|(r & [= <-] & H)]; try done;
    revert E H; rewrite ?rank_gt_spec, <- ?not_true_iff_false, ?rank_gt_spec; lia.
Qed.

(** A block yields exactly to a narrower route. For a book with well-formed
    networks, the filter of a block leaves an address open exactly when some
    enabled route rule for all programs, on either link, claims the address with
    a rank above the block's own: it names the address literally, names one of
    its cached hosts more closely, or names a longer network around it. A block
    of a literal address has no rank and yields to nothing; a tie keeps the
    block. *)
Theorem block_yields_exact {C} `{!FqdnCacheLookup C} book (cache : C) order support ip block :
  networks_ok book -> ip_wf ip ->
  block_yields (resolve_with_support book cache order support) ip block = true <->
  exists own role r, block_rank block ip order = Some own
    /\ route_claim book cache order support role ip r /\ rank_gt r own = true.
Proof.
  intros Hok Hip. unfold block_yields. change (ao_order _) with order. split.
  - destruct (block_rank block ip order) as [own|]; [|done]. rewrite outranked_iff, ranked_gt, network_gt by done.
    intros [(role & rule & Hin & [(Hs & Ha & Hgt)|(host & c & Hon & Hc & Hgt)])
           |(role & rule & blocks & net & Hin & Hs & Hv & Hb & Hn & Hh & Hgt)]; eexists own, role, _; (split; [done|]);
      (split; [|exact Hgt]); exists rule; (split; [done|]); [by left|right; left; eauto|right; right; eauto 10].
  - intros (own & role & r & -> & (rule & Hin & Hclaim) & Hgt). rewrite outranked_iff, ranked_gt, network_gt by done.
    destruct Hclaim as [(Hs & Ha & ->)|[(host & c & Hon & Hc & ->)|(blocks & net & Hs & Hv & Hb & Hn & Hh & ->)]].
    + left. exists role, rule. auto.
    + left. exists role, rule. eauto 8.
    + right. exists role, rule, blocks, net. auto 8.
Qed.

(** A desk address routed by name, inside a network blocked as a whole. *)
Definition office_book : CanonicalRuleBook :=
  mkCanonicalRuleBook [mkCanonicalRule (u "r-1") true (Some (ExactIp (ipv4 10 0 0 5))) None [] Route None] [].

Lemma block_yields_exact_witness :
  exists own role r,
    block_rank (Subnet (mkIpBlock (ipv4 10 0 0 0) 8)) (ipv4 10 0 0 5) ExactIpFirst = Some own
    /\ route_claim office_book snapshot_empty ExactIpFirst (mkSupport true true true) role (ipv4 10 0 0 5) r
    /\ rank_gt r own = true.
Proof.
  apply block_yields_exact.
  - intros [] r; [intros ->%list_elem_of_singleton|intros []%not_elem_of_nil]. done.
  - split; by vm_compute.
  - by vm_compute.
Defined.

(** ** When the kill switch may cut an address *)

Section Cut.
Context {C O : Type} `{!FqdnCacheLookup C} `{!AppObservationLookup O} (book : CanonicalRuleBook) (cache : C)
  (settings : OwnershipSettings) (support : RuleShapeSupport) (observations : O).

Let mc := name_claims cache support (primary book).
Let ac := name_claims cache support (secondary book).
Let o0 := resolve_with_support book cache (os_order settings) support.
Let o := resolve_for observations book cache settings support.

(** A rule of the link names the host, and no rule of the other link names it more closely;
    the additional link must name it more closely than every rule of the main one. *)
Definition names_closest (link : Link) (host : str) : Prop :=
  match link with
  | Main => exists rule c, rule ∈ primary book /\ claims_host cache (primary book) rule host c
      /\ forall rule' c', rule' ∈ secondary book -> claims_host cache (secondary book) rule' host c' -> claim_gt c' c = false
  | Additional => exists rule c, rule ∈ secondary book /\ claims_host cache (secondary book) rule host c
      /\ forall rule' c', rule' ∈ primary book -> claims_host cache (primary book) rule' host c' -> claim_gt c c' = true
  end.

(** The rules of the link that name the address: literally, or through a host on it. *)
Definition names_address (link : Link) (ip : IpAddr) : Prop :=
  (exists rule, rule ∈ set_for book (match link with Main => Primary | Additional => Secondary end) /\ steers rule = true
     /\ r_address_match rule = Some (ExactIp ip))
  \/ exists host, on_host cache host ip /\ names_closest link host.

(** A rule of the main link names a network the address is in. *)
Definition in_main_network (ip : IpAddr) : Prop :=
  exists rule blocks net, rule ∈ primary book /\ steers rule = true /\ is_supported (rule_verdict rule support) = true
  /\ r_address_match rule ≫= ip_blocks = Some blocks /\ net ∈ blocks /\ in_block net ip.

Lemma claim_gt_spec a b : claim_gt a b = true
  <-> fst (claim_key b) < fst (claim_key a) \/ fst (claim_key a) = fst (claim_key b) /\ snd (claim_key b) < snd (claim_key a).
Proof. apply (rank_gt_spec (claim_key a) (claim_key b)). Qed.

Lemma claim_not_gt a b : claim_cmp a b <> Gt <-> claim_gt a b = false.
Proof. unfold claim_gt. by destruct (claim_cmp a b). Qed.

Lemma closest_carried link host : names_closest link host <-> exists c, carried mc ac host = Some (link, c).
Proof.
  destruct (name_claims_ok cache support (primary book)) as (Hm & _ & _). specialize (Hm host). fold mc in Hm.
  destruct (name_claims_ok cache support (secondary book)) as (Ha & _ & _). specialize (Ha host). fold ac in Ha.
  unfold carried, contest. destruct (sc_names mc !! host) as [m|], (sc_names ac !! host) as [a|]; cbn [is_best] in Hm, Ha.
  - destruct Hm as [(rm & Hrm & Hcm) Hm], Ha as [(ra & Hra & Hca) Ha].
    assert (Hm' : forall rule c, rule ∈ primary book -> claims_host cache (primary book) rule host c -> claim_gt c m = false)
      by (intros rule c Hin Hc; apply claim_not_gt, Hm; eauto).
    assert (Ha' : forall rule c, rule ∈ secondary book -> claims_host cache (secondary book) rule host c -> claim_gt c a = false)
      by (intros rule c Hin Hc; apply claim_not_gt, Ha; eauto).
    destruct (claim_gt a m) eqn:E; destruct link; (split; [|intros (c & [=])]).
    + intros (rule & c & Hin & Hc & Hall). specialize (Hall ra a Hra Hca). specialize (Hm' rule c Hin Hc).
      revert E Hall Hm'. rewrite <- !not_true_iff_false, !claim_gt_spec. intros. exfalso. lia.
    + intros _. by exists a.
    + subst c. exists ra, a. split_and!; [done..|]. intros rule c Hin Hc. specialize (Hm' rule c Hin Hc).
      revert E Hm'. rewrite <- not_true_iff_false, !claim_gt_spec. lia.
    + intros _. by exists m.
    + subst c. exists rm, m. split_and!; [done..|]. intros rule c Hin Hc. specialize (Ha' rule c Hin Hc).
      revert E Ha'. rewrite <- !not_true_iff_false, !claim_gt_spec. lia.
    + intros (rule & c & Hin & Hc & Hall). specialize (Hall rm m Hrm Hcm). specialize (Ha' rule c Hin Hc).
      revert E Hall Ha'. rewrite <- !not_true_iff_false, !claim_gt_spec. intros. exfalso. lia.
  - destruct Hm as [(rm & Hrm & Hcm) _]. destruct link; (split; [|intros (c & [=])]).
    + intros _. by exists m.
    + subst c. exists rm, m. split_and!; [done..|]. intros rule c Hin Hc. destruct (Ha c). eauto.
    + intros (rule & c & Hin & Hc & _). destruct (Ha c). eauto.
  - destruct Ha as [(ra & Hra & Hca) _]. destruct link; (split; [|intros (c & [=])]).
    + intros (rule & c & Hin & Hc & _). destruct (Hm c). eauto.
    + intros _. by exists a.
    + subst c. exists ra, a. split_and!; [done..|]. intros rule c Hin Hc. destruct (Hm c). eauto.
  - split; [|by intros (c & ?)]. destruct link; intros (rule & c & Hin & Hc & _); [destruct (Hm c)|destruct (Ha c)]; eauto.
Qed.

Lemma held_names link ip : ip ∈ pass_held (host_pass cache (os_order settings) mc ac) link <-> names_address link ip.
Proof.
  destruct (host_pass_ok cache (os_order settings) mc ac) as (Hh & _ & _). rewrite Hh. unfold names_address. f_equiv.
  - destruct link; cbn [literal_of set_for]; apply name_claims_ok.
  - split.
    + intros (c & host & _ & Hon & Hc). exists host. split; [done|]. apply closest_carried. eauto.
    + intros (host & Hon & (c & Hc)%closest_carried). exists c, host. split_and!; [|done..]. apply (carried_is_claimed book cache support host). by exists (link, c).
Qed.

Lemma main_network_names ip : networks_ok book -> ip_wf ip -> net_names (ao_networks o0) ip Main = true <-> in_main_network ip.
Proof.
  intros Hok Hip. destruct (networks_blocks_wf book cache support Hok) as [Hm Ha]. change (ao_networks o0) with (new_claims (sc_networks mc) (sc_networks ac)).
  rewrite net_names_side by done. cbn [side]. assert (Em : sc_networks mc = route_networks support (primary book)) by exact (networks_of_role book cache support Primary).
  rewrite Em. setoid_rewrite route_networks_elem. unfold in_main_network. setoid_rewrite steers_network. split.
  - intros (net & (rule & blocks & H) & Hn). exists rule, blocks, net. tauto.
  - intros (rule & blocks & net & H). exists net. split; [|tauto]. exists rule, blocks. tauto.
Qed.

(** C27. When the kill switch may cut an address while the tunnel is gone. With well-formed
    networks, whatever the cache, the order of zones and addresses and the takeover
    setting: exactly when no enabled route rule of the main link for all programs names
    the address, literally or through a cached host that no rule of the additional link
    names more closely; and when, if the address is in a network such a rule names, the
    additional link names the address itself and the address rules give it to that link.
    So never when they give it to the main link. *)
Theorem may_block_exact ip : networks_ok book -> ip_wf ip ->
  (may_block o ip = true <->
     ~ names_address Main ip /\ (in_main_network ip -> names_address Additional ip /\ address_owner o ip = Some Additional))
  /\ (address_owner o ip = Some Main -> may_block o ip = false).
Proof.
  intros Hok Hip. destruct (resolve_for_address book cache settings support observations ip) as (Eo & Em & _). fold o in Eo, Em. rewrite Eo, Em.
  split; [|apply owner_main_not_blocked]. rewrite <- main_network_names, <- !held_names by done. unfold may_block.
  change (ao_main_claimed o0) with (pass_held (host_pass cache (os_order settings) mc ac) Main).
  change (ao_additional o0) with (pass_held (host_pass cache (os_order settings) mc ac) Additional).
  fold o0. case_bool_decide as Hc; [naive_solver|]. destruct (net_names (ao_networks o0) ip Main); cbn [negb orb]; [|naive_solver].
  rewrite andb_true_iff, !bool_decide_eq_true. naive_solver.
Qed.
End Cut.

#[local] Instance nothing_observed : AppObservationLookup unit := {
  ips_for_app _ _ := [];
  ips_v6_for_app _ _ := [];
  latest_of _ _ ips n := take n ips;
  destination_used_outside _ _ _ := false;
}.

(** The office's own address is never cut, its neighbour's is. *)
Lemma may_block_exact_witness :
  may_block (resolve_for tt office_book snapshot_empty (mkSettings ExactIpFirst true) (mkSupport true true true)) (ipv4 10 0 0 5) = false
  /\ ~ names_address office_book snapshot_empty Main (ipv4 10 0 0 6).
Proof.
  assert (Hok : networks_ok office_book) by (intros [] r; [intros ->%list_elem_of_singleton|intros []%not_elem_of_nil]; done). split.
  - apply (may_block_exact office_book snapshot_empty (mkSettings ExactIpFirst true) (mkSupport true true true) tt (ipv4 10 0 0 5)); [done|split; by vm_compute|by vm_compute].
  - apply (may_block_exact office_book snapshot_empty (mkSettings ExactIpFirst true) (mkSupport true true true) tt (ipv4 10 0 0 6)); [done|split; by vm_compute|by vm_compute].
Defined.
