(* ===== verification/AddressEngine.v ===== *)
(** * The arbiter and the decision engine

    The address arbiter of address_ownership.rs decides per address what the
    engine of decision_rules_matching.rs decides per connection. This file shows
    that both pick the link of the closest claim: the engine by its tiers, the
    arbiter by its contests, for an address that one named host stands behind;
    and that the arbiter decides an address the same from a snapshot cut down to
    it. *)

From stdpp Require Import base numbers list gmap sorting.
From S2P Require Import Prelude Str Digits IpAddr IpBlock AppPath AppIdentity AutoRule HostMatch Canonical.
From S2P Require Import NetPolicy Normalize Matching NetClaims HostCache PublicZone AddressOwner AddressContest.

Open Scope N_scope.

(** ** Picking the link of the closest claim *)

(** The link with the greatest claim, the main one on a tie, none without claims. *)
Definition picks (P : Link -> ClaimRank -> Prop) (res : option Link) : Prop :=
  match res with
  | Some Main => exists k, P Main k /\ forall k', P Additional k' -> rank_cmp k' k <> Gt
  | Some Additional => exists k, P Additional k /\ forall k', P Main k' -> rank_cmp k' k = Lt
  | None => forall link k, ~ P link k
  end.

Lemma picks_iff P Q res : (forall link k, P link k <-> Q link k) -> picks P res -> picks Q res.
Proof.
  intros H. destruct res as [[]|]; cbn; [| |by setoid_rewrite H]; intros (k & Hk & Hmax);
    exists k; (split; [by apply H|]); intros k' Hk'; by apply Hmax, H.
Qed.

Lemma picks_unique P res res' : picks P res -> picks P res' -> res = res'.
Proof.
  destruct res as [[]|], res' as [[]|]; cbn; try done.
  - intros (k & Hk & Hmax) (k' & Hk' & Hmax'). specialize (Hmax _ Hk'). specialize (Hmax' _ Hk).
    by rewrite (cmp_opp rank_cmp k k'), Hmax' in Hmax.
  - intros (k & Hk & _) Hn. by destruct (Hn Main k).
  - intros (k & Hk & Hmax) (k' & Hk' & Hmax'). specialize (Hmax _ Hk'). specialize (Hmax' _ Hk).
    by rewrite (cmp_opp rank_cmp k' k), Hmax in Hmax'.
  - intros (k & Hk & _) Hn. by destruct (Hn Additional k).
  - intros Hn (k & Hk & _). by destruct (Hn Main k).
  - intros Hn (k & Hk & _). by destruct (Hn Additional k).
Qed.

(** The claims on an address: literal rules, the closest claims on its host, and
    the networks around it by prefix. *)
Definition claimed (order : ZoneVsIpOrder) (L : Link -> bool) (H : Link -> NameClaim -> Prop) (N : Link -> Z -> Prop)
  (link : Link) (k : ClaimRank) : Prop :=
  (L link = true /\ k = literal_rank order)
  \/ (exists c, H link c /\ k = host_rank c order)
  \/ (exists len, N link len /\ k = subnet_rank len order).

(** The claim of a contest, if this link won it. *)
Definition claim_on (link : Link) (o : option (Link * NameClaim)) : option NameClaim :=
  match o with Some (l, c) => if bool_decide (l = link) then Some c else None | None => None end.

(** What the ranks of hosts are against those of addresses and networks. *)
Lemma host_rank_level c order :
  if is_zone_claim c then fst (host_rank c order) = match order with ExactIpFirst => 0 | ZoneFirst => 2 end
  else 3 <= fst (host_rank c order).
Proof. destruct c, order; cbn; lia. Qed.

Lemma claim_gt_rank a b order : claim_gt a b = true <-> rank_gt (host_rank a order) (host_rank b order) = true.
Proof.
  unfold claim_gt. change (claim_cmp a b) with (rank_cmp (claim_key a) (claim_key b)).
  fold (rank_gt (claim_key a) (claim_key b)). rewrite !rank_gt_spec. destruct a, b, order; cbn; lia.
Qed.

Lemma rank_lt_spec a b : rank_cmp a b = Lt <-> fst a < fst b \/ fst a = fst b /\ snd a < snd b.
Proof.
  destruct a as [a1 a2], b as [b1 b2]. unfold rank_cmp, pair_cmp, cmp_then, cmp_on, then_with. cbn.
  destruct (N.compare_spec a1 b1); destruct (N.compare_spec a2 b2); split; intros; try done; lia.
Qed.

(** The network that wins, by prefix. *)
Definition net_picks (N : Link -> Z -> Prop) (nw : option Link) : Prop :=
  match nw with
  | Some Main => exists len, (0 <= len)%Z /\ N Main len /\ forall len', N Additional len' -> (len' <= len)%Z
  | Some Additional => exists len, (0 <= len)%Z /\ N Additional len /\ forall len', N Main len' -> (0 <= len' < len)%Z
  | None => forall link len, ~ N link len
  end.

(** Settles a comparison of ranks of claims whose kinds are known. *)
Ltac rank_lia :=
  rewrite ?rank_le_spec, ?rank_lt_spec;
  repeat match goal with
         | c : NameClaim, E : is_zone_claim ?c = _ |- context [host_rank ?c ?o] =>
             let Hl := fresh in pose proof (host_rank_level c o) as Hl; rewrite E in Hl; revert Hl;
             generalize (host_rank c o); intros [? ?] Hl
         end;
  cbn in *; lia.

Definition by_link {A} (x y : A) (link : Link) : A := match link with Main => x | Additional => y end.

Section Pure.
Context (order : ZoneVsIpOrder) (lm la : bool) (m a : option NameClaim) (H : Link -> NameClaim -> Prop)
  (N : Link -> Z -> Prop).
Hypothesis Hm : is_best claim_cmp m (H Main).
Hypothesis Ha : is_best claim_cmp a (H Additional).

Abbreviation P := (claimed order (by_link lm la) H N).

(** Every claim of a link is at most its literal, its best host, or a network. *)
Lemma claimed_bound link k :
  P link k ->
  (by_link lm la link = true /\ k = literal_rank order)
  \/ (exists b, by_link m a link = Some b /\ H link b /\ rank_cmp k (host_rank b order) <> Gt)
  \/ (exists len, N link len /\ k = subnet_rank len order).
Proof.
  intros [Hl|[(c & Hc & ->)|Hnet]]; [by left| |by right; right]. right. left.
  assert (Hb : is_best claim_cmp (by_link m a link) (H link)) by (destruct link; done).
  destruct (by_link m a link) as [b|]; [|by destruct (Hb c)]. exists b. destruct Hb as [Hb Hmax].
  split; [done|]. split; [done|]. by apply host_rank_mono, Hmax.
Qed.

(** The main link has the address by a claim nothing of the other one exceeds. *)
Lemma picks_main k :
  P Main k ->
  (la = true -> rank_cmp (literal_rank order) k <> Gt) ->
  (forall b, a = Some b -> rank_cmp (host_rank b order) k <> Gt) ->
  (forall len, N Additional len -> rank_cmp (subnet_rank len order) k <> Gt) ->
  picks P (Some Main).
Proof.
  intros Hk Hl Hb Hnet. exists k. split; [done|].
  intros k' [[Hx ->]|[(b & Eb & _ & Hle)|(len & Hlen & ->)]]%claimed_bound; [by apply Hl| |by apply Hnet].
  apply (cmp_le_trans rank_cmp _ (host_rank b order)); [done|]. by apply Hb.
Qed.

Lemma picks_additional k :
  P Additional k ->
  (lm = true -> rank_cmp (literal_rank order) k = Lt) ->
  (forall b, m = Some b -> rank_cmp (host_rank b order) k = Lt) ->
  (forall len, N Main len -> rank_cmp (subnet_rank len order) k = Lt) ->
  picks P (Some Additional).
Proof.
  intros Hk Hl Hb Hnet. exists k. split; [done|].
  intros k' [[Hx ->]|[(b & Eb & _ & Hle)|(len & Hlen & ->)]]%claimed_bound; [by apply Hl| |by apply Hnet].
  apply (cmp_le_lt_trans rank_cmp _ (host_rank b order)); [done|]. by apply Hb.
Qed.

Lemma P_literal link : by_link lm la link = true -> P link (literal_rank order).
Proof. by left. Qed.

Lemma P_host link b : by_link m a link = Some b -> P link (host_rank b order).
Proof.
  intros E. right. left. exists b. split; [|done]. assert (Hb : is_best claim_cmp (by_link m a link) (H link)) by (destruct link; done).
  rewrite E in Hb. apply Hb.
Qed.

Lemma P_net link len : N link len -> P link (subnet_rank len order).
Proof. right. right. eauto. Qed.

End Pure.

Section Contest.
Context (order : ZoneVsIpOrder) (m a : option NameClaim).

Lemma contest_main b :
  contest m a = Some (Main, b) ->
  m = Some b /\ forall x, a = Some x -> rank_cmp (host_rank x order) (host_rank b order) <> Gt.
Proof.
  unfold contest. destruct m as [m'|], a as [a'|]; try done; [|by intros [= ->]].
  destruct (claim_gt a' m') eqn:Eg; [done|]. intros [= ->]. split; [done|]. intros x [= <-].
  apply host_rank_mono. unfold claim_gt in Eg. by destruct (claim_cmp a' b).
Qed.

Lemma contest_additional b :
  contest m a = Some (Additional, b) ->
  a = Some b /\ forall x, m = Some x -> rank_cmp (host_rank x order) (host_rank b order) = Lt.
Proof.
  unfold contest. destruct m as [m'|], a as [a'|]; try done; [|by intros [= ->]].
  destruct (claim_gt a' m') eqn:Eg; [|done]. intros [= ->]. split; [done|]. intros x [= <-].
  apply (claim_gt_rank _ _ order), rank_gt_spec in Eg. apply rank_lt_spec. lia.
Qed.

End Contest.

(** With the address on a host the main link carries. *)
Lemma main_carries order lm la m a b H N nw :
  lm && la = false -> is_best claim_cmp m (H Main) -> is_best claim_cmp a (H Additional) -> net_picks N nw ->
  contest m a = Some (Main, b) -> picks (claimed order (by_link lm la) H N) (owner_at order lm la (Some b) None nw).
Proof.
  intros Hone Hm Ha Hn [Em Hle]%(contest_main order). pose proof (P_host order lm la m a H N Hm Ha Main b Em) as Pb.
  pose proof (host_rank_level b order) as Hlev. unfold owner_at. cbn [is_some_b zone_b]. rewrite orb_true_r.
  assert (Hb : is_zone_claim b = false \/ order = ZoneFirst ->
    picks (claimed order (by_link lm la) H N) (Some Main)).
  { intros Hz. assert (Hl : 2 <= fst (host_rank b order)) by (destruct (is_zone_claim b), order; cbn in *; naive_solver lia).
    eapply picks_main; [done..| | |].
    - intros _. apply rank_le_spec. destruct order; cbn; [|lia]. destruct Hz as [Hz|]; [|done]. rewrite Hz in Hlev. lia.
    - done.
    - intros len _. apply rank_le_spec. destruct order; cbn; lia. }
  destruct (is_zone_claim b) eqn:Ez, order;
    rewrite ?bool_decide_eq_true_2, ?bool_decide_eq_false_2 by done; cbn [andb negb]; rewrite ?andb_false_r; cbn [andb negb];
    try (by apply Hb; auto).
  destruct lm; [|destruct la]; cbn [andb negb orb].
  - destruct la; [done|]. eapply (picks_main ExactIpFirst _ _ m a); [done..|by apply P_literal|done| |].
    + intros x Ex. specialize (Hle x Ex). revert Hle. rewrite !rank_le_spec. cbn in *. lia.
    + intros len _. rewrite rank_le_spec. cbn. lia.
  - eapply (picks_additional ExactIpFirst _ _ m a); [done..|by apply P_literal|done| |].
    + intros x Ex. rewrite Em in Ex. injection Ex as <-. rewrite rank_lt_spec. cbn in *. lia.
    + intros len _. rewrite rank_lt_spec. cbn. lia.
  - destruct nw as [[]|]; cbn in Hn |- *.
    + destruct Hn as (len & Hpos & Hlen & Hmax). eapply (picks_main ExactIpFirst _ _ m a); [done..|by apply P_net|done| |].
      * intros x Ex. specialize (Hle x Ex). revert Hle. rewrite !rank_le_spec. cbn in *. lia.
      * intros len' Hl. specialize (Hmax _ Hl). rewrite rank_le_spec. cbn. lia.
    + destruct Hn as (len & Hpos & Hlen & Hmax). eapply (picks_additional ExactIpFirst _ _ m a); [done..|by apply P_net|done| |].
      * intros x Ex. rewrite Em in Ex. injection Ex as <-. rewrite rank_lt_spec. cbn in *. lia.
      * intros len' Hl. specialize (Hmax _ Hl). rewrite rank_lt_spec. cbn. lia.
    + eapply (picks_main ExactIpFirst _ _ m a); [done..|exact Pb|done|done|]. intros len Hl. by destruct (Hn Additional len).
Qed.

(** With the address on a host the additional link carries. *)
Lemma additional_carries order lm la m a b H N nw :
  lm && la = false -> is_best claim_cmp m (H Main) -> is_best claim_cmp a (H Additional) -> net_picks N nw ->
  contest m a = Some (Additional, b) -> picks (claimed order (by_link lm la) H N) (owner_at order lm la None (Some b) nw).
Proof.
  intros Hone Hm Ha Hn [Ea Hlt]%(contest_additional order).
  pose proof (P_host order lm la m a H N Hm Ha Additional b Ea) as Pb.
  pose proof (host_rank_level b order) as Hlev. unfold owner_at. cbn [is_some_b zone_b]. rewrite orb_true_r, orb_false_r.
  assert (Hb : is_zone_claim b = false \/ order = ZoneFirst ->
    picks (claimed order (by_link lm la) H N) (Some Additional)).
  { intros Hz. assert (Hl : 2 <= fst (host_rank b order)) by (destruct (is_zone_claim b), order; cbn in *; naive_solver lia).
    eapply (picks_additional order _ _ m a); [done..| | |].
    - intros _. apply rank_lt_spec. destruct order; cbn; [|lia]. destruct Hz as [Hz|]; [|done]. rewrite Hz in Hlev. lia.
    - done.
    - intros len _. apply rank_lt_spec. destruct order; cbn; lia. }
  assert (Hahead : ahead_of_literal order (Some b) = negb (is_zone_claim b) || bool_decide (order = ZoneFirst))
    by (destruct b; done).
  rewrite Hahead. clear Hahead.
  destruct (is_zone_claim b) eqn:Ez, order;
    rewrite ?bool_decide_eq_true_2, ?bool_decide_eq_false_2 by done; cbn [andb negb orb];
    try (by destruct lm, la; try done; cbn; apply Hb; auto).
  assert (Hmain : forall x, m = Some x -> fst (host_rank x ExactIpFirst) = 0).
  { intros x Ex. specialize (Hlt x Ex). rewrite rank_lt_spec in Hlt. cbn in *. lia. }
  destruct lm; [|destruct la]; cbn [andb negb orb].
  - destruct la; [done|]. cbn. eapply (picks_main ExactIpFirst _ _ m a); [done..|by apply P_literal|done| |].
    + intros x Ex. rewrite Ea in Ex. injection Ex as <-. rewrite rank_le_spec. cbn in *. lia.
    + intros len _. rewrite rank_le_spec. cbn. lia.
  - eapply (picks_additional ExactIpFirst _ _ m a); [done..|by apply P_literal|done| |].
    + intros x Ex. specialize (Hmain x Ex). rewrite rank_lt_spec. cbn in *. lia.
    + intros len _. rewrite rank_lt_spec. cbn. lia.
  - destruct nw as [[]|]; cbn in Hn |- *.
    + destruct Hn as (len & Hpos & Hlen & Hmax). eapply (picks_main ExactIpFirst _ _ m a); [done..|by apply P_net|done| |].
      * intros x Ex. rewrite Ea in Ex. injection Ex as <-. rewrite rank_le_spec. cbn in *. lia.
      * intros len' Hl. specialize (Hmax _ Hl). rewrite rank_le_spec. cbn. lia.
    + destruct Hn as (len & Hpos & Hlen & Hmax). eapply (picks_additional ExactIpFirst _ _ m a); [done..|by apply P_net|done| |].
      * intros x Ex. specialize (Hmain x Ex). rewrite rank_lt_spec. cbn in *. lia.
      * intros len' Hl. specialize (Hmax _ Hl). rewrite rank_lt_spec. cbn. lia.
    + eapply (picks_additional ExactIpFirst _ _ m a); [done..|exact Pb|done|done|]. intros len Hl. by destruct (Hn Main len).
Qed.

(** With no named host on the address. *)
Lemma nobody_carries order lm la H N nw :
  lm && la = false -> is_best claim_cmp None (H Main) -> is_best claim_cmp None (H Additional) -> net_picks N nw ->
  picks (claimed order (by_link lm la) H N) (owner_at order lm la None None nw).
Proof.
  intros Hone Hm Ha Hn. unfold owner_at. cbn [is_some_b zone_b ahead_of_literal]. rewrite !orb_false_r, !andb_false_r. cbn [negb].
  destruct lm; [|destruct la]; cbn [andb negb].
  - destruct la; [done|]. rewrite andb_false_r. cbn.
    eapply (picks_main order _ _ None None); [done..|by apply P_literal|done|done|].
    intros len _. rewrite rank_le_spec. destruct order; cbn; lia.
  - eapply (picks_additional order _ _ None None); [done..|by apply P_literal|done|done|].
    intros len _. rewrite rank_lt_spec. destruct order; cbn; lia.
  - destruct nw as [[]|]; cbn in Hn |- *.
    + destruct Hn as (len & Hpos & Hlen & Hmax). eapply (picks_main order _ _ None None); [done..|by apply P_net|done|done|].
      intros len' Hl. specialize (Hmax _ Hl). rewrite rank_le_spec. destruct order; cbn; lia.
    + destruct Hn as (len & Hpos & Hlen & Hmax). eapply (picks_additional order _ _ None None); [done..|by apply P_net|done|done|].
      intros len' Hl. specialize (Hmax _ Hl). rewrite rank_lt_spec. destruct order; cbn; lia.
    + intros link k [[Hl _]|[(c & Hc & _)|(len & Hlen & _)]]; [by destruct link|destruct link; [by destruct (Hm c)|by destruct (Ha c)]|].
      by destruct (Hn link len).
Qed.

(** The owner the arbiter computes is the link of the closest claim, unless both
    links name the address literally. *)
Lemma owner_at_picks order lm la m a H N nw :
  lm && la = false -> is_best claim_cmp m (H Main) -> is_best claim_cmp a (H Additional) -> net_picks N nw ->
  picks (claimed order (by_link lm la) H N)
    (owner_at order lm la (claim_on Main (contest m a)) (claim_on Additional (contest m a)) nw).
Proof.
  intros Hone Hm Ha Hn. destruct (contest m a) as [[[] b]|] eqn:E; cbn.
  - by eapply main_carries.
  - by eapply additional_carries.
  - unfold contest in E. destruct m, a; try done; [by destruct (claim_gt _ _)|]. by apply nobody_carries.
Qed.

Definition link_role (link : Link) : RouteRole := match link with Main => Primary | Additional => Secondary end.

Section Arbiter.
Context {C : Type} `{!FqdnCacheLookup C} (book : CanonicalRuleBook) (cache : C) (order : ZoneVsIpOrder)
  (support : RuleShapeSupport) (h : str) (ip : IpAddr).

Let mc := name_claims cache support (primary book).
Let ac := name_claims cache support (secondary book).
Let o := resolve_with_support book cache order support.

(** Of the hosts the rules of the book name, [h] alone is on the address. *)
Definition only_host : Prop :=
  on_host cache h ip /\
  forall role rule host c, rule ∈ set_for book role -> claims_host cache (set_for book role) rule host c ->
    on_host cache host ip -> host = h.

(** One link at most names the address literally. *)
Definition one_literal : Prop :=
  ~ ((exists r, r ∈ primary book /\ steers r = true /\ r_address_match r = Some (ExactIp ip))
     /\ exists r, r ∈ secondary book /\ steers r = true /\ r_address_match r = Some (ExactIp ip)).

Hypothesis Honly : only_host.
Hypothesis Hlit : one_literal.
Hypothesis Hok : networks_ok book.
Hypothesis Hip : ip_wf ip.

Lemma claimed_host_is_named host :
  host ∈ claimed_hosts (sc_names mc) (sc_names ac) ->
  exists role rule c, rule ∈ set_for book role /\ claims_host cache (set_for book role) rule host c.
Proof.
  unfold claimed_hosts. rewrite sort_by_elem_of, elem_of_elements, elem_of_union, !elem_of_dom.
  intros [[c Hc]|[c Hc]].
  - destruct (name_claims_ok cache support (primary book)) as (Hn & _). specialize (Hn host). fold mc in Hn. rewrite Hc in Hn.
    destruct Hn as [(rule & Hin & Hcl) _]. by exists Primary, rule, c.
  - destruct (name_claims_ok cache support (secondary book)) as (Hn & _). specialize (Hn host). fold ac in Hn. rewrite Hc in Hn.
    destruct Hn as [(rule & Hin & Hcl) _]. by exists Secondary, rule, c.
Qed.

Lemma single_claim link : pass_claim (host_pass cache order mc ac) link !! ip = claim_on link (carried mc ac h).
Proof using Honly.
  destruct Honly as [Hon Hall]. destruct (host_pass_ok cache order mc ac) as (_ & Hc & _).
  apply (is_best_unique claim_cmp _ _ _ (Hc link ip)). 
  eapply (is_best_iff _ _ (fun c => carried mc ac h = Some (link, c))).
  - intros c. unfold holds_by. split.
    + intros E. exists h. split; [|done]. apply (carried_is_claimed book cache support).
      change (is_Some (carried mc ac h)). rewrite E. by eexists.
    + intros (host & Hclaimed & Hhost & E).
      destruct (claimed_host_is_named host Hclaimed) as (role & rule & c' & Hin & Hcl).
      by rewrite (Hall role rule host c' Hin Hcl Hhost) in E.
  - destruct (carried mc ac h) as [[l c]|]; cbn; [|done]. destruct (bool_decide (l = link)) eqn:E; cbn.
    + apply bool_decide_eq_true in E as ->. split; [done|]. intros x [= ->]. by rewrite (cmp_refl claim_cmp).
    + apply bool_decide_eq_false in E. congruence.
Qed.

(** The networks of the link around the address, by prefix. *)
Definition around (link : Link) (len : Z) : Prop :=
  exists net, net ∈ side (sc_networks mc) (sc_networks ac) link /\ in_block net ip /\ prefix_len net = len.

Lemma around_picks : net_picks around (net_winner (ao_networks o) ip).
Proof using Hok Hip.
  destruct (networks_blocks_wf book cache support Hok) as [Hm Ha]. fold mc in Hm. fold ac in Ha.
  assert (Hwf : forall link net, net ∈ side (sc_networks mc) (sc_networks ac) link -> block_wf net).
  { rewrite Forall_forall in Hm, Ha. intros []; cbn; auto. }
  change (ao_networks o) with (new_claims (sc_networks mc) (sc_networks ac)).
  destruct (net_winner _ ip) as [link|] eqn:E.
  - apply net_winner_wins in E as (net & Hb & Hin & Hadd & Hmax); [|done..].
    destruct (Hwf link net Hin) as (_ & Hpos & _). destruct link; exists (prefix_len net); (split; [lia|]).
    + split; [by exists net|]. intros len' (net' & Hin' & Hb' & <-). by eapply Hmax.
    + split; [by exists net|]. intros len' (net' & Hin' & Hb' & <-).
      destruct (Hwf Main net' Hin') as (_ & Hpos' & _). pose proof (Hmax Main net' Hin' Hb').
      assert (prefix_len net' <> prefix_len net); [|lia]. intros Ep.
      pose proof (block_at_prefix net ip (Hwf _ _ Hin) Hip Hb) as E1.
      pose proof (block_at_prefix net' ip (Hwf Main _ Hin') Hip Hb') as E2. rewrite Ep, E1 in E2. injection E2 as <-.
      by apply Hadd.
  - rewrite net_winner_none in E by done. intros link len (net & Hin & Hb & _). by apply (E link net).
Qed.

Lemma literal_claimed link :
  by_link (bool_decide (ip ∈ sc_literal mc)) (bool_decide (ip ∈ sc_literal ac)) link = true <->
  exists rule, rule ∈ set_for book (link_role link) /\ steers rule = true /\ r_address_match rule = Some (ExactIp ip).
Proof.
  destruct (name_claims_ok cache support (primary book)) as (_ & Hm & _).
  destruct (name_claims_ok cache support (secondary book)) as (_ & Ha & _).
  destruct link; cbn [by_link link_role set_for]; rewrite bool_decide_eq_true; [apply Hm|apply Ha].
Qed.

Lemma around_claimed link len :
  around link len <->
  exists rule blocks net, rule ∈ set_for book (link_role link) /\ steers rule = true
    /\ is_supported (rule_verdict rule support) = true
    /\ r_address_match rule ≫= ip_blocks = Some blocks /\ net ∈ blocks /\ in_block net ip /\ prefix_len net = len.
Proof.
  assert (E : side (sc_networks mc) (sc_networks ac) link = route_networks support (set_for book (link_role link)))
    by (destruct link; apply name_claims_ok).
  unfold around. rewrite E. setoid_rewrite route_networks_elem. setoid_rewrite steers_network. naive_solver.
Qed.

(** The arbiter gives the address to the link of the closest claim on it. *)
Lemma arbiter_picks :
  picks (fun link => route_claim book cache order support (link_role link) ip) (address_owner o ip).
Proof using Honly Hlit Hok Hip.
  unfold o. rewrite address_owner_at. fold mc ac.
  change (hp_main_claim (host_pass cache order mc ac)) with (pass_claim (host_pass cache order mc ac) Main).
  change (hp_additional_claim (host_pass cache order mc ac)) with (pass_claim (host_pass cache order mc ac) Additional).
  rewrite !single_claim. fold o.
  eapply picks_iff; [|apply (owner_at_picks order _ _ (sc_names mc !! h) (sc_names ac !! h)
    (fun link c => exists rule, rule ∈ set_for book (link_role link) /\ claims_host cache (set_for book (link_role link)) rule h c)
    around)].
  - intros link k. unfold claimed, route_claim. rewrite literal_claimed. setoid_rewrite around_claimed. split.
    + intros [[(rule & Hin & Hs & Ha) ->]|[(c & (rule & Hin & Hc) & ->)|(len & (rule & blocks & net & Hin & Hs & Hv & Hb & Hn & Hi & <-) & ->)]];
        exists rule; (split; [done|]); [by left| |right; right; eauto 10].
      right. left. exists h, c. split; [apply Honly|done].
    + intros (rule & Hin & [(Hs & Ha & ->)|[(host & c & Hon & Hc & ->)|(blocks & net & Hs & Hv & Hb & Hn & Hi & ->)]]).
      * left. split; [eauto|done].
      * right. left. destruct Honly as [_ Hall]. rewrite (Hall _ _ _ _ Hin Hc Hon) in Hc. exists c. eauto.
      * right. right. exists (prefix_len net). split; [|done]. exists rule, blocks, net. auto 8.
  - apply not_true_iff_false. intros [H1 H2]%andb_true_iff. apply Hlit. split.
    + by apply (literal_claimed Main).
    + by apply (literal_claimed Additional).
  - exact (proj1 (name_claims_ok cache support (primary book)) h).
  - exact (proj1 (name_claims_ok cache support (secondary book)) h).
  - apply around_picks.
Qed.

End Arbiter.

(** ** What the engine picks *)

Section Tiers.
Context `{Unicode} (input : NormalizedDecisionInput) (lookup : LookupResult) (book : CanonicalRuleBook)
  (zone_policy : ZonePriorityPolicy) (h : str) (ip : IpAddr).

Definition order_of : ZoneVsIpOrder := if prefer_ip zone_policy then ExactIpFirst else ZoneFirst.

(** A normalised connection to the host at the address. *)
Definition connection_to : Prop :=
  hostname input = HostValid h /\ effective_ips_for_matching input lookup = [ip]
  /\ match_class_availability input = derive_match_class_availability (hostname input) (app_identity input).

(** The address condition of the rule holds for the host or the address. *)
Definition covers (r : CanonicalRule) : Prop :=
  match r_address_match r with
  | Some (ExactFqdn l) => l = h
  | Some (SuffixDomain l) => match_suffix_domain h l = true
  | Some (AnyZoneDomain base) => is_Some (match_any_zone_domain h base)
  | Some (Zone z) => match_zone h z = true
  | Some (ExactIp a) => a = ip
  | Some (Subnet _ | Range _) =>
      exists blocks b, r_address_match r ≫= ip_blocks = Some blocks /\ find_first (fun b => IpBlock_contains b ip) blocks = Some b
  | None => True
  end.

(** The rules that may decide it, those whose conditions hold, route and do so for
    all programs; [base.*] rules are left to the rules they stand for. *)
Definition routes_for_all : Prop :=
  forall role r, r ∈ set_for book role -> r_enabled r = true ->
    is_eligible (eval_app_filter r (app_identity input)) = true -> covers r ->
    r_app_match r = None /\ r_action r <> Block /\ forall base, r_address_match r <> Some (AnyZoneDomain base).

Let proc := app_identity input.
Let order := order_of.

Definition cand (role : RouteRole) (r : CanonicalRule) (class : MatchClass) (spec : N) : RuleMatchCandidate :=
  make_candidate (r_id r) role class spec (eval_app_filter r proc) (r_action r).

(** What a rule claims in the tier with this number, with its rank. *)
Definition claim_in (j : nat) (role : RouteRole) (r : CanonicalRule) (class : MatchClass) (spec : N) (k : ClaimRank) : Prop :=
  let exact := r_address_match r = Some (ExactFqdn h) /\ class = CExactFqdn /\ spec = label_count h
               /\ k = host_rank ExactFqdnClaim order in
  let suffix :=
    (exists l, r_address_match r = Some (SuffixDomain l) /\ match_suffix_domain h l = true /\ class = CSuffixDomain
               /\ spec = label_count l /\ k = host_rank (SuffixClaim spec) order)
    \/ (exists z, r_address_match r = Some (Zone z) /\ zone_ranks_as_suffix z = true /\ match_zone h z = true
                  /\ holds_suffix (set_for book role) z (r_app_match r) = false /\ class = CZone
                  /\ spec = label_count z /\ k = host_rank (SiteZoneClaim spec) order) in
  let zone := exists z, r_address_match r = Some (Zone z) /\ zone_ranks_as_suffix z = false /\ match_zone h z = true
                        /\ class = CZone /\ spec = label_count z /\ k = host_rank (ZoneClaim spec) order in
  let literal := r_address_match r = Some (ExactIp ip) /\ class = CExactIp /\ spec = SINGLE /\ k = literal_rank order in
  let network := exists blocks b, r_address_match r ≫= ip_blocks = Some blocks
                   /\ find_first (fun b => IpBlock_contains b ip) blocks = Some b /\ class = CSubnet
                   /\ spec = Z.to_N (prefix_len b) /\ k = subnet_rank (prefix_len b) order in
  match j, prefer_ip zone_policy with
  | 2%nat, _ => exact
  | 3%nat, _ => suffix
  | 4%nat, true | 5%nat, false => literal
  | 5%nat, true | 6%nat, false => network
  | 6%nat, true | 4%nat, false => zone
  | _, _ => False
  end.

Hypothesis Hconn : connection_to.
Hypothesis Hplain : routes_for_all.

Definition in_book (role : RouteRole) (r : CanonicalRule) : Prop :=
  r ∈ set_for book role /\ r_enabled r = true /\ is_eligible (eval_app_filter r proc) = true.

Lemma host_tier_single blocked f c :
  blocked = None -> c ∈ host_tier blocked input (fun h => for_each_enabled book (f h)) <->
  exists role r, r ∈ set_for book role /\ r_enabled r = true /\ c ∈ f h role r.
Proof using Hconn.
  destruct Hconn as (Hh & _ & _). intros ->. rewrite host_tier_elem. setoid_rewrite for_each_enabled_elem. rewrite Hh. naive_solver.
Qed.

Lemma ip_tier_single blocked f c :
  blocked = None -> c ∈ ip_tier blocked (effective_ips_for_matching input lookup) (fun a => for_each_enabled book (f a)) <->
  exists role r, r ∈ set_for book role /\ r_enabled r = true /\ c ∈ f ip role r.
Proof using Hconn.
  destruct Hconn as (_ & Hi & _). intros ->. rewrite ip_tier_elem, Hi. setoid_rewrite for_each_enabled_elem.
  setoid_rewrite list_elem_of_singleton. naive_solver.
Qed.

Lemma avail_open :
  exact_fqdn (match_class_availability input) = None /\ suffix_domain (match_class_availability input) = None
  /\ zone (match_class_availability input) = None /\ exact_ip (match_class_availability input) = None.
Proof using Hconn. destruct Hconn as (Hh & _ & ->). rewrite Hh. done. Qed.

(** The candidates a rule gives in a tier are its claims there. *)
Lemma exact_cands role r c :
  c ∈ exact_fqdn_candidates proc h role r <-> exists class spec k, claim_in 2 role r class spec k /\ c = cand role r class spec.
Proof using Type.
  unfold exact_fqdn_candidates, claim_in. split.
  - destruct (r_address_match r) as [[l| | | | | |]|]; try (by intros ?%not_elem_of_nil).
    destruct (str_eqb l h) eqn:E; [|by intros ?%not_elem_of_nil]. apply str_eqb_eq in E as ->.
    intros ->%list_elem_of_singleton. eauto 8.
  - intros (class & spec & k & (-> & -> & -> & _) & ->). rewrite str_eqb_refl. left.
Qed.

Lemma suffix_cands role r c :
  (forall base, r_address_match r = Some (AnyZoneDomain base) -> match_any_zone_domain h base = None) ->
  c ∈ suffix_domain_candidates book proc h role r <->
  exists class spec k, claim_in 3 role r class spec k /\ c = cand role r class spec.
Proof using Type.
  intros Hany. unfold suffix_domain_candidates, claim_in. split.
  - destruct (r_address_match r) as [[l|l|base|z| | |]|]; try (by intros ?%not_elem_of_nil).
    + destruct (match_suffix_domain h l) eqn:E; [|by intros ?%not_elem_of_nil].
      intros ->%list_elem_of_singleton. eexists _, _, _. split; [left; exists l; eauto|done].
    + rewrite (Hany base) by done. by intros ?%not_elem_of_nil.
    + destruct (zone_ranks_as_suffix z && match_zone h z && negb _) eqn:E; [|by intros ?%not_elem_of_nil].
      apply andb_true_iff in E as [[Hz Hm]%andb_true_iff Hs%negb_true_iff].
      intros ->%list_elem_of_singleton. eexists _, _, _. split; [right; exists z; eauto 8|done].
  - intros (class & spec & k & [(l & -> & -> & -> & -> & _)|(z & -> & -> & -> & -> & -> & -> & _)] & ->); left.
Qed.

Lemma zone_cands role r c :
  c ∈ zone_candidates proc h role r <->
  exists class spec k, claim_in (if prefer_ip zone_policy then 6 else 4) role r class spec k /\ c = cand role r class spec.
Proof using Type.
  unfold zone_candidates, claim_in.
  assert (Hz : (exists z, r_address_match r = Some (Zone z) /\ zone_ranks_as_suffix z = false /\ match_zone h z = true
                  /\ c = cand role r CZone (label_count z)) <->
    c ∈ match r_address_match r with
        | Some (Zone z) => if negb (zone_ranks_as_suffix z) && match_zone h z
                           then [make_candidate (r_id r) role CZone (label_count z) (eval_app_filter r proc) (r_action r)] else []
        | _ => [] end).
  { split; [by intros (z & -> & -> & -> & ->); left|].
    destruct (r_address_match r) as [[| | |z| | |]|]; try (by intros ?%not_elem_of_nil).
    destruct (negb _ && _) eqn:E; [|by intros ?%not_elem_of_nil]. apply andb_true_iff in E as [E%negb_true_iff Em].
    intros ->%list_elem_of_singleton. eauto 6. }
  rewrite <- Hz. destruct (prefer_ip zone_policy); (split; [intros (z & ? & ? & ? & ->); eauto 12|]);
    intros (class & spec & k & (z & ? & ? & ? & -> & -> & _) & ->); eauto 6.
Qed.

Lemma literal_cands role r c :
  c ∈ exact_ip_candidates proc ip role r <->
  exists class spec k, claim_in (if prefer_ip zone_policy then 4 else 5) role r class spec k /\ c = cand role r class spec.
Proof using Type.
  unfold exact_ip_candidates, claim_in.
  assert (Hz : (r_address_match r = Some (ExactIp ip) /\ c = cand role r CExactIp SINGLE) <->
    c ∈ match r_address_match r with
        | Some (ExactIp a) => if bool_decide (a = ip)
                              then [make_candidate (r_id r) role CExactIp SINGLE (eval_app_filter r proc) (r_action r)] else []
        | _ => [] end).
  { split; [intros (-> & ->); rewrite bool_decide_eq_true_2 by done; left|].
    destruct (r_address_match r) as [[| | | |a| |]|]; try (by intros ?%not_elem_of_nil).
    case_bool_decide; [subst|by intros ?%not_elem_of_nil]. by intros ->%list_elem_of_singleton. }
  rewrite <- Hz. destruct (prefer_ip zone_policy); (split; [intros (? & ->); eauto 12|]);
    intros (class & spec & k & (? & -> & -> & _) & ->); eauto.
Qed.

Lemma network_cands role r c :
  c ∈ subnet_candidates proc ip role r <->
  exists class spec k, claim_in (if prefer_ip zone_policy then 5 else 6) role r class spec k /\ c = cand role r class spec.
Proof using Type.
  unfold subnet_candidates, claim_in.
  assert (Hz : (exists blocks b, r_address_match r ≫= ip_blocks = Some blocks
                  /\ find_first (fun b => IpBlock_contains b ip) blocks = Some b
                  /\ c = cand role r CSubnet (Z.to_N (prefix_len b))) <->
    c ∈ match r_address_match r ≫= ip_blocks with
        | Some blocks => match find_first (fun b => IpBlock_contains b ip) blocks with
                         | Some b => [make_candidate (r_id r) role CSubnet (Z.to_N (prefix_len b))
                                        (eval_app_filter r proc) (r_action r)]
                         | None => [] end
        | None => [] end).
  { split; [by intros (blocks & b & -> & -> & ->); left|].
    destruct (r_address_match r ≫= ip_blocks) as [blocks|]; [|by intros ?%not_elem_of_nil].
    destruct (find_first _ blocks) as [b|] eqn:E; [|by intros ?%not_elem_of_nil].
    intros ->%list_elem_of_singleton. eauto 6. }
  rewrite <- Hz. destruct (prefer_ip zone_policy); (split; [intros (blocks & b & ? & ? & ->); eauto 12|]);
    intros (class & spec & k & (blocks & b & ? & ? & -> & -> & _) & ->); eauto 6.
Qed.

(** What a rule claims, whatever its tier. *)
Definition rule_claim (role : RouteRole) (r : CanonicalRule) (k : ClaimRank) : Prop :=
  match r_address_match r with
  | Some (ExactFqdn l) => l = h /\ k = host_rank ExactFqdnClaim order
  | Some (SuffixDomain l) => match_suffix_domain h l = true /\ k = host_rank (SuffixClaim (label_count l)) order
  | Some (Zone z) =>
      match_zone h z = true
      /\ if zone_ranks_as_suffix z
         then holds_suffix (set_for book role) z (r_app_match r) = false /\ k = host_rank (SiteZoneClaim (label_count z)) order
         else k = host_rank (ZoneClaim (label_count z)) order
  | Some (ExactIp a) => a = ip /\ k = literal_rank order
  | Some (Subnet _ | Range _) =>
      exists blocks b, r_address_match r ≫= ip_blocks = Some blocks
        /\ find_first (fun b => IpBlock_contains b ip) blocks = Some b /\ k = subnet_rank (prefix_len b) order
  | Some (AnyZoneDomain _) | None => False
  end.

Lemma claim_in_rule role r k : (exists j class spec, claim_in j role r class spec k) <-> rule_claim role r k.
Proof using Type.
  unfold claim_in, rule_claim. split.
  - intros (j & class & spec & Hc). destruct j as [|[|[|[|[|[|[|j]]]]]]]; destruct (prefer_ip zone_policy); try done.
    all: first
      [ destruct Hc as (Ha & -> & -> & ->); by rewrite Ha
      | destruct Hc as [(l & Ha & Hm & -> & -> & ->)|(z & Ha & Hz & Hm & Hs & -> & -> & ->)]; rewrite Ha; rewrite ?Hz; done
      | destruct Hc as (z & Ha & Hz & Hm & -> & -> & ->); rewrite Ha, Hz; done
      | destruct Hc as (blocks & b & Ha & Hf & -> & -> & ->); destruct (r_address_match r) as [[]|]; try done; eauto ].
  - destruct (r_address_match r) as [[l|l|base|z|a|net|range]|] eqn:E; try done.
    + intros [-> ->]. exists 2%nat, CExactFqdn, (label_count h). done.
    + intros [Hm ->]. exists 3%nat, CSuffixDomain, (label_count l). left. eauto 6.
    + intros [Hm Hz]. destruct (zone_ranks_as_suffix z) eqn:Ez.
      * destruct Hz as [Hs ->]. exists 3%nat, CZone, (label_count z). right. exists z. auto 8.
      * subst k. exists (if prefer_ip zone_policy then 6 else 4)%nat, CZone, (label_count z).
        destruct (prefer_ip zone_policy); exists z; auto 8.
    + intros [-> ->]. exists (if prefer_ip zone_policy then 4 else 5)%nat, CExactIp, SINGLE. by destruct (prefer_ip zone_policy).
    + intros (blocks & b & Hb & Hf & ->). exists (if prefer_ip zone_policy then 5 else 6)%nat, CSubnet, (Z.to_N (prefix_len b)).
      destruct (prefer_ip zone_policy); exists blocks, b; auto.
    + intros (blocks & b & Hb & Hf & ->). exists (if prefer_ip zone_policy then 5 else 6)%nat, CSubnet, (Z.to_N (prefix_len b)).
      destruct (prefer_ip zone_policy); exists blocks, b; auto.
Qed.

Lemma claim_covers role r k : rule_claim role r k -> covers r.
Proof using Type.
  unfold rule_claim, covers. destruct (r_address_match r) as [[]|]; naive_solver.
Qed.

Lemma claimant_routes j role r class spec k : in_book role r -> claim_in j role r class spec k -> r_action r <> Block.
Proof using Hplain.
  intros (Hr & He & Hg) Hc. apply (Hplain role r Hr He Hg). eapply (claim_covers role r k), claim_in_rule. eauto.
Qed.

Lemma app_tier_silent c : c ∈ app_tier (application (match_class_availability input)) input book -> eligible c = true -> False.
Proof using Hplain.
  unfold app_tier. destruct (is_none _); [|by intros ?%not_elem_of_nil].
  destruct (app_identity input) as [who|] eqn:Ew; [|by intros ?%not_elem_of_nil].
  intros (role & r & Hr & He & Hc)%for_each_enabled_elem _. unfold application_candidates in Hc.
  destruct (r_address_match r) eqn:Ea; [by apply not_elem_of_nil in Hc|].
  destruct (r_app_match r) as [m|] eqn:Em; [|by apply not_elem_of_nil in Hc].
  destruct (app_match_specificity (pattern m) who) eqn:Es; [|by apply not_elem_of_nil in Hc].
  destruct (Hplain role r Hr He) as [Hn _]; [| |by rewrite Em in Hn].
  - unfold eval_app_filter. by rewrite Em, Ew, Es.
  - unfold covers. by rewrite Ea.
Qed.

Lemma suffix_eligible role r c :
  c ∈ suffix_domain_candidates book proc h role r -> eligible c = is_eligible (eval_app_filter r proc).
Proof using Type.
  unfold suffix_domain_candidates. destruct (r_address_match r) as [[]|]; try (by intros ?%not_elem_of_nil);
    repeat case_match; try (by intros ?%not_elem_of_nil); by intros ->%list_elem_of_singleton.
Qed.

(** A tier's claims in terms of the rules that may decide. *)
Definition tier_claims (j : nat) (c : RuleMatchCandidate) : Prop :=
  exists role r class spec k, in_book role r /\ claim_in j role r class spec k /\ c = cand role r class spec.

Lemma tier_claims_intro j role r c :
  r ∈ set_for book role -> r_enabled r = true -> eligible c = true ->
  (exists class spec k, claim_in j role r class spec k /\ c = cand role r class spec) -> tier_claims j c.
Proof using Type.
  intros Hr He Hel (class & spec & k & Hc & ->). exists role, r, class, spec, k. split; [|done]. done.
Qed.

Lemma tier_sound_at j t c : tiers input lookup book zone_policy !! j = Some t -> c ∈ t -> eligible c = true -> tier_claims j c.
Proof using Hconn Hplain.
  destruct avail_open as (A1 & A2 & A3 & A4). intros Ht Hc Hel.
  assert (Hexact : c ∈ ip_tier (exact_ip (match_class_availability input)) (effective_ips_for_matching input lookup)
    (collect_exact_ip book proc) -> tier_claims (if prefer_ip zone_policy then 4 else 5)%nat c).
  { intros (role & r & Hr & He & Hx)%ip_tier_single; [|done]. rewrite literal_cands in Hx. by eapply tier_claims_intro. }
  assert (Hnet : c ∈ ip_tier (exact_ip (match_class_availability input)) (effective_ips_for_matching input lookup)
    (collect_subnet book proc) -> tier_claims (if prefer_ip zone_policy then 5 else 6)%nat c).
  { intros (role & r & Hr & He & Hx)%ip_tier_single; [|done]. rewrite network_cands in Hx. by eapply tier_claims_intro. }
  assert (Hzone : c ∈ host_tier (zone (match_class_availability input)) input (collect_zone book proc) ->
    tier_claims (if prefer_ip zone_policy then 6 else 4)%nat c).
  { intros (role & r & Hr & He & Hx)%host_tier_single; [|done]. rewrite zone_cands in Hx. by eapply tier_claims_intro. }
  unfold tiers, tier3_order in Ht. cbn [app fmap list_fmap] in Ht.
  destruct j as [|[|[|[|j]]]]; [| | | |].
  - injection Ht as <-. apply filter_elem in Hc as [Hc Hb]. apply Hexact in Hc as (role & r & class & spec & k & Hin & Hk & ->).
    pose proof (claimant_routes _ _ _ _ _ _ Hin Hk) as Hn. unfold is_block, cand in Hb. cbn in Hb. by apply bool_decide_eq_true in Hb.
  - injection Ht as <-. apply filter_elem in Hc as [Hc _]. by destruct (app_tier_silent c Hc Hel).
  - injection Ht as <-. apply host_tier_single in Hc as (role & r & Hr & He & Hx); [|done].
    apply exact_cands in Hx. by eapply tier_claims_intro.
  - injection Ht as <-. apply host_tier_single in Hc as (role & r & Hr & He & Hx); [|done].
    apply suffix_cands in Hx; [by eapply tier_claims_intro|].
    intros base Ea. apply eq_None_not_Some. intros Hm. pose proof (suffix_eligible role r c Hx) as E. rewrite Hel in E.
    destruct (Hplain role r Hr He) as (_ & _ & Hany); [done|unfold covers; by rewrite Ea|]. by destruct (Hany base).
  - destruct (prefer_ip zone_policy); destruct j as [|[|[|[|j]]]]; cbn in Ht; try done; injection Ht as <-;
      try (by apply Hexact); try (by apply Hnet); try (by apply Hzone); by destruct (app_tier_silent c Hc Hel).
Qed.

Lemma tier_complete_at j role r class spec k :
  in_book role r -> claim_in j role r class spec k ->
  exists t, tiers input lookup book zone_policy !! j = Some t /\ cand role r class spec ∈ t.
Proof using Hconn Hplain.
  intros (Hr & He & Hg) Hc. destruct avail_open as (A1 & A2 & A3 & A4).
  assert (Hex : exists class' spec' k', claim_in j role r class' spec' k' /\ cand role r class spec = cand role r class' spec')
    by eauto 6.
  assert (Hrr : forall c (f : RouteRole -> CanonicalRule -> list RuleMatchCandidate), c ∈ f role r ->
    exists role r, r ∈ set_for book role /\ r_enabled r = true /\ c ∈ f role r) by eauto.
  unfold tiers, tier3_order. cbn [app fmap list_fmap].
  destruct j as [|[|[|[|j]]]]; [done..| | |].
  - eexists. split; [reflexivity|]. apply host_tier_single; [done|]. apply Hrr. by apply exact_cands.
  - eexists. split; [reflexivity|]. apply host_tier_single; [done|]. apply Hrr. apply suffix_cands; [|done].
    intros base Ea. destruct Hc as [(l & E & _)|(z & E & _)]; by rewrite Ea in E.
  - pose proof (literal_cands role r (cand role r class spec)) as L1.
    pose proof (network_cands role r (cand role r class spec)) as L2.
    pose proof (zone_cands role r (cand role r class spec)) as L3. revert Hex L1 L2 L3. clear Hc.
    destruct (prefer_ip zone_policy) eqn:Ep; intros Hex L1 L2 L3; destruct j as [|[|[|j]]].
    all: try (destruct Hex as (? & ? & ? & Hx & _); unfold claim_in in Hx; rewrite ?Ep in Hx; cbn in Hx; done).
    all: eexists; (split; [reflexivity|]).
    all: first [apply ip_tier_single; [done|] | apply host_tier_single; [done|]]; apply Hrr.
    all: first [by apply L1 | by apply L2 | by apply L3].
Qed.

(** An earlier tier holds the closer claims. *)
Lemma claim_in_level j j' role r class spec k role' r' class' spec' k' :
  (j < j')%nat -> claim_in j role r class spec k -> claim_in j' role' r' class' spec' k' -> fst k' < fst k.
Proof using Type.
  intros Hlt. unfold claim_in, order, order_of.
  destruct j as [|[|[|[|[|[|[|j]]]]]]], j' as [|[|[|[|[|[|[|j']]]]]]]; try lia; destruct (prefer_ip zone_policy); try done; cbn;
    intros Hc Hc'; repeat match goal with
      | H : _ /\ _ |- _ => destruct H
      | H : _ \/ _ |- _ => destruct H
      | H : exists _, _ |- _ => destruct H
      end; subst; cbn; lia.
Qed.

Lemma cand_cmp role r class spec role' r' class' spec' :
  r_action r <> Block -> r_action r' <> Block -> candidate_cmp (cand role r class spec) (cand role' r' class' spec') <> Gt ->
  spec' < spec \/ spec' = spec /\ (apex_rank class < apex_rank class'
    \/ apex_rank class = apex_rank class' /\ (role = Primary \/ role' = Secondary)).
Proof using Type.
  intros Hr Hr'. unfold candidate_cmp, cmp_then, cmp_on, cmp_rev, then_with, cand. cbn.
  assert (E : N.compare (action_rank (r_action r)) (action_rank (r_action r')) = Eq)
    by by destruct (r_action r), (r_action r').
  rewrite E. destruct (N.compare_spec spec' spec); [|auto|done].
  destruct (N.compare_spec (apex_rank class) (apex_rank class')); [|auto|done].
  intros Hrole. right. split; [done|]. right. split; [done|]. destruct role, role'; cbn in Hrole; auto; done.
Qed.

(** In a tier the engine prefers the closer claim, the primary set on a tie. *)
Lemma claim_in_order j role r class spec k role' r' class' spec' k' :
  claim_in j role r class spec k -> claim_in j role' r' class' spec' k' ->
  r_action r <> Block -> r_action r' <> Block -> candidate_cmp (cand role r class spec) (cand role' r' class' spec') <> Gt ->
  rank_cmp k' k <> Gt /\ (k' = k -> role = Primary \/ role' = Secondary).
Proof using Type.
  intros Hc Hc' Hr Hr' Hcmp. apply (cand_cmp role r class spec role' r') in Hcmp; [|done..].
  rewrite rank_le_spec. revert Hc Hc'. unfold claim_in, order, order_of.
  destruct j as [|[|[|[|[|[|[|j]]]]]]]; destruct (prefer_ip zone_policy); try done; cbn;
    intros Hc Hc'; repeat match goal with
      | H : _ /\ _ |- _ => destruct H
      | H : exists _, _ |- _ => destruct H
      end; try destruct Hc; try destruct Hc'; repeat match goal with
      | H : _ /\ _ |- _ => destruct H
      | H : exists _, _ |- _ => destruct H
      end; subst; cbn in *; (split; [lia|]); intros [=]; destruct Hcmp as [?|[? [?|[_ ?]]]]; try done; lia.
Qed.

Definition engine_claim (link : Link) (k : ClaimRank) : Prop :=
  exists role r, in_book role r /\ rule_claim role r k /\ role_link role = link.

(** The link a decision routes over. *)
Definition decided (d : RequestedRouteDecision) : option Link :=
  match d with MatchedRoute c => Some (role_link (c_route_role c)) | DefaultRoute _ _ => None end.

(** The winner of the first tier with one is the closest claim of the book. *)
Lemma first_winner_closest w :
  first_winner (tiers input lookup book zone_policy) = Some w ->
  exists j role r class spec k, in_book role r /\ claim_in j role r class spec k /\ c_route_role w = role
    /\ forall j' role' r' class' spec' k', in_book role' r' -> claim_in j' role' r' class' spec' k' ->
         rank_cmp k' k <> Gt /\ (k' = k -> role = Primary \/ role' = Secondary).
Proof using Hconn Hplain.
  intros (j & t & Ht & Hw & Hpre)%first_winner_Some.
  apply select_winner_Some in Hw as (c & Hc & Hel & [mk ->] & Hmax & _).
  destruct (tier_sound_at j t c Ht Hc Hel) as (role & r & class & spec & k & Hb & Hk & ->).
  exists j, role, r, class, spec, k. split; [done|]. split; [done|]. split; [done|].
  intros j' role' r' class' spec' k' Hb' Hk'.
  destruct (tier_complete_at j' role' r' class' spec' k' Hb' Hk') as (t' & Ht' & Hin).
  assert (Hel' : eligible (cand role' r' class' spec') = true) by apply Hb'.
  destruct (lt_eq_lt_dec j j') as [[Hlt | ->]|Hgt].
  - pose proof (claim_in_level _ _ _ _ _ _ _ _ _ _ _ _ Hlt Hk Hk'). rewrite rank_le_spec. split; [lia|]. intros ->. lia.
  - rewrite Ht in Ht'. injection Ht' as <-.
    eapply (claim_in_order j' role r class spec k role' r' class' spec' k'); [done..| | |by apply Hmax].
    + by eapply claimant_routes.
    + by eapply claimant_routes.
  - exfalso. specialize (Hpre j' t' Hgt Ht'). rewrite select_winner_None in Hpre. by rewrite (Hpre _ Hin) in Hel'.
Qed.

Lemma engine_picks mode : picks engine_claim (decided (match_rules input lookup book zone_policy mode)).
Proof using Hconn Hplain.
  unfold match_rules. destruct (first_winner _) as [w|] eqn:E; cbn [decided].
  - apply first_winner_closest in E as (j & role & r & class & spec & k & Hb & Hk & -> & Hmax).
    assert (Hself : engine_claim (role_link role) k) by (exists role, r; split; [done|]; split; [apply claim_in_rule; eauto|done]).
    destruct role; cbn in Hself |- *; exists k; (split; [done|]).
    + intros k' (role' & r' & Hb' & (j' & class' & spec' & Hk')%claim_in_rule & _). by eapply Hmax.
    + intros k' (role' & r' & Hb' & (j' & class' & spec' & Hk')%claim_in_rule & El). destruct role'; [|done].
      destruct (Hmax j' Primary r' class' spec' k' Hb' Hk') as [Hle Heq].
      destruct (rank_cmp k' k) eqn:Ec; [|done|done]. apply (cmp_eq rank_cmp) in Ec. by destruct (Heq Ec).
  - intros link k (role & r & Hb & (j & class & spec & Hk)%claim_in_rule & _).
    destruct (tier_complete_at j role r class spec k Hb Hk) as (t & Ht & Hin).
    pose proof (first_winner_None _ t E (list_elem_of_lookup_2 _ _ _ Ht)) as Hn. rewrite select_winner_None in Hn.
    assert (Hel : eligible (cand role r class spec) = true) by apply Hb. by rewrite (Hn _ Hin) in Hel.
Qed.

End Tiers.

(** ** Both pick the same link *)

(** No label of the name is empty. *)
Definition full_labels (h : str) : Prop := forall l, l ∈ split (is_char DOT) h -> l <> [].

(** The cache lists the host under exactly the rules that cover it. *)
Definition cache_lists {C} `{!FqdnCacheLookup C} (cache : C) (book : CanonicalRuleBook) (h : str) : Prop :=
  forall role r, r ∈ set_for book role ->
    match r_address_match r with
    | Some (SuffixDomain s) =>
        h ∈ hostnames_for_suffix_domain cache s SUFFIX_FANOUT_BACKSTOP <-> match_suffix_domain h s = true
    | Some (Zone z) => h ∈ hostnames_under_suffix cache z SUFFIX_FANOUT_BACKSTOP <-> match_zone h z = true
    | _ => True
    end.

Lemma labels_agree h s : full_labels h -> match_suffix_domain h s = true -> claim_labels s = label_count s.
Proof.
  intros Hh (Hs & Hsuf)%match_suffix_domain_true. unfold claim_labels, label_count.
  destruct (is_empty s) eqn:E; [by apply is_empty_true in E|]. rewrite filter_all; [done|].
  intros l Hl. apply negb_true_iff, is_empty_false, Hh. destruct Hsuf as [->|(pre & _ & ->)]; [done|].
  rewrite split_app by (unfold is_char; apply N.eqb_refl). apply elem_of_app. by right.
Qed.

Lemma zone_suffix h z : match_zone h z = true -> match_suffix_domain h z = true.
Proof. intros (Hz & pre & Hp & ->)%match_zone_true. apply match_suffix_domain_true. eauto. Qed.

Section Agree.
Context `{Unicode} {C : Type} `{!FqdnCacheLookup C} (input : NormalizedDecisionInput) (lookup : LookupResult)
  (book : CanonicalRuleBook) (zone_policy : ZonePriorityPolicy) (cache : C) (support : RuleShapeSupport) (h : str) (ip : IpAddr).

Hypothesis Hplain : routes_for_all input book h ip.
Hypothesis Hlists : cache_lists cache book h.
Hypothesis Hlabels : full_labels h.
Hypothesis Honly : only_host book cache h ip.
Hypothesis Hok : networks_ok book.
Hypothesis Hsup : network_destination support = true.
Hypothesis Hip : ip_wf ip.

Let order := order_of zone_policy.
Abbreviation claims := (route_claim book cache order support).

Lemma in_book_steers role r : in_book input book role r -> covers h ip r -> steers r = true.
Proof using Hplain.
  intros (Hr & He & Hg) Hc. destruct (Hplain role r Hr He Hg Hc) as (Ha & Hb & _). apply steers_network. done.
Qed.

Lemma network_supported r blocks :
  steers r = true -> r_address_match r ≫= ip_blocks = Some blocks -> is_supported (rule_verdict r support) = true.
Proof using Hsup.
  intros (_ & Ha & _)%steers_network Hb. unfold rule_verdict, shape_of. rewrite Ha, Hb. cbn [mbind].
  rewrite bool_decide_eq_true_2 by by eexists. destruct (r_address_match r); [|done].
  unfold shape_verdict. by rewrite Hsup.
Qed.

Lemma network_unique role r blocks b net :
  r ∈ set_for book role -> r_address_match r ≫= ip_blocks = Some blocks -> net ∈ blocks -> in_block net ip ->
  find_first (fun b => IpBlock_contains b ip) blocks = Some b -> b = net.
Proof using Hok Hip.
  intros Hr E Hn Hi [Hb Hc]%find_first_Some. destruct (rule_blocks_ok book role r blocks Hok Hr E) as [Hf Hone].
  rewrite Forall_forall in Hf. apply (Hone ip); [done..| |done]. apply (IpBlock_contains_spec b ip); auto.
Qed.

Lemma network_claim_route role r k :
  r ∈ set_for book role -> steers r = true ->
  (exists blocks b, r_address_match r ≫= ip_blocks = Some blocks
     /\ find_first (fun b => IpBlock_contains b ip) blocks = Some b /\ k = subnet_rank (prefix_len b) order) ->
  claims role ip k.
Proof using Hok Hsup Hip.
  intros Hr Hs (blocks & b & Hb & [Hin Hcon]%find_first_Some & ->). exists r. split; [done|]. right. right. exists blocks, b.
  split; [done|]. split; [by eapply network_supported|]. split; [done|]. split; [done|]. split; [|done].
  destruct (rule_blocks_ok book role r blocks Hok Hr Hb) as [Hw _]. rewrite Forall_forall in Hw.
  apply (IpBlock_contains_spec b ip); auto.
Qed.

Lemma rule_claim_route role r k :
  in_book input book role r -> rule_claim book zone_policy h ip role r k -> claims role ip k.
Proof using Hplain Hlists Hlabels Honly Hok Hsup Hip.
  intros Hb Hc. pose proof (in_book_steers _ _ Hb (claim_covers _ _ _ _ _ _ _ Hc)) as Hs. destruct Hb as (Hr & _ & _).
  pose proof (Hlists role r Hr) as Hl. pose proof (network_claim_route role r k Hr Hs) as Hnet.
  destruct Honly as [Hon _]. unfold rule_claim in Hc.
  assert (Hz : forall z, match_zone h z = true -> claim_labels z = label_count z)
    by (intros z Hm; apply (labels_agree h); [done|by apply zone_suffix]).
  destruct (r_address_match r) as [[l|l|base|z|a|net|range]|] eqn:E; try done;
    try (by apply Hnet); exists r; (split; [done|]).
  - destruct Hc as [-> ->]. right. left. exists h, ExactFqdnClaim. split; [done|]. split; [|done]. split; [done|]. by rewrite E.
  - destruct Hc as [Hm ->]. right. left. exists h, (SuffixClaim (claim_labels l)). split; [done|].
    split; [|by rewrite (labels_agree h l)]. split; [done|]. rewrite E. by rewrite Hl.
  - destruct Hc as [Hm Hk]. right. left. exists h, (zone_claim z (Some (set_for book role, r_app_match r))). split; [done|]. split.
    + split; [done|]. rewrite E. by rewrite Hl.
    + unfold zone_claim. rewrite (Hz z Hm). destruct (zone_ranks_as_suffix z); cbn; [|done]. by destruct Hk as [-> ->].
  - destruct Hc as [-> ->]. by left.
Qed.

Lemma steers_in_book role r : r ∈ set_for book role -> steers r = true -> in_book input book role r.
Proof using Type.
  intros Hr (He & Ha & _)%steers_network. split; [done|]. split; [done|]. unfold eval_app_filter. by rewrite Ha.
Qed.

Lemma route_rule_claim role k :
  claims role ip k -> exists r, in_book input book role r /\ rule_claim book zone_policy h ip role r k.
Proof using Hlists Hlabels Honly Hok Hip.
  clear Hplain. intros (r & Hr & [(Hs & Ha & ->)|[(host & c & Hon & Hc & ->)|(blocks & net & Hs & Hv & Hb & Hn & Hi & ->)]]).
  - exists r. split; [by apply steers_in_book|]. unfold rule_claim. by rewrite Ha.
  - destruct Honly as [_ Hall]. rewrite (Hall _ _ _ _ Hr Hc Hon) in Hc. destruct Hc as [Hs Hc].
    pose proof (Hlists role r Hr) as Hl.
    destruct (r_address_match r) as [[l|l|base|z|a|net|range]|] eqn:E; try done; rewrite ?Hl in Hc.
    + destruct Hc as [-> ->]. exists r. split; [by apply steers_in_book|]. unfold rule_claim. by rewrite E.
    + destruct Hc as [Hm ->]. exists r. split; [by apply steers_in_book|]. unfold rule_claim. rewrite E.
      by rewrite (labels_agree h l).
    + destruct Hc as [Hm ->]. pose proof (labels_agree h z Hlabels (zone_suffix h z Hm)) as Hz. unfold zone_claim. rewrite Hz.
      destruct (zone_ranks_as_suffix z) eqn:Er; cbn [negb].
      * destruct (holds_suffix (set_for book role) z (r_app_match r)) eqn:Eh.
        -- apply holds_suffix_true in Eh as (r' & Hr' & He' & Ha' & Es'). exists r'. split.
           ++ split; [done|]. split; [done|]. unfold eval_app_filter. rewrite Ha'.
              apply steers_network in Hs as (_ & -> & _). done.
           ++ unfold rule_claim. rewrite Es'. split; [by apply zone_suffix|done].
        -- exists r. split; [by apply steers_in_book|]. unfold rule_claim. rewrite E, Er. auto.
      * exists r. split; [by apply steers_in_book|]. unfold rule_claim. rewrite E, Er. auto.
  - exists r. split; [by apply steers_in_book|]. unfold rule_claim.
    destruct (find_first (fun b => IpBlock_contains b ip) blocks) as [b|] eqn:Ef.
    + assert (b = net) as -> by by eapply network_unique.
      destruct (r_address_match r) as [[]|] eqn:E; try done; by exists blocks, net.
    + exfalso. rewrite find_first_None in Ef. specialize (Ef net Hn). cbn in Ef.
      destruct (rule_blocks_ok book role r blocks Hok Hr Hb) as [Hw _]. rewrite Forall_forall in Hw.
      apply (IpBlock_contains_spec net ip) in Hi; [congruence|by apply Hw|done].
Qed.

End Agree.

(** C4. Enforcement sends an address where the decision sends the connection: the
    link the arbiter gives the address is the link of the rule the engine picks, in
    either order of zones and addresses, and there is none exactly when the engine
    falls back to the default route. It is so for a normalised connection to a host,
    no label of whose name is empty, at an address, when
    - every enabled rule of the book whose conditions hold for the host, the address
      and the program routes, for all programs, and is no [base.*] rule;
    - the cache lists the host under exactly the suffix and zone rules of the book
      that cover it;
    - of the hosts the rules of the book name, the host alone is on the address;
    - not both links name the address literally;
    - the networks of the book are well formed, and the platform can enforce a rule
      about a network. *)
Theorem arbiter_agrees_with_engine `{Unicode} {C} `{!FqdnCacheLookup C} input lookup book zone_policy mode (cache : C)
  support h ip :
  connection_to input lookup h ip -> routes_for_all input book h ip -> cache_lists cache book h -> full_labels h ->
  only_host book cache h ip -> one_literal book ip -> networks_ok book -> network_destination support = true -> ip_wf ip ->
  owner_of (resolve_with_support book cache (order_of zone_policy) support) ip
  = decided (match_rules input lookup book zone_policy mode).
Proof.
  intros Hconn Hplain Hlists Hlabels Honly Hlit Hok Hsup Hip.
  eapply (picks_unique (engine_claim input book zone_policy h ip)).
  - eapply picks_iff; [|exact (arbiter_picks book cache (order_of zone_policy) support h ip Honly Hlit Hok Hip)].
    intros link k. unfold engine_claim. split.
    + intros Hc. apply (route_rule_claim input book zone_policy cache support h ip Hlists Hlabels Honly Hok Hip) in Hc as (r & Hb & Hk).
      exists (link_role link), r. by destruct link.
    + intros (role & r & Hb & Hk & <-).
      apply (rule_claim_route input book zone_policy cache support h ip Hplain Hlists Hlabels Honly Hok Hsup Hip) in Hk; [|done].
      by destruct role.
  - by apply engine_picks.
Qed.

(** ** Examples *)

(** A book with a suffix on the main link and one of its hosts on the other, and with
    a block and a [base.*] rule about other hosts. *)
Definition search_book : CanonicalRuleBook :=
  mkCanonicalRuleBook
    [mkCanonicalRule (u "p1") true (Some (SuffixDomain (u "search.example"))) None [] Route None;
     mkCanonicalRule (u "p2") true (Some (ExactFqdn (u "ads.example"))) None [] Block None]
    [mkCanonicalRule (u "s1") true (Some (ExactFqdn (u "docs.search.example"))) None [] Route None;
     mkCanonicalRule (u "s2") true (Some (AnyZoneDomain (u "shop"))) None [] Route None].

Definition search_cache (docs translate : IpAddr) : FqdnCacheSnapshot :=
  mkSnapshot (<[u "docs.search.example" := [docs]]> {[u "translate.search.example" := [translate]]})
    [u "docs.search.example"; u "translate.search.example"] ∅ ∅ ∅.

Definition sample_input (host : str) (addr : IpAddr) : NormalizedDecisionInput :=
  @normalize_runtime_input ascii_unicode no_idna
    (mkRuntimeInput (mkProcessContext None None) (Some host) (Some addr)).

Definition docs_ip : IpAddr := ipv4 203 0 113 5.
Definition shared_ip : IpAddr := ipv4 203 0 113 161.

Lemma search_hosts :
  hostnames_for_suffix_domain (search_cache docs_ip shared_ip) (u "search.example") SUFFIX_FANOUT_BACKSTOP
  = [u "docs.search.example"; u "translate.search.example"].
Proof. by vm_compute. Qed.

Lemma search_lists : cache_lists (search_cache docs_ip shared_ip) search_book (u "docs.search.example").
Proof.
  intros [] r [->| ->%list_elem_of_singleton]%elem_of_cons; cbn; [|done..]. rewrite search_hosts. split; intros _; [by vm_compute|left].
Qed.

Lemma search_only : only_host search_book (search_cache docs_ip shared_ip) (u "docs.search.example") docs_ip.
Proof.
  split; [unfold on_host; apply (bool_decide_unpack _); by vm_compute|].
  intros [] r host c [->| ->%list_elem_of_singleton]%elem_of_cons [Hs Hc] Hon; cbn in Hc; [|done|by destruct Hc|done].
  rewrite search_hosts in Hc. destruct Hc as [[-> | ->%list_elem_of_singleton]%elem_of_cons _]; [done|].
  exfalso. revert Hon. unfold on_host. apply (bool_decide_unpack _). by vm_compute.
Qed.

Lemma arbiter_agrees_with_engine_witness :
  owner_of (resolve_with_support search_book (search_cache docs_ip shared_ip) ExactIpFirst (mkSupport true true true)) docs_ip
  = Some Additional
  /\ owner_of (resolve_with_support search_book (search_cache docs_ip shared_ip)
       (order_of (mkZonePriorityPolicy true)) (mkSupport true true true)) docs_ip
     = decided (@match_rules ascii_unicode (sample_input (u "docs.search.example") docs_ip) (mkLookupResult None)
         search_book (mkZonePriorityPolicy true) PreferPrimary).
Proof.
  split; [by vm_compute|].
  apply (@arbiter_agrees_with_engine ascii_unicode) with (h := u "docs.search.example").
  - split; [by vm_compute|]. split; by vm_compute.
  - intros [] r [->| ->%list_elem_of_singleton]%elem_of_cons _ _; cbn; [done| |done|].
    + intros Hh. by vm_compute in Hh.
    + intros [z Hz]. by vm_compute in Hz.
  - apply search_lists.
  - intros l Hl. apply is_empty_false, negb_true_iff.
    assert (Ha : forallb (fun l => negb (is_empty l)) (split (is_char DOT) (u "docs.search.example")) = true) by by vm_compute.
    rewrite List.forallb_forall in Ha. apply Ha. by apply list_elem_of_In.
  - apply search_only.
  - by intros [(r & [->| ->%list_elem_of_singleton]%elem_of_cons & _ & E) _].
  - by intros [] r [->| ->%list_elem_of_singleton]%elem_of_cons.
  - done.
  - split; by vm_compute.
Defined.

(** An address two named hosts share stays with the main link, though the engine
    sends a connection to one of them over the other link. *)
Example shared_address_stays_main :
  owner_of (resolve_with_support search_book (search_cache shared_ip shared_ip) ExactIpFirst (mkSupport true true true)) shared_ip
  = Some Main
  /\ decided (@match_rules ascii_unicode (sample_input (u "docs.search.example") shared_ip) (mkLookupResult None)
       search_book (mkZonePriorityPolicy true) PreferPrimary) = Some Additional.
Proof. by vm_compute. Qed.

(** When both links name an address literally, the main link keeps it even
    against a host of the additional link that the engine evaluates first. *)
Example both_literals_outrank_host :
  let literal id := mkCanonicalRule id true (Some (ExactIp docs_ip)) None [] Route None in
  let host := mkCanonicalRule (u "s2") true (Some (ExactFqdn (u "docs.search.example"))) None [] Route None in
  let decided_by book := decided (@match_rules ascii_unicode (sample_input (u "docs.search.example") docs_ip)
    (mkLookupResult None) book (mkZonePriorityPolicy true) PreferPrimary) in
  let owner book := owner_of (resolve_with_support book (search_cache docs_ip shared_ip) ExactIpFirst (mkSupport true true true)) docs_ip in
  let both := mkCanonicalRuleBook [literal (u "p1")] [literal (u "s1"); host] in
  let one := mkCanonicalRuleBook [literal (u "p1")] [host] in
  decided_by both = Some Additional /\ owner both = Some Main /\ decided_by one = Some Additional /\ owner one = Some Additional.
Proof. by vm_compute. Qed.
