(* ===== verification/ScopedPlan.v ===== *)
(** * A plan about a few addresses

    [FqdnCacheSnapshot::scoped_to] of fqdn_cache_lookup.rs promises that a plan
    over the snapshot cut down to some addresses decides them as a plan over the
    whole cache would. This file shows it of the arbiter of address_ownership.rs,
    within the caps the promise excepts. *)

From stdpp Require Import base numbers list gmap sorting.
From S2P Require Import Prelude Str Digits IpAddr IpBlock AppPath AppIdentity AutoRule HostMatch Canonical.
From S2P Require Import NetPolicy Normalize Matching NetClaims HostCache PublicZone AddressOwner AddressContest.

Open Scope nat_scope.

(** ** What the caps leave alone *)

(** No host has more addresses of a family than enforcement pins. *)
Definition within_ip_cap (s : FqdnCacheSnapshot) : Prop :=
  forall host, length (List.filter is_ipv4 (ips_for_hostname s host)) <= PER_HOSTNAME_IP_CAP
    /\ length (List.filter (fun ip => negb (is_ipv4 ip)) (ips_for_hostname s host)) <= PER_HOSTNAME_IP_CAP.

(** The names under a suffix fit the fan-out, and the suffix is canonical. *)
Definition fits (s : FqdnCacheSnapshot) (suffix : str) : Prop :=
  canonicalize_hostname suffix = suffix /\ suffix <> [] /\ length (names_under s suffix) < SUFFIX_FANOUT_BACKSTOP.

Definition rules_fit (s : FqdnCacheSnapshot) (book : CanonicalRuleBook) : Prop :=
  forall role r, r ∈ set_for book role ->
    match r_address_match r with
    | Some (SuffixDomain suffix) | Some (Zone suffix) => fits s suffix
    | _ => True
    end.

Lemma capped_all s host ip :
  within_ip_cap s -> ip ∈ capped_for_host s host Both <-> ip ∈ ips_for_hostname s host.
Proof.
  intros Hcap. destruct (Hcap host) as [H4 H6]. unfold capped_for_host.
  rewrite elem_of_app, !sort_by_elem_of. cbn [admits]. 
  assert (E : forall l : list IpAddr, List.filter (fun ip => negb (is_ipv4 ip) && true) l = List.filter (fun ip => negb (is_ipv4 ip)) l)
    by (intros l; apply List.filter_ext; intros; apply andb_true_r).
  rewrite E, !take_ge by done. rewrite !filter_elem, negb_true_iff. destruct (is_ipv4 ip); naive_solver.
Qed.

Lemma filter_filter_length {A} (p q : A -> bool) l : length (List.filter p (List.filter q l)) <= length (List.filter p l).
Proof.
  induction l as [|x l IH]; cbn; [done|]. destruct (q x); cbn; destruct (p x); cbn; lia.
Qed.

Lemma scoped_ip_cap s wanted : within_ip_cap s -> within_ip_cap (scoped_to s wanted).
Proof.
  intros Hcap host. rewrite scoped_ips. destruct (Hcap host) as [H4 H6].
  split; (etransitivity; [apply filter_filter_length|done]).
Qed.

Lemma scoped_fits s wanted suffix : fits s suffix -> fits (scoped_to s wanted) suffix.
Proof.
  intros (Hc & Hn & Hl). split; [done|]. split; [done|]. eapply Nat.le_lt_trans; [|exact Hl].
  apply filter_filter_length.
Qed.

Lemma backstop_pos : 0 < SUFFIX_FANOUT_BACKSTOP.
Proof. apply Nat.ltb_lt. by vm_compute. Qed.

Lemma suffix_domain_listed s suffix host :
  fits s suffix ->
  host ∈ hostnames_for_suffix_domain s suffix SUFFIX_FANOUT_BACKSTOP <->
  (host ∈ hostnames_by_recency s /\ ends_with (DOT :: suffix) (to_ascii_lowercase host) = true)
  \/ host = suffix /\ ips_for_hostname s host <> [].
Proof.
  intros (Hc & Hn & Hl). pose proof (snapshot_under_suffix_elem s suffix SUFFIX_FANOUT_BACKSTOP) as Hu.
  unfold hostnames_for_suffix_domain. pose proof backstop_pos. destruct (Nat.eqb_spec SUFFIX_FANOUT_BACKSTOP 0); [lia|].
  rewrite Hc. destruct (is_empty suffix) eqn:E; [by apply is_empty_true in E|]. cbn [orb hostnames_under_suffix snapshot_lookup].
  assert (Hlen : length (snapshot_under_suffix s suffix SUFFIX_FANOUT_BACKSTOP) < SUFFIX_FANOUT_BACKSTOP).
  { rewrite snapshot_under_suffix_eq, Hc by by rewrite Hc. rewrite sort_by_length, fair_window_complete by lia. done. }
  rewrite <- Hu by (done || lia). case_bool_decide as Hin; cbn [orb].
  - split; [by left|]. intros [?|[-> _]]; done.
  - destruct (ips_for_hostname s suffix) eqn:Ei.
    + split; [by left|]. intros [?|[-> Hne]]; [done|]. by rewrite Ei in Hne.
    + destruct (Nat.leb_spec SUFFIX_FANOUT_BACKSTOP (length (snapshot_under_suffix s suffix SUFFIX_FANOUT_BACKSTOP))); [lia|].
      rewrite sort_by_elem_of, elem_of_app, list_elem_of_singleton. split.
      * intros [?| ->]; [by left|right]. by rewrite Ei.
      * intros [?|[-> _]]; [by left|by right].
Qed.

Lemma zone_listed s zone host :
  fits s zone ->
  host ∈ hostnames_under_suffix s zone SUFFIX_FANOUT_BACKSTOP <->
  host ∈ hostnames_by_recency s /\ ends_with (DOT :: zone) (to_ascii_lowercase host) = true.
Proof. intros (Hc & Hn & Hl). apply snapshot_under_suffix_elem; [done..|lia]. Qed.

(** ** The arbiter on both snapshots *)

Section Scoped.
Context (s : FqdnCacheSnapshot) (wanted : list IpAddr) (book : CanonicalRuleBook) (order : ZoneVsIpOrder)
  (support : RuleShapeSupport) (ip : IpAddr).
Hypothesis Hw : ip ∈ wanted.
Hypothesis Hcap : within_ip_cap s.
Hypothesis Hfit : rules_fit s book.

Let s' := scoped_to s wanted.

Lemma scoped_on_host host : on_host s' host ip <-> on_host s host ip.
Proof using Hw Hcap.
  unfold on_host. rewrite !capped_all by (done || by apply scoped_ip_cap). unfold s'. rewrite scoped_ips, filter_elem, bool_decide_eq_true.
  tauto.
Qed.

Lemma scoped_on_listed host : on_host s host ip -> host ∈ hostnames_by_recency s' <-> host ∈ hostnames_by_recency s.
Proof using Hw Hcap.
  unfold on_host. rewrite capped_all by done. intros Hin. unfold s'. rewrite scoped_listed. naive_solver.
Qed.

(** A rule claims a host of the address in one snapshot as in the other. *)
Lemma scoped_claims role rule host c :
  rule ∈ set_for book role -> on_host s host ip ->
  claims_host s' (set_for book role) rule host c <-> claims_host s (set_for book role) rule host c.
Proof using Hw Hcap Hfit.
  intros Hr Hon. unfold claims_host. pose proof (Hfit role rule Hr) as Hf.
  pose proof (scoped_on_listed host Hon) as Hl.
  assert (Hne : ips_for_hostname s' host <> [] <-> ips_for_hostname s host <> []).
  { unfold on_host in Hon. rewrite capped_all in Hon by done. unfold s'. rewrite scoped_ips.
    assert (Hin : ip ∈ List.filter (fun ip => bool_decide (ip ∈ wanted)) (ips_for_hostname s host))
      by (apply filter_elem; by rewrite bool_decide_eq_true).
    split; intros _ E; [rewrite E in Hon; by apply not_elem_of_nil in Hon|rewrite E in Hin; by apply not_elem_of_nil in Hin]. }
  destruct (r_address_match rule) as [[]|]; [done| |done| |done..].
  - rewrite !suffix_domain_listed by (done || by apply scoped_fits). by rewrite Hl, Hne.
  - rewrite !zone_listed by (done || by apply scoped_fits). by rewrite Hl.
Qed.

Lemma scoped_names role host :
  on_host s host ip ->
  sc_names (name_claims s' support (set_for book role)) !! host = sc_names (name_claims s support (set_for book role)) !! host.
Proof using Hw Hcap Hfit.
  intros Hon. destruct (name_claims_ok s' support (set_for book role)) as (H1 & _).
  destruct (name_claims_ok s support (set_for book role)) as (H2 & _).
  apply (is_best_unique claim_cmp _ _ _ (H1 host)). eapply is_best_iff; [|exact (H2 host)].
  intros c. split; intros (rule & Hr & Hc); exists rule; (split; [done|]); by apply (scoped_claims role).
Qed.

Lemma scoped_literal role : sc_literal (name_claims s' support (set_for book role)) = sc_literal (name_claims s support (set_for book role)).
Proof using Type.
  destruct (name_claims_ok s' support (set_for book role)) as (_ & H1 & _).
  destruct (name_claims_ok s support (set_for book role)) as (_ & H2 & _).
  apply set_eq. intros i. by rewrite H1, H2.
Qed.

Lemma scoped_networks role : sc_networks (name_claims s' support (set_for book role)) = sc_networks (name_claims s support (set_for book role)).
Proof using Type.
  destruct (name_claims_ok s' support (set_for book role)) as (_ & _ & ->).
  by destruct (name_claims_ok s support (set_for book role)) as (_ & _ & ->).
Qed.

Abbreviation mc c := (name_claims c support (set_for book Primary)).
Abbreviation ac c := (name_claims c support (set_for book Secondary)).

Lemma scoped_carried host : on_host s host ip -> carried (mc s') (ac s') host = carried (mc s) (ac s) host.
Proof using Hw Hcap Hfit.
  intros Hon. unfold carried. by rewrite (scoped_names Primary host Hon), (scoped_names Secondary host Hon).
Qed.

Lemma scoped_claimed host :
  on_host s host ip ->
  host ∈ claimed_hosts (sc_names (mc s')) (sc_names (ac s')) <-> host ∈ claimed_hosts (sc_names (mc s)) (sc_names (ac s)).
Proof using Hw Hcap Hfit.
  intros Hon. unfold claimed_hosts. rewrite !sort_by_elem_of, !elem_of_elements, !elem_of_union, !elem_of_dom.
  by rewrite (scoped_names Primary host Hon), (scoped_names Secondary host Hon).
Qed.

Lemma scoped_pass_claim link :
  pass_claim (host_pass s' order (mc s') (ac s')) link !! ip = pass_claim (host_pass s order (mc s) (ac s)) link !! ip.
Proof using Hw Hcap Hfit.
  destruct (host_pass_ok s' order (mc s') (ac s')) as (_ & H1 & _).
  destruct (host_pass_ok s order (mc s) (ac s)) as (_ & H2 & _).
  apply (is_best_unique claim_cmp _ _ _ (H1 link ip)). eapply is_best_iff; [|exact (H2 link ip)].
  intros c. unfold holds_by. setoid_rewrite scoped_on_host.
  split; intros (host & Hin & Hon & Hc); exists host; (split; [by apply scoped_claimed|]); (split; [done|]);
    by rewrite ?scoped_carried in * by done.
Qed.

Lemma scoped_rank :
  hp_rank (host_pass s' order (mc s') (ac s')) !! ip = hp_rank (host_pass s order (mc s) (ac s)) !! ip.
Proof using Hw Hcap Hfit.
  destruct (host_pass_ok s' order (mc s') (ac s')) as (_ & _ & H1).
  destruct (host_pass_ok s order (mc s) (ac s)) as (_ & _ & H2).
  apply (is_best_unique rank_cmp _ _ _ (H1 ip)). eapply is_best_iff; [|exact (H2 ip)].
  intros r. unfold ranked_by. rewrite (scoped_literal Primary), (scoped_literal Secondary). setoid_rewrite scoped_on_host.
  f_equiv. split; intros (host & best & Hin & Hon & Hc & ->); exists host, best; (split; [by apply scoped_claimed|]);
    (split; [done|]); (split; [|done]).
  - by rewrite (scoped_names Primary host Hon), (scoped_names Secondary host Hon).
  - by rewrite <- (scoped_names Primary host Hon), <- (scoped_names Secondary host Hon).
Qed.

Lemma scoped_nets : ao_networks (resolve_with_support book s' order support) = ao_networks (resolve_with_support book s order support).
Proof using Type.
  cbn [resolve_with_support ao_networks]. f_equal; [apply (scoped_networks Primary)|apply (scoped_networks Secondary)].
Qed.

Lemma scoped_address_owner :
  address_owner (resolve_with_support book s' order support) ip = address_owner (resolve_with_support book s order support) ip.
Proof using Hw Hcap Hfit.
  rewrite !address_owner_at, scoped_nets. f_equal.
  - apply bool_decide_ext. change (primary book) with (set_for book Primary). by rewrite scoped_literal.
  - apply bool_decide_ext. change (secondary book) with (set_for book Secondary). by rewrite scoped_literal.
  - exact (scoped_pass_claim Main).
  - exact (scoped_pass_claim Additional).
Qed.

Lemma scoped_held link :
  ip ∈ pass_held (host_pass s' order (mc s') (ac s')) link <-> ip ∈ pass_held (host_pass s order (mc s) (ac s)) link.
Proof using Hw Hcap Hfit.
  rewrite (pass_held_some book s' order support), (pass_held_some book s order support).
  change (primary book) with (set_for book Primary). change (secondary book) with (set_for book Secondary).
  rewrite scoped_pass_claim. destruct link; cbn [literal_of]; by rewrite scoped_literal.
Qed.

End Scoped.

(** C28. A plan about some addresses decides them as the whole plan does: the arbiter
    built from the snapshot cut down to some addresses gives each of them to the same
    link, allows a block on it in the same cases, and makes a block yield in the same
    cases as the arbiter built from the whole snapshot. It is so in any order of zones
    and addresses, when no host of the snapshot has more addresses of a family than
    enforcement pins, and when for every suffix and zone rule of the book the suffix
    is canonical and not empty and has fewer names in the snapshot than the fan-out
    lists. *)
Theorem scoped_plan_agrees s wanted book order support ip block :
  ip ∈ wanted -> within_ip_cap s -> rules_fit s book ->
  let whole := resolve_with_support book s order support in
  let scoped := resolve_with_support book (scoped_to s wanted) order support in
  owner_of scoped ip = owner_of whole ip /\ may_block scoped ip = may_block whole ip
  /\ block_yields scoped ip block = block_yields whole ip block.
Proof.
  intros Hw Hcap Hfit whole scoped.
  pose proof (scoped_address_owner s wanted book order support ip Hw Hcap Hfit) as Howner.
  pose proof (scoped_nets s wanted book order support) as Hnets.
  split; [exact Howner|]. split.
  - unfold may_block. fold scoped whole in Howner, Hnets. rewrite Howner, Hnets.
    assert (E1 : bool_decide (ip ∈ ao_main_claimed scoped) = bool_decide (ip ∈ ao_main_claimed whole))
      by (apply bool_decide_ext; exact (scoped_held s wanted book order support ip Hw Hcap Hfit Main)).
    assert (E2 : bool_decide (ip ∈ ao_additional scoped) = bool_decide (ip ∈ ao_additional whole))
      by (apply bool_decide_ext; exact (scoped_held s wanted book order support ip Hw Hcap Hfit Additional)).
    by rewrite E1, E2.
  - unfold block_yields, outranked, network_rank. fold scoped whole in Hnets. rewrite Hnets.
    assert (E : ao_route_rank scoped !! ip = ao_route_rank whole !! ip) by exact (scoped_rank s wanted book order support ip Hw Hcap Hfit).
    by rewrite E.
Qed.

(** ** An example *)

Definition two_hosts : FqdnCacheSnapshot :=
  mkSnapshot (<[u "a.example" := [ipv4 192 0 2 1]]> {[u "b.example" := [ipv4 192 0 2 2]]})
    [u "a.example"; u "b.example"] ∅ ∅ ∅.

Definition example_book : CanonicalRuleBook :=
  mkCanonicalRuleBook [mkCanonicalRule (u "p1") true (Some (Zone (u "example"))) None [] Route None]
    [mkCanonicalRule (u "s1") true (Some (ExactFqdn (u "b.example"))) None [] Route None].

Lemma scoped_plan_agrees_witness :
  let whole := resolve_with_support example_book two_hosts ExactIpFirst (mkSupport true true true) in
  let scoped := resolve_with_support example_book (scoped_to two_hosts [ipv4 192 0 2 2]) ExactIpFirst (mkSupport true true true) in
  owner_of whole (ipv4 192 0 2 2) = Some Additional /\ owner_of whole (ipv4 192 0 2 1) = Some Main
  /\ owner_of scoped (ipv4 192 0 2 2) = owner_of whole (ipv4 192 0 2 2).
Proof.
  split; [by vm_compute|]. split; [by vm_compute|].
  apply (scoped_plan_agrees two_hosts [ipv4 192 0 2 2] example_book ExactIpFirst (mkSupport true true true)
    (ipv4 192 0 2 2) (Zone (u "example"))).
  - left.
  - intros host. unfold two_hosts, PER_HOSTNAME_IP_CAP. cbn [ips_for_hostname snapshot_lookup by_hostname].
    destruct (decide (u "a.example" = host)) as [<-|Ha]; [by rewrite lookup_insert_eq; cbn; lia|].
    rewrite lookup_insert_ne by done. destruct (decide (u "b.example" = host)) as [<-|Hb].
    + rewrite lookup_singleton_eq. cbn. lia.
    + rewrite lookup_singleton_ne by done. cbn. lia.
  - intros [] r ->%list_elem_of_singleton; cbn; [|done]. split; [by vm_compute|]. split; [done|].
    apply Nat.ltb_lt. by vm_compute.
Defined.
