(* ===== verification/AppGate.v ===== *)
(** * Programs and the address arbiter

    The takeover setting and the destination gate of address_ownership.rs: which
    addresses of a program its rule may take, and what happens to them when the
    setting lets programs take addresses from the address rules. *)

From stdpp Require Import base numbers list gmap sorting.
From S2P Require Import Prelude Str Digits IpAddr IpBlock AppPath AppIdentity AutoRule HostMatch Canonical.
From S2P Require Import NetPolicy Normalize Matching NetClaims HostCache PublicZone AddressOwner.

(** ** Literal blocks *)

(** The rule is a block enforcement carries out on the literal address. *)
Definition vetoes (support : RuleShapeSupport) (ip : IpAddr) (rule : CanonicalRule) : Prop :=
  r_enabled rule = true /\ r_action rule = Block /\ is_supported (rule_verdict rule support) = true
  /\ r_address_match rule = Some (ExactIp ip).

#[export] Instance rev_str_cmp_total : CmpTotal (cmp_rev str_cmp).
Proof. split; [apply _|]. intros x y E. symmetry. by apply (cmp_eq str_cmp). Qed.

Lemma add_literal_block_lookup support out rule ip :
  (vetoes support ip rule ->
   add_literal_block support out rule !! ip
   = Some (match out !! ip with Some best => if str_lt (r_id rule) best then r_id rule else best | None => r_id rule end))
  /\ (~ vetoes support ip rule -> add_literal_block support out rule !! ip = out !! ip).
Proof.
  unfold add_literal_block, vetoes. split.
  - intros (-> & -> & -> & ->). cbn. destruct (out !! ip) as [best|] eqn:E; [|by rewrite lookup_insert_eq].
    destruct (str_lt _ _); [by rewrite lookup_insert_eq|done].
  - intros Hn. destruct (negb (r_enabled rule) || _ || _) eqn:E; [done|].
    apply orb_false_iff in E as [[E1%negb_false_iff E2]%orb_false_iff E3%negb_false_iff].
    destruct (r_address_match rule) as [[| | | |a| |]|]; try done.
    assert (a <> ip) by (intros ->; apply Hn; by destruct (r_action rule)).
    destruct (out !! a); [destruct (str_lt _ _)|]; rewrite ?lookup_insert_ne by done; done.
Qed.

Lemma add_literal_block_best support (out : gmap IpAddr str) (P : IpAddr -> str -> Prop) rule :
  (forall ip, is_best (cmp_rev str_cmp) (out !! ip) (P ip)) ->
  forall ip, is_best (cmp_rev str_cmp) (add_literal_block support out rule !! ip)
               (fun id => P ip id \/ vetoes support ip rule /\ id = r_id rule).
Proof.
  intros Hok ip. destruct (add_literal_block_lookup support out rule ip) as [Hyes Hno].
  assert (Hdec : vetoes support ip rule \/ ~ vetoes support ip rule).
  { unfold vetoes. destruct (decide (r_enabled rule = true /\ r_action rule = Block
      /\ is_supported (rule_verdict rule support) = true /\ r_address_match rule = Some (ExactIp ip))); auto. }
  destruct Hdec as [Hv|Hv].
  - rewrite (Hyes Hv). eapply is_best_iff with (P := fun id => P ip id \/ id = r_id rule); [naive_solver|].
    pose proof (is_best_add (cmp_rev str_cmp) _ _ (r_id rule) (Hok ip)) as Hadd.
    destruct (out !! ip) as [best|]; [|exact Hadd]. unfold str_lt.
    assert (E : match str_cmp (r_id rule) best with Lt => true | _ => false end
      = match cmp_rev str_cmp (r_id rule) best with Gt => true | _ => false end)
      by (unfold cmp_rev; rewrite (cmp_opp str_cmp (r_id rule) best); by destruct (str_cmp _ _)).
    rewrite E. exact Hadd.
  - rewrite (Hno Hv). eapply is_best_iff; [|exact (Hok ip)]. naive_solver.
Qed.

(** The entry of an address is the smallest id of the blocks that name it. *)
Lemma literal_blocks_best book support ip :
  is_best (cmp_rev str_cmp) (literal_blocks book support !! ip)
    (fun id => exists rule, rule ∈ primary book ++ secondary book /\ vetoes support ip rule /\ id = r_id rule).
Proof.
  unfold literal_blocks. revert ip. generalize (primary book ++ secondary book) as rules.
  induction rules as [|r rules IH] using rev_ind; intros ip.
  - cbn. rewrite lookup_empty. intros id (rule & Hin & _). by apply not_elem_of_nil in Hin.
  - rewrite fold_left_app. cbn [fold_left]. eapply is_best_iff; [|exact (add_literal_block_best support _ _ r IH ip)].
    intros id. cbn beta. setoid_rewrite elem_of_app. setoid_rewrite list_elem_of_singleton. naive_solver.
Qed.

(** ** The takeover *)

Section Takeover.
Context {O : Type} `{!AppObservationLookup O} (observations : O) (book : CanonicalRuleBook) (o : AddressOwnership).

Definition take_all (link : Link) (taken : gmap IpAddr Link) (ip : IpAddr) : gmap IpAddr Link :=
  if bool_decide (is_Some (ao_literal_blocks o !! ip)) then taken
  else match taken !! ip with Some _ => taken | None => <[ip := link]> taken end.

Lemma take_all_lookup link ips : forall taken ip,
  fold_left (take_all link) ips taken !! ip
  = match taken !! ip with
    | Some l => Some l
    | None => if bool_decide (is_Some (ao_literal_blocks o !! ip)) then None
              else if bool_decide (ip ∈ ips) then Some link else None
    end.
Proof.
  induction ips as [|i ips IH]; intros taken ip; cbn [fold_left].
  - destruct (taken !! ip); [done|]. rewrite (bool_decide_eq_false_2 (ip ∈ [])) by apply not_elem_of_nil.
    by destruct (bool_decide _).
  - rewrite IH. unfold take_all. destruct (decide (i = ip)) as [->|Hne].
    + destruct (bool_decide (is_Some (ao_literal_blocks o !! ip))) eqn:Eb; [done|].
      destruct (taken !! ip) as [l|] eqn:Et; [by rewrite Et|]. rewrite lookup_insert_eq.
      rewrite bool_decide_eq_true_2 by left. done.
    + assert (E : (if bool_decide (is_Some (ao_literal_blocks o !! i)) then taken
                   else match taken !! i with Some _ => taken | None => <[i := link]> taken end) !! ip = taken !! ip).
      { destruct (bool_decide _); [done|]. destruct (taken !! i); [done|]. by rewrite lookup_insert_ne. }
      rewrite E. destruct (taken !! ip); [done|]. destruct (bool_decide (is_Some (ao_literal_blocks o !! ip))); [done|].
      erewrite bool_decide_ext; [reflexivity|]. rewrite elem_of_cons. naive_solver.
Qed.

(** Whom an address belongs to once the programs took theirs. *)
Lemma takeover_owner ip :
  ao_app_taken o = ∅ ->
  owner_of (with_app_takeover observations book o) ip
  = if bool_decide (is_Some (ao_literal_blocks o !! ip)) then address_owner o ip
    else if bool_decide (ip ∈ observed_ips observations (primary book)) then Some Main
    else if bool_decide (ip ∈ observed_ips observations (secondary book)) then Some Additional
    else address_owner o ip.
Proof.
  intros He. unfold owner_of.
  change (ao_app_taken (with_app_takeover observations book o))
    with (fold_left (take_all Additional) (observed_ips observations (secondary book))
            (fold_left (take_all Main) (observed_ips observations (primary book)) (ao_app_taken o))).
  change (address_owner (with_app_takeover observations book o) ip) with (address_owner o ip).
  rewrite !take_all_lookup, He, lookup_empty.
  destruct (bool_decide (is_Some (ao_literal_blocks o !! ip))); [done|].
  by destruct (bool_decide (ip ∈ observed_ips observations (primary book))),
    (bool_decide (ip ∈ observed_ips observations (secondary book))).
Qed.

End Takeover.

(** The address is named by a block of either set. *)
Definition vetoed (book : CanonicalRuleBook) (support : RuleShapeSupport) (ip : IpAddr) : Prop :=
  exists rule, rule ∈ primary book ++ secondary book /\ vetoes support ip rule.

Lemma literal_blocks_vetoed book support ip :
  is_Some (literal_blocks book support !! ip) <-> vetoed book support ip.
Proof.
  pose proof (literal_blocks_best book support ip) as Hb. unfold vetoed.
  destruct (literal_blocks book support !! ip) as [id|]; cbn in Hb; split.
  - intros _. destruct Hb as [(rule & Hin & Hv & _) _]. eauto.
  - eauto.
  - by intros [].
  - intros (rule & Hin & Hv). exfalso. apply (Hb (r_id rule)). eauto.
Qed.

(** The takeover setting, exactly. With it on, an address no literal block of
    either set names goes to the main link when a program the main set routes was
    observed using it, else to the additional link when one of its programs was.
    An address a literal block names, and one no program used, stays with the link
    the address rules give it. The block that keeps an address from the programs is
    reported by the smallest id of the blocks that name it. *)
Theorem takeover_exact {C O : Type} `{!FqdnCacheLookup C} `{!AppObservationLookup O} (cache : C) (observations : O)
  book order support ip :
  let taken := resolve_for observations book cache (mkSettings order true) support in
  let by_rules := resolve_for observations book cache (mkSettings order false) support in
  (vetoed book support ip -> owner_of taken ip = owner_of by_rules ip)
  /\ (~ vetoed book support ip -> ip ∈ observed_ips observations (primary book) -> owner_of taken ip = Some Main)
  /\ (~ vetoed book support ip -> ip ∉ observed_ips observations (primary book) ->
      ip ∈ observed_ips observations (secondary book) -> owner_of taken ip = Some Additional)
  /\ (ip ∉ observed_ips observations (primary book) -> ip ∉ observed_ips observations (secondary book) ->
      owner_of taken ip = owner_of by_rules ip)
  /\ is_best (cmp_rev str_cmp) (ao_literal_blocks taken !! ip)
       (fun id => exists rule, rule ∈ primary book ++ secondary book /\ vetoes support ip rule /\ id = r_id rule).
Proof.
  cbn zeta. unfold resolve_for. cbn [os_app_takeover os_order].
  rewrite takeover_owner by reflexivity.
  change (ao_literal_blocks (resolve_with_support book cache order support)) with (literal_blocks book support).
  change (ao_literal_blocks (with_app_takeover observations book (resolve_with_support book cache order support)))
    with (literal_blocks book support).
  assert (Hr : owner_of (resolve_with_support book cache order support) ip
    = address_owner (resolve_with_support book cache order support) ip)
    by (unfold owner_of; cbn [ao_app_taken resolve_with_support]; by rewrite lookup_empty).
  rewrite Hr. pose proof (literal_blocks_vetoed book support ip) as Hv.
  split_and!; [..|apply literal_blocks_best]; intros; repeat case_bool_decide; tauto.
Qed.

(** ** The gate *)

Section Admit.
Context {O : Type} `{!AppObservationLookup O} (g : AppDestinationGate O) (link : Link).

Definition admits_v6 (ip : Z) : bool :=
  app_rule_may_claim (g_ownership g) (V6 ip) link
  && (ao_app_takeover (g_ownership g) || negb (destination_used_outside (g_observations g) (g_friendly g) (V6 ip))).

Lemma admit_v4_fold ips : forall d,
  fold_left (admit_v4 g link) ips d
  = mkDestinations (admitted d ++ List.filter (fun ip => bool_decide (refusal g link ip = None)) ips)
      (refused d ++ omap (fun ip => why ← refusal g link ip; Some (ip, why)) ips) (admitted_v6 d).
Proof.
  induction ips as [|ip ips IH]; intros [a r v]; cbn [fold_left]; [cbn; by rewrite !app_nil_r|].
  rewrite IH. unfold admit_v4. cbn. destruct (refusal g link ip) as [why|]; cbn; by rewrite <- app_assoc.
Qed.

Lemma admit_v6_fold ips : forall d,
  fold_left (admit_v6 g link) ips d
  = mkDestinations (admitted d) (refused d) (admitted_v6 d ++ List.filter admits_v6 ips).
Proof.
  induction ips as [|ip ips IH]; intros [a r v]; cbn [fold_left]; [cbn; by rewrite app_nil_r|].
  rewrite IH. unfold admit_v6. fold (admits_v6 ip). cbn. destruct (admits_v6 ip); cbn; [by rewrite <- app_assoc|done].
Qed.

(** What a program of [link] may do with an address it was observed using. *)
Definition may_take (ip : IpAddr) : Prop :=
  owner_of (g_ownership g) ip = None \/ owner_of (g_ownership g) ip = Some link.

Lemma may_take_spec ip : app_rule_may_claim (g_ownership g) ip link = true <-> may_take ip.
Proof.
  unfold app_rule_may_claim, may_take. destruct (owner_of (g_ownership g) ip) as [l|]; [|naive_solver].
  rewrite bool_decide_eq_true. naive_solver.
Qed.

(** The address is shared, and the person turned the shared address down. *)
Definition turned_down (ip : Z) : Prop :=
  link = Additional /\ exists declined, g_declined g = Some declined /\ ip ∈ declined.

(** Another program, one no rule of the set routes, uses the address too. *)
Definition used_by_others (ip : IpAddr) : Prop :=
  ao_app_takeover (g_ownership g) = false /\ destination_used_outside (g_observations g) (g_friendly g) ip = true.

Lemma refusal_spec ip :
  match refusal g link ip with
  | None => may_take (V4 ip) /\ ~ turned_down ip /\ ~ used_by_others (V4 ip)
  | Some ClaimedByAddressRule => ~ may_take (V4 ip)
  | Some DeclinedShared => may_take (V4 ip) /\ turned_down ip
  | Some UsedByOtherProcess => may_take (V4 ip) /\ ~ turned_down ip /\ used_by_others (V4 ip)
  end.
Proof.
  unfold refusal, turned_down, used_by_others. pose proof (may_take_spec (V4 ip)) as Hm.
  destruct (app_rule_may_claim _ _ _); cbn [negb]; [|naive_solver].
  assert (may_take (V4 ip)) by naive_solver.
  destruct (g_declined g) as [declined|]; [|rewrite andb_false_r];
    try (case_bool_decide; cbn [andb]; [case_bool_decide; [naive_solver|]|]);
    destruct (ao_app_takeover _), (destination_used_outside _ _ _); cbn; naive_solver.
Qed.

Lemma admits_v6_spec ip : admits_v6 ip = true <-> may_take (V6 ip) /\ ~ used_by_others (V6 ip).
Proof.
  unfold admits_v6, used_by_others. rewrite andb_true_iff, may_take_spec.
  destruct (ao_app_takeover _), (destination_used_outside _ _ _); cbn; naive_solver.
Qed.

End Admit.

(** The refusal of an address, read as the reasons it stands for. *)
Definition held_for {O} `{!AppObservationLookup O} (g : AppDestinationGate O) (link : Link) (ip : Z)
  (why : AppDestinationRefusal) : Prop :=
  match why with
  | ClaimedByAddressRule => ~ may_take g link (V4 ip)
  | DeclinedShared => may_take g link (V4 ip) /\ turned_down g link ip
  | UsedByOtherProcess => may_take g link (V4 ip) /\ ~ turned_down g link ip /\ used_by_others g (V4 ip)
  end.

Section Gated.
Context {O : Type} `{!AppObservationLookup O} (g : AppDestinationGate O) (pattern : str) (link : Link).

Lemma admit_destinations_eq :
  admit_destinations g pattern link
  = mkDestinations
      (List.filter (fun ip => bool_decide (refusal g link ip = None)) (ips_for_app (g_observations g) pattern))
      (omap (fun ip => why ← refusal g link ip; Some (ip, why)) (ips_for_app (g_observations g) pattern))
      (List.filter (admits_v6 g link) (ips_v6_for_app (g_observations g) pattern)).
Proof. unfold admit_destinations. by rewrite admit_v6_fold, admit_v4_fold. Qed.

Lemma refusal_none ip :
  refusal g link ip = None <-> may_take g link (V4 ip) /\ ~ turned_down g link ip /\ ~ used_by_others g (V4 ip).
Proof. pose proof (refusal_spec g link ip) as H. destruct (refusal g link ip) as [[]|]; naive_solver. Qed.

Lemma refusal_some ip why : refusal g link ip = Some why <-> held_for g link ip why.
Proof.
  pose proof (refusal_spec g link ip) as H.
  destruct (refusal g link ip) as [[]|], why; cbn; naive_solver.
Qed.

Lemma refused_elem ip why :
  (ip, why) ∈ refused (admit_destinations g pattern link)
  <-> ip ∈ ips_for_app (g_observations g) pattern /\ held_for g link ip why.
Proof.
  rewrite admit_destinations_eq. cbn [refused]. rewrite list_elem_of_omap, <- refusal_some. split.
  - intros (x & Hx & E). destruct (refusal g link x) eqn:Er; simplify_eq/=. done.
  - intros [Hip E]. exists ip. by rewrite E.
Qed.

Lemma none_taken_iff (d : AppDestinations) elsewhere :
  none_taken d = Some elsewhere
  <-> admitted d = [] /\ admitted_v6 d = [] /\ refused d <> []
      /\ (elsewhere = NamedByAddressRules <-> exists ip, (ip, ClaimedByAddressRule) ∈ refused d).
Proof.
  assert (He : existsb (fun '(_, why) => bool_decide (why = ClaimedByAddressRule)) (refused d) = true
    <-> exists ip, (ip, ClaimedByAddressRule) ∈ refused d).
  { rewrite existsb_exists. setoid_rewrite <- list_elem_of_In. split.
    - intros ([ip why] & Hin & ->%bool_decide_eq_true). eauto.
    - intros (ip & Hin). eexists (ip, _). split; [done|]. by apply bool_decide_eq_true. }
  unfold none_taken. destruct (admitted d); [|naive_solver]. destruct (admitted_v6 d); [|naive_solver].
  destruct (refused d) as [|x xs] eqn:Er; [naive_solver|].
  destruct (existsb _ _) eqn:E; destruct elsewhere; naive_solver.
Qed.

Lemma parted :
  let d := admit_destinations g pattern link in
  let seen := ips_for_app (g_observations g) pattern in
  admitted d `sublist_of` seen /\ (refused d).*1 `sublist_of` seen /\ admitted d ++ (refused d).*1 ≡ₚ seen.
Proof.
  cbn zeta. rewrite admit_destinations_eq. cbn [admitted refused].
  induction (ips_for_app (g_observations g) pattern) as [|ip ips (IH1 & IH2 & IH3)]; [done|]. cbn.
  destruct (refusal g link ip) as [why|]; cbn; split_and!; try by constructor.
  by rewrite <- Permutation_middle, IH3.
Qed.

(** The gate between a program's rule and the addresses the program was seen
    using. Of the IPv4 addresses, the rule of a link gets, in the order they were
    seen, exactly those no address rule gives to the other link, the person did not
    turn down as shared, and no program outside the set uses; every other one is
    listed once with the first of these three reasons that holds it back, so the
    two lists together are what was seen. IPv6 addresses pass the first and the
    third test. The report that a rule takes nothing is made exactly when something
    was seen and nothing admitted, and it blames the address rules exactly when they
    hold one of the addresses. *)
Theorem app_gate_exact :
  let d := admit_destinations g pattern link in
  let seen := ips_for_app (g_observations g) pattern in
  let seen6 := ips_v6_for_app (g_observations g) pattern in
  (forall ip : Z, ip ∈ admitted d
     <-> ip ∈ seen /\ may_take g link (V4 ip) /\ ~ turned_down g link ip /\ ~ used_by_others g (V4 ip))
  /\ (forall ip why, (ip, why) ∈ refused d <-> ip ∈ seen /\ held_for g link ip why)
  /\ (forall ip : Z, ip ∈ admitted_v6 d <-> ip ∈ seen6 /\ may_take g link (V6 ip) /\ ~ used_by_others g (V6 ip))
  /\ admitted d `sublist_of` seen /\ (refused d).*1 `sublist_of` seen /\ admitted d ++ (refused d).*1 ≡ₚ seen
  /\ (forall elsewhere, none_taken d = Some elsewhere
      <-> admitted d = [] /\ admitted_v6 d = [] /\ seen <> []
          /\ (elsewhere = NamedByAddressRules <-> exists ip : Z, ip ∈ seen /\ ~ may_take g link (V4 ip))).
Proof.
  cbn zeta. destruct parted as (Hs1 & Hs2 & Hp). split_and!; [|apply refused_elem| |done..|].
  - intros ip. rewrite admit_destinations_eq. cbn [admitted]. by rewrite filter_elem, bool_decide_eq_true, refusal_none.
  - intros ip. rewrite admit_destinations_eq. cbn [admitted_v6]. by rewrite filter_elem, admits_v6_spec.
  - intros elsewhere. rewrite none_taken_iff.
    assert (He : (exists ip, (ip, ClaimedByAddressRule) ∈ refused (admit_destinations g pattern link))
      <-> exists ip, ip ∈ ips_for_app (g_observations g) pattern /\ ~ may_take g link (V4 ip))
      by (setoid_rewrite refused_elem; done).
    rewrite He. split; intros (E1 & E2 & E3 & E4); split_and!; try done; rewrite E1 in Hp; cbn in Hp; contradict E3.
    + rewrite E3 in Hp. by apply Permutation_nil_r, fmap_nil_inv in Hp.
    + rewrite E3 in Hp. by apply Permutation_nil_l in Hp.
Qed.

End Gated.
