(* ===== verification/BlockSplit.v ===== *)
(** * Networks cut around other networks

    The two ways enforcement cuts a network into aligned pieces. A filter leaves
    the holes of narrower rules out ([halves], [carve] of service-runtime/src/
    enforcement_planner/networks.rs); a route answers the routes of the other
    link with longer ones ([split_against], [without] of service-runtime/src/
    route_codegen/network_routes.rs). *)

From stdpp Require Import base numbers list sorting.
From S2P Require Import Prelude IpAddr IpBlock.

Open Scope Z_scope.

(** ** Halves *)

Definition halves (block : IpBlock) : option (IpBlock * IpBlock) :=
  if is_single_address block then None
  else
    let len := prefix_len block + 1 in
    let high := match network block with
                | V4 net => V4 (Z.lor net (Z.shiftl 1 (32 - len)))
                | V6 net => V6 (Z.lor net (Z.shiftl 1 (128 - len)))
                end in
    match IpBlock_new (network block) len, IpBlock_new high len with
    | Some low, Some high => Some (low, high)
    | _, _ => None
    end.

(** The second spelling, in network_routes.rs. *)
Definition with_bits (like : IpAddr) (value : Z) : IpAddr :=
  match like with
  | V4 _ => V4 (if value <=? u32_max then value else u32_max)
  | V6 _ => V6 value
  end.

Definition route_halves (block : IpBlock) : option (IpBlock * IpBlock) :=
  if is_single_address block then None
  else
    let len := prefix_len block + 1 in
    let bit := Z.shiftl 1 (max_prefix_len block - len) in
    let high := with_bits (network block) (Z.lor (to_bits (network block)) bit) in
    match IpBlock_new (network block) len, IpBlock_new high len with
    | Some low, Some high => Some (low, high)
    | _, _ => None
    end.

(** ** [carve]

    The recursion goes one bit down at a time, so the host bits of the block bound
    it: where they are used up the block is a single address and has no halves. *)

Fixpoint carve_loop (room : nat) (block : IpBlock) (holes out : list IpBlock) (cap : nat) : list IpBlock * bool :=
  if existsb (fun h => IpBlock_covers h block) holes then (out, true)
  else
    match List.filter (IpBlock_covers block) holes with
    | [] => (out ++ [block], (length (out ++ [block]) <=? cap)%nat)
    | inside =>
        match halves block, room with
        | Some (low, high), S room' =>
            let '(out, ok) := carve_loop room' low inside out cap in
            if ok then carve_loop room' high inside out cap else (out, false)
        | _, _ => (out, true)
        end
    end.

Definition host_bits (block : IpBlock) : nat := Z.to_nat (max_prefix_len block - prefix_len block).

Definition carve (block : IpBlock) (holes out : list IpBlock) (cap : nat) : list IpBlock * bool :=
  carve_loop (host_bits block) block holes out cap.

(** ** [split_against] and [without] *)

(** A [BTreeSet] of blocks read in order. *)
Definition btree_blocks (l : list IpBlock) : list IpBlock := dedup (sort_by IpBlock_cmp l).

Definition split_against (block : IpBlock) (competitors : list IpBlock) : list IpBlock :=
  let covered := List.filter (IpBlock_covers block) competitors in
  let whole := negb (existsb (fun c => bool_decide (c = block)) covered) in
  btree_blocks
    ((c ← covered; match route_halves c with Some (low, high) => [low; high] | None => [] end)
     ++ (if whole then [block] else [])).

Fixpoint without_loop (room : nat) (current hole : IpBlock) : list IpBlock :=
  if bool_decide (current = hole) then []
  else
    match route_halves current, room with
    | Some (low, high), S room' =>
        if IpBlock_covers low hole then high :: without_loop room' low hole
        else low :: without_loop room' high hole
    | _, _ => []
    end.

Definition without (block hole : IpBlock) : list IpBlock :=
  if negb (IpBlock_overlaps block hole) then [block]
  else if IpBlock_covers hole block then []
  else without_loop (host_bits block) block hole.

(** ** What the halves hold *)

Lemma lor_next_bit n k : 0 <= k -> n mod 2 ^ (k + 1) = 0 -> Z.lor n (Z.shiftl 1 k) = n + 2 ^ k.
Proof.
  intros Hk Hm. rewrite Z.shiftl_1_l.
  assert (E : Z.land n (2 ^ k) = 0).
  { apply Z.mod_divide in Hm as [q ->]; [|lia]. apply Z.bits_inj'. intros i Hi.
    rewrite Z.land_spec, Z.pow2_bits_eqb, Z.bits_0 by lia. destruct (Z.eqb_spec k i) as [<-|]; [|by rewrite andb_false_r].
    by rewrite Z.mul_pow2_bits_low by lia. }
  pose proof (Z.add_lor_land n (2 ^ k)). lia.
Qed.

Lemma max_prefix_family b : max_prefix_len b = family_bits (network b).
Proof. reflexivity. Qed.

(** The halves as the two blocks one bit longer. *)
Definition half_low (b : IpBlock) : IpBlock := mkIpBlock (network b) (prefix_len b + 1).
Definition half_high (b : IpBlock) : IpBlock :=
  mkIpBlock (match network b with V4 net => V4 (net + block_size b / 2) | V6 net => V6 (net + block_size b / 2) end)
    (prefix_len b + 1).

Section Halves.
Context (b : IpBlock) (Hb : block_wf b) (Hs : is_single_address b = false).

Lemma room_left : prefix_len b < family_bits (network b).
Proof. destruct Hb as (_ & Hp & _). apply Z.eqb_neq in Hs. rewrite max_prefix_family in Hs. lia. Qed.

Lemma block_size_halved : block_size b = 2 * 2 ^ (family_bits (network b) - (prefix_len b + 1)).
Proof.
  pose proof room_left. destruct Hb as (_ & Hp & _). unfold block_size. rewrite <- (Z.pow_1_r 2) at 2.
  rewrite <- Z.pow_add_r by lia. f_equal. lia.
Qed.

Lemma half_low_bits : to_bits (network (half_low b)) = to_bits (network b).
Proof. reflexivity. Qed.

Lemma half_high_bits :
  is_ipv4 (network (half_high b)) = is_ipv4 (network b)
  /\ family_bits (network (half_high b)) = family_bits (network b)
  /\ to_bits (network (half_high b)) = to_bits (network b) + 2 ^ (family_bits (network b) - (prefix_len b + 1)).
Proof.
  assert (E : block_size b / 2 = 2 ^ (family_bits (network b) - (prefix_len b + 1)))
    by (rewrite block_size_halved; rewrite Z.mul_comm; by rewrite Z.div_mul).
  unfold half_high. cbn [network prefix_len]. rewrite E. by destruct (network b).
Qed.

Lemma half_size c : c = half_low b \/ c = half_high b -> 2 * block_size c = block_size b.
Proof.
  destruct half_high_bits as (_ & Hf & _). intros [-> | ->]; rewrite block_size_halved; unfold block_size; [done|].
  by rewrite Hf.
Qed.

Lemma halves_wf : block_wf (half_low b) /\ block_wf (half_high b).
Proof.
  pose proof room_left as Hr. destruct (block_bounds b Hb) as (B1 & B2 & B3). pose proof block_size_halved as Hz.
  destruct half_high_bits as (H4 & Hf & Ht). destruct Hb as (Hn & Hp & Hal).
  assert (Hd : to_bits (network b) mod 2 ^ (family_bits (network b) - (prefix_len b + 1)) = 0)
    by (eapply pow2_divide_mod_0; [|exact Hal]; lia).
  split.
  - split; [exact Hn|]. cbn [half_low network prefix_len]. split; [lia|exact Hd].
  - split; [apply ip_wf_bits; rewrite Hf, Ht; lia|]. rewrite Hf, Ht. cbn [half_high prefix_len]. split; [lia|].
    rewrite Z.add_mod, Hd, Z.mod_same by lia. done.
Qed.

Lemma IpBlock_new_id a p : ip_wf a -> 0 <= p <= family_bits a -> to_bits a mod 2 ^ (family_bits a - p) = 0 ->
  IpBlock_new a p = Some (mkIpBlock a p).
Proof.
  intros Ha Hp Hm. destruct (IpBlock_new a p) as [c|] eqn:E.
  - apply IpBlock_new_Some in E as (_ & Hl & H4 & Ht & _); [|done|lia]. rewrite Hm, Z.sub_0_r in Ht.
    destruct c as [n q]. cbn in *. f_equal. f_equal; [by apply ip_ext|done].
  - unfold IpBlock_new in E. destruct (Z.ltb_spec (family_bits a) p); [lia|done].
Qed.

Lemma halves_eq : halves b = Some (half_low b, half_high b) /\ route_halves b = Some (half_low b, half_high b).
Proof.
  pose proof room_left as Hr. destruct halves_wf as [(L1 & L2 & L3) (H1 & H2 & H3)].
  destruct half_high_bits as (H4 & _ & Ht). pose proof block_size_halved as Hz.
  destruct (block_bounds b Hb) as (B1 & B2 & B3). destruct Hb as (Hn & Hp & Hal).
  assert (Hor : Z.lor (to_bits (network b)) (Z.shiftl 1 (family_bits (network b) - (prefix_len b + 1)))
    = to_bits (network b) + 2 ^ (family_bits (network b) - (prefix_len b + 1)))
    by (apply lor_next_bit; [lia|]; replace (_ + 1) with (family_bits (network b) - prefix_len b) by lia; done).
  assert (E1 : match network b with
               | V4 net => V4 (Z.lor net (Z.shiftl 1 (32 - (prefix_len b + 1))))
               | V6 net => V6 (Z.lor net (Z.shiftl 1 (128 - (prefix_len b + 1)))) end = network (half_high b)).
  { apply ip_ext; [rewrite H4; by destruct (network b)|]. rewrite Ht, <- Hor. by destruct (network b). }
  assert (E2 : with_bits (network b) (Z.lor (to_bits (network b)) (Z.shiftl 1 (max_prefix_len b - (prefix_len b + 1))))
    = network (half_high b)).
  { rewrite max_prefix_family, Hor. apply ip_ext; [rewrite H4; by destruct (network b)|]. rewrite Ht.
    destruct (network b) as [v|v]; cbn; [|done]. destruct (Z.leb_spec (v + 2 ^ (32 - (prefix_len b + 1))) u32_max); [done|].
    unfold block_size, family_bits in *. cbn in *. lia. }
  unfold halves, route_halves. rewrite Hs, E1, E2, (IpBlock_new_id (network b)), (IpBlock_new_id (network (half_high b))) by done.
  done.
Qed.

Lemma in_halves a : in_block b a <-> in_block (half_low b) a \/ in_block (half_high b) a.
Proof.
  destruct half_high_bits as (H4 & Hf & Ht). unfold in_block.
  rewrite H4, Ht, half_low_bits. rewrite <- (half_size (half_low b)) by auto.
  assert (E : block_size (half_high b) = block_size (half_low b)) by (unfold block_size; by rewrite Hf).
  rewrite E. change (is_ipv4 (network (half_low b))) with (is_ipv4 (network b)).
  change (2 ^ (family_bits (network b) - (prefix_len b + 1))) with (block_size (half_low b)).
  pose proof (block_bounds _ (proj1 halves_wf)). split; [|intros [[? ?]|[? ?]]; split; [done|lia|done|lia]].
  intros [Hfam Hrange]. destruct (Z.lt_ge_cases (to_bits a) (to_bits (network b) + block_size (half_low b))); [left|right]; split; try done; lia.
Qed.

Lemma halves_apart a : in_block (half_low b) a -> in_block (half_high b) a -> False.
Proof.
  destruct half_high_bits as (_ & _ & Ht). intros [_ H1] [_ H2]. rewrite Ht in H2. rewrite half_low_bits in H1.
  change (2 ^ (family_bits (network b) - (prefix_len b + 1))) with (block_size (half_low b)) in H2. lia.
Qed.

End Halves.

(** ** Blocks nest or are apart *)

Definition apart (b c : IpBlock) : Prop := forall a, ip_wf a -> in_block b a -> ~ in_block c a.

Lemma nested_or_apart b c : block_wf b -> block_wf c ->
  IpBlock_covers b c = true \/ IpBlock_covers c b = true \/ apart b c.
Proof.
  intros Hb Hc. destruct (IpBlock_overlaps b c) eqn:E.
  - apply orb_true_iff in E as []; auto.
  - right. right. intros a Ha Hba Hca. apply not_true_iff_false in E. apply E, IpBlock_overlaps_spec; eauto.
Qed.

Lemma covers_in b c a : block_wf b -> block_wf c -> ip_wf a -> IpBlock_covers b c = true -> in_block c a -> in_block b a.
Proof. intros Hb Hc Ha H. by apply (proj1 (IpBlock_covers_spec b c Hb Hc) H). Qed.

Lemma covers_self b : block_wf b -> IpBlock_covers b b = true.
Proof. intros Hb. apply IpBlock_covers_spec; auto. Qed.

Lemma covers_trans b c d : block_wf b -> block_wf c -> block_wf d ->
  IpBlock_covers b c = true -> IpBlock_covers c d = true -> IpBlock_covers b d = true.
Proof. intros Hb Hc Hd. rewrite !IpBlock_covers_spec by done. auto. Qed.

Lemma network_in b : block_wf b -> ip_wf (network b) /\ in_block b (network b).
Proof. intros Hb. destruct (block_bounds b Hb) as (B1 & B2 & B3). split; [apply Hb|]. split; [done|lia]. Qed.

Lemma new_same b : block_wf b -> IpBlock_new (network b) (prefix_len b) = Some b.
Proof. intros (Hn & Hp & Hal). rewrite IpBlock_new_id by done. by destruct b. Qed.

Lemma covers_same_length b c : block_wf c -> IpBlock_covers b c = true -> prefix_len c <= prefix_len b -> b = c.
Proof.
  intros Hc [H1%Z.leb_le [_ H2]%andb_true_iff]%andb_true_iff Hl.
  assert (E : prefix_len b = prefix_len c) by lia. rewrite E, (new_same c Hc) in H2. by apply bool_decide_eq_true in H2.
Qed.

Lemma covers_antisym b c : block_wf b -> block_wf c ->
  IpBlock_covers b c = true -> IpBlock_covers c b = true -> b = c.
Proof.
  intros Hb Hc Hbc Hcb. apply covers_same_length; [done..|]. by apply andb_true_iff in Hcb as [?%Z.leb_le _].
Qed.

(** A block inside a wider one is inside one of its halves. *)
Lemma inside_half b c : block_wf b -> block_wf c -> is_single_address b = false ->
  IpBlock_covers b c = true -> IpBlock_covers c b = false ->
  IpBlock_covers (half_low b) c = true \/ IpBlock_covers (half_high b) c = true.
Proof.
  intros Hb Hc Hs Hbc Hcb. destruct (halves_wf b Hb Hs) as [Hl Hh].
  destruct (network_in c Hc) as [Hn Hin]. pose proof (covers_in b c _ Hb Hc Hn Hbc Hin) as Hbn.
  assert (Hlen : prefix_len b + 1 <= prefix_len c).
  { destruct (Z.le_gt_cases (prefix_len b + 1) (prefix_len c)); [done|].
    rewrite (covers_same_length b c) in Hcb by (done || lia). by rewrite covers_self in Hcb. }
  assert (Hw : forall h, block_wf h -> prefix_len h = prefix_len b + 1 -> in_block h (network c) -> IpBlock_covers h c = true).
  { intros h Hwf Hp Hi. unfold IpBlock_covers. rewrite (proj2 (IpBlock_contains_spec _ _ Hwf Hn) Hi), andb_true_r.
    apply Z.leb_le. lia. }
  apply (in_halves b Hb Hs) in Hbn as [H|H]; [left|right]; by apply Hw.
Qed.

(** A block of one address inside another one is that one. *)
Lemma single_covers b c : block_wf b -> block_wf c -> is_single_address b = true ->
  IpBlock_covers b c = true -> b = c.
Proof.
  intros Hb Hc Hs%Z.eqb_eq Hbc. apply covers_same_length; [done..|].
  rewrite max_prefix_family in Hs. destruct (network_in c Hc) as [Hn Hin].
  apply (covers_in b c _ Hb Hc Hn Hbc) in Hin as [H4 _]. destruct Hc as (_ & Hp & _). rewrite (family_bits_eq _ _ H4) in Hp. lia.
Qed.

(** ** Carving *)

(** What is left of a block around its holes, without the cap. *)
Fixpoint carved (room : nat) (block : IpBlock) (holes : list IpBlock) : list IpBlock :=
  if existsb (fun h => IpBlock_covers h block) holes then []
  else
    match List.filter (IpBlock_covers block) holes with
    | [] => [block]
    | inside =>
        match halves block, room with
        | Some (low, high), S room' => carved room' low inside ++ carved room' high inside
        | _, _ => []
        end
    end.

(** The capped loop lists the same pieces and stops with the first one too many. *)
Lemma carve_loop_carved cap : forall room block holes out,
  (length out <= cap)%nat ->
  carve_loop room block holes out cap
  = (take (S cap) (out ++ carved room block holes), (length (out ++ carved room block holes) <=? cap)%nat).
Proof.
  assert (Hid : forall out : list IpBlock, (length out <= cap)%nat -> (out, true) = (take (S cap) (out ++ []), (length (out ++ []) <=? cap)%nat)).
  { intros out Ho. rewrite app_nil_r, take_ge by lia. f_equal. symmetry. by apply Nat.leb_le. }
  induction room as [|room IH]; intros block holes out Ho; cbn [carve_loop carved];
    (destruct (existsb _ holes); [by apply Hid|]); destruct (List.filter _ holes) as [|h inside];
    try (rewrite take_ge by (rewrite length_app; cbn; lia); done);
    destruct (halves block) as [[low high]|]; try by apply Hid.
  rewrite IH by done. destruct (Nat.leb_spec (length (out ++ carved room low (h :: inside))) cap) as [Hl|Hl].
  - rewrite take_ge by lia. rewrite IH by done. by rewrite <- app_assoc.
  - rewrite app_assoc. rewrite (take_app_le _ (carved room high _)) by lia. f_equal. symmetry. apply Nat.leb_gt.
    rewrite length_app. lia.
Qed.

Definition before (p q : IpBlock) : Prop := to_bits (network p) + block_size p <= to_bits (network q).

(** The pieces are the block without the holes, ascending, and as wide as can be. *)
Record cut (block : IpBlock) (holes pieces : list IpBlock) : Prop := {
  cut_wf : forall p, p ∈ pieces -> block_wf p /\ IpBlock_covers block p = true;
  cut_exact : forall a, ip_wf a ->
    (exists p, p ∈ pieces /\ in_block p a) <-> in_block block a /\ forall h, h ∈ holes -> ~ in_block h a;
  cut_sorted : StronglySorted before pieces;
  cut_coarsest : forall o, block_wf o -> IpBlock_covers block o = true -> (forall h, h ∈ holes -> apart h o) ->
    exists p, p ∈ pieces /\ IpBlock_covers p o = true;
}.

Lemma covers_bounds b c : block_wf b -> block_wf c -> IpBlock_covers b c = true ->
  to_bits (network b) <= to_bits (network c) /\ to_bits (network c) + block_size c <= to_bits (network b) + block_size b.
Proof.
  intros Hb Hc H. destruct (network_in c Hc) as [Hn Hi]. apply (covers_in b c _ Hb Hc Hn H) in Hi as [_ Hi].
  destruct (IpBlock_last_bits c Hc) as [L4 Lt]. destruct (block_bounds c Hc) as (C1 & C2 & C3).
  assert (Hl : ip_wf (IpBlock_last c)) by (apply ip_wf_bits; rewrite Lt, (family_bits_eq _ _ L4); lia).
  destruct (covers_in b c (IpBlock_last c) Hb Hc Hl H) as [_ Hj]; [split; [done|lia]|]. lia.
Qed.

Lemma low_before_high b p q : block_wf b -> is_single_address b = false -> block_wf p -> block_wf q ->
  IpBlock_covers (half_low b) p = true -> IpBlock_covers (half_high b) q = true -> before p q.
Proof.
  intros Hb Hs Hp Hq Hlp Hhq. destruct (halves_wf b Hb Hs) as [Hl Hh].
  destruct (covers_bounds _ _ Hl Hp Hlp) as [_ H1]. destruct (covers_bounds _ _ Hh Hq Hhq) as [H2 _].
  destruct (half_high_bits b Hb Hs) as (_ & _ & Ht). unfold before.
  change (2 ^ (family_bits (network b) - (prefix_len b + 1))) with (block_size (half_low b)) in Ht.
  rewrite half_low_bits in H1. lia.
Qed.

Section Cut.
Context (block : IpBlock) (holes : list IpBlock).
Context (Hb : block_wf block) (Hh : forall h, h ∈ holes -> block_wf h).

Lemma cut_swallowed h : h ∈ holes -> IpBlock_covers h block = true -> cut block holes [].
Proof.
  intros Hin Hc. split; [by intros p ?%not_elem_of_nil| |constructor|].
  - intros a Ha. split; [by intros (p & ?%not_elem_of_nil & _)|]. intros [Hi Hn]. exfalso.
    apply (Hn h Hin). by apply (covers_in h block); auto.
  - intros o Ho Hbo Hap. exfalso. destruct (network_in o Ho) as [Hn Hi]. apply (Hap h Hin (network o) Hn); [|done].
    apply (covers_in h block); auto. by apply (covers_in block o).
Qed.

(** Holes that neither hold the block nor are inside it do not matter. *)
Lemma outside_apart h : h ∈ holes -> existsb (fun h => IpBlock_covers h block) holes = false ->
  h ∉ List.filter (IpBlock_covers block) holes -> apart block h.
Proof.
  intros Hin He Hf. destruct (nested_or_apart block h Hb (Hh h Hin)) as [H|[H|H]]; [..|done].
  - exfalso. apply Hf, filter_elem. done.
  - exfalso. apply not_true_iff_false in He. apply He, existsb_elem. eauto.
Qed.

Lemma cut_whole : existsb (fun h => IpBlock_covers h block) holes = false ->
  List.filter (IpBlock_covers block) holes = [] -> cut block holes [block].
Proof.
  intros He Hf. assert (Hap : forall h, h ∈ holes -> apart block h)
    by (intros h Hin; apply outside_apart; [done..|]; rewrite Hf; apply not_elem_of_nil).
  split.
  - intros p ->%list_elem_of_singleton. split; [done|by apply covers_self].
  - intros a Ha. split.
    + intros (p & ->%list_elem_of_singleton & Hi). split; [done|]. intros h Hin. by apply (Hap h Hin).
    + intros [Hi _]. exists block. split; [by apply list_elem_of_singleton|done].
  - repeat constructor.
  - intros o Ho Hc _. exists block. split; [by apply list_elem_of_singleton|done].
Qed.

Lemma cut_halves P Q : is_single_address block = false ->
  existsb (fun h => IpBlock_covers h block) holes = false ->
  cut (half_low block) (List.filter (IpBlock_covers block) holes) P ->
  cut (half_high block) (List.filter (IpBlock_covers block) holes) Q ->
  List.filter (IpBlock_covers block) holes <> [] ->
  cut block holes (P ++ Q).
Proof.
  intros Hs He HP HQ Hne. destruct (halves_wf block Hb Hs) as [Hl Hu].
  pose proof (in_halves block Hb Hs) as Hin.
  assert (Hcl : forall p, block_wf p -> IpBlock_covers (half_low block) p = true \/ IpBlock_covers (half_high block) p = true ->
    IpBlock_covers block p = true).
  { intros p Hp Hc. apply IpBlock_covers_spec; [done..|]. intros a Ha Hpa. apply Hin.
    destruct Hc as [Hc|Hc]; [left|right]; by apply (covers_in _ p a). }
  assert (Hfil : forall a, ip_wf a -> in_block block a ->
    (forall h, h ∈ holes -> ~ in_block h a) <-> (forall h, h ∈ List.filter (IpBlock_covers block) holes -> ~ in_block h a)).
  { intros a Ha Hba. split; intros H h Hh'; [apply H; by apply filter_elem in Hh' as []|].
    destruct (decide (h ∈ List.filter (IpBlock_covers block) holes)) as [|Hf]; [by apply H|].
    by apply (outside_apart h Hh' He Hf). }
  split.
  - intros p [Hp|Hp]%elem_of_app; [destruct (cut_wf _ _ _ HP p Hp)|destruct (cut_wf _ _ _ HQ p Hp)]; auto.
  - intros a Ha. pose proof (cut_exact _ _ _ HP a Ha) as E1. pose proof (cut_exact _ _ _ HQ a Ha) as E2.
    setoid_rewrite elem_of_app. split.
    + intros (p & [Hp|Hp] & Hi).
      * destruct (proj1 E1) as [Hx Hy]; [eauto|]. split; [apply Hin; auto|]. apply Hfil; [done|apply Hin; auto|done].
      * destruct (proj1 E2) as [Hx Hy]; [eauto|]. split; [apply Hin; auto|]. apply Hfil; [done|apply Hin; auto|done].
    + intros [Hi Hn]. rewrite (Hfil a Ha Hi) in Hn. apply Hin in Hi as [Hi|Hi].
      * destruct (proj2 E1 (conj Hi Hn)) as (p & ? & ?). eauto.
      * destruct (proj2 E2 (conj Hi Hn)) as (p & ? & ?). eauto.
  - apply StronglySorted_app_2; [|apply HP|apply HQ]. intros p q Hp Hq.
    destruct (cut_wf _ _ _ HP p Hp), (cut_wf _ _ _ HQ q Hq). by apply (low_before_high block).
  - intros o Ho Hc Hap.
    assert (Hap' : forall h, h ∈ List.filter (IpBlock_covers block) holes -> apart h o)
      by (intros h [Hx _]%filter_elem; by apply Hap).
    assert (Hco : IpBlock_covers o block = false).
    { apply not_true_iff_false. intros Hco. destruct (List.filter (IpBlock_covers block) holes) as [|h l] eqn:Ef; [done|].
      assert (Hx : h ∈ List.filter (IpBlock_covers block) holes) by (rewrite Ef; left). apply filter_elem in Hx as [Hx Hy].
      destruct (network_in h (Hh h Hx)) as [Hn Hi]. apply (Hap h Hx _ Hn Hi).
      apply (covers_in o block); [done..|]. by apply (covers_in block h); auto. }
    destruct (inside_half block o Hb Ho Hs Hc Hco) as [H|H].
    + destruct (cut_coarsest _ _ _ HP o Ho H Hap') as (p & ? & ?). exists p. rewrite elem_of_app. auto.
    + destruct (cut_coarsest _ _ _ HQ o Ho H Hap') as (p & ? & ?). exists p. rewrite elem_of_app. auto.
Qed.

End Cut.

Lemma host_bits_half b : block_wf b -> is_single_address b = false ->
  exists room, host_bits b = S room /\ host_bits (half_low b) = room /\ host_bits (half_high b) = room.
Proof.
  intros Hb Hs. pose proof (room_left b Hb Hs) as Hr. destruct (half_high_bits b Hb Hs) as (_ & Hf & _).
  exists (host_bits (half_low b)). unfold host_bits. rewrite !max_prefix_family, Hf.
  cbn [half_low half_high network prefix_len]. destruct Hb as (_ & Hp & _). lia.
Qed.

Lemma carved_cut : forall room block holes,
  block_wf block -> (forall h, h ∈ holes -> block_wf h) -> host_bits block = room -> cut block holes (carved room block holes).
Proof.
  induction room as [|room IH]; intros block holes Hb Hh Hr; cbn [carved];
    destruct (existsb (fun h => IpBlock_covers h block) holes) eqn:He;
    try (apply existsb_elem in He as (h & Hin & Hc); by eapply cut_swallowed);
    destruct (List.filter (IpBlock_covers block) holes) as [|h inside] eqn:Ef; try by apply cut_whole.
  all: assert (Hf : h ∈ List.filter (IpBlock_covers block) holes) by (rewrite Ef; left).
  all: pose proof Hf as [Hin Hc]%filter_elem.
  all: assert (Hs : is_single_address block = false)
    by (apply not_true_iff_false; intros Hs; rewrite (single_covers block h) in He by auto;
        apply not_true_iff_false in He; apply He, existsb_elem; exists h; split; [done|]; apply covers_self; auto).
  all: destruct (host_bits_half block Hb Hs) as (r & E & El & Eh); try congruence.
  rewrite (proj1 (halves_eq block Hb Hs)). destruct (halves_wf block Hb Hs) as [Hl Hu]. rewrite <- Ef.
  assert (Hh' : forall x, x ∈ List.filter (IpBlock_covers block) holes -> block_wf x)
    by (intros x [Hx _]%filter_elem; auto).
  apply cut_halves; [done..|apply IH; [done..|congruence]|apply IH; [done..|congruence]|by rewrite Ef].
Qed.

(** Carving cuts exactly the holes out. For a network and any holes, in
    canonical form, the recursion that halves the network until a piece is clear
    of the holes or swallowed by one ends, and lists pieces that hold exactly the
    addresses of the network outside every hole, ascending without overlap, each
    as wide as can be (any network clear of the holes is inside one piece). Under
    the cap it appends all of them and says so; past the cap it stops with the
    first piece too many and says so. *)
Theorem carve_exact block holes out cap :
  block_wf block -> (forall h, h ∈ holes -> block_wf h) -> (length out <= cap)%nat ->
  exists pieces, cut block holes pieces
  /\ carve block holes out cap = (take (S cap) (out ++ pieces), (length (out ++ pieces) <=? cap)%nat).
Proof.
  intros Hb Hh Ho. exists (carved (host_bits block) block holes). split; [by apply carved_cut|].
  by apply carve_loop_carved.
Qed.

(** ** One hole *)

Lemma without_loop_spec : forall room current hole a,
  block_wf current -> block_wf hole -> host_bits current = room -> IpBlock_covers current hole = true -> ip_wf a ->
  (exists p, p ∈ without_loop room current hole /\ in_block p a) <-> in_block current a /\ ~ in_block hole a.
Proof.
  induction room as [|room IH]; intros current hole a Hc Hh Hr Hco Ha; cbn [without_loop];
    (case_bool_decide as E; [subst current; split; [by intros (p & ?%not_elem_of_nil & _)|tauto]|]).
  all: assert (Hs : is_single_address current = false)
    by (apply not_true_iff_false; intros Hs; by apply E, single_covers).
  all: destruct (host_bits_half current Hc Hs) as (r & Er & El & Eh); try congruence.
  rewrite (proj2 (halves_eq current Hc Hs)). destruct (halves_wf current Hc Hs) as [Hl Hu].
  pose proof (in_halves current Hc Hs a) as Hin.
  assert (Hno : IpBlock_covers hole current = false)
    by (apply not_true_iff_false; intros Hx; by apply E, covers_antisym).
  destruct (inside_half current hole Hc Hh Hs Hco Hno) as [H|H].
  - rewrite H, exists_elem_cons. specialize (IH (half_low current) hole a Hl Hh ltac:(congruence) H Ha).
    assert (in_block (half_high current) a -> ~ in_block hole a).
    { intros H1 H2. apply (covers_in _ _ a Hl Hh Ha H) in H2. exact (halves_apart current Hc Hs a H2 H1). }
    rewrite IH, Hin. tauto.
  - assert (Hlo : IpBlock_covers (half_low current) hole = false).
    { apply not_true_iff_false. intros Hlo. destruct (network_in hole Hh) as [Hn Hi].
      apply (halves_apart current Hc Hs (network hole)); by apply (covers_in _ hole). }
    rewrite Hlo.
    rewrite exists_elem_cons. specialize (IH (half_high current) hole a Hu Hh ltac:(congruence) H Ha).
    assert (in_block (half_low current) a -> ~ in_block hole a).
    { intros H1 H2. apply (covers_in _ _ a Hu Hh Ha H) in H2. exact (halves_apart current Hc Hs a H1 H2). }
    rewrite IH, Hin. tauto.
Qed.

Lemma without_loop_wf : forall room current hole p,
  block_wf current -> host_bits current = room -> p ∈ without_loop room current hole ->
  block_wf p /\ prefix_len current < prefix_len p /\ IpBlock_covers current p = true.
Proof.
  induction room as [|room IH]; intros current hole p Hc Hr; cbn [without_loop];
    (case_bool_decide; [by intros ?%not_elem_of_nil|]); destruct (route_halves current) as [[low high]|] eqn:E;
    try by intros ?%not_elem_of_nil.
  assert (Hs : is_single_address current = false)
    by (apply not_true_iff_false; intros Hs; unfold route_halves in E; by rewrite Hs in E).
  rewrite (proj2 (halves_eq current Hc Hs)) in E. injection E as <- <-.
  destruct (halves_wf current Hc Hs) as [Hl Hh]. destruct (host_bits_half current Hc Hs) as (r & Er & El & Eh).
  assert (Hstep : forall h q, h = half_low current \/ h = half_high current -> block_wf q -> prefix_len h <= prefix_len q ->
    IpBlock_covers h q = true -> block_wf q /\ prefix_len current < prefix_len q /\ IpBlock_covers current q = true).
  { intros h q Hhalf Hq Hlen Hcov. split; [done|]. assert (block_wf h) by (destruct Hhalf; by subst h).
    split; [destruct Hhalf; subst h; cbn in Hlen; lia|]. apply IpBlock_covers_spec; [done..|]. intros a Ha Hqa.
    apply (in_halves current Hc Hs). apply (covers_in h q a) in Hqa; [|done..]. destruct Hhalf; subst h; auto. }
  destruct (IpBlock_covers (half_low current) hole); intros [->|Hp]%elem_of_cons.
  - apply (Hstep (half_high current)); [auto|done|done|by apply covers_self].
  - destruct (IH (half_low current) hole p Hl ltac:(congruence) Hp) as (? & ? & ?). apply (Hstep (half_low current)); [auto|done|lia|done].
  - apply (Hstep (half_low current)); [auto|done|done|by apply covers_self].
  - destruct (IH (half_high current) hole p Hh ltac:(congruence) Hp) as (? & ? & ?). apply (Hstep (half_high current)); [auto|done|lia|done].
Qed.

(** One hole cut out of a network. *)
Lemma without_spec block hole a : block_wf block -> block_wf hole -> ip_wf a ->
  (exists p, p ∈ without block hole /\ in_block p a) <-> in_block block a /\ ~ in_block hole a.
Proof.
  intros Hb Hh Ha. unfold without. destruct (IpBlock_overlaps block hole) eqn:E; cbn [negb].
  - destruct (IpBlock_covers hole block) eqn:Ec.
    + split; [by intros (p & ?%not_elem_of_nil & _)|]. intros [Hi Hn]. exfalso. apply Hn. by apply (covers_in hole block).
    + apply orb_true_iff in E as [E|E]; [|congruence]. by apply without_loop_spec.
  - setoid_rewrite list_elem_of_singleton. split; [|naive_solver]. intros (p & -> & Hi). split; [done|]. intros Hx.
    apply not_true_iff_false in E. apply E, IpBlock_overlaps_spec; eauto.
Qed.

Lemma without_wf block hole p : block_wf block -> p ∈ without block hole ->
  block_wf p /\ prefix_len block <= prefix_len p /\ IpBlock_covers block p = true.
Proof.
  intros Hb. unfold without. destruct (IpBlock_overlaps block hole); cbn [negb].
  - destruct (IpBlock_covers hole block); [by intros ?%not_elem_of_nil|]. intros Hp.
    destruct (without_loop_wf _ _ _ _ Hb eq_refl Hp) as (? & ? & ?). split; [done|]. split; [lia|done].
  - intros ->%list_elem_of_singleton. split; [done|]. split; [lia|by apply covers_self].
Qed.

(** ** Routes that out-specific others *)

Lemma btree_blocks_elem l b : b ∈ btree_blocks l <-> b ∈ l.
Proof. unfold btree_blocks. by rewrite dedup_elem, sort_by_elem_of. Qed.

Section Split.
Context (block : IpBlock) (competitors : list IpBlock).
Context (Hb : block_wf block) (Hc : forall c, c ∈ competitors -> block_wf c).

Lemma split_against_elem p :
  p ∈ split_against block competitors <->
  (exists c, c ∈ competitors /\ IpBlock_covers block c = true /\ is_single_address c = false
     /\ (p = half_low c \/ p = half_high c))
  \/ ((block ∉ competitors) /\ p = block).
Proof.
  unfold split_against. rewrite btree_blocks_elem, elem_of_app, list_elem_of_bind.
  assert (E1 : (exists c, p ∈ match route_halves c with Some (low, high) => [low; high] | None => [] end
                 /\ c ∈ List.filter (IpBlock_covers block) competitors)
    <-> exists c, c ∈ competitors /\ IpBlock_covers block c = true /\ is_single_address c = false
          /\ (p = half_low c \/ p = half_high c)).
  { split.
    - intros (c & Hp & [Hin Hcov]%filter_elem). exists c. split; [done|]. split; [done|].
      destruct (is_single_address c) eqn:Hs.
      + unfold route_halves in Hp. rewrite Hs in Hp. by apply not_elem_of_nil in Hp.
      + rewrite (proj2 (halves_eq c (Hc c Hin) Hs)) in Hp. split; [done|].
        apply elem_of_cons in Hp as [->|Hp]; [auto|]. apply list_elem_of_singleton in Hp as ->. auto.
    - intros (c & Hin & Hcov & Hs & Hp). exists c. rewrite (proj2 (halves_eq c (Hc c Hin) Hs)).
      split; [destruct Hp as [-> | ->]; [left|right; left]|]. by apply filter_elem. }
  assert (E2 : p ∈ (if negb (existsb (fun c => bool_decide (c = block)) (List.filter (IpBlock_covers block) competitors))
                    then [block] else []) <-> (block ∉ competitors) /\ p = block).
  { destruct (existsb _ _) eqn:E; cbn [negb].
    - split; [by intros ?%not_elem_of_nil|]. intros [Hn _]. apply existsb_elem in E as (c & [Hin _]%filter_elem & ->%bool_decide_eq_true).
      done.
    - rewrite list_elem_of_singleton. split; [|naive_solver]. intros ->. split; [|done]. intros Hin.
      apply not_true_iff_false in E. apply E, existsb_elem. exists block. split; [|by apply bool_decide_eq_true].
      apply filter_elem. split; [done|by apply covers_self]. }
  by rewrite E1, E2.
Qed.

(** Nothing outside the block is routed, and no piece is wider. *)
Lemma split_against_inside p : p ∈ split_against block competitors ->
  block_wf p /\ prefix_len block <= prefix_len p /\ IpBlock_covers block p = true.
Proof.
  intros [(c & Hin & Hcov & Hs & Hp)|[_ ->]]%split_against_elem.
  - pose proof (Hc c Hin) as Hw. destruct (halves_wf c Hw Hs) as [Hl Hh].
    assert (Hpw : block_wf p) by (destruct Hp; by subst p). split; [done|].
    split; [apply andb_true_iff in Hcov as [?%Z.leb_le _]; destruct Hp; subst p; cbn; lia|].
    apply IpBlock_covers_spec; [done..|]. intros a Ha Hpa. apply (covers_in block c a Hb Hw Ha Hcov).
    apply (in_halves c Hw Hs). destruct Hp; subst p; auto.
  - split; [done|]. split; [lia|by apply covers_self].
Qed.

Lemma split_against_wins a : ip_wf a -> in_block block a ->
  (forall c, c ∈ competitors -> in_block c a -> is_single_address c = false) ->
  exists p, p ∈ split_against block competitors /\ in_block p a
  /\ forall c, c ∈ competitors -> in_block c a -> prefix_len c < prefix_len p.
Proof.
  intros Ha Hba Hhost.
  assert (Hhalf : forall c, c ∈ competitors -> in_block c a -> IpBlock_covers block c = true ->
    exists p, p ∈ split_against block competitors /\ in_block p a /\ prefix_len p = prefix_len c + 1).
  { intros c Hin Hca Hcov. pose proof (Hhost c Hin Hca) as Hs.
    assert (Hp : forall p, p = half_low c \/ p = half_high c -> p ∈ split_against block competitors)
      by (intros p Hp; apply split_against_elem; left; by exists c).
    apply (in_halves c (Hc c Hin) Hs) in Hca as [Hca|Hca]; [exists (half_low c)|exists (half_high c)]; auto. }
  destruct (max_elem (fun p => IpBlock_contains p a) prefix_len (split_against block competitors)) as (m & Hm & Hma & Hmax).
  { destruct (decide (block ∈ competitors)) as [Hin|Hn].
    - destruct (Hhalf block Hin Hba (covers_self _ Hb)) as (p & Hp & Hpa & _). exists p. split; [done|].
      apply IpBlock_contains_spec; [|done..]. by apply split_against_inside.
    - exists block. split; [apply split_against_elem; auto|]. by apply IpBlock_contains_spec. }
  destruct (split_against_inside m Hm) as (Hmw & Hml & _).
  exists m. split; [done|]. split; [by apply IpBlock_contains_spec in Hma|]. intros c Hin Hca.
  destruct (IpBlock_covers block c) eqn:Hcov.
  - destruct (Hhalf c Hin Hca Hcov) as (p & Hp & Hpa & Hlen). enough (prefix_len p <= prefix_len m) by lia.
    apply Hmax; [done|]. apply IpBlock_contains_spec; [|done..]. by apply split_against_inside.
  - destruct (nested_or_apart block c Hb (Hc c Hin)) as [H|[H|H]]; [congruence| |by destruct (H a Ha)].
    enough (prefix_len c < prefix_len block) by lia.
    destruct (Z.lt_ge_cases (prefix_len c) (prefix_len block)) as [|Hge]; [done|].
    rewrite (covers_same_length c block Hb H Hge), covers_self in Hcov by done. done.
Qed.

End Split.

(** A network rule's routes win by longest prefix. Against any set of routes of
    the other link, the pieces of a network stay inside it, and every address of
    the network that no single-address route of the other link names is held by a
    piece longer than every competing route that holds it. Cutting one address or
    network out leaves exactly the rest. *)
Theorem split_out_specifies block competitors hole :
  block_wf block -> (forall c, c ∈ competitors -> block_wf c) -> block_wf hole ->
  (forall p, p ∈ split_against block competitors -> block_wf p /\ IpBlock_covers block p = true)
  /\ (forall a, ip_wf a -> in_block block a ->
        (forall c, c ∈ competitors -> in_block c a -> is_single_address c = false) ->
        exists p, p ∈ split_against block competitors /\ in_block p a
        /\ forall c, c ∈ competitors -> in_block c a -> prefix_len c < prefix_len p)
  /\ (forall a, ip_wf a -> (exists p, p ∈ without block hole /\ in_block p a) <-> in_block block a /\ ~ in_block hole a)
  /\ (forall p, p ∈ without block hole -> block_wf p /\ IpBlock_covers block p = true).
Proof.
  intros Hb Hc Hh. split_and!.
  - intros p Hp. destruct (split_against_inside block competitors Hb Hc p Hp) as (? & _ & ?). done.
  - by apply split_against_wins.
  - intros a Ha. by apply without_spec.
  - intros p Hp. destruct (without_wf block hole p Hb Hp) as (? & _ & ?). done.
Qed.

(** A network of the main link inside the catch-alls of a tunnel. *)
Lemma split_out_specifies_witness :
  split_against (mkIpBlock (ipv4 10 0 0 0) 8) [mkIpBlock (ipv4 0 0 0 0) 1; mkIpBlock (ipv4 10 0 0 0) 8; mkIpBlock (ipv4 10 1 0 0) 16]
  = [mkIpBlock (ipv4 10 0 0 0) 9; mkIpBlock (ipv4 10 1 0 0) 17; mkIpBlock (ipv4 10 1 128 0) 17; mkIpBlock (ipv4 10 128 0 0) 9]
  /\ exists p, p ∈ split_against (mkIpBlock (ipv4 10 0 0 0) 8)
        [mkIpBlock (ipv4 0 0 0 0) 1; mkIpBlock (ipv4 10 0 0 0) 8; mkIpBlock (ipv4 10 1 0 0) 16]
     /\ in_block p (ipv4 10 1 2 3)
     /\ forall c, c ∈ [mkIpBlock (ipv4 0 0 0 0) 1; mkIpBlock (ipv4 10 0 0 0) 8; mkIpBlock (ipv4 10 1 0 0) 16] ->
          in_block c (ipv4 10 1 2 3) -> prefix_len c < prefix_len p.
Proof.
  split; [by vm_compute|].
  assert (Hw : forall c, c ∈ [mkIpBlock (ipv4 0 0 0 0) 1; mkIpBlock (ipv4 10 0 0 0) 8; mkIpBlock (ipv4 10 1 0 0) 16] ->
    block_wf c /\ is_single_address c = false).
  { intros c [-> | [-> | ->%list_elem_of_singleton]%elem_of_cons]%elem_of_cons; repeat split; by vm_compute. }
  apply (split_out_specifies (mkIpBlock (ipv4 10 0 0 0) 8) _ (mkIpBlock (ipv4 10 1 2 3) 32)).
  - repeat split; by vm_compute.
  - intros c Hc. by apply Hw.
  - repeat split; by vm_compute.
  - split; by vm_compute.
  - repeat split; by vm_compute.
  - intros c Hc _. by apply Hw.
Defined.

(** A network with two narrower rules inside. *)
Lemma carve_exact_witness :
  carve (mkIpBlock (ipv4 10 0 0 0) 8) [mkIpBlock (ipv4 10 128 0 0) 9; mkIpBlock (ipv4 10 0 0 1) 32] [] 256
  = (take 257 ([] ++ carved 24 (mkIpBlock (ipv4 10 0 0 0) 8) [mkIpBlock (ipv4 10 128 0 0) 9; mkIpBlock (ipv4 10 0 0 1) 32]), true)
  /\ exists pieces, cut (mkIpBlock (ipv4 10 0 0 0) 8) [mkIpBlock (ipv4 10 128 0 0) 9; mkIpBlock (ipv4 10 0 0 1) 32] pieces
     /\ carve (mkIpBlock (ipv4 10 0 0 0) 8) [mkIpBlock (ipv4 10 128 0 0) 9; mkIpBlock (ipv4 10 0 0 1) 32] [] 256
        = (take 257 ([] ++ pieces), (length ([] ++ pieces) <=? 256)%nat).
Proof.
  split; [by vm_compute|]. apply carve_exact.
  - repeat split; by vm_compute.
  - intros h [-> | ->%list_elem_of_singleton]%elem_of_cons; repeat split; by vm_compute.
  - cbn. lia.
Defined.
