(* ===== verification/Carving.v ===== *)
(** * What the filter of a network rule covers

    service-runtime/src/enforcement_planner/networks.rs: the narrower claims of
    the two links, the holes they make in the network of a rule, and the pieces
    its filters carry. *)

From stdpp Require Import base numbers list gmap sorting.
From S2P Require Import Prelude Str Digits IpAddr IpBlock BlockSplit AppPath AppIdentity AutoRule HostMatch Canonical.
From S2P Require Import NetPolicy Normalize Matching NetClaims HostCache PublicZone AddressOwner AddressContest.

Open Scope Z_scope.

(** The slots of one rule, platform/api/src/enforcement.rs. *)
Definition SLOTS_PER_RULE : Z := 256.
Definition NETWORK_PIECE_CAP : nat := Z.to_nat SLOTS_PER_RULE.

Record NetworkCarving := mkCarving {
  main_addresses : gset IpAddr;
  additional_addresses : gset IpAddr;
  main_networks : list IpBlock;
  additional_networks : list IpBlock;
}.

Definition carving_default : NetworkCarving := mkCarving ∅ ∅ [] [].

Record NetworkPieces := mkPieces { np_pieces : list IpBlock; np_over_cap : option nat }.

(** ** Claims *)

(** [route_networks] of the planner: plain routes only. *)
Definition planned_networks (set : CanonicalRuleSet) (shapes : RuleShapeSupport) : list IpBlock :=
  concat (omap (fun r => r_address_match r ≫= ip_blocks)
    (List.filter (fun r => is_supported (rule_verdict r shapes))
      (List.filter (fun r => r_enabled r && bool_decide (r_action r = Route) && bool_decide (r_app_match r = None)) set))).

Definition has_network_block (book : CanonicalRuleBook) (shapes : RuleShapeSupport) : bool :=
  existsb (fun r => r_enabled r && bool_decide (r_action r = Block)
                    && bool_decide (is_Some (r_address_match r ≫= ip_blocks))
                    && is_supported (rule_verdict r shapes)) (primary book ++ secondary book).

(** A shared address the policy kept off the additional link. *)
Definition declined (denylist : gset Z) (ip : IpAddr) : bool :=
  match ip with V4 v4 => bool_decide (v4 ∈ denylist) | V6 _ => false end.

Section Index.
Context {C : Type} `{!FqdnCacheLookup C} (cache : C).

(** The addresses one rule names ahead of any network. *)
Definition beating_rule (order : ZoneVsIpOrder) (shapes : RuleShapeSupport) (rule : CanonicalRule) : list IpAddr :=
  let hosts names := names ≫= fun host => capped_for_host cache host Both in
  if negb (r_enabled rule) || negb (bool_decide (r_action rule = Route)) || bool_decide (is_Some (r_app_match rule))
     || negb (is_supported (rule_verdict rule shapes))
  then []
  else
    match r_address_match rule with
    | Some (ExactIp ip) => [ip]
    | Some (ExactFqdn host) => hosts [host]
    | Some (SuffixDomain suffix) => hosts (hostnames_for_suffix_domain cache suffix SUFFIX_FANOUT_BACKSTOP)
    | Some (Zone zone) =>
        if bool_decide (order = ZoneFirst) || zone_ranks_as_suffix zone
        then hosts (hostnames_under_suffix cache zone SUFFIX_FANOUT_BACKSTOP) else []
    | _ => []
    end.

Definition network_beating_claims (set : CanonicalRuleSet) (order : ZoneVsIpOrder) (shapes : RuleShapeSupport) : gset IpAddr :=
  list_to_set (set ≫= beating_rule order shapes).

Definition index (book : CanonicalRuleBook) (ownership : AddressOwnership) (order : ZoneVsIpOrder)
  (shapes : RuleShapeSupport) (secondary_ip_denylist : gset Z) : NetworkCarving :=
  let main_networks := planned_networks (primary book) shapes in
  let additional_networks := planned_networks (secondary book) shapes in
  let any_network :=
    negb (bool_decide (main_networks = [])) || negb (bool_decide (additional_networks = []))
    || has_network_block book shapes in
  if negb any_network then carving_default
  else
    {| main_addresses :=
         filter (fun ip => owner_of ownership ip = Some Main) (network_beating_claims (primary book) order shapes);
       additional_addresses :=
         filter (fun ip => owner_of ownership ip = Some Additional /\ declined secondary_ip_denylist ip = false)
           (network_beating_claims (secondary book) order shapes);
       main_networks := main_networks;
       additional_networks := additional_networks |}.

End Index.

(** ** Holes and pieces *)

Definition host_prefix (ip : IpAddr) : Z := if is_ipv4 ip then 32 else 128.

(** [BTreeSet::range] over a block, each address as a block of its own. *)
Definition take_addresses (block : IpBlock) (set : gset IpAddr) : list IpBlock :=
  omap (fun ip => IpBlock_new ip (host_prefix ip))
    (List.filter (fun ip => ip_le (network block) ip && ip_le ip (IpBlock_last block)) (sort_by ip_cmp (elements set))).

Definition narrower (block : IpBlock) (tie_carves : bool) (other : IpBlock) : bool :=
  IpBlock_covers block other
  && ((prefix_len block <? prefix_len other) || tie_carves && bool_decide (other = block)).

Definition holes (c : NetworkCarving) (block : IpBlock) (link : Link) (action : RuleAction) : list IpBlock :=
  match action, link with
  | Block, _ => take_addresses block (main_addresses c) ++ take_addresses block (additional_addresses c)
                ++ List.filter (narrower block false) (main_networks c ++ additional_networks c)
  | _, Main => take_addresses block (additional_addresses c) ++ List.filter (narrower block false) (additional_networks c)
  | _, Additional => take_addresses block (main_addresses c) ++ List.filter (narrower block true) (main_networks c)
  end.

Fixpoint pieces_loop (c : NetworkCarving) (link : Link) (action : RuleAction) (blocks pieces : list IpBlock) : NetworkPieces :=
  match blocks with
  | [] => mkPieces pieces None
  | block :: rest =>
      let '(pieces, ok) := carve block (holes c block link action) pieces NETWORK_PIECE_CAP in
      if ok then pieces_loop c link action rest pieces else mkPieces [] (Some (length pieces))
  end.

Definition pieces (c : NetworkCarving) (blocks : list IpBlock) (link : Link) (action : RuleAction)
  (families : FamilyScope) : NetworkPieces :=
  pieces_loop c link action (List.filter (fun b => admits families (network b)) blocks) [].

(** ** Holes *)

Lemma host_block ip : ip_wf ip ->
  exists h, IpBlock_new ip (host_prefix ip) = Some h /\ block_wf h /\ forall a, in_block h a <-> a = ip.
Proof.
  intros Hw. change (host_prefix ip) with (family_bits ip).
  assert (Hb : 0 <= family_bits ip) by (destruct (family_bits_width ip); lia).
  exists (mkIpBlock ip (family_bits ip)). rewrite IpBlock_new_id; [|done|lia|by rewrite Z.sub_diag, Z.mod_1_r].
  split; [done|]. split; [split; [done|]; cbn; split; [lia|by rewrite Z.sub_diag, Z.mod_1_r]|].
  intros a. unfold in_block, block_size. cbn [network prefix_len]. rewrite Z.sub_diag, Z.pow_0_r. split.
  - intros [H1 H2]. apply ip_ext; [done|lia].
  - intros ->. split; [done|lia].
Qed.

Lemma in_span b a : block_wf b -> in_block b a <-> ip_le (network b) a && ip_le a (IpBlock_last b) = true.
Proof.
  intros Hb. destruct (IpBlock_last_bits b Hb) as [L4 Lt]. unfold in_block, ip_le, ip_cmp. rewrite andb_true_iff.
  destruct (network b) as [n|n], (IpBlock_last b) as [l|l], a as [x|x]; cbn in *; try done;
    try (split; [intros [? ?]; done|intros [? ?]; done]).
  all: destruct (Z.compare_spec n x), (Z.compare_spec x l); split; intros [? ?]; split; done || lia.
Qed.

Lemma take_addresses_spec block set : block_wf block -> (forall ip, ip ∈ set -> ip_wf ip) ->
  (forall h, h ∈ take_addresses block set -> block_wf h)
  /\ forall a, (exists h, h ∈ take_addresses block set /\ in_block h a) <-> a ∈ set /\ in_block block a.
Proof.
  intros Hb Hset. unfold take_addresses. setoid_rewrite list_elem_of_omap. setoid_rewrite filter_elem.
  setoid_rewrite sort_by_elem_of. setoid_rewrite elem_of_elements. setoid_rewrite <- (fun a => in_span block a Hb).
  split.
  - intros h (ip & [Hip _] & E). destruct (host_block ip (Hset ip Hip)) as (h' & E' & Hw & _). congruence.
  - intros a. split.
    + intros (h & (ip & [Hip Hi] & E) & Ha). destruct (host_block ip (Hset ip Hip)) as (h' & E' & _ & Hh).
      assert (h = h') as -> by congruence. apply Hh in Ha as ->. done.
    + intros [Ha Hi]. destruct (host_block a (Hset a Ha)) as (h & E & _ & Hh). exists h. split; [|by apply Hh].
      exists a. done.
Qed.

(** The carving holds well-formed addresses and networks. *)
Definition carving_ok (c : NetworkCarving) : Prop :=
  (forall ip, ip ∈ main_addresses c \/ ip ∈ additional_addresses c -> ip_wf ip)
  /\ (forall n, n ∈ main_networks c \/ n ∈ additional_networks c -> block_wf n).

(** What a narrower claim of the other side holds of a block. *)
Definition addresses_of (c : NetworkCarving) (link : Link) : gset IpAddr :=
  match link with Main => main_addresses c | Additional => additional_addresses c end.
Definition nets_of (c : NetworkCarving) (link : Link) : list IpBlock :=
  match link with Main => main_networks c | Additional => additional_networks c end.

Definition held_by (c : NetworkCarving) (block : IpBlock) (other : Link) (tie : bool) (a : IpAddr) : Prop :=
  a ∈ addresses_of c other
  \/ exists n, n ∈ nets_of c other /\ in_block n a /\ (prefix_len block < prefix_len n \/ tie = true /\ n = block).

Definition held (c : NetworkCarving) (block : IpBlock) (link : Link) (action : RuleAction) (a : IpAddr) : Prop :=
  match action, link with
  | Block, _ => held_by c block Main false a \/ held_by c block Additional false a
  | _, Main => held_by c block Additional false a
  | _, Additional => held_by c block Main true a
  end.

Section Holes.
Context (c : NetworkCarving) (Hc : carving_ok c) (block : IpBlock) (Hb : block_wf block).

Lemma addresses_wf link ip : ip ∈ addresses_of c link -> ip_wf ip.
Proof. intros H. apply Hc. destruct link; auto. Qed.

Lemma nets_wf link n : n ∈ nets_of c link -> block_wf n.
Proof. intros H. apply Hc. destruct link; auto. Qed.

Lemma narrower_spec link tie a : ip_wf a -> in_block block a ->
  (exists n, n ∈ List.filter (narrower block tie) (nets_of c link) /\ in_block n a)
  <-> exists n, n ∈ nets_of c link /\ in_block n a /\ (prefix_len block < prefix_len n \/ tie = true /\ n = block).
Proof.
  intros Ha Hi. setoid_rewrite filter_elem. unfold narrower. split.
  - intros (n & [Hn [_ Hor]%andb_true_iff] & Hna). exists n. split; [done|]. split; [done|].
    apply orb_true_iff in Hor as [?%Z.ltb_lt|[? ?%bool_decide_eq_true]%andb_true_iff]; auto.
  - intros (n & Hn & Hna & Hor). exists n. split; [|done]. split; [done|].
    destruct Hor as [Hl|[-> ->]]; [|rewrite covers_self, bool_decide_eq_true_2 by done; by rewrite orb_true_r].
    rewrite (proj2 (Z.ltb_lt _ _) Hl), andb_true_r.
    destruct (nested_or_apart block n Hb (nets_wf link n Hn)) as [H|[H|H]]; [done| |by destruct (H a Ha)].
    apply andb_true_iff in H as [?%Z.leb_le _]. lia.
Qed.

Lemma side_holes link tie :
  (forall h, h ∈ take_addresses block (addresses_of c link) ++ List.filter (narrower block tie) (nets_of c link) -> block_wf h)
  /\ forall a, ip_wf a -> in_block block a ->
     (exists h, h ∈ take_addresses block (addresses_of c link) ++ List.filter (narrower block tie) (nets_of c link) /\ in_block h a)
     <-> held_by c block link tie a.
Proof.
  destruct (take_addresses_spec block (addresses_of c link) Hb (addresses_wf link)) as [Hw Hs]. split.
  - intros h [H|[H _]%filter_elem]%elem_of_app; [auto|by apply (nets_wf link)].
  - intros a Ha Hi. rewrite exists_elem_app, Hs, narrower_spec by done. unfold held_by. tauto.
Qed.

Lemma holes_spec link action :
  (forall h, h ∈ holes c block link action -> block_wf h)
  /\ forall a, ip_wf a -> in_block block a ->
     (exists h, h ∈ holes c block link action /\ in_block h a) <-> held c block link action a.
Proof.
  assert (Hblock : forall h,
    h ∈ take_addresses block (main_addresses c) ++ take_addresses block (additional_addresses c)
        ++ List.filter (narrower block false) (main_networks c ++ additional_networks c)
    <-> h ∈ take_addresses block (addresses_of c Main) ++ List.filter (narrower block false) (nets_of c Main)
        \/ h ∈ take_addresses block (addresses_of c Additional) ++ List.filter (narrower block false) (nets_of c Additional)).
  { intros h. rewrite !elem_of_app, !filter_elem, elem_of_app. cbn [addresses_of nets_of]. tauto. }
  pose proof (side_holes Main) as HM. pose proof (side_holes Additional) as HA.
  destruct action, link; cbn [holes held]; try apply (HM true); try apply (HA false).
  all: destruct (HM false) as [HM1 HM2], (HA false) as [HA1 HA2]; split; [intros h [H|H]%Hblock; auto|].
  all: intros a Ha Hi; rewrite <- (HM2 a Ha Hi), <- (HA2 a Ha Hi); setoid_rewrite Hblock; clear; naive_solver.
Qed.

End Holes.

(** ** Pieces *)

Section Pieces.
Context (c : NetworkCarving) (Hc : carving_ok c) (link : Link) (action : RuleAction).

(** The addresses of some blocks the rule keeps. *)
Definition kept (blocks : list IpBlock) (a : IpAddr) : Prop :=
  exists b, b ∈ blocks /\ in_block b a /\ ~ held c b link action a.

Lemma pieces_loop_spec : forall blocks acc,
  (forall b, b ∈ blocks -> block_wf b) -> (length acc <= NETWORK_PIECE_CAP)%nat ->
  let out := pieces_loop c link action blocks acc in
  match np_over_cap out with
  | None => exists more, np_pieces out = acc ++ more /\ (length (np_pieces out) <= NETWORK_PIECE_CAP)%nat
      /\ (forall p, p ∈ more -> block_wf p /\ exists b, b ∈ blocks /\ IpBlock_covers b p = true)
      /\ forall a, ip_wf a -> (exists p, p ∈ more /\ in_block p a) <-> kept blocks a
  | Some n => np_pieces out = [] /\ n = S NETWORK_PIECE_CAP
  end.
Proof.
  induction blocks as [|b blocks IH]; intros acc Hw Hl; cbn [pieces_loop].
  - cbn [np_over_cap np_pieces]. exists []. rewrite app_nil_r. split; [done|]. split; [done|].
    split; [by intros p ?%not_elem_of_nil|]. intros a _. unfold kept. split; intros (x & ?%not_elem_of_nil & _); done.
  - destruct (holes_spec c Hc b (Hw b (list_elem_of_here _ _)) link action) as [Hhw Hheld].
    pose proof (carved_cut (host_bits b) b (holes c b link action) (Hw b (list_elem_of_here _ _)) Hhw eq_refl) as Hcut.
    unfold carve. rewrite carve_loop_carved by done. set (P := carved _ _ _) in *.
    destruct (Nat.leb_spec (length (acc ++ P)) NETWORK_PIECE_CAP) as [Hle|Hgt].
    + rewrite take_ge by lia. assert (Hw' : forall x, x ∈ blocks -> block_wf x) by (intros x Hx; apply Hw; by right).
      specialize (IH (acc ++ P) Hw' Hle). cbn zeta in IH.
      destruct (np_over_cap (pieces_loop c link action blocks (acc ++ P))); [done|].
      destruct IH as (more & E & Hlen & Hp & Hex). exists (P ++ more). rewrite app_assoc. split; [done|]. split; [done|].
      split.
      * intros p [Hin|Hin]%elem_of_app; [destruct (cut_wf _ _ _ Hcut p Hin); split; [done|exists b; split; [left|done]]|].
        destruct (Hp p Hin) as (? & x & ? & ?). split; [done|]. exists x. split; [by right|done].
      * intros a Ha. rewrite exists_elem_app, (Hex a Ha), (cut_exact _ _ _ Hcut a Ha). unfold kept.
        rewrite exists_elem_cons. f_equiv. split; intros [Hi Hn]; (split; [done|]).
        -- intros Hx. apply (Hheld a Ha Hi) in Hx as (h & ? & ?). by apply (Hn h).
        -- intros h Hh Hha. apply Hn, (Hheld a Ha Hi). eauto.
    + cbn [np_over_cap np_pieces]. split; [done|]. rewrite length_take. lia.
Qed.

End Pieces.

(** ** Filters and the arbiter *)

(** The other link. *)
Definition other (link : Link) : Link := match link with Main => Additional | Additional => Main end.
Definition link_role (link : Link) : RouteRole := match link with Main => Primary | Additional => Secondary end.

(** A name the engine evaluates ahead of every network. *)
Definition strong (order : ZoneVsIpOrder) (c : NameClaim) : Prop := order = ZoneFirst \/ is_zone_claim c = false.

(** Whom an address goes to against a network of the other link: whom it names
    ahead of networks, or whoever has the narrowest network. *)
Lemma owner_at_source order lm la cm ca nw link :
  owner_at order lm la cm ca nw = Some link ->
  match link with Main => lm = true | Additional => la = true end
  \/ (exists c, match link with Main => cm | Additional => ca end = Some c /\ strong order c)
  \/ nw <> Some (other link).
Proof.
  assert (E1 : bool_decide (ExactIpFirst = ExactIpFirst) = true) by done.
  assert (E5 : bool_decide (ZoneFirst = ExactIpFirst) = false) by done.
  assert (E6 : bool_decide (ExactIpFirst = ZoneFirst) = false) by done.
  assert (E2 : bool_decide (Some Main = Some Additional) = false) by done.
  assert (E3 : bool_decide (Some Additional = Some Main) = false) by done.
  assert (E4 : forall l : Link, bool_decide (Some l = Some l) = true) by by intros [].
  intros H. destruct link; cbn [other].
  - destruct lm; [by left|]. right. destruct nw as [[]|]; [by right|left|by right].
    destruct order; [|destruct cm as [d|]; [exists d; split; [done|by left]|]].
    1: destruct cm as [d|]; [destruct (is_zone_claim d) eqn:Ed; [|exists d; split; [done|by right]]|].
    all: unfold owner_at in H; rewrite ?E1, ?E2, ?E3, ?E4, ?E5 in H; cbn [is_some_b zone_b] in H; rewrite ?Ed in H;
      destruct la, (is_some_b ca), (zone_b ca); cbn in H; rewrite ?andb_false_r in H; done.
  - destruct la; [by left|]. right. destruct nw as [[]|]; [left|by right|by right].
    destruct order; [|destruct ca as [d|]; [exists d; split; [done|by left]|]].
    1: destruct ca as [d|]; [destruct d; try (eexists; split; [done|by right])|].
    all: unfold owner_at in H; cbn [is_some_b zone_b is_zone_claim ahead_of_literal] in H;
      rewrite ?E1, ?E2, ?E3, ?E4, ?E5, ?E6 in H; destruct lm, (is_some_b cm), (zone_b cm); cbn in H; rewrite ?andb_false_r in H; done.
Qed.

(** Checked sites are settled before enforcement: no rule is a question. *)
Definition settled_book (book : CanonicalRuleBook) : Prop :=
  forall role rule, rule ∈ set_for book role -> r_action rule <> Verify.

(** Literals and cached addresses fit their families. *)
Definition addresses_ok {C} `{!FqdnCacheLookup C} (book : CanonicalRuleBook) (cache : C) : Prop :=
  (forall role rule ip, rule ∈ set_for book role -> r_address_match rule = Some (ExactIp ip) -> ip_wf ip)
  /\ forall host ip, ip ∈ ips_for_hostname cache host -> ip_wf ip.

Section Ownership.
Context {C O : Type} `{!FqdnCacheLookup C} `{!AppObservationLookup O} (observations : O) (book : CanonicalRuleBook) (cache : C)
  (settings : OwnershipSettings) (support : RuleShapeSupport) (denylist : gset Z).
Hypothesis Hok : networks_ok book.
Hypothesis Hsettled : settled_book book.
Hypothesis Haddr : addresses_ok book cache.

(** The arbiter as the two planners build it, and its part that knows no programs. *)
Let order := os_order settings.
Let o0 := resolve_with_support book cache order support.
Let o := resolve_for observations book cache settings support.
Let c := index cache book o order support denylist.

Lemma address_owner_same ip : address_owner o ip = address_owner o0 ip.
Proof. unfold o, resolve_for, o0. by destruct (os_app_takeover settings). Qed.

Lemma networks_same : ao_networks o = ao_networks o0.
Proof. unfold o, resolve_for, o0. by destruct (os_app_takeover settings). Qed.

Lemma on_host_wf host ip : on_host cache host ip -> ip_wf ip.
Proof.
  unfold on_host, capped_for_host. rewrite elem_of_app, !sort_by_elem_of.
  intros [H|H]; apply elem_of_take in H as (i & H & _); apply list_elem_of_lookup_2, filter_elem in H as [H _]; by apply Haddr in H.
Qed.

Lemma steers_spec rule role : rule ∈ set_for book role ->
  steers rule = true <-> r_enabled rule = true /\ r_action rule = Route /\ r_app_match rule = None.
Proof.
  intros Hin. unfold steers. rewrite !andb_true_iff, negb_true_iff, bool_decide_eq_false, <- eq_None_not_Some.
  pose proof (Hsettled role rule Hin). destruct (r_action rule); cbn; intuition congruence.
Qed.

Lemma planned_networks_eq role net :
  net ∈ planned_networks (set_for book role) support <-> net ∈ route_networks support (set_for book role).
Proof.
  rewrite route_networks_elem. unfold planned_networks. rewrite list_elem_of_In, in_concat. setoid_rewrite <- list_elem_of_In.
  setoid_rewrite list_elem_of_omap. setoid_rewrite filter_elem. setoid_rewrite filter_elem.
  setoid_rewrite andb_true_iff. setoid_rewrite andb_true_iff. setoid_rewrite bool_decide_eq_true. split.
  - intros (bs & (r & ((Hin & (He & Ha) & Hp) & Hs) & Hb) & Hn). exists r, bs. rewrite Ha. auto 10.
  - intros (r & bs & Hin & He & Hp & Ha & Hs & Hb & Hn). exists bs. split; [|done]. exists r.
    pose proof (Hsettled role r Hin). destruct (r_action r); done || auto 10.
Qed.

Lemma beating_rule_elem role rule ip : rule ∈ set_for book role ->
  steers rule = true -> is_supported (rule_verdict rule support) = true ->
  r_address_match rule = Some (ExactIp ip)
  \/ (exists host d, on_host cache host ip /\ claims_host cache (set_for book role) rule host d /\ strong order d) ->
  ip ∈ beating_rule cache order support rule.
Proof.
  intros Hin (He & Hact & Happ)%(steers_spec rule role Hin) Hs Hcl. unfold beating_rule.
  rewrite He, Hact, Happ, Hs, (bool_decide_eq_true_2 (Route = Route)), (bool_decide_eq_false_2 (is_Some None)) by (done || by intros []).
  change (negb true || negb true || false || negb true) with false. cbn iota zeta.
  destruct Hcl as [->|(host & d & Hon & [_ Hc] & Hst)]; [by apply list_elem_of_singleton|].
  destruct (r_address_match rule) as [[h|s| |z| | |]|]; try done.
  - destruct Hc as [-> _]. apply list_elem_of_bind. exists h. split; [done|by apply list_elem_of_singleton].
  - destruct Hc as [Hh _]. apply list_elem_of_bind. eauto.
  - destruct Hc as [Hh ->]. assert (bool_decide (order = ZoneFirst) || zone_ranks_as_suffix z = true) as ->.
    { destruct Hst as [->|Hz]; [done|]. apply orb_true_iff. right. unfold zone_claim in Hz.
      by destruct (zone_ranks_as_suffix z). }
    apply list_elem_of_bind. eauto.
Qed.

Lemma plain_supported rule : r_app_match rule = None -> r_address_match rule ≫= ip_blocks = None ->
  is_supported (rule_verdict rule support) = true.
Proof.
  intros Ha Hb. unfold rule_verdict, shape_of. rewrite Ha, Hb. rewrite (bool_decide_eq_false_2 (is_Some None)) by by intros [].
  by destruct (r_address_match rule).
Qed.

(** Whoever has an address by the address rules names it ahead of networks, or
    the other link has no narrower network. *)
Lemma owner_source link ip : address_owner o ip = Some link ->
  ip ∈ network_beating_claims cache (set_for book (link_role link)) order support
  \/ net_winner (ao_networks o) ip <> Some (other link).
Proof.
  rewrite address_owner_same, networks_same. unfold o0. rewrite address_owner_at. set (mc := name_claims cache support (primary book)).
  set (ac := name_claims cache support (secondary book)).
  destruct (host_pass_ok cache order mc ac) as (_ & Hclaim & _).
  assert (Hname : forall l, name_claims cache support (set_for book (link_role l)) = match l with Main => mc | Additional => ac end)
    by by intros [].
  assert (Hstrong : forall rule, rule ∈ set_for book (link_role link) -> steers rule = true ->
    r_address_match rule = Some (ExactIp ip)
    \/ (exists host d, on_host cache host ip /\ claims_host cache (set_for book (link_role link)) rule host d /\ strong order d) ->
    ip ∈ network_beating_claims cache (set_for book (link_role link)) order support).
  { intros rule Hin Hst Hcl. apply elem_of_list_to_set, list_elem_of_bind. exists rule. split; [|done].
    apply (beating_rule_elem (link_role link)); [done..| |done].
    apply plain_supported; [by apply (steers_spec rule _ Hin) in Hst as (_ & _ & ?)|].
    destruct Hcl as [->|(host & d & _ & [_ Hc] & _)]; [done|]. by destruct (r_address_match rule) as [[]|]. }
  intros H%owner_at_source. destruct H as [Hlit|[(d & Hd & Hst)|H]]; [left|left|by right].
  - assert (Hl : ip ∈ sc_literal (match link with Main => mc | Additional => ac end))
      by (destruct link; by apply bool_decide_eq_true in Hlit).
    rewrite <- Hname in Hl. apply (name_claims_ok cache support) in Hl as (rule & Hin & Hs & Ha). eauto.
  - assert (Hp : pass_claim (host_pass cache order mc ac) link !! ip = Some d) by (by destruct link).
    pose proof (Hclaim link ip) as Hbest. rewrite Hp in Hbest. destruct Hbest as [(host & _ & Hon & Hcar) _].
    assert (Hn : sc_names (match link with Main => mc | Additional => ac end) !! host = Some d).
    { unfold carried, contest in Hcar. destruct (sc_names mc !! host) eqn:Em, (sc_names ac !! host) eqn:Ea;
        try destruct (claim_gt _ _); simplify_eq; done. }
    rewrite <- Hname in Hn. destruct (name_claims_ok cache support (set_for book (link_role link))) as (Hb & _ & _).
    specialize (Hb host). rewrite Hn in Hb. destruct Hb as [(rule & Hin & Hc) _].
    apply (Hstrong rule Hin); [apply Hc|]. right. eauto.
Qed.

Lemma index_fields :
  (exists net link, net ∈ planned_networks (set_for book (link_role link)) support) \/ has_network_block book support = true ->
  (forall link net, net ∈ nets_of c link <-> net ∈ planned_networks (set_for book (link_role link)) support)
  /\ (forall link ip, ip ∈ addresses_of c link <->
        ip ∈ network_beating_claims cache (set_for book (link_role link)) order support
        /\ owner_of o ip = Some link /\ (link = Additional -> declined denylist ip = false)).
Proof.
  intros Hany. unfold c, index.
  assert (negb (bool_decide (planned_networks (primary book) support = []))
    || negb (bool_decide (planned_networks (secondary book) support = [])) || has_network_block book support = true) as ->.
  { apply orb_true_iff. destruct Hany as [(net & link & Hn)|]; [left|by right]. apply orb_true_iff.
    destruct link; [left|right]; apply negb_true_iff, bool_decide_eq_false; intros E; cbn [link_role set_for] in Hn; rewrite E in Hn; by apply not_elem_of_nil in Hn. }
  cbn [negb]. split; intros link x; [by destruct link|]. destruct link; cbn [addresses_of main_addresses additional_addresses];
    rewrite elem_of_filter; cbn [link_role set_for]; naive_solver.
Qed.

Lemma planned_wf link net : net ∈ planned_networks (set_for book (link_role link)) support -> block_wf net.
Proof.
  rewrite planned_networks_eq, route_networks_elem. intros (rule & blocks & Hin & _ & _ & _ & _ & Hb & Hn).
  destruct (rule_blocks_ok book (link_role link) rule blocks Hok Hin Hb) as [Hf _]. rewrite Forall_forall in Hf. by apply Hf.
Qed.

Lemma beating_wf link ip : ip ∈ network_beating_claims cache (set_for book (link_role link)) order support -> ip_wf ip.
Proof.
  intros (rule & Hr & Hin)%elem_of_list_to_set%list_elem_of_bind. unfold beating_rule in Hr.
  destruct (_ || _); [by apply not_elem_of_nil in Hr|].
  assert (Hhosts : forall names, ip ∈ (names ≫= fun host => capped_for_host cache host Both) -> ip_wf ip)
    by (intros names (host & Hh & _)%list_elem_of_bind; by apply (on_host_wf host)).
  destruct (r_address_match rule) as [[h|s| |z|a| |]|] eqn:Ea; try by apply not_elem_of_nil in Hr.
  - by apply Hhosts in Hr.
  - by apply Hhosts in Hr.
  - destruct (_ || _); [by apply Hhosts in Hr|by apply not_elem_of_nil in Hr].
  - apply list_elem_of_singleton in Hr as ->. by apply (proj1 Haddr (link_role link) rule).
Qed.

Lemma index_ok : carving_ok c.
Proof.
  unfold c, index. destruct (negb (_ || _ || _)).
  - split; [intros ip []; set_solver|intros n []; by apply not_elem_of_nil in H].
  - split; cbn [main_addresses additional_addresses main_networks additional_networks].
    + intros ip [[_ H]%elem_of_filter|[_ H]%elem_of_filter]; [by apply (beating_wf Main)|by apply (beating_wf Additional)].
    + intros n [H|H]; [by apply (planned_wf Main)|by apply (planned_wf Additional)].
Qed.

Lemma owner_is_address ip : ao_app_taken o !! ip = None -> owner_of o ip = address_owner o ip.
Proof. unfold owner_of. by intros ->. Qed.

(** The narrowest network of the arbiter, read off the planned ones. *)
Lemma narrowest_spec ip : ip_wf ip ->
  match narrowest (ao_networks o) ip with
  | Some (net, link) =>
      in_block net ip /\ net ∈ planned_networks (set_for book (link_role link)) support
      /\ (link = Additional -> net ∉ planned_networks (primary book) support)
      /\ forall l n, n ∈ planned_networks (set_for book (link_role l)) support -> in_block n ip -> prefix_len n <= prefix_len net
  | None => forall l n, n ∈ planned_networks (set_for book (link_role l)) support -> ~ in_block n ip
  end.
Proof.
  intros Hip. assert (En : ao_networks o = new_claims (route_networks support (primary book)) (route_networks support (secondary book))).
  { rewrite networks_same. unfold o0, resolve_with_support. cbn [ao_networks].
    by rewrite (proj2 (proj2 (name_claims_ok cache support (primary book)))), (proj2 (proj2 (name_claims_ok cache support (secondary book)))). }
  assert (Hw : forall l, Forall block_wf (route_networks support (set_for book (link_role l)))).
  { intros l. apply Forall_forall. intros n Hn. by apply (planned_wf l), planned_networks_eq. }
  assert (Hside : forall l n, n ∈ side (route_networks support (primary book)) (route_networks support (secondary book)) l
    <-> n ∈ planned_networks (set_for book (link_role l)) support)
    by (intros l n; rewrite planned_networks_eq; by destruct l).
  pose proof (net_winner_none _ _ (Hw Main) (Hw Additional) ip Hip) as Hnone. unfold net_winner in Hnone.
  pose proof (fun net claim => longest_wins _ _ (Hw Main) (Hw Additional) ip net claim Hip) as Hwins.
  rewrite En. cbn [link_role set_for] in Hnone, Hwins. unfold narrowest in *.
  destruct (longest _ ip) as [[net claim]|]; cbn in Hnone |- *.
  - destruct (Hwins net claim eq_refl) as (_ & H1 & H2 & H3 & H4). split; [done|]. split; [by apply Hside|]. split.
    + intros E Hin. by apply (H3 E), (planned_networks_eq Primary).
    + intros l n Hn. by apply (H4 l), Hside.
  - intros l n Hn. by apply (proj1 Hnone eq_refl l), Hside.
Qed.

Lemma same_length_same b n a : block_wf b -> block_wf n -> ip_wf a -> in_block b a -> in_block n a ->
  prefix_len b = prefix_len n -> b = n.
Proof.
  intros Hb Hn Ha Hba Hna E. destruct (nested_or_apart b n Hb Hn) as [H|[H|H]].
  - apply covers_same_length; [done..|lia].
  - symmetry. apply covers_same_length; [done..|lia].
  - by destruct (H a Ha).
Qed.

(** A rule that names networks, enforced for all programs. *)
Definition network_rule (link : Link) (action : RuleAction) (blocks : list IpBlock) : Prop :=
  exists rule, rule ∈ set_for book (link_role link) /\ r_enabled rule = true /\ r_action rule = action
  /\ r_app_match rule = None /\ is_supported (rule_verdict rule support) = true
  /\ r_address_match rule ≫= ip_blocks = Some blocks.

Lemma network_rule_wf link action blocks b : network_rule link action blocks -> b ∈ blocks -> block_wf b.
Proof.
  intros (rule & Hin & _ & _ & _ & _ & Hb) Hbl. destruct (rule_blocks_ok book (link_role link) rule blocks Hok Hin Hb) as [Hf _].
  rewrite Forall_forall in Hf. by apply Hf.
Qed.

Lemma network_rule_planned link blocks b : network_rule link Route blocks -> b ∈ blocks ->
  b ∈ planned_networks (set_for book (link_role link)) support.
Proof.
  intros (rule & Hin & He & Ha & Hp & Hs & Hb) Hbl. apply planned_networks_eq, route_networks_elem.
  exists rule, blocks. rewrite Ha. done.
Qed.

Lemma any_network link action blocks : network_rule link action blocks -> blocks <> [] ->
  action = Route \/ action = Block ->
  (exists net l, net ∈ planned_networks (set_for book (link_role l)) support) \/ has_network_block book support = true.
Proof.
  intros Hr Hne [-> | ->].
  - left. destruct blocks as [|b bs]; [done|]. exists b, link. apply (network_rule_planned link (b :: bs)); [done|left].
  - right. destruct Hr as (rule & Hin & He & Ha & Hp & Hs & Hb). apply existsb_elem. exists rule.
    split; [apply elem_of_app; destruct link; auto|]. rewrite He, Ha, Hs, Hb.
    rewrite !bool_decide_eq_true_2 by (done || by eexists). done.
Qed.

(** What the filters of a rule cover, when they are not over the cap. *)
Lemma covered_kept link action blocks families a : network_rule link action blocks -> ip_wf a ->
  let filters := pieces c blocks link action families in
  ((exists p, p ∈ np_pieces filters /\ in_block p a) ->
     exists b, b ∈ blocks /\ in_block b a /\ ~ held c b link action a)
  /\ (np_over_cap filters = None -> admits families a = true ->
      (exists b, b ∈ blocks /\ in_block b a /\ ~ held c b link action a) ->
      exists p, p ∈ np_pieces filters /\ in_block p a).
Proof.
  intros Hr Ha. cbn zeta. unfold pieces.
  set (bs := List.filter (fun b => admits families (network b)) blocks).
  assert (Hbs : forall b, b ∈ bs <-> b ∈ blocks /\ admits families (network b) = true) by (intros b; unfold bs; by rewrite filter_elem).
  assert (Hw : forall b, b ∈ bs -> block_wf b) by (intros b [H _]%Hbs; by apply (network_rule_wf link action blocks)).
  pose proof (pieces_loop_spec c index_ok link action bs [] Hw (Nat.le_0_l _)) as H. cbn zeta in H.
  destruct (np_over_cap (pieces_loop c link action bs [])).
  - destruct H as [-> _]. split; [by intros (p & ?%not_elem_of_nil & _)|done].
  - destruct H as (more & -> & _ & _ & Hex). cbn [app]. rewrite (Hex a Ha). unfold kept. split.
    + intros (b & [Hb _]%Hbs & H). eauto.
    + intros _ Hf (b & Hb & Hi & Hn). exists b. split; [|done]. apply Hbs. split; [done|].
      destruct Hi as [H4 _]. unfold admits in *. by destruct families, a, (network b).
Qed.

(** C6. The filters of a network rule follow the arbiter, as the planners build it with the
    programs that take addresses over. In a book with no question left to settle, with
    canonical networks and with literals and cached addresses that fit their families: the
    filters that carry the networks of a route rule of one link cover no address the
    arbiter gives to the other link, with two exceptions: an address a program takes
    over, and, for the filters of the main link, a shared address the policy keeps off
    the additional link. And where the arbiter gives an address to a link whose network
    is the narrowest that holds it, the filters of every rule of the link that names that
    network cover it in the families of the pass, unless the rule needs more pieces than
    it has slots and is reported. *)
Theorem network_filters_follow_owner link blocks families a :
  network_rule link Route blocks -> ip_wf a ->
  let filters := pieces c blocks link Route families in
  ((exists p, p ∈ np_pieces filters /\ in_block p a) -> ao_app_taken o !! a = None -> declined denylist a = false \/ link = Additional ->
     owner_of o a <> Some (other link))
  /\ (forall net, narrowest (ao_networks o) a = Some (net, link) -> net ∈ blocks -> owner_of o a = Some link ->
       admits families a = true -> np_over_cap filters = None ->
       exists p, p ∈ np_pieces filters /\ in_block p a).
Proof.
  intros Hr Ha. destruct (covered_kept link Route blocks families a Hr Ha) as [Hcov Hfill]. cbn zeta in *. split.
  - intros H Htaken Hden Hown. destruct (Hcov H) as (b & Hb & Hi & Hn). apply Hn.
    destruct (index_fields (any_network link Route blocks Hr ltac:(by intros ->; apply not_elem_of_nil in Hb) ltac:(auto))) as [Hnets Haddrs].
    assert (Hheld : held_by c b (other link) (match link with Main => false | Additional => true end) a); [|by destruct link].
    pose proof Hown as Hown'. rewrite owner_is_address in Hown' by done. apply owner_source in Hown' as [Hbeat|Hnw].
    + left. apply Haddrs. split; [done|]. split; [done|]. intros E. destruct Hden as [| ->]; done.
    + right. pose proof (network_rule_planned link blocks b Hr Hb) as Hpl. pose proof (narrowest_spec a Ha) as Hnar.
      unfold net_winner in Hnw. destruct (narrowest (ao_networks o) a) as [[net l]|]; [|by destruct (Hnar link b)].
      destruct Hnar as (Hna & Hnp & Hnm & Hlong). assert (El : l = other link) by (destruct l, link; done || by destruct Hnw). subst l.
      exists net. split; [by apply Hnets|]. split; [done|]. specialize (Hlong link b Hpl Hi).
      destruct (Z.eq_dec (prefix_len b) (prefix_len net)) as [E|]; [right|left; lia].
      assert (Eb : b = net) by (eapply same_length_same; eauto using planned_wf). subst net.
      destruct link; [by destruct (Hnm eq_refl)|done].
  - intros net Hnar Hnet Hown Hfam Hcap. apply Hfill; [done..|]. exists net. split; [done|].
    pose proof (narrowest_spec a Ha) as Hspec. rewrite Hnar in Hspec. destruct Hspec as (Hna & Hnp & Hnm & Hlong). split; [done|].
    destruct (index_fields (any_network link Route blocks Hr ltac:(by intros ->; apply not_elem_of_nil in Hnet) ltac:(auto))) as [Hnets Haddrs].
    assert (Hno : ~ held_by c net (other link) (match link with Main => false | Additional => true end) a); [|by destruct link].
    intros [(_ & Ho & _)%Haddrs|(n & Hn%Hnets & Hna' & Hor)]; [rewrite Hown in Ho; by destruct link|].
    specialize (Hlong _ n Hn Hna'). destruct Hor as [|[Et ->]]; [lia|]. destruct link; [done|]. by destruct (Hnm eq_refl).
Qed.

(** Filters of network rules never contradict each other. In a settled book with
    canonical networks no address is covered both by the filters of a route network
    of the main link and by those of one of the additional link; and the filters
    of a blocked network cover no address that a longer route network of either link
    holds, and none that a literal, host or suffix rule names and gets. *)
Theorem network_filters_apart families main additional blocked link a :
  network_rule Main Route main -> network_rule Additional Route additional -> network_rule link Block blocked -> ip_wf a ->
  let filters l action blocks := np_pieces (pieces c blocks l action families) in
  ~ ((exists p, p ∈ filters Main Route main /\ in_block p a)
     /\ exists p, p ∈ filters Additional Route additional /\ in_block p a)
  /\ ((exists p, p ∈ filters link Block blocked /\ in_block p a) ->
      exists b, b ∈ blocked /\ in_block b a
      /\ (forall l n, n ∈ planned_networks (set_for book (link_role l)) support -> in_block n a -> prefix_len n <= prefix_len b)
      /\ (forall l, a ∈ network_beating_claims cache (set_for book (link_role l)) order support -> declined denylist a = false ->
           owner_of o a <> Some l)).
Proof.
  intros HM HA HB Ha. cbn zeta. split.
  - intros [H1 H2]. destruct (proj1 (covered_kept _ _ _ families a HM Ha) H1) as (b & Hb & Hib & Hnb).
    destruct (proj1 (covered_kept _ _ _ families a HA Ha) H2) as (n & Hn & Hin & Hnn).
    destruct (index_fields (any_network Main Route main HM ltac:(by intros ->; apply not_elem_of_nil in Hb) ltac:(auto))) as [Hnets _].
    pose proof (network_rule_planned _ _ b HM Hb) as Hpb. pose proof (network_rule_planned _ _ n HA Hn) as Hpn.
    destruct (Z.lt_trichotomy (prefix_len b) (prefix_len n)) as [Hl|[E|Hl]].
    + apply Hnb. right. exists n. split; [by apply Hnets|]. auto.
    + apply Hnn. right. exists b. split; [by apply Hnets|]. split; [done|]. right. split; [done|].
      eapply same_length_same; eauto using planned_wf.
    + apply Hnn. right. exists b. split; [by apply Hnets|]. auto.
  - intros H. destruct (proj1 (covered_kept _ _ _ families a HB Ha) H) as (b & Hb & Hi & Hn).
    destruct (index_fields (any_network link Block blocked HB ltac:(by intros ->; apply not_elem_of_nil in Hb) ltac:(auto))) as [Hnets Haddrs].
    exists b. split; [done|]. split; [done|]. cbn [held] in Hn. split.
    + intros l n Hpn Hna. destruct (Z.le_gt_cases (prefix_len n) (prefix_len b)) as [|Hgt]; [done|]. exfalso. apply Hn.
      destruct l; [left|right]; right; exists n; (split; [by apply Hnets|]); (split; [done|]); left; lia.
    + intros l Hbeat Hden Hown. apply Hn. destruct l; [left|right]; left; by apply Haddrs.
Qed.

End Ownership.

(** ** Examples *)

(** A wide network of the main link, a narrow one of the other, and a block. *)
Definition site_book : CanonicalRuleBook :=
  mkCanonicalRuleBook
    [mkCanonicalRule (u "p1") true (Some (Subnet (mkIpBlock (ipv4 10 0 0 0) 8))) None [] Route None;
     mkCanonicalRule (u "p2") true (Some (Subnet (mkIpBlock (ipv4 10 0 0 0) 7))) None [] Block None]
    [mkCanonicalRule (u "s1") true (Some (Subnet (mkIpBlock (ipv4 10 1 0 0) 16))) None [] Route None].

Definition all_shapes : RuleShapeSupport := mkSupport true true true.

(** A program routed through the additional link, seen using an address of the network. *)
Definition taking_book : CanonicalRuleBook :=
  mkCanonicalRuleBook (primary site_book)
    (mkCanonicalRule (u "s2") true None (Some (mkCanonicalAppMatch (Exact (u "browser")) false false)) [] Route None :: secondary site_book).

Lemma taking_book_ok : networks_ok taking_book /\ settled_book taking_book /\ addresses_ok taking_book snapshot_empty.
Proof.
  assert (Hcases : forall role r, r ∈ set_for taking_book role -> r ∈ primary taking_book ++ secondary taking_book)
    by (intros [] r Hr; apply elem_of_app; [by left|by right]).
  assert (Hall : forall (P : CanonicalRule -> Prop), Forall P (primary taking_book ++ secondary taking_book) -> forall role r, r ∈ set_for taking_book role -> P r)
    by (intros P HP role r Hr%Hcases; by apply (proj1 (Forall_forall _ _) HP)).
  split; [|split].
  - intros role r. revert role r. apply Hall. repeat constructor; by vm_compute.
  - intros role r. revert role r. apply Hall. by repeat constructor.
  - split.
    + intros role r ip Hr. exact (Hall (fun r => r_address_match r = Some (ExactIp ip) -> ip_wf ip) ltac:(by repeat constructor) role r Hr).
    + intros host ip H. cbn in H. rewrite lookup_empty in H. by apply not_elem_of_nil in H.
Qed.

Lemma taking_rule link action blocks rule :
  rule ∈ set_for taking_book (link_role link) -> r_enabled rule = true -> r_action rule = action -> r_app_match rule = None ->
  is_supported (rule_verdict rule all_shapes) = true -> r_address_match rule ≫= ip_blocks = Some blocks ->
  network_rule taking_book all_shapes link action blocks.
Proof. intros. by exists rule. Qed.

#[local] Instance seen_lookup : AppObservationLookup (list (str * Z)) := {
  ips_for_app l name := omap (fun '(n, ip) => if str_eqb n name then Some ip else None) l;
  ips_v6_for_app _ _ := [];
  latest_of _ _ ips n := take n ips;
  destination_used_outside _ _ _ := false;
}.

Definition seen : list (str * Z) := [(u "browser", 0x0A020003)].

Abbreviation taking := (mkSettings ExactIpFirst true).

Lemma network_filters_follow_owner_witness :
  let o := resolve_for seen taking_book snapshot_empty taking all_shapes in
  let c := index snapshot_empty taking_book o ExactIpFirst all_shapes ∅ in
  owner_of o (ipv4 10 2 0 0) <> Some Additional
  /\ np_over_cap (pieces c [mkIpBlock (ipv4 10 0 0 0) 8] Main Route Both) = None.
Proof.
  split; [|by vm_compute]. destruct taking_book_ok as (H1 & H2 & H3).
  apply (network_filters_follow_owner seen taking_book snapshot_empty taking all_shapes ∅ H1 H2 H3 Main
           [mkIpBlock (ipv4 10 0 0 0) 8] Both (ipv4 10 2 0 0)).
  - eapply taking_rule; [left|done..].
  - split; by vm_compute.
  - exists (mkIpBlock (ipv4 10 2 0 0) 15). split; [|repeat split; by vm_compute].
    apply list_elem_of_In. vm_compute. tauto.
  - by vm_compute.
  - left. by vm_compute.
Defined.

(** The first exception is met: the address the program takes over for the additional link
    stays covered by the filters of the main link's network, as the main link's permit
    stays on an address a program took over. *)
Lemma taken_address_stays_covered :
  let o := resolve_for seen taking_book snapshot_empty taking all_shapes in
  let c := index snapshot_empty taking_book o ExactIpFirst all_shapes ∅ in
  owner_of o (ipv4 10 2 0 3) = Some Additional
  /\ exists p, p ∈ np_pieces (pieces c [mkIpBlock (ipv4 10 0 0 0) 8] Main Route Both) /\ in_block p (ipv4 10 2 0 3).
Proof.
  split; [by vm_compute|]. exists (mkIpBlock (ipv4 10 2 0 0) 15). split; [|repeat split; by vm_compute]. apply list_elem_of_In. vm_compute. tauto.
Qed.

Lemma network_filters_apart_witness :
  let o := resolve_for seen taking_book snapshot_empty taking all_shapes in
  let c := index snapshot_empty taking_book o ExactIpFirst all_shapes ∅ in
  ~ ((exists p, p ∈ np_pieces (pieces c [mkIpBlock (ipv4 10 0 0 0) 8] Main Route Both) /\ in_block p (ipv4 10 1 0 1))
     /\ exists p, p ∈ np_pieces (pieces c [mkIpBlock (ipv4 10 1 0 0) 16] Additional Route Both) /\ in_block p (ipv4 10 1 0 1)).
Proof.
  destruct taking_book_ok as (H1 & H2 & H3).
  apply (network_filters_apart seen taking_book snapshot_empty taking all_shapes ∅ H1 H2 H3 Both _ _
           [mkIpBlock (ipv4 10 0 0 0) 7] Main (ipv4 10 1 0 1)).
  - eapply taking_rule; [left|done..].
  - eapply taking_rule; [right; left|done..].
  - eapply taking_rule; [right; left|done..].
  - split; by vm_compute.
Defined.
