(* ===== verification/RouteTable.v ===== *)
(** * The system route table

    Rows of the table (platform/api/src/types.rs), the errors of the platform and
    their classes (platform/api/src/error.rs), the signature our rows are
    recognised by (platform/api/src/route_signature.rs), and transactions with
    their journal of undo steps (platform/api/src/routing.rs). The kernel is a
    parameter: [RouteTablePort] is its interface, [KernelLaws] what a table does that
    knows its rows by key, as the Windows one, and [TableLaws] what any table does, the
    Linux one included. *)

From stdpp Require Import base numbers list countable sets.
From S2P Require Import Prelude Str Digits IpAddr IpBlock IpText NetPolicy.

Open Scope Z_scope.

(** ** Rows *)

Inductive UserPrincipal : Set := Baseline | OsUser (stored : str).

Inductive RouteTableRef : Set := MainTable | Principal (p : UserPrincipal) | Tagged (tag : Z).

#[export] Instance UserPrincipal_eq_dec : EqDecision UserPrincipal.
Proof. solve_decision. Defined.

#[export] Instance RouteTableRef_eq_dec : EqDecision RouteTableRef.
Proof. solve_decision. Defined.

#[export] Instance RouteTableRef_countable : Countable RouteTableRef.
Proof.
  apply (inj_countable'
    (fun t => match t with
              | MainTable => inl tt
              | Principal Baseline => inr (inl None)
              | Principal (OsUser s) => inr (inl (Some s))
              | Tagged n => inr (inr n)
              end)
    (fun s : unit + (option str + Z) =>
       match s with
       | inl _ => MainTable
       | inr (inl None) => Principal Baseline
       | inr (inl (Some s)) => Principal (OsUser s)
       | inr (inr n) => Tagged n
       end)).
  by intros [|[]|].
Defined.

Record RouteEntry : Set := mkRoute {
  destination : IpAddr;
  prefix_length : Z;
  next_hop : IpAddr;
  interface_index : Z;
  metric : Z;
  is_ours : bool;
  table : RouteTableRef;
}.

#[export] Instance RouteEntry_eq_dec : EqDecision RouteEntry.
Proof. solve_decision. Defined.

Definition is_unspecified (ip : IpAddr) : bool := to_bits ip =? 0.

Definition max_prefix_length (r : RouteEntry) : Z := match destination r with V4 _ => 32 | V6 _ => 128 end.

Definition is_host_route (r : RouteEntry) : bool := prefix_length r =? max_prefix_length r.

(** ** Errors *)

Inductive PlatformError : Set :=
| NotYetImplemented (block : str)
| Win32 (operation : str) (code : Z) (message : str)
| AccessDenied (operation : str)
| Transient (operation detail : str)
| StateCorrupted (detail : str)
| NotSupported (reason : str)
| Errno (operation : str) (code : Z) (message : str).

Inductive ErrorClass : Set := Retryable | Fatal | Idempotent | Conflict | PrivilegeRequired.
Inductive MutationIntent : Set := Add | Remove.

#[export] Instance ErrorClass_eq_dec : EqDecision ErrorClass.
Proof. solve_decision. Defined.

Definition ERROR_ACCESS_DENIED : Z := 0x5.
Definition ERROR_NOT_FOUND : Z := 0x490.
Definition ERROR_DUPLICATE_TAG : Z := 0x5DC.
Definition ERROR_OBJECT_ALREADY_EXISTS : Z := 0x1392.
Definition ERROR_TRANSACTION_IN_PROGRESS : Z := 0x1A90.
Definition FWP_E_FILTER_NOT_FOUND : Z := 0x80320003.
Definition FWP_E_ALREADY_EXISTS : Z := 0x80320009.
Definition FWP_E_DYNAMIC_SESSION_IN_PROGRESS : Z := 0x8032000B.
Definition FWP_E_TXN_IN_PROGRESS : Z := 0x8032000E.

Definition unwrap_win32_hresult (code : Z) : Z :=
  if Z.land code 0xFFFF0000 =? 0x80070000 then Z.land code 0x0000FFFF else code.

Definition classify_win32_error (code : Z) : ErrorClass :=
  let code := unwrap_win32_hresult code in
  if (code =? ERROR_NOT_FOUND) || (code =? FWP_E_FILTER_NOT_FOUND) then Idempotent
  else if (code =? ERROR_DUPLICATE_TAG) || (code =? ERROR_OBJECT_ALREADY_EXISTS) || (code =? FWP_E_ALREADY_EXISTS) then Conflict
  else if code =? ERROR_ACCESS_DENIED then PrivilegeRequired
  else if (code =? ERROR_TRANSACTION_IN_PROGRESS) || (code =? FWP_E_TXN_IN_PROGRESS)
          || (code =? FWP_E_DYNAMIC_SESSION_IN_PROGRESS) then Retryable
  else Fatal.

(** The errno values of the target, which the code takes from libc. *)
Class Libc := {
  ENOENT : Z; ESRCH : Z; ENODEV : Z; EEXIST : Z; EPERM : Z; EACCES : Z; EAGAIN : Z; EBUSY : Z; EINTR : Z; ENOBUFS : Z;
}.

Definition classify_errno `{Libc} (code : Z) : ErrorClass :=
  if (code =? ENOENT) || (code =? ESRCH) || (code =? ENODEV) then Idempotent
  else if code =? EEXIST then Conflict
  else if (code =? EPERM) || (code =? EACCES) then PrivilegeRequired
  else if (code =? EAGAIN) || (code =? EBUSY) || (code =? EINTR) || (code =? ENOBUFS) then Retryable
  else Fatal.

Definition classify_for `{Libc} (e : PlatformError) (intent : MutationIntent) : ErrorClass :=
  let class := match e with
               | NotYetImplemented _ => Fatal
               | Win32 _ code _ => classify_win32_error code
               | AccessDenied _ => PrivilegeRequired
               | Transient _ _ => Retryable
               | StateCorrupted _ => Fatal
               | NotSupported _ => Fatal
               | Errno _ code _ => classify_errno code
               end in
  match intent, class with Add, Idempotent => Fatal | _, _ => class end.

Definition classify `{Libc} (e : PlatformError) : ErrorClass := classify_for e Remove.

(** ** Our signature *)

Definition HOST_PREFIX : Z := 32.
Definition HOST_PREFIX_V6 : Z := 128.
Definition SECONDARY_ROUTE_METRIC : Z := 5.
Definition NETWORK_ROUTE_METRIC : Z := 4.
Definition TUNNEL_CATCH_ALL_MAX_PREFIX : Z := 12.

(** [OVERLAY_PREFIXES.contains]. *)
Definition overlay_prefix (prefix_length : Z) : bool :=
  (1 <=? prefix_length) && (prefix_length <=? TUNNEL_CATCH_ALL_MAX_PREFIX + 1).

Definition is_owned_shape (destination : IpAddr) (prefix_length : Z) : bool :=
  match destination with
  | V4 _ => (prefix_length =? HOST_PREFIX) || overlay_prefix prefix_length
  | V6 _ => prefix_length =? HOST_PREFIX_V6
  end.

Definition is_network_shape (destination : IpAddr) (prefix_length : Z) : bool :=
  let max := if is_ipv4 destination then HOST_PREFIX else HOST_PREFIX_V6 in
  (widest_rule_prefix (is_ipv4 destination) <=? prefix_length) && (prefix_length <=? max).

Definition is_owned_route (route : RouteEntry) : bool :=
  bool_decide (table route = MainTable)
  && (if metric route =? SECONDARY_ROUTE_METRIC then is_owned_shape (destination route) (prefix_length route)
      else if metric route =? NETWORK_ROUTE_METRIC then is_network_shape (destination route) (prefix_length route)
      else false).

Definition is_overlay_route (route : RouteEntry) : bool :=
  (metric route =? SECONDARY_ROUTE_METRIC) && bool_decide (table route = MainTable)
  && is_ipv4 (destination route) && overlay_prefix (prefix_length route).

(** ** The kernel *)

Class RouteTablePort (K : Type) := {
  get_ip_forward_table : K -> result (list RouteEntry) PlatformError;
  create_ip_forward_entry : K -> RouteEntry -> K * result unit PlatformError;
  delete_ip_forward_entry : K -> RouteEntry -> K * result unit PlatformError;
}.

(** What makes two rows the same one (route_reconciler.rs): all but metric and mark. *)
Abbreviation RouteKey := (IpAddr * Z * IpAddr * Z * RouteTableRef)%type.

Definition route_key (r : RouteEntry) : RouteKey :=
  (destination r, prefix_length r, next_hop r, interface_index r, table r).

(** ** Transactions *)

Inductive RoutingAction : Set :=
| AddRoute (entry : RouteEntry)
| DeleteRoute (entry : RouteEntry)
| UpdateRoute (old new : RouteEntry).

(** [CompensatingAction]: delete what was added, add what was deleted, or swap back. *)
Inductive CompensatingAction : Set :=
| UndoAdd (entry : RouteEntry)
| UndoDelete (entry : RouteEntry)
| SwapRoute (delete_new restore_old : RouteEntry).

Record RollbackResidue := mkResidue {
  errors : list PlatformError;
  still_added : list RouteEntry;
  still_removed : list RouteEntry;
}.

Definition no_residue : RollbackResidue := mkResidue [] [] [].

Section Transaction.
Context {K : Type} `{!RouteTablePort K} `{!Libc}.

(** One action: the kernel, the journal in forward order, and the outcome. *)
Definition execute_one (k : K) (journal : list CompensatingAction) (action : RoutingAction)
  : K * list CompensatingAction * result unit PlatformError :=
  match action with
  | AddRoute entry =>
      match create_ip_forward_entry k entry with
      | (k, Ok _) => (k, journal ++ [UndoAdd entry], Ok tt)
      | (k, Err e) => (k, journal, if bool_decide (classify_for e Add = Conflict) then Ok tt else Err e)
      end
  | DeleteRoute entry =>
      match delete_ip_forward_entry k entry with
      | (k, Ok _) => (k, journal ++ [UndoDelete entry], Ok tt)
      | (k, Err e) => (k, journal, if bool_decide (classify e = Idempotent) then Ok tt else Err e)
      end
  | UpdateRoute old new =>
      let '(k, deleted) := delete_ip_forward_entry k old in
      match match deleted with Ok _ => None | Err e => if bool_decide (classify e = Idempotent) then None else Some e end with
      | Some e => (k, journal, Err e)
      | None =>
          match create_ip_forward_entry k new with
          | (k, Ok _) => (k, journal ++ [SwapRoute new old], Ok tt)
          | (k, Err e) =>
              if bool_decide (classify_for e Add = Conflict) then (k, journal ++ [SwapRoute new old], Ok tt)
              else (k, journal ++ [UndoDelete old], Err e)
          end
      end
  end.

Fixpoint execute (k : K) (journal : list CompensatingAction) (actions : list RoutingAction)
  : K * list CompensatingAction * result unit PlatformError :=
  match actions with
  | [] => (k, journal, Ok tt)
  | action :: rest =>
      match execute_one k journal action with
      | (k, journal, Ok _) => execute k journal rest
      | (k, journal, Err e) => (k, journal, Err e)
      end
  end.

Definition delete_tolerant (k : K) (entry : RouteEntry) : K * result unit PlatformError :=
  match delete_ip_forward_entry k entry with
  | (k, Err e) => (k, if bool_decide (classify e = Idempotent) then Ok tt else Err e)
  | other => other
  end.

Definition create_tolerant (k : K) (entry : RouteEntry) : K * result unit PlatformError :=
  match create_ip_forward_entry k entry with
  | (k, Err e) => (k, if bool_decide (classify_for e Add = Conflict) then Ok tt else Err e)
  | other => other
  end.

(** One undo step. *)
Definition undo_one (k : K) (residue : RollbackResidue) (undo : CompensatingAction) : K * RollbackResidue :=
  match undo with
  | UndoAdd entry =>
      match delete_tolerant k entry with
      | (k, Err e) => (k, mkResidue (errors residue ++ [e]) (still_added residue ++ [entry]) (still_removed residue))
      | (k, Ok _) => (k, residue)
      end
  | UndoDelete entry =>
      match create_tolerant k entry with
      | (k, Err e) => (k, mkResidue (errors residue ++ [e]) (still_added residue) (still_removed residue ++ [entry]))
      | (k, Ok _) => (k, residue)
      end
  | SwapRoute delete_new restore_old =>
      let '(k, d) := delete_tolerant k delete_new in
      let residue := match d with
                     | Err _ => mkResidue (errors residue) (still_added residue ++ [delete_new]) (still_removed residue)
                     | Ok _ => residue
                     end in
      match create_tolerant k restore_old with
      | (k, Err e) => (k, mkResidue (errors residue ++ [e]) (still_added residue) (still_removed residue ++ [restore_old]))
      | (k, Ok _) => (k, residue)
      end
  end.

(** The journal is popped from its end. *)
Definition rollback_with_residue (k : K) (journal : list CompensatingAction) : K * RollbackResidue :=
  fold_left (fun '(k, residue) undo => undo_one k residue undo) (reverse journal) (k, no_residue).

Definition added_routes (journal : list CompensatingAction) : list RouteEntry :=
  omap (fun c => match c with UndoAdd entry => Some entry | _ => None end) journal.

(** ** Recognising and sweeping our rows *)

(** [signed_routes]. *)
Definition signed_routes (k : K) (also_ours : RouteEntry -> bool) : result (list RouteEntry) PlatformError :=
  match get_ip_forward_table k with
  | Err e => Err e
  | Ok rows =>
      Ok ((fun r => mkRoute (destination r) (prefix_length r) (next_hop r) (interface_index r) (metric r) true (table r))
          <$> List.filter (fun r => is_owned_route r || also_ours r) rows)
  end.

Inductive RouteSweepError : Set := Enumerate (e : PlatformError) | DeleteFailed (e : PlatformError).

Definition sweep_step (acc : K * nat * option PlatformError) (route : RouteEntry) : K * nat * option PlatformError :=
  let '(k, removed, refused) := acc in
  match delete_ip_forward_entry k route with
  | (k, Ok _) => (k, S removed, refused)
  | (k, Err e) =>
      if bool_decide (classify e = Idempotent) then (k, removed, refused)
      else (k, removed, Some (default e refused))
  end.

Definition sweep_owned_routes_with (k : K) (also_ours : RouteEntry -> bool) : K * result nat RouteSweepError :=
  match signed_routes k also_ours with
  | Err e => (k, Err (Enumerate e))
  | Ok orphans =>
      match fold_left sweep_step orphans (k, 0%nat, None) with
      | (k, removed, None) => (k, Ok removed)
      | (k, _, Some e) => (k, Err (DeleteFailed e))
      end
  end.

Definition sweep_owned_routes (k : K) : K * result nat RouteSweepError := sweep_owned_routes_with k (fun _ => false).

(** ** What a route table does *)

(** A table that knows its rows by key, as the Windows one does (destination, prefix,
    next hop and interface make the row, its metric does not). [holds] is whether the
    table has a row of the key. An add of a row that is there is refused, a refused call
    changes nothing, a delete reported as already gone finds no row, and a conflict on an
    add finds one. *)

Class KernelLaws := {
  holds : K -> RouteKey -> bool;
  read_rows : forall k rows, get_ip_forward_table k = Ok rows -> forall x, holds k x = true <-> exists r, r ∈ rows /\ route_key r = x;
  create_ok : forall k r k', create_ip_forward_entry k r = (k', Ok tt) ->
    holds k (route_key r) = false /\ forall x, holds k' x = bool_decide (x = route_key r) || holds k x;
  create_err : forall k r k' e, create_ip_forward_entry k r = (k', Err e) ->
    (forall x, holds k' x = holds k x) /\ (classify_for e Add = Conflict -> holds k (route_key r) = true);
  delete_ok : forall k r k', delete_ip_forward_entry k r = (k', Ok tt) ->
    holds k (route_key r) = true /\ forall x, holds k' x = negb (bool_decide (x = route_key r)) && holds k x;
  delete_err : forall k r k' e, delete_ip_forward_entry k r = (k', Err e) ->
    (forall x, holds k' x = holds k x) /\ (classify e = Idempotent -> holds k (route_key r) = false);
}.

(** Any table. It has rows of a kind of its own ([TableRow]: the Linux one tells rows apart
    by metric and by who wrote them too), each at a place: a destination, a prefix and a
    table. A reading shows a row as an entry, or does not show it (a row over several
    links); [table_shown] and [hop_shown] are the table and the next hop an entry's row is
    shown with. [names_row e y] is that a delete of [e] may take out the row [y],
    [clashes_with e y] that the row [y] makes an add of [e] refused as already there.
    - An add that succeeds found nothing that clashes and writes one row, shown with the
      entry's key; one refused writes nothing, and refused as a conflict found a row
      that clashes, through the same link or another.
    - A delete that succeeds takes out a row it names and nothing it does not name; one
      refused takes out nothing, and refused as already gone it names no row.
    - What a delete names is at the entry's place, over its link if it is shown, and
      clashes with the entry if this carries a metric. *)
Abbreviation Place := (IpAddr * Z * RouteTableRef)%type.

Class TableLaws := {
  TableRow : Type;
  TableRow_eq_dec :: EqDecision TableRow;
  stands : K -> TableRow -> bool;
  row_place : TableRow -> Place;
  seen_as : TableRow -> option RouteEntry;
  table_shown : RouteTableRef -> RouteTableRef;
  hop_shown : IpAddr -> IpAddr -> IpAddr;
  names_row : RouteEntry -> TableRow -> bool;
  clashes_with : RouteEntry -> TableRow -> bool;
  read_table : forall k rows, get_ip_forward_table k = Ok rows ->
    forall e, e ∈ rows <-> exists y, stands k y = true /\ seen_as y = Some e;
  seen_place : forall y e, seen_as y = Some e -> row_place y = (destination e, prefix_length e, table e) 
    /\ table_shown (table e) = table e /\ hop_shown (destination e) (next_hop e) = next_hop e;
  create_writes : forall k e k', create_ip_forward_entry k e = (k', Ok tt) ->
    (forall y, clashes_with e y = true -> stands k y = false)
    /\ exists y o, clashes_with e y = true /\ seen_as y = Some o
       /\ route_key o = (destination e, prefix_length e, hop_shown (destination e) (next_hop e), interface_index e, table_shown (table e))
       /\ forall x, stands k' x = bool_decide (x = y) || stands k x;
  create_refused : forall k e k' er, create_ip_forward_entry k e = (k', Err er) ->
    (forall x, stands k' x = stands k x)
    /\ (classify_for er Add = Conflict -> exists y, stands k y = true /\ clashes_with e y = true);
  delete_takes : forall k e k', delete_ip_forward_entry k e = (k', Ok tt) ->
    (exists y, names_row e y = true /\ stands k y = true /\ stands k' y = false)
    /\ (forall x, stands k' x = true -> stands k x = true)
    /\ (forall x, names_row e x = false -> stands k' x = stands k x);
  delete_refused : forall k e k' er, delete_ip_forward_entry k e = (k', Err er) ->
    (forall x, stands k' x = stands k x)
    /\ (classify er = Idempotent -> forall y, names_row e y = true -> stands k y = false);
  names_place : forall e y, names_row e y = true -> row_place y = (destination e, prefix_length e, table_shown (table e))
    /\ forall o, seen_as y = Some o -> interface_index o = interface_index e;
  clash_place : forall e y, clashes_with e y = true -> row_place y = (destination e, prefix_length e, table_shown (table e));
  names_clash : forall e y, metric e <> 0 -> names_row e y = true -> clashes_with e y = true;
  main_shown : table_shown MainTable = MainTable;
  names_unmarked : forall e e' y, route_key e = route_key e' -> metric e = metric e' -> names_row e y = names_row e' y;
}.

End Transaction.
Arguments KernelLaws K {_ _}.
Arguments TableLaws K {_ _}.

(** ** What a transaction leaves behind *)

Abbreviation keys l := (route_key <$> l).

Abbreviation undo_all l st := (fold_left (fun '(k, residue) undo => undo_one k residue undo) l st).

Section Laws.
Context {K : Type} `{!RouteTablePort K} `{!Libc} `{!KernelLaws K}.

Lemma has_key_cons (x d : RouteKey) (l : list RouteKey) : bool_decide (x ∈ d :: l) = bool_decide (x = d) || bool_decide (x ∈ l).
Proof. rewrite <- bool_decide_or. apply bool_decide_ext, elem_of_cons. Qed.

Lemma keys_subset (l1 l2 : list RouteEntry) x : l1 ⊆ l2 -> (x ∉ keys l2) -> (x ∉ keys l1).
Proof. intros Hs Hn (r & -> & Hr)%list_elem_of_fmap. apply Hn, list_elem_of_fmap. eauto. Qed.

Lemma keys_mono (l1 l2 : list RouteEntry) : l1 ⊆ l2 -> keys l1 ⊆ keys l2.
Proof. intros Hs x (r & -> & Hr)%list_elem_of_fmap. apply list_elem_of_fmap. eauto. Qed.

Lemma execute_app (k : K) journal a b :
  execute k journal (a ++ b)
  = match execute k journal a with
    | (k, journal, Ok _) => execute k journal b
    | (k, journal, Err e) => (k, journal, Err e)
    end.
Proof.
  revert k journal. induction a as [|x a IH]; intros k journal; [done|]. cbn [app execute].
  destruct (execute_one k journal x) as [[k' j'] [[]|e]]; [apply IH|done].
Qed.

Lemma create_cases (k : K) r :
  (exists k', create_ip_forward_entry k r = (k', Ok tt) /\ holds k (route_key r) = false
     /\ forall x, holds k' x = bool_decide (x = route_key r) || holds k x)
  \/ exists k' e, create_ip_forward_entry k r = (k', Err e) /\ (forall x, holds k' x = holds k x)
     /\ (classify_for e Add = Conflict -> holds k (route_key r) = true).
Proof.
  destruct (create_ip_forward_entry k r) as [k' [[]|e]] eqn:E.
  - left. exists k'. split; [done|]. by apply create_ok.
  - right. exists k', e. split; [done|]. by eapply create_err.
Qed.

Lemma delete_cases (k : K) r :
  (exists k', delete_ip_forward_entry k r = (k', Ok tt) /\ holds k (route_key r) = true
     /\ forall x, holds k' x = negb (bool_decide (x = route_key r)) && holds k x)
  \/ exists k' e, delete_ip_forward_entry k r = (k', Err e) /\ (forall x, holds k' x = holds k x)
     /\ (classify e = Idempotent -> holds k (route_key r) = false).
Proof.
  destruct (delete_ip_forward_entry k r) as [k' [[]|e]] eqn:E.
  - left. exists k'. split; [done|]. by apply delete_ok.
  - right. exists k', e. split; [done|]. by eapply delete_err.
Qed.

(** A run of deletes: [gone] are those that took a row out. *)
Lemma execute_deletes ds : forall (k : K) journal, exists k' gone r,
  execute k journal (DeleteRoute <$> ds) = (k', journal ++ (UndoDelete <$> gone), r)
  /\ gone ⊆ ds /\ NoDup (keys gone)
  /\ (forall x, holds k' x = holds k x && negb (bool_decide (x ∈ keys gone)))
  /\ (forall x, x ∈ keys gone -> holds k x = true)
  /\ (r = Ok tt -> forall x, x ∈ keys ds -> holds k' x = false).
Proof.
  induction ds as [|d ds IH]; intros k journal; cbn [fmap list_fmap execute execute_one].
  { exists k, [], (Ok tt). rewrite app_nil_r. split_and!; try done; [constructor|..]; intros x.
    - cbn. rewrite bool_decide_eq_false_2 by apply not_elem_of_nil. by rewrite andb_true_r.
    - by intros ?%not_elem_of_nil.
    - by intros y ?%not_elem_of_nil. }
  destruct (delete_cases k d) as [(k1 & -> & Hh & Hk1)|(k1 & e & -> & Hk1 & He)].
  - destruct (IH k1 (journal ++ [UndoDelete d])) as (k' & gone & r & -> & Hsub & Hnd & Hk' & Hgone & Hok).
    exists k', (d :: gone), r. rewrite <- app_assoc. cbn [app fmap list_fmap]. split_and!; [done|set_solver| | | |].
    + constructor; [|done]. intros Hin%Hgone. rewrite Hk1, bool_decide_eq_true_2 in Hin by done. done.
    + intros x. rewrite Hk', Hk1, has_key_cons. by destruct (bool_decide (x = _)), (holds k x).
    + intros x [->|Hx]%elem_of_cons; [done|]. apply Hgone in Hx. rewrite Hk1 in Hx. by apply andb_true_iff in Hx as [_ ?].
    + intros -> x [->|Hx]%elem_of_cons; [|by apply Hok]. rewrite Hk', Hk1, bool_decide_eq_true_2 by done. done.
  - case_bool_decide as Hi.
    + destruct (IH k1 journal) as (k' & gone & r & -> & Hsub & Hnd & Hk' & Hgone & Hok).
      exists k', gone, r. split_and!; [done|set_solver|done| | |].
      * intros x. by rewrite Hk', Hk1.
      * intros x Hx. rewrite <- Hk1. by apply Hgone.
      * intros -> x [->|Hx]%elem_of_cons; [|by apply Hok]. by rewrite Hk', Hk1, (He Hi).
    + exists k1, [], (Err e). rewrite app_nil_r. split_and!; try done; [set_solver|constructor|..].
      * intros x. rewrite Hk1. cbn. rewrite bool_decide_eq_false_2 by apply not_elem_of_nil. by rewrite andb_true_r.
      * by intros x ?%not_elem_of_nil.
Qed.

(** A run of adds: [new] are those that put a row in. *)
Lemma execute_adds l : forall (k : K) journal, exists k' new r,
  execute k journal (AddRoute <$> l) = (k', journal ++ (UndoAdd <$> new), r)
  /\ new ⊆ l /\ NoDup (keys new)
  /\ (forall x, holds k' x = holds k x || bool_decide (x ∈ keys new))
  /\ (forall x, x ∈ keys new -> holds k x = false)
  /\ (r = Ok tt -> forall x, x ∈ keys l -> holds k' x = true).
Proof.
  induction l as [|d l IH]; intros k journal; cbn [fmap list_fmap execute execute_one].
  { exists k, [], (Ok tt). rewrite app_nil_r. split_and!; try done; [constructor|..]; intros x.
    - cbn. rewrite bool_decide_eq_false_2 by apply not_elem_of_nil. by rewrite orb_false_r.
    - by intros ?%not_elem_of_nil.
    - by intros y ?%not_elem_of_nil. }
  destruct (create_cases k d) as [(k1 & -> & Hh & Hk1)|(k1 & e & -> & Hk1 & He)].
  - destruct (IH k1 (journal ++ [UndoAdd d])) as (k' & new & r & -> & Hsub & Hnd & Hk' & Hnew & Hok).
    exists k', (d :: new), r. rewrite <- app_assoc. cbn [app fmap list_fmap]. split_and!; [done|set_solver| | | |].
    + constructor; [|done]. intros Hin%Hnew. rewrite Hk1, bool_decide_eq_true_2 in Hin by done. done.
    + intros x. rewrite Hk', Hk1, has_key_cons. by destruct (bool_decide (x = _)), (holds k x).
    + intros x [->|Hx]%elem_of_cons; [done|]. apply Hnew in Hx. rewrite Hk1 in Hx. by apply orb_false_iff in Hx as [_ ?].
    + intros -> x [->|Hx]%elem_of_cons; [|by apply Hok]. rewrite Hk', Hk1, bool_decide_eq_true_2 by done. done.
  - case_bool_decide as Hi.
    + destruct (IH k1 journal) as (k' & new & r & -> & Hsub & Hnd & Hk' & Hnew & Hok).
      exists k', new, r. split_and!; [done|set_solver|done| | |].
      * intros x. by rewrite Hk', Hk1.
      * intros x Hx. rewrite <- Hk1. by apply Hnew.
      * intros -> x [->|Hx]%elem_of_cons; [|by apply Hok]. by rewrite Hk', Hk1, (He Hi).
    + exists k1, [], (Err e). rewrite app_nil_r. split_and!; try done; [set_solver|constructor|..].
      * intros x. rewrite Hk1. cbn. rewrite bool_decide_eq_false_2 by apply not_elem_of_nil. by rewrite orb_false_r.
      * by intros x ?%not_elem_of_nil.
Qed.

(** Undoing adds: [kept] are the rows the kernel would not let go. *)
Lemma undo_adds l : NoDup (keys l) -> forall (k : K) res, exists k' kept es,
  undo_all (UndoAdd <$> l) (k, res) = (k', mkResidue (errors res ++ es) (still_added res ++ kept) (still_removed res))
  /\ kept ⊆ l /\ length es = length kept
  /\ forall x, holds k' x = holds k x && (negb (bool_decide (x ∈ keys l)) || bool_decide (x ∈ keys kept)).
Proof.
  induction l as [|d l IH]; intros Hnd k res; cbn [fmap list_fmap fold_left undo_one].
  { exists k, [], []. rewrite !app_nil_r. destruct res. split_and!; try done. intros x. cbn.
    rewrite bool_decide_eq_false_2 by apply not_elem_of_nil. by rewrite andb_true_r. }
  cbn [fmap list_fmap] in Hnd. apply NoDup_cons in Hnd as [Hd Hnd]. unfold delete_tolerant.
  assert (Hgone : forall k1, (forall x, holds k1 x = negb (bool_decide (x = route_key d)) && holds k x) ->
    exists k' kept es, undo_all (UndoAdd <$> l) (k1, res) = (k', mkResidue (errors res ++ es) (still_added res ++ kept) (still_removed res))
    /\ kept ⊆ d :: l /\ length es = length kept
    /\ forall x, holds k' x = holds k x && (negb (bool_decide (x ∈ route_key d :: keys l)) || bool_decide (x ∈ keys kept))).
  { intros k1 Hk1. destruct (IH Hnd k1 res) as (k' & kept & es & -> & Hsub & Hes & Hk'). exists k', kept, es.
    split_and!; [done|set_solver|done|]. intros x. rewrite Hk', Hk1, has_key_cons.
    destruct (bool_decide_reflect (x = route_key d)) as [->|_]; [|done]. rewrite (bool_decide_eq_false_2 (_ ∈ keys kept)) by (by eapply keys_subset).
    by rewrite andb_false_r. }
  destruct (delete_cases k d) as [(k1 & -> & Hh & Hk1)|(k1 & e & -> & Hk1 & He)]; [by apply Hgone|].
  case_bool_decide as Hi.
  - apply Hgone. intros x. rewrite Hk1. case_bool_decide as Hx; [|done]. by rewrite Hx, (He Hi).
  - destruct (IH Hnd k1 (mkResidue (errors res ++ [e]) (still_added res ++ [d]) (still_removed res)))
      as (k' & kept & es & -> & Hsub & Hes & Hk'). cbn [errors still_added still_removed].
    exists k', (d :: kept), (e :: es). rewrite <- !app_assoc. split_and!; [done|set_solver|cbn; lia|].
    intros x. rewrite Hk', Hk1. cbn [fmap list_fmap]. rewrite !has_key_cons.
    destruct (bool_decide_reflect (x = route_key d)) as [->|_]; [|done]. rewrite (bool_decide_eq_false_2 (_ ∈ keys l)) by done. done.
Qed.

(** Undoing deletes: [lost] are the rows that could not be put back. *)
Lemma undo_deletes l : NoDup (keys l) -> forall (k : K) res, exists k' lost es,
  undo_all (UndoDelete <$> l) (k, res) = (k', mkResidue (errors res ++ es) (still_added res) (still_removed res ++ lost))
  /\ lost ⊆ l /\ length es = length lost
  /\ forall x, holds k' x = holds k x || (bool_decide (x ∈ keys l) && negb (bool_decide (x ∈ keys lost))).
Proof.
  induction l as [|d l IH]; intros Hnd k res; cbn [fmap list_fmap fold_left undo_one].
  { exists k, [], []. rewrite !app_nil_r. destruct res. split_and!; try done. intros x. cbn.
    rewrite bool_decide_eq_false_2 by apply not_elem_of_nil. by rewrite orb_false_r. }
  cbn [fmap list_fmap] in Hnd. apply NoDup_cons in Hnd as [Hd Hnd]. unfold create_tolerant.
  assert (Hback : forall k1, (forall x, holds k1 x = bool_decide (x = route_key d) || holds k x) ->
    exists k' lost es, undo_all (UndoDelete <$> l) (k1, res) = (k', mkResidue (errors res ++ es) (still_added res) (still_removed res ++ lost))
    /\ lost ⊆ d :: l /\ length es = length lost
    /\ forall x, holds k' x = holds k x || (bool_decide (x ∈ route_key d :: keys l) && negb (bool_decide (x ∈ keys lost)))).
  { intros k1 Hk1. destruct (IH Hnd k1 res) as (k' & lost & es & -> & Hsub & Hes & Hk'). exists k', lost, es.
    split_and!; [done|set_solver|done|]. intros x. rewrite Hk', Hk1, has_key_cons.
    destruct (bool_decide_reflect (x = route_key d)) as [->|_]; [|done]. rewrite (bool_decide_eq_false_2 (_ ∈ keys lost)) by (by eapply keys_subset).
    by rewrite orb_true_r. }
  destruct (create_cases k d) as [(k1 & -> & Hh & Hk1)|(k1 & e & -> & Hk1 & He)]; [by apply Hback|].
  case_bool_decide as Hi.
  - apply Hback. intros x. rewrite Hk1. case_bool_decide as Hx; [|done]. by rewrite Hx, (He Hi).
  - destruct (IH Hnd k1 (mkResidue (errors res ++ [e]) (still_added res) (still_removed res ++ [d])))
      as (k' & lost & es & -> & Hsub & Hes & Hk'). cbn [errors still_added still_removed].
    exists k', (d :: lost), (e :: es). rewrite <- !app_assoc. split_and!; [done|set_solver|cbn; lia|].
    intros x. rewrite Hk', Hk1. cbn [fmap list_fmap]. rewrite !has_key_cons.
    destruct (bool_decide_reflect (x = route_key d)) as [->|_]; [|done]. rewrite (bool_decide_eq_false_2 (_ ∈ keys l)) by done.
    by rewrite andb_false_r.
Qed.

(** Rolling back a journal of deletes [gone] followed by adds [new]. *)
Lemma rollback_split gone new (k : K) : NoDup (keys gone) -> NoDup (keys new) ->
  exists k' kept lost es, rollback_with_residue k ((UndoDelete <$> gone) ++ (UndoAdd <$> new)) = (k', mkResidue es kept lost)
  /\ kept ⊆ new /\ lost ⊆ gone
  /\ (forall x, holds k' x = holds k x && (negb (bool_decide (x ∈ keys new)) || bool_decide (x ∈ keys kept))
                || bool_decide (x ∈ keys gone) && negb (bool_decide (x ∈ keys lost))).
Proof.
  intros Hg Hn. unfold rollback_with_residue. rewrite reverse_app, <- !fmap_reverse, fold_left_app.
  assert (Hn' : NoDup (keys (reverse new))) by (by rewrite reverse_Permutation).
  assert (Hg' : NoDup (keys (reverse gone))) by (by rewrite reverse_Permutation).
  destruct (undo_adds _ Hn' k no_residue) as (k1 & kept & es & -> & Hk & _ & H1).
  destruct (undo_deletes _ Hg' k1 (mkResidue (errors no_residue ++ es) (still_added no_residue ++ kept) (still_removed no_residue)))
    as (k2 & lost & es2 & -> & Hl & _ & H2). cbn [errors still_added still_removed no_residue app] in *.
  exists k2, kept, lost, (es ++ es2).
  assert (Hrev : forall l x, bool_decide (x ∈ keys (reverse l)) = bool_decide (x ∈ keys l))
    by (intros l x; apply bool_decide_ext; by rewrite fmap_reverse, elem_of_reverse).
  split_and!; [done|intros x Hx; by apply elem_of_reverse, Hk|intros x Hx; by apply elem_of_reverse, Hl|].
  intros x. by rewrite H2, H1, !Hrev.
Qed.

(** *** All or nothing *)

(** Whether a row was there before the step the entry [c] of a journal undoes, from whether it is there after. *)
Definition before_step (x : RouteKey) (c : CompensatingAction) (there : bool) : bool :=
  match c with
  | UndoAdd entry => negb (bool_decide (x = route_key entry)) && there
  | UndoDelete entry => bool_decide (x = route_key entry) || there
  | SwapRoute _ _ => there
  end.

Definition is_plain_action (a : RoutingAction) : bool := match a with UpdateRoute _ _ => false | _ => true end.

Definition is_plain_undo (c : CompensatingAction) : bool := match c with SwapRoute _ _ => false | _ => true end.

Lemma execute_journals actions : Forall (fun a => is_plain_action a = true) actions -> forall (k : K) journal k' journal' r,
  execute k journal actions = (k', journal', r) ->
  exists tail, journal' = journal ++ tail /\ Forall (fun c => is_plain_undo c = true) tail
    /\ forall x, holds k x = foldr (before_step x) (holds k' x) tail.
Proof.
  induction 1 as [|a actions Ha _ IH]; intros k journal k' journal' r; cbn [execute].
  { intros [= <- <- _]. exists []. by rewrite app_nil_r. }
  assert (Hskip : forall k1, (forall x, holds k1 x = holds k x) ->
    execute k1 journal actions = (k', journal', r) -> exists tail, journal' = journal ++ tail
      /\ Forall (fun c => is_plain_undo c = true) tail /\ forall x, holds k x = foldr (before_step x) (holds k' x) tail).
  { intros k1 Hk1 (tail & -> & Hp & Ht)%IH. exists tail. split_and!; [done..|]. intros x. by rewrite <- Hk1. }
  assert (Hstop : forall k1, (forall x, holds k1 x = holds k x) -> k1 = k' -> journal = journal' -> exists tail,
    journal' = journal ++ tail /\ Forall (fun c => is_plain_undo c = true) tail
    /\ forall x, holds k x = foldr (before_step x) (holds k' x) tail).
  { intros k1 Hk1 <- <-. exists []. split_and!; [by rewrite app_nil_r|done|]. intros x. by rewrite <- Hk1. }
  assert (Hstep : forall c k1, is_plain_undo c = true -> (forall x, holds k x = before_step x c (holds k1 x)) ->
    execute k1 (journal ++ [c]) actions = (k', journal', r) -> exists tail, journal' = journal ++ tail
      /\ Forall (fun c => is_plain_undo c = true) tail /\ forall x, holds k x = foldr (before_step x) (holds k' x) tail).
  { intros c k1 Hc Hk1 (tail & -> & Hp & Ht)%IH. exists (c :: tail). rewrite <- app_assoc. split_and!; [done|by constructor|].
    intros x. cbn. by rewrite <- Ht. }
  destruct a as [e|e|]; [..|done]; cbn [execute_one].
  - destruct (create_cases k e) as [(k1 & -> & Hh & Hk1)|(k1 & er & -> & Hk1 & _)]; cycle 1.
    { case_bool_decide; [by apply Hskip|]. intros [= ? ? _]. by eapply Hstop. }
    apply Hstep; [done|]. intros x. cbn. rewrite Hk1. by case_bool_decide as Hx; [rewrite Hx|].
  - destruct (delete_cases k e) as [(k1 & -> & Hh & Hk1)|(k1 & er & -> & Hk1 & _)]; cycle 1.
    { case_bool_decide; [by apply Hskip|]. intros [= ? ? _]. by eapply Hstop. }
    apply Hstep; [done|]. intros x. cbn. rewrite Hk1. by case_bool_decide as Hx; [rewrite Hx|].
Qed.

Lemma undo_all_restores l : Forall (fun c => is_plain_undo c = true) l -> forall (k : K) k' res,
  undo_all l (k, no_residue) = (k', res) ->
  length (errors res) = (length (still_added res) + length (still_removed res))%nat
  /\ forall x, (x ∉ keys (still_added res ++ still_removed res)) ->
       holds k' x = fold_left (fun there c => before_step x c there) l (holds k x).
Proof.
  induction l as [|c l IH] using rev_ind; intros Hp k k' res.
  { intros [= <- <-]. done. }
  apply Forall_app in Hp as [Hp Hc]. apply (proj1 (Forall_singleton _ _)) in Hc. rewrite fold_left_app.
  destruct (undo_all l (k, no_residue)) as [k1 res1] eqn:E. cbn [fold_left].
  destruct (IH Hp _ _ _ E) as [Hlen Hk1]. rewrite fmap_app in Hk1.
  destruct c as [e|e|]; [..|done]; cbn [undo_one]; unfold delete_tolerant, create_tolerant.
  - destruct (delete_cases k1 e) as [(k2 & -> & Hh & Hk2)|(k2 & er & -> & Hk2 & He)]; [|case_bool_decide as Hi];
      intros [= <- <-]; cbn [errors still_added still_removed]; rewrite ?length_app;
      (split; [cbn; lia|]; intros x; rewrite ?fmap_app, fold_left_app; cbn; intros Hx; rewrite <- Hk1 by set_solver; rewrite Hk2).
    + done.
    + by case_bool_decide as Hxe; [rewrite Hxe, (He Hi)|].
    + rewrite bool_decide_eq_false_2 by set_solver. done.
  - destruct (create_cases k1 e) as [(k2 & -> & Hh & Hk2)|(k2 & er & -> & Hk2 & He)]; [|case_bool_decide as Hi];
      intros [= <- <-]; cbn [errors still_added still_removed]; rewrite ?length_app;
      (split; [cbn; lia|]; intros x; rewrite ?fmap_app, fold_left_app; cbn; intros Hx; rewrite <- Hk1 by set_solver; rewrite Hk2).
    + done.
    + by case_bool_decide as Hxe; [rewrite Hxe, (He Hi)|].
    + rewrite bool_decide_eq_false_2 by set_solver. done.
Qed.

(** C15. On a table that knows its rows by key, as the Windows one does, a batch of
    adds and deletes followed by a rollback, wherever the batch stopped: every row is there afterwards exactly when it was there before,
    except the rows the rollback itself names as still added or still removed; and
    when it reports no error, no row differs. A conflicting add, which another
    program's row answers, is never undone. *)
Theorem transaction_atomic (k : K) actions :
  Forall (fun a => is_plain_action a = true) actions ->
  let '(k1, journal, _) := execute k [] actions in
  let '(k2, residue) := rollback_with_residue k1 journal in
  (forall x, (x ∉ keys (still_added residue ++ still_removed residue)) -> holds k2 x = holds k x)
  /\ (errors residue = [] -> forall x, holds k2 x = holds k x).
Proof.
  intros Hp. destruct (execute k [] actions) as [[k1 journal] r] eqn:E.
  destruct (execute_journals _ Hp _ _ _ _ _ E) as (tail & -> & Hu & Ht). cbn [app].
  destruct (rollback_with_residue k1 tail) as [k2 residue] eqn:R. unfold rollback_with_residue in R.
  destruct (undo_all_restores (reverse tail)) with (2 := R) as [Hlen Hk2]; [by rewrite reverse_Permutation|].
  assert (Hback : forall x, (x ∉ keys (still_added residue ++ still_removed residue)) -> holds k2 x = holds k x).
  { intros x Hx. rewrite (Hk2 x Hx), (Ht x). unfold reverse. by rewrite rev_append_rev, app_nil_r, <- fold_left_rev_right, rev_involutive. }
  split; [done|]. intros Herr x. apply Hback. rewrite Herr in Hlen.
  destruct (still_added residue), (still_removed residue); cbn in Hlen; try lia. apply not_elem_of_nil.
Qed.

Lemma restored (there : bool) (x : RouteKey) (new kept gone lost : list RouteKey) :
  kept ⊆ new -> lost ⊆ gone -> (x ∈ new -> there = false /\ (x ∉ gone)) -> (x ∈ gone -> there = true) ->
  ((there && negb (bool_decide (x ∈ gone)) || bool_decide (x ∈ new))
     && (negb (bool_decide (x ∈ new)) || bool_decide (x ∈ kept))
   || bool_decide (x ∈ gone) && negb (bool_decide (x ∈ lost)))
  = bool_decide (x ∈ kept) || there && negb (bool_decide (x ∈ lost)).
Proof.
  intros Hk Hl Hn Hg. destruct (bool_decide_reflect (x ∈ new)) as [Hx|Hx].
  - destruct (Hn Hx) as [-> Hx']. rewrite (bool_decide_eq_false_2 (x ∈ gone)), (bool_decide_eq_false_2 (x ∈ lost)) by auto.
    cbn. by rewrite !orb_false_r.
  - rewrite (bool_decide_eq_false_2 (x ∈ kept)) by auto. cbn. rewrite orb_false_r, andb_true_r.
    destruct (bool_decide_reflect (x ∈ gone)) as [Hxg|Hxg]; cbn.
    + rewrite Hg by done. done.
    + rewrite (bool_decide_eq_false_2 (x ∈ lost)) by auto. cbn. by rewrite orb_false_r.
Qed.

(** Deletes then adds, of rows told apart by their keys: on success the table holds
    the adds and what it had without the deletes, and the transaction claims the
    adds that were not there. After a rollback only the residue differs. *)
Lemma replace_rows (k : K) ds l k1 journal r :
  (forall x, x ∈ keys ds -> (x ∉ keys l)) ->
  execute k [] ((DeleteRoute <$> ds) ++ (AddRoute <$> l)) = (k1, journal, r) ->
  match r with
  | Ok _ =>
      (forall x, holds k1 x = bool_decide (x ∈ keys l) || holds k x && negb (bool_decide (x ∈ keys ds)))
      /\ added_routes journal ⊆ l
      /\ (forall x, x ∈ keys (added_routes journal) <-> x ∈ keys l /\ holds k x = false)
  | Err _ =>
      exists k2 es kept lost, rollback_with_residue k1 journal = (k2, mkResidue es kept lost)
      /\ kept ⊆ l /\ lost ⊆ ds
      /\ (forall x, x ∈ keys kept -> holds k x = false)
      /\ (forall x, holds k2 x = bool_decide (x ∈ keys kept) || holds k x && negb (bool_decide (x ∈ keys lost)))
  end.
Proof.
  intros Hapart. rewrite execute_app.
  destruct (execute_deletes ds k []) as (ka & gone & ra & -> & Hgone & Hnd1 & Hka & Hheld & Hall).
  assert (Hgl : forall x, x ∈ keys gone -> (x ∉ keys l)) by (intros x Hx; apply Hapart; by apply (keys_mono gone)).
  destruct ra as [[]|ea].
  - destruct (execute_adds l ka ([] ++ (UndoDelete <$> gone))) as (kb & new & rb & -> & Hnew & Hnd2 & Hkb & Hfree & Hall2).
    intros [= -> <- <-].
    assert (Hnl : forall x, x ∈ keys new -> x ∈ keys l) by by apply keys_mono.
    assert (Hfree' : forall x, x ∈ keys new -> holds k x = false).
    { intros x Hx. specialize (Hfree x Hx). rewrite Hka in Hfree.
      rewrite (bool_decide_eq_false_2 (x ∈ keys gone)) in Hfree by (intros Hg; by apply (Hgl x Hg), Hnl). by rewrite andb_true_r in Hfree. }
    destruct rb as [[]|eb].
    + specialize (Hall eq_refl). specialize (Hall2 eq_refl).
      assert (Hadded : added_routes ((UndoDelete <$> gone) ++ (UndoAdd <$> new)) = new).
      { unfold added_routes. rewrite omap_app. replace (omap _ (UndoDelete <$> gone)) with (@nil RouteEntry).
        - cbn [app]. clear. induction new; cbn; congruence.
        - clear. by induction gone; cbn. }
      cbn [app]. rewrite Hadded.
      assert (Htable : forall x, holds k1 x = bool_decide (x ∈ keys l) || holds k x && negb (bool_decide (x ∈ keys ds))).
      { intros x. destruct (bool_decide_reflect (x ∈ keys l)) as [Hx|Hx]; [by rewrite Hall2|].
        rewrite Hkb, (bool_decide_eq_false_2 (x ∈ keys new)) by auto. rewrite orb_false_r.
        destruct (bool_decide_reflect (x ∈ keys ds)) as [Hd|Hd]; [by rewrite Hall, andb_false_r|].
        rewrite Hka, (bool_decide_eq_false_2 (x ∈ keys gone)) by (by eapply keys_subset). done. }
      split_and!; [done|done|]. intros x. split; [by eauto|]. intros [Hx Hf]. specialize (Hall2 x Hx).
      rewrite Hkb, Hka, Hf in Hall2. by apply bool_decide_eq_true in Hall2.
    + destruct (rollback_split gone new k1 Hnd1 Hnd2) as (k2 & kept & lost & es & Hroll & Hkept & Hlost & Hk2).
      exists k2, es, kept, lost. cbn [app]. split_and!; [done|by transitivity new|by transitivity gone| |].
      * intros x Hx. apply Hfree'. by apply (keys_mono kept).
      * intros x. rewrite Hk2, Hkb, Hka. apply restored; [by apply keys_mono..| |by auto].
        intros Hx. split; [by auto|]. intros Hg. apply (Hgl x Hg). by auto.
  - intros [= -> <- <-]. destruct (rollback_split gone [] k1 Hnd1 (NoDup_nil_2)) as (k2 & kept & lost & es & Hroll & Hkept & Hlost & Hk2).
    cbn [app fmap list_fmap] in *. rewrite app_nil_r in Hroll. apply list_nil_subseteq in Hkept as ->.
    exists k2, es, [], lost. split_and!; [done|apply list_subseteq_nil|by transitivity gone|by intros x ?%not_elem_of_nil|].
    intros x. rewrite Hk2, Hka. rewrite <- (restored _ _ [] [] (keys gone)); [|done|by apply keys_mono|by intros ?%not_elem_of_nil|by auto].
    rewrite !(bool_decide_eq_false_2 (x ∈ [])) by apply not_elem_of_nil. by rewrite !orb_false_r.
Qed.

(** *** The sweep *)

Lemma sweep_fold l : forall (k : K) n refused k' n' refused',
  fold_left sweep_step l (k, n, refused) = (k', n', refused') ->
  (forall x, (x ∉ keys l) -> holds k' x = holds k x)
  /\ (forall x, holds k' x = true -> holds k x = true)
  /\ (refused' = None -> refused = None /\ forall x, x ∈ keys l -> holds k' x = false).
Proof.
  induction l as [|d l IH]; intros k n refused k' n' refused'; cbn [fold_left].
  { intros [= <- _ <-]. split_and!; [done|done|]. intros Hr. split; [done|]. by intros x ?%not_elem_of_nil. }
  cbn [sweep_step fmap list_fmap].
  destruct (delete_cases k d) as [(k1 & -> & Hh & Hk1)|(k1 & e & -> & Hk1 & He)]; [|case_bool_decide as Hi]; intros E;
    apply IH in E as (Hkeep & Hless & Hall).
  - split_and!.
    + intros x [Hd Hl]%not_elem_of_cons. rewrite Hkeep, Hk1 by done. by rewrite bool_decide_eq_false_2.
    + intros x Hx%Hless. rewrite Hk1 in Hx. by apply andb_true_iff in Hx as [_ Hx].
    + intros Hr. destruct (Hall Hr) as [Href Hgone]. split; [done|]. intros x [->|Hx]%elem_of_cons; [|by auto].
      apply not_true_iff_false. intros Hx%Hless. rewrite Hk1, bool_decide_eq_true_2 in Hx by done. done.
  - split_and!.
    + intros x [Hd Hl]%not_elem_of_cons. by rewrite Hkeep, Hk1 by done.
    + intros x Hx%Hless. by rewrite Hk1 in Hx.
    + intros Hr. destruct (Hall Hr) as [Href Hgone]. split; [done|]. intros x [->|Hx]%elem_of_cons; [|by auto].
      apply not_true_iff_false. intros Hx%Hless. by rewrite Hk1, (He Hi) in Hx.
  - split_and!.
    + intros x [Hd Hl]%not_elem_of_cons. by rewrite Hkeep, Hk1 by done.
    + intros x Hx%Hless. by rewrite Hk1 in Hx.
    + intros [Hr _]%Hall. done.
Qed.

Lemma signed_routes_keys (k : K) also_ours rows found x :
  get_ip_forward_table k = Ok rows -> signed_routes k also_ours = Ok found ->
  x ∈ keys found <-> exists r, r ∈ rows /\ route_key r = x /\ is_owned_route r || also_ours r = true.
Proof.
  unfold signed_routes. intros ->. intros [= <-]. rewrite <- list_fmap_compose, list_elem_of_fmap.
  split; intros (r & H1 & H2); exists r.
  - apply list_elem_of_In, List.filter_In in H2 as [Hin Hs]. split_and!; [by apply list_elem_of_In|by rewrite H1|done].
  - destruct H2 as [<- Hs]. split; [done|]. by apply list_elem_of_In, List.filter_In; split; [apply list_elem_of_In|].
Qed.

(** C19. On a readable table that knows its rows by key, as the Windows one does, the
    sweep for rows a crash left behind takes rows of our signature (or of a table only
    we write) and no other: a row under whose key the table shows nothing
    of ours stays, whatever the kernel refuses; and when the sweep reports success
    none of ours is left. *)
Theorem sweep_exact (k : K) also_ours rows :
  get_ip_forward_table k = Ok rows ->
  let '(k', swept) := sweep_owned_routes_with k also_ours in
  (forall x, (forall r, r ∈ rows -> route_key r = x -> is_owned_route r || also_ours r = false) -> holds k' x = holds k x)
  /\ (match swept with
      | Ok _ => forall r, r ∈ rows -> is_owned_route r || also_ours r = true -> holds k' (route_key r) = false
      | Err (Enumerate _) => False
      | Err (DeleteFailed _) => True
      end).
Proof.
  intros Hread. unfold sweep_owned_routes_with.
  destruct (signed_routes k also_ours) as [found|e] eqn:S; [|unfold signed_routes in S; by rewrite Hread in S].
  destruct (fold_left sweep_step found (k, 0%nat, None)) as [[k' n] refused] eqn:F.
  apply sweep_fold in F as (Hkeep & _ & Hall).
  assert (Hforeign : forall x, (forall r, r ∈ rows -> route_key r = x -> is_owned_route r || also_ours r = false) -> holds k' x = holds k x).
  { intros x Hx. apply Hkeep. intros (r & Hr & Hkey & Hs)%(signed_routes_keys k also_ours rows); [|done..]. by rewrite (Hx r Hr Hkey) in Hs. }
  destruct refused as [e|]; (split; [done|]); [done|].
  intros r Hr Hs. apply (proj2 (Hall eq_refl)). apply (signed_routes_keys k also_ours rows); [done..|]. by exists r.
Qed.

End Laws.

(** ** What a transaction does to the rows of any table *)

Section Rows.
Context {K : Type} `{!RouteTablePort K} `{!Libc} `{!TableLaws K}.
Implicit Types (k : K) (y : TableRow).

(** The key an entry's row is shown with. *)
Definition shown_key (e : RouteEntry) : RouteKey :=
  (destination e, prefix_length e, hop_shown (destination e) (next_hop e), interface_index e, table_shown (table e)).

(** A delete of the entry names one row of the table at most. *)
Definition one_row k (e : RouteEntry) : Prop :=
  forall y y', stands k y = true -> stands k y' = true -> names_row e y = true -> names_row e y' = true -> y = y'.

Lemma create_row_cases k e :
  (exists k' y o, create_ip_forward_entry k e = (k', Ok tt) /\ (forall x, clashes_with e x = true -> stands k x = false)
     /\ clashes_with e y = true /\ seen_as y = Some o /\ route_key o = shown_key e
     /\ forall x, stands k' x = bool_decide (x = y) || stands k x)
  \/ exists k' er, create_ip_forward_entry k e = (k', Err er) /\ (forall x, stands k' x = stands k x)
     /\ (classify_for er Add = Conflict -> exists y, stands k y = true /\ clashes_with e y = true).
Proof.
  destruct (create_ip_forward_entry k e) as [k' [[]|er]] eqn:E.
  - left. apply create_writes in E as (Hfree & y & o & ?). exists k', y, o. tauto.
  - right. exists k', er. split; [done|]. by eapply create_refused.
Qed.

Lemma delete_row_cases k e :
  (exists k', delete_ip_forward_entry k e = (k', Ok tt)
     /\ (exists y, names_row e y = true /\ stands k y = true /\ stands k' y = false)
     /\ (forall x, stands k' x = true -> stands k x = true) /\ (forall x, names_row e x = false -> stands k' x = stands k x))
  \/ exists k' er, delete_ip_forward_entry k e = (k', Err er) /\ (forall x, stands k' x = stands k x)
     /\ (classify er = Idempotent -> forall y, names_row e y = true -> stands k y = false).
Proof.
  destruct (delete_ip_forward_entry k e) as [k' [[]|er]] eqn:E.
  - left. exists k'. split; [done|]. by apply delete_takes.
  - right. exists k', er. split; [done|]. by eapply delete_refused.
Qed.

(** Deletes that go through leave what none of them names. *)
Lemma deletes_rows ds : forall k journal k' journal',
  execute k journal (DeleteRoute <$> ds) = (k', journal', Ok tt) -> (forall d, d ∈ ds -> one_row k d) ->
  forall y, stands k' y = true <-> stands k y = true /\ forall d, d ∈ ds -> names_row d y = false.
Proof.
  induction ds as [|d ds IH]; intros k journal k' journal'; cbn [fmap list_fmap execute execute_one].
  { intros [= <- _] _ y. split; [intros Hy; split; [done|]; by intros d ?%not_elem_of_nil|by intros [? _]]. }
  assert (Hrest : forall k1 journal1, execute k1 journal1 (DeleteRoute <$> ds) = (k', journal', Ok tt) ->
    (forall x, stands k1 x = true -> stands k x = true) -> (forall x, names_row d x = false -> stands k1 x = stands k x) ->
    (forall x, names_row d x = true -> stands k1 x = false) -> (forall d', d' ∈ d :: ds -> one_row k d') ->
    forall y, stands k' y = true <-> stands k y = true /\ forall d', d' ∈ d :: ds -> names_row d' y = false).
  { intros k1 journal1 E Hless Hkeep Hgone Hone y. rewrite (IH _ _ _ _ E).
    - setoid_rewrite elem_of_cons. split.
      + intros [Hy Hds]. assert (Hd : names_row d y = false) by (apply not_true_iff_false; intros Hd%Hgone; congruence).
        split; [by apply Hless|]. intros d' [->|?]; auto.
      + intros [Hy Hds]. split; [rewrite Hkeep|]; auto.
    - intros d' Hd' z z' Hz Hz'. apply (Hone d'); [by right|by apply Hless..]. }
  destruct (delete_row_cases k d) as [(k1 & -> & (z & Hz & Hzk & Hzk1) & Hless & Hkeep)|(k1 & er & -> & Hsame & Hgone)].
  - intros E Hone. apply (Hrest k1 _ E Hless Hkeep); [|done]. intros x Hx. apply not_true_iff_false. intros Hx1.
    assert (x = z) as -> by (apply (Hone d (list_elem_of_here _ _)); auto). congruence.
  - case_bool_decide as Hi; [|done]. intros E Hone. apply (Hrest k1 _ E); [intros x; by rewrite Hsame|auto| |done].
    intros x Hx. rewrite Hsame. by apply Hgone.
Qed.

(** Adds that go through: nothing leaves, what is new is shown with a key that was asked
    for, and something stands where each was to go. *)
Lemma adds_rows l : forall k journal k' journal',
  execute k journal (AddRoute <$> l) = (k', journal', Ok tt) ->
  (forall y, stands k y = true -> stands k' y = true)
  /\ (forall y, stands k' y = true -> stands k y = true
        \/ exists e o, e ∈ l /\ clashes_with e y = true /\ seen_as y = Some o /\ route_key o = shown_key e)
  /\ (forall e, e ∈ l -> exists y, stands k' y = true /\ clashes_with e y = true).
Proof.
  induction l as [|e l IH]; intros k journal k' journal'; cbn [fmap list_fmap execute execute_one].
  { intros [= <- _]. split_and!; [done|by left|]. by intros e ?%not_elem_of_nil. }
  destruct (create_row_cases k e) as [(k1 & z & o & -> & _ & Hz & Ho & Hk & Hk1)|(k1 & er & -> & Hsame & Hconf)].
  - intros (Hmono & Hnew & Hall)%IH. split_and!.
    + intros y Hy. apply Hmono. by rewrite Hk1, Hy, orb_true_r.
    + intros y [Hy|(e' & o' & He' & ?)]%Hnew; [|right; exists e', o'; split; [by right|done]].
      rewrite Hk1, orb_true_iff, bool_decide_eq_true in Hy. destruct Hy as [->|]; [|by left]. right. exists e, o. split; [by left|done].
    + intros e' [->|He']%elem_of_cons; [|by apply Hall]. exists z. split; [|done]. apply Hmono. by rewrite Hk1, bool_decide_eq_true_2.
  - case_bool_decide as Hc; [|done]. intros (Hmono & Hnew & Hall)%IH. setoid_rewrite Hsame in Hmono. setoid_rewrite Hsame in Hnew. split_and!; [done| |].
    + intros y [Hy|(e' & o' & He' & ?)]%Hnew; [by left|right; exists e', o'; split; [by right|done]].
    + intros e' [->|He']%elem_of_cons; [|by apply Hall]. destruct (Hconf Hc) as (z & Hz & Hcl). exists z. split; [by apply Hmono|done].
Qed.

(** Deletes then adds that go through. *)
Lemma replaced_rows ds l k k' journal :
  execute k [] ((DeleteRoute <$> ds) ++ (AddRoute <$> l)) = (k', journal, Ok tt) -> (forall d, d ∈ ds -> one_row k d) ->
  (forall y, stands k y = true -> (forall d, d ∈ ds -> names_row d y = false) -> stands k' y = true)
  /\ (forall y, stands k' y = true -> (stands k y = true /\ forall d, d ∈ ds -> names_row d y = false)
        \/ exists e o, e ∈ l /\ clashes_with e y = true /\ seen_as y = Some o /\ route_key o = shown_key e)
  /\ (forall e, e ∈ l -> exists y, stands k' y = true /\ clashes_with e y = true).
Proof.
  rewrite execute_app. destruct (execute k [] (DeleteRoute <$> ds)) as [[k1 journal1] [[]|er]] eqn:Ed; [|done]. intros Ea Hone.
  pose proof (deletes_rows ds _ _ _ _ Ed Hone) as Hd. destruct (adds_rows l _ _ _ _ Ea) as (Hmono & Hnew & Hall). split_and!; [|by setoid_rewrite Hd in Hnew|done].
  intros y Hy Hn. apply Hmono, Hd. done.
Qed.

(** *** A row no delete names *)

(** A row outlives a batch of adds and deletes, whatever becomes of it, if no delete names
    it; what the batch put in does not clash with it. *)
Lemma execute_spares y actions : Forall (fun a => is_plain_action a = true) actions ->
  (forall d, DeleteRoute d ∈ actions -> names_row d y = false) -> forall k journal k' journal' r,
  stands k y = true -> execute k journal actions = (k', journal', r) ->
  stands k' y = true /\ exists tail, journal' = journal ++ tail /\ Forall (fun c => is_plain_undo c = true) tail
    /\ forall e, UndoAdd e ∈ tail -> AddRoute e ∈ actions /\ clashes_with e y = false.
Proof.
  induction 1 as [|a actions Ha _ IH]; intros Hdel k journal k' journal' r Hy; cbn [execute].
  { intros [= <- <- _]. split; [done|]. exists []. rewrite app_nil_r. split_and!; [done..|]. by intros e ?%not_elem_of_nil. }
  assert (Hdel' : forall d, DeleteRoute d ∈ actions -> names_row d y = false) by (intros d Hd; apply Hdel; by right).
  assert (Hskip : forall k1, stands k1 y = true -> execute k1 journal actions = (k', journal', r) ->
    stands k' y = true /\ exists tail, journal' = journal ++ tail /\ Forall (fun c => is_plain_undo c = true) tail
      /\ forall e, UndoAdd e ∈ tail -> AddRoute e ∈ a :: actions /\ clashes_with e y = false).
  { intros k1 Hk1 (Hy' & tail & -> & Hp & Ht)%IH; [|done..]. split; [done|]. exists tail. split_and!; [done..|].
    intros e [? ?]%Ht. split; [by right|done]. }
  assert (Hstop : forall k1, stands k1 y = true -> k1 = k' -> journal = journal' ->
    stands k' y = true /\ exists tail, journal' = journal ++ tail /\ Forall (fun c => is_plain_undo c = true) tail
      /\ forall e, UndoAdd e ∈ tail -> AddRoute e ∈ a :: actions /\ clashes_with e y = false).
  { intros k1 Hk1 <- <-. split; [done|]. exists []. rewrite app_nil_r. split_and!; [done..|]. by intros e ?%not_elem_of_nil. }
  assert (Hstep : forall c k1, stands k1 y = true -> is_plain_undo c = true ->
    (forall e, c = UndoAdd e -> AddRoute e ∈ a :: actions /\ clashes_with e y = false) ->
    execute k1 (journal ++ [c]) actions = (k', journal', r) ->
    stands k' y = true /\ exists tail, journal' = journal ++ tail /\ Forall (fun c => is_plain_undo c = true) tail
      /\ forall e, UndoAdd e ∈ tail -> AddRoute e ∈ a :: actions /\ clashes_with e y = false).
  { intros c k1 Hk1 Hc Hce (Hy' & tail & -> & Hp & Ht)%IH; [|done..]. split; [done|]. exists (c :: tail). rewrite <- app_assoc.
    split_and!; [done|by constructor|]. intros e [<-|[? ?]%Ht]%elem_of_cons; [by apply Hce|]. split; [by right|done]. }
  destruct a as [e|e|]; [..|done]; cbn [execute_one].
  - destruct (create_row_cases k e) as [(k1 & z & o & -> & Hfree & _ & _ & _ & Hk1)|(k1 & er & -> & Hk1 & _)]; cycle 1.
    { case_bool_decide; [apply Hskip; by rewrite Hk1|]. intros [= ? ? _]. apply (Hstop k1); [by rewrite Hk1|done..]. }
    apply Hstep; [by rewrite Hk1, Hy, orb_true_r|done|]. intros e' [= <-]. split; [by left|]. apply not_true_iff_false. intros Hc%Hfree. congruence.
  - destruct (delete_row_cases k e) as [(k1 & -> & _ & _ & Hk1)|(k1 & er & -> & Hk1 & _)]; cycle 1.
    { case_bool_decide; [apply Hskip; by rewrite Hk1|]. intros [= ? ? _]. apply (Hstop k1); [by rewrite Hk1|done..]. }
    apply Hstep; [|done|by intros e' [=]]. rewrite Hk1; [done|]. apply Hdel. by left.
Qed.

Lemma undo_spares y l : Forall (fun c => is_plain_undo c = true) l -> (forall e, UndoAdd e ∈ l -> names_row e y = false) ->
  forall k res, stands k y = true -> stands (undo_all l (k, res)).1 y = true.
Proof.
  induction 1 as [|c l Hc _ IH]; intros Hadd k res Hy; [done|]. cbn [fold_left].
  assert (Hadd' : forall e, UndoAdd e ∈ l -> names_row e y = false) by (intros e He; apply Hadd; by right).
  destruct c as [e|e|]; [..|done]; cbn [undo_one]; unfold delete_tolerant, create_tolerant.
  - assert (He : names_row e y = false) by (apply Hadd; by left).
    destruct (delete_row_cases k e) as [(k1 & -> & _ & _ & Hk1)|(k1 & er & -> & Hk1 & _)]; [|case_bool_decide];
      apply IH; rewrite ?Hk1; done.
  - destruct (create_row_cases k e) as [(k1 & z & o & -> & _ & _ & _ & _ & Hk1)|(k1 & er & -> & Hk1 & _)]; [|case_bool_decide];
      apply IH; rewrite ?Hk1, ?Hy, ?orb_true_r; done.
Qed.

(** A row no delete of a batch names outlives the batch and its rollback, if what the batch
    adds carries a metric. *)
Lemma batch_spares y actions k k' journal r : Forall (fun a => is_plain_action a = true) actions ->
  (forall d, DeleteRoute d ∈ actions -> names_row d y = false) -> (forall e, AddRoute e ∈ actions -> metric e <> 0) ->
  stands k y = true -> execute k [] actions = (k', journal, r) ->
  stands k' y = true /\ stands (rollback_with_residue k' journal).1 y = true.
Proof.
  intros Hp Hdel Hm Hy E. destruct (execute_spares y actions Hp Hdel _ _ _ _ _ Hy E) as (Hy' & tail & -> & Hu & Ht). split; [done|].
  unfold rollback_with_residue. cbn [app]. apply undo_spares; [by rewrite reverse_Permutation| |done].
  intros e [Ha Hc]%elem_of_reverse%Ht. apply not_true_iff_false. intros Hn%names_clash; [congruence|by apply Hm].
Qed.

End Rows.

(** ** A table to run on

    Rows in a list; the keys in [locked] refuse every change with access denied. *)

Record BookTable := mkBook { book_rows : list RouteEntry; locked : list RouteKey }.

#[export] Instance BookTable_port : RouteTablePort BookTable := {
  get_ip_forward_table b := Ok (book_rows b);
  create_ip_forward_entry b r :=
    if bool_decide (route_key r ∈ locked b) then (b, Err (AccessDenied []))
    else if bool_decide (route_key r ∈ keys (book_rows b)) then (b, Err (Win32 [] ERROR_OBJECT_ALREADY_EXISTS []))
    else (mkBook (book_rows b ++ [r]) (locked b), Ok tt);
  delete_ip_forward_entry b r :=
    if bool_decide (route_key r ∈ locked b) then (b, Err (AccessDenied []))
    else if bool_decide (route_key r ∈ keys (book_rows b))
         then (mkBook (List.filter (fun o => negb (bool_decide (route_key o = route_key r))) (book_rows b)) (locked b), Ok tt)
         else (b, Err (Win32 [] ERROR_NOT_FOUND []));
}.

(** The numbers of Linux. *)
#[export] Instance linux_libc : Libc := {
  ENOENT := 2; ESRCH := 3; ENODEV := 19; EEXIST := 17; EPERM := 1; EACCES := 13; EAGAIN := 11; EBUSY := 16; EINTR := 4; ENOBUFS := 105;
}.

#[export, program] Instance BookTable_laws : KernelLaws BookTable := {
  holds b x := bool_decide (x ∈ keys (book_rows b));
}.
Next Obligation.
  intros b rows [= <-] x. rewrite bool_decide_eq_true, list_elem_of_fmap. split; intros (r & ? & ?); exists r; auto.
Qed.
Next Obligation.
  intros b r b'. cbn. case_bool_decide; [done|]. case_bool_decide as Hin; [done|]. intros [= <-]. split; [done|].
  intros x. rewrite <- bool_decide_or. apply bool_decide_ext. cbn. rewrite fmap_app, elem_of_app. cbn. rewrite list_elem_of_singleton. tauto.
Qed.
Next Obligation.
  intros b r b' e. cbn. case_bool_decide; [by intros [= <- <-]|]. case_bool_decide as Hin; [|done]. intros [= <- <-]. done.
Qed.
Next Obligation.
  intros b r b'. cbn. case_bool_decide; [done|]. case_bool_decide as Hin; [|done]. intros [= <-]. split; [done|].
  intros x. rewrite <- bool_decide_not, <- bool_decide_and. apply bool_decide_ext. cbn.
  rewrite !list_elem_of_fmap. setoid_rewrite list_elem_of_In. setoid_rewrite List.filter_In.
  setoid_rewrite negb_true_iff. setoid_rewrite bool_decide_eq_false. split.
  - intros (o & -> & Ho & Hne). eauto.
  - intros (Hne & o & -> & Ho). eauto.
Qed.
Next Obligation.
  intros b r b' e. cbn. case_bool_decide; [by intros [= <- <-]|]. case_bool_decide as Hin; [done|]. intros [= <- <-]. done.
Qed.

(** Its rows are the entries themselves, each known by its key. *)
#[export, program] Instance BookTable_rows : TableLaws BookTable := {
  TableRow := RouteEntry;
  stands b y := bool_decide (y ∈ book_rows b);
  row_place y := (destination y, prefix_length y, table y);
  seen_as y := Some y;
  table_shown t := t;
  hop_shown _ hop := hop;
  names_row e y := bool_decide (route_key y = route_key e);
  clashes_with e y := bool_decide (route_key y = route_key e);
}.
Next Obligation.
  intros b rows [= <-] e. setoid_rewrite bool_decide_eq_true. split; [eauto|]. by intros (y & ? & [= ->]).
Qed.
Next Obligation. by intros y e [= ->]. Qed.
Next Obligation.
  intros b e b'. cbn. case_bool_decide; [done|]. case_bool_decide as Hin; [done|]. intros [= <-]. split.
  - intros y Hy%bool_decide_eq_true. apply bool_decide_eq_false. intros Hb. apply Hin. rewrite <- Hy. by apply list_elem_of_fmap_2.
  - exists e, e. split_and!; [by apply bool_decide_eq_true|done..|]. intros x. rewrite <- bool_decide_or. apply bool_decide_ext. cbn.
    rewrite elem_of_app, list_elem_of_singleton. tauto.
Qed.
Next Obligation.
  intros b e b' er. cbn. case_bool_decide; [by intros [= <- <-]|]. case_bool_decide as Hin; [|done]. intros [= <- <-]. split; [done|].
  intros _. apply list_elem_of_fmap in Hin as (y & Hk & Hy). exists y. by rewrite !bool_decide_eq_true.
Qed.
Next Obligation.
  intros b e b'. cbn. case_bool_decide; [done|]. case_bool_decide as Hin; [|done]. intros [= <-]. cbn.
  assert (Hleft : forall y, y ∈ List.filter (fun o => negb (bool_decide (route_key o = route_key e))) (book_rows b)
    <-> y ∈ book_rows b /\ route_key y <> route_key e) by (intros y; by rewrite !list_elem_of_In, List.filter_In, negb_true_iff, bool_decide_eq_false).
  split_and!.
  - apply list_elem_of_fmap in Hin as (y & Hk & Hy). exists y. rewrite !bool_decide_eq_true, bool_decide_eq_false, Hleft. split_and!; [done..|]. by intros [_ ?].
  - intros x. rewrite !bool_decide_eq_true, Hleft. tauto.
  - intros x Hx%bool_decide_eq_false. apply bool_decide_ext. rewrite Hleft. tauto.
Qed.
Next Obligation.
  intros b e b' er. cbn. case_bool_decide; [by intros [= <- <-]|]. case_bool_decide as Hin; [done|]. intros [= <- <-]. split; [done|].
  intros _ y Hy%bool_decide_eq_true. apply bool_decide_eq_false. intros Hb. apply Hin. rewrite <- Hy. by apply list_elem_of_fmap_2.
Qed.
Next Obligation. intros e y Hk%bool_decide_eq_true. unfold route_key in Hk. split; [congruence|]. intros o [= <-]. congruence. Qed.
Next Obligation. intros e y Hk%bool_decide_eq_true. unfold route_key in Hk. congruence. Qed.
Next Obligation. done. Qed.
Next Obligation. done. Qed.
Next Obligation. intros e e' y Hk _. cbn. by rewrite Hk. Qed.

(** A host row, a row of the network a VPN client holds, and a row nobody may touch. *)
Definition host_row (last hop : Z) : RouteEntry :=
  mkRoute (V4 (0xC6336400 + last)) 32 (V4 hop) 7 SECONDARY_ROUTE_METRIC false MainTable.

Definition vpn_row : RouteEntry := mkRoute (V4 0x80000000) 1 (V4 0x0A5BC001) 78 20 false MainTable.

Definition desk_table : BookTable := mkBook [host_row 1 0x0A000001; vpn_row; host_row 2 0x0A000001] [route_key (host_row 9 0x0A000001)].

Definition desk_batch : list RoutingAction :=
  [DeleteRoute (host_row 1 0x0A000001); AddRoute (host_row 3 0x0A000001); AddRoute vpn_row; AddRoute (host_row 9 0x0A000001)].

Lemma transaction_atomic_witness :
  Forall (fun a => is_plain_action a = true) desk_batch
  /\ snd (execute desk_table [] desk_batch) = Err (AccessDenied [])
  /\ (let '(k1, journal, _) := execute desk_table [] desk_batch in
      let '(k2, residue) := rollback_with_residue k1 journal in
      (forall x, (x ∉ keys (still_added residue ++ still_removed residue)) -> holds k2 x = holds desk_table x)
      /\ (errors residue = [] -> forall x, holds k2 x = holds desk_table x)).
Proof. split_and!; [by repeat constructor|by vm_compute|]. apply (transaction_atomic desk_table desk_batch). by repeat constructor. Defined.

Lemma sweep_exact_witness :
  get_ip_forward_table desk_table = Ok (book_rows desk_table)
  /\ snd (sweep_owned_routes desk_table) = Ok 2%nat
  /\ (let '(k', swept) := sweep_owned_routes_with desk_table (fun _ => false) in
      (forall x, (forall r, r ∈ book_rows desk_table -> route_key r = x -> is_owned_route r || false = false) -> holds k' x = holds desk_table x)
      /\ (match swept with
          | Ok _ => forall r, r ∈ book_rows desk_table -> is_owned_route r || false = true -> holds k' (route_key r) = false
          | Err (Enumerate _) => False
          | Err (DeleteFailed _) => True
          end)).
Proof. split_and!; [done|by vm_compute|]. apply (sweep_exact desk_table (fun _ => false) (book_rows desk_table)). done. Defined.

(** An update that meets another program's row keeps the undo of a swap: rolling back
    deletes that row, and restores an old row that was not there. *)
Example update_conflict_undone :
  let '(k1, journal, r) := execute desk_table [] [UpdateRoute (host_row 5 0x0A000001) vpn_row] in
  let '(k2, residue) := rollback_with_residue k1 journal in
  r = Ok tt /\ errors residue = []
  /\ holds desk_table (route_key vpn_row) = true /\ holds k2 (route_key vpn_row) = false
  /\ holds desk_table (route_key (host_row 5 0x0A000001)) = false /\ holds k2 (route_key (host_row 5 0x0A000001)) = true.
Proof. by vm_compute. Qed.
