(* ===== verification/Reconcile.v ===== *)
(** * The route reconciler

    Bringing the route table into line with the routes wanted
    (service-runtime/src/route_reconciler.rs): the routes we own, the routes that
    went in ahead of a pass, the contests over routes another program keeps
    removing, the pass itself, the install beside it and the stop.

    Every operation runs under the owned-set lock, so each is one step on the state
    [Reconciler] and the table. The clock is read where the code reads it; the
    answers of the teardown latch are the function [gate], asked once per add. *)

From stdpp Require Import base numbers list countable gmap sets relations.
From S2P Require Import Prelude Str IpAddr IpBlock NetPolicy RouteTable.

Open Scope Z_scope.

(** ** The owned set *)

Abbreviation PresenceKey := (IpAddr * Z * Z * RouteTableRef)%type.

Definition presence_key (r : RouteEntry) : PresenceKey :=
  (destination r, prefix_length r, interface_index r, table r).

Definition has (l : list RouteKey) (x : RouteKey) : bool := bool_decide (x ∈ l).

(** Instants in nanoseconds. *)
Definition from_secs (s : Z) : Z := s * 1000000000.

Definition CONTEST_LIMIT : nat := 3.
Definition CONTEST_WINDOW : Z := from_secs 60.
Definition CONTEST_BACKOFF : Z := from_secs 300.

Record Contest := mkContest { put_back : list Z; held_until : option Z }.

Record OwnedRoutes := mkOwned {
  routes : list RouteEntry;
  ahead : list (RouteKey * Z);
  contested : gmap RouteKey Contest;
}.

Record TableReading := mkReading { reading_writes : Z; rows : list RouteEntry }.

Definition installed_after (owned : OwnedRoutes) (key : RouteKey) (planned_at : Z) : bool :=
  existsb (fun '(k, at_) => bool_decide (k = key) && (planned_at <? at_)) (ahead owned).

Definition note_vanished (owned : OwnedRoutes) (key : RouteKey) (now : Z) : OwnedRoutes * bool :=
  let contest := default (mkContest [] None) (contested owned !! key) in
  let put_back' := List.filter (fun at_ => Z.max 0 (now - at_) <? CONTEST_WINDOW) (put_back contest) ++ [now] in
  if (length put_back' <? CONTEST_LIMIT)%nat
  then (mkOwned (routes owned) (ahead owned) (<[key := mkContest put_back' (held_until contest)]> (contested owned)), false)
  else (mkOwned (routes owned) (ahead owned) (<[key := mkContest [] (Some (now + CONTEST_BACKOFF))]> (contested owned)), true).

Definition held_out (owned : OwnedRoutes) (key : RouteKey) (now : Z) : bool :=
  match contested owned !! key ≫= held_until with Some until => now <? until | None => false end.

Definition let_go (now : Z) (contest : Contest) : Contest :=
  match held_until contest with
  | Some until => if until <=? now then mkContest (put_back contest) None else contest
  | None => contest
  end.

Definition settle_contests (owned : OwnedRoutes) (desired : list RouteKey) (now : Z) : OwnedRoutes :=
  mkOwned (routes owned) (ahead owned)
    (let_go now <$> filter (fun kc => kc.1 ∈ desired) (contested owned)).

(** ** The reconciler *)

Record RouteReconcileDelta := mkDelta { added : nat; removed : nat }.

Record Reconciler := mkReconciler { owned : OwnedRoutes; writes : Z }.

Definition new_reconciler : Reconciler := mkReconciler (mkOwned [] [] ∅) 0.

(** [AtomicU64::fetch_add(1)]. *)
Definition bump (w : Z) : Z := (w + 1) mod 2 ^ 64.

Definition adopt_owned (r : Reconciler) (found : list RouteEntry) : Reconciler :=
  mkReconciler (mkOwned found [] ∅) (writes r).

Definition owns (r : Reconciler) (route : RouteEntry) : bool :=
  existsb (fun our => bool_decide (destination our = destination route) && (prefix_length our =? prefix_length route)
                      && (interface_index our =? interface_index route)) (routes (owned r)).

Definition owned_count (r : Reconciler) : nat := length (routes (owned r)).

Definition write_count (r : Reconciler) : Z := writes r.

(** [if !routes.iter().any(same key) { push }]. *)
Definition push_new (l : list RouteEntry) (route : RouteEntry) : list RouteEntry :=
  if has (keys l) (route_key route) then l else l ++ [route].

Section Passes.
Context {K : Type} `{!RouteTablePort K} `{!Libc}.

Definition adopt_signed_routes_with (k : K) (r : Reconciler) (also_ours : RouteEntry -> bool) : Reconciler * result nat PlatformError :=
  match signed_routes k also_ours with
  | Err e => (r, Err e)
  | Ok found =>
      (mkReconciler (mkOwned (fold_left push_new found (routes (owned r))) (ahead (owned r)) (contested (owned r))) (writes r),
       Ok (length found))
  end.

Definition adopt_signed_routes (k : K) (r : Reconciler) : Reconciler * result nat PlatformError :=
  adopt_signed_routes_with k r (fun _ => false).

(** The rows a check of the kept routes looks at: the caller's reading unless a write
    of ours followed it, else a fresh one. *)
Definition rows_seen (k : K) (w : Z) (seen : option TableReading) : option (list RouteEntry) :=
  let fresh := match get_ip_forward_table k with Ok rows => Some rows | Err _ => None end in
  match seen with
  | Some reading => if reading_writes reading =? w then Some (rows reading) else fresh
  | None => fresh
  end.

Definition still_there (desired : list RouteKey) (rows : list RouteEntry) (o : RouteEntry) : bool :=
  negb (has desired (route_key o)) || bool_decide (presence_key o ∈ presence_key <$> rows).

Definition forget_vanished (k : K) (w : Z) (owned : OwnedRoutes) (desired : list RouteKey) (seen : option TableReading)
    (now : Z) : OwnedRoutes :=
  if negb (existsb (fun o => has desired (route_key o)) (routes owned)) then owned
  else match rows_seen k w seen with
       | None => owned
       | Some rows =>
           let vanished := List.filter (fun o => negb (still_there desired rows o)) (routes owned) in
           fold_left (fun owned route => fst (note_vanished owned (route_key route) now)) vanished
             (mkOwned (List.filter (still_there desired rows) (routes owned)) (ahead owned) (contested owned))
       end.

(** Is an owned route the plan does not want kept, for having gone in after it? *)
Definition keeps_ahead (owned : OwnedRoutes) (planned_at : option Z) (key : RouteKey) : bool :=
  match planned_at with Some at_ => installed_after owned key at_ | None => false end.

(** The adds of a pass; [asked] counts the questions put to the latch. *)
Fixpoint plan_adds (owned : OwnedRoutes) (now : Z) (gate : nat -> bool) (asked : nat) (desired : list RouteEntry) : list RouteEntry :=
  match desired with
  | [] => []
  | r :: rest =>
      if has (keys (routes owned)) (route_key r) then plan_adds owned now gate asked rest
      else if held_out owned (route_key r) now then plan_adds owned now gate asked rest
      else if gate asked then plan_adds owned now gate (S asked) rest
      else r :: plan_adds owned now gate (S asked) rest
  end.

(** The owned set a pass starts its diff from: contests settled, vanished routes forgotten,
    and what the plan wants no longer ahead of it. [now] is the clock at the start of the
    pass, [now'] its reading when routes have vanished. *)
Definition pass_owned (k : K) (r : Reconciler) (desired_keys : list RouteKey) (seen : option TableReading) (now now' : Z) : OwnedRoutes :=
  let owned0 := settle_contests (owned r) desired_keys now in
  let owned1 := forget_vanished k (writes r) owned0 desired_keys seen now' in
  mkOwned (routes owned1) (List.filter (fun '(x, _) => negb (has desired_keys x)) (ahead owned1)) (contested owned1).

Definition reconcile_owned (k : K) (r : Reconciler) (desired : list RouteEntry) (planned_at : option Z)
    (seen : option TableReading) (now now' : Z) (gate : nat -> bool)
  : K * Reconciler * result RouteReconcileDelta PlatformError :=
  let desired_keys := keys desired in
  let owned2 := pass_owned k r desired_keys seen now now' in
  let owned_keys := keys (routes owned2) in
  let unwanted := List.filter (fun o => negb (has desired_keys (route_key o))) (routes owned2) in
  let kept_ahead := List.filter (fun o => keeps_ahead owned2 planned_at (route_key o)) unwanted in
  let dropped := List.filter (fun o => negb (keeps_ahead owned2 planned_at (route_key o))) unwanted in
  let owned3 := mkOwned (routes owned2) (List.filter (fun '(x, _) => has (keys kept_ahead) x) (ahead owned2)) (contested owned2) in
  let adds := plan_adds owned3 now gate 0 desired in
  let actions := (DeleteRoute <$> dropped) ++ (AddRoute <$> adds) in
  match actions with
  | [] => (k, mkReconciler owned3 (writes r), Ok (mkDelta 0 0))
  | _ =>
      match execute k [] actions with
      | (k, journal, Ok _) =>
          let landed := keys (added_routes journal) in
          (k, mkReconciler
                (mkOwned (List.filter (fun d => has landed (route_key d) || has owned_keys (route_key d)) desired ++ kept_ahead)
                   (ahead owned3) (contested owned3))
                (bump (writes r)),
           Ok (mkDelta (length adds) (length dropped)))
      | (k, journal, Err e) =>
          let '(k, residue) := rollback_with_residue k journal in
          (k, mkReconciler
                (mkOwned (fold_left push_new (still_added residue)
                            (List.filter (fun o => negb (has (keys (still_removed residue)) (route_key o))) (routes owned3)))
                   (ahead owned3) (contested owned3))
                (bump (writes r)),
           Err e)
      end
  end.

Definition reconcile (k : K) (r : Reconciler) (desired : list RouteEntry) := reconcile_owned k r desired None None.

Definition reconcile_planned (k : K) (r : Reconciler) (desired : list RouteEntry) (planned_at : Z) :=
  reconcile_owned k r desired (Some planned_at) None.

Definition reconcile_seen (k : K) (r : Reconciler) (desired : list RouteEntry) (planned_at : Z) (seen : option TableReading) :=
  reconcile_owned k r desired (Some planned_at) seen.

Definition clear (k : K) (r : Reconciler) := reconcile k r [].

Definition install_additional (k : K) (r : Reconciler) (extra : list RouteEntry) (gate : bool) : K * Reconciler * result nat PlatformError :=
  if gate then (k, r, Ok 0%nat)
  else
    let fresh := List.filter (fun e => negb (has (keys (routes (owned r))) (route_key e))) extra in
    match AddRoute <$> fresh with
    | [] => (k, r, Ok 0%nat)
    | actions =>
        let installed_at := writes r + 1 in
        match execute k [] actions with
        | (k, journal, Err e) =>
            let '(k, residue) := rollback_with_residue k journal in
            (k, mkReconciler (mkOwned (routes (owned r) ++ still_added residue) (ahead (owned r)) (contested (owned r))) (bump (writes r)), Err e)
        | (k, journal, Ok _) =>
            let landed := added_routes journal in
            (k, mkReconciler (mkOwned (routes (owned r) ++ landed)
                                (ahead (owned r) ++ ((fun e => (route_key e, installed_at)) <$> landed)) (contested (owned r)))
                  (bump (writes r)),
             Ok (length landed))
        end
    end.

Definition retain_rule_routes (k : K) (r : Reconciler) :=
  reconcile_owned k r (List.filter (fun e => negb (is_overlay_route e)) (routes (owned r))) None None.

End Passes.

(** ** Lists and keys *)

Lemma has_spec l x : has l x = true <-> x ∈ l.
Proof. apply bool_decide_eq_true. Qed.

Lemma has_false l x : has l x = false <-> (x ∉ l).
Proof. apply bool_decide_eq_false. Qed.

(** Filtering rows by a test of their keys filters the keys. *)
Lemma keys_filter (P : RouteKey -> bool) (l : list RouteEntry) x :
  x ∈ keys (List.filter (fun o => P (route_key o)) l) <-> x ∈ keys l /\ P x = true.
Proof.
  rewrite !list_elem_of_fmap. setoid_rewrite list_elem_of_In. setoid_rewrite List.filter_In. split.
  - intros (o & -> & Ho & Hp). eauto.
  - intros [(o & -> & Ho) Hp]. eauto.
Qed.

Lemma keys_push_all found : forall l x, x ∈ keys (fold_left push_new found l) <-> x ∈ keys l \/ x ∈ keys found.
Proof.
  induction found as [|f found IH]; intros l x; cbn [fold_left].
  { cbn. rewrite elem_of_nil. tauto. }
  rewrite IH. unfold push_new. cbn [fmap list_fmap]. rewrite elem_of_cons. destruct (has (keys l) (route_key f)) eqn:E.
  - apply has_spec in E. split; [tauto|]. intros [|[->|]]; auto.
  - rewrite fmap_app, elem_of_app. cbn. rewrite list_elem_of_singleton. tauto.
Qed.

(** ** The diff *)

Lemma note_vanished_routes owned key now : routes (fst (note_vanished owned key now)) = routes owned
  /\ ahead (fst (note_vanished owned key now)) = ahead owned.
Proof. unfold note_vanished. by case_match. Qed.

Lemma note_all_routes vanished now : forall owned,
  let owned' := fold_left (fun owned route => fst (note_vanished owned (route_key route) now)) vanished owned in
  routes owned' = routes owned /\ ahead owned' = ahead owned.
Proof.
  induction vanished as [|v vanished IH]; intros owned; [done|]. cbn [fold_left].
  destruct (IH (fst (note_vanished owned (route_key v) now))) as [-> ->]. apply note_vanished_routes.
Qed.

Section PassLemmas.
Context {K : Type} `{!RouteTablePort K} `{!Libc}.
Implicit Types (k : K) (r : Reconciler) (seen : option TableReading).

(** A pass forgets only wanted routes, and those the rows it looks at do not show. *)
Lemma pass_owned_keys k r desired seen now now' x :
  x ∈ keys (routes (pass_owned k r desired seen now now'))
  <-> x ∈ keys (routes (owned r))
      /\ ((x ∉ desired) \/ match rows_seen k (writes r) seen with
                           | Some rows => exists o, o ∈ rows /\ presence_key o = (x.1.1.1.1, x.1.1.1.2, x.1.2, x.2)
                           | None => True
                           end).
Proof.
  unfold pass_owned, forget_vanished. cbn [routes settle_contests ahead contested].
  destruct (existsb _ _) eqn:E; cbn [negb].
  - destruct (rows_seen k (writes r) seen) as [rws|]; [|tauto].
    set (P := fun x : RouteKey => negb (has desired x) || bool_decide ((x.1.1.1.1, x.1.1.1.2, x.1.2, x.2) ∈ presence_key <$> rws)).
    edestruct note_all_routes as [-> _]. cbn [routes].
    change (still_there desired rws) with (fun o => P (route_key o)). rewrite keys_filter. unfold P.
    rewrite orb_true_iff, negb_true_iff, has_false, bool_decide_eq_true, (list_elem_of_fmap presence_key).
    split; intros [Hx [Hd|(o & Ho & Hp)]]; (split; [exact Hx|]); eauto.
  - split; [|tauto]. intros Hx. split; [done|]. left. intros Hd. apply not_true_iff_false in E. apply E.
    apply existsb_exists. apply list_elem_of_fmap in Hx as (o & -> & Ho). exists o. split; [by apply list_elem_of_In|by apply has_spec].
Qed.

Lemma plan_adds_sound owned now gate desired : forall asked (e : RouteEntry), e ∈ plan_adds owned now gate asked desired ->
  e ∈ desired /\ (route_key e ∉ keys (routes owned)) /\ held_out owned (route_key e) now = false.
Proof.
  induction desired as [|d desired IH]; intros asked e; cbn [plan_adds]; [by intros ?%not_elem_of_nil|].
  destruct (has _ _) eqn:E; [|destruct (held_out owned _ now) eqn:Hh; [|destruct (gate asked)]];
    rewrite ?elem_of_cons; try (intros Hr%IH; tauto).
  intros [->|Hr%IH]; [|tauto]. apply has_false in E. tauto.
Qed.

Lemma plan_adds_complete owned now gate desired : (forall n, gate n = false) -> forall asked (e : RouteEntry), e ∈ desired ->
  (route_key e ∉ keys (routes owned)) -> held_out owned (route_key e) now = false -> e ∈ plan_adds owned now gate asked desired.
Proof.
  intros Hgate. induction desired as [|d desired IH]; intros asked e; cbn [plan_adds]; [by intros ?%not_elem_of_nil|].
  intros [->|Hr]%elem_of_cons Hown Hheld.
  - apply has_false in Hown. rewrite Hown, Hheld, Hgate. by constructor.
  - repeat case_match; rewrite ?elem_of_cons; auto.
Qed.

(** The routes a pass starts its diff from, one by one. *)
Lemma pass_owned_routes k r desired seen now now' e :
  e ∈ routes (pass_owned k r desired seen now now')
  <-> e ∈ routes (owned r)
      /\ ((route_key e ∉ desired) \/ match rows_seen k (writes r) seen with
                                     | Some rows => exists o, o ∈ rows /\ presence_key o = presence_key e
                                     | None => True
                                     end).
Proof.
  unfold pass_owned, forget_vanished. cbn [routes settle_contests ahead contested].
  destruct (existsb _ _) eqn:E; cbn [negb].
  - destruct (rows_seen k (writes r) seen) as [rws|]; [|tauto]. edestruct note_all_routes as [-> _]. cbn [routes].
    rewrite filter_elem. unfold still_there.
    rewrite orb_true_iff, negb_true_iff, has_false, bool_decide_eq_true, list_elem_of_fmap. split; intros [He [Hd|(o & ? & ?)]]; (split; [done|]); eauto.
  - split; [|tauto]. intros He. split; [done|]. left. intros Hd. apply not_true_iff_false in E. apply E, existsb_exists.
    exists e. split; [by apply list_elem_of_In|by apply has_spec].
Qed.

(** ** What a pass does *)

Context `{!KernelLaws K}.

(** The rows a pass takes out, and those it keeps for having gone in after its plan. *)
Definition drops (o : OwnedRoutes) (desired : list RouteKey) (planned_at : option Z) (x : RouteKey) : Prop :=
  x ∈ keys (routes o) /\ (x ∉ desired) /\ keeps_ahead o planned_at x = false.

Definition spares (o : OwnedRoutes) (desired : list RouteKey) (planned_at : option Z) (x : RouteKey) : Prop :=
  x ∈ keys (routes o) /\ (x ∉ desired) /\ keeps_ahead o planned_at x = true.

Lemma keys_dropped o desired planned_at x :
  x ∈ keys (List.filter (fun e => negb (keeps_ahead o planned_at (route_key e)))
              (List.filter (fun e => negb (has desired (route_key e))) (routes o))) <-> drops o desired planned_at x.
Proof.
  unfold drops. etransitivity; [apply (keys_filter (fun x => negb (keeps_ahead o planned_at x)))|].
  etransitivity; [apply and_iff_compat_r, (keys_filter (fun x => negb (has desired x)))|].
  rewrite !negb_true_iff, has_false. tauto.
Qed.

Lemma keys_spared o desired planned_at x :
  x ∈ keys (List.filter (fun e => keeps_ahead o planned_at (route_key e))
              (List.filter (fun e => negb (has desired (route_key e))) (routes o))) <-> spares o desired planned_at x.
Proof.
  unfold spares. etransitivity; [apply (keys_filter (keeps_ahead o planned_at))|].
  etransitivity; [apply and_iff_compat_r, (keys_filter (fun x => negb (has desired x)))|].
  rewrite !negb_true_iff, has_false. tauto.
Qed.

(** A pass, by its outcome: what the table holds and which rows are claimed. [adds] are
    the rows it asked for, [kept] and [lost] what the rollback could not undo. *)
Lemma pass_outcome k r desired planned_at seen now now' gate :
  let '(k', r', res) := reconcile_owned k r desired planned_at seen now now' gate in
  let o := pass_owned k r (keys desired) seen now now' in
  exists adds : list RouteEntry,
  adds ⊆ desired /\ (forall x, x ∈ keys adds -> (x ∉ keys (routes o)) /\ held_out o x now = false)
  /\ ((forall n, gate n = false) -> forall e, e ∈ desired -> (route_key e ∉ keys (routes o)) -> held_out o (route_key e) now = false -> e ∈ adds)
  /\ match res with
     | Ok _ =>
         (forall x, holds k' x = true <-> x ∈ keys adds \/ holds k x = true /\ ~ drops o (keys desired) planned_at x)
         /\ (forall x, x ∈ keys (routes (owned r')) <->
               x ∈ keys desired /\ x ∈ keys (routes o) \/ x ∈ keys adds /\ holds k x = false \/ spares o (keys desired) planned_at x)
     | Err _ =>
         exists kept lost : list RouteKey, (forall x, x ∈ kept -> x ∈ keys adds /\ holds k x = false)
         /\ (forall x, x ∈ lost -> drops o (keys desired) planned_at x)
         /\ (forall x, holds k' x = true <-> x ∈ kept \/ holds k x = true /\ (x ∉ lost))
         /\ (forall x, x ∈ keys (routes (owned r')) <-> x ∈ keys (routes o) /\ (x ∉ lost) \/ x ∈ kept)
     end.
Proof.
  unfold reconcile_owned. cbv zeta. set (o := pass_owned k r (keys desired) seen now now').
  set (dropped := List.filter (fun e => negb _) (List.filter _ (routes o))).
  set (spared := List.filter _ (List.filter _ (routes o))).
  set (o3 := mkOwned (routes o) _ (contested o)). set (adds := plan_adds o3 now gate 0 desired).
  assert (Hd : forall x, x ∈ keys dropped <-> drops o (keys desired) planned_at x) by apply keys_dropped.
  assert (Hs : forall x, x ∈ keys spared <-> spares o (keys desired) planned_at x) by apply keys_spared.
  assert (Hsub : adds ⊆ desired) by (intros e He; by apply (plan_adds_sound o3) in He as (? & _)).
  assert (Hnew : forall x, x ∈ keys adds -> (x ∉ keys (routes o)) /\ held_out o x now = false).
  { intros x (e & -> & He)%list_elem_of_fmap. by apply (plan_adds_sound o3) in He as (_ & ? & ?). }
  assert (Hcomplete : (forall n, gate n = false) -> forall e, e ∈ desired -> (route_key e ∉ keys (routes o)) ->
    held_out o (route_key e) now = false -> e ∈ adds) by (intros ? e ???; by apply (plan_adds_complete o3)).
  assert (Hapart : forall x, x ∈ keys dropped -> (x ∉ keys adds)) by (intros x Hx%Hd Ha; destruct Hx as [Hx _]; by apply (proj1 (Hnew x Ha))).
  destruct ((DeleteRoute <$> dropped) ++ (AddRoute <$> adds)) as [|act acts] eqn:Eacts.
  - apply app_eq_nil in Eacts as [Ed%fmap_nil_inv Ea%fmap_nil_inv]. exists adds. split_and!; [done..| |].
    + intros x. rewrite <- Hd, Ed, Ea. cbn. rewrite elem_of_nil. tauto.
    + intros x. cbn [owned routes o3]. specialize (Hd x). rewrite Ed in Hd. rewrite Ea. cbn in Hd |- *. rewrite !elem_of_nil in *.
      unfold drops, spares in *. destruct (decide (x ∈ keys desired)), (keeps_ahead o planned_at x); naive_solver.
  - rewrite <- Eacts. destruct (execute k [] _) as [[k1 journal] res] eqn:Ex. apply (replace_rows k) in Ex; [|done].
    destruct res as [u|er].
    + destruct Ex as (Htab & Hadd & Hland). exists adds. split_and!; [done..| |].
      * intros x. rewrite Htab, orb_true_iff, andb_true_iff, negb_true_iff, bool_decide_eq_true, bool_decide_eq_false, Hd. done.
      * intros x. cbn [owned routes]. rewrite fmap_app, elem_of_app.
        rewrite (keys_filter (fun d => has (keys (added_routes journal)) d || has (keys (routes o)) d)).
        rewrite orb_true_iff, !has_spec, Hland, Hs. pose proof (keys_mono _ _ Hsub x). tauto.
    + destruct Ex as (k2 & es & kept & lost & -> & Hkept & Hlost & Hfree & Htab). exists adds. split_and!; [done..|].
      exists (keys kept), (keys lost). cbn [still_added still_removed]. split_and!.
      * intros x Hx. split; [by apply (keys_mono kept)|by apply Hfree].
      * intros x Hx. apply Hd. by apply (keys_mono lost).
      * intros x. rewrite Htab, orb_true_iff, andb_true_iff, negb_true_iff, bool_decide_eq_true, bool_decide_eq_false. done.
      * intros x. cbn [owned routes]. rewrite keys_push_all, (keys_filter (fun d => negb (has (keys lost) d))).
        rewrite negb_true_iff, has_false. done.
Qed.

Lemma installed_after_pass k r desired seen now now' x at_ : (x ∉ desired) ->
  installed_after (pass_owned k r desired seen now now') x at_ = installed_after (owned r) x at_.
Proof.
  intros Hx. unfold pass_owned, installed_after. cbn [ahead].
  assert (ahead (forget_vanished k (writes r) (settle_contests (owned r) desired now) desired seen now') = ahead (owned r)) as ->.
  { unfold forget_vanished. repeat case_match; try done. by edestruct note_all_routes as [_ ->]. }
  induction (ahead (owned r)) as [|[y a] l IH]; [done|]. cbn. destruct (has desired y) eqn:E; cbn; rewrite IH; [|done].
  apply has_spec in E. rewrite bool_decide_eq_false_2 by (by intros <-). done.
Qed.

(** What a pass drops, told from the owned set it was entered with. *)
Lemma drops_entered k r desired planned_at seen now now' x :
  drops (pass_owned k r desired seen now now') desired planned_at x <-> drops (owned r) desired planned_at x.
Proof.
  unfold drops. rewrite pass_owned_keys. destruct (decide (x ∈ desired)) as [|Hx]; [tauto|].
  assert (keeps_ahead (pass_owned k r desired seen now now') planned_at x = keeps_ahead (owned r) planned_at x) as ->; [|tauto].
  destruct planned_at; [|done]. by apply installed_after_pass.
Qed.

(** The three facts of a pass that hold whatever its outcome: a row that is not ours
    stays and stays not ours, no row of ours is claimed without being in the table, and
    a new claim is a row that was not there. *)
Lemma pass_safe k r desired planned_at seen now now' gate k' r' res :
  reconcile_owned k r desired planned_at seen now now' gate = (k', r', res) ->
  (forall x, holds k x = true -> (x ∉ keys (routes (owned r))) -> holds k' x = true /\ (x ∉ keys (routes (owned r'))))
  /\ ((forall x, x ∈ keys (routes (owned r)) -> holds k x = true) -> forall x, x ∈ keys (routes (owned r')) -> holds k' x = true)
  /\ (forall x, holds k x = true -> ~ drops (owned r) (keys desired) planned_at x -> holds k' x = true).
Proof.
  intros E. pose proof (pass_outcome k r desired planned_at seen now now' gate) as Ho. rewrite E in Ho. cbv zeta in Ho.
  set (o := pass_owned k r (keys desired) seen now now') in Ho.
  assert (Hd : forall x, drops o (keys desired) planned_at x <-> drops (owned r) (keys desired) planned_at x) by (intros x; apply drops_entered).
  assert (Hk : forall x, x ∈ keys (routes o) -> x ∈ keys (routes (owned r))) by (intros x Hx; by apply pass_owned_keys in Hx as [? _]).
  destruct Ho as (adds & Hsub & Hnew & _ & Ho). destruct res as [delta|e].
  - destruct Ho as [Ht Hc]. split_and!.
    + intros x Hx Hno. rewrite Ht, Hc. split.
      * right. split; [done|]. intros [Hx' _]. by apply Hno, Hk.
      * intros [[_ Hx']|[[_ Hx']|[Hx' _]]]; [by apply Hno, Hk|congruence|by apply Hno, Hk].
    + intros Hreal x. rewrite Ht, Hc. unfold drops, spares. intros [[Hx Hx']|[[Hx _]|(Hx & Hx' & Hs)]]; [right|by left|right].
      * split; [by apply Hreal, Hk|]. intros (_ & ? & _). done.
      * split; [by apply Hreal, Hk|]. intros (_ & _ & ?). congruence.
    + intros x Hx Hnd. rewrite Ht, Hd. auto.
  - destruct Ho as (kept & lost & Hkept & Hlost & Ht & Hc). split_and!.
    + intros x Hx Hno. rewrite Ht, Hc. split.
      * right. split; [done|]. intros [Hx' _]%Hlost. by apply Hno, Hk.
      * intros [[Hx' _]|Hx']; [by apply Hno, Hk|]. apply Hkept in Hx' as [_ ?]. congruence.
    + intros Hreal x. rewrite Ht, Hc. intros [[Hx Hx']|Hx]; [right|by left]. split; [by apply Hreal, Hk|done].
    + intros x Hx Hnd. rewrite Ht. right. split; [done|]. intros Hl%Hlost. by apply Hnd, Hd.
Qed.

(** An install beside the owned set, by its outcome. *)
Lemma install_outcome k r extra gate k' r' res :
  install_additional k r extra gate = (k', r', res) ->
  exists claimed : list RouteKey,
  (forall x, x ∈ claimed -> x ∈ keys extra /\ (x ∉ keys (routes (owned r))) /\ holds k x = false)
  /\ (forall x, holds k' x = true <-> x ∈ claimed \/ holds k x = true)
  /\ (forall x, x ∈ keys (routes (owned r')) <-> x ∈ keys (routes (owned r)) \/ x ∈ claimed)
  /\ (gate = false -> forall n, res = Ok n ->
        (forall x, x ∈ keys extra -> (x ∉ keys (routes (owned r))) -> holds k' x = true)
        /\ (forall x, x ∈ claimed -> (x, writes r + 1) ∈ ahead (owned r'))).
Proof.
  unfold install_additional. destruct gate.
  { intros [= <- <- <-]. exists []. split_and!; try done; intros x; rewrite ?elem_of_nil; tauto. }
  set (fresh := List.filter _ extra).
  assert (Hfresh : forall x, x ∈ keys fresh <-> x ∈ keys extra /\ (x ∉ keys (routes (owned r)))).
  { intros x. etransitivity; [apply (keys_filter (fun x => negb (has (keys (routes (owned r))) x)))|]. by rewrite negb_true_iff, has_false. }
  destruct (AddRoute <$> fresh) as [|act acts] eqn:Eacts.
  - apply fmap_nil_inv in Eacts. rewrite Eacts in Hfresh. cbn in Hfresh.
    intros [= <- <- <-]. exists []. split_and!; try (intros x; rewrite ?elem_of_nil; tauto).
    intros _ n _. split; [|by intros x ?%not_elem_of_nil]. intros x He Ho. exfalso. apply (not_elem_of_nil x), Hfresh. done.
  - rewrite <- Eacts. destruct (execute k [] (AddRoute <$> fresh)) as [[k1 journal] out] eqn:Ex.
    apply (replace_rows k [] fresh) in Ex; [|by intros x ?%not_elem_of_nil]. destruct out as [u|e].
    + destruct Ex as (Ht & _ & Hland). intros [= <- <- <-]. exists (keys (added_routes journal)). split_and!.
      * intros x [Hx Hf]%Hland. split_and!; [by apply Hfresh..|done].
      * intros x. rewrite Ht, orb_true_iff, andb_true_iff, bool_decide_eq_true, Hland.
        rewrite (bool_decide_eq_false_2 (x ∈ keys [])) by apply not_elem_of_nil. destruct (holds k x); naive_solver.
      * intros x. cbn [owned routes]. by rewrite fmap_app, elem_of_app.
      * intros _ n _. split.
        -- intros x He Ho. rewrite Ht. apply orb_true_iff. left. by apply bool_decide_eq_true, Hfresh.
        -- intros x (e & -> & He)%list_elem_of_fmap. cbn [owned ahead]. apply elem_of_app. right. apply list_elem_of_fmap. by exists e.
    + destruct Ex as (k2 & es & kept & lost & -> & Hkept & Hlost & Hfree & Ht). intros [= <- <- <-]. exists (keys kept). split_and!.
      * intros x Hx. split_and!; [..|by apply Hfree]; by apply Hfresh, (keys_mono kept).
      * intros x. rewrite Ht, orb_true_iff, andb_true_iff, bool_decide_eq_true, negb_true_iff, bool_decide_eq_false.
        apply list_nil_subseteq in Hlost as ->. cbn. rewrite elem_of_nil. tauto.
      * intros x. cbn [owned routes still_added]. by rewrite fmap_app, elem_of_app.
      * done.
Qed.

Lemma adopt_claims k r also_ours r' res :
  adopt_signed_routes_with k r also_ours = (r', res) -> forall x,
  x ∈ keys (routes (owned r')) <->
    x ∈ keys (routes (owned r))
    \/ exists rows e, get_ip_forward_table k = Ok rows /\ e ∈ rows /\ route_key e = x /\ is_owned_route e || also_ours e = true.
Proof.
  unfold adopt_signed_routes_with. destruct (signed_routes k also_ours) as [found|er] eqn:S; intros [= <- <-] x.
  - cbn [owned routes]. rewrite keys_push_all. unfold signed_routes in S.
    destruct (get_ip_forward_table k) as [rows|] eqn:G; [|done].
    rewrite (signed_routes_keys k also_ours rows found); [|done|by unfold signed_routes; rewrite G].
    split; (intros [?|Hx]; [by left|right]).
    + destruct Hx as (e & ?). exists rows, e. tauto.
    + destruct Hx as (rows' & e & [= <-] & ?). by exists e.
  - unfold signed_routes in S. destruct (get_ip_forward_table k) eqn:G; [done|]. split; [by left|]. by intros [?|(? & ? & ? & _)].
Qed.

(** ** Passes, installs and other programs *)

(** One step of the machine. [spared] says which rows another program's change may not
    remove; [adoptable] which rows an adoption may claim. *)
Inductive world_step (spared : K * Reconciler -> RouteKey -> Prop) (adoptable : RouteKey -> Prop) : K * Reconciler -> K * Reconciler -> Prop :=
| StepPass k r desired planned_at seen now now' gate k' r' res :
    reconcile_owned k r desired planned_at seen now now' gate = (k', r', res) -> world_step spared adoptable (k, r) (k', r')
| StepInstall k r extra gate k' r' res :
    install_additional k r extra gate = (k', r', res) -> world_step spared adoptable (k, r) (k', r')
| StepAdopt k r also_ours r' res :
    adopt_signed_routes_with k r also_ours = (r', res) ->
    (forall rows e, get_ip_forward_table k = Ok rows -> e ∈ rows -> is_owned_route e || also_ours e = true -> adoptable (route_key e)) ->
    world_step spared adoptable (k, r) (k, r')
| StepOutside k r k' :
    (forall x, spared (k, r) x -> holds k x = true -> holds k' x = true) -> world_step spared adoptable (k, r) (k', r).

(** C12. Other programs' rows, on a table that knows its rows by key, as the Windows one
    does: a row that is in the table and not claimed is never removed and never claimed,
    through any sequence of passes, installs, stops and adoptions with other programs
    changing the table in between, unless another program removes it or its signature
    lets an adoption claim it. *)
Theorem foreign_row_survives x s s' :
  rtc (world_step (fun _ y => y = x) (fun y => y <> x)) s s' ->
  holds s.1 x = true -> (x ∉ keys (routes (owned s.2))) ->
  holds s'.1 x = true /\ (x ∉ keys (routes (owned s'.2))).
Proof.
  induction 1 as [s|s s1 s2 Hstep _ IH]; [done|]. intros Hx Hno.
  enough (holds s1.1 x = true /\ (x ∉ keys (routes (owned s1.2)))) as [? ?] by auto. clear IH.
  destruct Hstep as [k r ????????? E|k r ????? E|k r ??? E Hadopt|k r k' Hout]; cbn [fst snd] in *.
  - apply pass_safe in E as (Hsafe & _). by apply Hsafe.
  - apply install_outcome in E as (claimed & Hc & Ht & Hcl & _). rewrite Ht, Hcl. split; [by right|].
    intros [|Hin]; [done|]. apply Hc in Hin as (_ & _ & ?). congruence.
  - split; [done|]. rewrite (adopt_claims _ _ _ _ _ E). intros [|(rows & e & G & He & Hk & Hs)]; [done|]. by apply (Hadopt rows e).
  - split; [by apply Hout|done].
Qed.

(** C14. Our claims are true, on a table that knows its rows by key, as the Windows one
    does: if every route of the owned set is in the table, and other programs leave the
    rows we claim, then every route of the owned set is in the table after any sequence of
    passes, installs, stops and adoptions, whichever of them fail part-way and whatever
    their rollbacks could not undo. *)
Theorem claims_stay_true s s' :
  rtc (world_step (fun s y => y ∈ keys (routes (owned s.2))) (fun _ => True)) s s' ->
  (forall x, x ∈ keys (routes (owned s.2)) -> holds s.1 x = true) ->
  forall x, x ∈ keys (routes (owned s'.2)) -> holds s'.1 x = true.
Proof.
  induction 1 as [s|s s1 s2 Hstep _ IH]; [done|]. intros Hreal. apply IH. clear IH.
  destruct Hstep as [k r ????????? E|k r ????? E|k r ??? E _|k r k' Hout]; cbn [fst snd] in *.
  - apply pass_safe in E as (_ & Hsafe & _). by apply Hsafe.
  - apply install_outcome in E as (claimed & Hc & Ht & Hcl & _). intros x. rewrite Ht, Hcl. intros [|]; auto.
  - intros x. rewrite (adopt_claims _ _ _ _ _ E). intros [|(rows & e & G & He & <- & _)]; [by auto|]. apply (read_rows k rows G). eauto.
  - auto.
Qed.

(** ** Installed ahead of a pass *)

(** C20. A route installed on first contact, on a table that knows its rows by key, as the
    Windows one does, survives the pass that was planned before it: whatever that pass
    wants, sees and comes to, the row is there after it. The route was not owned before,
    the install succeeded with no teardown under way, and the pass follows it at once. *)
Theorem installed_ahead_survives k r extra n k1 r1 desired planned_at seen now now' gate k2 r2 res :
  install_additional k r extra false = (k1, r1, Ok n) -> planned_at <= write_count r ->
  reconcile_owned k1 r1 desired (Some planned_at) seen now now' gate = (k2, r2, res) ->
  forall x, x ∈ keys extra -> (x ∉ keys (routes (owned r))) -> holds k2 x = true.
Proof.
  intros Ei Hw Ep x Hx Hno. apply install_outcome in Ei as (claimed & Hc & Ht & Hcl & Hok).
  destruct (Hok eq_refl n eq_refl) as [Hin Hahead]. apply pass_safe in Ep as (_ & _ & Hkeep).
  apply Hkeep; [by apply Hin|]. intros (Hown & _ & Hk). apply Hcl in Hown as [|Hown]; [done|].
  apply not_true_iff_false in Hk. apply Hk. unfold keeps_ahead, installed_after. apply existsb_exists.
  exists (x, writes r + 1). split; [by apply list_elem_of_In, Hahead|]. rewrite bool_decide_eq_true_2 by done.
  apply Z.ltb_lt. unfold write_count in Hw. lia.
Qed.

(** The graceful stop: when it succeeds, the overlays we own are out of the table,
    every other route we own is still there if it was, and no other program's row has
    been touched; a row under whose key we own both stays. *)
Theorem stop_keeps_rule_routes k r now now' gate k' r' delta :
  retain_rule_routes k r now now' gate = (k', r', Ok delta) ->
  (forall e, e ∈ routes (owned r) -> is_overlay_route e = false -> holds k (route_key e) = true -> holds k' (route_key e) = true)
  /\ (forall x, x ∈ keys (routes (owned r)) -> (forall e, e ∈ routes (owned r) -> route_key e = x -> is_overlay_route e = true) -> holds k' x = false)
  /\ (forall x, (x ∉ keys (routes (owned r))) -> holds k x = true -> holds k' x = true).
Proof.
  unfold retain_rule_routes. set (keep := List.filter _ _). intros E.
  assert (Hkeep : forall e, e ∈ keep <-> e ∈ routes (owned r) /\ is_overlay_route e = false).
  { intros e. unfold keep. by rewrite !list_elem_of_In, List.filter_In, negb_true_iff. }
  pose proof E as Es. apply pass_safe in Es as (Hforeign & _ & Hstay). split_and!.
  - intros e He Hov Hh. apply Hstay; [done|]. intros (_ & Hno & _). apply Hno, list_elem_of_fmap. exists e. split; [done|by apply Hkeep].
  - intros x Hx Hov. pose proof (pass_outcome k r keep None None now now' gate) as Ho. rewrite E in Ho.
    cbv zeta in Ho. destruct Ho as (adds & Hsub & _ & _ & Ht & _).
    assert (Hnk : (x ∉ keys keep)).
    { intros (e & -> & [He Hn]%Hkeep)%list_elem_of_fmap. by rewrite (Hov e He eq_refl) in Hn. }
    apply not_true_iff_false. rewrite Ht, drops_entered. intros [Ha|[_ Hnd]]; [by apply Hnk, (keys_mono adds)|]. by apply Hnd.
  - intros x Hno Hh. by apply Hforeign.
Qed.

(** ** Contests *)

Definition held_at (o : OwnedRoutes) (x : RouteKey) (until : Z) : Prop := contested o !! x ≫= held_until = Some until.

Definition recent (now : Z) (at_ : Z) : bool := Z.max 0 (now - at_) <? CONTEST_WINDOW.

Abbreviation note_all vanished now owned :=
  (fold_left (fun owned route => fst (note_vanished owned (route_key route) now)) vanished owned).

Lemma note_other o y now x : y <> x -> contested (fst (note_vanished o y now)) !! x = contested o !! x.
Proof. intros Hne. unfold note_vanished. case_match; cbn [fst contested]; by rewrite lookup_insert_ne. Qed.

Lemma note_keeps_hold o y now x : held_at o x (now + CONTEST_BACKOFF) -> held_at (fst (note_vanished o y now)) x (now + CONTEST_BACKOFF).
Proof.
  intros Hh. destruct (decide (y = x)) as [->|Hne]; [|by unfold held_at; rewrite note_other].
  unfold held_at, note_vanished in *. destruct (contested o !! x) as [c|]; [|done]. cbn in Hh |- *.
  case_match; cbn [fst contested]; rewrite lookup_insert_eq; [exact Hh|done].
Qed.

Lemma note_all_keeps_hold vanished now x : forall o, held_at o x (now + CONTEST_BACKOFF) -> held_at (note_all vanished now o) x (now + CONTEST_BACKOFF).
Proof. induction vanished as [|v vanished IH]; intros o Hh; [done|]. cbn [fold_left]. by apply IH, note_keeps_hold. Qed.

Lemma note_all_other vanished now x : (x ∉ keys vanished) -> forall o, contested (note_all vanished now o) !! x = contested o !! x.
Proof.
  induction vanished as [|v vanished IH]; intros Hx o; [done|]. cbn [fmap list_fmap] in Hx. apply not_elem_of_cons in Hx as [Hv Hx].
  cbn [fold_left]. rewrite IH by done. by apply note_other.
Qed.

Lemma third_loss_holds o x now c : contested o !! x = Some c -> (2 <= length (List.filter (recent now) (put_back c)))%nat ->
  held_at (fst (note_vanished o x now)) x (now + CONTEST_BACKOFF).
Proof.
  intros Hc Hlen. unfold held_at, note_vanished. rewrite Hc. cbn [default from_option].
  rewrite length_app. cbn [length]. destruct (_ <? _)%nat eqn:E.
  { apply Nat.ltb_lt in E. unfold CONTEST_LIMIT in E. unfold recent in Hlen. unfold id in E. lia. }
  cbn [fst contested]. by rewrite lookup_insert_eq.
Qed.

Lemma third_loss_in_pass vanished x now : x ∈ keys vanished -> forall o c, contested o !! x = Some c ->
  (2 <= length (List.filter (recent now) (put_back c)))%nat -> held_at (note_all vanished now o) x (now + CONTEST_BACKOFF).
Proof.
  induction vanished as [|v vanished IH]; cbn [fmap list_fmap fold_left]; [by intros ?%not_elem_of_nil|].
  intros Hx o c Hc Hlen. destruct (decide (route_key v = x)) as [<-|Hne].
  - apply note_all_keeps_hold. by apply (third_loss_holds o _ now c).
  - apply elem_of_cons in Hx as [->|Hx]; [done|]. apply (IH Hx _ c); [|done]. by rewrite note_other.
Qed.

(** A pass writes its contests once, before it touches the table. *)
Lemma pass_contests k r desired planned_at seen now now' gate k' r' res :
  reconcile_owned k r desired planned_at seen now now' gate = (k', r', res) ->
  contested (owned r') = contested (pass_owned k r (keys desired) seen now now').
Proof.
  unfold reconcile_owned. cbv zeta. destruct (_ ++ _); [by intros [= <- <- <-]|].
  destruct (execute _ _ _) as [[k1 journal] [u|e]]; [by intros [= <- <- <-]|].
  destruct (rollback_with_residue _ _) as [k2 residue]. by intros [= <- <- <-].
Qed.

Lemma settled_contest o desired now x : x ∈ desired -> contested (settle_contests o desired now) !! x = let_go now <$> contested o !! x.
Proof.
  intros Hx. cbn [settle_contests contested]. rewrite lookup_fmap, map_lookup_filter. destruct (contested o !! x) as [c|]; [|done].
  cbn. by rewrite option_guard_True.
Qed.

(** A route held out past the pass, wanted and not ours, stays held out. *)
Lemma hold_lasts k r desired seen now now' x until : x ∈ desired -> (x ∉ keys (routes (owned r))) -> now < until ->
  held_at (owned r) x until -> held_at (pass_owned k r desired seen now now') x until.
Proof.
  intros Hd Hno Hnow Hh.
  assert (Hs : held_at (settle_contests (owned r) desired now) x until).
  { unfold held_at in *. rewrite settled_contest by done. destruct (contested (owned r) !! x) as [c|]; [|done]. cbn in Hh |- *.
    unfold let_go. rewrite Hh. destruct (until <=? now) eqn:E; [apply Z.leb_le in E; lia|done]. }
  unfold held_at, pass_owned, forget_vanished in *. cbn [contested]. repeat case_match; try done.
  rewrite note_all_other; [done|]. intros (e & -> & He)%list_elem_of_fmap. apply Hno, list_elem_of_fmap. exists e. split; [done|].
  apply list_elem_of_In, List.filter_In in He as [He _]. by apply list_elem_of_In.
Qed.

(** A held-out route is left as it is by a pass that wants it. *)
Lemma held_left_alone k r desired planned_at seen now now' gate k' r' res x :
  reconcile_owned k r desired planned_at seen now now' gate = (k', r', res) ->
  let o := pass_owned k r (keys desired) seen now now' in
  x ∈ keys desired -> (x ∉ keys (routes o)) -> held_out o x now = true ->
  holds k' x = holds k x /\ (x ∉ keys (routes (owned r'))).
Proof.
  intros E. cbv zeta. pose proof (pass_outcome k r desired planned_at seen now now' gate) as Ho. rewrite E in Ho. cbv zeta in Ho.
  set (o := pass_owned k r (keys desired) seen now now') in *. intros Hd Hno Hheld.
  destruct Ho as (adds & _ & Hnew & _ & Ho).
  assert (Ha : (x ∉ keys adds)) by (intros [_ ?]%Hnew; congruence).
  destruct res as [delta|e].
  - destruct Ho as [Ht Hc]. rewrite Hc. split; [apply eq_true_iff_eq; rewrite Ht|]; unfold drops, spares; tauto.
  - destruct Ho as (kept & lost & Hkept & Hlost & Ht & Hc). rewrite Hc. specialize (Hkept x). specialize (Hlost x). unfold drops in Hlost.
    split; [apply eq_true_iff_eq; rewrite Ht|]; tauto.
Qed.

(** A pass that wants [x] and starts before [until]. *)
Inductive wanting_pass (x : RouteKey) (until : Z) : K * Reconciler -> K * Reconciler -> Prop :=
| WantingPass k r desired planned_at seen now now' gate k' r' res :
    reconcile_owned k r desired planned_at seen now now' gate = (k', r', res) -> x ∈ keys desired -> now < until ->
    wanting_pass x until (k, r) (k', r').

Lemma wanting_passes_leave x until s s' : rtc (wanting_pass x until) s s' ->
  (x ∉ keys (routes (owned s.2))) -> held_at (owned s.2) x until -> holds s'.1 x = holds s.1 x /\ (x ∉ keys (routes (owned s'.2))).
Proof.
  induction 1 as [s|s s1 s2 Hstep _ IH]; [done|]. intros Hno Hh.
  destruct Hstep as [k r desired planned_at seen now now' gate k' r' res E Hd Hnow]. cbn [fst snd] in *.
  assert (Hh' : held_at (pass_owned k r (keys desired) seen now now') x until) by (by apply hold_lasts).
  destruct (held_left_alone _ _ _ _ _ _ _ _ _ _ _ x E) as [Ht Hno']; [done|by intros [? _]%pass_owned_keys| |].
  { unfold held_out. unfold held_at in Hh'. rewrite Hh'. by apply Z.ltb_lt. }
  destruct IH as [-> ?]; [done| |by rewrite Ht]. unfold held_at. by rewrite (pass_contests _ _ _ _ _ _ _ _ _ _ _ E).
Qed.

(** Another program that keeps removing a route of ours wins it for five minutes: at
    the third loss within a minute the pass gives the route up without touching its row,
    and so does every later pass that still wants it and starts within the five
    minutes, so the two programs do not trade deletes. *)
Theorem third_loss_gives_way k r desired planned_at seen now now' gate k' r' res rws x c s' :
  reconcile_owned k r desired planned_at seen now now' gate = (k', r', res) -> now <= now' ->
  x ∈ keys (routes (owned r)) -> x ∈ keys desired ->
  rows_seen k (writes r) seen = Some rws -> (forall o, o ∈ rws -> presence_key o <> (x.1.1.1.1, x.1.1.1.2, x.1.2, x.2)) ->
  contested (owned r) !! x = Some c -> (2 <= length (List.filter (recent now') (put_back c)))%nat ->
  rtc (wanting_pass x (now' + CONTEST_BACKOFF)) (k', r') s' ->
  holds s'.1 x = holds k x /\ (x ∉ keys (routes (owned s'.2))).
Proof.
  intros E Hnow Hown Hd Hrows Hgone Hc Hlost Hlater.
  assert (Hno : (x ∉ keys (routes (pass_owned k r (keys desired) seen now now')))).
  { intros [_ Hp]%pass_owned_keys. rewrite Hrows in Hp. destruct Hp as [|(o & Ho & Hp)]; [done|]. by apply (Hgone o). }
  assert (Hheld : held_at (pass_owned k r (keys desired) seen now now') x (now' + CONTEST_BACKOFF)).
  { apply list_elem_of_fmap in Hown as (e & -> & He). unfold held_at, pass_owned, forget_vanished. cbn [contested routes settle_contests].
    destruct (existsb _ _) eqn:Ex; cbn [negb]; cycle 1.
    { apply not_true_iff_false in Ex. exfalso. apply Ex, existsb_exists. exists e. split; [by apply list_elem_of_In|by apply has_spec]. }
    rewrite Hrows. apply (third_loss_in_pass _ (route_key e)) with (c := let_go now c).
    - apply list_elem_of_fmap. exists e. split; [done|]. apply list_elem_of_In, List.filter_In. split; [by apply list_elem_of_In|].
      unfold still_there. rewrite (proj2 (has_spec _ _) Hd). cbn. rewrite negb_true_iff, bool_decide_eq_false, list_elem_of_fmap.
      intros (o & Hp & Ho). by apply (Hgone o).
    - pose proof (settled_contest (owned r) (keys desired) now (route_key e) Hd) as Hs. by rewrite Hc in Hs.
    - unfold let_go. by repeat case_match. }
  destruct (held_left_alone _ _ _ _ _ _ _ _ _ _ _ x E Hd Hno) as [Ht Hno'].
  { unfold held_out. unfold held_at in Hheld. rewrite Hheld. apply Z.ltb_lt. unfold CONTEST_BACKOFF, from_secs. lia. }
  destruct (wanting_passes_leave _ _ _ _ Hlater) as [Hl ?]; [done|by unfold held_at; cbn [snd]; rewrite (pass_contests _ _ _ _ _ _ _ _ _ _ _ E)|].
  cbn [fst] in Hl. by rewrite Hl.
Qed.

End PassLemmas.

(** ** What a successful pass leaves in any table *)

Section RowPasses.
Context {K : Type} `{!RouteTablePort K} `{!Libc} `{!TableLaws K}.
Implicit Types (k : K) (r : Reconciler) (y : TableRow).

(** A route the plan drops: ours, not wanted, and not newer than the plan. *)
Definition dropped_route r (desired : list RouteEntry) (planned_at : option Z) (d : RouteEntry) : Prop :=
  d ∈ routes (owned r) /\ (route_key d ∉ keys desired) /\ keeps_ahead (owned r) planned_at (route_key d) = false.

Lemma keeps_ahead_entered k r desired planned_at seen now now' x : (x ∉ desired) ->
  keeps_ahead (pass_owned k r desired seen now now') planned_at x = keeps_ahead (owned r) planned_at x.
Proof. intros Hx. destruct planned_at; [|done]. by apply installed_after_pass. Qed.

(** The calls a pass makes when it succeeds. *)
Lemma pass_actions k r desired planned_at seen now now' gate k' r' delta :
  reconcile_owned k r desired planned_at seen now now' gate = (k', r', Ok delta) ->
  let o := pass_owned k r (keys desired) seen now now' in
  exists dropped adds journal, execute k [] ((DeleteRoute <$> dropped) ++ (AddRoute <$> adds)) = (k', journal, Ok tt)
  /\ (forall d, d ∈ dropped <-> dropped_route r desired planned_at d)
  /\ (forall e, e ∈ adds -> e ∈ desired /\ (route_key e ∉ keys (routes o)) /\ held_out o (route_key e) now = false)
  /\ ((forall n, gate n = false) -> forall e, e ∈ desired -> (route_key e ∉ keys (routes o)) -> held_out o (route_key e) now = false -> e ∈ adds).
Proof.
  unfold reconcile_owned. cbv zeta. set (o := pass_owned k r (keys desired) seen now now').
  set (dropped := List.filter (fun e => negb _) (List.filter _ (routes o))).
  set (o3 := mkOwned (routes o) _ (contested o)). set (adds := plan_adds o3 now gate 0 desired). intros E.
  assert (Hrun : exists journal, execute k [] ((DeleteRoute <$> dropped) ++ (AddRoute <$> adds)) = (k', journal, Ok tt)).
  { destruct ((DeleteRoute <$> dropped) ++ (AddRoute <$> adds)) as [|act acts]; [injection E as <- _ _; by exists []|].
    destruct (execute k [] (act :: acts)) as [[k1 journal] [[]|er]]; [injection E as <- _ _; by exists journal|].
    by destruct (rollback_with_residue k1 journal). }
  destruct Hrun as [journal Hrun]. exists dropped, adds, journal. split_and!; [done| | |].
  - intros d. unfold dropped, dropped_route. rewrite !filter_elem, !negb_true_iff, has_false.
    unfold o. rewrite pass_owned_routes. split.
    + intros [[[Hd _] Hn] Hk]. rewrite keeps_ahead_entered in Hk by done. done.
    + intros (Hd & Hn & Hk). rewrite keeps_ahead_entered by done. tauto.
  - intros e He. by apply (plan_adds_sound o3) in He.
  - intros Hgate e He Hno Hheld. by apply (plan_adds_complete o3).
Qed.

(** A route whose delete names no row but the one of its key. *)
Definition own_row k (e : RouteEntry) : Prop :=
  one_row k e /\ forall y o, stands k y = true -> names_row e y = true -> seen_as y = Some o -> route_key o = route_key e.

(** C13. A pass that succeeds brings any route table, the Linux one included, to the plan.
    The table can be read and is read for the pass, no teardown is under way, no row stands
    in for one of ours through another gateway, and the delete of a route of ours names
    no other row. Then the rows the dropped routes name are gone, the dropped routes being
    those of ours that are not wanted and did not go in after the plan; every other row
    is as it was; what is new is shown with the key of a wanted route that is not held
    out as contested; and for every wanted route that is not held out its row is there,
    or one the table takes for it. *)
Theorem reconcile_converges k r desired planned_at now now' gate rws k' r' delta :
  get_ip_forward_table k = Ok rws ->
  (forall o e, o ∈ rws -> e ∈ routes (owned r) -> presence_key o = presence_key e -> route_key o = route_key e) ->
  (forall e, e ∈ routes (owned r) -> own_row k e) ->
  (forall n, gate n = false) ->
  reconcile_owned k r desired planned_at None now now' gate = (k', r', Ok delta) ->
  let held := fun e => held_out (pass_owned k r (keys desired) None now now') (route_key e) now in
  let kept := fun y => stands k y = true /\ forall d, dropped_route r desired planned_at d -> names_row d y = false in
  (forall y, kept y -> stands k' y = true)
  /\ (forall y, stands k' y = true -> kept y
        \/ exists e o, e ∈ desired /\ held e = false /\ seen_as y = Some o /\ route_key o = shown_key e)
  /\ (forall e, e ∈ desired -> held e = false -> exists y, stands k' y = true
        /\ (clashes_with e y = true \/ exists o, seen_as y = Some o /\ route_key o = route_key e)).
Proof.
  intros G Hhop Hown Hgate E. cbv zeta. destruct (pass_actions _ _ _ _ _ _ _ _ _ _ _ E) as (dropped & adds & journal & Hrun & Hd & Hadds & Hall).
  set (o := pass_owned k r (keys desired) None now now') in *.
  assert (Hone : forall d, d ∈ dropped -> one_row k d) by (intros d [Hr _]%Hd; by apply Hown).
  destruct (replaced_rows _ _ _ _ _ Hrun Hone) as (Hkeep & Hnew & Hstand). setoid_rewrite Hd in Hkeep. setoid_rewrite Hd in Hnew. split_and!.
  - intros y [Hy Hn]. by apply Hkeep.
  - intros y [Hy|(e & x & He & _ & Hx & Hkey)]%Hnew; [by left|right]. apply Hadds in He as (He & _ & Hh). by exists e, x.
  - intros e He Hheld. destruct (decide (route_key e ∈ keys (routes o))) as [Hin|Hin]; cycle 1.
    { destruct (Hstand e) as (y & Hy & Hc); [by apply Hall|]. exists y. auto. }
    apply list_elem_of_fmap in Hin as (e' & Hke & He'). apply pass_owned_routes in He' as [He' Hseen].
    assert (Hdes : route_key e' ∈ keys desired) by (rewrite <- Hke; by apply list_elem_of_fmap_2).
    unfold rows_seen in Hseen. rewrite G in Hseen. destruct Hseen as [|(x & Hx & Hp)]; [done|].
    apply (read_table k rws G) in Hx as Hx'. destruct Hx' as (y & Hy & Hxy). specialize (Hhop x e' Hx He' Hp).
    exists y. split; [|right; exists x; split; [done|congruence]]. apply Hkeep; [done|]. intros d (Hdr & Hnd & _). apply not_true_iff_false. intros Hn.
    apply Hnd. rewrite <- (proj2 (Hown d Hdr) y x Hy Hn Hxy). by rewrite Hhop.
Qed.

(** A row no owned route names outlives a pass, whatever becomes of it. *)
Lemma pass_spares y k r desired planned_at seen now now' gate k' r' res :
  reconcile_owned k r desired planned_at seen now now' gate = (k', r', res) ->
  (forall d, dropped_route r desired planned_at d -> names_row d y = false) -> (forall e, e ∈ desired -> metric e <> 0) ->
  stands k y = true -> stands k' y = true.
Proof.
  unfold reconcile_owned. cbv zeta. set (o := pass_owned k r (keys desired) seen now now').
  set (dropped := List.filter (fun e => negb _) (List.filter _ (routes o))).
  set (o3 := mkOwned (routes o) _ (contested o)). set (adds := plan_adds o3 now gate 0 desired). intros E Hd Hm Hy.
  assert (Hdrop : forall d, d ∈ dropped -> names_row d y = false).
  { intros d Hin. apply Hd. unfold dropped in Hin. rewrite !filter_elem, !negb_true_iff, has_false in Hin.
    destruct Hin as [[Hr Hn] Hk]. unfold o in Hk, Hr. rewrite keeps_ahead_entered in Hk by done. apply pass_owned_routes in Hr as [Hr _]. by split_and!. }
  destruct ((DeleteRoute <$> dropped) ++ (AddRoute <$> adds)) as [|act acts] eqn:Ea; [by injection E as <- _ _|]. rewrite <- Ea in E.
  destruct (execute k [] _) as [[k1 journal] out] eqn:Ex.
  destruct (batch_spares y ((DeleteRoute <$> dropped) ++ (AddRoute <$> adds)) k k1 journal out) as [H1 H2]; [..|exact Hy|exact Ex|].
  - apply Forall_app; split; apply Forall_fmap, Forall_forall; done.
  - intros d [(d' & [= ->] & Hd')%list_elem_of_fmap|(d' & [=] & _)%list_elem_of_fmap]%elem_of_app. by apply Hdrop.
  - intros e [(e' & [=] & _)%list_elem_of_fmap|(e' & [= ->] & He')%list_elem_of_fmap]%elem_of_app. apply Hm. by apply (plan_adds_sound o3) in He' as [? _].
  - destruct out as [[]|er]; [injection E as <- _ _; done|]. destruct (rollback_with_residue k1 journal). by injection E as <- _ _.
Qed.

End RowPasses.

(** ** A desk to run on *)

(** The desk of [RouteTable], its two host rows adopted; the plan wants one of them, a new
    host and a row the VPN client already holds. *)
Definition desk : BookTable * Reconciler := (desk_table, (adopt_signed_routes desk_table new_reconciler).1).

Definition desk_plan : list RouteEntry := [host_row 2 0x0A000001; host_row 3 0x0A000001; vpn_row].

Definition desk_pass (s : BookTable * Reconciler) : BookTable * Reconciler :=
  (reconcile s.1 s.2 desk_plan 10 11 (fun _ => false)).1.

Lemma desk_step spared adoptable s : world_step spared adoptable s (desk_pass s).
Proof.
  destruct s as [k r]. unfold desk_pass. cbn [fst snd].
  destruct (reconcile k r desk_plan 10 11 (fun _ => false)) as [[k' r'] res] eqn:E. exact (StepPass _ _ _ _ _ _ _ _ _ _ _ _ _ E).
Qed.

Lemma foreign_row_survives_witness :
  holds desk.1 (route_key vpn_row) = true /\ (route_key vpn_row ∉ keys (routes (owned desk.2)))
  /\ holds (desk_pass desk).1 (route_key vpn_row) = true /\ (route_key vpn_row ∉ keys (routes (owned (desk_pass desk).2))).
Proof.
  assert (Hh : holds desk.1 (route_key vpn_row) = true) by by vm_compute.
  assert (Hn : (route_key vpn_row ∉ keys (routes (owned desk.2)))) by (apply (bool_decide_eq_true_1 _); by vm_compute).
  split; [done|]. split; [done|]. apply (foreign_row_survives (route_key vpn_row) desk (desk_pass desk)); [|done..].
  apply rtc_once, desk_step.
Defined.

Lemma claims_stay_true_witness :
  routes (owned (desk_pass desk).2) = [host_row 2 0x0A000001; host_row 3 0x0A000001]
  /\ forall x, x ∈ keys (routes (owned (desk_pass desk).2)) -> holds (desk_pass desk).1 x = true.
Proof.
  split; [by vm_compute|]. apply (claims_stay_true desk (desk_pass desk)); [apply rtc_once, desk_step|].
  apply Forall_forall. vm_compute. by repeat constructor.
Defined.

(** On the desk every row an owned route names is its own. *)
Lemma desk_own_rows : forall e, e ∈ routes (owned desk.2) -> own_row desk.1 e.
Proof.
  assert (Hall : Forall (fun y => Forall (fun y' => route_key y = route_key y' -> y = y') (book_rows desk_table)) (book_rows desk_table))
    by (apply (bool_decide_eq_true_1 _); by vm_compute).
  intros e _. split.
  - intros y y' Hy%bool_decide_eq_true Hy'%bool_decide_eq_true Hn%bool_decide_eq_true Hn'%bool_decide_eq_true.
    apply (proj1 (Forall_forall _ _) (proj1 (Forall_forall _ _) Hall y Hy) y' Hy'). congruence.
  - by intros y o _ Hn%bool_decide_eq_true [= <-].
Qed.

Lemma reconcile_converges_witness :
  get_ip_forward_table desk.1 = Ok (book_rows desk_table)
  /\ snd (reconcile desk.1 desk.2 desk_plan 10 11 (fun _ => false)) = Ok (mkDelta 2 1)
  /\ stands (desk_pass desk).1 vpn_row = true
  /\ (exists y : RouteEntry, stands (desk_pass desk).1 y = true
       /\ (clashes_with (host_row 3 0x0A000001) y = true \/ exists o, seen_as y = Some o /\ route_key o = route_key (host_row 3 0x0A000001)))
  /\ stands (desk_pass desk).1 (host_row 1 0x0A000001) = false.
Proof.
  destruct (reconcile_converges desk.1 desk.2 desk_plan None 10 11 (fun _ => false) (book_rows desk_table)
              (desk_pass desk).1 (desk_pass desk).2 (mkDelta 2 1)) as (Hkeep & Hnew & Hin).
  - done.
  - intros o e Ho He.
    assert (Hall : Forall (fun o => Forall (fun e => presence_key o = presence_key e -> route_key o = route_key e) (routes (owned desk.2)))
                     (book_rows desk_table)) by (apply (bool_decide_eq_true_1 _); by vm_compute).
    apply (proj1 (Forall_forall _ _) (proj1 (Forall_forall _ _) Hall o Ho) e He).
  - exact desk_own_rows.
  - done.
  - by vm_compute.
  - split_and!; [done|by vm_compute| | |].
    + apply Hkeep. split; [by vm_compute|]. intros d (Hd & _).
      assert (Hall : Forall (fun d => names_row d vpn_row = false) (routes (owned desk.2))) by (apply (bool_decide_eq_true_1 _); by vm_compute).
      by apply (proj1 (Forall_forall _ _) Hall d).
    + apply Hin; [|by vm_compute]. apply (bool_decide_eq_true_1 _). by vm_compute.
    + by vm_compute.
Defined.

Definition first_contact : list RouteEntry := [host_row 4 0x0A000001].

Lemma installed_ahead_survives_witness :
  let '(k1, r1, _) := install_additional desk.1 desk.2 first_contact false in
  0 <= write_count desk.2
  /\ holds (reconcile_planned k1 r1 desk_plan 0 10 11 (fun _ => false)).1.1 (route_key (host_row 4 0x0A000001)) = true.
Proof.
  destruct (install_additional desk.1 desk.2 first_contact false) as [[k1 r1] res] eqn:E. split; [done|].
  assert (res = Ok 1%nat) as -> by (pose proof (f_equal snd E) as Hr; vm_compute in Hr; by rewrite <- Hr).
  destruct (reconcile_planned k1 r1 desk_plan 0 10 11 (fun _ => false)) as [[k2 r2] out] eqn:Ep.
  apply (installed_ahead_survives desk.1 desk.2 first_contact 1 k1 r1 desk_plan 0 None 10 11 (fun _ => false) k2 r2 out E); [done|exact Ep|..];
    apply (bool_decide_eq_true_1 _); by vm_compute.
Defined.

(** The same desk with a half of the default route of ours. *)
Definition half_row : RouteEntry := mkRoute (V4 0) 1 (V4 0x0A000001) 7 SECONDARY_ROUTE_METRIC false MainTable.

Definition overlay_desk : BookTable := mkBook [host_row 1 0x0A000001; half_row; vpn_row] [].

Lemma stop_keeps_rule_routes_witness :
  let r := (adopt_signed_routes overlay_desk new_reconciler).1 in
  exists k' r', retain_rule_routes overlay_desk r 10 11 (fun _ => true) = (k', r', Ok (mkDelta 0 1))
  /\ holds k' (route_key half_row) = false /\ holds k' (route_key vpn_row) = true.
Proof.
  cbv zeta. set (r := (adopt_signed_routes overlay_desk new_reconciler).1).
  exists (retain_rule_routes overlay_desk r 10 11 (fun _ => true)).1.1, (retain_rule_routes overlay_desk r 10 11 (fun _ => true)).1.2.
  split; [by vm_compute|].
  destruct (stop_keeps_rule_routes overlay_desk r 10 11 (fun _ => true) (retain_rule_routes overlay_desk r 10 11 (fun _ => true)).1.1
              (retain_rule_routes overlay_desk r 10 11 (fun _ => true)).1.2 (mkDelta 0 1)) as (_ & Hov & Hfor); [by vm_compute|].
  split.
  - apply Hov; [apply (bool_decide_eq_true_1 _); by vm_compute|]. apply (proj1 (Forall_forall (fun e => route_key e = route_key half_row -> is_overlay_route e = true) _)).
    apply (bool_decide_eq_true_1 _). by vm_compute.
  - apply Hfor; [apply (bool_decide_eq_true_1 _); by vm_compute|by vm_compute].
Defined.

(** A host row lost three times within a minute. *)
Definition lost_key : RouteKey := route_key (host_row 2 0x0A000001).

Definition lost_desk : Reconciler :=
  mkReconciler (mkOwned [host_row 2 0x0A000001] [] {[ lost_key := mkContest [from_secs 5; from_secs 20] None ]}) 3.

Lemma third_loss_gives_way_witness :
  let '(k', r', _) := reconcile (mkBook [vpn_row] []) lost_desk desk_plan (from_secs 40) (from_secs 40) (fun _ => false) in
  holds k' lost_key = holds (mkBook [vpn_row] []) lost_key /\ (lost_key ∉ keys (routes (owned r'))).
Proof.
  destruct (reconcile (mkBook [vpn_row] []) lost_desk desk_plan (from_secs 40) (from_secs 40) (fun _ => false)) as [[k' r'] res] eqn:E.
  apply (third_loss_gives_way (mkBook [vpn_row] []) lost_desk desk_plan None None (from_secs 40) (from_secs 40) (fun _ => false) k' r' res [vpn_row]
           lost_key (mkContest [from_secs 5; from_secs 20] None) (k', r') E).
  - done.
  - apply (bool_decide_eq_true_1 _). by vm_compute.
  - apply (bool_decide_eq_true_1 _). by vm_compute.
  - done.
  - intros o ->%list_elem_of_singleton. by vm_compute.
  - by vm_compute.
  - vm_compute. lia.
  - done.
Defined.

(** The first contact of an address puts a held-out route in again at once. *)
Example install_ignores_contest :
  let '(k, r, _) := reconcile (mkBook [vpn_row] []) lost_desk desk_plan (from_secs 40) (from_secs 40) (fun _ => false) in
  let '(k', r', res) := install_additional k r [host_row 2 0x0A000001] false in
  held_out (owned r) lost_key (from_secs 41) = true /\ holds k lost_key = false /\ res = Ok 1%nat /\ holds k' lost_key = true.
Proof. by vm_compute. Qed.

(** A pass that succeeds may own less than it was asked for. *)
Example owned_less_than_desired :
  snd (reconcile desk.1 desk.2 desk_plan 10 11 (fun _ => false)) = Ok (mkDelta 2 1)
  /\ holds (desk_pass desk).1 (route_key vpn_row) = true /\ has (keys (routes (owned (desk_pass desk).2))) (route_key vpn_row) = false.
Proof. by vm_compute. Qed.
