(* ===== verification/RouteReading.v ===== *)
(** * What the route table says about the links

    Readings of one enumeration of the system table: whose row a row is, the servers
    of a tunnel, the segments a link is attached to and the part of them a blanket
    block lets through (service-runtime/src/route_reconciler.rs), the rows crash
    recovery takes for ours and the counter-overlay that answers a tunnel's catch-alls
    (service-runtime/src/route_codegen.rs), and the facts network routes respect
    (service-runtime/src/route_codegen/network_routes.rs). *)

From stdpp Require Import base numbers list gmap sets sorting.
From S2P Require Import Prelude Str IpAddr IpBlock NetPolicy BlockSplit RouteTable Canonical.

Open Scope Z_scope.

(** [filter(|x| seen.insert(x))]: each once, the first kept. *)
Fixpoint unseen {A} `{EqDecision A} (seen l : list A) : list A :=
  match l with
  | [] => []
  | x :: rest => if bool_decide (x ∈ seen) then unseen seen rest else x :: unseen (x :: seen) rest
  end.

(** ** Whose row *)

Definition OVERLAY_LOW : Z * Z := (0, 1).
Definition OVERLAY_HIGH : Z * Z := (0x80000000, 1).

Inductive RouteOwnership : Set := Ours | VpnRedirectOverlay | BootstrapHostRoute | Untracked.

#[export] Instance RouteOwnership_eq_dec : EqDecision RouteOwnership.
Proof. solve_decision. Defined.

Definition is_split_default_half (route : RouteEntry) : bool :=
  bool_decide (destination route = V4 OVERLAY_LOW.1) && (prefix_length route =? OVERLAY_LOW.2)
  || bool_decide (destination route = V4 OVERLAY_HIGH.1) && (prefix_length route =? OVERLAY_HIGH.2).

Definition classify_route_ownership (route : RouteEntry) (secondary_ifindex : Z) (primary_gateway : option IpAddr) : RouteOwnership :=
  if is_ours route then Ours
  else if is_host_route route && match primary_gateway with Some pg => bool_decide (next_hop route = pg) | None => false end
       then BootstrapHostRoute
  else if (interface_index route =? secondary_ifindex) && is_split_default_half route then VpnRedirectOverlay
  else Untracked.

Definition bootstrap_servers (routes : list RouteEntry) (secondary_ifindex : Z) (primary_gateway : option IpAddr) : list IpAddr :=
  unseen [] (destination <$> List.filter (fun r =>
    bool_decide (classify_route_ownership r secondary_ifindex primary_gateway = BootstrapHostRoute)) routes).

Definition bootstrap_server_ips (routes : list RouteEntry) (secondary_ifindex : Z) (primary_gateway : option Z) : list Z :=
  omap (fun ip => match ip with V4 d => Some d | V6 _ => None end) (bootstrap_servers routes secondary_ifindex (V4 <$> primary_gateway)).

Definition bootstrap_server_ips_v6 (routes : list RouteEntry) (secondary_ifindex : Z) (primary_gateway : option Z) : list Z :=
  omap (fun ip => match ip with V6 d => Some d | V4 _ => None end) (bootstrap_servers routes secondary_ifindex (V6 <$> primary_gateway)).

Definition primary_gateway_v6 (routes : list RouteEntry) (primary_ifindex : Z) : option Z :=
  head (omap (fun r => match destination r, next_hop r with
                       | V6 _, V6 gw => if gw =? 0 then None else Some gw
                       | _, _ => None
                       end)
          (List.filter (fun r => (interface_index r =? primary_ifindex) && (prefix_length r =? 0)) routes)).

(** ** Attached segments *)

Definition is_unicast_destination (net prefix : Z) : bool :=
  negb (v4_is_multicast net || (net =? 0xFFFFFFFF) || v4_is_loopback net || (net =? 0) && (8 <=? prefix)).

Definition is_unicast_destination_v6 (net prefix : Z) : bool :=
  negb (v6_is_multicast net) && negb (is_v6_link_local net) && negb (net =? 1) && negb ((net =? 0) && (8 <=? prefix)).

Definition primary_local_subnets (routes : list RouteEntry) (primary_ifindex : Z) : list (Z * Z) :=
  unseen [] (omap (fun r => match destination r with V4 d => Some (d, prefix_length r) | V6 _ => None end)
    (List.filter (fun r =>
       (interface_index r =? primary_ifindex) && is_unspecified (next_hop r)
       && ((1 <=? prefix_length r) && (prefix_length r <=? 31))
       && match destination r with V4 d => is_unicast_destination d (prefix_length r) | V6 _ => false end) routes)).

Definition primary_local_subnets_v6 (routes : list RouteEntry) (primary_ifindex : Z) : list (Z * Z) :=
  unseen [] (omap (fun r => match destination r with
                            | V6 d => if is_unicast_destination_v6 d (prefix_length r) then Some (d, prefix_length r) else None
                            | V4 _ => None
                            end)
    (List.filter (fun r => (1 <=? prefix_length r) && (prefix_length r <=? 127))
       (List.filter (fun r => (interface_index r =? primary_ifindex) && is_unspecified (next_hop r)) routes))).

Record ExemptibleLocalSubnets := mkExemptible {
  ex_v4 : list (Z * Z);
  ex_v6 : list (Z * Z);
  ex_too_wide : list IpBlock;
  ex_public_v6 : list (Z * Z);
}.

(** [if !list.contains(&x) { push }]. *)
Definition push_once {A} `{EqDecision A} (l : list A) (x : A) : list A := if bool_decide (x ∈ l) then l else l ++ [x].

Definition exempt_block (out : ExemptibleLocalSubnets) (block : IpBlock) : ExemptibleLocalSubnets :=
  match network block with
  | V4 net => mkExemptible (push_once (ex_v4 out) (net, prefix_len block)) (ex_v6 out) (ex_too_wide out) (ex_public_v6 out)
  | V6 net => mkExemptible (ex_v4 out) (push_once (ex_v6 out) (net, prefix_len block)) (ex_too_wide out) (ex_public_v6 out)
  end.

Definition exempt_segment (out : ExemptibleLocalSubnets) (segment : IpBlock) : ExemptibleLocalSubnets :=
  match local_segment_exemption segment with
  | Exempt blocks => fold_left exempt_block blocks out
  | TooWide => mkExemptible (ex_v4 out) (ex_v6 out) (ex_too_wide out ++ [segment]) (ex_public_v6 out)
  | NotPrivate =>
      match network segment with
      | V6 net => mkExemptible (ex_v4 out) (ex_v6 out) (ex_too_wide out) (ex_public_v6 out ++ [(net, prefix_len segment)])
      | V4 _ => out
      end
  end.

(** The segments a link reports, as blocks. *)
Definition reported_segments (routes : list RouteEntry) (ifindex : Z) : list IpBlock :=
  omap (fun '(net, prefix) => IpBlock_new (V4 net) prefix) (primary_local_subnets routes ifindex)
  ++ omap (fun '(net, prefix) => IpBlock_new (V6 net) prefix) (primary_local_subnets_v6 routes ifindex).

Definition exemptible_local_subnets (routes : list RouteEntry) (ifindex : Z) : ExemptibleLocalSubnets :=
  fold_left exempt_segment (reported_segments routes ifindex) (mkExemptible [] [] [] []).

(** ** Orphans and the counter-overlay *)

Definition adoptable_orphans (rows : list RouteEntry) (known_secondaries : list Z) : list RouteEntry :=
  let corroborated := (interface_index <$> List.filter (fun r => is_owned_route r && (metric r =? SECONDARY_ROUTE_METRIC)) rows)
                      ++ known_secondaries in
  List.filter (fun r => is_owned_route r && ((metric r =? SECONDARY_ROUTE_METRIC) || bool_decide (interface_index r ∈ corroborated))) rows.

Definition COUNTER_OVERLAY : list (Z * Z) := [(0, 2); (0x40000000, 2); (0x80000000, 2); (0xC0000000, 2)].
Definition ASSUMED_CATCH_ALLS : list (Z * Z) := [(0, 1); (0x80000000, 1)].

(** On 32 bits. *)
Definition prefix_mask (n : Z) : Z := if n =? 0 then 0 else Z.shiftl u32_max (32 - n) mod 2 ^ 32.

Definition answer (catch_all : Z * Z) : list (Z * Z) :=
  let '(dest, n) := catch_all in
  let base := Z.land dest (prefix_mask n) in
  let half := Z.shiftl 1 (31 - n) in
  [(base, n + 1); (Z.lor base half, n + 1)].

(** [sort_unstable_by_key(|&(d, n)| (d, n))] and [dedup]. *)
Definition sorted_prefixes (l : list (Z * Z)) : list (Z * Z) := dedup (sort_by (pair_cmp Z.compare Z.compare) l).

Definition counter_overlay_for (tunnel_catch_alls : list (Z * Z)) : list (Z * Z) :=
  sorted_prefixes (List.filter (fun '(_, n) => n <=? TUNNEL_CATCH_ALL_MAX_PREFIX) tunnel_catch_alls ≫= answer).

Definition tunnel_catch_all_prefixes (routes : list RouteEntry) (ifindex : Z) : list (Z * Z) :=
  sorted_prefixes (omap (fun r =>
    match destination r with
    | V4 d =>
        if (interface_index r =? ifindex) && negb (is_ours r) && (prefix_length r <=? TUNNEL_CATCH_ALL_MAX_PREFIX)
           && (octet d 3 <? 224)%N
           && negb match IpBlock_new (V4 d) (prefix_length r) with Some b => is_private b | None => false end
        then Some (d, prefix_length r) else None
    | V6 _ => None
    end) routes).

(** ** Facts of the links *)

(** The fields of [AdapterInfo] a reading of the links uses. *)
Record AdapterInfo := mkAdapter { adapter_index : Z; ipv4_addresses : list Z; ipv6_addresses : list Z }.

Record NetworkRouteFacts := mkFacts {
  tunnel_routes : list IpBlock;
  local_networks : list IpBlock;
  tunnel_servers : list IpAddr;
  lan_segments : list IpBlock;
  foreign_tunnel_routes : list IpBlock;
}.

Definition no_facts : NetworkRouteFacts := mkFacts [] [] [] [] [].

Inductive KeptDirect : Set := KeptLocalNetwork | KeptForeignTunnel.

Definition from_catch_alls (catch_alls : list (Z * Z)) : NetworkRouteFacts :=
  mkFacts (omap (fun '(net, prefix) => IpBlock_new (V4 net) prefix) catch_alls) [] [] [] [].

Definition is_foreign_main (route : RouteEntry) : bool :=
  bool_decide (table route = MainTable) && negb (is_ours route) && negb (is_owned_route route).

Definition LOCAL_ADDRESS_TABLE : Z := 255.

Definition is_foreign_any_table (route : RouteEntry) : bool :=
  negb (bool_decide (table route = Tagged LOCAL_ADDRESS_TABLE)) && negb (is_ours route) && negb (is_owned_route route).

Definition is_segment_address (address : IpAddr) : bool :=
  match address with
  | V4 a => negb (a =? 0) && negb (v4_is_loopback a)
  | V6 a => negb (a =? 0) && negb (a =? 1) && negb (is_v6_link_local a)
  end.

Definition SCOPES : list str := [u "224.0.0.0/4"; u "169.254.0.0/16"; u "ff00::/8"; u "fe80::/10"].

Definition is_unicast (block : IpBlock) : bool := negb (existsb (fun scope => IpBlock_covers scope block) (omap IpBlock_parse SCOPES)).

Definition route_block (r : RouteEntry) : option IpBlock := IpBlock_new (destination r) (prefix_length r).

(** [max_by_key]: the last of the greatest. *)
Definition max_by_len (l : list IpBlock) : option IpBlock :=
  fold_left (fun best b => match best with
                           | Some m => if prefix_len b <? prefix_len m then best else Some b
                           | None => Some b
                           end) l None.

Definition adapter_segments (routes : list RouteEntry) (adapter : AdapterInfo) : list IpBlock :=
  let on_link := List.filter (fun b => negb (wider_than_rule_allows b) && negb (is_single_address b))
                   (omap route_block (List.filter (fun r => (interface_index r =? adapter_index adapter)
                                                            && is_unspecified (next_hop r) && is_foreign_main r) routes)) in
  let own := List.filter is_segment_address ((V4 <$> ipv4_addresses adapter) ++ (V6 <$> ipv6_addresses adapter)) in
  omap (fun address => max_by_len (List.filter (fun b => IpBlock_contains b address) on_link)) own.

Definition attached_networks (routes : list RouteEntry) (adapters : list AdapterInfo) : list IpBlock :=
  btree_blocks (adapters ≫= adapter_segments routes).

Definition read_facts (routes : list RouteEntry) (adapters : list AdapterInfo) (tunnel : option Z) (servers : list IpAddr) : NetworkRouteFacts :=
  let local := attached_networks routes adapters in
  mkFacts
    (btree_blocks (List.filter (fun b => (0 <? prefix_len b) && negb (is_single_address b) && is_unicast b && negb (bool_decide (b ∈ local)))
       (omap route_block (List.filter (fun r => bool_decide (Some (interface_index r) = tunnel) && is_foreign_main r) routes))))
    local
    (dedup (sort_by ip_cmp servers))
    (btree_blocks (List.filter (fun a => negb (bool_decide (Some (adapter_index a) = tunnel))) adapters
       ≫= fun a => let attached := exemptible_local_subnets routes (adapter_index a) in
                   omap (fun '(net, prefix) => IpBlock_new (V4 net) prefix) (ex_v4 attached)
                   ++ omap (fun '(net, prefix) => IpBlock_new (V6 net) prefix) (ex_v6 attached)))
    [].

Definition FULL_TUNNEL_SHARE : Z := 16.

(** [1u128.checked_shl(..)]: shifting by the width is refused. *)
Definition addresses_in_prefix (prefix : Z) (v4 : bool) : Z :=
  let shift := Z.max 0 ((if v4 then 32 else 128) - prefix) in
  if shift <? 128 then Z.shiftl 1 shift else u128_max.

Definition addresses_in (block : IpBlock) : Z := addresses_in_prefix (prefix_len block) (is_ipv4 (network block)).

Definition takes_the_internet (blocks : list IpBlock) (v4 : bool) : bool :=
  let family := List.filter (fun b => Bool.eqb (is_ipv4 (network b)) v4) blocks in
  existsb wider_than_rule_allows family
  || (Z.min u128_max (addresses_in_prefix (widest_rule_prefix v4) v4 * FULL_TUNNEL_SHARE)
      <=? fold_left (fun sum b => Z.min u128_max (sum + addresses_in b)) (List.filter (fun b => negb (is_private b)) family) 0).

Definition one_tunnels_networks (routes : list RouteEntry) (index : Z) : list IpBlock :=
  let blocks := List.filter is_unicast
                  (omap route_block (List.filter (fun r => (interface_index r =? index) && is_foreign_any_table r) routes)) in
  List.filter (fun b => negb (takes_the_internet blocks (is_ipv4 (network b))) || is_private b)
    (List.filter (fun b => negb (wider_than_rule_allows b)) blocks).

Definition foreign_tunnel_blocks (routes : list RouteEntry) (foreign : list Z) : list IpBlock :=
  btree_blocks (foreign ≫= one_tunnels_networks routes).

Definition with_foreign_tunnels (facts : NetworkRouteFacts) (routes : list RouteEntry) (foreign : list Z) : NetworkRouteFacts :=
  match foreign with
  | [] => facts
  | _ => mkFacts (tunnel_routes facts) (local_networks facts) (tunnel_servers facts) (lan_segments facts) (foreign_tunnel_blocks routes foreign)
  end.

Definition kept_direct_reason (facts : NetworkRouteFacts) (ip : IpAddr) : option KeptDirect :=
  if existsb (fun s => IpBlock_contains s ip) (lan_segments facts) then Some KeptLocalNetwork
  else if existsb (fun s => IpBlock_contains s ip) (foreign_tunnel_routes facts) then Some KeptForeignTunnel
  else None.

Definition keeps_host_direct (facts : NetworkRouteFacts) (rules : CanonicalRuleSet) (ip : IpAddr) : bool :=
  bool_decide (ip ∈ tunnel_servers facts)
  || bool_decide (is_Some (kept_direct_reason facts ip))
     && negb (existsb (fun rule => r_enabled rule && bool_decide (r_address_match rule = Some (ExactIp ip))) rules).

Inductive NetworkLinkConflict : Set := CoversTunnelServer (server : IpAddr) | OverlapsLocalNetwork (local : IpBlock).

Definition network_conflicts_with_links (network : IpBlock) (facts : NetworkRouteFacts) : option NetworkLinkConflict :=
  match List.find (fun s => IpBlock_contains network s) (tunnel_servers facts) with
  | Some server => Some (CoversTunnelServer server)
  | None => OverlapsLocalNetwork <$> List.find (fun local => IpBlock_overlaps local network) (local_networks facts)
  end.

(** ** What is exempt on an attached link *)

Lemma unseen_elem {A} `{EqDecision A} (l : list A) : forall seen x, x ∈ unseen seen l <-> x ∈ l /\ (x ∉ seen).
Proof.
  induction l as [|y l IH]; intros seen x; cbn [unseen]; [rewrite elem_of_nil; tauto|].
  case_bool_decide as Hy; rewrite ?elem_of_cons, IH, ?elem_of_cons; [naive_solver|].
  destruct (decide (x = y)) as [->|]; tauto.
Qed.

Lemma push_once_elem {A} `{EqDecision A} (l : list A) x y : y ∈ push_once l x <-> y ∈ l \/ y = x.
Proof.
  unfold push_once. case_bool_decide as Hx; [split; [tauto|by intros [| ->]]|]. by rewrite elem_of_app, list_elem_of_singleton.
Qed.

(** The blocks let through, of both families. *)
Definition exempt_all (out : ExemptibleLocalSubnets) : list IpBlock :=
  ((fun s => mkIpBlock (V4 s.1) s.2) <$> ex_v4 out) ++ ((fun s => mkIpBlock (V6 s.1) s.2) <$> ex_v6 out).

Lemma exempt_all_block out block x : x ∈ exempt_all (exempt_block out block) <-> x ∈ exempt_all out \/ x = block.
Proof.
  unfold exempt_block, exempt_all. destruct block as [[net|net] len]; cbn [network prefix_len ex_v4 ex_v6];
    rewrite !elem_of_app, !list_elem_of_fmap; setoid_rewrite push_once_elem; split.
  - intros [(s & -> & [Hs | ->])|Hx]; [left; left; eauto|by right|tauto].
  - intros [[(s & -> & Hs)|Hx]| ->]; [left; eauto|tauto|left; exists (net, len); auto].
  - intros [Hx|(s & -> & [Hs | ->])]; [tauto|left; right; eauto|by right].
  - intros [[Hx|(s & -> & Hs)]| ->]; [tauto|right; eauto|right; exists (net, len); auto].
Qed.

Lemma exempt_all_blocks blocks : forall out x, x ∈ exempt_all (fold_left exempt_block blocks out) <-> x ∈ exempt_all out \/ x ∈ blocks.
Proof.
  induction blocks as [|b blocks IH]; intros out x; cbn [fold_left]; [rewrite elem_of_nil; tauto|].
  rewrite IH, exempt_all_block, elem_of_cons. tauto.
Qed.

Lemma exempt_all_segment out segment x :
  x ∈ exempt_all (exempt_segment out segment) <-> x ∈ exempt_all out \/ x ∈ exempt_blocks (local_segment_exemption segment).
Proof.
  unfold exempt_segment. destruct (local_segment_exemption segment) as [blocks| |]; cbn [exempt_blocks].
  - apply exempt_all_blocks.
  - rewrite elem_of_nil. cbn. tauto.
  - rewrite elem_of_nil. destruct (network segment); cbn; tauto.
Qed.

Lemma exempt_all_segments segments : forall out x, x ∈ exempt_all (fold_left exempt_segment segments out) <->
  x ∈ exempt_all out \/ exists s, s ∈ segments /\ x ∈ exempt_blocks (local_segment_exemption s).
Proof.
  induction segments as [|s segments IH]; intros out x; cbn [fold_left].
  { split; [by left|]. intros [|(s & ?%not_elem_of_nil & _)]; done. }
  rewrite IH, exempt_all_segment, exists_elem_cons. tauto.
Qed.

(** A row that says the link is attached to its destination: no next hop, neither a
    default nor a host route, and a destination hosts live on. *)
Definition is_segment_row (ifindex : Z) (r : RouteEntry) : bool :=
  (interface_index r =? ifindex) && is_unspecified (next_hop r) && (1 <=? prefix_length r)
  && match destination r with
     | V4 d => (prefix_length r <=? 31) && is_unicast_destination d (prefix_length r)
     | V6 d => (prefix_length r <=? 127) && is_unicast_destination_v6 d (prefix_length r)
     end.

Lemma reported_segments_rows routes ifindex s :
  s ∈ reported_segments routes ifindex <-> exists r, r ∈ routes /\ is_segment_row ifindex r = true /\ route_block r = Some s.
Proof.
  unfold reported_segments, primary_local_subnets, primary_local_subnets_v6, is_segment_row, route_block.
  rewrite elem_of_app, !list_elem_of_omap. setoid_rewrite unseen_elem. setoid_rewrite list_elem_of_omap.
  repeat setoid_rewrite filter_elem. split.
  - intros [([d p] & [(r & (Hr & Hc) & Hd) _] & Hb)|([d p] & [(r & ((Hr & H1) & H2) & Hd) _] & Hb)]; exists r; (split; [done|]);
      destruct (destination r) as [v|v]; try done; reflect_bools.
    + injection Hd as <- <-. split; [|done]. repeat (apply andb_true_iff; split); done.
    + destruct (is_unicast_destination_v6 v (prefix_length r)) eqn:U; [|done]. injection Hd as <- <-.
      split; [|done]. repeat (apply andb_true_iff; split); done.
  - intros (r & Hr & Hs & Hb). destruct (destination r) as [v|v] eqn:D; reflect_bools; [left|right]; exists (v, prefix_length r); (split; [|done]);
      (split; [|apply not_elem_of_nil]); exists r; rewrite D; (split; [|]).
    + split; [done|]. repeat (apply andb_true_iff; split); done.
    + done.
    + split; [split; [done|]|]; repeat (apply andb_true_iff; split); done.
    + match goal with H : is_unicast_destination_v6 _ _ = true |- _ => by rewrite H end.
Qed.

(** Leak protection lets exactly the private part of the attached segments through:
    an address is exempt on a link precisely when the table shows a segment there that
    holds it (an on-link row, neither a default nor a host route, of unicast space), the
    segment is no wider than a rule may be, and the address is in private, shared or
    link-local space. A network that hands out a [/1] exempts nothing. *)
Theorem attached_exemption_exact routes ifindex a :
  (forall r, r ∈ routes -> ip_wf (destination r)) -> ip_wf a ->
  (exists x, x ∈ exempt_all (exemptible_local_subnets routes ifindex) /\ in_block x a) <->
  exists r s, r ∈ routes /\ is_segment_row ifindex r = true /\ route_block r = Some s
    /\ wider_than_rule_allows s = false /\ in_block s a /\ (is_private_address a = true \/ NetPolicy.classify a = LinkLocal).
Proof.
  intros Hwf Ha. unfold exemptible_local_subnets. setoid_rewrite exempt_all_segments. setoid_rewrite reported_segments_rows.
  assert (Hs : forall r s, r ∈ routes -> is_segment_row ifindex r = true -> route_block r = Some s -> block_wf s).
  { intros r s Hr Hrow Hb. unfold is_segment_row in Hrow. reflect_bools. apply (IpBlock_new_Some _ _ _ (Hwf r Hr)) in Hb; [|lia]. tauto. }
  pose proof (is_private_address_in a Ha) as Hpriv. pose proof (classify_link_local a Ha) as Hlink. split.
  - intros (x & [Hx|(s & (r & Hr & Hrow & Hb) & Hx)] & Hin); [by apply not_elem_of_nil in Hx|]. exists r, s.
    destruct (wider_than_rule_allows s) eqn:W.
    { unfold local_segment_exemption in Hx. rewrite W in Hx. by apply not_elem_of_nil in Hx. }
    assert (He : Exists (fun x => in_block x a) (exempt_blocks (local_segment_exemption s))) by (apply Exists_exists; eauto).
    apply exempt_spec in He; [|by eapply Hs|done..]. tauto.
  - intros (r & s & Hr & Hrow & Hb & W & Hin & Hp).
    assert (He : Exists (fun x => in_block x a) (exempt_blocks (local_segment_exemption s))) by (apply exempt_spec; [by eapply Hs|tauto..]).
    apply Exists_exists in He as (x & Hx & Hxa). exists x. split; [|done]. right. exists s. eauto.
Qed.

(** A home network, and an access point that says half the internet is on-link. *)
Definition home_rows : list RouteEntry :=
  [mkRoute (ipv4 0 0 0 0) 0 (ipv4 192 168 1 1) 3 25 false MainTable;
   mkRoute (ipv4 192 168 1 0) 24 (ipv4 0 0 0 0) 3 281 false MainTable;
   mkRoute (ipv4 128 0 0 0) 1 (ipv4 0 0 0 0) 3 281 false MainTable].

Lemma attached_exemption_exact_witness :
  exemptible_local_subnets home_rows 3 = mkExemptible [(0xC0A80100, 24)] [] [mkIpBlock (ipv4 128 0 0 0) 1] []
  /\ ((exists x, x ∈ exempt_all (exemptible_local_subnets home_rows 3) /\ in_block x (ipv4 192 168 1 7)) <->
      exists r s, r ∈ home_rows /\ is_segment_row 3 r = true /\ route_block r = Some s
        /\ wider_than_rule_allows s = false /\ in_block s (ipv4 192 168 1 7)
        /\ (is_private_address (ipv4 192 168 1 7) = true \/ NetPolicy.classify (ipv4 192 168 1 7) = LinkLocal)).
Proof.
  split; [by vm_compute|]. apply (attached_exemption_exact home_rows 3 (ipv4 192 168 1 7)).
  - apply Forall_forall. unfold home_rows. repeat constructor; by vm_compute.
  - split; by vm_compute.
Defined.

(** ** The counter-overlay *)

Lemma sorted_prefixes_elem l x : x ∈ sorted_prefixes l <-> x ∈ l.
Proof. unfold sorted_prefixes. by rewrite dedup_elem, sort_by_elem_of. Qed.

Definition catch_all_ok (c : Z * Z) : Prop := ip_wf (V4 c.1) /\ 0 <= c.2.

(** A catch-all is answered by the two halves of its block. *)
Lemma answer_halves d n : catch_all_ok (d, n) -> n <= TUNNEL_CATCH_ALL_MAX_PREFIX ->
  exists b, IpBlock_new (V4 d) n = Some b /\ block_wf b /\ prefix_len b = n /\ is_single_address b = false
  /\ forall h m, (h, m) ∈ answer (d, n) <-> mkIpBlock (V4 h) m = half_low b \/ mkIpBlock (V4 h) m = half_high b.
Proof.
  intros [Hd Hn] Hle. cbn in Hd, Hn. unfold TUNNEL_CATCH_ALL_MAX_PREFIX in Hle.
  destruct (IpBlock_new (V4 d) n) as [b|] eqn:E.
  2: { unfold IpBlock_new in E. cbn in E. destruct (Z.ltb_spec 32 n); [lia|done]. }
  pose proof E as Eb. apply IpBlock_new_Some in E as (_ & Hl & H4 & Ht & Hw); [|done|lia]. cbn in H4, Ht.
  assert (Hs : is_single_address b = false).
  { unfold is_single_address, max_prefix_len, IpBlock_is_ipv4. rewrite H4, Hl. apply Z.eqb_neq. lia. }
  exists b. split_and!; [done..|]. destruct b as [[v|v] len]; [|done]. cbn in Hl, H4, Ht. subst len.
  assert (Hbase : Z.land d (prefix_mask n) = v).
  { rewrite Ht. rewrite <- (land_mask n 32 d) by (solve [by left|lia|exact Hd]).
    f_equal. assert (Hcases : n ∈ seqZ 0 13) by (apply elem_of_seqZ; lia). revert Hcases. clear. intros Hc.
    assert (Hall : Forall (fun n => prefix_mask n = mask n 32) (seqZ 0 13)) by (apply (bool_decide_eq_true_1 _); by vm_compute).
    by apply (proj1 (Forall_forall _ _) Hall). }
  assert (Hhigh : Z.lor v (Z.shiftl 1 (31 - n)) = v + block_size (mkIpBlock (V4 v) n) / 2).
  { destruct Hw as (_ & _ & Hal). cbn in Hal. rewrite lor_next_bit; [|lia|by replace (31 - n + 1) with (32 - n) by lia].
    unfold block_size. cbn. replace (32 - n) with (31 - n + 1) by lia. rewrite Z.pow_add_r, Z.div_mul by lia. done. }
  intros h m. unfold answer, half_low, half_high. cbn [network prefix_len]. rewrite Hbase, Hhigh, elem_of_cons, list_elem_of_singleton.
  split; (intros [[= -> ->]|[= -> ->]]; [by left|by right]).
Qed.

(** The counter-overlay holds exactly what the answered catch-alls hold, one bit longer. *)
Lemma counter_overlay_covers catch_alls d n a : (forall c, c ∈ catch_alls -> catch_all_ok c) ->
  (d, n) ∈ catch_alls -> n <= TUNNEL_CATCH_ALL_MAX_PREFIX ->
  (exists b, IpBlock_new (V4 d) n = Some b /\ in_block b a) ->
  exists h, (h, n + 1) ∈ counter_overlay_for catch_alls /\ block_wf (mkIpBlock (V4 h) (n + 1)) /\ in_block (mkIpBlock (V4 h) (n + 1)) a.
Proof.
  intros Hok Hin Hle (b & Hb & Ha). destruct (answer_halves d n (Hok _ Hin) Hle) as (b' & Hb' & Hw & Hl & Hs & Hans).
  assert (b' = b) as -> by congruence. destruct (halves_wf b Hw Hs) as [Hwl Hwh].
  assert (H4 : is_ipv4 (network b) = true) by (apply IpBlock_new_Some in Hb; [destruct Hb as (_ & _ & -> & _); done|apply (Hok _ Hin)|apply (Hok _ Hin)]).
  assert (Hpick : forall x, (x = half_low b \/ x = half_high b) -> in_block x a ->
    exists h, (h, n + 1) ∈ counter_overlay_for catch_alls /\ block_wf (mkIpBlock (V4 h) (n + 1)) /\ in_block (mkIpBlock (V4 h) (n + 1)) a).
  { intros x Hx Hxa. assert (Ex : exists h, x = mkIpBlock (V4 h) (n + 1)).
    { rewrite <- Hl. destruct b as [[v|v] len]; [|done]. destruct Hx as [-> | ->]; by eexists. }
    destruct Ex as [h ->]. exists h. split_and!; [|destruct Hx as [Hx|Hx]; by rewrite Hx|done]. unfold counter_overlay_for.
    apply sorted_prefixes_elem, list_elem_of_bind. exists (d, n). split; [by apply Hans|]. apply filter_elem. split; [done|by apply Z.leb_le]. }
  apply (in_halves b Hw Hs) in Ha as [Ha|Ha]; eauto.
Qed.

Lemma counter_overlay_inside catch_alls h m : (forall c, c ∈ catch_alls -> catch_all_ok c) -> (h, m) ∈ counter_overlay_for catch_alls ->
  block_wf (mkIpBlock (V4 h) m) /\ exists d n b, (d, n) ∈ catch_alls /\ n <= TUNNEL_CATCH_ALL_MAX_PREFIX /\ m = n + 1 /\ 0 <= n
    /\ IpBlock_new (V4 d) n = Some b /\ forall a, in_block (mkIpBlock (V4 h) m) a -> in_block b a.
Proof.
  intros Hok. unfold counter_overlay_for. rewrite sorted_prefixes_elem, list_elem_of_bind. intros ([d n] & Hans & [Hin Hle%Z.leb_le]%filter_elem).
  destruct (answer_halves d n (Hok _ Hin) Hle) as (b & Hb & Hw & Hl & Hs & Hspec). destruct (halves_wf b Hw Hs) as [Hwl Hwh].
  apply Hspec in Hans. split; [destruct Hans as [-> | ->]; done|]. exists d, n, b. split_and!; try done.
  - destruct Hans as [[= _ ->]|[= _ ->]]; lia.
  - apply (Hok _ Hin).
  - intros a Ha. apply (in_halves b Hw Hs). destruct Hans as [E|E]; rewrite E in Ha; auto.
Qed.

Example counter_overlay_of_a_redirect_pair : counter_overlay_for ASSUMED_CATCH_ALLS = COUNTER_OVERLAY.
Proof. by vm_compute. Qed.
