(* ===== verification/NetworkPlan.v ===== *)
(** * Network rules as routes

    The plan of service-runtime/src/route_codegen/network_routes.rs: which routes the
    networks of a rule book need, so that longest prefix sends every address of a
    network over the link the rules give it. *)

From stdpp Require Import base numbers list gmap sets sorting.
From S2P Require Import Prelude Str Digits IpAddr IpBlock AppPath AppIdentity AutoRule HostMatch Canonical.
From S2P Require Import NetPolicy Normalize Matching NetClaims HostCache PublicZone AddressOwner BlockSplit RouteTable RouteReading.

Open Scope Z_scope.

(** ** Diagnostics (route_codegen.rs) *)

Inductive RouteCodegenDiagnostic : Set :=
| HostnameUnresolved (rule_id hostname : str)
| SuffixEmpty (rule_id suffix : str)
| ZoneEmpty (rule_id zone : str)
| AppRuleAddressAndAppNotRouted (rule_id : str)
| AppRuleUnobserved (rule_id app : str)
| AppRuleDestinationClaimedByMainLink (rule_id app : str) (ip : Z)
| AppRuleDestinationUsedByOtherProcess (rule_id app : str) (ip : Z)
| AddressClaimedByMainLink (rule_id : str) (ip : IpAddr) (count : Z)
| PrivateAddressKeptOutOfTunnel (rule_id : str) (ip : IpAddr) (count : Z)
| PrimaryExceptionsUnavailable
| NetworkYieldsToLocalNetwork (rule_id : str) (network local : IpBlock)
| NetworkRoutedAroundTunnelServer (rule_id : str) (network : IpBlock) (server : IpAddr)
| NetworkClaimedByMainLink (rule_id : str) (network : IpBlock)
| NetworkRoutesCapped (rule_id : str) (cap : nat).

Definition MAX_ROUTES_PER_RULE : nat := Z.to_nat 4096.

(** ** The plan *)

Definition network_rules (rules : CanonicalRuleSet) (support : RuleShapeSupport) : list (CanonicalRule * list IpBlock) :=
  omap (fun rule =>
    if negb (r_enabled rule) || bool_decide (r_action rule = Block) || bool_decide (is_Some (r_app_match rule))
       || negb (is_supported (rule_verdict rule support))
    then None
    else m ← r_address_match rule; blocks ← ip_blocks m; Some (rule, blocks)) rules.

Definition names_networks (book : CanonicalRuleBook) (support : RuleShapeSupport) : bool :=
  existsb (fun rules => match network_rules rules support with [] => false | _ => true end) [primary book; secondary book].

Record NetworkRoutePlan := mkNetworkPlan {
  plan_networks : list (Link * IpBlock);
  plan_hosts : list (Link * IpAddr);
  plan_diagnostics : list RouteCodegenDiagnostic;
}.

(** The pieces of the block around the tunnel's servers, with a note for each server inside. *)
Definition around_servers (rule_id : str) (block : IpBlock) (servers : list IpAddr) (pieces : list IpBlock)
  : list IpBlock * list RouteCodegenDiagnostic :=
  fold_left (fun acc server =>
    match IpBlock_new server (if is_ipv4 server then 32 else 128) with
    | None => acc
    | Some hole =>
        if IpBlock_covers block hole
        then ((acc.1 ≫= fun p => without p hole), acc.2 ++ [NetworkRoutedAroundTunnelServer rule_id block server])
        else acc
    end) servers (pieces, []).

Definition pieces_for (rule_id : str) (block : IpBlock) (link : Link) (competitors : list IpBlock) (o : AddressOwnership)
    (facts : NetworkRouteFacts) : list IpBlock * list RouteCodegenDiagnostic :=
  if bool_decide (link = Additional) && existsb (fun n => bool_decide (n = block)) (networks_of o Main)
  then ([], [NetworkClaimedByMainLink rule_id block])
  else
    let split := split_against block competitors in
    let '(pieces, served) := if bool_decide (link = Additional) then around_servers rule_id block (tunnel_servers facts) split else (split, []) in
    let local_of p := List.find (fun l => IpBlock_covers l p) (local_networks facts) in
    let yielded := head (omap local_of pieces) in
    let pieces := List.filter (fun p => match local_of p with Some _ => false | None => true end) pieces in
    let narrower := fst <$> List.filter (fun nw => negb (bool_decide (nw.2 = link))) (networks_inside o block) in
    (List.filter (fun p => negb (existsb (fun n => IpBlock_covers n p) narrower)) pieces,
     served ++ match yielded with Some local => [NetworkYieldsToLocalNetwork rule_id block local] | None => [] end).

Definition piece_cmp : IpBlock -> IpBlock -> comparison := cmp_then (cmp_on prefix_len Z.compare) IpBlock_cmp.

(** One network rule: its pieces, capped at the widest, each planned once per link. *)
Definition plan_rule (link : Link) (competitors : list IpBlock) (o : AddressOwnership) (facts : NetworkRouteFacts) (plan : NetworkRoutePlan)
    (rule : CanonicalRule * list IpBlock) : NetworkRoutePlan :=
  let '(rule, blocks) := rule in
  let each := (fun block => pieces_for (r_id rule) block link competitors o facts) <$> blocks in
  let pieces := concat (fst <$> each) in
  let over := (MAX_ROUTES_PER_RULE <? length pieces)%nat in
  let pieces := if over then take MAX_ROUTES_PER_RULE (sort_by piece_cmp pieces) else pieces in
  mkNetworkPlan (fold_left push_once ((fun p => (link, p)) <$> pieces) (plan_networks plan)) (plan_hosts plan)
    (plan_diagnostics plan ++ concat (snd <$> each) ++ (if over then [NetworkRoutesCapped (r_id rule) MAX_ROUTES_PER_RULE] else [])).

(** [max_by_key]: the last of the greatest. *)
Definition narrowest_holder (networks : list (Link * IpBlock)) (ip : IpAddr) : option Link :=
  fst <$> fold_left (fun best nb => match best with
                                    | Some m => if prefix_len nb.2 <? prefix_len m.2 then best else Some nb
                                    | None => Some nb
                                    end)
            (List.filter (fun nb => IpBlock_contains nb.2 ip) networks) None.

Definition v4_blocks (set : list (Z * Z)) : list IpBlock := omap (fun '(net, prefix) => IpBlock_new (V4 net) prefix) set.

(** What carries a link's network over the other link unless out-specified. *)
Definition competitors_of (mode : RouteBehaviorMode) (has_primary : bool) (facts : NetworkRouteFacts) (tunnel_catch_alls : list (Z * Z))
    (link : Link) : list IpBlock :=
  match mode, link with
  | PreferPrimary, Main => tunnel_routes facts
  | PreferPrimary, Additional => if has_primary then v4_blocks (counter_overlay_for tunnel_catch_alls) else []
  | PreferSecondaryWhenAvailable, Main => tunnel_routes facts ++ v4_blocks [OVERLAY_LOW; OVERLAY_HIGH]
  | PreferSecondaryWhenAvailable, Additional => []
  end.

Definition carve_link_of (mode : RouteBehaviorMode) : Link :=
  match mode with PreferPrimary => Main | PreferSecondaryWhenAvailable => Additional end.

(** The networks of both links, the main link's only where it can be routed to. *)
Definition plan_of_networks (mode : RouteBehaviorMode) (book : CanonicalRuleBook) (has_primary : bool) (o : AddressOwnership)
    (facts : NetworkRouteFacts) (tunnel_catch_alls : list (Z * Z)) (support : RuleShapeSupport) : NetworkRoutePlan :=
  let competitors := competitors_of mode has_primary facts tunnel_catch_alls in
  let plan := mkNetworkPlan [] [] [] in
  let plan := if has_primary then fold_left (plan_rule Main (competitors Main) o facts) (network_rules (primary book) support) plan else plan in
  fold_left (plan_rule Additional (competitors Additional) o facts) (network_rules (secondary book) support) plan.

Definition plan_network_routes (mode : RouteBehaviorMode) (book : CanonicalRuleBook) (has_primary : bool) (o : AddressOwnership)
    (facts : NetworkRouteFacts) (tunnel_catch_alls : list (Z * Z)) (support : RuleShapeSupport) : NetworkRoutePlan :=
  let plan := plan_of_networks mode book has_primary o facts tunnel_catch_alls support in
  let carve_link := carve_link_of mode in
  if bool_decide (carve_link = Main) && negb has_primary then plan
  else
    let hosts := ip ← concat ((fun nb => if bool_decide (nb.1 = carve_link) then [] else explicit_inside o nb.2) <$> plan_networks plan);
                 if bool_decide (owner_of o ip = Some carve_link) && negb (bool_decide (narrowest_holder (plan_networks plan) ip = Some carve_link))
                 then [ip] else [] in
    mkNetworkPlan (plan_networks plan) ((fun ip => (carve_link, ip)) <$> dedup (sort_by ip_cmp hosts)) (plan_diagnostics plan).

(** ** Pieces *)

Lemma push_all_elem {A} `{EqDecision A} (new : list A) : forall l x, x ∈ fold_left push_once new l <-> x ∈ l \/ x ∈ new.
Proof.
  induction new as [|y new IH]; intros l x; cbn [fold_left]; [rewrite elem_of_nil; tauto|].
  rewrite IH, push_once_elem, elem_of_cons. tauto.
Qed.

(** A host as a block holds that host. *)
Lemma server_block server : ip_wf server ->
  exists hole, IpBlock_new server (if is_ipv4 server then 32 else 128) = Some hole /\ block_wf hole
  /\ forall a, in_block hole a <-> a = server.
Proof.
  intros Hs. destruct (IpBlock_new server (if is_ipv4 server then 32 else 128)) as [hole|] eqn:E.
  2: { unfold IpBlock_new, family_bits in E. destruct (is_ipv4 server); cbn in E; done. }
  exists hole. split; [done|]. apply IpBlock_new_Some in E as (_ & Hl & H4 & Ht & Hw); [|done|by destruct (is_ipv4 server)].
  split; [done|]. intros a. unfold in_block, block_size. rewrite (family_bits_eq _ _ H4), Hl, H4, Ht.
  replace (family_bits server - (if is_ipv4 server then 32 else 128)) with 0 by (unfold family_bits; destruct (is_ipv4 server); done).
  rewrite Z.pow_0_r, Z.mod_1_r. split.
  - intros [Hf Hr]. apply ip_ext; [done|lia].
  - intros ->. split; [done|lia].
Qed.

Section Servers.
Context (rule_id : str) (block : IpBlock).

(** Cutting the servers out: the pieces stay inside the old ones, and an address that is no server keeps one, no wider. *)
Lemma around_servers_pieces servers : Forall ip_wf servers -> forall pieces notes, (forall p, p ∈ pieces -> block_wf p) ->
  let pieces' := (fold_left (fun acc server =>
    match IpBlock_new server (if is_ipv4 server then 32 else 128) with
    | None => acc
    | Some hole =>
        if IpBlock_covers block hole
        then ((acc.1 ≫= fun p => without p hole), acc.2 ++ [NetworkRoutedAroundTunnelServer rule_id block server])
        else acc
    end) servers (pieces, notes)).1 in
  (forall p, p ∈ pieces' -> block_wf p /\ exists q, q ∈ pieces /\ IpBlock_covers q p = true)
  /\ (forall a, ip_wf a -> (a ∉ servers) -> forall q, q ∈ pieces -> in_block q a ->
        exists p, p ∈ pieces' /\ in_block p a /\ prefix_len q <= prefix_len p).
Proof.
  induction 1 as [|s servers Hs _ IH]; intros pieces notes Hw; cbn [fold_left].
  { cbn. split; [intros p Hp; split; [by auto|]; exists p; split; [done|by apply covers_self, Hw]|].
    intros a _ _ q Hq Ha. exists q. split_and!; [done..|lia]. }
  destruct (server_block s Hs) as (hole & -> & Hhw & Hhole). destruct (IpBlock_covers block hole); cycle 1.
  { destruct (IH pieces notes Hw) as [H1 H2]. split; [done|]. intros a Ha [_ Hn]%not_elem_of_cons. by apply H2. }
  cbn [fst snd].
  assert (Hw' : forall p, p ∈ (pieces ≫= fun p => without p hole) -> block_wf p).
  { intros p (q & Hp & Hq)%list_elem_of_bind. by apply (without_wf q hole p (Hw q Hq)) in Hp as (? & _). }
  edestruct (IH (pieces ≫= fun p => without p hole)) as [H1 H2]; [done|]. split.
  - intros p Hp. destruct (H1 p Hp) as (Hpw & q & Hq & Hc). split; [done|].
    apply list_elem_of_bind in Hq as (q0 & Hq & Hq0). destruct (without_wf q0 hole q (Hw _ Hq0) Hq) as (Hqw & _ & Hcov).
    exists q0. split; [done|]. eapply covers_trans; [by apply Hw|exact Hqw|done..].
  - intros a Ha [Hne Hn]%not_elem_of_cons q Hq Hqa.
    destruct (proj2 (without_spec q hole a (Hw q Hq) Hhw Ha)) as (p & Hp & Hpa); [split; [done|by rewrite Hhole]|].
    destruct (without_wf q hole p (Hw q Hq) Hp) as (_ & Hlen & _).
    destruct (H2 a Ha Hn p) as (p' & ? & ? & ?); [apply list_elem_of_bind; eauto|done|]. exists p'. split_and!; [done..|lia].
Qed.

End Servers.

Section Plan.
Context (book : CanonicalRuleBook) (support : RuleShapeSupport) (o : AddressOwnership) (facts : NetworkRouteFacts).
Hypothesis Hok : networks_ok book.
Hypothesis Ho : ao_networks o = of_book book support.
Hypothesis Hlocal : Forall block_wf (local_networks facts).
Hypothesis Hservers : Forall ip_wf (tunnel_servers facts).

Abbreviation main := (route_networks support (primary book)).
Abbreviation additional := (route_networks support (secondary book)).

Lemma side_wf link net : net ∈ side main additional link -> block_wf net.
Proof using Hok.
  intros Hin. assert (Hr : exists role, net ∈ route_networks support (set_for book role)) by (destruct link; [by exists Primary|by exists Secondary]).
  destruct Hr as (role & (rule & blocks & Hrule & _ & _ & _ & _ & Hb & Hnet)%route_networks_elem).
  destruct (rule_blocks_ok book role rule blocks Hok Hrule Hb) as [Hf _]. by apply (proj1 (Forall_forall _ _) Hf).
Qed.

Lemma sides_wf : Forall block_wf main /\ Forall block_wf additional.
Proof using Hok. split; apply Forall_forall; intros net; [apply (side_wf Main)|apply (side_wf Additional)]. Qed.

Lemma networks_of_main net : existsb (fun n => bool_decide (n = net)) (networks_of o Main) = true <-> net ∈ main.
Proof using Hok Ho.
  destruct sides_wf as [Hm Ha]. rewrite existsb_elem. unfold networks_of. rewrite Ho. setoid_rewrite filter_elem. split.
  - intros (n & [Hn Hc] & ->%bool_decide_eq_true). destruct (by_block (of_book book support) !! net) as [claim|] eqn:E; [|done].
    by apply (claim_sides main additional net claim E Main).
  - intros Hin. exists net. split; [|by apply bool_decide_eq_true].
    destruct (side_claimed main additional net Main Hin) as (claim & E & Hc). split; [|unfold of_book; by rewrite E].
    unfold of_book, new_claims. cbn [sorted]. apply sort_by_elem_of, list_elem_of_fmap. exists (net, claim). split; [done|]. by apply elem_of_map_to_list.
Qed.

(** The pieces of a block, by where they lie. *)
Lemma pieces_for_sound rule_id block link competitors p :
  block_wf block -> (forall c, c ∈ competitors -> block_wf c) -> p ∈ (pieces_for rule_id block link competitors o facts).1 ->
  block_wf p /\ IpBlock_covers block p = true /\ (link = Additional -> block ∉ main)
  /\ (forall net other, other <> link -> net ∈ side main additional other -> (other = Additional -> net ∉ main) ->
        prefix_len block < prefix_len net -> IpBlock_covers block net = true -> IpBlock_covers net p = false).
Proof using Hok Ho Hservers.
  intros Hb Hc. unfold pieces_for. destruct (bool_decide (link = Additional) && _) eqn:E; [by intros ?%not_elem_of_nil|].
  assert (Hsplit : forall q, q ∈ split_against block competitors -> block_wf q /\ IpBlock_covers block q = true).
  { intros q Hq. destruct (split_against_inside block competitors Hb Hc q Hq) as (? & _ & ?). done. }
  set (served := if bool_decide (link = Additional) then around_servers rule_id block (tunnel_servers facts) (split_against block competitors) else _).
  assert (Hserved : forall q, q ∈ served.1 -> block_wf q /\ IpBlock_covers block q = true).
  { unfold served. case_bool_decide; [|exact Hsplit]. unfold around_servers. intros q Hq.
    apply (proj1 (around_servers_pieces rule_id block _ Hservers _ [] (fun q Hq => proj1 (Hsplit q Hq)))) in Hq as (Hqw & q0 & Hq0 & Hcov).
    split; [done|]. destruct (Hsplit q0 Hq0). by eapply covers_trans. }
  destruct served as [pieces notes]. cbn [fst] in *. rewrite !filter_elem. intros [[Hp _] Hnar].
  split_and!; [by apply Hserved..| |].
  - intros -> Hin%networks_of_main. rewrite bool_decide_eq_true_2, Hin in E by done. done.
  - intros net other Hne Hin Hadd Hlen Hcov. apply negb_true_iff in Hnar. apply not_true_iff_false. intros Hnp.
    apply not_true_iff_false in Hnar. apply Hnar, existsb_elem. exists net. split; [|done].
    destruct (side_claimed main additional net other Hin) as (claim & Ec & Hh).
    apply list_elem_of_fmap. exists (net, claim_winner claim). split; [done|]. apply filter_elem. split.
    + unfold networks_inside. rewrite Ho. apply list_elem_of_fmap. exists (net, claim). split; [done|].
      destruct sides_wf. by apply (inside_elem main additional).
    + cbn. apply negb_true_iff, bool_decide_eq_false. unfold claim_winner. destruct (claim_main claim) eqn:Em; [|destruct other; cbn in Hh; congruence].
      destruct other; [done|]. exfalso. apply Hadd; [done|]. by apply (claim_sides main additional net claim Ec Main).
Qed.

(** An address whose narrowest network is the block keeps a piece longer than every competitor. *)
Lemma pieces_for_complete rule_id block link competitors a :
  (forall c, c ∈ competitors -> block_wf c) -> ip_wf a -> wins main additional a link block ->
  (forall c, c ∈ competitors -> in_block c a -> is_single_address c = false) ->
  (forall l, l ∈ local_networks facts -> ~ in_block l a) -> (link = Additional -> a ∉ tunnel_servers facts) ->
  exists p, p ∈ (pieces_for rule_id block link competitors o facts).1 /\ in_block p a /\ prefix_len block <= prefix_len p
  /\ forall c, c ∈ competitors -> in_block c a -> prefix_len c < prefix_len p.
Proof using Hok Ho Hservers Hlocal.
  intros Hc Ha (Hba & Hin & Hadd & Hmax) Hhost Hnl Hns. pose proof (side_wf link block Hin) as Hb.
  destruct (split_against_wins block competitors Hb Hc a Ha Hba Hhost) as (q & Hq & Hqa & Hqc).
  assert (Hsplit : forall q, q ∈ split_against block competitors -> block_wf q /\ prefix_len block <= prefix_len q).
  { intros q' Hq'. destruct (split_against_inside block competitors Hb Hc q' Hq') as (? & ? & _). done. }
  unfold pieces_for. destruct (bool_decide (link = Additional) && _) eqn:E.
  { apply andb_true_iff in E as [El%bool_decide_eq_true Em%networks_of_main]. by apply Hadd in Em. }
  set (served := if bool_decide (link = Additional) then around_servers rule_id block (tunnel_servers facts) (split_against block competitors) else _).
  assert (Hserved : (forall p, p ∈ served.1 -> block_wf p) /\ exists p, p ∈ served.1 /\ in_block p a /\ prefix_len q <= prefix_len p).
  { unfold served. case_bool_decide as El.
    - unfold around_servers. pose proof (around_servers_pieces rule_id block _ Hservers _ [] (fun q Hq => proj1 (Hsplit q Hq))) as [H1 H2].
      split; [intros p Hp; by apply (H1 p Hp)|]. by apply (H2 a Ha (Hns El) q).
    - split; [intros p Hp; by apply (Hsplit p Hp)|]. exists q. split_and!; [done..|lia]. }
  destruct served as [pieces notes]. cbn [fst] in *. destruct Hserved as (Hw & p & Hp & Hpa & Hlen). pose proof (Hw p Hp) as Hpw.
  exists p. split_and!; [|done| |].
  - rewrite !filter_elem. split; [split; [done|]|].
    + destruct (List.find _ _) as [l|] eqn:F; [|done]. apply List.find_some in F as [Hl Hcov]. apply list_elem_of_In in Hl.
      exfalso. apply (Hnl l Hl). apply (covers_in l p a); [by apply (proj1 (Forall_forall _ _) Hlocal)|done..].
    + apply negb_true_iff, not_true_iff_false. intros (net & Hnet & Hcov)%existsb_elem.
      apply list_elem_of_fmap in Hnet as ([n w] & -> & [Hins Hne]%filter_elem). cbn [fst snd] in *.
      unfold networks_inside in Hins. rewrite Ho in Hins. apply list_elem_of_fmap in Hins as ([n' claim] & [= -> ->] & Hins).
      destruct sides_wf as [Hm Had]. apply (inside_elem main additional Hm Had) in Hins as (Ec & Hlt & _); [|done].
      destruct (claimed_side main additional n' claim Ec) as [lk Hlk].
      pose proof (Hmax lk n' Hlk (covers_in n' p a (side_wf lk n' Hlk) Hpw Ha Hcov Hpa)). lia.
  - destruct (Hsplit q Hq). lia.
  - intros c Hcin Hca. pose proof (Hqc c Hcin Hca). lia.
Qed.

(** ** The networks of the plan *)

(** [plan_rule] over the rules of a link: what it adds, exactly where no rule was capped. *)
Lemma plan_rules_sound link competitors rules : forall plan p,
  p ∈ plan_networks (fold_left (plan_rule link competitors o facts) rules plan) ->
  p ∈ plan_networks plan
  \/ p.1 = link /\ exists rule blocks block, (rule, blocks) ∈ rules /\ block ∈ blocks /\ p.2 ∈ (pieces_for (r_id rule) block link competitors o facts).1.
Proof using Type.
  induction rules as [|[rule blocks] rules IH]; intros plan p; cbn [fold_left]; [by left|].
  intros [Hp|(Hl & rule' & blocks' & block & Hr & Hb & Hp)]%IH.
  - cbn [plan_rule plan_networks] in Hp. apply push_all_elem in Hp as [Hp|Hp]; [by left|right].
    apply list_elem_of_fmap in Hp as (q & -> & Hq). split; [done|]. exists rule, blocks. cbn [snd].
    assert (Hq' : q ∈ concat (fst <$> ((fun block => pieces_for (r_id rule) block link competitors o facts) <$> blocks))).
    { destruct (_ <? _)%nat; [|done]. apply elem_of_take in Hq as (i & Hq%list_elem_of_lookup_2 & _). by apply sort_by_elem_of in Hq. }
    rewrite <- list_fmap_compose in Hq'. apply list_elem_of_In, in_concat in Hq' as (l & Hl & Hq').
    apply list_elem_of_In, list_elem_of_fmap in Hl as (block & -> & Hb). exists block. split_and!; [by left|done|by apply list_elem_of_In].
  - right. split; [done|]. exists rule', blocks', block. split_and!; [by right|done..].
Qed.

Lemma plan_rules_complete link competitors rules : forall plan,
  let plan' := fold_left (plan_rule link competitors o facts) rules plan in
  plan_networks plan ⊆ plan_networks plan' /\ plan_diagnostics plan ⊆ plan_diagnostics plan'
  /\ ((forall id cap, NetworkRoutesCapped id cap ∉ plan_diagnostics plan') ->
      forall rule blocks block p, (rule, blocks) ∈ rules -> block ∈ blocks ->
        p ∈ (pieces_for (r_id rule) block link competitors o facts).1 -> (link, p) ∈ plan_networks plan').
Proof using Type.
  induction rules as [|[rule blocks] rules IH]; intros plan; cbn [fold_left].
  { split_and!; [done..|]. by intros _ ? ? ? ? ?%not_elem_of_nil. }
  destruct (IH (plan_rule link competitors o facts plan (rule, blocks))) as (H1 & H2 & H3). split_and!.
  - intros x Hx. apply H1. cbn [plan_rule plan_networks]. apply push_all_elem. by left.
  - intros x Hx. apply H2. cbn [plan_rule plan_diagnostics]. apply elem_of_app. by left.
  - intros Hcap rule' blocks' block p Hr Hb Hp. apply elem_of_cons in Hr as [[= -> ->]|Hr]; [|by eapply H3].
    apply H1. cbn [plan_rule plan_networks]. apply push_all_elem. right. apply list_elem_of_fmap. exists p. split; [done|].
    destruct (_ <? _)%nat eqn:Eover.
    { exfalso. apply (Hcap (r_id rule) MAX_ROUTES_PER_RULE), H2. cbn [plan_rule plan_diagnostics]. rewrite Eover, !elem_of_app.
      right. right. by left. }
    rewrite <- list_fmap_compose. apply list_elem_of_In, in_concat. exists (pieces_for (r_id rule) block link competitors o facts).1.
    split; [|by apply list_elem_of_In]. apply list_elem_of_In, list_elem_of_fmap. by exists block.
Qed.

Lemma network_rules_blocks rules net :
  (exists rule blocks, (rule, blocks) ∈ network_rules rules support /\ net ∈ blocks) <-> net ∈ route_networks support rules.
Proof using Type.
  rewrite route_networks_elem. unfold network_rules. setoid_rewrite list_elem_of_omap. split.
  - intros (rule & blocks & (r & Hr & E) & Hn). exists r, blocks.
    destruct (negb (r_enabled r) || _ || _ || _) eqn:G; [done|]. reflect_bools.
    destruct (r_address_match r) as [m|]; [|done]. cbn in E |- *. destruct (ip_blocks m) as [bs|]; [|done]. injection E as <- <-.
    split_and!; try done. by apply eq_None_not_Some.
  - intros (rule & blocks & Hr & He & Ha & Hact & Hs & Hb & Hn). exists rule, blocks. split; [|done]. exists rule. split; [done|].
    rewrite He, Ha, Hs, bool_decide_eq_false_2, bool_decide_eq_false_2 by (try done; by intros [? ?]). cbn.
    destruct (r_address_match rule) as [m|]; [|done]. cbn in Hb |- *. by rewrite Hb.
Qed.

(** ** Longest prefix and the claims *)

Context (mode : RouteBehaviorMode) (has_primary : bool) (catch_alls : list (Z * Z)).
Hypothesis Htunnel : Forall block_wf (tunnel_routes facts).
Hypothesis Hcatch : forall c, c ∈ catch_alls -> catch_all_ok c.

Abbreviation competitors := (competitors_of mode has_primary facts catch_alls).
Abbreviation plan := (plan_of_networks mode book has_primary o facts catch_alls support).

Lemma competitors_wf link c : c ∈ competitors link -> block_wf c.
Proof using Htunnel Hcatch.
  assert (Hv4 : forall l, (forall d n, (d, n) ∈ l -> ip_wf (V4 d) /\ 0 <= n) -> forall b, b ∈ v4_blocks l -> block_wf b).
  { intros l Hl b ([d n] & Hin & Hb)%list_elem_of_omap. destruct (Hl d n Hin). apply IpBlock_new_Some in Hb; tauto. }
  assert (Hover : forall b, b ∈ v4_blocks [OVERLAY_LOW; OVERLAY_HIGH] -> block_wf b).
  { apply Hv4. intros d n [[= -> ->]|[= -> ->]%list_elem_of_singleton]%elem_of_cons; (split; [split|]; done). }
  assert (Hct : forall b, b ∈ v4_blocks (counter_overlay_for catch_alls) -> block_wf b).
  { apply Hv4. intros d n Hin. destruct (counter_overlay_inside _ _ _ Hcatch Hin) as [(Hw & Hn & _) _]. cbn in Hw, Hn. split; [done|lia]. }
  unfold competitors_of. destruct mode, link.
  - by apply (proj1 (Forall_forall _ _) Htunnel).
  - destruct has_primary; [apply Hct|by intros ?%not_elem_of_nil].
  - intros [Hin|Hin]%elem_of_app; [by apply (proj1 (Forall_forall _ _) Htunnel)|by apply Hover].
  - by intros ?%not_elem_of_nil.
Qed.

(** A planned route comes from a network of its link. *)
Lemma planned_sound link p : (link, p) ∈ plan_networks plan ->
  exists block id, block ∈ side main additional link /\ p ∈ (pieces_for id block link (competitors link) o facts).1.
Proof using Type.
  unfold plan_of_networks. cbv zeta.
  intros [Hp|(Hl & rule & blocks & block & Hr & Hb & Hp)]%plan_rules_sound; cbn [fst snd] in *.
  - destruct has_primary; [|by apply not_elem_of_nil in Hp].
    apply plan_rules_sound in Hp as [Hp|(Hl & rule & blocks & block & Hr & Hb & Hp)]; cbn [fst snd] in *; [by apply not_elem_of_nil in Hp|subst link].
    exists block, (r_id rule). split; [|done]. apply network_rules_blocks. eauto.
  - subst link. exists block, (r_id rule). split; [|done]. apply network_rules_blocks. eauto.
Qed.

Lemma planned_complete link block : (link = Main -> has_primary = true) ->
  (forall id cap, NetworkRoutesCapped id cap ∉ plan_diagnostics plan) -> block ∈ side main additional link ->
  exists id, forall p, p ∈ (pieces_for id block link (competitors link) o facts).1 -> (link, p) ∈ plan_networks plan.
Proof using Type.
  intros Hprim Hcap Hin. unfold plan_of_networks in *. cbv zeta in *.
  assert (Hr : exists rule blocks, (rule, blocks) ∈ network_rules (set_for book (match link with Main => Primary | Additional => Secondary end)) support /\ block ∈ blocks)
    by (apply network_rules_blocks; by destruct link).
  destruct Hr as (rule & blocks & Hr & Hb). exists (r_id rule). intros p Hp.
  destruct (plan_rules_complete Additional (competitors Additional) (network_rules (secondary book) support)
    (if has_primary then fold_left (plan_rule Main (competitors Main) o facts) (network_rules (primary book) support) (mkNetworkPlan [] [] []) else mkNetworkPlan [] [] []))
    as (H1 & H2 & H3). destruct link; [|by eapply H3].
  rewrite (Hprim eq_refl) in *. apply H1.
  eapply (plan_rules_complete Main (competitors_of mode true facts catch_alls Main) (network_rules (primary book) support) (mkNetworkPlan [] [] [])); [|done..].
  intros id cap Hd. by apply (Hcap id cap), H2.
Qed.

(** A route of the other link over the address is wider than the narrowest network. *)
Lemma other_link_wider a link net other q : ip_wf a -> wins main additional a link net -> (other, q) ∈ plan_networks plan -> in_block q a ->
  other = link \/ prefix_len q < prefix_len net.
Proof using Hok Ho Hservers Htunnel Hcatch.
  intros Ha (Hna & Hn & Hadd & Hmax) (block & id & Hb & Hp)%planned_sound Hqa.
  destruct (decide (other = link)) as [|Hne]; [by left|right].
  pose proof (side_wf other block Hb) as Hbw. pose proof (side_wf link net Hn) as Hnw.
  destruct (pieces_for_sound id block other (competitors other) q Hbw (competitors_wf other) Hp) as (Hqw & Hcov & Hm & Hnar).
  assert (Hba : in_block block a) by by apply (covers_in block q a).
  pose proof (Hmax other block Hb Hba) as Hlen.
  assert (Hbn : IpBlock_covers block net = true).
  { destruct (nested_or_apart block net Hbw Hnw) as [|[H|H]]; [done| |by destruct (H a Ha Hba)].
    rewrite (covers_same_length net block Hbw H Hlen). by apply covers_self. }
  assert (Hneq : block <> net).
  { intros ->. destruct link, other; try done; [by apply Hm|by apply Hadd]. }
  assert (Hlt : prefix_len block < prefix_len net).
  { destruct (Z.eq_dec (prefix_len block) (prefix_len net)) as [E|]; [|lia]. exfalso. apply Hneq. by apply covers_same_length; [..|lia]. }
  assert (Hnq : IpBlock_covers net q = false) by (apply (Hnar net link); auto).
  destruct (nested_or_apart net q Hnw Hqw) as [H|[H|H]]; [congruence| |by destruct (H a Ha Hna)].
  destruct (Z.lt_ge_cases (prefix_len q) (prefix_len net)) as [|Hge]; [done|]. exfalso.
  rewrite (covers_same_length q net Hnw H Hge), covers_self in Hnq by done. done.
Qed.

Lemma holder_is_max networks a : forall best,
  let res := fold_left (fun best nb => match best with
                                       | Some m => if prefix_len nb.2 <? prefix_len m.2 then best else Some nb
                                       | None => Some nb
                                       end)
               (List.filter (fun nb => IpBlock_contains nb.2 a) networks) best in
  match res with
  | Some m => (Some m = best \/ m ∈ networks /\ IpBlock_contains m.2 a = true)
              /\ (forall nb, nb ∈ networks -> IpBlock_contains nb.2 a = true -> prefix_len nb.2 <= prefix_len m.2)
              /\ (forall b, best = Some b -> prefix_len b.2 <= prefix_len m.2)
  | None => best = None /\ forall nb : Link * IpBlock, nb ∈ networks -> IpBlock_contains nb.2 a = false
  end.
Proof using Type.
  induction networks as [|n networks IH]; intros best; cbn [List.filter].
  { cbn. destruct best as [m|]; [|split; [done|by intros nb ?%not_elem_of_nil]].
    split_and!; [by left|by intros nb ?%not_elem_of_nil|]. intros b [= ->]. lia. }
  destruct (IpBlock_contains n.2 a) eqn:E; cbn [fold_left].
  - set (best' := match best with Some m => _ | None => _ end). specialize (IH best'). cbv zeta in IH |- *.
    assert (Hbest' : exists b', best' = Some b' /\ prefix_len n.2 <= prefix_len b'.2 /\ (b' = n \/ Some b' = best)
                     /\ forall b, best = Some b -> prefix_len b.2 <= prefix_len b'.2).
    { unfold best'. destruct best as [m|]; [destruct (Z.ltb_spec (prefix_len n.2) (prefix_len m.2))|]; eexists; (split; [done|]);
        split_and!; try lia; auto; intros b [= ->]; lia. }
    destruct Hbest' as (b' & Eb & Hn & Hor & Hle). rewrite Eb in *. destruct (fold_left _ _ (Some b')) as [m|]; [|by destruct IH].
    destruct IH as (H1 & H2 & H3). split_and!.
    + destruct H1 as [[= ->]|[? ?]]; [|right; split; [by right|done]]. destruct Hor as [->|?]; [right; split; [by left|done]|by left].
    + intros nb [->|Hnb]%elem_of_cons Hc; [|by apply H2]. pose proof (H3 b' eq_refl). lia.
    + intros b Hb. pose proof (H3 b' eq_refl). pose proof (Hle b Hb). lia.
  - specialize (IH best). cbv zeta in IH |- *. destruct (fold_left _ _ best) as [m|].
    + destruct IH as (H1 & H2 & H3). split_and!; [|intros nb [->|Hnb]%elem_of_cons Hc; [congruence|by apply H2]|done].
      destruct H1 as [|[? ?]]; [by left|right; split; [by right|done]].
    + destruct IH as [-> H]. split; [done|]. intros nb [->|Hnb]%elem_of_cons; auto.
Qed.

Lemma planned_route_wf link p : (link, p) ∈ plan_networks plan -> block_wf p /\ exists block, block ∈ side main additional link /\ IpBlock_covers block p = true.
Proof using Hok Ho Hservers Htunnel Hcatch.
  intros (block & id & Hb & Hp)%planned_sound. pose proof (side_wf link block Hb) as Hbw.
  destruct (pieces_for_sound id block link (competitors link) p Hbw (competitors_wf link) Hp) as (? & ? & _). eauto.
Qed.

(** C5. Network rules are routed as they are claimed. Take, in either mode, a plan
    that capped no rule, of a book, local networks, tunnel routes and servers and
    catch-alls that are well formed, by an arbiter of that book. No route is planned
    over an address no network rule names. And take an address whose narrowest
    network is a rule's on a link (the main link where both name it), where that link
    is the additional one or there is a main link to route to; the address is in no
    attached segment, is no tunnel server if the link is the additional one, and no
    route of a single address would carry it over the other link. Then the longest
    planned route over the address is of that link, longer than every planned route
    of the other link and than every route that would carry it over the other link:
    the tunnel's own routes and our overlay against the main link, our
    counter-overlay against the additional one. *)
Theorem network_routes_follow_claims a :
  let p := plan_network_routes mode book has_primary o facts catch_alls support in
  ip_wf a -> (forall id cap, NetworkRoutesCapped id cap ∉ plan_diagnostics p) ->
  (forall link, net_winner (of_book book support) a = Some link -> (link = Main -> has_primary = true) ->
     (forall c, c ∈ competitors link -> in_block c a -> is_single_address c = false) ->
     (forall l, l ∈ local_networks facts -> ~ in_block l a) -> (link = Additional -> a ∉ tunnel_servers facts) ->
     narrowest_holder (plan_networks p) a = Some link
     /\ exists q, (link, q) ∈ plan_networks p /\ in_block q a
        /\ (forall c, c ∈ competitors link -> in_block c a -> prefix_len c < prefix_len q)
        /\ (forall other q', (other, q') ∈ plan_networks p -> in_block q' a -> other <> link -> prefix_len q' < prefix_len q))
  /\ (net_winner (of_book book support) a = None -> forall link q, (link, q) ∈ plan_networks p -> ~ in_block q a).
Proof using Hok Ho Hservers Hlocal Htunnel Hcatch.
  cbv zeta. assert (Ep : plan_networks (plan_network_routes mode book has_primary o facts catch_alls support) = plan_networks plan
    /\ plan_diagnostics (plan_network_routes mode book has_primary o facts catch_alls support) = plan_diagnostics plan)
    by (unfold plan_network_routes; by destruct (bool_decide _ && _)).
  destruct Ep as [-> ->]. intros Ha Hcap. destruct sides_wf as [Hm Had]. split.
  - intros link (net & Hwin)%net_winner_wins Hprim Hhost Hnl Hns; [|done..]. destruct Hwin as (Hna & Hn & Hadd & Hmax) eqn:Ewin. clear Ewin.
    assert (Hwins : wins main additional a link net) by done.
    destruct (planned_complete link net Hprim Hcap Hn) as (id & Hall).
    destruct (pieces_for_complete id net link (competitors link) a (competitors_wf link) Ha Hwins Hhost Hnl Hns) as (q & Hq & Hqa & Hlen & Hqc).
    assert (Hother : forall other q', (other, q') ∈ plan_networks plan -> in_block q' a -> other <> link -> prefix_len q' < prefix_len q).
    { intros other q' Hq' Hqa' Hne. destruct (other_link_wider a link net other q' Ha Hwins Hq' Hqa') as [|]; [done|lia]. }
    assert (Hcont : forall l x, (l, x) ∈ plan_networks plan -> IpBlock_contains x a = true <-> in_block x a)
      by (intros l x Hx; apply IpBlock_contains_spec; [by apply (planned_route_wf l)|done]).
    split; [|exists q; split_and!; by auto].
    unfold narrowest_holder. pose proof (holder_is_max (plan_networks plan) a None) as Hmx. cbv zeta in Hmx.
    destruct (fold_left _ _ None) as [[l x]|].
    + destruct Hmx as ([?|[Hx Hxa]] & Hmx & _); [done|]. cbn. f_equal. destruct (decide (l = link)) as [|Hne]; [done|exfalso].
      cbn [snd] in *. apply (Hcont l x Hx) in Hxa. pose proof (Hother l x Hx Hxa Hne).
      assert (prefix_len q <= prefix_len x); [|lia]. apply (Hmx (link, q)); [by apply Hall|]. by apply (Hcont link q); [apply Hall|].
    + destruct Hmx as [_ Hmx]. pose proof (Hmx (link, q) (Hall q Hq)) as Hf. cbn in Hf. apply not_true_iff_false in Hf.
      exfalso. apply Hf. by apply (Hcont link q); [apply Hall|].
  - intros Hnone link q Hq Hqa. destruct (planned_route_wf link q Hq) as (Hqw & block & Hb & Hcov).
    apply (proj1 (net_winner_none main additional Hm Had a Ha) Hnone link block Hb). by apply (covers_in block q a); [apply (side_wf link)|..].
Qed.

End Plan.

(** The claims of the arbiter are the claims of the book. *)
Lemma resolve_networks {C} `{!FqdnCacheLookup C} book (cache : C) order support :
  ao_networks (resolve_with_support book cache order support) = of_book book support.
Proof.
  assert (E : forall rules, sc_networks (name_claims cache support rules) = route_networks support rules) by (intros rules; apply name_claims_ok).
  unfold of_book. by rewrite <- !E.
Qed.

Lemma resolve_for_networks {C O} `{!FqdnCacheLookup C} `{!AppObservationLookup O} (observations : O) book (cache : C) settings support :
  ao_networks (resolve_for observations book cache settings support) = of_book book support.
Proof. rewrite <- (resolve_networks book cache (os_order settings) support). unfold resolve_for. by destruct (os_app_takeover settings). Qed.

(** A [/8] in the tunnel, a [/16] inside it on the main link, a tunnel that takes half the internet. *)
Definition branch_book : CanonicalRuleBook := mkCanonicalRuleBook [narrow_rule] [wide_rule].
Definition branch_facts : NetworkRouteFacts := mkFacts [mkIpBlock (ipv4 0 0 0 0) 1; mkIpBlock (ipv4 10 1 2 0) 24] [] [ipv4 10 9 9 9] [] [].
Definition branch_owner : AddressOwnership := resolve_with_support branch_book snapshot_empty ExactIpFirst (mkSupport true true true).

Lemma network_routes_follow_claims_witness :
  let plan := plan_network_routes PreferPrimary branch_book true branch_owner branch_facts [(0, 1)] (mkSupport true true true) in
  (Main, mkIpBlock (ipv4 10 1 2 0) 25) ∈ plan_networks plan /\ (Additional, mkIpBlock (ipv4 10 128 0 0) 9) ∈ plan_networks plan
  /\ narrowest_holder (plan_networks plan) (ipv4 10 1 2 3) = Some Main.
Proof.
  cbv zeta. split; [apply (bool_decide_eq_true_1 _); by vm_compute|]. split; [apply (bool_decide_eq_true_1 _); by vm_compute|].
  destruct (network_routes_follow_claims branch_book (mkSupport true true true) branch_owner branch_facts) with
    (mode := PreferPrimary) (has_primary := true) (catch_alls := [(0, 1)]) (a := ipv4 10 1 2 3) as [H _].
  - intros [] r ->%list_elem_of_singleton; repeat split; by vm_compute.
  - apply resolve_networks.
  - constructor.
  - repeat constructor; by vm_compute.
  - repeat constructor; by vm_compute.
  - intros c ->%list_elem_of_singleton. repeat split; by vm_compute.
  - split; by vm_compute.
  - intros id cap Hin.
    assert (Hall : Forall (fun d => match d with NetworkRoutesCapped _ _ => False | _ => True end)
      (plan_diagnostics (plan_network_routes PreferPrimary branch_book true branch_owner branch_facts [(0, 1)] (mkSupport true true true))))
      by (vm_compute; by repeat constructor).
    by apply (proj1 (Forall_forall _ _) Hall _ Hin).
  - apply H; [by vm_compute|done| |by intros l ?%not_elem_of_nil|done].
    intros c [-> | ->%list_elem_of_singleton]%elem_of_cons _; by vm_compute.
Defined.
