(* ===== verification/RouteGen.v ===== *)
(** * The routes of a rule book

    service-runtime/src/route_codegen.rs: host routes for the addresses the rules name
    or their programs use, the overlay or counter-overlay of the mode, and the routes
    of the network plan. *)

From stdpp Require Import base numbers list gmap sets sorting.
From S2P Require Import Prelude Str Digits IpAddr IpBlock AppPath AppIdentity AutoRule HostMatch Canonical.
From S2P Require Import NetPolicy Normalize Matching NetClaims HostCache PublicZone AddressOwner AppGate FakePool.
From S2P Require Import BlockSplit RouteTable RouteReading NetworkPlan.

Open Scope Z_scope.

(** ** Targets and rows *)

Record SecondaryRouteTarget := mkTarget { target_gateway : Z; target_gateway_v6 : option Z; target_index : Z }.

Record RouteCodegenOutput := mkOutput { out_routes : list RouteEntry; out_diagnostics : list RouteCodegenDiagnostic }.

Definition APP_IPV6_ROUTES : bool := false.

(** dns_address_sanity.rs. *)
Definition is_unreachable_v4 (ip : Z) : bool :=
  let a := octet ip 3 in
  ((a =? 0) || (a =? 127) || (a =? 169) && (octet ip 2 =? 254) || (224 <=? a) && (a <=? 255))%N.

(** net_filter.rs. *)
Definition is_non_routable_v4 (ip : Z) : bool := is_unreachable_v4 ip || is_default_pool_addr (V4 ip).

Definition is_non_routable (ip : IpAddr) : bool :=
  match ip with
  | V4 v4 => is_non_routable_v4 v4
  | V6 v6 =>
      let head := v6_segment v6 0 in
      (v6 =? 1) || (v6 =? 0) || (Z.land head 0xffc0 =? 0xfe80) || (Z.land head 0xff00 =? 0xff00)
  end.

Definition next_hop_for (ip : IpAddr) (target : SecondaryRouteTarget) : option IpAddr :=
  match ip with V4 _ => Some (V4 (target_gateway target)) | V6 _ => V6 <$> target_gateway_v6 target end.

Definition host_prefix_for (ip : IpAddr) : Z := match ip with V4 _ => 32 | V6 _ => 128 end.

Definition overlay_route (half : Z * Z) (target : SecondaryRouteTarget) : RouteEntry :=
  mkRoute (V4 half.1) half.2 (V4 (target_gateway target)) (target_index target) SECONDARY_ROUTE_METRIC true MainTable.

Definition dns_via_secondary_routes (servers : list Z) (target : SecondaryRouteTarget) : list RouteEntry :=
  (fun ip => mkRoute (V4 ip) 32 (V4 (target_gateway target)) (target_index target) SECONDARY_ROUTE_METRIC true MainTable)
  <$> List.filter (fun ip => negb (is_non_routable_v4 ip)) servers.

(** ** Host routes of a rule set *)

(** The destinations routed so far, the output and the routes of the rule at hand. *)
Record Emit := mkEmit { em_seen : gset IpAddr; em_out : RouteCodegenOutput; em_rule : nat }.

Definition note (d : RouteCodegenDiagnostic) (e : Emit) : Emit :=
  mkEmit (em_seen e) (mkOutput (out_routes (em_out e)) (out_diagnostics (em_out e) ++ [d])) (em_rule e).

Section Target.
Context (target : SecondaryRouteTarget).

(** The flag is [false] only at the cap. *)
Definition push_route (ip : IpAddr) (e : Emit) : Emit * bool :=
  if (MAX_ROUTES_PER_RULE <=? em_rule e)%nat then (e, false)
  else if is_non_routable ip then (e, true)
  else match next_hop_for ip target with
       | None => (e, true)
       | Some hop =>
           if bool_decide (ip ∈ em_seen e) then (e, true)
           else (mkEmit ({[ip]} ∪ em_seen e)
                   (mkOutput (out_routes (em_out e)
                              ++ [mkRoute ip (host_prefix_for ip) hop (target_index target) SECONDARY_ROUTE_METRIC true MainTable])
                      (out_diagnostics (em_out e)))
                   (S (em_rule e)), true)
       end.

(** [for ip in ips { if !push_route(..) { break; } }] *)
Fixpoint push_all (ips : list IpAddr) (e : Emit) : Emit * bool :=
  match ips with
  | [] => (e, true)
  | ip :: rest => let '(e, more) := push_route ip e in if more then push_all rest e else (e, false)
  end.

(** The same loop over addresses the arbiter may hold back. *)
Fixpoint push_steerable (steerable : IpAddr -> bool) (ips : list IpAddr) (e : Emit) (held : HeldBack) : Emit * HeldBack * bool :=
  match ips with
  | [] => (e, held, true)
  | ip :: rest =>
      if steerable ip then
        let '(e, more) := push_route ip e in
        if more then push_steerable steerable rest e held else (e, held, false)
      else push_steerable steerable rest e (note_held held ip)
  end.

Section Rules.
Context {C O : Type} `{!FqdnCacheLookup C} `{!AppObservationLookup O} (cache : C).
Context (gate : AppDestinationGate O) (o : AddressOwnership) (link : Link).

Definition steerable (ip : IpAddr) : bool := address_rule_may_steer o ip link.

(** The hosts of a suffix, stopping where the cap stops one. *)
Fixpoint fanout_hosts (hosts : list str) (e : Emit) (held : HeldBack) : Emit * HeldBack :=
  match hosts with
  | [] => (e, held)
  | sub :: rest =>
      let '(e, held, more) := push_steerable steerable (capped_for_host cache sub Both) e held in
      if more then fanout_hosts rest e held else (e, held)
  end.

Definition fanout_suffix (suffix : str) (include_apex : bool) (e : Emit) (held : HeldBack) : Emit * HeldBack * bool :=
  let subhosts := if include_apex then hostnames_for_suffix_domain cache suffix SUFFIX_FANOUT_BACKSTOP
                  else hostnames_under_suffix cache suffix SUFFIX_FANOUT_BACKSTOP in
  let '(e, held) := fanout_hosts subhosts e held in
  (e, held, match subhosts with [] => false | _ => true end).

(** An application rule: the destinations the gate admits. *)
Definition route_app (rule : CanonicalRule) (app : CanonicalAppMatch) (e : Emit) : Emit :=
  let pattern := match pattern app with Exact s | Canonical.Glob s => s | Path path => AppPath_as_str path end in
  let destinations := admit_destinations gate pattern link in
  match admitted destinations, admitted_v6 destinations, refused destinations with
  | [], [], [] => note (AppRuleUnobserved (r_id rule) pattern) e
  | _, _, _ =>
      let e := fold_left (fun e '(ip, reason) =>
        match reason with
        | ClaimedByAddressRule => note (AppRuleDestinationClaimedByMainLink (r_id rule) pattern ip) e
        | UsedByOtherProcess => note (AppRuleDestinationUsedByOtherProcess (r_id rule) pattern ip) e
        | DeclinedShared => e
        end) (refused destinations) e in
      fst (push_all ((V4 <$> admitted destinations) ++ (if APP_IPV6_ROUTES then V6 <$> admitted_v6 destinations else [])) e)
  end.

(** What was held back, reported once per rule. *)
Definition report_held (rule : CanonicalRule) (held : HeldBack) (e : Emit) : Emit :=
  let e := match hb_claimed held with Some (ip, count) => note (AddressClaimedByMainLink (r_id rule) ip count) e | None => e end in
  match hb_outside_tunnel held with Some (ip, count) => note (PrivateAddressKeptOutOfTunnel (r_id rule) ip count) e | None => e end.

Definition route_address (rule : CanonicalRule) (e : Emit) : Emit :=
  let held := held_back_new o link (r_action rule) in
  match r_address_match rule with
  | Some (ExactIp ip) =>
      if steerable ip then report_held rule held (fst (push_route ip e)) else report_held rule (note_held held ip) e
  | Some (Subnet _) | Some (Range _) | Some (AnyZoneDomain _) | None => report_held rule held e
  | Some (ExactFqdn host) =>
      match ips_for_hostname cache host with
      | [] => note (HostnameUnresolved (r_id rule) host) e
      | _ => let '(e, held, _) := push_steerable steerable (capped_for_host cache host Both) e held in report_held rule held e
      end
  | Some (SuffixDomain suffix) =>
      let '(e, held, had_subhosts) := fanout_suffix suffix true e held in
      report_held rule held (if had_subhosts then e else note (SuffixEmpty (r_id rule) suffix) e)
  | Some (Zone zone) =>
      let '(e, held, had_subhosts) := fanout_suffix zone false e held in
      report_held rule held (if had_subhosts then e else note (ZoneEmpty (r_id rule) zone) e)
  end.

(** One rule of the set, with its count of routes from zero. *)
Definition route_rule (e : Emit) (rule : CanonicalRule) : Emit :=
  let e := mkEmit (em_seen e) (em_out e) 0 in
  if negb (r_enabled rule) || bool_decide (r_action rule = Block) then e
  else match r_app_match rule, r_address_match rule with
       | Some _, Some _ => note (AppRuleAddressAndAppNotRouted (r_id rule)) e
       | Some app, None => route_app rule app e
       | None, _ => route_address rule e
       end.

End Rules.
End Target.

Definition generate_secondary_routes {C O} `{!FqdnCacheLookup C} `{!AppObservationLookup O} (rules : CanonicalRuleSet)
    (target : SecondaryRouteTarget) (cache : C) (observations : O) (denied : gset Z) (o : AddressOwnership) (link : Link) : RouteCodegenOutput :=
  let gate := with_declined (for_rule_set o observations rules) denied in
  em_out (fold_left (route_rule target cache gate o link) rules (mkEmit ∅ (mkOutput [] []) 0)).

(** ** The mode *)

Definition is_host_length (r : RouteEntry) : bool := prefix_length r =? host_prefix_for (destination r).

Section PushPlan.
Context (primary_target : option SecondaryRouteTarget) (secondary_target : SecondaryRouteTarget).

Definition target_of (link : Link) : option SecondaryRouteTarget :=
  match link with Main => primary_target | Additional => Some secondary_target end.

(** A host of the plan, unless it is routed on the link already. *)
Definition push_plan_host (acc : gset (IpAddr * Z) * list RouteEntry) (host : Link * IpAddr) : gset (IpAddr * Z) * list RouteEntry :=
  let '(hosts, routes) := acc in
  let '(link, ip) := host in
  match target_of link with
  | None => acc
  | Some target =>
      if is_non_routable ip || bool_decide ((ip, target_index target) ∈ hosts) then acc
      else ({[(ip, target_index target)]} ∪ hosts,
            match next_hop_for ip target with
            | Some hop => routes ++ [mkRoute ip (host_prefix_for ip) hop (target_index target) SECONDARY_ROUTE_METRIC true MainTable]
            | None => routes
            end)
  end.

Definition plan_network_row (hosts : gset (IpAddr * Z)) (planned : Link * IpBlock) : option RouteEntry :=
  let '(link, block) := planned in
  target ← target_of link;
  if is_single_address block && bool_decide ((network block, target_index target) ∈ hosts) then None
  else hop ← next_hop_for (network block) target;
       Some (mkRoute (network block) (prefix_len block) hop (target_index target) NETWORK_ROUTE_METRIC true MainTable).

Definition push_network_plan (plan : NetworkRoutePlan) (out : RouteCodegenOutput) : RouteCodegenOutput :=
  let routed := list_to_set ((fun r => (destination r, interface_index r)) <$> List.filter is_host_length (out_routes out)) in
  let '(hosts, routes) := fold_left push_plan_host (plan_hosts plan) (routed, out_routes out) in
  mkOutput (routes ++ omap (plan_network_row hosts) (plan_networks plan)) (out_diagnostics out ++ plan_diagnostics plan).

End PushPlan.

Section Generate.
Context {C O : Type} `{!FqdnCacheLookup C} `{!AppObservationLookup O}.

(** The routes of the mode before the networks. *)
Definition mode_routes (mode : RouteBehaviorMode) (book : CanonicalRuleBook) (primary_target : option SecondaryRouteTarget)
    (secondary_target : SecondaryRouteTarget) (cache : C) (observations : O) (denied : gset Z) (o : AddressOwnership)
    (tunnel_catch_alls : list (Z * Z)) : RouteCodegenOutput :=
  match mode with
  | PreferPrimary =>
      let out := generate_secondary_routes (secondary book) secondary_target (mkDenylist cache denied) observations denied o Additional in
      match primary_target with
      | Some pt => mkOutput (out_routes out ++ ((fun half => overlay_route half pt) <$> counter_overlay_for tunnel_catch_alls)) (out_diagnostics out)
      | None => mkOutput (out_routes out) (out_diagnostics out ++ [PrimaryExceptionsUnavailable])
      end
  | PreferSecondaryWhenAvailable =>
      let overlay := [overlay_route OVERLAY_LOW secondary_target; overlay_route OVERLAY_HIGH secondary_target] in
      match primary_target with
      | Some pt =>
          let exceptions := generate_secondary_routes (primary book) pt cache observations ∅ o Main in
          mkOutput (overlay ++ out_routes exceptions) (out_diagnostics exceptions)
      | None => mkOutput overlay [PrimaryExceptionsUnavailable]
      end
  end.

Definition generate_routes_with (mode : RouteBehaviorMode) (book : CanonicalRuleBook) (primary_target : option SecondaryRouteTarget)
    (secondary_target : SecondaryRouteTarget) (cache : C) (observations : O) (denied : gset Z) (settings : OwnershipSettings)
    (tunnel_catch_alls : list (Z * Z)) (networks : NetworkRouteFacts) (support : RuleShapeSupport) : RouteCodegenOutput :=
  let o := resolve_for observations book cache settings support in
  let out := mode_routes mode book primary_target secondary_target cache observations denied o tunnel_catch_alls in
  let plan := plan_network_routes mode book (bool_decide (is_Some primary_target)) o networks tunnel_catch_alls support in
  let out := push_network_plan primary_target secondary_target plan out in
  mkOutput (List.filter (fun r => negb ((interface_index r =? target_index secondary_target) && is_host_length r
                                        && keeps_host_direct networks (secondary book) (destination r))) (out_routes out))
    (out_diagnostics out).

(** [generate_routes], the catch-alls being all that is known of the links. *)
Definition generate_routes (mode : RouteBehaviorMode) (book : CanonicalRuleBook) (primary_target : option SecondaryRouteTarget)
    (secondary_target : SecondaryRouteTarget) (cache : C) (observations : O) (denied : gset Z) (settings : OwnershipSettings)
    (tunnel_catch_alls : list (Z * Z)) (support : RuleShapeSupport) : RouteCodegenOutput :=
  generate_routes_with mode book primary_target secondary_target cache observations denied settings tunnel_catch_alls
    (from_catch_alls tunnel_catch_alls) support.

End Generate.

(** ** Host routes *)

Section Hosts.
Context (target : SecondaryRouteTarget).

(** An address a host route can be installed for on the target. *)
Definition routable (ip : IpAddr) : bool := negb (is_non_routable ip) && bool_decide (is_Some (next_hop_for ip target)).

(** A host row of the target. *)
Definition host_row_of (r : RouteEntry) : Prop :=
  routable (destination r) = true /\ prefix_length r = host_prefix_for (destination r) /\ interface_index r = target_index target
  /\ metric r = SECONDARY_ROUTE_METRIC /\ is_ours r = true /\ table r = MainTable.

(** Each destination is routed once, by a host row of the target. *)
Definition emit_ok (e : Emit) : Prop :=
  NoDup (destination <$> out_routes (em_out e))
  /\ (forall ip, ip ∈ em_seen e <-> ip ∈ destination <$> out_routes (em_out e))
  /\ Forall host_row_of (out_routes (em_out e)).

Lemma note_ok d e : emit_ok (note d e) <-> emit_ok e.
Proof. done. Qed.

Lemma push_route_spec ip e : emit_ok e ->
  let '(e', more) := push_route target ip e in
  emit_ok e' /\ more = (em_rule e <? MAX_ROUTES_PER_RULE)%nat /\ (em_rule e <= em_rule e' <= S (em_rule e))%nat
  /\ forall x, x ∈ em_seen e' <-> x ∈ em_seen e \/ more = true /\ x = ip /\ routable ip = true.
Proof.
  intros (Hnd & Hseen & Hrows). unfold push_route. rewrite Nat.ltb_antisym.
  destruct (MAX_ROUTES_PER_RULE <=? em_rule e)%nat; cbn [negb].
  { split_and!; [done..|lia|lia|]. intros x. split; [by left|]. by intros [|[? _]]. }
  unfold routable. destruct (is_non_routable ip) eqn:Hn; cbn [negb andb].
  { split_and!; [done..|lia|lia|]. intros x. split; [by left|]. by intros [|(_ & _ & ?)]. }
  destruct (next_hop_for ip target) as [hop|] eqn:Hop.
  2: { rewrite bool_decide_eq_false_2 by (by intros []). split_and!; [done..|lia|lia|]. intros x. split; [by left|]. by intros [|(_ & _ & ?)]. }
  rewrite (bool_decide_eq_true_2 (is_Some _)) by done. case_bool_decide as Hin.
  { split_and!; [done..|lia|lia|]. intros x. split; [by left|]. by intros [|(_ & -> & _)]. }
  split; [|split_and!; [done|cbn; lia|cbn; lia|]].
  - unfold emit_ok. cbn [em_out em_seen out_routes]. rewrite fmap_app. split_and!.
    + apply NoDup_app. split_and!; [done| |apply NoDup_singleton]. intros x Hx ->%list_elem_of_singleton. by apply Hin, Hseen.
    + intros x. rewrite elem_of_union, elem_of_singleton, elem_of_app, <- Hseen. cbn. rewrite list_elem_of_singleton. tauto.
    + apply Forall_app. split; [done|]. constructor; [|constructor]. unfold host_row_of, routable. cbn [destination prefix_length interface_index metric is_ours table].
      by rewrite Hn, Hop, bool_decide_eq_true_2.
  - intros x. cbn [em_seen]. rewrite elem_of_union, elem_of_singleton. naive_solver.
Qed.

(** Pushing a list: some of it lands, all of it where the cap leaves room. *)
Definition pushed (ips : list IpAddr) (e e' : Emit) : Prop :=
  emit_ok e' /\ (forall x, x ∈ em_seen e -> x ∈ em_seen e')
  /\ (forall x, x ∈ em_seen e' -> x ∈ em_seen e \/ x ∈ ips /\ routable x = true)
  /\ ((em_rule e + length ips <= MAX_ROUTES_PER_RULE)%nat -> forall x, x ∈ ips -> routable x = true -> x ∈ em_seen e').

Lemma push_steerable_spec ok ips : forall e held, emit_ok e ->
  let '(e', _, more) := push_steerable target ok ips e held in
  pushed (List.filter ok ips) e e' /\ (em_rule e' <= em_rule e + length (List.filter ok ips))%nat
  /\ ((em_rule e + length (List.filter ok ips) <= MAX_ROUTES_PER_RULE)%nat -> more = true).
Proof.
  induction ips as [|ip ips IH]; intros e held He; cbn [push_steerable List.filter].
  { split_and!; [|cbn; lia|done]. split_and!; [done|done|by left|by intros _ x ?%not_elem_of_nil]. }
  destruct (ok ip); [|by apply IH].
  pose proof (push_route_spec ip e He) as Hpush. destruct (push_route target ip e) as [e1 more]. destruct Hpush as (He1 & Hmore & Hn & Hseen).
  cbn [length]. destruct more; cycle 1.
  { symmetry in Hmore. apply Nat.ltb_ge in Hmore. split_and!; [|lia|intros; exfalso; lia]. split_and!; [done|intros x Hx; by apply Hseen; left| |cbn; intros; exfalso; lia].
    intros x [|[? _]]%Hseen; [by left|done]. }
  specialize (IH e1 held He1). destruct (push_steerable target ok ips e1 held) as [[e2 held2] more2].
  destruct IH as ((He2 & Hkeep & Hsub & Hall) & Hlen & Hm). split_and!; [|lia|intros Hc; apply Hm; lia]. split_and!; [done|..].
  - intros x Hx. apply Hkeep, Hseen. by left.
  - intros x [[|(_ & -> & ?)]%Hseen|[? ?]]%Hsub; [by left|right; split; [by left|done]|right; split; [by right|done]].
  - cbn [length]; intros Hc x [->|Hx]%elem_of_cons Hr; [|apply Hall; [lia|done..]]. apply Hkeep, Hseen. by right.
Qed.

Lemma push_all_steerable ips : forall e held, push_all target ips e =
  let '(e', _, more) := push_steerable target (fun _ => true) ips e held in (e', more).
Proof.
  induction ips as [|ip ips IH]; intros e held; [done|]. cbn. destruct (push_route target ip e) as [e1 []]; [apply IH|done].
Qed.

Lemma fanout_is_one_list {C} `{!FqdnCacheLookup C} (cache : C) o link hosts : forall e held,
  fanout_hosts target cache o link hosts e held =
  (push_steerable target (steerable o link) (hosts ≫= fun h => capped_for_host cache h Both) e held).1.
Proof.
  induction hosts as [|h hosts IH]; intros e held; [done|]. cbn [fanout_hosts mbind list_bind].
  enough (Happ : forall l1 l2 e held, push_steerable target (steerable o link) (l1 ++ l2) e held
    = let '(e, held, more) := push_steerable target (steerable o link) l1 e held in
      if more then push_steerable target (steerable o link) l2 e held else (e, held, false)).
  { rewrite Happ. destruct (push_steerable target _ (capped_for_host cache h Both) e held) as [[e1 held1] []]; [apply IH|done]. }
  clear. induction l1 as [|ip l1 IH]; intros l2 e held; [done|]. cbn [app push_steerable].
  destruct (steerable o link ip); [|apply IH]. destruct (push_route target ip e) as [e1 []]; [apply IH|done].
Qed.

End Hosts.

Section RuleHosts.
Context {C O : Type} `{!FqdnCacheLookup C} `{!AppObservationLookup O} (target : SecondaryRouteTarget) (cache : C).
Context (gate : AppDestinationGate O) (o : AddressOwnership) (link : Link).

(** The addresses an address rule names, through the cache. *)
Definition rule_targets (rule : CanonicalRule) : list IpAddr :=
  match r_address_match rule with
  | Some (ExactIp ip) => [ip]
  | Some (ExactFqdn host) => capped_for_host cache host Both
  | Some (SuffixDomain suffix) => hostnames_for_suffix_domain cache suffix SUFFIX_FANOUT_BACKSTOP ≫= fun h => capped_for_host cache h Both
  | Some (Zone zone) => hostnames_under_suffix cache zone SUFFIX_FANOUT_BACKSTOP ≫= fun h => capped_for_host cache h Both
  | _ => []
  end.

Definition app_key (app : CanonicalAppMatch) : str :=
  match pattern app with Exact s | Canonical.Glob s => s | Path path => AppPath_as_str path end.

(** The destinations a rule wants on its link: the addresses it names that the arbiter
    does not hold back, or those of its program the gate admits. *)
Definition rule_destinations (rule : CanonicalRule) : list IpAddr :=
  if negb (r_enabled rule) || bool_decide (r_action rule = Block) then []
  else match r_app_match rule, r_address_match rule with
       | Some _, Some _ => []
       | Some app, None => V4 <$> admitted (admit_destinations gate (app_key app) link)
       | None, _ => List.filter (fun ip => address_rule_may_steer o ip link) (rule_targets rule)
       end.

Lemma pushed_nothing e : emit_ok target e -> pushed target [] e e.
Proof. intros He. split_and!; [done|done|by left|by intros _ x ?%not_elem_of_nil]. Qed.

(** Notes leave the routes as they are. *)
Lemma pushed_same ips e e1 e2 : em_seen e1 = em_seen e2 -> out_routes (em_out e1) = out_routes (em_out e2) ->
  pushed target ips e e1 -> pushed target ips e e2.
Proof. unfold pushed, emit_ok. intros -> ->. tauto. Qed.

Lemma report_held_same rule held e :
  em_seen (report_held rule held e) = em_seen e /\ out_routes (em_out (report_held rule held e)) = out_routes (em_out e).
Proof. unfold report_held. by destruct (hb_claimed held) as [[]|], (hb_outside_tunnel held) as [[]|]. Qed.

Lemma pushed_reported ips e e' rule held : pushed target ips e e' -> pushed target ips e (report_held rule held e').
Proof. destruct (report_held_same rule held e') as [H1 H2]. by apply pushed_same. Qed.

Lemma capped_empty host : ips_for_hostname cache host = [] -> capped_for_host cache host Both = [].
Proof. intros H. unfold capped_for_host. by rewrite H. Qed.

Lemma route_address_spec rule e : emit_ok target e ->
  pushed target (List.filter (fun ip => address_rule_may_steer o ip link) (rule_targets rule)) e (route_address target cache o link rule e).
Proof.
  intros He. unfold route_address, rule_targets. destruct (r_address_match rule) as [[host|suffix|base|zone|ip|net|range]|].
  - destruct (ips_for_hostname cache host) eqn:E; [rewrite (capped_empty host E); exact (pushed_nothing e He)|].
    pose proof (push_steerable_spec target (steerable o link) (capped_for_host cache host Both) e (held_back_new o link (r_action rule)) He) as H.
    destruct (push_steerable _ _ _ _ _) as [[e1 held1] more]. apply pushed_reported, H.
  - unfold fanout_suffix. rewrite fanout_is_one_list.
    pose proof (push_steerable_spec target (steerable o link) (hostnames_for_suffix_domain cache suffix SUFFIX_FANOUT_BACKSTOP ≫= fun h => capped_for_host cache h Both)
      e (held_back_new o link (r_action rule)) He) as H.
    destruct (push_steerable _ _ _ _ _) as [[e1 held1] more]. cbn [fst]. destruct H as [H _]. apply pushed_reported. by case_match.
  - by apply pushed_reported, pushed_nothing.
  - unfold fanout_suffix. rewrite fanout_is_one_list.
    pose proof (push_steerable_spec target (steerable o link) (hostnames_under_suffix cache zone SUFFIX_FANOUT_BACKSTOP ≫= fun h => capped_for_host cache h Both)
      e (held_back_new o link (r_action rule)) He) as H.
    destruct (push_steerable _ _ _ _ _) as [[e1 held1] more]. cbn [fst]. destruct H as [H _]. apply pushed_reported. by case_match.
  - pose proof (push_steerable_spec target (steerable o link) [ip] e (held_back_new o link (r_action rule)) He) as H.
    cbn [push_steerable] in H. change (fun ip => address_rule_may_steer o ip link) with (steerable o link).
    destruct (steerable o link ip); [|apply pushed_reported, H].
    destruct (push_route target ip e) as [e1 []]; apply pushed_reported, H.
  - by apply pushed_reported, pushed_nothing.
  - by apply pushed_reported, pushed_nothing.
  - by apply pushed_reported, pushed_nothing.
Qed.

Lemma route_app_spec rule app e : emit_ok target e ->
  pushed target (V4 <$> admitted (admit_destinations gate (app_key app) link)) e (route_app target gate link rule app e).
Proof.
  intros He. unfold route_app. change (match pattern app with Exact s | Canonical.Glob s => s | Path path => AppPath_as_str path end) with (app_key app).
  set (d := admit_destinations gate (app_key app) link).
  assert (Hgo : forall e1, em_seen e1 = em_seen e -> out_routes (em_out e1) = out_routes (em_out e) -> em_rule e1 = em_rule e ->
    pushed target (V4 <$> admitted d) e (fst (push_all target ((V4 <$> admitted d) ++ (if APP_IPV6_ROUTES then V6 <$> admitted_v6 d else [])) e1))).
  { intros e1 H1 H2 H3. rewrite app_nil_r, (push_all_steerable target _ e1 (held_back_new o link Route)).
    assert (He1 : emit_ok target e1) by (unfold emit_ok; by rewrite H1, H2).
    pose proof (push_steerable_spec target (fun _ => true) (V4 <$> admitted d) e1 (held_back_new o link Route) He1) as H.
    destruct (push_steerable _ _ _ _ _) as [[e2 held2] more]. cbn [fst].
    assert (Hid : forall l : list IpAddr, List.filter (fun _ => true) l = l) by (induction l as [|x l IHl]; cbn; [done|by rewrite IHl]).
    rewrite Hid in H.
    destruct H as [H _]. unfold pushed in *. by rewrite <- H1, <- H3. }
  assert (Hnotes : forall refusals e1, em_seen e1 = em_seen e -> out_routes (em_out e1) = out_routes (em_out e) -> em_rule e1 = em_rule e ->
    let e2 := fold_left (fun e '(ip, reason) =>
        match reason with
        | ClaimedByAddressRule => note (AppRuleDestinationClaimedByMainLink (r_id rule) (app_key app) ip) e
        | UsedByOtherProcess => note (AppRuleDestinationUsedByOtherProcess (r_id rule) (app_key app) ip) e
        | DeclinedShared => e
        end) refusals e1 in
    em_seen e2 = em_seen e /\ out_routes (em_out e2) = out_routes (em_out e) /\ em_rule e2 = em_rule e).
  { induction refusals as [|[ip []] refusals IH]; intros e1 H1 H2 H3; [done|..]; apply IH; done. }
  destruct (Hnotes (refused d) e eq_refl eq_refl eq_refl) as (H1 & H2 & H3). specialize (Hgo _ H1 H2 H3).
  destruct (admitted d), (admitted_v6 d), (refused d); exact Hgo.
Qed.

Lemma route_rule_spec e rule : emit_ok target e ->
  pushed target (rule_destinations rule) (mkEmit (em_seen e) (em_out e) 0) (route_rule target cache gate o link e rule).
Proof.
  intros He. unfold route_rule, rule_destinations. destruct (negb (r_enabled rule) || _); [by apply pushed_nothing|].
  destruct (r_app_match rule) as [app|], (r_address_match rule) eqn:Ea.
  - exact (pushed_nothing (mkEmit (em_seen e) (em_out e) 0) He).
  - by apply route_app_spec.
  - by apply route_address_spec.
  - by apply route_address_spec.
Qed.

Lemma route_rules_spec rules : forall e, emit_ok target e ->
  let e' := fold_left (route_rule target cache gate o link) rules e in
  emit_ok target e' /\ (forall x, x ∈ em_seen e -> x ∈ em_seen e')
  /\ (forall x, x ∈ em_seen e' -> x ∈ em_seen e \/ routable target x = true /\ exists rule, rule ∈ rules /\ x ∈ rule_destinations rule)
  /\ (forall rule x, rule ∈ rules -> (length (rule_destinations rule) <= MAX_ROUTES_PER_RULE)%nat -> x ∈ rule_destinations rule ->
        routable target x = true -> x ∈ em_seen e').
Proof.
  induction rules as [|rule rules IH]; intros e He; cbn [fold_left].
  { split_and!; [done|done|by left|by intros rule x ?%not_elem_of_nil]. }
  destruct (route_rule_spec e rule He) as (He1 & Hk1 & Hs1 & Ha1). destruct (IH _ He1) as (He2 & Hk2 & Hs2 & Ha2). cbn [em_seen em_rule] in *.
  split_and!; [done|by auto| |].
  - intros x [[|[? ?]]%Hs1|(? & rule' & ? & ?)]%Hs2; [by left|right; split; [done|]; exists rule; split; [by left|done]|].
    right. split; [done|]. exists rule'. split; [by right|done].
  - intros rule' x [->|Hr]%elem_of_cons Hlen Hx Hro; [apply Hk2; by apply Ha1|by eapply Ha2].
Qed.

End RuleHosts.

Lemma emit_ok_start target : emit_ok target (mkEmit ∅ (mkOutput [] []) 0).
Proof. split_and!; [constructor| |constructor]. intros ip. cbn. rewrite elem_of_empty, elem_of_nil. done. Qed.

Lemma generated_host_rows {C O} `{!FqdnCacheLookup C} `{!AppObservationLookup O} rules target (cache : C) (observations : O) denied o link :
  Forall (host_row_of target) (out_routes (generate_secondary_routes rules target cache observations denied o link)).
Proof. unfold generate_secondary_routes. edestruct route_rules_spec as ((_ & _ & Hrows) & _); [apply emit_ok_start|exact Hrows]. Qed.

(** C17. The host routes of a rule set are the destinations of its rules: each destination
    once, by a host row over the link, never a loopback or virtual address and never
    through a link without a next hop of its family. Every one is a destination some
    enabled route rule wants and the arbiter leaves to the link, or the gate admits for
    its program; and every such destination of a rule within the cap is routed. *)
Theorem host_routes_exact {C O} `{!FqdnCacheLookup C} `{!AppObservationLookup O} rules target (cache : C) (observations : O) denied o link :
  let gate := with_declined (for_rule_set o observations rules) denied in
  let rows := out_routes (generate_secondary_routes rules target cache observations denied o link) in
  NoDup (destination <$> rows) /\ Forall (host_row_of target) rows
  /\ (forall ip, ip ∈ destination <$> rows -> exists rule, rule ∈ rules /\ ip ∈ rule_destinations cache gate o link rule)
  /\ (forall rule ip, rule ∈ rules -> (length (rule_destinations cache gate o link rule) <= MAX_ROUTES_PER_RULE)%nat ->
        ip ∈ rule_destinations cache gate o link rule -> routable target ip = true -> ip ∈ destination <$> rows).
Proof.
  cbv zeta. unfold generate_secondary_routes.
  edestruct route_rules_spec as ((Hnd & Hseen & Hrows) & _ & Hsub & Hall); [apply emit_ok_start|].
  split_and!; [exact Hnd|exact Hrows| |].
  - intros ip Hip%Hseen. apply Hsub in Hip as [Hip|[_ ?]]; [|done]. cbn in Hip. by apply elem_of_empty in Hip.
  - intros rule ip Hr Hlen Hin Hro. apply Hseen. by apply (Hall rule).
Qed.

(** ** The signature *)

Section Signed.
Context {C O : Type} `{!FqdnCacheLookup C} `{!AppObservationLookup O} (mode : RouteBehaviorMode) (book : CanonicalRuleBook).
Context (primary_target : option SecondaryRouteTarget) (secondary_target : SecondaryRouteTarget) (cache : C) (observations : O).
Context (denied : gset Z) (settings : OwnershipSettings) (catch_alls : list (Z * Z)) (facts : NetworkRouteFacts) (support : RuleShapeSupport).
Hypothesis Hok : networks_ok book.
Hypothesis Hwide : forall link net, net ∈ link_networks book support link -> wider_than_rule_allows net = false.
Hypothesis Hcatch : forall c, c ∈ catch_alls -> catch_all_ok c.
Hypothesis Htunnel : Forall block_wf (tunnel_routes facts).
Hypothesis Hservers : Forall ip_wf (tunnel_servers facts).

Definition signed (r : RouteEntry) : Prop := is_owned_route r = true /\ is_ours r = true.

Lemma host_row_signed target r : host_row_of target r -> signed r.
Proof using Type.
  intros (_ & Hp & _ & Hm & Ho & Ht). split; [|done]. unfold is_owned_route. rewrite Ht, Hm, bool_decide_eq_true_2 by done.
  unfold is_owned_shape. rewrite Hp. by destruct (destination r).
Qed.

Lemma overlay_signed half target : 1 <= half.2 <= TUNNEL_CATCH_ALL_MAX_PREFIX + 1 -> signed (overlay_route half target).
Proof using Type.
  intros Hp. split; [|done]. unfold is_owned_route, overlay_route, is_owned_shape, overlay_prefix. cbn [table metric destination prefix_length].
  rewrite bool_decide_eq_true_2 by done. cbn [andb]. rewrite Z.eqb_refl. rewrite !(proj2 (Z.leb_le _ _)) by lia. by rewrite orb_true_r.
Qed.

Lemma mode_routes_signed o : Forall signed (out_routes (mode_routes mode book primary_target secondary_target cache observations denied o catch_alls)).
Proof using Hcatch.
  assert (Hhosts : forall (C' : Type) (HC : FqdnCacheLookup C') rules target (cache' : C') denied' link,
    Forall signed (out_routes (generate_secondary_routes rules target cache' observations denied' o link))).
  { intros. eapply Forall_impl; [apply generated_host_rows|]. intros r. apply host_row_signed. }
  unfold mode_routes. destruct mode, primary_target as [pt|]; cbn [out_routes]; repeat (apply Forall_app; split); auto.
  - apply Forall_fmap, Forall_forall. intros [h m] Hin. destruct (counter_overlay_inside _ _ _ Hcatch Hin) as (_ & d & n & b & _ & Hn & -> & H0 & _).
    apply overlay_signed. cbn. lia.
  - by repeat constructor; apply overlay_signed.
  - by repeat constructor; apply overlay_signed.
Qed.

Lemma push_plan_hosts_signed hosts : forall acc, Forall signed acc.2 -> Forall signed (fold_left (push_plan_host primary_target secondary_target) hosts acc).2.
Proof using Type.
  induction hosts as [|[link ip] hosts IH]; intros [set rows] Hrows; [done|]. cbn [fold_left]. apply IH. cbn [push_plan_host snd].
  destruct (target_of primary_target secondary_target link) as [target|]; [|done]. destruct (is_non_routable ip || _); [done|]. cbn [snd].
  destruct (next_hop_for ip target) as [hop|]; [|done]. apply Forall_app. split; [done|]. constructor; [|constructor].
  split; [|done]. unfold is_owned_route, is_owned_shape. cbn [table metric destination prefix_length]. rewrite bool_decide_eq_true_2 by done. by destruct ip.
Qed.

Lemma network_row_signed o hosts row : ao_networks o = of_book book support ->
  row ∈ omap (plan_network_row primary_target secondary_target hosts)
          (plan_networks (plan_network_routes mode book (bool_decide (is_Some primary_target)) o facts catch_alls support)) -> signed row.
Proof using Hok Hwide Hcatch Htunnel Hservers.
  intros Ho ([link block] & Hin & Hrow)%list_elem_of_omap.
  assert (Hp : (link, block) ∈ plan_networks (plan_of_networks mode book (bool_decide (is_Some primary_target)) o facts catch_alls support))
    by (unfold plan_network_routes in Hin; by destruct (bool_decide _ && _)).
  apply planned_route_wf in Hp as ((_ & Hlen & _) & net & Hnet & Hcov); [|done..].
  unfold plan_network_row in Hrow. destruct (target_of _ _ link) as [target|]; [|done]. cbn in Hrow.
  destruct (is_single_address block && _); [done|]. destruct (next_hop_for (network block) target) as [hop|]; [|done]. injection Hrow as <-.
  split; [|done]. unfold is_owned_route, is_network_shape. cbn [table metric destination prefix_length]. rewrite bool_decide_eq_true_2 by done.
  change ((NETWORK_ROUTE_METRIC =? SECONDARY_ROUTE_METRIC)) with false. change (NETWORK_ROUTE_METRIC =? NETWORK_ROUTE_METRIC) with true. cbn [andb].
  pose proof (Hwide link net Hnet) as Hw. unfold wider_than_rule_allows, IpBlock_is_ipv4 in Hw. apply Z.ltb_ge in Hw.
  apply andb_true_iff in Hcov as [Hl%Z.leb_le [Hf%eqb_prop _]%andb_true_iff]. unfold IpBlock_is_ipv4 in Hf. rewrite <- Hf in Hw.
  unfold family_bits in Hlen. apply andb_true_iff. split; apply Z.leb_le; [lia|]. by destruct (is_ipv4 (network block)); unfold HOST_PREFIX, HOST_PREFIX_V6; lia.
Qed.

(** C18. Every route the generator emits carries our signature, in both modes, for hosts,
    overlays and networks alike: so the sweep and the adoption after a crash, which know
    nothing of the rules, recognise every row the service can have left, as long as no
    network rule is wider than a rule may be. *)
Theorem generated_routes_signed :
  Forall signed (out_routes (generate_routes_with mode book primary_target secondary_target cache observations denied settings catch_alls facts support)).
Proof using Hok Hwide Hcatch Htunnel Hservers.
  unfold generate_routes_with. cbn [out_routes]. apply Forall_forall. intros row [Hrow _]%filter_elem. revert Hrow.
  unfold push_network_plan. pose proof (push_plan_hosts_signed (plan_hosts (plan_network_routes mode book (bool_decide (is_Some primary_target))
    (resolve_for observations book cache settings support) facts catch_alls support))) as Hh.
  destruct (fold_left _ _ _) as [hosts rows] eqn:E. cbn [out_routes]. rewrite elem_of_app. intros [Hrow|Hrow].
  - match type of E with fold_left _ _ ?acc = _ => specialize (Hh acc (mode_routes_signed _)) end.
    rewrite E in Hh. by apply (proj1 (Forall_forall _ _) Hh).
  - eapply network_row_signed; [apply resolve_for_networks|exact Hrow].
Qed.

End Signed.

(** ** Longest prefix *)

(** The row holds the address; a longest row is one no row outdoes. *)
Definition row_holds (r : RouteEntry) (a : IpAddr) : Prop := exists b, route_block r = Some b /\ in_block b a.

Definition longest_row (rows : list RouteEntry) (a : IpAddr) (r : RouteEntry) : Prop :=
  r ∈ rows /\ row_holds r a /\ forall r', r' ∈ rows -> row_holds r' a -> prefix_length r' <= prefix_length r.

Definition rows_ok (rows : list RouteEntry) : Prop := forall r, r ∈ rows -> ip_wf (destination r) /\ 0 <= prefix_length r.

(** The row steers the internet into the tunnel. *)
Definition is_catch_all (tunnel : Z) (r : RouteEntry) : Prop :=
  interface_index r = tunnel /\ is_ours r = false /\ prefix_length r <= TUNNEL_CATCH_ALL_MAX_PREFIX
  /\ exists d, destination r = V4 d /\ (octet d 3 < 224)%N
  /\ forall b, route_block r = Some b -> is_private b = false.

Definition counter_rows (rows : list RouteEntry) (tunnel : Z) (pt : SecondaryRouteTarget) : list RouteEntry :=
  (fun half => overlay_route half pt) <$> counter_overlay_for (tunnel_catch_all_prefixes rows tunnel).

Lemma catch_all_prefixes_elem rows tunnel d n :
  (d, n) ∈ tunnel_catch_all_prefixes rows tunnel <-> exists r, r ∈ rows /\ is_catch_all tunnel r /\ destination r = V4 d /\ prefix_length r = n.
Proof.
  unfold tunnel_catch_all_prefixes. rewrite sorted_prefixes_elem, list_elem_of_omap. unfold is_catch_all, route_block. split.
  - intros (r & Hr & E). destruct (destination r) as [v|v] eqn:D; [|done]. destruct (_ && _) eqn:G; [|done]. injection E as <- <-.
    reflect_bools. exists r. split_and!; try done; [by apply Z.eqb_eq|by apply Z.leb_le|]. exists v. split_and!; [done|by apply N.ltb_lt|].
    intros b Hb. rewrite D in Hb. by destruct (IpBlock_new _ _) as [?|]; simplify_eq.
  - intros (r & Hr & (Hi & Ho & Hl & d' & D & H224 & Hp) & D' & <-). rewrite D in D'. injection D' as ->. exists r. split; [done|]. rewrite D in *.
    rewrite (proj2 (Z.eqb_eq _ _) Hi), Ho, (proj2 (Z.leb_le _ _) Hl), (proj2 (N.ltb_lt _ _) H224). cbn [andb negb].
    destruct (IpBlock_new (V4 d) (prefix_length r)) as [b|]; [|done]. by rewrite (Hp b).
Qed.

Section Rest.
Context (rows : list RouteEntry) (tunnel : Z) (pt : SecondaryRouteTarget).
Hypothesis Hrows : rows_ok rows.

Lemma catch_alls_ok c : c ∈ tunnel_catch_all_prefixes rows tunnel -> catch_all_ok c.
Proof using Hrows. destruct c as [d n]. intros (r & Hr & _ & D & <-)%catch_all_prefixes_elem. destruct (Hrows r Hr) as [Hw Hn]. by rewrite D in Hw. Qed.

(** A counter row over an address is one bit longer than a catch-all over it. *)
Lemma counter_row_holds r a : r ∈ counter_rows rows tunnel pt -> row_holds r a ->
  interface_index r = target_index pt /\ prefix_length r <= TUNNEL_CATCH_ALL_MAX_PREFIX + 1
  /\ exists c, c ∈ rows /\ is_catch_all tunnel c /\ row_holds c a /\ prefix_length r = prefix_length c + 1.
Proof using Hrows.
  intros ([h m] & -> & Hin)%list_elem_of_fmap (b & Hb & Ha).
  destruct (counter_overlay_inside _ _ _ catch_alls_ok Hin) as (Hw & d & n & b' & Hc & Hn & -> & H0 & Hb' & Hsub).
  split; [done|]. split; [cbn; lia|]. apply catch_all_prefixes_elem in Hc as (c & Hcin & Hcatch & Hcd & Hcn).
  exists c. split_and!; [done..| |cbn; lia]. exists b'. split; [unfold route_block; by rewrite Hcd, Hcn|]. apply Hsub.
  unfold route_block in Hb. cbn [overlay_route destination prefix_length fst snd] in Hb.
  destruct Hw as (Hw1 & Hw2 & Hw3). rewrite IpBlock_new_id in Hb by done. by injection Hb as <-.
Qed.

(** C16. Without touching a route of the tunnel, the counter-overlay sends everything the
    tunnel's catch-alls would carry over the main link: where the longest row over an
    address is a catch-all of the tunnel, every longest row with the counter-overlay
    installed leaves by the main link. And it takes nothing longer: a longest row past the
    length an answer can have (a rule's host route, a segment, a network the tunnel is
    for) stays the longest. *)
Theorem rest_rides_main a r :
  longest_row rows a r ->
  (is_catch_all tunnel r ->
     (exists r', longest_row (rows ++ counter_rows rows tunnel pt) a r')
     /\ forall r', longest_row (rows ++ counter_rows rows tunnel pt) a r' -> r' ∈ counter_rows rows tunnel pt /\ interface_index r' = target_index pt)
  /\ (TUNNEL_CATCH_ALL_MAX_PREFIX + 1 < prefix_length r ->
     longest_row (rows ++ counter_rows rows tunnel pt) a r
     /\ forall r', longest_row (rows ++ counter_rows rows tunnel pt) a r' -> r' ∈ rows).
Proof using Hrows.
  intros (Hr & Hra & Hmax). split.
  - intros Hcatch.
    assert (Hh : exists h, h ∈ counter_rows rows tunnel pt /\ row_holds h a /\ prefix_length h = prefix_length r + 1).
    { pose proof Hcatch as (_ & _ & Hle & d & D & _). destruct (counter_overlay_covers (tunnel_catch_all_prefixes rows tunnel) d (prefix_length r) a catch_alls_ok)
        as (h & Hin & (Hw1 & Hw2 & Hw3) & Hha); [by apply catch_all_prefixes_elem; eauto|done|unfold row_holds, route_block in Hra; by rewrite D in Hra|].
      exists (overlay_route (h, prefix_length r + 1) pt). split_and!; [by apply (list_elem_of_fmap_2 (fun half => overlay_route half pt))| |done].
      exists (mkIpBlock (V4 h) (prefix_length r + 1)). split; [|done]. unfold route_block. cbn. by apply IpBlock_new_id. }
    destruct Hh as (h & Hh & Hha & Hlen).
    assert (Htop : longest_row (rows ++ counter_rows rows tunnel pt) a h).
    { split_and!; [apply elem_of_app; by right|done|]. intros r' [Hr'|Hr']%elem_of_app Ha'.
      - pose proof (Hmax r' Hr' Ha'). lia.
      - destruct (counter_row_holds r' a Hr' Ha') as (_ & _ & c & Hc & _ & Hca & Hlc). pose proof (Hmax c Hc Hca). lia. }
    split; [by exists h|]. intros r' (Hr' & Ha' & Hm'). apply elem_of_app in Hr' as [Hr'|Hr'].
    + pose proof (Hmax r' Hr' Ha'). assert (prefix_length h <= prefix_length r'); [|lia]. apply Hm'; [apply elem_of_app; by right|done].
    + split; [done|]. by apply (counter_row_holds r' a).
  - intros Hlong.
    assert (Hshort : forall r', r' ∈ counter_rows rows tunnel pt -> row_holds r' a -> prefix_length r' < prefix_length r)
      by (intros r' Hr' Ha'; destruct (counter_row_holds r' a Hr' Ha') as (_ & ? & _); lia).
    split.
    + split_and!; [apply elem_of_app; by left|done|]. intros r' [Hr'|Hr']%elem_of_app Ha'; [by apply Hmax|]. pose proof (Hshort r' Hr' Ha'). lia.
    + intros r' (Hr' & Ha' & Hm'). apply elem_of_app in Hr' as [Hr'|Hr']; [done|exfalso]. pose proof (Hshort r' Hr' Ha').
      pose proof (Hm' r (proj2 (elem_of_app _ _ _) (or_introl Hr)) Hra). lia.
Qed.

End Rest.

(** A laptop with a redirecting tunnel on interface 7, its network on interface 3 and a rule's host route. *)
Definition laptop_rows : list RouteEntry :=
  [mkRoute (ipv4 0 0 0 0) 0 (ipv4 192 168 1 1) 3 25 false MainTable;
   mkRoute (ipv4 192 168 1 0) 24 (ipv4 0 0 0 0) 3 281 false MainTable;
   mkRoute (ipv4 0 0 0 0) 1 (ipv4 10 8 0 1) 7 3 false MainTable;
   mkRoute (ipv4 128 0 0 0) 1 (ipv4 10 8 0 1) 7 3 false MainTable].

Definition laptop_main : SecondaryRouteTarget := mkTarget 0xC0A80101 None 3.
Definition laptop_tunnel : SecondaryRouteTarget := mkTarget 0x0A080001 None 7.

Lemma rest_rides_main_witness :
  let r := mkRoute (ipv4 0 0 0 0) 1 (ipv4 10 8 0 1) 7 3 false MainTable in
  longest_row laptop_rows (ipv4 8 8 8 8) r /\ is_catch_all 7 r
  /\ (forall r', longest_row (laptop_rows ++ counter_rows laptop_rows 7 laptop_main) (ipv4 8 8 8 8) r' -> interface_index r' = 3).
Proof.
  cbv zeta. set (r := mkRoute (ipv4 0 0 0 0) 1 (ipv4 10 8 0 1) 7 3 false MainTable).
  assert (Hl : longest_row laptop_rows (ipv4 8 8 8 8) r).
  { split_and!; [right; right; by left|exists (mkIpBlock (ipv4 0 0 0 0) 1); repeat split; by vm_compute|].
    intros r' Hr' (b & Hb & [_ Ha]). unfold laptop_rows in Hr'. rewrite !elem_of_cons, elem_of_nil in Hr'.
    destruct Hr' as [->|[->|[->|[->|[]]]]]; vm_compute in Hb; injection Hb as <-; vm_compute in Ha; cbn; try lia; by destruct Ha. }
  assert (Hc : is_catch_all 7 r).
  { split_and!; [done|done|done|]. exists 0. split_and!; [done|by vm_compute|]. intros b Hb. vm_compute in Hb. injection Hb as <-. by vm_compute. }
  split; [done|]. split; [done|]. destruct (rest_rides_main laptop_rows 7 laptop_main) with (a := ipv4 8 8 8 8) (r := r) as [Hcat _];
    [|exact Hl|by intros r' [_ ->]%(Hcat Hc)].
  unfold rows_ok. apply Forall_forall. repeat constructor; by vm_compute.
Defined.

(** Observations of a machine where no program has been seen. *)
#[export] Instance silent_observations : AppObservationLookup unit := {|
  ips_for_app _ _ := []; ips_v6_for_app _ _ := []; latest_of _ _ l n := take n l; destination_used_outside _ _ _ := false |}.

Definition laptop_routes : RouteCodegenOutput :=
  generate_routes_with PreferPrimary branch_book (Some laptop_main) laptop_tunnel snapshot_empty tt ∅ (mkSettings ExactIpFirst false)
    (tunnel_catch_all_prefixes laptop_rows 7) branch_facts (mkSupport true true true).

Lemma generated_routes_signed_witness :
  out_routes laptop_routes <> [] /\ Forall signed (out_routes laptop_routes).
Proof.
  split; [by vm_compute|]. apply generated_routes_signed.
  - intros [] r ->%list_elem_of_singleton; repeat split; by vm_compute.
  - intros [] net Hin; vm_compute in Hin; apply list_elem_of_singleton in Hin as ->; by vm_compute.
  - intros c Hc. vm_compute in Hc. apply elem_of_cons in Hc as [->|Hc]; [repeat split; by vm_compute|].
    apply list_elem_of_singleton in Hc as ->. repeat split; by vm_compute.
  - repeat constructor; by vm_compute.
  - repeat constructor; by vm_compute.
Defined.
