(* ===== verification/RoutePlan.v ===== *)
(** * The neutral plan of routes

    service-runtime/src/enforcement_planner/routes.rs plans the routes of a rule book as
    intents that name a link and not an interface; core/platform/api/src/route_lowering.rs
    turns them into rows. It is the twin of the generator of [RouteGen], and the main
    theorem compares the two. *)

From stdpp Require Import base numbers list gmap sets sorting.
From S2P Require Import Prelude Str Digits IpAddr IpBlock AppPath AppIdentity AutoRule HostMatch Canonical.
From S2P Require Import NetPolicy Normalize Matching NetClaims HostCache PublicZone AddressOwner AppGate FakePool.
From S2P Require Import BlockSplit RouteTable RouteReading NetworkPlan RouteGen.

Open Scope Z_scope.

(** ** Intents (core/platform/api/src/enforcement.rs) *)

Inductive DstMatch : Set :=
| AnyDst
| HostV4 (ip : Z)
| HostV6 (ip : Z)
| SubnetV4 (net prefix : Z)
| SubnetV6 (net prefix : Z).

#[export] Instance DstMatch_eq_dec : EqDecision DstMatch.
Proof. solve_decision. Defined.

Inductive EgressRef : Set := EgressPrimary | EgressSecondary | EgressAdapter (id : str).

#[export] Instance EgressRef_eq_dec : EqDecision EgressRef.
Proof. solve_decision. Defined.

Record RouteIntent : Set := mkIntent { ri_dst : DstMatch; ri_egress : EgressRef; ri_metric : Z; ri_table : RouteTableRef }.

(** ** Lowering *)

Record RouteTarget := mkRouteTarget { rt_gateway : Z; rt_gateway_v6 : Z; rt_index : Z }.

Definition lower_intent (secondary : RouteTarget) (primary : option RouteTarget) (intent : RouteIntent) : option RouteEntry :=
  target ← match ri_egress intent with
           | EgressSecondary => Some secondary
           | EgressPrimary => primary
           | EgressAdapter _ => None
           end;
  '(destination, prefix, hop) ← match ri_dst intent with
                                | HostV4 ip => Some (V4 ip, 32, V4 (rt_gateway target))
                                | SubnetV4 net prefix => Some (V4 net, prefix, V4 (rt_gateway target))
                                | HostV6 ip => Some (V6 ip, 128, V6 (rt_gateway_v6 target))
                                | SubnetV6 net prefix => Some (V6 net, prefix, V6 (rt_gateway_v6 target))
                                | AnyDst => None
                                end;
  Some (mkRoute destination prefix hop (rt_index target) (ri_metric intent) true (ri_table intent)).

Definition lower_routes (routes : list RouteIntent) (secondary : RouteTarget) (primary : option RouteTarget) : list RouteEntry :=
  omap (lower_intent secondary primary) routes.

(** ** Destinations *)

Definition host_match (ip : IpAddr) : DstMatch := match ip with V4 v4 => HostV4 v4 | V6 v6 => HostV6 v6 end.

Definition subnet_match (block : IpBlock) : DstMatch :=
  match network block with V4 net => SubnetV4 net (prefix_len block) | V6 net => SubnetV6 net (prefix_len block) end.

(** The host a destination is. *)
Definition dst_host (dst : DstMatch) : option IpAddr :=
  match dst with HostV4 ip => Some (V4 ip) | HostV6 ip => Some (V6 ip) | _ => None end.

Definition overlay_intent (half : Z * Z) (egress : EgressRef) : RouteIntent :=
  mkIntent (SubnetV4 half.1 half.2) egress SECONDARY_ROUTE_METRIC MainTable.

(** dns_address_sanity.rs. *)
Definition is_unreachable_v6 (ip : Z) : bool :=
  if negb (bool_decide (NetPolicy.classify (V6 ip) = Routable)) then true
  else if bool_decide (is_Some (to_ipv4_mapped ip)) then true
  else (v6_segment ip 0 =? 0x0100) && (v6_segment ip 1 =? 0) && (v6_segment ip 2 =? 0) && (v6_segment ip 3 =? 0).

(** [is_non_routable] of net_filter.rs; route_codegen.rs has its own. *)
Definition net_filter_non_routable (ip : IpAddr) : bool :=
  match ip with V4 v4 => is_non_routable_v4 v4 | V6 v6 => is_unreachable_v6 v6 || is_default_pool_addr ip end.

(** ** Host routes of a rule set *)

(** The destinations planned so far, the intents, and the count of the rule at hand. *)
Record Planned := mkPlanned { pl_seen : gset IpAddr; pl_out : list RouteIntent; pl_rule : nat }.

Section HostRoutes.
Context (egress : EgressRef).

(** The flag is [false] only at the cap. *)
Definition push_host_route (ip : IpAddr) (p : Planned) : Planned * bool :=
  if (MAX_ROUTES_PER_RULE <=? pl_rule p)%nat then (p, false)
  else if net_filter_non_routable ip then (p, true)
  else if bool_decide (ip ∈ pl_seen p) then (p, true)
  else (mkPlanned ({[ip]} ∪ pl_seen p) (pl_out p ++ [mkIntent (host_match ip) egress SECONDARY_ROUTE_METRIC MainTable]) (S (pl_rule p)), true).

(** The loop over the addresses of one host. *)
Fixpoint push_host_routes (steerable : IpAddr -> bool) (ips : list IpAddr) (p : Planned) : Planned * bool :=
  match ips with
  | [] => (p, true)
  | ip :: rest =>
      if steerable ip then
        let '(p, more) := push_host_route ip p in
        if more then push_host_routes steerable rest p else (p, false)
      else push_host_routes steerable rest p
  end.

Section Rules.
Context {C O : Type} `{!FqdnCacheLookup C} `{!AppObservationLookup O} (cache : C).
Context (gate : AppDestinationGate O) (o : AddressOwnership) (families : FamilyScope).

Definition egress_link : Link := match egress with EgressPrimary => Main | _ => Additional end.

(** The loop over the hosts of a suffix or zone. *)
Fixpoint push_subhosts (hosts : list str) (p : Planned) : Planned :=
  match hosts with
  | [] => p
  | sub :: rest =>
      let '(p, more) := push_host_routes (fun ip => address_rule_may_steer o ip egress_link) (capped_for_host cache sub families) p in
      if more then push_subhosts rest p else p
  end.

Definition plan_address_rule (rule : CanonicalRule) (p : Planned) : Planned :=
  match r_address_match rule with
  | Some (ExactIp ip) =>
      if admits families ip && address_rule_may_steer o ip egress_link then fst (push_host_route ip p) else p
  | Some (ExactFqdn host) =>
      fst (push_host_routes (fun ip => address_rule_may_steer o ip egress_link) (capped_for_host cache host families) p)
  | Some (SuffixDomain suffix) => push_subhosts (hostnames_for_suffix_domain cache suffix SUFFIX_FANOUT_BACKSTOP) p
  | Some (Zone zone) => push_subhosts (hostnames_under_suffix cache zone SUFFIX_FANOUT_BACKSTOP) p
  | Some (Subnet _) | Some (Range _) | Some (AnyZoneDomain _) | None => p
  end.

Definition plan_host_rule (p : Planned) (rule : CanonicalRule) : Planned :=
  let p := mkPlanned (pl_seen p) (pl_out p) 0 in
  if negb (r_enabled rule) || bool_decide (r_action rule = Block) then p
  else match r_app_match rule, r_address_match rule with
       | Some _, Some _ => p
       | Some app, None =>
           fst (push_host_routes (fun _ => true) (V4 <$> admitted (admit_destinations gate (app_key app) egress_link)) p)
       | None, _ => plan_address_rule rule p
       end.

Definition plan_host_routes (rules : CanonicalRuleSet) (seen : gset IpAddr) (out : list RouteIntent) : gset IpAddr * list RouteIntent :=
  let p := fold_left plan_host_rule rules (mkPlanned seen out 0) in (pl_seen p, pl_out p).

End Rules.
End HostRoutes.

(** ** The network plan *)

Definition egress_of (link : Link) : EgressRef := match link with Main => EgressPrimary | Additional => EgressSecondary end.

Definition via_primary (egress : EgressRef) : bool := bool_decide (egress = EgressPrimary).

Definition push_host_intent (families : FamilyScope) (acc : gset (IpAddr * bool) * list RouteIntent) (host : Link * IpAddr)
  : gset (IpAddr * bool) * list RouteIntent :=
  let '(hosts, out) := acc in
  let '(link, ip) := host in
  let egress := egress_of link in
  if negb (admits families ip) || net_filter_non_routable ip || bool_decide ((ip, via_primary egress) ∈ hosts) then acc
  else ({[(ip, via_primary egress)]} ∪ hosts, out ++ [mkIntent (host_match ip) egress SECONDARY_ROUTE_METRIC MainTable]).

Definition network_intent (families : FamilyScope) (hosts : gset (IpAddr * bool)) (planned : Link * IpBlock) : option RouteIntent :=
  let '(link, block) := planned in
  let egress := egress_of link in
  if negb (admits families (network block))
     || is_single_address block && bool_decide ((network block, via_primary egress) ∈ hosts) then None
  else Some (mkIntent (subnet_match block) egress NETWORK_ROUTE_METRIC MainTable).

Definition push_network_intents (plan : NetworkRoutePlan) (families : FamilyScope) (out : list RouteIntent) : list RouteIntent :=
  let hosts := list_to_set (omap (fun r => (fun ip => (ip, via_primary (ri_egress r))) <$> dst_host (ri_dst r)) out) in
  let '(hosts, out) := fold_left (push_host_intent families) (plan_hosts plan) (hosts, out) in
  out ++ omap (network_intent families hosts) (plan_networks plan).

(** ** The plan *)

Section Plan.
Context {C O : Type} `{!FqdnCacheLookup C} `{!AppObservationLookup O}.

(** The intents of the mode before the networks. *)
Definition mode_intents (mode : RouteBehaviorMode) (book : CanonicalRuleBook) (has_primary : bool) (cache : C) (observations : O)
    (denied : gset Z) (families : FamilyScope) (o : AddressOwnership) (tunnel_catch_alls : list (Z * Z)) : list RouteIntent :=
  match mode with
  | PreferPrimary =>
      let gate := with_declined (for_rule_set o observations (secondary book)) denied in
      let routes := snd (plan_host_routes EgressSecondary (mkDenylist cache denied) gate o families (secondary book) ∅ []) in
      routes ++ (if has_primary then (fun half => overlay_intent half EgressPrimary) <$> counter_overlay_for tunnel_catch_alls else [])
  | PreferSecondaryWhenAvailable =>
      let routes := [overlay_intent OVERLAY_LOW EgressSecondary; overlay_intent OVERLAY_HIGH EgressSecondary] in
      if has_primary
      then snd (plan_host_routes EgressPrimary cache (for_rule_set o observations (primary book)) o families (primary book) ∅ routes)
      else routes
  end.

(** A host of the additional link that the facts keep direct. *)
Definition kept_direct_host (networks : NetworkRouteFacts) (book : CanonicalRuleBook) (r : RouteIntent) : bool :=
  bool_decide (ri_egress r = EgressSecondary)
  && match dst_host (ri_dst r) with Some ip => keeps_host_direct networks (secondary book) ip | None => false end.

Definition plan_routes_with (mode : RouteBehaviorMode) (book : CanonicalRuleBook) (has_primary : bool) (cache : C) (observations : O)
    (denied : gset Z) (families : FamilyScope) (settings : OwnershipSettings) (tunnel_catch_alls : list (Z * Z))
    (networks : NetworkRouteFacts) (support : RuleShapeSupport) : list RouteIntent :=
  let o := resolve_for observations book cache settings support in
  let routes := mode_intents mode book has_primary cache observations denied families o tunnel_catch_alls in
  let plan := plan_network_routes mode book has_primary o networks tunnel_catch_alls support in
  List.filter (fun r => negb (kept_direct_host networks book r)) (push_network_intents plan families routes).

Definition plan_routes (mode : RouteBehaviorMode) (book : CanonicalRuleBook) (has_primary : bool) (cache : C) (observations : O)
    (denied : gset Z) (families : FamilyScope) (settings : OwnershipSettings) (tunnel_catch_alls : list (Z * Z))
    (support : RuleShapeSupport) : list RouteIntent :=
  plan_routes_with mode book has_primary cache observations denied families settings tunnel_catch_alls
    (from_catch_alls tunnel_catch_alls) support.

End Plan.

(** [pin_tunnel_servers_to_primary], one server. *)
Definition pin_server (families : FamilyScope) (routes : list RouteIntent) (ip : IpAddr) : list RouteIntent :=
  if negb (admits families ip) || net_filter_non_routable ip then routes
  else
    let routes := List.filter (fun r => negb (bool_decide (ri_dst r = host_match ip) && bool_decide (ri_egress r = EgressSecondary))) routes in
    if existsb (fun r => bool_decide (ri_dst r = host_match ip)) routes then routes
    else routes ++ [mkIntent (host_match ip) EgressPrimary SECONDARY_ROUTE_METRIC MainTable].

Definition carries_default (routes : list RouteIntent) : bool :=
  existsb (fun r => bool_decide (ri_egress r = EgressSecondary) && match ri_dst r with SubnetV4 _ 1 => true | _ => false end) routes.

Definition pin_tunnel_servers_to_primary (servers : list IpAddr) (families : FamilyScope) (routes : list RouteIntent) : list RouteIntent :=
  if carries_default routes then fold_left (pin_server families) servers routes else routes.

(** ** One list per rule

    Both planners walk hosts and addresses in nested loops that stop at the cap. Past the
    cap a push does nothing, so a rule is one fold over its destinations. *)

Lemma push_route_capped target ip e : (MAX_ROUTES_PER_RULE <= em_rule e)%nat -> push_route target ip e = (e, false).
Proof. intros H. unfold push_route. by rewrite (proj2 (Nat.leb_le _ _) H). Qed.

Lemma push_route_flag target ip e e' more : push_route target ip e = (e', more) -> more = false -> e' = e /\ (MAX_ROUTES_PER_RULE <= em_rule e)%nat.
Proof.
  unfold push_route. destruct (MAX_ROUTES_PER_RULE <=? em_rule e)%nat eqn:E; [|repeat case_match; intros; simplify_eq].
  intros [= <- <-] _. split; [done|by apply Nat.leb_le].
Qed.

Definition route_dests (target : SecondaryRouteTarget) (ips : list IpAddr) (e : Emit) : Emit :=
  fold_left (fun e ip => fst (push_route target ip e)) ips e.

Lemma route_dests_capped target ips e : (MAX_ROUTES_PER_RULE <= em_rule e)%nat -> route_dests target ips e = e.
Proof. intros H. unfold route_dests. induction ips as [|ip ips IH]; cbn; [done|]. by rewrite push_route_capped. Qed.

Lemma push_steerable_dests target ok ips : forall e held,
  (push_steerable target ok ips e held).1.1 = route_dests target (List.filter ok ips) e.
Proof.
  induction ips as [|ip ips IH]; intros e held; cbn [push_steerable List.filter]; [done|]. destruct (ok ip); [|apply IH].
  unfold route_dests. cbn [fold_left]. destruct (push_route target ip e) as [e1 []] eqn:E; cbn [fst]; [apply IH|].
  apply push_route_flag in E as [-> Hc]; [|done]. symmetry. by apply route_dests_capped.
Qed.

Lemma push_host_route_capped egress ip p : (MAX_ROUTES_PER_RULE <= pl_rule p)%nat -> push_host_route egress ip p = (p, false).
Proof. intros H. unfold push_host_route. by rewrite (proj2 (Nat.leb_le _ _) H). Qed.

Lemma push_host_route_flag egress ip p p' more :
  push_host_route egress ip p = (p', more) -> more = false -> p' = p /\ (MAX_ROUTES_PER_RULE <= pl_rule p)%nat.
Proof.
  unfold push_host_route. destruct (MAX_ROUTES_PER_RULE <=? pl_rule p)%nat eqn:E; [|repeat case_match; intros; simplify_eq].
  intros [= <- <-] _. split; [done|by apply Nat.leb_le].
Qed.

Definition plan_dests (egress : EgressRef) (ips : list IpAddr) (p : Planned) : Planned :=
  fold_left (fun p ip => fst (push_host_route egress ip p)) ips p.

Lemma plan_dests_capped egress ips p : (MAX_ROUTES_PER_RULE <= pl_rule p)%nat -> plan_dests egress ips p = p.
Proof. intros H. unfold plan_dests. induction ips as [|ip ips IH]; cbn; [done|]. by rewrite push_host_route_capped. Qed.

Lemma push_host_routes_dests egress ok ips : forall p,
  fst (push_host_routes egress ok ips p) = plan_dests egress (List.filter ok ips) p
  /\ (snd (push_host_routes egress ok ips p) = false -> (MAX_ROUTES_PER_RULE <= pl_rule (fst (push_host_routes egress ok ips p)))%nat).
Proof.
  induction ips as [|ip ips IH]; intros p; cbn [push_host_routes List.filter]; [done|]. destruct (ok ip); [|apply IH].
  unfold plan_dests. cbn [fold_left]. destruct (push_host_route egress ip p) as [p1 []] eqn:E; cbn [fst snd]; [apply IH|].
  apply push_host_route_flag in E as [-> Hc]; [|done]. split; [|done]. symmetry. by apply plan_dests_capped.
Qed.

Lemma push_subhosts_dests {C} `{!FqdnCacheLookup C} egress (cache : C) o families hosts : forall p,
  push_subhosts egress cache o families hosts p
  = plan_dests egress (List.filter (fun ip => address_rule_may_steer o ip (egress_link egress)) (hosts ≫= fun h => capped_for_host cache h families)) p.
Proof.
  induction hosts as [|h hosts IH]; intros p; cbn [push_subhosts mbind list_bind]; [done|]. rewrite List.filter_app. unfold plan_dests at 1.
  rewrite fold_left_app. pose proof (push_host_routes_dests egress (fun ip => address_rule_may_steer o ip (egress_link egress))
    (capped_for_host cache h families) p) as [H1 H2].
  destruct (push_host_routes _ _ _ _) as [p1 more]. cbn [fst snd] in *. subst p1. destruct more; [apply IH|].
  symmetry. by apply plan_dests_capped, H2.
Qed.

(** The addresses of a host for one family are those for both, cut to it. *)
Lemma capped_families {C} `{!FqdnCacheLookup C} (cache : C) host families :
  List.filter (admits families) (capped_for_host cache host Both) = capped_for_host cache host families.
Proof.
  destruct families; [|by apply filter_all].
  unfold capped_for_host. rewrite List.filter_app.
  assert (Hin : forall (f : IpAddr -> bool) n l x, x ∈ sort_by ip_cmp (take n (List.filter f l)) -> f x = true).
  { intros f n l x Hx%sort_by_elem_of. apply elem_of_take in Hx as (i & Hx & _). apply list_elem_of_lookup_2 in Hx. by apply filter_elem in Hx as [_ ?]. }
  f_equal.
  - apply filter_all. intros x Hx%Hin. by destruct x.
  - rewrite filter_none; [|intros x Hx%Hin; by destruct x]. rewrite (filter_none _ (ips_for_hostname cache host)) by (by intros []). by rewrite take_nil.
Qed.

(** ** A rule in the two planners *)

(** Equal up to diagnostics. *)
Definition same_emit (e e' : Emit) : Prop :=
  em_seen e = em_seen e' /\ out_routes (em_out e) = out_routes (em_out e') /\ em_rule e = em_rule e'.

#[local] Instance same_emit_equivalence : Equivalence same_emit.
Proof. unfold same_emit. split; [done|intros e e'; intuition congruence|intros e e' e''; intuition congruence]. Qed.

Lemma route_dests_same target ips : forall e e', same_emit e e' -> same_emit (route_dests target ips e) (route_dests target ips e').
Proof.
  unfold route_dests. induction ips as [|ip ips IH]; intros e e' He; [done|]. cbn [fold_left]. apply IH.
  destruct e as [s [r d] n], e' as [s' [r' d'] n'], He as (H1 & H2 & H3). cbn in H1, H2, H3. subst. unfold push_route. cbn. by repeat case_match.
Qed.

Lemma report_held_emit rule held e : same_emit (report_held rule held e) e.
Proof. unfold report_held. by destruct (hb_claimed held) as [[]|], (hb_outside_tunnel held) as [[]|]. Qed.

Section OneRule.
Context {C O : Type} `{!FqdnCacheLookup C} `{!AppObservationLookup O} (cache : C).
Context (gate : AppDestinationGate O) (o : AddressOwnership).

Lemma route_address_dests target link rule e :
  same_emit (route_address target cache o link rule e)
    (route_dests target (List.filter (fun ip => address_rule_may_steer o ip link) (rule_targets cache rule)) e).
Proof.
  assert (Htrans : forall e1 e2 held, e1 = e2 -> same_emit (report_held rule held e1) e2) by (intros ? ? ? ->; apply report_held_emit).
  unfold route_address, rule_targets. change (fun ip => address_rule_may_steer o ip link) with (steerable o link).
  destruct (r_address_match rule) as [[host|suffix|base|zone|ip|net|range]|]; try by apply Htrans.
  - destruct (ips_for_hostname cache host) eqn:E; [by rewrite (capped_empty cache host E)|].
    pose proof (push_steerable_dests target (steerable o link) (capped_for_host cache host Both) e (held_back_new o link (r_action rule))) as H.
    destruct (push_steerable _ _ _ _ _) as [[e1 held1] more]. by apply Htrans.
  - unfold fanout_suffix. rewrite fanout_is_one_list.
    pose proof (push_steerable_dests target (steerable o link) (hostnames_for_suffix_domain cache suffix SUFFIX_FANOUT_BACKSTOP ≫= fun h => capped_for_host cache h Both)
      e (held_back_new o link (r_action rule))) as H.
    destruct (push_steerable _ _ _ _ _) as [[e1 held1] more]. cbn [fst] in *. rewrite <- H. etrans; [apply report_held_emit|]. by case_match.
  - unfold fanout_suffix. rewrite fanout_is_one_list.
    pose proof (push_steerable_dests target (steerable o link) (hostnames_under_suffix cache zone SUFFIX_FANOUT_BACKSTOP ≫= fun h => capped_for_host cache h Both)
      e (held_back_new o link (r_action rule))) as H.
    destruct (push_steerable _ _ _ _ _) as [[e1 held1] more]. cbn [fst] in *. rewrite <- H. etrans; [apply report_held_emit|]. by case_match.
  - cbn [List.filter]. destruct (steerable o link ip); by apply Htrans.
Qed.

Lemma route_app_dests target link rule app e :
  same_emit (route_app target gate link rule app e) (route_dests target (V4 <$> admitted (admit_destinations gate (app_key app) link)) e).
Proof.
  unfold route_app. change (match pattern app with Exact s | Canonical.Glob s => s | Path path => AppPath_as_str path end) with (app_key app).
  set (d := admit_destinations gate (app_key app) link).
  assert (Hgo : forall e1, same_emit e1 e ->
    same_emit (fst (push_all target ((V4 <$> admitted d) ++ (if APP_IPV6_ROUTES then V6 <$> admitted_v6 d else [])) e1))
      (route_dests target (V4 <$> admitted d) e)).
  { intros e1 H1. cbn [APP_IPV6_ROUTES]. rewrite app_nil_r, (push_all_steerable target _ e1 (held_back_new o link Route)).
    pose proof (push_steerable_dests target (fun _ => true) (V4 <$> admitted d) e1 (held_back_new o link Route)) as H.
    destruct (push_steerable _ _ _ _ _) as [[e2 held2] more]. cbn [fst] in *. rewrite H, filter_all by done. by apply route_dests_same. }
  assert (Hnotes : forall refusals e1, same_emit (fold_left (fun e '(ip, reason) =>
        match reason with
        | ClaimedByAddressRule => note (AppRuleDestinationClaimedByMainLink (r_id rule) (app_key app) ip) e
        | UsedByOtherProcess => note (AppRuleDestinationUsedByOtherProcess (r_id rule) (app_key app) ip) e
        | DeclinedShared => e
        end) refusals e1) e1).
  { induction refusals as [|[ip []] refusals IH]; intros e1; [done|..]; cbn [fold_left]; (etrans; [apply IH|done]). }
  specialize (Hgo _ (Hnotes (refused d) e)). destruct (admitted d), (admitted_v6 d), (refused d); exact Hgo.
Qed.

Lemma route_rule_dests target link e rule :
  same_emit (route_rule target cache gate o link e rule)
    (route_dests target (rule_destinations cache gate o link rule) (mkEmit (em_seen e) (em_out e) 0)).
Proof.
  unfold route_rule, rule_destinations. destruct (negb (r_enabled rule) || _); [done|].
  destruct (r_app_match rule) as [app|], (r_address_match rule) eqn:Ea; [done|apply route_app_dests|apply route_address_dests..].
Qed.

(** A rule of the neutral plan is the same list, cut to the families. *)
Lemma plan_host_rule_dests egress families p rule : (forall v4, admits families (V4 v4) = true) ->
  plan_host_rule egress cache gate o families p rule
  = plan_dests egress (List.filter (admits families) (rule_destinations cache gate o (egress_link egress) rule)) (mkPlanned (pl_seen p) (pl_out p) 0).
Proof.
  intros H4. unfold plan_host_rule, rule_destinations. destruct (negb (r_enabled rule) || _); [done|].
  set (may := fun ip => address_rule_may_steer o ip (egress_link egress)). set (p0 := mkPlanned _ _ 0).
  assert (Hswap : forall l, List.filter (admits families) (List.filter may l) = List.filter may (List.filter (admits families) l)).
  { induction l as [|x l IH]; cbn; [done|]. destruct (may x) eqn:E1, (admits families x) eqn:E2; cbn; rewrite ?E1, ?E2, IH; done. }
  assert (Hbind : forall hosts : list str, List.filter (admits families) (hosts ≫= fun h => capped_for_host cache h Both)
                   = hosts ≫= fun h => capped_for_host cache h families).
  { induction hosts as [|h hosts IH]; cbn [mbind list_bind]; [done|]. by rewrite List.filter_app, capped_families, IH. }
  assert (Haddr : plan_address_rule egress cache o families rule p0 = plan_dests egress (List.filter (admits families) (List.filter may (rule_targets cache rule))) p0).
  { rewrite Hswap. unfold plan_address_rule, rule_targets. destruct (r_address_match rule) as [[host|suffix|base|zone|ip|net|range]|]; try done.
    - rewrite capped_families. apply push_host_routes_dests.
    - rewrite Hbind. apply push_subhosts_dests.
    - rewrite Hbind. apply push_subhosts_dests.
    - cbn [List.filter]. fold (may ip). destruct (admits families ip); cbn [andb List.filter]; [|done]. by destruct (may ip). }
  destruct (r_app_match rule) as [app|], (r_address_match rule) eqn:Ea; [done| |done..].
  rewrite (proj1 (push_host_routes_dests egress (fun _ => true) _ p0)), !filter_all; [done|..|done].
  intros x (v & -> & _)%list_elem_of_fmap. apply H4.
Qed.

End OneRule.

(** ** The two planners side by side *)

Section Twin.
Context (secondary_target : SecondaryRouteTarget) (primary_target : option SecondaryRouteTarget) (families : FamilyScope).

Definition as_target (t : SecondaryRouteTarget) : RouteTarget :=
  mkRouteTarget (target_gateway t) (default 0 (target_gateway_v6 t)) (target_index t).

Definition lowered (intents : list RouteIntent) : list RouteEntry :=
  lower_routes intents (as_target secondary_target) (as_target <$> primary_target).

(** The families planned for are those the link has a next hop for. *)
Definition hops_agree (t : SecondaryRouteTarget) : Prop := forall ip, admits families ip = bool_decide (is_Some (next_hop_for ip t)).

Hypothesis Hhops : forall link t, target_of primary_target secondary_target link = Some t -> hops_agree t.
Hypothesis Hapart : forall pt, primary_target = Some pt -> target_index pt <> target_index secondary_target.

Lemma lowered_app l1 l2 : lowered (l1 ++ l2) = lowered l1 ++ lowered l2.
Proof. apply omap_app. Qed.

Lemma lowered_cons r l : lowered (r :: l) = lowered [r] ++ lowered l.
Proof. apply (lowered_app [r]). Qed.

Lemma lowered_one r : lowered [r]
  = match lower_intent (as_target secondary_target) (as_target <$> primary_target) r with Some row => [row] | None => [] end.
Proof. unfold lowered, lower_routes. cbn [omap list_omap]. by case_match. Qed.

Lemma lower_host link t ip hop m : target_of primary_target secondary_target link = Some t -> next_hop_for ip t = Some hop ->
  lower_intent (as_target secondary_target) (as_target <$> primary_target) (mkIntent (host_match ip) (egress_of link) m MainTable)
  = Some (mkRoute ip (host_prefix_for ip) hop (target_index t) m true MainTable).
Proof.
  intros Ht Hop. unfold lower_intent. cbn [ri_egress ri_dst ri_metric ri_table].
  assert (E : match egress_of link with EgressSecondary => Some (as_target secondary_target) | EgressPrimary => as_target <$> primary_target
              | EgressAdapter _ => None end = Some (as_target t)) by (destruct link; cbn in *; [by rewrite Ht|by injection Ht as ->]).
  rewrite E. destruct ip as [v|v]; cbn in *; [by injection Hop as <-|]. by destruct (target_gateway_v6 t); [injection Hop as <-|].
Qed.

(** The states of the two planners in one rule set; [base] are the rows planned before it. *)
Definition twin (base : list RouteEntry) (e : Emit) (p : Planned) : Prop :=
  em_seen e = pl_seen p /\ lowered (pl_out p) = base ++ out_routes (em_out e) /\ em_rule e = pl_rule p.

Lemma twin_push base link t ip e p : target_of primary_target secondary_target link = Some t -> admits families ip = true ->
  is_non_routable ip = net_filter_non_routable ip -> twin base e p ->
  twin base (fst (push_route t ip e)) (fst (push_host_route (egress_of link) ip p)).
Proof.
  intros Ht Had Hscreen (H1 & H2 & H3). unfold push_route, push_host_route. rewrite H3, Hscreen, H1.
  destruct (MAX_ROUTES_PER_RULE <=? pl_rule p)%nat; [done|]. destruct (net_filter_non_routable ip); [done|].
  rewrite (Hhops link t Ht) in Had. apply bool_decide_eq_true in Had as [hop Hop]. rewrite Hop. destruct (bool_decide (ip ∈ pl_seen p)); [done|].
  cbn. split_and!; cbn; [done| |done]. rewrite lowered_app, H2, <- app_assoc. unfold lowered at 1, lower_routes. cbn [omap list_omap].
  by rewrite (lower_host link t ip hop) by done.
Qed.

Lemma twin_skip link t ip e : target_of primary_target secondary_target link = Some t -> admits families ip = false -> fst (push_route t ip e) = e.
Proof.
  intros Ht Had. rewrite (Hhops link t Ht) in Had. apply bool_decide_eq_false in Had. unfold push_route.
  destruct (next_hop_for ip t); [exfalso; apply Had; eauto|]. by repeat case_match.
Qed.

Lemma twin_dests base link t ips : target_of primary_target secondary_target link = Some t ->
  (forall ip, ip ∈ ips -> admits families ip = true -> is_non_routable ip = net_filter_non_routable ip) ->
  forall e p, twin base e p -> twin base (route_dests t ips e) (plan_dests (egress_of link) (List.filter (admits families) ips) p).
Proof.
  intros Ht. induction ips as [|ip ips IH]; intros Hs e p H; [done|].
  assert (Hs' : forall x, x ∈ ips -> admits families x = true -> is_non_routable x = net_filter_non_routable x) by (intros; apply Hs; [by right|done]).
  unfold route_dests, plan_dests. cbn [fold_left List.filter]. destruct (admits families ip) eqn:Had; cbn [fold_left]; apply (IH Hs').
  - apply twin_push; [done..| |done]. apply Hs; [by left|done].
  - by rewrite (twin_skip link).
Qed.

Lemma twin_same base e e' p : same_emit e e' -> twin base e' p -> twin base e p.
Proof. intros (H1 & H2 & H3). unfold twin. by rewrite H1, H2, H3. Qed.

Lemma twin_rules {C O} `{!FqdnCacheLookup C} `{!AppObservationLookup O} base link t (cache : C) (gate gate' : AppDestinationGate O) o rules :
  target_of primary_target secondary_target link = Some t ->
  (forall key, admitted (admit_destinations gate key link) = admitted (admit_destinations gate' key link)) ->
  (forall rule ip, rule ∈ rules -> ip ∈ rule_destinations cache gate o link rule -> admits families ip = true ->
     is_non_routable ip = net_filter_non_routable ip) ->
  forall e p, twin base e p ->
  twin base (fold_left (route_rule t cache gate o link) rules e) (fold_left (plan_host_rule (egress_of link) cache gate' o families) rules p).
Proof.
  intros Ht Hgate. assert (H4 : forall v4, admits families (V4 v4) = true) by (intros; by rewrite (Hhops link t Ht)).
  assert (Hd : forall rule, rule_destinations cache gate' o link rule = rule_destinations cache gate o link rule).
  { intros rule. unfold rule_destinations. repeat case_match; try done. by rewrite Hgate. }
  induction rules as [|rule rules IH]; intros Hs e p H; [done|]. cbn [fold_left].
  apply IH; [intros r ip ?; apply Hs; by right|]. eapply twin_same; [apply route_rule_dests|].
  rewrite plan_host_rule_dests by done. replace (egress_link (egress_of link)) with link by (by destruct link). rewrite Hd.
  apply (twin_dests base link); [done| |]; [intros ip Hip; apply (Hs rule); [by left|done]|]. destruct H as (H1 & H2 & _). split_and!; cbn; done.
Qed.

(** What is planned before the networks: hosts and overlays. *)
Definition plain_intent (r : RouteIntent) : Prop :=
  (exists link, ri_egress r = egress_of link) /\ ri_metric r = SECONDARY_ROUTE_METRIC /\ ri_table r = MainTable
  /\ ((exists ip, ri_dst r = host_match ip) \/ exists net n, ri_dst r = SubnetV4 net n /\ n < 32).

Lemma plan_dests_plain link ips : forall p, Forall plain_intent (pl_out p) -> Forall plain_intent (pl_out (plan_dests (egress_of link) ips p)).
Proof.
  unfold plan_dests. induction ips as [|ip ips IH]; intros p Hp; [done|]. cbn [fold_left]. apply IH. unfold push_host_route.
  repeat case_match; try done. cbn. apply Forall_app. split; [done|]. constructor; [|done]. split_and!; [by exists link|done..|]. left. by exists ip.
Qed.

Lemma plan_rules_plain {C O} `{!FqdnCacheLookup C} `{!AppObservationLookup O} link (cache : C) (gate : AppDestinationGate O) o rules :
  (forall v4, admits families (V4 v4) = true) -> forall p, Forall plain_intent (pl_out p) ->
  Forall plain_intent (pl_out (fold_left (plan_host_rule (egress_of link) cache gate o families) rules p)).
Proof.
  intros H4. induction rules as [|rule rules IH]; intros p Hp; [done|]. cbn [fold_left]. apply IH. rewrite plan_host_rule_dests by done.
  by apply plan_dests_plain.
Qed.

Lemma overlay_plain half link : half.2 < 32 -> plain_intent (overlay_intent half (egress_of link)).
Proof. intros H. split_and!; [by exists link|done..|]. right. by exists half.1, half.2. Qed.

Lemma counter_overlay_short half catch_alls : half ∈ counter_overlay_for catch_alls -> half.2 < 32.
Proof.
  unfold counter_overlay_for. rewrite sorted_prefixes_elem, list_elem_of_bind. intros ([d n] & Hans & [_ Hle%Z.leb_le]%filter_elem).
  unfold TUNNEL_CATCH_ALL_MAX_PREFIX in Hle. cbn in Hans. rewrite !elem_of_cons, elem_of_nil in Hans. destruct Hans as [->|[->|[]]]; cbn; lia.
Qed.

(** ** The modes *)

Section Modes.
Context {C O : Type} `{!FqdnCacheLookup C} `{!AppObservationLookup O} (mode : RouteBehaviorMode) (book : CanonicalRuleBook).
Context (cache : C) (observations : O) (denied : gset Z) (o : AddressOwnership) (catch_alls : list (Z * Z)).

(** The destinations of the rules the mode routes by host. *)
Definition mode_destinations : list IpAddr :=
  match mode with
  | PreferPrimary => secondary book ≫= rule_destinations (mkDenylist cache denied) (with_declined (for_rule_set o observations (secondary book)) denied) o Additional
  | PreferSecondaryWhenAvailable => primary book ≫= rule_destinations cache (with_declined (for_rule_set o observations (primary book)) ∅) o Main
  end.

Lemma admit_main_declined (g : AppDestinationGate O) d key : admit_destinations (with_declined g d) key Main = admit_destinations g key Main.
Proof. done. Qed.

Lemma twin_start base : twin (lowered base) (mkEmit ∅ (mkOutput [] []) 0) (mkPlanned ∅ base 0).
Proof. split_and!; cbn; [done|by rewrite app_nil_r|done]. Qed.

Lemma lower_overlay half link t : target_of primary_target secondary_target link = Some t ->
  lowered [overlay_intent half (egress_of link)] = [overlay_route half t].
Proof. unfold lowered, lower_routes, lower_intent. destruct link; cbn; [intros ->; done|by intros [= ->]]. Qed.

Lemma mode_twin :
  (forall ip, ip ∈ mode_destinations -> admits families ip = true -> is_non_routable ip = net_filter_non_routable ip) ->
  let intents := mode_intents mode book (bool_decide (is_Some primary_target)) cache observations denied families o catch_alls in
  lowered intents = out_routes (mode_routes mode book primary_target secondary_target cache observations denied o catch_alls)
  /\ Forall plain_intent intents.
Proof.
  intros Hs. assert (H4 : forall v4, admits families (V4 v4) = true) by (intros; by rewrite (Hhops Additional secondary_target)).
  assert (Hp : primary_target = None \/ exists pt, primary_target = Some pt) by (destruct primary_target; eauto).
  unfold mode_destinations in Hs. destruct mode; cbn [mode_intents mode_routes].
  - assert (Hrules : lowered (snd (plan_host_routes EgressSecondary (mkDenylist cache denied)
        (with_declined (for_rule_set o observations (secondary book)) denied) o families (secondary book) ∅ []))
      = out_routes (generate_secondary_routes (secondary book) secondary_target (mkDenylist cache denied) observations denied o Additional)).
    { unfold plan_host_routes, generate_secondary_routes. cbn [snd].
      eapply (twin_rules [] Additional secondary_target); [done|done| |by apply (twin_start [])].
      intros rule ip Hr Hip. apply Hs, list_elem_of_bind. eauto. }
    set (hosts := snd _) in *. assert (Hplain : Forall plain_intent hosts) by (by apply (plan_rules_plain Additional)).
    rewrite lowered_app, Hrules. destruct Hp as [Ept|[pt Ept]]; rewrite Ept.
    + rewrite bool_decide_eq_false_2 by (by intros []). cbn [out_routes]. by rewrite !app_nil_r.
    + rewrite bool_decide_eq_true_2 by done. cbn [out_routes]. split.
      * f_equal. induction (counter_overlay_for catch_alls) as [|half l IH]; [done|]. cbn [fmap list_fmap].
        rewrite lowered_cons, IH. change EgressPrimary with (egress_of Main). by rewrite (lower_overlay half Main pt).
      * apply Forall_app. split; [done|]. apply Forall_fmap, Forall_forall. intros half Hh. apply (overlay_plain half Main). by eapply counter_overlay_short.
  - assert (Hover : lowered [overlay_intent OVERLAY_LOW EgressSecondary; overlay_intent OVERLAY_HIGH EgressSecondary]
      = [overlay_route OVERLAY_LOW secondary_target; overlay_route OVERLAY_HIGH secondary_target]) by done.
    assert (Hplain : Forall plain_intent [overlay_intent OVERLAY_LOW EgressSecondary; overlay_intent OVERLAY_HIGH EgressSecondary])
      by (do 2 (constructor; [by apply (overlay_plain _ Additional)|]); constructor).
    destruct Hp as [Ept|[pt Ept]]; rewrite Ept.
    + by rewrite bool_decide_eq_false_2 by (by intros []).
    + rewrite bool_decide_eq_true_2 by done. cbn [out_routes]. unfold plan_host_routes. cbn [snd]. split; [|by apply (plan_rules_plain Main)].
      unfold generate_secondary_routes. rewrite <- Hover.
      eapply (twin_rules _ Main pt); [by cbn|by intros; rewrite admit_main_declined| |apply twin_start].
      intros rule ip Hr Hip. apply Hs, list_elem_of_bind. eauto.
Qed.

End Modes.

(** ** The networks *)

Lemma links_apart l1 l2 t1 t2 : target_of primary_target secondary_target l1 = Some t1 -> target_of primary_target secondary_target l2 = Some t2 ->
  target_index t1 = target_index t2 -> l1 = l2.
Proof. destruct l1, l2; cbn; try done; intros H1 H2 E; simplify_eq; exfalso; [by apply (Hapart t1)|by apply (Hapart t2)]. Qed.

Lemma via_primary_inj l1 l2 : via_primary (egress_of l1) = via_primary (egress_of l2) -> l1 = l2.
Proof. by destruct l1, l2. Qed.

(** A row keeps the link, the metric and the host of its intent. *)
Lemma lowered_row r link row : ri_egress r = egress_of link ->
  lower_intent (as_target secondary_target) (as_target <$> primary_target) r = Some row ->
  metric row = ri_metric r /\ (exists t, target_of primary_target secondary_target link = Some t /\ interface_index row = target_index t)
  /\ forall ip, dst_host (ri_dst r) = Some ip -> destination row = ip /\ is_host_length row = true.
Proof.
  intros El. unfold lower_intent. rewrite El.
  destruct (target_of primary_target secondary_target link) as [t|] eqn:Et; cycle 1.
  { destruct link; cbn in *; [by rewrite Et|done]. }
  assert (E : match egress_of link with EgressSecondary => Some (as_target secondary_target) | EgressPrimary => as_target <$> primary_target
              | EgressAdapter _ => None end = Some (as_target t)) by (destruct link; cbn in *; [by rewrite Et|by injection Et as ->]).
  rewrite E. cbn. destruct (ri_dst r); cbn; intros H; simplify_eq; (split_and!; [done|by exists t|]); intros x Hx; by simplify_eq.
Qed.

(** The two sets of hosts routed already. *)
Definition hosts_agree (hg : gset (IpAddr * Z)) (hn : gset (IpAddr * bool)) : Prop :=
  forall link t ip, target_of primary_target secondary_target link = Some t -> admits families ip = true ->
  (ip, target_index t) ∈ hg <-> (ip, via_primary (egress_of link)) ∈ hn.

Lemma hosts_start intents : Forall plain_intent intents ->
  hosts_agree (list_to_set ((fun r => (destination r, interface_index r)) <$> List.filter is_host_length (lowered intents)))
    (list_to_set (omap (fun r => (fun ip => (ip, via_primary (ri_egress r))) <$> dst_host (ri_dst r)) intents)).
Proof.
  intros Hplain link t ip Ht Had. rewrite !elem_of_list_to_set, list_elem_of_fmap, list_elem_of_omap. split.
  - intros (row & [= -> Hi] & [(r & Hr & Hl)%list_elem_of_omap Hlen]%filter_elem).
    apply (proj1 (Forall_forall _ _) Hplain) in Hr as Hp. destruct Hp as ([l El] & _ & _ & Hd).
    destruct (lowered_row r l row El Hl) as (_ & (t' & Ht' & Hi') & Hhost). exists r. split; [done|]. rewrite El.
    replace l with link by (apply (links_apart link l t t'); congruence). destruct Hd as [[x Hx]|(net & n & Hx & Hn)].
    + rewrite Hx in *. destruct (Hhost x) as [-> _]; [by destruct x|]. by destruct x.
    + exfalso. unfold lower_intent in Hl. rewrite Hx in Hl. destruct (match ri_egress r with EgressPrimary => _ | _ => _ end); [|done].
      cbn in Hl. injection Hl as <-. unfold is_host_length in Hlen. cbn in Hlen. apply Z.eqb_eq in Hlen. lia.
  - intros (r & Hr & Hl). destruct (dst_host (ri_dst r)) as [x|] eqn:Hx; [|done]. cbn in Hl. injection Hl as -> Hv.
    apply (proj1 (Forall_forall _ _) Hplain) in Hr as Hp. destruct Hp as ([l El] & Hm & Hta & Hd). rewrite El in Hv. apply via_primary_inj in Hv as ->.
    rewrite (Hhops link t Ht) in Had. apply bool_decide_eq_true in Had as [hop Hop].
    exists (mkRoute ip (host_prefix_for ip) hop (target_index t) SECONDARY_ROUTE_METRIC true MainTable). split; [done|]. apply filter_elem. split.
    + apply list_elem_of_omap. exists r. split; [done|]. destruct r as [dst eg m ta]. cbn in *. subst. replace dst with (host_match ip) by (by destruct dst; simplify_eq/=).
      by apply lower_host.
    + unfold is_host_length. cbn. apply Z.eqb_refl.
Qed.

Lemma twin_plan_hosts hosts : (forall ip, ip ∈ snd <$> hosts -> admits families ip = true -> is_non_routable ip = net_filter_non_routable ip) ->
  forall hg hn intents, hosts_agree hg hn -> Forall plain_intent intents ->
  let '(hg', rows) := fold_left (push_plan_host primary_target secondary_target) hosts (hg, lowered intents) in
  let '(hn', intents') := fold_left (push_host_intent families) hosts (hn, intents) in
  rows = lowered intents' /\ hosts_agree hg' hn' /\ Forall plain_intent intents'.
Proof.
  induction hosts as [|[link ip] hosts IH]; intros Hs hg hn intents Hh Hplain; [done|]. cbn [fold_left].
  assert (Hs' : forall x, x ∈ snd <$> hosts -> admits families x = true -> is_non_routable x = net_filter_non_routable x).
  { intros x Hx. apply Hs. cbn. by right. }
  specialize (IH Hs'). cbn [push_plan_host push_host_intent].
  assert (Hnew : forall t, target_of primary_target secondary_target link = Some t ->
    hosts_agree ({[(ip, target_index t)]} ∪ hg) ({[(ip, via_primary (egress_of link))]} ∪ hn)).
  { intros t Ht l t' x Ht' Hx. rewrite !elem_of_union, !elem_of_singleton, (Hh l t' x Ht' Hx). f_equiv. split; intros [= -> E]; f_equal.
    - by rewrite (links_apart l link t' t).
    - apply via_primary_inj in E as ->. congruence. }
  assert (Hpl : Forall plain_intent (intents ++ [mkIntent (host_match ip) (egress_of link) SECONDARY_ROUTE_METRIC MainTable])).
  { apply Forall_app. split; [done|]. constructor; [|done]. split_and!; [by exists link|done..|]. left. by exists ip. }
  destruct (target_of primary_target secondary_target link) as [t|] eqn:Ht; cycle 1.
  - (* no main link: the intent has no row *)
    destruct (negb (admits families ip) || _ || _); [by apply IH|].
    replace (lowered intents) with (lowered (intents ++ [mkIntent (host_match ip) (egress_of link) SECONDARY_ROUTE_METRIC MainTable])).
    + apply IH; [|done]. intros l t' x Ht' Hx. rewrite elem_of_union, elem_of_singleton, (Hh l t' x Ht' Hx). split; [by right|].
      intros [[= -> E%via_primary_inj]|?]; [|done]. congruence.
    + rewrite lowered_app. destruct link; [|done]. cbn in Ht. unfold lowered, lower_routes at 2, lower_intent. cbn. rewrite Ht. cbn. by rewrite app_nil_r.
  - destruct (admits families ip) eqn:Had; cbn [negb orb].
    + rewrite (Hs ip) by (done || (cbn; by left)). pose proof (Hh link t ip Ht Had) as Hin. destruct (net_filter_non_routable ip); cbn [orb]; [by apply IH|].
      destruct (decide ((ip, target_index t) ∈ hg)) as [Hyes|Hno].
      * rewrite !bool_decide_eq_true_2 by tauto. by apply IH.
      * rewrite !bool_decide_eq_false_2 by tauto. pose proof Had as Hop. rewrite (Hhops link t Ht) in Hop. apply bool_decide_eq_true in Hop as [hop Hop].
        rewrite Hop. replace (lowered intents ++ [_]) with (lowered (intents ++ [mkIntent (host_match ip) (egress_of link) SECONDARY_ROUTE_METRIC MainTable])).
        -- apply IH; [by apply Hnew|done].
        -- rewrite lowered_app. f_equal. unfold lowered, lower_routes. cbn [omap list_omap]. by rewrite (lower_host link t ip hop).
    + pose proof Had as Hop. rewrite (Hhops link t Ht) in Hop. apply bool_decide_eq_false in Hop.
      destruct (is_non_routable ip || _); [by apply IH|]. destruct (next_hop_for ip t); [exfalso; eauto|]. apply IH; [|done].
      intros l t' x Ht' Hx. rewrite elem_of_union, elem_of_singleton, (Hh l t' x Ht' Hx). split; [|by right]. intros [[= -> E]|?]; congruence.
Qed.

Lemma network_intent_row hg hn planned : hosts_agree hg hn ->
  plan_network_row primary_target secondary_target hg planned
  = (network_intent families hn planned ≫= lower_intent (as_target secondary_target) (as_target <$> primary_target)).
Proof.
  destruct planned as [link block]. intros Hh. unfold plan_network_row, network_intent.
  destruct (target_of primary_target secondary_target link) as [t|] eqn:Ht; cycle 1.
  { destruct link; [|done]. cbn in Ht. destruct (negb _ || _); [done|]. cbn. by rewrite Ht. }
  assert (E : match egress_of link with EgressSecondary => Some (as_target secondary_target) | EgressPrimary => as_target <$> primary_target
              | EgressAdapter _ => None end = Some (as_target t)) by (destruct link; cbn in *; [by rewrite Ht|by injection Ht as ->]).
  cbn [mbind option_bind]. destruct (admits families (network block)) eqn:Had; cbn [negb orb].
  - rewrite (bool_decide_ext _ _ (Hh link t (network block) Ht Had)). destruct (is_single_address block && _); [done|].
    rewrite (Hhops link t Ht) in Had. apply bool_decide_eq_true in Had as [hop Hop]. unfold lower_intent. cbn [mbind option_bind ri_egress].
    rewrite E, Hop. unfold subnet_match. destruct (network block) as [v|v]; cbn in *; [by injection Hop as <-|]. by destruct (target_gateway_v6 t); [injection Hop as <-|].
  - rewrite (Hhops link t Ht) in Had. apply bool_decide_eq_false in Had. destruct (next_hop_for (network block) t); [exfalso; eauto|]. by destruct (is_single_address block && _).
Qed.

Lemma network_rows hg hn nets : hosts_agree hg hn ->
  omap (plan_network_row primary_target secondary_target hg) nets = lowered (omap (network_intent families hn) nets).
Proof.
  intros Hh. induction nets as [|n nets IH]; [done|]. cbn [omap list_omap]. rewrite (network_intent_row hg hn n Hh).
  destruct (network_intent families hn n) as [r|]; cbn [mbind option_bind]; [|done]. rewrite lowered_cons, lowered_one, <- IH.
  by destruct (lower_intent _ _ r).
Qed.

(** A single-address piece of a network that the facts keep direct. *)
Definition kept_piece (networks : NetworkRouteFacts) (book : CanonicalRuleBook) (r : RouteEntry) : bool :=
  (metric r =? NETWORK_ROUTE_METRIC) && (interface_index r =? target_index secondary_target) && is_host_length r
  && keeps_host_direct networks (secondary book) (destination r).

Definition network_shaped (r : RouteIntent) : Prop :=
  (exists link, ri_egress r = egress_of link) /\ ri_metric r = NETWORK_ROUTE_METRIC /\ dst_host (ri_dst r) = None.

Lemma kept_row networks book r row : plain_intent r \/ network_shaped r ->
  lower_intent (as_target secondary_target) (as_target <$> primary_target) r = Some row ->
  (interface_index row =? target_index secondary_target) && is_host_length row && keeps_host_direct networks (secondary book) (destination row)
  = kept_direct_host networks book r || kept_piece networks book row.
Proof.
  intros Hr Hl. assert (Hlink : exists link, ri_egress r = egress_of link) by (destruct Hr as [[? _]|[? _]]; done). destruct Hlink as [link El].
  destruct (lowered_row r link row El Hl) as (Hm & (t & Ht & Hi) & Hhost).
  assert (Hsec : (interface_index row =? target_index secondary_target) = bool_decide (ri_egress r = EgressSecondary)).
  { rewrite El, Hi. destruct link; cbn in Ht |- *; [|injection Ht as <-; by rewrite Z.eqb_refl]. apply Z.eqb_neq. by apply Hapart. }
  unfold kept_direct_host, kept_piece. rewrite Hsec, Hm. destruct Hr as [(_ & Hsm & _ & Hd)|(_ & Hnm & Hd)].
  - rewrite Hsm. change (SECONDARY_ROUTE_METRIC =? NETWORK_ROUTE_METRIC) with false. cbn [andb]. rewrite orb_false_r, <- andb_assoc. f_equal.
    destruct Hd as [[ip Hip]|(net & n & Hip & Hn)].
    + destruct (Hhost ip) as [-> ->]; [by rewrite Hip; destruct ip|]. rewrite Hip. by destruct ip.
    + rewrite Hip. cbn. unfold lower_intent in Hl. rewrite Hip in Hl. destruct (match ri_egress r with EgressPrimary => _ | _ => _ end); [|done].
      cbn in Hl. injection Hl as <-. unfold is_host_length. cbn. by rewrite (proj2 (Z.eqb_neq n 32)) by lia.
  - rewrite Hnm, Hd, Z.eqb_refl, andb_false_r. done.
Qed.

Lemma kept_rows networks book intents : Forall (fun r => plain_intent r \/ network_shaped r) intents ->
  List.filter (fun r => negb ((interface_index r =? target_index secondary_target) && is_host_length r
                              && keeps_host_direct networks (secondary book) (destination r))) (lowered intents)
  = List.filter (fun r => negb (kept_piece networks book r)) (lowered (List.filter (fun r => negb (kept_direct_host networks book r)) intents)).
Proof.
  induction 1 as [|r intents Hr _ IH]; [done|]. rewrite lowered_cons, lowered_one. cbn [List.filter].
  destruct (lower_intent (as_target secondary_target) (as_target <$> primary_target) r) as [row|] eqn:Hl.
  - cbn [app List.filter]. rewrite (kept_row networks book r row Hr Hl), negb_orb.
    destruct (kept_direct_host networks book r); cbn [negb andb]; [done|]. rewrite lowered_cons, lowered_one, Hl. cbn [app List.filter].
    by destruct (kept_piece networks book row); cbn [negb]; rewrite IH.
  - cbn [app]. rewrite IH. destruct (kept_direct_host networks book r); cbn [negb]; [done|]. by rewrite lowered_cons, lowered_one, Hl.
Qed.

Lemma push_intents_shaped hn nets : Forall network_shaped (omap (network_intent families hn) nets).
Proof.
  apply Forall_forall. intros r ([link block] & _ & Hr)%list_elem_of_omap. unfold network_intent in Hr.
  destruct (negb _ || _); [done|]. injection Hr as <-. split_and!; [by exists link|done|]. cbn. unfold subnet_match. by destruct (network block).
Qed.

(** C11. The neutral plan and the Windows generator agree: the plan of a rule book
    lowered onto the links is, row for row and in order, what the generator emits
    for them, except that the generator also leaves out the single-address pieces of
    network rules that the facts keep direct. It is so when the main link, if there
    is one, is on another interface than the additional one; when the families
    planned for are exactly those the additional link has a next hop for and, if
    there is a main link, exactly those that one has a next hop for too; and when
    the two screens of unroutable addresses give the same answer for every address,
    of a family planned for, that a rule names as a host or that is a planned host
    of a network rule. *)
Theorem neutral_plan_is_codegen {C O} `{!FqdnCacheLookup C} `{!AppObservationLookup O} mode book (cache : C) (observations : O) denied settings
    catch_alls networks support :
  let has_primary := bool_decide (is_Some primary_target) in
  let o := resolve_for observations book cache settings support in
  let plan := plan_network_routes mode book has_primary o networks catch_alls support in
  (forall ip, ip ∈ mode_destinations mode book cache observations denied o ++ (snd <$> plan_hosts plan) -> admits families ip = true ->
     is_non_routable ip = net_filter_non_routable ip) ->
  out_routes (generate_routes_with mode book primary_target secondary_target cache observations denied settings catch_alls networks support)
  = List.filter (fun r => negb (kept_piece networks book r))
      (lower_routes (plan_routes_with mode book has_primary cache observations denied families settings catch_alls networks support)
         (as_target secondary_target) (as_target <$> primary_target)).
Proof using Hhops Hapart.
  cbv zeta. intros Hs. unfold generate_routes_with, plan_routes_with. cbv zeta. cbn [out_routes].
  set (o := resolve_for observations book cache settings support) in *.
  set (plan := plan_network_routes _ _ _ _ _ _ _) in *.
  destruct (mode_twin mode book cache observations denied o catch_alls) as [Hrows Hplain]; [intros ip Hip; apply Hs, elem_of_app; by left|].
  set (intents := mode_intents _ _ _ _ _ _ _ _ _) in *. unfold push_network_plan, push_network_intents. rewrite <- Hrows.
  pose proof (twin_plan_hosts (plan_hosts plan) (fun ip Hip => Hs ip (proj2 (elem_of_app _ _ _) (or_intror Hip))) _ _ intents (hosts_start intents Hplain) Hplain) as Hh.
  destruct (fold_left (push_plan_host _ _) _ _) as [hg rows]. destruct (fold_left (push_host_intent _) _ _) as [hn intents'].
  destruct Hh as (-> & Hag & Hplain'). cbn [out_routes]. rewrite (network_rows hg hn), <- lowered_app by done.
  apply kept_rows, Forall_app. split; [by eapply Forall_impl; [exact Hplain'|auto]|].
  eapply Forall_impl; [apply push_intents_shaped|auto].
Qed.

End Twin.

(** ** A tunnel's own server *)

(** While the tunnel carries the default, none of its servers is routed into it by
    a host route, and each has a host route. *)
Lemma pin_server_spec families routes ip : admits families ip = true -> net_filter_non_routable ip = false ->
  (forall r, r ∈ pin_server families routes ip -> ri_dst r = host_match ip -> ri_egress r <> EgressSecondary)
  /\ (exists r, r ∈ pin_server families routes ip /\ ri_dst r = host_match ip).
Proof.
  intros Had Hn. unfold pin_server. rewrite Had, Hn. cbn [negb orb]. set (kept := List.filter _ routes).
  assert (Hkept : forall r, r ∈ kept -> ri_dst r = host_match ip -> ri_egress r <> EgressSecondary).
  { intros r [_ Hr]%filter_elem Hd He. by rewrite !bool_decide_eq_true_2 in Hr. }
  destruct (existsb _ kept) eqn:E.
  - split; [done|]. apply existsb_exists in E as (r & Hr & Hd). apply bool_decide_eq_true in Hd. exists r. split; [by apply list_elem_of_In|done].
  - split.
    + intros r [Hr| ->%list_elem_of_singleton]%elem_of_app; [by apply Hkept|done].
    + exists (mkIntent (host_match ip) EgressPrimary SECONDARY_ROUTE_METRIC MainTable). split; [apply elem_of_app; right; by apply list_elem_of_singleton|done].
Qed.

Lemma pin_other families routes ip r : r ∈ pin_server families routes ip ->
  r ∈ routes \/ r = mkIntent (host_match ip) EgressPrimary SECONDARY_ROUTE_METRIC MainTable.
Proof.
  unfold pin_server. destruct (negb _ || _); [by left|]. case_match.
  - intros [? _]%filter_elem. by left.
  - intros [[? _]%filter_elem|Hr%list_elem_of_singleton]%elem_of_app; [by left|by right].
Qed.

#[local] Instance host_match_inj : Inj (=) (=) host_match.
Proof. intros [] []; cbn; congruence. Qed.

(** A server's pin outlives the pins of the other servers. *)
Definition pinned (routes : list RouteIntent) (ip : IpAddr) : Prop :=
  (forall r, r ∈ routes -> ri_dst r = host_match ip -> ri_egress r <> EgressSecondary) /\ exists r, r ∈ routes /\ ri_dst r = host_match ip.

Lemma pin_keeps families routes ip ip' : pinned routes ip -> pinned (pin_server families routes ip') ip.
Proof.
  intros (Hout & r & Hr & Hd). split.
  - intros r' [Hr'| ->]%pin_other Hd'; [by apply Hout|done].
  - unfold pin_server. destruct (negb _ || _); [by exists r|]. exists r. split; [|done].
    assert (r ∈ List.filter (fun r => negb (bool_decide (ri_dst r = host_match ip') && bool_decide (ri_egress r = EgressSecondary))) routes) as Hk.
    { apply filter_elem. split; [done|]. rewrite (bool_decide_eq_false_2 (ri_egress r = _)) by (by apply Hout). by rewrite andb_false_r. }
    case_match; [done|]. apply elem_of_app. by left.
Qed.

Lemma tunnel_servers_pinned servers families routes ip : carries_default routes = true -> ip ∈ servers ->
  admits families ip = true -> net_filter_non_routable ip = false -> pinned (pin_tunnel_servers_to_primary servers families routes) ip.
Proof.
  intros Hc Hin Had Hn. unfold pin_tunnel_servers_to_primary. rewrite Hc. clear Hc. revert routes.
  assert (Hkeep : forall l routes, pinned routes ip -> pinned (fold_left (pin_server families) l routes) ip).
  { induction l as [|x l IH]; intros routes H; [done|]. cbn. by apply IH, pin_keeps. }
  induction servers as [|x servers IH]; [by apply not_elem_of_nil in Hin|]. intros routes. cbn [fold_left].
  apply elem_of_cons in Hin as [<-|Hin]; [by apply Hkeep, pin_server_spec|by apply IH].
Qed.

(** ** A machine to plan for *)

(** The branch's networks with three addresses named one by one: two in the tunnel, of
    which one is inside the main link's network and one cannot be routed, and one on
    the main link. *)
Definition site_rule (id : str) (ip : IpAddr) : CanonicalRule := mkCanonicalRule id true (Some (ExactIp ip)) None [] Route None.

Definition sites_book : CanonicalRuleBook :=
  mkCanonicalRuleBook [narrow_rule; site_rule (u "main") (ipv4 198 51 100 8)]
    [wide_rule; site_rule (u "site") (ipv4 93 184 216 34); site_rule (u "inner") (ipv4 10 1 7 7); site_rule (u "self") (ipv4 127 0 0 1)].

Lemma neutral_plan_is_codegen_witness :
  let settings := mkSettings ExactIpFirst false in
  let support := mkSupport true true true in
  let catch_alls := tunnel_catch_all_prefixes laptop_rows 7 in
  let o := resolve_for tt sites_book snapshot_empty settings support in
  let plan := plan_routes_with PreferPrimary sites_book true snapshot_empty tt ∅ V4Only settings catch_alls branch_facts support in
  let out := out_routes (generate_routes_with PreferPrimary sites_book (Some laptop_main) laptop_tunnel snapshot_empty tt ∅ settings
                           catch_alls branch_facts support) in
  mode_destinations PreferPrimary sites_book snapshot_empty tt ∅ o = [ipv4 93 184 216 34; ipv4 10 1 7 7; ipv4 127 0 0 1]
  /\ (exists r, r ∈ out /\ destination r = ipv4 93 184 216 34 /\ interface_index r = 7)
  /\ out = List.filter (fun r => negb (kept_piece laptop_tunnel branch_facts sites_book r))
            (lower_routes plan (as_target laptop_tunnel) (Some (as_target laptop_main))).
Proof.
  cbv zeta. split; [by vm_compute|]. split.
  - exists (mkRoute (ipv4 93 184 216 34) 32 (ipv4 10 8 0 1) 7 SECONDARY_ROUTE_METRIC true MainTable).
    split; [apply (bool_decide_eq_true_1 _); by vm_compute|done].
  - apply (neutral_plan_is_codegen laptop_tunnel (Some laptop_main) V4Only).
    + intros [] t [= <-] []; by vm_compute.
    + intros pt [= <-]. by vm_compute.
    + cbv zeta. match goal with |- forall ip, ip ∈ ?l -> @?P ip => apply (proj1 (Forall_forall P l)) end.
      apply (bool_decide_eq_true_1 _). by vm_compute.
Defined.

(** A range of two addresses in the tunnel, inside the network of another tunnel. *)
Definition pair_rule : CanonicalRule :=
  mkCanonicalRule (u "pair") true (Range <$> IpRange_new (ipv4 10 8 0 5) (ipv4 10 8 0 6)) None [] Route None.

Definition pair_book : CanonicalRuleBook := mkCanonicalRuleBook [] [pair_rule].
Definition pair_facts : NetworkRouteFacts := mkFacts [] [] [] [] [mkIpBlock (ipv4 10 8 0 0) 24].

(** The neutral plan routes the range into the tunnel; the generator keeps both its
    single-address pieces direct, and drops the rule. *)
Example range_pieces_differ :
  let args := (mkSettings ExactIpFirst false, mkSupport true true true) in
  (destination <$> lower_routes (plan_routes_with PreferPrimary pair_book true snapshot_empty tt ∅ V4Only args.1 [] pair_facts args.2)
     (as_target laptop_tunnel) (Some (as_target laptop_main))) = [ipv4 10 8 0 5; ipv4 10 8 0 6]
  /\ out_routes (generate_routes_with PreferPrimary pair_book (Some laptop_main) laptop_tunnel snapshot_empty tt ∅ args.1 [] pair_facts args.2) = [].
Proof. split; by vm_compute. Qed.

(** The two screens differ on the IPv6 half of the pool of fake addresses. *)
Example screens_differ : exists ip, is_default_pool_addr ip = true /\ net_filter_non_routable ip = true /\ is_non_routable ip = false.
Proof. exists (V6 (default 0 (v6_base default_pool) + 5)). split_and!; by vm_compute. Qed.
