(* ===== verification/Netlink.v ===== *)
(** * Routes and rules on the wire

    core/platform/linux/src/route_table.rs: the rtnetlink messages that add, delete and
    dump the routes of the kernel and the rules that pick a table, as octets. A number is
    in the byte order of the machine, which is a parameter. The walks over attributes and
    messages recurse on fuel, the length of what is left, and every turn takes octets. *)

From stdpp Require Import base numbers list.
From S2P Require Import Prelude Str Digits IpAddr NetPolicy DnsWire RouteTable.

Open Scope Z_scope.

(** ** Constants *)

Definition NLMSG_HEADER_LEN : nat := 16.
Definition RTMSG_LEN : nat := 12.
Definition RTATTR_HEADER_LEN : nat := 4.
Definition NLMSG_ALIGNMENT : nat := 4.

Definition NLMSG_ERROR : Z := 2.
Definition NLMSG_DONE : Z := 3.
Definition RTM_NEWROUTE : Z := 24.
Definition RTM_GETROUTE : Z := 26.
Definition NLM_F_REQUEST : Z := 0x0001.
Definition NLM_F_ACK : Z := 0x0004.
Definition NLM_F_DUMP : Z := Z.lor 0x0100 0x0200.
Definition NLM_F_EXCL : Z := 0x0200.
Definition NLM_F_CREATE : Z := 0x0400.
Definition AF_INET_U8 : N := 2.
Definition AF_INET6_U8 : N := 10.
Definition RT_TABLE_MAIN : Z := 254.
Definition RTPROT_STATIC : N := 4.
Definition RT_SCOPE_UNIVERSE : N := 0.
Definition RTN_UNICAST : N := 1.
Definition RTA_DST : Z := 1.
Definition RTA_OIF : Z := 4.
Definition RTA_GATEWAY : Z := 5.
Definition RTA_PRIORITY : Z := 6.
Definition RTA_TABLE : Z := 15.

Definition RTM_NEWRULE : Z := 32.
Definition RTM_GETRULE : Z := 34.
Definition FIB_RULE_HDR_LEN : nat := 12.
Definition FR_ACT_TO_TBL : N := 1.
Definition FR_ACT_GOTO : N := 2.
Definition FIB_RULE_INVERT : Z := 0x2.
Definition FRA_PRIORITY : Z := 6.
Definition FRA_SUPPRESS_PREFIXLEN : Z := 14.
Definition FRA_TABLE : Z := 15.
Definition FRA_GOTO : Z := 17.
Definition FRA_UID_RANGE : Z := 20.
Definition FRA_IIFNAME : Z := 3.
Definition LOCAL_ORIGIN_IIF : list N := [108; 111; 0]%N.
Definition FRA_NARROWING : list Z := [1; 2; 3; 4; 10; 11; 12; 13; 16; 17; 19; 22; 23; 24].

Definition align (value : nat) : nat := ((value + (NLMSG_ALIGNMENT - 1)) / NLMSG_ALIGNMENT * NLMSG_ALIGNMENT)%nat.

(** [buffer.resize(align(buffer.len()), 0)]. *)
Definition padded (buffer : list N) : list N := buffer ++ replicate (align (length buffer) - length buffer) 0%N.

Section Wire.
Context (big_endian : bool).

(** [to_ne_bytes] and [from_ne_bytes] of unsigned numbers. *)
Definition ne_bytes (w : nat) (n : Z) : list N :=
  let l := fixed_digits w 256 (Z.to_N n) in if big_endian then l else reverse l.

Definition from_ne (l : list N) : Z := Z.of_N (from_be (if big_endian then l else reverse l)).

(** [i32::from_ne_bytes]. *)
Definition from_ne_i32 (l : list N) : Z := let v := from_ne l in if v <? 2 ^ 31 then v else v - 2 ^ 32.

(** ** Encoding *)

Definition table_number (t : RouteTableRef) : result Z PlatformError :=
  match t with
  | MainTable => Ok RT_TABLE_MAIN
  | Tagged n => Ok n
  | Principal _ => Err (NotSupported (u "per-principal routing tables are not assigned yet; writing this route into the main table would apply it to every user"))
  end.

Definition push_attr (buffer : list N) (attr_type : Z) (payload : list N) : list N :=
  let len := Z.of_nat (RTATTR_HEADER_LEN + length payload) in
  padded (buffer ++ ne_bytes 2 len ++ ne_bytes 2 attr_type ++ payload).

Definition nl_frame (message_type flags sequence : Z) (body : list N) : list N :=
  let total := Z.of_nat (NLMSG_HEADER_LEN + length body) in
  padded (ne_bytes 4 total ++ ne_bytes 2 message_type ++ ne_bytes 2 flags ++ ne_bytes 4 sequence ++ ne_bytes 4 0 ++ body).

(** [RouteEntry::family]. *)
Definition entry_family (e : RouteEntry) : option AddressFamily :=
  let family := family_of (destination e) in
  if is_unspecified (next_hop e) || bool_decide (family_of (next_hop e) = family) then Some family else None.

Definition octets (ip : IpAddr) : list N := match ip with V4 v => octets_v4 v | V6 v => octets_v6 v end.

(** The octets of the next hop, none when it is of the other family. *)
Definition gateway_octets (e : RouteEntry) : list N :=
  match destination e, next_hop e with V4 _, V4 g => octets_v4 g | V6 _, V6 g => octets_v6 g | _, _ => [] end.

(** [struct rtmsg]. *)
Definition route_header (e : RouteEntry) (tbl : Z) : list N :=
  [match destination e with V4 _ => AF_INET_U8 | V6 _ => AF_INET6_U8 end; Z.to_N (prefix_length e); 0%N; 0%N;
   if tbl <=? 255 then Z.to_N tbl else 0%N; RTPROT_STATIC; RT_SCOPE_UNIVERSE; RTN_UNICAST] ++ ne_bytes 4 0.

Definition route_body (e : RouteEntry) (tbl : Z) : list N :=
  let body := push_attr (route_header e tbl) RTA_DST (octets (destination e)) in
  let body := if negb (is_unspecified (next_hop e)) && negb (bool_decide (gateway_octets e = []))
              then push_attr body RTA_GATEWAY (gateway_octets e) else body in
  let body := push_attr body RTA_OIF (ne_bytes 4 (interface_index e)) in
  let body := push_attr body RTA_PRIORITY (ne_bytes 4 (metric e)) in
  if 255 <? tbl then push_attr body RTA_TABLE (ne_bytes 4 tbl) else body.

Definition encode_route_mutation (message_type : Z) (e : RouteEntry) (sequence : Z) : result (list N) PlatformError :=
  match table_number (table e) with
  | Err err => Err err
  | Ok tbl =>
      if bool_decide (entry_family e = None)
      then Err (StateCorrupted (u "route destination " ++ fmt_ip (destination e) ++ u " and next hop " ++ fmt_ip (next_hop e)
                                ++ u " are different address families"))
      else if max_prefix_length e <? prefix_length e
      then Err (StateCorrupted (u "route carries prefix length " ++ fmt_dec (Z.to_N (prefix_length e)) ++ u ", wider than /"
                                ++ fmt_dec (Z.to_N (max_prefix_length e)) ++ u " allows"))
      else
        let flags := if message_type =? RTM_NEWROUTE then Z.lor (Z.lor (Z.lor NLM_F_REQUEST NLM_F_ACK) NLM_F_CREATE) NLM_F_EXCL
                     else Z.lor NLM_F_REQUEST NLM_F_ACK in
        Ok (nl_frame message_type flags sequence (route_body e tbl))
  end.

Definition encode_route_dump (sequence : Z) : list N :=
  nl_frame RTM_GETROUTE (Z.lor NLM_F_REQUEST NLM_F_DUMP) sequence (replicate RTMSG_LEN 0%N).

(** ** Walking *)

(** The attributes at the head of [rest]: type and payload, up to the first that does not fit. *)
Fixpoint attr_loop (fuel : nat) (rest : list N) : list (Z * list N) :=
  match fuel with
  | O => []
  | S fuel =>
      if (RTATTR_HEADER_LEN <=? length rest)%nat then
        let len := Z.to_nat (from_ne (take 2 rest)) in
        let attr_type := from_ne (take 2 (drop 2 rest)) in
        if (len <? RTATTR_HEADER_LEN)%nat || (length rest <? len)%nat then []
        else (attr_type, take (len - RTATTR_HEADER_LEN) (drop RTATTR_HEADER_LEN rest)) :: attr_loop fuel (drop (align len) rest)
      else []
  end.

Definition attributes (rest : list N) : list (Z * list N) := attr_loop (length rest) rest.

(** The messages of a datagram, and how the walk ended. *)
Fixpoint walk_loop (fuel : nat) (rest : list N) : list (Z * list N) * (bool * option Z) :=
  match fuel with
  | O => ([], (false, None))
  | S fuel =>
      if (NLMSG_HEADER_LEN <=? length rest)%nat then
        let len := Z.to_nat (from_ne (take 4 rest)) in
        if (len <? NLMSG_HEADER_LEN)%nat || (length rest <? len)%nat then ([], (false, None))
        else
          let message_type := from_ne (take 2 (drop 4 rest)) in
          let body := take (len - NLMSG_HEADER_LEN) (drop NLMSG_HEADER_LEN rest) in
          if message_type =? NLMSG_DONE then ([], (true, None))
          else if message_type =? NLMSG_ERROR then
            let code := if (4 <=? length body)%nat then from_ne_i32 (take 4 body) else 0 in
            if code =? 0 then walk_loop fuel (drop (align len) rest) else ([], (false, Some code))
          else let '(messages, ending) := walk_loop fuel (drop (align len) rest) in ((message_type, body) :: messages, ending)
      else ([], (false, None))
  end.

Definition walk_datagram (datagram : list N) : list (Z * list N) * (bool * option Z) := walk_loop (length datagram) datagram.

(** ** Routes read back *)

Definition address_from_attr (payload : list N) (family : AddressFamily) : option IpAddr :=
  match family with
  | Ipv4 => if (length payload =? 4)%nat then Some (V4 (Z.of_N (from_be payload))) else None
  | Ipv6 => if (length payload =? 16)%nat then Some (V6 (Z.of_N (from_be payload))) else None
  end.

(** What a route message has told so far. *)
Record RouteRead := mkRead { rd_destination : IpAddr; rd_next_hop : IpAddr; rd_index : option Z; rd_metric : Z; rd_table : Z }.

Definition read_route_attr (family : AddressFamily) (r : RouteRead) (attr : Z * list N) : RouteRead :=
  let '(attr_type, payload) := attr in
  if attr_type =? RTA_DST then
    mkRead (default (rd_destination r) (address_from_attr payload family)) (rd_next_hop r) (rd_index r) (rd_metric r) (rd_table r)
  else if attr_type =? RTA_GATEWAY then
    mkRead (rd_destination r) (default (rd_next_hop r) (address_from_attr payload family)) (rd_index r) (rd_metric r) (rd_table r)
  else if (attr_type =? RTA_OIF) && (length payload =? 4)%nat then
    mkRead (rd_destination r) (rd_next_hop r) (Some (from_ne payload)) (rd_metric r) (rd_table r)
  else if (attr_type =? RTA_PRIORITY) && (length payload =? 4)%nat then
    mkRead (rd_destination r) (rd_next_hop r) (rd_index r) (from_ne payload) (rd_table r)
  else if (attr_type =? RTA_TABLE) && (length payload =? 4)%nat then
    mkRead (rd_destination r) (rd_next_hop r) (rd_index r) (rd_metric r) (from_ne payload)
  else r.

Definition unspecified (family : AddressFamily) : IpAddr := match family with Ipv4 => V4 0 | Ipv6 => V6 0 end.

Definition parse_route_message (body : list N) : option RouteEntry :=
  family ← match head body with
           | Some b => if (b =? AF_INET_U8)%N then Some Ipv4 else if (b =? AF_INET6_U8)%N then Some Ipv6 else None
           | None => None
           end;
  if (length body <? RTMSG_LEN)%nat then None
  else if negb (at_ body 7 =? RTN_UNICAST)%N then None
  else
    let r := fold_left (read_route_attr family) (attributes (drop RTMSG_LEN body))
               (mkRead (unspecified family) (unspecified family) None 0 (Z.of_N (at_ body 4))) in
    index ← rd_index r;
    Some (mkRoute (rd_destination r) (Z.of_N (at_ body 1)) (rd_next_hop r) index (rd_metric r) false
            (if rd_table r =? RT_TABLE_MAIN then MainTable else Tagged (rd_table r))).

Record DumpChunk := mkChunk { ch_routes : list RouteEntry; ch_done : bool; ch_error : option Z }.

Definition parse_dump_chunk (datagram : list N) : DumpChunk :=
  let '(messages, (done, error)) := walk_datagram datagram in
  mkChunk (omap (fun '(message_type, body) => if message_type =? RTM_NEWROUTE then parse_route_message body else None) messages) done error.

(** ** Rules *)

Record FibRule : Set := mkFibRule {
  fr_ipv6 : bool;
  fr_priority : Z;
  fr_table : Z;
  fr_uid_range : option (Z * Z);
  fr_suppress_prefixlen : option Z;
  fr_iif_lo : bool;
  fr_narrowed : bool;
  fr_forwarded : bool;
}.

(** [struct fib_rule_hdr]. *)
Definition rule_header (rule : FibRule) : list N :=
  [if fr_ipv6 rule then AF_INET6_U8 else AF_INET_U8; 0%N; 0%N; 0%N;
   if fr_table rule <=? 255 then Z.to_N (fr_table rule) else 0%N; 0%N; 0%N; FR_ACT_TO_TBL]
  ++ ne_bytes 4 (if fr_forwarded rule then FIB_RULE_INVERT else 0).

Definition rule_body (rule : FibRule) : list N :=
  let body := push_attr (rule_header rule) FRA_PRIORITY (ne_bytes 4 (fr_priority rule)) in
  let body := push_attr body FRA_TABLE (ne_bytes 4 (fr_table rule)) in
  let body := match fr_suppress_prefixlen rule with
              | Some length => push_attr body FRA_SUPPRESS_PREFIXLEN (ne_bytes 4 length)
              | None => body
              end in
  let body := match fr_uid_range rule with
              | Some (first, last) => push_attr body FRA_UID_RANGE (ne_bytes 4 first ++ ne_bytes 4 last)
              | None => body
              end in
  if fr_iif_lo rule || fr_forwarded rule then push_attr body FRA_IIFNAME LOCAL_ORIGIN_IIF else body.

Definition encode_rule_mutation (message_type : Z) (rule : FibRule) (sequence : Z) : list N :=
  let flags := if message_type =? RTM_NEWRULE then Z.lor (Z.lor (Z.lor NLM_F_REQUEST NLM_F_ACK) NLM_F_CREATE) NLM_F_EXCL
               else Z.lor NLM_F_REQUEST NLM_F_ACK in
  nl_frame message_type flags sequence (rule_body rule).

Definition encode_rule_dump (sequence : Z) : list N :=
  nl_frame RTM_GETRULE (Z.lor NLM_F_REQUEST NLM_F_DUMP) sequence (replicate FIB_RULE_HDR_LEN 0%N).

(** [<[u8; 4]>::try_from(p).ok().map(u32::from_ne_bytes)]. *)
Definition word (payload : list N) : option Z := if (length payload =? 4)%nat then Some (from_ne payload) else None.

(** The payload is [lo], with or without its NUL. *)
Definition is_lo (payload : list N) : bool := bool_decide (payload = [108; 111]%N) || bool_decide (payload = LOCAL_ORIGIN_IIF).

Definition read_rule_attr (r : FibRule) (attr : Z * list N) : FibRule :=
  let '(mkFibRule ipv6 priority tbl uid suppress lo narrowed forwarded) := r in
  let '(attr_type, payload) := attr in
  if attr_type =? FRA_PRIORITY then mkFibRule ipv6 (default priority (word payload)) tbl uid suppress lo narrowed forwarded
  else if attr_type =? FRA_TABLE then mkFibRule ipv6 priority (default tbl (word payload)) uid suppress lo narrowed forwarded
  else if attr_type =? FRA_SUPPRESS_PREFIXLEN then
    mkFibRule ipv6 priority tbl uid (v ← word payload; if v <=? 255 then Some v else None) lo narrowed forwarded
  else if (attr_type =? FRA_UID_RANGE) && (length payload =? 8)%nat then
    mkFibRule ipv6 priority tbl (Some (from_ne (take 4 payload), from_ne (drop 4 payload))) suppress lo narrowed forwarded
  else if (attr_type =? FRA_IIFNAME) && is_lo payload then mkFibRule ipv6 priority tbl uid suppress true narrowed forwarded
  else if bool_decide (attr_type ∈ FRA_NARROWING) then mkFibRule ipv6 priority tbl uid suppress lo true forwarded
  else r.

(** An inversion is somebody else's narrowing, unless it is [not iif lo] alone. *)
Definition settle_inversion (inverted : bool) (r : FibRule) : FibRule :=
  let '(mkFibRule ipv6 priority tbl uid suppress lo narrowed forwarded) := r in
  if inverted then
    if lo && negb narrowed && bool_decide (uid = None) then mkFibRule ipv6 priority tbl uid suppress false narrowed true
    else mkFibRule ipv6 priority tbl uid suppress lo true forwarded
  else r.

Definition body_family (body : list N) : option bool :=
  if (at_ body 0 =? AF_INET_U8)%N then Some false else if (at_ body 0 =? AF_INET6_U8)%N then Some true else None.

Definition parse_rule_message (body : list N) : option FibRule :=
  if (length body <? FIB_RULE_HDR_LEN)%nat then None
  else
    ipv6 ← body_family body;
    if negb (at_ body 7 =? FR_ACT_TO_TBL)%N then None
    else
      let flags := from_ne (take 4 (drop 8 body)) in
      let narrowed := existsb (fun b => negb (b =? 0)%N) (take 3 (drop 1 body)) in
      Some (settle_inversion (negb (Z.land flags FIB_RULE_INVERT =? 0))
              (fold_left read_rule_attr (attributes (drop FIB_RULE_HDR_LEN body))
                 (mkFibRule ipv6 0 (Z.of_N (at_ body 4)) None None false narrowed false))).

(** [with_priority]: every attribute but the priority kept, the new priority last. *)
Definition with_priority (body : list N) (priority : Z) : list N :=
  let out := take (Nat.min FIB_RULE_HDR_LEN (length body)) body in
  let out := fold_left (fun out '(attr_type, payload) => if attr_type =? FRA_PRIORITY then out else push_attr out attr_type payload)
               (attributes (drop FIB_RULE_HDR_LEN body)) out in
  push_attr out FRA_PRIORITY (ne_bytes 4 priority).

(** ** Numbers *)

Lemma ne_bytes_length w n : length (ne_bytes w n) = w.
Proof. unfold ne_bytes. destruct big_endian; rewrite ?length_reverse; apply fixed_digits_length. Qed.

Lemma from_ne_bytes w n : 0 <= n < 256 ^ Z.of_nat w -> from_ne (ne_bytes w n) = n.
Proof.
  intros Hn. assert (H : Z.of_N (from_be (fixed_digits w 256 (Z.to_N n))) = n).
  { unfold from_be. rewrite value_of_fixed, N.mod_small; [lia|]. apply N2Z.inj_lt. rewrite N2Z.inj_pow, Z2N.id, nat_N_Z by lia. exact (proj2 Hn). }
  unfold from_ne, ne_bytes. destruct big_endian; rewrite ?reverse_involutive; done.
Qed.

Lemma word_bytes n : 0 <= n < 2 ^ 32 -> word (ne_bytes 4 n) = Some n.
Proof. intros Hn. unfold word. rewrite ne_bytes_length, from_ne_bytes by done. done. Qed.

Lemma align_ge n : (n <= align n < n + 4)%nat.
Proof. unfold align, NLMSG_ALIGNMENT. change (4 - 1)%nat with 3%nat. pose proof (Nat.div_mod_eq (n + 3) 4). pose proof (Nat.mod_upper_bound (n + 3) 4). lia. Qed.

Lemma align_add n m : align n = n -> align (n + m) = (n + align m)%nat.
Proof.
  unfold align, NLMSG_ALIGNMENT. change (4 - 1)%nat with 3%nat. intros H. replace (n + m + 3)%nat with (m + 3 + (n + 3) / 4 * 4)%nat by lia.
  rewrite Nat.div_add by done. lia.
Qed.

Lemma align_idem n : align (align n) = align n.
Proof. unfold align, NLMSG_ALIGNMENT. change (4 - 1)%nat with 3%nat. set (q := ((n + 3) / 4)%nat). replace (q * 4 + 3)%nat with (3 + q * 4)%nat by lia. by rewrite Nat.div_add. Qed.

Lemma padded_length b : length (padded b) = align (length b).
Proof. unfold padded. rewrite length_app, length_replicate. pose proof (align_ge (length b)). lia. Qed.

(** ** Attributes *)

Definition attr_wf (attr : Z * list N) : Prop := 0 <= attr.1 < 2 ^ 16 /\ Z.of_nat (length attr.2) < 65532.

Definition attr_bytes (attr : Z * list N) : list N :=
  padded (ne_bytes 2 (Z.of_nat (RTATTR_HEADER_LEN + length attr.2)) ++ ne_bytes 2 attr.1 ++ attr.2).

Lemma attr_bytes_length attr : length (attr_bytes attr) = align (4 + length attr.2).
Proof. unfold attr_bytes. rewrite padded_length, !length_app, !ne_bytes_length. f_equal. Qed.

Lemma push_attr_bytes b ty payload : align (length b) = length b -> push_attr b ty payload = b ++ attr_bytes (ty, payload).
Proof.
  intros Hb. unfold push_attr, attr_bytes, padded. cbn [fst snd]. rewrite <- !app_assoc. do 4 f_equal.
  rewrite length_app, align_add by done. f_equal. lia.
Qed.

Lemma push_attr_aligned b ty payload : align (length (push_attr b ty payload)) = length (push_attr b ty payload).
Proof. unfold push_attr. by rewrite padded_length, align_idem. Qed.

(** A body is its header and its attributes. *)
Definition body_of (header : list N) (attrs : list (Z * list N)) : list N := header ++ concat (attr_bytes <$> attrs).

Lemma body_of_nil header : header = body_of header [].
Proof. symmetry. apply app_nil_r. Qed.

Lemma attrs_aligned attrs : align (length (concat (attr_bytes <$> attrs))) = length (concat (attr_bytes <$> attrs)).
Proof.
  induction attrs as [|a attrs IH]; [done|]. cbn [fmap list_fmap concat]. rewrite length_app, align_add, IH; [done|].
  by rewrite attr_bytes_length, align_idem.
Qed.

Lemma push_attr_body header attrs ty payload : align (length header) = length header ->
  push_attr (body_of header attrs) ty payload = body_of header (attrs ++ [(ty, payload)]).
Proof.
  intros Hh. unfold body_of. rewrite push_attr_bytes.
  - by rewrite fmap_app, concat_app, <- app_assoc; cbn; rewrite app_nil_r.
  - by rewrite length_app, align_add, attrs_aligned.
Qed.

Lemma attr_loop_one fuel attr rest : attr_wf attr ->
  attr_loop (S fuel) (attr_bytes attr ++ rest) = attr :: attr_loop fuel rest.
Proof.
  intros [Hty Hlen]. destruct attr as [ty payload]. cbn [fst snd] in *. set (n := (4 + length payload)%nat).
  assert (Hn : Z.to_nat (from_ne (ne_bytes 2 (Z.of_nat n))) = n) by (rewrite from_ne_bytes, Nat2Z.id; [done|]; unfold n; cbn; lia).
  assert (E : attr_bytes (ty, payload) ++ rest = ne_bytes 2 (Z.of_nat n) ++ ne_bytes 2 ty ++ payload ++ replicate (align n - n) 0%N ++ rest).
  { unfold attr_bytes, padded. cbn [fst snd]. rewrite <- !app_assoc. do 4 f_equal. rewrite !length_app, !ne_bytes_length. done. }
  cbn [attr_loop]. assert (Hal : (align n <= length (attr_bytes (ty, payload) ++ rest))%nat).
  { rewrite length_app, attr_bytes_length. cbn. unfold n. lia. }
  pose proof (align_ge n) as Hge. rewrite (proj2 (Nat.leb_le _ _)) by (unfold RTATTR_HEADER_LEN, n in *; lia).
  assert (Hdrop : drop (align n) (attr_bytes (ty, payload) ++ rest) = rest) by (rewrite drop_app_length'; [done|by rewrite attr_bytes_length]).
  assert (Htake : take 2 (attr_bytes (ty, payload) ++ rest) = ne_bytes 2 (Z.of_nat n)) by (rewrite E; apply take_app_length'; by rewrite ne_bytes_length).
  rewrite Htake, Hn.
  rewrite (proj2 (Nat.ltb_ge n RTATTR_HEADER_LEN)) by (unfold RTATTR_HEADER_LEN, n; lia). rewrite (proj2 (Nat.ltb_ge _ n)) by lia. cbn [orb].
  rewrite Hdrop. f_equal. rewrite E. f_equal.
  - rewrite drop_app_length' by (by rewrite ne_bytes_length). rewrite take_app_length' by (by rewrite ne_bytes_length). by apply from_ne_bytes.
  - unfold RTATTR_HEADER_LEN. rewrite app_assoc, drop_app_length' by (by rewrite length_app, !ne_bytes_length).
    apply take_app_length'. unfold n. lia.
Qed.

Lemma attributes_of attrs : Forall attr_wf attrs -> attributes (concat (attr_bytes <$> attrs)) = attrs.
Proof.
  intros Hwf. unfold attributes. assert (Hfuel : (length attrs <= length (concat (attr_bytes <$> attrs)))%nat).
  { induction attrs as [|a attrs IH]; [done|]. inversion_clear Hwf. cbn. rewrite length_app, attr_bytes_length. specialize (IH H0).
    pose proof (align_ge (4 + length a.2)). lia. }
  revert Hfuel. generalize (length (concat (attr_bytes <$> attrs))). induction Hwf as [|a attrs Ha _ IH]; intros fuel Hf; [by destruct fuel|].
  cbn in Hf. destruct fuel as [|fuel]; [lia|]. cbn [fmap list_fmap concat]. rewrite attr_loop_one by done. f_equal. apply IH. lia.
Qed.

Lemma walk_frame ty flags sequence body : 0 <= ty < 2 ^ 16 -> ty <> NLMSG_DONE -> ty <> NLMSG_ERROR -> Z.of_nat (length body) < 2 ^ 31 ->
  walk_datagram (nl_frame ty flags sequence body) = ([(ty, body)], (false, None)).
Proof.
  intros Hty Hd He Hlen. set (n := (16 + length body)%nat). unfold walk_datagram.
  assert (E : nl_frame ty flags sequence body = ne_bytes 4 (Z.of_nat n) ++ ne_bytes 2 ty ++ (ne_bytes 2 flags ++ ne_bytes 4 sequence ++ ne_bytes 4 0)
              ++ body ++ replicate (align n - n) 0%N).
  { unfold nl_frame, padded. rewrite <- !app_assoc. rewrite !length_app, !ne_bytes_length. done. }
  assert (Hl : length (nl_frame ty flags sequence body) = align n) by (unfold nl_frame; rewrite padded_length, !length_app, !ne_bytes_length; done).
  pose proof (align_ge n) as Hge. assert (exists fuel, align n = S fuel) as [fuel Hf] by (exists (align n - 1)%nat; unfold n in *; lia).
  rewrite Hl, Hf. cbn [walk_loop].
  rewrite (proj2 (Nat.leb_le _ _)) by (unfold NLMSG_HEADER_LEN, n in *; lia).
  assert (Ht : take 4 (nl_frame ty flags sequence body) = ne_bytes 4 (Z.of_nat n)) by (rewrite E; apply take_app_length'; by rewrite ne_bytes_length).
  rewrite Ht, from_ne_bytes, Nat2Z.id by (unfold n; cbn; lia).
  rewrite (proj2 (Nat.ltb_ge n NLMSG_HEADER_LEN)) by (unfold NLMSG_HEADER_LEN, n; lia). rewrite (proj2 (Nat.ltb_ge _ n)) by lia. cbn [orb].
  assert (Hmt : from_ne (take 2 (drop 4 (nl_frame ty flags sequence body))) = ty).
  { rewrite E, drop_app_length' by (by rewrite ne_bytes_length). rewrite take_app_length' by (by rewrite ne_bytes_length). by apply from_ne_bytes. }
  rewrite Hmt, (proj2 (Z.eqb_neq _ _) Hd), (proj2 (Z.eqb_neq _ _) He).
  assert (Hdrop : drop (align n) (nl_frame ty flags sequence body) = []) by (apply drop_ge; lia). rewrite Hdrop.
  assert (Hempty : walk_loop fuel [] = ([], (false, None))) by (by destruct fuel). rewrite Hempty. do 3 f_equal.
  rewrite E, app_assoc, app_assoc, drop_app_length' by (rewrite !length_app, !ne_bytes_length; done).
  apply take_app_length'. unfold NLMSG_HEADER_LEN, n. lia.
Qed.

(** ** Round trips *)

(** The fields have the widths of the code's types. *)
Definition route_wf (e : RouteEntry) : Prop :=
  ip_wf (destination e) /\ ip_wf (next_hop e) /\ 0 <= prefix_length e < 2 ^ 8 /\ 0 <= interface_index e < 2 ^ 32 /\ 0 <= metric e < 2 ^ 32
  /\ match table e with Tagged n => 0 <= n < 2 ^ 32 | _ => True end.

(** A route as the dump shows it: without our mark, an unspecified next hop in the
    family of the destination, the main table under its name. *)
Definition as_dumped (e : RouteEntry) : RouteEntry :=
  mkRoute (destination e) (prefix_length e) (if is_unspecified (next_hop e) then unspecified (family_of (destination e)) else next_hop e)
    (interface_index e) (metric e) false (match table e with Tagged n => if n =? RT_TABLE_MAIN then MainTable else Tagged n | t => t end).

Lemma octets_read_back ip : ip_wf ip -> address_from_attr (octets ip) (family_of ip) = Some ip.
Proof.
  intros Hw. unfold address_from_attr, octets, octets_v4, octets_v6. destruct ip as [v|v]; cbn [family_of]; rewrite fixed_digits_length; cbn [Nat.eqb];
    unfold from_be; rewrite value_of_fixed, N.mod_small; try (do 2 f_equal; unfold ip_wf in Hw; lia);
    apply N2Z.inj_lt; rewrite N2Z.inj_pow, Z2N.id; unfold ip_wf in Hw; cbn in *; lia.
Qed.

Definition route_attrs (e : RouteEntry) (tbl : Z) : list (Z * list N) :=
  [(RTA_DST, octets (destination e))]
  ++ (if negb (is_unspecified (next_hop e)) && negb (bool_decide (gateway_octets e = [])) then [(RTA_GATEWAY, gateway_octets e)] else [])
  ++ [(RTA_OIF, ne_bytes 4 (interface_index e)); (RTA_PRIORITY, ne_bytes 4 (metric e))]
  ++ (if 255 <? tbl then [(RTA_TABLE, ne_bytes 4 tbl)] else []).

Lemma route_body_attrs e tbl : route_body e tbl = body_of (route_header e tbl) (route_attrs e tbl).
Proof.
  assert (Hh : align (length (route_header e tbl)) = length (route_header e tbl)) by (unfold route_header; rewrite length_app, ne_bytes_length; done).
  unfold route_body, route_attrs. cbv zeta.
  destruct (negb _ && _), (255 <? tbl); rewrite (body_of_nil (route_header e tbl)) at 1; rewrite !push_attr_body by done; done.
Qed.

Lemma bytes_attr_wf ty w n : 0 <= ty < 2 ^ 16 -> (w <= 16)%nat -> attr_wf (ty, ne_bytes w n).
Proof. intros Hty Hw. split; [done|]. cbn [snd]. rewrite ne_bytes_length. lia. Qed.

Lemma octets_length ip : (length (octets ip) <= 16)%nat.
Proof. destruct ip; cbn [octets]; unfold octets_v4, octets_v6; rewrite fixed_digits_length; lia. Qed.

Lemma octets_wf ip : Z.of_nat (length (octets ip)) < 65532.
Proof. pose proof (octets_length ip). lia. Qed.

Lemma ne_bytes_short n : (length (ne_bytes 4 n) <= 16)%nat.
Proof. rewrite ne_bytes_length. lia. Qed.

Lemma body_short header attrs n : length header = 12%nat -> (n <= 10)%nat -> Forall (fun a => (length a.2 <= 16)%nat) attrs -> (length attrs <= n)%nat ->
  Z.of_nat (length (body_of header attrs)) < 2 ^ 31.
Proof.
  intros Hh Hn Hall Hlen. assert (Hb : (length (concat (attr_bytes <$> attrs)) <= 23 * length attrs)%nat).
  { clear Hlen. induction Hall as [|a attrs Ha _ IH]; [done|]. cbn [fmap list_fmap concat length]. rewrite length_app, attr_bytes_length.
    pose proof (align_ge (4 + length a.2)). lia. }
  unfold body_of. rewrite length_app, Hh. lia.
Qed.

(** The next hop goes out only when there is one, and then in the family of the route. *)
Lemma gateway_sent e : entry_family e <> None ->
  negb (is_unspecified (next_hop e)) && negb (bool_decide (gateway_octets e = [])) = negb (is_unspecified (next_hop e))
  /\ (is_unspecified (next_hop e) = false -> gateway_octets e = octets (next_hop e) /\ family_of (next_hop e) = family_of (destination e)).
Proof.
  intros Hf. unfold entry_family in Hf. destruct (is_unspecified (next_hop e)) eqn:Eu; [done|]. cbn [negb andb orb] in *.
  case_bool_decide as Hfam; [|done]. assert (Hg : gateway_octets e = octets (next_hop e)).
  { unfold gateway_octets. by destruct (destination e), (next_hop e). }
  rewrite Hg. split; [|done]. rewrite bool_decide_eq_false_2; [done|]. intros E%(f_equal length). destruct (next_hop e); cbn [octets] in E;
    unfold octets_v4, octets_v6 in E; by rewrite fixed_digits_length in E.
Qed.

Lemma route_attrs_wf e tbl : entry_family e <> None -> Forall attr_wf (route_attrs e tbl).
Proof.
  intros Hf. unfold route_attrs. destruct (gateway_sent e Hf) as [-> Hg].
  repeat (apply Forall_app; split).
  - constructor; [|done]. split; [done|apply octets_wf].
  - destruct (is_unspecified (next_hop e)); [done|]. cbn. constructor; [|done]. rewrite (proj1 (Hg eq_refl)). split; [done|apply octets_wf].
  - repeat constructor; try done; cbn [snd]; rewrite ne_bytes_length; lia.
  - case_match; [|done]. repeat constructor; try done. cbn [snd]. rewrite ne_bytes_length. lia.
Qed.

Lemma read_route_attrs e tbl r : entry_family e <> None -> route_wf e -> 0 <= tbl < 2 ^ 32 ->
  fold_left (read_route_attr (family_of (destination e))) (route_attrs e tbl) r
  = mkRead (destination e) (if is_unspecified (next_hop e) then rd_next_hop r else next_hop e) (Some (interface_index e)) (metric e)
      (if 255 <? tbl then tbl else rd_table r).
Proof.
  intros Hf (Hd & Hn & _ & Hi & Hm & _) Ht. unfold route_attrs. destruct (gateway_sent e Hf) as [-> Hg]. rewrite !fold_left_app.
  cbn [fold_left read_route_attr]. rewrite octets_read_back by done. cbn [default rd_next_hop rd_index rd_metric rd_table].
  assert (Hgw : fold_left (read_route_attr (family_of (destination e)))
     (if negb (is_unspecified (next_hop e)) then [(RTA_GATEWAY, gateway_octets e)] else []) (mkRead (destination e) (rd_next_hop r) (rd_index r) (rd_metric r) (rd_table r))
     = mkRead (destination e) (if is_unspecified (next_hop e) then rd_next_hop r else next_hop e) (rd_index r) (rd_metric r) (rd_table r)).
  { destruct (is_unspecified (next_hop e)); [done|]. destruct (Hg eq_refl) as [-> Hfam]. cbn [negb fold_left read_route_attr].
    rewrite <- Hfam, octets_read_back by done. done. }
  cbn [Z.eqb RTA_DST]. cbn in Hgw |- *. rewrite Hgw. cbn. rewrite !ne_bytes_length. cbn. rewrite !from_ne_bytes by (cbn; lia).
  destruct (255 <? tbl); [|done]. cbn. rewrite ne_bytes_length. cbn. by rewrite from_ne_bytes by (cbn; lia).
Qed.

Lemma parse_route_body e tbl : entry_family e <> None -> route_wf e -> 0 <= tbl < 2 ^ 32 ->
  parse_route_message (route_body e tbl)
  = Some (mkRoute (destination e) (prefix_length e) (if is_unspecified (next_hop e) then unspecified (family_of (destination e)) else next_hop e)
            (interface_index e) (metric e) false (if tbl =? RT_TABLE_MAIN then MainTable else Tagged tbl)).
Proof.
  intros Hf Hw Ht. rewrite route_body_attrs. unfold parse_route_message, body_of.
  assert (Hlen : length (route_header e tbl) = 12%nat) by (unfold route_header; rewrite length_app, ne_bytes_length; done).
  assert (Hdrop : drop RTMSG_LEN (route_header e tbl ++ concat (attr_bytes <$> route_attrs e tbl)) = concat (attr_bytes <$> route_attrs e tbl)).
  { apply drop_app_length'. by rewrite Hlen. }
  rewrite Hdrop, attributes_of by (by apply route_attrs_wf).
  assert (Hhead : head (route_header e tbl ++ concat (attr_bytes <$> route_attrs e tbl)) = Some (match destination e with V4 _ => AF_INET_U8 | V6 _ => AF_INET6_U8 end)) by done.
  rewrite Hhead. replace (if (_ =? AF_INET_U8)%N then _ else _) with (Some (family_of (destination e))) by (by destruct (destination e)). cbn [mbind option_bind].
  rewrite (proj2 (Nat.ltb_ge _ _)) by (rewrite length_app, Hlen; unfold RTMSG_LEN; lia).
  change (at_ (route_header e tbl ++ _) 7) with RTN_UNICAST. change (at_ (route_header e tbl ++ _) 1) with (Z.to_N (prefix_length e)).
  change (at_ (route_header e tbl ++ _) 4) with (if tbl <=? 255 then Z.to_N tbl else 0%N). cbn [N.eqb negb].
  rewrite (read_route_attrs e tbl) by done. cbn [negb rd_index mbind option_bind rd_destination rd_next_hop rd_metric rd_table].
  assert (Htbl : (if 255 <? tbl then tbl else Z.of_N (if tbl <=? 255 then Z.to_N tbl else 0)) = tbl).
  { destruct (Z.ltb_spec 255 tbl); [done|]. rewrite (proj2 (Z.leb_le _ _)) by lia. lia. }
  rewrite Htbl. destruct Hw as (_ & _ & Hp & _). by rewrite Z2N.id by lia.
Qed.

(** C25. A route written to the kernel reads back: the datagram that adds a route, walked as a
    dump, holds that one route, with its destination, length, next hop, interface,
    metric and table, whatever the byte order. A route is refused exactly when its next
    hop is of another family, its prefix is too long, or its table has no number. *)
Theorem route_wire_roundtrip e sequence : route_wf e ->
  let refused := entry_family e = None \/ max_prefix_length e < prefix_length e \/ exists p, table e = Principal p in
  match encode_route_mutation RTM_NEWROUTE e sequence with
  | Ok bytes => parse_dump_chunk bytes = mkChunk [as_dumped e] false None /\ ~ refused
  | Err _ => refused
  end.
Proof.
  intros Hw. cbv zeta. unfold encode_route_mutation. destruct (table_number (table e)) as [tbl|err] eqn:Et.
  2: { destruct (table e); try done. eauto. }
  case_bool_decide as Hf; [by left|]. destruct (Z.ltb_spec (max_prefix_length e) (prefix_length e)); [by right; left|].
  split; [|intros [?|[?|[p Ep]]]; [done|lia|by rewrite Ep in Et]].
  assert (Ht : 0 <= tbl < 2 ^ 32).
  { destruct Hw as (_ & _ & _ & _ & _ & Hw). destruct (table e); cbn in Et; simplify_eq; done. }
  unfold parse_dump_chunk. rewrite walk_frame; [|done..|].
  - cbn [omap list_omap]. change (RTM_NEWROUTE =? RTM_NEWROUTE) with true. cbv iota. rewrite parse_route_body by done.
    unfold as_dumped. do 3 f_equal. destruct (table e); cbn in Et; simplify_eq; done.
  - rewrite route_body_attrs. apply body_short with (n := 5%nat); [|lia|..].
    + unfold route_header. by rewrite length_app, ne_bytes_length.
    + apply Forall_forall. intros [ty p] Hin. cbn [snd]. unfold route_attrs in Hin. destruct (gateway_sent e Hf) as [E Hg]. rewrite E in Hin.
      destruct (is_unspecified (next_hop e)); cbn [negb] in Hin; [|rewrite (proj1 (Hg eq_refl)) in Hin]; destruct (255 <? tbl);
        cbn [app] in Hin; rewrite ?elem_of_cons, elem_of_nil in Hin; naive_solver eauto using octets_length, ne_bytes_short.
    + unfold route_attrs. repeat case_match; cbn; lia.
Qed.

(** ** Rules read back *)

Definition rule_attrs (rule : FibRule) : list (Z * list N) :=
  [(FRA_PRIORITY, ne_bytes 4 (fr_priority rule)); (FRA_TABLE, ne_bytes 4 (fr_table rule))]
  ++ match fr_suppress_prefixlen rule with Some length => [(FRA_SUPPRESS_PREFIXLEN, ne_bytes 4 length)] | None => [] end
  ++ match fr_uid_range rule with Some (first, last) => [(FRA_UID_RANGE, ne_bytes 4 first ++ ne_bytes 4 last)] | None => [] end
  ++ (if fr_iif_lo rule || fr_forwarded rule then [(FRA_IIFNAME, LOCAL_ORIGIN_IIF)] else []).

Lemma rule_body_attrs rule : rule_body rule = body_of (rule_header rule) (rule_attrs rule).
Proof.
  assert (Hh : align (length (rule_header rule)) = length (rule_header rule)) by (unfold rule_header; rewrite length_app, ne_bytes_length; done).
  unfold rule_body, rule_attrs. cbv zeta. destruct (fr_suppress_prefixlen rule), (fr_uid_range rule) as [[]|], (fr_iif_lo rule || fr_forwarded rule);
    rewrite (body_of_nil (rule_header rule)) at 1; rewrite !push_attr_body by done; done.
Qed.

Lemma rule_attrs_short rule : Forall (fun a => (length a.2 <= 16)%nat /\ 0 <= a.1 < 2 ^ 16) (rule_attrs rule) /\ (length (rule_attrs rule) <= 5)%nat.
Proof.
  unfold rule_attrs. destruct (fr_suppress_prefixlen rule), (fr_uid_range rule) as [[]|], (fr_iif_lo rule || fr_forwarded rule); cbn [app length];
    (split; [|lia]); repeat (constructor; [split; [cbn [snd]; rewrite ?length_app, ?ne_bytes_length; cbn; lia|done]|]); constructor.
Qed.

Lemma rule_attrs_wf rule : Forall attr_wf (rule_attrs rule).
Proof. eapply Forall_impl; [apply rule_attrs_short|]. intros a [? ?]. split; [done|]. lia. Qed.

(** What a rule of ours is: its fields have their widths, and it matches on a user, on the
    traffic of the machine itself, or on what the machine forwards. *)
Definition fib_rule_wf (rule : FibRule) : Prop :=
  0 <= fr_priority rule < 2 ^ 32 /\ 0 <= fr_table rule < 2 ^ 32 /\ fr_narrowed rule = false
  /\ (forall first last, fr_uid_range rule = Some (first, last) -> 0 <= first < 2 ^ 32 /\ 0 <= last < 2 ^ 32)
  /\ (forall p, fr_suppress_prefixlen rule = Some p -> 0 <= p < 2 ^ 8)
  /\ (fr_forwarded rule = true -> fr_iif_lo rule = false /\ fr_uid_range rule = None).

Lemma read_rule_attrs rule tbl : fib_rule_wf rule ->
  fold_left read_rule_attr (rule_attrs rule) (mkFibRule (fr_ipv6 rule) 0 tbl None None false false false)
  = mkFibRule (fr_ipv6 rule) (fr_priority rule) (fr_table rule) (fr_uid_range rule) (fr_suppress_prefixlen rule)
      (fr_iif_lo rule || fr_forwarded rule) false false.
Proof.
  intros (Hp & Ht & _ & Hu & Hs & _). unfold rule_attrs. rewrite !fold_left_app.
  assert (E0 : fold_left read_rule_attr [(FRA_PRIORITY, ne_bytes 4 (fr_priority rule)); (FRA_TABLE, ne_bytes 4 (fr_table rule))]
    (mkFibRule (fr_ipv6 rule) 0 tbl None None false false false)
    = mkFibRule (fr_ipv6 rule) (fr_priority rule) (fr_table rule) None None false false false) by (cbn; by rewrite !word_bytes).
  assert (E1 : fold_left read_rule_attr (match fr_suppress_prefixlen rule with Some length => [(FRA_SUPPRESS_PREFIXLEN, ne_bytes 4 length)] | None => [] end)
    (mkFibRule (fr_ipv6 rule) (fr_priority rule) (fr_table rule) None None false false false)
    = mkFibRule (fr_ipv6 rule) (fr_priority rule) (fr_table rule) None (fr_suppress_prefixlen rule) false false false).
  { destruct (fr_suppress_prefixlen rule) as [n|]; [|done]. cbn. rewrite word_bytes by (specialize (Hs n eq_refl); lia). cbn.
    by rewrite (proj2 (Z.leb_le _ _)) by (specialize (Hs n eq_refl); lia). }
  assert (E2 : fold_left read_rule_attr (match fr_uid_range rule with Some (first, last) => [(FRA_UID_RANGE, ne_bytes 4 first ++ ne_bytes 4 last)] | None => [] end)
    (mkFibRule (fr_ipv6 rule) (fr_priority rule) (fr_table rule) None (fr_suppress_prefixlen rule) false false false)
    = mkFibRule (fr_ipv6 rule) (fr_priority rule) (fr_table rule) (fr_uid_range rule) (fr_suppress_prefixlen rule) false false false).
  { destruct (fr_uid_range rule) as [[first last]|]; [|done]. destruct (Hu first last eq_refl). cbn [fold_left read_rule_attr]. cbn [Z.eqb FRA_UID_RANGE Pos.eqb FRA_PRIORITY FRA_TABLE FRA_SUPPRESS_PREFIXLEN].
    rewrite length_app, !ne_bytes_length. cbn [Nat.eqb Nat.add andb].
    rewrite take_app_length', drop_app_length' by (by rewrite ne_bytes_length). by rewrite !from_ne_bytes by done. }
  rewrite E0, E1, E2. by destruct (fr_iif_lo rule || fr_forwarded rule).
Qed.

Lemma parse_rule_body rule : fib_rule_wf rule -> parse_rule_message (rule_body rule) = Some rule.
Proof.
  intros Hw. rewrite rule_body_attrs. unfold parse_rule_message, body_of.
  assert (Hlen : length (rule_header rule) = 12%nat) by (unfold rule_header; rewrite length_app, ne_bytes_length; done).
  assert (Hdrop : drop FIB_RULE_HDR_LEN (rule_header rule ++ concat (attr_bytes <$> rule_attrs rule)) = concat (attr_bytes <$> rule_attrs rule)).
  { apply drop_app_length'. by rewrite Hlen. }
  rewrite Hdrop, attributes_of by apply rule_attrs_wf. rewrite (proj2 (Nat.ltb_ge _ _)) by (rewrite length_app, Hlen; unfold FIB_RULE_HDR_LEN; lia).
  assert (Hfam : body_family (rule_header rule ++ concat (attr_bytes <$> rule_attrs rule)) = Some (fr_ipv6 rule)) by (unfold body_family, at_, rule_header; cbn; by destruct (fr_ipv6 rule)).
  rewrite Hfam. cbn [mbind option_bind]. change (at_ (rule_header rule ++ _) 7) with FR_ACT_TO_TBL. cbn [N.eqb negb Pos.eqb FR_ACT_TO_TBL].
  change (take 3 (drop 1 (rule_header rule ++ _))) with [0%N; 0%N; 0%N]. cbn [existsb N.eqb negb orb].
  rewrite read_rule_attrs by done.
  assert (Hflags : from_ne (take 4 (drop 8 (rule_header rule ++ concat (attr_bytes <$> rule_attrs rule)))) = if fr_forwarded rule then FIB_RULE_INVERT else 0).
  { change (drop 8 (rule_header rule ++ concat (attr_bytes <$> rule_attrs rule)))
      with (ne_bytes 4 (if fr_forwarded rule then FIB_RULE_INVERT else 0) ++ concat (attr_bytes <$> rule_attrs rule)).
    rewrite take_app_length' by (by rewrite ne_bytes_length). rewrite from_ne_bytes; [done|]. by destruct (fr_forwarded rule). }
  rewrite Hflags. destruct Hw as (_ & _ & Hn & _ & _ & Hf). f_equal. destruct rule as [v6 pr tb uid su lo na fo]. cbn in *. subst na.
  destruct fo; [|by rewrite orb_false_r]. destruct (Hf eq_refl) as [-> ->]. done.
Qed.

Lemma rule_body_short rule : Z.of_nat (length (rule_body rule)) < 2 ^ 31.
Proof.
  rewrite rule_body_attrs. destruct (rule_attrs_short rule) as [Hs Hl]. apply body_short with (n := 5%nat); [|lia| |done].
  - unfold rule_header. by rewrite length_app, ne_bytes_length.
  - eapply Forall_impl; [exact Hs|]. by intros a [? _].
Qed.

(** C26. A rule written to the kernel reads back as itself: the datagram that adds a rule
    of ours holds one message, whose body is parsed as that rule. So a pass that compares
    the rules it wants with those installed finds its own. *)
Theorem rule_wire_roundtrip rule sequence : fib_rule_wf rule ->
  exists body, walk_datagram (encode_rule_mutation RTM_NEWRULE rule sequence) = ([(RTM_NEWRULE, body)], (false, None))
  /\ parse_rule_message body = Some rule.
Proof.
  intros Hw. exists (rule_body rule). split; [|by apply parse_rule_body]. unfold encode_rule_mutation. apply walk_frame; [done..|]. apply rule_body_short.
Qed.

(** ** A rule at another priority *)

Definition set_priority (p : Z) (r : FibRule) : FibRule :=
  mkFibRule (fr_ipv6 r) p (fr_table r) (fr_uid_range r) (fr_suppress_prefixlen r) (fr_iif_lo r) (fr_narrowed r) (fr_forwarded r).

Lemma read_set_priority p r attr : attr.1 <> FRA_PRIORITY -> read_rule_attr (set_priority p r) attr = set_priority p (read_rule_attr r attr).
Proof.
  destruct r, attr as [ty payload]. cbn [fst]. intros Hne. unfold read_rule_attr, set_priority. cbn.
  rewrite (proj2 (Z.eqb_neq _ _) Hne). by repeat case_match.
Qed.

Lemma read_priority p r payload : set_priority p (read_rule_attr r (FRA_PRIORITY, payload)) = set_priority p r.
Proof. by destruct r. Qed.

Lemma read_moved p attrs : 0 <= p < 2 ^ 32 -> forall r,
  fold_left read_rule_attr (List.filter (fun a => negb (a.1 =? FRA_PRIORITY)) attrs ++ [(FRA_PRIORITY, ne_bytes 4 p)]) r
  = set_priority p (fold_left read_rule_attr attrs r).
Proof.
  intros Hp. enough (H : forall r r', set_priority p r = set_priority p r' ->
    set_priority p (fold_left read_rule_attr (List.filter (fun a => negb (a.1 =? FRA_PRIORITY)) attrs) r) = set_priority p (fold_left read_rule_attr attrs r')).
  { intros r. rewrite fold_left_app, <- (H r r eq_refl). cbn [fold_left]. set (r' := fold_left _ _ r). destruct r'. cbn. by rewrite word_bytes. }
  induction attrs as [|[ty payload] attrs IH]; intros r r' E; [done|]. cbn [List.filter fst fold_left].
  destruct (Z.eqb_spec ty FRA_PRIORITY) as [->|Hne]; cbn [negb fold_left]; apply IH; [by rewrite read_priority|].
  by rewrite <- !read_set_priority, E.
Qed.

Lemma octet_list_value l : Forall (fun b => (b < 256)%N) l -> 0 <= from_ne l < 256 ^ Z.of_nat (length l).
Proof.
  intros Hl. assert (H : forall k, Forall (fun b => (b < 256)%N) k -> (from_be k < 256 ^ N.of_nat (length k))%N).
  { induction k as [|b k IH] using rev_ind; intros Hk; [done|]. apply Forall_app in Hk as [Hk Hb]. unfold from_be in *. rewrite value_of_snoc, length_app. cbn [length].
    specialize (IH Hk). apply (proj1 (Forall_singleton _ _)) in Hb. cbn beta in Hb. rewrite Nat.add_1_r, Nat2N.inj_succ, N.pow_succ_r'. lia. }
  unfold from_ne. assert (Hr : forall k, Forall (fun b => (b < 256)%N) k -> Z.of_N (from_be k) < 256 ^ Z.of_nat (length k)).
  { intros k Hk%H. apply N2Z.inj_lt in Hk. by rewrite N2Z.inj_pow, nat_N_Z in Hk. }
  destruct big_endian; [specialize (Hr l Hl)|specialize (Hr (reverse l)); rewrite length_reverse in Hr; specialize (Hr (proj2 (Forall_reverse _ _) Hl))]; lia.
Qed.

Lemma attr_loop_wf fuel : forall rest, Forall (fun b => (b < 256)%N) rest -> Forall attr_wf (attr_loop fuel rest).
Proof.
  induction fuel as [|fuel IH]; intros rest Hr; [constructor|]. cbn [attr_loop]. destruct (RTATTR_HEADER_LEN <=? length rest)%nat eqn:E; [|constructor].
  apply Nat.leb_le in E. unfold RTATTR_HEADER_LEN in E. destruct (_ || _); constructor; [|apply IH; by apply Forall_drop]. split; cbn [fst snd].
  - assert (H2 : length (take 2 (drop 2 rest)) = 2%nat) by (rewrite length_take, length_drop; lia).
    pose proof (octet_list_value (take 2 (drop 2 rest)) (Forall_take _ _ _ (Forall_drop _ _ _ Hr))) as Hv. rewrite H2 in Hv. exact Hv.
  - rewrite length_take. assert (H2 : length (take 2 rest) = 2%nat) by (rewrite length_take; lia).
    pose proof (octet_list_value (take 2 rest) (Forall_take _ _ _ Hr)) as Hv. rewrite H2 in Hv. cbn in Hv. unfold RTATTR_HEADER_LEN. lia.
Qed.

Lemma with_priority_attrs body p : (FIB_RULE_HDR_LEN <= length body)%nat ->
  with_priority body p = body_of (take 12 body)
    (List.filter (fun a => negb (a.1 =? FRA_PRIORITY)) (attributes (drop 12 body)) ++ [(FRA_PRIORITY, ne_bytes 4 p)]).
Proof.
  intros Hlen. unfold with_priority, FIB_RULE_HDR_LEN in *. rewrite Nat.min_l by done.
  assert (Hh : align (length (take 12 body)) = length (take 12 body)) by (by rewrite length_take, Nat.min_l).
  enough (H : forall attrs acc, fold_left (fun out '(attr_type, payload) => if attr_type =? FRA_PRIORITY then out else push_attr out attr_type payload) attrs
      (body_of (take 12 body) acc) = body_of (take 12 body) (acc ++ List.filter (fun a => negb (a.1 =? FRA_PRIORITY)) attrs)).
  { rewrite (body_of_nil (take 12 body)) at 1. rewrite H, push_attr_body by done. done. }
  induction attrs as [|[ty payload] attrs IH]; intros acc; cbn [fold_left List.filter fst]; [by rewrite app_nil_r|].
  destruct (ty =? FRA_PRIORITY); cbn [negb]; [apply IH|]. by rewrite push_attr_body, IH, <- app_assoc by done.
Qed.

(** Moving somebody else's rule changes its priority and nothing else: whatever attributes
    its body carries, known or not, the copy at the new priority is read as the same
    rule there. *)
Lemma parse_with_priority body p : Forall (fun b => (b < 256)%N) body -> (FIB_RULE_HDR_LEN <= length body)%nat -> 0 <= p < 2 ^ 32 ->
  parse_rule_message (with_priority body p) = set_priority p <$> parse_rule_message body.
Proof.
  intros Hb Hlen Hp. rewrite with_priority_attrs by done. unfold FIB_RULE_HDR_LEN in Hlen.
  set (attrs := attributes (drop 12 body)). set (kept := List.filter _ attrs ++ _).
  assert (Hwf : Forall attr_wf kept).
  { apply Forall_app. split; [|constructor; [by apply bytes_attr_wf; [done|lia]|constructor]].
    apply Forall_forall. intros a [Ha _]%filter_elem. apply (proj1 (Forall_forall _ _) (attr_loop_wf _ _ (Forall_drop _ 12 _ Hb)) _ Ha). }
  destruct body as [|b0 [|b1 [|b2 [|b3 [|b4 [|b5 [|b6 [|b7 [|b8 [|b9 [|b10 [|b11 rest]]]]]]]]]]]]; cbn [length] in Hlen; try lia.
  unfold parse_rule_message, body_of. rewrite !(proj2 (Nat.ltb_ge _ _)) by (unfold FIB_RULE_HDR_LEN; cbn; lia).
  change (take 12 _) with [b0; b1; b2; b3; b4; b5; b6; b7; b8; b9; b10; b11]. cbn [app].
  change (drop FIB_RULE_HDR_LEN (b0 :: b1 :: b2 :: b3 :: b4 :: b5 :: b6 :: b7 :: b8 :: b9 :: b10 :: b11 :: ?l)) with l.
  rewrite attributes_of by done. fold attrs. unfold kept.
  change (body_family (b0 :: ?l)) with (body_family [b0]). destruct (body_family [b0]) as [v6|]; [|done]. cbn [mbind option_bind].
  change (at_ (b0 :: b1 :: b2 :: b3 :: b4 :: b5 :: b6 :: b7 :: ?l) 7) with b7. destruct (negb (b7 =? FR_ACT_TO_TBL)%N); [done|].
  rewrite read_moved by done. cbn [fmap option_fmap option_map]. f_equal.
  change (at_ (b0 :: b1 :: b2 :: b3 :: b4 :: ?l) 4) with b4. change (take 3 (drop 1 (b0 :: b1 :: b2 :: b3 :: ?l))) with [b1; b2; b3].
  change (take 4 (drop 8 (b0 :: b1 :: b2 :: b3 :: b4 :: b5 :: b6 :: b7 :: b8 :: b9 :: b10 :: b11 :: ?l))) with [b8; b9; b10; b11].
  set (r := fold_left _ _ _). destruct r. unfold settle_inversion, set_priority. cbn [fr_ipv6 fr_table fr_uid_range fr_suppress_prefixlen fr_iif_lo fr_narrowed fr_forwarded].
  by repeat case_match.
Qed.

End Wire.

(** ** On the wire of a little-endian machine *)

Definition wire_route : RouteEntry := mkRoute (ipv4 203 0 113 7) 32 (ipv4 10 8 0 1) 7 5 true (Tagged 0x800003E8).

Lemma route_wire_roundtrip_witness :
  route_wf wire_route /\ exists bytes, encode_route_mutation false RTM_NEWROUTE wire_route 1 = Ok bytes
  /\ parse_dump_chunk false bytes = mkChunk [mkRoute (ipv4 203 0 113 7) 32 (ipv4 10 8 0 1) 7 5 false (Tagged 0x800003E8)] false None.
Proof.
  assert (Hw : route_wf wire_route) by (repeat split; by vm_compute). split; [done|].
  pose proof (route_wire_roundtrip false wire_route 1 Hw) as H. destruct (encode_route_mutation _ _ _ _) as [bytes|] eqn:E; [|by vm_compute in E].
  exists bytes. split; [done|]. by rewrite (proj1 H).
Defined.

Definition wire_rule : FibRule := mkFibRule false 30100 0x800003E8 (Some (1000, 1000)) (Some 13) true false false.

Lemma wire_rule_wf : fib_rule_wf wire_rule.
Proof.
  unfold fib_rule_wf, wire_rule. cbn. split_and!; try lia; try done; [intros ? ? [= <- <-]; lia|intros ? [= <-]; lia].
Qed.

Lemma rule_wire_roundtrip_witness :
  exists body, walk_datagram false (encode_rule_mutation false RTM_NEWRULE wire_rule 9) = ([(RTM_NEWRULE, body)], (false, None))
  /\ parse_rule_message false body = Some wire_rule.
Proof. exact (rule_wire_roundtrip false wire_rule 9 wire_rule_wf). Defined.

