(* ===== verification/LinuxTable.v ===== *)
(** * A route table as the Linux kernel keeps it

    A table to run on for which the laws of any table hold and those of a table that knows
    its rows by key do not: rows are told apart by metric, by who wrote them and by
    whether they go over several links, a delete matches only what its request carries
    (core/platform/linux/src/route_table.rs writes the request), and one row of a
    destination and metric keeps out another through whichever gateway. *)

From stdpp Require Import base numbers list countable sets.
From S2P Require Import Prelude Str IpAddr IpBlock NetPolicy RouteTable Netlink.

Open Scope Z_scope.

Definition RTM_DELROUTE : Z := 25.

(** A row: the route, whether a program wrote it ([RTPROT_STATIC]), and whether it goes
    over one link; a dump of a row over several carries no link, so no entry is read. *)
Record KernelRow : Set := mkKernelRow { kr_route : RouteEntry; kr_static : bool; kr_single : bool }.

#[export] Instance KernelRow_eq_dec : EqDecision KernelRow.
Proof. solve_decision. Defined.

Abbreviation KernelTable := (list KernelRow).

Definition table_name (t : RouteTableRef) : RouteTableRef := match t with Tagged n => if n =? RT_TABLE_MAIN then MainTable else Tagged n | t => t end.

Definition hop_name (destination hop : IpAddr) : IpAddr := if is_unspecified hop then unspecified (family_of destination) else hop.

Definition same_place (e : RouteEntry) (y : KernelRow) : bool :=
  bool_decide (destination (kr_route y) = destination e) && (prefix_length (kr_route y) =? prefix_length e)
  && bool_decide (table_name (table (kr_route y)) = table_name (table e)).

(** What a delete of [e] matches. *)
Definition kernel_matches (e : RouteEntry) (y : KernelRow) : bool :=
  same_place e y && kr_static y && ((metric e =? 0) || (metric (kr_route y) =? metric e)) && (interface_index (kr_route y) =? interface_index e)
  && (is_unspecified (next_hop e) || bool_decide (next_hop (kr_route y) = next_hop e)).

(** What an exclusive add of [e] is refused over. *)
Definition kernel_clashes (e : RouteEntry) (y : KernelRow) : bool := same_place e y && (metric (kr_route y) =? metric e).

(** The request is written before it is sent; one that cannot be written changes nothing. *)
#[export] Instance kernel_table_port : RouteTablePort KernelTable := {
  get_ip_forward_table k := Ok (omap (fun y => if kr_single y then Some (as_dumped (kr_route y)) else None) k);
  create_ip_forward_entry k e :=
    match encode_route_mutation false RTM_NEWROUTE e 1 with
    | Err er => (k, Err er)
    | Ok _ => if existsb (kernel_clashes e) k then (k, Err (Errno [] EEXIST [])) else (k ++ [mkKernelRow (as_dumped e) true true], Ok tt)
    end;
  delete_ip_forward_entry k e :=
    match encode_route_mutation false RTM_DELROUTE e 1 with
    | Err er => (k, Err er)
    | Ok _ => match List.find (kernel_matches e) k with
              | Some y => (List.filter (fun x => negb (bool_decide (x = y))) k, Ok tt)
              | None => (k, Err (Errno [] ESRCH []))
              end
    end;
}.

Lemma table_name_again t : table_name (table_name t) = table_name t.
Proof. destruct t as [| |n]; [done..|]. cbn. destruct (n =? RT_TABLE_MAIN) eqn:E; cbn; [done|]. by rewrite E. Qed.

Lemma hop_name_again d h : hop_name d (hop_name d h) = hop_name d h.
Proof. unfold hop_name. destruct (is_unspecified h) eqn:E; [|by rewrite E]. by destruct (is_unspecified (unspecified (family_of d))). Qed.

Lemma as_dumped_name e : as_dumped e = mkRoute (destination e) (prefix_length e) (hop_name (destination e) (next_hop e)) (interface_index e) (metric e) false (table_name (table e)).
Proof. unfold as_dumped, table_name, hop_name. by destruct (table e). Qed.

Lemma same_place_spec e y : same_place e y = true <->
  destination (kr_route y) = destination e /\ prefix_length (kr_route y) = prefix_length e /\ table_name (table (kr_route y)) = table_name (table e).
Proof. unfold same_place. rewrite !andb_true_iff, !bool_decide_eq_true, Z.eqb_eq. tauto. Qed.

Lemma refusal_is_fatal ty e er : encode_route_mutation false ty e 1 = Err er -> classify_for er Add = Fatal /\ classify er = Fatal.
Proof.
  unfold encode_route_mutation, table_number. destruct (table e); [|by intros [= <-]|];
    (case_bool_decide; [by intros [= <-]|]; destruct (max_prefix_length e <? prefix_length e); [by intros [= <-]|done]).
Qed.

#[export, program] Instance kernel_table_rows : TableLaws KernelTable := {
  TableRow := KernelRow;
  stands k y := bool_decide (y ∈ k);
  row_place y := (destination (kr_route y), prefix_length (kr_route y), table_name (table (kr_route y)));
  seen_as y := if kr_single y then Some (as_dumped (kr_route y)) else None;
  table_shown := table_name;
  hop_shown := hop_name;
  names_row := kernel_matches;
  clashes_with := kernel_clashes;
}.
Next Obligation.
  intros k rows [= <-] e. rewrite list_elem_of_omap. split; intros (y & Hy & He); exists y; [by rewrite bool_decide_eq_true|by rewrite bool_decide_eq_true in Hy].
Qed.
Next Obligation.
  intros y e. cbn beta. destruct (kr_single y); [|done]. intros [= <-]. rewrite as_dumped_name. cbn. by rewrite table_name_again, hop_name_again.
Qed.
Next Obligation.
  intros k e k'. cbn. destruct (encode_route_mutation _ _ _ _); [|done]. destruct (existsb _ _) eqn:Ex; [done|]. intros [= <-]. rewrite existsb_false in Ex. split.
  - intros y Hy. apply bool_decide_eq_false. intros Hin%Ex. congruence.
  - exists (mkKernelRow (as_dumped e) true true), (as_dumped (as_dumped e)). rewrite !as_dumped_name. cbn. rewrite table_name_again, hop_name_again. split_and!; [|done..|].
    + unfold kernel_clashes. rewrite Z.eqb_refl, andb_true_r. apply same_place_spec. cbn. by rewrite table_name_again.
    + intros x. rewrite <- bool_decide_or. apply bool_decide_ext. rewrite elem_of_app, list_elem_of_singleton. tauto.
Qed.
Next Obligation.
  intros k e k' er. cbn [create_ip_forward_entry delete_ip_forward_entry kernel_table_port]. destruct (encode_route_mutation _ _ _ _) as [|er'] eqn:Ee.
  - destruct (existsb _ _) eqn:Ex; [|done]. intros [= <- <-]. split; [done|]. intros _. apply existsb_elem in Ex as (y & Hy & Hc). exists y. by rewrite bool_decide_eq_true.
  - intros [= <- <-]. split; [done|]. destruct (refusal_is_fatal _ _ _ Ee) as [Hc _]. congruence.
Qed.
Next Obligation.
  intros k e k'. cbn. destruct (encode_route_mutation _ _ _ _); [|done]. destruct (List.find _ _) as [y|] eqn:Ef; [|done]. intros [= <-].
  apply find_some in Ef as [Hy%list_elem_of_In Hm]. split_and!.
  - exists y. rewrite bool_decide_eq_true, bool_decide_eq_false, filter_elem, bool_decide_eq_true_2 by done. split_and!; [done..|]. by intros [_ ?].
  - intros x. rewrite !bool_decide_eq_true, filter_elem. tauto.
  - intros x Hx. apply bool_decide_ext. rewrite filter_elem, bool_decide_eq_false_2; [tauto|]. intros ->. congruence.
Qed.
Next Obligation.
  intros k e k' er. cbn [create_ip_forward_entry delete_ip_forward_entry kernel_table_port]. destruct (encode_route_mutation _ _ _ _) as [|er'] eqn:Ee.
  - destruct (List.find _ _) as [y|] eqn:Ef; [done|]. intros [= <- <-]. split; [done|]. intros _ y Hy. apply bool_decide_eq_false. intros Hin%list_elem_of_In.
    pose proof (find_none _ _ Ef y Hin). congruence.
  - intros [= <- <-]. split; [done|]. destruct (refusal_is_fatal _ _ _ Ee) as [_ Hc]. congruence.
Qed.
Next Obligation.
  intros e y. cbn beta. unfold kernel_matches. rewrite !andb_true_iff. intros ((((Hp & _) & _) & Hi%Z.eqb_eq) & _). apply same_place_spec in Hp as (-> & -> & ->). split; [done|].
  intros o. destruct (kr_single y); [|done]. by intros [= <-].
Qed.
Next Obligation. intros e y [(-> & -> & ->)%same_place_spec _]%andb_prop. done. Qed.
Next Obligation.
  intros e y Hm. unfold kernel_matches, kernel_clashes. rewrite !andb_true_iff, orb_true_iff, !Z.eqb_eq. intros ((((Hp & _) & [?|?]) & _) & _); done.
Qed.
Next Obligation. done. Qed.
Next Obligation.
  intros e e' y Hk Hm. unfold route_key in Hk. injection Hk as Hd Hp Hh Hi Ht. unfold kernel_matches, same_place. by rewrite Hd, Hp, Hh, Hi, Ht, Hm.
Qed.
