(* ===== verification/PolicyRules.v ===== *)
(** * Per-user routing rules

    core/platform/linux/src/policy_routing.rs and service_account_uids.rs, and the rule
    requests of route_table.rs: a table for each present user and one for the service
    accounts, the rules that send a packet to its sender's table, and the pass that makes
    the rules of the kernel the planned ones. The kernel is a port that answers netlink
    requests; its laws are the class [RuleLaws]. What the rules do to a packet is
    specified by [kernel_walk], the kernel's walk over the whole list of a family, others'
    rules included, and by [fib_walk], the walk over rules of ours alone. The log, the
    record of what the kernel can do and the hash of the installed rules are left out. *)


From stdpp Require Import base numbers list strings sorting sets.
From S2P Require Import Prelude Str Digits IpAddr IpBlock NetPolicy AutoRule RulesFile DnsWire RouteTable Netlink.

Open Scope Z_scope.

(** ** Who a principal is *)

Definition LINUX_PRINCIPAL_SCHEME : str := u "unix:uid:".
Definition MACOS_PRINCIPAL_SCHEME : str := u "mac:uid:".

Definition from_linux_uid (uid : Z) : UserPrincipal := OsUser (LINUX_PRINCIPAL_SCHEME ++ fmt_dec (Z.to_N uid)).

Definition as_unix_uid (p : UserPrincipal) : option Z :=
  match p with
  | Baseline => None
  | OsUser stored =>
      digits ← match strip_prefix LINUX_PRINCIPAL_SCHEME stored with
               | Some digits => Some digits
               | None => strip_prefix MACOS_PRINCIPAL_SCHEME stored
               end;
      Z.of_N <$> parse_u32 digits
  end.

(** ** Service accounts *)

Definition DEFAULT_SYS_UID_MAX : Z := 999.
Definition DYNAMIC_USER_UIDS : Z * Z := (61184, 65519).
Definition NOBODY_UID : Z := 65534.

(** One line of [login.defs]; the first that yields a number is the answer. *)
Definition sys_uid_max_line (line : str) : option Z :=
  match split_whitespace line with
  | name :: value :: _ => if str_eqb name (u "SYS_UID_MAX") then Z.of_N <$> parse_u32 value else None
  | _ => None
  end.

Definition parse_sys_uid_max (login_defs : str) : option Z := head (omap sys_uid_max_line (lines login_defs)).

(** The file's text is what the machine's read of it gave. *)
Definition read_sys_uid_max (text : option str) : Z := default DEFAULT_SYS_UID_MAX (text ≫= parse_sys_uid_max).

Definition carve_uid (uid : Z) (range : Z * Z) : list (Z * Z) :=
  let '(first, last) := range in
  if (uid <? first) || (last <? uid) then [(first, last)]
  else (if first <? uid then [(first, uid - 1)] else []) ++ (if uid <? last then [(uid + 1, last)] else []).

Definition service_ranges (sys_uid_max : Z) : list (Z * Z) :=
  let '(dynamic_first, dynamic_last) := DYNAMIC_USER_UIDS in
  (if sys_uid_max <? dynamic_first then [(0, sys_uid_max); DYNAMIC_USER_UIDS]
   else if sys_uid_max <? dynamic_last then [(0, dynamic_last)] else [(0, sys_uid_max)])
  ++ (if Z.max dynamic_last sys_uid_max <? NOBODY_UID then [(NOBODY_UID, NOBODY_UID)] else []).

Definition service_account_uids (sys_uid_max : Z) (present : list Z) : list (Z * Z) :=
  fold_left (fun ranges uid => ranges ≫= carve_uid uid) (dedup (sort_by Z.compare present)) (service_ranges sys_uid_max).

(** ** Tables and rules *)

Definition PRINCIPAL_TABLE_BASE : Z := 0x80000000.
Definition SYSTEM_TABLE : Z := PRINCIPAL_TABLE_BASE - 1.
Definition USER_PRIORITY : Z := 30100.
Definition SYSTEM_PRIORITY : Z := 30110.
Definition FORWARDED_PRIORITY : Z := 30115.
Definition BAND_START : Z := 30100.
Definition BAND_END : Z := 30119.
Definition RT_TABLE_MAX : Z := 4294967295.
Definition LAST_MAPPED_UID : Z := RT_TABLE_MAX - PRINCIPAL_TABLE_BASE - 1.
Definition UID_RANGE_SINCE : N * N := (4, 10)%N.
Definition MAIN_RULE_PRIORITY : Z := 32766.

Definition table_for_uid (uid : Z) : option Z := if uid <=? LAST_MAPPED_UID then Some (PRINCIPAL_TABLE_BASE + uid) else None.

Definition is_our_table (n : Z) : bool := (SYSTEM_TABLE <=? n) && negb (n =? RT_TABLE_MAX).

Definition is_our_rule (rule : FibRule) : bool :=
  (BAND_START <=? fr_priority rule) && (fr_priority rule <=? BAND_END) && negb (fr_narrowed rule)
  && (is_our_table (fr_table rule) || (fr_table rule =? RT_TABLE_MAIN)).

(** What the selectors in front of a table know of it: its longest IPv4 overlay. *)
Record TableSelector : Set := mkSelector { overlay_prefix_v4 : option Z }.

Record SelectorPlan : Set := mkSelectorPlan { sp_users : list (UserPrincipal * TableSelector); sp_system : option TableSelector }.

Record SelectorDelta : Set := mkDelta { sd_added : nat; sd_removed : nat }.

(** The closure [rule] of [push_selectors]. *)
Definition selector_rule (range : option (Z * Z)) (ipv6 : bool) (priority tbl : Z) (suppress : option Z) : FibRule :=
  mkFibRule ipv6 priority tbl range suppress (bool_decide (is_Some range)) false (bool_decide (range = None)).

Definition range_selectors (tbl : Z) (selector : TableSelector) (priority : Z) (with_ipv6 : bool) (range : option (Z * Z)) : list FibRule :=
  let rule := selector_rule range in
  match overlay_prefix_v4 selector with
  | Some p =>
      if 0 <? p then [rule false priority tbl (Some p); rule false (priority + 1) RT_TABLE_MAIN (Some (p - 1)); rule false (priority + 2) tbl None]
      else [rule false priority tbl None]
  | None => [rule false priority tbl None]
  end
  ++ (if with_ipv6 then [rule true priority tbl None] else []).

(** What [push_selectors] appends. *)
Definition push_selectors (tbl : Z) (ranges : list (option (Z * Z))) (selector : TableSelector) (priority : Z) (with_ipv6 : bool) : list FibRule :=
  ranges ≫= range_selectors tbl selector priority with_ipv6.

(** The derived order of the rules: field by field. *)
Definition rule_fields (r : FibRule) : bool * (Z * (Z * (option (Z * Z) * (option Z * (bool * (bool * bool)))))) :=
  (fr_ipv6 r, (fr_priority r, (fr_table r, (fr_uid_range r, (fr_suppress_prefixlen r, (fr_iif_lo r, (fr_narrowed r, fr_forwarded r))))))).

Definition fib_rule_cmp : FibRule -> FibRule -> comparison :=
  cmp_on rule_fields
    (pair_cmp bool_cmp (pair_cmp Z.compare (pair_cmp Z.compare (pair_cmp (option_cmp (pair_cmp Z.compare Z.compare))
       (pair_cmp (option_cmp Z.compare) (pair_cmp bool_cmp (pair_cmp bool_cmp bool_cmp))))))).

#[export] Instance FibRule_eq_dec : EqDecision FibRule.
Proof. solve_decision. Defined.

Definition present_uids (plan : SelectorPlan) : list Z := omap (fun us => as_unix_uid us.1) (sp_users plan).

Definition user_rules (with_ipv6 : bool) (us : UserPrincipal * TableSelector) : list FibRule :=
  match as_unix_uid us.1 ≫= fun uid => pair uid <$> table_for_uid uid with
  | Some (uid, tbl) => push_selectors tbl [Some (uid, uid)] us.2 USER_PRIORITY with_ipv6
  | None => []
  end.

Definition system_rules (plan : SelectorPlan) (sys_uid_max : Z) (with_ipv6 : bool) : list FibRule :=
  match sp_system plan with
  | Some selector =>
      push_selectors SYSTEM_TABLE (Some <$> service_account_uids sys_uid_max (present_uids plan)) selector SYSTEM_PRIORITY with_ipv6
      ++ push_selectors SYSTEM_TABLE [None] selector FORWARDED_PRIORITY with_ipv6
  | None => []
  end.

Definition selector_rules (plan : SelectorPlan) (sys_uid_max : Z) (with_ipv6 : bool) : list FibRule :=
  dedup (sort_by fib_rule_cmp ((sp_users plan ≫= user_rules with_ipv6) ++ system_rules plan sys_uid_max with_ipv6)).

Definition selector_changes (installed desired : list FibRule) : list FibRule * list FibRule :=
  let ours := List.filter is_our_rule installed in
  (List.filter (fun d => negb (bool_decide (d ∈ ours))) desired, List.filter (fun r => negb (bool_decide (r ∈ desired))) ours).

Definition uid_range_ignored (installed : list FibRule) : bool :=
  existsb (fun r => is_our_rule r && bool_decide (fr_uid_range r = None) && negb (fr_forwarded r)) installed.

(** The derived order of pairs. *)
Definition release_selects_by_uid (release : str) : bool :=
  match parse_u32 <$> List.filter (fun p => negb (bool_decide (p = []))) (split (fun c => negb (is_ascii_digit c)) release) with
  | Some major :: Some minor :: _ => bool_decide (pair_cmp N.compare N.compare (major, minor) UID_RANGE_SINCE <> Lt)
  | _ => true
  end.

(** The port a pass of routes is given. *)
Definition table_for (p : UserPrincipal) : option RouteTableRef := Tagged <$> (as_unix_uid p ≫= table_for_uid).
Definition system_table : RouteTableRef := Tagged SYSTEM_TABLE.
Definition is_principal_table (t : RouteTableRef) : bool := match t with Tagged n => is_our_table n | _ => false end.

(** ** Rules as dumped *)

Definition RTM_DELRULE : Z := 33.

Record RawFibRule : Set := mkRaw {
  raw_ipv6 : bool;
  raw_priority : Z;
  raw_goto_target : option Z;
  raw_ours : bool;
  raw_catch_all_table : option Z;
  raw_body : list N;
}.

Definition selects_everything (r : FibRule) : bool :=
  negb (fr_narrowed r) && bool_decide (fr_uid_range r = None) && negb (fr_iif_lo r) && negb (fr_forwarded r)
  && bool_decide (fr_suppress_prefixlen r = None).

(** The least of a list of priorities. *)
Definition least (l : list Z) : option Z :=
  match l with [] => None | x :: l => Some (fold_left Z.min l x) end.

Section Displaced.
Context (rules : list RawFibRule) (ipv6 : bool).

Definition family : list RawFibRule := List.filter (fun r => Bool.eqb (raw_ipv6 r) ipv6) rules.

Definition here_at (priority : Z) : list nat :=
  List.filter (fun i => match rules !! i with
                        | Some r => Bool.eqb (raw_ipv6 r) ipv6 && negb (raw_ours r) && (raw_priority r =? priority)
                        | None => false
                        end) (seq 0 (length rules)).

Definition jumps (i : nat) : bool :=
  match rules !! i with Some r => bool_decide (is_Some (raw_goto_target r)) | None => false end.

(** The loop over priorities down from [start]; [fuel] is the priority left. *)
Fixpoint displaced_loop (fuel : nat) (start base priority : Z) : list (nat * Z) :=
  match fuel with
  | O => []
  | S fuel =>
      if priority <=? 1 then []
      else
        let priority := priority - 1 in
        let target := base - (start - priority) in
        let here := here_at priority in
        if (target <? 0) || bool_decide (here = []) || existsb jumps here
           || bool_decide (priority ∈ omap raw_goto_target family) || (target <=? BAND_END) then []
        else ((fun i => (i, target)) <$> here) ++ displaced_loop fuel start base priority
  end.

Definition displaced_family : list (nat * Z) :=
  match least (raw_priority <$> List.filter raw_ours family) with
  | None => []
  | Some start =>
      let base := default MAIN_RULE_PRIORITY
                    (least (raw_priority <$> List.filter (fun r => negb (raw_ours r) && (BAND_END <? raw_priority r)) family)) in
      displaced_loop (Z.to_nat start) start base start
  end.
End Displaced.

Definition displaced_rules (rules : list RawFibRule) : list (nat * Z) := displaced_family rules false ++ displaced_family rules true.

Definition STANDARD_TABLES : list Z := [253; 254; 255].

Definition catch_all_ahead (r : RawFibRule) : option (bool * Z * Z) :=
  if negb (raw_ours r) && (0 <? raw_priority r) && (raw_priority r <? USER_PRIORITY) then
    t ← raw_catch_all_table r;
    if bool_decide (t ∈ STANDARD_TABLES) then None else Some (raw_ipv6 r, raw_priority r, t)
  else None.

Definition catch_all_rules_ahead (rules : list RawFibRule) : list (bool * Z * Z) :=
  sort_by (pair_cmp (pair_cmp bool_cmp Z.compare) Z.compare) (omap catch_all_ahead rules).

(** ** Requests to the kernel *)

(** The error numbers of [libc] the pass tells apart. *)
Class RuleErrno := { EAFNOSUPPORT : Z; EINVAL : Z; EOPNOTSUPP : Z }.

(** One exchange over a netlink socket: a request that is acknowledged or refused, and a
    dump, which comes in datagrams, with the error of a read past the last of them (of
    the socket itself when there is none). *)
Class RuleKernel (F : Type) := {
  rule_request : F -> list N -> F * result unit PlatformError;
  rule_dump : F -> list N -> list (list N) * PlatformError;
}.

Definition OLD_KERNEL : str := u "this kernel cannot select routes by user (Linux 4.10 or newer needed)".

Section Pass.
Context (big_endian : bool) (sequence : Z) {F : Type} `{!Libc, !RuleErrno, !RuleKernel F}.
Implicit Types k : F.

Definition read_raw_attr (acc : Z * Z) (attr : Z * list N) : Z * Z :=
  let '(priority, jump) := acc in
  match word big_endian attr.2 with
  | Some value => if attr.1 =? FRA_PRIORITY then (value, jump) else if attr.1 =? FRA_GOTO then (priority, value) else acc
  | None => acc
  end.

Definition parse_raw_rule (body : list N) : option RawFibRule :=
  if (length body <? FIB_RULE_HDR_LEN)%nat then None
  else
    ipv6 ← body_family body;
    let '(priority, jump) := fold_left read_raw_attr (attributes big_endian (drop FIB_RULE_HDR_LEN body)) (0, 0) in
    let parsed := parse_rule_message big_endian body in
    Some (mkRaw ipv6 priority (if (at_ body 7 =? FR_ACT_GOTO)%N then Some jump else None)
            (match parsed with Some r => is_our_rule r | None => false end)
            (r ← parsed; if selects_everything r then Some (fr_table r) else None) body).

(** [errno_error]; its message is the system's text for the number, not kept. *)
Definition errno_error (operation : str) (negative_errno : Z) : PlatformError := Errno operation (- negative_errno) [].

(** The receive loop of a rule dump, until the kernel says it is done or an error. *)
Fixpoint read_dump {A} (parse : list N -> option A) (datagrams : list (list N)) (past : PlatformError) (acc : list A)
  : result (list A) PlatformError :=
  match datagrams with
  | [] => Err past
  | datagram :: rest =>
      let '(messages, (done, error)) := walk_datagram big_endian datagram in
      let acc := acc ++ omap (fun m => if m.1 =? RTM_NEWRULE then parse m.2 else None) messages in
      match error with
      | Some code => Err (errno_error (u "dump the policy routing rules") code)
      | None => if done : bool then Ok acc else read_dump parse rest past acc
      end
  end.

Definition dump_rules {A} (parse : list N -> option A) (k : F) : result (list A) PlatformError :=
  let '(datagrams, past) := rule_dump k (encode_rule_dump big_endian sequence) in read_dump parse datagrams past [].

Definition get_fib_rules (k : F) : result (list FibRule) PlatformError := dump_rules (parse_rule_message big_endian) k.
Definition get_raw_fib_rules (k : F) : result (list RawFibRule) PlatformError := dump_rules parse_raw_rule k.

Definition add_fib_rule (k : F) (rule : FibRule) : F * result unit PlatformError :=
  rule_request k (encode_rule_mutation big_endian RTM_NEWRULE rule sequence).

Definition delete_fib_rule (k : F) (rule : FibRule) : F * result unit PlatformError :=
  rule_request k (encode_rule_mutation big_endian RTM_DELRULE rule sequence).

Definition NEW_FLAGS : Z := Z.lor (Z.lor (Z.lor NLM_F_REQUEST NLM_F_ACK) NLM_F_CREATE) NLM_F_EXCL.

(** The copy first, then the original. *)
Definition move_raw_fib_rule (k : F) (rule : RawFibRule) (priority : Z) : F * result unit PlatformError :=
  let remove k := match rule_request k (nl_frame big_endian RTM_DELRULE (Z.lor NLM_F_REQUEST NLM_F_ACK) sequence (raw_body rule)) with
                  | (k, Err e) => (k, if bool_decide (classify e = Idempotent) then Ok tt else Err e)
                  | (k, Ok _) => (k, Ok tt)
                  end in
  match rule_request k (nl_frame big_endian RTM_NEWRULE NEW_FLAGS sequence (with_priority big_endian (raw_body rule) priority)) with
  | (k, Err e) => if bool_decide (classify e = Conflict) then remove k else (k, Err e)
  | (k, Ok _) => remove k
  end.

(** ** The pass *)

Definition errno_is (e : PlatformError) (errno : Z) : bool := match e with Errno _ code _ => code =? errno | _ => false end.

Definition refuses_uid_range (e : PlatformError) : bool := errno_is e EINVAL || errno_is e EOPNOTSUPP.

Inductive AddRefusal : Set := Ipv6Off | NoUidRange | AlreadyThere | Failed.

Definition note_add_refusal (ipv6 : bool) (e : PlatformError) : AddRefusal :=
  if ipv6 && errno_is e EAFNOSUPPORT then Ipv6Off
  else if refuses_uid_range e then NoUidRange
  else if bool_decide (classify e = Conflict) then AlreadyThere
  else Failed.

(** Deleting rules; one already gone is no failure. *)
Fixpoint delete_rules (k : F) (rules : list FibRule) (removed : nat) : F * result nat PlatformError :=
  match rules with
  | [] => (k, Ok removed)
  | rule :: rest =>
      match delete_fib_rule k rule with
      | (k, Ok _) => delete_rules k rest (S removed)
      | (k, Err e) => if bool_decide (classify e = Idempotent) then delete_rules k rest removed else (k, Err e)
      end
  end.

Definition sweep_selectors (k : F) : F * result nat PlatformError :=
  match get_fib_rules k with
  | Err e => (k, Err e)
  | Ok rules => delete_rules k (List.filter is_our_rule rules) 0
  end.

Definition clear_selectors (k : F) : F * result nat PlatformError := sweep_selectors k.

(** [self.clear_selectors()?; return Err(NotSupported)]. *)
Definition give_up_selecting {A} (k : F) : F * result A PlatformError :=
  match clear_selectors k with
  | (k, Err e) => (k, Err e)
  | (k, Ok _) => (k, Err (NotSupported OLD_KERNEL))
  end.

(** Adding rules, with whether the kernel refuses IPv6 rules. *)
Fixpoint add_rules (k : F) (ipv6_refused : bool) (rules : list FibRule) (added : nat) : F * bool * result nat PlatformError :=
  match rules with
  | [] => (k, ipv6_refused, Ok added)
  | rule :: rest =>
      match add_fib_rule k rule with
      | (k, Ok _) => add_rules k ipv6_refused rest (S added)
      | (k, Err e) =>
          match note_add_refusal (fr_ipv6 rule) e with
          | Ipv6Off => add_rules k true rest added
          | NoUidRange => let '(k, out) := give_up_selecting k in (k, ipv6_refused, out)
          | AlreadyThere => add_rules k ipv6_refused rest added
          | Failed => (k, ipv6_refused, Err e)
          end
      end
  end.

(** One move after another; a refused one does not hold back the rest. *)
Fixpoint move_rules (k : F) (rules : list RawFibRule) (moves : list (nat * Z)) (moved : nat) (first_error : option PlatformError)
  : F * result nat PlatformError :=
  match moves with
  | [] => (k, match first_error with Some e => Err e | None => Ok moved end)
  | (i, to) :: rest =>
      match rules !! i with
      | None => move_rules k rules rest moved first_error
      | Some rule =>
          match move_raw_fib_rule k rule to with
          | (k, Ok _) => move_rules k rules rest (S moved) first_error
          | (k, Err e) => move_rules k rules rest moved (match first_error with Some first => Some first | None => Some e end)
          end
      end
  end.

Definition keep_ours_in_front (k : F) : F * result nat PlatformError :=
  match get_raw_fib_rules k with
  | Err e => (k, Err e)
  | Ok rules => move_rules k rules (displaced_rules rules) 0 None
  end.

Record LinuxPrincipalRouting : Set := mkRouting { lp_sys_uid_max : Z; lp_kernel_selects_by_uid : bool; lp_ipv6_refused : bool }.

(** The texts of [login.defs] and [osrelease] as the machine gave them. *)
Definition for_this_machine (login_defs osrelease : option str) : LinuxPrincipalRouting :=
  mkRouting (read_sys_uid_max login_defs) (release_selects_by_uid (default [] osrelease)) false.

(** The rules settled: added, deleted, and checked for a range the kernel dropped. *)
Definition settle_selectors (k : F) (installed desired : list FibRule) (refused : bool) : F * bool * result SelectorDelta PlatformError :=
  let '(add, delete) := selector_changes installed desired in
  match add_rules k refused add 0 with
  | (k, refused, Err e) => (k, refused, Err e)
  | (k, refused, Ok added) =>
      match delete_rules k delete 0 with
      | (k, Err e) => (k, refused, Err e)
      | (k, Ok removed) =>
          if (0 <? added)%nat then
            match get_fib_rules k with
            | Err e => (k, refused, Err e)
            | Ok now => if uid_range_ignored now then let '(k, out) := give_up_selecting k in (k, refused, out)
                        else (k, refused, Ok (mkDelta added removed))
            end
          else (k, refused, Ok (mkDelta added removed))
      end
  end.

Definition reconcile_selectors (routing : LinuxPrincipalRouting) (k : F) (plan : SelectorPlan)
  : F * LinuxPrincipalRouting * result SelectorDelta PlatformError :=
  if negb (lp_kernel_selects_by_uid routing) then let '(k, out) := give_up_selecting k in (k, routing, out)
  else
    match get_fib_rules k with
    | Err e => (k, routing, Err e)
    | Ok installed =>
        let desired := selector_rules plan (lp_sys_uid_max routing) (negb (lp_ipv6_refused routing)) in
        let '(k, refused, out) := settle_selectors k installed desired (lp_ipv6_refused routing) in
        let routing := mkRouting (lp_sys_uid_max routing) (lp_kernel_selects_by_uid routing) refused in
        match out with
        | Ok _ => ((keep_ours_in_front k).1, routing, out)
        | Err _ => (k, routing, out)
        end
    end.

End Pass.

(** ** Whose uids the service accounts are *)

Definition in_range (uid : Z) (range : Z * Z) : Prop := range.1 <= uid <= range.2.

(** Non-empty ranges, in order, none reaching into the next. *)
Definition ranges_ok (ranges : list (Z * Z)) : Prop :=
  Forall (fun r => r.1 <= r.2) ranges /\ StronglySorted (fun r s => r.2 < s.1) ranges.

Lemma carve_uid_holds uid range x : Exists (in_range x) (carve_uid uid range) <-> in_range x range /\ x <> uid.
Proof.
  destruct range as [first last]. unfold carve_uid, in_range. cbn [fst snd].
  destruct (Z.ltb_spec uid first), (Z.ltb_spec last uid), (Z.ltb_spec first uid), (Z.ltb_spec uid last); cbn [orb app];
    rewrite ?Exists_cons, ?Exists_nil; cbn [fst snd]; lia.
Qed.

Lemma carve_uid_within uid range r : range.1 <= range.2 -> r ∈ carve_uid uid range -> range.1 <= r.1 /\ r.1 <= r.2 /\ r.2 <= range.2.
Proof.
  destruct range as [first last]. unfold carve_uid. cbn [fst snd]. intros Hle.
  destruct (Z.ltb_spec uid first), (Z.ltb_spec last uid), (Z.ltb_spec first uid), (Z.ltb_spec uid last); cbn [orb app];
    rewrite ?elem_of_cons, ?elem_of_nil; naive_solver lia.
Qed.

Lemma carve_uid_ok uid range : range.1 <= range.2 -> ranges_ok (carve_uid uid range).
Proof.
  intros Hle. split.
  - apply Forall_forall. intros r Hr. by apply carve_uid_within in Hr as (_ & ? & _).
  - destruct range as [first last]. unfold carve_uid.
    destruct ((uid <? first) || (last <? uid)); [repeat constructor|].
    destruct (first <? uid), (uid <? last); repeat constructor. cbn. lia.
Qed.

Lemma carve_ok uid ranges : ranges_ok ranges -> ranges_ok (ranges ≫= carve_uid uid).
Proof.
  intros [Hle Hs]. induction Hs as [|range ranges Hs IH Hlt]; [split; constructor|]. inversion_clear Hle as [|? ? Hr Hrest]. destruct (IH Hrest) as [IHle IHs].
  destruct (carve_uid_ok uid range Hr) as [Cle Cs]. cbn. split; [by apply Forall_app_2|].
  apply StronglySorted_app_2; [|done|done]. intros a b Ha Hb. apply carve_uid_within in Ha; [|done].
  apply list_elem_of_bind in Hb as (r & Hb & Hin). rewrite Forall_forall in Hlt, Hrest. specialize (Hlt r Hin).
  apply carve_uid_within in Hb; [|by apply Hrest]. lia.
Qed.

Lemma carve_holds uid ranges x : Exists (in_range x) (ranges ≫= carve_uid uid) <-> Exists (in_range x) ranges /\ x <> uid.
Proof.
  induction ranges as [|range ranges IH]; cbn; [rewrite Exists_nil; tauto|].
  rewrite Exists_app, Exists_cons, IH, carve_uid_holds. tauto.
Qed.

Lemma carve_all uids ranges x :
  Exists (in_range x) (fold_left (fun ranges uid => ranges ≫= carve_uid uid) uids ranges) <-> Exists (in_range x) ranges /\ x ∉ uids.
Proof.
  revert ranges. induction uids as [|uid uids IH]; intros ranges; cbn; [rewrite elem_of_nil; tauto|].
  rewrite IH, carve_holds, not_elem_of_cons. tauto.
Qed.

Lemma service_ranges_ok sys_uid_max : 0 <= sys_uid_max -> ranges_ok (service_ranges sys_uid_max).
Proof.
  intros H. unfold service_ranges, DYNAMIC_USER_UIDS, NOBODY_UID.
  destruct (Z.ltb_spec sys_uid_max 61184), (Z.ltb_spec sys_uid_max 65519), (Z.ltb_spec (Z.max 65519 sys_uid_max) 65534); cbn [app];
    (split; [repeat constructor; cbn; lia|repeat constructor; cbn; lia]).
Qed.

(** A service account: in the system range, in the band of [DynamicUser], or nobody. *)
Definition service_uid (sys_uid_max uid : Z) : Prop := uid <= sys_uid_max \/ in_range uid DYNAMIC_USER_UIDS \/ uid = NOBODY_UID.

Lemma service_ranges_holds sys_uid_max uid : 0 <= uid ->
  Exists (in_range uid) (service_ranges sys_uid_max) <-> service_uid sys_uid_max uid.
Proof.
  intros H. unfold service_ranges, service_uid, in_range, DYNAMIC_USER_UIDS, NOBODY_UID. cbn [fst snd].
  destruct (Z.ltb_spec sys_uid_max 61184), (Z.ltb_spec sys_uid_max 65519), (Z.ltb_spec (Z.max 65519 sys_uid_max) 65534); cbn [app];
    rewrite ?Exists_cons, ?Exists_nil; cbn [fst snd]; lia.
Qed.

Lemma service_account_uids_ok sys_uid_max present : 0 <= sys_uid_max -> ranges_ok (service_account_uids sys_uid_max present).
Proof.
  intros H%service_ranges_ok. unfold service_account_uids. revert H. generalize (service_ranges sys_uid_max).
  induction (dedup (sort_by Z.compare present)) as [|uid uids IH]; intros ranges H; [done|]. cbn. by apply IH, carve_ok.
Qed.

Lemma service_account_uids_holds sys_uid_max present uid : 0 <= uid ->
  Exists (in_range uid) (service_account_uids sys_uid_max present) <-> service_uid sys_uid_max uid /\ uid ∉ present.
Proof.
  intros H. unfold service_account_uids. by rewrite carve_all, (service_ranges_holds _ _ H), dedup_elem, sort_by_elem_of.
Qed.

(** A user signed in to an account of the band cuts the band in two. *)
Example service_band_cut : service_account_uids 999 [62000; 1000] = [(0, 999); (61184, 61999); (62001, 65519); (65534, 65534)].
Proof. by vm_compute. Qed.

(** ** What the rules do to a packet *)

(** A packet as the rules see it; one the machine forwards is not local. *)
Record Packet : Set := mkPacket { pk_ipv6 : bool; pk_uid : Z; pk_local : bool }.

Definition rule_takes (r : FibRule) (p : Packet) : bool :=
  Bool.eqb (fr_ipv6 r) (pk_ipv6 p)
  && match fr_uid_range r with Some (first, last) => (first <=? pk_uid p) && (pk_uid p <=? last) | None => true end
  && (negb (fr_iif_lo r) || pk_local p) && (negb (fr_forwarded r) || negb (pk_local p)).

(** An answer no longer than the suppressed length is passed over. *)
Definition suppressed (suppress : option Z) (len : Z) : bool := match suppress with Some p => len <=? p | None => false end.

(** The kernel's walk: the first rule that takes the packet and whose table answers
    decides. [lookup] is the longest match of a table with its length, [behind] what the
    rules behind these answer. *)
Fixpoint fib_walk {R} (lookup : Z -> option (Z * R)) (p : Packet) (rules : list FibRule) (behind : option (Z * R)) : option (Z * R) :=
  match rules with
  | [] => behind
  | r :: rest =>
      match (if rule_takes r p then lookup (fr_table r) else None) with
      | Some (len, row) => if suppressed (fr_suppress_prefixlen r) len then fib_walk lookup p rest behind else Some (len, row)
      | None => fib_walk lookup p rest behind
      end
  end.

(** The whole list of a family as the kernel walks it for one packet: our rules, and
    everybody else's, of which only the priority and what it answers this packet matters.
    A rule of another's that jumps over ours is outside this. *)
Inductive KernelRule (R : Type) : Type :=
| OurRule (r : FibRule)
| OtherRule (priority : Z) (answer : option (Z * R)).
Arguments OurRule {R}.
Arguments OtherRule {R}.

Definition rule_priority {R} (r : KernelRule R) : Z := match r with OurRule r => fr_priority r | OtherRule priority _ => priority end.

(** What a rule of ours answers a packet. *)
Definition our_answer {R} (lookup : Z -> option (Z * R)) (p : Packet) (r : FibRule) : option (Z * R) :=
  if rule_takes r p then
    '(len, row) ← lookup (fr_table r);
    if suppressed (fr_suppress_prefixlen r) len then None else Some (len, row)
  else None.

(** The first rule that answers decides. *)
Definition kernel_walk {R} (lookup : Z -> option (Z * R)) (p : Packet) (rules : list (KernelRule R)) : option (Z * R) :=
  head (omap (fun r => match r with OurRule r => our_answer lookup p r | OtherRule _ answer => answer end) rules).

(** What the others' rules in front of our band answer, and those behind it. *)
Definition answered_in_front {R} (rules : list (KernelRule R)) : option (Z * R) :=
  head (omap (fun r => match r with OtherRule priority answer => if priority <? BAND_START then answer else None | OurRule _ => None end) rules).

Definition answered_behind {R} (rules : list (KernelRule R)) : option (Z * R) :=
  head (omap (fun r => match r with OtherRule priority answer => if BAND_END <? priority then answer else None | OurRule _ => None end) rules).

(** The kernel's list for a packet: in order of priority, with these rules of ours in the
    packet's family, and nobody else's in our band. *)
Record kernel_list {R} (p : Packet) (ours : FibRule -> Prop) (rules : list (KernelRule R)) : Prop := {
  kl_sorted : StronglySorted (fun a b => rule_priority a <= rule_priority b) rules;
  kl_ours : forall r, OurRule r ∈ rules <-> ours r /\ fr_ipv6 r = pk_ipv6 p;
  kl_band : forall priority answer, OtherRule priority answer ∈ rules -> priority < BAND_START \/ BAND_END < priority;
}.

(** The three questions a table with overlays of length [overlay] is asked with, in turn:
    the table past its overlays, [main] past what is shorter than them, the table. *)
Definition asked_in_turn {R} (overlay : option Z) (own shared behind : option (Z * R)) : option (Z * R) :=
  match overlay, own, shared with
  | Some p, Some (len, row), _ =>
      if p <? len then own
      else match shared with Some (shared_len, _) => if p <=? shared_len then shared else own | None => own end
  | Some p, None, Some (shared_len, _) => if p <=? shared_len then shared else behind
  | Some _, None, None => behind
  | None, Some _, _ => own
  | None, None, _ => behind
  end.

(** The table a packet's sender looks up, with its overlays: a present user their own, a
    service account and what the machine forwards the system's. *)
Definition senders_table (plan : SelectorPlan) (sys_uid_max : Z) (p : Packet) : option (Z * TableSelector) :=
  if pk_local p then
    match List.find (fun us => bool_decide (as_unix_uid us.1 = Some (pk_uid p))) (sp_users plan) with
    | Some (_, selector) => (fun tbl => (tbl, selector)) <$> table_for_uid (pk_uid p)
    | None =>
        if existsb (fun '(first, last) => (first <=? pk_uid p) && (pk_uid p <=? last)) (service_account_uids sys_uid_max [])
        then pair SYSTEM_TABLE <$> sp_system plan else None
    end
  else pair SYSTEM_TABLE <$> sp_system plan.

(** The overlays of a selector in a family: IPv6 carries none, nor does a length of zero. *)
Definition overlay_of (selector : TableSelector) (ipv6 : bool) : option Z :=
  if ipv6 then None else p ← overlay_prefix_v4 selector; if 0 <? p then Some p else None.

(** Every user is planned once. *)
Definition users_once (plan : SelectorPlan) : Prop := NoDup (present_uids plan).

#[export] Instance rule_cmp_total : CmpTotal fib_rule_cmp.
Proof.
  unfold fib_rule_cmp. split; [exact _|]. intros [] [] H. unfold cmp_on in H.
  apply (cmp_eq _) in H. unfold rule_fields in H. cbn in H. by simplify_eq.
Qed.

Definition rule_lt (r s : FibRule) : Prop := cmp_le fib_rule_cmp r s /\ r <> s.

Lemma rule_lt_next range ipv6 priority tbl suppress priority' tbl' suppress' : priority < priority' ->
  rule_lt (selector_rule range ipv6 priority tbl suppress) (selector_rule range ipv6 priority' tbl' suppress').
Proof.
  intros H. split; [|intros [=]; lia]. unfold cmp_le, fib_rule_cmp, cmp_on, rule_fields, selector_rule. cbn.
  assert (E : bool_cmp ipv6 ipv6 = Eq) by by destruct ipv6. apply Z.compare_lt_iff in H.
  unfold pair_cmp, cmp_then, cmp_on in *. cbn. by rewrite E, H.
Qed.

Lemma rule_cmp_priority x y : fr_ipv6 x = fr_ipv6 y -> cmp_le fib_rule_cmp x y -> fr_priority x <= fr_priority y.
Proof.
  unfold cmp_le, fib_rule_cmp, cmp_on, rule_fields, pair_cmp, cmp_then, cmp_on. cbn. intros ->.
  assert (E : forall b, bool_cmp b b = Eq) by by intros []. rewrite E. cbn.
  destruct (Z.compare_spec (fr_priority x) (fr_priority y)); cbn; [lia..|done].
Qed.

Lemma dedup_sort_strict l : StronglySorted rule_lt (dedup (sort_by fib_rule_cmp l)).
Proof.
  apply (dedup_strict (cmp_le fib_rule_cmp)); [| |apply sort_by_sorted; exact _].
  - intros x y z. exact (cmp_le_trans fib_rule_cmp x y z).
  - intros x y Hxy Hyx. apply (cmp_eq fib_rule_cmp). unfold cmp_le in *. rewrite (cmp_opp fib_rule_cmp x y) in Hyx. by destruct (fib_rule_cmp x y).
Qed.

Lemma rule_lt_nodup l : StronglySorted rule_lt l -> NoDup l.
Proof.
  induction 1 as [|x l _ IH Hx]; constructor; [|done]. intros Hin. rewrite Forall_forall in Hx. by destruct (Hx x Hin).
Qed.

Lemma rule_lt_filter q l : StronglySorted rule_lt l -> StronglySorted rule_lt (List.filter q l).
Proof.
  induction 1 as [|x l _ IH Hx]; cbn; [constructor|]. destruct (q x); [|done]. constructor; [done|].
  rewrite Forall_forall in Hx |- *. intros y Hy%filter_elem. apply Hx, Hy.
Qed.

(** A selection of a sorted set is the sorted list with the same elements. *)
Lemma filter_sorted_set q l e : StronglySorted rule_lt e -> (forall x, x ∈ l /\ q x = true <-> x ∈ e) ->
  List.filter q (dedup (sort_by fib_rule_cmp l)) = e.
Proof.
  intros He Heq. pose proof (rule_lt_filter q _ (dedup_sort_strict l)) as Hs.
  assert (Hle : forall k, StronglySorted rule_lt k -> StronglySorted (cmp_le fib_rule_cmp) k)
    by (intros k; apply strongly_sorted_impl; by intros x y [? _]).
  apply (sorted_perm_unique_on fib_rule_cmp); [intros x y _ _; apply (cmp_eq _)|by apply Hle..|].
  apply NoDup_Permutation; [by apply rule_lt_nodup..|]. intros x. by rewrite filter_elem, dedup_elem, sort_by_elem_of.
Qed.

Section Takes.
Context (p : Packet).

(** Whether the sender a range stands for is the packet's. *)
Definition range_takes (range : option (Z * Z)) : bool :=
  match range with Some (first, last) => pk_local p && ((first <=? pk_uid p) && (pk_uid p <=? last)) | None => negb (pk_local p) end.

Lemma range_selectors_takes tbl selector priority w range x : x ∈ range_selectors tbl selector priority w range ->
  rule_takes x p = Bool.eqb (fr_ipv6 x) (pk_ipv6 p) && range_takes range.
Proof.
  intros H. assert (exists i pr t s, x = selector_rule range i pr t s) as (i & pr & t & s & ->).
  { unfold range_selectors in H. repeat (case_match || rewrite elem_of_app in H || rewrite elem_of_cons in H || rewrite elem_of_nil in H);
      naive_solver. }
  unfold rule_takes, selector_rule, range_takes. cbn. destruct range as [[]|]; cbn; destruct (Bool.eqb _ _), (pk_local p); cbn;
    rewrite ?andb_true_r, ?andb_false_r; done.
Qed.

(** The rules of a range, in the family of the packet. *)
Definition family_selectors (tbl : Z) (selector : TableSelector) (priority : Z) (w : bool) (range : option (Z * Z)) : list FibRule :=
  if pk_ipv6 p then (if w then [selector_rule range true priority tbl None] else [])
  else match overlay_of selector false with
       | Some o => [selector_rule range false priority tbl (Some o); selector_rule range false (priority + 1) RT_TABLE_MAIN (Some (o - 1));
                    selector_rule range false (priority + 2) tbl None]
       | None => [selector_rule range false priority tbl None]
       end.

Lemma family_selectors_elem tbl selector priority w range x :
  x ∈ family_selectors tbl selector priority w range <-> x ∈ range_selectors tbl selector priority w range /\ fr_ipv6 x = pk_ipv6 p.
Proof.
  unfold family_selectors, range_selectors, overlay_of. destruct (overlay_prefix_v4 selector) as [o|]; cbn; [destruct (0 <? o)|];
    destruct (pk_ipv6 p), w; rewrite ?elem_of_app, ?elem_of_cons, ?elem_of_nil; naive_solver.
Qed.

Lemma family_selectors_sorted tbl selector priority w range : StronglySorted rule_lt (family_selectors tbl selector priority w range).
Proof.
  unfold family_selectors. repeat case_match; repeat constructor; apply rule_lt_next; lia.
Qed.

Lemma family_selectors_priority tbl selector priority w range x y : x ∈ family_selectors tbl selector priority w range ->
  y ∈ family_selectors tbl selector priority w range -> fr_priority x = fr_priority y -> x = y.
Proof.
  unfold family_selectors. repeat case_match; rewrite ?elem_of_cons, ?elem_of_nil; intros Hx Hy Hp;
    repeat match goal with H : _ \/ _ |- _ => destruct H as [->|H] | H : False |- _ => destruct H end; cbn in Hp; done || lia.
Qed.

End Takes.

Section Walk.
Context {R : Type} (lookup : Z -> option (Z * R)) (p : Packet) (behind : option (Z * R)).

Lemma walk_filter rules : fib_walk lookup p rules behind = fib_walk lookup p (List.filter (fun r => rule_takes r p) rules) behind.
Proof.
  induction rules as [|r rules IH]; [done|]. cbn. destruct (rule_takes r p) eqn:E; cbn; rewrite ?E; [|done]. by rewrite IH.
Qed.

Lemma walk_family tbl selector priority w range : range_takes p range = true ->
  fib_walk lookup p (family_selectors p tbl selector priority w range) behind
  = if pk_ipv6 p && negb w then behind else asked_in_turn (overlay_of selector (pk_ipv6 p)) (lookup tbl) (lookup RT_TABLE_MAIN) behind.
Proof.
  intros Hr. assert (Ht : forall i pr t s, i = pk_ipv6 p -> rule_takes (selector_rule range i pr t s) p = true).
  { intros i pr t s ->. unfold rule_takes, selector_rule. cbn. rewrite Bool.eqb_reflx. unfold range_takes in Hr.
    destruct range as [[]|]; cbn; destruct (pk_local p); cbn in *; rewrite ?andb_true_r; done. }
  unfold family_selectors. destruct (pk_ipv6 p) eqn:E6.
  - destruct w; [|done]. cbn [fib_walk]. rewrite Ht by done. cbn. by destruct (lookup tbl) as [[]|].
  - cbn [andb]. destruct (overlay_of selector false) as [o|].
    + cbn [fib_walk]. rewrite !Ht by done. cbn [fr_table fr_suppress_prefixlen selector_rule suppressed asked_in_turn].
      destruct (lookup tbl) as [[len row]|], (lookup RT_TABLE_MAIN) as [[slen srow]|]; try done;
        try (destruct (Z.leb_spec len o), (Z.ltb_spec o len); try lia; try done);
        try (destruct (Z.leb_spec slen (o - 1)), (Z.leb_spec o slen); try lia; done).
    + cbn [fib_walk]. rewrite Ht by done. cbn. by destruct (lookup tbl) as [[]|].
Qed.

Lemma walk_one l tbl selector priority w range : range_takes p range = true ->
  (forall x, x ∈ l /\ rule_takes x p = true <-> x ∈ range_selectors tbl selector priority w range /\ fr_ipv6 x = pk_ipv6 p) ->
  fib_walk lookup p (dedup (sort_by fib_rule_cmp l)) behind
  = if pk_ipv6 p && negb w then behind else asked_in_turn (overlay_of selector (pk_ipv6 p)) (lookup tbl) (lookup RT_TABLE_MAIN) behind.
Proof.
  intros Hr H. rewrite walk_filter, (filter_sorted_set _ _ (family_selectors p tbl selector priority w range)).
  - by apply walk_family.
  - apply family_selectors_sorted.
  - intros x. by rewrite H, family_selectors_elem.
Qed.

Lemma walk_none l : (forall x, x ∈ l -> rule_takes x p = false) -> fib_walk lookup p (dedup (sort_by fib_rule_cmp l)) behind = behind.
Proof.
  intros H. rewrite walk_filter, (filter_sorted_set _ _ []); [done|constructor|]. intros x. rewrite elem_of_nil.
  split; [|done]. intros [Hx Ht]. by rewrite H in Ht.
Qed.
End Walk.

Lemma ranges_disjoint ranges r s uid : ranges_ok ranges -> r ∈ ranges -> s ∈ ranges -> in_range uid r -> in_range uid s -> r = s.
Proof.
  intros [_ Hs]. unfold in_range. induction Hs as [|x ranges _ IH Hx]; intros Hr Hsx; [by apply not_elem_of_nil in Hr|].
  rewrite Forall_forall in Hx. apply elem_of_cons in Hr as [->|Hr]; apply elem_of_cons in Hsx as [->|Hsx]; intros H1 H2; [done|..].
  - specialize (Hx s Hsx). cbn in Hx. lia.
  - specialize (Hx r Hr). cbn in Hx. lia.
  - by apply IH.
Qed.

Lemma users_unique plan q s q' s' uid : users_once plan -> (q, s) ∈ sp_users plan -> (q', s') ∈ sp_users plan ->
  as_unix_uid q = Some uid -> as_unix_uid q' = Some uid -> (q, s) = (q', s').
Proof.
  unfold users_once, present_uids. induction (sp_users plan) as [|us users IH]; intros Hnd H H' E E'; [by apply not_elem_of_nil in H|].
  assert (Hin : forall q s, (q, s) ∈ users -> as_unix_uid q = Some uid -> uid ∈ omap (fun us => as_unix_uid us.1) users)
    by (intros q0 s0 H0 E0; apply list_elem_of_omap; by exists (q0, s0)).
  apply elem_of_cons in H as [<-|H]; apply elem_of_cons in H' as [E2|H']; [done|..].
  - cbn in Hnd. rewrite E in Hnd. apply NoDup_cons in Hnd as [Hn _]. destruct Hn. by apply (Hin q' s').
  - subst us. cbn in Hnd. rewrite E' in Hnd. apply NoDup_cons in Hnd as [Hn _]. destruct Hn. by apply (Hin q s).
  - apply IH; [|done..]. cbn in Hnd. destruct (as_unix_uid us.1); [by apply NoDup_cons in Hnd as [_ ?]|done].
Qed.

Section Senders.
Context (plan : SelectorPlan) (sys_uid_max : Z) (w : bool) (p : Packet).
Context (Hsys : 0 <= sys_uid_max) (Huid : 0 <= pk_uid p) (Honce : users_once plan).

Definition unsorted_rules : list FibRule := (sp_users plan ≫= user_rules w) ++ system_rules plan sys_uid_max w.

Lemma user_rule_taken x : x ∈ (sp_users plan ≫= user_rules w) /\ rule_takes x p = true <->
  pk_local p = true /\ fr_ipv6 x = pk_ipv6 p /\ exists q s tbl, (q, s) ∈ sp_users plan /\ as_unix_uid q = Some (pk_uid p)
    /\ table_for_uid (pk_uid p) = Some tbl /\ x ∈ range_selectors tbl s USER_PRIORITY w (Some (pk_uid p, pk_uid p)).
Proof.
  rewrite list_elem_of_bind. split.
  - intros (([q s] & Hx & Hin) & Ht). unfold user_rules in Hx. cbn [fst snd] in Hx.
    destruct (as_unix_uid q) as [uid|] eqn:Eu; [|by apply not_elem_of_nil in Hx]. cbn in Hx.
    destruct (table_for_uid uid) as [tbl|] eqn:Et; [|by apply not_elem_of_nil in Hx]. cbn in Hx. rewrite app_nil_r in Hx.
    pose proof Hx as Hx'. rewrite (range_selectors_takes p _ _ _ _ _ _ Hx) in Ht. cbn in Ht.
    apply andb_prop in Ht as [Hf Ht]. apply andb_prop in Ht as [Hl Ht]. apply andb_prop in Ht as [H1%Z.leb_le H2%Z.leb_le].
    apply Bool.eqb_prop in Hf. assert (uid = pk_uid p) as -> by lia. split_and!; [done..|]. by exists q, s, tbl.
  - intros (Hl & Hf & q & s & tbl & Hin & Eu & Et & Hx). split.
    + exists (q, s). split; [|done]. unfold user_rules. cbn [fst snd]. rewrite Eu. cbn. rewrite Et. cbn. by rewrite app_nil_r.
    + rewrite (range_selectors_takes p _ _ _ _ _ _ Hx), Hf, Bool.eqb_reflx. cbn. rewrite Hl, Z.leb_refl. done.
Qed.

Lemma system_rule_taken x : x ∈ system_rules plan sys_uid_max w /\ rule_takes x p = true <->
  fr_ipv6 x = pk_ipv6 p /\ exists s, sp_system plan = Some s /\
    (pk_local p = true /\ (exists r, r ∈ service_account_uids sys_uid_max (present_uids plan) /\ in_range (pk_uid p) r
                           /\ x ∈ range_selectors SYSTEM_TABLE s SYSTEM_PRIORITY w (Some r))
     \/ pk_local p = false /\ x ∈ range_selectors SYSTEM_TABLE s FORWARDED_PRIORITY w None).
Proof.
  unfold system_rules. destruct (sp_system plan) as [s|]; [|split; [intros [Hx _]; by apply not_elem_of_nil in Hx|naive_solver]].
  unfold push_selectors. rewrite elem_of_app. cbn [mbind list_bind]. rewrite app_nil_r, list_elem_of_bind. split.
  - intros [[(range & Hx & Hr)|Hx] Ht]; rewrite (range_selectors_takes p _ _ _ _ _ _ Hx) in Ht; apply andb_prop in Ht as [Hf%Bool.eqb_prop Ht].
    + apply list_elem_of_fmap in Hr as (r & -> & Hr). split; [done|]. exists s. split; [done|]. left. unfold range_takes in Ht. destruct r as [a b].
      apply andb_prop in Ht as [Hl Ht]. apply andb_prop in Ht as [H1%Z.leb_le H2%Z.leb_le]. split; [done|]. by exists (a, b).
    + split; [done|]. exists s. split; [done|]. right. split; [|done]. cbn in Ht. by destruct (pk_local p).
  - intros (Hf & s' & [= <-] & [(Hl & [a b] & Hr & Hin & Hx)|[Hl Hx]]).
    + split; [left; exists (Some (a, b)); split; [done|]; by apply list_elem_of_fmap_2|].
      rewrite (range_selectors_takes p _ _ _ _ _ _ Hx), Hf, Bool.eqb_reflx. unfold in_range in Hin. cbn in Hin |- *. rewrite Hl. cbn. lia.
    + split; [by right|]. rewrite (range_selectors_takes p _ _ _ _ _ _ Hx), Hf, Bool.eqb_reflx. cbn. by rewrite Hl.
Qed.

Lemma unsorted_taken x : x ∈ unsorted_rules /\ rule_takes x p = true <->
  (x ∈ (sp_users plan ≫= user_rules w) /\ rule_takes x p = true) \/ (x ∈ system_rules plan sys_uid_max w /\ rule_takes x p = true).
Proof. unfold unsorted_rules. rewrite elem_of_app. tauto. Qed.

Lemma present_elem uid : uid ∈ present_uids plan <-> exists q s, (q, s) ∈ sp_users plan /\ as_unix_uid q = Some uid.
Proof.
  unfold present_uids. rewrite list_elem_of_omap. split; [intros ([q s] & H & E); by exists q, s|]. intros (q & s & H & E). by exists (q, s).
Qed.

Lemma service_held ranges : existsb (fun '(first, last) => (first <=? pk_uid p) && (pk_uid p <=? last)) ranges = true <-> Exists (in_range (pk_uid p)) ranges.
Proof.
  rewrite existsb_elem, Exists_exists. unfold in_range. split; intros ([a b] & Hin & H); exists (a, b); (split; [done|]); cbn in *; lia.
Qed.

Lemma forwarded_taken s x : pk_local p = false -> sp_system plan = Some s -> x ∈ unsorted_rules /\ rule_takes x p = true <->
  x ∈ range_selectors SYSTEM_TABLE s FORWARDED_PRIORITY w None /\ fr_ipv6 x = pk_ipv6 p.
Proof. intros Hl Hs. rewrite unsorted_taken, user_rule_taken, system_rule_taken, Hl, Hs. naive_solver. Qed.

Lemma present_taken q s tbl x : pk_local p = true -> (q, s) ∈ sp_users plan -> as_unix_uid q = Some (pk_uid p) ->
  table_for_uid (pk_uid p) = Some tbl -> x ∈ unsorted_rules /\ rule_takes x p = true <->
  x ∈ range_selectors tbl s USER_PRIORITY w (Some (pk_uid p, pk_uid p)) /\ fr_ipv6 x = pk_ipv6 p.
Proof.
  intros Hl Hin Eu Et. rewrite unsorted_taken, user_rule_taken, system_rule_taken. split.
  - intros [(_ & Hf & q' & s' & tbl' & Hin' & Eu' & Et' & Hx)|(Hf & s' & _ & [(_ & r & Hr & Hu & _)|[? _]])]; [..|congruence].
    + pose proof (users_unique plan _ _ _ _ _ Honce Hin Hin' Eu Eu') as [= <- <-]. by simplify_eq.
    + assert (He : Exists (in_range (pk_uid p)) (service_account_uids sys_uid_max (present_uids plan))) by (apply Exists_exists; by exists r).
      apply service_account_uids_holds in He as [_ Hn]; [|done]. destruct Hn. apply present_elem. by exists q, s.
  - intros [Hx Hf]. left. split_and!; [done..|]. by exists q, s, tbl.
Qed.

Lemma unmapped_taken x : pk_local p = true -> pk_uid p ∈ present_uids plan -> table_for_uid (pk_uid p) = None -> x ∈ unsorted_rules -> rule_takes x p = false.
Proof.
  intros Hl Hp Et Hx. apply not_true_iff_false. intros Ht. destruct (proj1 (unsorted_taken x) (conj Hx Ht)) as [H|H].
  - apply user_rule_taken in H as (_ & _ & q & s & tbl & _ & _ & Et' & _). congruence.
  - apply system_rule_taken in H as (_ & s & _ & [(_ & r & Hr & Hu & _)|[? _]]); [|congruence].
    assert (He : Exists (in_range (pk_uid p)) (service_account_uids sys_uid_max (present_uids plan))) by (apply Exists_exists; by exists r).
    by apply service_account_uids_holds in He as [_ Hn].
Qed.

Lemma service_taken s r x : pk_local p = true -> pk_uid p ∉ present_uids plan -> sp_system plan = Some s ->
  r ∈ service_account_uids sys_uid_max (present_uids plan) -> in_range (pk_uid p) r ->
  x ∈ unsorted_rules /\ rule_takes x p = true <->
  x ∈ range_selectors SYSTEM_TABLE s SYSTEM_PRIORITY w (Some r) /\ fr_ipv6 x = pk_ipv6 p.
Proof.
  intros Hl Hn Hs Hr Hu. rewrite unsorted_taken, user_rule_taken, system_rule_taken, Hs. split.
  - intros [(_ & _ & q & s' & _ & Hin & Eu & _)|(Hf & s' & [= <-] & [(_ & r' & Hr' & Hu' & Hx)|[? _]])]; [..|congruence].
    + destruct Hn. apply present_elem. by exists q, s'.
    + rewrite (ranges_disjoint _ r r' (pk_uid p) (service_account_uids_ok _ _ Hsys) Hr Hr' Hu Hu'). done.
  - intros [Hx Hf]. right. split; [done|]. exists s. split; [done|]. left. split; [done|]. by exists r.
Qed.

Lemma stranger_taken x : pk_local p = true -> pk_uid p ∉ present_uids plan -> sp_system plan = None \/ ~ service_uid sys_uid_max (pk_uid p) ->
  x ∈ unsorted_rules -> rule_takes x p = false.
Proof.
  intros Hl Hn Hs Hx. apply not_true_iff_false. intros Ht. destruct (proj1 (unsorted_taken x) (conj Hx Ht)) as [H|H].
  - apply user_rule_taken in H as (_ & _ & q & s & tbl & Hin & Eu & _). destruct Hn. apply present_elem. by exists q, s.
  - apply system_rule_taken in H as (_ & s & Es & [(_ & r & Hr & Hu & _)|[? _]]); [|congruence].
    destruct Hs as [Hs|Hs]; [congruence|]. destruct Hs.
    assert (He : Exists (in_range (pk_uid p)) (service_account_uids sys_uid_max (present_uids plan))) by (apply Exists_exists; by exists r).
    by apply service_account_uids_holds in He as [? _].
Qed.
End Senders.

Lemma range_selectors_band tbl selector priority w range x : x ∈ range_selectors tbl selector priority w range ->
  priority <= fr_priority x <= priority + 2.
Proof.
  unfold range_selectors. rewrite elem_of_app. intros [Hx|Hx].
  - repeat case_match; rewrite ?elem_of_cons, ?elem_of_nil in Hx;
      repeat match goal with H : _ \/ _ |- _ => destruct H as [->|H] | H : False |- _ => destruct H end; cbn; lia.
  - destruct w; [|by apply not_elem_of_nil in Hx]. apply list_elem_of_singleton in Hx as ->. cbn. lia.
Qed.

Lemma unsorted_band plan sys_uid_max w x : x ∈ unsorted_rules plan sys_uid_max w -> BAND_START <= fr_priority x <= BAND_END.
Proof.
  unfold unsorted_rules. rewrite elem_of_app. intros [(us & Hx & _)%list_elem_of_bind|Hx].
  - unfold user_rules in Hx. destruct (as_unix_uid us.1 ≫= _) as [[uid tbl]|]; [|by apply not_elem_of_nil in Hx].
    apply list_elem_of_bind in Hx as (range & Hx & _). apply range_selectors_band in Hx. unfold USER_PRIORITY, BAND_START, BAND_END in *. lia.
  - unfold system_rules in Hx. case_match; [|by apply not_elem_of_nil in Hx].
    apply elem_of_app in Hx as [Hx|Hx]; apply list_elem_of_bind in Hx as (range & Hx & _); apply range_selectors_band in Hx;
      unfold SYSTEM_PRIORITY, FORWARDED_PRIORITY, BAND_START, BAND_END in *; lia.
Qed.

(** The rules that take a packet are those of its sender's table, one after the other. *)
Lemma taken_rules plan sys_uid_max w p : 0 <= sys_uid_max -> 0 <= pk_uid p -> users_once plan ->
  match senders_table plan sys_uid_max p with
  | Some (tbl, selector) => exists priority range, BAND_START <= priority /\ priority + 2 <= BAND_END /\ range_takes p range = true
      /\ forall x, x ∈ unsorted_rules plan sys_uid_max w /\ rule_takes x p = true
                   <-> x ∈ range_selectors tbl selector priority w range /\ fr_ipv6 x = pk_ipv6 p
  | None => forall x, x ∈ unsorted_rules plan sys_uid_max w -> rule_takes x p = false
  end.
Proof.
  intros Hsys Huid Honce. unfold senders_table. destruct (pk_local p) eqn:Hl.
  - destruct (List.find _ (sp_users plan)) as [[q s]|] eqn:Ef.
    + apply find_some in Ef as [Hin%list_elem_of_In Eu%bool_decide_eq_true]. cbn in Eu. destruct (table_for_uid (pk_uid p)) as [tbl|] eqn:Et; cbn.
      * exists USER_PRIORITY, (Some (pk_uid p, pk_uid p)). split_and!; [done..|cbn; rewrite Hl, Z.leb_refl; done|].
        intros x. by apply (present_taken plan sys_uid_max w p Huid Honce q).
      * intros x. apply unmapped_taken; [done..|apply present_elem; by exists q, s|done].
    + assert (Hn : pk_uid p ∉ present_uids plan).
      { rewrite present_elem. intros (q & s & Hin & Eu). pose proof (find_none _ _ Ef (q, s) (proj1 (list_elem_of_In _ _) Hin)) as H.
        cbn in H. by apply bool_decide_eq_false in H. }
      destruct (existsb _ _) eqn:Eh.
      * apply service_held in Eh. apply service_account_uids_holds in Eh as [Hs _]; [|done].
        pose proof (proj2 (service_account_uids_holds sys_uid_max (present_uids plan) _ Huid) (conj Hs Hn)) as (r & Hr & Hu)%Exists_exists.
        destruct (sp_system plan) as [s|] eqn:Es; cbn.
        -- exists SYSTEM_PRIORITY, (Some r). split_and!; [done..| |].
           ++ destruct r as [a b]. unfold in_range in Hu. cbn in *. rewrite Hl. cbn. lia.
           ++ intros x. by apply service_taken.
        -- intros x. apply stranger_taken; auto.
      * intros x. apply stranger_taken; [done..|right]. intros Hs. apply not_true_iff_false in Eh. destruct Eh.
        apply service_held, service_account_uids_holds; [done|]. split; [done|]. apply not_elem_of_nil.
  - destruct (sp_system plan) as [s|] eqn:Es; cbn.
    + exists FORWARDED_PRIORITY, None. split_and!; [done..|cbn; by rewrite Hl|]. intros x. by apply forwarded_taken.
    + intros x Hx. apply not_true_iff_false. intros Ht.
      destruct (proj1 (unsorted_taken plan sys_uid_max w p x) (conj Hx Ht)) as [(Hl' & _)%user_rule_taken|(_ & s & Hs & _)%system_rule_taken]; congruence.
Qed.

Lemma senders_walk {R} (lookup : Z -> option (Z * R)) (behind : option (Z * R)) plan sys_uid_max w p :
  0 <= sys_uid_max -> 0 <= pk_uid p -> users_once plan ->
  fib_walk lookup p (selector_rules plan sys_uid_max w) behind
  = match senders_table plan sys_uid_max p with
    | Some (tbl, selector) =>
        if pk_ipv6 p && negb w then behind
        else asked_in_turn (overlay_of selector (pk_ipv6 p)) (lookup tbl) (lookup RT_TABLE_MAIN) behind
    | None => behind
    end.
Proof.
  intros Hsys Huid Honce. pose proof (taken_rules plan sys_uid_max w p Hsys Huid Honce) as Ht. unfold selector_rules.
  fold (unsorted_rules plan sys_uid_max w). destruct (senders_table plan sys_uid_max p) as [[tbl selector]|]; [|by apply walk_none].
  destruct Ht as (priority & range & _ & _ & Hr & Hx). by apply (walk_one _ _ _ _ tbl selector priority w range).
Qed.

(** *** Among everybody's rules *)

(** The first answer in a list in order is that of the first element that answers. *)
Lemma first_answer {A B} (f : A -> option B) (rank : A -> Z) l b : StronglySorted (fun x y => rank x <= rank y) l ->
  (forall x y, x ∈ l -> y ∈ l -> is_Some (f x) -> is_Some (f y) -> rank x = rank y -> f x = f y) ->
  head (omap f l) = Some b <-> exists x, x ∈ l /\ f x = Some b /\ forall y, y ∈ l -> is_Some (f y) -> rank x <= rank y.
Proof.
  induction 1 as [|x l _ IH Hx]; intros Hinj; cbn.
  { split; [done|]. intros (x & ?%not_elem_of_nil & _). done. }
  rewrite Forall_forall in Hx. destruct (f x) as [b'|] eqn:E; cbn.
  - split.
    + intros [= <-]. exists x. split_and!; [by left|done|]. intros y [->|Hy]%elem_of_cons _; [lia|by apply Hx].
    + intros (y & Hy & Ey & Hmin). apply elem_of_cons in Hy as [->|Hy]; [congruence|].
      assert (Hle : rank y <= rank x) by (apply Hmin; [by left|by eexists]). specialize (Hx y Hy).
      assert (f x = f y) as Exy by (apply Hinj; [by left|by right|by eexists|by eexists|lia]). congruence.
  - rewrite IH by (intros y z Hy Hz; apply Hinj; by right). setoid_rewrite elem_of_cons. split.
    + intros (y & Hy & Ey & Hmin). exists y. split_and!; [by right|done|]. intros z [->|Hz] [c Hc]; [congruence|]. apply Hmin; [done|by eexists].
    + intros (y & [->|Hy] & Ey & Hmin); [congruence|]. exists y. split_and!; [done..|]. intros z Hz. apply Hmin. by right.
Qed.

Lemma first_answer_none {A B} (f : A -> option B) l : head (omap f l) = None <-> forall x, x ∈ l -> f x = None.
Proof.
  induction l as [|x l IH]; cbn; [split; [by intros _ x ?%not_elem_of_nil|done]|]. setoid_rewrite elem_of_cons.
  destruct (f x) as [b|] eqn:E; cbn; [split; [done|]; intros H; specialize (H x (or_introl eq_refl)); congruence|].
  rewrite IH. naive_solver.
Qed.

Lemma omap_filter {A B} (f : A -> option B) (q : A -> bool) l : (forall x, q x = false -> f x = None) -> omap f (List.filter q l) = omap f l.
Proof.
  intros Hq. induction l as [|x l IH]; [done|]. cbn. destruct (q x) eqn:E; cbn; rewrite IH; [done|]. by rewrite Hq.
Qed.

Lemma fib_walk_head {R} (lookup : Z -> option (Z * R)) p rules behind :
  fib_walk lookup p rules behind = match head (omap (our_answer lookup p) rules) with Some a => Some a | None => behind end.
Proof.
  induction rules as [|r rules IH]; [done|]. cbn. unfold our_answer at 1. destruct (rule_takes r p); [|done].
  destruct (lookup (fr_table r)) as [[len row]|]; cbn; [|done]. by destruct (suppressed _ _).
Qed.

(** In front, ours and behind: the three parts of a sorted list. *)
Lemma walk_parts {R} (lookup : Z -> option (Z * R)) p ours (rules : list (KernelRule R)) :
  kernel_list p ours rules -> (forall r, ours r -> BAND_START <= fr_priority r <= BAND_END) ->
  kernel_walk lookup p rules
  = match answered_in_front rules with
    | Some a => Some a
    | None => match head (omap (fun r => match r with OurRule r => our_answer lookup p r | OtherRule _ _ => None end) rules) with
              | Some a => Some a
              | None => answered_behind rules
              end
    end.
Proof.
  intros [Hs Ho Hb] Hband. unfold kernel_walk, answered_in_front, answered_behind.
  assert (Ho' : forall r, OurRule r ∈ rules -> BAND_START <= fr_priority r <= BAND_END) by (intros r [Hr _]%Ho; by apply Hband).
  clear Ho Hband ours. induction Hs as [|x rules _ IH Hx]; [done|]. rewrite Forall_forall in Hx.
  specialize (IH ltac:(intros ? ? ?; eapply Hb; by right) ltac:(intros ? ?; apply Ho'; by right)). cbn. destruct x as [r|pr answer].
  - specialize (Ho' r ltac:(by left)). destruct (our_answer lookup p r) as [a|] eqn:E; cbn; [|exact IH].
    assert (Hf : forall y, y ∈ rules -> match y with OtherRule priority answer => if priority <? BAND_START then answer else None | OurRule _ => None end = None).
    { intros [r'|pr answer] Hy; [done|]. specialize (Hx _ Hy). cbn in Hx. destruct (Z.ltb_spec pr BAND_START); [lia|done]. }
    apply first_answer_none in Hf. by rewrite Hf.
  - destruct (Hb pr answer ltac:(by left)) as [Hlt|Hlt].
    + rewrite (proj2 (Z.ltb_lt _ _) Hlt). rewrite (proj2 (Z.ltb_ge BAND_END pr)) by (unfold BAND_END, BAND_START in *; lia).
      destruct answer as [a|]; [done|]. cbn. exact IH.
    + rewrite (proj2 (Z.ltb_ge pr BAND_START)) by (unfold BAND_END, BAND_START in *; lia). rewrite (proj2 (Z.ltb_lt _ _) Hlt).
      assert (Hf : forall y, y ∈ rules -> match y with OtherRule priority answer => if priority <? BAND_START then answer else None | OurRule _ => None end = None).
      { intros [r'|pr' answer'] Hy; [done|]. specialize (Hx _ Hy). cbn in Hx. destruct (Z.ltb_spec pr' BAND_START); [unfold BAND_END, BAND_START in *; lia|done]. }
      assert (Hg : forall y, y ∈ rules -> match y with OurRule r => our_answer lookup p r | OtherRule _ _ => None end = None).
      { intros [r|] Hy; [|done]. specialize (Hx _ Hy). cbn in Hx. specialize (Ho' r ltac:(by right)). unfold BAND_END, BAND_START in *. lia. }
      apply first_answer_none in Hf, Hg. rewrite Hf, Hg in IH |- *. cbn in IH |- *. destruct answer; [done|]. cbn. exact IH.
Qed.

(** Sorted otherwise, our rules answer alike: those that take a packet have priorities of
    their own. *)
Lemma our_part {R} (lookup : Z -> option (Z * R)) plan sys_uid_max w p (rules : list (KernelRule R)) :
  0 <= sys_uid_max -> 0 <= pk_uid p -> users_once plan ->
  kernel_list p (fun r => r ∈ selector_rules plan sys_uid_max w) rules ->
  head (omap (fun r => match r with OurRule r => our_answer lookup p r | OtherRule _ _ => None end) rules)
  = head (omap (our_answer lookup p) (selector_rules plan sys_uid_max w)).
Proof.
  intros Hsys Huid Honce [Hs Ho Hb]. set (f := fun r : KernelRule R => match r with OurRule r => our_answer lookup p r | OtherRule _ _ => None end).
  assert (Hfam : forall r, is_Some (our_answer lookup p r) -> rule_takes r p = true /\ fr_ipv6 r = pk_ipv6 p).
  { intros r [a Ha]. unfold our_answer in Ha. destruct (rule_takes r p) eqn:E; [|done]. split; [done|]. unfold rule_takes in E.
    rewrite !andb_true_iff in E. by apply Bool.eqb_prop, E. }
  assert (Hsel : forall r, r ∈ selector_rules plan sys_uid_max w <-> r ∈ unsorted_rules plan sys_uid_max w)
    by (intros r; unfold selector_rules; by rewrite dedup_elem, sort_by_elem_of).
  assert (Hinj : forall r r', r ∈ selector_rules plan sys_uid_max w -> r' ∈ selector_rules plan sys_uid_max w ->
    is_Some (our_answer lookup p r) -> is_Some (our_answer lookup p r') -> fr_priority r = fr_priority r' -> r = r').
  { intros r r' Hr%Hsel Hr'%Hsel [Ht Hf]%Hfam [Ht' Hf']%Hfam Hp. pose proof (taken_rules plan sys_uid_max w p Hsys Huid Honce) as H.
    destruct (senders_table plan sys_uid_max p) as [[tbl selector]|]; [|by rewrite H in Ht].
    destruct H as (priority & range & _ & _ & _ & H). destruct (proj1 (H r) (conj Hr Ht)) as [Hin _]. destruct (proj1 (H r') (conj Hr' Ht')) as [Hin' _].
    apply (family_selectors_priority p tbl selector priority w range); [by apply family_selectors_elem..|done]. }
  set (mine := List.filter (fun r => rule_takes r p) (selector_rules plan sys_uid_max w)).
  assert (Hmine : head (omap (our_answer lookup p) (selector_rules plan sys_uid_max w)) = head (omap (our_answer lookup p) mine)).
  { f_equal. symmetry. apply omap_filter. intros r Hr. unfold our_answer. by rewrite Hr. }
  rewrite Hmine. assert (Hsorted : StronglySorted (fun x y => fr_priority x <= fr_priority y) mine).
  { assert (Hl : StronglySorted rule_lt mine) by (apply rule_lt_filter, dedup_sort_strict).
    assert (Hall : forall r, r ∈ mine -> fr_ipv6 r = pk_ipv6 p).
    { intros r [_ Ht]%filter_elem. unfold rule_takes in Ht. rewrite !andb_true_iff in Ht. by apply Bool.eqb_prop, Ht. }
    clear -Hl Hall. induction Hl as [|x l _ IH Hx]; constructor.
    - apply IH. intros r Hr. apply Hall. by right.
    - rewrite Forall_forall in Hx |- *. intros y Hy. destruct (Hx y Hy) as [Hle _]. apply rule_cmp_priority; [|done]. rewrite !Hall; [done|by right|by left]. }
  assert (Hiff : forall b, head (omap f rules) = Some b <-> head (omap (our_answer lookup p) mine) = Some b).
  { intros b. rewrite (first_answer f rule_priority), (first_answer (our_answer lookup p) fr_priority); [|done| |done|].
    - split.
      + intros ([r|pr a] & Hr & Er & Hmin); [|done]. cbn in Er. destruct (proj1 (Ho r) Hr) as [Hin _]. exists r. split_and!; [|done|].
        * apply filter_elem. split; [done|]. apply Hfam. by eexists.
        * intros y [Hy _]%filter_elem Hsy. apply (Hmin (OurRule y)); [|done]. apply Ho. split; [done|by apply Hfam].
      + intros (r & Hr & Er & Hmin). exists (OurRule r). apply filter_elem in Hr as [Hr _]. split_and!; [|done|].
        * apply Ho. split; [done|]. apply Hfam. by eexists.
        * intros [y|pr a] Hy Hsy; [|exfalso; exact (is_Some_None Hsy)]. apply Hmin; [|done]. apply filter_elem. apply Ho in Hy as [Hy _]. split; [done|by apply Hfam].
    - intros x y [Hx _]%filter_elem [Hy _]%filter_elem Hsx Hsy Hp. f_equal. by apply Hinj.
    - intros [x|] [y|] Hx Hy Hsx Hsy Hp; try (exfalso; exact (is_Some_None Hsx)); try (exfalso; exact (is_Some_None Hsy)). apply Ho in Hx as [Hx _], Hy as [Hy _]. cbn. f_equal. by apply Hinj. }
  destruct (head (omap f rules)) as [b|] eqn:E1; [by symmetry; apply Hiff|].
  destruct (head (omap (our_answer lookup p) mine)) as [b|] eqn:E2; [|done]. by apply Hiff.
Qed.

Lemma senders_walk_full {R} (lookup : Z -> option (Z * R)) plan sys_uid_max w p (rules : list (KernelRule R)) :
  0 <= sys_uid_max -> 0 <= pk_uid p -> users_once plan ->
  kernel_list p (fun r => r ∈ selector_rules plan sys_uid_max w) rules ->
  kernel_walk lookup p rules
  = match answered_in_front rules with
    | Some a => Some a
    | None =>
        match senders_table plan sys_uid_max p with
        | Some (tbl, selector) =>
            if pk_ipv6 p && negb w then answered_behind rules
            else asked_in_turn (overlay_of selector (pk_ipv6 p)) (lookup tbl) (lookup RT_TABLE_MAIN) (answered_behind rules)
        | None => answered_behind rules
        end
    end.
Proof.
  intros Hsys Huid Honce Hl. rewrite (walk_parts lookup p _ rules Hl).
  - destruct (answered_in_front rules); [done|]. rewrite <- senders_walk, fib_walk_head by done. by rewrite (our_part lookup plan sys_uid_max w p).
  - intros r Hr. unfold selector_rules in Hr. rewrite dedup_elem, sort_by_elem_of in Hr. by apply (unsorted_band plan sys_uid_max w).
Qed.


(** Two users, one with overlays, and the service accounts. *)
Definition two_users : SelectorPlan :=
  mkSelectorPlan [(from_linux_uid 1000, mkSelector (Some 1)); (from_linux_uid 1001, mkSelector None)] (Some (mkSelector (Some 1))).

(** The first user's table holds overlays and a /16, the second's a host route. *)
Definition some_tables (n : Z) : option (Z * str) :=
  if n =? PRINCIPAL_TABLE_BASE + 1000 then Some (16, u "tunnel")
  else if n =? PRINCIPAL_TABLE_BASE + 1001 then Some (32, u "modem")
  else if n =? SYSTEM_TABLE then Some (1, u "tunnel")
  else if n =? RT_TABLE_MAIN then Some (24, u "lan")
  else None.

Lemma two_users_once : users_once two_users.
Proof. apply (bool_decide_eq_true_1 (NoDup (present_uids two_users))). by vm_compute. Qed.

(** The rules of the plan, with a firewall's in front that passes the packet on and [main]
    behind. *)
Definition walked_rules : list (KernelRule str) :=
  OtherRule 0 None :: (OurRule <$> List.filter (fun r => negb (fr_ipv6 r)) (selector_rules two_users 999 true)) ++ [OtherRule 32766 (Some (24, u "lan"))].

Lemma walked_rules_ok uid : kernel_list (mkPacket false uid true) (fun r => r ∈ selector_rules two_users 999 true) walked_rules.
Proof.
  split.
  - unfold walked_rules. vm_compute. repeat constructor; by vm_compute.
  - intros r. unfold walked_rules. rewrite elem_of_cons, elem_of_app, list_elem_of_singleton, list_elem_of_fmap. split.
    + intros [[=]|[(r' & [= <-] & [Hr Hf]%filter_elem)|[=]]]. split; [done|]. cbn. by destruct (fr_ipv6 r).
    + intros [Hr Hf]. right. left. exists r. split; [done|]. apply filter_elem. split; [done|]. cbn in Hf. by rewrite Hf.
  - intros pr answer. unfold walked_rules. rewrite elem_of_cons, elem_of_app, list_elem_of_singleton, list_elem_of_fmap.
    intros [[= -> _]|[(r & [=] & _)|[= -> _]]]; [left|right]; by vm_compute.
Qed.


(** C23. When the rules keep the longest prefix. A table with overlays no longer than [o]
    and [main] both answer a packet; the rules give the answer of the longer prefix
    exactly unless [main]'s is the longer and the table's is past its overlays or
    [main]'s is shorter than them. *)
Theorem longest_prefix_exact {R} (lookup : Z -> option (Z * R)) (behind : option (Z * R)) (plan : SelectorPlan) (sys_uid_max : Z)
    (w : bool) (p : Packet) (tbl : Z) (selector : TableSelector) (o len slen : Z) (row srow : R) :
  0 <= sys_uid_max -> 0 <= pk_uid p -> users_once plan ->
  senders_table plan sys_uid_max p = Some (tbl, selector) -> overlay_of selector (pk_ipv6 p) = Some o ->
  lookup tbl = Some (len, row) -> lookup RT_TABLE_MAIN = Some (slen, srow) ->
  (exists r, fib_walk lookup p (selector_rules plan sys_uid_max w) behind = Some (Z.max len slen, r))
  <-> ~ (len < slen /\ (o < len \/ slen < o)).
Proof.
  intros Hsys Huid Honce Hs Ho Hown Hmain. rewrite senders_walk, Hs, Ho, Hown, Hmain by done.
  assert (pk_ipv6 p = false) as -> by (unfold overlay_of in Ho; by destruct (pk_ipv6 p)). cbn.
  destruct (Z.ltb_spec o len); [|destruct (Z.leb_spec o slen)].
  all: split; [intros (r & [= Hlen _]); lia|intros Hn; eexists; do 2 f_equal; lia].
Qed.

(** A network rule's /16 past overlays of /1 takes the attached segment's /24. *)
Lemma longest_prefix_exact_witness :
  fib_walk some_tables (mkPacket false 1000 true) (selector_rules two_users 999 true) None = Some (16, u "tunnel")
  /\ ((exists r, fib_walk some_tables (mkPacket false 1000 true) (selector_rules two_users 999 true) None = Some (Z.max 16 24, r))
      <-> ~ (16 < 24 /\ (1 < 16 \/ 24 < 1))).
Proof.
  split; [by vm_compute|].
  apply (longest_prefix_exact some_tables None two_users 999 true (mkPacket false 1000 true) (PRINCIPAL_TABLE_BASE + 1000)
           (mkSelector (Some 1)) 1 16 24 (u "tunnel") (u "lan"));
    [by vm_compute|by vm_compute|exact two_users_once|by vm_compute..].
Defined.

(** ** The pass against the kernel *)

(** A rule whose uid range the kernel dropped. *)
Definition without_uids (r : FibRule) : FibRule :=
  mkFibRule (fr_ipv6 r) (fr_priority r) (fr_table r) None (fr_suppress_prefixlen r) (fr_iif_lo r) (fr_narrowed r) (fr_forwarded r).

(** A dumped body is octets. *)
Definition raw_wf (raw : RawFibRule) : Prop := Forall (fun b => (b < 256)%N) (raw_body raw).

(** The rule selects by the ingress device [lo]. *)
Definition has_lo (r : FibRule) : bool := fr_iif_lo r || fr_forwarded r.

(** What a request to delete [d] matches: the same family, priority and table, and of the
    rest only what the request carries. A request without a suppressed length, a uid range or a
    device matches a rule with any. *)
Definition delete_matches (d r : FibRule) : bool :=
  Bool.eqb (fr_ipv6 d) (fr_ipv6 r) && (fr_priority d =? fr_priority r) && (fr_table d =? fr_table r)
  && (bool_decide (fr_suppress_prefixlen d = None) || bool_decide (fr_suppress_prefixlen d = fr_suppress_prefixlen r))
  && (bool_decide (fr_uid_range d = None) || bool_decide (fr_uid_range d = fr_uid_range r))
  && (negb (has_lo d) || has_lo r).

(** What an add of [r] is refused over: everything it selects by is the same; an inversion
    is not compared. *)
Definition twin_rule (r x : FibRule) : Prop :=
  fr_ipv6 x = fr_ipv6 r /\ fr_priority x = fr_priority r /\ fr_table x = fr_table r /\ fr_uid_range x = fr_uid_range r
  /\ fr_suppress_prefixlen x = fr_suppress_prefixlen r /\ has_lo x = has_lo r.

Abbreviation DEL_FLAGS := (Z.lor NLM_F_REQUEST NLM_F_ACK).

(** What the pass relies on from the kernel: [rules_of k] are its rules that look up a
    table, in its order.
    - A dump lists them in that order, as octets and as numbers of their widths.
    - An exclusive add that is acknowledged puts in the rule, or on an old kernel the rule
      without its uid range, behind every rule of its family and priority; one refused
      puts in nothing, and refused as a conflict a twin of one of the two is there.
    - A delete of a rule of ours that stands takes out the first rule it matches when it
      is acknowledged, and is not refused as already gone. A delete by a dumped body takes
      out at most a rule of its family and priority. One refused takes out nothing.
    - A refusal is an error number. *)
Class RuleLaws (big_endian : bool) (sequence : Z) {F : Type} `{!Libc, !RuleKernel F} := {
  rules_of : F -> list FibRule;
  rl_dump : forall k l, get_fib_rules big_endian sequence k = Ok l -> l = rules_of k;
  rl_wf : forall k r, r ∈ rules_of k -> is_our_rule r = true -> fib_rule_wf r;
  rl_raw : forall k l raw, get_raw_fib_rules big_endian sequence k = Ok l -> raw ∈ l -> raw_wf raw;
  rl_add : forall k k' body r, rule_request k (nl_frame big_endian RTM_NEWRULE NEW_FLAGS sequence body) = (k', Ok tt) ->
    parse_rule_message big_endian body = Some r ->
    exists r' l1 l2, (r' = r \/ r' = without_uids r) /\ rules_of k = l1 ++ l2 /\ rules_of k' = l1 ++ r' :: l2
      /\ forall x, x ∈ l2 -> fr_ipv6 x = fr_ipv6 r -> fr_priority r < fr_priority x;
  rl_add_other : forall k k' body, rule_request k (nl_frame big_endian RTM_NEWRULE NEW_FLAGS sequence body) = (k', Ok tt) ->
    parse_rule_message big_endian body = None -> rules_of k' = rules_of k;
  rl_conflict : forall k k' body r e, rule_request k (nl_frame big_endian RTM_NEWRULE NEW_FLAGS sequence body) = (k', Err e) ->
    parse_rule_message big_endian body = Some r -> classify e = Conflict ->
    exists x, x ∈ rules_of k /\ (twin_rule r x \/ twin_rule (without_uids r) x);
  rl_delete : forall k k' body d, rule_request k (nl_frame big_endian RTM_DELRULE DEL_FLAGS sequence body) = (k', Ok tt) ->
    parse_rule_message big_endian body = Some d -> is_our_rule d = true -> d ∈ rules_of k ->
    exists l1 r l2, rules_of k = l1 ++ r :: l2 /\ rules_of k' = l1 ++ l2 /\ delete_matches d r = true
      /\ forall x, x ∈ l1 -> delete_matches d x = false;
  rl_gone : forall k k' body d e, rule_request k (nl_frame big_endian RTM_DELRULE DEL_FLAGS sequence body) = (k', Err e) ->
    parse_rule_message big_endian body = Some d -> classify e = Idempotent -> is_our_rule d = true -> d ∉ rules_of k;
  rl_delete_raw : forall k k' body raw, rule_request k (nl_frame big_endian RTM_DELRULE DEL_FLAGS sequence body) = (k', Ok tt) ->
    parse_raw_rule big_endian body = Some raw -> 0 < raw_priority raw ->
    rules_of k' = rules_of k \/ exists l1 r l2, rules_of k = l1 ++ r :: l2 /\ rules_of k' = l1 ++ l2
      /\ fr_ipv6 r = raw_ipv6 raw /\ fr_priority r = raw_priority raw;
  rl_refused : forall k k' message e, rule_request k message = (k', Err e) ->
    (exists operation code message, e = Errno operation code message) /\ rules_of k' = rules_of k;
  rl_unread : forall k l e, rule_dump k (encode_rule_dump big_endian sequence) = (l, e) -> exists operation code message, e = Errno operation code message;
}.
Arguments rules_of {big_endian sequence F _ _ _} k.

(** Nobody else keeps a rule in our band. *)
Definition band_ours (rules : list FibRule) : Prop :=
  forall r, r ∈ rules -> BAND_START <= fr_priority r <= BAND_END -> is_our_rule r = true.

(** No rule of ours stands behind another one that a delete of it would match. *)
Definition told_apart (rules : list FibRule) : Prop :=
  forall l1 x l2 d, rules = l1 ++ x :: l2 -> d ∈ l2 -> is_our_rule d = true -> delete_matches d x = true -> d = x.

(** No rule of ours selects everybody: one without a uid range is for what the machine
    forwards, where those go. *)
Definition ranged (rules : list FibRule) : Prop :=
  forall r, r ∈ rules -> is_our_rule r = true -> fr_uid_range r = None -> fr_forwarded r = true /\ FORWARDED_PRIORITY <= fr_priority r.

(** The overlays of a plan are IPv4 prefix lengths. *)
Definition plan_wf (plan : SelectorPlan) : Prop :=
  (forall q s o, (q, s) ∈ sp_users plan -> overlay_prefix_v4 s = Some o -> o < 256)
  /\ (forall s o, sp_system plan = Some s -> overlay_prefix_v4 s = Some o -> o < 256).

(** A rule the pass writes: ours, of its widths, and with a uid range and the device [lo]
    unless it is for what the machine forwards, which is where those go. *)
Definition selector_ok (r : FibRule) : Prop :=
  fib_rule_wf r /\ is_our_rule r = true /\ (fr_forwarded r = true <-> fr_uid_range r = None) /\ fr_iif_lo r = negb (fr_forwarded r)
  /\ (fr_forwarded r = true <-> FORWARDED_PRIORITY <= fr_priority r).

Lemma is_our_rule_without r : is_our_rule (without_uids r) = is_our_rule r.
Proof. done. Qed.

Lemma selector_rule_ok range ipv6 priority tbl suppress : 30100 <= priority <= 30119 -> (range = None <-> 30115 <= priority) ->
  is_our_table tbl || (tbl =? RT_TABLE_MAIN) = true -> 0 <= tbl < 2 ^ 32 ->
  (forall first last, range = Some (first, last) -> 0 <= first < 2 ^ 32 /\ 0 <= last < 2 ^ 32) ->
  (forall o, suppress = Some o -> 0 <= o < 256) -> selector_ok (selector_rule range ipv6 priority tbl suppress).
Proof.
  intros Hp Hf Ht Htw Hr Hs. unfold selector_ok, fib_rule_wf, selector_rule. cbn. split_and!; try lia; try done.
  - intros ->%bool_decide_eq_true. done.
  - unfold is_our_rule, BAND_START, BAND_END. cbn. rewrite Ht, andb_true_r. lia.
  - rewrite bool_decide_eq_true. done.
  - by destruct range.
  - rewrite bool_decide_eq_true. done.
Qed.

Lemma range_selectors_ok tbl selector priority w range x : x ∈ range_selectors tbl selector priority w range ->
  30100 <= priority <= 30117 -> match range with Some _ => priority <= 30112 | None => 30115 <= priority end -> is_our_table tbl = true -> 0 <= tbl < 2 ^ 32 ->
  (forall first last, range = Some (first, last) -> 0 <= first < 2 ^ 32 /\ 0 <= last < 2 ^ 32) ->
  (forall o, overlay_prefix_v4 selector = Some o -> o < 256) -> selector_ok x.
Proof.
  intros Hx Hp Hf Ht Htw Hr Ho. assert (Hat : forall pr, priority <= pr <= priority + 2 -> range = None <-> 30115 <= pr) by (intros pr ?; destruct range; naive_solver lia).
  unfold range_selectors in Hx. apply elem_of_app in Hx as [Hx|Hx].
  - assert (Hone : x ∈ [selector_rule range false priority tbl None] -> selector_ok x)
      by (intros ->%list_elem_of_singleton; apply selector_rule_ok; [lia|apply Hat; lia|by rewrite Ht|done..]).
    destruct (overlay_prefix_v4 selector) as [o|] eqn:Eo; [|by apply Hone]. destruct (Z.ltb_spec 0 o); [|by apply Hone]. specialize (Ho o eq_refl).
    rewrite !elem_of_cons, elem_of_nil in Hx.
    destruct Hx as [->|[->|[->|[]]]]; apply selector_rule_ok; try done; try lia; try (apply Hat; lia); try (by rewrite Ht); intros ? [= <-]; lia.
  - destruct w; [|by apply not_elem_of_nil in Hx]. apply list_elem_of_singleton in Hx as ->. apply selector_rule_ok; [lia|apply Hat; lia|by rewrite Ht|done..].
Qed.

Lemma parse_digits_le b max acc s n : (acc <= max)%N -> parse_digits b max acc s = Some n -> (n <= max)%N.
Proof.
  revert acc. induction s as [|c s IH]; intros acc Hacc; cbn; [by intros [= <-]|]. destruct (to_digit b c); [|done].
  case_match eqn:E; [|done]. by apply IH, N.leb_le.
Qed.

Lemma parse_uint_le max s n : parse_uint max s = Some n -> (n <= max)%N.
Proof.
  unfold parse_uint. destruct s as [|c s]; [done|]. case_match; [destruct s; [done|]|]; apply parse_digits_le; lia.
Qed.

Lemma as_unix_uid_range q uid : as_unix_uid q = Some uid -> 0 <= uid < 2 ^ 32.
Proof.
  destruct q as [|stored]; [done|]. cbn. intros H. apply bind_Some in H as (digits & _ & H). apply fmap_Some in H as (n & Hn & ->).
  unfold parse_u32 in Hn. apply parse_uint_le in Hn. lia.
Qed.

Lemma carve_bounds uids ranges hi : ranges_ok ranges -> Forall (fun r => 0 <= r.1 /\ r.2 <= hi) ranges ->
  Forall (fun r => 0 <= r.1 /\ r.2 <= hi) (fold_left (fun ranges uid => ranges ≫= carve_uid uid) uids ranges).
Proof.
  revert ranges. induction uids as [|uid uids IH]; intros ranges Hok Hb; [done|]. cbn. apply IH; [by apply carve_ok|].
  apply Forall_forall. intros r (s & Hr & Hs)%list_elem_of_bind. destruct Hok as [Hle _]. rewrite Forall_forall in Hle, Hb.
  specialize (Hb s Hs). apply carve_uid_within in Hr; [lia|by apply Hle].
Qed.

Lemma service_account_bounds sys_uid_max present r : 0 <= sys_uid_max < 2 ^ 32 -> r ∈ service_account_uids sys_uid_max present ->
  0 <= r.1 < 2 ^ 32 /\ 0 <= r.2 < 2 ^ 32.
Proof.
  intros Hs Hr. pose proof (service_account_uids_ok sys_uid_max present (proj1 Hs)) as [Hle _]. rewrite Forall_forall in Hle. specialize (Hle r Hr).
  assert (Hb : Forall (fun r => 0 <= r.1 /\ r.2 <= Z.max 65534 sys_uid_max) (service_account_uids sys_uid_max present)).
  { apply carve_bounds; [apply service_ranges_ok, Hs|]. unfold service_ranges, DYNAMIC_USER_UIDS, NOBODY_UID.
    destruct (Z.ltb_spec sys_uid_max 61184), (Z.ltb_spec sys_uid_max 65519), (Z.ltb_spec (Z.max 65519 sys_uid_max) 65534); cbn [app];
      rewrite ?Forall_cons, ?Forall_nil; cbn [fst snd]; lia. }
  rewrite Forall_forall in Hb. specialize (Hb r Hr). cbn in *. lia.
Qed.

Lemma our_table_of_uid uid tbl : 0 <= uid -> table_for_uid uid = Some tbl -> is_our_table tbl = true /\ 0 <= tbl < 2 ^ 32.
Proof.
  intros Hu. unfold table_for_uid, LAST_MAPPED_UID, RT_TABLE_MAX, PRINCIPAL_TABLE_BASE. case_match; [|done]. intros [= <-].
  unfold is_our_table, SYSTEM_TABLE, PRINCIPAL_TABLE_BASE, RT_TABLE_MAX. lia.
Qed.

Lemma user_rules_ok q s w x : (forall o, overlay_prefix_v4 s = Some o -> o < 256) -> x ∈ user_rules w (q, s) -> selector_ok x.
Proof.
  intros Ho Hx. unfold user_rules in Hx. cbn [fst snd] in Hx.
  destruct (as_unix_uid q) as [uid|] eqn:Eu; [|by apply not_elem_of_nil in Hx]. apply as_unix_uid_range in Eu. cbn [mbind option_bind] in Hx.
  destruct (table_for_uid uid) as [tbl|] eqn:Et; [|by apply not_elem_of_nil in Hx]. apply our_table_of_uid in Et as [Ht Hw]; [|lia].
  cbn [fmap option_fmap option_map] in Hx. apply list_elem_of_bind in Hx as (range & Hx & ->%list_elem_of_singleton).
  apply (range_selectors_ok _ _ _ _ _ _ Hx); [unfold USER_PRIORITY; lia|done|done|done| |done]. intros ? ? [= <- <-]. lia.
Qed.

Lemma system_rules_ok plan sys_uid_max w x : 0 <= sys_uid_max < 2 ^ 32 ->
  (forall s o, sp_system plan = Some s -> overlay_prefix_v4 s = Some o -> o < 256) -> x ∈ system_rules plan sys_uid_max w -> selector_ok x.
Proof.
  intros Hsys Hs Hx. assert (Ht : is_our_table SYSTEM_TABLE = true) by done. assert (Hw : 0 <= SYSTEM_TABLE < 2 ^ 32) by done.
  unfold system_rules in Hx. destruct (sp_system plan) as [s|] eqn:Es; [|by apply not_elem_of_nil in Hx]. specialize (Hs s).
  apply elem_of_app in Hx as [Hx|Hx]; apply list_elem_of_bind in Hx as (range & Hx & Hr).
  - apply list_elem_of_fmap in Hr as (r & -> & Hr). apply (service_account_bounds _ _ _ Hsys) in Hr.
    apply (range_selectors_ok _ _ _ _ _ _ Hx); [unfold SYSTEM_PRIORITY; lia|done|done|done| |intros o; by apply Hs].
    intros ? ? [= ->]. done.
  - apply list_elem_of_singleton in Hr as ->.
    apply (range_selectors_ok _ _ _ _ _ _ Hx); [unfold FORWARDED_PRIORITY; lia|done|done|done|done|intros o; by apply Hs].
Qed.

Lemma selector_rules_ok plan sys_uid_max w x : 0 <= sys_uid_max < 2 ^ 32 -> plan_wf plan -> x ∈ selector_rules plan sys_uid_max w -> selector_ok x.
Proof.
  intros Hsys [Hu Hs]. unfold selector_rules. rewrite dedup_elem, sort_by_elem_of, elem_of_app. intros [Hx|Hx].
  - apply list_elem_of_bind in Hx as ([q s] & Hx & Hin). apply (user_rules_ok q s w); [intros o; by apply (Hu q s o)|done].
  - by apply (system_rules_ok plan sys_uid_max w).
Qed.

(** The rules of a range, told apart by family and priority. *)
Lemma range_selectors_once tbl selector priority w range d x : d ∈ range_selectors tbl selector priority w range ->
  x ∈ range_selectors tbl selector priority w range -> fr_ipv6 d = fr_ipv6 x -> fr_priority d = fr_priority x -> d = x.
Proof.
  unfold range_selectors. rewrite !elem_of_app. destruct (overlay_prefix_v4 selector) as [o|]; [destruct (0 <? o)|]; destruct w;
    rewrite ?elem_of_cons, ?elem_of_nil; intros Hd Hx; repeat match goal with H : _ \/ _ |- _ => destruct H as [H|H] end;
    subst; cbn; intros; try done; lia.
Qed.

Lemma range_selectors_range tbl selector priority w range x : x ∈ range_selectors tbl selector priority w range -> fr_uid_range x = range.
Proof.
  unfold range_selectors. rewrite elem_of_app. destruct (overlay_prefix_v4 selector) as [o|]; [destruct (0 <? o)|]; destruct w;
    rewrite ?elem_of_cons, ?elem_of_nil; intros Hx; repeat match goal with H : _ \/ _ |- _ => destruct H as [H|H] end; by subst.
Qed.

(** *** Lists of rules *)

Lemma delete_matches_self d : delete_matches d d = true.
Proof.
  unfold delete_matches. rewrite Bool.eqb_reflx, !Z.eqb_refl. rewrite (bool_decide_eq_true_2 (fr_suppress_prefixlen d = fr_suppress_prefixlen d)), (bool_decide_eq_true_2 (fr_uid_range d = fr_uid_range d)) by done.
  rewrite !orb_true_r. by destruct (has_lo d).
Qed.

Lemma delete_matches_class d r : delete_matches d r = true -> fr_ipv6 r = fr_ipv6 d /\ fr_priority r = fr_priority d /\ fr_table r = fr_table d.
Proof.
  unfold delete_matches. rewrite !andb_true_iff. intros (((((H1%Bool.eqb_prop & H2%Z.eqb_eq) & H3%Z.eqb_eq) & _) & _) & _). by rewrite H1, H2, H3.
Qed.

Lemma our_rule_band r : is_our_rule r = true -> BAND_START <= fr_priority r <= BAND_END.
Proof. unfold is_our_rule. rewrite !andb_true_iff. intros [[[H1 H2] _] _]. lia. Qed.

Lemma band_match rules d r : band_ours rules -> r ∈ rules -> is_our_rule d = true -> delete_matches d r = true -> is_our_rule r = true.
Proof. intros Hb Hr Hd%our_rule_band (_ & Hp & _)%delete_matches_class. apply Hb; [done|]. by rewrite Hp. Qed.

(** What deleting [ds] one after the other leaves, when each is the first it matches. *)
Inductive taken_out : list FibRule -> list FibRule -> list FibRule -> Prop :=
| taken_nil rules : taken_out rules [] rules
| taken_cons l1 d l2 ds rules : (forall x, x ∈ l1 -> delete_matches d x = false) -> taken_out (l1 ++ l2) ds rules -> taken_out (l1 ++ d :: l2) (d :: ds) rules.

(** All of ours in their order. *)
Lemma sweep_taken front rules : band_ours (front ++ rules) -> (forall x, x ∈ front -> is_our_rule x = false) ->
  taken_out (front ++ rules) (List.filter is_our_rule rules) (front ++ List.filter (fun r => negb (is_our_rule r)) rules).
Proof.
  revert front. induction rules as [|r rules IH]; intros front Hb Hf; cbn [List.filter]; [constructor|]. destruct (is_our_rule r) eqn:E; cbn [negb].
  - constructor.
    + intros x Hx. apply not_true_iff_false. intros Hm. specialize (Hf x Hx). apply (band_match _ r x Hb) in Hm; [congruence|set_solver|done].
    + apply IH; [|done]. intros x Hx. apply Hb. set_solver.
  - specialize (IH (front ++ [r])). rewrite <- !app_assoc in IH. cbn [app] in IH. apply IH; [done|].
    intros x [?|Hx]%elem_of_app; [by apply Hf|]. by apply list_elem_of_singleton in Hx as ->.
Qed.

(** The rules of a family and priority. *)
Definition same_slot (f : bool) (pr : Z) (r : FibRule) : bool := Bool.eqb (fr_ipv6 r) f && (fr_priority r =? pr).

(** [rules] is [old] with the rules of [new] put in, each behind those of its slot. *)
Definition grown (old new rules : list FibRule) : Prop :=
  forall f pr, List.filter (same_slot f pr) rules = List.filter (same_slot f pr) (old ++ new).

Lemma same_slot_refl r : same_slot (fr_ipv6 r) (fr_priority r) r = true.
Proof. unfold same_slot. by rewrite Bool.eqb_reflx, Z.eqb_refl. Qed.

Lemma same_slot_true f pr r : same_slot f pr r = true <-> fr_ipv6 r = f /\ fr_priority r = pr.
Proof. unfold same_slot. rewrite andb_true_iff, Bool.eqb_true_iff, Z.eqb_eq. done. Qed.

Lemma grown_refl rules : grown rules [] rules.
Proof. intros f pr. by rewrite app_nil_r. Qed.

Lemma grown_elem old new rules x : grown old new rules -> x ∈ rules <-> x ∈ old \/ x ∈ new.
Proof.
  intros Hg. rewrite <- elem_of_app. specialize (Hg (fr_ipv6 x) (fr_priority x)).
  assert (Hin : forall l, x ∈ l <-> x ∈ List.filter (same_slot (fr_ipv6 x) (fr_priority x)) l) by (intros l; rewrite filter_elem, same_slot_refl; tauto).
  by rewrite Hin, Hg, <- Hin.
Qed.

Lemma grown_insert l1 a l2 : (forall x, x ∈ l2 -> fr_ipv6 x = fr_ipv6 a -> fr_priority a < fr_priority x) -> grown (l1 ++ l2) [a] (l1 ++ a :: l2).
Proof.
  intros Hl2 f pr. rewrite !List.filter_app. cbn [List.filter]. destruct (same_slot f pr a) eqn:Ea; [|by rewrite app_nil_r].
  apply same_slot_true in Ea as [<- <-]. rewrite (filter_none _ l2), app_nil_r; [done|].
  intros x Hx. apply not_true_iff_false. intros [Hf Hp]%same_slot_true. specialize (Hl2 x Hx Hf). lia.
Qed.

Lemma grown_trans old new mid new' rules : grown old new mid -> grown mid new' rules -> grown old (new ++ new') rules.
Proof. intros H1 H2 f pr. by rewrite H2, List.filter_app, H1, app_assoc, <- List.filter_app. Qed.

(** Two splits at the first element a test takes are one. *)
Lemma split_match {A} (q : A -> bool) u x v u' x' v' : u ++ x :: v = u' ++ x' :: v' -> q x = true -> q x' = true ->
  (forall y, y ∈ u -> q y = false) -> (forall y, y ∈ u' -> q y = false) -> u = u' /\ v = v'.
Proof.
  revert u'. induction u as [|y u IH]; intros [|y' u'] E Hx Hx' Hu Hu'; cbn in E; injection E as E0 E; subst.
  - done.
  - rewrite Hu' in Hx by (by left). done.
  - rewrite Hu in Hx' by (by left). done.
  - destruct (IH u' E) as [-> ->]; [done|done|intros z Hz; apply Hu; by right|intros z Hz; apply Hu'; by right|done].
Qed.

Lemma first_split {A} `{EqDecision A} (d : A) l : d ∈ l -> exists l1 l2, l = l1 ++ d :: l2 /\ d ∉ l1.
Proof.
  induction l as [|x l IH]; [by intros ?%not_elem_of_nil|]. destruct (decide (d = x)) as [<-|Hne].
  - intros _. exists [], l. split; [done|apply not_elem_of_nil].
  - intros [?|(l1 & l2 & -> & Hn)%IH]%elem_of_cons; [done|]. exists (x :: l1), l2. split; [done|]. by apply not_elem_of_cons.
Qed.

Lemma told_apart_drop l1 d l2 : told_apart (l1 ++ d :: l2) -> told_apart (l1 ++ l2).
Proof.
  intros H a x b e E He Ho Hm. apply app_eq_inv in E as [(m & -> & E)|(m & -> & E)].
  - destruct m as [|y m]; cbn in E.
    + subst l2. apply (H ((a ++ []) ++ [d]) x b e); [by rewrite <- (app_assoc (a ++ []))|done..].
    + injection E as -> ->. apply (H a y (m ++ d :: l2) e); [by rewrite <- app_assoc|set_solver|done..].
  - subst l2. apply (H (l1 ++ d :: m) x b e); [by rewrite <- app_assoc|done..].
Qed.

(** Rules of [old] to be deleted, out of a list [old] has grown into. *)
Lemma old_taken ds : forall old new rules, grown old new rules -> told_apart old -> Forall (fun d => is_our_rule d = true) ds ->
  forall left, old ≡ₚ ds ++ left -> exists old' rules', taken_out rules ds rules' /\ grown old' new rules' /\ old' ≡ₚ left.
Proof.
  induction ds as [|d ds IH]; intros old new rules Hg Ht Hds left Hp.
  { exists old, rules. split_and!; [constructor|done|done]. }
  apply Forall_cons in Hds as [Hd Hds]. assert (Hin : d ∈ old) by (rewrite Hp; by left).
  destruct (first_split d old Hin) as (o1 & o2 & -> & Hn1).
  destruct (first_split d rules) as (r1 & r2 & -> & Hn2); [apply (grown_elem _ _ _ _ Hg); by left|].
  assert (Hslot : forall f pr, List.filter (same_slot f pr) (r1 ++ r2) = List.filter (same_slot f pr) ((o1 ++ o2) ++ new)
    /\ (same_slot f pr d = true -> List.filter (same_slot f pr) r1 = List.filter (same_slot f pr) o1)).
  { intros f pr. pose proof (Hg f pr) as E. rewrite !List.filter_app in *. cbn [List.filter] in E.
    destruct (same_slot f pr d); [|done]. rewrite <- app_assoc in E. cbn [app] in E.
    apply (split_match (fun x => bool_decide (x = d))) in E as [E1 E2]; [by rewrite E1, E2, app_assoc|by apply bool_decide_eq_true_2..| |];
      intros y [Hy _]%filter_elem; apply bool_decide_eq_false_2; by intros ->. }
  destruct (IH (o1 ++ o2) new (r1 ++ r2)) with (left := left) as (old' & rules' & Htaken & Hg' & Hp').
  - intros f pr. apply Hslot.
  - by eapply told_apart_drop.
  - done.
  - apply (Permutation_cons_inv (a := d)). by rewrite Permutation_middle.
  - exists old', rules'. split_and!; [|done..]. constructor; [|done]. intros x Hx. apply not_true_iff_false. intros Hm.
    destruct (delete_matches_class d x Hm) as (Hf & Hpr & _). pose proof (proj2 (Hslot (fr_ipv6 d) (fr_priority d)) (same_slot_refl d)) as E.
    assert (Hxo : x ∈ o1).
    { assert (Hxr : x ∈ List.filter (same_slot (fr_ipv6 d) (fr_priority d)) r1) by (apply filter_elem; split; [done|by apply same_slot_true]).
      rewrite E in Hxr. by apply filter_elem in Hxr as [? _]. }
    apply list_elem_of_split in Hxo as (a & b & ->). assert (d = x) as ->; [|set_solver].
    apply (Ht a x (b ++ d :: o2) d); [by rewrite <- app_assoc|set_solver|done|done].
Qed.

Lemma delete_matches_range d r : delete_matches d r = true -> fr_uid_range d <> None -> fr_uid_range r = fr_uid_range d.
Proof.
  unfold delete_matches. rewrite !andb_true_iff. intros ((_ & H) & _) Hn. rewrite bool_decide_eq_false_2 in H by done. cbn in H. by apply bool_decide_eq_true in H.
Qed.

(** Where a planned rule comes from. *)
Lemma selector_rules_from plan sys_uid_max w x : x ∈ selector_rules plan sys_uid_max w <->
  (exists q s uid tbl, (q, s) ∈ sp_users plan /\ as_unix_uid q = Some uid /\ table_for_uid uid = Some tbl
     /\ x ∈ range_selectors tbl s USER_PRIORITY w (Some (uid, uid)))
  \/ (exists s, sp_system plan = Some s /\ ((exists r, r ∈ service_account_uids sys_uid_max (present_uids plan)
                                             /\ x ∈ range_selectors SYSTEM_TABLE s SYSTEM_PRIORITY w (Some r))
                                          \/ x ∈ range_selectors SYSTEM_TABLE s FORWARDED_PRIORITY w None)).
Proof.
  unfold selector_rules. rewrite dedup_elem, sort_by_elem_of, elem_of_app, list_elem_of_bind. f_equiv.
  - split.
    + intros ([q s] & Hx & Hin). unfold user_rules in Hx. cbn [fst snd] in Hx. destruct (as_unix_uid q) as [uid|] eqn:Eu; [|by apply not_elem_of_nil in Hx].
      cbn in Hx. destruct (table_for_uid uid) as [tbl|] eqn:Et; [|by apply not_elem_of_nil in Hx]. cbn in Hx. rewrite app_nil_r in Hx. by exists q, s, uid, tbl.
    + intros (q & s & uid & tbl & Hin & Eu & Et & Hx). exists (q, s). split; [|done]. unfold user_rules. cbn [fst snd]. rewrite Eu. cbn. rewrite Et. cbn. by rewrite app_nil_r.
  - unfold system_rules. destruct (sp_system plan) as [s|]; [|rewrite elem_of_nil; naive_solver]. unfold push_selectors. rewrite elem_of_app.
    cbn [mbind list_bind]. rewrite app_nil_r, list_elem_of_bind. split.
    + intros [(range & Hx & (r & -> & Hr)%list_elem_of_fmap)|Hx]; exists s; (split; [done|]); [left; by exists r|by right].
    + intros (s' & [= <-] & [(r & Hr & Hx)|Hx]); [left; exists (Some r); split; [done|]; by apply list_elem_of_fmap_2|by right].
Qed.

Lemma selector_rules_family plan sys_uid_max x : x ∈ selector_rules plan sys_uid_max false -> fr_ipv6 x = false.
Proof.
  assert (Hr : forall tbl selector priority range, x ∈ range_selectors tbl selector priority false range -> fr_ipv6 x = false).
  { intros tbl selector priority range. unfold range_selectors. rewrite app_nil_r. destruct (overlay_prefix_v4 selector) as [o|]; [destruct (0 <? o)|];
      rewrite ?elem_of_cons, ?elem_of_nil; intros Hx; repeat match goal with H : _ \/ _ |- _ => destruct H as [H|H] end; by subst. }
  rewrite selector_rules_from. intros [(q & s & uid & tbl & _ & _ & _ & Hx)|(s & _ & [(r & _ & Hx)|Hx])]; by apply Hr in Hx.
Qed.

(** A delete of a planned rule matches no other planned one. *)
Lemma planned_apart plan sys_uid_max w d x : users_once plan -> d ∈ selector_rules plan sys_uid_max w -> x ∈ selector_rules plan sys_uid_max w ->
  delete_matches d x = true -> d = x.
Proof.
  intros Honce Hd Hx Hm. destruct (delete_matches_class d x Hm) as (E6 & Ep & _). pose proof (delete_matches_range d x Hm) as Er.
  rewrite selector_rules_from in Hd, Hx.
  destruct Hd as [(q & s & uid & tbl & Hin & Eu & Et & Hd)|(s & Es & [(r & _ & Hd)|Hd])];
    destruct Hx as [(q' & s' & uid' & tbl' & Hin' & Eu' & Et' & Hx)|(s' & Es' & [(r' & _ & Hx)|Hx])];
    pose proof (range_selectors_band _ _ _ _ _ _ Hd) as Bd; pose proof (range_selectors_band _ _ _ _ _ _ Hx) as Bx;
    unfold USER_PRIORITY, SYSTEM_PRIORITY, FORWARDED_PRIORITY in Bd, Bx; try lia;
    pose proof (range_selectors_range _ _ _ _ _ _ Hd) as Rd; pose proof (range_selectors_range _ _ _ _ _ _ Hx) as Rx; rewrite Rd in Er.
  - rewrite Rx in Er. specialize (Er ltac:(done)). injection Er as ->. rewrite Et in Et'. injection Et' as <-.
    pose proof (users_unique plan q s q' s' uid Honce Hin Hin' Eu Eu') as [= -> ->]. by apply (range_selectors_once _ _ _ _ _ _ _ Hd Hx).
  - rewrite Rx in Er. specialize (Er ltac:(done)). injection Er as ->. rewrite Es in Es'. injection Es' as <-. by apply (range_selectors_once _ _ _ _ _ _ _ Hd Hx).
  - rewrite Es in Es'. injection Es' as <-. by apply (range_selectors_once _ _ _ _ _ _ _ Hd Hx).
Qed.

(** Rules of ours that are planned ones are told apart. *)
Lemma planned_told_apart plan sys_uid_max w rules : users_once plan -> band_ours rules ->
  (forall r, r ∈ rules -> is_our_rule r = true -> r ∈ selector_rules plan sys_uid_max w) -> told_apart rules.
Proof.
  intros Honce Hb Hours l1 x l2 d -> Hd Ho Hm. apply (planned_apart plan sys_uid_max w); [done|apply Hours; set_solver| |done].
  apply Hours; [set_solver|]. apply (band_match _ d x Hb); [set_solver|done|done].
Qed.

Section PassLaws.
Context (big_endian : bool) (sequence : Z) {F : Type} {HC : Libc} {HE : RuleErrno} {HK : RuleKernel F} {HR : RuleLaws big_endian sequence (F := F)}.
Implicit Types k : F.

Abbreviation add_fib_rule := (add_fib_rule big_endian sequence).
Abbreviation delete_fib_rule := (delete_fib_rule big_endian sequence).
Abbreviation is_errno e := (exists operation code message, e = Errno operation code message).

(** Deleting in an order in which each is the first it matches. *)
Lemma delete_rules_spec ds k n k' out rules : Forall (fun d => fib_rule_wf d /\ is_our_rule d = true) ds -> taken_out (rules_of k) ds rules ->
  delete_rules big_endian sequence k ds n = (k', out) ->
  match out with Ok _ => rules_of k' = rules | Err e => is_errno e end.
Proof.
  intros Hok. revert k n. induction Hok as [|d ds [Hw Ho] Hok IH]; intros k n Ht; cbn.
  { inversion Ht. by intros [= <- <-]. }
  inversion Ht as [|l1 d' l2 ds' rules' Hfirst Hrest E1 E2]. subst. assert (Hin : d ∈ rules_of k) by (rewrite <- E1; set_solver).
  destruct (delete_fib_rule k d) as [k1 [[]|e]] eqn:E.
  - destruct (rl_delete k k1 _ d E (parse_rule_body big_endian d Hw) Ho Hin) as (m1 & r & m2 & Ek & Ek1 & Hm & Hm1).
    assert (m1 = l1 /\ m2 = l2) as [-> ->].
    { apply (split_match (delete_matches d) m1 r m2 l1 d l2); [congruence|done|apply delete_matches_self|done|done]. }
    apply IH. by rewrite Ek1.
  - destruct (rl_refused k k1 _ e E) as [He Hsame]. case_bool_decide as Hc.
    + by destruct (rl_gone k k1 _ d e E (parse_rule_body big_endian d Hw) Hc Ho).
    + by intros [= <- <-].
Qed.

Lemma read_dump_refused {A} (parse : list N -> option A) datagrams past acc e :
  is_errno past -> read_dump big_endian parse datagrams past acc = Err e -> is_errno e.
Proof.
  intros Hp. revert acc. induction datagrams as [|d datagrams IH]; intros acc; cbn; [by intros [= <-]|].
  destruct (walk_datagram big_endian d) as [messages [done' [code|]]]; [intros [= <-]; by eexists _, _, _|]. destruct done'; [done|apply IH].
Qed.

Lemma get_fib_rules_refused k e : get_fib_rules big_endian sequence k = Err e -> is_errno e.
Proof.
  unfold get_fib_rules, dump_rules. destruct (rule_dump k _) as [datagrams past] eqn:E. apply read_dump_refused, (rl_unread k datagrams past E).
Qed.

Lemma ours_deletable k : Forall (fun d => fib_rule_wf d /\ is_our_rule d = true) (List.filter is_our_rule (rules_of k)).
Proof. apply Forall_forall. intros r [Hr Ho]%filter_elem. split; [|done]. by apply (rl_wf k). Qed.

(** A sweep that succeeds leaves what is not ours. *)
Lemma sweep_selectors_spec k k' out : band_ours (rules_of k) -> sweep_selectors big_endian sequence k = (k', out) ->
  match out with Ok _ => rules_of k' = List.filter (fun r => negb (is_our_rule r)) (rules_of k) | Err e => is_errno e end.
Proof.
  intros Hb. unfold sweep_selectors. destruct (get_fib_rules big_endian sequence k) as [rules|e] eqn:E.
  2: { intros [= <- <-]. by apply get_fib_rules_refused in E. }
  apply rl_dump in E as ->. intros H. eapply delete_rules_spec in H; [|apply ours_deletable|apply (sweep_taken []); [done|by intros x ?%not_elem_of_nil]].
  by destruct out.
Qed.

Lemma give_up_spec {A} k k' (out : result A PlatformError) : band_ours (rules_of k) -> give_up_selecting big_endian sequence k = (k', out) ->
  exists e, out = Err e /\ (e = NotSupported OLD_KERNEL -> forall x, x ∈ rules_of k' -> is_our_rule x = false).
Proof.
  intros Hb. unfold give_up_selecting, clear_selectors. destruct (sweep_selectors big_endian sequence k) as [k1 [n|e]] eqn:E;
    apply sweep_selectors_spec in E; try done; intros [= <- <-].
  - exists (NotSupported OLD_KERNEL). split; [done|]. intros _ x. rewrite E, filter_elem. intros [_ Hx]. by destruct (is_our_rule x).
  - exists e. split; [done|]. intros ->. by destruct E as (? & ? & ? & ?).
Qed.

Lemma note_add_refusal_conflict ipv6 e : note_add_refusal ipv6 e = AlreadyThere -> classify e = Conflict.
Proof. unfold note_add_refusal. do 2 (case_match; [done|]). by case_bool_decide. Qed.

Lemma note_add_refusal_ipv6 ipv6 e : note_add_refusal ipv6 e = Ipv6Off -> ipv6 = true.
Proof. unfold note_add_refusal. destruct ipv6; [done|]. cbn. repeat case_match; done. Qed.

(** A rule or, on an old kernel, the rule without its range. *)
Definition as_added (rules : list FibRule) (x : FibRule) : Prop := exists r, r ∈ rules /\ (x = r \/ x = without_uids r).

(** What a run of adds leaves: the old rules with new ones put in, and for every rule
    asked for it, its form without a range, or a twin of one of them, unless it is an IPv6
    one and these are refused. *)
Definition adds_done (asked old rules : list FibRule) (refused : bool) (grew : Prop) : Prop :=
  (exists new, grown old new rules /\ Forall (as_added asked) new /\ (new <> [] -> grew))
  /\ (forall r, r ∈ asked -> (exists x, x ∈ rules /\ (twin_rule r x \/ twin_rule (without_uids r) x)) \/ fr_ipv6 r = true /\ refused = true).

Lemma twin_refl r : twin_rule r r.
Proof. by split_and!. Qed.

Lemma as_added_ours asked x : Forall selector_ok asked -> as_added asked x -> is_our_rule x = true.
Proof. rewrite Forall_forall. intros Hok (r & Hr & E). destruct (Hok r Hr) as (_ & Ho & _). by destruct E as [->| ->]. Qed.

Lemma band_ours_grown old new rules : band_ours old -> (forall x, x ∈ new -> is_our_rule x = true) -> grown old new rules -> band_ours rules.
Proof. intros Hb Hn Hg x [Hx|Hx]%(grown_elem _ _ _ _ Hg) Hp; [by apply Hb|by apply Hn]. Qed.

Lemma add_rules_spec asked k refused n k' refused' out : Forall selector_ok asked -> band_ours (rules_of k) ->
  add_rules big_endian sequence k refused asked n = (k', refused', out) ->
  (refused = true -> refused' = true)
  /\ match out with
     | Ok m => (n <= m)%nat /\ adds_done asked (rules_of k) (rules_of k') refused' (n < m)%nat
     | Err e => e = NotSupported OLD_KERNEL -> forall x, x ∈ rules_of k' -> is_our_rule x = false
     end.
Proof.
  intros Hok. revert k refused n. induction Hok as [|r asked (Hw & Ho & _) Hok IH]; intros k refused n Hb; cbn.
  { intros [= <- <- <-]. split_and!; [done..|]. split; [exists []; split_and!; [apply grown_refl|constructor|done]|]. by intros r ?%not_elem_of_nil. }
  assert (Hwiden : forall new, Forall (as_added asked) new -> Forall (as_added (r :: asked)) new).
  { intros new Hn. eapply Forall_impl; [exact Hn|]. intros x (r0 & Hr0 & ?). exists r0. split; [by right|done]. }
  destruct (add_fib_rule k r) as [k1 [[]|e]] eqn:E.
  - destruct (rl_add k k1 _ r E (parse_rule_body big_endian r Hw)) as (r' & l1 & l2 & Hr' & Ek & Ek1 & Hbehind).
    assert (Hours : is_our_rule r' = true) by (destruct Hr' as [->| ->]; done).
    assert (Hslot : fr_ipv6 r' = fr_ipv6 r /\ fr_priority r' = fr_priority r) by (destruct Hr' as [->| ->]; done).
    assert (Hg1 : grown (rules_of k) [r'] (rules_of k1)).
    { rewrite Ek, Ek1. apply grown_insert. destruct Hslot as [-> ->]. done. }
    assert (Hb1 : band_ours (rules_of k1)) by (apply (band_ours_grown _ _ _ Hb) in Hg1; [done|]; by intros x ->%list_elem_of_singleton).
    intros H. apply IH in H as (Href & Hout); [|done]. split; [done|]. destruct out as [m|e]; [|done]. destruct Hout as [Hle [(new & Hg & Hnew & Hgrew) Hall]].
    split; [lia|]. split.
    + exists (r' :: new). split_and!; [exact (grown_trans _ _ _ _ _ Hg1 Hg)| |lia]. constructor; [|by apply Hwiden]. exists r. split; [by left|done].
    + intros x [->|Hx]%elem_of_cons; [|by apply Hall]. left. exists r'. split.
      * apply (grown_elem _ _ _ _ Hg). left. rewrite Ek1. set_solver.
      * destruct Hr' as [->| ->]; [left|right]; apply twin_refl.
  - destruct (rl_refused k k1 _ e E) as [(op & code & msg & ->) Hsame].
    assert (Hstep : forall m rf, adds_done asked (rules_of k1) (rules_of k') rf (n < m)%nat ->
       (exists x, x ∈ rules_of k' /\ (twin_rule r x \/ twin_rule (without_uids r) x)) \/ fr_ipv6 r = true /\ rf = true ->
       adds_done (r :: asked) (rules_of k) (rules_of k') rf (n < m)%nat).
    { intros m rf [(new & Hg & Hnew & Hgrew) Hall] Hr. rewrite Hsame in Hg. split; [exists new; split_and!; [done|by apply Hwiden|done]|].
      intros x [->|Hx]%elem_of_cons; [done|by apply Hall]. }
    rewrite <- Hsame in Hb. destruct (note_add_refusal _ _) eqn:En.
    + apply note_add_refusal_ipv6 in En. intros H. apply IH in H as (Href & Hout); [|done]. split; [auto|].
      destruct out as [m|e]; [|done]. destruct Hout as [Hle Hdone]. split; [done|]. apply Hstep; auto.
    + destruct (give_up_selecting big_endian sequence k1) as [k2 out'] eqn:Eg. apply give_up_spec in Eg as (e & -> & Hns); [|done]. by intros [= <- <- <-].
    + apply note_add_refusal_conflict in En. intros H. apply IH in H as (Href & Hout); [|done]. split; [done|].
      destruct out as [m|e]; [|done]. destruct Hout as [Hle Hdone]. split; [done|]. pose proof Hdone as [(new & Hg & _ & _) _]. apply Hstep; [done|].
      left. destruct (rl_conflict k k1 _ r _ E (parse_rule_body big_endian r Hw) En) as (x & Hx & Ht). exists x. split; [|done].
      apply (grown_elem _ _ _ _ Hg). left. by rewrite Hsame.
    + intros [= <- <- <-]. split; [done|done].
Qed.

(** What the check after the adds leaves: none of ours selects everybody. *)
Lemma uid_range_kept rules r : uid_range_ignored rules = false -> r ∈ rules -> is_our_rule r = true -> fr_uid_range r = None -> fr_forwarded r = true.
Proof.
  unfold uid_range_ignored. intros Hi Hr Ho Hu. rewrite existsb_false in Hi. specialize (Hi r Hr).
  rewrite Ho, bool_decide_eq_true_2 in Hi by done. cbn in Hi. by destruct (fr_forwarded r).
Qed.

Lemma without_uids_ok r : selector_ok r -> fr_forwarded r = true -> without_uids r = r.
Proof. intros (_ & _ & Hfu & _) Hu%Hfu. destruct r. cbn in *. by subst. Qed.

(** A twin of a rule we write that is ours and does not select everybody is the rule. *)
Lemma twin_is_rule r x : selector_ok r -> fib_rule_wf x -> (fr_uid_range x = None -> fr_forwarded x = true /\ FORWARDED_PRIORITY <= fr_priority x) ->
  twin_rule r x \/ twin_rule (without_uids r) x -> x = r.
Proof.
  intros (Hw & Ho & Hfu & Hlo & Hfp) (_ & _ & Hnx & _ & _ & Hfx) Hrx Ht. destruct Hw as (_ & _ & Hnr & _).
  assert (Htwin : twin_rule r x).
  { destruct Ht as [Ht|Ht]; [done|]. pose proof Ht as (_ & Hp & _ & Hu & _). cbn in Hp, Hu. destruct (Hrx Hu) as [_ Hle]. rewrite Hp in Hle.
    apply Hfp, Hfu in Hle. unfold without_uids in Ht. destruct r. cbn in *. by subst. }
  destruct Htwin as (E1 & E2 & E3 & E4 & E5 & E6). unfold has_lo in E6. destruct (fr_forwarded r) eqn:Ef.
  - assert (Hu : fr_uid_range x = None) by (rewrite E4; by apply Hfu). destruct (Hrx Hu) as [Hf _]. destruct (Hfx Hf) as [Hl _].
    destruct x, r. cbn in *. by subst.
  - assert (Hf : fr_forwarded x = false). { apply not_true_iff_false. intros Hf. destruct (Hfx Hf) as [_ Hu]. rewrite E4 in Hu. apply Hfu in Hu. done. }
    destruct x, r. cbn in *. subst. cbn in *. rewrite orb_false_r in E6. by subst.
Qed.
End PassLaws.

(** ** Rules in front of ours *)

Section Run.
Context (rules : list RawFibRule) (ipv6 : bool).

(** What may be moved from a priority by [shift]: somebody is there, nobody jumps from
    there or to there, and it lands behind our band. *)
Definition movable (shift priority : Z) : Prop :=
  here_at rules ipv6 priority <> [] /\ (forall i, i ∈ here_at rules ipv6 priority -> jumps rules i = false)
  /\ (priority ∉ omap raw_goto_target (family rules ipv6)) /\ BAND_END < priority + shift.

Lemma here_at_elem i priority : i ∈ here_at rules ipv6 priority <->
  exists r, rules !! i = Some r /\ raw_ipv6 r = ipv6 /\ raw_ours r = false /\ raw_priority r = priority.
Proof.
  unfold here_at. rewrite filter_elem, elem_of_seq. split.
  - intros [_ H]. destruct (rules !! i) as [r|] eqn:E; [|done]. exists r. apply andb_prop in H as [H H3%Z.eqb_eq]. apply andb_prop in H as [H1%Bool.eqb_prop H2].
    split_and!; [done..| |done]. by destruct (raw_ours r).
  - intros (r & E & E6 & Ho & Hp). rewrite E, E6, Ho, Hp, Bool.eqb_reflx, Z.eqb_refl. apply lookup_lt_Some in E. split; [lia|done].
Qed.

Lemma displaced_loop_exact fuel start base p i to : (Z.to_nat p <= fuel)%nat ->
  (i, to) ∈ displaced_loop rules ipv6 fuel start base p <->
  exists q, 1 <= q < p /\ i ∈ here_at rules ipv6 q /\ to = q + (base - start) /\ forall q', q <= q' < p -> movable (base - start) q'.
Proof.
  revert p. induction fuel as [|fuel IH]; intros p Hfuel; cbn [displaced_loop].
  { rewrite elem_of_nil. split; [done|]. intros (q & Hq & _). lia. }
  destruct (Z.leb_spec p 1) as [Hp|Hp]; [rewrite elem_of_nil; split; [done|]; intros (q & Hq & _); lia|].
  assert (Hmov : movable (base - start) (p - 1) <->
    (base - (start - (p - 1)) <? 0) || bool_decide (here_at rules ipv6 (p - 1) = []) || existsb (jumps rules) (here_at rules ipv6 (p - 1))
    || bool_decide (p - 1 ∈ omap raw_goto_target (family rules ipv6)) || (base - (start - (p - 1)) <=? BAND_END) = false).
  { unfold movable, BAND_END. rewrite !orb_false_iff, existsb_false, !bool_decide_eq_false, Z.ltb_ge, Z.leb_gt. naive_solver lia. }
  destruct (_ || (base - (start - (p - 1)) <=? BAND_END)) eqn:E.
  - rewrite elem_of_nil. split; [done|]. intros (q & Hq & _ & _ & Hrun). assert (Hm : movable (base - start) (p - 1)) by (apply Hrun; lia).
    apply Hmov in Hm. congruence.
  - rewrite elem_of_app, list_elem_of_fmap, IH by lia. pose proof (proj2 Hmov eq_refl) as Hm. split.
    + intros [(j & [= -> ->] & Hj)|(q & Hq & Hi & Eto & Hrun)].
      * exists (p - 1). split_and!; [lia..|done|lia|]. intros q' Hq'. by replace q' with (p - 1) by lia.
      * exists q. split_and!; [lia..|done|done|]. intros q' Hq'. destruct (decide (q' = p - 1)) as [->|]; [done|]. apply Hrun. lia.
    + intros (q & Hq & Hi & -> & Hrun). destruct (decide (q = p - 1)) as [->|].
      * left. exists i. split; [f_equal; lia|done].
      * right. exists q. split_and!; [lia..|done|done|]. intros q' Hq'. apply Hrun. lia.
Qed.
End Run.

(** Where our rules of a family start, and the first foreign rule behind our band. *)
Definition ours_start (rules : list RawFibRule) (ipv6 : bool) : option Z := least (raw_priority <$> List.filter raw_ours (family rules ipv6)).
Definition foreign_base (rules : list RawFibRule) (ipv6 : bool) : Z :=
  default MAIN_RULE_PRIORITY (least (raw_priority <$> List.filter (fun r => negb (raw_ours r) && (BAND_END <? raw_priority r)) (family rules ipv6))).

Lemma displaced_family_exact rules ipv6 i to : (i, to) ∈ displaced_family rules ipv6 <->
  exists start r, ours_start rules ipv6 = Some start /\ rules !! i = Some r /\ raw_ipv6 r = ipv6 /\ raw_ours r = false /\ 1 <= raw_priority r < start
  /\ to = raw_priority r + (foreign_base rules ipv6 - start)
  /\ forall q, raw_priority r <= q < start -> movable rules ipv6 (foreign_base rules ipv6 - start) q.
Proof.
  unfold displaced_family, ours_start, foreign_base. destruct (least _) as [start|]; [|rewrite elem_of_nil; split; [done|by intros (? & ? & ? & _)]].
  rewrite displaced_loop_exact by done. split.
  - intros (q & Hq & Hi & -> & Hrun). apply here_at_elem in Hi as (r & E & E6 & Ho & <-). by exists start, r.
  - intros (start' & r & [= <-] & E & E6 & Ho & Hq & -> & Hrun). exists (raw_priority r). split_and!; [lia..| |done|done]. apply here_at_elem. by exists r.
Qed.

(** C24. Which rules of others are moved, and where. A rule is moved exactly when it is not
    ours, stands in the unbroken run in front of ours in its family, and nothing in the
    run from it on jumps, is jumped to or would not land behind our band. All are shifted
    by one distance, which puts ours against the first foreign rule behind them, so the
    moved rules keep their order and none lands in our band. *)
Theorem displaced_rules_exact (rules : list RawFibRule) (i : nat) (to : Z) :
  (i, to) ∈ displaced_rules rules <->
  exists ipv6 start r, ours_start rules ipv6 = Some start /\ rules !! i = Some r /\ raw_ipv6 r = ipv6 /\ raw_ours r = false
  /\ 1 <= raw_priority r < start /\ to = raw_priority r + (foreign_base rules ipv6 - start)
  /\ forall q, raw_priority r <= q < start -> movable rules ipv6 (foreign_base rules ipv6 - start) q.
Proof.
  unfold displaced_rules. rewrite elem_of_app, !displaced_family_exact. split; [naive_solver|]. intros ([] & H); [right|left]; exact H.
Qed.

Lemma least_elem l x : least l = Some x -> x ∈ l.
Proof.
  destruct l as [|y l]; [done|]. cbn. intros [= <-]. revert y. induction l as [|z l IH]; intros y; cbn; [by left|].
  specialize (IH (Z.min y z)). apply elem_of_cons in IH as [E|IH]; [|by do 2 right]. rewrite E.
  destruct (Z.min_spec y z) as [[_ ->]|[_ ->]]; [by left|by right; left].
Qed.

Lemma least_le l x y : least l = Some x -> y ∈ l -> x <= y.
Proof.
  destruct l as [|z l]; [done|]. cbn. intros [= <-]. assert (Hmono : forall l a b, a <= b -> fold_left Z.min l a <= b).
  { clear. induction l as [|c l IH]; intros a b H; cbn; [done|]. apply IH. lia. }
  revert z. induction l as [|c l IH]; intros z; cbn; [rewrite list_elem_of_singleton; by intros ->|].
  rewrite !elem_of_cons. intros [->|[->|Hy]]; [apply Hmono; lia..|]. apply IH. by right.
Qed.

(** A rule that is moved stands in front of all of ours in its family, and lands behind the
    band. *)
Lemma displaced_to rules i to : (forall r, r ∈ rules -> 0 <= raw_priority r < 2 ^ 32) -> (i, to) ∈ displaced_rules rules ->
  exists r, rules !! i = Some r /\ raw_ours r = false /\ BAND_END < to < 2 ^ 32 /\ 0 < raw_priority r
  /\ forall o, o ∈ rules -> raw_ours o = true -> raw_ipv6 o = raw_ipv6 r -> raw_priority r < raw_priority o.
Proof.
  intros Hw. unfold displaced_rules. rewrite elem_of_app, !displaced_family_exact.
  assert (Hb : forall ipv6, foreign_base rules ipv6 < 2 ^ 32).
  { intros ipv6. unfold foreign_base. destruct (least _) as [b|] eqn:E; [|done]. cbn.
    apply least_elem in E. apply list_elem_of_fmap in E as (r & -> & [[Hr _]%filter_elem _]%filter_elem). by apply Hw. }
  assert (Hfam : forall ipv6, (exists start r, ours_start rules ipv6 = Some start /\ rules !! i = Some r /\ raw_ipv6 r = ipv6 /\ raw_ours r = false
    /\ 1 <= raw_priority r < start /\ to = raw_priority r + (foreign_base rules ipv6 - start)
    /\ forall q, raw_priority r <= q < start -> movable rules ipv6 (foreign_base rules ipv6 - start) q) ->
    exists r, rules !! i = Some r /\ raw_ours r = false /\ BAND_END < to < 2 ^ 32 /\ 0 < raw_priority r
    /\ forall o, o ∈ rules -> raw_ours o = true -> raw_ipv6 o = raw_ipv6 r -> raw_priority r < raw_priority o).
  { intros ipv6 (start & r & Es & E & E6 & Ho & Hp & -> & Hrun). specialize (Hb ipv6). exists r. split_and!; [done|done| |lia|lia|].
    - destruct (Hrun (raw_priority r)) as (_ & _ & _ & ?); lia.
    - intros o Hin Hours E6'. cut (start <= raw_priority o); [lia|]. apply (least_le _ _ _ Es), list_elem_of_fmap_2, filter_elem. split; [|done].
      apply filter_elem. split; [done|]. rewrite E6', E6. apply Bool.eqb_reflx. }
  intros [H|H]; [exact (Hfam false H)|exact (Hfam true H)].
Qed.

(** ** What a pass leaves *)

Section Outcome.
Context (big_endian : bool) (sequence : Z) {F : Type} {HC : Libc} {HE : RuleErrno} {HK : RuleKernel F} {HR : RuleLaws big_endian sequence (F := F)}.
Implicit Types k : F.

Lemma read_dump_parsed {A} (parse : list N -> option A) datagrams past acc l : read_dump big_endian parse datagrams past acc = Ok l ->
  forall x, x ∈ l -> x ∈ acc \/ exists body, parse body = Some x.
Proof.
  revert acc. induction datagrams as [|d datagrams IH]; intros acc; cbn; [done|].
  destruct (walk_datagram big_endian d) as [messages [done' [code|]]]; [done|].
  assert (Hacc : forall x, x ∈ acc ++ omap (fun m => if m.1 =? RTM_NEWRULE then parse m.2 else None) messages -> x ∈ acc \/ exists body, parse body = Some x).
  { intros x [?|H]%elem_of_app; [by left|]. apply list_elem_of_omap in H as ([ty body] & _ & H). cbn in H. right. exists body. by destruct (ty =? RTM_NEWRULE). }
  destruct done'; [intros [= <-]; exact Hacc|]. intros H x Hx. destruct (IH _ H x Hx) as [Ha|?]; [by apply Hacc|by right].
Qed.

Lemma attr_loop_octets fuel : forall rest, Forall (fun b => (b < 256)%N) rest ->
  forall a, a ∈ attr_loop big_endian fuel rest -> Forall (fun b => (b < 256)%N) a.2.
Proof.
  induction fuel as [|fuel IH]; intros rest Hr a; cbn [attr_loop]; [by intros Ha%not_elem_of_nil|].
  destruct (RTATTR_HEADER_LEN <=? length rest)%nat; [|by intros Ha%not_elem_of_nil]. destruct (_ || _); [by intros Ha%not_elem_of_nil|].
  intros [->|Ha]%elem_of_cons; [by apply Forall_take, Forall_drop|]. revert a Ha. apply IH. by apply Forall_drop.
Qed.

Lemma read_raw_priority attrs acc : 0 <= acc.1 < 2 ^ 32 ->
  (forall a, a ∈ attrs -> Forall (fun b => (b < 256)%N) a.2) -> 0 <= (fold_left (read_raw_attr big_endian) attrs acc).1 < 2 ^ 32.
Proof.
  revert acc. induction attrs as [|[ty payload] attrs IH]; intros [pr jump] Hacc Ha; [done|]. cbn [fold_left]. apply IH; [|intros a H; apply Ha; by right].
  pose proof (Ha (ty, payload) (list_elem_of_here _ _)) as Hp. cbn in Hp. unfold read_raw_attr, word. cbn [fst snd] in *.
  destruct (Nat.eqb_spec (length payload) 4) as [E|]; [|done].
  apply (octet_list_value big_endian) in Hp. rewrite E in Hp. destruct (ty =? FRA_PRIORITY); [cbn [fst]; lia|]. by destruct (ty =? FRA_GOTO).
Qed.

(** A rule dumped raw: its priority is a number of its width, and whether it is ours is
    what its body says. *)
Lemma raw_rule_facts raw body : raw_wf raw -> parse_raw_rule big_endian body = Some raw ->
  raw_body raw = body /\ (FIB_RULE_HDR_LEN <= length body)%nat /\ 0 <= raw_priority raw < 2 ^ 32
  /\ raw_ours raw = match parse_rule_message big_endian body with Some r => is_our_rule r | None => false end.
Proof.
  unfold raw_wf, parse_raw_rule. destruct (Nat.ltb_spec (length body) FIB_RULE_HDR_LEN); [done|]. intros Hb Hp.
  apply bind_Some in Hp as (ipv6 & _ & Hp). pose proof (read_raw_priority (attributes big_endian (drop FIB_RULE_HDR_LEN body)) (0, 0)) as Hr.
  destruct (fold_left _ _ _) as [priority jump]. injection Hp as <-. cbn [raw_body raw_priority raw_ours fst] in *. split_and!; try done.
  all: apply Hr; [lia|]; apply attr_loop_octets; by apply Forall_drop.
Qed.

Lemma raw_rules_facts k rules raw : get_raw_fib_rules big_endian sequence k = Ok rules -> raw ∈ rules ->
  raw_wf raw /\ (FIB_RULE_HDR_LEN <= length (raw_body raw))%nat /\ 0 <= raw_priority raw < 2 ^ 32
  /\ raw_ours raw = match parse_rule_message big_endian (raw_body raw) with Some r => is_our_rule r | None => false end.
Proof.
  intros Hd Hr. pose proof (rl_raw k rules raw Hd Hr) as Hw. unfold get_raw_fib_rules, dump_rules in Hd.
  destruct (rule_dump k _) as [datagrams past]. destruct (read_dump_parsed _ _ _ _ _ Hd raw Hr) as [H|(body & H)]; [by apply not_elem_of_nil in H|].
  apply raw_rule_facts in H as (E & ? & ? & ?); [|done]. by rewrite E.
Qed.

Lemma read_rule_priority attrs r jump :
  fr_priority (fold_left (read_rule_attr big_endian) attrs r) = (fold_left (read_raw_attr big_endian) attrs (fr_priority r, jump)).1
  /\ fr_ipv6 (fold_left (read_rule_attr big_endian) attrs r) = fr_ipv6 r.
Proof.
  revert r jump. induction attrs as [|[ty payload] attrs IH]; intros r jump; [done|]. cbn [fold_left].
  destruct (read_raw_attr big_endian (fr_priority r, jump) (ty, payload)) as [pr jump'] eqn:E.
  assert (H : fr_priority (read_rule_attr big_endian r (ty, payload)) = pr /\ fr_ipv6 (read_rule_attr big_endian r (ty, payload)) = fr_ipv6 r).
  { destruct r. unfold read_raw_attr, read_rule_attr in *. cbn [fst snd] in *. destruct (word big_endian payload) as [v|]; repeat case_match; simplify_eq; done. }
  destruct H as [<- <-]. apply IH.
Qed.

(** A dumped rule read both ways. *)
Lemma raw_of_rule body r : parse_rule_message big_endian body = Some r ->
  exists raw, parse_raw_rule big_endian body = Some raw /\ raw_body raw = body /\ raw_ipv6 raw = fr_ipv6 r /\ raw_priority raw = fr_priority r
  /\ raw_ours raw = is_our_rule r.
Proof.
  intros Hp. unfold parse_raw_rule. rewrite Hp. unfold parse_rule_message in Hp. destruct (length body <? FIB_RULE_HDR_LEN)%nat; [done|].
  apply bind_Some in Hp as (ipv6 & E6 & Hp). rewrite E6. cbn [mbind option_bind]. destruct (negb (at_ body 7 =? FR_ACT_TO_TBL)%N); [done|]. injection Hp as <-.
  set (attrs := attributes _ _). set (r0 := mkFibRule _ _ _ _ _ _ _ _). destruct (read_rule_priority attrs r0 0) as [H1 H2]. change (fr_priority r0) with 0 in H1. change (fr_ipv6 r0) with ipv6 in H2.
  destruct (fold_left (read_raw_attr big_endian) attrs (0, 0)) as [pr jump]. cbn [fst] in H1. destruct (fold_left (read_rule_attr big_endian) attrs r0) as [i q].
  cbn in H1, H2. subst. eexists. split; [done|]. cbn [raw_body raw_ipv6 raw_priority raw_ours]. split_and!; [done| | |done]; unfold settle_inversion; by repeat case_match.
Qed.

(** The dump of raw rules shows every rule that looks up a table. *)
Lemma read_dump_both datagrams past acc acc' l : read_dump big_endian (parse_raw_rule big_endian) datagrams past acc = Ok l ->
  (forall r, r ∈ acc' -> exists raw, raw ∈ acc /\ parse_rule_message big_endian (raw_body raw) = Some r) ->
  exists l', read_dump big_endian (parse_rule_message big_endian) datagrams past acc' = Ok l'
  /\ forall r, r ∈ l' -> exists raw, raw ∈ l /\ parse_rule_message big_endian (raw_body raw) = Some r.
Proof.
  revert acc acc'. induction datagrams as [|d datagrams IH]; intros acc acc'; cbn; [done|].
  destruct (walk_datagram big_endian d) as [messages [done' [code|]]]; [done|]. intros Hl Hacc.
  set (raws := acc ++ _) in Hl. set (rules := acc' ++ _).
  assert (Hboth : forall r, r ∈ rules -> exists raw, raw ∈ raws /\ parse_rule_message big_endian (raw_body raw) = Some r).
  { intros r [Hr|Hr]%elem_of_app; [destruct (Hacc r Hr) as (raw & ? & ?); exists raw; split; [apply elem_of_app; by left|done]|].
    apply list_elem_of_omap in Hr as ([ty body] & Hm & Hr). cbn in Hr. destruct (ty =? RTM_NEWRULE) eqn:Ety; [|done].
    destruct (raw_of_rule body r Hr) as (raw & Hraw & Eb & _). exists raw. split; [|by rewrite Eb]. apply elem_of_app. right.
    apply list_elem_of_omap. exists (ty, body). cbn. by rewrite Ety. }
  destruct done'; [|by apply (IH raws rules)]. injection Hl as <-. by exists rules.
Qed.

Lemma raw_dump_shows k raws r : get_raw_fib_rules big_endian sequence k = Ok raws -> r ∈ rules_of k ->
  exists raw, raw ∈ raws /\ raw_ipv6 raw = fr_ipv6 r /\ raw_priority raw = fr_priority r /\ raw_ours raw = is_our_rule r.
Proof.
  intros Hd Hr. unfold get_raw_fib_rules, dump_rules in Hd. destruct (rule_dump k _) as [datagrams past] eqn:Ed.
  pose proof Hd as Hd'. eapply (read_dump_both datagrams past [] []) in Hd as (l' & Hl' & Hboth); [|by intros x ?%not_elem_of_nil].
  assert (l' = rules_of k) as ->. { apply rl_dump. unfold get_fib_rules, dump_rules. by rewrite Ed. }
  destruct (Hboth r Hr) as (raw & Hraw & Hp). exists raw. split; [done|].
  destruct (read_dump_parsed _ _ _ _ _ Hd' raw Hraw) as [H|(body & H)]; [by apply not_elem_of_nil in H|].
  assert (Hb : raw_body raw = body). { unfold parse_raw_rule in H. case_match; [done|]. apply bind_Some in H as (? & _ & H). case_match. by injection H as <-. }
  destruct (raw_of_rule _ _ Hp) as (raw' & Hraw' & _ & ? & ? & ?). rewrite Hb, H in Hraw'. by injection Hraw' as <-.
Qed.

(** Moving a rule that stands in front of all of ours leaves ours alone, and puts nothing in
    the band. *)
Definition ours_kept k k' : Prop :=
  List.filter is_our_rule (rules_of k') = List.filter is_our_rule (rules_of k) /\ (band_ours (rules_of k) -> band_ours (rules_of k')).

Lemma ours_kept_insert k k' l1 r l2 : rules_of k = l1 ++ l2 -> rules_of k' = l1 ++ r :: l2 -> BAND_END < fr_priority r -> ours_kept k k'.
Proof.
  intros E E' Hr. assert (Ho : is_our_rule r = false). { apply not_true_iff_false. intros H%our_rule_band. lia. }
  split; [rewrite E, E', !List.filter_app; cbn; by rewrite Ho|]. rewrite E, E'. intros Hb x Hx Hp. apply Hb; [|done].
  apply elem_of_app in Hx as [?|[->|?]%elem_of_cons]; [set_solver|lia|set_solver].
Qed.

Lemma ours_kept_drop k k' l1 r l2 : rules_of k = l1 ++ r :: l2 -> rules_of k' = l1 ++ l2 -> is_our_rule r = false -> ours_kept k k'.
Proof.
  intros E E' Ho. split; [rewrite E, E', !List.filter_app; cbn; by rewrite Ho|]. rewrite E, E'. intros Hb x Hx. apply Hb. set_solver.
Qed.

Lemma ours_kept_same k k' : rules_of k' = rules_of k -> ours_kept k k'.
Proof. intros E. split; by rewrite E. Qed.

Lemma ours_kept_trans k1 k2 k3 : ours_kept k1 k2 -> ours_kept k2 k3 -> ours_kept k1 k3.
Proof. intros [E1 H1] [E2 H2]. split; [congruence|auto]. Qed.

Lemma move_keeps_ours k raw to k' out : raw_wf raw -> parse_raw_rule big_endian (raw_body raw) = Some raw -> 0 < raw_priority raw -> BAND_END < to < 2 ^ 32 ->
  (forall x, x ∈ rules_of k -> is_our_rule x = true -> fr_ipv6 x = raw_ipv6 raw -> raw_priority raw < fr_priority x) ->
  move_raw_fib_rule big_endian sequence k raw to = (k', out) -> ours_kept k k'.
Proof.
  intros Hw Hraw Hpos Hto Hfront. unfold move_raw_fib_rule.
  assert (Hlen : (FIB_RULE_HDR_LEN <= length (raw_body raw))%nat) by by apply (raw_rule_facts raw (raw_body raw) Hw Hraw).
  assert (Hremove : forall k1 k' out, ours_kept k k1 -> (match rule_request k1 (nl_frame big_endian RTM_DELRULE DEL_FLAGS sequence (raw_body raw)) with
      | (k, Err e) => (k, if bool_decide (classify e = Idempotent) then Ok tt else Err e) | (k, Ok _) => (k, Ok tt) end) = (k', out) -> ours_kept k k').
  { intros k1 k2 out1 Hk1. destruct (rule_request k1 _) as [k3 [[]|e]] eqn:E; intros [= <- _]; apply (ours_kept_trans k k1 _ Hk1).
    - destruct (rl_delete_raw k1 k3 _ raw E Hraw Hpos) as [Hs|(l1 & r & l2 & Ek & Ek' & H6 & Hp)]; [by apply ours_kept_same|].
      apply (ours_kept_drop _ _ l1 r l2); [done..|]. apply not_true_iff_false. intros Ho.
      assert (Hr : r ∈ List.filter is_our_rule (rules_of k)) by (rewrite <- (proj1 Hk1), Ek; apply filter_elem; split; [set_solver|done]).
      apply filter_elem in Hr as [Hr _]. specialize (Hfront r Hr Ho H6). lia.
    - by apply ours_kept_same, (rl_refused k1 k3 _ e E). }
  destruct (rule_request k _) as [k1 [[]|e]] eqn:E.
  - apply Hremove. pose proof (parse_with_priority big_endian (raw_body raw) to Hw Hlen ltac:(unfold BAND_END in Hto; lia)) as Hp.
    destruct (parse_rule_message big_endian (raw_body raw)) as [r|]; cbn in Hp; [|by apply ours_kept_same, (rl_add_other k k1 _ E)].
    destruct (rl_add k k1 _ _ E Hp) as (r' & l1 & l2 & Hr' & Ek & Ek' & _). apply (ours_kept_insert _ _ l1 r' l2); [done..|].
    destruct Hr' as [->| ->]; destruct r; cbn; lia.
  - assert (Hsame : ours_kept k k1) by by apply ours_kept_same, (rl_refused k k1 _ e E). case_bool_decide; [by apply Hremove|by intros [= <- _]].
Qed.

Lemma move_rules_keeps_ours rules moves k n err k' out :
  (forall i to, (i, to) ∈ moves -> exists raw, rules !! i = Some raw /\ raw_wf raw /\ parse_raw_rule big_endian (raw_body raw) = Some raw
     /\ 0 < raw_priority raw /\ BAND_END < to < 2 ^ 32
     /\ forall x, x ∈ rules_of k -> is_our_rule x = true -> fr_ipv6 x = raw_ipv6 raw -> raw_priority raw < fr_priority x) ->
  move_rules big_endian sequence k rules moves n err = (k', out) -> ours_kept k k'.
Proof.
  revert k n err. induction moves as [|[i to] moves IH]; intros k n err Hmoves; cbn; [intros [= <- _]; by apply ours_kept_same|].
  destruct (Hmoves i to ltac:(by left)) as (raw & E & Hw & Hraw & Hpos & Hto & Hfront). rewrite E.
  destruct (move_raw_fib_rule big_endian sequence k raw to) as [k1 out1] eqn:Em. apply move_keeps_ours in Em; [|done..].
  assert (Hnext : forall n err, move_rules big_endian sequence k1 rules moves n err = (k', out) -> ours_kept k k').
  { intros n' err' H. apply (ours_kept_trans k k1 k' Em). revert H. apply IH. intros j to' Hj. destruct (Hmoves j to') as (raw' & ? & ? & ? & ? & ? & Hf); [by right|].
    exists raw'. split_and!; try done; try lia. intros x Hx Ho. apply Hf; [|done]. assert (Hin : x ∈ List.filter is_our_rule (rules_of k1)) by by apply filter_elem.
    rewrite (proj1 Em) in Hin. by apply filter_elem in Hin as [? _]. }
  by destruct out1 as [[]|e]; apply Hnext.
Qed.

Lemma keep_ours_keeps k k' out : keep_ours_in_front big_endian sequence k = (k', out) -> ours_kept k k'.
Proof.
  unfold keep_ours_in_front. destruct (get_raw_fib_rules big_endian sequence k) as [raws|e] eqn:E; [|intros [= <- _]; by apply ours_kept_same].
  apply move_rules_keeps_ours. intros i to Hi. destruct (displaced_to raws i to) as (raw & Ei & _ & Hto & Hpos & Hfront); [|done|].
  { intros r Hr. by apply (raw_rules_facts k raws r E). }
  assert (Hin : raw ∈ raws) by by apply list_elem_of_lookup_2 in Ei. pose proof (rl_raw k raws raw E Hin) as Hw. exists raw. split_and!; try done; try lia.
  - unfold get_raw_fib_rules, dump_rules in E. destruct (rule_dump k _) as [datagrams past].
    destruct (read_dump_parsed _ _ _ _ _ E raw Hin) as [H|(body & H)]; [by apply not_elem_of_nil in H|]. by rewrite (proj1 (raw_rule_facts raw body Hw H)).
  - intros x Hx Ho H6. destruct (raw_dump_shows k raws x E Hx) as (o & Hr & E6 & Ep & Eo). rewrite <- Ep. apply Hfront; congruence.
Qed.

(** What adding and deleting the changes leaves. *)
Section Settle.
Context (k : F) (desired mid rules : list FibRule) (refused : bool) (grew : bool).
Context (Hok : Forall selector_ok desired) (Hband : band_ours (rules_of k)) (Hapart : told_apart (rules_of k)).
Context (Hadds : adds_done (selector_changes (rules_of k) desired).1 (rules_of k) mid refused (grew = true)).

Definition dropped (r : FibRule) : bool := is_our_rule r && negb (bool_decide (r ∈ desired)).

Lemma filter_parts {A} (q : A -> bool) (l : list A) : l ≡ₚ List.filter q l ++ List.filter (fun x => negb (q x)) l.
Proof. induction l as [|x l IH]; [done|]. cbn. destruct (q x); cbn; [by f_equiv|]. rewrite <- Permutation_middle. by f_equiv. Qed.

Lemma filter_both {A} (q q' : A -> bool) (l : list A) : List.filter q' (List.filter q l) = List.filter (fun x => q x && q' x) l.
Proof. induction l as [|x l IH]; [done|]. cbn. destruct (q x); cbn; [|done]. by rewrite IH. Qed.

Lemma changes_taken : exists old' rules', taken_out mid (selector_changes (rules_of k) desired).2 rules'
  /\ exists new, grown old' new rules' /\ grown (rules_of k) new mid /\ Forall (as_added (selector_changes (rules_of k) desired).1) new /\ (new <> [] -> grew = true)
     /\ forall x, x ∈ old' <-> x ∈ rules_of k /\ dropped x = false.
Proof.
  destruct Hadds as [(new & Hg & Hnew & Hgrew) _]. cbn [selector_changes snd]. rewrite filter_both.
  destruct (old_taken (List.filter dropped (rules_of k)) (rules_of k) new mid Hg Hapart) with (left := List.filter (fun x => negb (dropped x)) (rules_of k))
    as (old' & rules' & Ht & Hg' & Hp).
  - apply Forall_forall. intros d [_ Hd]%filter_elem. by apply andb_prop in Hd as [? _].
  - apply filter_parts.
  - exists old', rules'. split; [exact Ht|]. exists new. split_and!; try done. intros x. rewrite Hp, filter_elem. by rewrite negb_true_iff.
Qed.

Context (old' new : list FibRule) (Hgrown : grown old' new rules) (Hmid : grown (rules_of k) new mid).
Context (Hnew : Forall (as_added (selector_changes (rules_of k) desired).1) new) (Hgrew : new <> [] -> grew = true).
Context (Hold : forall x, x ∈ old' <-> x ∈ rules_of k /\ dropped x = false).
Context (Hcheck : grew = true -> forall r, r ∈ rules -> is_our_rule r = true -> fr_uid_range r = None -> fr_forwarded r = true).

Lemma added_desired x : x ∈ new -> x ∈ desired.
Proof.
  intros Hx. rewrite Forall_forall in Hnew, Hok. destruct (Hnew x Hx) as (d & Hd & E). cbn in Hd. apply filter_elem in Hd as [Hd _].
  pose proof (Hok d Hd) as (_ & Ho & _). destruct E as [->| ->]; [done|]. rewrite without_uids_ok; [done|by apply Hok|].
  apply (Hcheck (Hgrew ltac:(intros E; rewrite E in Hx; by apply not_elem_of_nil in Hx)) (without_uids d)); [|done|done]. apply (grown_elem _ _ _ _ Hgrown). by right.
Qed.

Lemma settle_only_desired r : r ∈ rules -> is_our_rule r = true -> r ∈ desired.
Proof.
  intros Hr Ho. apply (grown_elem _ _ _ _ Hgrown) in Hr as [[_ Hr]%Hold|Hr]; [|by apply added_desired].
  unfold dropped in Hr. rewrite Ho in Hr. cbn in Hr. apply negb_false_iff in Hr. by apply bool_decide_eq_true in Hr.
Qed.

Lemma settle_band : band_ours rules.
Proof.
  intros r Hr Hp. apply (grown_elem _ _ _ _ Hgrown) in Hr as [[Hr _]%Hold|Hr]; [by apply Hband|].
  by apply (proj1 (Forall_forall _ _) Hok r), added_desired.
Qed.

Lemma settle_all_desired r : ranged (rules_of k) -> r ∈ desired -> fr_ipv6 r = false \/ refused = false -> r ∈ rules.
Proof.
  intros Hranged Hr H6. pose proof (proj1 (Forall_forall _ _) Hok) as Hok'. pose proof (Hok' r Hr) as Hsel.
  assert (Hkept : r ∈ rules_of k -> r ∈ rules).
  { intros Hin. apply (grown_elem _ _ _ _ Hgrown). left. apply Hold. split; [done|]. unfold dropped. rewrite bool_decide_eq_true_2 by done. apply andb_false_r. }
  destruct (decide (r ∈ List.filter is_our_rule (rules_of k))) as [[Hin _]%filter_elem|Hin]; [by apply Hkept|].
  assert (Hadd : r ∈ (selector_changes (rules_of k) desired).1) by (cbn; rewrite filter_elem, bool_decide_eq_false_2; done).
  destruct (proj2 Hadds r Hadd) as [(x & Hx & Ht)|[E1 E2]]; [|naive_solver congruence].
  apply (grown_elem _ _ _ _ Hmid) in Hx as [Hx|Hx].
  - assert (Ho : is_our_rule x = true).
    { apply Hband; [done|]. destruct Hsel as (_ & Hor & _). destruct Ht as [(_ & -> & _)|(_ & -> & _)]; by apply our_rule_band. }
    assert (x = r) as ->; [|by apply Hkept]. by apply (twin_is_rule r x Hsel (rl_wf k x Hx Ho) (Hranged x Hx Ho)).
  - pose proof (added_desired x Hx) as Hxd. destruct (Hok' x Hxd) as (Hw & _ & Hfu & _ & Hfp).
    assert (x = r) as <-; [|apply (grown_elem _ _ _ _ Hgrown); by right]. apply (twin_is_rule r x Hsel Hw); [|done]. intros Hu%Hfu. split; [done|by apply Hfp].
Qed.
End Settle.

Lemma settle_selectors_spec k desired refused k' refused' out : Forall selector_ok desired -> band_ours (rules_of k) -> told_apart (rules_of k) ->
  settle_selectors big_endian sequence k (rules_of k) desired refused = (k', refused', out) ->
  match out with
  | Ok _ => (forall r, r ∈ rules_of k' -> is_our_rule r = true -> r ∈ desired) /\ band_ours (rules_of k')
            /\ (ranged (rules_of k) -> forall r, r ∈ desired -> fr_ipv6 r = false \/ refused' = false -> r ∈ rules_of k')
  | Err e => e = NotSupported OLD_KERNEL -> forall r, r ∈ rules_of k' -> is_our_rule r = false
  end.
Proof.
  intros Hok Hband Hapart. unfold settle_selectors. rewrite (surjective_pairing (selector_changes (rules_of k) desired)).
  set (changes := selector_changes (rules_of k) desired).
  assert (Hadd : Forall selector_ok changes.1).
  { rewrite Forall_forall in Hok |- *. intros r Hr. apply Hok. cbn in Hr. by apply filter_elem in Hr as [? _]. }
  assert (Hdel : Forall (fun d => fib_rule_wf d /\ is_our_rule d = true) changes.2).
  { pose proof (ours_deletable big_endian sequence k) as H. rewrite Forall_forall in H |- *. intros r Hr. apply H. cbn in Hr. by apply filter_elem in Hr as [? _]. }
  destruct (add_rules big_endian sequence k refused changes.1 0) as [[k2 rf] [m|e]] eqn:Ea;
    pose proof (add_rules_spec big_endian sequence _ _ _ _ _ _ _ Hadd Hband Ea) as (_ & Hout); [|by intros [= <- <- <-]].
  destruct Hout as [_ Hadds].
  assert (Hadds' : adds_done changes.1 (rules_of k) (rules_of k2) rf ((0 <? m)%nat = true)) by (unfold adds_done; by setoid_rewrite Nat.ltb_lt).
  destruct (changes_taken k desired (rules_of k2) rf _ Hapart Hadds') as (old' & rules & Ht & new & Hg & Hmid & Hnew & Hgrew & Hold).
  destruct (delete_rules big_endian sequence k2 changes.2 0) as [k3 [n|e]] eqn:Ed;
    pose proof (delete_rules_spec big_endian sequence _ _ _ _ _ _ Hdel Ht Ed) as Hk3.
  2: { intros [= <- <- <-] ->. by destruct Hk3 as (? & ? & ? & ?). }
  cbn iota in Hk3. subst rules. assert (Hend : ((0 <? m)%nat = true -> forall r, r ∈ rules_of k3 -> is_our_rule r = true -> fr_uid_range r = None -> fr_forwarded r = true) ->
    (forall r, r ∈ rules_of k3 -> is_our_rule r = true -> r ∈ desired) /\ band_ours (rules_of k3)
    /\ (ranged (rules_of k) -> forall r, r ∈ desired -> fr_ipv6 r = false \/ rf = false -> r ∈ rules_of k3)).
  { intros Hcheck. split_and!.
    - by apply (settle_only_desired k desired (rules_of k3) (0 <? m)%nat Hok old' new).
    - by apply (settle_band k desired (rules_of k3) (0 <? m)%nat Hok Hband old' new).
    - intros Hr r. by apply (settle_all_desired k desired (rules_of k2) (rules_of k3) rf (0 <? m)%nat Hok Hband Hadds' old' new). }
  destruct (0 <? m)%nat.
  - destruct (get_fib_rules big_endian sequence k3) as [now|e] eqn:En.
    + apply rl_dump in En as ->. destruct (uid_range_ignored (rules_of k3)) eqn:Ei.
      * destruct (give_up_selecting big_endian sequence k3) as [k4 out'] eqn:Eg. intros [= <- <- <-].
        assert (Hb3 : band_ours (rules_of k3)); [|by destruct (give_up_spec big_endian sequence k3 k4 out' Hb3 Eg) as (e & -> & Hns)].
        intros r Hr Hp. apply (grown_elem _ _ _ _ Hg) in Hr as [[Hr _]%Hold|Hr]; [by apply Hband|].
        rewrite Forall_forall in Hnew. by apply (as_added_ours changes.1), Hnew.
      * intros [= <- <- <-]. apply Hend. intros _ r. by apply uid_range_kept.
    + intros [= <- <- <-] ->. by destruct (get_fib_rules_refused big_endian sequence _ _ En) as (? & ? & ? & ?).
  - intros [= <- <- <-]. by apply Hend.
Qed.

(** The rules a pass wants. *)
Abbreviation planned routing plan := (selector_rules plan (lp_sys_uid_max routing) (negb (lp_ipv6_refused routing))).

Lemma reconcile_selectors_spec (routing : LinuxPrincipalRouting) (k : F) (plan : SelectorPlan) (k' : F) (routing' : LinuxPrincipalRouting)
    (out : result SelectorDelta PlatformError) :
  0 <= lp_sys_uid_max routing < 2 ^ 32 -> plan_wf plan -> band_ours (rules_of k) -> told_apart (rules_of k) ->
  reconcile_selectors big_endian sequence routing k plan = (k', routing', out) ->
  match out with
  | Ok _ =>
      (forall r, r ∈ rules_of k' -> is_our_rule r = true -> r ∈ planned routing plan)
      /\ (ranged (rules_of k) -> forall r, r ∈ planned routing plan -> fr_ipv6 r = false \/ lp_ipv6_refused routing' = false -> r ∈ rules_of k')
      /\ band_ours (rules_of k') /\ ranged (rules_of k') /\ (users_once plan -> told_apart (rules_of k'))
  | Err e => e = NotSupported OLD_KERNEL -> forall r, r ∈ rules_of k' -> is_our_rule r = false
  end.
Proof.
  intros Hsys Hplan Hband Hapart. unfold reconcile_selectors. destruct (negb (lp_kernel_selects_by_uid routing)).
  { destruct (give_up_selecting big_endian sequence k) as [k1 out1] eqn:Eg. pose proof (give_up_spec big_endian sequence k k1 out1 Hband Eg) as (e & -> & Hns).
    by intros [= <- <- <-]. }
  destruct (get_fib_rules big_endian sequence k) as [installed|e] eqn:Hd.
  2: { intros [= <- <- <-] ->. by destruct (get_fib_rules_refused big_endian sequence _ _ Hd) as (? & ? & ? & ?). }
  apply rl_dump in Hd as ->. assert (Hok : Forall selector_ok (planned routing plan)) by (apply Forall_forall; intros r; by apply selector_rules_ok).
  destruct (settle_selectors _ _ _ _ _ _) as [[k1 rf] out1] eqn:Es. apply settle_selectors_spec in Es; [|done..].
  destruct out1 as [delta|e]; [|by intros [= <- <- <-]]. destruct (keep_ours_in_front big_endian sequence k1) as [k2 out2] eqn:Ek.
  apply keep_ours_keeps in Ek as [Ek Hkb]. intros [= <- <- <-]. cbn [lp_ipv6_refused fst]. destruct Es as (H1 & Hb1 & H2). specialize (Hkb Hb1).
  assert (Hours : forall r, is_our_rule r = true -> r ∈ rules_of k2 <-> r ∈ rules_of k1).
  { intros r Ho. pose proof (filter_elem is_our_rule (rules_of k2) r) as Hf2. rewrite Ek, filter_elem in Hf2. tauto. }
  assert (Honly : forall r, r ∈ rules_of k2 -> is_our_rule r = true -> r ∈ planned routing plan) by (intros r Hr Ho; apply H1; [by apply Hours|done]).
  rewrite Forall_forall in Hok. split_and!; [exact Honly| |exact Hkb| |].
  - intros Hr r Hin H6. apply Hours; [by apply (Hok r)|by apply H2].
  - intros r Hr Ho Hu. destruct (Hok r (Honly r Hr Ho)) as (_ & _ & Hfu & _ & Hfp). apply Hfu in Hu. split; [done|by apply Hfp].
  - intros Honce. by apply (planned_told_apart plan (lp_sys_uid_max routing) (negb (lp_ipv6_refused routing))).
Qed.

(** C10. A pass makes the kernel's rules the planned ones. Before it, nobody else has a rule in
    our band and no rule of ours stands behind another one that a delete of it would also
    match. When the pass says it did, every rule of ours that stands is one of the plan's,
    with its uid range; and if no rule of ours selected everybody before, all of the plan's
    stand, of which the IPv6 ones may be missing when the kernel refuses them. It leaves
    the three conditions true for the next pass, the second if no user is in the plan
    twice. When it says the kernel cannot select by user, nothing of ours is left
    selecting. On an old kernel that drops the ranges the check after the adds is what
    keeps this. *)
Theorem reconcile_selectors_exact (routing : LinuxPrincipalRouting) (k : F) (plan : SelectorPlan) (k' : F) (routing' : LinuxPrincipalRouting)
    (out : result SelectorDelta PlatformError) :
  0 <= lp_sys_uid_max routing < 2 ^ 32 -> plan_wf plan -> band_ours (rules_of k) -> told_apart (rules_of k) ->
  reconcile_selectors big_endian sequence routing k plan = (k', routing', out) ->
  match out with
  | Ok _ =>
      (forall r, r ∈ rules_of k' -> is_our_rule r = true -> r ∈ planned routing plan)
      /\ (ranged (rules_of k) -> forall r, r ∈ planned routing plan -> fr_ipv6 r = false \/ lp_ipv6_refused routing' = false -> r ∈ rules_of k')
      /\ band_ours (rules_of k') /\ ranged (rules_of k') /\ (users_once plan -> told_apart (rules_of k'))
  | Err e => e = NotSupported OLD_KERNEL -> forall r, r ∈ rules_of k' -> is_our_rule r = false
  end.
Proof. apply reconcile_selectors_spec. Qed.
End Outcome.

(** ** A kernel that keeps the laws *)

Section Octets.
Context (big_endian : bool).

Lemma ne_bytes_octets w n : Forall (fun b => (b < 256)%N) (ne_bytes big_endian w n).
Proof. unfold ne_bytes. destruct big_endian; [|apply Forall_reverse]; by apply fixed_digits_bound. Qed.

Lemma push_attr_octets b ty payload : Forall (fun b => (b < 256)%N) b -> Forall (fun b => (b < 256)%N) payload ->
  Forall (fun b => (b < 256)%N) (push_attr big_endian b ty payload).
Proof.
  intros Hb Hp. unfold push_attr, padded. repeat apply Forall_app_2; try done; try apply ne_bytes_octets.
  apply Forall_replicate. lia.
Qed.

Lemma rule_body_octets rule : fib_rule_wf rule -> Forall (fun b => (b < 256)%N) (rule_body big_endian rule).
Proof.
  intros (_ & Ht & _). assert (Hlo : Forall (fun b => (b < 256)%N) LOCAL_ORIGIN_IIF) by (repeat constructor; lia).
  unfold rule_body. assert (H0 : Forall (fun b => (b < 256)%N) (rule_header big_endian rule)).
  { unfold rule_header, AF_INET_U8, AF_INET6_U8, FR_ACT_TO_TBL. apply Forall_app_2; [|apply ne_bytes_octets].
    repeat (apply Forall_cons_2; [try (case_match; lia); lia|]). constructor. }
  repeat case_match; repeat first [exact H0 | exact Hlo | apply ne_bytes_octets | apply push_attr_octets | apply Forall_app_2].
Qed.
End Octets.

Definition rule_wfb (r : FibRule) : bool :=
  (0 <=? fr_priority r) && (fr_priority r <? 2 ^ 32) && (0 <=? fr_table r) && (fr_table r <? 2 ^ 32) && negb (fr_narrowed r)
  && match fr_uid_range r with Some (first, last) => (0 <=? first) && (first <? 2 ^ 32) && (0 <=? last) && (last <? 2 ^ 32) | None => true end
  && match fr_suppress_prefixlen r with Some o => (0 <=? o) && (o <? 2 ^ 8) | None => true end
  && (negb (fr_forwarded r) || negb (fr_iif_lo r) && bool_decide (fr_uid_range r = None)).

Lemma rule_wfb_wf r : rule_wfb r = true -> fib_rule_wf r.
Proof.
  unfold rule_wfb, fib_rule_wf. rewrite !andb_true_iff. intros (((((((H1 & H2) & H3) & H4) & H5) & H6) & H7) & H8). split_and!; try lia.
  - by destruct (fr_narrowed r).
  - intros first last E. rewrite E in H6. lia.
  - intros o E. rewrite E in H7. lia.
  - intros Hf. rewrite Hf in H8. cbn in H8. apply andb_prop in H8 as [H8 H9%bool_decide_eq_true]. split; [by destruct (fr_iif_lo r)|done].
Qed.

(** The numbers of Linux. *)
#[local] Instance box_errno : RuleErrno := {| EAFNOSUPPORT := 97; EINVAL := 22; EOPNOTSUPP := 95 |}.

(** A kernel that holds a list of rules and reads the requests off the wire: it puts a rule
    behind those of its family and priority, and takes out the first a delete matches. *)
Fixpoint box_insert (r : FibRule) (k : list FibRule) : list FibRule :=
  match k with
  | [] => [r]
  | x :: rest => if existsb (fun x => Bool.eqb (fr_ipv6 x) (fr_ipv6 r) && (fr_priority x <=? fr_priority r)) k then x :: box_insert r rest else r :: k
  end.

Fixpoint box_take (d : FibRule) (k : list FibRule) : option (list FibRule) :=
  match k with
  | [] => None
  | x :: rest => if rule_wfb x && delete_matches d x then Some rest else (cons x) <$> box_take d rest
  end.

Definition box_refuse (k : list FibRule) (code : Z) : list FibRule * result unit PlatformError := (k, Err (Errno [] code [])).

Definition box_act (k : list FibRule) (ty : Z) (body : list N) : list FibRule * result unit PlatformError :=
  match parse_rule_message false body with
  | Some r =>
      if rule_wfb r then
        if ty =? RTM_NEWRULE then if bool_decide (r ∈ k) then box_refuse k EEXIST else (box_insert r k, Ok tt)
        else match box_take r k with Some k' => (k', Ok tt) | None => box_refuse k ENOENT end
      else box_refuse k EINVAL
  | None => box_refuse k EINVAL
  end.

Definition box_request (k : list FibRule) (message : list N) : list FibRule * result unit PlatformError :=
  if Z.of_nat (length message) <? 2 ^ 31 then
    match walk_datagram false message with
    | ([(ty, body)], _) => box_act k ty body
    | _ => box_refuse k EINVAL
    end
  else box_refuse k EINVAL.

Definition box_dump (k : list FibRule) (message : list N) : list (list N) * PlatformError :=
  (((fun r => nl_frame false RTM_NEWRULE 0 0 (rule_body false r)) <$> List.filter rule_wfb k) ++ [nl_frame false NLMSG_DONE 0 0 []], Errno [] EAGAIN []).

#[local] Instance box_kernel : RuleKernel (list FibRule) := {| rule_request := box_request; rule_dump := box_dump |}.

Lemma box_read {A} (parse : list N -> option A) rules past acc : Forall fib_rule_wf rules ->
  read_dump false parse (((fun r => nl_frame false RTM_NEWRULE 0 0 (rule_body false r)) <$> rules) ++ [nl_frame false NLMSG_DONE 0 0 []]) past acc
  = Ok (acc ++ omap (fun r => parse (rule_body false r)) rules).
Proof.
  intros Hw. revert acc. induction Hw as [|r rules Hr _ IH]; intros acc; cbn [fmap list_fmap app read_dump].
  { assert (E : walk_datagram false (nl_frame false NLMSG_DONE 0 0 []) = ([], (true, None))) by by vm_compute. rewrite E. cbn. by rewrite app_nil_r. }
  rewrite walk_frame; [|done..|].
  - cbn [omap list_omap fst snd Z.eqb Pos.eqb RTM_NEWRULE]. rewrite IH. cbn [omap list_omap]. destruct (parse _); by rewrite <- ?app_assoc, ?app_nil_r.
  - apply rule_body_short.
Qed.

Lemma box_rules_wf (k : list FibRule) : Forall fib_rule_wf (List.filter rule_wfb k).
Proof. apply Forall_forall. intros r [_ Hr]%filter_elem. by apply rule_wfb_wf. Qed.

Lemma box_parsed rules : Forall fib_rule_wf rules -> omap (fun r => parse_rule_message false (rule_body false r)) rules = rules.
Proof. induction 1 as [|r rules Hr _ IH]; [done|]. cbn. by rewrite parse_rule_body, IH. Qed.

Lemma box_get (k : list FibRule) : get_fib_rules false 1 k = Ok (List.filter rule_wfb k).
Proof.
  unfold get_fib_rules, dump_rules. cbn. rewrite box_read by apply box_rules_wf. cbn [app]. f_equal. apply box_parsed, box_rules_wf.
Qed.

Lemma box_frame (k : list FibRule) ty flags body k' out : ty = RTM_NEWRULE \/ ty = RTM_DELRULE ->
  rule_request k (nl_frame false ty flags 1 body) = (k', out) -> (k', out) = box_act k ty body \/ (k', out) = box_refuse k EINVAL.
Proof.
  intros Hty. change (rule_request k ?m) with (box_request k m). unfold box_request.
  destruct (Z.ltb_spec (Z.of_nat (length (nl_frame false ty flags 1 body))) (2 ^ 31)) as [H|]; [|intros E; right; symmetry; exact E].
  assert (Hlen : (length body <= length (nl_frame false ty flags 1 body))%nat) by (unfold nl_frame, padded; rewrite !length_app; lia).
  rewrite walk_frame; [|destruct Hty as [->| ->]; done..|lia]. intros E. left. symmetry. exact E.
Qed.

Lemma box_insert_spec r k : exists l1 l2, k = l1 ++ l2 /\ box_insert r k = l1 ++ r :: l2
  /\ forall x, x ∈ l2 -> fr_ipv6 x = fr_ipv6 r -> fr_priority r < fr_priority x.
Proof.
  induction k as [|x k (l1 & l2 & E & Ei & Hl)]; [exists [], []; split_and!; [done..|by intros x ?%not_elem_of_nil]|]. cbn [box_insert]. destruct (existsb _ _) eqn:Ex.
  - exists (x :: l1), l2. split_and!; [by rewrite E|by rewrite Ei|done].
  - exists [], (x :: k). split_and!; [done..|]. intros y Hy E6. rewrite existsb_false in Ex. specialize (Ex y Hy). rewrite E6, Bool.eqb_reflx in Ex. cbn in Ex. lia.
Qed.

Lemma box_take_spec d k : match box_take d k with
  | Some k' => exists l1 r l2, k = l1 ++ r :: l2 /\ k' = l1 ++ l2 /\ rule_wfb r = true /\ delete_matches d r = true
               /\ forall x, x ∈ l1 -> rule_wfb x = true -> delete_matches d x = false
  | None => forall x, x ∈ k -> rule_wfb x = true -> delete_matches d x = false
  end.
Proof.
  induction k as [|x k IH]; cbn; [by intros x ?%not_elem_of_nil|]. destruct (rule_wfb x && delete_matches d x) eqn:E.
  - apply andb_prop in E as [Ew Em]. exists [], x, k. split_and!; [done..|by intros y ?%not_elem_of_nil].
  - assert (Hx : rule_wfb x = true -> delete_matches d x = false) by (intros Hw; by rewrite Hw in E). destruct (box_take d k) as [k'|]; cbn.
    + destruct IH as (l1 & r & l2 & -> & -> & Hw & Hm & Hl). exists (x :: l1), r, l2. split_and!; [done..|]. by intros y [->|Hy]%elem_of_cons; [|apply Hl].
    + by intros y [->|Hy]%elem_of_cons; [|apply IH].
Qed.

(** What the box does with a request that adds, and with one that deletes. *)
Lemma box_add k flags body k' out : rule_request k (nl_frame false RTM_NEWRULE flags 1 body) = (k', out) ->
  (out = Ok tt /\ exists r, parse_rule_message false body = Some r /\ rule_wfb r = true /\ k' = box_insert r k)
  \/ (out = Err (Errno [] EEXIST []) /\ exists r, parse_rule_message false body = Some r /\ rule_wfb r = true /\ r ∈ k)
  \/ out = Err (Errno [] EINVAL []).
Proof.
  intros [E|E]%box_frame; [|by right; right; injection E|by left]. revert E. unfold box_act, box_refuse.
  destruct (parse_rule_message false body) as [r|]; [|intros [= -> ->]; auto]. destruct (rule_wfb r) eqn:Ew; [|intros [= -> ->]; auto].
  cbn [Z.eqb Pos.eqb RTM_NEWRULE]. case_bool_decide; intros [= -> ->]; [right; left|left]; (split; [done|]); by exists r.
Qed.

Lemma box_delete k flags body k' out : rule_request k (nl_frame false RTM_DELRULE flags 1 body) = (k', out) ->
  (out = Ok tt /\ exists r, parse_rule_message false body = Some r /\ rule_wfb r = true /\ box_take r k = Some k')
  \/ (out = Err (Errno [] ENOENT []) /\ exists r, parse_rule_message false body = Some r /\ box_take r k = None)
  \/ out = Err (Errno [] EINVAL []).
Proof.
  intros [E|E]%box_frame; [|by right; right; injection E|by right]. revert E. unfold box_act, box_refuse.
  destruct (parse_rule_message false body) as [r|]; [|intros [= -> ->]; auto]. destruct (rule_wfb r) eqn:Ew; [|intros [= -> ->]; auto].
  change (RTM_DELRULE =? RTM_NEWRULE) with false. cbn iota. destruct (box_take r k) eqn:Et; intros [= -> ->]; [left|right; left]; (split; [done|]); by exists r.
Qed.

Lemma box_refused k message k' e : rule_request k message = (k', Err e) ->
  (exists operation code message, e = Errno operation code message) /\ k' = k.
Proof.
  change (rule_request k ?m) with (box_request k m). unfold box_request, box_act, box_refuse.
  repeat case_match; intros [= <- <-]; (split; [by eexists _, _, _|done]).
Qed.

Lemma box_raw k l raw : get_raw_fib_rules false 1 k = Ok l -> raw ∈ l -> raw_wf raw.
Proof.
  unfold get_raw_fib_rules, dump_rules. change (rule_dump k ?m) with (box_dump k m). unfold box_dump. cbn beta iota.
  rewrite box_read by apply box_rules_wf. intros [= <-] Hr. apply list_elem_of_omap in Hr as (r & Hr & Hp).
  apply filter_elem in Hr as [_ Hw%rule_wfb_wf]. unfold parse_raw_rule in Hp. case_match; [done|].
  apply bind_Some in Hp as (ipv6 & _ & Hp). destruct (fold_left _ _ _) as [priority jump]. injection Hp as <-. unfold raw_wf. cbn. by apply rule_body_octets.
Qed.

Lemma box_split l1 r l2 : rule_wfb r = true -> List.filter rule_wfb (l1 ++ r :: l2) = List.filter rule_wfb l1 ++ r :: List.filter rule_wfb l2.
Proof. intros Hw. rewrite List.filter_app. cbn. by rewrite Hw. Qed.

Lemma box_deleted d k k' : box_take d k = Some k' -> exists l1 r l2, List.filter rule_wfb k = l1 ++ r :: l2 /\ List.filter rule_wfb k' = l1 ++ l2
  /\ delete_matches d r = true /\ forall x, x ∈ l1 -> delete_matches d x = false.
Proof.
  intros E. pose proof (box_take_spec d k) as H. rewrite E in H. destruct H as (l1 & r & l2 & -> & -> & Hw & Hm & Hl).
  exists (List.filter rule_wfb l1), r, (List.filter rule_wfb l2). split_and!; [by apply box_split|apply List.filter_app|done|]. intros x [Hx Hwx]%filter_elem. by apply Hl.
Qed.

#[local] Instance box_laws : RuleLaws false 1 (F := list FibRule).
Proof.
  unshelve econstructor; [exact (List.filter rule_wfb)|..]; cbn beta.
  - intros k l. rewrite box_get. by intros [= <-].
  - intros k r [_ Hw]%filter_elem _. by apply rule_wfb_wf.
  - exact box_raw.
  - intros k k' body r H Hp. apply box_add in H as [(_ & r' & Hp' & Hw & ->)|[[H _]|H]]; [|done..]. rewrite Hp in Hp'. injection Hp' as <-.
    destruct (box_insert_spec r k) as (l1 & l2 & E & -> & Hl). exists r, (List.filter rule_wfb l1), (List.filter rule_wfb l2).
    split_and!; [by left|rewrite E; apply List.filter_app|by apply box_split|]. intros x [Hx _]%filter_elem. by apply Hl.
  - intros k k' body H Hp. apply box_add in H as [(_ & r' & Hp' & _)|[[H _]|H]]; [congruence|done..].
  - intros k k' body r e H Hp Hc. apply box_add in H as [[H _]|[(_ & r' & Hp' & Hw & Hin)|[= ->]]]; [done| |done]. rewrite Hp in Hp'. injection Hp' as <-.
    exists r. split; [by apply filter_elem|]. left. by split_and!.
  - intros k k' body d H Hp _ _. apply box_delete in H as [(_ & r' & Hp' & _ & Ht)|[[H _]|H]]; [|done..]. rewrite Hp in Hp'. injection Hp' as <-. by apply box_deleted.
  - intros k k' body d e H Hp Hc _ [Hin Hw]%filter_elem. apply box_delete in H as [[H _]|[(_ & r' & Hp' & Ht)|[= ->]]]; [done| |done].
    rewrite Hp in Hp'. injection Hp' as <-. pose proof (box_take_spec d k) as H. rewrite Ht in H. specialize (H d Hin Hw). by rewrite delete_matches_self in H.
  - intros k k' body raw H Hraw _. right. apply box_delete in H as [(_ & r' & Hp' & _ & Ht)|[[H _]|H]]; [|done..].
    destruct (raw_of_rule false body r' Hp') as (raw' & E & _ & E6 & Ep & _). rewrite Hraw in E. injection E as <-.
    destruct (box_deleted r' k k' Ht) as (l1 & r & l2 & E1 & E2 & Hm & _). destruct (delete_matches_class r' r Hm) as (? & ? & _).
    exists l1, r, l2. split_and!; congruence.
  - by intros k k' message e [He ->]%box_refused.
  - intros k l e [= _ <-]. by eexists _, _, _.
Defined.

(** A pass over a kernel with a rule of ours left from a user who is gone, and a tunnel's. *)
Definition stale_rule : FibRule := mkFibRule false 30100 (PRINCIPAL_TABLE_BASE + 1002) (Some (1002, 1002)) None true false false.
Definition tunnel_rule : FibRule := mkFibRule false 32765 51820 None None false false false.

Lemma two_users_wf : plan_wf two_users.
Proof.
  split; [|by intros s o [= <-] [= <-]]. intros q s o [[= -> ->]|[[= -> ->]|[]%not_elem_of_nil]%elem_of_cons]%elem_of_cons; [by intros [= <-]|done].
Qed.

Definition before_pass : list FibRule := [stale_rule; tunnel_rule].

Lemma before_pass_ready : band_ours (rules_of before_pass) /\ told_apart (rules_of before_pass).
Proof.
  change (rules_of before_pass) with before_pass. split.
  - intros r [->|[->|[]%not_elem_of_nil]%elem_of_cons]%elem_of_cons H; [done|]. unfold BAND_END in H. cbn in H. lia.
  - intros l1 x l2 d E Hd Ho _. assert (Hin : d ∈ [tunnel_rule]) by (destruct l1; injection E as _ E; rewrite E; set_solver).
    by apply list_elem_of_singleton in Hin as ->.
Qed.

Lemma reconcile_selectors_exact_witness :
  exists k' routing' delta, reconcile_selectors false 1 (mkRouting 999 true false) before_pass two_users = (k', routing', Ok delta)
  /\ sd_removed delta = 1%nat
  /\ (forall r, r ∈ rules_of k' -> is_our_rule r = true -> r ∈ selector_rules two_users 999 true).
Proof.
  assert (E : exists k' routing' delta,
    reconcile_selectors false 1 (mkRouting 999 true false) before_pass two_users = (k', routing', Ok delta) /\ sd_removed delta = 1%nat)
    by (eexists _, _, _; split; [vm_compute; reflexivity|done]).
  destruct E as (k' & routing' & delta & E & Hr). exists k', routing', delta. split; [exact E|]. split; [exact Hr|].
  assert (Hsys : 0 <= 999 < 2 ^ 32) by lia. destruct before_pass_ready as [Hband Hapart].
  exact (proj1 (reconcile_selectors_exact false 1 (mkRouting 999 true false) before_pass two_users k' routing' (Ok delta) Hsys two_users_wf Hband Hapart E)).
Defined.

(** A run that ends between its adds and its deletes can leave two rules of ours that differ
    in the suppressed length alone. When the plan then wants the first of them, the delete of
    the second, whose request carries no length, takes the first out: the pass says it did,
    the rule it was to delete stands, and the one it wants does not. *)
Definition with_length : FibRule := mkFibRule false 30100 (PRINCIPAL_TABLE_BASE + 1000) (Some (1000, 1000)) (Some 1) true false false.
Definition without_length : FibRule := mkFibRule false 30100 (PRINCIPAL_TABLE_BASE + 1000) (Some (1000, 1000)) None true false false.

Lemma delete_takes_the_wrong_rule : exists k' routing' delta,
  reconcile_selectors false 1 (mkRouting 999 true false) [with_length; without_length] two_users = (k', routing', Ok delta)
  /\ with_length ∈ selector_rules two_users 999 true /\ (without_length ∉ selector_rules two_users 999 true)
  /\ (with_length ∉ rules_of k') /\ without_length ∈ rules_of k'.
Proof.
  eexists _, _, _. split; [vm_compute; reflexivity|]. split_and!; apply (bool_decide_eq_true_1 _); by vm_compute.
Qed.
