(* ===== verification/RouteApply.v ===== *)
(** * Applying the planned routes

    service-runtime/src/route_apply.rs: the pass that puts every present user's planned
    routes into the tables of the system, each user's into a table of their own where the
    platform routes by user and the owner's into the one table where it does not, the
    install ahead of a pass, the two stops, and the takeover of what a previous run left.

    The adapters are a reading given to each call, the bindings a function, and the routing
    by user a port with its laws ([PrincipalRoutingPort], [PortLaws]); the clock and the
    teardown latch are those of the reconciler. The log is left out. *)

From stdpp Require Import base numbers list gmap fin_maps.
From S2P Require Import Prelude Str IpAddr IpBlock NetPolicy RouteTable Reconcile RoutePlan Netlink.
From S2P Require Import PolicyRules LinuxTable.

Open Scope Z_scope.

(** ** Inputs *)

(** The fields of an adapter the pass reads; [av_up] is [oper_status == Up]. *)
Record AdapterView : Set := mkAdapterView { av_index : Z; av_adapter_name : str; av_friendly_name : str; av_up : bool; av_gateways : list Z }.

Record EgressBinding : Set := mkBinding { eb_primary : option str; eb_secondary : option str }.

(** The fields of a plan the pass reads. *)
Record EnforcementPlan : Set := mkPlan { ep_principal : UserPrincipal; ep_routes : list RouteIntent }.

Record RouteApplyReport : Set := mkReport { ra_added : nat; ra_removed : nat; ra_unresolved : list str; ra_failure : option PlatformError }.

Record RoutePass : Set := mkPass { rp_plans : list EnforcementPlan; rp_present : list UserPrincipal; rp_owner : option UserPrincipal; rp_planned_at : Z }.

(** What a call gives up with, in place of the text of each message. *)
Inductive ApplyError : Set :=
| AdaptersUnread (e : PlatformError)
| NotReconciled (e : PlatformError)
| NotInstalledAhead (e : PlatformError)
| NotRemoved (e : PlatformError)
| SelectorsNotRemoved (e : PlatformError)
| OverlaysNotRemoved (e : PlatformError).

Definition BASELINE_PRINCIPAL : str := u "__baseline__".

Definition as_stored (p : UserPrincipal) : str := match p with Baseline => BASELINE_PRINCIPAL | OsUser s => s end.

(** Routing by user, over the kernel [K]. *)
Record PrincipalRoutingPort (K : Type) := mkPort {
  pp_table_for : UserPrincipal -> option RouteTableRef;
  pp_system_table : RouteTableRef;
  pp_is_principal_table : RouteTableRef -> bool;
  pp_reconcile_selectors : K -> SelectorPlan -> K * result SelectorDelta PlatformError;
  pp_clear_selectors : K -> K * result nat PlatformError;
}.
Arguments mkPort {K}.
Arguments pp_table_for {K}.
Arguments pp_system_table {K}.
Arguments pp_is_principal_table {K}.
Arguments pp_reconcile_selectors {K}.
Arguments pp_clear_selectors {K}.

(** ** Rows *)

(** The longest overlay half among [routes]. *)
Definition overlay_prefix_of (routes : list RouteEntry) : option Z :=
  match prefix_length <$> List.filter is_overlay_route routes with [] => None | x :: l => Some (fold_left Z.max l x) end.

Definition put_in (t : RouteTableRef) (r : RouteEntry) : RouteEntry :=
  mkRoute (destination r) (prefix_length r) (next_hop r) (interface_index r) (metric r) (is_ours r) t.

Definition in_table (routes : list RouteEntry) (t : RouteTableRef) : list RouteEntry := put_in t <$> routes.

Definition target_for (adapters : list AdapterView) (name : str) : option RouteTarget :=
  adapter ← List.find (fun a => (str_eqb (av_friendly_name a) name || str_eqb (av_adapter_name a) name) && av_up a) adapters;
  if av_index adapter =? 0 then None
  else Some (mkRouteTarget (default 0 (head (av_gateways adapter))) 0 (av_index adapter)).

(** ** The applier *)

Record Applier := mkApplier { ap_reconciler : Reconciler; ap_leftovers_adopted : bool; ap_refused : bool }.

Definition new_applier : Applier := mkApplier new_reconciler false false.

Section Applier.
Context {K : Type} `{!RouteTablePort K} `{!Libc} (bindings : UserPrincipal -> EgressBinding) (routing : option (PrincipalRoutingPort K)).

(** The port, unless the kernel has refused it. *)
Definition active_port (a : Applier) : option (PrincipalRoutingPort K) := if ap_refused a then None else routing.

Definition in_our_table (r : RouteEntry) : bool := match routing with Some port => pp_is_principal_table port (table r) | None => false end.

Definition adopt_leftovers (k : K) (a : Applier) : Applier :=
  if ap_leftovers_adopted a then a
  else match adopt_signed_routes_with k (ap_reconciler a) in_our_table with
       | (r, Ok _) => mkApplier r true (ap_refused a)
       | (_, Err _) => a
       end.

Definition lowered_plan (adapters : list AdapterView) (plan : EnforcementPlan) : list RouteEntry * list str :=
  let binding := bindings (ep_principal plan) in
  let secondary := eb_secondary binding ≫= target_for adapters in
  let primary := eb_primary binding ≫= target_for adapters in
  match secondary with
  | None => ([], match ep_routes plan with [] => [] | _ => [as_stored (ep_principal plan)] end)
  | Some secondary => (lower_routes (ep_routes plan) secondary primary, [])
  end.

Definition reconcile_rows (k : K) (a : Applier) (desired : list RouteEntry) (unresolved : list str) (planned_at : option Z)
    (now now' : Z) (gate : nat -> bool) : K * Applier * result RouteApplyReport ApplyError :=
  let '(k, r, out) := match planned_at with
                      | Some at_ => reconcile_planned k (ap_reconciler a) desired at_ now now' gate
                      | None => reconcile k (ap_reconciler a) desired now now' gate
                      end in
  (k, mkApplier r (ap_leftovers_adopted a) (ap_refused a),
   match out with
   | Ok delta => Ok (mkReport (Reconcile.added delta) (Reconcile.removed delta) unresolved None)
   | Err e => Err (NotReconciled e)
   end).

Definition apply_planned (k : K) (a : Applier) (adapters : result (list AdapterView) PlatformError) (plans : list EnforcementPlan)
    (planned_at : option Z) (now now' : Z) (gate : nat -> bool) : K * Applier * result RouteApplyReport ApplyError :=
  match adapters with
  | Err e => (k, a, Err (AdaptersUnread e))
  | Ok adapters =>
      reconcile_rows k (adopt_leftovers k a) (plans ≫= fun p => (lowered_plan adapters p).1) (plans ≫= fun p => (lowered_plan adapters p).2) planned_at now now' gate
  end.

Definition apply (k : K) (a : Applier) (adapters : result (list AdapterView) PlatformError) (plans : list EnforcementPlan) :=
  apply_planned k a adapters plans None.

Definition plan_origin (a : Applier) : Z := write_count (ap_reconciler a).

(** The plans of a principal: the first that names them. *)
Definition plan_of (plans : list EnforcementPlan) (principal : UserPrincipal) : option EnforcementPlan :=
  List.find (fun p => bool_decide (ep_principal p = principal)) plans.

Definition owned_plans (pass : RoutePass) : list EnforcementPlan :=
  match rp_owner pass ≫= plan_of (rp_plans pass) with Some plan => [plan] | None => [] end.

(** What the loop over the present users has gathered. *)
Record Gathered := mkGathered { g_desired : list RouteEntry; g_unresolved : list str; g_users : list (UserPrincipal * TableSelector); g_system : TableSelector }.

Definition routes_of (adapters : list AdapterView) (plans : list EnforcementPlan) (principal : UserPrincipal) : list RouteEntry * list str :=
  match plan_of plans principal with Some plan => lowered_plan adapters plan | None => ([], []) end.

Definition gather_user (port : PrincipalRoutingPort K) (adapters : list AdapterView) (pass : RoutePass) (g : Gathered) (principal : UserPrincipal) : Gathered :=
  let '(routes, unresolved) := routes_of adapters (rp_plans pass) principal in
  let selector := mkSelector (overlay_prefix_of routes) in
  let g := mkGathered (g_desired g) (g_unresolved g ++ unresolved) (g_users g) (g_system g) in
  let g := match pp_table_for port principal with
           | Some t => mkGathered (g_desired g ++ in_table routes t) (g_unresolved g) (g_users g ++ [(principal, selector)]) (g_system g)
           | None => match routes with
                     | [] => g
                     | _ => mkGathered (g_desired g) (g_unresolved g ++ [as_stored principal]) (g_users g) (g_system g)
                     end
           end in
  if bool_decide (rp_owner pass = Some principal)
  then mkGathered (g_desired g ++ in_table routes (pp_system_table port)) (g_unresolved g) (g_users g) selector else g.

Definition gather (port : PrincipalRoutingPort K) (adapters : list AdapterView) (pass : RoutePass) : Gathered :=
  fold_left (gather_user port adapters pass) (rp_present pass) (mkGathered [] [] [] (mkSelector None)).

Definition selector_plan (pass : RoutePass) (g : Gathered) : SelectorPlan :=
  mkSelectorPlan (g_users g) (match rp_present pass with [] => None | _ => Some (g_system g) end).

(** One pass. [adapters'] is the reading of the pass over one table that a refusal by the
    kernel turns this one into. *)
Definition apply_pass (k : K) (a : Applier) (adapters adapters' : result (list AdapterView) PlatformError) (pass : RoutePass)
    (now now' : Z) (gate : nat -> bool) : K * Applier * result RouteApplyReport ApplyError :=
  match active_port a with
  | None => apply_planned k a adapters (owned_plans pass) (Some (rp_planned_at pass)) now now' gate
  | Some port =>
      match adapters with
      | Err e => (k, a, Err (AdaptersUnread e))
      | Ok adapters =>
          let a := adopt_leftovers k a in
          let g := gather port adapters pass in
          match pp_reconcile_selectors port k (selector_plan pass g) with
          | (k, Err (NotSupported _)) =>
              apply_planned k (mkApplier (ap_reconciler a) (ap_leftovers_adopted a) true) adapters' (owned_plans pass) (Some (rp_planned_at pass)) now now' gate
          | (k, selected) =>
              let '(k, a, out) := reconcile_rows k a (g_desired g) (g_unresolved g) (Some (rp_planned_at pass)) now now' gate in
              (k, a, match out with
                     | Ok report => Ok (mkReport (ra_added report) (ra_removed report) (ra_unresolved report)
                                          (match selected with Err e => Some e | Ok _ => None end))
                     | Err e => Err e
                     end)
          end
      end
  end.

Definition install_ahead (k : K) (a : Applier) (adapters : result (list AdapterView) PlatformError) (plan : EnforcementPlan) (owner : bool) (gate : bool)
  : K * Applier * result nat ApplyError :=
  match adapters with
  | Err e => (k, a, Err (AdaptersUnread e))
  | Ok adapters =>
      let a := adopt_leftovers k a in
      let routes := (lowered_plan adapters plan).1 in
      let desired := match active_port a with
                     | None => if owner then routes else []
                     | Some port =>
                         match pp_table_for port (ep_principal plan) with Some t => in_table routes t | None => [] end
                         ++ (if owner then in_table routes (pp_system_table port) else [])
                     end in
      match desired with
      | [] => (k, a, Ok 0%nat)
      | _ =>
          let '(k, r, out) := install_additional k (ap_reconciler a) desired gate in
          (k, mkApplier r (ap_leftovers_adopted a) (ap_refused a), match out with Ok n => Ok n | Err e => Err (NotInstalledAhead e) end)
      end
  end.

Definition clear_all (k : K) (a : Applier) (now now' : Z) (gate : nat -> bool) : K * Applier * result RouteApplyReport ApplyError :=
  let a := adopt_leftovers k a in
  let '(k, selectors) := match routing with
                         | Some port => match pp_clear_selectors port k with
                                        | (k, Ok _) => (k, None)
                                        | (k, Err e) => (k, Some e)
                                        end
                         | None => (k, None)
                         end in
  let '(k, r, out) := Reconcile.clear k (ap_reconciler a) now now' gate in
  (k, mkApplier r (ap_leftovers_adopted a) (ap_refused a),
   match out, selectors with
   | Err e, _ => Err (NotRemoved e)
   | Ok _, Some e => Err (SelectorsNotRemoved e)
   | Ok delta, None => Ok (mkReport (Reconcile.added delta) (Reconcile.removed delta) [] None)
   end).

Definition keep_rule_routes (k : K) (a : Applier) (now now' : Z) (gate : nat -> bool) : K * Applier * result RouteApplyReport ApplyError :=
  let a := adopt_leftovers k a in
  let '(k, r, out) := retain_rule_routes k (ap_reconciler a) now now' gate in
  (k, mkApplier r (ap_leftovers_adopted a) (ap_refused a),
   match out with
   | Ok delta => Ok (mkReport (Reconcile.added delta) (Reconcile.removed delta) [] None)
   | Err e => Err (OverlaysNotRemoved e)
   end).

End Applier.

(** ** What a first pass leaves *)

(** What the pass relies on from the port: its rules are not rows of the tables, and a table
    of ours is shown under its own number. *)
Class PortLaws {K : Type} `{!RouteTablePort K, !Libc, !TableLaws K} (port : PrincipalRoutingPort K) : Prop := {
  selectors_keep_rows : forall k plan y, stands (pp_reconcile_selectors port k plan).1 y = stands k y;
  clearing_keeps_rows : forall k y, stands (pp_clear_selectors port k).1 y = stands k y;
  system_table_ours : pp_is_principal_table port (pp_system_table port) = true;
  user_tables_ours : forall p t, pp_table_for port p = Some t -> pp_is_principal_table port t = true;
  our_tables_shown : forall t, pp_is_principal_table port t = true -> table_shown t = t;
}.

Section FirstPass.
Context {K : Type} `{!RouteTablePort K} `{!Libc} `{!TableLaws K} (bindings : UserPrincipal -> EgressBinding) (routing : option (PrincipalRoutingPort K)).
Context (Hport : forall port, routing = Some port -> PortLaws port).
Implicit Types (k : K) (rows : list RouteEntry) (y : TableRow).

(** A row the table shows as ours: by its signature, or by the table it is in. *)
Definition ours_shown (o : RouteEntry) : bool := is_owned_route o || in_our_table routing o.

Definition row_ours y : bool := match seen_as y with Some o => ours_shown o | None => false end.

(** The rows of ours are told apart: the delete of one names it and no other row, and no
    two have one key. *)
Definition ours_apart k : Prop :=
  forall y o, stands k y = true -> seen_as y = Some o -> ours_shown o = true ->
  names_row o y = true
  /\ forall y', stands k y' = true ->
     names_row o y' = true \/ (exists o', seen_as y' = Some o' /\ ours_shown o' = true /\ route_key o' = route_key o) -> y' = y.

(** What a pass for [desired] leaves of the table [k]: the rows that were not ours, and of
    the rest only rows shown with a wanted key; for each wanted route its row, or one the
    table takes for it. *)
Definition settled_to k (desired : list RouteEntry) (k' : K) : Prop :=
  (forall y, stands k y = true -> row_ours y = false -> stands k' y = true)
  /\ (forall y, stands k' y = true -> stands k y = true /\ row_ours y = false
        \/ exists e o, e ∈ desired /\ seen_as y = Some o /\ route_key o = shown_key e)
  /\ (forall e, e ∈ desired -> exists y, stands k' y = true
        /\ (clashes_with e y = true \/ exists o, seen_as y = Some o /\ route_key o = shown_key e)).

Definition adopted (k : K) : Reconciler := (adopt_signed_routes_with k new_reconciler (in_our_table routing)).1.

Lemma push_new_elem found : forall l e, e ∈ fold_left push_new found l -> e ∈ l \/ e ∈ found.
Proof.
  induction found as [|f found IH]; intros l e; cbn; [by left|]. intros [Hx|Hx]%IH; [|right; by right]. unfold push_new in Hx.
  destruct (has _ _); [by left|]. apply elem_of_app in Hx as [Hx|Hx]; [by left|]. right. apply list_elem_of_singleton in Hx as ->. by left.
Qed.

(** What an adoption claims, with the row each claim is of. *)
Lemma adopted_from k rows e : get_ip_forward_table k = Ok rows -> e ∈ routes (owned (adopted k)) ->
  exists y o, stands k y = true /\ seen_as y = Some o /\ ours_shown o = true /\ route_key e = route_key o /\ metric e = metric o.
Proof.
  intros G. unfold adopted, adopt_signed_routes_with, signed_routes. rewrite G. cbn. intros [Hx|Hx]%push_new_elem; [by apply not_elem_of_nil in Hx|].
  apply list_elem_of_fmap in Hx as (o & -> & [Ho Hs]%filter_elem). apply (read_table k rows G) in Ho as (y & Hy & Hyo). by exists y, o.
Qed.

Lemma adopted_to k rows y o : get_ip_forward_table k = Ok rows -> stands k y = true -> seen_as y = Some o -> ours_shown o = true ->
  route_key o ∈ keys (routes (owned (adopted k))).
Proof.
  intros G Hy Hyo Ho. unfold adopted. destruct (adopt_signed_routes_with k new_reconciler (in_our_table routing)) as [r res] eqn:E. cbn [fst].
  apply (adopt_claims k new_reconciler _ r res E). right. exists rows, o. split_and!; [done| |done|done]. apply (read_table k rows G). eauto.
Qed.

Lemma adopted_rest k : ahead (owned (adopted k)) = [] /\ contested (owned (adopted k)) = ∅.
Proof. unfold adopted, adopt_signed_routes_with. by case_match. Qed.

(** The delete of a claimed route names the row it is of. *)
Lemma adopted_row k rows d y' : get_ip_forward_table k = Ok rows -> ours_apart k -> d ∈ routes (owned (adopted k)) -> stands k y' = true -> names_row d y' = true ->
  exists o, seen_as y' = Some o /\ ours_shown o = true /\ route_key d = route_key o.
Proof.
  intros G Hap Hd Hy' Hn. destruct (adopted_from k rows d G Hd) as (y & o & Hy & Hyo & Ho & Hk & Hm). rewrite (names_unmarked d o y' Hk Hm) in Hn.
  destruct (Hap y o Hy Hyo Ho) as [_ Hone]. rewrite (Hone y' Hy') by by left. by exists o.
Qed.

Lemma adopted_one k rows d : get_ip_forward_table k = Ok rows -> ours_apart k -> d ∈ routes (owned (adopted k)) -> one_row k d.
Proof.
  intros G Hap Hd y1 y2 H1 H2 Hn1 Hn2. destruct (adopted_from k rows d G Hd) as (y & o & Hy & Hyo & Ho & Hk & Hm).
  rewrite (names_unmarked d o y1 Hk Hm) in Hn1. rewrite (names_unmarked d o y2 Hk Hm) in Hn2. destruct (Hap y o Hy Hyo Ho) as [_ Hone].
  rewrite (Hone y1 H1), (Hone y2 H2); [done|by left..].
Qed.

(** Straight after an adoption nothing has vanished, so no route is held out. *)
Lemma adopted_present k k1 rows e rws : get_ip_forward_table k = Ok rows -> (forall y, stands k1 y = stands k y) ->
  get_ip_forward_table k1 = Ok rws -> e ∈ routes (owned (adopted k)) -> exists o, o ∈ rws /\ presence_key o = presence_key e.
Proof.
  intros G Hsame G1 He. destruct (adopted_from k rows e G He) as (y & o & Hy & Hyo & _ & Hk & _). exists o. split.
  - apply (read_table k1 rws G1). exists y. by rewrite Hsame.
  - unfold route_key in Hk. unfold presence_key. congruence.
Qed.

Lemma adopted_not_held k k1 desired now now' x rows : get_ip_forward_table k = Ok rows -> (forall y, stands k1 y = stands k y) ->
  held_out (pass_owned k1 (adopted k) desired None now now') x now = false.
Proof.
  intros G Hsame. destruct (adopted_rest k) as [_ Hc]. enough (contested (pass_owned k1 (adopted k) desired None now now') = ∅) as E by (unfold held_out; by rewrite E).
  assert (Hs : contested (settle_contests (owned (adopted k)) desired now) = ∅) by (cbn; by rewrite Hc, map_filter_empty, fmap_empty).
  unfold pass_owned. cbn [contested]. unfold forget_vanished. case_match; [done|]. destruct (rows_seen _ _ _) as [rws|] eqn:R; [|done].
  unfold rows_seen in R. destruct (get_ip_forward_table k1) as [rws'|] eqn:G1; [|done]. injection R as <-.
  rewrite (filter_none (fun o => negb (still_there desired rws' o))); [exact Hs|]. intros e He. apply negb_false_iff. unfold still_there.
  apply orb_true_iff. right. apply bool_decide_eq_true. destruct (adopted_present k k1 rows e rws' G Hsame G1 He) as (o & Ho & <-). by apply list_elem_of_fmap_2.
Qed.

Lemma adopted_all_kept k k1 rows desired now now' e : get_ip_forward_table k = Ok rows -> (forall y, stands k1 y = stands k y) ->
  e ∈ routes (pass_owned k1 (adopted k) desired None now now') <-> e ∈ routes (owned (adopted k)).
Proof.
  intros G Hsame. rewrite pass_owned_routes. split; [by intros [? _]|]. intros He. split; [done|]. right. unfold rows_seen.
  destruct (get_ip_forward_table k1) as [rws|] eqn:G1; [|done]. by apply (adopted_present k k1 rows).
Qed.

Lemma seen_shown y o e : seen_as y = Some o -> route_key o = route_key e -> route_key o = shown_key e.
Proof.
  intros (_ & Ht & Hh)%seen_place Hk. rewrite Hk. unfold route_key in *. unfold shown_key. injection Hk as Hd _ Hn _ Htab.
  by rewrite <- Htab, Ht, <- Hd, <- Hn, Hh.
Qed.

(** A pass straight after an adoption: what was ours becomes what is wanted. *)
Lemma adopted_pass k k1 desired planned_at now now' gate k' r' delta rows :
  get_ip_forward_table k = Ok rows -> ours_apart k -> (forall y, stands k1 y = stands k y) -> (forall n, gate n = false) ->
  reconcile_owned k1 (adopted k) desired planned_at None now now' gate = (k', r', Ok delta) -> settled_to k desired k'.
Proof.
  intros G Hap Hsame Hgate E. destruct (pass_actions _ _ _ _ _ _ _ _ _ _ _ E) as (dropped & adds & journal & Hrun & Hd & Hadds & Hall).
  assert (Hdrop : forall d, d ∈ dropped <-> d ∈ routes (owned (adopted k)) /\ (route_key d ∉ keys desired)).
  { intros d. rewrite Hd. unfold dropped_route. destruct planned_at; cbn [keeps_ahead]; [|tauto]. unfold installed_after. rewrite (proj1 (adopted_rest k)). cbn. tauto. }
  assert (Hone : forall d, d ∈ dropped -> one_row k1 d).
  { intros d [Hin _]%Hdrop y1 y2. rewrite !Hsame. by apply (adopted_one k rows d G Hap Hin). }
  destruct (replaced_rows _ _ _ _ _ Hrun Hone) as (Hkeep & Hnew & Hstand). setoid_rewrite Hsame in Hkeep. setoid_rewrite Hsame in Hnew. split_and!.
  - intros y Hy Hn. apply Hkeep; [done|]. intros d [Hin _]%Hdrop. apply not_true_iff_false. intros Hdy.
    destruct (adopted_row k rows d y G Hap Hin Hy Hdy) as (o & Ho & Hours & _). unfold row_ours in Hn. rewrite Ho in Hn. congruence.
  - intros y [[Hy Hnd]|(e & o & He & _ & Ho & Hk)]%Hnew; [|right; exists e, o; split_and!; [by apply Hadds in He as [? _]|done..]].
    unfold row_ours. destruct (seen_as y) as [o|] eqn:Eo; [|by left]. destruct (ours_shown o) eqn:Hours; [right|by left].
    pose proof (adopted_to k rows y o G Hy Eo Hours) as Hin. apply list_elem_of_fmap in Hin as (d & Hkd & Hin).
    destruct (decide (route_key d ∈ keys desired)) as [Hw|Hw].
    + apply list_elem_of_fmap in Hw as (e & Hke & He). exists e, o. split_and!; [done..|]. apply (seen_shown y); [done|congruence].
    + exfalso. destruct (adopted_from k rows d G Hin) as (y0 & o0 & Hy0 & Hyo0 & Ho0 & Hk0 & Hm0). destruct (Hap y0 o0 Hy0 Hyo0 Ho0) as [Hself Hone0].
      assert (y = y0) as -> by (apply Hone0; [done|]; right; exists o; split_and!; congruence).
      specialize (Hnd d (proj2 (Hdrop d) (conj Hin Hw))). rewrite (names_unmarked d o0 y0 Hk0 Hm0) in Hnd. congruence.
  - intros e He. destruct (decide (route_key e ∈ keys (routes (pass_owned k1 (adopted k) (keys desired) None now now')))) as [Hin|Hin].
    + apply list_elem_of_fmap in Hin as (d & Hkd & Hin). apply (adopted_all_kept k k1 rows) in Hin; [|done..].
      destruct (adopted_from k rows d G Hin) as (y & o & Hy & Hyo & Ho & Hk & _). exists y. split; [|right; exists o; split; [done|]; apply (seen_shown y); congruence].
      apply Hkeep; [done|]. intros d' [Hin' Hn']%Hdrop. apply not_true_iff_false. intros Hdy. destruct (adopted_row k rows d' y G Hap Hin' Hy Hdy) as (o' & Ho' & _ & Hk').
      apply Hn'. apply list_elem_of_fmap. exists e. split; [congruence|done].
    + destruct (Hstand e) as (y & Hy & Hc); [|exists y; by auto]. apply Hall; [done..|]. by apply (adopted_not_held k k1 _ _ _ _ rows).
Qed.

Lemma first_adoption k refused rows : get_ip_forward_table k = Ok rows ->
  adopt_leftovers routing k (mkApplier new_reconciler false refused) = mkApplier (adopted k) true refused.
Proof.
  intros G. unfold adopt_leftovers, adopted. cbn [ap_leftovers_adopted ap_reconciler ap_refused]. unfold adopt_signed_routes_with, signed_routes. by rewrite G.
Qed.

(** The rows a pass is for: every present user's in their own table and the owner's in the
    system's too, or, over one table, the owner's. *)
Definition wanted_rows (refused : bool) (adapters : list AdapterView) (pass : RoutePass) : list RouteEntry :=
  match (if refused then None else routing) with
  | Some port => g_desired (gather bindings port adapters pass)
  | None => owned_plans pass ≫= fun p => (lowered_plan bindings adapters p).1
  end.

Lemma apply_pass_rows k pass adapters adapters' now now' gate k' a' report rows : get_ip_forward_table k = Ok rows -> ours_apart k -> (forall n, gate n = false) ->
  apply_pass bindings routing k new_applier (Ok adapters) (Ok adapters') pass now now' gate = (k', a', Ok report) ->
  settled_to k (wanted_rows (ap_refused a') (if ap_refused a' then adapters' else adapters) pass) k'.
Proof.
  intros G Hap Hgate. unfold apply_pass, active_port, new_applier. cbn [ap_refused]. destruct routing as [port|] eqn:Er.
  - rewrite <- Er in *. rewrite (first_adoption k false rows G). cbn [ap_reconciler ap_leftovers_adopted]. set (g := gather bindings port adapters pass).
    destruct (pp_reconcile_selectors port k (selector_plan pass g)) as [k1 selected] eqn:Es.
    assert (Hsame : forall y, stands k1 y = stands k y).
    { intros y. pose proof (Hport port Er) as Hl. pose proof (selectors_keep_rows k (selector_plan pass g) y) as Hk. by rewrite Es in Hk. }
    assert (Hrows : forall desired unresolved, (let '(k2, a, out) := reconcile_rows k1 (mkApplier (adopted k) true false) desired unresolved
                      (Some (rp_planned_at pass)) now now' gate in
                    (k2, a, match out with Ok report => Ok (mkReport (ra_added report) (ra_removed report) (ra_unresolved report)
                                          (match selected with Err e => Some e | Ok _ => None end)) | Err e => Err e end)) = (k', a', Ok report) ->
                    ap_refused a' = false /\ settled_to k desired k').
    { intros desired unresolved. unfold reconcile_rows, reconcile_planned. cbn [ap_reconciler].
      destruct (reconcile_owned _ _ _ _ _ _ _ _) as [[k2 r2] [delta|e]] eqn:E; intros [= <- <- _]. split; [done|]. by apply (adopted_pass k k1 _ _ _ _ _ _ _ _ _ G Hap Hsame Hgate E). }
    assert (Hone : apply_planned bindings routing k1 (mkApplier (adopted k) true true) (Ok adapters') (owned_plans pass) (Some (rp_planned_at pass)) now now' gate
                   = (k', a', Ok report) -> ap_refused a' = true /\ settled_to k (owned_plans pass ≫= fun p => (lowered_plan bindings adapters' p).1) k').
    { unfold apply_planned, adopt_leftovers, reconcile_rows, reconcile_planned. cbn [ap_leftovers_adopted ap_reconciler].
      destruct (reconcile_owned _ _ _ _ _ _ _ _) as [[k2 r2] [delta|e]] eqn:E; intros [= <- <- _]. split; [done|]. by apply (adopted_pass k k1 _ _ _ _ _ _ _ _ _ G Hap Hsame Hgate E). }
    unfold wanted_rows. destruct selected as [delta|[]]; intros Hend;
      first [apply Hrows in Hend as [-> Hend]; rewrite Er; exact Hend | apply Hone in Hend as [-> Hend]; exact Hend].
  - rewrite <- Er in *. unfold apply_planned. rewrite (first_adoption k false rows G). unfold reconcile_rows, reconcile_planned. cbn [ap_reconciler].
    destruct (reconcile_owned _ _ _ _ _ _ _ _) as [[k2 r2] [delta|e]] eqn:E; intros [= <- <- _]. cbn [ap_refused]. unfold wanted_rows. rewrite Er.
    by apply (adopted_pass k k _ _ _ _ _ _ _ _ _ G Hap (fun _ => eq_refl) Hgate E).
Qed.


(** The rows gathered for one user. *)
Definition user_rows (port : PrincipalRoutingPort K) (adapters : list AdapterView) (pass : RoutePass) (p : UserPrincipal) : list RouteEntry :=
  let rows := (routes_of bindings adapters (rp_plans pass) p).1 in
  match pp_table_for port p with Some t => in_table rows t | None => [] end
  ++ (if bool_decide (rp_owner pass = Some p) then in_table rows (pp_system_table port) else []).

Lemma gather_user_desired port adapters pass g p : g_desired (gather_user bindings port adapters pass g p) = g_desired g ++ user_rows port adapters pass p.
Proof.
  unfold gather_user, user_rows. destruct (routes_of bindings adapters (rp_plans pass) p) as [rows unresolved]. cbn [fst].
  destruct (pp_table_for port p); [|destruct rows]; case_bool_decide; cbn; by rewrite ?app_nil_r, ?app_assoc.
Qed.

Lemma gather_desired port adapters pass : g_desired (gather bindings port adapters pass) = rp_present pass ≫= user_rows port adapters pass.
Proof.
  unfold gather. change (rp_present pass ≫= user_rows port adapters pass) with ([] ++ (rp_present pass ≫= user_rows port adapters pass)).
  change (@nil RouteEntry) with (g_desired (mkGathered [] [] [] (mkSelector None))) at 2.
  generalize (mkGathered [] [] [] (mkSelector None)). induction (rp_present pass) as [|p present IH]; intros g; cbn; [by rewrite app_nil_r|].
  by rewrite IH, gather_user_desired, <- app_assoc.
Qed.

Lemma wanted_elem (port : PrincipalRoutingPort K) adapters pass e : e ∈ g_desired (gather bindings port adapters pass) <->
  exists p r t, p ∈ rp_present pass /\ r ∈ (routes_of bindings adapters (rp_plans pass) p).1 /\ e = put_in t r
    /\ (pp_table_for port p = Some t \/ rp_owner pass = Some p /\ t = pp_system_table port).
Proof.
  rewrite gather_desired, list_elem_of_bind. split.
  - intros (p & He & Hp). unfold user_rows in He. apply elem_of_app in He as [He|He].
    + destruct (pp_table_for port p) as [t|] eqn:Et; [|by apply not_elem_of_nil in He]. apply list_elem_of_fmap in He as (r & -> & Hr). exists p, r, t. by auto.
    + case_bool_decide; [|by apply not_elem_of_nil in He]. apply list_elem_of_fmap in He as (r & -> & Hr). exists p, r, (pp_system_table port). split_and!; auto.
  - intros (p & r & t & Hp & Hr & -> & Hcase). exists p. split; [|done]. unfold user_rows. apply elem_of_app. destruct Hcase as [Et|[Hown ->]]; [left|right].
    + rewrite Et. by apply list_elem_of_fmap_2.
    + rewrite bool_decide_eq_true_2 by done. by apply list_elem_of_fmap_2.
Qed.

(** A row of a table of ours after a first pass is a row of a user whose table it is, and
    every row of such a user's has one at its place. *)
Lemma tables_apart (port : PrincipalRoutingPort K) k pass adapters adapters' now now' gate k' a' report rows t : routing = Some port ->
  get_ip_forward_table k = Ok rows -> ours_apart k -> (forall n, gate n = false) ->
  apply_pass bindings routing k new_applier (Ok adapters) (Ok adapters') pass now now' gate = (k', a', Ok report) -> ap_refused a' = false ->
  pp_is_principal_table port t = true ->
  (forall y o, stands k' y = true -> seen_as y = Some o -> table o = t ->
     exists p r, p ∈ rp_present pass /\ r ∈ (routes_of bindings adapters (rp_plans pass) p).1 /\ route_key o = shown_key (put_in t r)
     /\ (pp_table_for port p = Some t \/ rp_owner pass = Some p /\ t = pp_system_table port))
  /\ (forall p r, p ∈ rp_present pass -> r ∈ (routes_of bindings adapters (rp_plans pass) p).1 ->
     pp_table_for port p = Some t \/ rp_owner pass = Some p /\ t = pp_system_table port ->
     exists y, stands k' y = true /\ row_place y = (destination r, prefix_length r, t)).
Proof.
  intros Er G Hap Hgate E Href Ht. pose proof (Hport port Er) as Hl. pose proof (our_tables_shown t Ht) as Hshown.
  destruct (apply_pass_rows k pass adapters adapters' now now' gate k' a' report rows G Hap Hgate E) as (_ & Hnew & Hall).
  rewrite Href in Hnew, Hall. unfold wanted_rows in Hnew, Hall. rewrite Er in Hnew, Hall. split.
  - intros y o Hy Hyo Hto. destruct (Hnew y Hy) as [[_ Hn]|(e & o' & He & Hyo' & Hk)].
    + unfold row_ours, ours_shown, in_our_table in Hn. rewrite Hyo, Er, Hto, Ht, orb_true_r in Hn. done.
    + rewrite Hyo in Hyo'. injection Hyo' as <-. apply wanted_elem in He as (p & r & t1 & Hp & Hr & -> & Hcase). exists p, r.
      assert (t1 = t) as ->; [|done]. rewrite <- Hto. assert (Ht1 : pp_is_principal_table port t1 = true).
      { destruct Hcase as [Hc|[_ ->]]; [by apply (user_tables_ours p)|by apply system_table_ours]. }
      unfold route_key, shown_key in Hk. cbn in Hk. rewrite (our_tables_shown t1 Ht1) in Hk. congruence.
  - intros p r Hp Hr Hcase. destruct (Hall (put_in t r)) as (y & Hy & Hc); [apply wanted_elem; by exists p, r, t|]. exists y. split; [done|].
    destruct Hc as [Hc|(o & Hyo & Hk)]; [by rewrite (clash_place _ _ Hc); cbn; rewrite Hshown|].
    destruct (seen_place y o Hyo) as [-> _]. unfold route_key, shown_key in Hk. cbn in Hk. rewrite Hshown in Hk. congruence.
Qed.

End FirstPass.

(** ** Linux *)

(** A kernel of routes beside anything else. *)
#[export] Instance beside_port {R S : Type} `{!RouteTablePort R} : RouteTablePort (R * S) := {
  get_ip_forward_table k := get_ip_forward_table k.1;
  create_ip_forward_entry k e := let '(r, out) := create_ip_forward_entry k.1 e in ((r, k.2), out);
  delete_ip_forward_entry k e := let '(r, out) := delete_ip_forward_entry k.1 e in ((r, k.2), out);
}.

#[export] Instance beside_laws {R S : Type} `{!RouteTablePort R, !Libc, !TableLaws R} : TableLaws (R * S).
Proof.
  unshelve refine {| TableRow := TableRow (K := R); stands k y := stands k.1 y; row_place := row_place; seen_as := seen_as;
    table_shown := table_shown; hop_shown := hop_shown; names_row := names_row; clashes_with := clashes_with |}.
  - intros k rows G. by apply (read_table k.1).
  - apply seen_place.
  - intros [r s] e [r' s']. cbn. destruct (create_ip_forward_entry r e) as [r1 out] eqn:E. intros [= <- <- ->]. by apply create_writes.
  - intros [r s] e [r' s'] er. cbn. destruct (create_ip_forward_entry r e) as [r1 out] eqn:E. intros [= <- <- ->]. by apply create_refused.
  - intros [r s] e [r' s']. cbn. destruct (delete_ip_forward_entry r e) as [r1 out] eqn:E. intros [= <- <- ->]. by apply delete_takes.
  - intros [r s] e [r' s'] er. cbn. destruct (delete_ip_forward_entry r e) as [r1 out] eqn:E. intros [= <- <- ->]. by apply delete_refused.
  - apply names_place.
  - apply clash_place.
  - apply names_clash.
  - apply main_shown.
  - apply names_unmarked.
Defined.

Section Linux.
Context (big_endian : bool) (sequence : Z) {R F : Type} `{!RouteTablePort R, !Libc, !TableLaws R}.
Context {HE : RuleErrno} {HK : RuleKernel F} {HR : RuleLaws big_endian sequence (F := F)}.
Context (bindings : UserPrincipal -> EgressBinding).
Context (Hshown : forall t : RouteTableRef, is_principal_table t = true -> table_shown (K := R) t = t).

(** The kernel: its routes, its rules, and the port's own state. *)
Abbreviation Machine := (R * (F * LinuxPrincipalRouting))%type.

Definition linux_port : PrincipalRoutingPort Machine :=
  mkPort table_for system_table is_principal_table
    (fun k plan => let '(f, routing, out) := reconcile_selectors big_endian sequence k.2.2 k.2.1 plan in ((k.1, (f, routing)), out))
    (fun k => let '(f, out) := clear_selectors big_endian sequence k.2.1 in ((k.1, (f, k.2.2)), out)).

Lemma linux_port_laws : PortLaws linux_port.
Proof.
  split.
  - intros [r [f routing]] plan x. cbn. by destruct (reconcile_selectors _ _ _ _ _) as [[f' routing'] out].
  - intros [r [f routing]] x. cbn. by destruct (clear_selectors _ _ _) as [f' out].
  - done.
  - intros p t. cbn. unfold table_for. intros (n & Hn & ->)%fmap_Some. apply bind_Some in Hn as (uid & Hu%as_unix_uid_range & Hn).
    apply our_table_of_uid in Hn as [Hn _]; [done|lia].
  - exact Hshown.
Qed.

Definition planned_user (adapters : list AdapterView) (pass : RoutePass) (p : UserPrincipal) : option (UserPrincipal * TableSelector) :=
  (fun _ => (p, mkSelector (overlay_prefix_of (routes_of bindings adapters (rp_plans pass) p).1))) <$> table_for p.

Lemma gather_user_users adapters pass g p :
  g_users (gather_user bindings linux_port adapters pass g p) = g_users g ++ omap (planned_user adapters pass) [p].
Proof.
  unfold gather_user, planned_user. cbn [omap list_omap]. destruct (routes_of bindings adapters (rp_plans pass) p) as [rows unresolved]. cbn [fst pp_table_for linux_port].
  destruct (table_for p); cbn; [|destruct rows]; case_bool_decide; cbn; by rewrite ?app_nil_r.
Qed.

Lemma gather_users adapters pass : g_users (gather bindings linux_port adapters pass) = omap (planned_user adapters pass) (rp_present pass).
Proof.
  unfold gather. change (omap (planned_user adapters pass) (rp_present pass)) with ([] ++ omap (planned_user adapters pass) (rp_present pass)).
  change (@nil (UserPrincipal * TableSelector)) with (g_users (mkGathered [] [] [] (mkSelector None))) at 2.
  generalize (mkGathered [] [] [] (mkSelector None)). induction (rp_present pass) as [|p present IH]; intros g; [cbn; by rewrite app_nil_r|].
  cbn [fold_left]. rewrite IH, gather_user_users, <- app_assoc. by rewrite <- omap_app.
Qed.

Lemma planned_user_elem adapters pass p s : (p, s) ∈ g_users (gather bindings linux_port adapters pass) <->
  p ∈ rp_present pass /\ is_Some (table_for p) /\ s = mkSelector (overlay_prefix_of (routes_of bindings adapters (rp_plans pass) p).1).
Proof.
  rewrite gather_users, list_elem_of_omap. unfold planned_user. split.
  - intros (q & Hq & (t & Et & E)%fmap_Some). injection E as -> ->. split_and!; [done|by eexists|done].
  - intros (Hp & [t Et] & ->). exists p. split; [done|]. by rewrite Et.
Qed.

Lemma overlay_prefix_small rows o : overlay_prefix_of rows = Some o -> o < 256.
Proof.
  unfold overlay_prefix_of. destruct (prefix_length <$> List.filter is_overlay_route rows) as [|x l] eqn:E; [done|]. intros [= <-].
  assert (Hall : forall y, y ∈ x :: l -> y < 256).
  { intros y. rewrite <- E. intros (r & -> & [_ Hr]%filter_elem)%list_elem_of_fmap. unfold is_overlay_route, overlay_prefix, TUNNEL_CATCH_ALL_MAX_PREFIX in Hr. lia. }
  clear E. assert (Hx : x < 256) by (apply Hall; left). assert (Hl : forall y, y ∈ l -> y < 256) by (intros y Hy; apply Hall; by right). clear Hall.
  revert x Hx. induction l as [|y l IH]; intros x Hx; [done|]. cbn. apply IH; [intros z Hz; apply Hl; by right|]. specialize (Hl y ltac:(left)). lia.
Qed.

Lemma gather_system adapters pass : forall present g, (forall o, overlay_prefix_v4 (g_system g) = Some o -> o < 256) ->
  forall o, overlay_prefix_v4 (g_system (fold_left (gather_user bindings linux_port adapters pass) present g)) = Some o -> o < 256.
Proof.
  induction present as [|p present IH]; intros g Hg; [done|]. cbn [fold_left]. apply IH. unfold gather_user.
  destruct (routes_of bindings adapters (rp_plans pass) p) as [rows unresolved]. case_bool_decide; cbn [g_system overlay_prefix_v4].
  - apply overlay_prefix_small.
  - repeat case_match; done.
Qed.

Lemma selector_plan_wf adapters pass : plan_wf (selector_plan pass (gather bindings linux_port adapters pass)).
Proof.
  split; cbn [sp_users sp_system selector_plan].
  - intros q s o (_ & _ & ->)%planned_user_elem. apply overlay_prefix_small.
  - intros s o. destruct (rp_present pass); [done|]. intros [= <-]. unfold gather. by apply gather_system.
Qed.

(** The uids of a pass: nobody is present twice. *)
Definition present_once (pass : RoutePass) : Prop := NoDup (omap as_unix_uid (rp_present pass)).

Lemma selector_plan_once adapters pass : present_once pass -> users_once (selector_plan pass (gather bindings linux_port adapters pass)).
Proof.
  unfold present_once, users_once, present_uids. cbn [sp_users selector_plan]. rewrite gather_users.
  induction (rp_present pass) as [|p present IH]; [done|]. cbn. unfold planned_user at 1. destruct (as_unix_uid p) as [uid|] eqn:Eu.
  - intros [Hn Hnd]%NoDup_cons. destruct (table_for p); cbn; [|by apply IH]. rewrite Eu. apply NoDup_cons. split; [|by apply IH].
    intros Hin. destruct Hn. apply list_elem_of_omap in Hin as ([q s] & Hq & Eq). apply list_elem_of_omap in Hq as (q' & Hq & (t & _ & E)%fmap_Some).
    injection E as -> ->. apply list_elem_of_omap. by exists q'.
  - intros Hnd. assert (table_for p = None) as -> by (unfold table_for; by rewrite Eu). cbn. by apply IH.
Qed.

Lemma present_same_uid pass p q uid : present_once pass -> p ∈ rp_present pass -> q ∈ rp_present pass -> as_unix_uid p = Some uid -> as_unix_uid q = Some uid -> p = q.
Proof.
  unfold present_once. induction (rp_present pass) as [|r present IH]; intros Hnd Hp Hq Ep Eq; [by apply not_elem_of_nil in Hp|].
  apply elem_of_cons in Hp as [->|Hp]; apply elem_of_cons in Hq as [->|Hq]; [done|..]; cbn in Hnd.
  - rewrite Ep in Hnd. apply NoDup_cons in Hnd as [Hn _]. destruct Hn. apply list_elem_of_omap. by exists q.
  - rewrite Eq in Hnd. apply NoDup_cons in Hnd as [Hn _]. destruct Hn. apply list_elem_of_omap. by exists p.
  - apply IH; try done. destruct (as_unix_uid r); [by apply NoDup_cons in Hnd as [_ ?]|done].
Qed.

(** The table a present user's packets look up is the one their routes went to. *)
Lemma present_senders_table adapters pass p uid n sys ipv6 : present_once pass -> p ∈ rp_present pass -> as_unix_uid p = Some uid -> table_for_uid uid = Some n ->
  senders_table (selector_plan pass (gather bindings linux_port adapters pass)) sys (mkPacket ipv6 uid true)
  = Some (n, mkSelector (overlay_prefix_of (routes_of bindings adapters (rp_plans pass) p).1)).
Proof.
  intros Honce Hp Eu En. unfold senders_table. cbn [pk_local pk_uid sp_users selector_plan].
  assert (Ht : table_for p = Some (Tagged n)) by (unfold table_for; rewrite Eu; cbn; by rewrite En).
  assert (Hin : (p, mkSelector (overlay_prefix_of (routes_of bindings adapters (rp_plans pass) p).1)) ∈ g_users (gather bindings linux_port adapters pass)).
  { apply planned_user_elem. split_and!; [done|by eexists|done]. }
  destruct (List.find _ _) as [[q s]|] eqn:Ef.
  - apply find_some in Ef as [Hq%list_elem_of_In Eq%bool_decide_eq_true]. cbn in Eq.
    apply planned_user_elem in Hq as (Hq & _ & ->). rewrite (present_same_uid pass p q uid Honce Hp Hq Eu Eq), En. done.
  - pose proof (find_none _ _ Ef _ (proj1 (list_elem_of_In _ _) Hin)) as Hf. cbn in Hf. by apply bool_decide_eq_false in Hf.
Qed.

(** Rows written leave the rules alone. *)
Lemma execute_one_beside (k : Machine) journal action : (execute_one k journal action).1.1.2 = k.2.
Proof.
  destruct k as [r s]. unfold execute_one. destruct action; cbn; repeat (case_match; simplify_eq/=; try done).
Qed.

Lemma execute_beside actions : forall (k : Machine) journal, (execute k journal actions).1.1.2 = k.2.
Proof.
  induction actions as [|action actions IH]; intros k journal; [done|]. cbn [execute]. pose proof (execute_one_beside k journal action) as Hone.
  destruct (execute_one k journal action) as [[k1 journal1] [[]|e]]; cbn in Hone; [by rewrite IH|done].
Qed.

Lemma reconcile_beside (k : Machine) r desired planned_at now now' gate k' r' delta :
  reconcile_owned k r desired planned_at None now now' gate = (k', r', Ok delta) -> k'.2 = k.2.
Proof.
  unfold reconcile_owned. cbv zeta. destruct ((DeleteRoute <$> _) ++ (AddRoute <$> _)) as [|act acts] eqn:Ea; [by intros [= <- _ _]|].
  pose proof (execute_beside (act :: acts) k []) as Hx. destruct (execute k [] (act :: acts)) as [[k1 journal] [[]|e]]; cbn in Hx; [by intros [= <- _ _]|].
  by destruct (rollback_with_residue k1 journal).
Qed.

(** A pass that was not refused and reports no failure settled its selectors. *)
Lemma linux_pass_selected k pass adapters adapters' now now' gate k' a' report :
  apply_pass bindings (Some linux_port) k new_applier (Ok adapters) (Ok adapters') pass now now' gate = (k', a', Ok report) ->
  ap_refused a' = false -> ra_failure report = None ->
  exists delta, reconcile_selectors big_endian sequence k.2.2 k.2.1 (selector_plan pass (gather bindings linux_port adapters pass)) = (k'.2.1, k'.2.2, Ok delta).
Proof.
  unfold apply_pass, active_port. cbn [new_applier ap_refused pp_reconcile_selectors linux_port].
  set (plan := selector_plan pass _). destruct (reconcile_selectors big_endian sequence k.2.2 k.2.1 plan) as [[f1 lp1] selected].
  assert (Hdone : forall k1 a desired unresolved planned_at k2 a2 rep, reconcile_rows (K := Machine) k1 a desired unresolved planned_at now now' gate = (k2, a2, Ok rep) ->
    k2.2 = k1.2 /\ ap_refused a2 = ap_refused a).
  { intros k1 a desired unresolved planned_at k2 a2 rep. unfold reconcile_rows, reconcile_planned, reconcile. destruct planned_at;
      (destruct (reconcile_owned _ _ _ _ _ _ _ _) as [[k3 r3] [delta|e]] eqn:E; intros [= <- <- _]; apply reconcile_beside in E; done). }
  assert (Hrefused : forall k1 a k2 a2 rep, ap_refused a = true ->
    apply_planned bindings (Some linux_port) k1 a (Ok adapters') (owned_plans pass) (Some (rp_planned_at pass)) now now' gate = (k2, a2, Ok rep) -> ap_refused a2 = true).
  { intros k1 a k2 a2 rep Ha Hr. unfold apply_planned in Hr. apply Hdone in Hr as [_ ->]. unfold adopt_leftovers. by repeat case_match. }
  destruct selected as [delta|e].
  - destruct (reconcile_rows _ _ _ _ _ _ _ _) as [[k2 a2] [rep|er]] eqn:Er; intros [= <- <- _]. apply Hdone in Er as [Er _]. intros _ _. exists delta. by rewrite Er.
  - destruct e; try (destruct (reconcile_rows _ _ _ _ _ _ _ _) as [[k2 a2] [rep|er]]; intros [= _ _ <-]; done).
    intros Hr Href _. apply Hrefused in Hr; [congruence|done].
Qed.

(** The rules of ours that stand after the pass, in a family it was not newly refused. *)
Lemma linux_rules_stand (k : Machine) pass adapters (k' : Machine) delta ipv6 r : let plan := selector_plan pass (gather bindings linux_port adapters pass) in
  0 <= lp_sys_uid_max k.2.2 < 2 ^ 32 -> band_ours (rules_of k.2.1) -> told_apart (rules_of k.2.1) -> ranged (rules_of k.2.1) ->
  reconcile_selectors big_endian sequence k.2.2 k.2.1 plan = (k'.2.1, k'.2.2, Ok delta) -> ipv6 = false \/ lp_ipv6_refused k'.2.2 = lp_ipv6_refused k.2.2 ->
  (r ∈ rules_of k'.2.1 /\ is_our_rule r = true) /\ fr_ipv6 r = ipv6
  <-> r ∈ selector_rules plan (lp_sys_uid_max k.2.2) (negb (lp_ipv6_refused k.2.2)) /\ fr_ipv6 r = ipv6.
Proof.
  cbv zeta. intros Hsys Hband Hapart Hranged Es H6. pose proof (selector_plan_wf adapters pass) as Hwf.
  destruct (reconcile_selectors_spec big_endian sequence k.2.2 k.2.1 _ _ _ _ Hsys Hwf Hband Hapart Es) as (Honly & Hall & _). split.
  - intros [[Hr Ho] Hf]. split; [by apply Honly|done].
  - intros [Hr Hf]. split; [|done]. split; [|by apply (selector_rules_ok _ _ _ r Hsys Hwf Hr)]. apply Hall; [done..|].
    destruct H6 as [->| ->]; [by left|]. destruct (lp_ipv6_refused k.2.2) eqn:Eref; [left|by right].
    apply (selector_rules_family _ _ _ Hr).
Qed.

End Linux.

(** ** The stop that keeps the rule routes *)

(** C22. The stop that keeps the rule routes takes no row out of a user's table, and so leaves
    the overlays there. On any route table, the Linux one included, after the adoption
    and with a metric on every claimed route, which every route written carries: whatever
    the stop comes to, every row of a table other than the main one stays. *)
Theorem stop_leaves_user_overlays {K : Type} `{!RouteTablePort K, !Libc, !TableLaws K} (routing : option (PrincipalRoutingPort K)) (k : K) (a : Applier)
    (now now' : Z) (gate : nat -> bool) (k' : K) (a' : Applier) (out : result RouteApplyReport ApplyError) (y : TableRow) :
  keep_rule_routes routing k a now now' gate = (k', a', out) -> ap_leftovers_adopted a = true ->
  (forall e, e ∈ routes (owned (ap_reconciler a)) -> metric e <> 0) ->
  (row_place y).2 <> MainTable -> stands k y = true -> stands k' y = true.
Proof.
  unfold keep_rule_routes, adopt_leftovers. intros E Ha Hm Ht Hy. rewrite Ha in E. unfold retain_rule_routes in E.
  destruct (reconcile_owned k (ap_reconciler a) _ None None now now' gate) as [[k1 r1] out1] eqn:Er. injection E as <- _ _.
  apply (pass_spares y) in Er; [done| |intros e [He _]%filter_elem; by apply Hm|done].
  intros d (Hd & Hn & _). apply not_true_iff_false. intros [Hp _]%names_place. rewrite Hp in Ht. cbn in Ht. destruct (decide (table d = MainTable)) as [Htd|Htd].
  - by rewrite Htd, main_shown in Ht.
  - apply Hn. apply list_elem_of_fmap_2, filter_elem. split; [done|]. apply negb_true_iff. unfold is_overlay_route.
    rewrite (bool_decide_eq_false_2 (table d = MainTable)) by done. by rewrite andb_false_r.
Qed.

(** ** A machine to run on *)

#[local] Existing Instance box_errno.
#[local] Existing Instance box_kernel.
#[local] Existing Instance box_laws.

Abbreviation Desk := (KernelTable * (list FibRule * LinuxPrincipalRouting))%type.

Definition desk_adapters : list AdapterView :=
  [mkAdapterView 2 (u "eth0") (u "eth0") true [0xC0A80101]; mkAdapterView 7 (u "tun0") (u "tun0") true []].

Definition desk_bindings (_ : UserPrincipal) : EgressBinding := mkBinding (Some (u "eth0")) (Some (u "tun0")).

(** One user sends everything through the tunnel, the other keeps a host on the main link. *)
Definition first_user : UserPrincipal := from_linux_uid 1000.
Definition second_user : UserPrincipal := from_linux_uid 1001.

Definition desk_plans : list EnforcementPlan :=
  [mkPlan first_user [mkIntent (SubnetV4 0 1) EgressSecondary SECONDARY_ROUTE_METRIC MainTable;
                      mkIntent (SubnetV4 0x80000000 1) EgressSecondary SECONDARY_ROUTE_METRIC MainTable];
   mkPlan second_user [mkIntent (HostV4 0xC6336407) EgressPrimary SECONDARY_ROUTE_METRIC MainTable]].

Definition two_present : RoutePass := mkPass desk_plans [first_user; second_user] (Some first_user) 0.

(** A row of ours and one of a user who is gone, left by a run that died, beside the host's
    own row of a VPN client at another metric, the row of the link and a default over two. *)
Definition left_row : RouteEntry := mkRoute (V4 0xCB007109) 32 (V4 0) 7 SECONDARY_ROUTE_METRIC false MainTable.
Definition gone_row : RouteEntry := mkRoute (V4 0xCB007109) 32 (V4 0) 7 SECONDARY_ROUTE_METRIC false (Tagged (PRINCIPAL_TABLE_BASE + 1002)).
Definition client_row : RouteEntry := mkRoute (V4 0xCB007109) 32 (V4 0) 7 50 false MainTable.
Definition lan_row : RouteEntry := mkRoute (V4 0xC0A80100) 24 (V4 0) 2 100 false MainTable.
Definition wide_row : RouteEntry := mkRoute (V4 0) 0 (V4 0xC0A80101) 2 100 false MainTable.

Definition crashed_rows : KernelTable :=
  [mkKernelRow left_row true true; mkKernelRow gone_row true true; mkKernelRow client_row true true; mkKernelRow lan_row false true; mkKernelRow wide_row true false].

Definition crashed : Desk := (crashed_rows, (before_pass, mkRouting 999 true false)).

Definition crashed_seen : list RouteEntry := [left_row; gone_row; client_row; lan_row].

Definition desk_port : PrincipalRoutingPort Desk := linux_port false 1.

Abbreviation first_pass := (apply_pass desk_bindings (Some desk_port) crashed new_applier (Ok desk_adapters) (Ok desk_adapters) two_present 0 0 (fun _ => false)).

Lemma first_pass_done : exists k' a' report, first_pass = (k', a', Ok report) /\ ap_refused a' = false /\ ra_failure report = None
  /\ lp_ipv6_refused k'.2.2 = false.
Proof. eexists _, _, _. split; [vm_compute; reflexivity|done]. Qed.

Lemma desk_shown (t : RouteTableRef) : is_principal_table t = true -> table_shown (K := KernelTable) t = t.
Proof.
  destruct t as [| |n]; [done..|]. cbn. unfold is_our_table, SYSTEM_TABLE, PRINCIPAL_TABLE_BASE, RT_TABLE_MAIN. intros Hn.
  destruct (Z.eqb_spec n 254) as [->|]; [done|done].
Qed.

Lemma desk_port_laws : forall port, Some desk_port = Some port -> PortLaws port.
Proof. intros port [= <-]. apply linux_port_laws, desk_shown. Qed.

(** Whether the rows of ours are told apart, by trying every pair. *)
Definition apart_check (k : Desk) : bool :=
  forallb (fun y : KernelRow =>
    match seen_as (K := KernelTable) y with
    | Some o =>
        negb (ours_shown (Some desk_port) o)
        || names_row (K := KernelTable) o y
           && forallb (fun y' : KernelRow =>
                negb (names_row (K := KernelTable) o y'
                      || match seen_as (K := KernelTable) y' with Some o' => ours_shown (Some desk_port) o' && bool_decide (route_key o' = route_key o) | None => false end)
                || bool_decide (y' = y)) k.1
    | None => true
    end) k.1.

Lemma apart_check_ok k : apart_check k = true -> ours_apart (Some desk_port) k.
Proof.
  intros Hc y o Hy%bool_decide_eq_true Hyo Ho. unfold apart_check in Hc. rewrite forallb_forall in Hc. specialize (Hc y (proj1 (list_elem_of_In _ _) Hy)). cbv beta in Hc.
  change (seen_as (K := Desk) y) with (seen_as (K := KernelTable) y) in Hyo. rewrite Hyo, Ho in Hc. cbn [negb orb] in Hc. apply andb_prop in Hc as [Hself Hall].
  split; [exact Hself|]. intros y' Hy'%bool_decide_eq_true Hcase. rewrite forallb_forall in Hall. specialize (Hall y' (proj1 (list_elem_of_In _ _) Hy')).
  apply orb_true_iff in Hall as [Hall|Hall]; [|by apply bool_decide_eq_true in Hall]. apply negb_true_iff, orb_false_iff in Hall as [Hn Hk].
  destruct Hcase as [Hcase|(o' & Hyo' & Ho' & Hko)]; [change (names_row (K := KernelTable) o y' = true) in Hcase; congruence|].
  change (seen_as (K := KernelTable) y' = Some o') in Hyo'. rewrite Hyo', Ho', bool_decide_eq_true_2 in Hk by done. done.
Qed.

Lemma crashed_apart : ours_apart (Some desk_port) crashed.
Proof. apply apart_check_ok. by vm_compute. Qed.

Lemma desk_once : present_once two_present.
Proof. apply (bool_decide_eq_true_1 (NoDup (omap as_unix_uid (rp_present two_present)))). by vm_compute. Qed.

Lemma crashed_ranged : ranged (rules_of crashed.2.1).
Proof. change (rules_of crashed.2.1) with before_pass. by intros r [->|[->|[]%not_elem_of_nil]%elem_of_cons]%elem_of_cons. Qed.



(** The kernel's list for a user's IPv4 packet: a firewall's rule in front that passes it on,
    the rules of ours by priority, and [main] behind. *)
Definition walked_after (f : list FibRule) : list (KernelRule str) :=
  OtherRule 0 None :: (OurRule <$> List.filter (fun r => is_our_rule r && negb (fr_ipv6 r)) f) ++ [OtherRule 32766 (Some (24, u "lan"))].

Definition desk_rules : list FibRule := rules_of first_pass.1.1.2.1.

Lemma walked_after_ok uid : kernel_list (mkPacket false uid true) (fun r => r ∈ desk_rules /\ is_our_rule r = true) (walked_after desk_rules).
Proof.
  split.
  - vm_compute. repeat constructor; by vm_compute.
  - intros r. unfold walked_after. rewrite elem_of_cons, elem_of_app, list_elem_of_singleton, list_elem_of_fmap. cbn [pk_ipv6]. split.
    + intros [[=]|[(r' & [= <-] & [Hr [Ho Hf%negb_true_iff]%andb_prop]%filter_elem)|[=]]]. done.
    + intros [[Hr Ho] Hf]. right. left. exists r. split; [done|]. apply filter_elem. by rewrite Ho, Hf.
  - intros pr answer. unfold walked_after. rewrite elem_of_cons, elem_of_app, list_elem_of_singleton, list_elem_of_fmap.
    intros [[= -> _]|[(r & [=] & _)|[= -> _]]]; [left|right]; by vm_compute.
Qed.


(** The halves that carry everything stay in the first user's table after the stop. *)
Definition user_half : KernelRow := mkKernelRow (mkRoute (V4 0) 1 (V4 0) 7 SECONDARY_ROUTE_METRIC false (Tagged (PRINCIPAL_TABLE_BASE + 1000))) true true.

Definition after_first_pass : Desk * Applier := first_pass.1.

Lemma stop_leaves_user_overlays_witness :
  stands (keep_rule_routes (Some desk_port) after_first_pass.1 after_first_pass.2 0 0 (fun _ => false)).1.1 (user_half : TableRow (K := Desk)) = true.
Proof.
  destruct (keep_rule_routes (Some desk_port) after_first_pass.1 after_first_pass.2 0 0 (fun _ => false)) as [[k' a'] out] eqn:E.
  refine (stop_leaves_user_overlays (Some desk_port) after_first_pass.1 after_first_pass.2 0 0 (fun _ => false) k' a' out (user_half : TableRow (K := Desk)) E _ _ _ _).
  - by vm_compute.
  - assert (Hall : Forall (fun e => metric e <> 0) (routes (owned (ap_reconciler after_first_pass.2)))) by (vm_compute; repeat (constructor; [done|]); constructor).
    exact (proj1 (Forall_forall _ _) Hall).
  - done.
  - by vm_compute.
Defined.
